(* ===== verification/_CoqProject ===== *)
-Q . S2P
Prelude.v
Refcount.v
SlabAllocator.v
PtrCompressor.v
DList.v
Doubles.v
MMCommon.v
MMLru.v
MultiDList.v
MMQueues.v
MM2Q.v
CountMinSketch.v
MMTinyLFU.v
TinyLFUSpec.v
BloomFilter.v
BucketStorage.v
Bucket.v
Device.v
BigHash.v
SList.v
AllocationClass.v
AllocationFrame.v
AllocationRun.v
MemoryPool.v
PoolSlabs.v
PoolInv.v
PoolRun.v
PoolSpec.v
PoolManager.v
ManagerSpec.v
MemoryAllocator.v
AllocatorSpec.v
ChainedHashTable.v
HashSpec.v
CacheItem.v
CacheTypes.v
CacheAllocator.v
CacheCore.v
CacheRun.v
CacheAccess.v
CacheMM.v
CacheMemory.v
CacheSpec.v
CacheSystem.v
FurcHash.v
CompactBucket.v
CompactCache.v
CompactSpec.v
