(* ===== verification/Prelude.v ===== *)
(** * CacheLib: the cache in memory, its containers and slabs, and flash buckets

    A verification library for the core of CacheLib
    ([src/cachebench-repo/cachelib], called [cachelib/] below), the caching
    engine this repository benchmarks.  Every definition is executable and
    translated from the C++ source it names; theorems are about those
    definitions.

    ** The program

    A [CacheAllocator] keeps items in slabs of memory, finds them by key, and
    evicts items when memory runs out; its clients hold items through handles.
    [SlabAllocator]
    (allocator/memory) hands out 4 MiB slabs and compresses pointers to
    allocations into 32 bits; an [AllocationClass] carves slabs into allocations
    of one size, keeps the free ones in a list threaded through them ([SList]),
    and gives slabs back while other threads allocate and free.  A [MemoryPool]
    has a class per size and a limit on its slabs; the [MemoryPoolManager] owns
    the pools, and the [MemoryAllocator] finds the pool of an address and is
    what the cache calls.  Each item carries a 32-bit word of reference count,
    admin bits and flags ([RefcountWithFlags]) by which threads agree on who may
    use, evict or move it.  Items queue for eviction in intrusive doubly
    linked lists ([DList]) whose hooks hold compressed pointers; the containers
    [MMLru] (one list with an insertion point), [MM2Q] (five lists, a
    [MultiDList]) and [MMTinyLFU] (two lists and a [CountMinSketch] of access
    frequencies) decide the order.  Items are found by key in a
    [ChainedHashTable], whose buckets are chains threaded through the items.  On
    flash, Navy's BigHash stores small items
    in buckets ([Bucket], entries in a [BucketStorage] inside a device page),
    filters lookups with a [BloomFilter], and reads and writes buckets through a
    [Device].  A compact cache ([CompactCache]) is a separate table for small
    entries, in chunks chosen by a consistent hash ([furcHash]), that is resized
    while it is used.

    ** Files and what they model

    - [Prelude] (this file): outcomes of C++ code ([result]: normal return,
      exception, undefined behaviour), machine-width integers ([wrap], [fits]),
      bit lemmas, tactics.
    - [Refcount]: allocator/Refcount.h.  The packed word and every operation on
      it; the compare-exchange loop [atomicUpdateValue] as a step relation of
      threads; the lifetime of an item as a step relation ([incRef], [decRef],
      [markForEviction], [markMoving], ...).
    - [SlabAllocator]: allocator/memory/Slab.h, SlabAllocator.h/.cpp,
      CompressedPtr.h.  Slab headers, the constructor and restore, [makeNewSlab],
      [freeSlab], [adviseSlab], [reclaimSlab], pointer compression, saved state.
    - [PtrCompressor]: the interface (a type class) through which containers
      compress pointers, with the slab allocator as an instance.
    - [DList]: allocator/datastruct/DList.h, DList-inl.h.  List operations on a
      store of nodes ([gmap] from addresses to hooks and payload); [dlist_rep]
      relates a header and a store to the sequence of nodes.
    - [Doubles]: [double] arithmetic on [spec_float] with bounds on rounding.
    - [MMCommon]: what the containers do to an item (update time, linked bit,
      flags) and views of a store.
    - [MMLru]: allocator/MMLru.h, MMLru-inl.h.
    - [MultiDList]: allocator/datastruct/MultiDList.h, MultiDList-inl.h.
    - [MMQueues]: several queues over one store, shared by the next two.
    - [MM2Q]: allocator/MM2Q.h, MM2Q-inl.h.
    - [CountMinSketch]: common/CountMinSketch.h, CountMinSketch-inl.h.
    - [MMTinyLFU]: allocator/MMTinyLFU.h, MMTinyLFU-inl.h; [TinyLFUSpec]: its
      invariant and results.
    - [BloomFilter]: common/BloomFilter.h, BloomFilter.cpp.
    - [BucketStorage], [Bucket]: navy/bighash/BucketStorage.h/.cpp,
      Bucket.h/.cpp, on the bytes of a bucket.
    - [Device]: navy/common/Device.h, Device.cpp.  The base class (alignment,
      splitting, encryption, error paths) over an interface of concrete devices
      (a type class), with the memory device as an instance.
    - [BigHash]: navy/bighash/BigHash.h/.cpp over a device.
    - [SList]: allocator/datastruct/SList.h, SList-inl.h.
    - [AllocationClass]: allocator/memory/AllocationClass.h/.cpp and the release
      context of Slab.h; [AllocationFrame]: what its operations leave alone;
      [AllocationRun]: its operations as steps of a system of callers, with the
      invariant of reachable states.
    - [MemoryPool]: allocator/memory/MemoryPool.h/.cpp.  [PoolSlabs]: the slab
      allocator as a pool sees it, shared with others; [PoolInv]: the invariant
      of a pool and its callers; [PoolRun]: every operation as a step that keeps
      it; [PoolSpec]: the results.
    - [PoolManager]: allocator/memory/MemoryPoolManager.h/.cpp; [ManagerSpec]:
      its advise and reclaim plan.
    - [MemoryAllocator]: allocator/memory/MemoryAllocator.h/.cpp;
      [AllocatorSpec]: the memory layer as a whole, all pools over one memory.
    - [ChainedHashTable]: allocator/ChainedHashTable.h, ChainedHashTable-inl.h,
      with the handles of CacheAllocator-inl.h ([acquire]) as an instance of the
      interface through which the table makes handles; [HashSpec]: its results.
    - [CacheItem]: allocator/CacheItem.h, CacheItem-inl.h, KAllocation.h; who
      owns which part of an item.
    - [CacheTypes]: the interfaces of the access container, the MM container and
      the memory allocator as type classes, operations and laws apart.
    - [CacheAllocator]: allocator/CacheAllocator.h, CacheAllocator-inl.h and
      Handle.h over these interfaces, in a state monad with exceptions.
    - [CacheCore]: the invariant that ties the items to both containers, the
      allocator and the handles; [CacheRun]: every operation keeps it;
      [CacheSpec]: the cache and its clients, a specification of every call and
      the results.
    - [CacheAccess], [CacheMM], [CacheMemory]: [ChainedHashTable], [MMLru] and
      [MemoryAllocator] meet the interfaces.
    - [CacheSystem]: the cache put together from them by its constructor and
      [addPool], and runs of it.
    - [FurcHash]: common/FurcHash.cpp, common/MurmurHash.h.
    - [CompactBucket]: compact_cache/CCacheDescriptor.h, the interface of buckets
      as a type class, and CCacheFixedLruBucket.h as an instance.
    - [CompactCache]: compact_cache/CCache.h, CCache-inl.h over this interface, and
      the chunks of allocator/CCacheAllocator.cpp; [CompactSpec]: requests and
      resizes as steps, the invariant of every phase and the results.

    State is passed explicitly and has the fields of the C++ objects; an
    operation has the name of its C++ function (with a suffix or the class name
    where Rocq needs it).  [XDCHECK]s are part of the model: a failed check, a
    null or dangling pointer and an access outside a buffer are [Undef], so a
    theorem that an operation returns [Ok] also says that none of these happens.

    ** What the theorems show

    - Reference counts: the word refines a record of its fields
      ([run_op_refines]); in every reachable lifetime the count is the number of
      handles, and an item held exclusively has none
      ([exclusive_excludes_handles]); interleaved compare-exchange loops behave
      like atomic updates ([atomicUpdateValue_linearizable]).
    - Slabs: every operation preserves [sa_wf] and does what it promises on every
      branch; compression round trips ([compress_roundtrip]); the alternative
      compression and the pool accounting fail as described by
      [compressAlt_wraps_beyond_4GiB] and [advise_reclaim_inflates_pool_size].
    - Lists: every [DList] operation refines the operation on sequences
      ([dlist_op_refines]); a [MultiDList] is iterated in eviction order
      ([mlist_eviction_order]); its [operator--] skips singleton lists.
    - Containers: invariants of [MMLru] ([mm_wf]), [MM2Q] ([mm2q_wf]) and
      [MMTinyLFU] ([tlfu_wf]) hold in every reachable state and every call returns
      ([mmlru_run_safe], [mm2q_reachable_safe], [tlfu_reachable_safe]); the effect
      of each operation is given on the queues ([add_spec], [recordAccess_spec],
      [mm2q_rebalance_spec], [tlfu_add_spec], ...), and the order of eviction
      ([mlist_eviction_order], [tlfu_eviction_order]).
    - The sketch never undercounts while its counters are not saturated
      ([sketch_never_undercounts]); its size is computed in 32 bits and may wrap
      ([sketch_table_wraps], [counters_overflow]).
    - Flash: a Bloom filter has no false negatives and survives persistence;
      bucket storage compacts correctly; bucket [insert] evicts expired and then
      the oldest entries, as few as needed ([bucket_insert_spec]), and lookups
      see the last write ([bucket_upsert_find]).  The engine on a device that
      does not fail refines a map of bounded buckets ([bighash_run_refines]);
      on any device each operation is specified with its error paths, and a
      write a device reports as done is read back ([device_write_read]).
    - Allocation classes: under every interleaving of allocations, frees and
      slab releases that run to their end the allocations callers hold are disjoint
      and no operation fails ([ac_reachable_safe]); a release returns exactly the allocations
      that are still held ([startSlabRelease_spec]) and can always be finished
      ([release_completes]); an aborted [startSlabRelease] loses its slab
      ([aborted_release_loses_slab]).
    - Pools: the same for all classes of a pool, 127 at most ([class_count_wraps]),
      while other pools use the slab allocator ([pool_reachable_safe]); the counters of a pool are exact but
      for one case ([pool_accounting], [spare_release_subtracts_twice]); the
      class of a size is the first that fits; releases move the slab where the
      mode says; saved state is restored.
    - The allocator: with any number of pools, held allocations never overlap
      and the sizes of the pools stay within the memory
      ([allocator_reachable_safe]); an address determines its pool and class
      ([getAllocInfo_held]); a plan of the manager advises exactly the wanted
      number of slabs once some are in use ([calcNumSlabsToAdviseReclaim_exact]); iteration misses
      slabs after advising ([forEachAllocation_misses_last_slab]).

    - The hash table: every operation is that of a map from keys to items
      ([hash_table_refines]); an item is marked accessible exactly when it is
      found ([accessible_iff_found]); an iterator visits every item that stays in
      the table while others change it, if a handle to it can be had
      ([iteration_misses_nothing]); empty
      handles are kept where the documentation says they are skipped
      ([null_handles_are_kept]).

    - The cache: for clients that allocate, insert, look up, remove and drop
      handles in any order, it is a map from keys to items with eviction
      ([cache_refines_map]); handles are to live items, no item is lost and no
      call fails a check ([cache_reachable_safe]); items and their words are well
      formed ([items_typed]); eviction takes the first idle item
      ([findEviction_takes_first_idle]).  Every call returns, but for one: without
      a search limit an allocation goes on searching while all items of its class
      are held ([eviction_without_limit_spins]).  Callbacks are called for items
      that are evicted, removed or dropped, except through a nascent handle
      ([cloned_handle_skips_callbacks]).  These are proved against the interfaces,
      and a cache built from the real components starts in a state they apply to
      ([new_cache_starts]).
    - Compact caches: [furcHash] moves keys to new parts only
      ([furcHash_consistent]); a fixed bucket is an LRU list ([fixed_bucket_lru]);
      whatever requests come between the steps of a resize, no stale value is
      served ([ccache_never_stale]), while resizes do not overlap
      ([resize_with_stale_size]) and the configured size stays the same during
      each ([resize_rereads_size]).

    ** Bounds, fuel and parameters

    Loops carry fuel equal to a size the program knows (list sizes, the number
    of slots or fragments); running out is [Undef], and the theorems prove [Ok],
    hence that the fuel is enough.  Integers keep their C++ width with
    wrap-around written out; the only size limits are those of 32-bit compressed
    pointers and 32-bit bucket capacities, and 2^22 items for a [MMTinyLFU], whose
    counters would not fit the 32-bit size of its sketch for many more.  The search
    of [findEviction] has its limit as fuel; without a limit it follows as many
    rounds as it is given, and that it is not done then is a result of its own,
    [Searching].  Code outside the sources is a
    parameter: the hash functions of [BloomFilter] (no property of them is
    needed), the sketch and the hash table, [nextPowTwo], the wall clock, the outcome of a try-lock, the result of [madvise],
    random offsets, the expiry and destructor callbacks of buckets, the
    checksum, the device below the base class and its encryptor, the random
    choice of a slab and the answers of [shouldAbortFn].  A
    critical section is one atomic step of its component; the lock-free
    reference count and [startSlabRelease], which drops its lock between
    batches, are modelled at the level of interleaved steps.

    ** Not modelled

    Of [CacheAllocator]: building chains of chained items (a chain is released
    and promoted with its parent, but the clients of [CacheSpec] do not build
    one), slab release with its moving of items, which needs waiting handles, the
    flash front end [NvmCache], persistence, statistics.  A call of the
    cache is one step: threads interleave between calls, not within them; what
    may happen within is modelled for the reference count, the hash table's
    iterators, slab release and resizing of compact caches.  Of compact caches:
    buckets of variable-size values.  [BlockCache] is a separate flash engine.
    Left out because they are input and output or heuristics:
    operating-system calls (memory locking, shared memory, file devices),
    background workers, floating-point sizing of Bloom filters, the CacheBench
    harness, and the YCSB benchmark. *)
From Stdlib Require Export ZArith Lia Bool.
From stdpp Require Export base gmap list option numbers relations.

#[global] Open Scope Z_scope.

(** ** Outcomes of C++ code

    [Ok] is a normal return, [Throw] a C++ exception, and [Undef] the
    outcomes the code must never reach: dereferencing [nullptr] or memory
    outside the store, and a failed [XDCHECK] of a debug build. *)
Inductive exn : Type :=
  | RefcountOverflow
  | RefcountUnderflow
  | InvalidArgument
  | RuntimeError
  | LogicError
  | SlabReleaseAborted
  | OutOfRange.

Inductive result (A : Type) : Type :=
  | Ok (a : A)
  | Throw (e : exn)
  | Undef.
Arguments Ok {A} a.
Arguments Throw {A} e.
Arguments Undef {A}.

#[global] Instance exn_eq_dec : EqDecision exn.
Proof. solve_decision. Defined.

#[global] Instance result_ret : MRet result := @Ok.
#[global] Instance result_bind : MBind result := λ A B f m,
  match m with
  | Ok a => f a
  | Throw e => Throw e
  | Undef => Undef
  end.

(** A checked dereference: a missing cell is undefined behaviour. *)
Definition deref {A} (o : option A) : result A :=
  match o with Some a => Ok a | None => Undef end.

(** [XDCHECK(b)]. *)
Definition xdcheck (b : bool) : result unit := if b then Ok tt else Undef.

(** [if (b) throw e]. *)
Definition throw_if (b : bool) (e : exn) : result unit := if b then Throw e else Ok tt.

Lemma bind_Ok {A B} (m : result A) (f : A → result B) b :
  m ≫= f = Ok b ↔ ∃ a, m = Ok a ∧ f a = Ok b.
Proof. destruct m; simpl; naive_solver. Qed.

(** ** Machine integers

    A [w]-bit unsigned integer is a [Z] kept in range by [wrap w]. *)
Definition wrap (w x : Z) : Z := x mod 2 ^ w.
Abbreviation u8 := (wrap 8).
Abbreviation u32 := (wrap 32).
Abbreviation u64 := (wrap 64).
Definition uint_max (w : Z) : Z := 2 ^ w - 1.

Definition fits (w x : Z) : Prop := 0 ≤ x < 2 ^ w.
#[global] Instance fits_dec w x : Decision (fits w x).
Proof. unfold fits. apply _. Defined.

Lemma wrap_fits w x : 0 ≤ w → fits w (wrap w x).
Proof. intros. apply Z.mod_pos_bound. lia. Qed.
Lemma wrap_small w x : fits w x → wrap w x = x.
Proof. intros. by apply Z.mod_small. Qed.

(** Conversion to a [w]-bit signed integer. *)
Definition swrap (w x : Z) : Z := (x + 2 ^ (w - 1)) mod 2 ^ w - 2 ^ (w - 1).
Abbreviation s32 := (swrap 32).
Abbreviation s64 := (swrap 64).

(** Storing an unsigned word in a signed field of the same width and reading
    it back loses nothing. *)
Lemma wrap_swrap w x : 0 < w → fits w x → wrap w (swrap w x) = x.
Proof.
  intros Hw Hx. unfold wrap, swrap.
  assert (2 ^ w = 2 * 2 ^ (w - 1)) by (rewrite <- Z.pow_succ_r by lia; f_equal; lia).
  rewrite <- (Z.mod_small x (2 ^ w)) at 2 by done.
  rewrite Zminus_mod_idemp_l. f_equal. lia.
Qed.

Create HintDb cachelib discriminated.
#[export] Hint Resolve wrap_fits : cachelib.

(** The value of [b] as an integer, for packed encodings. *)
Abbreviation b2z := Z.b2z.

(** ** Bits *)
Lemma land_ones_mod a n : 0 ≤ n → Z.land a (2 ^ n - 1) = a mod 2 ^ n.
Proof. intros. rewrite <- Z.land_ones by done. f_equal. rewrite Z.ones_equiv. lia. Qed.

Lemma testbit_b2z b n : Z.testbit (b2z b) n = b && (n =? 0).
Proof.
  destruct b; simpl; [|apply Z.bits_0].
  change 1 with (2 ^ 0). destruct (Z.eqb_spec n 0) as [->|Hne]; [done|].
  destruct (decide (n < 0)); [by apply Z.testbit_neg_r|].
  by rewrite Z.pow2_bits_false by lia.
Qed.

Lemma testbit_one_shift i n : 0 ≤ n → Z.testbit (Z.shiftl 1 i) n = (n =? i).
Proof.
  intros. rewrite Z.shiftl_spec by done. change 1 with (b2z true).
  rewrite testbit_b2z. simpl. apply eq_true_iff_eq. rewrite !Z.eqb_eq. lia.
Qed.

(** [v & (1 << i)] tests bit [i]. *)
Lemma land_bit_testbit a i : 0 ≤ i → Z.land a (Z.shiftl 1 i) = b2z (Z.testbit a i) * 2 ^ i.
Proof.
  intros Hi. apply Z.bits_inj'. intros n Hn.
  rewrite Z.land_spec, testbit_one_shift, Z.mul_pow2_bits, testbit_b2z by done.
  destruct (Z.eqb_spec n i) as [->|Hne].
  - by rewrite Z.sub_diag.
  - rewrite andb_false_r. symmetry. apply andb_false_iff. right. apply Z.eqb_neq. lia.
Qed.

Lemma land_bit_nonzero a i : 0 ≤ i → negb (Z.land a (Z.shiftl 1 i) =? 0) = Z.testbit a i.
Proof.
  intros Hi. rewrite land_bit_testbit by done.
  assert (0 < 2 ^ i) by lia.
  destruct (Z.testbit a i); simpl; [|done].
  apply negb_true_iff, Z.eqb_neq. lia.
Qed.

(** [v & ~(1 << i)] on a [w]-bit word clears bit [i]. *)
Lemma land_clear_bit w a i : 0 ≤ i < w → fits w a →
  Z.land a (uint_max w - Z.shiftl 1 i) = Z.clearbit a i.
Proof.
  intros Hi Ha. apply Z.bits_inj'. intros n Hn.
  rewrite Z.land_spec, Z.clearbit_eqb by done.
  destruct (decide (n < w)) as [Hlt|Hge].
  - f_equal. unfold uint_max.
    replace (2 ^ w - 1 - Z.shiftl 1 i) with (Z.ldiff (Z.ones w) (Z.shiftl 1 i)).
    + rewrite Z.ldiff_spec, Z.ones_spec_low, testbit_one_shift by lia.
      by rewrite Z.eqb_sym.
    + rewrite <- Z.sub_nocarry_ldiff; [rewrite Z.ones_equiv; lia|].
      apply Z.bits_inj'. intros k Hk.
      rewrite Z.ldiff_spec, testbit_one_shift, Z.bits_0 by done.
      destruct (Z.eqb_spec k i) as [->|]; [|done].
      by rewrite Z.ones_spec_low by lia.
  - replace (Z.testbit a n) with false; [done|]. symmetry.
    rewrite <- (Z.mod_small a (2 ^ w)) by done. apply Z.mod_pow2_bits_high. lia.
Qed.

Lemma testbit_high w a n : fits w a → 0 ≤ w ≤ n → Z.testbit a n = false.
Proof.
  intros Ha Hn. rewrite <- (Z.mod_small a (2 ^ w)) by done. by apply Z.mod_pow2_bits_high.
Qed.

Lemma fits_testbit w a : 0 ≤ w → 0 ≤ a → (∀ n, w ≤ n → Z.testbit a n = false) → fits w a.
Proof.
  intros Hw Ha Hb. split; [done|].
  replace a with (a mod 2 ^ w); [apply Z.mod_pos_bound; lia|].
  apply Z.bits_inj'. intros n Hn. destruct (decide (n < w)).
  - by rewrite Z.mod_pow2_bits_low.
  - rewrite Z.mod_pow2_bits_high, Hb by lia. done.
Qed.

Lemma fits_setbit w a i : 0 ≤ i < w → fits w a → fits w (Z.setbit a i).
Proof.
  intros Hi Ha. apply fits_testbit; [lia|..].
  - unfold Z.setbit. apply Z.lor_nonneg. split; [apply Ha|]. apply Z.shiftl_nonneg. lia.
  - intros n Hn. rewrite Z.setbit_neq by lia. apply (testbit_high w); [done|lia].
Qed.

Lemma fits_clearbit w a i : 0 ≤ w → 0 ≤ i → fits w a → fits w (Z.clearbit a i).
Proof.
  intros Hw Hi Ha. apply fits_testbit; [lia|..].
  - unfold Z.clearbit. apply Z.ldiff_nonneg. left. apply Ha.
  - intros n Hn. rewrite Z.clearbit_eqb by lia. rewrite (testbit_high w a n); [done..|lia].
Qed.
#[export] Hint Resolve fits_setbit fits_clearbit : cachelib.

Lemma setbit_mod a i k : 0 ≤ k ≤ i → Z.setbit a i mod 2 ^ k = a mod 2 ^ k.
Proof.
  intros. apply Z.bits_inj'. intros n Hn. destruct (decide (n < k)).
  - by rewrite !Z.mod_pow2_bits_low, Z.setbit_neq by lia.
  - by rewrite !Z.mod_pow2_bits_high by lia.
Qed.

Lemma clearbit_mod a i k : 0 ≤ k ≤ i → Z.clearbit a i mod 2 ^ k = a mod 2 ^ k.
Proof.
  intros. apply Z.bits_inj'. intros n Hn. destruct (decide (n < k)).
  - by rewrite !Z.mod_pow2_bits_low, Z.clearbit_neq by lia.
  - by rewrite !Z.mod_pow2_bits_high by lia.
Qed.

Lemma setbit_div_low a i k : 0 ≤ i < k → Z.setbit a i / 2 ^ k = a / 2 ^ k.
Proof.
  intros. rewrite <- !Z.shiftr_div_pow2 by lia. apply Z.bits_inj'. intros n Hn.
  by rewrite !Z.shiftr_spec, Z.setbit_neq by lia.
Qed.

Lemma clearbit_div_low a i k : 0 ≤ i < k → Z.clearbit a i / 2 ^ k = a / 2 ^ k.
Proof.
  intros. rewrite <- !Z.shiftr_div_pow2 by lia. apply Z.bits_inj'. intros n Hn.
  by rewrite !Z.shiftr_spec, Z.clearbit_neq by lia.
Qed.

Lemma setbit_div_high a i k : 0 ≤ k ≤ i → Z.setbit a i / 2 ^ k = Z.setbit (a / 2 ^ k) (i - k).
Proof.
  intros. rewrite <- !Z.shiftr_div_pow2 by lia. apply Z.bits_inj'. intros n Hn.
  rewrite Z.shiftr_spec, !Z.setbit_eqb, Z.shiftr_spec by lia. f_equal.
  apply eq_true_iff_eq. rewrite !Z.eqb_eq. lia.
Qed.

Lemma clearbit_div_high a i k : 0 ≤ k ≤ i → Z.clearbit a i / 2 ^ k = Z.clearbit (a / 2 ^ k) (i - k).
Proof.
  intros. rewrite <- !Z.shiftr_div_pow2 by lia. apply Z.bits_inj'. intros n Hn.
  rewrite Z.shiftr_spec, !Z.clearbit_eqb, Z.shiftr_spec by lia. f_equal. f_equal.
  apply eq_true_iff_eq. rewrite !Z.eqb_eq. lia.
Qed.

(** Bits at or above [k] depend only on the quotient by [2 ^ k]. *)
Lemma testbit_div a k i : 0 ≤ k ≤ i → Z.testbit a i = Z.testbit (a / 2 ^ k) (i - k).
Proof.
  intros. rewrite <- Z.shiftr_div_pow2, Z.shiftr_spec by lia. f_equal. lia.
Qed.

(** ** Outcomes as a functor *)
#[global] Instance result_fmap : FMap result := λ A B f m, a ← m; Ok (f a).

Lemma fmap_Ok {A B} (f : A → B) m b : f <$> m = Ok b ↔ ∃ a, m = Ok a ∧ b = f a.
Proof. destruct m; simpl; unfold fmap, result_fmap; simpl; naive_solver. Qed.

(** Run the outcome monad on known outcomes. *)
Ltac res_simpl :=
  cbn [mbind result_bind fmap result_fmap mret result_ret xdcheck throw_if deref negb andb orb
       prod_map fst snd id] in *.
(** The outcomes of the parts of a computation that returned. *)
Ltac inv_ok H :=
  repeat (cbn [mbind result_bind] in H; first
    [ discriminate H
    | match type of H with
      | mbind _ ?x = Ok _ => let E := fresh "E" in destruct x eqn:E
      | (match ?x with _ => _ end) = Ok _ => let E := fresh "E" in destruct x eqn:E
      end ]); cbn [mbind result_bind] in H.
