(* ===== verification/Refcount.v ===== *)
(** The 32-bit reference count of a cache item ([allocator/Refcount.h],
    class [RefcountWithFlags]): an 18-bit access count, three admin bits
    ([kLinked], [kAccessible], [kExclusive]) and eleven flags in one word,
    updated by compare-and-swap loops.

    The first part translates every member function on the raw word.  The
    second part gives the abstract record the word stands for and shows that
    every operation implements its abstract counterpart.  The third part
    models threads that run the compare-and-swap loops concurrently and shows
    that each loop takes effect atomically.  The fourth part is the item
    lifetime protocol. *)
From S2P Require Import Prelude.

(** ** Layout *)
Definition kNumFlags : Z := 11.
Definition kNumAdminRefBits : Z := 3.
Definition kNumAccessRefBits : Z := 18.
Definition kAccessRefMask : Z := Z.shiftr (uint_max 32) (32 - kNumAccessRefBits).
Definition kRefMask : Z := Z.shiftr (uint_max 32) (32 - kNumAdminRefBits - kNumAccessRefBits).

Inductive AdminRef := kLinked | kAccessible | kExclusive.
Definition adminRef_bit (a : AdminRef) : Z :=
  match a with
  | kLinked => kNumAccessRefBits
  | kAccessible => kNumAccessRefBits + 1
  | kExclusive => kNumAccessRefBits + 2
  end.

Inductive Flags :=
  | kMMFlag0 | kMMFlag1 | kMMFlag2 | kIsChainedItem | kHasChainedItem
  | kNvmClean | kNvmEvicted | kUnevictable_NOOP.
(** The position of a flag above the reference bits. *)
Definition flag_index (f : Flags) : Z :=
  match f with
  | kMMFlag0 => 0 | kMMFlag1 => 1 | kMMFlag2 => 2 | kIsChainedItem => 3
  | kHasChainedItem => 4 | kNvmClean => 5 | kNvmEvicted => 6 | kUnevictable_NOOP => 7
  end.
Definition flag_bit (f : Flags) : Z := kNumAccessRefBits + kNumAdminRefBits + flag_index f.

#[global] Instance AdminRef_eq_dec : EqDecision AdminRef.
Proof. solve_decision. Defined.
#[global] Instance Flags_eq_dec : EqDecision Flags.
Proof. solve_decision. Defined.

Inductive IncResult := kIncOk | kIncFailedMoving | kIncFailedEviction.

Definition getAdminRef (a : AdminRef) : Z := Z.shiftl 1 (adminRef_bit a).
Definition getFlag (f : Flags) : Z := Z.shiftl 1 (flag_bit f).

(** The implicit conversion of a word to [bool]. *)
Definition to_bool (v : Z) : bool := negb (v =? 0).
(** [~v] on 32 bits. *)
Definition not32 (v : Z) : Z := uint_max 32 - v.

(** ** Member functions on the raw word [refCount_] *)
Definition atomicUpdateValue (predicate : Z → result bool) (newValueF : Z → Z)
    (refCount : Z) : result (bool * Z) :=
  ok ← predicate refCount;
  if (ok : bool) then Ok (true, newValueF refCount) else Ok (false, refCount).

Definition incRef_res (curValue : Z) : IncResult :=
  if to_bool (Z.land curValue (getAdminRef kExclusive)) then
    if Z.land curValue kAccessRefMask =? 0 then kIncFailedEviction else kIncFailedMoving
  else kIncOk.
Definition incRef_predicate (curValue : Z) : result bool :=
  if Z.land curValue kAccessRefMask =? kAccessRefMask then Throw RefcountOverflow
  else if to_bool (Z.land curValue (getAdminRef kExclusive)) then Ok false
  else Ok true.
Definition incRef_newValue (curValue : Z) : Z := u32 (curValue + 1).
Definition incRef (v : Z) : result (IncResult * Z) :=
  '(_, v') ← atomicUpdateValue incRef_predicate incRef_newValue v;
  Ok (incRef_res v, v').

Definition decRef_predicate (curValue : Z) : result bool :=
  if Z.land curValue kAccessRefMask =? 0 then Throw RefcountUnderflow else Ok true.
Definition decRef_newValue (curValue : Z) : Z := u32 (curValue - 1).
Definition decRef (v : Z) : result (Z * Z) :=
  '(updated, v') ← atomicUpdateValue decRef_predicate decRef_newValue v;
  _ ← xdcheck updated;
  Ok (Z.land v' kRefMask, v').

Definition getAccessRef (v : Z) : Z :=
  let accessRef := Z.land v kAccessRefMask in
  if to_bool (Z.land v (getAdminRef kExclusive)) && (1 <=? accessRef)
  then u32 (accessRef - 1) else accessRef.
Definition getRefWithAccessAndAdmin (v : Z) : Z := Z.land v kRefMask.

Definition markAdmin (a : AdminRef) (v : Z) : Z := Z.lor v (getAdminRef a).
Definition unmarkAdmin (a : AdminRef) (v : Z) : Z := Z.land v (not32 (getAdminRef a)).
Definition isAdmin (a : AdminRef) (v : Z) : bool := to_bool (Z.land v (getAdminRef a)).

Definition markInMMContainer : Z → Z := markAdmin kLinked.
Definition unmarkInMMContainer : Z → Z := unmarkAdmin kLinked.
Definition isInMMContainer : Z → bool := isAdmin kLinked.
Definition markAccessible : Z → Z := markAdmin kAccessible.
Definition unmarkAccessible : Z → Z := unmarkAdmin kAccessible.
Definition isAccessible : Z → bool := isAdmin kAccessible.

Definition markForEviction_predicate (curValue : Z) : result bool :=
  let unlinked := negb (to_bool (Z.land curValue (getAdminRef kLinked))) in
  let alreadyExclusive := to_bool (Z.land curValue (getAdminRef kExclusive)) in
  if unlinked || alreadyExclusive then Ok false
  else if negb (Z.land curValue kAccessRefMask =? 0) then Ok false
  else Ok true.
Definition markForEviction_newValue (curValue : Z) : Z := Z.lor curValue (getAdminRef kExclusive).
Definition markForEviction (v : Z) : result (bool * Z) :=
  atomicUpdateValue markForEviction_predicate markForEviction_newValue v.

Definition isMarkedForEviction (v : Z) : bool :=
  to_bool (Z.land v (getAdminRef kExclusive)) && (Z.land v kAccessRefMask =? 0).
Definition unmarkForEviction (v : Z) : result (Z * Z) :=
  _ ← xdcheck (isMarkedForEviction v);
  let v' := Z.land v (not32 (getAdminRef kExclusive)) in
  Ok (Z.land v' kRefMask, v').

Definition markMoving_predicate (curValue : Z) : result bool :=
  _ ← xdcheck (negb (to_bool (Z.land curValue (getFlag kIsChainedItem))));
  let unlinked := negb (to_bool (Z.land curValue (getAdminRef kLinked))) in
  let alreadyExclusive := to_bool (Z.land curValue (getAdminRef kExclusive)) in
  if (0 <? Z.land curValue kAccessRefMask) || unlinked || alreadyExclusive
  then Ok false else Ok true.
Definition markMoving_newValue (curValue : Z) : Z :=
  Z.lor (u32 (curValue + 1)) (getAdminRef kExclusive).
Definition markMoving (v : Z) : result (bool * Z) :=
  atomicUpdateValue markMoving_predicate markMoving_newValue v.

Definition isMoving (v : Z) : bool :=
  to_bool (Z.land v (getAdminRef kExclusive)) && negb (Z.land v kAccessRefMask =? 0).
Definition unmarkMoving_predicate (curValue : Z) : result bool :=
  _ ← xdcheck (negb (Z.land curValue kAccessRefMask =? 0));
  Ok true.
Definition unmarkMoving_newValue (curValue : Z) : Z :=
  Z.land (u32 (curValue - 1)) (not32 (getAdminRef kExclusive)).
Definition unmarkMoving (v : Z) : result (Z * Z) :=
  _ ← xdcheck (isMoving v);
  '(updated, v') ← atomicUpdateValue unmarkMoving_predicate unmarkMoving_newValue v;
  _ ← xdcheck updated;
  Ok (Z.land v' kRefMask, v').

(** The [XDCHECK] inside [newValue] is checked before the exchange. *)
Definition markForEvictionWhenMoving_predicate (curValue : Z) : result bool :=
  _ ← xdcheck (Z.land curValue kAccessRefMask =? 1);
  Ok true.
Definition markForEvictionWhenMoving_newValue (curValue : Z) : Z := u32 (curValue - 1).
Definition markForEvictionWhenMoving (v : Z) : result (bool * Z) :=
  _ ← xdcheck (isMoving v);
  atomicUpdateValue markForEvictionWhenMoving_predicate markForEvictionWhenMoving_newValue v.

Definition setFlag (f : Flags) (v : Z) : Z := Z.lor v (Z.shiftl 1 (flag_bit f)).
Definition unSetFlag (f : Flags) (v : Z) : Z := Z.land v (uint_max 32 - Z.shiftl 1 (flag_bit f)).
Definition isFlagSet (f : Flags) (v : Z) : bool := to_bool (Z.land v (getFlag f)).

Definition markIsChainedItem : Z → Z := setFlag kIsChainedItem.
Definition unmarkIsChainedItem : Z → Z := unSetFlag kIsChainedItem.
Definition isChainedItem : Z → bool := isFlagSet kIsChainedItem.
Definition markHasChainedItem : Z → Z := setFlag kHasChainedItem.
Definition unmarkHasChainedItem : Z → Z := unSetFlag kHasChainedItem.
Definition hasChainedItem : Z → bool := isFlagSet kHasChainedItem.
Definition markNvmClean : Z → Z := setFlag kNvmClean.
Definition unmarkNvmClean : Z → Z := unSetFlag kNvmClean.
Definition isNvmClean : Z → bool := isFlagSet kNvmClean.
Definition markNvmEvicted : Z → Z := setFlag kNvmEvicted.
Definition unmarkNvmEvicted : Z → Z := unSetFlag kNvmEvicted.
Definition isNvmEvicted : Z → bool := isFlagSet kNvmEvicted.
Definition isDrained (v : Z) : bool := getRefWithAccessAndAdmin v =? 0.

(** ** The abstract state of the word *)
Record RefState := mkRefState {
  rs_access : Z;
  rs_linked : bool;
  rs_accessible : bool;
  rs_exclusive : bool;
  rs_flags : Z;
}.

Definition rs_valid (r : RefState) : Prop :=
  fits kNumAccessRefBits (rs_access r) ∧ fits kNumFlags (rs_flags r).

Definition decode (v : Z) : RefState := {|
  rs_access := v mod 2 ^ kNumAccessRefBits;
  rs_linked := Z.testbit v (adminRef_bit kLinked);
  rs_accessible := Z.testbit v (adminRef_bit kAccessible);
  rs_exclusive := Z.testbit v (adminRef_bit kExclusive);
  rs_flags := v / 2 ^ (kNumAccessRefBits + kNumAdminRefBits);
|}.

(** The access count and the admin bits as one number. *)
Definition rs_ref (r : RefState) : Z :=
  rs_access r + 2 ^ kNumAccessRefBits *
    (b2z (rs_linked r) + 2 * b2z (rs_accessible r) + 4 * b2z (rs_exclusive r)).
Definition encode (r : RefState) : Z :=
  rs_ref r + 2 ^ (kNumAccessRefBits + kNumAdminRefBits) * rs_flags r.

Definition with_access (r : RefState) (n : Z) : RefState :=
  mkRefState n (rs_linked r) (rs_accessible r) (rs_exclusive r) (rs_flags r).
Definition with_flags (r : RefState) (n : Z) : RefState :=
  mkRefState (rs_access r) (rs_linked r) (rs_accessible r) (rs_exclusive r) n.
Definition with_admin (a : AdminRef) (b : bool) (r : RefState) : RefState :=
  match a with
  | kLinked => mkRefState (rs_access r) b (rs_accessible r) (rs_exclusive r) (rs_flags r)
  | kAccessible => mkRefState (rs_access r) (rs_linked r) b (rs_exclusive r) (rs_flags r)
  | kExclusive => mkRefState (rs_access r) (rs_linked r) (rs_accessible r) b (rs_flags r)
  end.
Definition rs_admin (a : AdminRef) (r : RefState) : bool :=
  match a with
  | kLinked => rs_linked r
  | kAccessible => rs_accessible r
  | kExclusive => rs_exclusive r
  end.
Definition rs_flag (f : Flags) (r : RefState) : bool := Z.testbit (rs_flags r) (flag_index f).

(** Every state-changing operation of the class. *)
Inductive RefOp :=
  | OpIncRef | OpDecRef
  | OpMarkForEviction | OpUnmarkForEviction
  | OpMarkMoving | OpUnmarkMoving | OpMarkForEvictionWhenMoving
  | OpMarkInMMContainer | OpUnmarkInMMContainer
  | OpMarkAccessible | OpUnmarkAccessible
  | OpSetFlag (f : Flags) | OpUnSetFlag (f : Flags).
Inductive RefRet := RInc (r : IncResult) | RRef (v : Z) | RBool (b : bool) | RUnit.

Definition run_op (op : RefOp) (v : Z) : result (RefRet * Z) :=
  match op with
  | OpIncRef => prod_map RInc id <$> incRef v
  | OpDecRef => prod_map RRef id <$> decRef v
  | OpMarkForEviction => prod_map RBool id <$> markForEviction v
  | OpUnmarkForEviction => prod_map RRef id <$> unmarkForEviction v
  | OpMarkMoving => prod_map RBool id <$> markMoving v
  | OpUnmarkMoving => prod_map RRef id <$> unmarkMoving v
  | OpMarkForEvictionWhenMoving => prod_map RBool id <$> markForEvictionWhenMoving v
  | OpMarkInMMContainer => Ok (RUnit, markInMMContainer v)
  | OpUnmarkInMMContainer => Ok (RUnit, unmarkInMMContainer v)
  | OpMarkAccessible => Ok (RUnit, markAccessible v)
  | OpUnmarkAccessible => Ok (RUnit, unmarkAccessible v)
  | OpSetFlag f => Ok (RUnit, setFlag f v)
  | OpUnSetFlag f => Ok (RUnit, unSetFlag f v)
  end.

(** What each operation promises, on the abstract record. *)
Definition spec_op (op : RefOp) (r : RefState) : result (RefRet * RefState) :=
  let moving := rs_exclusive r && negb (rs_access r =? 0) in
  let idle := rs_linked r && negb (rs_exclusive r) && (rs_access r =? 0) in
  match op with
  | OpIncRef =>
      if rs_access r =? 2 ^ kNumAccessRefBits - 1 then Throw RefcountOverflow
      else if rs_exclusive r then
        Ok (RInc (if rs_access r =? 0 then kIncFailedEviction else kIncFailedMoving), r)
      else Ok (RInc kIncOk, with_access r (rs_access r + 1))
  | OpDecRef =>
      if rs_access r =? 0 then Throw RefcountUnderflow
      else let r' := with_access r (rs_access r - 1) in Ok (RRef (rs_ref r'), r')
  | OpMarkForEviction =>
      if idle then Ok (RBool true, with_admin kExclusive true r) else Ok (RBool false, r)
  | OpUnmarkForEviction =>
      if rs_exclusive r && (rs_access r =? 0)
      then let r' := with_admin kExclusive false r in Ok (RRef (rs_ref r'), r') else Undef
  | OpMarkMoving =>
      if rs_flag kIsChainedItem r then Undef
      else if idle then Ok (RBool true, with_admin kExclusive true (with_access r 1))
      else Ok (RBool false, r)
  | OpUnmarkMoving =>
      if moving
      then let r' := with_admin kExclusive false (with_access r (rs_access r - 1)) in
           Ok (RRef (rs_ref r'), r')
      else Undef
  | OpMarkForEvictionWhenMoving =>
      if moving && (rs_access r =? 1) then Ok (RBool true, with_access r 0) else Undef
  | OpMarkInMMContainer => Ok (RUnit, with_admin kLinked true r)
  | OpUnmarkInMMContainer => Ok (RUnit, with_admin kLinked false r)
  | OpMarkAccessible => Ok (RUnit, with_admin kAccessible true r)
  | OpUnmarkAccessible => Ok (RUnit, with_admin kAccessible false r)
  | OpSetFlag f => Ok (RUnit, with_flags r (Z.setbit (rs_flags r) (flag_index f)))
  | OpUnSetFlag f => Ok (RUnit, with_flags r (Z.clearbit (rs_flags r) (flag_index f)))
  end.

(** ** Reading the word *)
Section decoding.
Implicit Types v : Z.

Lemma flag_index_range f : 0 ≤ flag_index f < kNumFlags.
Proof. by destruct f. Qed.
Lemma adminRef_bit_range a : 18 ≤ adminRef_bit a < 21.
Proof. by destruct a. Qed.

Lemma to_bool_bit v i : 0 ≤ i → to_bool (Z.land v (Z.shiftl 1 i)) = Z.testbit v i.
Proof. apply land_bit_nonzero. Qed.

Lemma land_access v : Z.land v kAccessRefMask = rs_access (decode v).
Proof. change kAccessRefMask with (2 ^ 18 - 1). by rewrite land_ones_mod. Qed.

Lemma testbit_arith v i : 0 ≤ i → b2z (Z.testbit v i) = v / 2 ^ i mod 2.
Proof. apply Z.testbit_spec'. Qed.

Lemma rs_ref_decode v : rs_ref (decode v) = v mod 2 ^ 21.
Proof.
  unfold rs_ref, decode, rs_access, rs_linked, rs_accessible, rs_exclusive, adminRef_bit,
    kNumAccessRefBits.
  rewrite !testbit_arith by done.
  change (2 ^ (18 + 1)) with 524288. change (2 ^ (18 + 2)) with 1048576.
  change (2 ^ 18) with 262144. change (2 ^ 21) with 2097152.
  Z.to_euclidean_division_equations. lia.
Qed.

Lemma land_ref v : Z.land v kRefMask = rs_ref (decode v).
Proof.
  rewrite rs_ref_decode. change kRefMask with (2 ^ 21 - 1). by rewrite land_ones_mod.
Qed.

Lemma land_admin a v : to_bool (Z.land v (getAdminRef a)) = rs_admin a (decode v).
Proof. unfold getAdminRef. rewrite to_bool_bit by (by destruct a). by destruct a. Qed.

Lemma land_flag f v : to_bool (Z.land v (getFlag f)) = rs_flag f (decode v).
Proof.
  unfold getFlag, flag_bit, rs_flag. pose proof (flag_index_range f).
  rewrite to_bool_bit by (unfold kNumAccessRefBits, kNumAdminRefBits; lia).
  unfold decode, rs_flags. rewrite (testbit_div v (kNumAccessRefBits + kNumAdminRefBits))
    by (unfold kNumAccessRefBits, kNumAdminRefBits; lia).
  f_equal. lia.
Qed.

Lemma decode_valid v : fits 32 v → rs_valid (decode v).
Proof.
  intros Hv. unfold rs_valid, decode, fits in *; simpl.
  split; [apply Z.mod_pos_bound; done|].
  change (2 ^ (kNumAccessRefBits + kNumAdminRefBits)) with 2097152.
  change (2 ^ kNumFlags) with 2048. change (2 ^ 32) with 4294967296 in Hv.
  Z.to_euclidean_division_equations. lia.
Qed.

Lemma encode_decode v : encode (decode v) = v.
Proof.
  unfold encode. rewrite rs_ref_decode. unfold decode, rs_flags, kNumAccessRefBits, kNumAdminRefBits.
  change (2 ^ (18 + 3)) with (2 ^ 21). pose proof (Z.div_mod v (2 ^ 21)). lia.
Qed.

Lemma encode_fits r : rs_valid r → fits 32 (encode r).
Proof.
  intros [[H1 H2] [H3 H4]]. unfold encode, rs_ref, fits, kNumAccessRefBits, kNumAdminRefBits, kNumFlags in *.
  change (2 ^ (18 + 3)) with 2097152. change (2 ^ 18) with 262144 in *.
  change (2 ^ 32) with 4294967296. change (2 ^ 11) with 2048 in *.
  destruct (rs_linked r), (rs_accessible r), (rs_exclusive r); simpl; lia.
Qed.

Lemma decode_encode r : rs_valid r → decode (encode r) = r.
Proof.
  intros [[H1 H2] [H3 H4]]. destruct r as [n l a x fl]; simpl in *.
  unfold kNumAccessRefBits, kNumFlags in *. change (2 ^ 18) with 262144 in *.
  change (2 ^ 11) with 2048 in *.
  assert (∀ b i, 0 ≤ i → encode (mkRefState n l a x fl) / 2 ^ i mod 2 = b2z b →
    Z.testbit (encode (mkRefState n l a x fl)) i = b) as Hbit.
  { intros b i Hi Heq. rewrite <- testbit_arith in Heq by done.
    by destruct (Z.testbit _ _), b. }
  unfold decode. f_equal; [|apply Hbit; [done|]..|];
    unfold encode, rs_ref, kNumAccessRefBits, kNumAdminRefBits, adminRef_bit;
    simpl rs_access; simpl rs_linked; simpl rs_accessible; simpl rs_exclusive; simpl rs_flags;
    change (2 ^ (18 + 3)) with 2097152; change (2 ^ 18) with 262144;
    unfold kNumAccessRefBits; change (2 ^ (18 + 1)) with 524288;
    change (2 ^ (18 + 2)) with 1048576; change (2 ^ 18) with 262144;
    destruct l, a, x; simpl b2z; Z.to_euclidean_division_equations; lia.
Qed.
End decoding.

(** ** Writing the word *)
Section updates.
Implicit Types v : Z.

Lemma mark_setbit a v : Z.lor v (getAdminRef a) = Z.setbit v (adminRef_bit a).
Proof. done. Qed.
Lemma unmark_clearbit a v : fits 32 v →
  Z.land v (not32 (getAdminRef a)) = Z.clearbit v (adminRef_bit a).
Proof. intros. apply land_clear_bit; [pose proof (adminRef_bit_range a); lia|done]. Qed.

Lemma decode_mark a v : decode (Z.setbit v (adminRef_bit a)) = with_admin a true (decode v).
Proof.
  pose proof (adminRef_bit_range a). unfold decode, kNumAccessRefBits, kNumAdminRefBits.
  rewrite setbit_mod, setbit_div_low by lia. rewrite !Z.setbit_eqb by lia.
  by destruct a.
Qed.
Lemma decode_unmark a v : decode (Z.clearbit v (adminRef_bit a)) = with_admin a false (decode v).
Proof.
  pose proof (adminRef_bit_range a). unfold decode, kNumAccessRefBits, kNumAdminRefBits.
  rewrite clearbit_mod, clearbit_div_low by lia. rewrite !Z.clearbit_eqb by lia.
  destruct a; simpl; by rewrite ?andb_true_r, ?andb_false_r.
Qed.

Lemma decode_setFlag f v :
  decode (setFlag f v) = with_flags (decode v) (Z.setbit (rs_flags (decode v)) (flag_index f)).
Proof.
  pose proof (flag_index_range f). unfold setFlag. change (Z.lor v (Z.shiftl 1 (flag_bit f))) with
    (Z.setbit v (flag_bit f)).
  unfold decode, with_flags, flag_bit, adminRef_bit, kNumAccessRefBits, kNumAdminRefBits.
  rewrite setbit_mod, setbit_div_high by lia. rewrite !Z.setbit_neq by lia.
  simpl. f_equal. f_equal. lia.
Qed.
Lemma decode_unSetFlag f v : fits 32 v →
  decode (unSetFlag f v) = with_flags (decode v) (Z.clearbit (rs_flags (decode v)) (flag_index f)).
Proof.
  intros Hv. pose proof (flag_index_range f). unfold unSetFlag.
  rewrite land_clear_bit by
    (done || unfold flag_bit, kNumAccessRefBits, kNumAdminRefBits, kNumFlags in *; lia).
  unfold decode, with_flags, flag_bit, adminRef_bit, kNumAccessRefBits, kNumAdminRefBits.
  rewrite clearbit_mod, clearbit_div_high by lia. rewrite !Z.clearbit_neq by lia.
  simpl. f_equal. f_equal. lia.
Qed.

(** Counting up or down inside the access field touches no other bit. *)
Lemma decode_add v d : fits kNumAccessRefBits (rs_access (decode v) + d) →
  decode (v + d) = with_access (decode v) (rs_access (decode v) + d).
Proof.
  unfold fits. intros Hd.
  set (c := rs_access (decode v)) in *.
  assert (v = 2 ^ kNumAccessRefBits * (v / 2 ^ kNumAccessRefBits) + c) as Hv
    by (apply Z.div_mod; done).
  assert ((v + d) / 2 ^ 18 = v / 2 ^ 18) as Hq.
  { symmetry. apply (Z.div_unique _ _ _ (c + d)); [left; done|].
    rewrite Hv at 1. unfold kNumAccessRefBits. lia. }
  assert (∀ i, 18 ≤ i → Z.testbit (v + d) i = Z.testbit v i) as Hb.
  { intros i Hi. rewrite (testbit_div (v + d) 18), (testbit_div v 18), Hq by lia. done. }
  unfold decode, with_access; f_equal;
    cbn [rs_access rs_linked rs_accessible rs_exclusive rs_flags].
  - symmetry. apply (Z.mod_unique _ _ (v / 2 ^ kNumAccessRefBits)); [left; done|].
    rewrite Hv at 1. lia.
  - by apply Hb.
  - by apply Hb.
  - by apply Hb.
  - change (2 ^ (kNumAccessRefBits + kNumAdminRefBits)) with (2 ^ 18 * 2 ^ 3).
    by rewrite <- !Z.div_div, Hq by done.
Qed.

Lemma decode_fits v r : decode v = r → rs_valid r → fits 32 v.
Proof. intros <- Hr. rewrite <- (encode_decode v). by apply encode_fits. Qed.

Lemma wrap_add v d : fits 32 v → fits kNumAccessRefBits (rs_access (decode v) + d) →
  u32 (v + d) = v + d ∧ fits 32 (v + d).
Proof.
  intros Hv Hd. assert (fits 32 (v + d)) as Hf.
  { eapply decode_fits; [by apply decode_add|]. split; [done|].
    apply (decode_valid v Hv). }
  split; [by apply wrap_small|done].
Qed.
End updates.

Create Rewrite HintDb refword.
#[local] Hint Rewrite land_access land_ref land_admin land_flag mark_setbit decode_mark
  decode_unmark : refword.
#[local] Hint Rewrite unmark_clearbit using (solve [done | by apply wrap_fits]) : refword.

#[local] Arguments decode : simpl never.
#[local] Arguments rs_ref : simpl never.

(** ** Every operation implements its abstract counterpart *)
Lemma incRef_refines v : fits 32 v →
  prod_map id decode <$> run_op OpIncRef v = spec_op OpIncRef (decode v).
Proof.
  intros Hv. destruct (decode_valid v Hv) as [Hacc _]. cbn [run_op spec_op].
  unfold incRef, atomicUpdateValue, incRef_predicate, incRef_res, incRef_newValue.
  autorewrite with refword. change kAccessRefMask with (2 ^ kNumAccessRefBits - 1).
  cbn [rs_admin]. res_simpl.
  destruct (Z.eqb_spec (rs_access (decode v)) (2 ^ kNumAccessRefBits - 1)); [done|].
  destruct (rs_exclusive (decode v)); res_simpl; [by destruct (_ =? 0)|].
  assert (fits kNumAccessRefBits (rs_access (decode v) + 1)) as Hd by (unfold fits in *; lia).
  destruct (wrap_add v 1 Hv Hd) as [-> _].
  res_simpl. by rewrite decode_add.
Qed.

Lemma decRef_refines v : fits 32 v →
  prod_map id decode <$> run_op OpDecRef v = spec_op OpDecRef (decode v).
Proof.
  intros Hv. destruct (decode_valid v Hv) as [Hacc _]. cbn [run_op spec_op].
  unfold decRef, atomicUpdateValue, decRef_predicate, decRef_newValue.
  autorewrite with refword. res_simpl.
  destruct (Z.eqb_spec (rs_access (decode v)) 0); [done|].
  assert (fits kNumAccessRefBits (rs_access (decode v) + -1)) as Hd by (unfold fits in *; lia).
  destruct (wrap_add v (-1) Hv Hd) as [Hw _]. replace (v + -1) with (v - 1) in Hw by lia.
  res_simpl. rewrite Hw, land_ref.
  replace (v - 1) with (v + -1) by lia. by rewrite decode_add.
Qed.

Lemma markForEviction_refines v :
  prod_map id decode <$> run_op OpMarkForEviction v = spec_op OpMarkForEviction (decode v).
Proof.
  cbn [run_op spec_op].
  unfold markForEviction, atomicUpdateValue, markForEviction_predicate, markForEviction_newValue.
  autorewrite with refword. cbn [rs_admin]. res_simpl.
  destruct (rs_linked (decode v)), (rs_exclusive (decode v)), (rs_access (decode v) =? 0);
    res_simpl; by autorewrite with refword.
Qed.

Lemma unmarkForEviction_refines v : fits 32 v →
  prod_map id decode <$> run_op OpUnmarkForEviction v = spec_op OpUnmarkForEviction (decode v).
Proof.
  intros Hv. cbn [run_op spec_op]. unfold unmarkForEviction, isMarkedForEviction.
  autorewrite with refword. cbn [rs_admin].
  destruct (rs_exclusive (decode v)), (rs_access (decode v) =? 0); res_simpl; try done.
  by autorewrite with refword.
Qed.

Lemma markMoving_refines v : fits 32 v →
  prod_map id decode <$> run_op OpMarkMoving v = spec_op OpMarkMoving (decode v).
Proof.
  intros Hv. destruct (decode_valid v Hv) as [Hacc _]. cbn [run_op spec_op].
  unfold markMoving, atomicUpdateValue, markMoving_predicate, markMoving_newValue.
  autorewrite with refword. cbn [rs_admin].
  destruct (rs_flag kIsChainedItem (decode v)); res_simpl; [done|].
  destruct (Z.ltb_spec 0 (rs_access (decode v))), (Z.eqb_spec (rs_access (decode v)) 0) as [H0|H0];
    try (unfold fits in *; lia);
    destruct (rs_linked (decode v)), (rs_exclusive (decode v)); res_simpl; try done.
  assert (fits kNumAccessRefBits (rs_access (decode v) + 1)) as Hd by (rewrite H0; done).
  destruct (wrap_add v 1 Hv Hd) as [-> _].
  rewrite decode_mark, decode_add, H0 by done. done.
Qed.

Lemma unmarkMoving_refines v : fits 32 v →
  prod_map id decode <$> run_op OpUnmarkMoving v = spec_op OpUnmarkMoving (decode v).
Proof.
  intros Hv. destruct (decode_valid v Hv) as [Hacc _]. cbn [run_op spec_op].
  unfold unmarkMoving, isMoving, atomicUpdateValue, unmarkMoving_predicate, unmarkMoving_newValue.
  autorewrite with refword. cbn [rs_admin].
  destruct (rs_exclusive (decode v)); res_simpl; [|done].
  destruct (Z.eqb_spec (rs_access (decode v)) 0); res_simpl; [done|].
  assert (fits kNumAccessRefBits (rs_access (decode v) + -1)) as Hd by (unfold fits in *; lia).
  destruct (wrap_add v (-1) Hv Hd) as [Hw Hf]. replace (v + -1) with (v - 1) in * by lia.
  rewrite Hw; autorewrite with refword.
  replace (v - 1) with (v + -1) by lia. by rewrite decode_add.
Qed.

Lemma markForEvictionWhenMoving_refines v : fits 32 v →
  prod_map id decode <$> run_op OpMarkForEvictionWhenMoving v =
  spec_op OpMarkForEvictionWhenMoving (decode v).
Proof.
  intros Hv. destruct (decode_valid v Hv) as [Hacc _]. cbn [run_op spec_op].
  unfold markForEvictionWhenMoving, isMoving, atomicUpdateValue,
    markForEvictionWhenMoving_predicate, markForEvictionWhenMoving_newValue.
  autorewrite with refword. cbn [rs_admin].
  destruct (rs_exclusive (decode v)); res_simpl; [|done].
  destruct (Z.eqb_spec (rs_access (decode v)) 0); res_simpl; [done|].
  destruct (Z.eqb_spec (rs_access (decode v)) 1) as [H1|]; res_simpl; [|done].
  assert (fits kNumAccessRefBits (rs_access (decode v) + -1)) as Hd by (rewrite H1; done).
  destruct (wrap_add v (-1) Hv Hd) as [Hw Hf]. replace (v + -1) with (v - 1) in * by lia.
  rewrite Hw. replace (v - 1) with (v + -1) by lia. by rewrite decode_add, H1.
Qed.

Lemma run_op_refines_aux op v : fits 32 v →
  prod_map id decode <$> run_op op v = spec_op op (decode v).
Proof.
  intros Hv. destruct op; auto using incRef_refines, decRef_refines, markForEviction_refines,
    unmarkForEviction_refines, markMoving_refines, unmarkMoving_refines,
    markForEvictionWhenMoving_refines; cbn [run_op spec_op]; res_simpl; f_equal; f_equal;
    unfold markInMMContainer, unmarkInMMContainer, markAccessible, unmarkAccessible, markAdmin,
      unmarkAdmin;
    autorewrite with refword; auto using decode_setFlag, decode_unSetFlag.
Qed.

(** C34: Every state-changing member function of [RefcountWithFlags], run on a
    32-bit word, does exactly what its abstract counterpart does on the
    decoded record: the same return value, the same exception or failed debug
    check, and a new word that decodes to the new record.  In particular no
    operation carries from the access count into the admin bits or flags. *)
Theorem run_op_refines op v : fits 32 v →
  prod_map id decode <$> run_op op v = spec_op op (decode v).
Proof. apply run_op_refines_aux. Qed.

Lemma run_op_refines_witness :
  prod_map id decode <$> run_op OpMarkMoving (2 ^ 18) = spec_op OpMarkMoving (decode (2 ^ 18)).
Proof. apply (run_op_refines OpMarkMoving (2 ^ 18)). by vm_compute. Defined.

Lemma spec_op_valid op r x r' : rs_valid r → spec_op op r = Ok (x, r') → rs_valid r'.
Proof.
  destruct r as [n l a e fl]. intros [Hn Hf] Hop. unfold rs_valid, kNumAccessRefBits in *.
  destruct op; cbn [spec_op rs_access rs_exclusive rs_linked rs_flags] in Hop;
    unfold fits in *; cbn [rs_access rs_flags] in *; repeat case_match; simplify_eq; simpl; try done;
    try (split; [|done]; repeat match goal with
      | H : (_ =? _) = false |- _ => apply Z.eqb_neq in H
      | H : (_ && _) = true |- _ => apply andb_prop in H as [? H]
      end; unfold kNumAccessRefBits in *; lia).
  - split; [done|]. apply fits_setbit; [apply flag_index_range|done].
  - split; [done|]. pose proof (flag_index_range f). apply fits_clearbit; done || lia.
Qed.

(** The word stays a 32-bit word under every operation. *)
Lemma run_op_fits op v x v' : fits 32 v → run_op op v = Ok (x, v') → fits 32 v'.
Proof.
  intros Hv Hop. pose proof (run_op_refines_aux op v Hv) as Href. rewrite Hop in Href. res_simpl.
  eapply decode_fits; [done|]. eapply spec_op_valid; [by apply decode_valid|done].
Qed.

(** The observers read the decoded record. *)
Lemma observers_decode v :
  getAccessRef v = (if rs_exclusive (decode v) && negb (rs_access (decode v) =? 0)
                    then rs_access (decode v) - 1 else rs_access (decode v)) ∧
  isInMMContainer v = rs_linked (decode v) ∧
  isAccessible v = rs_accessible (decode v) ∧
  isMarkedForEviction v = rs_exclusive (decode v) && (rs_access (decode v) =? 0) ∧
  isMoving v = rs_exclusive (decode v) && negb (rs_access (decode v) =? 0) ∧
  isDrained v = (rs_ref (decode v) =? 0) ∧
  (∀ f, isFlagSet f v = rs_flag f (decode v)).
Proof.
  unfold getAccessRef, isInMMContainer, isAccessible, isAdmin, isMarkedForEviction, isMoving,
    isDrained, getRefWithAccessAndAdmin, isFlagSet.
  autorewrite with refword. cbn [rs_admin]. repeat split; [|intros; by autorewrite with refword].
  assert (0 ≤ rs_access (decode v) < 2 ^ 18) by (apply Z.mod_pos_bound; done).
  destruct (Z.leb_spec 1 (rs_access (decode v))), (Z.eqb_spec (rs_access (decode v)) 0);
    try lia; destruct (rs_exclusive _); cbn [andb negb]; try done.
  apply wrap_small. unfold fits. change (2 ^ 18) with 262144 in *. change (2 ^ 32) with 4294967296. lia.
Qed.

(** Packing and unpacking the word are inverse: every word is the packing of the
    record it decodes to, and every in-range record survives the round trip. *)
Theorem refword_roundtrip :
  (∀ v, encode (decode v) = v) ∧
  (∀ r, rs_valid r → fits 32 (encode r) ∧ decode (encode r) = r).
Proof. auto using encode_decode, encode_fits, decode_encode. Qed.

(** ** Concurrent compare-and-swap loops

    A thread that calls [atomicUpdateValue] loads the word, then loops: it
    evaluates the predicate on the value it last saw, returns if it does not
    hold, and otherwise tries to exchange; a failed exchange reloads the
    value.  [thread_step] is one such action of thread [i] on the shared
    word; the interleaving of the threads is the order in which they are
    scheduled. *)
Record Call := mkCall { c_predicate : Z → result bool; c_newValueF : Z → Z }.

Inductive Pc :=
  | Entry (c : Call)                    (** before the first load *)
  | Loop (c : Call) (curValue : Z)      (** at the head of [while (true)] *)
  | Returned (c : Call) (r : result bool).

Definition CasState : Type := list Pc * Z.

Definition loop_step (c : Call) (curValue shared : Z) : Pc * Z :=
  match c_predicate c curValue with
  | Ok true =>
      if curValue =? shared then (Returned c (Ok true), c_newValueF c curValue)
      else (Loop c shared, shared)
  | r => (Returned c r, shared)
  end.

Definition thread_step (i : nat) (s : CasState) : option CasState :=
  let '(pcs, shared) := s in
  match pcs !! i with
  | Some (Entry c) => Some (<[i := Loop c shared]> pcs, shared)
  | Some (Loop c cur) => let '(pc', v') := loop_step c cur shared in Some (<[i := pc']> pcs, v')
  | _ => None
  end.
Definition cas_step (s s' : CasState) : Prop := ∃ i, thread_step i s = Some s'.

(** The same system when a whole call is one indivisible action. *)
Definition atomic_call (c : Call) (v : Z) : Pc * Z :=
  match atomicUpdateValue (c_predicate c) (c_newValueF c) v with
  | Ok (b, v') => (Returned c (Ok b), v')
  | Throw e => (Returned c (Throw e), v)
  | Undef => (Returned c Undef, v)
  end.
Definition atomic_step (s s' : CasState) : Prop :=
  ∃ i c, s.1 !! i = Some (Entry c) ∧
    s' = (<[i := (atomic_call c s.2).1]> s.1, (atomic_call c s.2).2).

(** A thread whose last value fails the predicate has already taken effect,
    at the load that produced the value. *)
Definition committed (pc : Pc) : Pc :=
  match pc with
  | Loop c cur => match c_predicate c cur with Ok true => Entry c | r => Returned c r end
  | pc => pc
  end.
Definition linearized (s : CasState) : CasState := (committed <$> s.1, s.2).

Section linearization.
Implicit Types (pcs : list Pc) (c : Call).

Lemma atomic_call_load c v : committed (Loop c v) = Entry c ∨
  atomic_call c v = (committed (Loop c v), v).
Proof.
  unfold atomic_call, atomicUpdateValue; cbn [committed].
  destruct (c_predicate c v) as [[]| |]; res_simpl; auto.
Qed.

(** Loading [v] afresh is either no step or the whole atomic call. *)
Lemma load_linearizes pcs i c v pc : pcs !! i = Some pc → committed pc = Entry c →
  rtc atomic_step (linearized (pcs, v)) (linearized (<[i := Loop c v]> pcs, v)).
Proof.
  intros Hi Hpc. unfold linearized; cbn [fst snd]. rewrite list_fmap_insert.
  destruct (atomic_call_load c v) as [Hc|Hc].
  - rewrite Hc. rewrite list_insert_id; [constructor|]. by rewrite list_lookup_fmap, Hi, <- Hpc.
  - apply rtc_once. exists i, c. cbn [fst snd]. rewrite list_lookup_fmap, Hi.
    split; [by rewrite <- Hpc|]. by rewrite Hc.
Qed.

Lemma thread_step_linearizes s s' : cas_step s s' → rtc atomic_step (linearized s) (linearized s').
Proof.
  destruct s as [pcs v]. intros [i Hs]. simpl in Hs.
  destruct (pcs !! i) as [[c|c cur|c r]|] eqn:Hi; simplify_eq.
  - by eapply load_linearizes.
  - unfold loop_step in Hs. destruct (c_predicate c cur) as [[]| |] eqn:Hp; simplify_eq;
      try (unfold linearized; cbn [fst snd]; rewrite list_fmap_insert; rewrite list_insert_id;
           [constructor|]; rewrite list_lookup_fmap, Hi; cbn; by rewrite Hp).
    destruct (Z.eqb_spec cur v) as [->|Hne]; simplify_eq.
    + apply rtc_once. exists i, c. unfold linearized; cbn [fst snd].
      rewrite list_lookup_fmap, Hi. split; [cbn; by rewrite Hp|].
      rewrite list_fmap_insert. unfold atomic_call, atomicUpdateValue. by rewrite Hp.
    + eapply load_linearizes; [done|]. cbn. by rewrite Hp.
Qed.
End linearization.

(** C35: [atomicUpdateValue] is linearizable: every interleaving of any number of
    compare-and-swap loops on one word reaches a word and per-thread results
    that some sequence of indivisible predicate-then-update calls reaches. *)
Theorem atomicUpdateValue_linearizable (s s' : CasState) :
  rtc cas_step s s' → rtc atomic_step (linearized s) (linearized s').
Proof.
  induction 1 as [|s1 s2 s3 H12 H23 IH]; [done|].
  etrans; [|exact IH]. by apply thread_step_linearizes.
Qed.

Definition incRef_call : Call := mkCall incRef_predicate incRef_newValue.
Definition markForEviction_call : Call :=
  mkCall markForEviction_predicate markForEviction_newValue.

(** Two threads race: an [incRef] whose exchange fails once because the item
    is marked for eviction in between. *)
Lemma atomicUpdateValue_linearizable_witness :
  rtc atomic_step
    (linearized ([Entry incRef_call; Entry markForEviction_call], 2 ^ 18))
    (linearized ([Returned incRef_call (Ok false); Returned markForEviction_call (Ok true)],
                 2 ^ 18 + 2 ^ 20)).
Proof.
  apply (atomicUpdateValue_linearizable
    ([Entry incRef_call; Entry markForEviction_call], 2 ^ 18)).
  eapply rtc_l; [by exists 0%nat|]. eapply rtc_l; [by exists 1%nat|].
  eapply rtc_l; [by exists 1%nat|]. eapply rtc_l; [by exists 0%nat|].
  eapply rtc_l; [by exists 0%nat|]. constructor.
Defined.

(** C36: A thread that runs alone finishes its call within two actions, whatever
    value it last saw: the loop cannot spin without interference. *)
Theorem atomicUpdateValue_obstruction_free (pcs : list Pc) (shared : Z) (i : nat) (c : Call) :
  pcs !! i = Some (Entry c) ∨ (∃ cur, pcs !! i = Some (Loop c cur)) →
  ∃ n r v', (n ≤ 2)%nat ∧
    Nat.iter n (λ s, s ≫= thread_step i) (Some (pcs, shared)) =
      Some (<[i := Returned c r]> pcs, v').
Proof.
  assert (∀ pcs cur, pcs !! i = Some (Loop c cur) → cur = shared →
    ∃ r v', thread_step i (pcs, shared) = Some (<[i := Returned c r]> pcs, v')) as Hfresh.
  { intros pcs' cur Hi ->. simpl. rewrite Hi. unfold loop_step.
    destruct (c_predicate c shared) as [[]| |]; rewrite ?Z.eqb_refl; eauto. }
  assert (∀ v, i < length pcs → <[i := Loop c v]> pcs !! i = Some (Loop c v))%nat as Hset
    by (intros; by apply list_lookup_insert_eq).
  intros [Hi|[cur Hi]]; pose proof (lookup_lt_Some _ _ _ Hi) as Hlt.
  - destruct (Hfresh (<[i := Loop c shared]> pcs) shared) as (r & v' & Hs); [auto|done|].
    exists 2%nat, r, v'. split; [lia|]. simpl. rewrite Hi. simpl in *. rewrite Hs.
    by rewrite list_insert_insert_eq.
  - destruct (c_predicate c cur) as [[]| |] eqn:Hp;
      [|exists 1%nat; eexists _, _; split; [lia|]; simpl; rewrite Hi; unfold loop_step;
        rewrite Hp; reflexivity..].
    destruct (decide (cur = shared)) as [->|Hne].
    + destruct (Hfresh pcs shared Hi eq_refl) as (r & v' & Hs). exists 1%nat, r, v'. split; [lia|done].
    + destruct (Hfresh (<[i := Loop c shared]> pcs) shared) as (r & v' & Hs); [auto|done|].
      exists 2%nat, r, v'. split; [lia|]. simpl. rewrite Hi. unfold loop_step at 1.
      rewrite Hp. apply Z.eqb_neq in Hne. rewrite Hne. simpl in *. rewrite Hs.
      by rewrite list_insert_insert_eq.
Qed.

Lemma atomicUpdateValue_obstruction_free_witness :
  ∃ n r v', (n ≤ 2)%nat ∧
    Nat.iter n (λ s, s ≫= thread_step 0) (Some ([Loop incRef_call 7], 5)) =
      Some (<[0%nat := Returned incRef_call r]> [Loop incRef_call 7], v').
Proof. apply (atomicUpdateValue_obstruction_free [Loop incRef_call 7] 5 0 incRef_call). eauto. Defined.

(** ** The lifetime protocol of an item

    Next to the word the model keeps what the users of the class know:
    how many handles are outstanding (successful [incRef]s not yet undone by
    [decRef]) and who, if anyone, owns the item exclusively.  A step is one
    atomic operation, with the caller's side of the contract as its guard: a
    [decRef] gives back a handle, and only the owner ends an eviction or move. *)
Inductive Owner := NoOwner | Evictor | Mover.
#[global] Instance Owner_eq_dec : EqDecision Owner.
Proof. solve_decision. Defined.
Record Life := mkLife { lf_word : Z; lf_handles : Z; lf_owner : Owner }.

Inductive life_step : Life → Life → Prop :=
  | life_acquire v v' n o : run_op OpIncRef v = Ok (RInc kIncOk, v') →
      life_step (mkLife v n o) (mkLife v' (n + 1) o)
  | life_acquire_failed v v' n o r : run_op OpIncRef v = Ok (RInc r, v') → r ≠ kIncOk →
      life_step (mkLife v n o) (mkLife v' n o)
  | life_release v v' n o x : 0 < n → run_op OpDecRef v = Ok (x, v') →
      life_step (mkLife v n o) (mkLife v' (n - 1) o)
  | life_evict v v' n o : run_op OpMarkForEviction v = Ok (RBool true, v') →
      life_step (mkLife v n o) (mkLife v' n Evictor)
  | life_evict_end v v' n x : run_op OpUnmarkForEviction v = Ok (x, v') →
      life_step (mkLife v n Evictor) (mkLife v' n NoOwner)
  | life_move v v' n o : run_op OpMarkMoving v = Ok (RBool true, v') →
      life_step (mkLife v n o) (mkLife v' n Mover)
  | life_move_end v v' n x : run_op OpUnmarkMoving v = Ok (x, v') →
      life_step (mkLife v n Mover) (mkLife v' n NoOwner)
  | life_move_to_evict v v' n x : run_op OpMarkForEvictionWhenMoving v = Ok (x, v') →
      life_step (mkLife v n Mover) (mkLife v' n Evictor)
  | life_other v v' n o op x :
      op ∈ [OpMarkInMMContainer; OpUnmarkInMMContainer; OpMarkAccessible; OpUnmarkAccessible] ∨
        (∃ f, op = OpSetFlag f ∨ op = OpUnSetFlag f) →
      run_op op v = Ok (x, v') → life_step (mkLife v n o) (mkLife v' n o).

Definition life_inv (s : Life) : Prop :=
  let r := decode (lf_word s) in
  fits 32 (lf_word s) ∧
  match lf_owner s with
  | NoOwner => rs_exclusive r = false ∧ rs_access r = lf_handles s
  | Evictor => rs_exclusive r = true ∧ rs_access r = 0 ∧ lf_handles s = 0
  | Mover => rs_exclusive r = true ∧ rs_access r = 1 ∧ lf_handles s = 0
  end.

Definition life_init : Life := mkLife 0 0 NoOwner.

Lemma run_op_spec op v x v' : fits 32 v → run_op op v = Ok (x, v') →
  spec_op op (decode v) = Ok (x, decode v') ∧ fits 32 v'.
Proof.
  intros Hv Hop. pose proof (run_op_refines_aux op v Hv) as Href. rewrite Hop in Href. res_simpl.
  split; [done|]. eapply decode_fits; [done|]. eapply spec_op_valid; [by apply decode_valid|done].
Qed.

Lemma life_inv_step s s' : life_inv s → life_step s s' → life_inv s'.
Proof.
  intros [Hf Hinv] Hstep. destruct Hstep; cbn [lf_word lf_owner lf_handles] in *;
    match goal with H : run_op _ _ = Ok _ |- _ => apply run_op_spec in H as [Hop Hf']; [|done] end;
    unfold life_inv; cbn [lf_word lf_owner lf_handles]; (split; [done|]);
    destruct (decode v) as [c l a e fl]; cbn [rs_access rs_exclusive] in *.
  all: try match goal with H : _ ∨ _ |- _ => destruct H as [?|[f [->| ->]]] end;
    try match goal with H : _ ∈ _ |- _ =>
      repeat (apply elem_of_cons in H as [->|H]); [..|by apply elem_of_nil in H] end.
  all: cbn [spec_op rs_access rs_exclusive rs_linked rs_flags] in Hop; repeat case_match;
    simplify_eq/=; try congruence;
    try match goal with H : _ = decode _ |- _ => rewrite <- H in * end;
    cbn [with_access with_admin with_flags rs_access rs_exclusive rs_linked rs_flags];
    rewrite ?andb_true_iff, ?Z.eqb_eq, ?Z.eqb_neq in *; destruct_and?; subst;
    try (repeat split; try done; lia).
Qed.

Lemma life_reachable_inv s : rtc life_step life_init s → life_inv s.
Proof.
  intros H. assert (life_inv life_init) as Hinit by (vm_compute; done).
  revert Hinit. induction H; eauto using life_inv_step.
Qed.

Lemma inc_result_excl v : fits 32 v → rs_exclusive (decode v) = true →
  rs_access (decode v) ≠ 2 ^ kNumAccessRefBits - 1 →
  run_op OpIncRef v =
    Ok (RInc (if rs_access (decode v) =? 0 then kIncFailedEviction else kIncFailedMoving), v).
Proof.
  intros Hv Hx Hne. pose proof (run_op_refines_aux OpIncRef v Hv) as Href.
  cbn [spec_op] in Href. apply Z.eqb_neq in Hne. rewrite Hne, Hx in Href.
  destruct (run_op OpIncRef v) as [[x v']| |]; res_simpl; [|done..].
  assert (decode v' = decode v) as Hd by congruence.
  do 2 f_equal; [congruence|]. by rewrite <- (encode_decode v'), Hd, encode_decode.
Qed.

(** Through any sequence of operations on a fresh item, [getAccessRef]
    reports exactly the number of outstanding handles, also while the item is
    being moved and the word carries the mover's extra reference. *)
Theorem access_ref_counts_handles s :
  rtc life_step life_init s → getAccessRef (lf_word s) = lf_handles s.
Proof.
  intros [Hf Hinv]%life_reachable_inv. destruct (observers_decode (lf_word s)) as [-> _].
  destruct (lf_owner s), Hinv as (-> & Ha); cbn [andb]; [done|destruct Ha as [-> ->]; done..].
Qed.

Lemma access_ref_counts_handles_witness : getAccessRef (2 ^ 18 + 1) = 1.
Proof.
  apply (access_ref_counts_handles (mkLife (2 ^ 18 + 1) 1 NoOwner)).
  eapply rtc_l; [apply (life_other 0 (2 ^ 18) 0 NoOwner OpMarkInMMContainer RUnit); [by left; left|done]|].
  eapply rtc_l; [by apply (life_acquire (2 ^ 18) (2 ^ 18 + 1) 0 NoOwner)|]. constructor.
Defined.

(** C8: An item owned by an evictor or a mover has no outstanding handle, and
    nobody can take one: [incRef] fails with the code that says why and leaves
    the word unchanged. *)
Theorem exclusive_excludes_handles s :
  rtc life_step life_init s → lf_owner s ≠ NoOwner →
  lf_handles s = 0 ∧
  run_op OpIncRef (lf_word s) =
    Ok (RInc (if decide (lf_owner s = Evictor) then kIncFailedEviction else kIncFailedMoving),
        lf_word s).
Proof.
  intros [Hf Hinv]%life_reachable_inv Hown.
  destruct (lf_owner s) eqn:Ho; [done|..]; destruct Hinv as (Hx & Ha & Hh); (split; [done|]);
    rewrite inc_result_excl by (done || by rewrite Ha); by rewrite Ha.
Qed.

Lemma exclusive_excludes_handles_witness :
  0 = 0 ∧ run_op OpIncRef (2 ^ 18 + 2 ^ 20) = Ok (RInc kIncFailedEviction, 2 ^ 18 + 2 ^ 20).
Proof.
  apply (exclusive_excludes_handles (mkLife (2 ^ 18 + 2 ^ 20) 0 Evictor)); [|done].
  eapply rtc_l; [apply (life_other 0 (2 ^ 18) 0 NoOwner OpMarkInMMContainer RUnit); [by left; left|done]|].
  eapply rtc_l; [by apply (life_evict (2 ^ 18) (2 ^ 18 + 2 ^ 20) 0 NoOwner)|]. constructor.
Defined.

(** Giving back a handle never underflows: while a handle is outstanding
    [decRef] returns, and the value it returns is the remaining reference
    count with the admin bits. *)
Theorem decRef_with_handle_returns s :
  rtc life_step life_init s → 0 < lf_handles s →
  ∃ v', decRef (lf_word s) = Ok (getRefWithAccessAndAdmin v', v') ∧
    rs_access (decode v') = lf_handles s - 1.
Proof.
  intros [Hf Hinv]%life_reachable_inv Hpos.
  destruct (lf_owner s); [|lia..]. destruct Hinv as [Hx Ha].
  pose proof (run_op_refines_aux OpDecRef _ Hf) as Href. cbn [spec_op run_op] in Href.
  destruct (Z.eqb_spec (rs_access (decode (lf_word s))) 0); [lia|].
  destruct (decRef (lf_word s)) as [[x v']| |]; res_simpl; [|done..].
  assert (decode v' = with_access (decode (lf_word s)) (rs_access (decode (lf_word s)) - 1)) as Hd
    by congruence.
  exists v'. unfold getRefWithAccessAndAdmin. rewrite land_ref, Hd.
  split; [congruence|]. cbn. rewrite <- Ha. done.
Qed.

Lemma decRef_with_handle_returns_witness :
  ∃ v', decRef (2 ^ 18 + 1) = Ok (getRefWithAccessAndAdmin v', v') ∧
    rs_access (decode v') = 1 - 1.
Proof.
  apply (decRef_with_handle_returns (mkLife (2 ^ 18 + 1) 1 NoOwner)); [|done].
  eapply rtc_l; [apply (life_other 0 (2 ^ 18) 0 NoOwner OpMarkInMMContainer RUnit); [by left; left|done]|].
  eapply rtc_l; [by apply (life_acquire (2 ^ 18) (2 ^ 18 + 1) 0 NoOwner)|]. constructor.
Defined.
