(* ===== verification/SlabAllocator.v ===== *)
(** Slabs, compressed pointers and the slab allocator
    ([allocator/memory/Slab.h], [CompressedPtr.h], [SlabAllocator.h],
    [SlabAllocator.cpp]).

    A [Slab*] kept in a field or a list is its address, [0] being [nullptr];
    the pointers handed out and the pointers the compressor takes are
    [option Z], [None] being [nullptr].  The slab headers live at the start of
    the managed memory and are a map from slab index to header.  The calls
    into the operating system ([madvise], page touching, core-dump exclusion,
    the memory-locking thread) are not modelled; the answer of [madvise] is an
    argument of [adviseSlab]. *)
From S2P Require Import Prelude.

(** ** [Slab.h] *)
Definition kInvalidClassId : Z := -1.
Definition kInvalidPoolId : Z := -1.
Definition kNumSlabBits : Z := 22.
Definition kMinAllocPower : Z := 6.
Definition kMinAllocSize : Z := Z.shiftl 1 kMinAllocPower.
Definition kSize : Z := Z.shiftl 1 kNumSlabBits.

Inductive SlabHeaderFlag :=
  IS_MARKED_FOR_RELEASE | IS_ADVISED | SH_FLAG_2 | SH_FLAG_3 | SH_FLAG_4 | SH_FLAG_5 | SH_FLAG_6 | SH_FLAG_7.
Definition headerFlag_bit (f : SlabHeaderFlag) : Z :=
  match f with
  | IS_MARKED_FOR_RELEASE => 0 | IS_ADVISED => 1 | SH_FLAG_2 => 2 | SH_FLAG_3 => 3
  | SH_FLAG_4 => 4 | SH_FLAG_5 => 5 | SH_FLAG_6 => 6 | SH_FLAG_7 => 7
  end.

Record SlabHeader := mkSlabHeader {
  poolId : Z;
  classId : Z;
  flags : Z;
  allocSize : Z;
}.
(** [SlabHeader(PoolId pid)]. *)
Definition SlabHeader_pid (pid : Z) : SlabHeader := mkSlabHeader pid kInvalidClassId 0 0.
Definition sizeof_SlabHeader : Z := 1 + 1 + 1 + 4.

Definition resetAllocInfo (h : SlabHeader) : SlabHeader :=
  mkSlabHeader kInvalidPoolId kInvalidClassId (flags h) 0.
Definition headerSetFlag (f : SlabHeaderFlag) (h : SlabHeader) : SlabHeader :=
  mkSlabHeader (poolId h) (classId h)
    (Z.lor (flags h) (u8 (Z.shiftl 1 (headerFlag_bit f)))) (allocSize h).
Definition headerUnSetFlag (f : SlabHeaderFlag) (h : SlabHeader) : SlabHeader :=
  mkSlabHeader (poolId h) (classId h)
    (Z.land (flags h) (u8 (uint_max 8 - Z.shiftl 1 (headerFlag_bit f)))) (allocSize h).
Definition headerIsFlagSet (f : SlabHeaderFlag) (h : SlabHeader) : bool :=
  negb (Z.land (flags h) (Z.shiftl 1 (headerFlag_bit f)) =? 0).
Definition isAdvised : SlabHeader → bool := headerIsFlagSet IS_ADVISED.
Definition setAdvised (value : bool) : SlabHeader → SlabHeader :=
  if value then headerSetFlag IS_ADVISED else headerUnSetFlag IS_ADVISED.
Definition isMarkedForRelease : SlabHeader → bool := headerIsFlagSet IS_MARKED_FOR_RELEASE.
Definition setMarkedForRelease (value : bool) : SlabHeader → SlabHeader :=
  if value then headerSetFlag IS_MARKED_FOR_RELEASE else headerUnSetFlag IS_MARKED_FOR_RELEASE.

(** ** [CompressedPtr.h] *)
Definition kNull : Z := 0xffffffff.
Definition kNumAllocIdxBits : Z := kNumSlabBits - kMinAllocPower.
Definition kNumTierIdxOffset : Z := 31.
Definition kAllocIdxMask : Z := Z.shiftl 1 kNumAllocIdxBits - 1.
Definition kTierIdxMask : Z := Z.shiftl 1 kNumTierIdxOffset.
Definition numSlabIdxBits (isMultiTiered : bool) : Z :=
  kNumTierIdxOffset - kNumAllocIdxBits + b2z (negb isMultiTiered).
Definition getMinAllocSize : Z := Z.shiftl 1 kMinAllocPower.
Definition getMaxAddressableSize : Z := Z.shiftl 1 (numSlabIdxBits false + kNumSlabBits).

Definition isNull (p : Z) : bool := p =? kNull.

Definition cptr_compress (slabIdx allocIdx : Z) (isMultiTiered : bool) (tid : Z) : result Z :=
  _ ← xdcheck (allocIdx <=? kAllocIdxMask);
  _ ← xdcheck (slabIdx <? Z.shiftl 1 (numSlabIdxBits isMultiTiered) - 1);
  if negb isMultiTiered then
    Ok (u32 (u32 (Z.shiftl slabIdx kNumAllocIdxBits) + allocIdx))
  else
    Ok (u32 (u32 (Z.shiftl (u32 tid) kNumTierIdxOffset) +
             u32 (Z.shiftl slabIdx kNumAllocIdxBits) + allocIdx)).

Definition getSlabIdx (p : Z) (isMultiTiered : bool) : result Z :=
  _ ← xdcheck (negb (isNull p));
  let noTierIdPtr := if isMultiTiered then Z.land p (uint_max 32 - kTierIdxMask) else p in
  Ok (Z.shiftr noTierIdPtr kNumAllocIdxBits).

Definition getAllocIdx (p : Z) : result Z :=
  _ ← xdcheck (negb (isNull p));
  Ok (Z.land p kAllocIdxMask).

Definition getTierId (p : Z) (isMultiTiered : bool) : result Z :=
  _ ← xdcheck (negb (isNull p));
  Ok (if isMultiTiered then Z.shiftr p kNumTierIdxOffset else 0).

Definition setTierId (p tid : Z) : Z := u32 (p + u32 (Z.shiftl (u32 tid) kNumTierIdxOffset)).

(** ** [SlabAllocator]: state *)
Definition kNullSlabIdx : Z := uint_max 32.
Definition kAddressMask : Z := uint_max 64 - Z.shiftl 1 kNumSlabBits + 1.
Definition kMaxPools : nat := 127.

Record SlabAllocator := mkSlabAllocator {
  memoryPoolSize : list Z;
  freeSlabs : list Z;
  advisedSlabs : list Z;
  memoryStart : Z;
  memorySize : Z;
  slabMemoryStart : Z;
  nextSlabAllocation : Z;
  canAllocate : bool;
  ownsMemory : bool;
  pretendMadvise : bool;
  (** contents of the header array at the start of the memory *)
  headers : Z → SlabHeader;
}.

Definition set_pool_size (id : Z) (f : Z → Z) (sa : SlabAllocator) : result SlabAllocator :=
  if (0 <=? id) && (id <? Z.of_nat kMaxPools) then
    Ok (mkSlabAllocator (alter (λ n, u64 (f n)) (Z.to_nat id) (memoryPoolSize sa)) (freeSlabs sa)
      (advisedSlabs sa) (memoryStart sa) (memorySize sa) (slabMemoryStart sa)
      (nextSlabAllocation sa) (canAllocate sa) (ownsMemory sa) (pretendMadvise sa) (headers sa))
  else Undef.
Definition set_free (l : list Z) (b : bool) (sa : SlabAllocator) : SlabAllocator :=
  mkSlabAllocator (memoryPoolSize sa) l (advisedSlabs sa) (memoryStart sa) (memorySize sa)
    (slabMemoryStart sa) (nextSlabAllocation sa) b (ownsMemory sa) (pretendMadvise sa) (headers sa).
Definition set_advised (l : list Z) (sa : SlabAllocator) : SlabAllocator :=
  mkSlabAllocator (memoryPoolSize sa) (freeSlabs sa) l (memoryStart sa) (memorySize sa)
    (slabMemoryStart sa) (nextSlabAllocation sa) (canAllocate sa) (ownsMemory sa)
    (pretendMadvise sa) (headers sa).
Definition set_next (a : Z) (sa : SlabAllocator) : SlabAllocator :=
  mkSlabAllocator (memoryPoolSize sa) (freeSlabs sa) (advisedSlabs sa) (memoryStart sa)
    (memorySize sa) (slabMemoryStart sa) a (canAllocate sa) (ownsMemory sa) (pretendMadvise sa)
    (headers sa).
Definition upd_header (i : Z) (f : SlabHeader → SlabHeader) (sa : SlabAllocator) : SlabAllocator :=
  mkSlabAllocator (memoryPoolSize sa) (freeSlabs sa) (advisedSlabs sa) (memoryStart sa)
    (memorySize sa) (slabMemoryStart sa) (nextSlabAllocation sa) (canAllocate sa) (ownsMemory sa)
    (pretendMadvise sa) (λ j, if decide (j = i) then f (headers sa i) else headers sa j).

(** ** [SlabAllocator]: address arithmetic *)
Definition roundDownToSlabSize (size : Z) : Z := size - size mod kSize.
Definition numSlabs (memorySize : Z) : Z := u32 (memorySize / kSize).
Definition numSlabsForHeaders (memorySize : Z) : Z :=
  let headerSpace := u64 (sizeof_SlabHeader * numSlabs memorySize) in
  u32 (u64 (headerSpace + kSize - 1) / kSize).
Definition getNumUsableSlabsFor (memorySize : Z) : Z :=
  u32 (numSlabs memorySize - numSlabsForHeaders memorySize).

Definition getSlabMemoryEnd (sa : SlabAllocator) : Z := memoryStart sa + memorySize sa.
Definition allMemorySlabbed (sa : SlabAllocator) : bool :=
  nextSlabAllocation sa =? getSlabMemoryEnd sa.
Definition getNumUsableAndAdvisedSlabs (sa : SlabAllocator) : Z :=
  u32 ((getSlabMemoryEnd sa - slabMemoryStart sa) / kSize).
Definition numSlabsReclaimable (sa : SlabAllocator) : Z := Z.of_nat (length (advisedSlabs sa)).
Definition getNumUsableSlabs (sa : SlabAllocator) : Z :=
  u32 (getNumUsableAndAdvisedSlabs sa - u32 (numSlabsReclaimable sa)).
Definition allSlabsAllocated (sa : SlabAllocator) : bool :=
  allMemorySlabbed sa && bool_decide (freeSlabs sa = []).

Definition getSlabForMemory (memory : Z) : Z := Z.land memory kAddressMask.
Definition isValidSlab (sa : SlabAllocator) (slab : Z) : bool :=
  (slabMemoryStart sa <=? slab) && (slab <? nextSlabAllocation sa) &&
  (getSlabForMemory slab =? slab).
Definition slabIndex (sa : SlabAllocator) (slab : Z) : Z :=
  u32 ((slab - slabMemoryStart sa) / kSize).
(** The index of the header of the slab at an address, [None] for [nullptr]. *)
Definition getSlabHeader (sa : SlabAllocator) (memory : Z) : option Z :=
  let slab := getSlabForMemory memory in
  if isValidSlab sa slab then Some (slabIndex sa slab) else None.
Definition slabIdx (sa : SlabAllocator) (slab : Z) : result Z :=
  if slab =? 0 then Ok kNullSlabIdx
  else
    _ ← xdcheck ((slab =? nextSlabAllocation sa) || isValidSlab sa slab);
    Ok (slabIndex sa slab).
Definition getSlabForIdx (start idx : Z) : Z :=
  if idx =? kNullSlabIdx then 0 else start + idx * kSize.
Definition getSlabHeaderOfSlab (sa : SlabAllocator) (slab : Z) : option Z :=
  if isValidSlab sa slab then Some (slabIndex sa slab) else None.
Definition isMemoryInSlab (sa : SlabAllocator) (ptr slab : Z) : bool :=
  if negb (isValidSlab sa slab) then false else getSlabForMemory ptr =? slab.
Definition memoryAtOffset (slab offset : Z) : result Z :=
  _ ← xdcheck (offset <? kSize); Ok (slab + offset).

(** ** [SlabAllocator]: operations *)
Definition checkState (sa : SlabAllocator) : result unit :=
  _ ← throw_if ((memoryStart sa =? 0) || (memorySize sa <=? kSize)) InvalidArgument;
  _ ← throw_if ((slabMemoryStart sa =? 0) || (nextSlabAllocation sa =? 0)) InvalidArgument;
  _ ← throw_if (getSlabMemoryEnd sa <? nextSlabAllocation sa) InvalidArgument;
  throw_if (existsb (λ slab, negb (isValidSlab sa slab)) (freeSlabs sa)) InvalidArgument.

Definition computeSlabMemoryStart (memoryStart memorySize : Z) : result Z :=
  let numHeaderSlabs := numSlabsForHeaders memorySize in
  _ ← throw_if (numSlabs memorySize <=? numHeaderSlabs) InvalidArgument;
  _ ← throw_if ((memoryStart =? 0) || negb (memoryStart mod kSize =? 0)) InvalidArgument;
  Ok (memoryStart + numHeaderSlabs * kSize).

(** The constructor over memory whose header array holds [hdrs]. *)
Definition SlabAllocator_new (memStart memSize : Z) (owns : bool) (hdrs : Z → SlabHeader)
    : result SlabAllocator :=
  let size := roundDownToSlabSize memSize in
  start ← computeSlabMemoryStart memStart size;
  let sa := mkSlabAllocator (replicate kMaxPools 0) [] [] memStart size start start
              true owns false hdrs in
  _ ← checkState sa;
  _ ← xdcheck (memStart mod kSize =? 0);
  _ ← xdcheck (size mod kSize =? 0);
  Ok sa.

Definition makeNewSlabImpl (sa : SlabAllocator) : result (option Z * SlabAllocator) :=
  if negb (canAllocate sa) then Ok (None, sa)
  else match last (freeSlabs sa) with
  | Some slab => Ok (Some slab, set_free (removelast (freeSlabs sa)) (canAllocate sa) sa)
  | None =>
      _ ← xdcheck (nextSlabAllocation sa mod kSize =? 0);
      if allMemorySlabbed sa then Ok (None, set_free (freeSlabs sa) false sa)
      else Ok (Some (nextSlabAllocation sa), set_next (nextSlabAllocation sa + kSize) sa)
  end.

Definition initializeHeader (slab id : Z) (sa : SlabAllocator) : result SlabAllocator :=
  header ← deref (getSlabHeaderOfSlab sa slab);
  Ok (upd_header header (λ _, SlabHeader_pid id) sa).

Definition makeNewSlab (id : Z) (sa : SlabAllocator) : result (option Z * SlabAllocator) :=
  '(slab, sa) ← makeNewSlabImpl sa;
  match slab with
  | None => Ok (None, sa)
  | Some slab =>
      sa ← set_pool_size id (λ n, n + kSize) sa;
      sa ← initializeHeader slab id sa;
      Ok (Some slab, sa)
  end.

Definition freeSlab (slab : Z) (sa : SlabAllocator) : result SlabAllocator :=
  let header := getSlabHeaderOfSlab sa slab in
  _ ← xdcheck (bool_decide (header ≠ None));
  match header with
  | None => Throw RuntimeError
  | Some header =>
      sa ← set_pool_size (poolId (headers sa header)) (λ n, n - kSize) sa;
      let sa := set_free (freeSlabs sa ++ [slab]) true sa in
      Ok (upd_header header resetAllocInfo sa)
  end.

(** [madviseOk]: the kernel released the slab's pages. *)
Definition adviseSlab (madviseOk : bool) (slab : Z) (sa : SlabAllocator)
    : result (bool * SlabAllocator) :=
  match getSlabHeaderOfSlab sa slab with
  | None => Throw RuntimeError
  | Some header =>
      let sa := upd_header header (setAdvised true) sa in
      if madviseOk || pretendMadvise sa then
        let sa := set_advised (advisedSlabs sa ++ [slab]) sa in
        Ok (true, upd_header header resetAllocInfo sa)
      else Ok (false, upd_header header (setAdvised false) sa)
  end.

Definition reclaimSlab (id : Z) (sa : SlabAllocator) : result (option Z * SlabAllocator) :=
  match advisedSlabs sa with
  | [] => Ok (None, sa)
  | slab :: rest =>
      sa ← set_pool_size id (λ n, n + kSize) (set_advised rest sa);
      sa ← initializeHeader slab id sa;
      Ok (Some slab, sa)
  end.

(** The random offset [rand] is below the size of the slab memory. *)
Definition getRandomAlloc (rand : Z) (sa : SlabAllocator) : result (option Z) :=
  let memory := slabMemoryStart sa + rand in
  let slab := getSlabForMemory memory in
  match getSlabHeaderOfSlab sa slab with
  | None => Ok None
  | Some header =>
      _ ← xdcheck (slab <=? memory);
      let sz := allocSize (headers sa header) in
      if sz =? 0 then Ok None
      else
        let maxAllocIdx := kSize / sz - 1 in
        let allocIdx := (memory - slab) / sz in
        let allocIdx := if maxAllocIdx <? allocIdx then maxAllocIdx else allocIdx in
        Ok (Some (slab + sz * allocIdx))
  end.

(** *** Saved state *)
Record SlabAllocatorObject := mkSlabAllocatorObject {
  o_memorySize : Z;
  o_canAllocate : bool;
  o_memoryPoolSize : list (Z * Z);
  o_slabSize : Z;
  o_minAllocSize : Z;
  o_nextSlabIdx : Z;
  o_freeSlabIdxs : list Z;
  o_advisedSlabIdxs : list Z;
}.

Fixpoint mapM {A B} (f : A → result B) (l : list A) : result (list B) :=
  match l with
  | [] => Ok []
  | x :: l => y ← f x; ys ← mapM f l; Ok (y :: ys)
  end.

Definition saveState (sa : SlabAllocator) : result SlabAllocatorObject :=
  _ ← throw_if (ownsMemory sa) LogicError;
  next ← slabIdx sa (nextSlabAllocation sa);
  free ← mapM (slabIdx sa) (freeSlabs sa);
  advised ← mapM (slabIdx sa) (advisedSlabs sa);
  Ok (mkSlabAllocatorObject (s64 (memorySize sa)) (canAllocate sa)
    (imap (λ id n, (Z.of_nat id, s64 n)) (memoryPoolSize sa)) kSize getMinAllocSize
    (s32 next) (s32 <$> free) (s32 <$> advised)).

Definition restorePoolSizes (l : list (Z * Z)) (sa : SlabAllocator) : result SlabAllocator :=
  foldl (λ m '(id, n), sa ← m;
          _ ← throw_if (Z.of_nat kMaxPools <=? id) InvalidArgument;
          set_pool_size id (λ _, n) sa) (Ok sa) l.
Definition restoreFreeSlabs (l : list Z) (sa : SlabAllocator) : SlabAllocator :=
  set_free (freeSlabs sa ++ ((λ idx, getSlabForIdx (slabMemoryStart sa) (u32 idx)) <$> l))
    (canAllocate sa) sa.
Definition restoreAdvisedSlabs (l : list Z) (sa : SlabAllocator) : SlabAllocator :=
  foldl (λ sa idx,
          set_advised (advisedSlabs sa ++ [getSlabForIdx (slabMemoryStart sa) (u32 idx)])
            (upd_header (u32 idx) (setAdvised true) sa)) sa l.

(** The constructor that restores a saved allocator over the same memory. *)
Definition SlabAllocator_restore (o : SlabAllocatorObject) (memStart memSize : Z)
    (hdrs : Z → SlabHeader) : result SlabAllocator :=
  let size := u64 (o_memorySize o) in
  start ← computeSlabMemoryStart memStart size;
  let next := getSlabForIdx start (u32 (o_nextSlabIdx o)) in
  let sa := mkSlabAllocator (replicate kMaxPools 0) [] [] memStart size start next
              (o_canAllocate o) false false hdrs in
  _ ← throw_if (negb (kSize =? u64 (o_slabSize o))) InvalidArgument;
  _ ← throw_if (negb (getMinAllocSize =? o_minAllocSize o)) InvalidArgument;
  _ ← throw_if (negb (size =? roundDownToSlabSize memSize)) InvalidArgument;
  sa ← restorePoolSizes (o_memoryPoolSize o) sa;
  let sa := restoreFreeSlabs (o_freeSlabIdxs o) sa in
  let sa := restoreAdvisedSlabs (o_advisedSlabIdxs o) sa in
  _ ← checkState sa;
  Ok sa.

(** ** Pointer compression *)
Definition compress (sa : SlabAllocator) (ptr : option Z) (isMultiTiered : bool) : result Z :=
  match ptr with
  | None => Ok kNull
  | Some ptr =>
      let slab := getSlabForMemory ptr in
      if negb (isValidSlab sa slab) then Throw InvalidArgument
      else
        let slabIndex := slabIndex sa slab in
        let sz := allocSize (headers sa slabIndex) in
        _ ← xdcheck (getMinAllocSize <=? sz);
        let allocIdx := u32 (ptr - slab) / sz in
        cptr_compress slabIndex allocIdx isMultiTiered 0
  end.

Definition unCompress (sa : SlabAllocator) (ptr : Z) (isMultiTiered : bool) : result (option Z) :=
  if isNull ptr then Ok None
  else
    slabIndex ← getSlabIdx ptr isMultiTiered;
    allocIdx ← getAllocIdx ptr;
    let slab := slabMemoryStart sa + slabIndex * kSize in
    _ ← throw_if (negb (isValidSlab sa slab)) InvalidArgument;
    let sz := allocSize (headers sa slabIndex) in
    _ ← xdcheck (getMinAllocSize <=? sz);
    let offset := u32 (sz * allocIdx) in
    _ ← throw_if (kSize <=? offset) InvalidArgument;
    Some <$> memoryAtOffset slab offset.

(** *** The alternative scheme kept for benchmarks *)
Definition kMarkerBits : Z := 6.
Definition compressAlt (sa : SlabAllocator) (ptr : option Z) : Z :=
  match ptr with
  | None => kNull
  | Some ptr => u32 (Z.shiftr (ptr - slabMemoryStart sa) kMarkerBits)
  end.
Definition unCompressAlt (sa : SlabAllocator) (cPtr : Z) : result (option Z) :=
  if isNull cPtr then Ok None
  else
    let markerOffset := u32 (Z.shiftl cPtr kMarkerBits) in
    let markerPtr := slabMemoryStart sa + markerOffset in
    header ← deref (getSlabHeader sa markerPtr);
    let sz := allocSize (headers sa header) in
    _ ← xdcheck (Z.shiftl 1 kMarkerBits <=? sz);
    let slab := getSlabForMemory markerPtr in
    let slabOffset := markerPtr - slab in
    _ ← xdcheck (slabOffset <? kSize);
    let delta := slabOffset mod sz in
    let slabOffset := if negb (delta =? 0) then slabOffset + (sz - delta) else slabOffset in
    Some <$> memoryAtOffset slab slabOffset.

(** ** Arithmetic of the layout *)
Lemma kSize_val : kSize = 4194304.
Proof. done. Qed.

Lemma getSlabForMemory_eq a : fits 64 a → getSlabForMemory a = kSize * (a / kSize).
Proof.
  intros Ha. unfold getSlabForMemory.
  change kAddressMask with (Z.shiftl (Z.ones 42) 22). change kSize with (2 ^ 22).
  rewrite <- Z.shiftr_div_pow2, Z.mul_comm, <- Z.shiftl_mul_pow2 by done.
  apply Z.bits_inj'. intros n Hn. rewrite Z.land_spec, !Z.shiftl_spec by done.
  destruct (decide (n < 22)) as [Hlt|Hge].
  { rewrite !(Z.testbit_neg_r _ (n - 22)) by lia. apply andb_false_r. }
  rewrite Z.shiftr_spec by lia. replace (n - 22 + 22) with n by lia.
  destruct (decide (n < 64)).
  - rewrite Z.ones_spec_low by lia. apply andb_true_r.
  - rewrite (testbit_high 64 a) by (done || lia). done.
Qed.

(** Two words in the same slab-sized block. *)
Lemma getSlabForMemory_offset slab off :
  fits 64 (slab + off) → slab mod kSize = 0 → 0 ≤ off < kSize →
  getSlabForMemory (slab + off) = slab.
Proof.
  intros Hf Hal Hoff. rewrite getSlabForMemory_eq by done.
  rewrite kSize_val in *. Z.to_euclidean_division_equations. lia.
Qed.

Lemma cptr_compress_eq slabIdx allocIdx (isMultiTiered : bool) tid :
  0 ≤ slabIdx < 2 ^ numSlabIdxBits isMultiTiered - 1 →
  0 ≤ allocIdx < 2 ^ kNumAllocIdxBits →
  0 ≤ tid ≤ b2z isMultiTiered →
  cptr_compress slabIdx allocIdx isMultiTiered tid =
    Ok (tid * 2 ^ 31 + slabIdx * 2 ^ 16 + allocIdx).
Proof.
  change (2 ^ kNumAllocIdxBits) with 65536. intros Hs Ha Ht. unfold cptr_compress.
  rewrite (proj2 (Z.leb_le _ _)) by (change kAllocIdxMask with 65535; lia).
  rewrite (proj2 (Z.ltb_lt _ _)) by (rewrite Z.shiftl_1_l; lia). res_simpl.
  assert (∀ x, 0 ≤ x < 4294967296 → u32 x = x) as Hw by (intros; by apply wrap_small).
  rewrite !Z.shiftl_mul_pow2 by done. change kNumAllocIdxBits with 16.
  change kNumTierIdxOffset with 31. change (2 ^ 16) with 65536. change (2 ^ 31) with 2147483648.
  destruct isMultiTiered; cbn [negb b2z] in *.
  - change (2 ^ numSlabIdxBits true) with 32768 in *.
    rewrite (Hw tid), (Hw (tid * _)), (Hw (slabIdx * _)), Hw by lia. done.
  - change (2 ^ numSlabIdxBits false) with 65536 in *.
    rewrite (Hw (slabIdx * _)), Hw by lia. f_equal. lia.
Qed.

Lemma cptr_roundtrip_aux slabIdx allocIdx (isMultiTiered : bool) tid :
  0 ≤ slabIdx < 2 ^ numSlabIdxBits isMultiTiered - 1 →
  0 ≤ allocIdx < 2 ^ kNumAllocIdxBits →
  0 ≤ tid ≤ b2z isMultiTiered →
  ∃ p, cptr_compress slabIdx allocIdx isMultiTiered tid = Ok p ∧ fits 32 p ∧ isNull p = false ∧
    getSlabIdx p isMultiTiered = Ok slabIdx ∧ getAllocIdx p = Ok allocIdx ∧
    getTierId p isMultiTiered = Ok tid.
Proof.
  intros Hs Ha Ht. rewrite cptr_compress_eq by done. eexists; split; [done|].
  set (p := _ + allocIdx).
  assert (isNull p = false ∧ fits 32 p) as [Hn Hf].
  { unfold isNull, p, fits. rewrite Z.eqb_neq. change kNull with 4294967295.
    change (2 ^ kNumAllocIdxBits) with 65536 in *. destruct isMultiTiered; cbn [b2z] in *;
      [change (2 ^ numSlabIdxBits true) with 32768 in *
      |change (2 ^ numSlabIdxBits false) with 65536 in *]; lia. }
  unfold getSlabIdx, getAllocIdx, getTierId. rewrite Hn. res_simpl.
  change (uint_max 32 - kTierIdxMask) with (2 ^ 31 - 1). change kAllocIdxMask with (2 ^ 16 - 1).
  rewrite !land_ones_mod by done. change kNumAllocIdxBits with 16 in *.
  change kNumTierIdxOffset with 31.
  rewrite !Z.shiftr_div_pow2 by done. unfold p.
  change (2 ^ 16) with 65536 in *. change (2 ^ 31) with 2147483648.
  destruct isMultiTiered; cbn [b2z] in *;
    [change (2 ^ numSlabIdxBits true) with 32768 in *
    |change (2 ^ numSlabIdxBits false) with 65536 in *];
    repeat split; try done; try (f_equal; Z.to_euclidean_division_equations; lia);
    apply Hf.
Qed.

(** Packing a slab index, an allocation index and (with memory tiers) a tier
    id into 32 bits loses nothing: the packed word is never the null pattern
    and its accessors give the three components back. *)
Theorem cptr_roundtrip slabIdx allocIdx (isMultiTiered : bool) tid :
  0 ≤ slabIdx < 2 ^ numSlabIdxBits isMultiTiered - 1 →
  0 ≤ allocIdx < 2 ^ kNumAllocIdxBits →
  0 ≤ tid ≤ b2z isMultiTiered →
  ∃ p, cptr_compress slabIdx allocIdx isMultiTiered tid = Ok p ∧ fits 32 p ∧ isNull p = false ∧
    getSlabIdx p isMultiTiered = Ok slabIdx ∧ getAllocIdx p = Ok allocIdx ∧
    getTierId p isMultiTiered = Ok tid.
Proof. apply cptr_roundtrip_aux. Qed.

Lemma cptr_roundtrip_witness :
  ∃ p, cptr_compress 32766 65535 true 1 = Ok p ∧ fits 32 p ∧ isNull p = false ∧
    getSlabIdx p true = Ok 32766 ∧ getAllocIdx p = Ok 65535 ∧ getTierId p true = Ok 1.
Proof. apply (cptr_roundtrip 32766 65535 true 1); by vm_compute. Defined.

(** ** Well-formed allocators *)
Record sa_wf (sa : SlabAllocator) : Prop := {
  wf_start : 0 < memoryStart sa ∧ memoryStart sa mod kSize = 0;
  wf_size : (0 < memorySize sa ≤ getMaxAddressableSize) ∧ memorySize sa mod kSize = 0;
  wf_end : getSlabMemoryEnd sa < 2 ^ 64;
  wf_headers : numSlabsForHeaders (memorySize sa) < numSlabs (memorySize sa);
  wf_slab_start :
    slabMemoryStart sa = memoryStart sa + numSlabsForHeaders (memorySize sa) * kSize;
  wf_next : (slabMemoryStart sa ≤ nextSlabAllocation sa ≤ getSlabMemoryEnd sa) ∧
            nextSlabAllocation sa mod kSize = 0;
  wf_nodup : NoDup (freeSlabs sa ++ advisedSlabs sa);
  wf_valid : Forall (λ s, isValidSlab sa s = true) (freeSlabs sa ++ advisedSlabs sa);
  wf_can : canAllocate sa = false →
           freeSlabs sa = [] ∧ nextSlabAllocation sa = getSlabMemoryEnd sa;
  wf_pools : length (memoryPoolSize sa) = kMaxPools;
}.

(** A slab that some memory pool holds. *)
Definition in_use (sa : SlabAllocator) (slab : Z) : Prop :=
  isValidSlab sa slab = true ∧ (slab ∉ freeSlabs sa) ∧ (slab ∉ advisedSlabs sa).

Lemma max_addressable_val : getMaxAddressableSize = 274877906944.
Proof. done. Qed.

Lemma numSlabs_small m : 0 ≤ m ≤ getMaxAddressableSize → numSlabs m = m / kSize.
Proof.
  intros Hm. apply wrap_small. rewrite max_addressable_val in Hm. rewrite kSize_val. unfold fits.
  change (2 ^ 32) with 4294967296. Z.to_euclidean_division_equations. lia.
Qed.

(** The header array occupies exactly one slab whenever there is memory to manage. *)
Lemma numSlabsForHeaders_small m : 0 ≤ m ≤ getMaxAddressableSize →
  numSlabsForHeaders m = if m <? kSize then 0 else 1.
Proof.
  intros Hm. unfold numSlabsForHeaders. rewrite numSlabs_small by done.
  rewrite max_addressable_val in Hm. change sizeof_SlabHeader with 7. rewrite kSize_val.
  assert (0 ≤ m / 4194304 ≤ 65536) by (Z.to_euclidean_division_equations; lia).
  rewrite (wrap_small 64 (7 * _)) by (unfold fits; change (2 ^ 64) with 18446744073709551616; lia).
  rewrite (wrap_small 64) by (unfold fits; change (2 ^ 64) with 18446744073709551616; lia).
  rewrite wrap_small; [|unfold fits; change (2 ^ 32) with 4294967296;
    Z.to_euclidean_division_equations; lia].
  destruct (Z.ltb_spec m 4194304); Z.to_euclidean_division_equations; lia.
Qed.

Section wf_lemmas.
Context (sa : SlabAllocator) (Hwf : sa_wf sa).

Lemma wf_size_two : 2 * kSize ≤ memorySize sa.
Proof.
  destruct (wf_size _ Hwf) as [Hs Hal]. pose proof (wf_headers _ Hwf) as Hh.
  rewrite numSlabsForHeaders_small, numSlabs_small in Hh by lia.
  rewrite kSize_val in *. destruct (Z.ltb_spec (memorySize sa) 4194304);
    Z.to_euclidean_division_equations; lia.
Qed.

Lemma wf_slab_start_eq : slabMemoryStart sa = memoryStart sa + kSize.
Proof.
  rewrite (wf_slab_start _ Hwf). destruct (wf_size _ Hwf) as [Hs Hal].
  rewrite numSlabsForHeaders_small by lia. pose proof wf_size_two.
  destruct (Z.ltb_spec (memorySize sa) kSize); rewrite kSize_val in *; lia.
Qed.

Lemma slab_start_aligned : slabMemoryStart sa mod kSize = 0.
Proof.
  rewrite wf_slab_start_eq. destruct (wf_start _ Hwf) as [_ H]. rewrite kSize_val in *.
  Z.to_euclidean_division_equations. lia.
Qed.

Lemma valid_slab_iff s :
  isValidSlab sa s = true ↔ slabMemoryStart sa ≤ s < nextSlabAllocation sa ∧ s mod kSize = 0.
Proof.
  unfold isValidSlab. rewrite !andb_true_iff, Z.leb_le, Z.ltb_lt, Z.eqb_eq.
  destruct (wf_next _ Hwf) as [Hn _]. pose proof (wf_end _ Hwf) as He.
  destruct (wf_start _ Hwf) as [Hst _]. pose proof wf_slab_start_eq. rewrite kSize_val in *.
  split; intros [Hr Heq]; (split; [lia|]).
  - rewrite getSlabForMemory_eq in Heq by (unfold fits; lia). rewrite kSize_val in *.
    Z.to_euclidean_division_equations. lia.
  - rewrite getSlabForMemory_eq by (unfold fits; lia). rewrite kSize_val in *.
    Z.to_euclidean_division_equations. lia.
Qed.

Lemma slabIndex_eq s : slabMemoryStart sa ≤ s ≤ nextSlabAllocation sa → s mod kSize = 0 →
  slabIndex sa s = (s - slabMemoryStart sa) / kSize ∧
  s = slabMemoryStart sa + slabIndex sa s * kSize ∧
  0 ≤ slabIndex sa s ≤ 65535 ∧ (s < nextSlabAllocation sa → slabIndex sa s < 65535).
Proof.
  intros Hs Hal. pose proof slab_start_aligned as Ha. destruct (wf_next _ Hwf) as [Hn Hna].
  destruct (wf_size _ Hwf) as [Hz _]. pose proof wf_slab_start_eq as He.
  rewrite max_addressable_val in Hz. unfold getSlabMemoryEnd in *. rewrite kSize_val in *.
  assert (slabIndex sa s = (s - slabMemoryStart sa) / 4194304) as ->.
  { apply wrap_small. unfold fits. change (2 ^ 32) with 4294967296.
    Z.to_euclidean_division_equations; lia. }
  Z.to_euclidean_division_equations; lia.
Qed.

Lemma slabIndex_inj s1 s2 : isValidSlab sa s1 = true → isValidSlab sa s2 = true →
  slabIndex sa s1 = slabIndex sa s2 → s1 = s2.
Proof.
  rewrite !valid_slab_iff. intros [H1 H1'] [H2 H2'] Heq.
  destruct (slabIndex_eq s1) as (_ & -> & _); [lia|done|].
  destruct (slabIndex_eq s2) as (_ & -> & _); [lia|done|]. by rewrite Heq.
Qed.
End wf_lemmas.

(** Everything but the pool sizes and the headers. *)
Definition slab_view (sa : SlabAllocator) :=
  (freeSlabs sa, advisedSlabs sa, (memoryStart sa, memorySize sa, slabMemoryStart sa),
   nextSlabAllocation sa, canAllocate sa, length (memoryPoolSize sa)).

Lemma slab_view_valid sa sa' s : slab_view sa = slab_view sa' →
  isValidSlab sa s = isValidSlab sa' s ∧ slabIndex sa s = slabIndex sa' s.
Proof. destruct sa, sa'. unfold slab_view. simpl. intros. by simplify_eq. Qed.

Lemma slab_view_in_use sa sa' s : slab_view sa = slab_view sa' → in_use sa s ↔ in_use sa' s.
Proof. destruct sa, sa'. unfold slab_view. simpl. intros. by simplify_eq. Qed.

Lemma slab_view_wf sa sa' : slab_view sa = slab_view sa' → sa_wf sa → sa_wf sa'.
Proof.
  destruct sa, sa'. unfold slab_view. simpl. intros. simplify_eq.
  destruct H0; split; simpl in *; try done; try congruence.
Qed.

Lemma set_pool_size_ok id f sa : 0 ≤ id < Z.of_nat kMaxPools →
  ∃ sa', set_pool_size id f sa = Ok sa' ∧ slab_view sa' = slab_view sa ∧
    headers sa' = headers sa ∧ pretendMadvise sa' = pretendMadvise sa ∧
    memoryPoolSize sa' = alter (λ n, u64 (f n)) (Z.to_nat id) (memoryPoolSize sa).
Proof.
  intros Hid. unfold set_pool_size.
  rewrite (proj2 (Z.leb_le _ _)), (proj2 (Z.ltb_lt _ _)) by lia. simpl.
  eexists; split; [done|]. unfold slab_view; simpl. by rewrite length_alter.
Qed.

Lemma upd_header_view i f sa : slab_view (upd_header i f sa) = slab_view sa.
Proof. done. Qed.

Lemma header_of_valid sa s : isValidSlab sa s = true →
  getSlabHeaderOfSlab sa s = Some (slabIndex sa s).
Proof. intros H. unfold getSlabHeaderOfSlab. by rewrite H. Qed.

(** Charging a pool for a slab and initialising its header. *)
Lemma claim_slab id slab sa : sa_wf sa → 0 ≤ id < Z.of_nat kMaxPools → isValidSlab sa slab = true →
  ∃ sa', (sa1 ← set_pool_size id (λ n, n + kSize) sa; sa2 ← initializeHeader slab id sa1;
          Ok (Some slab, sa2)) = Ok (Some slab, sa') ∧
    slab_view sa' = slab_view sa ∧
    headers sa' (slabIndex sa' slab) = SlabHeader_pid id ∧
    (∀ s, isValidSlab sa s = true → s ≠ slab →
       headers sa' (slabIndex sa' s) = headers sa (slabIndex sa s)) ∧
    memoryPoolSize sa' = alter (λ n, u64 (n + kSize)) (Z.to_nat id) (memoryPoolSize sa).
Proof.
  intros Hwf Hid Hval.
  destruct (set_pool_size_ok id (λ n, n + kSize) sa Hid) as (sa1 & -> & Hv1 & Hh & _ & Hp).
  res_simpl. unfold initializeHeader.
  destruct (slab_view_valid _ _ slab Hv1) as [Hval1 Hidx1].
  rewrite header_of_valid by (by rewrite Hval1). res_simpl.
  eexists; split; [done|]. repeat split; [done|..].
  - cbn. by rewrite decide_True.
  - intros s Hs Hne. destruct (slab_view_valid _ _ s Hv1) as [_ Hidx].
    change (slabIndex (upd_header (slabIndex sa1 slab) (λ _, SlabHeader_pid id) sa1) s) with (slabIndex sa1 s).
    cbn. rewrite Hidx, Hidx1, Hh. rewrite decide_False; [done|].
    intros Heq. by apply Hne, (slabIndex_inj sa Hwf).
  - done.
Qed.

Lemma fresh_slab_wf sa : sa_wf sa → freeSlabs sa = [] → allMemorySlabbed sa = false →
  let sa' := set_next (nextSlabAllocation sa + kSize) sa in
  sa_wf sa' ∧ isValidSlab sa' (nextSlabAllocation sa) = true ∧
  (∀ s, isValidSlab sa' s = true ↔ isValidSlab sa s = true ∨ s = nextSlabAllocation sa).
Proof.
  intros Hwf Hfree Hall sa'. unfold allMemorySlabbed in Hall. apply Z.eqb_neq in Hall.
  destruct (wf_next _ Hwf) as [Hn Hna]. pose proof (slab_start_aligned _ Hwf) as Hsa.
  assert (nextSlabAllocation sa + kSize ≤ getSlabMemoryEnd sa ∧
          (nextSlabAllocation sa + kSize) mod kSize = 0) as Hnext.
  { destruct (wf_start _ Hwf) as [_ Hst], (wf_size _ Hwf) as [_ Hsz].
    unfold getSlabMemoryEnd in *. rewrite kSize_val in *.
    Z.to_euclidean_division_equations. lia. }
  assert (∀ s, slabMemoryStart sa ≤ s < nextSlabAllocation sa + kSize ∧ s mod kSize = 0 ↔
    (slabMemoryStart sa ≤ s < nextSlabAllocation sa ∧ s mod kSize = 0) ∨
    s = nextSlabAllocation sa) as Hsplit.
  { intros s. rewrite kSize_val in *.
    split; [intros [? ?]; Z.to_euclidean_division_equations; lia|]. intros [[? ?]| ->]; lia. }
  assert (∀ s, isValidSlab sa s = true → isValidSlab sa' s = true) as Hmono.
  { intros s. unfold isValidSlab; cbn. rewrite !andb_true_iff, !Z.leb_le, !Z.ltb_lt, kSize_val. lia. }
  assert (sa_wf sa') as Hwf'.
  { destruct Hwf; split; cbn; try done.
    - change (getSlabMemoryEnd sa') with (getSlabMemoryEnd sa). rewrite kSize_val in *. lia.
    - eapply Forall_impl; [done|]. auto.
    - intros Hc. destruct (wf_can0 Hc). congruence. }
  assert (∀ s, isValidSlab sa' s = true ↔ isValidSlab sa s = true ∨ s = nextSlabAllocation sa) as Hiff.
  { intros s. rewrite (valid_slab_iff _ Hwf'), (valid_slab_iff _ Hwf). apply Hsplit. }
  split; [done|]. split; [|done]. apply Hiff. by right.
Qed.

Lemma last_split {A} (l : list A) x : last l = Some x → l = removelast l ++ [x].
Proof.
  induction l as [|a [|b l] IH]; simpl; [done|by intros [= ->]|].
  intros Hl. f_equal. by apply IH.
Qed.

Lemma pop_free_wf sa slab : sa_wf sa → last (freeSlabs sa) = Some slab →
  let sa' := set_free (removelast (freeSlabs sa)) (canAllocate sa) sa in
  sa_wf sa' ∧ isValidSlab sa slab = true ∧ (slab ∉ freeSlabs sa') ∧ (slab ∉ advisedSlabs sa).
Proof.
  intros Hwf Hl%last_split sa'. pose proof (wf_nodup _ Hwf) as Hnd. pose proof (wf_valid _ Hwf) as Hv.
  rewrite Hl in Hnd, Hv. rewrite <- app_assoc in Hnd, Hv. simpl in Hnd, Hv.
  pose proof Hnd as Hnd'. rewrite NoDup_app, NoDup_cons in Hnd'.
  destruct Hnd' as (_ & Hdisj & Hnotin & _).
  assert (slab ∉ removelast (freeSlabs sa)) as Hnr.
  { intros Hin. apply (Hdisj slab Hin). by left. }
  assert (NoDup (removelast (freeSlabs sa) ++ advisedSlabs sa)) as Hnd2.
  { rewrite <- Permutation_middle, NoDup_cons in Hnd. apply Hnd. }
  assert (Forall (λ s, isValidSlab sa s = true) (slab :: removelast (freeSlabs sa) ++ advisedSlabs sa))
    as Hv2 by (by rewrite Permutation_middle).
  apply Forall_cons in Hv2 as [Hslab Hv2].
  split; [|done]. destruct Hwf; split; cbn; try done.
  intros Hc. destruct (wf_can0 Hc) as [Hnil ?]. rewrite Hnil in Hl. by destruct (removelast (freeSlabs sa)).
Qed.

Lemma makeNewSlabImpl_spec sa : sa_wf sa →
  ∃ r sa', makeNewSlabImpl sa = Ok (r, sa') ∧ sa_wf sa' ∧
    headers sa' = headers sa ∧ slabMemoryStart sa' = slabMemoryStart sa ∧
    (r = None ↔ freeSlabs sa = [] ∧ allMemorySlabbed sa = true) ∧
    match r with
    | None => ∀ s, in_use sa' s ↔ in_use sa s
    | Some slab =>
        ¬ in_use sa slab ∧ (slab ∉ advisedSlabs sa) ∧ isValidSlab sa' slab = true ∧
        (∀ s, in_use sa' s ↔ in_use sa s ∨ s = slab)
    end.
Proof.
  intros Hwf. unfold makeNewSlabImpl. destruct (canAllocate sa) eqn:Hcan; simpl.
  2: { destruct (wf_can _ Hwf Hcan) as [Hf Hn]. eexists _, _. split; [done|]. do 3 (split; [done|]).
       split; [|done]. split; [|done]. intros _. split; [done|]. by apply Z.eqb_eq. }
  destruct (last (freeSlabs sa)) as [slab|] eqn:Hl.
  - destruct (pop_free_wf sa slab Hwf Hl) as (Hwf' & Hval & Hnf & Hna). rewrite Hcan in *.
    eexists _, _. split; [done|]. split; [done|]. do 2 (split; [done|]).
    apply last_split in Hl. assert (slab ∈ freeSlabs sa) as Hin by (rewrite Hl; set_solver).
    split. { split; [done|]. intros [Hnil _]. rewrite Hnil in Hin. by apply elem_of_nil in Hin. }
    split; [by intros (_ & ? & _)|]. do 2 (split; [done|]).
    intros s. unfold in_use. cbn [freeSlabs advisedSlabs set_free].
    change (isValidSlab (set_free _ _ sa) s) with (isValidSlab sa s).
    cbn [freeSlabs set_free] in Hnf. rewrite Hl at 2. rewrite elem_of_app, list_elem_of_singleton.
    destruct (decide (s = slab)) as [->|]; naive_solver.
  - apply last_None in Hl. destruct (wf_next _ Hwf) as [Hn Hal]. rewrite Hal. res_simpl.
    rewrite Z.eqb_refl. res_simpl. destruct (allMemorySlabbed sa) eqn:Hall.
    + eexists _, _. split; [done|]. split; [|done].
      destruct Hwf; split; cbn; try done. intros _. split; [done|]. by apply Z.eqb_eq.
    + destruct (fresh_slab_wf sa Hwf Hl Hall) as (Hwf' & Hval & Hiff).
      assert (isValidSlab sa (nextSlabAllocation sa) ≠ true) as Hnv.
      { rewrite (valid_slab_iff _ Hwf). lia. }
      eexists _, _. split; [done|]. split; [done|]. do 2 (split; [done|]).
      split. { split; [done|]. by intros []. }
      split; [by intros [? _]|].
      assert (nextSlabAllocation sa ∉ advisedSlabs sa) as Hna.
      { intros Hin. apply Hnv. pose proof (wf_valid _ Hwf) as Hv. rewrite Forall_forall in Hv.
        apply Hv. rewrite elem_of_app. by right. }
      do 2 (split; [done|]).
      intros s. unfold in_use. rewrite Hiff. cbn [freeSlabs advisedSlabs set_next]. rewrite Hl.
      pose proof (not_elem_of_nil s). destruct (decide (s = nextSlabAllocation sa)) as [->|]; naive_solver.
Qed.

(** [makeNewSlab] on a well-formed allocator hands out a slab nobody holds,
    exactly that slab becomes used, its header names the pool and no other
    used slab's header changes; it returns [nullptr] exactly when the free
    list is empty and all memory has been slabbed.  The allocator stays
    well-formed. *)
Theorem makeNewSlab_spec id sa : sa_wf sa → 0 ≤ id < Z.of_nat kMaxPools →
  ∃ r sa', makeNewSlab id sa = Ok (r, sa') ∧ sa_wf sa' ∧
    (r = None ↔ freeSlabs sa = [] ∧ allMemorySlabbed sa = true) ∧
    match r with
    | None => ∀ s, in_use sa' s ↔ in_use sa s
    | Some slab =>
        ¬ in_use sa slab ∧ (slab ∉ advisedSlabs sa) ∧
        (∀ s, in_use sa' s ↔ in_use sa s ∨ s = slab) ∧
        headers sa' (slabIndex sa' slab) = SlabHeader_pid id ∧
        (∀ s, in_use sa s → headers sa' (slabIndex sa' s) = headers sa (slabIndex sa s))
    end.
Proof.
  intros Hwf Hid. unfold makeNewSlab.
  destruct (makeNewSlabImpl_spec sa Hwf) as (r & sa1 & -> & Hwf1 & Hh & Hst & Hnone & Hr).
  res_simpl. destruct r as [slab|]; [|by eexists _, _].
  destruct Hr as (Hnu & Hna & Hval & Hiff).
  destruct (claim_slab id slab sa1 Hwf1 Hid Hval) as (sa' & -> & Hview & Hhdr & Hother & _).
  exists (Some slab), sa'. split; [done|]. split; [by eapply slab_view_wf|]. split; [done|].
  do 2 (split; [done|]). split; [intros s; rewrite <- Hiff; by apply slab_view_in_use|].
  split; [done|]. intros s Hs. rewrite Hother, Hh.
  - by unfold slabIndex; rewrite Hst.
  - apply Hiff. by left.
  - intros ->. by apply Hnu.
Qed.

(** An allocator over 8 slabs' worth of memory. *)
Definition sa_example : SlabAllocator :=
  mkSlabAllocator (replicate kMaxPools 0) [] [] kSize (8 * kSize) (2 * kSize) (2 * kSize)
    true false false (λ _, SlabHeader_pid 0).

Lemma sa_example_wf : sa_wf sa_example.
Proof.
  split; [split; reflexivity|split; [split; [reflexivity|discriminate]|reflexivity]
    |reflexivity..|split; [split; discriminate|reflexivity]|apply NoDup_nil_2
    |by apply Forall_nil|discriminate|reflexivity].
Qed.

Lemma makeNewSlab_spec_witness :
  ∃ r sa', makeNewSlab 3 sa_example = Ok (r, sa') ∧ sa_wf sa' ∧
    (r = None ↔ freeSlabs sa_example = [] ∧ allMemorySlabbed sa_example = true) ∧
    match r with
    | None => ∀ s, in_use sa' s ↔ in_use sa_example s
    | Some slab =>
        ¬ in_use sa_example slab ∧ (slab ∉ advisedSlabs sa_example) ∧
        (∀ s, in_use sa' s ↔ in_use sa_example s ∨ s = slab) ∧
        headers sa' (slabIndex sa' slab) = SlabHeader_pid 3 ∧
        (∀ s, in_use sa_example s →
           headers sa' (slabIndex sa' s) = headers sa_example (slabIndex sa_example s))
    end.
Proof. apply (makeNewSlab_spec 3 sa_example sa_example_wf). by vm_compute. Defined.

(** Putting a used slab on the free or the advised list. *)
Lemma push_list_nodup {l k : list Z} {s} : NoDup (l ++ k) → s ∉ l → s ∉ k →
  NoDup ((l ++ [s]) ++ k) ∧ NoDup (l ++ (k ++ [s])).
Proof.
  intros Hnd Hl Hk.
  assert (NoDup (s :: l ++ k)) as Hcons.
  { apply NoDup_cons. split; [|done]. rewrite elem_of_app. naive_solver. }
  split; [rewrite <- app_assoc; simpl; by rewrite <- Permutation_middle|].
  rewrite app_assoc. by rewrite Permutation_app_comm.
Qed.

Lemma push_list_forall {P : Z → Prop} {l k s} : Forall P (l ++ k) → P s →
  Forall P ((l ++ [s]) ++ k) ∧ Forall P (l ++ (k ++ [s])).
Proof. rewrite !Forall_app, !Forall_singleton. naive_solver. Qed.

(** The state change shared by [freeSlab] and [adviseSlab]: the slab leaves use. *)
Definition leaves_use (slab : Z) (sa sa' : SlabAllocator) : Prop :=
  sa_wf sa' ∧ (∀ s, in_use sa' s ↔ in_use sa s ∧ s ≠ slab) ∧
  (∀ s, in_use sa' s → headers sa' (slabIndex sa' s) = headers sa (slabIndex sa s)).

Lemma headers_frame sa sa' slab f s : headers sa' = headers sa → sa_wf sa →
  in_use sa slab → in_use sa s → s ≠ slab →
  headers (upd_header (slabIndex sa slab) f sa') (slabIndex sa s) = headers sa (slabIndex sa s).
Proof.
  intros Hh Hwf [Hv _] [Hs _] Hne. cbn. rewrite decide_False, Hh; [done|].
  intros Heq. by apply Hne, (slabIndex_inj sa Hwf).
Qed.

Lemma makeNewSlab_last sa slab id : sa_wf sa → canAllocate sa = true →
  last (freeSlabs sa) = Some slab → 0 ≤ id < Z.of_nat kMaxPools →
  ∃ sa', makeNewSlab id sa = Ok (Some slab, sa').
Proof.
  intros Hwf Hcan Hl Hid. unfold makeNewSlab, makeNewSlabImpl. rewrite Hcan, Hl. res_simpl.
  destruct (pop_free_wf sa slab Hwf Hl) as (Hwf' & Hval & _). rewrite Hcan in Hwf'.
  edestruct (claim_slab id slab) as (sa' & -> & _); eauto.
Qed.

(** Freeing a used slab returns, puts exactly that slab out of use, makes the
    allocator able to allocate again, and the next [makeNewSlab] hands the same slab
    out first. *)
Theorem freeSlab_spec slab sa : sa_wf sa → in_use sa slab →
  0 ≤ poolId (headers sa (slabIndex sa slab)) < Z.of_nat kMaxPools →
  ∃ sa', freeSlab slab sa = Ok sa' ∧ leaves_use slab sa sa' ∧ canAllocate sa' = true ∧
    last (freeSlabs sa') = Some slab ∧
    headers sa' (slabIndex sa' slab) = resetAllocInfo (headers sa (slabIndex sa slab)) ∧
    (∀ id, 0 ≤ id < Z.of_nat kMaxPools → ∃ sa'', makeNewSlab id sa' = Ok (Some slab, sa'')).
Proof.
  intros Hwf Huse Hpid. pose proof Huse as (Hval & Hnf & Hna). unfold freeSlab.
  rewrite header_of_valid, bool_decide_true by done. res_simpl.
  destruct (set_pool_size_ok _ (λ n, n - kSize) sa Hpid) as (sa1 & -> & Hv1 & Hh & _ & _).
  res_simpl. eexists; split; [done|].
  set (sa2 := set_free _ true sa1).
  assert (freeSlabs sa1 = freeSlabs sa ∧ advisedSlabs sa1 = advisedSlabs sa) as [Hf1 Ha1].
  { by injection Hv1. }
  assert (∀ s, isValidSlab sa2 s = isValidSlab sa s ∧ slabIndex sa2 s = slabIndex sa s) as Hsame
    by (intros s; apply (slab_view_valid sa1 sa s Hv1)).
  assert (sa_wf sa2) as Hwf2.
  { pose proof (slab_view_wf sa sa1 (eq_sym Hv1) Hwf) as []. split; cbn; try done.
    - rewrite Hf1, Ha1. by apply push_list_nodup; [apply Hwf|..].
    - rewrite Hf1, Ha1. apply push_list_forall; [|by rewrite (proj1 (Hsame slab))].
      eapply Forall_impl; [apply Hwf|]. intros s Hs. by rewrite (proj1 (Hsame s)). }
  assert (∀ s, in_use sa2 s ↔ in_use sa s ∧ s ≠ slab) as Hiff.
  { intros s. unfold in_use. rewrite (proj1 (Hsame s)). cbn. rewrite Hf1, Ha1, elem_of_app,
      list_elem_of_singleton. naive_solver. }
  assert (leaves_use slab sa (upd_header (slabIndex sa slab) resetAllocInfo sa2)) as Hleave.
  { split; [by apply (slab_view_wf sa2)|]. split; [done|]. intros s Hs. apply Hiff in Hs as [Hs Hne].
    change (headers (upd_header (slabIndex sa slab) resetAllocInfo sa2) (slabIndex sa2 s) = headers sa (slabIndex sa s)).
    rewrite (proj2 (Hsame s)). by apply headers_frame. }
  do 2 (split; [done|]). split; [apply last_snoc|]. split.
  { change (headers (upd_header (slabIndex sa slab) resetAllocInfo sa2) (slabIndex sa2 slab) =
      resetAllocInfo (headers sa (slabIndex sa slab))).
    rewrite (proj2 (Hsame slab)). cbn. rewrite decide_True by done. by rewrite Hh. }
  intros id Hid. apply makeNewSlab_last; [apply Hleave|done|apply last_snoc|done].
Qed.

(** The same memory after its first slab went to pool 3. *)
Definition sa_example1 : SlabAllocator :=
  mkSlabAllocator (<[3%nat := kSize]> (replicate kMaxPools 0)) [] [] kSize (8 * kSize) (2 * kSize)
    (3 * kSize) true false false (λ _, SlabHeader_pid 3).

Lemma sa_example1_wf : sa_wf sa_example1 ∧ in_use sa_example1 (2 * kSize).
Proof.
  split; [|split; [reflexivity|split; apply not_elem_of_nil]].
  split; [split; reflexivity|split; [split; [reflexivity|discriminate]|reflexivity]
    |reflexivity..|split; [split; discriminate|reflexivity]|apply NoDup_nil_2
    |by apply Forall_nil|discriminate|reflexivity].
Qed.

Lemma freeSlab_spec_witness :
  ∃ sa', freeSlab (2 * kSize) sa_example1 = Ok sa' ∧ leaves_use (2 * kSize) sa_example1 sa' ∧
    canAllocate sa' = true ∧ last (freeSlabs sa') = Some (2 * kSize) ∧
    headers sa' (slabIndex sa' (2 * kSize)) =
      resetAllocInfo (headers sa_example1 (slabIndex sa_example1 (2 * kSize))) ∧
    (∀ id, 0 ≤ id < Z.of_nat kMaxPools → ∃ sa'', makeNewSlab id sa' = Ok (Some (2 * kSize), sa'')).
Proof.
  destruct sa_example1_wf as [Hwf Huse]. apply (freeSlab_spec _ _ Hwf Huse). by vm_compute.
Defined.

Lemma advised_flags h : isAdvised h = false → fits 8 (flags h) →
  setAdvised false (setAdvised true h) = h.
Proof.
  destruct h as [p c f sz]. unfold isAdvised, setAdvised, headerIsFlagSet, headerSetFlag,
    headerUnSetFlag; cbn [flags poolId classId allocSize headerFlag_bit]. intros Hnot Hf.
  rewrite land_bit_nonzero in Hnot by done. f_equal.
  change (u8 (Z.shiftl 1 1)) with (Z.shiftl 1 1).
  change (u8 (uint_max 8 - Z.shiftl 1 1)) with (uint_max 8 - Z.shiftl 1 1).
  change (Z.lor f (Z.shiftl 1 1)) with (Z.setbit f 1).
  rewrite land_clear_bit by (lia || by apply fits_setbit). apply Z.bits_inj'. intros n Hn.
  rewrite Z.clearbit_eqb, Z.setbit_eqb by done. destruct (Z.eqb_spec 1 n) as [<-|]; cbn [orb negb].
  - by rewrite Hnot. - apply andb_true_r.
Qed.

Lemma advised_after_reset h :
  isAdvised (resetAllocInfo (setAdvised true h)) = true.
Proof.
  unfold isAdvised, setAdvised, headerIsFlagSet, headerSetFlag, resetAllocInfo; cbn [flags].
  change (u8 (Z.shiftl 1 (headerFlag_bit IS_ADVISED))) with (Z.shiftl 1 1).
  change (headerFlag_bit IS_ADVISED) with 1. rewrite land_bit_nonzero by done.
  change (Z.lor (flags h) (Z.shiftl 1 1)) with (Z.setbit (flags h) 1). by apply Z.setbit_eq.
Qed.

(** Advising a used slab away either takes exactly that slab out of use, with
    its header marked as advised and detached from its pool, or (when the
    kernel refuses) changes nothing at all. *)
Theorem adviseSlab_spec madviseOk slab sa : sa_wf sa → in_use sa slab →
  isAdvised (headers sa (slabIndex sa slab)) = false →
  fits 8 (flags (headers sa (slabIndex sa slab))) →
  ∃ sa', adviseSlab madviseOk slab sa = Ok (madviseOk || pretendMadvise sa, sa') ∧
    if madviseOk || pretendMadvise sa then
      leaves_use slab sa sa' ∧ advisedSlabs sa' = advisedSlabs sa ++ [slab] ∧
      isAdvised (headers sa' (slabIndex sa' slab)) = true ∧
      poolId (headers sa' (slabIndex sa' slab)) = kInvalidPoolId
    else slab_view sa' = slab_view sa ∧ ∀ i, headers sa' i = headers sa i.
Proof.
  intros Hwf Huse Hadv Hfl. pose proof Huse as (Hval & Hnf & Hna). unfold adviseSlab.
  rewrite header_of_valid by done. cbn [pretendMadvise upd_header].
  destruct (madviseOk || pretendMadvise sa); eexists; (split; [done|]).
  - set (sa2 := set_advised _ _).
    assert (sa_wf sa2) as Hwf2.
    { destruct Hwf; split; cbn; try done.
      - by apply push_list_nodup. - by apply push_list_forall. }
    assert (∀ s, in_use sa2 s ↔ in_use sa s ∧ s ≠ slab) as Hiff.
    { intros s. change (in_use sa2 s) with (isValidSlab sa s = true ∧ (s ∉ freeSlabs sa) ∧
        (s ∉ advisedSlabs sa ++ [slab])).
      unfold in_use. rewrite elem_of_app, list_elem_of_singleton. naive_solver. }
    split; [split; [by apply (slab_view_wf sa2)|split; [done|]]|split; [done|split]].
    + intros s [Hs Hne]%Hiff. cbn.
      change (slabIndex (upd_header (slabIndex sa slab) resetAllocInfo sa2) s) with (slabIndex sa s).
      destruct Hs as [Hs _].
      rewrite !decide_False; [done|..]; intros Heq; by apply Hne, (slabIndex_inj sa Hwf).
    + change (isAdvised (headers (upd_header (slabIndex sa slab) resetAllocInfo sa2) (slabIndex sa slab)) = true).
      cbn. rewrite !decide_True by done. apply advised_after_reset.
    + change (poolId (headers (upd_header (slabIndex sa slab) resetAllocInfo sa2) (slabIndex sa slab)) = -1).
      cbn. by rewrite !decide_True.
  - split; [done|]. intros i. cbn. destruct (decide (i = slabIndex sa slab)) as [->|]; [|done].
    rewrite decide_True by done. by apply advised_flags.
Qed.

Lemma adviseSlab_spec_witness :
  ∃ sa', adviseSlab true (2 * kSize) sa_example1 = Ok (true || false, sa') ∧
    if true || false then
      leaves_use (2 * kSize) sa_example1 sa' ∧
      advisedSlabs sa' = advisedSlabs sa_example1 ++ [2 * kSize] ∧
      isAdvised (headers sa' (slabIndex sa' (2 * kSize))) = true ∧
      poolId (headers sa' (slabIndex sa' (2 * kSize))) = kInvalidPoolId
    else slab_view sa' = slab_view sa_example1 ∧ ∀ i, headers sa' i = headers sa_example1 i.
Proof.
  destruct sa_example1_wf as [Hwf Huse]. apply (adviseSlab_spec true _ _ Hwf Huse); by vm_compute.
Defined.

(** [reclaimSlab] returns [nullptr] exactly when no slab is advised away;
    otherwise it puts the oldest advised slab, and no other, back into use
    with a fresh header for the pool, on which the advised mark is clear. *)
Theorem reclaimSlab_spec id sa : sa_wf sa → 0 ≤ id < Z.of_nat kMaxPools →
  ∃ sa', reclaimSlab id sa = Ok (head (advisedSlabs sa), sa') ∧ sa_wf sa' ∧
    match head (advisedSlabs sa) with
    | None => sa' = sa
    | Some slab =>
        ¬ in_use sa slab ∧ (∀ s, in_use sa' s ↔ in_use sa s ∨ s = slab) ∧
        headers sa' (slabIndex sa' slab) = SlabHeader_pid id ∧
        isAdvised (headers sa' (slabIndex sa' slab)) = false ∧
        (∀ s, in_use sa s → headers sa' (slabIndex sa' s) = headers sa (slabIndex sa s))
    end.
Proof.
  intros Hwf Hid. unfold reclaimSlab. destruct (advisedSlabs sa) as [|slab rest] eqn:Hadv; [by exists sa|].
  pose proof (wf_nodup _ Hwf) as Hnd. pose proof (wf_valid _ Hwf) as Hv. rewrite Hadv in *.
  rewrite <- Permutation_middle in Hnd, Hv. apply NoDup_cons in Hnd as [Hnotin Hnd].
  apply Forall_cons in Hv as [Hslab Hv]. rewrite elem_of_app in Hnotin.
  assert (sa_wf (set_advised rest sa)) as Hwf1 by (by destruct Hwf; split).
  destruct (claim_slab id slab _ Hwf1 Hid Hslab) as (sa' & -> & Hview & Hhdr & Hother & _).
  exists sa'. split; [done|]. split; [by eapply slab_view_wf|].
  split. { intros (_ & _ & Hn). apply Hn. rewrite Hadv. by left. }
  split.
  { intros s. rewrite (slab_view_in_use _ _ s Hview).
    change (in_use (set_advised rest sa) s) with
      (isValidSlab sa s = true ∧ (s ∉ freeSlabs sa) ∧ (s ∉ rest)).
    unfold in_use. rewrite Hadv, elem_of_cons.
    destruct (decide (s = slab)) as [->|]; naive_solver. }
  split; [done|]. split; [by rewrite Hhdr|].
  intros s (Hs & _ & Hn). apply Hother; [done|]. intros ->. apply Hn. rewrite Hadv. by left.
Qed.

Lemma reclaimSlab_spec_witness :
  ∃ sa', reclaimSlab 3 sa_example1 = Ok (head (advisedSlabs sa_example1), sa') ∧ sa_wf sa' ∧
    match head (advisedSlabs sa_example1) with
    | None => sa' = sa_example1
    | Some slab =>
        ¬ in_use sa_example1 slab ∧ (∀ s, in_use sa' s ↔ in_use sa_example1 s ∨ s = slab) ∧
        headers sa' (slabIndex sa' slab) = SlabHeader_pid 3 ∧
        isAdvised (headers sa' (slabIndex sa' slab)) = false ∧
        (∀ s, in_use sa_example1 s →
           headers sa' (slabIndex sa' s) = headers sa_example1 (slabIndex sa_example1 s))
    end.
Proof. apply (reclaimSlab_spec 3 sa_example1 (proj1 sa_example1_wf)). by vm_compute. Defined.

(** ** Construction *)
Lemma roundDown_spec m : 0 ≤ m → roundDownToSlabSize m = kSize * (m / kSize).
Proof. unfold roundDownToSlabSize. intros. rewrite kSize_val in *. Z.to_euclidean_division_equations. lia. Qed.

(** The rounded size the constructor works with. *)
Lemma rounded_size memSize : 0 ≤ memSize ≤ getMaxAddressableSize →
  let size := roundDownToSlabSize memSize in
  size = kSize * (memSize / kSize) ∧ 0 ≤ size ≤ memSize ∧ memSize < size + kSize ∧ size mod kSize = 0 ∧
  numSlabsForHeaders size = (if size <? kSize then 0 else 1) ∧ numSlabs size = memSize / kSize.
Proof.
  intros Hsz. assert (Hrd := roundDown_spec memSize ltac:(lia)). cbv zeta.
  set (size := roundDownToSlabSize memSize) in *.
  assert (0 ≤ size ≤ memSize ∧ memSize < size + kSize ∧ size mod kSize = 0) as (Hs1 & Hs2 & Hs3).
  { rewrite Hrd, kSize_val in *. rewrite max_addressable_val in Hsz. Z.to_euclidean_division_equations. lia. }
  split; [done|]. split; [done|]. split; [done|]. split; [done|].
  split; [apply numSlabsForHeaders_small; lia|]. rewrite numSlabs_small by lia. rewrite Hrd, Z.mul_comm. by apply Z.div_mul.
Qed.

(** The constructor accepts exactly the memory that is slab-aligned, not
    null, and large enough for one header slab and one usable slab, and then
    yields a well-formed allocator with nothing in use whose number of usable
    slabs is the one [getNumUsableSlabs(size)] announces; it throws
    [invalid_argument] otherwise. *)
Theorem SlabAllocator_new_spec memStart memSize owns hdrs :
  0 ≤ memStart → 0 ≤ memSize ≤ getMaxAddressableSize → memStart + memSize < 2 ^ 64 →
  if decide (memStart ≠ 0 ∧ memStart mod kSize = 0 ∧ 2 * kSize ≤ memSize) then
    ∃ sa, SlabAllocator_new memStart memSize owns hdrs = Ok sa ∧ sa_wf sa ∧
      (∀ s, ¬ in_use sa s) ∧ getNumUsableSlabs sa = getNumUsableSlabsFor memSize
  else SlabAllocator_new memStart memSize owns hdrs = Throw InvalidArgument.
Proof.
  intros Hst Hsz Hend. pose proof Hsz as Hsz'. rewrite max_addressable_val in Hsz'.
  destruct (rounded_size memSize Hsz) as (Hrd & Hs1 & Hs2 & Hs3 & Hnh & Hns).
  set (size := roundDownToSlabSize memSize) in *.
  unfold SlabAllocator_new. fold size. unfold computeSlabMemoryStart. rewrite Hns, Hnh.
  case_decide as Hd.
  - destruct Hd as (Hne & Hal & H2).
    assert ((size <? kSize) = false) as Hlt.
    { rewrite Z.ltb_ge. rewrite kSize_val in *. lia. }
    rewrite Hlt in *. rewrite (proj2 (Z.leb_gt _ _)) by
      (rewrite kSize_val in *; Z.to_euclidean_division_equations; lia).
    rewrite (proj2 (Z.eqb_neq memStart 0) Hne), Hal, Z.eqb_refl. res_simpl. rewrite Z.mul_1_l.
    assert ((memStart =? 0) = false ∧ (size <=? kSize) = false ∧ (memStart + kSize =? 0) = false ∧
      (memStart + size <? memStart + kSize) = false) as (Hc1 & Hc2 & Hc3 & Hc4).
    { rewrite Z.ltb_ge, Z.leb_gt, !Z.eqb_neq. rewrite kSize_val in *.
      Z.to_euclidean_division_equations; lia. }
    unfold checkState, getSlabMemoryEnd.
    cbn [memoryStart memorySize slabMemoryStart nextSlabAllocation freeSlabs existsb].
    rewrite Hc1, Hc2, Hc3, Hc4, Hs3, Z.eqb_refl. res_simpl.
    eexists; split; [done|]. split; [|split].
    + assert (2 * kSize ≤ size) as H2'
        by (clear - H2 Hs1 Hs2 Hs3; rewrite kSize_val in *; Z.to_euclidean_division_equations; lia).
      assert ((memStart + kSize) mod kSize = 0) as Hal'
        by (clear - Hal; rewrite kSize_val in *; Z.to_euclidean_division_equations; lia).
      assert (1 < memSize / kSize) as Hns'
        by (clear - H2; rewrite kSize_val in *; Z.to_euclidean_division_equations; lia).
      assert (0 < kSize) by done.
      split; unfold getSlabMemoryEnd; cbn [memoryStart memorySize slabMemoryStart nextSlabAllocation
        freeSlabs advisedSlabs canAllocate memoryPoolSize app]; rewrite ?Hnh, ?Hns, ?Z.mul_1_l;
        try done; try (apply NoDup_nil_2 || by apply Forall_nil); split_and?; try done; lia.
    + intros s (Hv & _). unfold isValidSlab in Hv. cbn in Hv. rewrite !andb_true_iff in Hv. lia.
    + unfold getNumUsableSlabs, getNumUsableAndAdvisedSlabs, getNumUsableSlabsFor, getSlabMemoryEnd.
      rewrite (numSlabs_small memSize), (numSlabsForHeaders_small memSize) by lia. cbn.
      rewrite (proj2 (Z.ltb_ge memSize _)) by (rewrite kSize_val in *; lia).
      change (u32 0) with 0. rewrite Z.sub_0_r. unfold wrap.
      rewrite Z.mod_mod by lia. f_equal. rewrite Hrd.
      replace (_ - _) with ((memSize / kSize - 1) * kSize) by lia. by apply Z.div_mul.
  - destruct (Z.leb_spec (memSize / kSize) (if size <? kSize then 0 else 1)) as [|Hgt]; [done|].
    res_simpl. destruct (Z.eqb_spec memStart 0); [done|].
    destruct (Z.eqb_spec (memStart mod kSize) 0); [|done]. exfalso. apply Hd. do 2 (split; [done|]).
    clear - Hgt Hs1 Hs2 Hs3. destruct (Z.ltb_spec size kSize); rewrite kSize_val in *;
      Z.to_euclidean_division_equations; lia.
Qed.

Lemma SlabAllocator_new_spec_witness :
  ∃ sa, SlabAllocator_new kSize (8 * kSize) false (λ _, SlabHeader_pid 0) = Ok sa ∧ sa_wf sa ∧
    (∀ s, ¬ in_use sa s) ∧ getNumUsableSlabs sa = getNumUsableSlabsFor (8 * kSize).
Proof.
  pose proof (SlabAllocator_new_spec kSize (8 * kSize) false (λ _, SlabHeader_pid 0)
    ltac:(done) ltac:(done) ltac:(done)) as H.
  destruct (decide (kSize ≠ 0 ∧ kSize mod kSize = 0 ∧ 2 * kSize ≤ 8 * kSize)) as [|Hn]; [done|].
  exfalso. by apply Hn.
Defined.

(** ** Pointer compression round trips *)

(** [p] is the start of allocation number [k] of a slab carved for its class. *)
Definition alloc_at (sa : SlabAllocator) (slab k p : Z) : Prop :=
  let sz := allocSize (headers sa (slabIndex sa slab)) in
  isValidSlab sa slab = true ∧ getMinAllocSize ≤ sz ∧ 0 ≤ k ∧ (k + 1) * sz ≤ kSize ∧
  p = slab + k * sz.
Definition is_alloc (sa : SlabAllocator) (p : Z) : Prop := ∃ slab k, alloc_at sa slab k p.

Lemma alloc_at_bounds sa slab k p : sa_wf sa → alloc_at sa slab k p →
  let sz := allocSize (headers sa (slabIndex sa slab)) in
  0 ≤ k * sz < kSize ∧ k < 65536 ∧ getSlabForMemory p = slab ∧ fits 64 p ∧
  0 ≤ slabIndex sa slab < 65535 ∧ slab = slabMemoryStart sa + slabIndex sa slab * kSize.
Proof.
  intros Hwf (Hval & Hsz & Hk & Hfit & ->) sz. fold sz in Hsz, Hfit |- *.
  pose proof Hval as Hv. rewrite (valid_slab_iff _ Hwf) in Hv. destruct Hv as [Hr Hal].
  change getMinAllocSize with 64 in Hsz.
  assert (0 ≤ k * sz < kSize ∧ k < 65536) as [Hks Hk6] by (rewrite kSize_val in *; nia).
  assert (fits 64 (slab + k * sz)) as Hf.
  { destruct (wf_next _ Hwf) as [Hn Hna]. pose proof (wf_end _ Hwf) as He.
    destruct (wf_start _ Hwf) as [H0 _]. pose proof (wf_slab_start_eq _ Hwf) as Hss.
    assert (slab + kSize ≤ nextSlabAllocation sa).
    { clear - Hr Hna Hal. rewrite kSize_val in *. Z.to_euclidean_division_equations. lia. }
    assert (0 < kSize) by done. unfold fits. lia. }
  destruct (slabIndex_eq _ Hwf slab ltac:(lia) Hal) as (_ & Heq & Hb1 & Hb2).
  repeat split; try lia; try apply Hf.
  by apply getSlabForMemory_offset.
Qed.

Lemma compress_roundtrip_aux sa (isMultiTiered : bool) slab k p :
  sa_wf sa → alloc_at sa slab k p →
  (isMultiTiered = true → slabIndex sa slab < 2 ^ numSlabIdxBits true - 1) →
  ∃ c, compress sa (Some p) isMultiTiered = Ok c ∧ fits 32 c ∧ isNull c = false ∧
        unCompress sa c isMultiTiered = Ok (Some p).
Proof.
  intros Hwf Halloc Hmt.
  destruct (alloc_at_bounds _ _ _ _ Hwf Halloc) as (Hks & Hk6 & Hslab & Hf & Hidx & Hse).
  destruct Halloc as (Hval & Hsz & Hk & Hfit & Hp).
  set (sz := allocSize (headers sa (slabIndex sa slab))) in *.
  unfold compress. rewrite Hslab, Hval; cbn [negb]. fold sz.
  rewrite (proj2 (Z.leb_le _ _)) by done. res_simpl.
  replace (p - slab) with (k * sz) by lia.
  rewrite wrap_small by (rewrite kSize_val in *; unfold fits; lia).
  change getMinAllocSize with 64 in Hsz. rewrite Z.div_mul by lia.
  destruct (cptr_roundtrip_aux (slabIndex sa slab) k isMultiTiered 0) as
    (c & -> & Hc32 & Hnull & Hsi & Hai & _).
  { split; [lia|]. destruct isMultiTiered; [by apply Hmt|]. change (2 ^ numSlabIdxBits false) with 65536. lia. }
  { change (2 ^ kNumAllocIdxBits) with 65536. lia. }
  { destruct isMultiTiered; simpl; lia. }
  exists c. do 3 (split; [done|]). unfold unCompress. rewrite Hnull, Hsi, Hai. res_simpl.
  rewrite <- Hse, Hval. res_simpl. fold sz.
  rewrite (proj2 (Z.leb_le getMinAllocSize sz)) by (change getMinAllocSize with 64; lia). res_simpl.
  rewrite (Z.mul_comm sz k), wrap_small by (rewrite kSize_val in *; unfold fits; lia).
  unfold memoryAtOffset.
  rewrite (proj2 (Z.leb_gt _ _)), (proj2 (Z.ltb_lt _ _)) by lia. res_simpl. by rewrite Hp.
Qed.

(** C10: Compressing a pointer to any carved allocation and uncompressing it gives
    the pointer back, in the single-tier layout and, while the slab index
    fits the shorter field, in the multi-tier layout; the compressed form is
    never the null pattern.  [nullptr] round-trips too. *)
Theorem compress_roundtrip sa (isMultiTiered : bool) slab k p :
  sa_wf sa → alloc_at sa slab k p →
  (isMultiTiered = true → slabIndex sa slab < 2 ^ numSlabIdxBits true - 1) →
  (∃ c, compress sa (Some p) isMultiTiered = Ok c ∧ fits 32 c ∧ isNull c = false ∧
        unCompress sa c isMultiTiered = Ok (Some p)) ∧
  (compress sa None isMultiTiered = Ok kNull ∧ unCompress sa kNull isMultiTiered = Ok None).
Proof. intros. split; [by eapply compress_roundtrip_aux|done]. Qed.

(** 2048 slabs of memory, all carved into 1 KiB allocations of class 0. *)
Definition sa_example2 : SlabAllocator :=
  mkSlabAllocator (replicate kMaxPools 0) [] [] kSize (2048 * kSize) (2 * kSize)
    (2049 * kSize) true false false (λ _, mkSlabHeader 0 0 0 1024).

Lemma sa_example2_wf : sa_wf sa_example2.
Proof.
  split; [split; reflexivity|split; [split; [reflexivity|discriminate]|reflexivity]
    |reflexivity..|split; [split; discriminate|reflexivity]|apply NoDup_nil_2
    |by apply Forall_nil|discriminate|reflexivity].
Qed.

Lemma compress_roundtrip_witness :
  (∃ c, compress sa_example2 (Some (5 * kSize + 7 * 1024)) true = Ok c ∧ fits 32 c ∧
        isNull c = false ∧ unCompress sa_example2 c true = Ok (Some (5 * kSize + 7 * 1024))) ∧
  (compress sa_example2 None true = Ok kNull ∧ unCompress sa_example2 kNull true = Ok None).
Proof.
  apply (compress_roundtrip sa_example2 true (5 * kSize) 7 (5 * kSize + 7 * 1024) sa_example2_wf).
  - repeat split; discriminate.
  - by vm_compute.
Defined.

(** The alternative scheme, which keeps only a 64-byte marker, recovers every
    allocation that lies in the first 4 GiB of slab memory. *)
Theorem compressAlt_roundtrip sa slab k p :
  sa_wf sa → alloc_at sa slab k p → p - slabMemoryStart sa < 2 ^ 32 →
  unCompressAlt sa (compressAlt sa (Some p)) = Ok (Some p).
Proof.
  intros Hwf Halloc H4G.
  destruct (alloc_at_bounds _ _ _ _ Hwf Halloc) as (Hks & Hk6 & _ & Hf & Hidx & Hse).
  destruct Halloc as (Hval & Hsz & Hk & Hfit & Hp).
  set (sz := allocSize (headers sa (slabIndex sa slab))) in *.
  set (i := slabIndex sa slab) in *. change getMinAllocSize with 64 in Hsz.
  pose proof (valid_slab_iff _ Hwf slab) as Hv. rewrite Hval in Hv.
  destruct (proj1 Hv eq_refl) as [Hr Hal]. clear Hv.
  set (off := k * sz) in *. set (m := off / 64). set (d := off mod 64).
  assert (off = 64 * m + d ∧ 0 ≤ d < 64 ∧ 0 ≤ m) as (Hoff & Hd & Hm).
  { unfold m, d. clear - Hks. Z.to_euclidean_division_equations. lia. }
  assert (p - slabMemoryStart sa = i * kSize + 64 * m + d) as Hpo by lia.
  unfold compressAlt. rewrite Z.shiftr_div_pow2 by done. change (2 ^ kMarkerBits) with 64.
  assert ((p - slabMemoryStart sa) / 64 = i * 65536 + m) as ->.
  { symmetry. apply (Z.div_unique _ _ _ d); [lia|]. rewrite Hpo, kSize_val. lia. }
  change (2 ^ 32) with 4294967296 in H4G. rewrite kSize_val in Hpo.
  assert (0 ≤ i * 65536 + m < 67108864) as Hc by lia.
  rewrite (wrap_small 32) by (unfold fits; lia). unfold unCompressAlt, isNull.
  rewrite (proj2 (Z.eqb_neq _ _)) by (change kNull with 4294967295; lia).
  rewrite Z.shiftl_mul_pow2 by done. change (2 ^ kMarkerBits) with 64.
  rewrite (wrap_small 32) by (unfold fits; lia).
  replace (slabMemoryStart sa + (i * 65536 + m) * 64) with (slab + 64 * m)
    by (rewrite Hse, kSize_val; lia).
  assert (getSlabForMemory (slab + 64 * m) = slab) as Hslab.
  { apply getSlabForMemory_offset; [|done|rewrite kSize_val in *; lia].
    destruct (wf_start _ Hwf). pose proof (wf_slab_start_eq _ Hwf). rewrite kSize_val in *.
    unfold fits in *. lia. }
  unfold getSlabHeader. rewrite kSize_val in *. rewrite !Hslab.
  rewrite Hval. res_simpl. fold i sz. change (Z.shiftl 1 kMarkerBits) with 64.
  rewrite (proj2 (Z.leb_le 64 sz)) by done. res_simpl.
  replace (slab + 64 * m - slab) with (64 * m) by lia.
  rewrite (proj2 (Z.ltb_lt (64 * m) 4194304)) by lia. res_simpl.
  unfold memoryAtOffset. rewrite kSize_val.
  assert ((if negb ((64 * m) mod sz =? 0) then 64 * m + (sz - (64 * m) mod sz) else 64 * m) = off) as ->.
  { destruct (decide (d = 0)) as [Hd0|Hd0].
    - replace (64 * m) with (k * sz) by (unfold off in *; lia). rewrite Z.mod_mul by lia. done.
    - assert ((64 * m) mod sz = sz - d) as ->.
      { symmetry. apply (Z.mod_unique _ _ (k - 1)); [lia|]. unfold off in *. lia. }
      rewrite (proj2 (Z.eqb_neq (sz - d) 0)) by lia. simpl. lia. }
  rewrite (proj2 (Z.ltb_lt off 4194304)) by lia. res_simpl. by rewrite Hp.
Qed.

Lemma compressAlt_roundtrip_witness :
  unCompressAlt sa_example2 (compressAlt sa_example2 (Some (5 * kSize + 7 * 1024))) =
    Ok (Some (5 * kSize + 7 * 1024)).
Proof.
  apply (compressAlt_roundtrip sa_example2 (5 * kSize) 7 (5 * kSize + 7 * 1024) sa_example2_wf).
  - repeat split; discriminate.
  - by vm_compute.
Defined.

(** Beyond 4 GiB the alternative scheme returns another allocation: the shift
    that rebuilds the offset is done on 32 bits, so the offset is reduced
    modulo 4 GiB although the slab memory may be 256 GiB. *)
Theorem compressAlt_wraps_beyond_4GiB :
  ∃ sa slab k p q, sa_wf sa ∧ alloc_at sa slab k p ∧
    p - slabMemoryStart sa = 2 ^ 32 + 1024 ∧
    unCompressAlt sa (compressAlt sa (Some p)) = Ok (Some q) ∧ q = p - 2 ^ 32.
Proof.
  exists sa_example2, (1026 * kSize), 1, (1026 * kSize + 1024), (2 * kSize + 1024).
  split; [apply sa_example2_wf|]. split; [repeat split; discriminate|].
  repeat split.
Qed.

(** ** Saving and restoring *)
Lemma mapM_Ok {A B} (f : A → result B) (g : A → B) l :
  Forall (λ x, f x = Ok (g x)) l → mapM f l = Ok (g <$> l).
Proof. induction 1 as [|x l Hx _ IH]; simpl; [done|]. by rewrite Hx, IH. Qed.

Lemma slabIdx_valid sa s : sa_wf sa → isValidSlab sa s = true → slabIdx sa s = Ok (slabIndex sa s).
Proof.
  intros Hwf Hv. unfold slabIdx. pose proof Hv as Hr. rewrite (valid_slab_iff _ Hwf) in Hr.
  destruct (wf_start _ Hwf). pose proof (wf_slab_start_eq _ Hwf). rewrite kSize_val in *.
  rewrite (proj2 (Z.eqb_neq s 0)) by lia. by rewrite Hv, orb_true_r.
Qed.

(** The index of a slab, through the saved 32-bit field and back to the slab. *)
Lemma slab_of_saved_idx sa s : sa_wf sa →
  slabMemoryStart sa ≤ s ≤ nextSlabAllocation sa → s mod kSize = 0 →
  u32 (s32 (slabIndex sa s)) = slabIndex sa s ∧
  getSlabForIdx (slabMemoryStart sa) (u32 (s32 (slabIndex sa s))) = s.
Proof.
  intros Hwf Hs Hal. destruct (slabIndex_eq _ Hwf s Hs Hal) as (_ & Heq & Hb & _).
  assert (u32 (s32 (slabIndex sa s)) = slabIndex sa s) as ->.
  { apply wrap_swrap; [done|]. unfold fits. lia. }
  split; [done|]. unfold getSlabForIdx. rewrite (proj2 (Z.eqb_neq _ _)).
  - by rewrite <- Heq.
  - change kNullSlabIdx with 4294967295. lia.
Qed.

Definition with_pools (l : list Z) (sa : SlabAllocator) : SlabAllocator :=
  mkSlabAllocator l (freeSlabs sa) (advisedSlabs sa) (memoryStart sa) (memorySize sa)
    (slabMemoryStart sa) (nextSlabAllocation sa) (canAllocate sa) (ownsMemory sa)
    (pretendMadvise sa) (headers sa).

Lemma restorePoolSizes_spec l : ∀ pre sa,
  (length pre + length l = kMaxPools)%nat → Forall (fits 64) l →
  memoryPoolSize sa = pre ++ replicate (length l) 0 →
  restorePoolSizes (imap (λ id n, (Z.of_nat (length pre + id), s64 n)) l) sa =
    Ok (with_pools (pre ++ l) sa).
Proof.
  unfold restorePoolSizes. induction l as [|n l IH]; intros pre sa Hlen Hfit Hsa.
  - simpl in *. destruct sa; simpl in *; subst. by rewrite !app_nil_r.
  - apply Forall_cons in Hfit as [Hn Hfit]. simpl in Hlen. simpl imap. cbn [foldl].
    rewrite Nat.add_0_r. res_simpl.
    rewrite (proj2 (Z.leb_gt _ _)) by lia. res_simpl. unfold set_pool_size.
    rewrite (proj2 (Z.leb_le _ _)), (proj2 (Z.ltb_lt _ _)) by lia. cbn [andb].
    rewrite Nat2Z.id, Hsa. simpl replicate.
    assert (alter (λ _, u64 (s64 n)) (length pre) (pre ++ 0 :: replicate (length l) 0) =
      (pre ++ [n]) ++ replicate (length l) 0) as ->.
    { rewrite wrap_swrap by done. rewrite <- (Nat.add_0_r (length pre)), alter_app_r.
      by rewrite <- app_assoc. }
    erewrite (imap_ext _ (λ id m, (Z.of_nat (length (pre ++ [n]) + id), s64 m)) l).
    2: { intros i x _. unfold compose. f_equal. rewrite length_app. cbn [length]. lia. }
    rewrite (IH (pre ++ [n])); [|rewrite length_app; simpl; lia|done|done].
    unfold with_pools; simpl. by rewrite <- app_assoc.
Qed.

Lemma restoreAdvisedSlabs_spec l : ∀ sa,
  (∀ i, i ∈ l → setAdvised true (headers sa (u32 i)) = headers sa (u32 i)) →
  let sa' := restoreAdvisedSlabs l sa in
  slab_view sa' = slab_view (set_advised
    (advisedSlabs sa ++ ((λ i, getSlabForIdx (slabMemoryStart sa) (u32 i)) <$> l)) sa) ∧
  memoryPoolSize sa' = memoryPoolSize sa ∧ (∀ i, headers sa' i = headers sa i).
Proof.
  unfold restoreAdvisedSlabs. induction l as [|i l IH]; intros sa Hadv; cbn [foldl].
  - cbn. rewrite app_nil_r. by destruct sa.
  - edestruct IH as (Hv & Hp & Hh).
    2: { split; [rewrite Hv; cbn; by rewrite <- app_assoc|]. split; [by rewrite Hp|].
         intros j. rewrite Hh. cbn [headers set_advised upd_header]. destruct (decide (j = u32 i)) as [->|]; [|done].
         apply Hadv. by left. }
    intros j Hj. cbn [headers set_advised upd_header].
    assert (setAdvised true (headers sa (u32 j)) = headers sa (u32 j)) as Hj'
      by (apply Hadv; by right).
    case_decide as Heq; [|done]. by rewrite <- Heq, !Hj'.
Qed.

Lemma checkState_wf sa : sa_wf sa → checkState sa = Ok tt.
Proof.
  intros Hwf. unfold checkState. destruct (wf_next _ Hwf) as [Hn _], (wf_start _ Hwf) as [Hst _].
  pose proof (wf_size_two _ Hwf). pose proof (wf_slab_start_eq _ Hwf). assert (0 < kSize) by done.
  rewrite (proj2 (Z.eqb_neq (memoryStart sa) 0)), (proj2 (Z.leb_gt (memorySize sa) kSize)),
    (proj2 (Z.eqb_neq (slabMemoryStart sa) 0)), (proj2 (Z.eqb_neq (nextSlabAllocation sa) 0)),
    (proj2 (Z.ltb_ge (getSlabMemoryEnd sa) (nextSlabAllocation sa))) by lia. res_simpl.
  replace (existsb _ _) with false; [done|]. symmetry. apply not_true_iff_false.
  rewrite existsb_exists. intros (s & Hin & Hs). pose proof (wf_valid _ Hwf) as Hv.
  rewrite Forall_forall in Hv. rewrite Hv in Hs; [done|].
  rewrite elem_of_app. left. by apply list_elem_of_In.
Qed.

(** Saving a well-formed allocator and restoring it over the same memory gives
    back the same free and advised slabs, allocation frontier, pool sizes and
    headers, so every slab keeps its owner across a restart. *)
Theorem saveState_restore sa memSize :
  sa_wf sa → ownsMemory sa = false → memSize - memSize mod kSize = memorySize sa →
  Forall (fits 64) (memoryPoolSize sa) →
  Forall (λ s, setAdvised true (headers sa (slabIndex sa s)) = headers sa (slabIndex sa s))
    (advisedSlabs sa) →
  ∃ o sa', saveState sa = Ok o ∧
    SlabAllocator_restore o (memoryStart sa) memSize (headers sa) = Ok sa' ∧
    slab_view sa' = slab_view sa ∧ memoryPoolSize sa' = memoryPoolSize sa ∧
    (∀ i, headers sa' i = headers sa i).
Proof.
  intros Hwf Howns Hms Hpools Hadv. destruct (wf_next _ Hwf) as [Hn Hna].
  destruct (wf_start _ Hwf) as [Hst Hal]. destruct (wf_size _ Hwf) as [Hsz Hszal].
  rewrite max_addressable_val in Hsz. pose proof (wf_slab_start_eq _ Hwf) as Hse.
  pose proof (wf_valid _ Hwf) as Hv. rewrite Forall_app in Hv. destruct Hv as [Hvf Hva].
  unfold saveState. rewrite Howns. res_simpl.
  assert (∀ l, Forall (λ s, isValidSlab sa s = true) l → mapM (slabIdx sa) l = Ok (slabIndex sa <$> l)) as Hmap.
  { intros l Hl. apply mapM_Ok. eapply Forall_impl; [done|]. intros. by apply slabIdx_valid. }
  assert (slabIdx sa (nextSlabAllocation sa) = Ok (slabIndex sa (nextSlabAllocation sa))) as ->.
  { unfold slabIdx. rewrite Z.eqb_refl. assert (0 < kSize) by done.
    by rewrite (proj2 (Z.eqb_neq _ _)) by lia. }
  rewrite !Hmap by done. res_simpl. eexists _, _. split; [done|].
  unfold SlabAllocator_restore. cbn [o_memorySize o_nextSlabIdx o_canAllocate o_slabSize
    o_minAllocSize o_memoryPoolSize o_freeSlabIdxs o_advisedSlabIdxs].
  assert (u64 (s64 (memorySize sa)) = memorySize sa) as ->.
  { apply wrap_swrap; [done|]. unfold fits. lia. }
  assert (computeSlabMemoryStart (memoryStart sa) (memorySize sa) = Ok (slabMemoryStart sa)) as ->.
  { unfold computeSlabMemoryStart.
    rewrite (proj2 (Z.leb_gt _ _) (wf_headers _ Hwf)), (proj2 (Z.eqb_neq (memoryStart sa) 0)), Hal by lia.
    res_simpl. by rewrite (wf_slab_start _ Hwf). }
  res_simpl. destruct (slab_of_saved_idx sa (nextSlabAllocation sa) Hwf ltac:(lia) Hna) as [_ ->].
  change (kSize =? u64 kSize) with true. rewrite Z.eqb_refl. unfold roundDownToSlabSize.
  rewrite Hms, Z.eqb_refl. res_simpl.
  pose proof (restorePoolSizes_spec (memoryPoolSize sa) []) as Hrp. simpl in Hrp.
  rewrite Hrp; [|apply Hwf|done|by rewrite (wf_pools _ Hwf)]. clear Hrp. res_simpl.
  set (sa1 := restoreFreeSlabs _ _).
  destruct (restoreAdvisedSlabs_spec (s32 <$> (slabIndex sa <$> advisedSlabs sa)) sa1) as (Hv & Hp & Hh).
  { intros i (j & -> & (s & -> & Hs)%list_elem_of_fmap)%list_elem_of_fmap.
    rewrite Forall_forall in Hadv, Hva. pose proof (Hva s Hs) as Hvs.
    rewrite (valid_slab_iff _ Hwf) in Hvs.
    destruct (slab_of_saved_idx sa s Hwf) as [-> _]; [lia|apply Hvs|]. by apply Hadv. }
  assert (∀ l, Forall (λ s, isValidSlab sa s = true) l →
    (λ i, getSlabForIdx (slabMemoryStart sa) (u32 i)) <$> (s32 <$> (slabIndex sa <$> l)) = l) as Hback.
  { induction 1 as [|s l Hs _ IH]; [done|]. rewrite !fmap_cons, IH. f_equal.
    rewrite (valid_slab_iff _ Hwf) in Hs. apply (slab_of_saved_idx sa s Hwf); [lia|apply Hs]. }
  assert (slab_view (restoreAdvisedSlabs (s32 <$> (slabIndex sa <$> advisedSlabs sa)) sa1) = slab_view sa) as Hview.
  { rewrite Hv. unfold slab_view. cbn. by rewrite !Hback. }
  assert (checkState (restoreAdvisedSlabs (s32 <$> (slabIndex sa <$> advisedSlabs sa)) sa1) = Ok tt) as ->.
  { by apply checkState_wf, (slab_view_wf sa). }
  split; [done|]. split; [exact Hview|]. split; [exact Hp|exact Hh].
Qed.

Lemma saveState_restore_witness :
  ∃ o sa', saveState sa_example1 = Ok o ∧
    SlabAllocator_restore o kSize (8 * kSize) (headers sa_example1) = Ok sa' ∧
    slab_view sa' = slab_view sa_example1 ∧ memoryPoolSize sa' = memoryPoolSize sa_example1 ∧
    (∀ i, headers sa' i = headers sa_example1 i).
Proof.
  apply (saveState_restore sa_example1 (8 * kSize) (proj1 sa_example1_wf)); try reflexivity.
  - apply Forall_insert; [apply Forall_replicate|]; (split; [discriminate|reflexivity]).
  - by apply Forall_nil.
Defined.

(** ** Pool size accounting *)

(** Advising a slab away and reclaiming it for the same pool leaves the pool
    with the slabs it had, but [memoryPoolSize_] counts the slab twice
    afterwards: [adviseSlab] does not subtract what [reclaimSlab] adds. *)
Theorem advise_reclaim_inflates_pool_size sa slab id n :
  sa_wf sa → in_use sa slab → advisedSlabs sa = [] → 0 ≤ id < Z.of_nat kMaxPools →
  memoryPoolSize sa !! Z.to_nat id = Some n →
  ∃ sa1 sa2, adviseSlab true slab sa = Ok (true, sa1) ∧ reclaimSlab id sa1 = Ok (Some slab, sa2) ∧
    slab_view sa2 = slab_view sa ∧ memoryPoolSize sa2 !! Z.to_nat id = Some (u64 (n + kSize)).
Proof.
  intros Hwf (Hval & Hnf & Hna) Hadv Hid Hn.
  assert (∃ sa1, adviseSlab true slab sa = Ok (true, sa1) ∧ advisedSlabs sa1 = [slab] ∧
    slab_view (set_advised [] sa1) = slab_view sa ∧ memoryPoolSize sa1 = memoryPoolSize sa)
    as (sa1 & Hadvise & Hadv1 & Hv1 & Hp1).
  { unfold adviseSlab. rewrite header_of_valid by done. eexists. split; [done|].
    cbn. rewrite Hadv. split; [done|]. split; [|done]. unfold slab_view. cbn. by rewrite Hadv. }
  unfold reclaimSlab. exists sa1. rewrite Hadv1.
  destruct (claim_slab id slab (set_advised [] sa1)) as (sa2 & Heq & Hview & _ & _ & Hp).
  { by apply (slab_view_wf sa). }
  { done. }
  { by rewrite (proj1 (slab_view_valid _ _ slab Hv1)). }
  exists sa2. split; [done|]. split; [done|]. split; [by rewrite Hview|].
  rewrite Hp, list_lookup_alter_eq. cbn. by rewrite Hp1, Hn.
Qed.

Lemma advise_reclaim_inflates_pool_size_witness :
  ∃ sa1 sa2, adviseSlab true (2 * kSize) sa_example1 = Ok (true, sa1) ∧
    reclaimSlab 3 sa1 = Ok (Some (2 * kSize), sa2) ∧
    slab_view sa2 = slab_view sa_example1 ∧
    memoryPoolSize sa2 !! Z.to_nat 3 = Some (u64 (kSize + kSize)).
Proof.
  destruct sa_example1_wf as [Hwf Huse].
  apply (advise_reclaim_inflates_pool_size sa_example1 (2 * kSize) 3 kSize Hwf Huse); by vm_compute.
Defined.
