(* ===== verification/PtrCompressor.v ===== *)
(** The interface between the intrusive containers and the allocator that
    compresses their pointers ([PtrCompressor] of
    [allocator/memory/CompressedPtr.h]), and the slab allocator's
    implementation of it. *)
From S2P Require Import Prelude SlabAllocator.

(** What a container may rely on: a pointer the compressor accepts fits the
    32-bit hook field and comes back unchanged, and so does [nullptr]. *)
Class PtrCompressor := {
  valid_ptr : Z → Prop;
  pc_compress : option Z → result Z;
  pc_unCompress : Z → result (option Z);
  pc_roundtrip p : valid_ptr p →
    ∃ c, pc_compress (Some p) = Ok c ∧ fits 32 c ∧ pc_unCompress c = Ok (Some p);
  pc_null : ∃ c, pc_compress None = Ok c ∧ fits 32 c ∧ pc_unCompress c = Ok None;
}.

(** A pointer that is null or acceptable. *)
Definition vptr `{PtrCompressor} (p : option Z) : Prop :=
  match p with Some a => valid_ptr a | None => True end.

Lemma vptr_roundtrip `{PtrCompressor} p : vptr p →
  ∃ c, pc_compress p = Ok c ∧ fits 32 c ∧ pc_unCompress c = Ok p.
Proof. destruct p; [apply pc_roundtrip|intros _; apply pc_null]. Qed.

(** [PtrCompressor<PtrType, SlabAllocator>]: single-tier compression by the
    slab allocator the compressor refers to. *)
Section slab_compressor.
Context (sa : SlabAllocator) (Hwf : sa_wf sa).

Definition slab_compress (uncompressed : option Z) : result Z :=
  compress sa uncompressed false.
Definition slab_unCompress (compressed : Z) : result (option Z) :=
  unCompress sa compressed false.

Lemma slab_roundtrip p : is_alloc sa p →
  ∃ c, slab_compress (Some p) = Ok c ∧ fits 32 c ∧ slab_unCompress c = Ok (Some p).
Proof.
  intros (slab & k & Halloc).
  destruct (compress_roundtrip_aux sa false slab k p Hwf Halloc ltac:(done)) as (c & ? & ? & _ & ?).
  by exists c.
Qed.

Lemma slab_null :
  ∃ c, slab_compress None = Ok c ∧ fits 32 c ∧ slab_unCompress c = Ok None.
Proof. by exists kNull. Qed.

Definition slab_PtrCompressor : PtrCompressor := {|
  valid_ptr := is_alloc sa;
  pc_compress := slab_compress;
  pc_unCompress := slab_unCompress;
  pc_roundtrip := slab_roundtrip;
  pc_null := slab_null;
|}.
End slab_compressor.
