(* ===== verification/DList.v ===== *)
(** The intrusive doubly linked list ([allocator/datastruct/DList.h] and
    [DList-inl.h]) on a store of nodes whose hooks hold compressed pointers.

    A node is addressed by its pointer; its hook ([next_], [prev_],
    [updateTime_]) and the reference-count word of the item it is embedded in
    are one record of the store.  Every operation threads the list header and
    the store, and is undefined on a null or dangling pointer and on a failed
    [XDCHECK].  [dlist_rep] relates a header and a store to the sequence of
    nodes from head to tail, and every operation is shown to implement the
    corresponding operation on sequences. *)
From S2P Require Import Prelude SlabAllocator PtrCompressor.

Record Node := mkNode {
  next_ : Z;        (** compressed *)
  prev_ : Z;        (** compressed *)
  updateTime_ : Z;
  refCount_ : Z;
}.
Abbreviation Store := (gmap Z Node).

Record DList := mkDList { head_ : option Z; tail_ : option Z; size_ : Z }.
Definition DList_empty : DList := mkDList None None 0.

Record DListObject := mkDListObject { compressedHead : Z; compressedTail : Z; o_size : Z }.

Inductive Direction := FROM_HEAD | FROM_TAIL.
Record Iterator := mkIterator { curr_ : option Z; dir_ : Direction }.

Section operations.
Context `{PtrCompressor}.

(** *** Hook accessors *)
Definition getNext (h : Store) (node : Z) : result (option Z) :=
  n ← deref (h !! node); pc_unCompress (next_ n).
Definition getPrev (h : Store) (node : Z) : result (option Z) :=
  n ← deref (h !! node); pc_unCompress (prev_ n).
Definition setNext (node : Z) (next : option Z) (h : Store) : result Store :=
  n ← deref (h !! node); c ← pc_compress next;
  Ok (<[node := mkNode c (prev_ n) (updateTime_ n) (refCount_ n)]> h).
Definition setPrev (node : Z) (prev : option Z) (h : Store) : result Store :=
  n ← deref (h !! node); c ← pc_compress prev;
  Ok (<[node := mkNode (next_ n) c (updateTime_ n) (refCount_ n)]> h).
Definition setNextFrom (node other : Z) (h : Store) : result Store :=
  n ← deref (h !! node); o ← deref (h !! other);
  Ok (<[node := mkNode (next_ o) (prev_ n) (updateTime_ n) (refCount_ n)]> h).
Definition setPrevFrom (node other : Z) (h : Store) : result Store :=
  n ← deref (h !! node); o ← deref (h !! other);
  Ok (<[node := mkNode (next_ n) (prev_ o) (updateTime_ n) (refCount_ n)]> h).

(** [if (p != nullptr) f( *p)]. *)
Definition when_ptr (p : option Z) (f : Z → Store → result Store) (h : Store) : result Store :=
  match p with Some a => f a h | None => Ok h end.

(** *** List operations *)
Definition linkAtHead (node : Z) (s : DList * Store) : result (DList * Store) :=
  let '(l, h) := s in
  _ ← xdcheck (bool_decide (Some node ≠ head_ l));
  h ← setNext node (head_ l) h;
  h ← setPrev node None h;
  h ← when_ptr (head_ l) (λ hd, setPrev hd (Some node)) h;
  let tail := match tail_ l with None => Some node | t => t end in
  Ok (mkDList (Some node) tail (u64 (size_ l + 1)), h).

Definition linkAtTail (node : Z) (s : DList * Store) : result (DList * Store) :=
  let '(l, h) := s in
  _ ← xdcheck (bool_decide (Some node ≠ tail_ l));
  h ← setNext node None h;
  h ← setPrev node (tail_ l) h;
  h ← when_ptr (tail_ l) (λ tl, setNext tl (Some node)) h;
  let head := match head_ l with None => Some node | t => t end in
  Ok (mkDList head (Some node) (u64 (size_ l + 1)), h).

Definition insertBefore (nextNode node : Z) (s : DList * Store) : result (DList * Store) :=
  let '(l, h) := s in
  _ ← xdcheck (negb (nextNode =? node));
  n ← getNext h node; _ ← xdcheck (bool_decide (n = None));
  p ← getPrev h node; _ ← xdcheck (bool_decide (p = None));
  prev ← getPrev h nextNode;
  _ ← xdcheck (bool_decide (prev ≠ Some node));
  h ← setPrev node prev h;
  h ← when_ptr prev (λ pr, setNext pr (Some node)) h;
  let head := match prev with None => Some node | Some _ => head_ l end in
  h ← setPrev nextNode (Some node) h;
  h ← setNext node (Some nextNode) h;
  Ok (mkDList head (tail_ l) (u64 (size_ l + 1)), h).

Definition unlink (node : Z) (s : DList * Store) : result (DList * Store) :=
  let '(l, h) := s in
  _ ← xdcheck (0 <? size_ l);
  prev ← getPrev h node;
  next ← getNext h node;
  let head := if decide (Some node = head_ l) then next else head_ l in
  let tail := if decide (Some node = tail_ l) then prev else tail_ l in
  h ← when_ptr prev (λ pr, setNextFrom pr node) h;
  h ← when_ptr next (λ nx, setPrevFrom nx node) h;
  Ok (mkDList head tail (u64 (size_ l - 1)), h).

Definition remove (node : Z) (s : DList * Store) : result (DList * Store) :=
  '(l, h) ← unlink node s;
  h ← setNext node None h;
  h ← setPrev node None h;
  Ok (l, h).

Definition replace (oldNode newNode : Z) (s : DList * Store) : result (DList * Store) :=
  let '(l, h) := s in
  let head := if decide (Some oldNode = head_ l) then Some newNode else head_ l in
  let tail := if decide (Some oldNode = tail_ l) then Some newNode else tail_ l in
  prev ← getPrev h oldNode;
  next ← getNext h oldNode;
  h ← when_ptr prev (λ pr, setNext pr (Some newNode)) h;
  h ← when_ptr next (λ nx, setPrev nx (Some newNode)) h;
  h ← setPrev newNode prev h;
  h ← setNext newNode next h;
  h ← setPrev oldNode None h;
  h ← setNext oldNode None h;
  Ok (mkDList head tail (size_ l), h).

Definition moveToHead (node : Z) (s : DList * Store) : result (DList * Store) :=
  if decide (Some node = head_ (fst s)) then Ok s
  else s ← unlink node s; linkAtHead node s.

(** *** Iterators *)
Definition begin (l : DList) : Iterator := mkIterator (head_ l) FROM_HEAD.
Definition rbegin (l : DList) : Iterator := mkIterator (tail_ l) FROM_TAIL.
Definition resetToBegin (l : DList) (it : Iterator) : Iterator :=
  mkIterator (match dir_ it with FROM_HEAD => head_ l | FROM_TAIL => tail_ l end) (dir_ it).
Definition goForward (h : Store) (it : Iterator) : result Iterator :=
  c ← deref (curr_ it);
  p ← match dir_ it with FROM_TAIL => getPrev h c | FROM_HEAD => getNext h c end;
  Ok (mkIterator p (dir_ it)).
Definition goBackward (h : Store) (it : Iterator) : result Iterator :=
  c ← deref (curr_ it);
  p ← match dir_ it with FROM_TAIL => getNext h c | FROM_HEAD => getPrev h c end;
  Ok (mkIterator p (dir_ it)).
(** [operator++] and [operator--], debug checks included. *)
Definition iter_incr (h : Store) (it : Iterator) : result Iterator :=
  _ ← xdcheck (bool_decide (curr_ it ≠ None)); goForward h it.
Definition iter_decr (h : Store) (it : Iterator) : result Iterator :=
  _ ← xdcheck (bool_decide (curr_ it ≠ None)); goBackward h it.

(** The nodes an [it; it != end; ++it] loop visits. *)
Fixpoint iter_collect (fuel : nat) (h : Store) (it : Iterator) : result (list Z) :=
  match curr_ it with
  | None => Ok []
  | Some a =>
      match fuel with
      | O => Undef
      | S fuel => it ← iter_incr h it; as_ ← iter_collect fuel h it; Ok (a :: as_)
      end
  end.

(** *** Saved state *)
Definition saveState (l : DList) : result DListObject :=
  hd ← pc_compress (head_ l); tl ← pc_compress (tail_ l);
  Ok (mkDListObject hd tl (s64 (size_ l))).
Definition DList_restore (o : DListObject) : result DList :=
  hd ← pc_unCompress (u32 (compressedHead o)); tl ← pc_unCompress (u32 (compressedTail o));
  Ok (mkDList hd tl (u64 (o_size o))).
End operations.

(** ** Views of the store

    What the code observes of a store: each node's successor, predecessor
    and payload (time and reference-count word).  [upd] is a pointwise change
    at a possibly null pointer. *)
Definition payload (h : Store) (a : Z) : option (Z * Z) :=
  (λ n, (updateTime_ n, refCount_ n)) <$> h !! a.
Definition upd {A} (p : option Z) (v : A) (f : Z → A) : Z → A :=
  λ b, if decide (p = Some b) then v else f b.

Lemma upd_eq {A} a (v : A) f : upd (Some a) v f a = v.
Proof. unfold upd. by rewrite decide_True. Qed.
Lemma upd_ne {A} p (v : A) f b : p ≠ Some b → upd p v f b = f b.
Proof. intros. unfold upd. by rewrite decide_False. Qed.

Section views.
Context `{PtrCompressor}.
Implicit Types (h : Store) (a b : Z) (p : option Z).

Definition links h (nx pv : Z → result (option Z)) (h0 : Store) : Prop :=
  (∀ b, getNext h b = nx b) ∧ (∀ b, getPrev h b = pv b) ∧ (∀ b, payload h b = payload h0 b).

(** Every pointer of [p] is allocated. *)
Definition alive h p : Prop := ∀ a, p = Some a → is_Some (payload h a).

Lemma alive_payload h h' p : (∀ b, payload h' b = payload h b) → alive h p → alive h' p.
Proof. unfold alive. intros Hp Ha a Heq. rewrite Hp. auto. Qed.
Lemma alive_node h a : alive h (Some a) → ∃ n, h !! a = Some n.
Proof. intros Ha. destruct (Ha a eq_refl) as [x Hx]. unfold payload in Hx.
  destruct (h !! a); [eauto|done]. Qed.

Lemma setNext_view h a p : alive h (Some a) → vptr p →
  ∃ h', setNext a p h = Ok h' ∧ links h' (upd (Some a) (Ok p) (getNext h)) (getPrev h) h.
Proof.
  intros (n & Hn)%alive_node (c & Hc & _ & Hu)%vptr_roundtrip. unfold setNext. rewrite Hn, Hc.
  res_simpl. eexists; split; [done|]. unfold links, getNext, getPrev, payload, upd.
  split_and!; intros b; rewrite lookup_insert; destruct (decide (a = b)) as [->|];
    rewrite ?Hn; try done; case_decide; try done; congruence.
Qed.

Lemma setPrev_view h a p : alive h (Some a) → vptr p →
  ∃ h', setPrev a p h = Ok h' ∧ links h' (getNext h) (upd (Some a) (Ok p) (getPrev h)) h.
Proof.
  intros (n & Hn)%alive_node (c & Hc & _ & Hu)%vptr_roundtrip. unfold setPrev. rewrite Hn, Hc.
  res_simpl. eexists; split; [done|]. unfold links, getNext, getPrev, payload, upd.
  split_and!; intros b; rewrite lookup_insert; destruct (decide (a = b)) as [->|];
    rewrite ?Hn; try done; case_decide; try done; congruence.
Qed.

Lemma setNextFrom_view h a o : alive h (Some a) → alive h (Some o) →
  ∃ h', setNextFrom a o h = Ok h' ∧ links h' (upd (Some a) (getNext h o) (getNext h)) (getPrev h) h.
Proof.
  intros (n & Hn)%alive_node (m & Hm)%alive_node. unfold setNextFrom. rewrite Hn, Hm.
  res_simpl. eexists; split; [done|]. unfold links, getNext, getPrev, payload, upd. rewrite Hm.
  split_and!; intros b; rewrite lookup_insert; destruct (decide (a = b)) as [->|];
    rewrite ?Hn; try done; case_decide; try done; congruence.
Qed.

Lemma setPrevFrom_view h a o : alive h (Some a) → alive h (Some o) →
  ∃ h', setPrevFrom a o h = Ok h' ∧ links h' (getNext h) (upd (Some a) (getPrev h o) (getPrev h)) h.
Proof.
  intros (n & Hn)%alive_node (m & Hm)%alive_node. unfold setPrevFrom. rewrite Hn, Hm.
  res_simpl. eexists; split; [done|]. unfold links, getNext, getPrev, payload, upd. rewrite Hm.
  split_and!; intros b; rewrite lookup_insert; destruct (decide (a = b)) as [->|];
    rewrite ?Hn; try done; case_decide; try done; congruence.
Qed.

(** The same through a possibly null pointer. *)
Lemma when_setNext_view h p q : alive h p → vptr q →
  ∃ h', when_ptr p (λ a, setNext a q) h = Ok h' ∧
    links h' (upd p (Ok q) (getNext h)) (getPrev h) h.
Proof.
  intros Hp Hq. destruct p as [a|]; [by apply setNext_view|]. by exists h.
Qed.
Lemma when_setPrev_view h p q : alive h p → vptr q →
  ∃ h', when_ptr p (λ a, setPrev a q) h = Ok h' ∧
    links h' (getNext h) (upd p (Ok q) (getPrev h)) h.
Proof.
  intros Hp Hq. destruct p as [a|]; [by apply setPrev_view|]. by exists h.
Qed.
Lemma when_setNextFrom_view h p o : alive h p → alive h (Some o) →
  ∃ h', when_ptr p (λ a, setNextFrom a o) h = Ok h' ∧
    links h' (upd p (getNext h o) (getNext h)) (getPrev h) h.
Proof.
  intros Hp Hq. destruct p as [a|]; [by apply setNextFrom_view|]. by exists h.
Qed.
Lemma when_setPrevFrom_view h p o : alive h p → alive h (Some o) →
  ∃ h', when_ptr p (λ a, setPrevFrom a o) h = Ok h' ∧
    links h' (getNext h) (upd p (getPrev h o) (getPrev h)) h.
Proof.
  intros Hp Hq. destruct p as [a|]; [by apply setPrevFrom_view|]. by exists h.
Qed.

(** Composing views along a sequence of hook writes. *)
Lemma links_refl h : links h (getNext h) (getPrev h) h.
Proof. done. Qed.
Lemma links_trans h0 h1 h2 nx pv nx' pv' : links h1 nx pv h0 → links h2 nx' pv' h1 →
  links h2 nx' pv' h0.
Proof. intros (? & ? & Hp) (? & ? & Hp'). split_and!; try done. intros b. by rewrite Hp'. Qed.
Lemma links_ext h h0 nx pv nx' pv' : links h nx pv h0 →
  (∀ b, nx b = nx' b) → (∀ b, pv b = pv' b) → links h nx' pv' h0.
Proof. intros (Hn & Hp & ?) Hn' Hp'. split_and!; [by intros; rewrite Hn|by intros; rewrite Hp|done]. Qed.

Lemma upd_ext {A} p (v w : A) f g b : v = w → (∀ c, f c = g c) → upd p v f b = upd p w g b.
Proof. intros -> Hfg. unfold upd. by rewrite Hfg. Qed.
Lemma upd_comm {A} p q (v w : A) f b : (∀ a, p = Some a → q ≠ Some a) →
  upd p v (upd q w f) b = upd q w (upd p v f) b.
Proof. intros Hpq. unfold upd. repeat case_decide; try done. exfalso. by eapply Hpq. Qed.
Lemma upd_same {A} p (v w : A) f b : upd p v (upd p w f) b = upd p v f b.
Proof. unfold upd. by case_decide. Qed.

Section steps.
Context {h0 h : Store} {nx pv : Z → result (option Z)} (Hl : links h nx pv h0).

Lemma step_alive p : alive h0 p → alive h p.
Proof. apply alive_payload, Hl. Qed.
Lemma step_setNext p q : alive h0 p → vptr q →
  ∃ h', when_ptr p (λ a, setNext a q) h = Ok h' ∧ links h' (upd p (Ok q) nx) pv h0.
Proof.
  intros Hp%step_alive Hq. destruct (when_setNext_view h p q Hp Hq) as (h' & He & Hl').
  exists h'. split; [done|]. eapply links_ext; [by eapply links_trans|..]; [|apply Hl].
  intros b. apply upd_ext; [done|apply Hl].
Qed.
Lemma step_setPrev p q : alive h0 p → vptr q →
  ∃ h', when_ptr p (λ a, setPrev a q) h = Ok h' ∧ links h' nx (upd p (Ok q) pv) h0.
Proof.
  intros Hp%step_alive Hq. destruct (when_setPrev_view h p q Hp Hq) as (h' & He & Hl').
  exists h'. split; [done|]. eapply links_ext; [by eapply links_trans|apply Hl|].
  intros b. apply upd_ext; [done|apply Hl].
Qed.
Lemma step_setNextFrom p o : alive h0 p → alive h0 (Some o) →
  ∃ h', when_ptr p (λ a, setNextFrom a o) h = Ok h' ∧ links h' (upd p (nx o) nx) pv h0.
Proof.
  intros Hp%step_alive Hq%step_alive.
  destruct (when_setNextFrom_view h p o Hp Hq) as (h' & He & Hl').
  exists h'. split; [done|]. eapply links_ext; [by eapply links_trans|..]; [|apply Hl].
  intros b. apply upd_ext; apply Hl.
Qed.
Lemma step_setPrevFrom p o : alive h0 p → alive h0 (Some o) →
  ∃ h', when_ptr p (λ a, setPrevFrom a o) h = Ok h' ∧ links h' nx (upd p (pv o) pv) h0.
Proof.
  intros Hp%step_alive Hq%step_alive.
  destruct (when_setPrevFrom_view h p o Hp Hq) as (h' & He & Hl').
  exists h'. split; [done|]. eapply links_ext; [by eapply links_trans|apply Hl|].
  intros b. apply upd_ext; apply Hl.
Qed.
Lemma step_getNext a : getNext h a = nx a.
Proof. apply Hl. Qed.
Lemma step_getPrev a : getPrev h a = pv a.
Proof. apply Hl. Qed.
End steps.
End views.

Create HintDb dlist discriminated.

(** Run the next hook write of the goal by the step lemma [lem]; [H] is the
    current view of the store, replaced by the view after the write. *)
Tactic Notation "hook" constr(lem) "with" constr(H) "as" ident(h') ident(H') :=
  let He := fresh "He" in
  destruct lem as (h' & He & H'); [..|cbn [when_ptr] in He; rewrite He; res_simpl; clear He H];
  cbn [vptr] in *; eauto with dlist.

(** ** Sequences *)

(** Inserting at position [i], and the element before position [i]. *)
Definition insert_at {A} (i : nat) (a : A) (xs : list A) : list A := take i xs ++ a :: drop i xs.
Definition prev_at {A} (xs : list A) (i : nat) : option A :=
  match i with O => None | S j => xs !! j end.

Section sequences.
Context {A : Type}.
Implicit Types (xs : list A) (a : A) (i j : nat).

Lemma insert_at_lookup_lt xs i j a : (j < i)%nat → (i ≤ length xs)%nat →
  insert_at i a xs !! j = xs !! j.
Proof.
  intros. unfold insert_at. rewrite lookup_app_l by (rewrite length_take; lia).
  by apply lookup_take_lt.
Qed.
Lemma insert_at_lookup_eq xs i a : (i ≤ length xs)%nat → insert_at i a xs !! i = Some a.
Proof.
  intros. unfold insert_at. rewrite lookup_app_r by (rewrite length_take; lia).
  rewrite length_take. by replace (i - i `min` length xs)%nat with O by lia.
Qed.
Lemma insert_at_lookup_gt xs i j a : (i < j)%nat → (i ≤ length xs)%nat →
  insert_at i a xs !! j = xs !! pred j.
Proof.
  intros. unfold insert_at. rewrite lookup_app_r by (rewrite length_take; lia).
  rewrite length_take. replace (j - i `min` length xs)%nat with (S (pred j - i)) by lia.
  simpl. rewrite lookup_drop. f_equal. lia.
Qed.
Lemma insert_at_perm xs i a : insert_at i a xs ≡ₚ a :: xs.
Proof. unfold insert_at. by rewrite <- Permutation_middle, take_drop. Qed.
Lemma elem_of_insert_at xs i a b : b ∈ insert_at i a xs ↔ b = a ∨ b ∈ xs.
Proof. by rewrite insert_at_perm, elem_of_cons. Qed.
Lemma insert_at_head xs a : insert_at 0 a xs = a :: xs.
Proof. done. Qed.
Lemma insert_at_end xs a : insert_at (length xs) a xs = xs ++ [a].
Proof. unfold insert_at. by rewrite firstn_all, drop_all. Qed.

Lemma last_insert_at xs i a : (i < length xs)%nat → last (insert_at i a xs) = last xs.
Proof.
  intros. unfold insert_at. transitivity (last (take i xs ++ drop i xs)); [|by rewrite take_drop].
  destruct (drop i xs) as [|b ys] eqn:Hd.
  - apply (f_equal length) in Hd. rewrite length_drop in Hd. simpl in Hd. lia.
  - rewrite !last_app, last_cons_cons.
    by destruct (last (b :: ys)) eqn:Hl; [|apply last_None in Hl].
Qed.

Lemma prev_at_length xs : prev_at xs (length xs) = last xs.
Proof. rewrite last_lookup. by destruct xs. Qed.
Lemma last_delete xs i a : xs !! i = Some a →
  last (delete i xs) = if decide (S i = length xs) then prev_at xs i else last xs.
Proof.
  intros Hi. pose proof (lookup_lt_Some _ _ _ Hi).
  rewrite last_lookup, length_delete by eauto. case_decide as Hd.
  - destruct i as [|i]; simpl in *.
    + destruct xs as [|? [|]]; simpl in *; try done; lia.
    + rewrite list_lookup_delete_lt by lia. f_equal. lia.
  - rewrite list_lookup_delete_ge, last_lookup by lia. f_equal. lia.
Qed.
Lemma head_delete xs i a : xs !! i = Some a →
  delete i xs !! 0%nat = if decide (i = 0%nat) then xs !! 1%nat else xs !! 0%nat.
Proof.
  intros Hi. case_decide as Hd; [subst; by rewrite list_lookup_delete_ge|].
  by rewrite list_lookup_delete_lt by lia.
Qed.
Lemma last_insert xs i a b : xs !! i = Some a →
  last (<[i := b]> xs) = if decide (S i = length xs) then Some b else last xs.
Proof.
  intros Hi. pose proof (lookup_lt_Some _ _ _ Hi). rewrite !last_lookup, length_insert.
  case_decide as Hd.
  - replace (pred (length xs)) with i by lia. by apply list_lookup_insert_eq.
  - by rewrite list_lookup_insert_ne by lia.
Qed.
Lemma head_insert xs i a b : xs !! i = Some a →
  <[i := b]> xs !! 0%nat = if decide (i = 0%nat) then Some b else xs !! 0%nat.
Proof.
  intros Hi. pose proof (lookup_lt_Some _ _ _ Hi). case_decide as Hd; [subst; by apply list_lookup_insert_eq|].
  by apply list_lookup_insert_ne.
Qed.
Lemma delete_not_elem xs i a : NoDup xs → xs !! i = Some a → a ∉ delete i xs.
Proof.
  intros Hnd Hi [j Hj]%list_elem_of_lookup. destruct (decide (j < i)%nat).
  - rewrite list_lookup_delete_lt in Hj by lia. pose proof (NoDup_lookup _ _ _ _ Hnd Hi Hj). lia.
  - rewrite list_lookup_delete_ge in Hj by lia. pose proof (NoDup_lookup _ _ _ _ Hnd Hi Hj). lia.
Qed.
Lemma delete_elem xs i b : b ∈ delete i xs → b ∈ xs.
Proof. intros Hb. eapply elem_of_submseteq; [done|]. apply sublist_submseteq, sublist_delete. Qed.

Lemma elem_of_delete xs i a b : NoDup xs → xs !! i = Some a → b ∈ delete i xs ↔ b ∈ xs ∧ b ≠ a.
Proof.
  intros Hnd Hi. pose proof (delete_not_elem xs i a Hnd Hi).
  rewrite (delete_Permutation xs i a Hi) at 2. rewrite elem_of_cons. naive_solver.
Qed.

Lemma elem_of_list_insert xs i a c b : NoDup xs → xs !! i = Some a →
  b ∈ <[i := c]> xs ↔ b = c ∨ (b ∈ xs ∧ b ≠ a).
Proof.
  intros Hnd Hi. pose proof (lookup_lt_Some _ _ _ Hi).
  rewrite insert_take_drop by done. rewrite <- (elem_of_delete xs i a b) by done.
  rewrite delete_take_drop, !elem_of_app, elem_of_cons. naive_solver.
Qed.

Lemma lookup_inj xs i j a : NoDup xs → xs !! i = Some a → xs !! j = Some a → i = j.
Proof. intros. by eapply NoDup_lookup. Qed.
Lemma prev_at_inj xs i j a : NoDup xs → prev_at xs i = Some a → xs !! j = Some a → i = S j.
Proof. intros ? Hp ?. destruct i; [done|]. f_equal. by eapply NoDup_lookup. Qed.

(** The last element is the one with no successor. *)
Lemma last_lookup_iff xs i a : NoDup xs → xs !! i = Some a →
  last xs = Some a ↔ S i = length xs.
Proof.
  intros Hnd Hi. rewrite last_lookup. pose proof (lookup_lt_Some _ _ _ Hi). split.
  - intros Hl. pose proof (NoDup_lookup _ _ _ _ Hnd Hi Hl). lia.
  - intros <-. done.
Qed.
End sequences.

(** ** The representation of a sequence *)
Section representation.
Context `{PtrCompressor}.
Implicit Types (h : Store) (a b : Z) (l : DList) (xs : list Z).

Record dlist_rep h l xs : Prop := {
  rep_nodup : NoDup xs;
  rep_head : head_ l = xs !! 0%nat;
  rep_tail : tail_ l = last xs;
  rep_size : size_ l = Z.of_nat (length xs);
  rep_links i a : xs !! i = Some a →
    valid_ptr a ∧ getNext h a = Ok (xs !! S i) ∧ getPrev h a = Ok (prev_at xs i);
}.

(** Only the hooks of the nodes in [X] changed. *)
Definition frame (X : list Z) h h' : Prop :=
  (∀ b, payload h' b = payload h b) ∧
  (∀ b, b ∉ X → getNext h' b = getNext h b ∧ getPrev h' b = getPrev h b).

Lemma getNext_alive h a p : getNext h a = Ok p → alive h (Some a).
Proof.
  unfold getNext, alive, payload. intros Hn b [= ->]. destruct (h !! b); [|done]. by eexists.
Qed.

Section facts.
Context {h l xs} (Hrep : dlist_rep h l xs).

Lemma rep_valid_lookup i : vptr (xs !! i).
Proof. destruct (xs !! i) as [a|] eqn:Hi; [|done]. by apply (rep_links _ _ _ Hrep i a). Qed.
Lemma rep_alive_lookup i : alive h (xs !! i).
Proof.
  destruct (xs !! i) as [a|] eqn:Hi; [|done].
  eapply getNext_alive, (rep_links _ _ _ Hrep i a Hi).
Qed.
Lemma rep_valid_prev i : vptr (prev_at xs i).
Proof. destruct i; [done|]. apply rep_valid_lookup. Qed.
Lemma rep_alive_prev i : alive h (prev_at xs i).
Proof. destruct i; [done|]. apply rep_alive_lookup. Qed.

(** At most [2 ^ 32] nodes: compressed pointers are distinct 32-bit words. *)
Lemma rep_length : Z.of_nat (length xs) ≤ 2 ^ 32.
Proof.
  assert (∃ cs, Forall2 (λ a c, fits 32 c ∧ pc_unCompress c = Ok (Some a)) xs cs) as [cs Hcs].
  { pose proof (rep_links _ _ _ Hrep) as Hl. clear Hrep.
    assert (Forall valid_ptr xs) as Hv.
    { apply Forall_lookup. intros i a Hi. by apply (Hl i a). }
    clear Hl. induction Hv as [|a xs Ha _ [cs IH]]; [by exists []|].
    destruct (pc_roundtrip a Ha) as (c & _ & Hc & Hu). exists (c :: cs). by constructor. }
  assert (NoDup cs) as Hnd.
  { apply NoDup_alt. intros i j c Hi Hj.
    destruct (Forall2_lookup_r _ _ _ _ _ Hcs Hi) as (a & Ha & _ & Hua).
    destruct (Forall2_lookup_r _ _ _ _ _ Hcs Hj) as (b & Hb & _ & Hub).
    rewrite Hua in Hub. simplify_eq. by eapply NoDup_lookup; [apply Hrep|..]. }
  rewrite (Forall2_length _ _ _ Hcs).
  assert (cs ⊆+ seqZ 0 (2 ^ 32)) as Hsub.
  { apply NoDup_submseteq; [done|]. intros c [i Hi]%list_elem_of_lookup.
    destruct (Forall2_lookup_r _ _ _ _ _ Hcs Hi) as (a & _ & Hc & _).
    apply elem_of_seqZ. unfold fits in Hc. lia. }
  apply submseteq_length in Hsub. rewrite length_seqZ in Hsub. lia.
Qed.
End facts.

(** Splicing a node in between its neighbours at position [i]. *)
Lemma rep_insert h l xs i a h' l' : dlist_rep h l xs → (i ≤ length xs)%nat → a ∉ xs → valid_ptr a →
  links h' (upd (Some a) (Ok (xs !! i)) (upd (prev_at xs i) (Ok (Some a)) (getNext h)))
           (upd (Some a) (Ok (prev_at xs i)) (upd (xs !! i) (Ok (Some a)) (getPrev h))) h →
  head_ l' = insert_at i a xs !! 0%nat → tail_ l' = last (insert_at i a xs) →
  size_ l' = Z.of_nat (length xs) + 1 →
  dlist_rep h' l' (insert_at i a xs) ∧ frame (a :: xs) h h'.
Proof.
  intros Hrep Hi Ha Hva (Hn & Hp & Hpl) Hhd Htl Hsz. pose proof (rep_nodup _ _ _ Hrep) as Hnd.
  split; [split; try done|split; [done|]].
  - rewrite insert_at_perm. by apply NoDup_cons.
  - rewrite Hsz, (Permutation_length (insert_at_perm xs i a)). simpl. lia.
  - intros j b Hj. rewrite Hn, Hp.
    destruct (decide (j = i)) as [->|Hne].
    { rewrite insert_at_lookup_eq in Hj by done. injection Hj as <-. rewrite !upd_eq.
      rewrite insert_at_lookup_gt by lia. split; [done|]. split; [done|].
      destruct i; [done|]. cbn. by rewrite insert_at_lookup_lt by lia. }
    assert (∃ k, xs !! k = Some b ∧ ((j < i ∧ k = j) ∨ (i < j ∧ j = S k))%nat) as (k & Hk & Hjk).
    { destruct (decide (j < i)%nat); [rewrite insert_at_lookup_lt in Hj by lia; eauto|].
      rewrite insert_at_lookup_gt in Hj by lia. exists (pred j). split; [done|lia]. }
    destruct (rep_links _ _ _ Hrep k b Hk) as (Hvb & Hnb & Hpb). split; [done|].
    assert (Some a ≠ Some b) by (intros [= <-]; apply Ha; by eapply list_elem_of_lookup_2).
    rewrite !(upd_ne (Some a)) by done. unfold upd. split.
    + case_decide as Hd.
      * pose proof (prev_at_inj _ _ _ _ Hnd Hd Hk) as ->.
        destruct Hjk as [[? ->]|[? ->]]; [by rewrite insert_at_lookup_eq|lia].
      * rewrite Hnb. f_equal. destruct Hjk as [[? ->]|[? ->]].
        -- assert (S j ≠ i) by (intros <-; by apply Hd). by rewrite insert_at_lookup_lt by lia.
        -- by rewrite insert_at_lookup_gt by lia.
    + case_decide as Hd.
      * pose proof (lookup_inj _ _ _ _ Hnd Hd Hk) as ->. destruct Hjk as [[? ->]|[? ->]]; [lia|]. cbn.
        by rewrite insert_at_lookup_eq.
      * rewrite Hpb. f_equal. destruct Hjk as [[? ->]|[? ->]].
        -- destruct j; [done|]. cbn. by rewrite insert_at_lookup_lt by lia.
        -- cbn. assert (k ≠ i) by (intros ->; by apply Hd).
           destruct k; [lia|]. cbn. by rewrite insert_at_lookup_gt by lia.
  - intros b [Hba Hb]%not_elem_of_cons. rewrite Hn, Hp. unfold upd.
    assert (∀ j, xs !! j ≠ Some b) as Hnl by (intros j Hj; apply Hb; by eapply list_elem_of_lookup_2).
    rewrite !(decide_False (P := Some a = Some b)) by congruence.
    rewrite decide_False by (destruct i; [done|apply Hnl]). by rewrite decide_False by apply Hnl.
Qed.

(** Linking the neighbours of position [i] to each other. *)
Lemma rep_delete h l xs i a h' l' : dlist_rep h l xs → xs !! i = Some a →
  links h' (upd (prev_at xs i) (Ok (xs !! S i)) (getNext h))
           (upd (xs !! S i) (Ok (prev_at xs i)) (getPrev h)) h →
  head_ l' = delete i xs !! 0%nat → tail_ l' = last (delete i xs) →
  size_ l' = Z.of_nat (length xs) - 1 →
  dlist_rep h' l' (delete i xs) ∧ frame (delete i xs) h h'.
Proof.
  intros Hrep Hi (Hn & Hp & Hpl) Hhd Htl Hsz. pose proof (rep_nodup _ _ _ Hrep) as Hnd.
  pose proof (lookup_lt_Some _ _ _ Hi) as Hlt.
  assert (length (delete i xs) = pred (length xs)) as Hlen by (by rewrite length_delete; eauto; lia).
  split; [split; try done|split; [done|]].
  - eapply sublist_NoDup; [done|]. apply sublist_delete.
  - rewrite Hsz, Hlen. lia.
  - intros j b Hj. rewrite Hn, Hp.
    assert (∃ k, xs !! k = Some b ∧ k ≠ i ∧ ((j < i ∧ k = j) ∨ (i ≤ j ∧ k = S j))%nat) as (k & Hk & Hki & Hjk).
    { destruct (decide (j < i)%nat); [rewrite list_lookup_delete_lt in Hj by lia; exists j|
        rewrite list_lookup_delete_ge in Hj by lia; exists (S j)]; (split; [done|lia]). }
    destruct (rep_links _ _ _ Hrep k b Hk) as (Hvb & Hnb & Hpb). split; [done|]. unfold upd. split.
    + case_decide as Hd.
      * pose proof (prev_at_inj _ _ _ _ Hnd Hd Hk) as ->.
        destruct Hjk as [[? ->]|[? ->]]; [|lia]. by rewrite list_lookup_delete_ge by lia.
      * rewrite Hnb. f_equal. destruct Hjk as [[? ->]|[? ->]].
        -- assert (S j ≠ i) by (intros <-; by apply Hd). by rewrite list_lookup_delete_lt by lia.
        -- by rewrite list_lookup_delete_ge by lia.
    + case_decide as Hd.
      * pose proof (lookup_inj _ _ _ _ Hnd Hd Hk) as <-.
        destruct Hjk as [[? ?]|[? [= <-]]]; [lia|].
        destruct i; [done|]. cbn. by rewrite list_lookup_delete_lt by lia.
      * rewrite Hpb. f_equal. destruct Hjk as [[? ->]|[? ->]].
        -- destruct j; [done|]. cbn. by rewrite list_lookup_delete_lt by lia.
        -- cbn. assert (j ≠ i) by (intros ->; by apply Hd). destruct j; [lia|]. cbn.
           by rewrite list_lookup_delete_ge by lia.
  - intros b Hb. rewrite Hn, Hp. unfold upd.
    assert (∀ j, j ≠ i → xs !! j ≠ Some b) as Hnl.
    { intros j Hji Hj. apply Hb. apply list_elem_of_lookup.
      destruct (decide (j < i)%nat); [exists j; by rewrite list_lookup_delete_lt by lia|].
      exists (pred j). rewrite list_lookup_delete_ge by lia. by replace (S (pred j)) with j by lia. }
    rewrite !decide_False; [done|apply Hnl; lia|]. destruct i; [done|]. apply Hnl. lia.
Qed.

(** Putting another node at position [i]. *)
Lemma rep_replace h l xs i a c h' l' : dlist_rep h l xs → xs !! i = Some a → c ∉ xs → valid_ptr c →
  links h' (upd (Some a) (Ok None) (upd (Some c) (Ok (xs !! S i)) (upd (prev_at xs i) (Ok (Some c)) (getNext h))))
           (upd (Some a) (Ok None) (upd (Some c) (Ok (prev_at xs i)) (upd (xs !! S i) (Ok (Some c)) (getPrev h)))) h →
  head_ l' = <[i := c]> xs !! 0%nat → tail_ l' = last (<[i := c]> xs) → size_ l' = size_ l →
  dlist_rep h' l' (<[i := c]> xs) ∧ frame (c :: xs) h h'.
Proof.
  intros Hrep Hi Hc Hvc (Hn & Hp & Hpl) Hhd Htl Hsz. pose proof (rep_nodup _ _ _ Hrep) as Hnd.
  pose proof (lookup_lt_Some _ _ _ Hi) as Hlt.
  assert (∀ j b, xs !! j = Some b → Some c ≠ Some b) as Hcb
    by (intros j b Hj [= <-]; apply Hc; by eapply list_elem_of_lookup_2).
  split; [split; try done|split; [done|]].
  - apply NoDup_alt. intros j k b. rewrite !list_lookup_insert.
    repeat case_decide; intros; simplify_eq; destruct_and?; try done; try lia;
      try (exfalso; by eapply Hcb); by eapply NoDup_lookup.
  - rewrite length_insert, Hsz. apply Hrep.
  - intros j b Hj. rewrite Hn, Hp. destruct (decide (i = j)) as [<-|Hne].
    { rewrite list_lookup_insert_eq in Hj by done. injection Hj as <-.
      rewrite !(upd_ne (Some a)) by (intros [= ->]; by eapply Hcb). rewrite !upd_eq.
      rewrite list_lookup_insert_ne by lia. split; [done|]. split; [done|].
      destruct i; [done|]. cbn. by rewrite list_lookup_insert_ne by lia. }
    rewrite list_lookup_insert_ne in Hj by done.
    destruct (rep_links _ _ _ Hrep j b Hj) as (Hvb & Hnb & Hpb). split; [done|].
    rewrite !(upd_ne (Some a)) by (intros [= ->]; by apply Hne, (lookup_inj xs _ _ b)).
    rewrite !(upd_ne (Some c)) by (by eapply Hcb). unfold upd. split.
    + case_decide as Hd.
      * pose proof (prev_at_inj _ _ _ _ Hnd Hd Hj) as ->. by rewrite list_lookup_insert_eq by lia.
      * rewrite Hnb. f_equal. rewrite list_lookup_insert_ne; [done|]. intros ->. by apply Hd.
    + case_decide as Hd.
      * pose proof (lookup_inj _ _ _ _ Hnd Hd Hj) as <-. cbn. by rewrite list_lookup_insert_eq by lia.
      * rewrite Hpb. f_equal. destruct j; [done|]. cbn. rewrite list_lookup_insert_ne; [done|].
        intros ->. by apply Hd.
  - intros b [Hbc Hb]%not_elem_of_cons. rewrite Hn, Hp.
    assert (∀ j, xs !! j ≠ Some b) as Hnl by (intros j Hj; apply Hb; by eapply list_elem_of_lookup_2).
    assert (prev_at xs i ≠ Some b) by (destruct i; [done|apply Hnl]).
    rewrite !upd_ne; try done; try congruence; apply Hnl || (intros [= ->]; by eapply Hnl).
Qed.
End representation.

#[export] Hint Resolve rep_valid_lookup rep_alive_lookup rep_valid_prev rep_alive_prev : dlist.
#[export] Hint Extern 1 (vptr None) => exact I : dlist.

(** ** The operations implement the operations on sequences *)
Section specs.
Context `{PtrCompressor}.
Implicit Types (h : Store) (a b : Z) (l : DList) (xs : list Z).

Lemma alive_none h : alive h None.
Proof. by intros a. Qed.

Lemma frame_refl X h : frame X h h.
Proof. done. Qed.
Lemma frame_trans X Y Z' h1 h2 h3 : frame X h1 h2 → frame Y h2 h3 →
  (∀ b, b ∈ X → b ∈ Z') → (∀ b, b ∈ Y → b ∈ Z') → frame Z' h1 h3.
Proof.
  intros (Hp1 & Hf1) (Hp2 & Hf2) HX HY. split; [intros b; by rewrite Hp2|].
  intros b Hb. destruct (Hf1 b) as [? ?]; [auto|]. destruct (Hf2 b) as [? ?]; [auto|].
  split; congruence.
Qed.
Lemma frame_weaken X Y h h' : frame X h h' → (∀ b, b ∈ X → b ∈ Y) → frame Y h h'.
Proof. intros [? Hf] HXY. split; [done|]. intros b Hb. apply Hf. auto. Qed.
Lemma frame_alive X h h' p : frame X h h' → alive h p → alive h' p.
Proof. intros [Hp _]. by apply alive_payload. Qed.

(** A list only depends on the hooks of its nodes. *)
Lemma rep_frame h h' l xs : dlist_rep h l xs →
  (∀ b, b ∈ xs → getNext h' b = getNext h b ∧ getPrev h' b = getPrev h b) → dlist_rep h' l xs.
Proof.
  intros Hrep Hf. split; try apply Hrep. intros i a Hi.
  destruct (Hf a) as [-> ->]; [by eapply list_elem_of_lookup_2|]. by apply (rep_links _ _ _ Hrep).
Qed.

Lemma rep_head_iff h l xs i a : dlist_rep h l xs → xs !! i = Some a →
  Some a = head_ l ↔ i = 0%nat.
Proof.
  intros Hrep Hi. rewrite (rep_head _ _ _ Hrep). split.
  - intros Hh. eapply NoDup_lookup; [apply Hrep|done|by rewrite <- Hh].
  - by intros ->.
Qed.
Lemma rep_tail_iff h l xs i a : dlist_rep h l xs → xs !! i = Some a →
  Some a = tail_ l ↔ S i = length xs.
Proof.
  intros Hrep Hi. rewrite (rep_tail _ _ _ Hrep).
  rewrite <- (last_lookup_iff xs i a (rep_nodup _ _ _ Hrep) Hi). done.
Qed.
Lemma rep_not_head h l xs a : dlist_rep h l xs → a ∉ xs → Some a ≠ head_ l.
Proof.
  intros Hrep Ha Hh. apply Ha. rewrite (rep_head _ _ _ Hrep) in Hh. by eapply list_elem_of_lookup_2.
Qed.
Lemma rep_not_tail h l xs a : dlist_rep h l xs → a ∉ xs → Some a ≠ tail_ l.
Proof.
  intros Hrep Ha Hh. apply Ha. rewrite (rep_tail _ _ _ Hrep), last_lookup in Hh.
  by eapply list_elem_of_lookup_2.
Qed.
Lemma rep_size_succ h l xs : dlist_rep h l xs → u64 (size_ l + 1) = Z.of_nat (length xs) + 1.
Proof.
  intros Hrep. pose proof (rep_length Hrep). rewrite (rep_size _ _ _ Hrep).
  apply wrap_small. unfold fits. lia.
Qed.

Lemma linkAtHead_aux h l xs a : dlist_rep h l xs → a ∉ xs → valid_ptr a → alive h (Some a) →
  ∃ l' h', linkAtHead a (l, h) = Ok (l', h') ∧ dlist_rep h' l' (a :: xs) ∧ frame (a :: xs) h h'.
Proof.
  intros Hrep Ha Hv Hal. unfold linkAtHead.
  rewrite bool_decide_eq_true_2 by by eapply rep_not_head. res_simpl.
  pose proof (links_refl h) as Hl. pose proof (rep_head _ _ _ Hrep) as Hh. rewrite !Hh.
  hook (step_setNext Hl (Some a) (xs !! 0%nat)) with Hl as k1 Hl1.
  hook (step_setPrev Hl1 (Some a) None) with Hl1 as k2 Hl2.
  hook (step_setPrev Hl2 (xs !! 0%nat) (Some a)) with Hl2 as k3 Hl3.
  do 2 eexists. split; [done|]. eapply (rep_insert _ _ _ 0); try done; [lia|..].
  - eapply links_ext; [apply Hl3|done|]. intros b. apply upd_comm.
    intros c Hc [= <-]. by apply Ha, (list_elem_of_lookup_2 _ 0%nat).
  - rewrite insert_at_head. cbn. rewrite (rep_tail _ _ _ Hrep). destruct xs; [done|].
    change (match last (z :: xs) with Some t => Some t | None => Some a end = last (z :: xs)).
    by destruct (last (z :: xs)) eqn:E; [|apply last_None in E].
  - cbn. by eapply rep_size_succ.
Qed.

Lemma linkAtTail_aux h l xs a : dlist_rep h l xs → a ∉ xs → valid_ptr a → alive h (Some a) →
  ∃ l' h', linkAtTail a (l, h) = Ok (l', h') ∧ dlist_rep h' l' (xs ++ [a]) ∧ frame (a :: xs) h h'.
Proof.
  intros Hrep Ha Hv Hal. unfold linkAtTail.
  rewrite bool_decide_eq_true_2 by by eapply rep_not_tail. res_simpl.
  pose proof (links_refl h) as Hl. pose proof (rep_tail _ _ _ Hrep) as Ht.
  rewrite <- prev_at_length in Ht. rewrite !Ht.
  assert (xs !! length xs = None) as Hend by by apply lookup_ge_None.
  hook (step_setNext Hl (Some a) None) with Hl as k1 Hl1.
  hook (step_setPrev Hl1 (Some a) (prev_at xs (length xs))) with Hl1 as k2 Hl2.
  hook (step_setNext Hl2 (prev_at xs (length xs)) (Some a)) with Hl2 as k3 Hl3.
  do 2 eexists. split; [done|]. rewrite <- insert_at_end.
  eapply (rep_insert _ _ _ (length xs)); try done; rewrite ?Hend.
  - eapply links_ext; [apply Hl3| |done]. intros b. apply upd_comm.
    intros c Hc [= <-]. destruct (length xs); [done|]. by eapply Ha, list_elem_of_lookup_2.
  - rewrite insert_at_end. cbn. rewrite (rep_head _ _ _ Hrep). by destruct xs.
  - rewrite insert_at_end, last_snoc. done.
  - cbn. by eapply rep_size_succ.
Qed.

Lemma insertBefore_aux h l xs i a nxt : dlist_rep h l xs → a ∉ xs → valid_ptr a →
  getNext h a = Ok None → getPrev h a = Ok None → xs !! i = Some nxt →
  ∃ l' h', insertBefore nxt a (l, h) = Ok (l', h') ∧ dlist_rep h' l' (insert_at i a xs) ∧
    frame (a :: xs) h h'.
Proof.
  intros Hrep Ha Hv Hna Hpa Hi. pose proof (getNext_alive _ _ _ Hna) as Hal.
  pose proof (lookup_lt_Some _ _ _ Hi) as Hlt.
  assert (∀ j, xs !! j ≠ Some a) as Hnl by (intros j Hj; by eapply Ha, list_elem_of_lookup_2).
  assert (prev_at xs i ≠ Some a) as Hnp by (destruct i; [done|apply Hnl]).
  destruct (rep_links _ _ _ Hrep i nxt Hi) as (Hvn & _ & Hpn). unfold insertBefore.
  destruct (Z.eqb_spec nxt a) as [->|Hne]; [by destruct (Hnl i)|].
  res_simpl. rewrite Hna. res_simpl. rewrite Hpa. res_simpl. rewrite Hpn. res_simpl.
  rewrite (bool_decide_eq_true_2 (_ ≠ _)) by done. res_simpl.
  pose proof (links_refl h) as Hl.
  assert (alive h (Some nxt)) by (rewrite <- Hi; eauto with dlist).
  hook (step_setPrev Hl (Some a) (prev_at xs i)) with Hl as k1 Hl1.
  hook (step_setNext Hl1 (prev_at xs i) (Some a)) with Hl1 as k2 Hl2.
  hook (step_setPrev Hl2 (Some nxt) (Some a)) with Hl2 as k3 Hl3.
  hook (step_setNext Hl3 (Some a) (Some nxt)) with Hl3 as k4 Hl4.
  do 2 eexists. split; [done|]. eapply (rep_insert _ _ _ i); try done; [lia|..]; rewrite ?Hi.
  - eapply links_ext; [apply Hl4|done|]. intros b. apply upd_comm. congruence.
  - cbn. rewrite (rep_head _ _ _ Hrep). destruct i; [done|]. cbn.
    destruct (lookup_lt_is_Some_2 xs i) as [c Hc]; [lia|]. rewrite Hc.
    by rewrite insert_at_lookup_lt by lia.
  - rewrite last_insert_at by done. apply Hrep.
  - cbn. by eapply rep_size_succ.
Qed.

Lemma unlink_aux h l xs i a : dlist_rep h l xs → xs !! i = Some a →
  ∃ l' h', unlink a (l, h) = Ok (l', h') ∧ dlist_rep h' l' (delete i xs) ∧ frame (delete i xs) h h'.
Proof.
  intros Hrep Hi. pose proof (lookup_lt_Some _ _ _ Hi) as Hlt. pose proof (rep_length Hrep) as Hlen.
  destruct (rep_links _ _ _ Hrep i a Hi) as (Hva & Hna & Hpa). unfold unlink.
  rewrite (rep_size _ _ _ Hrep), (proj2 (Z.ltb_lt _ _)) by lia. res_simpl.
  rewrite Hpa. res_simpl. rewrite Hna. res_simpl.
  pose proof (links_refl h) as Hl. pose proof (getNext_alive _ _ _ Hna).
  hook (step_setNextFrom Hl (prev_at xs i) a) with Hl as k1 Hl1.
  hook (step_setPrevFrom Hl1 (xs !! S i) a) with Hl1 as k2 Hl2.
  rewrite Hna, Hpa in Hl2. do 2 eexists. split; [done|].
  eapply (rep_delete _ _ _ i); try done; cbn.
  - rewrite (head_delete _ _ _ Hi), (decide_ext _ (i = 0%nat)) by by eapply rep_head_iff.
    rewrite (rep_head _ _ _ Hrep). by case_decide; subst.
  - rewrite (last_delete _ _ _ Hi), (decide_ext _ (S i = length xs)) by by eapply rep_tail_iff.
    by rewrite (rep_tail _ _ _ Hrep).
  - apply wrap_small. unfold fits. lia.
Qed.

(** The whole removal: the neighbours are linked to each other and the
    node's own hook is cleared. *)
Lemma remove_aux h l xs i a : dlist_rep h l xs → xs !! i = Some a →
  ∃ l' h', remove a (l, h) = Ok (l', h') ∧ dlist_rep h' l' (delete i xs) ∧ frame xs h h' ∧
    getNext h' a = Ok None ∧ getPrev h' a = Ok None.
Proof.
  intros Hrep Hi. destruct (unlink_aux _ _ _ _ _ Hrep Hi) as (l1 & h1 & Heq & Hrep1 & Hfr).
  unfold remove. rewrite Heq. res_simpl.
  assert (alive h1 (Some a)).
  { eapply frame_alive; [done|]. rewrite <- Hi. by apply (rep_alive_lookup Hrep). }
  pose proof (links_refl h1) as Hl.
  hook (step_setNext Hl (Some a) None) with Hl as k1 Hl1.
  hook (step_setPrev Hl1 (Some a) None) with Hl1 as k2 Hl2.
  do 2 eexists. split; [done|]. destruct Hl2 as (Hn & Hp & Hpl).
  assert (∀ b, a ≠ b → getNext k2 b = getNext h1 b ∧ getPrev k2 b = getPrev h1 b) as Hother.
  { intros b Hb. rewrite Hn, Hp, !upd_ne by congruence. done. }
  split_and!.
  - eapply rep_frame; [done|]. intros b Hb. apply Hother. intros ->.
    by eapply delete_not_elem; [apply Hrep|..].
  - eapply (frame_trans _ xs); [done|split; [done|]|intros b; apply delete_elem|done].
    intros b Hb. apply Hother. intros ->. by eapply Hb, list_elem_of_lookup_2.
  - by rewrite Hn, upd_eq.
  - by rewrite Hp, upd_eq.
Qed.

Lemma replace_aux h l xs i a c : dlist_rep h l xs → xs !! i = Some a → c ∉ xs → valid_ptr c →
  alive h (Some c) →
  ∃ l' h', replace a c (l, h) = Ok (l', h') ∧ dlist_rep h' l' (<[i := c]> xs) ∧
    frame (c :: xs) h h' ∧ getNext h' a = Ok None ∧ getPrev h' a = Ok None.
Proof.
  intros Hrep Hi Hc Hvc Hal. destruct (rep_links _ _ _ Hrep i a Hi) as (Hva & Hna & Hpa).
  assert (Some c ≠ Some a) by (intros [= <-]; by eapply Hc, list_elem_of_lookup_2).
  unfold replace. rewrite Hpa. res_simpl. rewrite Hna. res_simpl.
  pose proof (links_refl h) as Hl. pose proof (getNext_alive _ _ _ Hna).
  hook (step_setNext Hl (prev_at xs i) (Some c)) with Hl as k1 Hl1.
  hook (step_setPrev Hl1 (xs !! S i) (Some c)) with Hl1 as k2 Hl2.
  hook (step_setPrev Hl2 (Some c) (prev_at xs i)) with Hl2 as k3 Hl3.
  hook (step_setNext Hl3 (Some c) (xs !! S i)) with Hl3 as k4 Hl4.
  hook (step_setPrev Hl4 (Some a) None) with Hl4 as k5 Hl5.
  hook (step_setNext Hl5 (Some a) None) with Hl5 as k6 Hl6.
  do 2 eexists. split; [done|]. apply and_assoc. split.
  - eapply (rep_replace _ _ _ i a c); try done; cbn.
    + rewrite (head_insert _ _ _ _ Hi), (decide_ext _ (i = 0%nat)) by by eapply rep_head_iff.
      by rewrite (rep_head _ _ _ Hrep).
    + rewrite (last_insert _ _ _ _ Hi), (decide_ext _ (S i = length xs)) by by eapply rep_tail_iff.
      by rewrite (rep_tail _ _ _ Hrep).
  - destruct Hl6 as (Hn & Hp & _). rewrite Hn, Hp, !upd_eq. done.
Qed.

Lemma moveToHead_aux h l xs i a : dlist_rep h l xs → xs !! i = Some a →
  ∃ l' h', moveToHead a (l, h) = Ok (l', h') ∧ dlist_rep h' l' (a :: delete i xs) ∧ frame xs h h'.
Proof.
  intros Hrep Hi. unfold moveToHead. cbn [fst]. case_decide as Hd.
  - apply (rep_head_iff _ _ _ _ _ Hrep Hi) in Hd as ->. do 2 eexists. split; [done|].
    destruct xs as [|x xs]; [done|]. cbn in *. by simplify_eq.
  - destruct (unlink_aux _ _ _ _ _ Hrep Hi) as (l1 & h1 & Heq & Hrep1 & Hfr). rewrite Heq. res_simpl.
    destruct (linkAtHead_aux h1 l1 (delete i xs) a Hrep1) as (l2 & h2 & Heq2 & Hrep2 & Hfr2).
    + by eapply delete_not_elem; [apply Hrep|].
    + by apply (rep_links _ _ _ Hrep i a).
    + eapply frame_alive; [done|]. rewrite <- Hi. by apply (rep_alive_lookup Hrep).
    + exists l2, h2. split; [done|]. split; [done|].
      eapply frame_trans; [done..|intros b; apply delete_elem|].
      intros b [->|Hb]%elem_of_cons; [by eapply list_elem_of_lookup_2|by eapply delete_elem].
Qed.
End specs.

(** ** Refinement of the sequence operations *)

(** The position of a node in a sequence. *)
Definition index_of (a : Z) (xs : list Z) : option nat := fst <$> list_find (a =.) xs.

Lemma index_of_Some a xs i : index_of a xs = Some i → xs !! i = Some a.
Proof.
  unfold index_of. intros ([j b] & Hf & ->)%fmap_Some. by apply list_find_Some in Hf as (? & -> & _).
Qed.
Lemma index_of_elem a xs : a ∈ xs → ∃ i, index_of a xs = Some i ∧ xs !! i = Some a.
Proof.
  intros Ha. destruct (index_of a xs) as [i|] eqn:Hi; [eauto using index_of_Some|].
  apply fmap_None, list_find_None in Hi. rewrite Forall_forall in Hi. by destruct (Hi a Ha).
Qed.

Inductive dlist_op :=
  | OLinkAtHead (node : Z)
  | OLinkAtTail (node : Z)
  | OInsertBefore (nextNode node : Z)
  | ORemove (node : Z)
  | OReplace (oldNode newNode : Z)
  | OMoveToHead (node : Z).

(** What each operation means for the sequence; [None] is a call the
    operation does not accept. *)
Definition seq_op (op : dlist_op) (xs : list Z) : option (list Z) :=
  match op with
  | OLinkAtHead a => if decide (a ∈ xs) then None else Some (a :: xs)
  | OLinkAtTail a => if decide (a ∈ xs) then None else Some (xs ++ [a])
  | OInsertBefore n a =>
      if decide (a ∈ xs) then None else i ← index_of n xs; Some (insert_at i a xs)
  | ORemove a => i ← index_of a xs; Some (delete i xs)
  | OReplace a c => if decide (c ∈ xs) then None else i ← index_of a xs; Some (<[i := c]> xs)
  | OMoveToHead a => i ← index_of a xs; Some (a :: delete i xs)
  end.

(** The node an operation brings into the list. *)
Definition op_new (op : dlist_op) : option Z :=
  match op with
  | OLinkAtHead a | OLinkAtTail a | OInsertBefore _ a | OReplace _ a => Some a
  | ORemove _ | OMoveToHead _ => None
  end.
(** The node an operation takes out of the list. *)
Definition op_old (op : dlist_op) : option Z :=
  match op with ORemove a | OReplace a _ => Some a | _ => None end.

Section refinement.
Context `{PtrCompressor}.
Implicit Types (h : Store) (l : DList) (xs : list Z).

Definition run_dlist_op (op : dlist_op) : DList * Store → result (DList * Store) :=
  match op with
  | OLinkAtHead a => linkAtHead a
  | OLinkAtTail a => linkAtTail a
  | OInsertBefore n a => insertBefore n a
  | ORemove a => remove a
  | OReplace a c => replace a c
  | OMoveToHead a => moveToHead a
  end.

(** A node outside every list: allocated, compressible, with a cleared hook. *)
Definition detached h (p : option Z) : Prop :=
  ∀ a, p = Some a → valid_ptr a ∧ getNext h a = Ok None ∧ getPrev h a = Ok None.

Lemma dlist_op_aux h l xs op xs' : dlist_rep h l xs → detached h (op_new op) →
  seq_op op xs = Some xs' →
  ∃ l' h', run_dlist_op op (l, h) = Ok (l', h') ∧ dlist_rep h' l' xs' ∧
    frame (xs ++ xs') h h' ∧
    ∀ a, op_old op = Some a → getNext h' a = Ok None ∧ getPrev h' a = Ok None.
Proof.
  intros Hrep Hnew Hop.
  assert (∀ a, op_new op = Some a → valid_ptr a ∧ alive h (Some a)) as Hn.
  { intros a (? & ? & ?)%Hnew. split; [done|by eapply getNext_alive]. }
  destruct op as [a|a|n a|a|a c|a]; cbn in *;
    try (case_decide as Hin; [done|]);
    try (apply bind_Some in Hop as (i & Hi%index_of_Some & Hop));
    try (destruct (Hn _ eq_refl) as [Hv Hal]); injection Hop as <-.
  - destruct (linkAtHead_aux h l xs a) as (l' & h' & ? & ? & Hf); try done. exists l', h'.
    split_and!; try done. eapply frame_weaken; [done|]. set_solver.
  - destruct (linkAtTail_aux h l xs a) as (l' & h' & ? & ? & Hf); try done. exists l', h'.
    split_and!; try done. eapply frame_weaken; [done|]. set_solver.
  - destruct (Hnew a eq_refl) as (_ & ? & ?).
    destruct (insertBefore_aux h l xs i a n) as (l' & h' & ? & ? & Hf); try done. exists l', h'.
    split_and!; try done. eapply frame_weaken; [done|]. intros b. rewrite elem_of_app, insert_at_perm.
    set_solver.
  - destruct (remove_aux h l xs i a) as (l' & h' & ? & ? & Hf & ? & ?); try done. exists l', h'.
    split_and!; try done; [|naive_solver]. eapply frame_weaken; [done|]. set_solver.
  - destruct (replace_aux h l xs i a c) as (l' & h' & ? & ? & Hf & ? & ?); try done. exists l', h'.
    split_and!; try done; [|naive_solver]. eapply frame_weaken; [done|]. intros b.
    rewrite elem_of_app, elem_of_cons. intros [->|]; [right|by left].
    by apply list_elem_of_insert, (lookup_lt_Some _ _ _ Hi).
  - destruct (moveToHead_aux h l xs i a) as (l' & h' & ? & ? & Hf); try done. exists l', h'.
    split_and!; try done. eapply frame_weaken; [done|]. set_solver.
Qed.

(** Iterating from position [i] visits the rest of the sequence. *)
Lemma iter_from h l xs i fuel : dlist_rep h l xs → (length xs ≤ i + fuel)%nat →
  iter_collect fuel h (mkIterator (xs !! i) FROM_HEAD) = Ok (drop i xs).
Proof.
  intros Hrep. revert i. induction fuel as [|fuel IH]; intros i Hf; cbn.
  - rewrite lookup_ge_None_2, drop_ge by lia. done.
  - destruct (xs !! i) as [a|] eqn:Hi; [|by rewrite drop_ge by by apply lookup_ge_None].
    destruct (rep_links _ _ _ Hrep i a Hi) as (_ & Hn & _).
    unfold iter_incr, goForward. cbn. rewrite Hn. cbn. rewrite IH by lia. cbn.
    by rewrite (drop_S xs a i).
Qed.
Lemma iter_back h l xs i fuel : dlist_rep h l xs → (i ≤ fuel)%nat → (i ≤ length xs)%nat →
  iter_collect fuel h (mkIterator (prev_at xs i) FROM_TAIL) = Ok (reverse (take i xs)).
Proof.
  intros Hrep. revert i. induction fuel as [|fuel IH]; intros i Hf Hle; destruct i as [|i]; try done; [lia|].
  cbn. destruct (lookup_lt_is_Some_2 xs i) as [a Hi]; [lia|]. rewrite Hi.
  destruct (rep_links _ _ _ Hrep i a Hi) as (_ & _ & Hp).
  unfold iter_incr, goForward. cbn. rewrite Hp. cbn. rewrite IH by lia. cbn.
  by rewrite (take_S_r xs i a Hi), reverse_app.
Qed.

(** C9: every list operation of [DList] ([linkAtHead], [linkAtTail],
    [insertBefore], [remove], [replace], [moveToHead]) refines the
    operation on the sequence of nodes: called on a list that represents
    [xs], with a detached node where it brings one in, it returns normally
    with a list that represents the new sequence; no payload changes, no
    hook outside the two sequences is written, and a node taken out has
    both links cleared. *)
Theorem dlist_op_refines h l xs op xs' : dlist_rep h l xs → detached h (op_new op) →
  seq_op op xs = Some xs' →
  ∃ l' h', run_dlist_op op (l, h) = Ok (l', h') ∧ dlist_rep h' l' xs' ∧ frame (xs ++ xs') h h' ∧
    ∀ a, op_old op = Some a → getNext h' a = Ok None ∧ getPrev h' a = Ok None.
Proof. apply dlist_op_aux. Qed.

(** Iterating a list that represents [xs] with [operator++] terminates
    after [size_] steps: from [begin()] it visits [xs] from head to tail,
    from [rbegin()] it visits it from tail to head. *)
Theorem dlist_iteration h l xs : dlist_rep h l xs →
  iter_collect (Z.to_nat (size_ l)) h (begin l) = Ok xs ∧
  iter_collect (Z.to_nat (size_ l)) h (rbegin l) = Ok (reverse xs).
Proof.
  intros Hrep. unfold begin, rbegin.
  rewrite (rep_size _ _ _ Hrep), (rep_head _ _ _ Hrep), (rep_tail _ _ _ Hrep), Nat2Z.id. split.
  - by rewrite (iter_from _ _ _ 0 _ Hrep) by lia.
  - rewrite <- prev_at_length, (iter_back _ _ _ _ _ Hrep) by lia. by rewrite firstn_all.
Qed.

(** Saving a list to its serialized object and restoring it over the
    same store yields the same list header, hence the same sequence. *)
Theorem dlist_saveState_restore h l xs : dlist_rep h l xs →
  ∃ o, saveState l = Ok o ∧ DList_restore o = Ok l.
Proof.
  intros Hrep. destruct l as [hd tl sz]. pose proof (rep_length Hrep) as Hlen.
  pose proof (rep_size _ _ _ Hrep) as Hsz. cbn in *.
  assert (vptr hd) as (c1 & Hc1 & Hf1 & Hu1)%vptr_roundtrip.
  { pose proof (rep_head _ _ _ Hrep) as Hh. cbn in Hh. rewrite Hh. by apply (rep_valid_lookup Hrep). }
  assert (vptr tl) as (c2 & Hc2 & Hf2 & Hu2)%vptr_roundtrip.
  { pose proof (rep_tail _ _ _ Hrep) as Ht. cbn in Ht. rewrite Ht, <- prev_at_length.
    by apply (rep_valid_prev Hrep). }
  unfold saveState, DList_restore. cbn. rewrite Hc1. cbn. rewrite Hc2. cbn. eexists; split; [done|].
  cbn. rewrite !(wrap_small 32) by done. rewrite Hu1. cbn. rewrite Hu2. cbn. rewrite wrap_swrap; [done|lia|].
  unfold fits. lia.
Qed.
End refinement.

(** ** A concrete list

    Three 1 KiB allocations of the example slab allocator, the first two
    linked. *)
#[local] Instance example_compressor : PtrCompressor := slab_PtrCompressor sa_example2 sa_example2_wf.

Definition ex_node (k : Z) : Z := 5 * kSize + k * 1024.
Definition ex_c (p : option Z) : Z := match pc_compress p with Ok c => c | _ => 0 end.
Definition ex_store : Store :=
  list_to_map [(ex_node 0, mkNode (ex_c (Some (ex_node 1))) (ex_c None) 100 0);
               (ex_node 1, mkNode (ex_c None) (ex_c (Some (ex_node 0))) 90 0);
               (ex_node 2, mkNode (ex_c None) (ex_c None) 0 0)].
Definition ex_list : DList := mkDList (Some (ex_node 0)) (Some (ex_node 1)) 2.

Lemma ex_valid k : 0 ≤ k < 4096 → valid_ptr (ex_node k).
Proof.
  intros Hk. exists (5 * kSize), k. unfold alloc_at, ex_node.
  change (allocSize _) with 1024. split; [by vm_compute|]. split; [by vm_compute|].
  change kSize with (4096 * 1024). lia.
Qed.

Lemma ex_rep : dlist_rep ex_store ex_list [ex_node 0; ex_node 1].
Proof.
  split; [by apply (bool_decide_unpack _); vm_compute|done..|].
  intros [|[|i]] a; cbn; intros [= <-]; (split; [apply ex_valid; lia|by vm_compute]).
Qed.

Lemma ex_detached : detached ex_store (Some (ex_node 2)).
Proof. intros a [= <-]. split; [apply ex_valid; lia|by vm_compute]. Qed.

Lemma dlist_op_refines_witness : ∃ l' h',
  run_dlist_op (OInsertBefore (ex_node 1) (ex_node 2)) (ex_list, ex_store) = Ok (l', h') ∧
  dlist_rep h' l' [ex_node 0; ex_node 2; ex_node 1] ∧
  frame ([ex_node 0; ex_node 1] ++ [ex_node 0; ex_node 2; ex_node 1]) ex_store h' ∧
  ∀ a, op_old (OInsertBefore (ex_node 1) (ex_node 2)) = Some a →
    getNext h' a = Ok None ∧ getPrev h' a = Ok None.
Proof.
  apply (dlist_op_refines _ _ _ (OInsertBefore (ex_node 1) (ex_node 2)) _ ex_rep ex_detached).
  by vm_compute.
Defined.

Lemma dlist_iteration_witness :
  iter_collect 2 ex_store (begin ex_list) = Ok [ex_node 0; ex_node 1] ∧
  iter_collect 2 ex_store (rbegin ex_list) = Ok [ex_node 1; ex_node 0].
Proof. apply (dlist_iteration _ _ _ ex_rep). Defined.

Lemma dlist_saveState_restore_witness : ∃ o, saveState ex_list = Ok o ∧ DList_restore o = Ok ex_list.
Proof. apply (dlist_saveState_restore _ _ _ ex_rep). Defined.
