(* ===== verification/Doubles.v ===== *)
(** [double] as IEEE binary64 on [spec_float]: the conversions and operations the
    containers and the sketch use, with bounds on their rounding. *)
From Stdlib Require Import Floats.SpecFloat.
From S2P Require Import Prelude.

(** ** Operations *)
Definition double_of_u64 (z : Z) : spec_float := binary_normalize 53 1024 z 0 false.
Definition double_mul (x y : spec_float) : spec_float := SFmul 53 1024 x y.
Definition double_div (x y : spec_float) : spec_float := SFdiv 53 1024 x y.
(** [static_cast] to a [w]-bit unsigned type: truncation, undefined out of range. *)
Definition double_to_uint (w : Z) (x : spec_float) : result Z :=
  match x with
  | S754_zero _ => Ok 0
  | S754_finite s m e =>
      let t := if 0 <=? e then Z.pos m * 2 ^ e else Z.pos m / 2 ^ (- e) in
      let v := if s then - t else t in
      if (0 <=? v) && (v <=? uint_max w) then Ok v else Undef
  | _ => Undef
  end.
Definition double_to_u32 : spec_float → result Z := double_to_uint 32.

(** Converting an age scaled by the ratio back to an integer is defined. *)
Definition scale_ok (ratio : spec_float) : Prop := ∀ age, fits 32 age →
  ∃ r, double_to_u32 (double_mul (double_of_u64 age) ratio) = Ok r.

(** *** The default ratio

    A conversion of an age to [double] is exact, so the default ratio [0.]
    never leads to an undefined conversion. *)
Lemma digits2_shift m d : Z.pos (digits2_pos (Pos.iter xO m d)) = Z.pos (digits2_pos m) + Z.pos d.
Proof.
  induction d as [|d IH] using Pos.peano_ind; [cbn; lia|].
  rewrite Pos.iter_succ. cbn [digits2_pos]. lia.
Qed.
Lemma digits2_bound m : 2 ^ (Z.pos (digits2_pos m) - 1) ≤ Z.pos m.
Proof.
  induction m as [m IH|m IH|]; cbn [digits2_pos]; [..|done];
    rewrite Pos2Z.inj_succ; replace (Z.succ _ - 1) with (Z.succ (Z.pos (digits2_pos m) - 1)) by lia;
    rewrite Z.pow_succ_r by lia; lia.
Qed.

Lemma shr_fexp_aligned m e : Z.pos (digits2_pos m) = 53 → -1074 ≤ e →
  shr_fexp 53 1024 (Z.pos m) e loc_Exact = (Build_shr_record (Z.pos m) false false, e).
Proof.
  intros Hd He. unfold shr_fexp, fexp, emin, Zdigits2. rewrite Hd.
  replace (Z.max (53 + e - 53) (3 - 1024 - 53) - e) with 0 by lia. done.
Qed.

Lemma iter_xO m d : Z.pos (Pos.iter xO m d) = Z.pos m * 2 ^ Z.pos d.
Proof.
  induction d as [|d IH] using Pos.peano_ind; [cbn; lia|].
  rewrite Pos.iter_succ, Pos2Z.inj_xO, IH, Pos2Z.inj_succ, Z.pow_succ_r by lia. lia.
Qed.

Lemma double_of_u64_exact t : 0 < t < 2 ^ 53 →
  ∃ m e, double_of_u64 t = S754_finite false m e ∧ Z.pos (digits2_pos m) = 53 ∧ -52 ≤ e ≤ 0 ∧ Z.pos m = t * 2 ^ (- e).
Proof.
  intros Ht. destruct t as [|m|m]; [lia| |lia]. pose proof (digits2_bound m) as Hb.
  assert (Z.pos (digits2_pos m) ≤ 53) as Hd.
  { destruct (Z.le_gt_cases (Z.pos (digits2_pos m)) 53) as [|Hgt]; [done|].
    assert (2 ^ 53 ≤ 2 ^ (Z.pos (digits2_pos m) - 1)) by (apply Z.pow_le_mono_r; lia). lia. }
  unfold double_of_u64. cbn [binary_normalize]. unfold binary_round, shl_align, fexp, emin.
  rewrite Z.max_l, Z.add_0_r by lia.
  assert (∃ mz ez, match Z.pos (digits2_pos m) - 53 - 0 with
      | Z.neg d => (Pos.iter xO m d, Z.pos (digits2_pos m) - 53) | _ => (m, 0) end = (mz, ez) ∧
      Z.pos (digits2_pos mz) = 53 ∧ -52 ≤ ez ≤ 0 ∧ Z.pos mz = Z.pos m * 2 ^ (- ez)) as (mz & ez & -> & Hdz & Hez & Hmz).
  { destruct (Z.pos (digits2_pos m) - 53 - 0) as [|d|d] eqn:E; [|lia|].
    - exists m, 0. split_and!; [done|lia..].
    - do 2 eexists. split; [done|]. rewrite digits2_shift, iter_xO. split; [lia|]. split; [lia|]. do 2 f_equal. lia. }
  unfold binary_round_aux. rewrite shr_fexp_aligned by lia. cbn [shr_m loc_of_shr_record round_nearest_even].
  rewrite shr_fexp_aligned by lia. cbn [shr_m]. rewrite (proj2 (Z.leb_le ez _)) by lia. eauto 6.
Qed.

Lemma scale_zero_ok s : scale_ok (S754_zero s).
Proof.
  intros t Ht. exists 0. unfold fits in Ht. destruct (decide (t = 0)) as [->|Hne]; [done|].
  destruct (double_of_u64_exact t) as (m & e & -> & _); [lia|]. done.
Qed.

(** ** Rounding

    Rounding a positive number with at least 53 digits gives a normal number
    that is at most one unit in the last place larger. *)
Lemma digits2_upper m : Z.pos m < 2 ^ Z.pos (digits2_pos m).
Proof.
  induction m as [m IH|m IH|]; cbn [digits2_pos]; [..|done]; rewrite Pos2Z.inj_succ, Z.pow_succ_r by lia; lia.
Qed.
Lemma digits2_range m n : 0 ≤ n → 2 ^ n ≤ m → m < 2 ^ (n + 1) → Zdigits2 m = n + 1.
Proof.
  intros Hn Hlo Hhi. assert (0 < 2 ^ n) by lia. destruct m as [|p|p]; [lia| |lia]. cbn [Zdigits2].
  pose proof (digits2_upper p). pose proof (digits2_bound p).
  assert (n < Z.pos (digits2_pos p)) by (apply (Z.pow_lt_mono_r_iff 2); lia).
  assert (Z.pos (digits2_pos p) - 1 < n + 1) by (apply (Z.pow_lt_mono_r_iff 2); lia). lia.
Qed.
Lemma digits2_pos_range m : 0 < m → 0 < Zdigits2 m ∧ 2 ^ (Zdigits2 m - 1) ≤ m < 2 ^ Zdigits2 m.
Proof. destruct m as [|p|p]; [lia| |lia]. intros _. cbn [Zdigits2]. pose proof (digits2_bound p). pose proof (digits2_upper p). lia. Qed.

Lemma shr_1_m r : 0 ≤ shr_m r → shr_m (shr_1 r) = shr_m r / 2.
Proof. rewrite <- Z.div2_div. by destruct r as [[|[]|] ? ?]. Qed.
Lemma shr_iter_m p r : 0 ≤ shr_m r → shr_m (SpecFloat.iter_pos shr_1 p r) = shr_m r / 2 ^ Z.pos p.
Proof.
  revert r. induction p as [p IH|p IH|]; intros r Hr; cbn [SpecFloat.iter_pos].
  - assert (0 ≤ shr_m (shr_1 r)) as H1 by (rewrite shr_1_m by done; by apply Z.div_pos).
    assert (0 ≤ shr_m (SpecFloat.iter_pos shr_1 p (shr_1 r))) as H2 by (rewrite IH by done; by apply Z.div_pos; lia).
    rewrite !IH, shr_1_m by done. rewrite !Zdiv_Zdiv by lia. f_equal.
    replace (Z.pos p~1) with (1 + (Z.pos p + Z.pos p)) by lia. rewrite !Z.pow_add_r by lia. lia.
  - assert (0 ≤ shr_m (SpecFloat.iter_pos shr_1 p r)) as H2 by (rewrite IH by done; by apply Z.div_pos; lia).
    rewrite !IH by done. rewrite !Zdiv_Zdiv by lia. f_equal.
    replace (Z.pos p~0) with (Z.pos p + Z.pos p) by lia. by rewrite Z.pow_add_r by lia.
  - rewrite shr_1_m by done. done.
Qed.
Lemma shr_m_eq r e n : 0 ≤ shr_m r → 0 ≤ n → shr_m (shr r e n).1 = shr_m r / 2 ^ n ∧ (shr r e n).2 = e + n.
Proof. destruct n as [|p|p]; intros Hr Hn; [cbn; rewrite Z.div_1_r; lia| |lia]. cbn [shr fst snd]. by rewrite shr_iter_m. Qed.
Lemma shr_record_m m l : shr_m (shr_record_of_loc m l) = m.
Proof. by destruct l as [|[]]. Qed.
Lemma round_even_le m l : m ≤ round_nearest_even m l ≤ m + 1.
Proof. destruct l as [|[]]; cbn; try destruct (Z.even m); lia. Qed.

Lemma shr_fexp_norm m e l : 2 ^ 52 ≤ m → -1000 ≤ e →
  let n := Zdigits2 m - 53 in
  0 ≤ n ∧ shr_m (shr_fexp 53 1024 m e l).1 = m / 2 ^ n ∧ (shr_fexp 53 1024 m e l).2 = e + n ∧
  2 ^ 52 ≤ m / 2 ^ n < 2 ^ 53.
Proof.
  intros Hm He n. destruct (digits2_pos_range m) as (Hd & Hlo & Hhi); [lia|].
  assert (52 < Zdigits2 m) as H52 by (apply (Z.pow_lt_mono_r_iff 2); lia).
  unfold shr_fexp, fexp, emin. rewrite Z.max_l by lia. replace (Zdigits2 m + e - 53 - e) with n by lia.
  destruct (shr_m_eq (shr_record_of_loc m l) e n) as [H1 H2]; [rewrite shr_record_m; lia|lia|].
  rewrite shr_record_m in H1. split; [lia|]. split; [done|]. split; [done|]. assert (0 < 2 ^ n) by (apply Z.pow_pos_nonneg; lia).
  split; [apply Z.div_le_lower_bound; [done|]|apply Z.div_lt_upper_bound; [done|]];
    rewrite <- Z.pow_add_r by lia; [replace (n + 52) with (Zdigits2 m - 1) by lia|replace (n + 53) with (Zdigits2 m) by lia]; done.
Qed.

Lemma round_bound m e l : 2 ^ 52 ≤ m → m < 2 ^ 200 → -1000 ≤ e ≤ 700 →
  ∃ m' e', binary_round_aux 53 1024 false m e l = S754_finite false m' e' ∧ e ≤ e' ≤ e + 150 ∧
    2 ^ 52 ≤ Z.pos m' < 2 ^ 53 ∧ 8 * (Z.pos m' * 2 ^ (e' - e)) ≤ 9 * m.
Proof.
  intros Hm Hup He. unfold binary_round_aux.
  destruct (shr_fexp_norm m e l Hm) as (Hn & H1 & H2 & H3); [lia|]. set (n := Zdigits2 m - 53) in *.
  destruct (shr_fexp 53 1024 m e l) as [r1 e1]. cbn [fst snd] in *. subst e1.
  destruct (digits2_pos_range m) as (_ & Hlo & _); [lia|].
  assert (Zdigits2 m - 1 < 200) as Hd200 by (apply (Z.pow_lt_mono_r_iff 2); lia).
  pose proof (round_even_le (shr_m r1) (loc_of_shr_record r1)) as Hr. set (m1 := round_nearest_even _ _) in *.
  rewrite H1 in Hr. destruct (shr_fexp_norm m1 (e + n) loc_Exact) as (Hn2 & H4 & H5 & H6); [lia..|].
  set (n2 := Zdigits2 m1 - 53) in *. destruct (shr_fexp 53 1024 m1 (e + n) loc_Exact) as [r2 e2]. cbn [fst snd] in *. subst e2.
  destruct (digits2_pos_range m1) as (_ & Hlo1 & _); [lia|].
  assert (Zdigits2 m1 - 1 < 54) as Hd54 by (apply (Z.pow_lt_mono_r_iff 2); lia).
  destruct (shr_m r2) as [|m2|m2] eqn:E2; [lia| |lia]. rewrite (proj2 (Z.leb_le _ _)) by lia.
  exists m2, (e + n + n2). split; [done|]. split; [lia|]. split; [lia|].
  replace (e + n + n2 - e) with (n2 + n) by lia. rewrite Z.pow_add_r by lia.
  pose proof (Z.mul_div_le m (2 ^ n) ltac:(lia)). pose proof (Z.mul_div_le m1 (2 ^ n2) ltac:(lia)).
  rewrite H4. set (x := m / 2 ^ n) in *. set (y := m1 / 2 ^ n2) in *.
  assert (y * 2 ^ n2 ≤ x + 1) by lia. assert (0 < 2 ^ n) by lia.
  assert (8 * (x + 1) ≤ 9 * x) by lia. nia.
Qed.

(** A quotient of normal numbers. *)
Lemma div_core m1 e1 m2 e2 : 2 ^ 52 ≤ m1 < 2 ^ 53 → 2 ^ 52 ≤ m2 < 2 ^ 53 → -400 ≤ e1 - e2 ≤ 400 →
  ∃ q e l, SFdiv_core_binary 53 1024 m1 e1 m2 e2 = (q, e, l) ∧ 2 ^ 52 ≤ q < 2 ^ 54 ∧
    e = e1 - e2 - 53 ∧ q * m2 ≤ m1 * 2 ^ (e1 - e2 - e).
Proof.
  intros H1 H2 He. unfold SFdiv_core_binary, fexp, emin. rewrite (digits2_range m1 52), (digits2_range m2 52) by lia.
  rewrite Z.max_l, Z.min_l by lia. replace (e1 - e2 - _) with 53 by lia. rewrite Z.shiftl_mul_pow2 by lia.
  destruct (Z.div_eucl (m1 * 2 ^ 53) m2) as [q r] eqn:E.
  assert (q = m1 * 2 ^ 53 / m2) as Hq by (unfold Z.div; by rewrite E).
  do 3 eexists. split; [done|]. replace (e1 - e2 - (52 + 1 + e1 - (52 + 1 + e2) - 53)) with 53 by lia.
  pose proof (Z.mul_div_le (m1 * 2 ^ 53) m2 ltac:(lia)) as Hle.
  split; [|rewrite Hq; lia]. rewrite Hq. split; [apply Z.div_le_lower_bound; lia|apply Z.div_lt_upper_bound; lia].
Qed.

(** [e * t / 5] in double precision, truncated, is at most [t]. *)
Definition exp_1 : spec_float := S754_finite false 6121026514868073 (-51).
Lemma scaled_le t : 0 < t < 2 ^ 53 →
  ∃ n, double_to_uint 64 (double_div (double_mul exp_1 (double_of_u64 t)) (double_of_u64 5)) = Ok n ∧ 0 ≤ n ≤ t.
Proof.
  intros Ht. destruct (double_of_u64_exact t Ht) as (mz & ez & -> & Hd & Hez & Hmz).
  pose proof (digits2_bound mz) as Hlo. pose proof (digits2_upper mz) as Hhi. rewrite Hd in Hlo, Hhi.
  change (double_of_u64 5) with (S754_finite false 5629499534213120 (-50)). unfold double_mul, exp_1. cbn [SFmul xorb].
  rewrite Pos2Z.inj_mul. destruct (round_bound (6121026514868073 * Z.pos mz) (-51 + ez) loc_Exact) as (m1 & e1 & -> & He1 & Hm1 & Hb1);
    [lia..|]. unfold double_div. cbn [SFdiv xorb].
  destruct (div_core (Z.pos m1) e1 5629499534213120 (-50)) as (q & e & l & -> & Hq & He & Hb2); [lia..|].
  destruct (round_bound q e l) as (m2 & e2 & -> & He2 & Hm2 & Hb3); [lia..|].
  (* everything at the common exponent -300 *)
  assert (8 * (Z.pos m1 * 2 ^ (e1 + 300)) ≤ 9 * (6121026514868073 * Z.pos mz) * 2 ^ (ez + 249)) as B1.
  { replace (e1 + 300) with (e1 - (-51 + ez) + (ez + 249)) by lia. rewrite (Z.pow_add_r 2 (e1 - _)) by lia.
    assert (0 < 2 ^ (ez + 249)) by (apply Z.pow_pos_nonneg; lia). nia. }
  assert (5 * (q * 2 ^ (e + 300)) ≤ Z.pos m1 * 2 ^ (e1 + 300)) as B2.
  { replace (e1 - -50 - e) with (50 + (e1 - e)) in Hb2 by lia. rewrite Z.pow_add_r in Hb2 by lia.
    replace (e1 + 300) with (e1 - e + (e + 300)) by lia. rewrite (Z.pow_add_r 2 (e1 - e)) by lia.
    assert (0 < 2 ^ (e + 300)) by (apply Z.pow_pos_nonneg; lia). 
    assert (q * 5 ≤ Z.pos m1 * 2 ^ (e1 - e)) by (rewrite Z.mul_shuffle3 in Hb2; lia). nia. }
  assert (8 * (Z.pos m2 * 2 ^ (e2 + 300)) ≤ 9 * (q * 2 ^ (e + 300))) as B3.
  { replace (e2 + 300) with (e2 - e + (e + 300)) by lia. rewrite (Z.pow_add_r 2 (e2 - e)) by lia.
    assert (0 < 2 ^ (e + 300)) by (apply Z.pow_pos_nonneg; lia). nia. }
  assert (Z.pos mz * 2 ^ (ez + 249) = t * 2 ^ 249) as Hz.
  { rewrite Hmz, <- Z.mul_assoc, <- Z.pow_add_r by lia. do 2 f_equal. lia. }
  assert (Z.pos m2 * 2 ^ (e2 + 300) ≤ t * 2 ^ 300) as B.
  { change (2 ^ 300) with (2 ^ 249 * 2 ^ 51). generalize dependent (2 ^ 249). intros. nia. }
  cbn [double_to_uint]. set (v := if 0 <=? e2 then _ else _).
  assert (0 ≤ v ≤ t) as Hv; [|exists v; by rewrite (proj2 (Z.leb_le _ _)), (proj2 (Z.leb_le _ _)) by (change (uint_max 64) with (2 ^ 64 - 1); lia)].
  subst v. destruct (Z.leb_spec 0 e2) as [H0|H0].
  - rewrite Z.pow_add_r in B by lia. split; [apply Z.mul_nonneg_nonneg; [lia|apply Z.pow_nonneg; lia]|].
    assert (0 < 2 ^ 300) by lia. nia.
  - split; [apply Z.div_pos; [lia|apply Z.pow_pos_nonneg; lia]|]. apply Z.div_le_upper_bound; [apply Z.pow_pos_nonneg; lia|].
    replace 300 with (e2 + 300 + - e2) in B at 2 by lia. rewrite (Z.pow_add_r 2 (e2 + 300)) in B by lia.
    assert (0 < 2 ^ (e2 + 300)) by (apply Z.pow_pos_nonneg; lia). nia.
Qed.

(** Halving is exact. *)
Definition half : spec_float := S754_finite false 4503599627370496 (-53).
Lemma shr_iter_exact p m : 0 < m →
  SpecFloat.iter_pos shr_1 p (Build_shr_record (m * 2 ^ Z.pos p) false false) = Build_shr_record m false false.
Proof.
  assert (∀ x, 0 < x → shr_1 (Build_shr_record (x * 2) false false) = Build_shr_record x false false) as H1
    by (intros [|x|x] Hx; [lia| |lia]; by rewrite Z.mul_comm).
  revert m. induction p as [p IH|p IH|]; intros m Hm; cbn [SpecFloat.iter_pos]; [| |by apply H1];
    assert (0 < 2 ^ Z.pos p) by (apply Z.pow_pos_nonneg; lia).
  - replace (Z.pos p~1) with (Z.pos p + Z.pos p + 1) by lia. rewrite !Z.pow_add_r, !Z.mul_assoc by lia.
    change (2 ^ 1) with 2. rewrite H1, !IH by nia. done.
  - replace (Z.pos p~0) with (Z.pos p + Z.pos p) by lia. rewrite Z.pow_add_r, Z.mul_assoc, !IH by nia. done.
Qed.
Lemma half_exact t : 0 < t < 2 ^ 53 → ∃ m e, double_of_u64 t = S754_finite false m e ∧
  double_mul (double_of_u64 t) half = S754_finite false m (e - 1) ∧
  -52 ≤ e ≤ 0 ∧ Z.pos (digits2_pos m) = 53 ∧ Z.pos m = t * 2 ^ (- e).
Proof.
  intros Ht. destruct (double_of_u64_exact t Ht) as (mz & ez & -> & Hd & Hez & Hmz). exists mz, ez.
  split; [done|]. split; [|done]. unfold double_mul, half. cbn [SFmul xorb]. unfold binary_round_aux.
  pose proof (digits2_bound mz) as Hlo. pose proof (digits2_upper mz) as Hhi. rewrite Hd in Hlo, Hhi.
  assert (shr_fexp 53 1024 (Z.pos (mz * 4503599627370496)) (ez + -53) loc_Exact =
    (Build_shr_record (Z.pos mz) false false, ez - 1)) as ->.
  { rewrite Pos2Z.inj_mul. unfold shr_fexp, fexp, emin. rewrite (digits2_range _ 104) by lia.
    rewrite Z.max_l by lia. replace (104 + 1 + (ez + -53) - 53 - (ez + -53)) with 52 by lia.
    cbn [shr shr_record_of_loc]. change 4503599627370496 with (2 ^ 52). rewrite shr_iter_exact by lia. f_equal. lia. }
  cbn [shr_m loc_of_shr_record round_nearest_even]. rewrite shr_fexp_aligned by lia. cbn [shr_m].
  by rewrite (proj2 (Z.leb_le _ _)) by lia.
Qed.
