(* ===== verification/MMCommon.v ===== *)
(** What the memory-management containers share: access to an item's update
    time and reference-count word through the store of [DList], and the views
    under which the proofs see a store.

    An item is a node of the store.  Its MM state is the update time of its
    hook, the [kLinked] admin bit ([isInMMContainer]) and the [kMMFlag*] bits
    of its reference-count word. *)
From S2P Require Import Prelude Refcount DList PtrCompressor.

(** ** Operations on items *)
Definition getUpdateTime (h : Store) (node : Z) : result Z :=
  n ← deref (h !! node); Ok (updateTime_ n).
Definition setUpdateTime (node time : Z) (h : Store) : result Store :=
  n ← deref (h !! node); Ok (<[node := mkNode (next_ n) (prev_ n) time (refCount_ n)]> h).
(** [node.op()] for an update of the reference-count word. *)
Definition withRef (f : Z → Z) (node : Z) (h : Store) : result Store :=
  n ← deref (h !! node); Ok (<[node := mkNode (next_ n) (prev_ n) (updateTime_ n) (f (refCount_ n))]> h).
(** [node.test()] for a test of the reference-count word. *)
Definition testRef (g : Z → bool) (h : Store) (node : Z) : result bool :=
  n ← deref (h !! node); Ok (g (refCount_ n)).

Inductive AccessMode := kRead | kWrite.

Record EvictionStatPerType := mkEvictionStatPerType { oldestElementAge : Z; es_size : Z; projectedAge : Z }.
Definition EvictionStat_zero : EvictionStatPerType := mkEvictionStatPerType 0 0 0.
Record EvictionAgeStat := mkEvictionAgeStat {
  warmQueueStat : EvictionStatPerType; hotQueueStat : EvictionStatPerType; coldQueueStat : EvictionStatPerType;
}.

Record MMContainerStat := mkMMContainerStat {
  st_size : Z; oldestTimeSec : Z; st_lruRefreshTime : Z;
  numHotAccesses : Z; numColdAccesses : Z; numWarmAccesses : Z; numTailAccesses : Z;
}.

(** ** Flags of a reference-count word *)
Lemma flag_index_inj f g : flag_index f = flag_index g → f = g.
Proof. by destruct f, g. Qed.
Lemma flag_bit_range f : 21 ≤ flag_bit f < 32.
Proof. unfold flag_bit. by destruct f. Qed.
Lemma flag_bit_inj f g : flag_bit f = flag_bit g → f = g.
Proof. unfold flag_bit. intros. apply flag_index_inj. lia. Qed.

Lemma isFlagSet_bit f v : isFlagSet f v = Z.testbit v (flag_bit f).
Proof. apply to_bool_bit. pose proof (flag_bit_range f). lia. Qed.
Lemma isInMM_bit v : isInMMContainer v = Z.testbit v 18.
Proof. by apply to_bool_bit. Qed.
Lemma setFlag_bit f v : setFlag f v = Z.setbit v (flag_bit f).
Proof. done. Qed.
Lemma unSetFlag_bit f v : fits 32 v → unSetFlag f v = Z.clearbit v (flag_bit f).
Proof. apply land_clear_bit. pose proof (flag_bit_range f). lia. Qed.
Lemma markInMM_bit v : markInMMContainer v = Z.setbit v 18.
Proof. done. Qed.
Lemma unmarkInMM_bit v : fits 32 v → unmarkInMMContainer v = Z.clearbit v 18.
Proof. apply (land_clear_bit 32). lia. Qed.

(** ** Views of the MM state of a store *)
Definition linked (h : Store) (a : Z) : bool :=
  match payload h a with Some (_, r) => isInMMContainer r | None => false end.
Definition flag (f : Flags) (h : Store) (a : Z) : bool :=
  match payload h a with Some (_, r) => isFlagSet f r | None => false end.
Definition time (h : Store) (a : Z) : Z :=
  match payload h a with Some (t, _) => t | None => 0 end.
(** Every reference-count word is a 32-bit word. *)
Definition words (h : Store) : Prop := ∀ a t r, payload h a = Some (t, r) → fits 32 r.

Section meta.
Context `{PtrCompressor}.
Implicit Types (h : Store) (a b : Z).

(** [h] has the hooks of [h0], and the MM state the functions give. *)
Record meta h h0 (lk : Z → bool) (fl : Flags → Z → bool) (tm : Z → Z) : Prop := {
  meta_next b : getNext h b = getNext h0 b;
  meta_prev b : getPrev h b = getPrev h0 b;
  meta_alive b : is_Some (payload h b) ↔ is_Some (payload h0 b);
  meta_words : words h;
  meta_linked b : linked h b = lk b;
  meta_flag f b : flag f h b = fl f b;
  meta_time b : time h b = tm b;
}.

Lemma meta_refl h : words h → meta h h (linked h) (λ f, flag f h) (time h).
Proof. by split. Qed.

(** List operations leave the MM state alone. *)
Lemma meta_payload h h0 : (∀ b, payload h b = payload h0 b) →
  (∀ b, linked h b = linked h0 b) ∧ (∀ f b, flag f h b = flag f h0 b) ∧
  (∀ b, time h b = time h0 b) ∧ (words h0 → words h).
Proof.
  intros Hp. unfold linked, flag, time, words.
  split_and!; intros; rewrite ?Hp; try done. rewrite Hp in *. eauto.
Qed.

(** The view after a write to one node. *)
Lemma meta_write h h0 lk fl tm a n n' lk' fl' tm' : meta h h0 lk fl tm → h !! a = Some n →
  next_ n' = next_ n → prev_ n' = prev_ n → fits 32 (refCount_ n') →
  (∀ b, lk' b = if decide (a = b) then isInMMContainer (refCount_ n') else lk b) →
  (∀ f b, fl' f b = if decide (a = b) then isFlagSet f (refCount_ n') else fl f b) →
  (∀ b, tm' b = if decide (a = b) then updateTime_ n' else tm b) →
  meta (<[a := n']> h) h0 lk' fl' tm'.
Proof.
  intros Hm Ha Hn Hp Hw Hlk Hfl Htm.
  assert (∀ b, payload (<[a := n']> h) b =
    if decide (a = b) then Some (updateTime_ n', refCount_ n') else payload h b) as Hpl.
  { intros b. unfold payload. rewrite lookup_insert. by case_decide. }
  split.
  - intros b. rewrite <- (meta_next _ _ _ _ _ Hm b). unfold getNext. rewrite lookup_insert.
    case_decide; [|done]. subst. rewrite Ha. res_simpl. by rewrite Hn.
  - intros b. rewrite <- (meta_prev _ _ _ _ _ Hm b). unfold getPrev. rewrite lookup_insert.
    case_decide; [|done]. subst. rewrite Ha. res_simpl. by rewrite Hp.
  - intros b. rewrite <- (meta_alive _ _ _ _ _ Hm b), Hpl. case_decide; [|done]. subst.
    unfold payload. rewrite Ha. split; by eexists.
  - intros b t r. rewrite Hpl. case_decide; [by intros [= <- <-]|]. apply (meta_words _ _ _ _ _ Hm).
  - intros b. unfold linked. rewrite Hpl, Hlk. case_decide; [done|]. apply (meta_linked _ _ _ _ _ Hm).
  - intros f b. unfold flag. rewrite Hpl, Hfl. case_decide; [done|]. apply (meta_flag _ _ _ _ _ Hm).
  - intros b. unfold time. rewrite Hpl, Htm. case_decide; [done|]. apply (meta_time _ _ _ _ _ Hm).
Qed.

(** Pointwise change of a function. *)
Definition set {A} (a : Z) (v : A) (f : Z → A) (b : Z) : A := if decide (a = b) then v else f b.
Definition setf (f : Flags) (a : Z) (v : bool) (fl : Flags → Z → bool) (g : Flags) (b : Z) : bool :=
  if decide (f = g) then set a v (fl f) b else fl g b.

Section steps.
Context {h h0 lk fl tm} (Hm : meta h h0 lk fl tm).

Lemma meta_node a : alive h0 (Some a) → ∃ n, h !! a = Some n ∧ fits 32 (refCount_ n) ∧
  lk a = isInMMContainer (refCount_ n) ∧ (∀ f, fl f a = isFlagSet f (refCount_ n)) ∧
  tm a = updateTime_ n.
Proof.
  intros Ha. assert (alive h (Some a)) as (n & Hn)%alive_node.
  { intros b [= <-]. by apply (meta_alive _ _ _ _ _ Hm), Ha. }
  assert (payload h a = Some (updateTime_ n, refCount_ n)) as Hp by (unfold payload; by rewrite Hn).
  exists n. split; [done|]. split; [by eapply (meta_words _ _ _ _ _ Hm)|].
  rewrite <- (meta_linked _ _ _ _ _ Hm), <- (meta_time _ _ _ _ _ Hm). unfold linked, time.
  rewrite Hp. split_and!; try done. intros f. rewrite <- (meta_flag _ _ _ _ _ Hm). unfold flag.
  by rewrite Hp.
Qed.

Lemma step_testLinked a : alive h0 (Some a) → testRef isInMMContainer h a = Ok (lk a).
Proof. intros (n & Hn & _ & -> & _)%meta_node. unfold testRef. by rewrite Hn. Qed.
Lemma step_testFlag f a : alive h0 (Some a) → testRef (isFlagSet f) h a = Ok (fl f a).
Proof. intros (n & Hn & _ & _ & -> & _)%meta_node. unfold testRef. by rewrite Hn. Qed.
Lemma step_getTime a : alive h0 (Some a) → getUpdateTime h a = Ok (tm a).
Proof. intros (n & Hn & _ & _ & _ & ->)%meta_node. unfold getUpdateTime. by rewrite Hn. Qed.

Lemma step_setTime a t : alive h0 (Some a) →
  ∃ h', setUpdateTime a t h = Ok h' ∧ meta h' h0 lk fl (set a t tm).
Proof.
  intros (n & Hn & Hw & Hlk & Hfl & _)%meta_node. unfold setUpdateTime. rewrite Hn. res_simpl.
  eexists; split; [done|]. eapply meta_write; try done; intros; case_decide; by subst.
Qed.

Lemma step_mark_linked a v : alive h0 (Some a) →
  ∃ h', withRef (if v : bool then markInMMContainer else unmarkInMMContainer) a h = Ok h' ∧
    meta h' h0 (set a v lk) fl tm.
Proof.
  intros (n & Hn & Hw & _ & Hfl & Htm)%meta_node. unfold withRef. rewrite Hn. res_simpl.
  eexists; split; [done|]. eapply meta_write; try done; cbn.
  - destruct v; [rewrite markInMM_bit|rewrite unmarkInMM_bit by done].
    + apply fits_setbit; [lia|done].
    + apply fits_clearbit; [lia..|done].
  - intros b. unfold set. case_decide; [|done]. rewrite isInMM_bit. destruct v.
    + rewrite markInMM_bit. by rewrite Z.setbit_eq.
    + rewrite unmarkInMM_bit by done. by rewrite Z.clearbit_eq.
  - intros f b. case_decide; [|done]. subst. rewrite Hfl, !isFlagSet_bit.
    pose proof (flag_bit_range f). destruct v.
    + rewrite markInMM_bit, Z.setbit_neq by lia. done.
    + rewrite unmarkInMM_bit, Z.clearbit_neq by (done || lia). done.
  - intros b. case_decide; by subst.
Qed.

Lemma step_mark_flag f a v : alive h0 (Some a) →
  ∃ h', withRef (if v : bool then setFlag f else unSetFlag f) a h = Ok h' ∧
    meta h' h0 lk (setf f a v fl) tm.
Proof.
  intros (n & Hn & Hw & Hlk & Hfl & Htm)%meta_node. unfold withRef. rewrite Hn. res_simpl.
  pose proof (flag_bit_range f) as Hf.
  eexists; split; [done|]. eapply meta_write; try done; cbn.
  - destruct v; [rewrite setFlag_bit|rewrite unSetFlag_bit by done].
    + apply fits_setbit; [lia|done].
    + apply fits_clearbit; [lia..|done].
  - intros b. case_decide; [|done]. subst. rewrite Hlk, !isInMM_bit. destruct v.
    + rewrite setFlag_bit, Z.setbit_neq by lia. done.
    + rewrite unSetFlag_bit, Z.clearbit_neq by (done || lia). done.
  - intros g b. unfold setf, set. case_decide as Hfg; [subst g|]; (case_decide; [subst b|done]).
    + rewrite isFlagSet_bit. destruct v; [rewrite setFlag_bit, Z.setbit_eq by lia; done|].
      rewrite unSetFlag_bit, Z.clearbit_eq by done. done.
    + rewrite Hfl, !isFlagSet_bit.
      assert (flag_bit f ≠ flag_bit g) by (intros ?%flag_bit_inj; done). destruct v.
      * rewrite setFlag_bit, Z.setbit_neq by lia. done.
      * rewrite unSetFlag_bit, Z.clearbit_neq by (done || lia). done.
  - intros b. case_decide; by subst.
Qed.
End steps.
End meta.

(** ** Ages

    Walking from a node towards the head of its list, at most [remaining] steps,
    and the age of the item reached. *)
Section ages.
Context `{PtrCompressor}.
Fixpoint walkBack (fuel : nat) (h : Store) (remaining : Z) (node : option Z) : result (option Z) :=
  match node with
  | Some a =>
      if 0 <? remaining then
        match fuel with
        | O => Undef
        | S fuel => p ← getPrev h a; walkBack fuel h (remaining - 1) p
        end
      else Ok node
  | None => Ok None
  end.

Lemma walkBack_spec h l xs j n fuel : dlist_rep h l xs → (j ≤ length xs)%nat → (j ≤ fuel)%nat → 0 ≤ n →
  walkBack fuel h n (prev_at xs j) = Ok (prev_at xs (j - Z.to_nat n)).
Proof.
  intros Hrep. revert j n. induction fuel as [|fuel IH]; intros j n Hj Hf Hn;
    (destruct j as [|j]; [done|]); [lia|]. cbn [walkBack].
  destruct (lookup_lt_is_Some_2 xs j) as [a Ha]; [lia|]. cbn [prev_at]. rewrite Ha.
  destruct (Z.ltb_spec 0 n) as [Hp|Hp].
  - destruct (rep_links _ _ _ Hrep j a Ha) as (_ & _ & ->). res_simpl. rewrite IH by lia.
    do 2 f_equal. lia.
  - assert (n = 0) as -> by lia. replace (S j - Z.to_nat 0)%nat with (S j) by lia. cbn [prev_at]. by rewrite Ha.
Qed.

Definition age h (now : Z) (p : option Z) : Z :=
  match p with Some a => u32 (u32 now - time h a) | None => 0 end.

Lemma alive_age h now p : words h → alive h p →
  match p with Some a => t ← getUpdateTime h a; Ok (u32 (u32 now - t)) | None => Ok 0 end = Ok (age h now p).
Proof.
  intros Hw Ha. destruct p as [a|]; [|done]. rewrite (step_getTime (meta_refl h Hw)) by done. done.
Qed.

Lemma age_fits h now p : fits 32 (age h now p).
Proof. destruct p; [by apply wrap_fits|done]. Qed.
End ages.
