(* ===== verification/MMLru.v ===== *)
(** CacheLib's LRU container ([allocator/MMLru.h], [MMLru-inl.h]): a [DList]
    with an insertion point and delayed promotion.

    Every operation is the critical section the container runs under
    [lruMutex_], from the current wall-clock time [now] ([std::time], an
    argument) and, for [tryLockUpdate], whether the try-lock succeeded.
    Loops carry fuel; [updateLruInsertionPoint] and [setConfig] are shown to
    finish within the size of the list. *)
From Stdlib Require Import Floats.SpecFloat.
From S2P Require Import Prelude Refcount SlabAllocator PtrCompressor DList Doubles MMCommon.

(** ** Configuration and state *)
Record Config := mkConfig {
  defaultLruRefreshTime : Z;          (** uint32_t *)
  lruRefreshTime : Z;                 (** uint32_t *)
  lruRefreshRatio : spec_float;       (** double *)
  updateOnWrite : bool;
  updateOnRead : bool;
  tryLockUpdate : bool;
  lruInsertionPointSpec : Z;          (** uint8_t *)
  mmReconfigureIntervalSecs : Z;      (** seconds *)
  useCombinedLockForIterators : bool;
}.

(** The constructor every other one delegates to; [lruRefreshTime] takes its
    default member initializer. *)
Definition Config_new (time : Z) (ratio : spec_float) (updateOnW updateOnR tryLockU : bool)
    (ipSpec mmReconfigureInterval : Z) (useCombinedLock : bool) : Config :=
  mkConfig time time ratio updateOnW updateOnR tryLockU ipSpec mmReconfigureInterval useCombinedLock.

Record Container := mkContainer {
  lru_ : DList;
  insertionPoint_ : option Z;
  tailSize_ : Z;
  nextReconfigureTime_ : Z;
  lruRefreshTime_ : Z;
  config_ : Config;
}.

Record MMLruConfigObject := mkMMLruConfigObject {
  o_lruRefreshTime : Z; o_lruRefreshRatio : spec_float; o_updateOnWrite : bool;
  o_updateOnRead : bool; o_tryLockUpdate : bool; o_lruInsertionPointSpec : Z;
}.
Record MMLruObject := mkMMLruObject {
  o_config : MMLruConfigObject; o_compressedInsertionPoint : Z; o_tailSize : Z; o_lru : DListObject;
}.

Definition kLruRefreshTimeCap : Z := 900.

Definition with_lru (l : DList) (c : Container) : Container :=
  mkContainer l (insertionPoint_ c) (tailSize_ c) (nextReconfigureTime_ c) (lruRefreshTime_ c) (config_ c).
Definition with_point (ip : option Z) (ts : Z) (c : Container) : Container :=
  mkContainer (lru_ c) ip ts (nextReconfigureTime_ c) (lruRefreshTime_ c) (config_ c).

(** [(expr) ? max : now + interval] of both constructors and [setConfig]. *)
Definition reconfigureTime (cfg : Config) (now : Z) : Z :=
  if mmReconfigureIntervalSecs cfg =? 0 then uint_max 32
  else u32 (u32 now + mmReconfigureIntervalSecs cfg).

Definition markTail (node : Z) : Store → result Store := withRef (setFlag kMMFlag0) node.
Definition unmarkTail (node : Z) : Store → result Store := withRef (unSetFlag kMMFlag0) node.
Definition isTail (h : Store) (node : Z) : result bool := testRef (isFlagSet kMMFlag0) h node.
Definition markAccessed (node : Z) : Store → result Store := withRef (setFlag kMMFlag1) node.
Definition unmarkAccessed (node : Z) : Store → result Store := withRef (unSetFlag kMMFlag1) node.
Definition isAccessed (h : Store) (node : Z) : result bool := testRef (isFlagSet kMMFlag1) h node.

Section operations.
Context `{PtrCompressor}.

Definition Container_new (c : Config) (now : Z) : Container :=
  mkContainer DList_empty None 0 (reconfigureTime c now) (lruRefreshTime c) c.

(** *** The insertion point *)

(** [while (tailSize_ < expectedSize && curr != lru_.getHead())]. *)
Fixpoint growTail (fuel : nat) (l : DList) (expectedSize : Z) (s : option Z * Z * Store)
    : result (option Z * Z * Store) :=
  let '(curr, tailSize, h) := s in
  if (tailSize <? expectedSize) && negb (bool_decide (curr = head_ l)) then
    match fuel with
    | O => Undef
    | S fuel =>
        c ← deref curr; curr ← getPrev h c; c ← deref curr; h ← markTail c h;
        growTail fuel l expectedSize (curr, u64 (tailSize + 1), h)
    end
  else Ok s.

(** [while (tailSize_ > expectedSize && curr != lru_.getTail())]. *)
Fixpoint shrinkTail (fuel : nat) (l : DList) (expectedSize : Z) (s : option Z * Z * Store)
    : result (option Z * Z * Store) :=
  let '(curr, tailSize, h) := s in
  if (expectedSize <? tailSize) && negb (bool_decide (curr = tail_ l)) then
    match fuel with
    | O => Undef
    | S fuel =>
        c ← deref curr; h ← unmarkTail c h; curr ← getNext h c;
        shrinkTail fuel l expectedSize (curr, u64 (tailSize - 1), h)
    end
  else Ok s.

Definition list_fuel (l : DList) : nat := Z.to_nat (size_ l).

(** [if (insertionPoint_ == nullptr)]: start from the tail. *)
Definition initInsertionPoint (c : Container) (h : Store) : result (option Z * Z * Store) :=
  match insertionPoint_ c with
  | Some _ => Ok (insertionPoint_ c, tailSize_ c, h)
  | None =>
      match tail_ (lru_ c) with
      | Some t => h ← markTail t h; Ok (Some t, 1, h)
      | None => Ok (None, 0, h)
      end
  end.

Definition updateLruInsertionPoint (s : Container * Store) : result (Container * Store) :=
  let '(c, h) := s in
  let spec := lruInsertionPointSpec (config_ c) in
  if spec =? 0 then Ok s
  else
    '(ip, ts, h) ← initInsertionPoint c h;
    if size_ (lru_ c) <=? 1 then Ok (with_point ip ts c, h)
    else
      _ ← xdcheck (bool_decide (ip ≠ None));
      (* a shift by the width of [size_t] or more is undefined *)
      _ ← xdcheck (spec <? 64);
      let expectedSize := Z.shiftr (size_ (lru_ c)) spec in
      '(curr, ts, h) ← growTail (list_fuel (lru_ c)) (lru_ c) expectedSize (ip, ts, h);
      '(curr, ts, h) ← shrinkTail (list_fuel (lru_ c)) (lru_ c) expectedSize (curr, ts, h);
      Ok (with_point curr ts c, h).

Definition ensureNotInsertionPoint (node : Z) (s : Container * Store) : result (Container * Store) :=
  let '(c, h) := s in
  if decide (Some node = insertionPoint_ c) then
    prev ← getPrev h node;
    match prev with
    | Some p => h ← markTail p h; Ok (with_point prev (u64 (tailSize_ c + 1)) c, h)
    | None => _ ← xdcheck (size_ (lru_ c) =? 1); Ok (with_point None (tailSize_ c) c, h)
    end
  else Ok s.

(** *** Statistics and reconfiguration *)
Definition getEvictionAgeStatLocked (c : Container) (projectedLength now : Z) (h : Store)
    : result EvictionAgeStat :=
  let currTime := u32 now in
  let node := tail_ (lru_ c) in
  oldest ← match node with Some a => t ← getUpdateTime h a; Ok (u32 (currTime - t)) | None => Ok 0 end;
  node ← walkBack (list_fuel (lru_ c)) h projectedLength node;
  projected ← match node with
    | Some a => t ← getUpdateTime h a; Ok (u32 (currTime - t)) | None => Ok oldest end;
  Ok (mkEvictionAgeStat (mkEvictionStatPerType oldest 0 projected) EvictionStat_zero EvictionStat_zero).

Definition reconfigureLocked (currTime now : Z) (c : Container) (h : Store) : result Container :=
  if currTime <? nextReconfigureTime_ c then Ok c
  else
    let next := u32 (currTime + mmReconfigureIntervalSecs (config_ c)) in
    stat ← getEvictionAgeStatLocked c 0 now h;
    r ← double_to_u32 (double_mul (double_of_u64 (oldestElementAge (warmQueueStat stat))) (lruRefreshRatio (config_ c)));
    let refresh := Z.min (Z.max (defaultLruRefreshTime (config_ c)) r) kLruRefreshTimeCap in
    Ok (mkContainer (lru_ c) (insertionPoint_ c) (tailSize_ c) next refresh (config_ c)).

Definition getStats (c : Container) (h : Store) : result MMContainerStat :=
  t ← match tail_ (lru_ c) with None => Ok 0 | Some a => getUpdateTime h a end;
  Ok (mkMMContainerStat (size_ (lru_ c)) t (lruRefreshTime_ c) 0 0 0 0).

(** *** Mutations *)
Definition add (node now : Z) (s : Container * Store) : result (bool * (Container * Store)) :=
  let '(c, h) := s in
  let currTime := u32 now in
  b ← testRef isInMMContainer h node;
  if b : bool then Ok (false, s)
  else
    '(l, h) ← match insertionPoint_ c with
      | Some ip =>
          if lruInsertionPointSpec (config_ c) =? 0 then linkAtHead node (lru_ c, h)
          else insertBefore ip node (lru_ c, h)
      | None => linkAtHead node (lru_ c, h)
      end;
    h ← withRef markInMMContainer node h;
    h ← setUpdateTime node currTime h;
    h ← unmarkAccessed node h;
    s ← updateLruInsertionPoint (with_lru l c, h);
    Ok (true, s).

Definition removeLocked (node : Z) (s : Container * Store) : result (Container * Store) :=
  '(c, h) ← ensureNotInsertionPoint node s;
  '(l, h) ← remove node (lru_ c, h);
  h ← unmarkAccessed node h;
  t ← isTail h node;
  '(ts, h) ← (if t : bool then h ← unmarkTail node h; Ok (u64 (tailSize_ c - 1), h) else Ok (tailSize_ c, h));
  h ← withRef unmarkInMMContainer node h;
  updateLruInsertionPoint (with_point (insertionPoint_ c) ts (with_lru l c), h).

Definition removeNode (node : Z) (s : Container * Store) : result (bool * (Container * Store)) :=
  b ← testRef isInMMContainer (snd s) node;
  if negb b then Ok (false, s) else s ← removeLocked node s; Ok (true, s).

(** [remove(Iterator& it)]; the iterator moves on before the removal. *)
Definition removeIterator (it : Iterator) (s : Container * Store)
    : result (Iterator * (Container * Store)) :=
  node ← deref (curr_ it);
  b ← testRef isInMMContainer (snd s) node;
  _ ← xdcheck b;
  it ← iter_incr (snd s) it;
  s ← removeLocked node s;
  Ok (it, s).

Definition replaceNode (oldNode newNode : Z) (s : Container * Store)
    : result (bool * (Container * Store)) :=
  let '(c, h) := s in
  bo ← testRef isInMMContainer h oldNode;
  if negb bo then Ok (false, s)
  else
    bn ← testRef isInMMContainer h newNode;
    if bn : bool then Ok (false, s)
    else
      updateTime ← getUpdateTime h oldNode;
      '(l, h) ← replace oldNode newNode (lru_ c, h);
      h ← withRef unmarkInMMContainer oldNode h;
      h ← withRef markInMMContainer newNode h;
      h ← setUpdateTime newNode updateTime h;
      acc ← isAccessed h oldNode;
      h ← (if acc : bool then markAccessed newNode h else unmarkAccessed newNode h);
      tn ← isTail h newNode;
      _ ← xdcheck (negb tn);
      t ← isTail h oldNode;
      h ← (if t : bool then h ← markTail newNode h; unmarkTail oldNode h else unmarkTail newNode h);
      let ip := if decide (insertionPoint_ c = Some oldNode) then Some newNode else insertionPoint_ c in
      Ok (true, (with_point ip (tailSize_ c) (with_lru l c), h)).

(** The critical section of [recordAccess]. *)
Definition recordAccess_func (node curr now : Z) (s : Container * Store) : result (Container * Store) :=
  let '(c, h) := s in
  c ← reconfigureLocked curr now c h;
  '(c, h) ← ensureNotInsertionPoint node (c, h);
  b ← testRef isInMMContainer h node;
  '(l, h) ← (if b : bool then '(l, h) ← moveToHead node (lru_ c, h); h ← setUpdateTime node curr h; Ok (l, h)
             else Ok (lru_ c, h));
  let c := with_lru l c in
  t ← isTail h node;
  if t : bool then
    h ← unmarkTail node h;
    updateLruInsertionPoint (with_point (insertionPoint_ c) (u64 (tailSize_ c - 1)) c, h)
  else Ok (c, h).

Definition recordAccess (node : Z) (mode : AccessMode) (now : Z) (lockFree : bool)
    (s : Container * Store) : result (bool * (Container * Store)) :=
  let '(c, h) := s in
  let cfg := config_ c in
  if match mode with kWrite => negb (updateOnWrite cfg) | kRead => negb (updateOnRead cfg) end
  then Ok (false, s)
  else
    let curr := u32 now in
    b ← testRef isInMMContainer h node;
    t ← getUpdateTime h node;
    acc ← isAccessed h node;
    if b && ((u32 (t + lruRefreshTime_ c) <=? curr) || negb acc) then
      h ← (if negb acc then markAccessed node h else Ok h);
      if tryLockUpdate cfg && negb lockFree then Ok (false, (c, h))
      else s ← recordAccess_func node curr now (c, h); Ok (true, s)
    else Ok (false, s).

(** [while (tailSize_ != 0)] of [setConfig]. *)
Fixpoint clearTail (fuel : nat) (curr : option Z) (tailSize : Z) (h : Store) : result Store :=
  if tailSize =? 0 then Ok h
  else
    match fuel with
    | O => Undef
    | S fuel =>
        c ← deref curr; h ← unmarkTail c h; curr ← getNext h c; clearTail fuel curr (u64 (tailSize - 1)) h
    end.

Definition setConfig (newConfig : Config) (now : Z) (s : Container * Store) : result (Container * Store) :=
  let '(c, h) := s in
  '(ip, ts, h) ← (if (lruInsertionPointSpec newConfig =? 0) && bool_decide (insertionPoint_ c ≠ None)
    then h ← clearTail (Z.to_nat (tailSize_ c)) (insertionPoint_ c) (tailSize_ c) h; Ok (None, 0, h)
    else Ok (insertionPoint_ c, tailSize_ c, h));
  Ok (mkContainer (lru_ c) ip ts (reconfigureTime newConfig now) (lruRefreshTime newConfig) newConfig, h).

(** *** Saved state *)
Definition MMLru_saveState (c : Container) : result MMLruObject :=
  let cfg := config_ c in
  ip ← pc_compress (insertionPoint_ c);
  l ← saveState (lru_ c);
  Ok (mkMMLruObject
        (mkMMLruConfigObject (s32 (lruRefreshTime_ c)) (lruRefreshRatio cfg) (updateOnWrite cfg)
           (updateOnRead cfg) (tryLockUpdate cfg) (lruInsertionPointSpec cfg))
        (s64 ip) (s64 (tailSize_ c)) l).

Definition Config_restore (o : MMLruConfigObject) : Config :=
  Config_new (u32 (o_lruRefreshTime o)) (o_lruRefreshRatio o) (o_updateOnWrite o) (o_updateOnRead o)
    (o_tryLockUpdate o) (u8 (o_lruInsertionPointSpec o)) 0 false.

Definition Container_restore (o : MMLruObject) (now : Z) : result Container :=
  l ← DList_restore (o_lru o);
  ip ← pc_unCompress (u32 (o_compressedInsertionPoint o));
  let c := Config_restore (o_config o) in
  Ok (mkContainer l ip (u64 (o_tailSize o)) (reconfigureTime c now) (lruRefreshTime c) c).
End operations.

(** ** Invariant *)
Section invariant.
Context `{PtrCompressor}.
Implicit Types (h : Store) (a b : Z) (l : DList) (c : Container) (xs : list Z) (k : nat).

(** The tail flag is set exactly on the nodes from position [k] on. *)
Definition tagged h xs k : Prop :=
  ∀ i a, xs !! i = Some a → flag kMMFlag0 h a = bool_decide (k ≤ i)%nat.

(** The insertion point is the node at position [k], and the tail holds it
    and everything behind it. *)
Definition point_at h xs k (ip : option Z) (ts : Z) : Prop :=
  (k ≤ length xs)%nat ∧ ip = xs !! k ∧ ts = Z.of_nat (length xs) - Z.of_nat k ∧ tagged h xs k.

(** The store holds the items the container serves: exactly the queued ones
    have the linked bit, the others have no tail flag and a cleared hook. *)
Definition item_ok h xs a : Prop :=
  valid_ptr a ∧ linked h a = bool_decide (a ∈ xs) ∧
  ((a ∉ xs) → flag kMMFlag0 h a = false ∧ getNext h a = Ok None ∧ getPrev h a = Ok None).
Definition store_ok h xs : Prop := words h ∧ ∀ a, is_Some (payload h a) → item_ok h xs a.

(** [xs] is the queue from head (most recent) to tail (next eviction). *)
Record mm_wf h c xs : Prop := {
  wf_rep : dlist_rep h (lru_ c) xs;
  wf_store : store_ok h xs;
  wf_point : ∃ k, point_at h xs k (insertionPoint_ c) (tailSize_ c) ∧ (k = 0%nat → (length xs ≤ 1)%nat);
  wf_spec : 0 ≤ lruInsertionPointSpec (config_ c) < 64;
  wf_off : lruInsertionPointSpec (config_ c) = 0 → insertionPoint_ c = None;
}.

(** Only tail flags of nodes in [xs] differ. *)
Definition retag xs h h' : Prop :=
  meta h' h (linked h) (λ f, flag f h') (time h) ∧
  ∀ f b, f ≠ kMMFlag0 ∨ (b ∉ xs) → flag f h' b = flag f h b.

Lemma retag_refl xs h : words h → retag xs h h.
Proof. intros. split; [by apply meta_refl|done]. Qed.
Lemma retag_trans xs h1 h2 h3 : retag xs h1 h2 → retag xs h2 h3 → retag xs h1 h3.
Proof.
  intros [H1 Hf1] [H2 Hf2]. split; [|intros; rewrite Hf2, Hf1; done]. split; try apply H2; intros.
  - rewrite (meta_next _ _ _ _ _ H2). apply H1.
  - rewrite (meta_prev _ _ _ _ _ H2). apply H1.
  - rewrite (meta_alive _ _ _ _ _ H2). apply H1.
  - rewrite (meta_linked _ _ _ _ _ H2). apply H1.
  - rewrite (meta_time _ _ _ _ _ H2). apply H1.
Qed.
Lemma meta_rep h h0 l xs lk fl tm : meta h h0 lk fl tm → dlist_rep h0 l xs → dlist_rep h l xs.
Proof. intros Hm Hrep. eapply rep_frame; [done|]. intros b _. split; apply Hm. Qed.

Lemma retag_step xs h a v : words h → a ∈ xs → alive h (Some a) →
  ∃ h', withRef (if v : bool then setFlag kMMFlag0 else unSetFlag kMMFlag0) a h = Ok h' ∧
    retag xs h h' ∧ ∀ b, flag kMMFlag0 h' b = if decide (a = b) then v else flag kMMFlag0 h b.
Proof.
  intros Hw Ha Hal. destruct (step_mark_flag (meta_refl h Hw) kMMFlag0 a v Hal) as (h' & He & Hm).
  exists h'. split; [done|]. assert (∀ f b, flag f h' b = setf kMMFlag0 a v (λ f, flag f h) f b) as Hf by apply Hm.
  split; [split|].
  - split; try apply Hm. done.
  - intros f b Hfb. rewrite Hf. unfold setf, set. case_decide; [|done]. case_decide; [|by subst].
    subst. by destruct Hfb.
  - intros b. by rewrite Hf.
Qed.

Lemma tagged_grow h h' xs k a : NoDup xs → tagged h xs (S k) → xs !! k = Some a →
  (∀ b, flag kMMFlag0 h' b = if decide (a = b) then true else flag kMMFlag0 h b) → tagged h' xs k.
Proof.
  intros Hnd Ht Hk Hf i b Hi. rewrite Hf. case_decide as Hd.
  - subst b. pose proof (NoDup_lookup _ _ _ _ Hnd Hi Hk). by rewrite bool_decide_eq_true_2 by lia.
  - rewrite (Ht i b Hi). apply bool_decide_ext. assert (i ≠ k) by congruence. lia.
Qed.
Lemma tagged_shrink h h' xs k a : NoDup xs → tagged h xs k → xs !! k = Some a →
  (∀ b, flag kMMFlag0 h' b = if decide (a = b) then false else flag kMMFlag0 h b) → tagged h' xs (S k).
Proof.
  intros Hnd Ht Hk Hf i b Hi. rewrite Hf. case_decide as Hd.
  - subst b. pose proof (NoDup_lookup _ _ _ _ Hnd Hi Hk). by rewrite bool_decide_eq_false_2 by lia.
  - rewrite (Ht i b Hi). apply bool_decide_ext. assert (i ≠ k) by congruence. lia.
Qed.

Lemma growTail_spec h l xs k a e fuel : dlist_rep h l xs → words h → xs !! k = Some a →
  tagged h xs k → (k ≤ fuel)%nat →
  ∃ k' h', growTail fuel l e (Some a, Z.of_nat (length xs) - Z.of_nat k, h) =
      Ok (xs !! k', Z.of_nat (length xs) - Z.of_nat k', h') ∧
    (k' ≤ k)%nat ∧ retag xs h h' ∧ tagged h' xs k' ∧
    (k' = 0%nat ∨ e ≤ Z.of_nat (length xs) - Z.of_nat k').
Proof.
  revert h k a. induction fuel as [|fuel IH]; intros h k a Hrep Hw Hk Ht Hf.
  - replace k with 0%nat in * by lia. exists 0%nat, h. cbn.
    rewrite (bool_decide_eq_true_2 (Some a = head_ l)) by by apply (rep_head_iff _ _ _ _ _ Hrep Hk).
    rewrite andb_false_r, Hk. split_and!; auto using retag_refl.
  - cbn. destruct (_ <? _) eqn:Hlt; cbn; [apply Z.ltb_lt in Hlt|apply Z.ltb_ge in Hlt].
    2:{ exists k, h. rewrite Hk. split_and!; auto using retag_refl. }
    destruct k as [|k].
    { rewrite (bool_decide_eq_true_2 (Some a = head_ l)) by by apply (rep_head_iff _ _ _ _ _ Hrep Hk).
      exists 0%nat, h. rewrite Hk. split_and!; auto using retag_refl. }
    rewrite (bool_decide_eq_false_2 (Some a = head_ l)) by (rewrite (rep_head_iff _ _ _ _ _ Hrep Hk); done).
    cbn. destruct (rep_links _ _ _ Hrep _ _ Hk) as (_ & _ & Hp). rewrite Hp. cbn.
    pose proof (lookup_lt_Some _ _ _ Hk). pose proof (rep_length Hrep).
    destruct (lookup_lt_is_Some_2 xs k) as [b Hb]; [lia|]. rewrite Hb. cbn.
    assert (alive h (Some b)) by (rewrite <- Hb; eauto with dlist).
    destruct (retag_step xs h b true Hw) as (h1 & He & Hr1 & Hf1); [by eapply list_elem_of_lookup_2|done|].
    unfold markTail. rewrite He. cbn. pose proof (proj1 Hr1) as Hm.
    rewrite wrap_small by (unfold fits; lia).
    destruct (IH h1 k b) as (k' & h' & Heq & Hle & Hr & Hok); try done.
    + by eapply meta_rep.
    + apply Hm.
    + by eapply tagged_grow; [apply Hrep|..].
    + lia.
    + exists k', h'. replace (Z.of_nat (length xs) - Z.of_nat (S k) + 1) with
        (Z.of_nat (length xs) - Z.of_nat k) by lia.
      split; [done|]. split; [lia|]. split; [by eapply retag_trans|done].
Qed.

Lemma shrinkTail_spec h l xs k a e fuel : dlist_rep h l xs → words h → xs !! k = Some a →
  tagged h xs k → (length xs ≤ k + fuel)%nat → e ≤ Z.of_nat (length xs) - Z.of_nat k →
  ∃ k' h', shrinkTail fuel l e (Some a, Z.of_nat (length xs) - Z.of_nat k, h) =
      Ok (xs !! k', Z.of_nat (length xs) - Z.of_nat k', h') ∧
    (k' < length xs)%nat ∧ retag xs h h' ∧ tagged h' xs k' ∧
    e ≤ Z.of_nat (length xs) - Z.of_nat k' ∧
    (S k' = length xs ∨ Z.of_nat (length xs) - Z.of_nat k' ≤ e).
Proof.
  revert h k a. induction fuel as [|fuel IH]; intros h k a Hrep Hw Hk Ht Hf Hle;
    pose proof (lookup_lt_Some _ _ _ Hk); pose proof (rep_length Hrep); [lia|].
  cbn. destruct (_ <? _) eqn:Hlt; cbn; [apply Z.ltb_lt in Hlt|apply Z.ltb_ge in Hlt].
  2:{ exists k, h. rewrite Hk. split_and!; auto using retag_refl. }
  destruct (decide (S k = length xs)) as [Hlast|Hlast].
  { rewrite (bool_decide_eq_true_2 (Some a = tail_ l)) by by apply (rep_tail_iff _ _ _ _ _ Hrep Hk).
    exists k, h. rewrite Hk. split_and!; auto using retag_refl. }
  rewrite (bool_decide_eq_false_2 (Some a = tail_ l)) by by rewrite (rep_tail_iff _ _ _ _ _ Hrep Hk).
  cbn. assert (alive h (Some a)) by (rewrite <- Hk; eauto with dlist).
  destruct (retag_step xs h a false Hw) as (h1 & He & Hr1 & Hf1); [by eapply list_elem_of_lookup_2|done|].
  unfold unmarkTail. rewrite He. cbn. pose proof (proj1 Hr1) as Hm.
  destruct (rep_links _ _ _ Hrep _ _ Hk) as (_ & Hn & _).
  rewrite (meta_next _ _ _ _ _ Hm), Hn. cbn. rewrite wrap_small by (unfold fits; lia).
  destruct (lookup_lt_is_Some_2 xs (S k)) as [b Hb]; [lia|]. rewrite Hb.
  destruct (IH h1 (S k) b) as (k' & h' & Heq & Hlt' & Hr & Hok); try done; try lia.
  - by eapply meta_rep.
  - apply Hm.
  - by eapply tagged_shrink; [apply Hrep|..].
  - exists k', h'. replace (Z.of_nat (length xs) - Z.of_nat k - 1) with
      (Z.of_nat (length xs) - Z.of_nat (S k)) by lia.
    split; [done|]. split; [lia|]. split; [by eapply retag_trans|done].
Qed.

(** The tail size [updateLruInsertionPoint] establishes. *)
Definition tail_target (n spec : Z) : Z := if n =? 0 then 0 else Z.max 1 (Z.shiftr n spec).

Lemma shiftr_le n spec : 0 ≤ n → 0 ≤ spec → 0 ≤ Z.shiftr n spec ≤ n.
Proof.
  intros. rewrite Z.shiftr_div_pow2 by done. assert (0 < 2 ^ spec) by lia. split.
  - apply Z.div_pos; lia.
  - apply Z.div_le_upper_bound; nia.
Qed.
Lemma tail_target_lt n spec : 2 ≤ n → 0 < spec → tail_target n spec < n.
Proof.
  intros. unfold tail_target. destruct (Z.eqb_spec n 0); [lia|].
  assert (Z.shiftr n spec < n); [|lia]. rewrite Z.shiftr_div_pow2 by lia.
  assert (2 ^ 1 ≤ 2 ^ spec) by (apply Z.pow_le_mono_r; lia).
  apply Z.div_lt_upper_bound; nia.
Qed.

Lemma init_point h c xs k : dlist_rep h (lru_ c) xs → words h →
  point_at h xs k (insertionPoint_ c) (tailSize_ c) →
  ∃ k0 h0, initInsertionPoint c h = Ok (xs !! k0, Z.of_nat (length xs) - Z.of_nat k0, h0) ∧
    retag xs h h0 ∧ tagged h0 xs k0 ∧ (k0 < length xs ∨ xs = [] ∧ k0 = 0)%nat.
Proof.
  intros Hrep Hw (Hle & Hip & Hts & Htag). unfold initInsertionPoint. rewrite Hip.
  destruct (xs !! k) as [a|] eqn:Hk.
  - exists k, h. rewrite Hk, Hts. pose proof (lookup_lt_Some _ _ _ Hk).
    split_and!; auto using retag_refl.
  - apply lookup_ge_None in Hk. assert (k = length xs) as -> by lia.
    rewrite (rep_tail _ _ _ Hrep), last_lookup. destruct xs as [|x xs].
    { exists 0%nat, h. split_and!; auto using retag_refl. }
    set (ys := x :: xs) in *. destruct (lookup_lt_is_Some_2 ys (pred (length ys))) as [t Hlt]; [cbn; lia|].
    rewrite Hlt. destruct (retag_step ys h t true Hw) as (h1 & He & Hr1 & Hf1).
    { by eapply list_elem_of_lookup_2. }
    { rewrite <- Hlt. eauto with dlist. }
    unfold markTail. rewrite He. exists (pred (length ys)), h1. rewrite Hlt. res_simpl.
    split; [do 2 f_equal; f_equal; cbn; lia|]. split; [done|]. split; [|left; cbn; lia].
    eapply tagged_grow; [apply Hrep|..|done]; done.
Qed.

Lemma update_steps h c xs k : dlist_rep h (lru_ c) xs → words h →
  point_at h xs k (insertionPoint_ c) (tailSize_ c) → 0 < lruInsertionPointSpec (config_ c) < 64 →
  ∃ k' h', updateLruInsertionPoint (c, h) =
      Ok (with_point (xs !! k') (Z.of_nat (length xs) - Z.of_nat k') c, h') ∧
    retag xs h h' ∧ (k' ≤ length xs)%nat ∧ tagged h' xs k' ∧
    Z.of_nat (length xs) - Z.of_nat k' = tail_target (Z.of_nat (length xs)) (lruInsertionPointSpec (config_ c)).
Proof.
  intros Hrep Hw Hpt Hs. unfold updateLruInsertionPoint.
  rewrite (proj2 (Z.eqb_neq _ _)) by lia.
  destruct (init_point h c xs k Hrep Hw Hpt) as (k0 & h0 & -> & Hr0 & Ht0 & Hk0).
  cbn [mbind result_bind]. pose proof (proj1 Hr0) as Hm0. pose proof (meta_rep _ _ _ _ _ _ _ Hm0 Hrep) as Hrep0.
  pose proof (rep_size _ _ _ Hrep) as Hsz. rewrite Hsz.
  destruct (Z.leb_spec (Z.of_nat (length xs)) 1) as [Hsmall|Hbig].
  { exists k0, h0. split; [done|]. split; [done|]. split; [lia|]. split; [done|]. unfold tail_target.
    destruct (Z.eqb_spec (Z.of_nat (length xs)) 0) as [E|E]; [lia|].
    assert (Z.shiftr (Z.of_nat (length xs)) (lruInsertionPointSpec (config_ c)) ≤ Z.of_nat (length xs))
      by (apply shiftr_le; lia). lia. }
  destruct Hk0 as [Hk0|[-> _]]; [|done]. destruct (lookup_lt_is_Some_2 _ _ Hk0) as [a Ha]. rewrite Ha.
  rewrite (proj2 (Z.ltb_lt _ 64)) by lia. cbn [bool_decide xdcheck mbind result_bind].
  set (e := Z.shiftr _ _). assert (0 ≤ e ≤ Z.of_nat (length xs)) by (apply shiftr_le; lia).
  assert (list_fuel (lru_ c) = length xs) as -> by (unfold list_fuel; rewrite Hsz; apply Nat2Z.id).
  destruct (growTail_spec h0 (lru_ c) xs k0 a e (length xs)) as (k1 & h1 & Hg & Hk1 & Hr1 & Ht1 & He1);
    try done; [apply Hm0|lia|].
  destruct (lookup_lt_is_Some_2 xs k1) as [b Hb]; [lia|]. pose proof (proj1 Hr1) as Hm1.
  destruct (shrinkTail_spec h1 (lru_ c) xs k1 b e (length xs)) as (k2 & h2 & Hsh & Hk2 & Hr2 & Ht2 & He2 & He2');
    try done; [by eapply meta_rep|apply Hm1|lia|lia|].
  exists k2, h2. rewrite Hg. cbn [mbind result_bind]. rewrite Hb, Hsh. cbn [mbind result_bind].
  split; [done|]. split; [by eapply retag_trans, retag_trans|]. split; [lia|]. split; [done|].
  unfold tail_target. fold e. destruct (Z.eqb_spec (Z.of_nat (length xs)) 0); lia.
Qed.

Lemma retag_store xs h h' : store_ok h xs → retag xs h h' → store_ok h' xs.
Proof.
  intros [Hw Hok] [Hm Hf]. split; [apply Hm|]. intros a Ha.
  destruct (Hok a) as (Hv & Hl & Ho); [by apply (meta_alive _ _ _ _ _ Hm)|].
  split; [done|]. split; [by rewrite (meta_linked _ _ _ _ _ Hm)|]. intros Hn.
  rewrite Hf, (meta_next _ _ _ _ _ Hm), (meta_prev _ _ _ _ _ Hm) by auto. auto.
Qed.

(** [updateLruInsertionPoint] re-establishes the invariant, with the tail
    size the configuration asks for. *)
Lemma wf_update h c xs k : dlist_rep h (lru_ c) xs → store_ok h xs →
  point_at h xs k (insertionPoint_ c) (tailSize_ c) →
  0 ≤ lruInsertionPointSpec (config_ c) < 64 →
  (lruInsertionPointSpec (config_ c) = 0 → insertionPoint_ c = None) →
  ∃ c' h', updateLruInsertionPoint (c, h) = Ok (c', h') ∧ mm_wf h' c' xs ∧ retag xs h h' ∧
    c' = with_point (insertionPoint_ c') (tailSize_ c') c ∧
    (lruInsertionPointSpec (config_ c) ≠ 0 →
     tailSize_ c' = tail_target (Z.of_nat (length xs)) (lruInsertionPointSpec (config_ c))).
Proof.
  intros Hrep Hst Hpt Hs Hoff. destruct (decide (lruInsertionPointSpec (config_ c) = 0)) as [E|E].
  - exists c, h. unfold updateLruInsertionPoint. rewrite E.
    split; [done|]. split; [|split; [by apply retag_refl, Hst|split; [by destruct c|done]]].
    split; try done. exists k. split; [done|]. intros ->. destruct Hpt as (_ & Hip & _).
    rewrite Hoff in Hip by done. destruct xs; [cbn; lia|done].
  - destruct (update_steps h c xs k) as (k' & h' & Heq & Hr & Hle & Ht & Hn); try done; [apply Hst|lia|].
    do 2 eexists. split; [done|]. split; [|by split_and!].
    split; try done.
    + eapply meta_rep; [apply Hr|done].
    + by eapply retag_store.
    + exists k'. split; [done|]. intros ->. destruct (decide (length xs ≤ 1)%nat) as [|Hgt]; [done|].
      pose proof (tail_target_lt (Z.of_nat (length xs)) (lruInsertionPointSpec (config_ c))). lia.
Qed.

(** *** The insertion point under insertion and deletion *)
Lemma point_insert h h' xs j k a ip ts : point_at h xs k ip ts → (j ≤ k)%nat → (a ∉ xs) →
  flag kMMFlag0 h' a = false → (∀ b, a ≠ b → flag kMMFlag0 h' b = flag kMMFlag0 h b) →
  point_at h' (insert_at j a xs) (S k) ip ts.
Proof.
  intros (Hle & -> & -> & Ht) Hj Ha Hfa Hfb.
  assert (length (insert_at j a xs) = S (length xs)) as Hlen
    by exact (Permutation_length (insert_at_perm xs j a)).
  split; [lia|]. split; [by rewrite insert_at_lookup_gt by lia|]. split; [lia|].
  intros i b Hi. destruct (decide (i = j)) as [->|Hne].
  - rewrite insert_at_lookup_eq in Hi by lia. injection Hi as <-. rewrite Hfa.
    by rewrite bool_decide_eq_false_2 by lia.
  - assert (∃ i', xs !! i' = Some b ∧ ((i < j ∧ i' = i) ∨ (j < i ∧ i = S i'))%nat) as (i' & Hi' & Hii).
    { destruct (decide (i < j)%nat); [rewrite insert_at_lookup_lt in Hi by lia; eauto|].
      rewrite insert_at_lookup_gt in Hi by lia. exists (pred i). split; [done|lia]. }
    rewrite Hfb by (intros ->; by eapply Ha, list_elem_of_lookup_2). rewrite (Ht _ _ Hi').
    apply bool_decide_ext. lia.
Qed.

Lemma point_delete h h' xs i k a ip ts : point_at h xs k ip ts → NoDup xs → xs !! i = Some a → k ≠ i →
  (∀ b, a ≠ b → flag kMMFlag0 h' b = flag kMMFlag0 h b) →
  point_at h' (delete i xs) (if decide (k < i)%nat then k else pred k) ip
    (if decide (k < i)%nat then ts - 1 else ts).
Proof.
  intros (Hle & -> & -> & Ht) Hnd Hi Hk Hfb. pose proof (lookup_lt_Some _ _ _ Hi).
  assert (length (delete i xs) = pred (length xs)) as Hlen by (rewrite length_delete by eauto; lia).
  split; [case_decide; lia|]. split_and!.
  - case_decide; [by rewrite list_lookup_delete_lt by lia|].
    rewrite list_lookup_delete_ge by lia. f_equal. lia.
  - case_decide; lia.
  - intros j b Hj. assert (a ≠ b).
    { intros ->. apply (delete_not_elem xs i b Hnd Hi). by eapply list_elem_of_lookup_2. }
    rewrite Hfb by done.
    assert (∃ j', xs !! j' = Some b ∧ ((j < i ∧ j' = j) ∨ (i ≤ j ∧ j' = S j))%nat) as (j' & Hj' & Hjj).
    { destruct (decide (j < i)%nat); [rewrite list_lookup_delete_lt in Hj by lia; exists j; auto|].
      rewrite list_lookup_delete_ge in Hj by lia. exists (S j). split; [done|lia]. }
    rewrite (Ht _ _ Hj'). apply bool_decide_ext. case_decide; lia.
Qed.

(** *** Getting out of the insertion point's way *)
Lemma ensure_spec h c xs i a : mm_wf h c xs → xs !! i = Some a →
  ∃ c' h', ensureNotInsertionPoint a (c, h) = Ok (c', h') ∧ retag xs h h' ∧
    c' = with_point (insertionPoint_ c') (tailSize_ c') c ∧
    (lruInsertionPointSpec (config_ c) = 0 → insertionPoint_ c' = None) ∧
    ((∃ k, point_at h' xs k (insertionPoint_ c') (tailSize_ c') ∧ k ≠ i) ∨
     (xs = [a] ∧ insertionPoint_ c' = None ∧ tailSize_ c' = 1 ∧ flag kMMFlag0 h' a = true)).
Proof.
  intros Hwf Hi. destruct (wf_point _ _ _ Hwf) as (k & Hpt & Hk0). pose proof (wf_rep _ _ _ Hwf) as Hrep.
  destruct (wf_store _ _ _ Hwf) as [Hw _]. pose proof Hpt as (Hle & Hip & Hts & Ht).
  unfold ensureNotInsertionPoint. case_decide as Hd.
  2:{ exists c, h. split; [done|]. split; [by apply retag_refl|]. split; [by destruct c|].
      split; [apply Hwf|]. left. exists k. split; [done|]. intros ->. apply Hd. by rewrite Hip. }
  assert (k = i) as ->.
  { rewrite Hip in Hd. symmetry in Hd. by eapply lookup_inj; [apply Hrep|..]. }
  destruct (rep_links _ _ _ Hrep i a Hi) as (_ & _ & Hp). rewrite Hp. res_simpl.
  assert (lruInsertionPointSpec (config_ c) ≠ 0) as Hne.
  { intros E. pose proof (wf_off _ _ _ Hwf E). congruence. }
  destruct i as [|i]; cbn [prev_at].
  - assert (length xs = 1%nat) as Hlen.
    { apply lookup_lt_Some in Hi. specialize (Hk0 eq_refl). lia. }
    rewrite (rep_size _ _ _ Hrep), Hlen. cbn. do 2 eexists. split; [done|].
    split; [by apply retag_refl|]. split; [done|]. split; [done|]. right.
    destruct xs as [|x [|]]; cbn in *; try lia. injection Hi as ->.
    split; [done|]. split; [done|]. split; [by rewrite Hts|]. by apply (Ht 0%nat).
  - pose proof (lookup_lt_Some _ _ _ Hi). pose proof (rep_length Hrep).
    destruct (lookup_lt_is_Some_2 xs i) as [p Hpi]; [lia|]. rewrite Hpi.
    destruct (retag_step xs h p true Hw) as (h1 & He & Hr1 & Hf1).
    { by eapply list_elem_of_lookup_2. }
    { rewrite <- Hpi. eauto with dlist. }
    unfold markTail. rewrite He. res_simpl. do 2 eexists. split; [done|]. split; [done|]. split; [done|].
    split; [done|]. left. exists i. split; [|lia]. cbn. split_and!; [lia|done| |].
    + rewrite wrap_small by (unfold fits; lia). lia.
    + by eapply tagged_grow; [apply Hrep|..].
Qed.
End invariant.

(** ** The operations *)
Section specs.
Context `{PtrCompressor}.
Implicit Types (h : Store) (a b : Z) (l : DList) (c : Container) (xs : list Z) (k : nat).

(** Outside [X], nothing an observer of the items can see changed but tail
    flags. *)
Definition mm_frame (X : list Z) h h' : Prop :=
  (∀ b, is_Some (payload h' b) ↔ is_Some (payload h b)) ∧
  ∀ b, (b ∉ X) → linked h' b = linked h b ∧ time h' b = time h b ∧
    ∀ f, f ≠ kMMFlag0 → flag f h' b = flag f h b.

Lemma store_ok_change h h1 h2 xs xs' lk fl tm : store_ok h xs →
  (∀ b, payload h1 b = payload h b) → meta h2 h1 lk fl tm →
  (∀ b, is_Some (payload h b) → lk b = bool_decide (b ∈ xs')) →
  (∀ b, is_Some (payload h b) → (b ∉ xs') →
    fl kMMFlag0 b = false ∧ getNext h1 b = Ok None ∧ getPrev h1 b = Ok None) →
  store_ok h2 xs'.
Proof.
  intros [_ Hok] Hp Hm Hlk Hout. split; [apply Hm|]. intros b Hb.
  rewrite (meta_alive _ _ _ _ _ Hm), Hp in Hb. split; [by apply Hok|].
  rewrite (meta_linked _ _ _ _ _ Hm), (meta_flag _ _ _ _ _ Hm), (meta_next _ _ _ _ _ Hm),
    (meta_prev _ _ _ _ _ Hm). auto.
Qed.

(** The frame of a list operation, then item updates, then a tail
    adjustment. *)
Lemma mm_frame_intro X xs h h1 h2 h3 lk fl tm : (∀ b, payload h1 b = payload h b) →
  meta h2 h1 lk fl tm → retag xs h2 h3 →
  (∀ b, (b ∉ X) → lk b = linked h b ∧ tm b = time h b ∧ ∀ f, f ≠ kMMFlag0 → fl f b = flag f h b) →
  mm_frame X h h3.
Proof.
  intros Hp Hm [Hm3 Hf] HX. split.
  - intros b. by rewrite (meta_alive _ _ _ _ _ Hm3), (meta_alive _ _ _ _ _ Hm), Hp.
  - intros b Hb. destruct (HX b Hb) as (? & ? & HXf).
    rewrite (meta_linked _ _ _ _ _ Hm3), (meta_time _ _ _ _ _ Hm3), (meta_linked _ _ _ _ _ Hm),
      (meta_time _ _ _ _ _ Hm). split_and!; try done.
    intros f Hne. rewrite Hf, (meta_flag _ _ _ _ _ Hm) by auto. auto.
Qed.

(** Where [add] puts a new node: at the insertion point, or at the head. *)
Definition insert_position c xs : nat :=
  match insertionPoint_ c with
  | Some _ => length xs - Z.to_nat (tailSize_ c) | None => 0 end.

Lemma add_link h c xs a : mm_wf h c xs → is_Some (payload h a) → (a ∉ xs) →
  ∃ l' h', match insertionPoint_ c with
      | Some ip =>
          if lruInsertionPointSpec (config_ c) =? 0 then linkAtHead a (lru_ c, h)
          else insertBefore ip a (lru_ c, h)
      | None => linkAtHead a (lru_ c, h)
      end = Ok (l', h') ∧ dlist_rep h' l' (insert_at (insert_position c xs) a xs) ∧ frame (a :: xs) h h'.
Proof.
  intros Hwf Hal Ha. destruct (wf_store _ _ _ Hwf) as [_ Hok]. destruct (Hok a Hal) as (Hv & _ & Ho).
  destruct (Ho Ha) as (_ & Hn & Hp). pose proof (wf_rep _ _ _ Hwf) as Hrep.
  destruct (wf_point _ _ _ Hwf) as (k & (Hle & Hip & Hts & Ht) & _). unfold insert_position.
  assert (alive h (Some a)) by by eapply getNext_alive.
  destruct (insertionPoint_ c) as [ip|] eqn:E; [|rewrite insert_at_head; by apply linkAtHead_aux].
  destruct (Z.eqb_spec (lruInsertionPointSpec (config_ c)) 0) as [E0|_].
  { pose proof (wf_off _ _ _ Hwf E0). congruence. }
  replace (length xs - Z.to_nat (tailSize_ c))%nat with k by lia.
  by apply insertBefore_aux.
Qed.

Lemma add_aux h c xs a now : mm_wf h c xs → is_Some (payload h a) → (a ∉ xs) →
  ∃ c' h', add a now (c, h) = Ok (true, (c', h')) ∧
    mm_wf h' c' (insert_at (insert_position c xs) a xs) ∧ mm_frame [a] h h' ∧
    linked h' a = true ∧ time h' a = u32 now ∧ flag kMMFlag1 h' a = false ∧
    config_ c' = config_ c ∧
    (lruInsertionPointSpec (config_ c) ≠ 0 →
     tailSize_ c' = tail_target (Z.of_nat (S (length xs))) (lruInsertionPointSpec (config_ c))).
Proof.
  intros Hwf Hal Ha. destruct (wf_store _ _ _ Hwf) as [Hw Hok]. unfold add.
  destruct (Hok a Hal) as (_ & Hlk & Ho). rewrite bool_decide_eq_false_2 in Hlk by done.
  assert (alive h (Some a)) as Hala by by intros ? [= <-].
  rewrite (step_testLinked (meta_refl h Hw)), Hlk by done. res_simpl.
  destruct (add_link h c xs a Hwf Hal Ha) as (l1 & h1 & -> & Hrep1 & Hpl & Hfr). res_simpl.
  destruct (meta_payload h1 h Hpl) as (Hlk1 & Hfl1 & Htm1 & Hw1).
  assert (alive h1 (Some a)) by by eapply alive_payload.
  pose proof (meta_refl h1 (Hw1 Hw)) as Hm.
  hook (step_mark_linked Hm a true) with Hm as k1 Hm1.
  hook (step_setTime Hm1 a (u32 now)) with Hm1 as k2 Hm2. unfold unmarkAccessed.
  hook (step_mark_flag Hm2 kMMFlag1 a false) with Hm2 as h3 Hm3.
  destruct (wf_point _ _ _ Hwf) as (k & Hpt & _). pose proof Hpt as (Hle & Hip & Hts & _).
  set (j := insert_position c xs) in *.
  assert (j ≤ k)%nat as Hj by (unfold j, insert_position; destruct (insertionPoint_ c); lia).
  destruct (wf_update h3 (with_lru l1 c) (insert_at j a xs) (S k)) as (c' & h' & Hup & Hwf' & Hr & Hc' & Hts').
  - cbn. by eapply meta_rep.
  - eapply store_ok_change; [by apply Hwf|done..| |].
    + intros b Hb. unfold set. case_decide as Hd.
      * subst. symmetry. apply bool_decide_eq_true_2, elem_of_insert_at. by left.
      * rewrite Hlk1. destruct (Hok b Hb) as (_ & -> & _). apply bool_decide_ext.
        rewrite elem_of_insert_at. naive_solver.
    + intros b Hb. rewrite insert_at_perm, not_elem_of_cons. intros [Hba Hbx].
      destruct (Hok b Hb) as (_ & _ & Hob). destruct (Hob Hbx) as (? & ? & ?).
      destruct (Hfr b) as [-> ->]; [by apply not_elem_of_cons|]. unfold setf.
      rewrite decide_False by done. by rewrite Hfl1.
  - cbn. eapply point_insert; [done..| |].
    + rewrite (meta_flag _ _ _ _ _ Hm3). unfold setf. rewrite decide_False, Hfl1 by done. by apply Ho.
    + intros b _. rewrite (meta_flag _ _ _ _ _ Hm3). unfold setf. by rewrite decide_False, Hfl1 by done.
  - apply Hwf.
  - apply Hwf.
  - rewrite Hup. res_simpl. exists c', h'. split; [done|]. split; [done|]. split_and!.
    + eapply mm_frame_intro; [done..|]. intros b Hb%not_elem_of_cons. unfold setf, set.
      rewrite !(decide_False (P := a = b)) by naive_solver. rewrite Hlk1, Htm1. split_and!; try done.
      intros f _. rewrite Hfl1. by case_decide; subst; rewrite ?Hfl1.
    + rewrite (meta_linked _ _ _ _ _ (proj1 Hr)), (meta_linked _ _ _ _ _ Hm3). unfold set. by rewrite decide_True.
    + rewrite (meta_time _ _ _ _ _ (proj1 Hr)), (meta_time _ _ _ _ _ Hm3). unfold set. by rewrite decide_True.
    + rewrite (proj2 Hr) by by left. rewrite (meta_flag _ _ _ _ _ Hm3). unfold setf, set.
      by rewrite !decide_True.
    + by rewrite Hc'.
    + intros Hne. rewrite Hts' by done. do 2 f_equal. exact (Permutation_length (insert_at_perm xs j a)).
Qed.

Lemma mm_frame_trans X h1 h2 h3 : mm_frame X h1 h2 → mm_frame X h2 h3 → mm_frame X h1 h3.
Proof.
  intros [Ha1 H1] [Ha2 H2]. split; [intros b; by rewrite Ha2|]. intros b Hb.
  destruct (H1 b Hb) as (<- & <- & Hf1). destruct (H2 b Hb) as (-> & -> & Hf2). split_and!; try done.
  intros f Hf. by rewrite Hf2, Hf1.
Qed.
Lemma retag_frame X xs h h' : retag xs h h' → mm_frame X h h'.
Proof.
  intros [Hm Hf]. split; [apply Hm|]. intros b _. split_and!; [apply Hm..|]. intros f ?. apply Hf. by left.
Qed.

(** [if (isTail(node)) { unmarkTail(node); tailSize_--; }]. *)
Lemma untail_step {h h0 lk fl tm} (Hm : meta h h0 lk fl tm) a ts : alive h0 (Some a) →
  ∃ h', (if fl kMMFlag0 a then h ← unmarkTail a h; Ok (u64 (ts - 1), h) else Ok (ts, h)) =
      Ok (if fl kMMFlag0 a then u64 (ts - 1) else ts, h') ∧
    meta h' h0 lk (setf kMMFlag0 a false fl) tm.
Proof.
  intros Ha. destruct (fl kMMFlag0 a) eqn:E.
  - destruct (step_mark_flag Hm kMMFlag0 a false Ha) as (h' & He & Hm'). unfold unmarkTail. rewrite He. eauto.
  - exists h. split; [done|]. split; try apply Hm. intros f b. rewrite (meta_flag _ _ _ _ _ Hm).
    unfold setf, set. case_decide; [|done]. case_decide; by subst.
Qed.

(** The insertion point once position [i] is gone. *)
Lemma point_removed h1 h2 xs i a ip ts : NoDup xs → xs !! i = Some a → Z.of_nat (length xs) ≤ 2 ^ 32 →
  (∃ k, point_at h1 xs k ip ts ∧ k ≠ i) ∨
    (xs = [a] ∧ ip = None ∧ ts = 1 ∧ flag kMMFlag0 h1 a = true) →
  (∀ b, a ≠ b → flag kMMFlag0 h2 b = flag kMMFlag0 h1 b) →
  ∃ k, point_at h2 (delete i xs) k ip (if flag kMMFlag0 h1 a then u64 (ts - 1) else ts) ∧
    (flag kMMFlag0 h1 a = false → (i ≤ k)%nat).
Proof.
  intros Hnd Hi Hlen [(k & Hpt & Hk)|(-> & -> & -> & ->)] Hf.
  - pose proof (point_delete _ h2 _ _ _ _ _ _ Hpt Hnd Hi Hk Hf) as Hd.
    destruct Hpt as (Hle & _ & Hts & Ht). rewrite (Ht i a Hi). pose proof (lookup_lt_Some _ _ _ Hi).
    exists (if decide (k < i)%nat then k else pred k). case_decide as Hki.
    + rewrite bool_decide_eq_true_2 by lia. rewrite wrap_small by (unfold fits; lia). by split.
    + rewrite bool_decide_eq_false_2 by lia. split; [done|lia].
  - apply list_lookup_singleton_Some in Hi as [-> _]. exists 0%nat. split; [|done]. by split_and!.
Qed.

(** The items once the node is out of the list and its bits are cleared. *)
Lemma removed_store h1 h2 h5 xs i a tm : store_ok h1 xs → NoDup xs → xs !! i = Some a → frame xs h1 h2 →
  getNext h2 a = Ok None → getPrev h2 a = Ok None →
  meta h5 h2 (set a false (linked h2)) (setf kMMFlag0 a false (setf kMMFlag1 a false (λ f, flag f h2))) tm →
  store_ok h5 (delete i xs).
Proof.
  intros Hst Hnd Hi [Hpl Hfr] Hn2 Hp2 Hm5. pose proof Hst as [_ Hok1]. destruct (meta_payload h2 h1 Hpl) as (Hlk2 & Hfl2 & _).
  eapply store_ok_change; [done..| |].
  - intros b Hb. unfold set. case_decide as Hd.
    + subst. symmetry. apply bool_decide_eq_false_2. by apply delete_not_elem.
    + rewrite Hlk2. destruct (Hok1 b Hb) as (_ & -> & _). apply bool_decide_ext.
      rewrite (elem_of_delete xs i a) by done. naive_solver.
  - intros b Hb. rewrite (elem_of_delete xs i a) by done. intros Hbx. unfold setf, set.
    rewrite decide_True by done. case_decide; [by subst|].
    rewrite decide_False, Hfl2 by done. destruct (Hfr b) as [-> ->]; [naive_solver|].
    apply Hok1; naive_solver.
Qed.

Lemma removeLocked_aux h c xs i a : mm_wf h c xs → xs !! i = Some a →
  ∃ c' h', removeLocked a (c, h) = Ok (c', h') ∧ mm_wf h' c' (delete i xs) ∧ mm_frame [a] h h' ∧
    linked h' a = false ∧ time h' a = time h a ∧ flag kMMFlag1 h' a = false ∧ config_ c' = config_ c ∧
    (lruInsertionPointSpec (config_ c) ≠ 0 →
     tailSize_ c' = tail_target (Z.of_nat (pred (length xs))) (lruInsertionPointSpec (config_ c))).
Proof.
  intros Hwf Hi. pose proof (wf_rep _ _ _ Hwf) as Hrep. pose proof (rep_nodup _ _ _ Hrep) as Hnd.
  destruct (ensure_spec h c xs i a Hwf Hi) as (c1 & h1 & He & Hr1 & Hc1 & Hoff1 & Hpt1).
  unfold removeLocked. rewrite He. res_simpl.
  pose proof (meta_rep _ _ _ _ _ _ _ (proj1 Hr1) Hrep) as Hrep1.
  pose proof (retag_store _ _ _ (wf_store _ _ _ Hwf) Hr1) as Hst1. pose proof Hst1 as [Hw1 Hok1].
  assert (lru_ c1 = lru_ c) as -> by by rewrite Hc1.
  destruct (remove_aux h1 (lru_ c) xs i a Hrep1 Hi) as (l2 & h2 & -> & Hrep2 & [Hpl Hfr] & Hn2 & Hp2).
  res_simpl. destruct (meta_payload h2 h1 Hpl) as (Hlk2 & Hfl2 & Htm2 & Hw2).
  assert (alive h2 (Some a)) as Hal by by eapply getNext_alive.
  pose proof (meta_refl h2 (Hw2 Hw1)) as Hm. unfold unmarkAccessed.
  hook (step_mark_flag Hm kMMFlag1 a false) with Hm as h3 Hm3.
  unfold isTail. rewrite (step_testFlag Hm3) by done. res_simpl.
  destruct (untail_step Hm3 a (tailSize_ c1) Hal) as (h4 & -> & Hm4). res_simpl. clear Hm3.
  hook (step_mark_linked Hm4 a false) with Hm4 as h5 Hm5.
  assert (setf kMMFlag1 a false (λ f, flag f h2) kMMFlag0 a = flag kMMFlag0 h1 a) as ->
    by (unfold setf; by rewrite decide_False, Hfl2).
  destruct (point_removed h1 h5 xs i a (insertionPoint_ c1) (tailSize_ c1)) as (k & Hpt & _); try done.
  { apply (rep_length Hrep). }
  { intros b Hb. rewrite (meta_flag _ _ _ _ _ Hm5). unfold setf, set.
    by rewrite decide_True, (decide_False (P := a = b)), decide_False, Hfl2 by done. }
  destruct (wf_update h5 (with_point (insertionPoint_ c1)
      (if flag kMMFlag0 h1 a then u64 (tailSize_ c1 - 1) else tailSize_ c1) (with_lru l2 c1))
      (delete i xs) k) as (c' & h' & Hup & Hwf' & Hr & Hc' & Hts'); try done.
  - cbn. by eapply meta_rep.
  - by apply (removed_store h1 h2 h5 xs i a (time h2)).
  - rewrite Hc1. apply Hwf.
  - cbn. rewrite Hc1. apply Hoff1.
  - rewrite Hup. exists c', h'. split; [done|]. split; [done|].
    assert (config_ c1 = config_ c) as Hcfg by by rewrite Hc1. split_and!.
    + eapply mm_frame_trans; [by eapply retag_frame|]. eapply mm_frame_intro; [done..|].
      intros b Hb%not_elem_of_cons. unfold setf, set.
      rewrite !(decide_False (P := a = b)) by naive_solver. rewrite Hlk2, Htm2. split_and!; try done.
      intros f _. rewrite Hfl2. repeat case_decide; subst; by rewrite ?Hfl2.
    + rewrite (meta_linked _ _ _ _ _ (proj1 Hr)), (meta_linked _ _ _ _ _ Hm5). unfold set. by rewrite decide_True.
    + rewrite (meta_time _ _ _ _ _ (proj1 Hr)), (meta_time _ _ _ _ _ Hm5), Htm2. apply Hr1.
    + rewrite (proj2 Hr) by by left. rewrite (meta_flag _ _ _ _ _ Hm5). unfold setf, set.
      rewrite decide_False, !decide_True by done. done.
    + rewrite Hc'. cbn. done.
    + cbn in Hts'. rewrite <- Hcfg. intros Hne. rewrite Hts' by done. do 2 f_equal.
      rewrite length_delete by eauto. lia.
Qed.

(** *** Statistics *)
Lemma getEvictionAgeStat_aux h c xs n now : mm_wf h c xs → 0 ≤ n →
  getEvictionAgeStatLocked c n now h = Ok (mkEvictionAgeStat (mkEvictionStatPerType (age h now (last xs)) 0
    (match prev_at xs (length xs - Z.to_nat n) with
     | Some a => age h now (Some a) | None => age h now (last xs) end)) EvictionStat_zero EvictionStat_zero).
Proof.
  intros Hwf Hn. pose proof (wf_rep _ _ _ Hwf) as Hrep. destruct (wf_store _ _ _ Hwf) as [Hw _].
  unfold getEvictionAgeStatLocked. rewrite (rep_tail _ _ _ Hrep), <- prev_at_length.
  rewrite alive_age; [|done|apply (rep_alive_prev Hrep)]. res_simpl.
  rewrite (walkBack_spec h (lru_ c)); try done; [|unfold list_fuel; rewrite (rep_size _ _ _ Hrep); lia].
  res_simpl. pose proof (rep_alive_prev Hrep (length xs - Z.to_nat n)) as Hal.
  destruct (prev_at xs (length xs - Z.to_nat n)) as [a|]; [|done]. cbn.
  rewrite (step_getTime (meta_refl h Hw)) by done. done.
Qed.

Definition ratio_ok (cfg : Config) : Prop := scale_ok (lruRefreshRatio cfg).

Lemma reconfigure_aux h c xs curr now : mm_wf h c xs → ratio_ok (config_ c) →
  ∃ c', reconfigureLocked curr now c h = Ok c' ∧ mm_wf h c' xs ∧ config_ c' = config_ c ∧
    if curr <? nextReconfigureTime_ c then c' = c
    else nextReconfigureTime_ c' = u32 (curr + mmReconfigureIntervalSecs (config_ c)) ∧
      ∃ r, double_to_u32 (double_mul (double_of_u64 (age h now (last xs))) (lruRefreshRatio (config_ c))) = Ok r ∧
        lruRefreshTime_ c' = Z.min (Z.max (defaultLruRefreshTime (config_ c)) r) kLruRefreshTimeCap.
Proof.
  intros Hwf Hr. unfold reconfigureLocked. destruct (_ <? _); [by exists c|].
  rewrite (getEvictionAgeStat_aux h c xs) by done. res_simpl.
  destruct (Hr (age h now (last xs)) (age_fits _ _ _)) as [r Hr']. cbn [oldestElementAge warmQueueStat].
  rewrite Hr'. res_simpl. eexists. split; [done|]. split; [|by eauto].
  split; apply Hwf.
Qed.

(** *** Promotion *)

(** The state once the node sits at the head with its tail flag cleared. *)
Lemma promoted h1 h2 h4 xs i a ip ts tm : store_ok h1 xs → NoDup xs → xs !! i = Some a →
  Z.of_nat (length xs) ≤ 2 ^ 32 → frame xs h1 h2 →
  meta h4 h2 (linked h2) (setf kMMFlag0 a false (λ f, flag f h2)) tm →
  (∃ k, point_at h1 xs k ip ts ∧ k ≠ i) ∨
    (xs = [a] ∧ ip = None ∧ ts = 1 ∧ flag kMMFlag0 h1 a = true) →
  store_ok h4 (a :: delete i xs) ∧
  ∃ k, point_at h4 (a :: delete i xs) (S k) ip (if flag kMMFlag0 h1 a then u64 (ts - 1) else ts).
Proof.
  intros Hst Hnd Hi Hlen [Hpl Hfr] Hm Hpt. pose proof Hst as [_ Hok].
  destruct (meta_payload h2 h1 Hpl) as (Hlk2 & Hfl2 & _).
  assert (a ∈ xs) by by eapply list_elem_of_lookup_2.
  assert (∀ b, b ∈ a :: delete i xs ↔ b ∈ xs) as Hin.
  { intros b. rewrite elem_of_cons, (elem_of_delete xs i a) by done.
    destruct (decide (b = a)); naive_solver. }
  assert (∀ b, a ≠ b → flag kMMFlag0 h4 b = flag kMMFlag0 h1 b) as Hfb.
  { intros b Hb. rewrite (meta_flag _ _ _ _ _ Hm). unfold setf, set.
    by rewrite decide_True, (decide_False (P := a = b)), Hfl2 by done. }
  split.
  - eapply store_ok_change; [done..| |].
    + intros b Hb. rewrite Hlk2. destruct (Hok b Hb) as (_ & -> & _). by apply bool_decide_ext.
    + intros b Hb. rewrite Hin. intros Hbx. destruct (Hfr b Hbx) as [-> ->].
      rewrite <- (meta_flag _ _ _ _ _ Hm), Hfb by naive_solver. by apply Hok.
  - destruct (point_removed h1 h4 xs i a ip ts) as (k & Hk & _); try done. exists k.
    rewrite <- insert_at_head. eapply point_insert; [done|lia|by apply delete_not_elem| |done].
    rewrite (meta_flag _ _ _ _ _ Hm). unfold setf, set. by rewrite !decide_True.
Qed.

(** The last step of a promotion: the insertion point is repaired when the node
    was in the tail. *)
Lemma promoted_update h4 c1 l2 ys k (t : bool) :
  dlist_rep h4 l2 ys → store_ok h4 ys → words h4 →
  point_at h4 ys k (insertionPoint_ c1) (if t then u64 (tailSize_ c1 - 1) else tailSize_ c1) → k ≠ 0%nat →
  0 ≤ lruInsertionPointSpec (config_ c1) < 64 →
  (lruInsertionPointSpec (config_ c1) = 0 → insertionPoint_ c1 = None) →
  ∃ c' h', (if t then updateLruInsertionPoint
      (with_point (insertionPoint_ c1) (if t then u64 (tailSize_ c1 - 1) else tailSize_ c1) (with_lru l2 c1), h4)
      else Ok (with_lru l2 c1, h4)) = Ok (c', h') ∧
    mm_wf h' c' ys ∧ retag ys h4 h' ∧
    config_ c' = config_ c1 ∧ lruRefreshTime_ c' = lruRefreshTime_ c1 ∧ nextReconfigureTime_ c' = nextReconfigureTime_ c1.
Proof.
  intros Hrep Hst Hw Hpt Hk Hsp Hoff. destruct t.
  - destruct (wf_update h4 (with_point (insertionPoint_ c1) (u64 (tailSize_ c1 - 1)) (with_lru l2 c1)) ys k)
      as (c' & h' & ? & ? & ? & Hc' & _); try done.
    exists c', h'. split_and!; try done; by rewrite Hc'.
  - exists (with_lru l2 c1), h4. split; [done|]. split; [|split; [by apply retag_refl|done]].
    split; try done. exists k. split; [done|]. by intros ->.
Qed.

Lemma recordAccess_func_aux h c xs i a curr now : mm_wf h c xs → ratio_ok (config_ c) → xs !! i = Some a →
  ∃ c' h', recordAccess_func a curr now (c, h) = Ok (c', h') ∧ mm_wf h' c' (a :: delete i xs) ∧
    mm_frame [a] h h' ∧ linked h' a = true ∧ time h' a = curr ∧
    flag kMMFlag1 h' a = flag kMMFlag1 h a ∧ config_ c' = config_ c ∧
    ∃ c1, reconfigureLocked curr now c h = Ok c1 ∧ lruRefreshTime_ c' = lruRefreshTime_ c1 ∧
      nextReconfigureTime_ c' = nextReconfigureTime_ c1.
Proof.
  intros Hwf0 Hratio Hi. unfold recordAccess_func.
  destruct (reconfigure_aux h c xs curr now Hwf0 Hratio) as (c0 & Hre & Hwf & Hcfg & _).
  rewrite Hre. res_simpl.
  pose proof (wf_rep _ _ _ Hwf) as Hrep. pose proof (rep_nodup _ _ _ Hrep) as Hnd.
  destruct (ensure_spec h c0 xs i a Hwf Hi) as (c1 & h1 & He & Hr1 & Hc1 & Hoff1 & Hpt1).
  rewrite He. res_simpl.
  pose proof (meta_rep _ _ _ _ _ _ _ (proj1 Hr1) Hrep) as Hrep1.
  pose proof (retag_store _ _ _ (wf_store _ _ _ Hwf) Hr1) as Hst1. pose proof Hst1 as [Hw1 Hok1].
  assert (lru_ c1 = lru_ c0) as -> by by rewrite Hc1.
  assert (alive h1 (Some a)) as Hal1 by (rewrite <- Hi; eauto with dlist).
  assert (a ∈ xs) as Hax by by eapply list_elem_of_lookup_2.
  rewrite (step_testLinked (meta_refl h1 Hw1)) by done. res_simpl.
  destruct (Hok1 a (Hal1 a eq_refl)) as (_ & Hlka & _). rewrite bool_decide_eq_true_2 in Hlka by done.
  rewrite Hlka.
  destruct (moveToHead_aux h1 (lru_ c0) xs i a Hrep1 Hi) as (l2 & h2 & -> & Hrep2 & [Hpl Hfr]).
  res_simpl. destruct (meta_payload h2 h1 Hpl) as (Hlk2 & Hfl2 & Htm2 & Hw2).
  assert (alive h2 (Some a)) as Hal by by eapply alive_payload.
  pose proof (meta_refl h2 (Hw2 Hw1)) as Hm.
  hook (step_setTime Hm a curr) with Hm as h3 Hm3.
  unfold isTail. rewrite (step_testFlag Hm3) by done. res_simpl. rewrite Hfl2.
  destruct (untail_step Hm3 a (tailSize_ c1) Hal) as (h4 & Hun & Hm4). rewrite Hfl2 in Hun.
  destruct (promoted h1 h2 h4 xs i a (insertionPoint_ c1) (tailSize_ c1) _ Hst1 Hnd Hi (rep_length Hrep)
    (conj Hpl Hfr) Hm4 Hpt1) as (Hst4 & k & Hpt4).
  pose proof (meta_rep _ _ _ _ _ _ _ Hm4 Hrep2) as Hrep4.
  assert (config_ c1 = config_ c) as Hcfg1 by by rewrite Hc1.
  destruct (promoted_update h4 c1 l2 (a :: delete i xs) (S k) (flag kMMFlag0 h1 a))
    as (c' & h' & Hs & Hwf' & Hr' & Hcfg' & Hrt & Hnt);
    [done|done|apply Hm4|done|done|rewrite Hc1; apply Hwf|rewrite Hc1; apply Hoff1|].
  exists c', h'. split.
  { rewrite <- Hs. destruct (flag kMMFlag0 h1 a); [|by simplify_eq].
    destruct (unmarkTail a h3); res_simpl; by simplify_eq. }
  split; [done|]. split_and!.
  - eapply mm_frame_trans; [by eapply retag_frame|]. eapply mm_frame_intro; [done..|].
    intros b Hb%not_elem_of_cons. unfold setf, set.
    rewrite !(decide_False (P := a = b)) by naive_solver. rewrite Hlk2, Htm2. split_and!; try done.
    intros f _. rewrite !Hfl2. by case_decide; subst.
  - rewrite (meta_linked _ _ _ _ _ (proj1 Hr')), (meta_linked _ _ _ _ _ Hm4). by rewrite Hlk2.
  - rewrite (meta_time _ _ _ _ _ (proj1 Hr')), (meta_time _ _ _ _ _ Hm4). unfold set. by rewrite decide_True.
  - rewrite (proj2 Hr') by by left. rewrite (meta_flag _ _ _ _ _ Hm4). unfold setf.
    rewrite decide_False, Hfl2 by done. apply Hr1. by left.
  - congruence.
  - exists c0. rewrite Hrt, Hnt, Hc1. done.
Qed.

(** *** Replacement *)
Lemma replace_items {h h1} a n acc t T : (∀ b, payload h1 b = payload h b) → words h →
  alive h (Some a) → alive h (Some n) → a ≠ n → flag kMMFlag0 h n = false →
  flag kMMFlag1 h a = acc → flag kMMFlag0 h a = t → time h a = T →
  ∃ h', (∀ B (K : Store → result B),
        (h ← withRef unmarkInMMContainer a h1; h ← withRef markInMMContainer n h;
         h ← setUpdateTime n T h; acc ← isAccessed h a;
         h ← (if acc : bool then markAccessed n h else unmarkAccessed n h);
         tn ← isTail h n; _ ← xdcheck (negb tn); t ← isTail h a;
         h ← (if t : bool then h ← markTail n h; unmarkTail a h else unmarkTail n h); K h) = K h') ∧
    meta h' h1 (set n true (set a false (linked h)))
      (λ f b, if decide (f = kMMFlag0) then set a false (set n t (flag f h)) b
              else setf kMMFlag1 n acc (λ f, flag f h) f b) (set n T (time h)).
Proof.
  intros Hpl Hw Ha Hn Hne Hfn Hacc Ht HT. destruct (meta_payload h1 h Hpl) as (Hlk & Hfl & Htm & Hw1).
  assert (alive h1 (Some a)) by by eapply alive_payload. assert (alive h1 (Some n)) by by eapply alive_payload.
  pose proof (meta_refl h1 (Hw1 Hw)) as Hm.
  destruct (step_mark_linked Hm a false) as (k1 & He1 & Hm1); [done|].
  destruct (step_mark_linked Hm1 n true) as (k2 & He2 & Hm2); [done|].
  destruct (step_setTime Hm2 n T) as (k3 & He3 & Hm3); [done|].
  destruct (step_mark_flag Hm3 kMMFlag1 n acc) as (k4 & He4 & Hm4); [done|].
  assert (∀ b, setf kMMFlag1 n acc (λ f, flag f h1) kMMFlag0 b = flag kMMFlag0 h b) as Hf0
    by (intros b; unfold setf; by rewrite decide_False, Hfl).
  destruct (step_mark_flag Hm4 kMMFlag0 n t) as (k5 & He5 & Hm5); [done|].
  destruct (step_mark_flag Hm5 kMMFlag0 a false) as (k6 & He6 & Hm6); [done|].
  assert (∃ h', (if t : bool then h ← markTail n k4; unmarkTail a h else unmarkTail n k4) = Ok h' ∧
    meta h' h1 (set n true (set a false (linked h1)))
      (setf kMMFlag0 a false (setf kMMFlag0 n t (setf kMMFlag1 n acc (λ f, flag f h1))))
      (set n T (time h1))) as (h' & He' & Hm').
  { unfold markTail, unmarkTail. destruct t; [rewrite He5; eauto|].
    exists k5. split; [done|]. split; try apply Hm5. intros f b. rewrite (meta_flag _ _ _ _ _ Hm5).
    unfold setf, set. repeat case_decide; subst; rewrite ?Hfl; done. }
  exists h'. split.
  { intros B K. rewrite He1. res_simpl. rewrite He2. res_simpl. rewrite He3. res_simpl.
    unfold isAccessed, isTail. rewrite (step_testFlag Hm3) by done. res_simpl. rewrite Hfl, Hacc.
    assert ((if acc : bool then markAccessed n k3 else unmarkAccessed n k3) = Ok k4) as ->
      by (rewrite <- He4; by destruct acc). res_simpl.
    rewrite !(step_testFlag Hm4) by done. res_simpl. rewrite !Hf0, Hfn, Ht. res_simpl.
    by rewrite He'. }
  split; try apply Hm'; intros.
  - rewrite (meta_linked _ _ _ _ _ Hm'). unfold set. by rewrite Hlk.
  - rewrite (meta_flag _ _ _ _ _ Hm'). unfold setf, set. repeat case_decide; subst; rewrite ?Hfl; done.
  - rewrite (meta_time _ _ _ _ _ Hm'). unfold set. by rewrite !Htm.
Qed.

Lemma point_replace h h' xs i k a n ip ts : point_at h xs k ip ts → NoDup xs → xs !! i = Some a → (n ∉ xs) →
  flag kMMFlag0 h' n = flag kMMFlag0 h a →
  (∀ b, b ≠ a → b ≠ n → flag kMMFlag0 h' b = flag kMMFlag0 h b) →
  point_at h' (<[i := n]> xs) k (if decide (ip = Some a) then Some n else ip) ts.
Proof.
  intros (Hle & -> & -> & Ht) Hnd Hi Hn Hfn Hfb. pose proof (lookup_lt_Some _ _ _ Hi).
  split_and!; [by rewrite length_insert| |by rewrite length_insert|].
  - case_decide as Hd.
    + pose proof (lookup_inj _ _ _ _ Hnd Hd Hi) as ->. by rewrite list_lookup_insert_eq.
    + rewrite list_lookup_insert_ne; [done|]. intros ->. done.
  - intros j b. destruct (decide (i = j)) as [<-|Hij].
    + rewrite list_lookup_insert_eq by done. intros [= <-]. rewrite Hfn. by apply Ht.
    + rewrite list_lookup_insert_ne by done. intros Hj. rewrite Hfb; [by apply Ht|..].
      * intros ->. by eapply Hij, lookup_inj.
      * intros ->. by eapply Hn, list_elem_of_lookup_2.
Qed.

Lemma replaceNode_aux h c xs i a n : mm_wf h c xs → xs !! i = Some a → is_Some (payload h n) → (n ∉ xs) →
  ∃ c' h', replaceNode a n (c, h) = Ok (true, (c', h')) ∧ mm_wf h' c' (<[i := n]> xs) ∧
    mm_frame [a; n] h h' ∧ linked h' a = false ∧ linked h' n = true ∧ time h' n = time h a ∧
    flag kMMFlag1 h' n = flag kMMFlag1 h a ∧ config_ c' = config_ c ∧ tailSize_ c' = tailSize_ c.
Proof.
  intros Hwf Hi Haln Hn. pose proof (wf_rep _ _ _ Hwf) as Hrep. pose proof (rep_nodup _ _ _ Hrep) as Hnd.
  pose proof (wf_store _ _ _ Hwf) as Hst. pose proof Hst as [Hw Hok].
  assert (a ∈ xs) as Hax by by eapply list_elem_of_lookup_2. assert (a ≠ n) by naive_solver.
  assert (alive h (Some a)) as Hal by (rewrite <- Hi; eauto with dlist).
  assert (alive h (Some n)) as Haln' by by intros ? [= <-].
  destruct (Hok a (Hal a eq_refl)) as (_ & Hla & _). rewrite bool_decide_eq_true_2 in Hla by done.
  destruct (Hok n Haln) as (Hvn & Hln & Hon). rewrite bool_decide_eq_false_2 in Hln by done.
  destruct (Hon Hn) as (Hfn & _ & _). unfold replaceNode.
  rewrite !(step_testLinked (meta_refl h Hw)), Hla, Hln, (step_getTime (meta_refl h Hw)) by done. res_simpl.
  destruct (replace_aux h (lru_ c) xs i a n) as (l1 & h1 & -> & Hrep1 & [Hpl Hfr] & Hna & Hpa); try done.
  res_simpl. destruct (replace_items a n _ _ _ Hpl Hw Hal Haln' ltac:(done) Hfn eq_refl eq_refl eq_refl) as (h' & HK & Hm).
  rewrite HK. do 2 eexists. split; [done|]. split; [split|]; cbn.
  - by eapply meta_rep.
  - eapply store_ok_change; [done..| |].
    + intros b Hb. unfold set. destruct (Hok b Hb) as (_ & Hlb & _).
      pose proof (elem_of_list_insert xs i a n b Hnd Hi) as Hin.
      destruct (decide (n = b)); [|destruct (decide (a = b))]; subst; [symmetry; apply bool_decide_eq_true_2|symmetry; apply bool_decide_eq_false_2|
        rewrite Hlb; apply bool_decide_ext]; naive_solver.
    + intros b Hb. rewrite (elem_of_list_insert xs i a n) by done. intros Hbx. rewrite decide_True by done.
      unfold set. case_decide; [by subst|]. rewrite decide_False by naive_solver.
      destruct (Hfr b) as [-> ->]; [set_solver|]. apply Hok; naive_solver.
  - destruct (wf_point _ _ _ Hwf) as (k & Hpt & Hk). exists k. rewrite length_insert. split; [|done].
    eapply point_replace; try done.
    + rewrite (meta_flag _ _ _ _ _ Hm), decide_True by done. unfold set.
      by rewrite decide_False, decide_True by done.
    + intros b ??. rewrite (meta_flag _ _ _ _ _ Hm), decide_True by done. unfold set.
      by rewrite !decide_False by done.
  - apply Hwf.
  - intros E. by rewrite (wf_off _ _ _ Hwf E).
  - split_and!; try done.
    + split; [intros b; by rewrite (meta_alive _ _ _ _ _ Hm), Hpl|]. intros b [??]%not_elem_of_cons.
      assert (n ≠ b ∧ a ≠ b) as [??] by set_solver. split_and!.
      * rewrite (meta_linked _ _ _ _ _ Hm). unfold set. by rewrite !decide_False.
      * rewrite (meta_time _ _ _ _ _ Hm). unfold set. by rewrite decide_False.
      * intros f Hf. rewrite (meta_flag _ _ _ _ _ Hm), decide_False by done. unfold setf, set.
        rewrite (decide_False (P := n = b)) by done. by case_decide; subst.
    + rewrite (meta_linked _ _ _ _ _ Hm). unfold set. by rewrite decide_False, decide_True by done.
    + rewrite (meta_linked _ _ _ _ _ Hm). unfold set. by rewrite decide_True.
    + rewrite (meta_time _ _ _ _ _ Hm). unfold set. by rewrite decide_True.
    + rewrite (meta_flag _ _ _ _ _ Hm), decide_False by done. unfold setf, set. by rewrite !decide_True.
Qed.

(** *** Configuration *)
Lemma clearTail_spec h l xs k fuel : dlist_rep h l xs → words h → tagged h xs k → (k ≤ length xs)%nat →
  (length xs ≤ k + fuel)%nat →
  ∃ h', clearTail fuel (xs !! k) (Z.of_nat (length xs) - Z.of_nat k) h = Ok h' ∧
    retag xs h h' ∧ tagged h' xs (length xs).
Proof.
  revert h k. induction fuel as [|fuel IH]; intros h k Hrep Hw Ht Hk Hf; cbn [clearTail];
    (destruct (decide (k = length xs)) as [->|Hne];
     [rewrite Z.sub_diag; exists h; split_and!; auto using retag_refl|]); [lia|].
  rewrite (proj2 (Z.eqb_neq _ _)) by lia. pose proof (rep_length Hrep).
  destruct (lookup_lt_is_Some_2 xs k) as [a Ha]; [lia|]. rewrite Ha. cbn [deref mbind result_bind].
  destruct (retag_step xs h a false Hw) as (h1 & He & Hr1 & Hf1).
  { by eapply list_elem_of_lookup_2. }
  { rewrite <- Ha. eauto with dlist. }
  unfold unmarkTail. rewrite He. res_simpl. pose proof (proj1 Hr1) as Hm.
  destruct (rep_links _ _ _ Hrep k a Ha) as (_ & Hn & _). rewrite (meta_next _ _ _ _ _ Hm), Hn. res_simpl.
  rewrite wrap_small by (unfold fits; lia).
  replace (Z.of_nat (length xs) - Z.of_nat k - 1) with (Z.of_nat (length xs) - Z.of_nat (S k)) by lia.
  destruct (IH h1 (S k)) as (h' & ? & ? & ?); try lia.
  - by eapply meta_rep.
  - apply Hm.
  - by eapply tagged_shrink; [apply Hrep|..].
  - exists h'. split_and!; try done. by eapply retag_trans.
Qed.

Lemma setConfig_aux h c xs cfg now : mm_wf h c xs → 0 ≤ lruInsertionPointSpec cfg < 64 →
  ∃ c' h', setConfig cfg now (c, h) = Ok (c', h') ∧ mm_wf h' c' xs ∧ mm_frame [] h h' ∧
    config_ c' = cfg ∧ lruRefreshTime_ c' = lruRefreshTime cfg ∧
    nextReconfigureTime_ c' = reconfigureTime cfg now.
Proof.
  intros Hwf Hs. destruct (wf_point _ _ _ Hwf) as (k & (Hle & Hip & Hts & Ht) & Hk).
  pose proof (wf_store _ _ _ Hwf) as Hst. pose proof (wf_rep _ _ _ Hwf) as Hrep. unfold setConfig.
  destruct (andb _ _) eqn:E.
  - apply andb_prop in E as [E0%Z.eqb_eq E]. rewrite Hts, Hip.
    destruct (clearTail_spec h (lru_ c) xs k (Z.to_nat (Z.of_nat (length xs) - Z.of_nat k)))
      as (h' & -> & Hr & Ht'); try done; [apply Hst|lia|]. res_simpl.
    do 2 eexists. split; [done|]. split; [|split; [by eapply retag_frame|done]]. split; try done; cbn.
    + eapply meta_rep; [apply Hr|done].
    + by eapply retag_store.
    + exists (length xs). split; [|intros ->; lia].
      split_and!; [lia|by rewrite lookup_ge_None_2|lia|done].
  - res_simpl. do 2 eexists. split; [done|].
    split; [|split; [apply retag_frame with xs, retag_refl, Hst|done]]. split; try done; cbn.
    + by exists k.
    + intros E0. apply Z.eqb_eq in E0. rewrite E0 in E. cbn in E.
      apply bool_decide_eq_false in E. by destruct (insertionPoint_ c); [destruct E|].
Qed.
End specs.

(** ** Theorems *)
Section theorems.
Context `{PtrCompressor}.
Implicit Types (h : Store) (a b : Z) (l : DList) (c : Container) (xs : list Z) (k : nat).

Lemma test_linked h c xs a : mm_wf h c xs → is_Some (payload h a) →
  testRef isInMMContainer h a = Ok (bool_decide (a ∈ xs)).
Proof.
  intros Hwf Ha. destruct (wf_store _ _ _ Hwf) as [Hw Hok].
  rewrite (step_testLinked (meta_refl h Hw)) by by intros ? [= <-].
  by destruct (Hok a Ha) as (_ & -> & _).
Qed.

(** Marking an item accessed does not disturb the container. *)
Lemma markAccessed_wf h c xs a : mm_wf h c xs → is_Some (payload h a) →
  ∃ h', markAccessed a h = Ok h' ∧ mm_wf h' c xs ∧ mm_frame [a] h h' ∧ flag kMMFlag1 h' a = true ∧
    (∀ b, time h' b = time h b) ∧ (∀ b, is_Some (payload h' b) ↔ is_Some (payload h b)).
Proof.
  intros Hwf Ha. pose proof (wf_store _ _ _ Hwf) as Hst. pose proof Hst as [Hw Hok].
  destruct (step_mark_flag (meta_refl h Hw) kMMFlag1 a true) as (h' & He & Hm); [by intros ? [= <-]|].
  assert (∀ b, flag kMMFlag0 h' b = flag kMMFlag0 h b) as Hf0
    by (intros b; rewrite (meta_flag _ _ _ _ _ Hm); unfold setf; by rewrite decide_False).
  assert (mm_wf h' c xs).
  { split; [by eapply meta_rep, wf_rep| | |apply Hwf..].
    - eapply store_ok_change; [done..|apply Hm| |].
      + intros b Hb. by destruct (Hok b Hb) as (_ & ? & _).
      + intros b Hb Hbx. unfold setf. rewrite decide_False by done. by apply Hok.
    - destruct (wf_point _ _ _ Hwf) as (k & (? & ? & ? & Ht) & ?). exists k. split; [|done].
      split_and!; try done. intros j b Hj. rewrite Hf0. by apply Ht. }
  exists h'. split_and!; [done|done| | |apply Hm..].
  - split; [apply Hm|]. intros b Hb%not_elem_of_cons. split_and!; [apply Hm..|].
    intros f _. rewrite (meta_flag _ _ _ _ _ Hm). unfold setf, set.
    rewrite (decide_False (P := a = b)) by naive_solver. by case_decide; subst.
  - rewrite (meta_flag _ _ _ _ _ Hm). unfold setf, set. by rewrite !decide_True.
Qed.

(** [MMLru::Container::add] on an allocated item returns whether the
    item was not yet queued.  A queued item leaves everything unchanged; a
    new one enters the queue at the insertion point (at the head when there
    is none), marked linked, unaccessed and timestamped, every other item
    keeps its time and flags, the invariant holds again and the tail has
    exactly the size [lruInsertionPointSpec] asks for. *)
Theorem add_spec h c xs a now : mm_wf h c xs → is_Some (payload h a) →
  ∃ c' h', add a now (c, h) = Ok (negb (bool_decide (a ∈ xs)), (c', h')) ∧
    if decide (a ∈ xs) then c' = c ∧ h' = h
    else mm_wf h' c' (insert_at (insert_position c xs) a xs) ∧ mm_frame [a] h h' ∧
      linked h' a = true ∧ time h' a = u32 now ∧ flag kMMFlag1 h' a = false ∧
      config_ c' = config_ c ∧
      (lruInsertionPointSpec (config_ c) ≠ 0 →
       tailSize_ c' = tail_target (Z.of_nat (S (length xs))) (lruInsertionPointSpec (config_ c))).
Proof.
  intros Hwf Ha. destruct (decide (a ∈ xs)) as [Hin|Hin].
  - exists c, h. split; [|done]. unfold add. rewrite (test_linked h c xs) by done.
    by rewrite bool_decide_eq_true_2.
  - destruct (add_aux h c xs a now Hwf Ha Hin) as (c' & h' & Heq & Hrest). exists c', h'.
    rewrite bool_decide_eq_false_2 by done. by split.
Qed.

(** [MMLru::Container::remove] on an allocated item returns whether it
    was queued.  If so the item leaves the queue with its linked, tail and
    accessed bits and both links cleared, the order of the others is kept,
    and the insertion point is moved (or dropped) so that the invariant and
    the configured tail size hold; otherwise nothing changes. *)
Theorem remove_spec h c xs a : mm_wf h c xs → is_Some (payload h a) →
  ∃ c' h', removeNode a (c, h) = Ok (bool_decide (a ∈ xs), (c', h')) ∧
    match index_of a xs with
    | None => c' = c ∧ h' = h
    | Some i => mm_wf h' c' (delete i xs) ∧ mm_frame [a] h h' ∧ linked h' a = false ∧
        getNext h' a = Ok None ∧ getPrev h' a = Ok None ∧
        flag kMMFlag0 h' a = false ∧ flag kMMFlag1 h' a = false ∧
        (lruInsertionPointSpec (config_ c) ≠ 0 →
         tailSize_ c' = tail_target (Z.of_nat (pred (length xs))) (lruInsertionPointSpec (config_ c)))
    end.
Proof.
  intros Hwf Ha. unfold removeNode. cbn [snd]. rewrite (test_linked h c xs) by done. res_simpl.
  destruct (index_of a xs) as [i|] eqn:Hix.
  - apply index_of_Some in Hix. rewrite bool_decide_eq_true_2 by by eapply list_elem_of_lookup_2.
    destruct (removeLocked_aux h c xs i a Hwf Hix) as (c' & h' & -> & Hwf' & Hfr & ? & ? & ? & ? & ?).
    exists c', h'. split; [done|]. split; [done|]. destruct (wf_store _ _ _ Hwf') as [_ Hok].
    destruct (Hok a) as (_ & _ & Ho); [by apply Hfr|]. destruct Ho as (? & ? & ?).
    { apply delete_not_elem; [|done]. apply (wf_rep _ _ _ Hwf). }
    by split_and!.
  - exists c, h. split; [|done]. rewrite bool_decide_eq_false_2; [done|].
    intros (i & ? & _)%index_of_elem. congruence.
Qed.

Lemma recordAccess_aux h c xs a mode now lockFree :
  mm_wf h c xs → ratio_ok (config_ c) → is_Some (payload h a) →
  let cfg := config_ c in
  let enabled := match mode with kRead => updateOnRead cfg | kWrite => updateOnWrite cfg end in
  let due := enabled && bool_decide (a ∈ xs) &&
    ((u32 (time h a + lruRefreshTime_ c) <=? u32 now) || negb (flag kMMFlag1 h a)) in
  let promoted := due && (negb (tryLockUpdate cfg) || lockFree) in
  ∃ c' h', recordAccess a mode now lockFree (c, h) = Ok (promoted, (c', h')) ∧ mm_frame [a] h h' ∧
    flag kMMFlag1 h' a = (due || flag kMMFlag1 h a) ∧ config_ c' = cfg ∧
    if promoted then time h' a = u32 now ∧ ∃ i, xs !! i = Some a ∧ mm_wf h' c' (a :: delete i xs)
    else c' = c ∧ time h' a = time h a ∧ mm_wf h' c xs.
Proof.
  intros Hwf Hratio Ha cfg enabled due promoted.
  destruct (wf_store _ _ _ Hwf) as [Hw _]. assert (alive h (Some a)) as Hal by by intros ? [= <-].
  assert (mm_frame [a] h h) as Hrefl by by split.
  unfold recordAccess. fold cfg.
  assert ((match mode with kRead => negb (updateOnRead cfg) | kWrite => negb (updateOnWrite cfg) end)
    = negb enabled) as -> by by destruct mode.
  destruct enabled eqn:Een; cbn [negb andb] in *; [|by exists c, h].
  rewrite (test_linked h c xs) by done. unfold isAccessed.
  rewrite (step_getTime (meta_refl h Hw)), (step_testFlag (meta_refl h Hw)) by done. res_simpl.
  fold due. destruct due eqn:Hdue; [|by exists c, h].
  apply andb_prop in Hdue as [(i & _ & Hi)%bool_decide_eq_true%index_of_elem _].
  assert (∃ h1, (if negb (flag kMMFlag1 h a) then markAccessed a h else Ok h) = Ok h1 ∧ mm_wf h1 c xs ∧
    mm_frame [a] h h1 ∧ flag kMMFlag1 h1 a = true ∧ time h1 a = time h a) as (h1 & -> & Hwf1 & Hfr1 & Hf1 & Ht1).
  { destruct (flag kMMFlag1 h a) eqn:Ef; [by exists h|].
    destruct (markAccessed_wf h c xs a Hwf Ha) as (h1 & ? & ? & ? & ? & ? & _). exists h1. by split_and!. }
  res_simpl. destruct (tryLockUpdate cfg && negb lockFree) eqn:Hlock.
  { assert (promoted = false) as -> by by unfold promoted; destruct (tryLockUpdate cfg), lockFree.
    exists c, h1. by split_and!. }
  assert (promoted = true) as -> by by unfold promoted; destruct (tryLockUpdate cfg), lockFree.
  destruct (recordAccess_func_aux h1 c xs i a (u32 now) now Hwf1 Hratio Hi)
    as (c' & h' & -> & Hwf' & Hfr' & _ & Ht' & Hf' & Hc' & _). res_simpl.
  exists c', h'. split_and!; try done; [by eapply mm_frame_trans|by rewrite Hf'|by exists i].
Qed.

(** [MMLru::Container::recordAccess] on an allocated item.  It promotes
    exactly when the mode is enabled, the item is queued, it is unaccessed
    or a refresh period old, and the lock was obtained: the item moves to
    the head with the current time and the accessed flag, the other items
    keep their order, times and flags, and the invariant (hence the
    insertion point) survives.  Otherwise it returns false, at most sets
    the accessed flag, and leaves the queue and all times alone. *)
Theorem recordAccess_spec h c xs a mode now lockFree :
  mm_wf h c xs → ratio_ok (config_ c) → is_Some (payload h a) →
  let cfg := config_ c in
  let enabled := match mode with kRead => updateOnRead cfg | kWrite => updateOnWrite cfg end in
  let due := enabled && bool_decide (a ∈ xs) &&
    ((u32 (time h a + lruRefreshTime_ c) <=? u32 now) || negb (flag kMMFlag1 h a)) in
  let promoted := due && (negb (tryLockUpdate cfg) || lockFree) in
  ∃ c' h', recordAccess a mode now lockFree (c, h) = Ok (promoted, (c', h')) ∧ mm_frame [a] h h' ∧
    flag kMMFlag1 h' a = (due || flag kMMFlag1 h a) ∧ config_ c' = cfg ∧
    if promoted then time h' a = u32 now ∧ ∃ i, xs !! i = Some a ∧ mm_wf h' c' (a :: delete i xs)
    else c' = c ∧ time h' a = time h a ∧ mm_wf h' c xs.
Proof. apply recordAccess_aux. Qed.

(** [MMLru::Container::replace] on two allocated items succeeds exactly
    when the old one is queued and the new one is not; then the new item
    takes the old one's position, time, accessed and tail bits (and the
    insertion point if the old item was it), the old one leaves the queue,
    and nothing else changes.  Otherwise nothing changes at all. *)
Theorem replace_spec h c xs a n : mm_wf h c xs → is_Some (payload h a) → is_Some (payload h n) →
  let ok := bool_decide (a ∈ xs) && negb (bool_decide (n ∈ xs)) in
  ∃ c' h', replaceNode a n (c, h) = Ok (ok, (c', h')) ∧
    if ok then ∃ i, xs !! i = Some a ∧ mm_wf h' c' (<[i := n]> xs) ∧ mm_frame [a; n] h h' ∧
      linked h' a = false ∧ linked h' n = true ∧ time h' n = time h a ∧
      flag kMMFlag1 h' n = flag kMMFlag1 h a ∧ config_ c' = config_ c ∧ tailSize_ c' = tailSize_ c
    else c' = c ∧ h' = h.
Proof.
  intros Hwf Ha Hn ok. destruct (bool_decide (a ∈ xs)) eqn:Ea; cbn in ok.
  2:{ exists c, h. split; [|done]. unfold replaceNode. by rewrite (test_linked h c xs a), Ea by done. }
  destruct (bool_decide (n ∈ xs)) eqn:En; cbn in ok.
  { exists c, h. split; [|done]. unfold replaceNode.
    rewrite (test_linked h c xs a), Ea by done. res_simpl. by rewrite (test_linked h c xs n), En by done. }
  apply bool_decide_eq_true, index_of_elem in Ea as (i & _ & Hi). apply bool_decide_eq_false in En.
  destruct (replaceNode_aux h c xs i a n Hwf Hi Hn En) as (c' & h' & ? & ?). exists c', h'.
  split; [done|]. by exists i.
Qed.

(** [getEvictionAgeStat] walks at most the whole queue and returns: the
    oldest age is that of the eviction end, the projected age that of the
    item [projectedLength] places ahead of it, or the oldest age when the
    queue is not that long. *)
Theorem evictionAgeStat_spec h c xs n now : mm_wf h c xs → 0 ≤ n →
  getEvictionAgeStatLocked c n now h = Ok (mkEvictionAgeStat (mkEvictionStatPerType (age h now (last xs)) 0
    (match prev_at xs (length xs - Z.to_nat n) with
     | Some a => age h now (Some a) | None => age h now (last xs) end)) EvictionStat_zero EvictionStat_zero).
Proof. apply getEvictionAgeStat_aux. Qed.

(** Removing through the eviction iterator.  With the iterator (from the
    tail) on position [i] of the queue, [remove(Iterator&)] takes that item
    out and leaves the iterator on the next candidate, the item just ahead
    of it, which is still queued at position [i - 1]; the iterator is at the
    end when the head was removed. *)
Theorem removeIterator_spec h c xs i a : mm_wf h c xs → xs !! i = Some a →
  ∃ c' h', removeIterator (mkIterator (Some a) FROM_TAIL) (c, h) =
      Ok (mkIterator (prev_at xs i) FROM_TAIL, (c', h')) ∧
    mm_wf h' c' (delete i xs) ∧ mm_frame [a] h h' ∧ linked h' a = false ∧
    prev_at xs i = prev_at (delete i xs) i.
Proof.
  intros Hwf Hi. pose proof (wf_rep _ _ _ Hwf) as Hrep. unfold removeIterator.
  destruct (rep_links _ _ _ Hrep i a Hi) as (_ & Hn & Hp).
  pose proof (rep_alive_lookup Hrep i) as Hal. rewrite Hi in Hal.
  cbn [curr_ deref mbind result_bind snd]. rewrite (test_linked h c xs) by (done || by apply Hal). res_simpl.
  rewrite bool_decide_eq_true_2 by by eapply list_elem_of_lookup_2. res_simpl.
  unfold iter_incr, goForward. cbn [curr_ dir_ deref mbind result_bind]. rewrite Hp. res_simpl.
  destruct (removeLocked_aux h c xs i a Hwf Hi) as (c' & h' & -> & ? & ? & ? & _).
  exists c', h'. split; [done|]. split_and!; try done.
  destruct i; [done|]. cbn. by rewrite list_lookup_delete_lt by lia.
Qed.

(** *** Runs of the container *)
Inductive mm_op :=
  | MAdd (node now : Z)
  | MRemove (node : Z)
  | MReplace (oldNode newNode : Z)
  | MRecordAccess (node : Z) (mode : AccessMode) (now : Z) (lockFree : bool)
  | MSetConfig (cfg : Config) (now : Z).

Definition run_mm_op (op : mm_op) (s : Container * Store) : result (Container * Store) :=
  match op with
  | MAdd a now => snd <$> add a now s
  | MRemove a => snd <$> removeNode a s
  | MReplace a n => snd <$> replaceNode a n s
  | MRecordAccess a mode now lockFree => snd <$> recordAccess a mode now lockFree s
  | MSetConfig cfg now => setConfig cfg now s
  end.
Fixpoint run_mm_ops (ops : list mm_op) (s : Container * Store) : result (Container * Store) :=
  match ops with [] => Ok s | op :: ops => s ← run_mm_op op s; run_mm_ops ops s end.

Definition cfg_ok (cfg : Config) : Prop := 0 ≤ lruInsertionPointSpec cfg < 64 ∧ ratio_ok cfg.
Definition mm_op_ok h (op : mm_op) : Prop :=
  match op with
  | MAdd a _ | MRemove a | MRecordAccess a _ _ _ => is_Some (payload h a)
  | MReplace a n => is_Some (payload h a) ∧ is_Some (payload h n)
  | MSetConfig cfg _ => cfg_ok cfg
  end.

Lemma run_mm_op_wf h c xs op : mm_wf h c xs → cfg_ok (config_ c) → mm_op_ok h op →
  ∃ c' h' xs', run_mm_op op (c, h) = Ok (c', h') ∧ mm_wf h' c' xs' ∧ cfg_ok (config_ c') ∧
    ∀ b, is_Some (payload h' b) ↔ is_Some (payload h b).
Proof.
  intros Hwf [Hs Hr] Hop. destruct op as [a now|a|a n|a mode now lf|cfg now]; cbn [run_mm_op mm_op_ok] in *.
  - destruct (decide (a ∈ xs)) as [Hin|Hin].
    + exists c, h, xs. unfold add. rewrite (test_linked h c xs), bool_decide_eq_true_2 by done. done.
    + destruct (add_aux h c xs a now Hwf Hop Hin) as (c' & h' & -> & Hwf' & Hf & _ & _ & _ & Hc & _).
      exists c', h', (insert_at (insert_position c xs) a xs). rewrite Hc. by split_and!; try apply Hf.
  - unfold removeNode. cbn [snd]. rewrite (test_linked h c xs) by done. res_simpl.
    case_bool_decide as Hin; [|by exists c, h, xs]. apply index_of_elem in Hin as (i & _ & Hi).
    destruct (removeLocked_aux h c xs i a Hwf Hi) as (c' & h' & -> & Hwf' & Hf & _ & _ & _ & Hc & _).
    exists c', h', (delete i xs). rewrite Hc. by split_and!; try apply Hf.
  - destruct Hop as [Ha Hn]. destruct (decide (a ∈ xs)) as [Hin|Hin].
    2:{ exists c, h, xs. unfold replaceNode. by rewrite (test_linked h c xs a), bool_decide_eq_false_2 by done. }
    destruct (decide (n ∈ xs)) as [Hnn|Hnn].
    { exists c, h, xs. unfold replaceNode. rewrite (test_linked h c xs a), bool_decide_eq_true_2 by done.
      res_simpl. by rewrite (test_linked h c xs n), bool_decide_eq_true_2 by done. }
    apply index_of_elem in Hin as (i & _ & Hi).
    destruct (replaceNode_aux h c xs i a n Hwf Hi Hn Hnn) as (c' & h' & -> & Hwf' & Hf & _ & _ & _ & _ & Hc & _).
    exists c', h', (<[i := n]> xs). rewrite Hc. by split_and!; try apply Hf.
  - destruct (recordAccess_aux h c xs a mode now lf Hwf Hr Hop) as (c' & h' & -> & Hf & _ & Hc & Hcase).
    exists c', h'. cbn zeta in Hcase. destruct (_ && (negb _ || _)).
    + destruct Hcase as (_ & i & _ & Hwf'). exists (a :: delete i xs). rewrite Hc. by split_and!; try apply Hf.
    + destruct Hcase as (-> & _ & Hwf'). exists xs. by split_and!; try apply Hf.
  - destruct Hop as [Hs' Hr']. destruct (setConfig_aux h c xs cfg now Hwf Hs') as (c' & h' & -> & Hwf' & Hf & Hc & _).
    exists c', h', xs. rewrite Hc. by split_and!; try apply Hf.
Qed.

Lemma Container_new_wf h cfg now : store_ok h [] → cfg_ok cfg → mm_wf h (Container_new cfg now) [].
Proof.
  intros Hst [Hs _]. split; try done.
  - by split; try apply NoDup_nil_2.
  - exists 0%nat. split; [|cbn; lia]. split_and!; [done..|]. by intros i a Hi.
Qed.

Lemma mmlru_runs ops h c xs : mm_wf h c xs → cfg_ok (config_ c) → Forall (mm_op_ok h) ops →
  ∃ c' h' xs', run_mm_ops ops (c, h) = Ok (c', h') ∧ mm_wf h' c' xs'.
Proof.
  revert h c xs. induction ops as [|op ops IH]; intros h c xs Hwf Hc Hops; [by exists c, h, xs|].
  apply Forall_cons in Hops as [Hop Hops]. cbn [run_mm_ops].
  destruct (run_mm_op_wf h c xs op Hwf Hc Hop) as (c1 & h1 & xs1 & -> & Hwf1 & Hc1 & Hal).
  res_simpl. apply (IH h1 c1 xs1); [done..|]. eapply Forall_impl; [done|].
  intros [] ?; cbn in *; rewrite ?Hal; done.
Qed.

(** C7: a new container over fresh items never reaches a null dereference,
    a failed [XDCHECK] or a runaway loop: every sequence of [add],
    [remove], [replace], [recordAccess] and [setConfig] calls on allocated
    items, with valid configurations, runs to completion and ends in a
    well-formed state (linked bit = queued; tail flags exactly on the nodes
    from the insertion point back; [tailSize_] their number). *)
Theorem mmlru_run_safe ops h cfg now : store_ok h [] → cfg_ok cfg → Forall (mm_op_ok h) ops →
  ∃ c' h' xs', run_mm_ops ops (Container_new cfg now, h) = Ok (c', h') ∧ mm_wf h' c' xs'.
Proof. intros Hst Hc Hops. eapply mmlru_runs; [by apply Container_new_wf|done|done]. Qed.
End theorems.

Lemma ratio_zero_ok cfg s : lruRefreshRatio cfg = S754_zero s → ratio_ok cfg.
Proof. intros Hr. unfold ratio_ok. rewrite Hr. apply scale_zero_ok. Qed.

(** ** Concrete containers *)
#[local] Existing Instance example_compressor.

Definition cfg_example : Config := Config_new 60 (S754_zero false) false true false 1 0 false.
Lemma cfg_example_ok : cfg_ok cfg_example.
Proof. split; [done|]. by eapply ratio_zero_ok. Qed.

(** Three fresh items. *)
Definition fresh_node : Node := mkNode (ex_c None) (ex_c None) 0 0.
Definition fresh_store : Store :=
  list_to_map [(ex_node 0, fresh_node); (ex_node 1, fresh_node); (ex_node 2, fresh_node)].

(** Two of them queued; the second is the insertion point. *)
Definition mm_store : Store :=
  list_to_map [(ex_node 0, mkNode (ex_c (Some (ex_node 1))) (ex_c None) 100 (markInMMContainer 0));
               (ex_node 1, mkNode (ex_c None) (ex_c (Some (ex_node 0))) 90
                  (setFlag kMMFlag0 (markInMMContainer 0)));
               (ex_node 2, fresh_node)].
Definition mm_container : Container :=
  mkContainer ex_list (Some (ex_node 1)) 1 (uint_max 32) 60 cfg_example.

Lemma payload_3 (n0 n1 n2 : Node) (P : Z → Z → Z → Prop) h :
  h = list_to_map [(ex_node 0, n0); (ex_node 1, n1); (ex_node 2, n2)] →
  P (ex_node 0) (updateTime_ n0) (refCount_ n0) → P (ex_node 1) (updateTime_ n1) (refCount_ n1) →
  P (ex_node 2) (updateTime_ n2) (refCount_ n2) →
  ∀ a t r, payload h a = Some (t, r) → P a t r.
Proof.
  intros -> H0 H1 H2 a t r (n & Hn & [= -> ->])%fmap_Some. cbn in Hn.
  rewrite !lookup_insert_Some, lookup_empty in Hn. naive_solver.
Qed.

Lemma fresh_store_ok : store_ok fresh_store [].
Proof.
  split; [by refine (payload_3 _ _ _ (λ _ _ r, fits 32 r) _ eq_refl _ _ _)|].
  intros a [[t r] Ha]. revert a t r Ha.
  refine (payload_3 _ _ _ (λ a _ _, item_ok fresh_store [] a) _ eq_refl _ _ _);
    (split; [apply ex_valid; lia|by vm_compute]).
Qed.

Lemma mm_example_wf : mm_wf mm_store mm_container [ex_node 0; ex_node 1].
Proof.
  split; [|split| |done..].
  - split; [by apply (bool_decide_unpack _); vm_compute|done..|].
    intros [|[|i]] a; cbn; intros [= <-]; (split; [apply ex_valid; lia|by vm_compute]).
  - by refine (payload_3 _ _ _ (λ _ _ r, fits 32 r) _ eq_refl _ _ _).
  - intros a [[t r] Ha]. revert a t r Ha.
    refine (payload_3 _ _ _ (λ a _ _, item_ok mm_store [ex_node 0; ex_node 1] a) _ eq_refl _ _ _);
      (split; [apply ex_valid; lia|]; split; [by vm_compute|]; intros Hn; try (by vm_compute);
       exfalso; apply Hn; set_solver).
  - exists 1%nat. split; [|done]. split_and!; [cbn; lia|done|done|].
    intros [|[|i]] a; cbn; intros [= <-]; by vm_compute.
Qed.

Lemma add_spec_witness : ∃ c' h',
  add (ex_node 2) 1000 (mm_container, mm_store) = Ok (true, (c', h')) ∧
  mm_wf h' c' [ex_node 0; ex_node 2; ex_node 1] ∧ tailSize_ c' = 1.
Proof.
  destruct (add_spec mm_store mm_container [ex_node 0; ex_node 1] (ex_node 2) 1000 mm_example_wf)
    as (c' & h' & Heq & Hcase); [by eexists|].
  exists c', h'. split; [exact Heq|].
  rewrite decide_False in Hcase by (by apply (bool_decide_unpack _); vm_compute).
  destruct Hcase as (Hwf & _ & _ & _ & _ & _ & Ht). split; [exact Hwf|].
  rewrite Ht by done. by vm_compute.
Defined.

Lemma remove_spec_witness : ∃ c' h',
  removeNode (ex_node 1) (mm_container, mm_store) = Ok (true, (c', h')) ∧
  mm_wf h' c' [ex_node 0] ∧ linked h' (ex_node 1) = false.
Proof.
  destruct (remove_spec mm_store mm_container [ex_node 0; ex_node 1] (ex_node 1) mm_example_wf)
    as (c' & h' & Heq & Hcase); [by eexists|].
  exists c', h'. split; [exact Heq|].
  replace (index_of (ex_node 1) [ex_node 0; ex_node 1]) with (Some 1%nat) in Hcase by by vm_compute.
  destruct Hcase as (Hwf & _ & Hl & _). by split.
Defined.

Lemma recordAccess_spec_witness : ∃ c' h',
  recordAccess (ex_node 1) kRead 1000 true (mm_container, mm_store) = Ok (true, (c', h')) ∧
  time h' (ex_node 1) = 1000.
Proof.
  destruct (recordAccess_spec mm_store mm_container [ex_node 0; ex_node 1] (ex_node 1) kRead 1000 true
    mm_example_wf (proj2 cfg_example_ok)) as (c' & h' & Heq & _ & _ & _ & Hcase); [by eexists|].
  exists c', h'. split; [exact Heq|]. exact (proj1 Hcase).
Defined.

Lemma replace_spec_witness : ∃ c' h',
  replaceNode (ex_node 1) (ex_node 2) (mm_container, mm_store) = Ok (true, (c', h')) ∧
  linked h' (ex_node 2) = true ∧ time h' (ex_node 2) = 90.
Proof.
  destruct (replace_spec mm_store mm_container [ex_node 0; ex_node 1] (ex_node 1) (ex_node 2) mm_example_wf)
    as (c' & h' & Heq & Hcase); [by eexists..|].
  exists c', h'. split; [exact Heq|].
  destruct Hcase as (i & _ & _ & _ & _ & Hl & Ht & _). split; [exact Hl|exact Ht].
Defined.

Lemma evictionAgeStat_spec_witness :
  getEvictionAgeStatLocked mm_container 1 1000 mm_store =
    Ok (mkEvictionAgeStat (mkEvictionStatPerType 910 0 900) EvictionStat_zero EvictionStat_zero).
Proof.
  rewrite (evictionAgeStat_spec mm_store mm_container [ex_node 0; ex_node 1] 1 1000 mm_example_wf ltac:(lia)).
  by vm_compute.
Defined.

Lemma removeIterator_spec_witness : ∃ c' h',
  removeIterator (rbegin (lru_ mm_container)) (mm_container, mm_store) =
    Ok (mkIterator (Some (ex_node 0)) FROM_TAIL, (c', h')) ∧ mm_wf h' c' [ex_node 0].
Proof.
  destruct (removeIterator_spec mm_store mm_container [ex_node 0; ex_node 1] 1 (ex_node 1) mm_example_wf eq_refl)
    as (c' & h' & Heq & Hwf & _).
  exists c', h'. split; [exact Heq|exact Hwf].
Defined.

Lemma mmlru_run_safe_witness : ∃ c' h' xs',
  run_mm_ops [MAdd (ex_node 0) 10; MAdd (ex_node 1) 20; MRecordAccess (ex_node 0) kRead 30 true;
              MReplace (ex_node 1) (ex_node 2); MRemove (ex_node 0)]
    (Container_new cfg_example 0, fresh_store) = Ok (c', h') ∧ mm_wf h' c' xs'.
Proof.
  apply (mmlru_run_safe _ _ cfg_example 0 fresh_store_ok cfg_example_ok).
  repeat apply Forall_cons_2; try apply Forall_nil_2; cbn [mm_op_ok]; repeat split; by eexists.
Defined.
