(* ===== verification/MultiDList.v ===== *)
(** Several doubly linked lists over one store of nodes
    ([allocator/datastruct/MultiDList.h], [MultiDList-inl.h]).

    The lists are a sequence of [DList] headers.  An iterator runs from the
    tail of the last list to the head of the first one; it keeps the index of
    its list as a [size_t] whose predecessor of 0 is [kInvalidIndex], and a
    [DList] iterator together with the index of the list that one belongs to. *)
From S2P Require Import Prelude SlabAllocator PtrCompressor DList.

Abbreviation MultiDList := (list DList).
Record MultiDListObject := mkMultiDListObject { o_lists : list DListObject }.

Record MIterator := mkMIterator { index_ : Z; iterList_ : Z; currIter_ : Iterator }.
Definition kInvalidIndex : Z := uint_max 64.

Section operations.
Context `{PtrCompressor}.

Definition MultiDList_new (numLists : nat) : MultiDList := replicate numLists DList_empty.
(** [lists_[index]]. *)
Definition getList (index : Z) (ls : MultiDList) : result DList :=
  if 0 <=? index then deref (ls !! Z.to_nat index) else Undef.
Definition mlist_size (ls : MultiDList) : Z := foldl (λ sz l, u64 (sz + size_ l)) 0 ls.
Definition insertEmptyListAt (pos : Z) (ls : MultiDList) : result MultiDList :=
  if Z.of_nat (length ls) <? pos then Throw InvalidArgument
  else Ok (insert_at (Z.to_nat pos) DList_empty ls).

Fixpoint save_lists (ls : MultiDList) : result (list DListObject) :=
  match ls with [] => Ok [] | l :: ls => o ← saveState l; os ← save_lists ls; Ok (o :: os) end.
Definition MultiDList_saveState (ls : MultiDList) : result MultiDListObject :=
  os ← save_lists ls; Ok (mkMultiDListObject os).
Fixpoint restore_lists (os : list DListObject) : result MultiDList :=
  match os with [] => Ok [] | o :: os => l ← DList_restore o; ls ← restore_lists os; Ok (l :: ls) end.
Definition MultiDList_restore (o : MultiDListObject) : result MultiDList := restore_lists (o_lists o).

(** *** Iterators *)
Definition rend_iter : Iterator := mkIterator None FROM_TAIL.
(** [DList::Iterator::operator==]. *)
Definition iter_eq (li : Z) (i : Iterator) (lj : Z) (j : Iterator) : bool :=
  (li =? lj) && bool_decide (curr_ i = curr_ j) &&
  match dir_ i, dir_ j with FROM_HEAD, FROM_HEAD | FROM_TAIL, FROM_TAIL => true | _, _ => false end.
Definition miter_eq (i j : MIterator) : bool :=
  iter_eq (iterList_ i) (currIter_ i) (iterList_ j) (currIter_ j) && (index_ i =? index_ j).
(** [operator bool]. *)
Definition miter_valid (ls : MultiDList) (it : MIterator) : bool := index_ it <? Z.of_nat (length ls).

(** The loop of [initToValidRBeginFrom]. *)
Fixpoint skip_empty (fuel : nat) (index : Z) (ls : MultiDList) : result Z :=
  if index =? kInvalidIndex then Ok index
  else
    l ← getList index ls;
    if size_ l =? 0 then
      match fuel with O => Undef | S fuel => skip_empty fuel (u64 (index - 1)) ls end
    else Ok index.
Definition initToValidRBeginFrom (listIdx : Z) (ls : MultiDList) : result MIterator :=
  index ← skip_empty (length ls) listIdx ls;
  if index =? kInvalidIndex then _ ← getList 0 ls; Ok (mkMIterator index 0 rend_iter)
  else l ← getList index ls; Ok (mkMIterator index index (rbegin l)).
(** The iterators [rbegin()], [rbegin(listIdx)] and [rend()]. *)
Definition miter_check (it : MIterator) : result MIterator :=
  _ ← xdcheck ((index_ it =? kInvalidIndex) || bool_decide (curr_ (currIter_ it) ≠ None)); Ok it.
Definition mlist_rbegin (ls : MultiDList) : result MIterator :=
  _ ← getList (u64 (Z.of_nat (length ls) - 1)) ls;
  it ← initToValidRBeginFrom (u64 (Z.of_nat (length ls) - 1)) ls; miter_check it.
Definition mlist_rbegin_at (listIdx : Z) (ls : MultiDList) : result MIterator :=
  if Z.of_nat (length ls) <=? listIdx then Throw InvalidArgument
  else
    _ ← getList (u64 (Z.of_nat (length ls) - 1)) ls;
    it ← initToValidRBeginFrom listIdx ls; miter_check it.
Definition miter_reset (ls : MultiDList) (it : MIterator) : result MIterator :=
  _ ← getList 0 ls; Ok (mkMIterator kInvalidIndex 0 rend_iter).
Definition mlist_rend (ls : MultiDList) : result MIterator := it ← mlist_rbegin ls; miter_reset ls it.
Definition miter_resetToBegin (ls : MultiDList) : result MIterator :=
  initToValidRBeginFrom (u64 (Z.of_nat (length ls) - 1)) ls.

(** The loop of [goForward]. *)
Fixpoint forward_loop (fuel : nat) (ls : MultiDList) (it : MIterator) : result MIterator :=
  if index_ it =? kInvalidIndex then Ok it
  else
    _ ← getList (index_ it) ls;
    if iter_eq (iterList_ it) (currIter_ it) (index_ it) rend_iter then
      match fuel with
      | O => Undef
      | S fuel =>
          let index := u64 (index_ it - 1) in
          if index =? kInvalidIndex then forward_loop fuel ls (mkMIterator index (iterList_ it) (currIter_ it))
          else l ← getList index ls; forward_loop fuel ls (mkMIterator index index (rbegin l))
      end
    else Ok it.
(** [operator++]. *)
Definition miter_incr (h : Store) (ls : MultiDList) (it : MIterator) : result MIterator :=
  if index_ it =? kInvalidIndex then Ok it
  else
    c ← iter_incr h (currIter_ it);
    forward_loop (S (length ls)) ls (mkMIterator (index_ it) (iterList_ it) c).

(** The loop of [goBackward]. *)
Fixpoint backward_loop (fuel : nat) (ls : MultiDList) (it : MIterator) : result MIterator :=
  if Z.of_nat (length ls) <=? index_ it then Ok it
  else
    l ← getList (index_ it) ls;
    if iter_eq (iterList_ it) (currIter_ it) (index_ it) (rbegin l) then
      match fuel with
      | O => Undef
      | S fuel =>
          let index := u64 (index_ it + 1) in
          if index <? Z.of_nat (length ls) then
            l ← getList index ls;
            backward_loop fuel ls (mkMIterator index index (mkIterator (head_ l) FROM_TAIL))
          else backward_loop fuel ls (mkMIterator index (iterList_ it) (currIter_ it))
      end
    else Ok it.
(** [operator--]. *)
Definition miter_decr (h : Store) (ls : MultiDList) (it : MIterator) : result MIterator :=
  if index_ it =? Z.of_nat (length ls) then Ok it
  else
    l ← getList (index_ it) ls;
    if negb (iter_eq (iterList_ it) (currIter_ it) (index_ it) (rbegin l)) then
      c ← iter_decr h (currIter_ it); Ok (mkMIterator (index_ it) (iterList_ it) c)
    else backward_loop (S (length ls)) ls it.

(** The nodes a [for (it = rbegin(); it; ++it)] loop visits. *)
Fixpoint miter_collect (fuel : nat) (h : Store) (ls : MultiDList) (it : MIterator) : result (list Z) :=
  if miter_valid ls it then
    match fuel with
    | O => Undef
    | S fuel =>
        a ← deref (curr_ (currIter_ it)); it ← miter_incr h ls it;
        as_ ← miter_collect fuel h ls it; Ok (a :: as_)
    end
  else Ok [].
End operations.

(** ** Iteration order *)
Section iteration.
Context `{PtrCompressor}.
Context {h : Store} {ls : MultiDList} {xss : list (list Z)}.
Context (Hrep : Forall2 (dlist_rep h) ls xss) (Hlen : Z.of_nat (length ls) < 2 ^ 64).

(** The last non-empty one of the first [k] lists. *)
Fixpoint top (k : nat) : option nat :=
  match k with
  | O => None
  | S k => match xss !! k with Some (_ :: _) => Some k | _ => top k end
  end.
(** The iterator on position [j] of list [k], and the one on the last node of
    the first [k] lists. *)
Definition it_at (k j : nat) : MIterator :=
  mkMIterator (Z.of_nat k) (Z.of_nat k) (mkIterator (xss !! k ≫= lookup j) FROM_TAIL).
Definition it_before (k : nat) : MIterator :=
  match top k with
  | Some j => mkMIterator (Z.of_nat j) (Z.of_nat j) (mkIterator (xss !! j ≫= last) FROM_TAIL)
  | None => mkMIterator kInvalidIndex 0 rend_iter
  end.

Lemma reps_lookup k : (k < length ls)%nat → ∃ l xs, ls !! k = Some l ∧ xss !! k = Some xs ∧ dlist_rep h l xs.
Proof.
  intros Hk. destruct (lookup_lt_is_Some_2 _ _ Hk) as [l Hl].
  destruct (Forall2_lookup_l _ _ _ _ _ Hrep Hl) as (xs & Hx & Hd). by exists l, xs.
Qed.
Lemma getList_nat k l : ls !! k = Some l → getList (Z.of_nat k) ls = Ok l.
Proof. intros Hl. unfold getList. rewrite (proj2 (Z.leb_le _ _)), Nat2Z.id, Hl by lia. done. Qed.
Lemma index_valid k : (k < length ls)%nat → (Z.of_nat k =? kInvalidIndex) = false.
Proof. intros Hk. apply Z.eqb_neq. unfold kInvalidIndex, uint_max. lia. Qed.
Lemma index_pred k : (k < length ls)%nat →
  u64 (Z.of_nat k - 1) = match k with O => kInvalidIndex | S k => Z.of_nat k end.
Proof.
  intros Hk. destruct k as [|k]; [done|]. rewrite wrap_small by (unfold fits; lia). lia.
Qed.

Lemma skip_empty_spec fuel k : (k < length ls)%nat → (k < fuel)%nat →
  skip_empty fuel (Z.of_nat k) ls = Ok (match top (S k) with Some j => Z.of_nat j | None => kInvalidIndex end).
Proof.
  revert k. induction fuel as [|fuel IH]; intros k Hk Hf; [lia|]. cbn [skip_empty top].
  destruct (reps_lookup k Hk) as (l & xs & Hl & Hx & Hd). rewrite index_valid, (getList_nat k l Hl), Hx by done.
  res_simpl. rewrite (rep_size _ _ _ Hd). destruct xs as [|x xs].
  - change (Z.of_nat (length (@nil Z)) =? 0) with true. cbv iota. rewrite index_pred by done.
    destruct k as [|k]; [by destruct fuel|]. apply IH; lia.
  - by rewrite (proj2 (Z.eqb_neq _ _)) by (cbn [length]; lia).
Qed.

Lemma top_some k j : top k = Some j → (j < k)%nat ∧ ∃ x xs, xss !! j = Some (x :: xs).
Proof.
  clear Hrep Hlen. induction k as [|k IH]; [done|]. cbn [top]. destruct (xss !! k) as [[|x xs]|] eqn:E.
  - intros [? ?]%IH. split; [lia|done].
  - intros [= <-]. split; [lia|]. by exists x, xs.
  - intros [? ?]%IH. split; [lia|done].
Qed.

Lemma init_spec k : (k < length ls)%nat → initToValidRBeginFrom (Z.of_nat k) ls = Ok (it_before (S k)).
Proof.
  intros Hk. unfold initToValidRBeginFrom, it_before. rewrite skip_empty_spec by lia. res_simpl.
  destruct (top (S k)) as [j|] eqn:E.
  - apply top_some in E as [Hj _]. rewrite index_valid by lia.
    destruct (reps_lookup j) as (l & xs & Hl & Hx & Hd); [lia|]. rewrite (getList_nat j l Hl), Hx. res_simpl.
    unfold rbegin. by rewrite (rep_tail _ _ _ Hd).
  - rewrite Z.eqb_refl. destruct (reps_lookup 0) as (l & xs & Hl & _ & _); [lia|].
    by rewrite (getList_nat 0 l Hl : getList 0 ls = Ok l).
Qed.

Lemma it_before_last k : match curr_ (currIter_ (it_before k)) with None => index_ (it_before k) = kInvalidIndex | _ => True end.
Proof.
  unfold it_before. destruct (top k) as [j|] eqn:E; [|done]. apply top_some in E as (_ & x & xs & Hj).
  cbn. rewrite Hj. cbn [mbind option_bind]. by rewrite last_cons; destruct (last xs).
Qed.

Lemma check_before k : miter_check (it_before k) = Ok (it_before k).
Proof.
  unfold miter_check. pose proof (it_before_last k) as Hb. destruct (curr_ _) as [a|].
  - by rewrite orb_true_r.
  - by rewrite Hb, Z.eqb_refl.
Qed.

Lemma rbegin_at_aux k : (k < length ls)%nat → mlist_rbegin_at (Z.of_nat k) ls = Ok (it_before (S k)).
Proof.
  intros Hk. unfold mlist_rbegin_at. rewrite (proj2 (Z.leb_gt _ _)) by lia.
  rewrite wrap_small by (unfold fits; lia).
  destruct (reps_lookup (pred (length ls))) as (l & _ & Hl & _); [lia|].
  replace (Z.of_nat (length ls) - 1) with (Z.of_nat (pred (length ls))) by lia.
  rewrite (getList_nat _ l Hl). res_simpl. rewrite init_spec by done. res_simpl. apply check_before.
Qed.
Lemma rbegin_aux : (0 < length ls)%nat → mlist_rbegin ls = Ok (it_before (length ls)).
Proof.
  intros Hk. unfold mlist_rbegin. rewrite wrap_small by (unfold fits; lia).
  destruct (reps_lookup (pred (length ls))) as (l & _ & Hl & _); [lia|].
  replace (Z.of_nat (length ls) - 1) with (Z.of_nat (pred (length ls))) by lia.
  rewrite (getList_nat _ l Hl). res_simpl. rewrite init_spec by lia. res_simpl.
  rewrite check_before. by replace (S (pred (length ls))) with (length ls) by lia.
Qed.

Lemma iter_eq_rend k p : iter_eq k (mkIterator p FROM_TAIL) k rend_iter = bool_decide (p = None).
Proof. unfold iter_eq, rend_iter. rewrite Z.eqb_refl. cbn [andb curr_ dir_]. rewrite andb_true_r. by apply bool_decide_ext. Qed.

(** From the end of list [k] the iterator moves to the lists before. *)
Lemma forward_end fuel k : (k < length ls)%nat → (k < fuel)%nat →
  forward_loop fuel ls (mkMIterator (Z.of_nat k) (Z.of_nat k) rend_iter) = Ok (it_before k).
Proof.
  revert k. induction fuel as [|fuel IH]; intros k Hk Hf; [lia|]. cbn [forward_loop index_ iterList_ currIter_].
  destruct (reps_lookup k Hk) as (l & xs & Hl & _ & _). rewrite index_valid, (getList_nat k l Hl) by done. res_simpl.
  change (iter_eq (Z.of_nat k) rend_iter (Z.of_nat k) rend_iter) with
    (iter_eq (Z.of_nat k) (mkIterator None FROM_TAIL) (Z.of_nat k) rend_iter).
  rewrite iter_eq_rend, bool_decide_eq_true_2, index_pred by done.
  destruct k as [|k]; [by destruct fuel|]. rewrite index_valid by lia.
  destruct (reps_lookup k) as (l' & xs' & Hl' & Hx' & Hd'); [lia|]. rewrite (getList_nat k l' Hl'). res_simpl.
  unfold rbegin. rewrite (rep_tail _ _ _ Hd'). unfold it_before. cbn [top]. rewrite Hx'.
  destruct xs' as [|x xs']; [apply IH; lia|]. rewrite Hx'. cbn [mbind option_bind].
  destruct (last (x :: xs')) as [a|] eqn:E; [|by apply last_None in E].
  destruct fuel; cbn [forward_loop index_ iterList_ currIter_]; rewrite index_valid, (getList_nat k l' Hl') by lia;
    res_simpl; by rewrite iter_eq_rend, bool_decide_eq_false_2.
Qed.

Lemma incr_at k j xs : (k < length ls)%nat → xss !! k = Some xs → (j < length xs)%nat →
  miter_incr h ls (it_at k j) = Ok (match j with O => it_before k | S j => it_at k j end).
Proof.
  intros Hk Hx Hj. destruct (reps_lookup k Hk) as (l & xs' & Hl & Hx' & Hd). simplify_eq.
  unfold miter_incr, it_at. cbn [index_ currIter_ iterList_]. rewrite index_valid, Hx by done. cbn [mbind option_bind].
  destruct (lookup_lt_is_Some_2 _ _ Hj) as [a Ha]. rewrite Ha. unfold iter_incr, goForward. cbn [curr_ dir_].
  rewrite bool_decide_eq_true_2 by done. res_simpl. destruct (rep_links _ _ _ Hd j a Ha) as (_ & _ & ->). res_simpl.
  destruct j as [|j]; [apply forward_end; lia|]. cbn [prev_at forward_loop index_ iterList_ currIter_].
  rewrite index_valid, (getList_nat k l Hl) by done. res_simpl. destruct (lookup_lt_is_Some_2 xs j) as [b Hb]; [lia|].
  by rewrite iter_eq_rend, Hb, bool_decide_eq_false_2.
Qed.

(** Iterating from [it] visits [L] and then ends. *)
Fixpoint visits (it : MIterator) (L : list Z) : Prop :=
  match L with
  | [] => it = mkMIterator kInvalidIndex 0 rend_iter
  | a :: L => miter_valid ls it = true ∧ curr_ (currIter_ it) = Some a ∧
      ∃ it', miter_incr h ls it = Ok it' ∧ visits it' L
  end.

Lemma visits_at k j xs L : (k < length ls)%nat → xss !! k = Some xs → (j < length xs)%nat →
  visits (it_before k) L → visits (it_at k j) (reverse (take (S j) xs) ++ L).
Proof.
  intros Hk Hx Hj Hb. induction j as [|j IH]; destruct (lookup_lt_is_Some_2 _ _ Hj) as [a Ha];
    rewrite (take_S_r xs _ a Ha), reverse_app, reverse_singleton; cbn [app visits]; unfold miter_valid;
    (split; [cbn; apply Z.ltb_lt; lia|]); (split; [cbn; rewrite Hx; exact Ha|]);
    rewrite (incr_at k _ xs) by done; eexists; (split; [done|]); [by rewrite take_0|].
  apply IH. lia.
Qed.

Lemma visits_before k : (k ≤ length ls)%nat → visits (it_before k) (reverse (concat (take k xss))).
Proof.
  induction k as [|k IH]; intros Hk; [done|].
  destruct (reps_lookup k) as (l & xs & Hl & Hx & Hd); [lia|].
  rewrite (take_S_r xss k xs Hx), concat_app. cbn [concat]. rewrite app_nil_r, reverse_app.
  unfold it_before. cbn [top]. rewrite Hx. destruct xs as [|x xs]; [apply IH; lia|].
  assert (it_at k (length xs) = mkMIterator (Z.of_nat k) (Z.of_nat k) (mkIterator (xss !! k ≫= last) FROM_TAIL)) as <-
    by (unfold it_at; rewrite Hx; cbn [mbind option_bind]; by rewrite last_lookup).
  pose proof (visits_at k (length xs) (x :: xs) _ ltac:(lia) Hx ltac:(cbn; lia) (IH ltac:(lia))) as Hv.
  by rewrite (take_ge (x :: xs)) in Hv by (cbn; lia).
Qed.

Lemma collect_visits it L fuel : visits it L → (length L ≤ fuel)%nat → miter_collect fuel h ls it = Ok L.
Proof.
  revert it fuel. induction L as [|a L IH]; intros it fuel.
  - intros -> _. destruct fuel; cbn [miter_collect]; unfold miter_valid; cbn [index_];
      by rewrite (proj2 (Z.ltb_ge _ _)) by (unfold kInvalidIndex, uint_max; lia).
  - intros (Hv & Hc & it' & Hi & Hvis) Hf. destruct fuel as [|fuel]; [cbn in Hf; lia|]. cbn [miter_collect].
    rewrite Hv, Hc. res_simpl. rewrite Hi. res_simpl. rewrite IH by (done || (cbn in Hf; lia)). done.
Qed.

Lemma collect_before k fuel : (k ≤ length ls)%nat → (length (concat (take k xss)) ≤ fuel)%nat →
  miter_collect fuel h ls (it_before k) = Ok (reverse (concat (take k xss))).
Proof. intros Hk Hf. apply collect_visits; [by apply visits_before|]. by rewrite length_reverse. Qed.

Lemma rend_aux : (0 < length ls)%nat → mlist_rend ls = Ok (mkMIterator kInvalidIndex 0 rend_iter).
Proof.
  intros Hk. unfold mlist_rend, miter_reset. rewrite rbegin_aux by done. res_simpl.
  destruct (reps_lookup 0 Hk) as (l & _ & Hl & _). by rewrite (getList_nat 0 l Hl : getList 0 ls = Ok l).
Qed.
End iteration.

(** ** The lists after the first candidate is gone *)
Section pop.
Implicit Types (xss yss : list (list Z)) (k j : nat).

Lemma top_ext xss yss k : (∀ i, (i < k)%nat → xss !! i = yss !! i) → top (xss := xss) k = top (xss := yss) k.
Proof.
  induction k as [|k IH]; intros Heq; [done|]. cbn [top]. rewrite (Heq k), IH by (intros; (lia || apply Heq; lia)). done.
Qed.
Lemma it_before_ext xss yss k : (∀ i, (i < k)%nat → xss !! i = yss !! i) → it_before (xss := xss) k = it_before (xss := yss) k.
Proof.
  intros Heq. unfold it_before. rewrite (top_ext xss yss k Heq). destruct (top k) as [j|] eqn:E; [|done].
  rewrite Heq; [done|]. by apply top_some in E as [? _].
Qed.
Lemma top_none xss k : top (xss := xss) k = None → ∀ i xs, (i < k)%nat → xss !! i = Some xs → xs = [].
Proof.
  induction k as [|k IH]; intros Ht i xs Hi Hx; [lia|]. cbn [top] in Ht. destruct (decide (i = k)) as [->|].
  - rewrite Hx in Ht. by destruct xs.
  - eapply IH; [|by instantiate (1 := i); lia|done]. by destruct (xss !! k) as [[|]|].
Qed.
Lemma top_above xss k j : top (xss := xss) k = Some j → ∀ i, (j < i < k)%nat → xss !! i = Some [] ∨ xss !! i = None.
Proof.
  induction k as [|k IH]; [done|]. cbn [top]. intros Ht i Hi. destruct (decide (i = k)) as [->|Hik].
  - destruct (xss !! k) as [[|]|]; [by left| |by right]. injection Ht as ->. lia.
  - destruct (xss !! k) as [[|]|]; [by apply IH; [|lia]|injection Ht as ->; lia|by apply IH; [|lia]].
Qed.
Lemma top_skip xss m k : (m ≤ k)%nat → (∀ i, (m ≤ i < k)%nat → xss !! i = Some [] ∨ xss !! i = None) →
  top (xss := xss) k = top (xss := xss) m.
Proof.
  induction k as [|k IH]; intros Hm He; [by replace m with 0%nat by lia|].
  destruct (decide (m = S k)) as [->|]; [done|]. cbn [top].
  destruct (He k) as [-> | ->]; [lia| |]; apply IH; try lia; intros i Hi; apply He; lia.
Qed.

(** Dropping the first candidate leaves [rbegin()] on the next one. *)
Lemma pop_before xss k j ys (a : Z) : top (xss := xss) k = Some j → xss !! j = Some (ys ++ [a]) →
  it_before (xss := <[j := ys]> xss) k =
    match length ys with O => it_before (xss := xss) j | S m => it_at (xss := xss) j m end.
Proof.
  intros Ht Hj. pose proof (top_above _ _ _ Ht) as Hab. apply top_some in Ht as [Hlt _].
  pose proof (lookup_lt_Some _ _ _ Hj) as Hjl.
  assert (top (xss := <[j := ys]> xss) k = top (xss := <[j := ys]> xss) (S j)) as Htop.
  { apply top_skip; [lia|]. intros i Hi. rewrite list_lookup_insert_ne by lia. apply Hab. lia. }
  assert (<[j := ys]> xss !! j = Some ys) as Hjy by by apply list_lookup_insert_eq.
  unfold it_before at 1. rewrite Htop. cbn [top]. rewrite Hjy. destruct ys as [|y ys]; cbn [length].
  - fold (it_before (xss := <[j := []]> xss) j). apply it_before_ext. intros i Hi. apply list_lookup_insert_ne. lia.
  - unfold it_at. rewrite Hjy, Hj. cbn [mbind option_bind]. rewrite last_lookup. cbn [length pred].
    by rewrite lookup_app_l by (cbn; lia).
Qed.
End pop.

Section theorems.
Context `{PtrCompressor}.

(** Iterating a multi-list with [rbegin()] and [operator++] terminates and
    visits every node once: the last list first, each list from tail to head,
    skipping empty lists. *)
Theorem mlist_eviction_order h (ls : MultiDList) xss : Forall2 (dlist_rep h) ls xss →
  0 < Z.of_nat (length ls) < 2 ^ 64 →
  ∃ it, mlist_rbegin ls = Ok it ∧
    miter_collect (length (concat xss)) h ls it = Ok (reverse (concat xss)).
Proof.
  intros Hrep [H0 Hlen]. eexists. split; [apply (rbegin_aux (h := h) (xss := xss)); (done || lia)|].
  assert (take (length ls) xss = xss) as Ht by (apply take_ge; by rewrite (Forall2_length _ _ _ Hrep)).
  pose proof (collect_before Hrep Hlen (length ls) (length (concat xss)) ltac:(lia)) as Hc.
  rewrite Ht in Hc. by apply Hc.
Qed.

(** [operator--] does not undo [operator++]: stepping back from the last
    node of a list into a following list that holds a single node skips that
    node, and when it is the last list the iterator ends up invalid. *)
Theorem mlist_backward_skips_singleton h (ls : MultiDList) xss k a b xs :
  Forall2 (dlist_rep h) ls xss → Z.of_nat (length ls) < 2 ^ 64 → length ls = S (S k) →
  xss !! k = Some (xs ++ [a]) → xss !! S k = Some [b] →
  let at_a := mkMIterator (Z.of_nat k) (Z.of_nat k) (mkIterator (Some a) FROM_TAIL) in
  let at_b := mkMIterator (Z.of_nat (S k)) (Z.of_nat (S k)) (mkIterator (Some b) FROM_TAIL) in
  miter_incr h ls at_b = Ok at_a ∧
  ∃ it, miter_decr h ls at_a = Ok it ∧ miter_valid ls it = false.
Proof.
  intros Hrep Hlen Hn Ha Hb at_a at_b.
  destruct (reps_lookup Hrep k) as (l & ? & Hl & ? & Hd); [lia|]. simplify_eq.
  destruct (reps_lookup Hrep (S k)) as (l' & ? & Hl' & ? & Hd'); [lia|]. simplify_eq.
  pose proof (rep_tail _ _ _ Hd) as Ht. rewrite last_snoc in Ht.
  split.
  - pose proof (incr_at Hrep Hlen (S k) 0 [b] ltac:(lia) Hb ltac:(cbn; lia)) as Hi.
    unfold it_at, it_before in Hi. cbn [top] in Hi. rewrite Hb, Ha in Hi. cbn [mbind option_bind] in Hi.
    change ([b] !! 0%nat) with (Some b) in Hi. unfold at_b. rewrite Hi. destruct (xs ++ [a]) as [|y ys] eqn:E; [by destruct xs|].
    rewrite Ha. cbn [mbind option_bind]. rewrite <- E, last_snoc. done.
  - unfold miter_decr, at_a. cbn [index_ iterList_ currIter_]. rewrite (proj2 (Z.eqb_neq _ _)) by lia.
    rewrite (getList_nat k l Hl). res_simpl. unfold rbegin at 1. rewrite Ht. unfold iter_eq at 1.
    cbn [curr_ dir_]. rewrite Z.eqb_refl, bool_decide_eq_true_2 by done. cbn [andb negb].
    cbn [backward_loop index_ iterList_ currIter_]. rewrite (proj2 (Z.leb_gt _ _)) by lia.
    rewrite (getList_nat k l Hl). res_simpl. unfold rbegin at 1. rewrite Ht. unfold iter_eq at 1.
    cbn [curr_ dir_]. rewrite Z.eqb_refl, bool_decide_eq_true_2 by done. cbn [andb].
    rewrite (wrap_small 64 (Z.of_nat k + 1)) by (unfold fits; lia).
    rewrite (proj2 (Z.ltb_lt _ _)) by lia. replace (Z.of_nat k + 1) with (Z.of_nat (S k)) by lia.
    rewrite (getList_nat (S k) l' Hl'), Hn. res_simpl.
    cbn [backward_loop index_ iterList_ currIter_]. rewrite Hn, (proj2 (Z.leb_gt _ _)) by lia.
    rewrite (getList_nat (S k) l' Hl'). res_simpl. unfold rbegin.
    rewrite (rep_head _ _ _ Hd'), (rep_tail _ _ _ Hd'). unfold iter_eq at 1. cbn [curr_ dir_].
    rewrite Z.eqb_refl, bool_decide_eq_true_2 by done. cbn [andb].
    rewrite wrap_small by (unfold fits; lia). rewrite (proj2 (Z.ltb_ge _ _)) by lia.
    cbn [index_]. rewrite (proj2 (Z.leb_le _ _)) by lia. eexists. split; [done|].
    unfold miter_valid. apply Z.ltb_ge. cbn [index_]. lia.
Qed.
End theorems.

(** ** Concrete lists *)
#[local] Existing Instance example_compressor.
Definition ex_single : DList := mkDList (Some (ex_node 2)) (Some (ex_node 2)) 1.
Lemma ex_single_rep : dlist_rep ex_store ex_single [ex_node 2].
Proof.
  split; [by apply NoDup_singleton|done..|].
  intros [|i] a; cbn; intros [= <-]; (split; [apply ex_valid; lia|by vm_compute]).
Qed.
Lemma ex_empty_rep : dlist_rep ex_store DList_empty [].
Proof. by split; try apply NoDup_nil_2. Qed.

Lemma mlist_eviction_order_witness : ∃ it, mlist_rbegin [ex_list; DList_empty; ex_single; DList_empty] = Ok it ∧
  miter_collect 3 ex_store [ex_list; DList_empty; ex_single; DList_empty] it =
    Ok [ex_node 2; ex_node 1; ex_node 0].
Proof.
  apply (mlist_eviction_order ex_store [ex_list; DList_empty; ex_single; DList_empty]
    [[ex_node 0; ex_node 1]; []; [ex_node 2]; []]); [|cbn; lia].
  do 4 (apply Forall2_cons; split; [apply ex_rep || apply ex_empty_rep || apply ex_single_rep|]). by apply Forall2_nil.
Defined.

Lemma mlist_backward_skips_singleton_witness :
  let at_a := mkMIterator 0 0 (mkIterator (Some (ex_node 1)) FROM_TAIL) in
  let at_b := mkMIterator 1 1 (mkIterator (Some (ex_node 2)) FROM_TAIL) in
  miter_incr ex_store [ex_list; ex_single] at_b = Ok at_a ∧
  ∃ it, miter_decr ex_store [ex_list; ex_single] at_a = Ok it ∧ miter_valid [ex_list; ex_single] it = false.
Proof.
  apply (mlist_backward_skips_singleton ex_store [ex_list; ex_single] [[ex_node 0; ex_node 1]; [ex_node 2]]
    0 (ex_node 1) (ex_node 2) [ex_node 0]); [|cbn; lia|done..].
  do 2 (apply Forall2_cons; split; [apply ex_rep || apply ex_single_rep|]). by apply Forall2_nil.
Defined.
