(* ===== verification/MMQueues.v ===== *)
(** Several queues over one store: what the containers that keep their items in
    a [MultiDList] ([MM2Q], [MMTinyLFU]) share.

    [qrep] relates the lists of a [MultiDList] to sequences of items, [qst] adds
    the MM state of every item; an operation on one of the lists and a write to
    an item are lemmas about [qst]. *)
From S2P Require Import Prelude Refcount SlabAllocator PtrCompressor DList MMCommon MultiDList.

Section queues.
Context `{PtrCompressor}.
Implicit Types (h : Store) (ls : MultiDList) (xss : list (list Z)) (a b : Z) (i j : nat).

(** [lru_.getList(i).f()]. *)
Definition on_list_at (i : nat) (f : DList * Store → result (DList * Store)) (s : MultiDList * Store)
    : result (MultiDList * Store) :=
  let '(ls, h) := s in
  l ← getList (Z.of_nat i) ls; '(l, h) ← f (l, h); Ok (<[i := l]> ls, h).

Definition in_lists xss a : Prop := ∃ i xs, xss !! i = Some xs ∧ a ∈ xs.

(** Disjoint lists over the store; items outside them are unlinked. *)
Record qrep h ls xss : Prop := {
  qr_lists : Forall2 (dlist_rep h) ls xss;
  qr_disj i j xs ys a : xss !! i = Some xs → xss !! j = Some ys → a ∈ xs → a ∈ ys → i = j;
  qr_clear a : is_Some (payload h a) → ¬ in_lists xss a → getNext h a = Ok None ∧ getPrev h a = Ok None;
}.

Lemma qr_list h ls xss i xs : qrep h ls xss → xss !! i = Some xs → ∃ l, ls !! i = Some l ∧ dlist_rep h l xs.
Proof.
  intros Hm Hi. destruct (Forall2_lookup_r _ _ _ _ _ (qr_lists _ _ _ Hm) Hi) as (l & Hl & Hd). by exists l.
Qed.
Lemma qr_get h ls xss i xs : qrep h ls xss → xss !! i = Some xs →
  ∃ l, getList (Z.of_nat i) ls = Ok l ∧ dlist_rep h l xs.
Proof.
  intros Hm Hi. destruct (qr_list h ls xss i xs Hm Hi) as (l & Hl & Hd). exists l. split; [by apply getList_nat|done].
Qed.

(** The size of the lists. *)
Lemma lists_size h ls xss k : Forall2 (dlist_rep h) ls xss → 0 ≤ k → k + Z.of_nat (length xss) * 2 ^ 32 < 2 ^ 64 →
  foldl (λ sz l, u64 (sz + size_ l)) k ls = k + Z.of_nat (length (concat xss)) ∧
  Z.of_nat (length (concat xss)) ≤ Z.of_nat (length xss) * 2 ^ 32.
Proof.
  intros Hl. revert k. induction Hl as [|l xs ls xss Hd Hl IH]; intros k Hk0 Hk; cbn [foldl concat length] in *.
  { cbn. lia. }
  pose proof (rep_length Hd) as Hle. rewrite length_app, (rep_size _ _ _ Hd).
  rewrite wrap_small by (unfold fits; lia).
  destruct (IH (k + Z.of_nat (length xs)) ltac:(lia) ltac:(lia)) as [-> Hb]. lia.
Qed.
Lemma qr_size h ls xss : qrep h ls xss → (length xss ≤ 8)%nat →
  mlist_size ls = Z.of_nat (length (concat xss)) ∧ Z.of_nat (length (concat xss)) ≤ Z.of_nat (length xss) * 2 ^ 32.
Proof. intros Hm Hn. apply (lists_size h ls xss 0 (qr_lists _ _ _ Hm)); lia. Qed.

Lemma in_lists_insert xss i xs a : (i < length xss)%nat →
  in_lists (<[i := xs]> xss) a ↔ a ∈ xs ∨ ∃ j ys, j ≠ i ∧ xss !! j = Some ys ∧ a ∈ ys.
Proof.
  intros Hi. split.
  - intros (j & ys & Hj & Ha). destruct (decide (j = i)) as [->|Hne].
    + rewrite list_lookup_insert_eq in Hj by done. left. by simplify_eq.
    + rewrite list_lookup_insert_ne in Hj by done. right. by exists j, ys.
  - intros [Ha|(j & ys & Hne & Hj & Ha)].
    + exists i, xs. by rewrite list_lookup_insert_eq.
    + exists j, ys. by rewrite list_lookup_insert_ne.
Qed.

(** Replacing one list by the result of an operation on it. *)
Lemma on_list_qrep h ls xss i xs f xs' : qrep h ls xss → xss !! i = Some xs →
  (∀ l, dlist_rep h l xs → ∃ l' h', f (l, h) = Ok (l', h') ∧ dlist_rep h' l' xs' ∧
     frame (xs ++ xs') h h' ∧
     (∀ a, a ∈ xs → a ∉ xs' → getNext h' a = Ok None ∧ getPrev h' a = Ok None)) →
  (∀ a j ys, a ∈ xs' → j ≠ i → xss !! j = Some ys → a ∉ ys) →
  ∃ ls' h', on_list_at i f (ls, h) = Ok (ls', h') ∧ qrep h' ls' (<[i := xs']> xss) ∧
    (∀ b, payload h' b = payload h b).
Proof.
  intros Hm Hi Hf Hx. destruct (qr_list h ls xss i xs Hm Hi) as (l & Hl & Hd).
  destruct (Hf l Hd) as (l' & h' & Heq & Hd' & [Hpay Hfr] & Hcl). exists (<[i := l']> ls), h'.
  unfold on_list_at. rewrite (getList_nat i l Hl). res_simpl. rewrite Heq. res_simpl.
  pose proof (lookup_lt_Some _ _ _ Hi) as Hlt. split; [done|]. split; [|done]. split.
  - apply Forall2_same_length_lookup. rewrite !length_insert. split; [apply (Forall2_length _ _ _ (qr_lists _ _ _ Hm))|].
    intros j l1 xs1 Hl1 Hx1. destruct (decide (j = i)) as [->|Hj].
    + rewrite list_lookup_insert_eq in Hl1 by by eapply lookup_lt_Some.
      rewrite list_lookup_insert_eq in Hx1 by done. by simplify_eq.
    + rewrite list_lookup_insert_ne in Hl1 by done. rewrite list_lookup_insert_ne in Hx1 by done.
      pose proof (Forall2_lookup_lr _ _ _ _ _ _ (qr_lists _ _ _ Hm) Hl1 Hx1) as Hd1. eapply rep_frame; [done|].
      intros b Hb. apply Hfr. rewrite elem_of_app. intros [Hb'|Hb']; [|by apply (Hx b j xs1)].
      by apply Hj, (qr_disj _ _ _ Hm j i xs1 xs b).
  - intros j k ys zs a Hj Hk Hya Hza. destruct (decide (j = i)) as [->|Hji], (decide (k = i)) as [->|Hki]; [done|..].
    + rewrite list_lookup_insert_eq in Hj by done. rewrite list_lookup_insert_ne in Hk by done. simplify_eq.
      by destruct (Hx a k zs Hya Hki Hk).
    + rewrite list_lookup_insert_ne in Hj by done. rewrite list_lookup_insert_eq in Hk by done. simplify_eq.
      by destruct (Hx a j ys Hza Hji Hj).
    + rewrite list_lookup_insert_ne in Hj by done. rewrite list_lookup_insert_ne in Hk by done.
      by apply (qr_disj _ _ _ Hm j k ys zs a).
  - intros a Ha Hnq. rewrite Hpay in Ha. rewrite (in_lists_insert _ _ _ _ Hlt) in Hnq.
    destruct (decide (a ∈ xs)) as [Hin|Hin]; [apply Hcl; [done|naive_solver]|].
    destruct (Hfr a) as [-> ->]; [rewrite elem_of_app; naive_solver|]. apply (qr_clear _ _ _ Hm); [done|].
    intros (j & ys & Hj & Hy). destruct (decide (j = i)) as [->|Hne]; [by simplify_eq|]. naive_solver.
Qed.

(** ** States

    What an operation sees of the heap of a container: the allocated items
    [A], the queues, and the linked bit, flags and update time of each item. *)
Record qst (A : Z → Prop) h ls xss (lk : Z → bool) (fl : Flags → Z → bool) (tm : Z → Z) : Prop := {
  qst_rep : qrep h ls xss;
  qst_words : words h;
  qst_alive a : is_Some (payload h a) ↔ A a;
  qst_valid a : A a → valid_ptr a;
  qst_linked a : linked h a = lk a;
  qst_flag f a : flag f h a = fl f a;
  qst_time a : time h a = tm a;
}.

Lemma qst_payload A h ls xss lk fl tm h' ls' xss' : qst A h ls xss lk fl tm → qrep h' ls' xss' →
  (∀ b, payload h' b = payload h b) → qst A h' ls' xss' lk fl tm.
Proof.
  intros Hs Hm Hp. destruct (meta_payload h' h Hp) as (H1 & H2 & H3 & H4). split; try done.
  - apply H4, Hs.
  - intros a. rewrite Hp. apply Hs.
  - apply Hs.
  - intros a. rewrite H1. apply Hs.
  - intros f a. rewrite H2. apply Hs.
  - intros a. rewrite H3. apply Hs.
Qed.

Section steps.
Context {A : Z → Prop} {h : Store} {ls : MultiDList} {xss : list (list Z)} {lk fl tm} (Hs : qst A h ls xss lk fl tm).

Lemma qst_alive_ptr a : A a → alive h (Some a).
Proof. intros Ha b [= <-]. by apply (qst_alive _ _ _ _ _ _ _ Hs). Qed.
Lemma qst_queued_alive i xs a : xss !! i = Some xs → a ∈ xs → A a.
Proof.
  intros Hi [j Hj]%list_elem_of_lookup. destruct (qr_list h ls xss i xs (qst_rep _ _ _ _ _ _ _ Hs) Hi) as (l & _ & Hd).
  apply (qst_alive _ _ _ _ _ _ _ Hs). by apply (rep_alive_lookup Hd j).
Qed.
Lemma qst_nodup i xs : xss !! i = Some xs → NoDup xs.
Proof. intros Hi. destruct (qr_list h ls xss i xs (qst_rep _ _ _ _ _ _ _ Hs) Hi) as (l & _ & Hd). apply Hd. Qed.
Lemma qst_get i xs : xss !! i = Some xs → ∃ l, getList (Z.of_nat i) ls = Ok l ∧ dlist_rep h l xs.
Proof. apply qr_get, Hs. Qed.

(** The general step: an operation on list [i]. *)
Lemma qst_on_list i xs f xs' : xss !! i = Some xs →
  (∀ l, dlist_rep h l xs → ∃ l' h', f (l, h) = Ok (l', h') ∧ dlist_rep h' l' xs' ∧
     frame (xs ++ xs') h h' ∧
     (∀ a, a ∈ xs → a ∉ xs' → getNext h' a = Ok None ∧ getPrev h' a = Ok None)) →
  (∀ a, a ∈ xs' → a ∈ xs ∨ ¬ in_lists xss a) →
  ∃ ls' h', on_list_at i f (ls, h) = Ok (ls', h') ∧ qst A h' ls' (<[i := xs']> xss) lk fl tm.
Proof.
  intros Hi Hf Hx. pose proof (qst_rep _ _ _ _ _ _ _ Hs) as Hm.
  destruct (on_list_qrep h ls xss i xs f xs' Hm Hi Hf) as (ls' & h' & Heq & Hm' & Hp).
  - intros a j ys Ha Hne Hj Hy. destruct (Hx a Ha) as [Hxa|Hn]; [by apply Hne, (qr_disj _ _ _ Hm j i ys xs a)|].
    apply Hn. by exists j, ys.
  - exists ls', h'. split; [done|]. by apply (qst_payload A h ls xss).
Qed.

Lemma qst_remove i xs j a : xss !! i = Some xs → xs !! j = Some a →
  ∃ ls' h', on_list_at i (remove a) (ls, h) = Ok (ls', h') ∧ qst A h' ls' (<[i := delete j xs]> xss) lk fl tm.
Proof.
  intros Hi Hj. apply (qst_on_list i xs); [done| |].
  - intros l Hd. destruct (remove_aux h l _ j a Hd Hj) as (l' & h' & Heq & Hd' & Hf & Hn & Hpv).
    exists l', h'. split; [done|]. split; [done|]. split.
    + eapply frame_weaken; [done|]. intros b Hb. rewrite elem_of_app. by left.
    + intros b Hb Hnb. rewrite (elem_of_delete _ j a) in Hnb; [|apply Hd|done].
      destruct (decide (b = a)) as [->|]; [done|naive_solver].
  - intros b Hb. left. by eapply delete_elem.
Qed.

Lemma qst_link i xs a : xss !! i = Some xs → A a → ¬ in_lists xss a →
  ∃ ls' h', on_list_at i (linkAtHead a) (ls, h) = Ok (ls', h') ∧ qst A h' ls' (<[i := a :: xs]> xss) lk fl tm.
Proof.
  intros Hi Ha Hn. apply (qst_on_list i xs); [done| |].
  - intros l Hd. destruct (linkAtHead_aux h l _ a Hd) as (l' & h' & Heq & Hd' & Hf);
      [by intros Hx; apply Hn; exists i, xs|by apply (qst_valid _ _ _ _ _ _ _ Hs)|by apply qst_alive_ptr|].
    exists l', h'. split; [done|]. split; [done|]. split.
    + eapply frame_weaken; [done|]. intros b Hb. rewrite elem_of_app. by right.
    + intros b Hb Hnb. exfalso. apply Hnb. by right.
  - intros b [->|Hb]%elem_of_cons; [by right|by left].
Qed.

Lemma qst_link_tail i xs a : xss !! i = Some xs → A a → ¬ in_lists xss a →
  ∃ ls' h', on_list_at i (linkAtTail a) (ls, h) = Ok (ls', h') ∧ qst A h' ls' (<[i := xs ++ [a]]> xss) lk fl tm.
Proof.
  intros Hi Ha Hn. apply (qst_on_list i xs); [done| |].
  - intros l Hd. destruct (linkAtTail_aux h l _ a Hd) as (l' & h' & Heq & Hd' & Hf);
      [by intros Hx; apply Hn; exists i, xs|by apply (qst_valid _ _ _ _ _ _ _ Hs)|by apply qst_alive_ptr|].
    exists l', h'. split; [done|]. split; [done|]. split.
    + eapply frame_weaken; [done|]. intros b [->|Hb]%elem_of_cons; rewrite !elem_of_app; [right; right; by left|by left].
    + intros b Hb Hnb. exfalso. apply Hnb. rewrite elem_of_app. by left.
  - intros b [Hb|[-> |Hb%elem_of_nil]%elem_of_cons]%elem_of_app; [by left|by right|done].
Qed.

Lemma qst_move i xs j a : xss !! i = Some xs → xs !! j = Some a →
  ∃ ls' h', on_list_at i (moveToHead a) (ls, h) = Ok (ls', h') ∧
    qst A h' ls' (<[i := a :: delete j xs]> xss) lk fl tm.
Proof.
  intros Hi Hj. pose proof (list_elem_of_lookup_2 _ _ _ Hj) as Hin. apply (qst_on_list i xs); [done| |].
  - intros l Hd. destruct (moveToHead_aux h l _ j a Hd Hj) as (l' & h' & Heq & Hd' & Hf).
    exists l', h'. split; [done|]. split; [done|]. split.
    + eapply frame_weaken; [done|]. intros b Hb. rewrite elem_of_app. by left.
    + intros b Hb Hnb. exfalso. apply Hnb. rewrite elem_of_cons, (elem_of_delete _ j a); [|apply Hd|done].
      destruct (decide (b = a)); naive_solver.
  - intros b [->|Hb%delete_elem]%elem_of_cons; by left.
Qed.

Lemma qst_replace i xs j a c : xss !! i = Some xs → xs !! j = Some a → A c → ¬ in_lists xss c →
  ∃ ls' h', on_list_at i (replace a c) (ls, h) = Ok (ls', h') ∧ qst A h' ls' (<[i := <[j := c]> xs]> xss) lk fl tm.
Proof.
  intros Hi Hj Hc Hn. pose proof (qst_nodup i xs Hi) as Hnd. apply (qst_on_list i xs); [done| |].
  - intros l Hd. destruct (replace_aux h l _ j a c Hd Hj) as (l' & h' & Heq & Hd' & Hf & Hnx & Hpv);
      [by intros Hx; apply Hn; exists i, xs|by apply (qst_valid _ _ _ _ _ _ _ Hs)|by apply qst_alive_ptr|].
    exists l', h'. split; [done|]. split; [done|]. split.
    + eapply frame_weaken; [done|]. intros b [->|Hb]%elem_of_cons; rewrite elem_of_app; [right|by left].
      apply list_elem_of_lookup. exists j. apply list_lookup_insert_eq. by eapply lookup_lt_Some.
    + intros b Hb Hnb. rewrite (elem_of_list_insert _ j a c) in Hnb; [|done..].
      destruct (decide (b = a)) as [->|]; [done|naive_solver].
  - intros b Hb. rewrite (elem_of_list_insert _ j a c) in Hb by done. destruct Hb as [->|[Hb _]]; [by right|by left].
Qed.

(** Writes to an item. *)
Lemma qst_meta h' lk' fl' tm' : meta h' h lk' fl' tm' → qst A h' ls xss lk' fl' tm'.
Proof.
  intros Hm. pose proof (qst_rep _ _ _ _ _ _ _ Hs) as Hr. split; try apply Hm.
  - split.
    + eapply Forall2_impl; [apply (qr_lists _ _ _ Hr)|]. intros l xs Hd. eapply rep_frame; [done|].
      intros b _. split; apply Hm.
    + apply (qr_disj _ _ _ Hr).
    + intros a Ha Hn. rewrite (meta_next _ _ _ _ _ Hm), (meta_prev _ _ _ _ _ Hm). apply (qr_clear _ _ _ Hr); [|done].
      by apply (meta_alive _ _ _ _ _ Hm).
  - intros a. rewrite (meta_alive _ _ _ _ _ Hm). apply (qst_alive _ _ _ _ _ _ _ Hs).
  - apply (qst_valid _ _ _ _ _ _ _ Hs).
Qed.
Lemma qst_refl : meta h h lk fl tm.
Proof. split; try done; apply Hs. Qed.

Lemma qst_mark f v a : A a → ∃ h', withRef (if v : bool then setFlag f else unSetFlag f) a h = Ok h' ∧
  qst A h' ls xss lk (setf f a v fl) tm.
Proof.
  intros Ha. destruct (step_mark_flag qst_refl f a v) as (h' & Heq & Hm); [by apply qst_alive_ptr|].
  exists h'. split; [done|by apply qst_meta].
Qed.
Lemma qst_mark_linked v a : A a → ∃ h', withRef (if v : bool then markInMMContainer else unmarkInMMContainer) a h = Ok h' ∧
  qst A h' ls xss (set a v lk) fl tm.
Proof.
  intros Ha. destruct (step_mark_linked qst_refl a v) as (h' & Heq & Hm); [by apply qst_alive_ptr|].
  exists h'. split; [done|by apply qst_meta].
Qed.
Lemma qst_setTime a (t : Z) : A a → ∃ h', setUpdateTime a t h = Ok h' ∧ qst A h' ls xss lk fl (set a t tm).
Proof.
  intros Ha. destruct (step_setTime qst_refl a t) as (h' & Heq & Hm); [by apply qst_alive_ptr|].
  exists h'. split; [done|by apply qst_meta].
Qed.
Lemma qst_testLinked a : A a → testRef isInMMContainer h a = Ok (lk a).
Proof. intros Ha. by apply (step_testLinked qst_refl), qst_alive_ptr. Qed.
Lemma qst_testFlag f a : A a → testRef (isFlagSet f) h a = Ok (fl f a).
Proof. intros Ha. by apply (step_testFlag qst_refl), qst_alive_ptr. Qed.
Lemma qst_getTime a : A a → getUpdateTime h a = Ok (tm a).
Proof. intros Ha. by apply (step_getTime qst_refl), qst_alive_ptr. Qed.
End steps.
End queues.

(** Fresh items: allocated, in no container, hooks cleared. *)
Definition fresh_items `{PtrCompressor} (h : Store) : Prop :=
  words h ∧ ∀ a, is_Some (payload h a) →
    valid_ptr a ∧ linked h a = false ∧ getNext h a = Ok None ∧ getPrev h a = Ok None.

(** New queues over fresh items. *)
Lemma fresh_qst `{PtrCompressor} h n : fresh_items h →
  qst (λ a, is_Some (payload h a)) h (MultiDList_new n) (replicate n []) (linked h) (λ f, flag f h) (time h).
Proof.
  intros [Hw Hf].
  assert (∀ i xs, replicate n (@nil Z) !! i = Some xs → xs = []) as Hnil by (intros i xs [-> _]%lookup_replicate; done).
  split; try done; [|intros a Ha; by apply Hf in Ha as [? _]]. split.
  - unfold MultiDList_new. apply Forall2_replicate. by split; try apply NoDup_nil_2.
  - intros i j xs ys a Hi _ Ha. rewrite (Hnil i xs Hi) in Ha. by apply elem_of_nil in Ha.
  - intros a Ha _. by apply Hf in Ha as (_ & _ & ?).
Qed.

(** ** Pointwise changes and the end of a list *)
Lemma setv_eq {A} (a : Z) (v : A) f : set a v f a = v.
Proof. unfold set. by rewrite decide_True. Qed.
Lemma setv_ne {A} (a b : Z) (v : A) f : b ≠ a → set a v f b = f b.
Proof. intros. unfold set. by rewrite decide_False. Qed.
Lemma setf_eq f a v fl : setf f a v fl f a = v.
Proof. unfold setf, set. by rewrite !decide_True. Qed.
Lemma setf_ne f g a v fl b : f ≠ g → setf f a v fl g b = fl g b.
Proof. intros. unfold setf. by rewrite decide_False. Qed.
Lemma setf_other f g a v fl b : b ≠ a → setf f a v fl g b = fl g b.
Proof. intros. unfold setf, set. case_decide; [subst|done]. by rewrite decide_False. Qed.

Lemma delete_snoc (a : Z) xs : delete (length xs) (xs ++ [a]) = xs.
Proof. rewrite delete_take_drop, take_app_length, drop_ge by (rewrite length_app; cbn; lia). apply app_nil_r. Qed.
Lemma snoc_case (xs : list Z) : xs = [] ∨ ∃ ys a, xs = ys ++ [a] ∧ last xs = Some a.
Proof.
  destruct (last xs) as [a|] eqn:E; [right|left; by apply last_None].
  apply last_Some in E as [ys ->]. by exists ys, a.
Qed.

(** ** Three fresh items *)
#[local] Existing Instance example_compressor.
Definition node2q (time word : Z) : Node := mkNode (ex_c None) (ex_c None) time word.
Definition fresh2q : Store :=
  list_to_map [(ex_node 0, node2q 0 0); (ex_node 1, node2q 0 0); (ex_node 2, node2q 0 0)].

(** The items of a store of three. *)
Lemma items_3 (n0 n1 n2 : Node) (P : Z → Prop) h :
  h = list_to_map [(ex_node 0, n0); (ex_node 1, n1); (ex_node 2, n2)] →
  P (ex_node 0) → P (ex_node 1) → P (ex_node 2) → ∀ a, is_Some (payload h a) → P a.
Proof.
  intros -> H0 H1 H2 a [x (n & Hn & _)%fmap_Some]. cbn in Hn.
  rewrite !lookup_insert_Some, lookup_empty in Hn. naive_solver.
Qed.
Lemma words_3 (n0 n1 n2 : Node) : fits 32 (refCount_ n0) → fits 32 (refCount_ n1) → fits 32 (refCount_ n2) →
  words (list_to_map [(ex_node 0, n0); (ex_node 1, n1); (ex_node 2, n2)]).
Proof.
  intros H0 H1 H2 a t r (n & Hn & [= -> ->])%fmap_Some. cbn in Hn.
  rewrite !lookup_insert_Some, lookup_empty in Hn. naive_solver.
Qed.

Lemma fresh2q_ok : fresh_items fresh2q.
Proof.
  split; [by apply words_3|].
  refine (items_3 _ _ _ (λ a, valid_ptr a ∧ linked fresh2q a = false ∧ getNext fresh2q a = Ok None ∧ getPrev fresh2q a = Ok None)
    _ eq_refl _ _ _); (split; [apply ex_valid; lia|by vm_compute]).
Qed.
