(* ===== verification/MM2Q.v ===== *)
(** CacheLib's 2Q container ([allocator/MM2Q.h], [MM2Q-inl.h]): Hot, Warm and
    Cold queues, the latter two with a tail queue each, over a [MultiDList].

    An item's queue is recorded in its flags ([kMMFlag0] hot, [kMMFlag2] cold,
    [kMMFlag1] in a tail).  Every operation is the critical section run under
    [lruMutex_], from the current time [now] and, for [tryLockUpdate], whether
    the try-lock succeeded.  The loops of [rebalance] carry fuel: the number of
    queued items, which is shown to be enough. *)
From Stdlib Require Import Floats.SpecFloat.
From S2P Require Import Prelude Refcount SlabAllocator PtrCompressor DList Doubles MMCommon MultiDList MMQueues.

(** ** Configuration and state *)
Inductive LruType := Warm | WarmTail | Hot | Cold | ColdTail.
#[global] Instance LruType_eq_dec : EqDecision LruType.
Proof. solve_decision. Defined.
Definition lru_index (t : LruType) : nat :=
  match t with Warm => 0 | WarmTail => 1 | Hot => 2 | Cold => 3 | ColdTail => 4 end.
Definition NumTypes : nat := 5.

Record Config := mkConfig {
  defaultLruRefreshTime : Z;          (** uint32_t *)
  lruRefreshTime : Z;                 (** uint32_t *)
  lruRefreshRatio : spec_float;       (** double *)
  updateOnWrite : bool;
  updateOnRead : bool;
  tryLockUpdate : bool;
  rebalanceOnRecordAccess : bool;
  hotSizePercent : Z;                 (** size_t *)
  coldSizePercent : Z;                (** size_t *)
  tailSize : Z;                       (** size_t *)
  mmReconfigureIntervalSecs : Z;      (** seconds *)
  useCombinedLockForIterators : bool;
}.

Definition getWarmSizePercent (c : Config) : Z := u64 (u64 (100 - hotSizePercent c) - coldSizePercent c).
Definition checkLruSizes (c : Config) : result unit :=
  let warm := getWarmSizePercent c in
  let hot := hotSizePercent c in
  let cold := coldSizePercent c in
  if hot =? 100 then
    if negb (cold =? 0) && negb (warm =? 0) then Throw InvalidArgument else Ok tt
  else if (hot <=? 0) || (100 <? hot) || (cold <=? 0) || (100 <=? cold) || (warm <=? 0) || (100 <=? warm)
  then Throw InvalidArgument
  else Ok tt.

(** The constructor the others delegate to; [lruRefreshTime] and [tailSize]
    take their default member initializers. *)
Definition Config_new (time : Z) (ratio : spec_float) (updateOnW updateOnR tryLockU rebalanceOnRecordAccs : bool)
    (hotPercent coldPercent mmReconfigureInterval : Z) (useCombinedLock : bool) : result Config :=
  let c := mkConfig time time ratio updateOnW updateOnR tryLockU rebalanceOnRecordAccs hotPercent coldPercent 0
             mmReconfigureInterval useCombinedLock in
  _ ← checkLruSizes c; Ok c.
Definition addExtraConfig (tSize : Z) (c : Config) : Config :=
  mkConfig (defaultLruRefreshTime c) (lruRefreshTime c) (lruRefreshRatio c) (updateOnWrite c) (updateOnRead c)
    (tryLockUpdate c) (rebalanceOnRecordAccess c) (hotSizePercent c) (coldSizePercent c) tSize
    (mmReconfigureIntervalSecs c) (useCombinedLockForIterators c).

Record Container := mkContainer {
  lru_ : MultiDList;
  numHotAccesses_ : Z;
  numColdAccesses_ : Z;
  numWarmAccesses_ : Z;
  numWarmTailAccesses_ : Z;
  numColdTailAccesses_ : Z;
  tailTrackingEnabled_ : bool;
  nextReconfigureTime_ : Z;
  lruRefreshTime_ : Z;
  config_ : Config;
}.
Definition kLruRefreshTimeCap : Z := 900.

Definition with_lru (ls : MultiDList) (c : Container) : Container :=
  mkContainer ls (numHotAccesses_ c) (numColdAccesses_ c) (numWarmAccesses_ c) (numWarmTailAccesses_ c)
    (numColdTailAccesses_ c) (tailTrackingEnabled_ c) (nextReconfigureTime_ c) (lruRefreshTime_ c) (config_ c).
Definition with_times (next refresh : Z) (c : Container) : Container :=
  mkContainer (lru_ c) (numHotAccesses_ c) (numColdAccesses_ c) (numWarmAccesses_ c) (numWarmTailAccesses_ c)
    (numColdTailAccesses_ c) (tailTrackingEnabled_ c) next refresh (config_ c).
(** [++num..Accesses_] of an access to the given queue. *)
Definition count_access (t : LruType) (c : Container) : Container :=
  let inc (b : bool) n := if b then u64 (n + 1) else n in
  mkContainer (lru_ c) (inc (bool_decide (t = Hot)) (numHotAccesses_ c))
    (inc (bool_decide (t = Cold ∨ t = ColdTail)) (numColdAccesses_ c))
    (inc (bool_decide (t = Warm ∨ t = WarmTail)) (numWarmAccesses_ c))
    (inc (bool_decide (t = WarmTail)) (numWarmTailAccesses_ c))
    (inc (bool_decide (t = ColdTail)) (numColdTailAccesses_ c))
    (tailTrackingEnabled_ c) (nextReconfigureTime_ c) (lruRefreshTime_ c) (config_ c).

(** [(expr) ? max : now + interval] of both constructors and [setConfig]. *)
Definition reconfigureTime (cfg : Config) (now : Z) : Z :=
  if mmReconfigureIntervalSecs cfg =? 0 then uint_max 32
  else u32 (u32 now + mmReconfigureIntervalSecs cfg).

Definition Container_new (c : Config) (now : Z) : Container :=
  mkContainer (MultiDList_new NumTypes) 0 0 0 0 0 (0 <? tailSize c) (reconfigureTime c now) (lruRefreshTime c) c.

(** ** Flags of an item *)
Definition markHot (node : Z) : Store → result Store := withRef (setFlag kMMFlag0) node.
Definition unmarkHot (node : Z) : Store → result Store := withRef (unSetFlag kMMFlag0) node.
Definition isHot (h : Store) (node : Z) : result bool := testRef (isFlagSet kMMFlag0) h node.
Definition markCold (node : Z) : Store → result Store := withRef (setFlag kMMFlag2) node.
Definition unmarkCold (node : Z) : Store → result Store := withRef (unSetFlag kMMFlag2) node.
Definition isCold (h : Store) (node : Z) : result bool := testRef (isFlagSet kMMFlag2) h node.
Definition isWarm (h : Store) (node : Z) : result bool :=
  hot ← isHot h node; if hot : bool then Ok false else cold ← isCold h node; Ok (negb cold).
Definition markTail (cfg : Config) (node : Z) (h : Store) : result Store :=
  _ ← xdcheck (0 <? tailSize cfg); withRef (setFlag kMMFlag1) node h.
Definition unmarkTail (node : Z) : Store → result Store := withRef (unSetFlag kMMFlag1) node.
Definition inTail (cfg : Config) (h : Store) (node : Z) : result bool :=
  if tailSize cfg =? 0 then Ok false else testRef (isFlagSet kMMFlag1) h node.

Definition getLruType (cfg : Config) (h : Store) (node : Z) : result LruType :=
  hot ← isHot h node;
  if hot : bool then Ok Hot
  else
    cold ← isCold h node; t ← inTail cfg h node;
    Ok (if cold : bool then if t : bool then ColdTail else Cold else if t : bool then WarmTail else Warm).

Section operations.
Context `{PtrCompressor}.

(** [lru_.getList(t)], read and updated. *)
Definition lru_list (t : LruType) (ls : MultiDList) : result DList := getList (Z.of_nat (lru_index t)) ls.
Definition on_list (t : LruType) (f : DList * Store → result (DList * Store)) (s : MultiDList * Store)
    : result (MultiDList * Store) := on_list_at (lru_index t) f s.

(** *** Rebalancing *)
Definition popFrom (t : LruType) (s : MultiDList * Store) : result (Z * (MultiDList * Store)) :=
  l ← lru_list t (fst s);
  node ← deref (tail_ l);
  '(ls, h) ← on_list t (remove node) s;
  h ← (if decide (t = WarmTail ∨ t = ColdTail) then unmarkTail node h else Ok h);
  Ok (node, (ls, h)).

(** [while (warm + warmTail > expectedSize)]. *)
Fixpoint shrinkWarm (fuel : nat) (expectedSize : Z) (s : MultiDList * Store) : result (MultiDList * Store) :=
  w ← lru_list Warm (fst s); wt ← lru_list WarmTail (fst s);
  if expectedSize <? u64 (size_ w + size_ wt) then
    match fuel with
    | O => Undef
    | S fuel =>
        '(node, (ls, h)) ← (if 0 <? size_ wt then popFrom WarmTail s else popFrom Warm s);
        b ← isWarm h node; _ ← xdcheck b;
        '(ls, h) ← on_list Cold (linkAtHead node) (ls, h);
        h ← markCold node h;
        shrinkWarm fuel expectedSize (ls, h)
    end
  else Ok s.

(** [while (hot > expectedSize)]. *)
Fixpoint shrinkHot (fuel : nat) (expectedSize : Z) (s : MultiDList * Store) : result (MultiDList * Store) :=
  l ← lru_list Hot (fst s);
  if expectedSize <? size_ l then
    match fuel with
    | O => Undef
    | S fuel =>
        node ← deref (tail_ l);
        b ← isHot (snd s) node; _ ← xdcheck b;
        s ← on_list Hot (remove node) s;
        '(ls, h) ← on_list Cold (linkAtHead node) s;
        h ← unmarkHot node h;
        h ← markCold node h;
        shrinkHot fuel expectedSize (ls, h)
    end
  else Ok s.

Definition getTailLru (t : LruType) : result LruType :=
  match t with Warm => Ok WarmTail | Cold => Ok ColdTail | _ => Undef end.
(** [while (ptr && size(tailList) + 1 <= config_.tailSize)]. *)
Fixpoint adjustTail_loop (fuel : nat) (cfg : Config) (t tailList : LruType) (s : MultiDList * Store)
    : result (MultiDList * Store) :=
  l ← lru_list t (fst s);
  match tail_ l with
  | None => Ok s
  | Some ptr =>
      tl ← lru_list tailList (fst s);
      if u64 (size_ tl + 1) <=? tailSize cfg then
        match fuel with
        | O => Undef
        | S fuel =>
            h ← markTail cfg ptr (snd s);
            s ← on_list t (remove ptr) (fst s, h);
            s ← on_list tailList (linkAtHead ptr) s;
            adjustTail_loop fuel cfg t tailList s
        end
      else Ok s
  end.
Definition mm_fuel (ls : MultiDList) : nat := Z.to_nat (mlist_size ls).
Definition adjustTail (cfg : Config) (t : LruType) (s : MultiDList * Store) : result (MultiDList * Store) :=
  tailList ← getTailLru t; adjustTail_loop (mm_fuel (fst s)) cfg t tailList s.

Definition rebalance (cfg : Config) (s : MultiDList * Store) : result (MultiDList * Store) :=
  let expectedSize := u64 (getWarmSizePercent cfg * mlist_size (fst s)) / 100 in
  s ← shrinkWarm (mm_fuel (fst s)) expectedSize s;
  let expectedSize := u64 (hotSizePercent cfg * mlist_size (fst s)) / 100 in
  s ← shrinkHot (mm_fuel (fst s)) expectedSize s;
  s ← adjustTail cfg Cold s;
  adjustTail cfg Warm s.

(** *** Statistics *)
Definition getOldestAgeLocked (t : LruType) (currTime : Z) (ls : MultiDList) (h : Store) : result Z :=
  it ← mlist_rbegin_at (Z.of_nat (lru_index t)) ls;
  rend ← mlist_rend ls;
  if miter_eq it rend then Ok 0
  else a ← deref (curr_ (currIter_ it)); ut ← getUpdateTime h a; Ok (u32 (currTime - ut)).
Fixpoint walk (fuel : nat) (h : Store) (ls : MultiDList) (remaining : Z) (it rend : MIterator) : result MIterator :=
  if (0 <? remaining) && negb (miter_eq it rend) then
    match fuel with
    | O => Undef
    | S fuel => it ← miter_incr h ls it; walk fuel h ls (remaining - 1) it rend
    end
  else Ok it.
Definition getProjectedAge (t : LruType) (oldest currTime projectedLength : Z) (ls : MultiDList) (h : Store)
    : result Z :=
  it ← mlist_rbegin_at (Z.of_nat (lru_index t)) ls;
  rend ← mlist_rend ls;
  it ← walk (mm_fuel ls) h ls projectedLength it rend;
  if miter_eq it rend then Ok oldest
  else a ← deref (curr_ (currIter_ it)); ut ← getUpdateTime h a; Ok (u32 (currTime - ut)).
Definition getEvictionAgeStatLocked (c : Container) (projectedLength now : Z) (h : Store) : result EvictionAgeStat :=
  let ls := lru_ c in
  let currTime := u32 now in
  let stat oldestOf size :=
    oldest ← getOldestAgeLocked oldestOf currTime ls h;
    projected ← getProjectedAge oldestOf oldest currTime projectedLength ls h;
    Ok (mkEvictionStatPerType oldest size projected) in
  hl ← lru_list Hot ls; wl ← lru_list Warm ls; wtl ← lru_list WarmTail ls;
  cl ← lru_list Cold ls; ctl ← lru_list ColdTail ls;
  hot ← stat Hot (size_ hl);
  warm ← stat WarmTail (u64 (size_ wl + size_ wtl));
  cold ← stat ColdTail (u64 (size_ ctl + size_ cl));
  Ok (mkEvictionAgeStat warm hot cold).
Definition reconfigureLocked (currTime now : Z) (c : Container) (h : Store) : result Container :=
  if currTime <? nextReconfigureTime_ c then Ok c
  else
    let next := u32 (currTime + mmReconfigureIntervalSecs (config_ c)) in
    stat ← getEvictionAgeStatLocked c 0 now h;
    r ← double_to_u32 (double_mul (double_of_u64 (oldestElementAge (warmQueueStat stat))) (lruRefreshRatio (config_ c)));
    Ok (with_times next (Z.min (Z.max (defaultLruRefreshTime (config_ c)) r) kLruRefreshTimeCap) c).
Definition computeWeightedAccesses (cfg : Config) (warm cold : Z) : Z :=
  u64 (u64 (warm * getWarmSizePercent cfg) + u64 (cold * coldSizePercent cfg)) / 100.
Definition getStats (c : Container) (h : Store) : result MMContainerStat :=
  t ← (if mlist_size (lru_ c) =? 0 then Ok 0
       else it ← mlist_rbegin (lru_ c);
            match curr_ (currIter_ it) with None => Ok 0 | Some a => getUpdateTime h a end);
  Ok (mkMMContainerStat (mlist_size (lru_ c)) t (lruRefreshTime_ c) (numHotAccesses_ c) (numColdAccesses_ c)
        (numWarmAccesses_ c)
        (computeWeightedAccesses (config_ c) (numWarmTailAccesses_ c) (numColdTailAccesses_ c))).

(** *** Mutations *)
Definition add (node now : Z) (s : Container * Store) : result (bool * (Container * Store)) :=
  let '(c, h) := s in
  let currTime := u32 now in
  b ← testRef isInMMContainer h node;
  if b : bool then Ok (false, s)
  else
    h ← markHot node h; h ← unmarkCold node h; h ← unmarkTail node h;
    s ← on_list Hot (linkAtHead node) (lru_ c, h);
    '(ls, h) ← rebalance (config_ c) s;
    h ← withRef markInMMContainer node h;
    h ← setUpdateTime node currTime h;
    Ok (true, (with_lru ls c, h)).

Definition removeLocked (node : Z) (doRebalance : bool) (s : Container * Store) : result (Container * Store) :=
  let '(c, h) := s in
  t ← getLruType (config_ c) h node;
  s ← on_list t (remove node) (lru_ c, h);
  '(ls, h) ← (if doRebalance then rebalance (config_ c) s else Ok s);
  h ← withRef unmarkInMMContainer node h;
  Ok (with_lru ls c, h).
Definition removeNode (node : Z) (s : Container * Store) : result (bool * (Container * Store)) :=
  b ← testRef isInMMContainer (snd s) node;
  if negb b then Ok (false, s) else s ← removeLocked node true s; Ok (true, s).
(** [remove(Iterator& it)]; the iterator moves on before the removal. *)
Definition removeIterator (it : MIterator) (s : Container * Store) : result (MIterator * (Container * Store)) :=
  node ← deref (curr_ (currIter_ it));
  b ← testRef isInMMContainer (snd s) node;
  _ ← xdcheck b;
  it ← miter_incr (snd s) (lru_ (fst s)) it;
  s ← removeLocked node false s;
  Ok (it, s).

Definition replaceNode (oldNode newNode : Z) (s : Container * Store) : result (bool * (Container * Store)) :=
  let '(c, h) := s in
  bo ← testRef isInMMContainer h oldNode;
  if negb bo then Ok (false, s)
  else
    bn ← testRef isInMMContainer h newNode;
    if bn : bool then Ok (false, s)
    else
      updateTime ← getUpdateTime h oldNode;
      t ← getLruType (config_ c) h oldNode;
      '(ls, h) ← on_list t (replace oldNode newNode) (lru_ c, h);
      h ← match t with
          | Hot => markHot newNode h
          | ColdTail => h ← markTail (config_ c) newNode h; markCold newNode h
          | Cold => markCold newNode h
          | WarmTail => markTail (config_ c) newNode h
          | Warm => Ok h
          end;
      h ← withRef unmarkInMMContainer oldNode h;
      h ← withRef markInMMContainer newNode h;
      h ← setUpdateTime newNode updateTime h;
      Ok (true, (with_lru ls c, h)).

(** The moves between queues of [recordAccess], with the queue the item was in. *)
Definition accessQueues (cfg : Config) (node : Z) (s : MultiDList * Store)
    : result (LruType * (MultiDList * Store)) :=
  let '(ls, h) := s in
  hot ← isHot h node;
  if hot : bool then s ← on_list Hot (moveToHead node) (ls, h); Ok (Hot, s)
  else
    cold ← isCold h node;
    tl ← inTail cfg h node;
    if cold : bool then
      s ← (if tl : bool then h ← unmarkTail node h; on_list ColdTail (remove node) (ls, h)
           else on_list Cold (remove node) (ls, h));
      '(ls, h) ← on_list Warm (linkAtHead node) s;
      h ← unmarkCold node h;
      s ← (if rebalanceOnRecordAccess cfg then rebalance cfg (ls, h) else Ok (ls, h));
      Ok (if tl : bool then ColdTail else Cold, s)
    else if tl : bool then
      s ← (h ← unmarkTail node h; on_list WarmTail (remove node) (ls, h));
      s ← on_list Warm (linkAtHead node) s; Ok (WarmTail, s)
    else s ← on_list Warm (moveToHead node) (ls, h); Ok (Warm, s).

(** The critical section of [recordAccess]. *)
Definition recordAccess_func (node curr now : Z) (s : Container * Store) : result (bool * (Container * Store)) :=
  let '(c, h) := s in
  c ← reconfigureLocked curr now c h;
  b ← testRef isInMMContainer h node;
  if negb b then Ok (false, (c, h))
  else
    '(t, (ls, h)) ← accessQueues (config_ c) node (lru_ c, h);
    h ← setUpdateTime node curr h;
    Ok (true, (count_access t (with_lru ls c), h)).

Definition recordAccess (node : Z) (mode : AccessMode) (now : Z) (lockFree : bool)
    (s : Container * Store) : result (bool * (Container * Store)) :=
  let '(c, h) := s in
  let cfg := config_ c in
  if match mode with kWrite => negb (updateOnWrite cfg) | kRead => negb (updateOnRead cfg) end
  then Ok (false, s)
  else
    let curr := u32 now in
    b ← testRef isInMMContainer h node;
    t ← getUpdateTime h node;
    if b && (u32 (t + lruRefreshTime_ c) <=? curr) then
      if tryLockUpdate cfg && negb lockFree then Ok (false, (c, h))
      else recordAccess_func node curr now (c, h)
    else Ok (false, s).

Definition setConfig (newConfig : Config) (now : Z) (c : Container) : result Container :=
  if negb (tailTrackingEnabled_ c) && (0 <? tailSize newConfig) then Throw InvalidArgument
  else if tailTrackingEnabled_ c && (tailSize newConfig =? 0) then Throw InvalidArgument
  else
    Ok (mkContainer (lru_ c) (numHotAccesses_ c) (numColdAccesses_ c) (numWarmAccesses_ c)
          (numWarmTailAccesses_ c) (numColdTailAccesses_ c) (tailTrackingEnabled_ c)
          (reconfigureTime newConfig now) (lruRefreshTime newConfig) newConfig).

(** *** Saved state; [tryLockUpdate] keeps the default of the object. *)
Record MM2QConfigObject := mkMM2QConfigObject {
  o_lruRefreshTime : Z; o_updateOnWrite : bool; o_hotSizePercent : Z; o_coldSizePercent : Z;
  o_updateOnRead : bool; o_tryLockUpdate : bool; o_rebalanceOnRecordAccess : bool; o_lruRefreshRatio : spec_float;
}.
Record MM2QObject := mkMM2QObject {
  o_config : MM2QConfigObject; o_tailTrackingEnabled : bool; o_lrus : MultiDListObject;
}.
Definition MM2Q_saveState (c : Container) : result MM2QObject :=
  let cfg := config_ c in
  lrus ← MultiDList_saveState (lru_ c);
  Ok (mkMM2QObject
        (mkMM2QConfigObject (s32 (lruRefreshTime_ c)) (updateOnWrite cfg) (s32 (hotSizePercent cfg))
           (s32 (coldSizePercent cfg)) (updateOnRead cfg) false (rebalanceOnRecordAccess cfg) (lruRefreshRatio cfg))
        (tailTrackingEnabled_ c) lrus).
Definition Config_restore (o : MM2QConfigObject) : result Config :=
  Config_new (u32 (o_lruRefreshTime o)) (o_lruRefreshRatio o) (o_updateOnWrite o) (o_updateOnRead o)
    (o_tryLockUpdate o) (o_rebalanceOnRecordAccess o) (u64 (o_hotSizePercent o)) (u64 (o_coldSizePercent o)) 0 false.
Definition Container_restore (o : MM2QObject) (now : Z) : result Container :=
  ls ← MultiDList_restore (o_lrus o);
  cfg ← Config_restore (o_config o);
  ls ← (if (length ls <? NumTypes)%nat then
          _ ← xdcheck (negb (o_tailTrackingEnabled o));
          _ ← xdcheck (length ls + 2 =? NumTypes)%nat;
          ls ← insertEmptyListAt (Z.of_nat (lru_index WarmTail)) ls;
          insertEmptyListAt (Z.of_nat (lru_index ColdTail)) ls
        else Ok ls);
  Ok (mkContainer ls 0 0 0 0 0 (o_tailTrackingEnabled o) (reconfigureTime cfg now) (lruRefreshTime cfg) cfg).
End operations.

(** ** What the queues leave alone

    A reference-count word without the three flags of the queues, and with the
    update time all of a node but its hooks. *)
Definition off_queue (r : Z) : Z := unSetFlag kMMFlag0 (unSetFlag kMMFlag1 (unSetFlag kMMFlag2 r)).
Definition aside (h : Store) (a : Z) : option (Z * Z) := (λ x, (x.1, off_queue x.2)) <$> payload h a.
Definition aside_kept (h h' : Store) : Prop := ∀ a, aside h' a = aside h a.
#[global] Instance aside_kept_pre : PreOrder aside_kept.
Proof. split; [done|]. intros h1 h2 h3 H12 H23 a. by rewrite H23, H12. Qed.
Create HintDb kept discriminated.

Definition is_queue_flag (f : Flags) : bool := match f with kMMFlag0 | kMMFlag1 | kMMFlag2 => true | _ => false end.
Definition off_mask : Z := off_queue (uint_max 32).
Lemma off_queue_land r : off_queue r = Z.land r off_mask.
Proof. unfold off_queue, unSetFlag. rewrite <- !Z.land_assoc. f_equal. Qed.
Lemma off_queue_set f r : is_queue_flag f = true → off_queue (setFlag f r) = off_queue r.
Proof.
  intros Hf. rewrite !off_queue_land. unfold setFlag. rewrite Z.land_lor_distr_l. replace (Z.land (Z.shiftl 1 (flag_bit f)) _) with 0 by (by destruct f).
  apply Z.lor_0_r.
Qed.
Lemma off_queue_unset f r : is_queue_flag f = true → off_queue (unSetFlag f r) = off_queue r.
Proof.
  intros Hf. rewrite !off_queue_land. unfold unSetFlag. rewrite <- Z.land_assoc. f_equal. by destruct f.
Qed.
(** The word is known from what is left of it and its three flags. *)
Lemma off_queue_inj r r' : fits 32 r → fits 32 r' → off_queue r = off_queue r' → (∀ f, is_queue_flag f = true → isFlagSet f r = isFlagSet f r') → r = r'.
Proof.
  intros Hr Hr' E Hf. assert (∀ i, 0 ≤ i < 32 → Z.testbit off_mask i = true ∨ ∃ f, is_queue_flag f = true ∧ i = flag_bit f) as Hmask.
  { intros i Hi. assert (Forall (λ i, Z.testbit off_mask i = true ∨ i = flag_bit kMMFlag0 ∨ i = flag_bit kMMFlag1 ∨ i = flag_bit kMMFlag2) (seqZ 0 32)) as Hall
      by (apply (bool_decide_unpack _); by vm_compute).
    rewrite Forall_forall in Hall. destruct (Hall i) as [?|[->|[->| ->]]]; [apply elem_of_seqZ; lia|by left|right; by exists kMMFlag0|right; by exists kMMFlag1|right; by exists kMMFlag2]. }
  rewrite !off_queue_land in E. apply Z.bits_inj'. intros i Hi. destruct (decide (i < 32)) as [Hlt|Hge].
  - destruct (Hmask i) as [Hb|(f & Hq & ->)]; [done| |by rewrite <- !isFlagSet_bit, Hf].
    pose proof (f_equal (λ z, Z.testbit z i) E) as Ei. cbn beta in Ei. by rewrite !Z.land_spec, Hb, !andb_true_r in Ei.
  - rewrite <- (Z.mod_small r (2 ^ 32)), <- (Z.mod_small r' (2 ^ 32)) by (unfold fits in *; lia). by rewrite !Z.mod_pow2_bits_high by lia.
Qed.

Lemma aside_payload h h' a : words h → words h' → aside_kept h h' → (∀ f, is_queue_flag f = true → flag f h' a = flag f h a) → payload h' a = payload h a.
Proof.
  intros Hw Hw' Hk Hf. specialize (Hk a). specialize (Hw a). specialize (Hw' a). unfold flag in Hf. unfold aside in Hk.
  destruct (payload h a) as [[tm r]|], (payload h' a) as [[tm' r']|]; cbn in Hk; try done. injection Hk as -> Er. do 2 f_equal.
  apply off_queue_inj; [by eapply Hw'|by eapply Hw|done|done].
Qed.

Section kept.
Context `{PtrCompressor}.
Implicit Types (h : Store) (s : MultiDList * Store).
Lemma aside_insert h a n n' : h !! a = Some n → updateTime_ n' = updateTime_ n → off_queue (refCount_ n') = off_queue (refCount_ n) → aside_kept h (<[a := n']> h).
Proof.
  intros Hn Et Er b. unfold aside, payload. destruct (decide (a = b)) as [<-|]; [|by rewrite lookup_insert_ne]. rewrite lookup_insert_eq, Hn. cbn. by rewrite Et, Er.
Qed.
Lemma kept_setNext a p h h' : setNext a p h = Ok h' → aside_kept h h'.
Proof. unfold setNext. destruct (h !! a) as [n|] eqn:En; [|done]. destruct (pc_compress p); [|done..]. cbn. intros [= <-]. by eapply aside_insert. Qed.
Lemma kept_setPrev a p h h' : setPrev a p h = Ok h' → aside_kept h h'.
Proof. unfold setPrev. destruct (h !! a) as [n|] eqn:En; [|done]. destruct (pc_compress p); [|done..]. cbn. intros [= <-]. by eapply aside_insert. Qed.
Lemma kept_setNextFrom a b h h' : setNextFrom a b h = Ok h' → aside_kept h h'.
Proof. unfold setNextFrom. destruct (h !! a) as [n|] eqn:En; [|done]. destruct (h !! b); [|done]. cbn. intros [= <-]. by eapply aside_insert. Qed.
Lemma kept_setPrevFrom a b h h' : setPrevFrom a b h = Ok h' → aside_kept h h'.
Proof. unfold setPrevFrom. destruct (h !! a) as [n|] eqn:En; [|done]. destruct (h !! b); [|done]. cbn. intros [= <-]. by eapply aside_insert. Qed.
Lemma kept_withRef f a h h' : withRef f a h = Ok h' → (∀ r, off_queue (f r) = off_queue r) → aside_kept h h'.
Proof. unfold withRef. destruct (h !! a) as [n|] eqn:En; [|done]. cbn. intros [= <-] Hf. eapply aside_insert; [done|done|apply Hf]. Qed.
#[local] Hint Resolve kept_setNext kept_setPrev kept_setNextFrom kept_setPrevFrom kept_withRef off_queue_set off_queue_unset : kept.
(** Along the steps of a computation. *)
Local Ltac kept := intros E; inv_ok E; simplify_eq;
  repeat match goal with
    | x : (MultiDList * Store)%type |- _ => destruct x
    | E : when_ptr ?p _ _ = Ok _ |- _ => destruct p; cbn [when_ptr] in E; simplify_eq
    | E : (match ?b with _ => _ end) = Ok _ |- _ => destruct b; simplify_eq
    end;
  repeat (first [reflexivity|etransitivity; [by eauto with kept|]]).
Lemma kept_linkAtHead a l h l' h' : linkAtHead a (l, h) = Ok (l', h') → aside_kept h h'.
Proof. unfold linkAtHead. kept. Qed.
Lemma kept_unlink a l h l' h' : unlink a (l, h) = Ok (l', h') → aside_kept h h'.
Proof. unfold unlink. kept. Qed.
#[local] Hint Resolve kept_unlink : kept.
Lemma kept_remove a l h l' h' : remove a (l, h) = Ok (l', h') → aside_kept h h'.
Proof. unfold remove. kept. Qed.
Lemma kept_on_list t f ls h ls' h' : on_list t f (ls, h) = Ok (ls', h') → (∀ l h l' h', f (l, h) = Ok (l', h') → aside_kept h h') → aside_kept h h'.
Proof. unfold on_list, on_list_at. intros E Hf. inv_ok E. simplify_eq. by eapply Hf. Qed.
#[local] Hint Resolve kept_linkAtHead kept_remove kept_on_list : kept.
Lemma kept_markHot a h h' : markHot a h = Ok h' → aside_kept h h'.
Proof. by eauto with kept. Qed.
Lemma kept_unmarkHot a h h' : unmarkHot a h = Ok h' → aside_kept h h'.
Proof. by eauto with kept. Qed.
Lemma kept_markCold a h h' : markCold a h = Ok h' → aside_kept h h'.
Proof. by eauto with kept. Qed.
Lemma kept_unmarkTail a h h' : unmarkTail a h = Ok h' → aside_kept h h'.
Proof. by eauto with kept. Qed.
Lemma kept_markTail cfg a h h' : markTail cfg a h = Ok h' → aside_kept h h'.
Proof. unfold markTail. kept. Qed.
#[local] Hint Resolve kept_markHot kept_unmarkHot kept_markCold kept_unmarkTail kept_markTail : kept.
Lemma kept_popFrom t ls h a ls' h' : popFrom t (ls, h) = Ok (a, (ls', h')) → aside_kept h h'.
Proof. unfold popFrom. kept. Qed.
#[local] Hint Resolve kept_popFrom : kept.
Lemma kept_shrinkWarm fuel e : ∀ ls h ls' h', shrinkWarm fuel e (ls, h) = Ok (ls', h') → aside_kept h h'.
Proof. induction fuel as [|fuel IH]; intros ls h ls' h'; cbn [shrinkWarm]; kept. Qed.
Lemma kept_shrinkHot fuel e : ∀ ls h ls' h', shrinkHot fuel e (ls, h) = Ok (ls', h') → aside_kept h h'.
Proof. induction fuel as [|fuel IH]; intros ls h ls' h'; cbn [shrinkHot]; kept. Qed.
Lemma kept_adjustTail_loop fuel cfg t t' : ∀ ls h ls' h', adjustTail_loop fuel cfg t t' (ls, h) = Ok (ls', h') → aside_kept h h'.
Proof. induction fuel as [|fuel IH]; intros ls h ls' h'; cbn [adjustTail_loop]; kept. Qed.
Lemma kept_adjustTail cfg t ls h ls' h' : adjustTail cfg t (ls, h) = Ok (ls', h') → aside_kept h h'.
Proof. unfold adjustTail. intros E. inv_ok E. by eapply kept_adjustTail_loop. Qed.
#[local] Hint Resolve kept_shrinkWarm kept_shrinkHot kept_adjustTail : kept.
Lemma rebalance_kept cfg ls h ls' h' : rebalance cfg (ls, h) = Ok (ls', h') → aside_kept h h'.
Proof. unfold rebalance. kept. Qed.
End kept.

(** ** Queues as sequences *)
Record Qs := mkQs { q_warm : list Z; q_warmTail : list Z; q_hot : list Z; q_cold : list Z; q_coldTail : list Z }.
Definition qget (q : Qs) (t : LruType) : list Z :=
  match t with
  | Warm => q_warm q | WarmTail => q_warmTail q | Hot => q_hot q | Cold => q_cold q | ColdTail => q_coldTail q
  end.
Definition qset (t : LruType) (xs : list Z) (q : Qs) : Qs :=
  mkQs (if decide (t = Warm) then xs else q_warm q) (if decide (t = WarmTail) then xs else q_warmTail q)
    (if decide (t = Hot) then xs else q_hot q) (if decide (t = Cold) then xs else q_cold q)
    (if decide (t = ColdTail) then xs else q_coldTail q).
Definition q_empty : Qs := mkQs [] [] [] [] [].
Definition all_lists (q : Qs) : list (list Z) := [q_warm q; q_warmTail q; q_hot q; q_cold q; q_coldTail q].
Definition queued (q : Qs) (a : Z) : Prop := ∃ t, a ∈ qget q t.

Lemma qget_qset t xs q t' : qget (qset t xs q) t' = if decide (t = t') then xs else qget q t'.
Proof. by destruct t, t'. Qed.
Lemma all_lists_lookup q t : all_lists q !! lru_index t = Some (qget q t).
Proof. by destruct t. Qed.
Lemma lru_index_inj t t' : lru_index t = lru_index t' → t = t'.
Proof. by destruct t, t'. Qed.
Lemma lru_index_lt t : (lru_index t < 5)%nat.
Proof. destruct t; cbn; lia. Qed.

Definition is_hot (t : LruType) : bool := match t with Hot => true | _ => false end.
Definition is_cold (t : LruType) : bool := match t with Cold | ColdTail => true | _ => false end.
Definition is_tail (t : LruType) : bool := match t with WarmTail | ColdTail => true | _ => false end.

(** The flags of queued items say which queue they are in. *)
Definition fl_ok (q : Qs) (fl : Flags → Z → bool) : Prop :=
  ∀ t a, a ∈ qget q t →
    fl kMMFlag0 a = is_hot t ∧ fl kMMFlag1 a = is_tail t ∧ fl kMMFlag2 a = is_cold t.

Section representation.
Context `{PtrCompressor}.
Implicit Types (h : Store) (ls : MultiDList) (q : Qs) (a b : Z) (t : LruType).

Lemma all_lists_inv q i xs : all_lists q !! i = Some xs → ∃ t, i = lru_index t ∧ xs = qget q t.
Proof.
  destruct i as [|[|[|[|[|]]]]]; cbn; intros Hx; simplify_eq;
    [by exists Warm|by exists WarmTail|by exists Hot|by exists Cold|by exists ColdTail].
Qed.
Lemma all_lists_qset t xs q : all_lists (qset t xs q) = <[lru_index t := xs]> (all_lists q).
Proof. by destruct t. Qed.
Lemma queued_lists q a : in_lists (all_lists q) a ↔ queued q a.
Proof.
  split; [intros (i & xs & (t & -> & ->)%all_lists_inv & Ha); by exists t|].
  intros [t Ha]. exists (lru_index t), (qget q t). by rewrite all_lists_lookup.
Qed.

(** Five disjoint lists over the store; items outside them are unlinked. *)
Definition mrep h ls q : Prop := qrep h ls (all_lists q).

Lemma mr_lists h ls q : mrep h ls q → Forall2 (dlist_rep h) ls (all_lists q).
Proof. apply qr_lists. Qed.
Lemma mr_disj h ls q : mrep h ls q → ∀ t t' a, a ∈ qget q t → a ∈ qget q t' → t = t'.
Proof.
  intros Hm t t' a Ha Ha'. apply lru_index_inj.
  by apply (qr_disj _ _ _ Hm _ _ (qget q t) (qget q t') a); rewrite ?all_lists_lookup.
Qed.
Lemma mr_clear h ls q : mrep h ls q → ∀ a, is_Some (payload h a) → ¬ queued q a →
  getNext h a = Ok None ∧ getPrev h a = Ok None.
Proof. intros Hm a Ha Hn. apply (qr_clear _ _ _ Hm); [done|]. by rewrite queued_lists. Qed.
Lemma mr_list h ls q t : mrep h ls q → ∃ l, ls !! lru_index t = Some l ∧ dlist_rep h l (qget q t).
Proof. intros Hm. apply (qr_list _ _ _ _ _ Hm), all_lists_lookup. Qed.
Lemma mr_len h ls q : mrep h ls q → length ls = 5%nat.
Proof. intros Hm. by rewrite (Forall2_length _ _ _ (mr_lists _ _ _ Hm)). Qed.

Definition total q : nat := length (concat (all_lists q)).
Lemma total_eq q : total q = (length (q_warm q) + length (q_warmTail q) + length (q_hot q) + length (q_cold q) +
  length (q_coldTail q))%nat.
Proof. unfold total, all_lists. cbn [concat]. rewrite !length_app. cbn [length]. lia. Qed.
Lemma mr_size h ls q : mrep h ls q → mlist_size ls = Z.of_nat (total q) ∧ Z.of_nat (total q) ≤ 5 * 2 ^ 32.
Proof. intros Hm. apply (qr_size h ls (all_lists q) Hm). cbn. lia. Qed.

(** ** States of the container's heap *)
Definition st (A : Z → Prop) h ls q (lk : Z → bool) (fl : Flags → Z → bool) (tm : Z → Z) : Prop :=
  qst A h ls (all_lists q) lk fl tm.

Definition st_rep A h ls q lk fl tm : st A h ls q lk fl tm → mrep h ls q := qst_rep A h ls (all_lists q) lk fl tm.
Definition st_words A h ls q lk fl tm : st A h ls q lk fl tm → words h := qst_words A h ls (all_lists q) lk fl tm.
Definition st_alive A h ls q lk fl tm : st A h ls q lk fl tm → ∀ a, is_Some (payload h a) ↔ A a :=
  qst_alive A h ls (all_lists q) lk fl tm.
Definition st_valid A h ls q lk fl tm : st A h ls q lk fl tm → ∀ a, A a → valid_ptr a :=
  qst_valid A h ls (all_lists q) lk fl tm.
Definition st_linked A h ls q lk fl tm : st A h ls q lk fl tm → ∀ a, linked h a = lk a :=
  qst_linked A h ls (all_lists q) lk fl tm.
Definition st_flag A h ls q lk fl tm : st A h ls q lk fl tm → ∀ f a, flag f h a = fl f a :=
  qst_flag A h ls (all_lists q) lk fl tm.
Definition st_time A h ls q lk fl tm : st A h ls q lk fl tm → ∀ a, time h a = tm a :=
  qst_time A h ls (all_lists q) lk fl tm.

Section steps.
Context {A : Z → Prop} {h : Store} {ls : MultiDList} {q : Qs} {lk fl tm} (Hs : st A h ls q lk fl tm).

Lemma st_queued_alive t a : a ∈ qget q t → A a.
Proof. apply (qst_queued_alive Hs (lru_index t)), all_lists_lookup. Qed.

Lemma st_get t : ∃ l, lru_list t ls = Ok l ∧ tail_ l = last (qget q t) ∧ size_ l = Z.of_nat (length (qget q t)) ∧
  size_ l ≤ 2 ^ 32.
Proof.
  destruct (qst_get Hs _ _ (all_lists_lookup q t)) as (l & Hl & Hd). exists l. split; [done|].
  rewrite (rep_tail _ _ _ Hd), (rep_size _ _ _ Hd). split; [done|]. split; [done|]. apply (rep_length Hd).
Qed.

Lemma st_remove t i a : qget q t !! i = Some a →
  ∃ ls' h', on_list t (remove a) (ls, h) = Ok (ls', h') ∧ st A h' ls' (qset t (delete i (qget q t)) q) lk fl tm.
Proof. intros Hi. unfold st. rewrite all_lists_qset. by apply (qst_remove Hs), Hi; apply all_lists_lookup. Qed.

Lemma st_link t a : A a → ¬ queued q a →
  ∃ ls' h', on_list t (linkAtHead a) (ls, h) = Ok (ls', h') ∧ st A h' ls' (qset t (a :: qget q t) q) lk fl tm.
Proof.
  intros Ha Hn. unfold st. rewrite all_lists_qset. apply (qst_link Hs); [apply all_lists_lookup|done|].
  by rewrite queued_lists.
Qed.

Lemma st_move t i a : qget q t !! i = Some a →
  ∃ ls' h', on_list t (moveToHead a) (ls, h) = Ok (ls', h') ∧
    st A h' ls' (qset t (a :: delete i (qget q t)) q) lk fl tm.
Proof. intros Hi. unfold st. rewrite all_lists_qset. by apply (qst_move Hs), Hi; apply all_lists_lookup. Qed.

Lemma st_replace t i a c : qget q t !! i = Some a → A c → ¬ queued q c →
  ∃ ls' h', on_list t (replace a c) (ls, h) = Ok (ls', h') ∧ st A h' ls' (qset t (<[i := c]> (qget q t)) q) lk fl tm.
Proof.
  intros Hi Hc Hn. unfold st. rewrite all_lists_qset.
  apply (qst_replace Hs _ _ i a); [apply all_lists_lookup|done|done|by rewrite queued_lists].
Qed.

(** Writes to an item. *)
Lemma st_mark f v a : A a → ∃ h', withRef (if v : bool then setFlag f else unSetFlag f) a h = Ok h' ∧
  st A h' ls q lk (setf f a v fl) tm.
Proof. apply (qst_mark Hs). Qed.
Lemma st_mark_linked v a : A a → ∃ h', withRef (if v : bool then markInMMContainer else unmarkInMMContainer) a h = Ok h' ∧
  st A h' ls q (set a v lk) fl tm.
Proof. apply (qst_mark_linked Hs). Qed.
Lemma st_setTime a (t : Z) : A a → ∃ h', setUpdateTime a t h = Ok h' ∧ st A h' ls q lk fl (set a t tm).
Proof. apply (qst_setTime Hs). Qed.
Lemma st_testLinked a : A a → testRef isInMMContainer h a = Ok (lk a).
Proof. apply (qst_testLinked Hs). Qed.
Lemma st_testFlag f a : A a → testRef (isFlagSet f) h a = Ok (fl f a).
Proof. apply (qst_testFlag Hs). Qed.
Lemma st_getTime a : A a → getUpdateTime h a = Ok (tm a).
Proof. apply (qst_getTime Hs). Qed.
End steps.

(** Flags outside the three MM bits, and of items outside [q], are kept. *)
Definition fl_same q (fl fl' : Flags → Z → bool) : Prop :=
  ∀ f a, (f ≠ kMMFlag0 ∧ f ≠ kMMFlag1 ∧ f ≠ kMMFlag2) ∨ ¬ queued q a → fl' f a = fl f a.
Lemma fl_same_refl q fl : fl_same q fl fl.
Proof. done. Qed.
Lemma fl_same_trans q q' fl1 fl2 fl3 : fl_same q fl1 fl2 → fl_same q' fl2 fl3 → (∀ a, queued q' a → queued q a) →
  fl_same q fl1 fl3.
Proof. intros H1 H2 Hq f a Hfa. rewrite H2; [by apply H1|naive_solver]. Qed.
Lemma fl_same_setf q f a v fl : f = kMMFlag0 ∨ f = kMMFlag1 ∨ f = kMMFlag2 → queued q a →
  fl_same q fl (setf f a v fl).
Proof.
  intros Hf Ha g b Hgb. unfold setf, set. case_decide; [subst g|done]. case_decide; [subst b|done].
  exfalso. destruct Hgb; naive_solver.
Qed.

(** ** Moving the last item of a queue to the head of another *)
Definition qmove t t' a xs q : Qs := qset t' (a :: qget q t') (qset t xs q).
Lemma qget_qmove t t' a xs q u : t ≠ t' →
  qget (qmove t t' a xs q) u = if decide (u = t') then a :: qget q t' else if decide (u = t) then xs else qget q u.
Proof. intros Hne. by destruct t, t', u. Qed.
Lemma queued_qmove t t' a xs q b : t ≠ t' → qget q t = xs ++ [a] → queued (qmove t t' a xs q) b ↔ queued q b.
Proof.
  intros Hne Hq. unfold queued. split; intros [u Hu].
  - rewrite qget_qmove in Hu by done. repeat case_decide; subst.
    + apply elem_of_cons in Hu as [->|Hu]; [exists t; rewrite Hq; set_solver|by exists t'].
    + exists t. rewrite Hq. set_solver.
    + by exists u.
  - destruct (decide (u = t)) as [->|].
    + rewrite Hq, elem_of_app, list_elem_of_singleton in Hu. destruct Hu as [Hu| ->].
      * exists t. by rewrite qget_qmove, decide_False, decide_True by done.
      * exists t'. rewrite qget_qmove, decide_True by done. by left.
    + exists u. rewrite qget_qmove by done. case_decide; [subst; by right|]. by rewrite decide_False.
Qed.
Lemma total_qmove t t' a xs q : t ≠ t' → qget q t = xs ++ [a] → total (qmove t t' a xs q) = total q.
Proof.
  intros Hne Hq. apply (f_equal length) in Hq. rewrite length_app in Hq. rewrite !total_eq.
  destruct t, t'; try done; simpl in *; lia.
Qed.

(** The flags of the moved item only have to be those of its new queue. *)
Lemma fl_ok_qmove A h ls q lk fl tm t t' a xs fl' : st A h ls q lk fl tm → t ≠ t' → qget q t = xs ++ [a] →
  fl_ok q fl → (∀ f b, b ≠ a → fl' f b = fl f b) →
  fl' kMMFlag0 a = is_hot t' ∧ fl' kMMFlag1 a = is_tail t' ∧ fl' kMMFlag2 a = is_cold t' →
  fl_ok (qmove t t' a xs q) fl'.
Proof.
  intros Hs Hne Hq Hok Hsame Ha u b Hb. pose proof (st_rep _ _ _ _ _ _ _ Hs) as Hm.
  destruct (mr_list h ls q t Hm) as (l & _ & Hd). pose proof (rep_nodup _ _ _ Hd) as Hnd. rewrite Hq in Hnd.
  assert (a ∈ qget q t) as Hat by (rewrite Hq; set_solver).
  rewrite qget_qmove in Hb by done. destruct (decide (u = t')) as [->|Hu].
  - apply elem_of_cons in Hb as [->|Hb]; [done|].
    assert (b ≠ a) by (intros ->; by pose proof (mr_disj _ _ _ Hm _ _ _ Hat Hb)).
    rewrite !Hsame by done. by apply Hok.
  - case_decide as Hut.
    + subst u. apply NoDup_app in Hnd as (_ & Hnd & _). assert (b ≠ a) by (intros ->; apply (Hnd a Hb); by left).
      rewrite !Hsame by done. apply Hok. rewrite Hq. set_solver.
    + assert (b ≠ a) by (intros ->; by pose proof (mr_disj _ _ _ Hm _ _ _ Hat Hb)).
      rewrite !Hsame by done. by apply Hok.
Qed.

Lemma st_remove_last A h ls q lk fl tm t a xs : st A h ls q lk fl tm → qget q t = xs ++ [a] →
  ∃ ls' h', on_list t (remove a) (ls, h) = Ok (ls', h') ∧ st A h' ls' (qset t xs q) lk fl tm ∧
    ¬ queued (qset t xs q) a ∧ A a.
Proof.
  intros Hs Hq. destruct (st_remove Hs t (length xs) a) as (ls' & h' & Heq & Hs').
  { rewrite Hq, lookup_app_r, Nat.sub_diag by done. done. }
  rewrite Hq, delete_snoc in Hs'. exists ls', h'. split; [done|]. split; [done|].
  assert (a ∈ qget q t) as Hat by (rewrite Hq; set_solver). split; [|by apply (st_queued_alive Hs t)].
  pose proof (st_rep _ _ _ _ _ _ _ Hs) as Hm. destruct (mr_list h ls q t Hm) as (l & _ & Hd).
  pose proof (rep_nodup _ _ _ Hd) as Hnd. rewrite Hq in Hnd. apply NoDup_app in Hnd as (_ & Hnd & _).
  intros [u Hu]. rewrite qget_qset in Hu. case_decide as Hut; [subst; apply (Hnd a Hu); by left|].
  by pose proof (mr_disj _ _ _ Hm _ _ _ Hat Hu).
Qed.
Lemma st_link_move A h ls q lk fl tm t t' a xs : t ≠ t' → st A h ls (qset t xs q) lk fl tm →
  ¬ queued (qset t xs q) a → A a →
  ∃ ls' h', on_list t' (linkAtHead a) (ls, h) = Ok (ls', h') ∧ st A h' ls' (qmove t t' a xs q) lk fl tm.
Proof.
  intros Hne Hs Hn Ha. destruct (st_link Hs t' a Ha Hn) as (ls' & h' & Heq & Hs'). exists ls', h'. split; [done|].
  by rewrite qget_qset, decide_False in Hs' by done.
Qed.


(** ** Rebalancing on sequences *)
Definition shrink_warm (e : nat) q : Qs :=
  mkQs (take e (q_warm q)) (take (e - length (q_warm q)) (q_warmTail q)) (q_hot q)
    (drop e (q_warm q ++ q_warmTail q) ++ q_cold q) (q_coldTail q).
Definition shrink_hot (e : nat) q : Qs :=
  mkQs (q_warm q) (q_warmTail q) (take e (q_hot q)) (drop e (q_hot q) ++ q_cold q) (q_coldTail q).
(** Move items from the end of [t] to the front of [t'] until that has [n]. *)
Definition fill_tail (n : nat) (t t' : LruType) q : Qs :=
  let k := (length (qget q t) - (n - length (qget q t')))%nat in
  qset t' (drop k (qget q t) ++ qget q t') (qset t (take k (qget q t)) q).

Lemma shrink_warm_move e q t a xs : t = (if decide (q_warmTail q = []) then Warm else WarmTail) →
  qget q t = xs ++ [a] → (e < length (q_warm q) + length (q_warmTail q))%nat →
  shrink_warm e (qmove t Cold a xs q) = shrink_warm e q.
Proof.
  intros Ht Hq He. unfold shrink_warm, qmove. destruct q as [w wt ht cd ct]. cbn [q_warmTail q_warm] in *.
  case_decide as Hd; subst t; cbn [qget q_warm q_warmTail] in Hq; subst; cbn [length] in He;
    rewrite ?length_app in He; cbn [length] in He; simpl.
  - rewrite !app_nil_r, take_app_le, drop_app_le, <- app_assoc by lia. f_equal. by rewrite !take_nil.
  - rewrite take_app_le, (app_assoc w), (drop_app_le (w ++ xs)) by (rewrite ?length_app; lia).
    by rewrite <- app_assoc.
Qed.
Lemma shrink_warm_done e q : (length (q_warm q) + length (q_warmTail q) ≤ e)%nat → shrink_warm e q = q.
Proof.
  intros He. unfold shrink_warm. rewrite !take_ge, drop_ge by (rewrite ?length_app; lia). by destruct q.
Qed.

Section loops.
Context {A : Z → Prop} {lk : Z → bool} {tm : Z → Z}.

Lemma popFrom_spec h ls q fl t a xs : st A h ls q lk fl tm → qget q t = xs ++ [a] →
  ∃ ls' h', popFrom t (ls, h) = Ok (a, (ls', h')) ∧
    st A h' ls' (qset t xs q) lk (if is_tail t then setf kMMFlag1 a false fl else fl) tm ∧
    ¬ queued (qset t xs q) a ∧ A a.
Proof.
  intros Hs Hq. unfold popFrom. cbn [fst]. destruct (st_get Hs t) as (l & Hl & Htl & _). rewrite Hl. res_simpl.
  rewrite Htl, Hq, last_snoc. res_simpl.
  destruct (st_remove_last _ _ _ _ _ _ _ t a xs Hs Hq) as (ls' & h' & -> & Hs' & Hn & Ha). res_simpl.
  destruct (is_tail t) eqn:Et.
  - rewrite decide_True by (destruct t; naive_solver).
    destruct (st_mark Hs' kMMFlag1 false a Ha) as (h2 & Heq & Hs2). unfold unmarkTail. rewrite Heq. res_simpl.
    by exists ls', h2.
  - rewrite decide_False by (destruct t; naive_solver). res_simpl. by exists ls', h'.
Qed.

(** One step of the first loop of [rebalance]. *)
Lemma warm_step h ls q fl t a xs : st A h ls q lk fl tm → fl_ok q fl → t = Warm ∨ t = WarmTail →
  qget q t = xs ++ [a] →
  ∃ ls1 h1 ls' h' fl', popFrom t (ls, h) = Ok (a, (ls1, h1)) ∧ isWarm h1 a = Ok true ∧
    ('(ls, h) ← on_list Cold (linkAtHead a) (ls1, h1); h ← markCold a h; Ok (ls, h)) = Ok (ls', h') ∧
    st A h' ls' (qmove t Cold a xs q) lk fl' tm ∧ fl_ok (qmove t Cold a xs q) fl' ∧ fl_same q fl fl'.
Proof.
  intros Hs Hok Ht Hq. assert (t ≠ Cold) as Hne by (destruct Ht; congruence).
  destruct (popFrom_spec h ls q fl t a xs Hs Hq) as (ls1 & h1 & -> & Hs1 & Hn & Ha).
  set (fl1 := if is_tail t then _ else _) in *. assert (a ∈ qget q t) as Hat by (rewrite Hq; set_solver).
  destruct (Hok t a Hat) as (Hf0 & Hf1 & Hf2).
  assert (fl1 kMMFlag0 a = false ∧ fl1 kMMFlag1 a = false ∧ fl1 kMMFlag2 a = false) as (H0 & H1 & H2).
  { unfold fl1. destruct Ht as [->| ->]; cbn [is_tail is_hot is_cold] in *; rewrite ?setf_eq, ?setf_ne by done; done. }
  exists ls1, h1. destruct (st_link_move A h1 ls1 q lk fl1 tm t Cold a xs Hne Hs1 Hn Ha) as (ls2 & h2 & -> & Hs2).
  destruct (st_mark Hs2 kMMFlag2 true a Ha) as (h3 & Heq & Hs3).
  exists ls2, h3, (setf kMMFlag2 a true fl1). split; [done|]. split.
  { unfold isWarm, isHot, isCold. rewrite (st_testFlag Hs1 kMMFlag0 a Ha), H0. res_simpl.
    by rewrite (st_testFlag Hs1 kMMFlag2 a Ha), H2. }
  split; [res_simpl; unfold markCold; by rewrite Heq|]. split; [done|]. split.
  - eapply fl_ok_qmove; [exact Hs|done|done|done| |].
    + intros f b Hb. rewrite setf_other by done. unfold fl1. destruct (is_tail t); [by rewrite setf_other|done].
    + by rewrite setf_eq, !setf_ne.
  - assert (queued q a) as Hqa by by exists t. intros f b Hfb.
    rewrite (fl_same_setf q kMMFlag2 a true fl1) by auto. unfold fl1. destruct (is_tail t); [|done].
    by apply (fl_same_setf q kMMFlag1 a false fl); auto.
Qed.

Lemma shrinkWarm_spec fuel h ls q fl e : st A h ls q lk fl tm → fl_ok q fl →
  (length (q_warm q) + length (q_warmTail q) ≤ e + fuel)%nat →
  ∃ ls' h' fl', shrinkWarm fuel (Z.of_nat e) (ls, h) = Ok (ls', h') ∧
    st A h' ls' (shrink_warm e q) lk fl' tm ∧ fl_ok (shrink_warm e q) fl' ∧ fl_same q fl fl'.
Proof.
  revert h ls q fl. induction fuel as [|fuel IH]; intros h ls q fl Hs Hok Hf;
    (destruct (st_get Hs Warm) as (w & Hw & _ & Hwn & Hwl); destruct (st_get Hs WarmTail) as (wt & Hwt & _ & Hwtn & Hwtl));
    cbn [qget] in Hwn, Hwtn; cbn [shrinkWarm fst]; rewrite Hw; res_simpl; rewrite Hwt; res_simpl;
    rewrite (wrap_small 64) by (unfold fits; lia).
  { rewrite (proj2 (Z.ltb_ge _ _)), shrink_warm_done by lia. by exists ls, h, fl. }
  destruct (Z.ltb_spec (Z.of_nat e) (size_ w + size_ wt)) as [Hlt|Hge].
  2:{ rewrite shrink_warm_done by lia. by exists ls, h, fl. }
  set (t := if decide (q_warmTail q = []) then Warm else WarmTail).
  assert ((if 0 <? size_ wt then popFrom WarmTail (ls, h) else popFrom Warm (ls, h)) = popFrom t (ls, h)) as ->.
  { unfold t. rewrite Hwtn. case_decide as Hd; [by rewrite Hd|]. rewrite (proj2 (Z.ltb_lt _ _)); [done|].
    destruct (q_warmTail q); [done|cbn; lia]. }
  assert (∃ xs a, qget q t = xs ++ [a]) as (xs & a & Hq).
  { destruct (snoc_case (qget q t)) as [Hnil|(ys & a & -> & _)]; [|by exists ys, a]. exfalso. revert Hnil. unfold t.
    case_decide as Hd; cbn [qget]; [|done]. intros Hw0. rewrite Hd in Hwtn. rewrite Hw0 in Hwn. cbn in *. lia. }
  destruct (warm_step h ls q fl t a xs Hs Hok) as (ls1 & h1 & ls2 & h2 & fl2 & -> & Hiw & Hmv & Hs2 & Hok2 & Hsame);
    [unfold t; case_decide; auto|done|].
  res_simpl. rewrite Hiw. res_simpl. destruct (on_list Cold (linkAtHead a) (ls1, h1)) as [[ls3 h3]| |]; try done.
  cbn [mbind result_bind] in Hmv |- *. destruct (markCold a h3) as [h4| |]; try done. cbn [mbind result_bind] in Hmv |- *.
  injection Hmv as -> ->. assert (t ≠ Cold) by (unfold t; by case_decide).
  pose proof (total_qmove t Cold a xs q) as Htot.
  destruct (IH h2 ls2 (qmove t Cold a xs q) fl2 Hs2 Hok2) as (ls' & h' & fl' & Heq & Hs' & Hok' & Hsame').
  { apply (f_equal length) in Hq. rewrite length_app in Hq. unfold t in *.
    case_decide; simpl in *; lia. }
  rewrite (shrink_warm_move e q t a xs) in * by (done || lia).
  exists ls', h', fl'. split; [done|]. split; [done|]. split; [done|]. eapply fl_same_trans; [done..|].
  intros b. by rewrite queued_qmove.
Qed.

Lemma shrink_hot_move e q a xs : q_hot q = xs ++ [a] → (e < length (q_hot q))%nat →
  shrink_hot e (qmove Hot Cold a xs q) = shrink_hot e q.
Proof.
  intros Hq He. unfold shrink_hot, qmove. destruct q as [w wt ht cd ct]. cbn [q_hot] in *. subst.
  rewrite length_app in He. cbn [length] in He. simpl. rewrite take_app_le, drop_app_le by lia. by rewrite <- app_assoc.
Qed.
Lemma shrink_hot_done e q : (length (q_hot q) ≤ e)%nat → shrink_hot e q = q.
Proof. intros He. unfold shrink_hot. rewrite take_ge, drop_ge by lia. by destruct q. Qed.

Lemma shrinkHot_spec fuel h ls q fl e : st A h ls q lk fl tm → fl_ok q fl → (length (q_hot q) ≤ e + fuel)%nat →
  ∃ ls' h' fl', shrinkHot fuel (Z.of_nat e) (ls, h) = Ok (ls', h') ∧
    st A h' ls' (shrink_hot e q) lk fl' tm ∧ fl_ok (shrink_hot e q) fl' ∧ fl_same q fl fl'.
Proof.
  revert h ls q fl. induction fuel as [|fuel IH]; intros h ls q fl Hs Hok Hf;
    destruct (st_get Hs Hot) as (l & Hl & Htl & Hn & _); cbn [qget] in Hn, Htl; cbn [shrinkHot fst snd];
    rewrite Hl; res_simpl.
  { rewrite (proj2 (Z.ltb_ge _ _)), shrink_hot_done by lia. by exists ls, h, fl. }
  destruct (Z.ltb_spec (Z.of_nat e) (size_ l)) as [Hlt|Hge].
  2:{ rewrite shrink_hot_done by lia. by exists ls, h, fl. }
  destruct (snoc_case (q_hot q)) as [Hnil|(xs & a & Hq & Hla)]; [rewrite Hnil in Hn; cbn in Hn; lia|].
  rewrite Htl, Hla. res_simpl. destruct (st_remove_last A h ls q lk fl tm Hot a xs Hs Hq) as (ls1 & h1 & Heq1 & Hs1 & Hnq & Ha).
  destruct (Hok Hot a) as (Hf0 & Hf1 & _); [cbn [qget]; rewrite Hq; set_solver|]. cbn [is_hot is_tail] in *.
  unfold isHot. rewrite (st_testFlag Hs kMMFlag0 a Ha), Hf0. res_simpl. rewrite Heq1. res_simpl.
  destruct (st_link_move A h1 ls1 q lk fl tm Hot Cold a xs ltac:(done) Hs1 Hnq Ha) as (ls2 & h2 & -> & Hs2). res_simpl.
  destruct (st_mark Hs2 kMMFlag0 false a Ha) as (h3 & Heq3 & Hs3). unfold unmarkHot. rewrite Heq3. res_simpl.
  destruct (st_mark Hs3 kMMFlag2 true a Ha) as (h4 & Heq4 & Hs4). unfold markCold. rewrite Heq4. res_simpl.
  assert (fl_ok (qmove Hot Cold a xs q) (setf kMMFlag2 a true (setf kMMFlag0 a false fl))) as Hok4.
  { eapply fl_ok_qmove; [exact Hs|done|done|done| |].
    - intros f b Hb. by rewrite !setf_other.
    - by rewrite setf_eq, (setf_ne kMMFlag2 kMMFlag0), (setf_ne kMMFlag2 kMMFlag1), setf_eq, setf_ne. }
  destruct (IH h4 ls2 _ _ Hs4 Hok4) as (ls' & h' & fl' & Heq & Hs' & Hok' & Hsame').
  { apply (f_equal length) in Hq. rewrite length_app in Hq. simpl in *. lia. }
  rewrite (shrink_hot_move e q a xs) in * by (done || lia).
  exists ls', h', fl'. split; [done|]. split; [done|]. split; [done|].
  assert (queued q a) as Hqa by (exists Hot; cbn [qget]; rewrite Hq; set_solver).
  eapply fl_same_trans; [|exact Hsame'|intros b; by rewrite queued_qmove].
  eapply fl_same_trans; [apply (fl_same_setf q kMMFlag0 a false)|apply (fl_same_setf q)|]; auto.
Qed.

Lemma fill_tail_move n t t' q a xs : t ≠ t' → qget q t = xs ++ [a] → (length (qget q t') < n)%nat →
  fill_tail n t t' (qmove t t' a xs q) = fill_tail n t t' q.
Proof.
  intros Hne Hq Hn. unfold fill_tail. rewrite !qget_qmove, Hq by done.
  rewrite (decide_True (P := t' = t')), (decide_False (P := t = t')), (decide_True (P := t = t)) by done.
  rewrite length_app. cbn [length].
  replace (length xs + 1 - (n - length (qget q t')))%nat with (length xs - (n - S (length (qget q t'))))%nat by lia.
  set (k := (length xs - _)%nat). rewrite take_app_le, drop_app_le, <- app_assoc by (unfold k; lia).
  destruct t, t'; done.
Qed.
Lemma fill_tail_done n t t' q : t ≠ t' → qget q t = [] ∨ (n ≤ length (qget q t'))%nat → fill_tail n t t' q = q.
Proof.
  intros Hne Hd. unfold fill_tail.
  assert (length (qget q t) - (n - length (qget q t')) = length (qget q t))%nat as ->.
  { destruct Hd as [->|]; [done|lia]. }
  rewrite drop_all, firstn_all. by destruct q, t, t'.
Qed.

Lemma adjustTail_loop_spec cfg t t' fuel h ls q fl : getTailLru t = Ok t' → fits 64 (tailSize cfg) →
  st A h ls q lk fl tm → fl_ok q fl → (length (qget q t) ≤ fuel)%nat →
  ∃ ls' h' fl', adjustTail_loop fuel cfg t t' (ls, h) = Ok (ls', h') ∧
    st A h' ls' (fill_tail (Z.to_nat (tailSize cfg)) t t' q) lk fl' tm ∧
    fl_ok (fill_tail (Z.to_nat (tailSize cfg)) t t' q) fl' ∧ fl_same q fl fl'.
Proof.
  intros Ht Hts. assert (t ≠ t' ∧ is_tail t = false ∧ is_tail t' = true ∧ is_cold t' = is_cold t ∧ is_hot t' = is_hot t) as
    (Hne & Htt & Htt' & Hc & Hh) by (destruct t; cbn in Ht; by simplify_eq).
  revert h ls q fl. induction fuel as [|fuel IH]; intros h ls q fl Hs Hok Hf;
    (destruct (st_get Hs t) as (l & Hl & Htl & Hn & _); destruct (st_get Hs t') as (l' & Hl' & _ & Hn' & Hb'));
    cbn [adjustTail_loop fst snd]; rewrite Hl; res_simpl; rewrite Htl;
    (destruct (snoc_case (qget q t)) as [Hnil|(xs & a & Hq & Hla)];
       [rewrite Hnil, fill_tail_done by auto; by exists ls, h, fl|]);
    [rewrite Hq, length_app in Hf; cbn in Hf; lia|].
  rewrite Hla, Hl'. res_simpl. rewrite (wrap_small 64) by (unfold fits; lia). unfold fits in Hts.
  destruct (Z.leb_spec (size_ l' + 1) (tailSize cfg)) as [Hlt|Hge].
  2:{ rewrite fill_tail_done by (done || lia). by exists ls, h, fl. }
  assert (a ∈ qget q t) as Hat by (rewrite Hq; set_solver). pose proof (st_queued_alive Hs t a Hat) as Ha.
  unfold markTail. rewrite (proj2 (Z.ltb_lt _ _)) by lia. res_simpl.
  destruct (st_mark Hs kMMFlag1 true a Ha) as (h1 & Heq1 & Hs1). rewrite Heq1. res_simpl.
  destruct (st_remove_last A h1 ls q lk _ tm t a xs Hs1 Hq) as (ls2 & h2 & Heq2 & Hs2 & Hnq & _). rewrite Heq2. res_simpl.
  destruct (st_link_move A h2 ls2 q lk _ tm t t' a xs Hne Hs2 Hnq Ha) as (ls3 & h3 & Heq3 & Hs3). rewrite Heq3. res_simpl.
  destruct (Hok t a Hat) as (Hf0 & Hf1 & Hf2).
  assert (fl_ok (qmove t t' a xs q) (setf kMMFlag1 a true fl)) as Hok3.
  { eapply fl_ok_qmove; [exact Hs|done|done|done| |].
    - intros f b Hb. by rewrite !setf_other.
    - rewrite setf_eq, !setf_ne by done. by rewrite Hf0, Hf2, Hh, Hc, Htt'. }
  destruct (IH h3 ls3 _ _ Hs3 Hok3) as (ls' & h' & fl' & Heq & Hs' & Hok' & Hsame').
  { rewrite qget_qmove, decide_False, decide_True by done. rewrite Hq, length_app in Hf. cbn in Hf. lia. }
  rewrite (fill_tail_move _ t t' q a xs) in * by (done || lia).
  exists ls', h', fl'. split; [done|]. split; [done|]. split; [done|].
  eapply fl_same_trans; [apply (fl_same_setf q kMMFlag1 a true); [by auto|by exists t]|exact Hsame'|].
  intros b. by rewrite queued_qmove.
Qed.
End loops.

(** Items before [k] and from [k] on are the items. *)
Lemma elem_of_split (k : nat) (xs : list Z) a : a ∈ xs ↔ a ∈ take k xs ∨ a ∈ drop k xs.
Proof. rewrite <- (take_drop k xs) at 1. apply elem_of_app. Qed.
Lemma queued_alt q a : queued q a ↔
  a ∈ q_warm q ∨ a ∈ q_warmTail q ∨ a ∈ q_hot q ∨ a ∈ q_cold q ∨ a ∈ q_coldTail q.
Proof.
  split; [intros [[] Ha]; cbn in Ha; tauto|].
  intros [Ha|[Ha|[Ha|[Ha|Ha]]]]; [exists Warm|exists WarmTail|exists Hot|exists Cold|exists ColdTail]; done.
Qed.

Lemma shrink_warm_queued e q a : queued (shrink_warm e q) a ↔ queued q a.
Proof.
  rewrite !queued_alt. unfold shrink_warm. cbn [q_warm q_warmTail q_hot q_cold q_coldTail].
  rewrite skipn_app, !elem_of_app, (elem_of_split e (q_warm q)),
    (elem_of_split (e - length (q_warm q)) (q_warmTail q)). tauto.
Qed.
Lemma shrink_hot_queued e q a : queued (shrink_hot e q) a ↔ queued q a.
Proof.
  rewrite !queued_alt. unfold shrink_hot. cbn [q_warm q_warmTail q_hot q_cold q_coldTail].
  rewrite !elem_of_app, (elem_of_split e (q_hot q)). tauto.
Qed.
Lemma fill_tail_queued n t t' q a : t ≠ t' → queued (fill_tail n t t' q) a ↔ queued q a.
Proof.
  intros Hne. unfold fill_tail. set (k := (_ - _)%nat). rewrite !queued_alt.
  destruct t, t'; try done; simpl; rewrite !elem_of_app;
    match goal with |- context [take k ?xs] => rewrite (elem_of_split k xs) end; tauto.
Qed.
Lemma shrink_warm_total e q : total (shrink_warm e q) = total q.
Proof.
  rewrite !total_eq. unfold shrink_warm. cbn [q_warm q_warmTail q_hot q_cold q_coldTail].
  rewrite !length_app, length_drop, !length_take, length_app. lia.
Qed.
Lemma shrink_hot_total e q : total (shrink_hot e q) = total q.
Proof.
  rewrite !total_eq. unfold shrink_hot. cbn [q_warm q_warmTail q_hot q_cold q_coldTail].
  rewrite !length_app, length_drop, !length_take. lia.
Qed.
Lemma fill_tail_total n t t' q : t ≠ t' → total (fill_tail n t t' q) = total q.
Proof.
  intros Hne. rewrite !total_eq. unfold fill_tail. set (k := (_ - _)%nat).
  destruct t, t'; try done; simpl; rewrite !length_app, length_drop, !length_take; lia.
Qed.

(** The shares of the queues, as item counts. *)
Definition percent (p : Z) (n : nat) : nat := Z.to_nat (p * Z.of_nat n / 100).
Definition rebalance_q (cfg : Config) q : Qs :=
  let n := total q in
  let ts := Z.to_nat (tailSize cfg) in
  fill_tail ts Warm WarmTail (fill_tail ts Cold ColdTail
    (shrink_hot (percent (hotSizePercent cfg) n) (shrink_warm (percent (100 - hotSizePercent cfg - coldSizePercent cfg) n) q))).

(** Configurations [checkLruSizes] accepts, with a [size_t] tail size. *)
Record sizes_ok (cfg : Config) : Prop := {
  so_hot : 0 ≤ hotSizePercent cfg;
  so_cold : 0 ≤ coldSizePercent cfg;
  so_sum : hotSizePercent cfg + coldSizePercent cfg ≤ 100;
  so_tail : fits 64 (tailSize cfg);
}.
Lemma warm_percent cfg : sizes_ok cfg → getWarmSizePercent cfg = 100 - hotSizePercent cfg - coldSizePercent cfg.
Proof.
  intros [H1 H2 H3 _]. unfold getWarmSizePercent.
  rewrite (wrap_small 64 (100 - _)) by (unfold fits; lia). apply wrap_small. unfold fits. lia.
Qed.
Lemma expected_size p n : 0 ≤ p ≤ 100 → Z.of_nat n ≤ 5 * 2 ^ 32 → u64 (p * Z.of_nat n) / 100 = Z.of_nat (percent p n).
Proof.
  intros Hp Hn. rewrite wrap_small by (unfold fits; nia). unfold percent. rewrite Z2Nat.id; [done|].
  apply Z.div_pos; nia.
Qed.

Lemma rebalance_aux A h ls q lk fl tm cfg : st A h ls q lk fl tm → fl_ok q fl → sizes_ok cfg →
  ∃ ls' h' fl', rebalance cfg (ls, h) = Ok (ls', h') ∧ st A h' ls' (rebalance_q cfg q) lk fl' tm ∧
    fl_ok (rebalance_q cfg q) fl' ∧ fl_same q fl fl'.
Proof.
  intros Hs Hok Hc. pose proof (so_hot _ Hc). pose proof (so_cold _ Hc). pose proof (so_sum _ Hc).
  destruct (mr_size h ls q (st_rep _ _ _ _ _ _ _ Hs)) as [Hsz Hle].
  unfold rebalance, rebalance_q. cbn [fst]. unfold mm_fuel. rewrite warm_percent, Hsz, Nat2Z.id, expected_size by (done || lia).
  set (e1 := percent _ _). pose proof (total_eq q) as Htot.
  destruct (shrinkWarm_spec (total q) h ls q fl e1 Hs Hok) as (ls1 & h1 & fl1 & -> & Hs1 & Hok1 & Hf1); [lia|]. res_simpl.
  cbn [fst]. set (q1 := shrink_warm e1 q) in *. assert (total q1 = total q) as Ht1 by apply shrink_warm_total.
  destruct (mr_size h1 ls1 q1 (st_rep _ _ _ _ _ _ _ Hs1)) as [Hsz1 _].
  rewrite Hsz1, Nat2Z.id, Ht1, expected_size by (done || lia). set (e2 := percent _ _). pose proof (total_eq q1).
  destruct (shrinkHot_spec (total q) h1 ls1 q1 fl1 e2 Hs1 Hok1) as (ls2 & h2 & fl2 & -> & Hs2 & Hok2 & Hf2); [lia|]. res_simpl.
  set (q2 := shrink_hot e2 q1) in *.
  destruct (mr_size h2 ls2 q2 (st_rep _ _ _ _ _ _ _ Hs2)) as [Hsz2 _]. pose proof (total_eq q2).
  unfold adjustTail. cbn [getTailLru]. res_simpl. unfold mm_fuel. rewrite Hsz2, Nat2Z.id.
  destruct (adjustTail_loop_spec cfg Cold ColdTail (total q2) h2 ls2 q2 fl2 eq_refl (so_tail _ Hc) Hs2 Hok2)
    as (ls3 & h3 & fl3 & -> & Hs3 & Hok3 & Hf3); [cbn [qget]; lia|]. res_simpl.
  set (q3 := fill_tail (Z.to_nat (tailSize cfg)) Cold ColdTail q2) in *.
  destruct (mr_size h3 ls3 q3 (st_rep _ _ _ _ _ _ _ Hs3)) as [Hsz3 _]. pose proof (total_eq q3). rewrite Hsz3, Nat2Z.id.
  destruct (adjustTail_loop_spec cfg Warm WarmTail (total q3) h3 ls3 q3 fl3 eq_refl (so_tail _ Hc) Hs3 Hok3)
    as (ls4 & h4 & fl4 & -> & Hs4 & Hok4 & Hf4); [cbn [qget]; lia|].
  exists ls4, h4, fl4. split; [done|]. split; [done|]. split; [done|].
  eapply fl_same_trans; [exact Hf1| |apply shrink_warm_queued]. eapply fl_same_trans; [exact Hf2| |apply shrink_hot_queued].
  eapply fl_same_trans; [exact Hf3|exact Hf4|].
  intros b. apply (fill_tail_queued (Z.to_nat (tailSize cfg)) Cold ColdTail q2 b). done.
Qed.

(** ** Invariant of the container *)
Definition view h ls q : Prop :=
  st (λ a, is_Some (payload h a)) h ls q (linked h) (λ f, flag f h) (time h) ∧ fl_ok q (λ f, flag f h).
Record mm2q_wf h (c : Container) q : Prop := {
  w_view : view h (lru_ c) q;
  w_linked a : linked h a = true ↔ queued q a;
  w_cfg : sizes_ok (config_ c);
  w_track : tailTrackingEnabled_ c = (0 <? tailSize (config_ c));
  w_tail : tailSize (config_ c) = 0 → q_warmTail q = [] ∧ q_coldTail q = [];
}.

Lemma st_view A h ls q lk fl tm : st A h ls q lk fl tm → fl_ok q fl → view h ls q.
Proof.
  intros Hs Hok. split.
  - split; try done; try apply Hs. intros a Ha. by apply (st_valid _ _ _ _ _ _ _ Hs), (st_alive _ _ _ _ _ _ _ Hs).
  - intros t a Ha. rewrite !(st_flag _ _ _ _ _ _ _ Hs). by apply Hok.
Qed.
Lemma fl_ok_sub q q' fl : fl_ok q fl → (∀ t a, a ∈ qget q' t → a ∈ qget q t) → fl_ok q' fl.
Proof. intros Hok Hsub t a Ha. by apply Hok, Hsub. Qed.
Lemma fl_ok_link q t a fl fl' : fl_ok q fl → ¬ queued q a → (∀ f b, b ≠ a → fl' f b = fl f b) →
  fl' kMMFlag0 a = is_hot t ∧ fl' kMMFlag1 a = is_tail t ∧ fl' kMMFlag2 a = is_cold t →
  fl_ok (qset t (a :: qget q t) q) fl'.
Proof.
  intros Hok Hn Hsame Ha u b Hb. rewrite qget_qset in Hb.
  assert (b = a ∧ u = t ∨ b ≠ a ∧ b ∈ qget q u) as [[-> ->]|[Hne Hb']]; [|done|rewrite !Hsame by done; by apply Hok].
  case_decide as Hu; [subst; apply elem_of_cons in Hb as [->|Hb]; [by left|]|];
    (right; split; [intros ->; apply Hn; by eexists|done]).
Qed.
Lemma qset_qset t xs ys q : qset t xs (qset t ys q) = qset t xs q.
Proof. by destruct t. Qed.
Lemma queued_link q t a b : queued (qset t (a :: qget q t) q) b ↔ b = a ∨ queued q b.
Proof.
  unfold queued. split.
  - intros [u Hu]. rewrite qget_qset in Hu. case_decide; [subst|by right; exists u].
    apply elem_of_cons in Hu as [->|Hu]; [by left|right; by exists u].
  - intros [->|[u Hu]]; [exists t; rewrite qget_qset, decide_True by done; by left|].
    exists u. rewrite qget_qset. case_decide; [subst; by right|done].
Qed.
Lemma queued_delete A h ls q lk fl tm t i a b : st A h ls q lk fl tm → qget q t !! i = Some a →
  queued (qset t (delete i (qget q t)) q) b ↔ queued q b ∧ b ≠ a.
Proof.
  intros Hs Hi. pose proof (st_rep _ _ _ _ _ _ _ Hs) as Hm. destruct (mr_list h ls q t Hm) as (l & _ & Hd).
  pose proof (list_elem_of_lookup_2 _ _ _ Hi) as Hin. unfold queued. split.
  - intros [u Hu]. rewrite qget_qset in Hu. case_decide as Hut.
    + subst. rewrite (elem_of_delete _ i a) in Hu; [|apply Hd|done].
      destruct Hu as [Hu Hne]. split; [eexists; exact Hu|exact Hne].
    + split; [by exists u|]. intros ->. by pose proof (mr_disj _ _ _ Hm _ _ _ Hin Hu).
  - intros [[u Hu] Hne]. exists u. rewrite qget_qset. case_decide as Hut; [|done]. subst.
    rewrite (elem_of_delete _ i a); [done|apply Hd|done].
Qed.

Lemma rebalance_queued cfg q a : queued (rebalance_q cfg q) a ↔ queued q a.
Proof.
  unfold rebalance_q. rewrite !fill_tail_queued, shrink_hot_queued, shrink_warm_queued by done. done.
Qed.
Lemma rebalance_tail cfg q : tailSize cfg = 0 → q_warmTail q = [] ∧ q_coldTail q = [] →
  q_warmTail (rebalance_q cfg q) = [] ∧ q_coldTail (rebalance_q cfg q) = [].
Proof.
  intros Ht [Hw Hc]. unfold rebalance_q. rewrite Ht. change (Z.to_nat 0) with 0%nat.
  rewrite !fill_tail_done by (done || (right; lia)). unfold shrink_hot, shrink_warm. cbn. by rewrite Hw, take_nil.
Qed.

Lemma getLruType_spec h c q t a : mm2q_wf h c q → a ∈ qget q t → getLruType (config_ c) h a = Ok t.
Proof.
  intros Hwf Ha. destruct (w_view _ _ _ Hwf) as [Hs Hok]. destruct (Hok t a Ha) as (H0 & H1 & H2).
  pose proof (st_queued_alive Hs t a Ha) as Hal. unfold getLruType, isHot, isCold, inTail.
  rewrite (st_testFlag Hs kMMFlag0 a Hal). cbv beta. rewrite H0. res_simpl. destruct (is_hot t) eqn:Eh; [by destruct t|].
  rewrite (st_testFlag Hs kMMFlag2 a Hal). cbv beta. rewrite H2. res_simpl. destruct (Z.eqb_spec (tailSize (config_ c)) 0) as [Hz|Hz]; res_simpl.
  - destruct (w_tail _ _ _ Hwf Hz) as [Hw Hc]. destruct t; cbn in *; try done; [rewrite Hw in Ha|rewrite Hc in Ha]; set_solver.
  - rewrite (st_testFlag Hs kMMFlag1 a Hal). cbv beta. rewrite H1. res_simpl. by destruct t.
Qed.

(** Only the container's lists, counters and times change. *)
Definition same_config (c c' : Container) : Prop :=
  config_ c' = config_ c ∧ tailTrackingEnabled_ c' = tailTrackingEnabled_ c.

Lemma wf_intro A h c ls q lk fl tm c0 : st A h ls q lk fl tm → fl_ok q fl → lru_ c = ls →
  (∀ a, lk a = true ↔ queued q a) → same_config c0 c → sizes_ok (config_ c0) →
  tailTrackingEnabled_ c0 = (0 <? tailSize (config_ c0)) →
  (tailSize (config_ c0) = 0 → q_warmTail q = [] ∧ q_coldTail q = []) → mm2q_wf h c q.
Proof.
  intros Hs Hok <- Hlk [Hc Htr] Hsz Htk Htl. split; rewrite ?Hc, ?Htr; try done.
  - by eapply st_view.
  - intros a. by rewrite (st_linked _ _ _ _ _ _ _ Hs).
Qed.

Section operation_specs.
Context {h : Store} {c : Container} {q : Qs} (Hwf : mm2q_wf h c q).

Lemma wf_st : st (λ a, is_Some (payload h a)) h (lru_ c) q (linked h) (λ f, flag f h) (time h).
Proof. apply (w_view _ _ _ Hwf). Qed.
Lemma wf_fl : fl_ok q (λ f, flag f h).
Proof. apply (w_view _ _ _ Hwf). Qed.
Lemma unlinked_not_queued a : linked h a = false → ¬ queued q a.
Proof. intros Hl Hq. apply (w_linked _ _ _ Hwf) in Hq. congruence. Qed.

(** What every operation keeps: the allocated items and their payload other
    than the MM bits. *)
Definition keeps a h' : Prop :=
  (∀ b, is_Some (payload h' b) ↔ is_Some (payload h b)) ∧
  (∀ b, b ≠ a → time h' b = time h b) ∧
  (∀ f b, f ≠ kMMFlag0 → f ≠ kMMFlag1 → f ≠ kMMFlag2 → flag f h' b = flag f h b).

Lemma mm2q_add_aux a now : is_Some (payload h a) → linked h a = false →
  ∃ ls' h', add a now (c, h) = Ok (true, (with_lru ls' c, h')) ∧
    mm2q_wf h' (with_lru ls' c) (rebalance_q (config_ c) (qset Hot (a :: q_hot q) q)) ∧
    time h' a = u32 now ∧ keeps a h'.
Proof.
  intros Ha Hl. pose proof wf_st as Hs. pose proof (unlinked_not_queued a Hl) as Hn. unfold add.
  rewrite (st_testLinked Hs a Ha), Hl. res_simpl.
  destruct (st_mark Hs kMMFlag0 true a Ha) as (h1 & Heq1 & Hs1). unfold markHot. rewrite Heq1. res_simpl.
  destruct (st_mark Hs1 kMMFlag2 false a Ha) as (h2 & Heq2 & Hs2). unfold unmarkCold. rewrite Heq2. res_simpl.
  destruct (st_mark Hs2 kMMFlag1 false a Ha) as (h3 & Heq3 & Hs3). unfold unmarkTail. rewrite Heq3. res_simpl.
  destruct (st_link Hs3 Hot a Ha Hn) as (ls4 & h4 & -> & Hs4). res_simpl. set (fl3 := setf kMMFlag1 a false _) in *.
  assert (fl_ok (qset Hot (a :: q_hot q) q) fl3) as Hok4.
  { apply (fl_ok_link q Hot a (λ f, flag f h) fl3 wf_fl Hn); unfold fl3.
    - intros f b Hb. by rewrite !setf_other.
    - by rewrite setf_eq, (setf_ne kMMFlag1 kMMFlag0), (setf_ne kMMFlag1 kMMFlag2), setf_eq,
        (setf_ne kMMFlag2 kMMFlag0), setf_eq. }
  destruct (rebalance_aux _ h4 ls4 _ _ fl3 _ (config_ c) Hs4 Hok4 (w_cfg _ _ _ Hwf)) as (ls5 & h5 & fl5 & Heq5 & Hs5 & Hok5 & Hsame).
  rewrite Heq5. res_simpl.
  destruct (st_mark_linked Hs5 true a Ha) as (h6 & Heq6 & Hs6). rewrite Heq6. res_simpl.
  destruct (st_setTime Hs6 a (u32 now) Ha) as (h7 & Heq7 & Hs7). rewrite Heq7. res_simpl.
  exists ls5, h7. split; [done|]. split.
  - eapply (wf_intro _ h7 _ ls5 _ _ _ _ c Hs7 Hok5); try done; try apply Hwf.
    + intros b. rewrite rebalance_queued. change (q_hot q) with (qget q Hot). rewrite queued_link. unfold set.
      rewrite <- (w_linked _ _ _ Hwf b). case_decide; naive_solver.
    + intros Ht. apply rebalance_tail; [done|]. by apply (w_tail _ _ _ Hwf).
  - split; [rewrite (st_time _ _ _ _ _ _ _ Hs7); unfold set; by rewrite decide_True|]. split; [|split].
    + apply (st_alive _ _ _ _ _ _ _ Hs7).
    + intros b Hb. rewrite (st_time _ _ _ _ _ _ _ Hs7). unfold set. by rewrite decide_False.
    + intros f b H0 H1 H2. rewrite (st_flag _ _ _ _ _ _ _ Hs7), Hsame by auto. unfold fl3. by rewrite !setf_ne.
Qed.

Lemma mm2q_removeLocked_aux t i a (reb : bool) : qget q t !! i = Some a →
  let q1 := qset t (delete i (qget q t)) q in
  ∃ ls' h', removeLocked a reb (c, h) = Ok (with_lru ls' c, h') ∧
    mm2q_wf h' (with_lru ls' c) (if reb then rebalance_q (config_ c) q1 else q1) ∧
    linked h' a = false ∧ getNext h' a = Ok None ∧ getPrev h' a = Ok None ∧ keeps a h'.
Proof.
  intros Hi q1. pose proof wf_st as Hs. pose proof (list_elem_of_lookup_2 _ _ _ Hi) as Hin.
  pose proof (st_queued_alive Hs t a Hin) as Ha. unfold removeLocked. rewrite (getLruType_spec h c q t a Hwf Hin). res_simpl.
  destruct (st_remove Hs t i a Hi) as (ls1 & h1 & Heq1 & Hs1). rewrite Heq1. res_simpl.
  assert (fl_ok q1 (λ f, flag f h)) as Hok1.
  { apply (fl_ok_sub q); [apply wf_fl|]. intros u b. unfold q1. rewrite qget_qset. case_decide; [subst|done]. apply delete_elem. }
  set (q2 := if reb then rebalance_q (config_ c) q1 else q1).
  assert (∃ ls2 h2 fl2, (if reb then rebalance (config_ c) (ls1, h1) else Ok (ls1, h1)) = Ok (ls2, h2) ∧
    st (λ a, is_Some (payload h a)) h2 ls2 q2 (linked h) fl2 (time h) ∧ fl_ok q2 fl2 ∧ fl_same q1 (λ f, flag f h) fl2)
    as (ls2 & h2 & fl2 & Heq2 & Hs2 & Hok2 & Hsame).
  { destruct reb; [|by exists ls1, h1, (λ f, flag f h)].
    destruct (rebalance_aux _ h1 ls1 _ _ _ _ (config_ c) Hs1 Hok1 (w_cfg _ _ _ Hwf)) as (ls2 & h2 & fl2 & H2).
    by exists ls2, h2, fl2. }
  rewrite Heq2. res_simpl. destruct (st_mark_linked Hs2 false a Ha) as (h3 & Heq3 & Hs3). rewrite Heq3. res_simpl.
  assert (∀ b, queued q2 b ↔ queued q b ∧ b ≠ a) as Hq2.
  { intros b. rewrite <- (queued_delete _ h (lru_ c) q _ _ _ t i a b Hs Hi). unfold q2. destruct reb; [|done].
    apply rebalance_queued. }
  exists ls2, h3. split; [done|]. split.
  - eapply (wf_intro _ h3 _ ls2 _ _ _ _ c Hs3 Hok2); try done; try apply Hwf.
    + intros b. rewrite Hq2, <- (w_linked _ _ _ Hwf b). unfold set. case_decide; naive_solver.
    + intros Ht. assert (q_warmTail q1 = [] ∧ q_coldTail q1 = []) as H1.
      { destruct (w_tail _ _ _ Hwf Ht) as [Hw Hcl]. unfold q1. destruct t; cbn; by rewrite ?Hw, ?Hcl. }
      unfold q2. destruct reb; [by apply rebalance_tail|done].
  - split; [rewrite (st_linked _ _ _ _ _ _ _ Hs3); unfold set; by rewrite decide_True|].
    destruct (mr_clear _ _ _ (st_rep _ _ _ _ _ _ _ Hs3) a) as [Hnx Hpv];
      [by apply (st_alive _ _ _ _ _ _ _ Hs3)|rewrite Hq2; naive_solver|].
    split; [done|]. split; [done|]. split; [|split].
    + apply (st_alive _ _ _ _ _ _ _ Hs3).
    + intros b Hb. apply (st_time _ _ _ _ _ _ _ Hs3).
    + intros f b H0 H1 H2. rewrite (st_flag _ _ _ _ _ _ _ Hs3). by apply Hsame; auto.
Qed.

(** [replace] expects a new item without MM flags. *)
Definition flags_clear a : Prop := ∀ f, f = kMMFlag0 ∨ f = kMMFlag1 ∨ f = kMMFlag2 → flag f h a = false.

(** The flags of the queue [t] written by [replace]. *)
Definition mark_type t a : Store → result Store := λ h0,
  match t with
  | Hot => markHot a h0
  | ColdTail => h1 ← markTail (config_ c) a h0; markCold a h1
  | Cold => markCold a h0
  | WarmTail => markTail (config_ c) a h0
  | Warm => Ok h0
  end.
Lemma mark_type_spec t a h1 ls1 q1 : is_Some (payload h a) → flags_clear a → (is_tail t = true → 0 < tailSize (config_ c)) →
  st (λ a, is_Some (payload h a)) h1 ls1 q1 (linked h) (λ f, flag f h) (time h) →
  ∃ h2 fl, mark_type t a h1 = Ok h2 ∧
    st (λ a, is_Some (payload h a)) h2 ls1 q1 (linked h) fl (time h) ∧
    (∀ f b, b ≠ a → fl f b = flag f h b) ∧ (∀ f, f ≠ kMMFlag0 → f ≠ kMMFlag1 → f ≠ kMMFlag2 → fl f a = flag f h a) ∧
    fl kMMFlag0 a = is_hot t ∧ fl kMMFlag1 a = is_tail t ∧ fl kMMFlag2 a = is_cold t.
Proof.
  intros Ha Hcl Htl Hs. assert (flag kMMFlag0 h a = false ∧ flag kMMFlag1 h a = false ∧ flag kMMFlag2 h a = false) as
    (H0 & H1 & H2) by (split_and!; apply Hcl; auto).
  unfold mark_type, markHot, markTail, markCold. destruct t; cbn [is_tail] in Htl;
    try (rewrite (proj2 (Z.ltb_lt _ _)) by auto; res_simpl).
  - by exists h1, (λ f, flag f h).
  - destruct (st_mark Hs kMMFlag1 true a Ha) as (h2 & Heq & Hs2). exists h2, (setf kMMFlag1 a true (λ f, flag f h)).
    split; [done|]. split; [done|]. split; [intros; by rewrite setf_other|]. split; [intros; by rewrite setf_ne|].
    by rewrite setf_eq, !setf_ne.
  - destruct (st_mark Hs kMMFlag0 true a Ha) as (h2 & Heq & Hs2). exists h2, (setf kMMFlag0 a true (λ f, flag f h)).
    split; [done|]. split; [done|]. split; [intros; by rewrite setf_other|]. split; [intros; by rewrite setf_ne|].
    by rewrite setf_eq, !setf_ne.
  - destruct (st_mark Hs kMMFlag2 true a Ha) as (h2 & Heq & Hs2). exists h2, (setf kMMFlag2 a true (λ f, flag f h)).
    split; [done|]. split; [done|]. split; [intros; by rewrite setf_other|]. split; [intros; by rewrite setf_ne|].
    by rewrite setf_eq, !setf_ne.
  - destruct (st_mark Hs kMMFlag1 true a Ha) as (h2 & Heq & Hs2). rewrite Heq. res_simpl.
    destruct (st_mark Hs2 kMMFlag2 true a Ha) as (h3 & Heq3 & Hs3).
    exists h3, (setf kMMFlag2 a true (setf kMMFlag1 a true (λ f, flag f h))).
    split; [done|]. split; [done|]. split; [intros; by rewrite !setf_other|]. split; [intros; by rewrite !setf_ne|].
    by rewrite setf_eq, (setf_ne kMMFlag2 kMMFlag0), (setf_ne kMMFlag2 kMMFlag1), setf_eq, setf_ne.
Qed.

Lemma queued_insert t i a n b : qget q t !! i = Some a → ¬ queued q n →
  queued (qset t (<[i := n]> (qget q t)) q) b ↔ b = n ∨ (queued q b ∧ b ≠ a).
Proof.
  intros Hi Hn. pose proof (st_rep _ _ _ _ _ _ _ wf_st) as Hm. destruct (mr_list h _ q t Hm) as (l & _ & Hd).
  pose proof (list_elem_of_lookup_2 _ _ _ Hi) as Hin. unfold queued. split.
  - intros [u Hu]. rewrite qget_qset in Hu. case_decide as Hut.
    + subst. rewrite (elem_of_list_insert _ i a n) in Hu; [|apply Hd|done].
      destruct Hu as [->|[Hu Hne]]; [by left|right; split; [eexists; exact Hu|done]].
    + right. split; [by exists u|]. intros ->. by pose proof (mr_disj _ _ _ Hm _ _ _ Hin Hu).
  - assert (∀ x, x = n ∨ (x ∈ qget q t ∧ x ≠ a) → x ∈ <[i:=n]> (qget q t)) as Hx.
    { intros x Hx. rewrite (elem_of_list_insert _ i a n); [done|apply Hd|done]. }
    intros [->|[[u Hu] Hne]]; [exists t; rewrite qget_qset, decide_True by done; apply Hx; by left|].
    exists u. rewrite qget_qset. case_decide as Hut; [subst; apply Hx; by right|done].
Qed.

Lemma mm2q_replace_aux t i a n : qget q t !! i = Some a → is_Some (payload h n) → linked h n = false → flags_clear n →
  ∃ ls' h', replaceNode a n (c, h) = Ok (true, (with_lru ls' c, h')) ∧
    mm2q_wf h' (with_lru ls' c) (qset t (<[i := n]> (qget q t)) q) ∧
    time h' n = time h a ∧ linked h' a = false ∧ keeps n h'.
Proof.
  intros Hi Hal Hln Hcl. pose proof wf_st as Hs. pose proof (list_elem_of_lookup_2 _ _ _ Hi) as Hin.
  pose proof (st_queued_alive Hs t a Hin) as Ha. pose proof (unlinked_not_queued n Hln) as Hn.
  assert (linked h a = true) as Hla by (apply (w_linked _ _ _ Hwf); by exists t).
  assert (n ≠ a) as Hna by (intros ->; congruence).
  unfold replaceNode. rewrite (st_testLinked Hs a Ha), Hla. res_simpl. rewrite (st_testLinked Hs n Hal), Hln. res_simpl.
  rewrite (st_getTime Hs a Ha). res_simpl. rewrite (getLruType_spec h c q t a Hwf Hin). res_simpl.
  destruct (st_replace Hs t i a n Hi Hal Hn) as (ls1 & h1 & -> & Hs1). res_simpl. fold (mark_type t n h1).
  destruct (mark_type_spec t n h1 ls1 (qset t (<[i := n]> (qget q t)) q) Hal Hcl)
    as (h2 & fl2 & -> & Hs2 & Hoth & Hothf & Hfl); [|done|].
  { intros Htl. destruct (Z.eq_dec (tailSize (config_ c)) 0) as [Hz|Hz];
      [|pose proof (so_tail _ (w_cfg _ _ _ Hwf)) as Hf; unfold fits in Hf; lia].
    destruct (w_tail _ _ _ Hwf Hz) as [Hw Hcd]. destruct t; cbn in *; try done; [rewrite Hw in Hin|rewrite Hcd in Hin]; set_solver. }
  res_simpl. destruct (st_mark_linked Hs2 false a Ha) as (h3 & -> & Hs3). res_simpl.
  destruct (st_mark_linked Hs3 true n Hal) as (h4 & -> & Hs4). res_simpl.
  destruct (st_setTime Hs4 n (time h a) Hal) as (h5 & -> & Hs5). res_simpl.
  exists ls1, h5. split; [done|].
  assert (fl_ok (qset t (<[i := n]> (qget q t)) q) fl2) as Hok.
  { intros u b Hb. destruct (decide (b = n)) as [->|Hbn].
    - assert (u = t) as ->; [|done]. rewrite qget_qset in Hb. case_decide; [done|]. exfalso. apply Hn. by exists u.
    - rewrite !Hoth by done. apply wf_fl. rewrite qget_qset in Hb. case_decide; [subst|done].
      pose proof (st_rep _ _ _ _ _ _ _ Hs) as Hm. destruct (mr_list h _ q u Hm) as (l & _ & Hd).
      rewrite (elem_of_list_insert _ i a n) in Hb; [|apply Hd|done]. by destruct Hb as [->|[Hb _]]. }
  split; [|split; [|split; [|split; [|split]]]].
  - eapply (wf_intro _ h5 _ ls1 _ _ _ _ c Hs5 Hok); try done; try apply Hwf.
    + intros b. rewrite (queued_insert t i a n b Hi Hn), <- (w_linked _ _ _ Hwf b). unfold set.
      case_decide; [naive_solver|]. case_decide; naive_solver.
    + intros Ht. destruct (w_tail _ _ _ Hwf Ht) as [Hw Hcd]. destruct t; cbn in *; by rewrite ?Hw, ?Hcd.
  - rewrite (st_time _ _ _ _ _ _ _ Hs5). unfold set. by rewrite decide_True.
  - rewrite (st_linked _ _ _ _ _ _ _ Hs5). unfold set. by rewrite decide_False, decide_True.
  - apply (st_alive _ _ _ _ _ _ _ Hs5).
  - intros b Hb. rewrite (st_time _ _ _ _ _ _ _ Hs5). unfold set. by rewrite decide_False.
  - intros f b H0 H1 H2. rewrite (st_flag _ _ _ _ _ _ _ Hs5). destruct (decide (b = n)) as [->|]; auto.
Qed.

(** *** Ages *)

(** The items from the tail of queue [t] on, in eviction order. *)
Definition order t : list Z := reverse (concat (take (S (lru_index t)) (all_lists q))).
Definition age_at (now : Z) (p : option Z) : option Z := (λ a, u32 (u32 now - time h a)) <$> p.
Definition stat_of t (size : nat) (n now : Z) : EvictionStatPerType :=
  let oldest := default 0 (age_at now (order t !! 0%nat)) in
  mkEvictionStatPerType oldest (Z.of_nat size) (default oldest (age_at now (order t !! Z.to_nat n))).

Definition end_iter : MIterator := mkMIterator kInvalidIndex 0 rend_iter.
Lemma visits_end it L : visits (h := h) (ls := lru_ c) it L → miter_eq it end_iter = bool_decide (L = []).
Proof.
  destruct L as [|a L]; [by intros ->|]. intros (_ & Hc & _). unfold miter_eq, iter_eq. rewrite Hc.
  rewrite (bool_decide_eq_false_2 (Some a = _)), andb_false_r by done. done.
Qed.
Lemma order_visits t : ∃ it, mlist_rbegin_at (Z.of_nat (lru_index t)) (lru_ c) = Ok it ∧
  visits (h := h) (ls := lru_ c) it (order t).
Proof.
  pose proof (st_rep _ _ _ _ _ _ _ wf_st) as Hm. pose proof (mr_len _ _ _ Hm) as Hl. pose proof (lru_index_lt t).
  pose proof (mr_lists _ _ _ Hm) as Hr. eexists. split; [apply (rbegin_at_aux Hr); lia|].
  apply (visits_before Hr); lia.
Qed.
Lemma rend_end : mlist_rend (lru_ c) = Ok end_iter.
Proof.
  pose proof (st_rep _ _ _ _ _ _ _ wf_st) as Hm. pose proof (mr_len _ _ _ Hm) as Hl.
  apply (rend_aux (mr_lists _ _ _ Hm)); lia.
Qed.
Lemma order_alive t a : a ∈ order t → is_Some (payload h a).
Proof.
  intros Ha. assert (queued q a) as [u Hu]; [|by apply (st_queued_alive wf_st u)].
  apply queued_alt. unfold order in Ha. rewrite elem_of_reverse in Ha.
  destruct t; cbn [lru_index take all_lists concat] in Ha; rewrite ?elem_of_app, ?elem_of_nil in Ha; tauto.
Qed.

Lemma oldest_aux t now : getOldestAgeLocked t (u32 now) (lru_ c) h = Ok (default 0 (age_at now (order t !! 0%nat))).
Proof.
  unfold getOldestAgeLocked. destruct (order_visits t) as (it & -> & Hv). res_simpl. rewrite rend_end. res_simpl.
  rewrite (visits_end it _ Hv). destruct (order t) as [|a L] eqn:E; [done|].
  rewrite bool_decide_eq_false_2 by done. destruct Hv as (_ & -> & _). res_simpl.
  rewrite (st_getTime wf_st a); [done|]. apply (order_alive t). rewrite E. by left.
Qed.

Lemma walk_visits it L n fuel : visits (h := h) (ls := lru_ c) it L → 0 ≤ n → (length L ≤ fuel)%nat →
  ∃ it', walk fuel h (lru_ c) n it end_iter = Ok it' ∧ visits (h := h) (ls := lru_ c) it' (drop (Z.to_nat n) L).
Proof.
  revert it L n. induction fuel as [|fuel IH]; intros it L n Hv Hn Hf; cbn [walk]; rewrite (visits_end it L Hv);
    (destruct L as [|a L]; [exists it; rewrite bool_decide_eq_true_2, andb_false_r, drop_nil by done; done|]); [cbn in Hf; lia|].
  rewrite (bool_decide_eq_false_2 (a :: L = [])) by done. destruct (Z.ltb_spec 0 n) as [Hlt|Hge]; cbn [andb negb].
  - destruct Hv as (_ & _ & it' & -> & Hv'). res_simpl.
    destruct (IH it' L (n - 1) Hv') as (it2 & Heq & Hv2); [lia|cbn in Hf; lia|]. exists it2. split; [done|].
    by replace (Z.to_nat n) with (S (Z.to_nat (n - 1))) by lia.
  - replace (Z.to_nat n) with 0%nat by lia. by exists it.
Qed.

Lemma order_length t : (length (order t) ≤ total q)%nat.
Proof.
  unfold order. rewrite length_reverse, total_eq.
  destruct t; cbn [lru_index take all_lists concat]; rewrite !length_app; cbn [length]; lia.
Qed.

Lemma projected_aux t old now n : 0 ≤ n →
  getProjectedAge t old (u32 now) n (lru_ c) h = Ok (default old (age_at now (order t !! Z.to_nat n))).
Proof.
  intros Hn. unfold getProjectedAge. destruct (order_visits t) as (it & -> & Hv). res_simpl. rewrite rend_end. res_simpl.
  destruct (mr_size _ _ _ (st_rep _ _ _ _ _ _ _ wf_st)) as [Hsz _].
  destruct (walk_visits it (order t) n (mm_fuel (lru_ c)) Hv Hn) as (it' & -> & Hv').
  { unfold mm_fuel. rewrite Hsz, Nat2Z.id. apply order_length. }
  res_simpl. rewrite (visits_end it' _ Hv').
  assert (order t !! Z.to_nat n = drop (Z.to_nat n) (order t) !! 0%nat) as -> by (rewrite lookup_drop; f_equal; lia).
  destruct (drop (Z.to_nat n) (order t)) as [|a L] eqn:E; [done|].
  rewrite bool_decide_eq_false_2 by done. destruct Hv' as (_ & -> & _). res_simpl.
  rewrite (st_getTime wf_st a); [done|]. apply (order_alive t), (elem_of_split (Z.to_nat n)). right. rewrite E. by left.
Qed.

Lemma mm2q_age_aux n now : 0 ≤ n →
  getEvictionAgeStatLocked c n now h = Ok (mkEvictionAgeStat
    (stat_of WarmTail (length (q_warm q) + length (q_warmTail q)) n now) (stat_of Hot (length (q_hot q)) n now)
    (stat_of ColdTail (length (q_cold q) + length (q_coldTail q)) n now)).
Proof.
  intros Hn. unfold getEvictionAgeStatLocked. cbv zeta.
  destruct (st_get wf_st Hot) as (l1 & -> & _ & H1 & B1). destruct (st_get wf_st Warm) as (l2 & -> & _ & H2 & B2).
  destruct (st_get wf_st WarmTail) as (l3 & -> & _ & H3 & B3). destruct (st_get wf_st Cold) as (l4 & -> & _ & H4 & B4).
  destruct (st_get wf_st ColdTail) as (l5 & -> & _ & H5 & B5). cbn [qget] in *. res_simpl.
  rewrite !oldest_aux. res_simpl. rewrite !projected_aux by done. res_simpl.
  rewrite !(wrap_small 64) by (unfold fits; lia). rewrite H1, H2, H3, H4, H5. unfold stat_of.
  rewrite !Nat2Z.inj_add. by rewrite (Z.add_comm (Z.of_nat (length (q_coldTail q)))).
Qed.

Definition ratio_ok (cfg : Config) : Prop := scale_ok (lruRefreshRatio cfg).
Lemma mm2q_reconfigure_aux curr now : ratio_ok (config_ c) →
  ∃ next refresh, reconfigureLocked curr now c h = Ok (with_times next refresh c).
Proof.
  intros Hr. unfold reconfigureLocked. destruct (_ <? _); [exists (nextReconfigureTime_ c), (lruRefreshTime_ c); by destruct c|].
  rewrite mm2q_age_aux by done. res_simpl. cbn [warmQueueStat oldestElementAge stat_of].
  destruct (Hr (default 0 (age_at now (order WarmTail !! 0%nat)))) as [r ->]; [|res_simpl; by eexists _, _].
  destruct (order WarmTail !! 0%nat); [by apply wrap_fits|done].
Qed.

(** *** Promotion: Hot stays hot, everything else becomes warm. *)
Definition promote t (i : nat) a : Qs :=
  let q1 := qset t (delete i (qget q t)) q in
  let t' := if is_hot t then Hot else Warm in qset t' (a :: qget q1 t') q1.
Lemma promote_same t i a : t = Hot ∨ t = Warm → promote t i a = qset t (a :: delete i (qget q t)) q.
Proof. intros [-> | ->]; unfold promote; cbn [is_hot]; by rewrite qget_qset, decide_True, qset_qset. Qed.
Lemma promote_queued t i a b : qget q t !! i = Some a → queued (promote t i a) b ↔ queued q b.
Proof.
  intros Hi. unfold promote. rewrite queued_link, (queued_delete _ _ _ _ _ _ _ t i a b wf_st Hi).
  assert (queued q a) by (exists t; by apply list_elem_of_lookup_2 in Hi). destruct (decide (b = a)); naive_solver.
Qed.
Lemma promote_fl t i a fl : qget q t !! i = Some a → (∀ f b, b ≠ a → fl f b = flag f h b) →
  fl kMMFlag0 a = is_hot t ∧ fl kMMFlag1 a = false ∧ fl kMMFlag2 a = false → fl_ok (promote t i a) fl.
Proof.
  intros Hi Hsame Ha. unfold promote. set (q1 := qset t _ q). apply (fl_ok_link q1 _ a (λ f, flag f h)).
  - apply (fl_ok_sub q); [apply wf_fl|]. intros u b. unfold q1. rewrite qget_qset. case_decide; [subst|done]. apply delete_elem.
  - unfold q1. rewrite (queued_delete _ _ _ _ _ _ _ t i a a wf_st Hi). naive_solver.
  - done.
  - by destruct (is_hot t).
Qed.
Lemma promote_tail t i a : qget q t !! i = Some a → tailSize (config_ c) = 0 →
  q_warmTail (promote t i a) = [] ∧ q_coldTail (promote t i a) = [].
Proof.
  intros Hi Hz. destruct (w_tail _ _ _ Hwf Hz) as [Hw Hc]. unfold promote. destruct t; cbn in *; by rewrite ?Hw, ?Hc.
Qed.
Lemma inTail_spec t a h1 ls1 q1 lk tm : a ∈ qget q t → is_Some (payload h a) →
  st (λ a, is_Some (payload h a)) h1 ls1 q1 lk (λ f, flag f h) tm → inTail (config_ c) h1 a = Ok (is_tail t).
Proof.
  intros Ha Hal Hs. destruct (wf_fl t a Ha) as (_ & H1 & _). unfold inTail.
  destruct (Z.eqb_spec (tailSize (config_ c)) 0) as [Hz|Hz]; [|rewrite (st_testFlag Hs kMMFlag1 a Hal); cbv beta; by rewrite H1].
  destruct (w_tail _ _ _ Hwf Hz) as [Hw Hc]. destruct t; cbn in *; try done; [rewrite Hw in Ha|rewrite Hc in Ha]; set_solver.
Qed.

(** Taking an item out of Cold, ColdTail or WarmTail (clearing the tail flag
    first) and linking it at the head of Warm. *)
Lemma to_warm t i a : qget q t !! i = Some a → t ≠ Warm → is_hot t = false →
  ∃ ls1 h1 ls2 h2 fl2, (if is_tail t then h ← unmarkTail a h; on_list t (remove a) (lru_ c, h)
      else on_list t (remove a) (lru_ c, h)) = Ok (ls1, h1) ∧
    on_list Warm (linkAtHead a) (ls1, h1) = Ok (ls2, h2) ∧
    st (λ a, is_Some (payload h a)) h2 ls2 (promote t i a) (linked h) fl2 (time h) ∧
    fl2 = (if is_tail t then setf kMMFlag1 a false (λ f, flag f h) else λ f, flag f h).
Proof.
  intros Hi Hne Hh. pose proof wf_st as Hs. pose proof (list_elem_of_lookup_2 _ _ _ Hi) as Hin.
  pose proof (st_queued_alive Hs t a Hin) as Hal.
  assert (∀ h0 fl, st (λ a, is_Some (payload h a)) h0 (lru_ c) q (linked h) fl (time h) → ∃ ls1 h1 ls2 h2,
    on_list t (remove a) (lru_ c, h0) = Ok (ls1, h1) ∧ on_list Warm (linkAtHead a) (ls1, h1) = Ok (ls2, h2) ∧
    st (λ a, is_Some (payload h a)) h2 ls2 (promote t i a) (linked h) fl (time h)) as Hmv.
  { intros h0 fl Hs0. destruct (st_remove Hs0 t i a Hi) as (ls1 & h1 & Heq1 & Hs1).
    destruct (st_link Hs1 Warm a Hal) as (ls2 & h2 & Heq2 & Hs2).
    { rewrite (queued_delete _ _ _ _ _ _ _ t i a a Hs Hi). naive_solver. }
    exists ls1, h1, ls2, h2. split; [done|]. split; [done|]. unfold promote. by rewrite Hh. }
  destruct (is_tail t).
  - destruct (st_mark Hs kMMFlag1 false a Hal) as (h0 & Heq0 & Hs0). unfold unmarkTail. rewrite Heq0. res_simpl.
    destruct (Hmv h0 _ Hs0) as (ls1 & h1 & ls2 & h2 & H1 & H2 & H3). by exists ls1, h1, ls2, h2, (setf kMMFlag1 a false (λ f, flag f h)).
  - destruct (Hmv h _ Hs) as (ls1 & h1 & ls2 & h2 & H1 & H2 & H3). by exists ls1, h1, ls2, h2, (λ f, flag f h).
Qed.

(** Where an accessed item ends up. *)
Definition accessed t i a : Qs :=
  if is_cold t && rebalanceOnRecordAccess (config_ c) then rebalance_q (config_ c) (promote t i a) else promote t i a.

Lemma accessQueues_aux t i a : qget q t !! i = Some a →
  ∃ ls' h' fl', accessQueues (config_ c) a (lru_ c, h) = Ok (t, (ls', h')) ∧
    st (λ a, is_Some (payload h a)) h' ls' (accessed t i a) (linked h) fl' (time h) ∧ fl_ok (accessed t i a) fl' ∧
    ∀ f b, f ≠ kMMFlag0 → f ≠ kMMFlag1 → f ≠ kMMFlag2 → fl' f b = flag f h b.
Proof.
  intros Hi. pose proof wf_st as Hs. pose proof (list_elem_of_lookup_2 _ _ _ Hi) as Hin.
  pose proof (st_queued_alive Hs t a Hin) as Hal. destruct (wf_fl t a Hin) as (H0 & H1 & H2). cbv beta in H0, H1, H2.
  unfold accessQueues, isHot, isCold. rewrite (st_testFlag Hs kMMFlag0 a Hal). cbv beta. rewrite H0. res_simpl.
  assert (t = Hot ∨ t = Warm → ∃ ls' h', on_list t (moveToHead a) (lru_ c, h) = Ok (ls', h') ∧
    st (λ a, is_Some (payload h a)) h' ls' (promote t i a) (linked h) (λ f, flag f h) (time h) ∧
    fl_ok (promote t i a) (λ f, flag f h)) as Hmv.
  { intros Ht. destruct (st_move Hs t i a Hi) as (ls' & h' & Heq & Hs'). exists ls', h'. rewrite promote_same by done.
    split; [done|]. split; [done|]. rewrite <- promote_same by done. apply promote_fl; [done|done|].
    by destruct Ht as [-> | ->]. }
  unfold accessed. destruct (is_hot t) eqn:Eh.
  { assert (t = Hot) as -> by by destruct t. destruct Hmv as (ls' & h' & -> & Hs' & Hok); [by left|]. by exists ls', h', (λ f, flag f h). }
  rewrite (st_testFlag Hs kMMFlag2 a Hal). cbv beta. rewrite H2. res_simpl.
  rewrite (inTail_spec t a h (lru_ c) q _ _ Hin Hal Hs). res_simpl.
  destruct (decide (t = Warm)) as [->|Hne].
  { destruct Hmv as (ls' & h' & Heq & Hs' & Hok); [by right|]. cbn [is_cold is_tail]. rewrite Heq. res_simpl.
    by exists ls', h', (λ f, flag f h). }
  destruct (to_warm t i a Hi Hne Eh) as (ls1 & h1 & ls2 & h2 & fl2 & Heq1 & Heq2 & Hs2 & Hfl2).
  assert (∀ f b, b ≠ a → fl2 f b = flag f h b) as Hoth by (intros f b Hb; subst fl2; destruct (is_tail t); [by rewrite setf_other|done]).
  assert (∀ f, f ≠ kMMFlag1 → fl2 f a = flag f h a) as Hf by (intros f Hf; subst fl2; destruct (is_tail t); [by rewrite setf_ne|done]).
  assert (fl2 kMMFlag1 a = false) as Hf1 by (subst fl2; destruct (is_tail t); [by rewrite setf_eq|done]).
  assert (∀ f b, f ≠ kMMFlag0 → f ≠ kMMFlag1 → f ≠ kMMFlag2 → fl2 f b = flag f h b) as Hrest.
  { intros f b ???. destruct (decide (b = a)) as [->|]; auto. }
  destruct (is_cold t) eqn:Ec; cbn [andb].
  - assert ((if is_tail t then h0 ← unmarkTail a h; on_list ColdTail (remove a) (lru_ c, h0)
      else on_list Cold (remove a) (lru_ c, h)) = Ok (ls1, h1)) as -> by by destruct t.
    res_simpl. rewrite Heq2. res_simpl. destruct (st_mark Hs2 kMMFlag2 false a Hal) as (h3 & Heq3 & Hs3).
    unfold unmarkCold. rewrite Heq3. res_simpl. set (fl3 := setf kMMFlag2 a false fl2) in *.
    assert (fl_ok (promote t i a) fl3) as Hok3.
    { apply promote_fl; [done|intros; unfold fl3; rewrite setf_other by done; auto|]. unfold fl3.
      rewrite setf_eq, !setf_ne by done. by rewrite Hf1, Hf, H0. }
    assert (∀ f b, f ≠ kMMFlag0 → f ≠ kMMFlag1 → f ≠ kMMFlag2 → fl3 f b = flag f h b) as Hrest3
      by (intros; unfold fl3; rewrite setf_ne by done; auto).
    replace (if is_tail t then ColdTail else Cold) with t by (by destruct t).
    destruct (rebalanceOnRecordAccess (config_ c)); [|by exists ls2, h3, fl3].
    destruct (rebalance_aux _ _ _ _ _ _ _ (config_ c) Hs3 Hok3 (w_cfg _ _ _ Hwf)) as (ls4 & h4 & fl4 & -> & Hs4 & Hok4 & Hsame).
    exists ls4, h4, fl4. split; [done|]. split; [done|]. split; [done|]. intros. rewrite Hsame by auto. auto.
  - assert (t = WarmTail) as -> by by destruct t. cbn [is_tail] in *. rewrite Heq1. res_simpl. rewrite Heq2. res_simpl.
    exists ls2, h2, fl2. split; [done|]. split; [done|]. split; [|done]. apply promote_fl; [done|done|].
    by rewrite Hf1, !Hf, H0, H2.
Qed.

Lemma mm2q_func_aux t i a curr now : ratio_ok (config_ c) → qget q t !! i = Some a →
  ∃ c' h', recordAccess_func a curr now (c, h) = Ok (true, (c', h')) ∧ mm2q_wf h' c' (accessed t i a) ∧
    same_config c c' ∧ time h' a = curr ∧ keeps a h' ∧
    (numHotAccesses_ c', numColdAccesses_ c', numWarmAccesses_ c', numWarmTailAccesses_ c', numColdTailAccesses_ c') =
    (numHotAccesses_ (count_access t c), numColdAccesses_ (count_access t c), numWarmAccesses_ (count_access t c),
     numWarmTailAccesses_ (count_access t c), numColdTailAccesses_ (count_access t c)).
Proof.
  intros Hr Hi. pose proof wf_st as Hs. pose proof (list_elem_of_lookup_2 _ _ _ Hi) as Hin.
  pose proof (st_queued_alive Hs t a Hin) as Hal. unfold recordAccess_func.
  destruct (mm2q_reconfigure_aux curr now Hr) as (nx & rf & ->). res_simpl.
  rewrite (st_testLinked Hs a Hal), (proj2 (w_linked _ _ _ Hwf a)) by by exists t. cbn [negb].
  change (config_ (with_times nx rf c)) with (config_ c). change (lru_ (with_times nx rf c)) with (lru_ c).
  destruct (accessQueues_aux t i a Hi) as (ls1 & h1 & fl1 & -> & Hs1 & Hok1 & Hrest). res_simpl.
  destruct (st_setTime Hs1 a curr Hal) as (h2 & -> & Hs2). res_simpl. eexists _, h2. split; [done|].
  split; [|split; [done|split; [|split; [|done]]]].
  - eapply (wf_intro _ h2 _ ls1 _ _ _ _ c Hs2 Hok1); try done; try apply Hwf.
    + intros b. unfold accessed. rewrite (w_linked _ _ _ Hwf b). destruct (_ && _);
        rewrite ?rebalance_queued; by rewrite promote_queued.
    + intros Hz. pose proof (promote_tail t i a Hi Hz). unfold accessed. destruct (_ && _); [by apply rebalance_tail|done].
  - rewrite (st_time _ _ _ _ _ _ _ Hs2). unfold set. by rewrite decide_True.
  - split; [|split].
    + apply (st_alive _ _ _ _ _ _ _ Hs2).
    + intros b Hb. rewrite (st_time _ _ _ _ _ _ _ Hs2). unfold set. by rewrite decide_False.
    + intros f b ???. rewrite (st_flag _ _ _ _ _ _ _ Hs2). auto.
Qed.

(** *** Eviction through the iterator *)
Lemma type_of_index j : (j < 5)%nat → ∃ t, lru_index t = j.
Proof. intros Hj. destruct j as [|[|[|[|[|]]]]]; [by exists Warm|by exists WarmTail|by exists Hot|by exists Cold|by exists ColdTail|lia]. Qed.

Lemma concat_pop (xss : list (list Z)) k j ys (a : Z) : top (xss := xss) k = Some j → (length xss ≤ k)%nat →
  xss !! j = Some (ys ++ [a]) → concat xss = concat (<[j := ys]> xss) ++ [a].
Proof.
  intros Ht Hk Hj. pose proof (top_above _ _ _ Ht) as Hab. pose proof (lookup_lt_Some _ _ _ Hj) as Hlt.
  assert (concat (drop (S j) xss) = []) as Hnil.
  { apply concat_nil_Forall, Forall_lookup. intros i xs Hi. rewrite lookup_drop in Hi.
    pose proof (lookup_lt_Some _ _ _ Hi). destruct (Hab (S j + i)%nat) as [Hx|Hx]; [lia|..]; rewrite Hx in Hi; by simplify_eq. }
  rewrite insert_take_drop by done. rewrite <- (take_drop_middle xss j _ Hj) at 1. rewrite !concat_app. cbn [concat].
  by rewrite Hnil, !app_nil_r, app_assoc.
Qed.

Lemma evict_aux a0 : queued q a0 → ∃ it a it' ls' h' q',
  mlist_rbegin (lru_ c) = Ok it ∧ curr_ (currIter_ it) = Some a ∧
  removeIterator it (c, h) = Ok (it', (with_lru ls' c, h')) ∧ mm2q_wf h' (with_lru ls' c) q' ∧
  concat (all_lists q) = concat (all_lists q') ++ [a] ∧ linked h' a = false ∧ mlist_rbegin ls' = Ok it'.
Proof.
  intros Hq. pose proof (st_rep _ _ _ _ _ _ _ wf_st) as Hm. pose proof (mr_lists _ _ _ Hm) as Hr.
  pose proof (mr_len _ _ _ Hm) as Hl.
  destruct (top (xss := all_lists q) 5) as [j|] eqn:Et.
  2:{ destruct Hq as [t Ht]. rewrite (top_none _ _ Et _ _ (lru_index_lt t) (all_lists_lookup q t)) in Ht. set_solver. }
  pose proof (top_some _ _ Et) as (Hj & x & xs & Hx). destruct (type_of_index j Hj) as [t Htj]. subst j.
  rewrite all_lists_lookup in Hx. injection Hx as Hx. destruct (snoc_case (qget q t)) as [Hn|(ys & a & Hya & Hla)]; [by rewrite Hn in Hx|].
  assert (qget q t !! length ys = Some a) as Hi by (rewrite Hya, lookup_app_r, Nat.sub_diag by done; done).
  assert (all_lists q !! lru_index t = Some (ys ++ [a])) as Hxt by by rewrite all_lists_lookup, Hya.
  assert (it_before (xss := all_lists q) 5 = it_at (xss := all_lists q) (lru_index t) (length ys)) as Hit.
  { unfold it_before, it_at. rewrite Et, Hxt. cbn [mbind option_bind]. by rewrite last_snoc, lookup_app_r, Nat.sub_diag. }
  destruct (mm2q_removeLocked_aux t (length ys) a false Hi) as (ls' & h' & Heq & Hwf' & Hlk & _).
  rewrite Hya, delete_snoc in Hwf'.
  exists (it_at (xss := all_lists q) (lru_index t) (length ys)), a, (it_before (xss := all_lists (qset t ys q)) 5), ls', h', (qset t ys q).
  pose proof (lru_index_lt t) as Hlt.
  split; [rewrite <- Hit, <- Hl; apply (rbegin_aux Hr); lia|]. split; [cbn; rewrite Hxt; cbn; by rewrite lookup_app_r, Nat.sub_diag|].
  split.
  - unfold removeIterator. cbn [currIter_ curr_ it_at fst snd]. rewrite Hxt. cbn [mbind option_bind].
    rewrite lookup_app_r, Nat.sub_diag by done. cbn [lookup list_lookup]. res_simpl.
    pose proof (list_elem_of_lookup_2 _ _ _ Hi) as Hin. rewrite (st_testLinked wf_st a) by apply (st_queued_alive wf_st t a Hin).
    rewrite (proj2 (w_linked _ _ _ Hwf a)) by by exists t. res_simpl.
    pose proof (incr_at Hr ltac:(lia) (lru_index t) (length ys) (ys ++ [a]) ltac:(lia) Hxt) as Hinc.
    rewrite Hinc by (rewrite length_app; cbn; lia). res_simpl. rewrite Heq. res_simpl.
    rewrite all_lists_qset, (pop_before _ 5 _ ys a Et Hxt). done.
  - split; [done|]. split; [rewrite all_lists_qset; by apply (concat_pop _ 5)|]. split; [done|].
    pose proof (st_rep _ _ _ _ _ _ _ (proj1 (w_view _ _ _ Hwf'))) as Hm'. cbn [lru_ with_lru] in Hm'.
    pose proof (mr_len _ _ _ Hm') as Hl'. rewrite <- Hl'. apply (rbegin_aux (mr_lists _ _ _ Hm')); lia.
Qed.
End operation_specs.
End representation.

(** ** Runs *)
Inductive mm2q_op :=
  | QAdd (a now : Z)
  | QRemove (a : Z)
  | QEvict
  | QReplace (a n : Z)
  | QRecordAccess (a : Z) (mode : AccessMode) (now : Z) (lockFree : bool)
  | QSetConfig (cfg : Config) (now : Z).

Section runs.
Context `{PtrCompressor}.
Implicit Types (h : Store) (c : Container) (q : Qs).

(** One call; [QEvict] removes the first eviction candidate, if any. *)
Definition run_mm2q_op (op : mm2q_op) (s : Container * Store) : result (Container * Store) :=
  match op with
  | QAdd a now => '(_, s) ← add a now s; Ok s
  | QRemove a => '(_, s) ← removeNode a s; Ok s
  | QEvict => it ← mlist_rbegin (lru_ (fst s));
              if miter_valid (lru_ (fst s)) it then '(_, s) ← removeIterator it s; Ok s else Ok s
  | QReplace a n => '(_, s) ← replaceNode a n s; Ok s
  | QRecordAccess a mode now lockFree => '(_, s) ← recordAccess a mode now lockFree s; Ok s
  | QSetConfig cfg now => c ← setConfig cfg now (fst s); Ok (c, snd s)
  end.
(** Calls are made on allocated items, configurations are valid, and the item
    [replace] puts in has none of the flags of the queues. *)
Definition mm2q_op_ok h (op : mm2q_op) : Prop :=
  match op with
  | QAdd a _ | QRemove a | QRecordAccess a _ _ _ => is_Some (payload h a)
  | QEvict => True
  | QReplace a n => is_Some (payload h a) ∧ is_Some (payload h n) ∧ flags_clear (h := h) n
  | QSetConfig cfg _ => sizes_ok cfg ∧ ratio_ok cfg
  end.
Inductive mm2q_reach (h0 : Store) (cfg : Config) (now : Z) : Container → Store → Prop :=
  | reach_new : mm2q_reach h0 cfg now (Container_new cfg now) h0
  | reach_step c h op c' h' : mm2q_reach h0 cfg now c h → mm2q_op_ok h op →
      run_mm2q_op op (c, h) = Ok (c', h') → mm2q_reach h0 cfg now c' h'.

Lemma Container_new_wf2q h cfg now : fresh_items h → sizes_ok cfg → mm2q_wf h (Container_new cfg now) q_empty.
Proof.
  intros [Hw Hf] Hc. assert (∀ a, ¬ queued q_empty a) as Hq by (intros a [[] Ha]; set_solver). split; try done.
  - split; [by apply (fresh_qst h 5)|intros [] a Ha; cbn in Ha; set_solver].
  - intros a. split; [|intros Hx; by apply Hq in Hx]. intros Hl. exfalso.
    assert (is_Some (payload h a)) as (_ & Hl' & _)%Hf; [|congruence].
    unfold linked in Hl. destruct (payload h a); [done|done].
Qed.

Lemma linked_queued h c q a : mm2q_wf h c q → linked h a = true → ∃ t i, qget q t !! i = Some a.
Proof.
  intros Hwf Hl. apply (w_linked _ _ _ Hwf) in Hl as [t Ht]. apply list_elem_of_lookup in Ht as [i Hi]. by exists t, i.
Qed.

Lemma mm2q_setConfig_wf h c q cfg now : mm2q_wf h c q → sizes_ok cfg →
  (∃ c', setConfig cfg now c = Ok c' ∧ mm2q_wf h c' q ∧ config_ c' = cfg) ∨ setConfig cfg now c = Throw InvalidArgument.
Proof.
  intros Hwf Hc. unfold setConfig. pose proof (so_tail _ Hc) as Hf. pose proof (so_tail _ (w_cfg _ _ _ Hwf)) as Hf0.
  pose proof (w_track _ _ _ Hwf) as Ht. unfold fits in *.
  destruct (tailTrackingEnabled_ c); cbn [negb andb]; symmetry in Ht; [apply Z.ltb_lt in Ht|apply Z.ltb_ge in Ht].
  - destruct (Z.eqb_spec (tailSize cfg) 0) as [|Hz]; [by right|left]. eexists. split; [done|]. split; [|done].
    split; cbn [lru_ config_ tailTrackingEnabled_]; try done; try apply Hwf. symmetry. apply Z.ltb_lt. lia.
  - destruct (Z.ltb_spec 0 (tailSize cfg)) as [|Hz]; [by right|left]. eexists. split; [done|]. split; [|done].
    split; cbn [lru_ config_ tailTrackingEnabled_]; try done; try apply Hwf.
    + symmetry. apply Z.ltb_ge. lia.
    + intros _. apply (w_tail _ _ _ Hwf). lia.
Qed.

Lemma mm2q_record_wf h c q a mode now lockFree : mm2q_wf h c q → ratio_ok (config_ c) → is_Some (payload h a) →
  ∃ b c' h', recordAccess a mode now lockFree (c, h) = Ok (b, (c', h')) ∧
    (if b : bool then ∃ t i, qget q t !! i = Some a ∧ mm2q_wf h' c' (accessed (c := c) (q := q) t i a) ∧ same_config c c' ∧
       time h' a = u32 now ∧ keeps (h := h) a h'
     else c' = c ∧ h' = h) ∧
    b = (match mode with kWrite => updateOnWrite (config_ c) | kRead => updateOnRead (config_ c) end &&
         linked h a && (u32 (time h a + lruRefreshTime_ c) <=? u32 now) && (negb (tryLockUpdate (config_ c)) || lockFree)).
Proof.
  intros Hwf Hr Ha. unfold recordAccess.
  set (upd := match mode with kWrite => updateOnWrite (config_ c) | kRead => updateOnRead (config_ c) end).
  assert (match mode with kWrite => negb (updateOnWrite (config_ c)) | kRead => negb (updateOnRead (config_ c)) end = negb upd) as ->
    by by destruct mode.
  destruct upd; cbn [negb andb]; [|by exists false, c, h].
  rewrite (st_testLinked (wf_st Hwf) a Ha). res_simpl. rewrite (st_getTime (wf_st Hwf) a Ha). res_simpl.
  destruct (linked h a) eqn:El; cbn [andb]; [|by exists false, c, h].
  destruct (_ <=? _); cbn [andb]; [|by exists false, c, h].
  destruct (tryLockUpdate (config_ c)); cbn [negb andb orb]; [destruct lockFree; cbn [negb]; [|by exists false, c, h]|];
    (destruct (linked_queued h c q a Hwf El) as (t & i & Hi);
     destruct (mm2q_func_aux Hwf t i a (u32 now) now Hr Hi) as (c' & h' & -> & Hwf' & Hsc & Htm & Hk & _);
     exists true, c', h'; split; [done|]; split; [|done]; by exists t, i).
Qed.

Lemma run_mm2q_wf h c q op : mm2q_wf h c q → ratio_ok (config_ c) → mm2q_op_ok h op →
  (∃ c' h' q', run_mm2q_op op (c, h) = Ok (c', h') ∧ mm2q_wf h' c' q' ∧ ratio_ok (config_ c')) ∨
  (∃ cfg now, op = QSetConfig cfg now ∧ run_mm2q_op op (c, h) = Throw InvalidArgument).
Proof.
  intros Hwf Hr Hop. destruct op as [a now|a| |a n|a mode now lf|cfg now]; cbn [run_mm2q_op mm2q_op_ok fst snd] in *.
  - left. destruct (linked h a) eqn:El.
    + unfold add. rewrite (st_testLinked (wf_st Hwf) a Hop), El. res_simpl. by exists c, h, q.
    + destruct (mm2q_add_aux Hwf a now Hop El) as (ls' & h' & -> & Hwf' & _). res_simpl. by eexists _, _, _.
  - left. unfold removeNode. cbn [snd]. rewrite (st_testLinked (wf_st Hwf) a Hop). res_simpl.
    destruct (linked h a) eqn:El; cbn [negb]; [|by exists c, h, q].
    destruct (linked_queued h c q a Hwf El) as (t & i & Hi).
    destruct (mm2q_removeLocked_aux Hwf t i a true Hi) as (ls' & h' & -> & Hwf' & _). res_simpl. by eexists _, _, _.
  - left. pose proof (st_rep _ _ _ _ _ _ _ (wf_st Hwf)) as Hm. pose proof (mr_len _ _ _ Hm) as Hl.
    pose proof (mr_lists _ _ _ Hm) as Hrp. pose proof (rbegin_aux Hrp ltac:(lia) ltac:(lia)) as Hrb.
    rewrite Hrb. res_simpl. destruct (miter_valid _ _) eqn:Ev; [|by exists c, h, q].
    unfold miter_valid, it_before in Ev. destruct (top (length (lru_ c))) as [j|] eqn:Et; [|cbn in Ev; by rewrite Hl in Ev].
    assert (∃ a, queued q a) as [a0 Ha0].
    { pose proof (top_some _ _ Et) as (Hj & x & xs & Hx). rewrite Hl in Hj. destruct (type_of_index j Hj) as [t <-].
      rewrite all_lists_lookup in Hx. exists x, t. injection Hx as ->. by left. }
    destruct (evict_aux Hwf a0 Ha0) as (it & a & it' & ls' & h' & q' & Hit & _ & Heq & Hwf' & _).
    rewrite Hrb in Hit. injection Hit as <-. rewrite Heq. res_simpl. by eexists _, _, _.
  - left. destruct Hop as (Ha & Hn & Hcl). destruct (linked h a) eqn:El.
    + destruct (linked h n) eqn:En.
      * unfold replaceNode. rewrite (st_testLinked (wf_st Hwf) a Ha), El. res_simpl.
        rewrite (st_testLinked (wf_st Hwf) n Hn), En. res_simpl. by exists c, h, q.
      * destruct (linked_queued h c q a Hwf El) as (t & i & Hi).
        destruct (mm2q_replace_aux Hwf t i a n Hi Hn En Hcl) as (ls' & h' & -> & Hwf' & _). res_simpl. by eexists _, _, _.
    + unfold replaceNode. rewrite (st_testLinked (wf_st Hwf) a Ha), El. res_simpl. by exists c, h, q.
  - left. destruct (mm2q_record_wf h c q a mode now lf Hwf Hr Hop) as (b & c' & h' & -> & Hcase & _). res_simpl.
    destruct b; [|destruct Hcase as [-> ->]; by exists c, h, q].
    destruct Hcase as (t & i & _ & Hwf' & [Hcf _] & _). exists c', h', (accessed (c := c) (q := q) t i a). by rewrite Hcf.
  - destruct Hop as [Hs Hr']. destruct (mm2q_setConfig_wf h c q cfg now Hwf Hs) as [(c' & -> & Hwf' & Hcf)| ->].
    + left. res_simpl. exists c', h, q. by rewrite Hcf.
    + right. by exists cfg, now.
Qed.

(** ** What rebalancing does, on the queues

    Warm and Hot keep their first items up to their share of the [n] items,
    the rest goes in front of Cold; then each tail queue is filled up from the
    end of its queue to [tailSize]. *)
Definition rebalanced (cfg : Config) q q' : Prop :=
  let n := total q in
  let ew := percent (100 - hotSizePercent cfg - coldSizePercent cfg) n in
  let eh := percent (hotSizePercent cfg) n in
  let ts := Z.to_nat (tailSize cfg) in
  q_warm q' ++ q_warmTail q' = take ew (q_warm q ++ q_warmTail q) ∧
  q_hot q' = take eh (q_hot q) ∧
  q_cold q' ++ q_coldTail q' =
    drop eh (q_hot q) ++ drop ew (q_warm q ++ q_warmTail q) ++ q_cold q ++ q_coldTail q ∧
  (q_warm q' = [] ∨ (ts ≤ length (q_warmTail q'))%nat) ∧ (q_cold q' = [] ∨ (ts ≤ length (q_coldTail q'))%nat) ∧
  (length (q_warmTail q') ≤ ts `max` length (q_warmTail q))%nat ∧
  (length (q_coldTail q') ≤ ts `max` length (q_coldTail q))%nat.

(** The split between a queue and its tail after filling the tail. *)
Lemma fill_split (xs ys : list Z) n : let k := (length xs - (n - length ys))%nat in
  take k xs ++ drop k xs ++ ys = xs ++ ys ∧
  (take k xs = [] ∨ (n ≤ length (drop k xs ++ ys))%nat) ∧ (length (drop k xs ++ ys) ≤ n `max` length ys)%nat.
Proof.
  intros k. subst k. rewrite app_assoc, take_drop, length_app, length_drop. split; [done|]. split; [|lia].
  destruct (decide (length xs ≤ n - length ys)%nat); [left|right; lia].
  by replace (length xs - (n - length ys))%nat with 0%nat by lia.
Qed.

Lemma rebalance_q_rebalanced cfg q : rebalanced cfg q (rebalance_q cfg q).
Proof.
  unfold rebalanced, rebalance_q. set (ew := percent (100 - _ - _) _). set (eh := percent _ _). set (ts := Z.to_nat _).
  destruct q as [w wt ht cd ct]. unfold shrink_warm, shrink_hot. cbn [q_warm q_warmTail q_hot q_cold q_coldTail].
  set (wt' := take (ew - length w) wt). set (cd' := drop eh ht ++ drop ew (w ++ wt) ++ cd).
  unfold fill_tail. cbn [qget qset q_warm q_warmTail q_hot q_cold q_coldTail]. simpl.
  destruct (fill_split (take ew w) wt' ts) as (H1 & H2 & H3). destruct (fill_split cd' ct ts) as (H4 & H5 & H6).
  split; [by rewrite H1, take_app|]. split; [done|]. split; [rewrite H4; unfold cd'; by rewrite <- !app_assoc|].
  split; [done|]. split; [done|]. split; [|done]. assert (length wt' ≤ length wt)%nat by (unfold wt'; rewrite length_take; lia). lia.
Qed.

(** ** Properties *)

(** C11: a 2Q container never reaches a null dereference, a failed [XDCHECK] or a
    runaway loop: from a new container over fresh items, after any calls of
    [add], [remove], eviction through the iterator, [replace] with replacements
    whose queue flags are clear, [recordAccess] and [setConfig] with valid
    configurations, the container is well formed (five disjoint lists; flags say
    which one an item is in; linked bit iff queued) and every further such call
    returns, except that [setConfig] may throw when it would turn tail tracking on
    or off.  For other replacements see [mm2q_replace_stale_flags]. *)
Theorem mm2q_reachable_safe h0 cfg now c h : fresh_items h0 → sizes_ok cfg → ratio_ok cfg →
  mm2q_reach h0 cfg now c h →
  (∃ q, mm2q_wf h c q) ∧
  ∀ op, mm2q_op_ok h op →
    (∃ c' h', run_mm2q_op op (c, h) = Ok (c', h')) ∨
    (∃ cfg' now', op = QSetConfig cfg' now' ∧ run_mm2q_op op (c, h) = Throw InvalidArgument).
Proof.
  intros Hf Hc Hr Hreach. assert (∃ q, mm2q_wf h c q ∧ ratio_ok (config_ c)) as (q & Hwf & Hrc).
  { induction Hreach as [|c h op c' h' _ (q & Hwf & Hrc) Hop Hrun]; [exists q_empty; split; [by apply Container_new_wf2q|done]|].
    destruct (run_mm2q_wf h c q op Hwf Hrc Hop) as [(c2 & h2 & q2 & Heq & Hwf2 & Hr2)|(cfg' & now' & _ & Heq)];
      rewrite Heq in Hrun; simplify_eq. by exists q2. }
  split; [by exists q|]. intros op Hop. destruct (run_mm2q_wf h c q op Hwf Hrc Hop) as [(c' & h' & q' & Heq & _)|Ht];
    [left; by exists c', h'|by right].
Qed.

(** C21: [rebalance] terminates and leaves exactly the queues [rebalanced]
    describes: shares respected, order kept, demoted items in front of Cold,
    tails filled; flags match the queues again.  Of an item nothing but its hooks
    and the three flags of the queues changes, neither its update time nor any other
    bit of its reference-count word, and an item in no queue keeps its flags too. *)
Theorem mm2q_rebalance_spec h ls q cfg : view h ls q → sizes_ok cfg →
  ∃ ls' h' q', rebalance cfg (ls, h) = Ok (ls', h') ∧ view h' ls' q' ∧ rebalanced cfg q q' ∧
    (∀ a, queued q' a ↔ queued q a) ∧ (∀ a, linked h' a = linked h a ∧ time h' a = time h a) ∧
    aside_kept h h' ∧ ∀ a, ¬ queued q a → payload h' a = payload h a.
Proof.
  intros [Hs Hok] Hc. destruct (rebalance_aux _ _ _ _ _ _ _ cfg Hs Hok Hc) as (ls' & h' & fl' & Heq & Hs' & Hok' & Hfl).
  exists ls', h', (rebalance_q cfg q). split; [done|]. split; [by eapply st_view|]. split; [apply rebalance_q_rebalanced|].
  split; [apply rebalance_queued|]. split; [intros a; by rewrite (st_linked _ _ _ _ _ _ _ Hs'), (st_time _ _ _ _ _ _ _ Hs')|].
  apply rebalance_kept in Heq. split; [done|]. intros a Ha.
  eapply aside_payload; [by eapply st_words|by eapply st_words|done|]. intros f _. rewrite (st_flag _ _ _ _ _ _ _ Hs'). apply Hfl. by right.
Qed.

(** [add] refuses an item that is queued, changing nothing; any other item
    goes to the head of Hot, stamped with the time, and the queues are
    rebalanced. *)
Theorem mm2q_add_spec h c q a now : mm2q_wf h c q → is_Some (payload h a) →
  if linked h a then add a now (c, h) = Ok (false, (c, h))
  else ∃ c' h' q', add a now (c, h) = Ok (true, (c', h')) ∧ mm2q_wf h' c' q' ∧
    rebalanced (config_ c) (qset Hot (a :: q_hot q) q) q' ∧ linked h' a = true ∧ time h' a = u32 now ∧
    keeps (h := h) a h'.
Proof.
  intros Hwf Ha. destruct (linked h a) eqn:El.
  - unfold add. by rewrite (st_testLinked (wf_st Hwf) a Ha), El.
  - destruct (mm2q_add_aux Hwf a now Ha El) as (ls' & h' & Heq & Hwf' & Ht & Hk).
    eexists _, h', _. split; [exact Heq|]. split; [exact Hwf'|]. split; [apply rebalance_q_rebalanced|].
    split; [|done]. apply (w_linked _ _ _ Hwf'), rebalance_queued. exists Hot. rewrite qget_qset, decide_True by done. by left.
Qed.

(** [remove] takes a queued item out of the queue its flags name, clears
    its links and linked bit, and rebalances; an item that is not queued is
    refused without effect. *)
Theorem mm2q_remove_spec h c q a : mm2q_wf h c q → is_Some (payload h a) →
  if linked h a then ∃ t i c' h' q', qget q t !! i = Some a ∧ removeNode a (c, h) = Ok (true, (c', h')) ∧
    mm2q_wf h' c' q' ∧ rebalanced (config_ c) (qset t (delete i (qget q t)) q) q' ∧
    linked h' a = false ∧ getNext h' a = Ok None ∧ getPrev h' a = Ok None ∧ keeps (h := h) a h'
  else removeNode a (c, h) = Ok (false, (c, h)).
Proof.
  intros Hwf Ha. unfold removeNode. cbn [snd]. rewrite (st_testLinked (wf_st Hwf) a Ha). res_simpl.
  destruct (linked h a) eqn:El; cbn [negb]; [|done]. destruct (linked_queued h c q a Hwf El) as (t & i & Hi).
  destruct (mm2q_removeLocked_aux Hwf t i a true Hi) as (ls' & h' & -> & Hwf' & Hl & Hn & Hp & Hk).
  exists t, i, (with_lru ls' c), h', (rebalance_q (config_ c) (qset t (delete i (qget q t)) q)).
  split; [done|]. split; [done|]. split; [exact Hwf'|]. split; [apply rebalance_q_rebalanced|done].
Qed.

(** C22: [recordAccess] promotes exactly when the access mode is configured, the
    item is queued and due, and the lock was obtained: the item moves to the
    head of Hot if it was hot and to the head of Warm otherwise (rebalancing
    after a cold access when configured), and is stamped with the time.
    Otherwise nothing changes and it returns false. *)
Theorem mm2q_recordAccess_spec h c q a mode now lockFree : mm2q_wf h c q → ratio_ok (config_ c) → is_Some (payload h a) →
  let due := match mode with kWrite => updateOnWrite (config_ c) | kRead => updateOnRead (config_ c) end &&
    linked h a && (u32 (time h a + lruRefreshTime_ c) <=? u32 now) && (negb (tryLockUpdate (config_ c)) || lockFree) in
  ∃ c' h', recordAccess a mode now lockFree (c, h) = Ok (due, (c', h')) ∧
    if due then ∃ t i q', qget q t !! i = Some a ∧ mm2q_wf h' c' q' ∧
      (if is_cold t && rebalanceOnRecordAccess (config_ c) then rebalanced (config_ c) (promote (q := q) t i a) q'
       else q' = promote (q := q) t i a) ∧
      time h' a = u32 now ∧ keeps (h := h) a h'
    else c' = c ∧ h' = h.
Proof.
  intros Hwf Hr Ha. cbv zeta. destruct (mm2q_record_wf h c q a mode now lockFree Hwf Hr Ha) as (b & c' & h' & Heq & Hcase & Hb).
  exists c', h'. rewrite <- Hb. split; [done|]. destruct b; [|done].
  destruct Hcase as (t & i & Hi & Hwf' & _ & Ht & Hk). exists t, i, (accessed (c := c) (q := q) t i a).
  split; [done|]. split; [done|]. split; [|done]. unfold accessed.
  destruct (is_cold t && rebalanceOnRecordAccess (config_ c)); [apply rebalance_q_rebalanced|done].
Qed.

(** [replace] puts a fresh item at the position of a queued one, in the
    same queue with the same update time; the old item leaves the container. *)
Theorem mm2q_replace_spec h c q a n t i : mm2q_wf h c q → qget q t !! i = Some a → is_Some (payload h n) →
  linked h n = false → flags_clear (h := h) n →
  ∃ c' h', replaceNode a n (c, h) = Ok (true, (c', h')) ∧ mm2q_wf h' c' (qset t (<[i := n]> (qget q t)) q) ∧
    time h' n = time h a ∧ linked h' a = false ∧ keeps (h := h) n h'.
Proof.
  intros Hwf Hi Hn Hl Hcl. destruct (mm2q_replace_aux Hwf t i a n Hi Hn Hl Hcl) as (ls' & h' & Heq & H').
  by exists (with_lru ls' c), h'.
Qed.

(** Removing through the eviction iterator takes out the first candidate in
    eviction order (ColdTail, Cold, Hot, WarmTail, Warm, each from its tail)
    and leaves the iterator where a new [rbegin()] would be. *)
Theorem mm2q_evict_spec h c q a0 : mm2q_wf h c q → queued q a0 → ∃ it a it' c' h' q',
  mlist_rbegin (lru_ c) = Ok it ∧ curr_ (currIter_ it) = Some a ∧ removeIterator it (c, h) = Ok (it', (c', h')) ∧
  mm2q_wf h' c' q' ∧ concat (all_lists q) = concat (all_lists q') ++ [a] ∧ linked h' a = false ∧
  mlist_rbegin (lru_ c') = Ok it'.
Proof.
  intros Hwf Hq. destruct (evict_aux Hwf a0 Hq) as (it & a & it' & ls' & h' & q' & H').
  by exists it, a, it', (with_lru ls' c), h', q'.
Qed.

(** The configuration constructor accepts exactly the percentages for which
    Hot is 100 (and Cold and Warm are 0) or Hot, Cold and the Warm remainder are
    all positive; it throws on all others. *)
Theorem checkLruSizes_spec cfg : fits 64 (hotSizePercent cfg) → fits 64 (coldSizePercent cfg) →
  let hot := hotSizePercent cfg in let cold := coldSizePercent cfg in
  (checkLruSizes cfg = Ok tt ∧ (hot = 100 ∧ cold = 0 ∨ 0 < hot ∧ 0 < cold ∧ hot + cold < 100)) ∨
  (checkLruSizes cfg = Throw InvalidArgument ∧ ¬ (hot = 100 ∧ cold = 0 ∨ 0 < hot ∧ 0 < cold ∧ hot + cold < 100)).
Proof.
  intros Hh Hc hot cold. unfold checkLruSizes, getWarmSizePercent. fold hot cold. unfold fits in *. fold hot in Hh. fold cold in Hc.
  set (warm := u64 (u64 (100 - hot) - cold)).
  assert (warm = (100 - hot - cold) mod 2 ^ 64) as Hw.
  { unfold warm, wrap. by rewrite Zminus_mod_idemp_l. }
  assert (0 ≤ warm < 2 ^ 64) as Hwb by (rewrite Hw; apply Z.mod_pos_bound; lia).
  assert (∃ k, 100 - hot - cold = k * 2 ^ 64 + warm ∧ -2 ≤ k ≤ 0) as (k & Hk & Hkb).
  { exists ((100 - hot - cold) / 2 ^ 64). rewrite Hw. split; [rewrite Z.mul_comm; apply Z.div_mod; lia|].
    split; [apply Z.div_le_lower_bound; lia|]. assert ((100 - hot - cold) / 2 ^ 64 < 1); [apply Z.div_lt_upper_bound; lia|lia]. }
  clearbody warm. clear Hw. destruct (Z.eqb_spec hot 100) as [H100|H100].
  - destruct (Z.eqb_spec cold 0), (Z.eqb_spec warm 0); cbn [negb andb];
      first [left; split; [done|lia]|right; split; [done|lia]].
  - destruct (Z.leb_spec hot 0), (Z.ltb_spec 100 hot), (Z.leb_spec cold 0), (Z.leb_spec 100 cold), (Z.leb_spec warm 0),
      (Z.leb_spec 100 warm); cbn [orb]; try (right; split; [done|lia]); left; split; [done|lia].
Qed.
End runs.

(** ** A concrete container

    One hot item, one cold one, and a fresh one. *)
#[local] Existing Instance example_compressor.
Definition cfg2q : Config := mkConfig 60 60 (S754_zero false) false true false true 30 30 0 0 false.
Definition store2q : Store :=
  list_to_map [(ex_node 0, node2q 100 (setFlag kMMFlag0 (markInMMContainer 0)));
               (ex_node 1, node2q 90 (setFlag kMMFlag2 (markInMMContainer 0))); (ex_node 2, node2q 0 0)].
Definition single (a : Z) : DList := mkDList (Some a) (Some a) 1.
Definition container2q : Container :=
  mkContainer [DList_empty; DList_empty; single (ex_node 0); single (ex_node 1); DList_empty] 0 0 0 0 0 false
    (uint_max 32) 60 cfg2q.
Definition q2q : Qs := mkQs [] [] [ex_node 0] [ex_node 1] [].

Lemma cfg2q_sizes : sizes_ok cfg2q.
Proof. split; cbn; unfold fits; lia. Qed.
Lemma cfg2q_ratio : ratio_ok cfg2q.
Proof. apply scale_zero_ok. Qed.



Lemma single_rep k : (k = 0 ∨ k = 1) → dlist_rep store2q (single (ex_node k)) [ex_node k].
Proof.
  intros Hk. split; [by apply NoDup_singleton|done..|].
  intros [|i] a; cbn; intros [= <-]; (split; [apply ex_valid; lia|]); by destruct Hk as [-> | ->]; vm_compute.
Qed.

Lemma container2q_wf : mm2q_wf store2q container2q q2q.
Proof.
  assert (∀ t a, a ∈ qget q2q t ↔ t = Hot ∧ a = ex_node 0 ∨ t = Cold ∧ a = ex_node 1) as Hq.
  { intros [] a; cbn; rewrite ?elem_of_nil, ?list_elem_of_singleton; naive_solver. }
  assert (ex_node 0 ≠ ex_node 1) as H01 by by vm_compute.
  split; [split| |apply cfg2q_sizes|done|done].
  - split; try done; [|by apply words_3|].
    + split.
      * assert (dlist_rep store2q DList_empty []) by (by split; try apply NoDup_nil_2).
        do 2 (apply Forall2_cons; split; [done|]). do 2 (apply Forall2_cons; split; [apply single_rep; auto|]).
        apply Forall2_cons; split; [done|]. by apply Forall2_nil.
      * intros i j xs ys a (t & -> & ->)%all_lists_inv (t' & -> & ->)%all_lists_inv. rewrite !Hq. naive_solver.
      * refine (items_3 _ _ _ (λ a, ¬ in_lists (all_lists q2q) a → getNext store2q a = Ok None ∧ getPrev store2q a = Ok None) _ eq_refl _ _ _);
          intros _; by vm_compute.
    + refine (items_3 _ _ _ (λ a, valid_ptr a) _ eq_refl _ _ _); apply ex_valid; lia.
  - intros t a Ha%Hq. destruct Ha as [[-> ->]|[-> ->]]; by vm_compute.
  - intros a. split.
    + intros Hl. assert (is_Some (payload store2q a)) as Ha by (unfold linked in Hl; by destruct (payload store2q a)).
      revert a Ha Hl. refine (items_3 _ _ _ (λ a, linked store2q a = true → queued q2q a) _ eq_refl _ _ _); intros Hl.
      * exists Hot. by left.
      * exists Cold. by left.
      * by vm_compute in Hl.
    + intros [t Ht%Hq]. destruct Ht as [[_ ->]|[_ ->]]; by vm_compute.
Qed.

(** [remove] leaves the queue flags of the item set, and [replace] only ever
    sets flags: putting a removed item back with [replace] leaves it marked for
    two queues, and the next [remove] works on the wrong list. *)
Lemma mm2q_replace_stale_flags : ∃ c h,
  (s ← run_mm2q_op (QRemove (ex_node 0)) (container2q, store2q); run_mm2q_op (QReplace (ex_node 1) (ex_node 0)) s) = Ok (c, h) ∧
  linked h (ex_node 0) = true ∧ getLruType (config_ c) h (ex_node 0) = Ok Hot ∧
  lru_list Hot (lru_ c) = Ok DList_empty ∧ run_mm2q_op (QRemove (ex_node 0)) (c, h) = Undef.
Proof. eexists _, _. split; [vm_compute; reflexivity|]. by vm_compute. Qed.

Definition added2q : Container * Store :=
  match run_mm2q_op (QAdd (ex_node 0) 10) (Container_new cfg2q 0, fresh2q) with
  | Ok s => s | _ => (Container_new cfg2q 0, fresh2q) end.
Lemma mm2q_reachable_safe_witness :
  (∃ q, mm2q_wf (snd added2q) (fst added2q) q) ∧
  ∀ op, mm2q_op_ok (snd added2q) op →
    (∃ c' h', run_mm2q_op op (fst added2q, snd added2q) = Ok (c', h')) ∨
    (∃ cfg' now', op = QSetConfig cfg' now' ∧ run_mm2q_op op (fst added2q, snd added2q) = Throw InvalidArgument).
Proof.
  apply (mm2q_reachable_safe fresh2q cfg2q 0 _ _ fresh2q_ok cfg2q_sizes cfg2q_ratio).
  apply (reach_step _ _ _ (Container_new cfg2q 0) fresh2q (QAdd (ex_node 0) 10)).
  - apply reach_new.
  - by eexists.
  - vm_compute. reflexivity.
Defined.

Lemma mm2q_rebalance_spec_witness : ∃ ls' h' q', rebalance cfg2q (lru_ container2q, store2q) = Ok (ls', h') ∧
  view h' ls' q' ∧ rebalanced cfg2q q2q q' ∧
  (∀ a, queued q' a ↔ queued q2q a) ∧ (∀ a, linked h' a = linked store2q a ∧ time h' a = time store2q a) ∧
  aside_kept store2q h' ∧ ∀ a, ¬ queued q2q a → payload h' a = payload store2q a.
Proof. apply (mm2q_rebalance_spec store2q (lru_ container2q) q2q cfg2q (w_view _ _ _ container2q_wf) cfg2q_sizes). Defined.

Lemma mm2q_add_spec_witness : ∃ c' h' q', add (ex_node 2) 1000 (container2q, store2q) = Ok (true, (c', h')) ∧
  mm2q_wf h' c' q' ∧ rebalanced cfg2q (mkQs [] [] [ex_node 2; ex_node 0] [ex_node 1] []) q' ∧
  linked h' (ex_node 2) = true ∧ time h' (ex_node 2) = 1000 ∧ keeps (h := store2q) (ex_node 2) h'.
Proof. apply (mm2q_add_spec store2q container2q q2q (ex_node 2) 1000 container2q_wf). by eexists. Defined.

Lemma mm2q_remove_spec_witness : ∃ t i c' h' q', qget q2q t !! i = Some (ex_node 1) ∧
  removeNode (ex_node 1) (container2q, store2q) = Ok (true, (c', h')) ∧
  mm2q_wf h' c' q' ∧ rebalanced cfg2q (qset t (delete i (qget q2q t)) q2q) q' ∧
  linked h' (ex_node 1) = false ∧ getNext h' (ex_node 1) = Ok None ∧ getPrev h' (ex_node 1) = Ok None ∧
  keeps (h := store2q) (ex_node 1) h'.
Proof. apply (mm2q_remove_spec store2q container2q q2q (ex_node 1) container2q_wf). by eexists. Defined.

Lemma mm2q_recordAccess_spec_witness : ∃ c' h',
  recordAccess (ex_node 1) kRead 1000 true (container2q, store2q) = Ok (true, (c', h')) ∧
  ∃ t i q', qget q2q t !! i = Some (ex_node 1) ∧ mm2q_wf h' c' q' ∧
    (if is_cold t && rebalanceOnRecordAccess cfg2q then rebalanced cfg2q (promote (q := q2q) t i (ex_node 1)) q'
     else q' = promote (q := q2q) t i (ex_node 1)) ∧
    time h' (ex_node 1) = 1000 ∧ keeps (h := store2q) (ex_node 1) h'.
Proof.
  apply (mm2q_recordAccess_spec store2q container2q q2q (ex_node 1) kRead 1000 true container2q_wf cfg2q_ratio).
  by eexists.
Defined.

Lemma mm2q_replace_spec_witness : ∃ c' h', replaceNode (ex_node 1) (ex_node 2) (container2q, store2q) = Ok (true, (c', h')) ∧
  mm2q_wf h' c' (mkQs [] [] [ex_node 0] [ex_node 2] []) ∧
  time h' (ex_node 2) = 90 ∧ linked h' (ex_node 1) = false ∧ keeps (h := store2q) (ex_node 2) h'.
Proof.
  apply (mm2q_replace_spec store2q container2q q2q (ex_node 1) (ex_node 2) Cold 0 container2q_wf eq_refl);
    [by eexists|by vm_compute|]. intros f [->|[->| ->]]; by vm_compute.
Defined.

Lemma mm2q_evict_spec_witness : ∃ it a it' c' h' q',
  mlist_rbegin (lru_ container2q) = Ok it ∧ curr_ (currIter_ it) = Some a ∧
  removeIterator it (container2q, store2q) = Ok (it', (c', h')) ∧
  mm2q_wf h' c' q' ∧ [ex_node 0; ex_node 1] = concat (all_lists q') ++ [a] ∧ linked h' a = false ∧
  mlist_rbegin (lru_ c') = Ok it'.
Proof. apply (mm2q_evict_spec store2q container2q q2q (ex_node 0) container2q_wf). exists Hot. by left. Defined.

Lemma checkLruSizes_spec_witness :
  (checkLruSizes cfg2q = Ok tt ∧ (30 = 100 ∧ 30 = 0 ∨ 0 < 30 ∧ 0 < 30 ∧ 30 + 30 < 100)) ∨
  (checkLruSizes cfg2q = Throw InvalidArgument ∧ ¬ (30 = 100 ∧ 30 = 0 ∨ 0 < 30 ∧ 0 < 30 ∧ 30 + 30 < 100)).
Proof. apply (checkLruSizes_spec cfg2q); split; cbn; lia. Defined.
