(* ===== verification/CountMinSketch.v ===== *)
(** The approximate counter ([common/CountMinSketch.h], [CountMinSketch-inl.h])
    by which [MMTinyLFU] estimates how often keys were accessed.

    The table is the flat array of the code: [depth_] rows of [width_] counters
    of [w] bits, indexed as the code indexes it, an index outside the allocation
    being undefined behaviour.  [combineHashes] and [hashInt] of common/Hash.h,
    which forward to folly's hash functions, and the logarithm of the C library
    are parameters. *)
From Stdlib Require Import Floats.SpecFloat.
From S2P Require Import Prelude Doubles.

Record CountMinSketchBase := mkCountMinSketch {
  width_ : Z;        (** uint32_t *)
  depth_ : Z;        (** uint32_t *)
  saturated : Z;     (** uint64_t *)
  table_ : list Z;   (** UINT\[\] *)
}.
Definition CountMinSketch_empty : CountMinSketchBase := mkCountMinSketch 0 0 0 [].
Definition with_table (t : list Z) (c : CountMinSketchBase) : CountMinSketchBase :=
  mkCountMinSketch (width_ c) (depth_ c) (saturated c) t.
Definition with_saturated (s : Z) (c : CountMinSketchBase) : CountMinSketchBase :=
  mkCountMinSketch (width_ c) (depth_ c) s (table_ c).

(** [narrow_cast] of common/Utils.h to a [w]-bit unsigned type. *)
Definition narrow_cast (w : Z) (i : spec_float) : result Z :=
  if SFltb (double_of_u64 (uint_max w)) i then Ok (uint_max w)
  else if SFltb i (S754_zero false) then Ok 0
  else double_to_uint w i.
(** [std::ceil]. *)
Definition ceil (x : spec_float) : spec_float :=
  match x with
  | S754_finite s m e =>
      if 0 <=? e then x
      else if s then binary_normalize 53 1024 (- (Z.pos m / 2 ^ (- e))) 0 true
      else binary_normalize 53 1024 (- (- Z.pos m / 2 ^ (- e))) 0 false
  | _ => x
  end.
Definition one : spec_float := double_of_u64 1.
Definition not_between (x : spec_float) : bool := SFleb x (S754_zero false) || SFleb one x.

Definition calculateWidth (error : spec_float) (maxWidth : Z) : result Z :=
  _ ← throw_if (not_between error) InvalidArgument;
  width ← narrow_cast 32 (ceil (double_div (double_of_u64 2) error));
  Ok (if 0 <? maxWidth then Z.min maxWidth width else width).

Section depth.
Context (log : spec_float → spec_float).
Definition calculateDepth (probability : spec_float) (maxDepth : Z) : result Z :=
  _ ← throw_if (not_between probability) InvalidArgument;
  depth ← narrow_cast 32 (ceil (SFabs (double_div (log (SFsub 53 1024 one probability)) (log (double_of_u64 2)))));
  let depth := Z.max 1 depth in
  Ok (if 0 <? maxDepth then Z.min maxDepth depth else depth).
End depth.

Section operations.
Context (w : Z) (combineHashes : Z → Z → Z) (hashInt : Z → Z).
Implicit Types (c : CountMinSketchBase) (key : Z).

Definition getMaxCount : Z := uint_max w.
(** [width_ * depth_], a product of [uint32_t]. *)
Definition tableSize c : Z := u32 (width_ c * depth_ c).
Definition getByteSize c : Z := u64 (tableSize c * (w / 8)).
Definition getSaturatedCounts c : Z := saturated c.

Definition table_get (index : Z) c : result Z := deref (table_ c !! Z.to_nat index).
Definition table_set (index v : Z) c : result CountMinSketchBase :=
  _ ← table_get index c; Ok (with_table (<[Z.to_nat index := v]> (table_ c)) c).

(** [for (i = 0; i < tableSize; i++)]: [n] cells from [i] on. *)
Fixpoint reset_loop (n : nat) (i : Z) c : result CountMinSketchBase :=
  match n with O => Ok c | S n => c ← table_set i 0 c; reset_loop n (i + 1) c end.
Definition reset c : result CountMinSketchBase := reset_loop (Z.to_nat (tableSize c)) 0 c.

Definition CountMinSketch_new (width depth : Z) : result CountMinSketchBase :=
  _ ← throw_if (width =? 0) InvalidArgument;
  _ ← throw_if (depth =? 0) InvalidArgument;
  let c := mkCountMinSketch width depth 0 (replicate (Z.to_nat (u32 (width * depth))) 0) in
  reset c.
(** The move constructor, which the assignment uses: the new object and what is
    left of the old one. *)
Definition CountMinSketch_move c : CountMinSketchBase * CountMinSketchBase :=
  (mkCountMinSketch (width_ c) (depth_ c) 0 (table_ c), mkCountMinSketch 0 0 (saturated c) []).

Definition getIndex (hashNum key : Z) c : Z :=
  u64 (u32 (hashNum * width_ c) + combineHashes (hashInt hashNum) key mod width_ c).

(** The loops over [hashNum]: [n] rows from [hashNum] on. *)
Fixpoint increment_loop (n : nat) (hashNum key : Z) c : result CountMinSketchBase :=
  match n with
  | O => Ok c
  | S n =>
      let index := getIndex hashNum key c in
      v ← table_get index c;
      c ← (if v <? getMaxCount then
             c ← table_set index (wrap w (v + 1)) c;
             v ← table_get index c;
             Ok (if v =? getMaxCount then with_saturated (u64 (saturated c + 1)) c else c)
           else Ok c);
      increment_loop n (hashNum + 1) key c
  end.
Definition increment (key : Z) c : result CountMinSketchBase := increment_loop (Z.to_nat (depth_ c)) 0 key c.

Fixpoint count_loop (n : nat) (hashNum key count : Z) c : result Z :=
  match n with
  | O => Ok count
  | S n => v ← table_get (getIndex hashNum key c) c; count_loop n (hashNum + 1) key (Z.min count v) c
  end.
Definition getCount (key : Z) c : result Z :=
  count ← count_loop (Z.to_nat (depth_ c)) 0 key getMaxCount c;
  Ok (wrap w (count * (if depth_ c =? 0 then 0 else 1))).

Fixpoint resetCount_loop (n : nat) (hashNum key count : Z) c : result CountMinSketchBase :=
  match n with
  | O => Ok c
  | S n =>
      let index := getIndex hashNum key c in
      v ← table_get index c;
      c ← table_set index (wrap w (v - count)) c;
      resetCount_loop n (hashNum + 1) key count c
  end.
Definition resetCount (key : Z) c : result CountMinSketchBase :=
  count ← getCount key c; resetCount_loop (Z.to_nat (depth_ c)) 0 key count c.

Fixpoint decay_loop (n : nat) (i : Z) (decay : spec_float) c : result CountMinSketchBase :=
  match n with
  | O => Ok c
  | S n =>
      v ← table_get i c;
      v ← narrow_cast w (double_mul (double_of_u64 v) decay);
      c ← table_set i v c;
      decay_loop n (i + 1) decay c
  end.
Definition decayCountsBy (decay : spec_float) c : result CountMinSketchBase :=
  decay_loop (Z.to_nat (tableSize c)) 0 decay c.
End operations.

(** [CountMinSketchBase(error, probability, maxWidth, maxDepth)]. *)
Definition CountMinSketch_sized (log : spec_float → spec_float) (error probability : spec_float) (maxWidth maxDepth : Z)
    : result CountMinSketchBase :=
  width ← calculateWidth error maxWidth;
  depth ← calculateDepth log probability maxDepth;
  CountMinSketch_new width depth.

(** ** The counters as a matrix

    A sketch represents a matrix of counters [M row column]; the operations on
    the flat table are the operations on the matrix. *)
Section spec.
Context (w : Z) (combineHashes : Z → Z → Z) (hashInt : Z → Z) (Hw : 0 < w ≤ 64).
Implicit Types (c : CountMinSketchBase) (M : Z → Z → Z) (key r j : Z).

Abbreviation max := (getMaxCount w).
Definition column c r key : Z := combineHashes (hashInt r) key mod width_ c.

Record shape c : Prop := {
  sh_width : 0 < width_ c;
  sh_depth : 0 < depth_ c;
  sh_fits : width_ c * depth_ c < 2 ^ 32;
  sh_length : Z.of_nat (length (table_ c)) = width_ c * depth_ c;
}.
Record rep c M : Prop := {
  rep_shape : shape c;
  rep_cell r j : 0 ≤ r < depth_ c → 0 ≤ j < width_ c →
    table_ c !! Z.to_nat (r * width_ c + j) = Some (M r j);
  rep_bound r j : 0 ≤ r < depth_ c → 0 ≤ j < width_ c → 0 ≤ M r j ≤ max;
}.

(** Matrix operations. *)
Definition m_cell r key c M : Z := M r (column c r key).
Definition m_upd c (f : Z → Z → Z) (key : Z) M (r j : Z) : Z :=
  if decide (j = column c r key) then f r (M r j) else M r j.
Definition m_inc c key M : Z → Z → Z := m_upd c (λ _ v, Z.min max (v + 1)) key M.
Definition m_count c key M : Z := foldr Z.min max ((λ r, m_cell r key c M) <$> seqZ 0 (depth_ c)).
Definition m_resetCount c key M : Z → Z → Z := m_upd c (λ _ v, v - m_count c key M) key M.
Definition m_halve M (r j : Z) : Z := M r j / 2.

Lemma max_eq : max = 2 ^ w - 1.
Proof. done. Qed.
Lemma max_pos : 0 < max.
Proof. rewrite max_eq. assert (2 ^ 1 ≤ 2 ^ w) by (apply Z.pow_le_mono_r; lia). lia. Qed.

Lemma column_range c r key : shape c → 0 ≤ column c r key < width_ c.
Proof. intros Hs. apply Z.mod_pos_bound, Hs. Qed.
Lemma cell_index c r j : shape c → 0 ≤ r < depth_ c → 0 ≤ j < width_ c →
  0 ≤ r * width_ c + j < width_ c * depth_ c.
Proof.
  intros Hs Hr Hj. assert ((r + 1) * width_ c ≤ depth_ c * width_ c) by (apply Z.mul_le_mono_nonneg_r; lia).
  assert (0 ≤ r * width_ c) by (apply Z.mul_nonneg_nonneg; lia). lia.
Qed.
Lemma getIndex_eq c r key : shape c → 0 ≤ r < depth_ c →
  getIndex combineHashes hashInt r key c = r * width_ c + column c r key.
Proof.
  intros Hs Hr. pose proof (column_range c r key Hs) as Hj. pose proof (cell_index c r _ Hs Hr Hj) as Hi.
  pose proof (sh_fits _ Hs). unfold getIndex. fold (column c r key).
  assert (0 ≤ r * width_ c) by (apply Z.mul_nonneg_nonneg; lia).
  rewrite (wrap_small 32) by (unfold fits; lia). apply wrap_small. unfold fits. lia.
Qed.
Lemma cell_index_inj c r j r' j' : 0 ≤ j < width_ c → 0 ≤ j' < width_ c →
  r * width_ c + j = r' * width_ c + j' → r = r' ∧ j = j'.
Proof.
  intros Hj Hj' He. assert (r = r') as ->; [|split; [done|lia]].
  destruct (Z.lt_trichotomy r r') as [Hlt|[Heq|Hlt]]; [|done|]; exfalso.
  - assert ((r + 1) * width_ c ≤ r' * width_ c) by (apply Z.mul_le_mono_nonneg_r; lia). lia.
  - assert ((r' + 1) * width_ c ≤ r * width_ c) by (apply Z.mul_le_mono_nonneg_r; lia). lia.
Qed.
Lemma tableSize_eq c : shape c → tableSize c = width_ c * depth_ c.
Proof. intros Hs. pose proof (sh_fits _ Hs). pose proof (sh_width _ Hs). pose proof (sh_depth _ Hs). apply wrap_small. unfold fits. nia. Qed.

Lemma get_cell c M r key : rep c M → 0 ≤ r < depth_ c →
  table_get (getIndex combineHashes hashInt r key c) c = Ok (m_cell r key c M).
Proof.
  intros Hr Hrow. pose proof (rep_shape _ _ Hr) as Hs. unfold table_get. rewrite getIndex_eq by done.
  by rewrite (rep_cell _ _ Hr) by (done || by apply column_range).
Qed.

(** Writing one cell. *)
Definition m_set c r key v M (r' j' : Z) : Z := if decide (r' = r ∧ j' = column c r key) then v else M r' j'.
Lemma set_cell c M r key v : rep c M → 0 ≤ r < depth_ c → 0 ≤ v ≤ max →
  ∃ c', table_set (getIndex combineHashes hashInt r key c) v c = Ok c' ∧ rep c' (m_set c r key v M) ∧
    c' = with_table (table_ c') c ∧ table_ c' = <[Z.to_nat (r * width_ c + column c r key) := v]> (table_ c).
Proof.
  intros Hr Hrow Hv. pose proof (rep_shape _ _ Hr) as Hs. unfold table_set. rewrite (get_cell c M) by done. res_simpl.
  rewrite getIndex_eq by done. eexists. split; [done|]. split; [|done].
  pose proof (column_range c r key Hs) as Hj. pose proof (cell_index c r _ Hs Hrow Hj) as Hi.
  pose proof (sh_length _ Hs) as Hl. split; [split; cbn; try apply Hs; by rewrite length_insert|..]; cbn; intros r' j' Hr' Hj'; unfold m_set.
  - pose proof (cell_index c r' _ Hs Hr' Hj') as Hi'. destruct (decide (r' = r ∧ j' = _)) as [[-> ->]|Hne].
    + apply list_lookup_insert_eq. lia.
    + rewrite list_lookup_insert_ne; [by apply (rep_cell _ _ Hr)|]. intros He. apply Hne.
      destruct (cell_index_inj c r (column c r key) r' j') as [-> ->]; [done|done|lia|done].
  - case_decide; [done|]. by apply (rep_bound _ _ Hr).
Qed.

Lemma rep_ext c M M' : rep c M → (∀ r j, 0 ≤ r < depth_ c → 0 ≤ j < width_ c → M r j = M' r j) → rep c M'.
Proof.
  intros Hr He. split; [apply Hr|..]; intros r j H1 H2; rewrite <- He by done; by apply Hr.
Qed.
Lemma rep_saturated c M s : rep c M → rep (with_saturated s c) M.
Proof. intros Hr. destruct Hr as [[]]. by split. Qed.

(** The number of counters at their maximum. *)
Definition full (t : list Z) : nat := length (filter (λ v, v = max) t).
Lemma full_insert t i v u : t !! i = Some u →
  (full (<[i := v]> t) + (if decide (u = max) then 1 else 0) = full t + (if decide (v = max) then 1 else 0))%nat.
Proof.
  intros Hi. unfold full. rewrite insert_take_drop by by eapply lookup_lt_Some.
  pose proof (take_drop_middle t i u Hi) as Ht. apply (f_equal (λ t, length (filter (λ v, v = max) t))) in Ht. rewrite <- Ht.
  rewrite !filter_app, !length_app, !filter_cons. repeat case_decide; cbn [length]; lia.
Qed.
Lemma full_none t : Forall (λ v, v ≠ max) t → full t = 0%nat.
Proof. unfold full. induction 1; [done|]. by rewrite filter_cons_False. Qed.
Lemma full_le t : (full t ≤ length t)%nat.
Proof. apply length_filter. Qed.

(** *** The loops over the rows *)
Lemma with_table_dims c t : width_ (with_table t c) = width_ c ∧ depth_ (with_table t c) = depth_ c.
Proof. done. Qed.

(** Rows below [r] changed by [f], the others not yet. *)
Definition m_part c (f : Z → Z → Z) key (r : Z) M (r' j : Z) : Z := if r' <? r then m_upd c f key M r' j else M r' j.
Lemma part_step c f key r M : ∀ r' j,
  m_set c r key (f r (M r (column c r key))) (m_part c f key r M) r' j = m_part c f key (r + 1) M r' j.
Proof.
  intros r' j. unfold m_set, m_part, m_upd. destruct (Z.ltb_spec r' r), (Z.ltb_spec r' (r + 1)); try lia.
  - rewrite (decide_False (P := r' = r ∧ _)) by lia. done.
  - assert (r' = r) as -> by lia. destruct (decide (j = column c r key)) as [->|Hj].
    + by rewrite (decide_True (P := _ ∧ _)).
    + rewrite (decide_False (P := _ ∧ _)) by tauto. done.
  - rewrite (decide_False (P := r' = r ∧ _)) by lia. done.
Qed.
Lemma part_cell c f key r M : m_part c f key r M r (column c r key) = M r (column c r key).
Proof. unfold m_part. by rewrite (proj2 (Z.ltb_ge _ _)) by lia. Qed.

(** The number of saturated counters is exact. *)
Definition sat_ok c : Prop := saturated c = Z.of_nat (full (table_ c)).

Lemma increment_loop_spec c0 M key n r c : shape c0 → r + Z.of_nat n = depth_ c0 → 0 ≤ r →
  width_ c = width_ c0 → depth_ c = depth_ c0 →
  rep c (m_part c0 (λ _ v, Z.min max (v + 1)) key r M) →
  ∃ c', increment_loop w combineHashes hashInt n r key c = Ok c' ∧ rep c' (m_inc c0 key M) ∧
    width_ c' = width_ c0 ∧ depth_ c' = depth_ c0 ∧ (sat_ok c → sat_ok c').
Proof.
  intros Hs0. set (f := λ _ v, Z.min max (v + 1)). revert r c. induction n as [|n IH]; intros r c Hn Hr0 Hwd Hdp Hr; cbn [increment_loop].
  { exists c. split; [done|]. split; [|done]. eapply rep_ext; [exact Hr|]. intros r' j Hr' _. unfold m_part, m_inc.
    by rewrite (proj2 (Z.ltb_lt _ _)) by lia. }
  assert (column c r key = column c0 r key) as Hcol by (unfold column; by rewrite Hwd).
  assert (0 ≤ r < depth_ c) as Hrow by lia. pose proof (rep_shape _ _ Hr) as Hs.
  pose proof (column_range c r key Hs) as Hj. pose proof (rep_bound _ _ Hr r _ Hrow Hj) as Hb.
  pose proof (rep_cell _ _ Hr r _ Hrow Hj) as Hcell. pose proof max_pos as Hmax.
  rewrite (get_cell c _ r key Hr Hrow). res_simpl. unfold m_cell.
  assert (m_part c0 f key r M r (column c r key) = M r (column c0 r key)) as Hv by by rewrite Hcol, part_cell.
  rewrite Hv in *. set (v := M r (column c0 r key)) in *.
  destruct (Z.ltb_spec v max) as [Hlt|Hge].
  - rewrite wrap_small by (unfold fits; rewrite max_eq in *; lia).
    destruct (set_cell c _ r key (v + 1) Hr Hrow) as (c1 & Heq1 & Hr1 & Hc1 & Ht1); [lia|]. rewrite Heq1. res_simpl.
    assert (width_ c1 = width_ c ∧ depth_ c1 = depth_ c ∧ saturated c1 = saturated c) as (W1 & D1 & S1) by by rewrite Hc1.
    assert (getIndex combineHashes hashInt r key c = getIndex combineHashes hashInt r key c1) as -> by (unfold getIndex; by rewrite W1).
    rewrite (get_cell c1 _ r key Hr1) by by rewrite D1. res_simpl.
    assert (m_cell r key c1 (m_set c r key (v + 1) (m_part c0 f key r M)) = v + 1) as ->.
    { unfold m_cell, m_set. rewrite decide_True; [done|]. split; [done|]. unfold column. by rewrite W1. }
    set (c2 := if v + 1 =? max then _ else _).
    assert (rep c2 (m_part c0 f key (r + 1) M)) as Hr2.
    { assert (rep c1 (m_part c0 f key (r + 1) M)) as Hx.
      { eapply rep_ext; [exact Hr1|]. intros r' j _ _. rewrite <- part_step. unfold m_set. rewrite Hcol. case_decide; [|done].
        unfold f. by rewrite Z.min_r by lia. }
      subst c2. destruct (_ =? _); [by apply rep_saturated|done]. }
    destruct (IH (r + 1) c2) as (c' & -> & Hr' & W' & D' & S'); [lia|lia|subst c2; destruct (_ =? _); cbn; congruence..|done|].
    exists c'. split; [done|]. split; [done|]. split; [done|]. split; [done|]. intros Hsat. apply S'. unfold sat_ok in *.
    pose proof (full_insert (table_ c) _ (v + 1) v Hcell) as Hf. rewrite <- Ht1, decide_False in Hf by lia.
    pose proof (full_le (table_ c)). pose proof (sh_length _ Hs). pose proof (sh_fits _ Hs).
    subst c2. destruct (Z.eqb_spec (v + 1) max); cbn [saturated table_ with_saturated]; rewrite S1, Hsat.
    + rewrite decide_True in Hf by done. rewrite wrap_small by (unfold fits; lia). lia.
    + rewrite decide_False in Hf by done. lia.
  - res_simpl. apply IH; [lia|lia|done|done|]. eapply rep_ext; [exact Hr|]. intros r' j _ _. rewrite <- part_step.
    unfold m_set. case_decide as Hd; [|done]. destruct Hd as [-> ->]. rewrite part_cell. fold v. unfold f. lia.
Qed.

Lemma sketch_count_loop c M key n r count : rep c M → 0 ≤ r → r + Z.of_nat n = depth_ c → count ≤ max →
  count_loop combineHashes hashInt n r key count c =
    Ok (Z.min count (foldr Z.min max ((λ r, m_cell r key c M) <$> seqZ r (Z.of_nat n)))).
Proof.
  intros Hr. revert r count. induction n as [|n IH]; intros r count Hr0 Hn Hc; cbn [count_loop].
  { cbn. by rewrite Z.min_l. }
  rewrite (get_cell c M) by (done || lia). res_simpl. rewrite IH by lia.
  rewrite (seqZ_cons r (Z.of_nat (S n))) by lia. cbn [fmap list_fmap foldr].
  replace (Z.succ r) with (r + 1) by lia. replace (Z.pred (Z.of_nat (S n))) with (Z.of_nat n) by lia. by rewrite Z.min_assoc.
Qed.
Lemma foldr_min_bound lo (vs : list Z) : lo ≤ max → Forall (λ v, lo ≤ v) vs → lo ≤ foldr Z.min max vs.
Proof. intros Hm. induction 1; cbn; lia. Qed.
Lemma foldr_min_elem v (vs : list Z) : v ∈ vs → foldr Z.min max vs ≤ v.
Proof. induction 1; cbn; lia. Qed.
Lemma foldr_min_max (vs : list Z) : foldr Z.min max vs ≤ max.
Proof. induction vs; cbn; lia. Qed.

Lemma m_count_ge c M key lo : lo ≤ max → (∀ r, 0 ≤ r < depth_ c → lo ≤ m_cell r key c M) → lo ≤ m_count c key M.
Proof.
  intros Hm Hlo. apply foldr_min_bound; [done|]. apply Forall_fmap, Forall_forall. intros r Hr%elem_of_seqZ. apply Hlo. lia.
Qed.
Lemma m_count_le c M key r : 0 ≤ r < depth_ c → m_count c key M ≤ m_cell r key c M.
Proof. intros Hr. apply foldr_min_elem, list_elem_of_fmap. exists r. split; [done|]. apply elem_of_seqZ. lia. Qed.
Lemma foldr_min_attained (vs : list Z) : vs ≠ [] → Forall (λ v, v ≤ max) vs → foldr Z.min max vs ∈ vs.
Proof.
  intros Hne Hall. induction Hall as [|v vs Hv Hall IH]; [done|]. cbn. destruct vs as [|v' vs]; [cbn; rewrite Z.min_l by done; by left|].
  destruct (Z.min_spec v (foldr Z.min max (v' :: vs))) as [[_ ->]|[_ ->]]; [by left|]. right. by apply IH.
Qed.
Lemma m_cell_bound c M key r : rep c M → 0 ≤ r < depth_ c → 0 ≤ m_cell r key c M ≤ max.
Proof. intros Hr Hrow. apply (rep_bound _ _ Hr); [done|]. apply column_range, Hr. Qed.
Lemma m_count_range c M key : rep c M → 0 ≤ m_count c key M ≤ max.
Proof.
  intros Hr. pose proof max_pos. split; [|apply foldr_min_max]. apply m_count_ge; [lia|]. intros r Hrow. by apply m_cell_bound.
Qed.

Lemma m_count_attained c M key : rep c M → ∃ r, 0 ≤ r < depth_ c ∧ m_cell r key c M = m_count c key M.
Proof.
  intros Hr. pose proof (sh_depth _ (rep_shape _ _ Hr)) as Hd.
  assert (m_count c key M ∈ (λ r, m_cell r key c M) <$> seqZ 0 (depth_ c)) as Hin.
  { apply foldr_min_attained.
    - rewrite (seqZ_cons 0) by lia. done.
    - apply Forall_fmap, Forall_forall. intros r Hrow%elem_of_seqZ. apply (m_cell_bound c M key r Hr). lia. }
  apply list_elem_of_fmap in Hin as (r & Heq & Hrow%elem_of_seqZ). exists r. split; [lia|done].
Qed.

Lemma getCount_aux c M key : rep c M → getCount w combineHashes hashInt key c = Ok (m_count c key M).
Proof.
  intros Hr. pose proof (sh_depth _ (rep_shape _ _ Hr)) as Hd. unfold getCount.
  rewrite (sketch_count_loop c M) by (done || lia). rewrite Z2Nat.id by lia. fold (m_count c key M). res_simpl.
  pose proof (m_count_range c M key Hr) as Hb. rewrite max_eq in Hb. rewrite (proj2 (Z.eqb_neq _ _)), Z.mul_1_r by lia.
  rewrite Z.min_r by (rewrite max_eq; lia). rewrite wrap_small by (unfold fits; lia). done.
Qed.

Lemma resetCount_loop_spec c0 M key n r c : rep c0 M → r + Z.of_nat n = depth_ c0 → 0 ≤ r →
  width_ c = width_ c0 → depth_ c = depth_ c0 →
  rep c (m_part c0 (λ _ v, v - m_count c0 key M) key r M) →
  ∃ c', resetCount_loop w combineHashes hashInt n r key (m_count c0 key M) c = Ok c' ∧ rep c' (m_resetCount c0 key M) ∧
    width_ c' = width_ c0 ∧ depth_ c' = depth_ c0.
Proof.
  intros Hr0. set (f := λ _ v, v - m_count c0 key M). revert r c. induction n as [|n IH]; intros r c Hn Hrn Hwd Hdp Hr; cbn [resetCount_loop].
  { exists c. split; [done|]. split; [|done]. eapply rep_ext; [exact Hr|]. intros r' j Hr' _. unfold m_part, m_resetCount.
    by rewrite (proj2 (Z.ltb_lt _ _)) by lia. }
  assert (column c r key = column c0 r key) as Hcol by (unfold column; by rewrite Hwd).
  assert (0 ≤ r < depth_ c) as Hrow by lia. rewrite (get_cell c _ r key Hr Hrow). res_simpl. unfold m_cell.
  rewrite Hcol, part_cell. set (v := M r (column c0 r key)) in *.
  pose proof (m_count_le c0 M key r ltac:(lia)) as Hle. pose proof (m_cell_bound c0 M key r Hr0 ltac:(lia)) as Hb.
  unfold m_cell in Hle, Hb. fold v in Hle, Hb. pose proof (m_count_range c0 M key Hr0).
  rewrite wrap_small by (unfold fits; rewrite max_eq in *; lia).
  destruct (set_cell c _ r key (v - m_count c0 key M) Hr Hrow) as (c1 & -> & Hr1 & Hc1 & Ht1); [lia|]. res_simpl.
  apply IH; [lia|lia|by rewrite Hc1|by rewrite Hc1|]. eapply rep_ext; [exact Hr1|]. intros r' j _ _. rewrite <- part_step.
  unfold m_set. by rewrite Hcol.
Qed.

(** *** The loops over the table *)
Lemma map_loop (P : Z → Prop) (g : Z → Z) (body : Z → CountMinSketchBase → result CountMinSketchBase)
    (loop : nat → Z → CountMinSketchBase → result CountMinSketchBase) n i c :
  (∀ n i c, loop n i c = match n with O => Ok c | S n => c ← body i c; loop n (i + 1) c end) →
  (∀ i c v, table_ c !! Z.to_nat i = Some v → P v → body i c = Ok (with_table (<[Z.to_nat i := g v]> (table_ c)) c)) →
  0 ≤ i → Z.of_nat (length (table_ c)) = i + Z.of_nat n → Forall P (drop (Z.to_nat i) (table_ c)) →
  loop n i c = Ok (with_table (take (Z.to_nat i) (table_ c) ++ (g <$> drop (Z.to_nat i) (table_ c))) c).
Proof.
  intros Hloop Hbody. revert i c. induction n as [|n IH]; intros i c Hi Hl HP; rewrite Hloop.
  { rewrite take_ge, drop_ge, app_nil_r by lia. by destruct c. }
  destruct (lookup_lt_is_Some_2 (table_ c) (Z.to_nat i)) as [v Hv]; [lia|].
  rewrite (drop_S _ _ _ Hv) in *. apply Forall_cons in HP as [HPv HP]. rewrite (Hbody i c v Hv HPv). res_simpl.
  assert (Z.to_nat (i + 1) = S (Z.to_nat i)) as Hi1 by lia.
  rewrite IH by (cbn; rewrite ?Hi1, ?drop_insert_lt, ?length_insert by lia; done || lia).
  cbn [table_ with_table]. unfold with_table. cbn. rewrite Hi1. do 2 f_equal.
  rewrite (take_S_r _ _ (g v)) by (apply list_lookup_insert_eq; lia). rewrite take_insert_ge, drop_insert_lt by lia.
  by rewrite <- app_assoc.
Qed.
Lemma map_table (P : Z → Prop) (g : Z → Z) body loop c : shape c →
  (∀ n i c, loop n i c = match n with O => Ok c | S n => c ← body i c; loop n (i + 1) c end) →
  (∀ i c v, table_ c !! Z.to_nat i = Some v → P v → body i c = Ok (with_table (<[Z.to_nat i := g v]> (table_ c)) c)) →
  Forall P (table_ c) → loop (Z.to_nat (tableSize c)) 0 c = Ok (with_table (g <$> table_ c) c).
Proof.
  intros Hs Hl Hb HP. pose proof (sh_length _ Hs). rewrite (map_loop P g body) by (rewrite ?tableSize_eq by done; done || lia). done.
Qed.
Lemma rep_map g c M : rep c M → (∀ v, 0 ≤ v ≤ max → 0 ≤ g v ≤ max) → rep (with_table (g <$> table_ c) c) (λ r j, g (M r j)).
Proof.
  intros Hr Hg. split.
  - destruct (rep_shape _ _ Hr). split; cbn; try done. by rewrite length_fmap.
  - cbn. intros r j H1 H2. by rewrite list_lookup_fmap, (rep_cell _ _ Hr).
  - cbn. intros r j H1 H2. by apply Hg, (rep_bound _ _ Hr).
Qed.
Lemma table_bound c M : rep c M → Forall (λ v, 0 ≤ v ≤ max) (table_ c).
Proof.
  intros Hr. apply Forall_lookup. intros i v Hi. pose proof (rep_shape _ _ Hr) as Hs. pose proof (lookup_lt_Some _ _ _ Hi) as Hlt.
  pose proof (sh_length _ Hs). pose proof (sh_width _ Hs). set (z := Z.of_nat i).
  assert (0 ≤ z / width_ c < depth_ c) as Hrow by (split; [by apply Z.div_pos; lia|apply Z.div_lt_upper_bound; lia]).
  pose proof (Z.mod_pos_bound z (width_ c) ltac:(lia)) as Hj. pose proof (rep_cell _ _ Hr _ _ Hrow Hj) as Hc.
  rewrite (Z.mul_comm (z / _)), <- Z.div_mod in Hc by lia. unfold z in Hc. rewrite Nat2Z.id in Hc. simplify_eq.
  by apply (rep_bound _ _ Hr).
Qed.

Lemma reset_aux c M : rep c M → reset c = Ok (with_table ((λ _, 0) <$> table_ c) c) ∧
  rep (with_table ((λ _, 0) <$> table_ c) c) (λ _ _, 0).
Proof.
  intros Hr. pose proof max_pos. split; [|by apply (rep_map (λ _, 0) c M); [|lia]].
  apply (map_table (λ _, True) (λ _, 0) (λ i c, table_set i 0 c) reset_loop); [apply Hr|by intros []| |by apply Forall_true].
  intros i c' v Hv _. unfold table_set, table_get. by rewrite Hv.
Qed.
Lemma new_rep width depth : 0 < width → 0 < depth → width * depth < 2 ^ 32 →
  ∃ c, CountMinSketch_new width depth = Ok c ∧ rep c (λ _ _, 0) ∧ width_ c = width ∧ depth_ c = depth ∧ sat_ok c.
Proof.
  intros Hwd Hdp Hf. unfold CountMinSketch_new. rewrite (proj2 (Z.eqb_neq width 0)), (proj2 (Z.eqb_neq depth 0)) by lia. res_simpl.
  rewrite wrap_small by (unfold fits; nia). set (c0 := mkCountMinSketch _ _ _ _). pose proof max_pos as Hmax.
  assert (rep c0 (λ _ _, 0)) as Hr.
  { assert (shape c0) as Hs by (split; cbn; try done; rewrite length_replicate; nia). split; [done| |lia].
    intros r j H1 H2. apply lookup_replicate. split; [done|]. pose proof (cell_index c0 r j Hs H1 H2). cbn in *. lia. }
  destruct (reset_aux c0 _ Hr) as [-> Hr']. eexists. split; [done|]. split; [done|]. split; [done|]. split; [done|].
  unfold sat_ok. cbn [saturated table_ with_table]. rewrite full_none; [done|]. apply Forall_fmap, Forall_forall. intros x _. cbn. lia.
Qed.

Lemma narrow_half v : w ≤ 32 → 0 ≤ v ≤ max → narrow_cast w (double_mul (double_of_u64 v) half) = Ok (v / 2).
Proof.
  intros Hw32 Hv. rewrite max_eq in Hv. assert (2 ^ w ≤ 2 ^ 32) by (apply Z.pow_le_mono_r; lia).
  assert (2 ^ 1 ≤ 2 ^ w) by (apply Z.pow_le_mono_r; lia). assert (2 ^ w = 2 * 2 ^ (w - 1)) as Hw1 by (rewrite <- Z.pow_succ_r by lia; f_equal; lia).
  destruct (decide (v = 0)) as [->|Hne].
  { change (double_mul (double_of_u64 0) half) with (S754_zero false). unfold narrow_cast. change (uint_max w) with (2 ^ w - 1).
    destruct (double_of_u64_exact (2 ^ w - 1)) as (m & e & -> & _); [lia|]. done. }
  destruct (half_exact v) as (m & e & _ & -> & He & Hd & Hm); [lia|].
  destruct (double_of_u64_exact (2 ^ w - 1)) as (m' & e' & Hmax & Hd' & He' & Hm'); [lia|].
  pose proof (digits2_bound m) as Hlo. pose proof (digits2_upper m') as Hhi. rewrite Hd in Hlo. rewrite Hd' in Hhi.
  assert (e - 1 < e') as Hee.
  { assert (2 ^ (w - 1 + - e') < 2 ^ 53) as Ha.
    { rewrite Z.pow_add_r by lia. assert (0 < 2 ^ - e') by (apply Z.pow_pos_nonneg; lia). nia. }
    assert (2 ^ 52 < 2 ^ (w + - e)) as Hb.
    { rewrite Z.pow_add_r by lia. assert (0 < 2 ^ - e) by (apply Z.pow_pos_nonneg; lia). nia. }
    apply Z.pow_lt_mono_r_iff in Ha; [|lia..]. apply Z.pow_lt_mono_r_iff in Hb; lia. }
  unfold narrow_cast. change (uint_max w) with (2 ^ w - 1). rewrite Hmax. unfold SFltb. cbn [SFcompare].
  rewrite (proj2 (Z.compare_gt_iff e' (e - 1))) by lia. cbn [double_to_uint].
  rewrite (proj2 (Z.leb_gt 0 (e - 1))) by lia. change (uint_max w) with (2 ^ w - 1).
  assert (Z.pos m / 2 ^ (- (e - 1)) = v / 2) as ->.
  { replace (- (e - 1)) with (1 + - e) by lia. rewrite Z.pow_add_r, Hm by lia. apply Z.div_mul_cancel_r; [lia|].
    apply Z.pow_nonzero; lia. }
  assert (0 ≤ v / 2 ≤ v) by (split; [apply Z.div_pos; lia|apply Z.div_le_upper_bound; lia]).
  by rewrite (proj2 (Z.leb_le _ _)), (proj2 (Z.leb_le _ _)) by lia.
Qed.
Lemma decay_aux c M : w ≤ 32 → rep c M → ∃ c', decayCountsBy w half c = Ok c' ∧ rep c' (m_halve M) ∧
  width_ c' = width_ c ∧ depth_ c' = depth_ c.
Proof.
  intros Hw32 Hr. exists (with_table ((λ v, v / 2) <$> table_ c) c). split; [|split; [|done]].
  - apply (map_table (λ v, 0 ≤ v ≤ max) (λ v, v / 2)
      (λ i c, v ← table_get i c; v ← narrow_cast w (double_mul (double_of_u64 v) half); table_set i v c)
      (λ n i c, decay_loop w n i half c)); [apply Hr| | |by eapply table_bound].
    + intros [|n] i c'; [done|]. cbn [decay_loop]. destruct (table_get i c'); try done. cbn [mbind result_bind].
      destruct (narrow_cast _ _); try done.
    + intros i c' v Hv Hb. unfold table_set, table_get. rewrite Hv. res_simpl. by rewrite narrow_half.
  - apply (rep_map (λ v, v / 2)); [done|]. intros v Hv. split; [apply Z.div_pos; lia|]. apply Z.div_le_upper_bound; lia.
Qed.

Lemma increment_aux c M key : rep c M → ∃ c', increment w combineHashes hashInt key c = Ok c' ∧ rep c' (m_inc c key M) ∧
  width_ c' = width_ c ∧ depth_ c' = depth_ c ∧ (sat_ok c → sat_ok c').
Proof.
  intros Hr. pose proof (sh_depth _ (rep_shape _ _ Hr)).
  apply increment_loop_spec; [apply Hr|lia|lia|done|done|]. eapply rep_ext; [exact Hr|]. intros r j Hrow _. unfold m_part.
  by rewrite (proj2 (Z.ltb_ge _ _)) by lia.
Qed.
Lemma m_inc_dims c c' key M : width_ c' = width_ c → m_inc c' key M = m_inc c key M.
Proof. intros Hd. unfold m_inc, m_upd, column. by rewrite Hd. Qed.

(** What increments leave in a cell: the number of keys that fall into it, up to
    the maximum. *)
Definition m_hits c (ks : list Z) (r j : Z) : Z := Z.min max (Z.of_nat (length (filter (λ k, column c r k = j) ks))).
Lemma m_hits_cons c k ks r j : m_inc c k (m_hits c ks) r j = m_hits c (k :: ks) r j.
Proof.
  unfold m_inc, m_upd, m_hits. rewrite filter_cons. case_decide as H1; (case_decide as H2; [|try congruence]); cbn [length];
    try congruence; lia.
Qed.
Fixpoint increments (ks : list Z) c : result CountMinSketchBase :=
  match ks with [] => Ok c | k :: ks => c ← increment w combineHashes hashInt k c; increments ks c end.
Lemma increments_spec ks ks0 c c0 : width_ c = width_ c0 → depth_ c = depth_ c0 → rep c (m_hits c0 ks0) → sat_ok c →
  ∃ c', increments ks c = Ok c' ∧ rep c' (m_hits c0 (ks ++ ks0)) ∧ width_ c' = width_ c0 ∧ depth_ c' = depth_ c0 ∧ sat_ok c'.
Proof.
  revert ks0 c. induction ks as [|k ks IH]; intros ks0 c Hwd Hdp Hr Hsat; cbn [increments]; [by exists c|].
  destruct (increment_aux c _ k Hr) as (c1 & -> & Hr1 & W1 & D1 & S1). res_simpl.
  rewrite (m_inc_dims c0 c) in Hr1 by done.
  destruct (IH (k :: ks0) c1) as (c' & -> & Hr' & H'); [congruence|congruence| |by apply S1|].
  { eapply rep_ext; [exact Hr1|]. intros r j _ _. apply m_hits_cons. }
  exists c'. split; [done|]. split; [|done]. eapply rep_ext; [exact Hr'|]. intros r j _ _. unfold m_hits. do 2 f_equal.
  cbn [app]. rewrite filter_app, !filter_cons, filter_app. case_decide; cbn [length]; rewrite !length_app; cbn [length]; lia.
Qed.
End spec.

Lemma filter_length_le (P Q : Z → Prop) `{!∀ k, Decision (P k)} `{!∀ k, Decision (Q k)} (ks : list Z) :
  (∀ k, P k → Q k) → (length (filter P ks) ≤ length (filter Q ks))%nat.
Proof.
  intros HPQ. induction ks as [|k ks IH]; [done|]. rewrite !filter_cons. repeat case_decide; cbn [length]; naive_solver lia.
Qed.

(** ** Properties *)
Section theorems.
Context (w : Z) (combineHashes : Z → Z → Z) (hashInt : Z → Z).
Implicit Types (c : CountMinSketchBase).
Abbreviation max := (getMaxCount w).

(** Increments of the keys [ks] in turn. *)
Definition count_all (ks : list Z) c : result CountMinSketchBase := increments w combineHashes hashInt ks c.
(** The keys of [ks] that share the counter of [key] in row [r]. *)
Definition collisions (width r key : Z) (ks : list Z) : nat :=
  length (filter (λ k, combineHashes (hashInt r) k mod width = combineHashes (hashInt r) key mod width) ks).

(** C27: before a counter reaches its maximum the sketch never undercounts.  With
    [width * depth] below 2^32, after the keys [ks] were counted the estimate of
    every key is the smallest number of colliding keys over the rows, cut off at
    the maximum; so it is at least the number of times the key was counted (up to
    the maximum) and at most the number of all keys; no access is out of bounds,
    and [getSaturatedCounts] is exactly the number of counters at the maximum. *)
Theorem sketch_never_undercounts width depth ks : 0 < w ≤ 64 → 0 < width → 0 < depth → width * depth < 2 ^ 32 →
  ∃ c0 c, CountMinSketch_new width depth = Ok c0 ∧ count_all ks c0 = Ok c ∧
    getSaturatedCounts c = Z.of_nat (length (filter (λ v, v = max) (table_ c))) ∧
    ∀ key, ∃ n, getCount w combineHashes hashInt key c = Ok n ∧
      n = foldr Z.min max ((λ r, Z.of_nat (collisions width r key ks)) <$> seqZ 0 depth) ∧
      Z.min max (Z.of_nat (length (filter (λ k, k = key) ks))) ≤ n ≤ Z.of_nat (length ks).
Proof.
  intros Hw Hwd Hdp Hf. destruct (new_rep w Hw width depth Hwd Hdp Hf) as (c0 & Hnew & Hr0 & W0 & D0 & S0).
  assert (rep w c0 (m_hits w combineHashes hashInt c0 [])) as Hr0'.
  { eapply rep_ext; [exact Hr0|]. intros. unfold m_hits. cbn. pose proof (max_pos w Hw). lia. }
  destruct (increments_spec w combineHashes hashInt Hw ks [] c0 c0) as (c & Heq & Hr & W & D & Hsat); [done..|].
  rewrite app_nil_r in Hr. exists c0, c. split; [done|]. split; [done|]. split; [exact Hsat|]. intros key.
  eexists. split; [by apply (getCount_aux w _ _ Hw c _ key Hr)|].
  assert (∀ r, m_cell combineHashes hashInt r key c (m_hits w combineHashes hashInt c0 ks) =
    Z.min max (Z.of_nat (collisions width r key ks))) as Hcell.
  { intros r. unfold m_cell, m_hits, column, collisions. by rewrite W, W0. }
  split; [|split].
  - unfold m_count. rewrite D, D0. generalize (seqZ 0 depth). intros rs. induction rs as [|r rs IH]; [done|].
    cbn [fmap list_fmap foldr]. rewrite Hcell. cbn in IH. rewrite IH.
    assert (∀ vs, foldr Z.min max vs ≤ max) as Hle by (intros vs; apply foldr_min_max). 
    match goal with |- context [foldr Z.min max ?vs] => pose proof (Hle vs) end. lia.
  - apply m_count_ge; [lia|]. intros r _. rewrite Hcell. apply Z.min_le_compat_l, inj_le. unfold collisions.
    apply filter_length_le. by intros k ->.
  - etrans; [apply (m_count_le _ _ _ _ _ _ 0); lia|]. rewrite Hcell. unfold collisions.
    match goal with |- context [filter ?P ks] => pose proof (length_filter P ks) end. lia.
Qed.

(** [resetCount] subtracts a key's estimate from its counters, none of which
    wraps below zero: afterwards the key is estimated at zero, and no estimate
    has grown. *)
Theorem resetCount_spec c M key : 0 < w ≤ 64 → rep w c M →
  ∃ c', resetCount w combineHashes hashInt key c = Ok c' ∧ rep w c' (m_resetCount w combineHashes hashInt c key M) ∧
    getCount w combineHashes hashInt key c' = Ok 0 ∧
    ∀ k, ∃ n n', getCount w combineHashes hashInt k c = Ok n ∧ getCount w combineHashes hashInt k c' = Ok n' ∧ n' ≤ n.
Proof.
  intros Hw Hr. pose proof (sh_depth _ (rep_shape _ _ _ Hr)) as Hd. unfold resetCount.
  rewrite (getCount_aux w _ _ Hw c M key Hr). res_simpl.
  destruct (resetCount_loop_spec w combineHashes hashInt Hw c M key (Z.to_nat (depth_ c)) 0 c) as (c' & -> & Hr' & W & D);
    [done|lia|lia|done|done| |].
  { eapply rep_ext; [exact Hr|]. intros r j Hrow _. unfold m_part. by rewrite (proj2 (Z.ltb_ge _ _)) by lia. }
  exists c'. split; [done|]. split; [done|].
  assert (∀ r k, column combineHashes hashInt c' r k = column combineHashes hashInt c r k) as Hcol by (intros; unfold column; by rewrite W).
  assert (0 ≤ m_count w combineHashes hashInt c key M) by by apply m_count_range.
  split.
  - rewrite (getCount_aux w _ _ Hw c' _ key Hr'). f_equal. apply Z.le_antisymm; [|by apply m_count_range].
    destruct (m_count_attained w combineHashes hashInt c M key Hr) as (r & Hrow & Hmin).
    etrans; [apply (m_count_le _ _ _ _ _ _ r); lia|]. unfold m_cell, m_resetCount, m_upd. rewrite Hcol, decide_True by done.
    unfold m_cell in Hmin. lia.
  - intros k. do 2 eexists. split; [by apply (getCount_aux w _ _ Hw c M k Hr)|].
    split; [by apply (getCount_aux w _ _ Hw c' _ k Hr')|]. apply m_count_ge; [by apply m_count_range|]. intros r Hrow.
    etrans; [apply (m_count_le _ _ _ _ _ _ r); lia|]. unfold m_cell, m_resetCount, m_upd. rewrite Hcol. case_decide; lia.
Qed.
End theorems.

(** ** A concrete sketch

    Hashes that keep small keys apart, and two rows of eight 32-bit counters. *)
Definition ex_combine (seed key : Z) : Z := seed + key.
Definition ex_int (key : Z) : Z := 3 * key.
Lemma sketch_never_undercounts_witness : ∃ c0 c, CountMinSketch_new 8 2 = Ok c0 ∧
  count_all 32 ex_combine ex_int [5; 6; 5] c0 = Ok c ∧ getCount 32 ex_combine ex_int 5 c = Ok 2.
Proof.
  destruct (sketch_never_undercounts 32 ex_combine ex_int 8 2 [5; 6; 5]) as (c0 & c & Hn & Hc & _ & Hk); [lia..|].
  exists c0, c. split; [done|]. split; [done|]. destruct (Hk 5) as (n & Hg & Hn5 & _). rewrite Hg, Hn5. by vm_compute.
Defined.

(** [width_ * depth_] is computed in 32 bits: a sketch of 2^30 by 4 counters,
    which [MMTinyLFU] asks for when it grows to some 50 million items, gets no memory
    at all, and the first increment writes out of bounds. *)
Lemma sketch_table_wraps : ∃ c, CountMinSketch_new (2 ^ 30) 4 = Ok c ∧ table_ c = [] ∧
  increment 32 ex_combine ex_int 7 c = Undef.
Proof. eexists. split; [vm_compute; reflexivity|]. by vm_compute. Qed.

(** After [resetCount] of a key, another key with which it shares its counters is
    undercounted. *)
Lemma resetCount_undercounts : ∃ c,
  (c ← CountMinSketch_new 8 1; c ← count_all 32 ex_combine ex_int [1; 9] c; resetCount 32 ex_combine ex_int 1 c) = Ok c ∧
  getCount 32 ex_combine ex_int 9 c = Ok 0.
Proof. eexists. split; [vm_compute; reflexivity|]. by vm_compute. Qed.

(** [reset] does not lower the number of saturated counters, and moving a sketch
    forgets it. *)
Lemma saturated_is_stale : ∃ c c',
  (c ← CountMinSketch_new 2 1; count_all 8 ex_combine ex_int (replicate 255 1) c) = Ok c ∧ getSaturatedCounts c = 1 ∧
  reset c = Ok c' ∧ table_ c' = [0; 0] ∧ getSaturatedCounts c' = 1 ∧
  table_ (CountMinSketch_move c).1 = [0; 255] ∧ getSaturatedCounts (CountMinSketch_move c).1 = 0.
Proof. eexists _, _. split; [vm_compute; reflexivity|]. split; [done|]. split; [vm_compute; reflexivity|]. by vm_compute. Qed.
