(* ===== verification/MMTinyLFU.v ===== *)
(** CacheLib's W-TinyLFU container ([allocator/MMTinyLFU.h], [MMTinyLFU-inl.h]):
    a small queue (Tiny) that new items enter, a large one (Main), and a
    [CountMinSketch] of access frequencies that decides which of the two tails is
    evicted.

    The queues are a [MultiDList]; [kMMFlag0] marks an item of Tiny, [kMMFlag1] an
    item that was accessed.  Every operation is the critical section run under
    [lruMutex_], from the current time [now] and, for [tryLockUpdate], whether the
    try-lock succeeded.  Parameters: the hash functions of the sketch, the hash of
    the key of an item ([hashNode]), and [folly::nextPowTwo]. *)
From Stdlib Require Import Floats.SpecFloat.
From S2P Require Import Prelude Refcount SlabAllocator PtrCompressor DList Doubles MMCommon MultiDList MMQueues CountMinSketch.

(** ** Configuration and state *)
Inductive LruType := Main | Tiny.
Definition lru_index (t : LruType) : nat := match t with Main => 0 | Tiny => 1 end.
Definition NumTypes : nat := 2.

Record Config := mkConfig {
  defaultLruRefreshTime : Z;          (** uint32_t *)
  lruRefreshTime : Z;                 (** uint32_t *)
  lruRefreshRatio : spec_float;       (** double *)
  updateOnWrite : bool;
  updateOnRead : bool;
  tryLockUpdate : bool;
  windowToCacheSizeRatio : Z;         (** size_t *)
  tinySizePercent : Z;                (** size_t *)
  mmReconfigureIntervalSecs : Z;      (** seconds *)
}.
Definition checkConfig (c : Config) : result unit :=
  _ ← throw_if ((tinySizePercent c <? 1) || (50 <? tinySizePercent c)) InvalidArgument;
  throw_if ((windowToCacheSizeRatio c <? 2) || (128 <? windowToCacheSizeRatio c)) InvalidArgument.
(** The constructor the others delegate to; [lruRefreshTime] takes its default
    member initializer. *)
Definition Config_new (time : Z) (ratio : spec_float) (updateOnW updateOnR tryLockU : bool)
    (windowToCacheSize tinySizePct mmReconfigureInterval : Z) : result Config :=
  let c := mkConfig time time ratio updateOnW updateOnR tryLockU windowToCacheSize tinySizePct mmReconfigureInterval in
  _ ← checkConfig c; Ok c.

Record Container := mkContainer {
  lru_ : MultiDList;
  windowSize_ : Z;            (** size_t *)
  maxWindowSize_ : Z;         (** size_t *)
  capacity_ : Z;              (** size_t *)
  nextReconfigureTime_ : Z;
  lruRefreshTime_ : Z;
  config_ : Config;
  accessFreq_ : CountMinSketchBase;
}.
Definition kDefaultCapacity : Z := 100.
Definition kHashCount : Z := 4.
Definition kErrorThreshold : Z := 5.
Definition kDecayFactor : spec_float := half.
Definition kLruRefreshTimeCap : Z := 900.

Definition with_lru (ls : MultiDList) (c : Container) : Container :=
  mkContainer ls (windowSize_ c) (maxWindowSize_ c) (capacity_ c) (nextReconfigureTime_ c) (lruRefreshTime_ c) (config_ c) (accessFreq_ c).
Definition with_times (next refresh : Z) (c : Container) : Container :=
  mkContainer (lru_ c) (windowSize_ c) (maxWindowSize_ c) (capacity_ c) next refresh (config_ c) (accessFreq_ c).
Definition with_freq (window : Z) (f : CountMinSketchBase) (c : Container) : Container :=
  mkContainer (lru_ c) window (maxWindowSize_ c) (capacity_ c) (nextReconfigureTime_ c) (lruRefreshTime_ c) (config_ c) f.

(** [(expr) ? max : now + interval] of both constructors and [setConfig]. *)
Definition reconfigureTime (cfg : Config) (now : Z) : Z :=
  if mmReconfigureIntervalSecs cfg =? 0 then uint_max 32
  else u32 (u32 now + mmReconfigureIntervalSecs cfg).

(** An exception that leaves a [noexcept] function terminates the program. *)
Definition noexcept {A} (r : result A) : result A := match r with Throw _ => Undef | _ => r end.

(** ** Flags of an item *)
Definition isTiny (h : Store) (node : Z) : result bool := testRef (isFlagSet kMMFlag0) h node.
Definition markTiny (node : Z) : Store → result Store := withRef (setFlag kMMFlag0) node.
Definition unmarkTiny (node : Z) : Store → result Store := withRef (unSetFlag kMMFlag0) node.
Definition isAccessed (h : Store) (node : Z) : result bool := testRef (isFlagSet kMMFlag1) h node.
Definition markAccessed (node : Z) : Store → result Store := withRef (setFlag kMMFlag1) node.
Definition unmarkAccessed (node : Z) : Store → result Store := withRef (unSetFlag kMMFlag1) node.
Definition getLruType (h : Store) (node : Z) : result LruType :=
  t ← isTiny h node; Ok (if t : bool then Tiny else Main).

Section operations.
Context `{PtrCompressor}.
Context (combineHashes : Z → Z → Z) (hashInt hashNode nextPowTwo : Z → Z).

Definition lru_list (t : LruType) (ls : MultiDList) : result DList := getList (Z.of_nat (lru_index t)) ls.
Definition on_list (t : LruType) (f : DList * Store → result (DList * Store)) (s : MultiDList * Store)
    : result (MultiDList * Store) := on_list_at (lru_index t) f s.

(** *** Frequencies *)

(** [exp(1.0) * maxWindowSize_ / kErrorThreshold], the next power of two. *)
Definition numCounters (maxWindowSize : Z) : result Z :=
  n ← double_to_uint 64 (double_div (double_mul exp_1 (double_of_u64 maxWindowSize)) (double_of_u64 kErrorThreshold));
  Ok (nextPowTwo n).
Definition maybeGrowAccessCountersLocked (c : Container) : result Container :=
  let capacity := mlist_size (lru_ c) in
  if capacity <? u64 (2 * capacity_ c) then Ok c
  else
    let capacity := Z.max capacity kDefaultCapacity in
    let maxWindowSize := u64 (capacity * windowToCacheSizeRatio (config_ c)) in
    n ← numCounters maxWindowSize;
    f ← noexcept (CountMinSketch_new (u32 n) kHashCount);
    Ok (mkContainer (lru_ c) 0 maxWindowSize capacity (nextReconfigureTime_ c) (lruRefreshTime_ c) (config_ c)
          (CountMinSketch_move f).1).
Definition updateFrequenciesLocked (node : Z) (c : Container) : result Container :=
  f ← increment 32 combineHashes hashInt (hashNode node) (accessFreq_ c);
  let window := u64 (windowSize_ c + 1) in
  if window =? maxWindowSize_ c then
    f ← decayCountsBy 32 kDecayFactor f; Ok (with_freq (Z.shiftr window 1) f c)
  else Ok (with_freq window f c).
Definition frequency (node : Z) (c : Container) : result Z := getCount 32 combineHashes hashInt (hashNode node) (accessFreq_ c).
Definition admitToMain (tinyNode mainNode : Z) (c : Container) (h : Store) : result bool :=
  bt ← isTiny h tinyNode; _ ← xdcheck bt;
  bm ← isTiny h mainNode; _ ← xdcheck (negb bm);
  tinyFreq ← frequency tinyNode c;
  mainFreq ← frequency mainNode c;
  Ok (mainFreq <=? tinyFreq).

Definition Container_new (c : Config) (now : Z) : result Container :=
  c ← maybeGrowAccessCountersLocked (mkContainer (MultiDList_new NumTypes) 0 0 0 0 0 c CountMinSketch_empty);
  Ok (with_times (reconfigureTime (config_ c) now) (lruRefreshTime (config_ c)) c).

(** *** Statistics *)
Definition getEvictionAgeStatLocked (c : Container) (projectedLength now : Z) (h : Store) : result EvictionAgeStat :=
  let curr := u32 now in
  l ← lru_list Main (lru_ c);
  let it := tail_ l in
  oldest ← match it with Some a => t ← getUpdateTime h a; Ok (u32 (curr - t)) | None => Ok 0 end;
  it ← walkBack (Z.to_nat (size_ l)) h projectedLength it;
  projected ← match it with Some a => t ← getUpdateTime h a; Ok (u32 (curr - t)) | None => Ok oldest end;
  Ok (mkEvictionAgeStat (mkEvictionStatPerType oldest (size_ l) projected) EvictionStat_zero EvictionStat_zero).
Definition reconfigureLocked (currTime now : Z) (c : Container) (h : Store) : result Container :=
  if currTime <? nextReconfigureTime_ c then Ok c
  else
    let next := u32 (currTime + mmReconfigureIntervalSecs (config_ c)) in
    stat ← getEvictionAgeStatLocked c 0 now h;
    r ← double_to_u32 (double_mul (double_of_u64 (oldestElementAge (warmQueueStat stat))) (lruRefreshRatio (config_ c)));
    Ok (with_times next (Z.min (Z.max (defaultLruRefreshTime (config_ c)) r) kLruRefreshTimeCap) c).
Definition getStats (c : Container) (h : Store) : result MMContainerStat :=
  t ← (if mlist_size (lru_ c) =? 0 then Ok 0
       else it ← mlist_rbegin (lru_ c);
            match curr_ (currIter_ it) with None => Ok 0 | Some a => getUpdateTime h a end);
  Ok (mkMMContainerStat (mlist_size (lru_ c)) t (lruRefreshTime_ c) 0 0 0 0).
Definition counterSize (c : Container) : Z := getByteSize 32 (accessFreq_ c).

(** *** Mutations *)
Definition maybePromoteTailLocked (s : Container * Store) : result (Container * Store) :=
  let '(c, h) := s in
  m ← lru_list Main (lru_ c);
  match tail_ m with
  | None => Ok s
  | Some mainNode =>
      bm ← isTiny h mainNode; _ ← xdcheck (negb bm);
      t ← lru_list Tiny (lru_ c);
      match tail_ t with
      | None => Ok s
      | Some tinyNode =>
          bt ← isTiny h tinyNode; _ ← xdcheck bt;
          toMain ← admitToMain tinyNode mainNode c h;
          if toMain : bool then
            s ← on_list Tiny (remove tinyNode) (lru_ c, h);
            '(ls, h) ← on_list Main (linkAtHead tinyNode) s;
            h ← unmarkTiny tinyNode h;
            s ← on_list Main (remove mainNode) (ls, h);
            '(ls, h) ← on_list Tiny (linkAtTail mainNode) s;
            h ← markTiny mainNode h;
            Ok (with_lru ls c, h)
          else
            '(ls, h) ← on_list Main (moveToHead mainNode) (lru_ c, h);
            Ok (with_lru ls c, h)
      end
  end.

(** Tiny is over its share: its tail goes to Main unconditionally. *)
Definition promoteTail (s : Container * Store) : result (Container * Store) :=
  let '(c, h) := s in
  t ← lru_list Tiny (lru_ c);
  tailNode ← deref (tail_ t);
  s ← on_list Tiny (remove tailNode) (lru_ c, h);
  '(ls, h) ← on_list Main (linkAtHead tailNode) s;
  h ← unmarkTiny tailNode h;
  Ok (with_lru ls c, h).

Definition add (node now : Z) (s : Container * Store) : result (bool * (Container * Store)) :=
  let '(c, h) := s in
  let currTime := u32 now in
  b ← testRef isInMMContainer h node;
  if b : bool then Ok (false, s)
  else
    '(ls, h) ← on_list Tiny (linkAtHead node) (lru_ c, h);
    h ← markTiny node h;
    c ← updateFrequenciesLocked node (with_lru ls c);
    let expectedSize := u64 (tinySizePercent (config_ c) * mlist_size (lru_ c)) / 100 in
    t ← lru_list Tiny (lru_ c);
    '(c, h) ← (if expectedSize <? size_ t then promoteTail (c, h) else maybePromoteTailLocked (c, h));
    c ← maybeGrowAccessCountersLocked c;
    h ← withRef markInMMContainer node h;
    h ← setUpdateTime node currTime h;
    h ← unmarkAccessed node h;
    Ok (true, (c, h)).

Definition removeLocked (node : Z) (s : Container * Store) : result (Container * Store) :=
  let '(c, h) := s in
  b ← isTiny h node;
  '(ls, h) ← (if b : bool then '(ls, h) ← on_list Tiny (remove node) (lru_ c, h); h ← unmarkTiny node h; Ok (ls, h)
              else on_list Main (remove node) (lru_ c, h));
  h ← unmarkAccessed node h;
  h ← withRef unmarkInMMContainer node h;
  Ok (with_lru ls c, h).
Definition removeNode (node : Z) (s : Container * Store) : result (bool * (Container * Store)) :=
  b ← testRef isInMMContainer (snd s) node;
  if negb b then Ok (false, s) else s ← removeLocked node s; Ok (true, s).

Definition replaceNode (oldNode newNode : Z) (s : Container * Store) : result (bool * (Container * Store)) :=
  let '(c, h) := s in
  bo ← testRef isInMMContainer h oldNode;
  if negb bo then Ok (false, s)
  else
    bn ← testRef isInMMContainer h newNode;
    if bn : bool then Ok (false, s)
    else
      updateTime ← getUpdateTime h oldNode;
      tiny ← isTiny h oldNode;
      '(ls, h) ← (if tiny : bool then
                    '(ls, h) ← on_list Tiny (replace oldNode newNode) (lru_ c, h);
                    h ← unmarkTiny oldNode h; h ← markTiny newNode h; Ok (ls, h)
                  else on_list Main (replace oldNode newNode) (lru_ c, h));
      h ← withRef unmarkInMMContainer oldNode h;
      h ← withRef markInMMContainer newNode h;
      h ← setUpdateTime newNode updateTime h;
      acc ← isAccessed h oldNode;
      h ← (if acc : bool then markAccessed newNode h else unmarkAccessed newNode h);
      Ok (true, (with_lru ls c, h)).

(** The critical section of [recordAccess]. *)
Definition recordAccess_locked (node curr now : Z) (s : Container * Store) : result (bool * (Container * Store)) :=
  let '(c, h) := s in
  c ← reconfigureLocked curr now c h;
  b ← testRef isInMMContainer h node;
  if negb b then Ok (false, (c, h))
  else
    t ← getLruType h node;
    '(ls, h) ← on_list t (moveToHead node) (lru_ c, h);
    h ← setUpdateTime node curr h;
    c ← updateFrequenciesLocked node (with_lru ls c);
    Ok (true, (c, h)).
Definition recordAccess (node : Z) (mode : AccessMode) (now : Z) (lockFree : bool)
    (s : Container * Store) : result (bool * (Container * Store)) :=
  let '(c, h) := s in
  let cfg := config_ c in
  if match mode with kWrite => negb (updateOnWrite cfg) | kRead => negb (updateOnRead cfg) end
  then Ok (false, s)
  else
    let curr := u32 now in
    b ← testRef isInMMContainer h node;
    t ← getUpdateTime h node;
    acc ← isAccessed h node;
    if b && ((u32 (t + lruRefreshTime_ c) <=? curr) || negb acc) then
      h ← (if acc : bool then Ok h else markAccessed node h);
      if tryLockUpdate cfg && negb lockFree then Ok (false, (c, h))
      else recordAccess_locked node curr now (c, h)
    else Ok (false, s).

Definition setConfig (newConfig : Config) (now : Z) (c : Container) : Container :=
  mkContainer (lru_ c) (windowSize_ c) (maxWindowSize_ c) (capacity_ c) (reconfigureTime newConfig now)
    (lruRefreshTime newConfig) newConfig (accessFreq_ c).

(** *** The eviction iterator *)
Record LockedIterator := mkLockedIterator { tIter_ : Iterator; mIter_ : Iterator }.
Definition getEvictionIterator (c : Container) : result LockedIterator :=
  t ← lru_list Tiny (lru_ c); m ← lru_list Main (lru_ c); Ok (mkLockedIterator (rbegin t) (rbegin m)).
Definition evictTiny (it : LockedIterator) (c : Container) (h : Store) : result bool :=
  match curr_ (mIter_ it), curr_ (tIter_ it) with
  | None, _ => Ok true
  | _, None => Ok false
  | Some m, Some t => b ← admitToMain t m c h; Ok (negb b)
  end.
Definition it_valid (it : LockedIterator) : bool :=
  bool_decide (is_Some (curr_ (tIter_ it))) || bool_decide (is_Some (curr_ (mIter_ it))).
Definition it_get (it : LockedIterator) (c : Container) (h : Store) : result (option Z) :=
  b ← evictTiny it c h; Ok (if b : bool then curr_ (tIter_ it) else curr_ (mIter_ it)).
Definition it_incr (it : LockedIterator) (c : Container) (h : Store) : result LockedIterator :=
  b ← evictTiny it c h;
  if b : bool then t ← iter_incr h (tIter_ it); Ok (mkLockedIterator t (mIter_ it))
  else m ← iter_incr h (mIter_ it); Ok (mkLockedIterator (tIter_ it) m).
Definition it_resetToBegin (it : LockedIterator) (c : Container) : result LockedIterator :=
  t ← lru_list Tiny (lru_ c); m ← lru_list Main (lru_ c);
  Ok (mkLockedIterator (resetToBegin t (tIter_ it)) (resetToBegin m (mIter_ it))).
(** [remove(LockedIterator& it)]; the iterator moves on before the removal. *)
Definition removeIterator (it : LockedIterator) (s : Container * Store) : result (LockedIterator * (Container * Store)) :=
  p ← it_get it (fst s) (snd s);
  node ← deref p;
  b ← testRef isInMMContainer (snd s) node;
  _ ← xdcheck b;
  it ← it_incr it (fst s) (snd s);
  s ← removeLocked node s;
  Ok (it, s).

(** *** Saved state; [tryLockUpdate] keeps the default of the object. *)
Record MMTinyLFUConfigObject := mkMMTinyLFUConfigObject {
  o_lruRefreshTime : Z; o_updateOnWrite : bool; o_windowToCacheSizeRatio : Z; o_tinySizePercent : Z;
  o_updateOnRead : bool; o_tryLockUpdate : bool; o_lruRefreshRatio : spec_float;
}.
Record MMTinyLFUObject := mkMMTinyLFUObject { o_config : MMTinyLFUConfigObject; o_lrus : MultiDListObject }.
Definition MMTinyLFU_saveState (c : Container) : result MMTinyLFUObject :=
  let cfg := config_ c in
  lrus ← MultiDList_saveState (lru_ c);
  Ok (mkMMTinyLFUObject
        (mkMMTinyLFUConfigObject (s32 (lruRefreshTime_ c)) (updateOnWrite cfg) (s32 (windowToCacheSizeRatio cfg))
           (s32 (tinySizePercent cfg)) (updateOnRead cfg) false (lruRefreshRatio cfg)) lrus).
Definition Config_restore (o : MMTinyLFUConfigObject) : result Config :=
  Config_new (u32 (o_lruRefreshTime o)) (o_lruRefreshRatio o) (o_updateOnWrite o) (o_updateOnRead o)
    (o_tryLockUpdate o) (u64 (o_windowToCacheSizeRatio o)) (u64 (o_tinySizePercent o)) 0.
Definition Container_restore (o : MMTinyLFUObject) (now : Z) : result Container :=
  ls ← MultiDList_restore (o_lrus o);
  cfg ← Config_restore (o_config o);
  maybeGrowAccessCountersLocked
    (mkContainer ls 0 0 0 (reconfigureTime cfg now) (lruRefreshTime cfg) cfg CountMinSketch_empty).
End operations.
