(* ===== verification/TinyLFUSpec.v ===== *)
(** What the W-TinyLFU container of [MMTinyLFU] does: its invariant, the effect of
    each operation on the two queues, and the order of eviction. *)
From Stdlib Require Import Floats.SpecFloat.
From S2P Require Import Prelude Refcount SlabAllocator PtrCompressor DList Doubles MMCommon MultiDList MMQueues CountMinSketch MMTinyLFU.

(** [folly::nextPowTwo]: the least power of two that is at least [v]. *)
Definition next_pow_two (f : Z → Z) : Prop := ∀ v, 0 ≤ v ≤ 2 ^ 63 →
  ∃ k, 0 ≤ k ∧ f v = 2 ^ k ∧ v ≤ 2 ^ k ∧ ∀ j, 0 ≤ j < k → 2 ^ j < v.

(** Configurations [checkConfig] accepts. *)
Record cfg_ok (cfg : Config) : Prop := {
  co_window : 2 ≤ windowToCacheSizeRatio cfg ≤ 128;
  co_tiny : 1 ≤ tinySizePercent cfg ≤ 50;
  co_ratio : scale_ok (lruRefreshRatio cfg);
}.

Section spec.
Context `{PtrCompressor}.
Context (combineHashes : Z → Z → Z) (hashInt hashNode nextPowTwo : Z → Z) (Hpow : next_pow_two nextPowTwo).
Implicit Types (h : Store) (c : Container) (a b : Z) (main tiny : list Z).

Abbreviation update := (updateFrequenciesLocked combineHashes hashInt hashNode).
Abbreviation grow := (maybeGrowAccessCountersLocked nextPowTwo).

(** ** The frequency counters *)
Definition items_max : Z := 2 ^ 22.
Record freq_ok c : Prop := {
  fo_rep : ∃ M, rep 32 (accessFreq_ c) M;
  fo_window : 0 ≤ windowSize_ c < maxWindowSize_ c;
  fo_max : maxWindowSize_ c ≤ 2 ^ 29;
  fo_cap : 0 < capacity_ c ≤ items_max;
}.
(** The estimate of an item's frequency. *)
Definition freq c a : Z :=
  match frequency combineHashes hashInt hashNode a c with Ok n => n | _ => 0 end.
Lemma freq_eq c a : freq_ok c → frequency combineHashes hashInt hashNode a c = Ok (freq c a).
Proof.
  intros [[M Hr] _ _ _]. unfold freq, frequency. by rewrite (getCount_aux 32 _ _ ltac:(lia) _ M _ Hr).
Qed.

Lemma width_ok t n : 0 < t ≤ 2 ^ 29 → numCounters nextPowTwo t = Ok n → 0 < n ≤ 2 ^ 29.
Proof.
  intros Ht. unfold numCounters. change kErrorThreshold with 5.
  destruct (scaled_le t) as (v & -> & Hv); [lia|]. res_simpl. intros [= <-].
  destruct (Hpow v) as (k & Hk & -> & _ & Hmin); [lia|]. split; [apply Z.pow_pos_nonneg; lia|].
  destruct (Z.le_gt_cases k 29) as [Hle|Hgt]; [by apply Z.pow_le_mono_r|]. specialize (Hmin 29 ltac:(lia)). lia.
Qed.
Lemma counters_ok t : 0 < t ≤ 2 ^ 29 → ∃ f, (n ← numCounters nextPowTwo t; noexcept (CountMinSketch_new (u32 n) kHashCount)) = Ok f ∧
  rep 32 (CountMinSketch_move f).1 (λ _ _, 0).
Proof.
  intros Ht. destruct (numCounters nextPowTwo t) as [n| |] eqn:E.
  2,3: unfold numCounters in E; change kErrorThreshold with 5 in E; destruct (scaled_le t) as (v & Hv & _); [lia|]; by rewrite Hv in E.
  pose proof (width_ok t n Ht E) as Hn. res_simpl. rewrite wrap_small by (unfold fits; lia). change kHashCount with 4.
  destruct (new_rep 32 ltac:(lia) n 4) as (f & -> & Hr & _); [lia..|]. exists f. split; [done|].
  by apply (rep_saturated 32 f _ 0).
Qed.

(** What the counters leave alone. *)
Definition same_queues c c' : Prop :=
  lru_ c' = lru_ c ∧ config_ c' = config_ c ∧ nextReconfigureTime_ c' = nextReconfigureTime_ c ∧ lruRefreshTime_ c' = lruRefreshTime_ c.

Lemma grow_aux c : 0 ≤ capacity_ c ≤ items_max → (0 < capacity_ c → freq_ok c) → 0 ≤ mlist_size (lru_ c) ≤ items_max →
  cfg_ok (config_ c) → ∃ c', grow c = Ok c' ∧ freq_ok c' ∧ same_queues c c'.
Proof.
  intros Hcap Hf Hn Hc. unfold maybeGrowAccessCountersLocked, items_max in *.
  rewrite (wrap_small 64 (2 * _)) by (unfold fits; lia).
  destruct (Z.ltb_spec (mlist_size (lru_ c)) (2 * capacity_ c)) as [Hlt|Hge]; [exists c; split; [done|]; split; [apply Hf; lia|done]|].
  pose proof (co_window _ Hc) as Hw. change kDefaultCapacity with 100.
  assert (0 < Z.max (mlist_size (lru_ c)) 100 * windowToCacheSizeRatio (config_ c) ≤ 2 ^ 29) as Hwin by nia.
  rewrite wrap_small by (unfold fits; lia). destruct (counters_ok _ Hwin) as (f & Hf' & Hr).
  destruct (numCounters nextPowTwo _) as [n| |]; cbn [mbind result_bind] in Hf' |- *; try done.
  rewrite Hf'. res_simpl. eexists. split; [done|]. split; [|done]. split; cbn; [by eexists|lia|lia|unfold items_max; lia].
Qed.
Lemma update_aux a c : freq_ok c → ∃ c', update a c = Ok c' ∧ freq_ok c' ∧ same_queues c c' ∧
  capacity_ c' = capacity_ c ∧ maxWindowSize_ c' = maxWindowSize_ c.
Proof.
  intros Hf. destruct (fo_rep _ Hf) as [M Hr]. pose proof (fo_window _ Hf). pose proof (fo_max _ Hf). unfold updateFrequenciesLocked.
  destruct (increment_aux 32 combineHashes hashInt ltac:(lia) _ M (hashNode a) Hr) as (f & -> & Hr' & _). res_simpl.
  rewrite wrap_small by (unfold fits; lia). destruct (Z.eqb_spec (windowSize_ c + 1) (maxWindowSize_ c)) as [He|He].
  - destruct (decay_aux 32 ltac:(lia) f _ ltac:(lia) Hr') as (f' & Hd & Hr2 & _). unfold kDecayFactor. rewrite Hd. res_simpl.
    eexists. split; [done|]. split; [|done]. rewrite Z.shiftr_div_pow2 by lia. change (2 ^ 1) with 2.
    split; cbn; [by eexists| |lia|apply Hf]. split; [apply Z.div_pos; lia|apply Z.div_lt_upper_bound; lia].
  - eexists. split; [done|]. split; [|done]. split; cbn; [by eexists|lia|lia|apply Hf].
Qed.

(** ** The two queues *)
Lemma in_two main tiny a : in_lists [main; tiny] a ↔ a ∈ main ∨ a ∈ tiny.
Proof.
  split; [intros ([|[|i]] & xs & Hx & Ha); cbn in Hx; simplify_eq; auto|].
  intros [Ha|Ha]; [by exists 0%nat, main|by exists 1%nat, tiny].
Qed.
(** Exactly the items of Tiny have its flag. *)
Definition tiny_ok tiny (fl : Flags → Z → bool) : Prop := ∀ a, fl kMMFlag0 a = true ↔ a ∈ tiny.
Lemma tiny_false tiny fl a : tiny_ok tiny fl → a ∉ tiny → fl kMMFlag0 a = false.
Proof. intros Hok Ha. destruct (fl kMMFlag0 a) eqn:E; [|done]. by apply Hok in E. Qed.
Lemma tiny_set tiny fl a : tiny_ok tiny fl → tiny_ok (a :: tiny) (setf kMMFlag0 a true fl).
Proof.
  intros Hok b. rewrite elem_of_cons. destruct (decide (b = a)) as [->|Hb]; [rewrite setf_eq; naive_solver|].
  rewrite setf_other by done. specialize (Hok b). naive_solver.
Qed.
Lemma tiny_perm tiny tiny' fl : tiny_ok tiny fl → (∀ a, a ∈ tiny' ↔ a ∈ tiny) → tiny_ok tiny' fl.
Proof. intros Hok Hp a. rewrite Hp. apply Hok. Qed.
Lemma tiny_unset tiny tiny' fl a : tiny_ok tiny fl → (∀ b, b ∈ tiny' ↔ b ∈ tiny ∧ b ≠ a) → tiny_ok tiny' (setf kMMFlag0 a false fl).
Proof.
  intros Hok Hp b. rewrite Hp. destruct (decide (b = a)) as [->|Hb]; [rewrite setf_eq; naive_solver|].
  rewrite setf_other by done. specialize (Hok b). naive_solver.
Qed.
Lemma tiny_other tiny fl f a v : f ≠ kMMFlag0 → tiny_ok tiny fl → tiny_ok tiny (setf f a v fl).
Proof. intros Hf Hok b. rewrite setf_ne by done. apply Hok. Qed.

Section state.
Context {A : Z → Prop} {h : Store} {ls : MultiDList} {main tiny : list Z} {lk fl tm}
  (Hs : qst A h ls [main; tiny] lk fl tm).

Lemma main_not_tiny a : a ∈ main → a ∉ tiny.
Proof. intros Hm Ht. by pose proof (qr_disj _ _ _ (qst_rep _ _ _ _ _ _ _ Hs) 0 1 main tiny a eq_refl eq_refl Hm Ht). Qed.
Lemma main_nodup : NoDup main.
Proof. by apply (qst_nodup Hs 0). Qed.
Lemma tiny_nodup : NoDup tiny.
Proof. by apply (qst_nodup Hs 1). Qed.
Lemma main_alive a : a ∈ main → A a.
Proof. by apply (qst_queued_alive Hs 0). Qed.
Lemma tiny_alive a : a ∈ tiny → A a.
Proof. by apply (qst_queued_alive Hs 1). Qed.
Lemma get_main : ∃ l, lru_list Main ls = Ok l ∧ dlist_rep h l main.
Proof. by apply (qst_get Hs 0). Qed.
Lemma get_tiny : ∃ l, lru_list Tiny ls = Ok l ∧ dlist_rep h l tiny.
Proof. by apply (qst_get Hs 1). Qed.
Lemma queues_size : mlist_size ls = Z.of_nat (length main + length tiny).
Proof.
  destruct (qr_size h ls [main; tiny] (qst_rep _ _ _ _ _ _ _ Hs)) as [-> _]; [cbn; lia|]. cbn. rewrite !length_app. cbn. f_equal. lia.
Qed.
(** No more items are queued than allocated. *)
Lemma queues_few (h0 : Store) : (∀ a, A a ↔ is_Some (payload h0 a)) → (length main + length tiny ≤ size h0)%nat.
Proof.
  intros HA. assert (NoDup (main ++ tiny)) as Hnd.
  { apply NoDup_app. split; [apply main_nodup|]. split; [intros a; apply main_not_tiny|apply tiny_nodup]. }
  rewrite <- length_app, <- (size_list_to_set (C := gset Z)) by done. rewrite <- size_dom. apply subseteq_size.
  intros a [Ha|Ha]%elem_of_list_to_set%elem_of_app; apply elem_of_dom;
    [apply main_alive, HA in Ha|apply tiny_alive, HA in Ha]; unfold payload in Ha; by apply fmap_is_Some in Ha.
Qed.

(** [getTail] of a list with a last element. *)
Lemma tail_snoc l xs a : dlist_rep h l (xs ++ [a]) → tail_ l = Some a.
Proof. intros Hd. by rewrite (rep_tail _ _ _ Hd), last_snoc. Qed.
End state.

Lemma lookup_snoc (xs : list Z) a : (xs ++ [a]) !! length xs = Some a.
Proof. by rewrite lookup_app_r, Nat.sub_diag by done. Qed.
Lemma snoc_elem (xs : list Z) a b : NoDup (xs ++ [a]) → b ∈ xs ↔ b ∈ xs ++ [a] ∧ b ≠ a.
Proof.
  intros (_ & Hd & _)%NoDup_app. rewrite elem_of_app, list_elem_of_singleton. split; [|naive_solver].
  intros Hb. split; [by left|]. intros ->. apply (Hd a Hb). by left.
Qed.

(** *** Moving the tail of Tiny to the head of Main *)
Lemma promoteTail_aux A h c main ts a lk fl tm : qst A h (lru_ c) [main; ts ++ [a]] lk fl tm → tiny_ok (ts ++ [a]) fl →
  ∃ ls' h', promoteTail (c, h) = Ok (with_lru ls' c, h') ∧ qst A h' ls' [a :: main; ts] lk (setf kMMFlag0 a false fl) tm ∧
    tiny_ok ts (setf kMMFlag0 a false fl).
Proof.
  intros Hs Hok. unfold promoteTail. destruct (get_tiny Hs) as (l & -> & Hd). res_simpl. rewrite (tail_snoc l ts a Hd). res_simpl.
  assert (a ∈ ts ++ [a]) as Hin by set_solver. pose proof (tiny_alive Hs a Hin) as Ha.
  destruct (qst_remove Hs 1 _ (length ts) a eq_refl (lookup_snoc ts a)) as (ls1 & h1 & Heq1 & Hs1).
  rewrite delete_snoc in Hs1. cbn in Hs1. unfold on_list. cbn [lru_index]. rewrite Heq1. res_simpl.
  assert (¬ in_lists [main; ts] a) as Hni.
  { rewrite in_two. intros [Hm|Ht]; [by apply (main_not_tiny Hs a Hm)|].
    by apply (snoc_elem ts a a (tiny_nodup Hs)) in Ht as [_ ?]. }
  destruct (qst_link Hs1 0 main a eq_refl Ha Hni) as (ls2 & h2 & Heq2 & Hs2). cbn in Hs2. rewrite Heq2. res_simpl.
  destruct (qst_mark Hs2 kMMFlag0 false a Ha) as (h3 & Heq3 & Hs3). unfold unmarkTiny. rewrite Heq3. res_simpl.
  exists ls2, h3. split; [done|]. split; [done|]. apply (tiny_unset (ts ++ [a])); [done|].
  intros b. apply snoc_elem, (tiny_nodup Hs).
Qed.

(** *** The contest of the tails *)
Definition admits c (t m : Z) : bool := freq c m <=? freq c t.
(** The tails change places if the tail of Tiny is at least as frequent;
    otherwise the tail of Main gets another round. *)
Definition contest c main tiny : list Z * list Z :=
  match last main, last tiny with
  | Some m, Some t =>
      if admits c t m then (t :: removelast main, removelast tiny ++ [m]) else (m :: removelast main, tiny)
  | _, _ => (main, tiny)
  end.
Definition contest_flags c main tiny (fl : Flags → Z → bool) : Flags → Z → bool :=
  match last main, last tiny with
  | Some m, Some t => if admits c t m then setf kMMFlag0 m true (setf kMMFlag0 t false fl) else fl
  | _, _ => fl
  end.

Abbreviation toMain := (admitToMain combineHashes hashInt hashNode).
Lemma admit_aux A h ls main tiny lk fl tm c t m : qst A h ls [main; tiny] lk fl tm → tiny_ok tiny fl → freq_ok c →
  t ∈ tiny → m ∈ main → toMain t m c h = Ok (admits c t m).
Proof.
  intros Hs Hok Hf Ht Hm. unfold admitToMain, isTiny. rewrite (qst_testFlag Hs kMMFlag0 t) by by eapply tiny_alive.
  rewrite (proj2 (Hok t) Ht). res_simpl. rewrite (qst_testFlag Hs kMMFlag0 m) by by eapply main_alive.
  rewrite (tiny_false tiny fl m Hok) by by eapply main_not_tiny. res_simpl. rewrite !freq_eq by done. done.
Qed.

Lemma contest_aux A h c main tiny lk fl tm : qst A h (lru_ c) [main; tiny] lk fl tm → tiny_ok tiny fl → freq_ok c →
  let q := contest c main tiny in
  ∃ ls' h', maybePromoteTailLocked combineHashes hashInt hashNode (c, h) = Ok (with_lru ls' c, h') ∧
    qst A h' ls' [q.1; q.2] lk (contest_flags c main tiny fl) tm ∧ tiny_ok q.2 (contest_flags c main tiny fl).
Proof.
  intros Hs Hok Hf q. subst q. unfold maybePromoteTailLocked, contest, contest_flags.
  assert (c = with_lru (lru_ c) c) as Hc by by destruct c.
  destruct (get_main Hs) as (l & -> & Hd). res_simpl. rewrite (rep_tail _ _ _ Hd).
  destruct (snoc_case main) as [->|(ms & m & -> & ->)]; [exists (lru_ c), h; by rewrite <- Hc|].
  assert (m ∈ ms ++ [m]) as Hm by set_solver. pose proof (main_alive Hs m Hm) as Ham.
  unfold isTiny. rewrite (qst_testFlag Hs kMMFlag0 m Ham), (tiny_false tiny fl m Hok) by by eapply main_not_tiny. res_simpl.
  destruct (get_tiny Hs) as (l' & -> & Hd'). res_simpl. rewrite (rep_tail _ _ _ Hd').
  destruct (snoc_case tiny) as [->|(ts & t & -> & ->)]; [exists (lru_ c), h; by rewrite <- Hc|].
  assert (t ∈ ts ++ [t]) as Ht by set_solver. pose proof (tiny_alive Hs t Ht) as Hat.
  rewrite (qst_testFlag Hs kMMFlag0 t Hat), (proj2 (Hok t) Ht). res_simpl.
  rewrite (admit_aux A h (lru_ c) _ _ lk fl tm c t m Hs Hok Hf Ht Hm). res_simpl. rewrite !removelast_last.
  pose proof (snoc_elem ts t t (tiny_nodup Hs)) as Hts. pose proof (snoc_elem ms m m (main_nodup Hs)) as Hms.
  assert (m ≠ t) as Hmt by (intros ->; by apply (main_not_tiny Hs t Hm)).
  destruct (admits c t m); unfold on_list; cbn [lru_index].
  - destruct (qst_remove Hs 1 _ (length ts) t eq_refl (lookup_snoc ts t)) as (ls1 & h1 & -> & Hs1).
    rewrite delete_snoc in Hs1. cbn in Hs1. res_simpl.
    destruct (qst_link Hs1 0 (ms ++ [m]) t eq_refl Hat) as (ls2 & h2 & -> & Hs2).
    { rewrite in_two. intros [Hx|Hx]; [by apply (main_not_tiny Hs t Hx)|naive_solver]. }
    cbn in Hs2. res_simpl. destruct (qst_mark Hs2 kMMFlag0 false t Hat) as (h3 & Heq3 & Hs3). unfold unmarkTiny. rewrite Heq3. res_simpl.
    destruct (qst_remove Hs3 0 _ (S (length ms)) m eq_refl (lookup_snoc ms m)) as (ls4 & h4 & -> & Hs4).
    change (delete (S (length ms)) (t :: ms ++ [m])) with (t :: delete (length ms) (ms ++ [m])) in Hs4. rewrite delete_snoc in Hs4. cbn in Hs4. res_simpl.
    destruct (qst_link_tail Hs4 1 ts m eq_refl Ham) as (ls5 & h5 & -> & Hs5).
    { rewrite in_two, elem_of_cons. intros [[Hx|Hx]|Hx]; [done|naive_solver|].
      apply (main_not_tiny Hs m Hm). set_solver. }
    cbn in Hs5. res_simpl. destruct (qst_mark Hs5 kMMFlag0 true m Ham) as (h6 & Heq6 & Hs6). unfold markTiny. rewrite Heq6. res_simpl.
    exists ls5, h6. split; [done|]. split; [done|]. cbn [snd]. apply (tiny_perm (m :: ts)); [|intros b; set_solver].
    apply tiny_set, (tiny_unset (ts ++ [t])); [done|]. intros b. apply snoc_elem, (tiny_nodup Hs).
  - destruct (qst_move Hs 0 _ (length ms) m eq_refl (lookup_snoc ms m)) as (ls1 & h1 & -> & Hs1).
    rewrite delete_snoc in Hs1. res_simpl. by exists ls1, h1.
Qed.

(** ** Invariant of the container *)
Record tlfu_wf h c main tiny : Prop := {
  tw_st : qst (λ a, is_Some (payload h a)) h (lru_ c) [main; tiny] (linked h) (λ f, flag f h) (time h);
  tw_tiny : tiny_ok tiny (λ f, flag f h);
  tw_linked a : linked h a = true ↔ a ∈ main ∨ a ∈ tiny;
  tw_cfg : cfg_ok (config_ c);
  tw_freq : freq_ok c;
  tw_few : Z.of_nat (size h) ≤ items_max;
}.

(** What every operation keeps: the allocated items, the update times of the
    others, and the flags it does not own. *)
Definition keeps h a h' : Prop :=
  (∀ b, is_Some (payload h' b) ↔ is_Some (payload h b)) ∧
  (∀ b, b ≠ a → time h' b = time h b) ∧
  (∀ f b, f ≠ kMMFlag0 → f ≠ kMMFlag1 → flag f h' b = flag f h b).
Definition own_flags h (fl : Flags → Z → bool) : Prop := ∀ f b, f ≠ kMMFlag0 → f ≠ kMMFlag1 → fl f b = flag f h b.
Lemma own_setf h f a v fl : f = kMMFlag0 ∨ f = kMMFlag1 → own_flags h fl → own_flags h (setf f a v fl).
Proof. intros Hf Hown g b H0 H1. rewrite setf_ne by (destruct Hf; congruence). by apply Hown. Qed.
Lemma own_contest h c main tiny fl : own_flags h fl → own_flags h (contest_flags c main tiny fl).
Proof.
  intros Hown. unfold contest_flags. destruct (last main), (last tiny); try done. destruct (admits _ _ _); [|done].
  apply own_setf; [by left|]. apply own_setf; [by left|done].
Qed.

Lemma size_alive h h' : (∀ a, is_Some (payload h' a) ↔ is_Some (payload h a)) → size h' = size h.
Proof.
  intros Ha. rewrite <- !size_dom. f_equal. apply set_eq. intros a. rewrite !elem_of_dom. specialize (Ha a).
  unfold payload in Ha. by rewrite !fmap_is_Some in Ha.
Qed.

Lemma wf_of_st h c main tiny h' c' main' tiny' lk fl tm : tlfu_wf h c main tiny →
  qst (λ a, is_Some (payload h a)) h' (lru_ c') [main'; tiny'] lk fl tm → tiny_ok tiny' fl →
  (∀ a, lk a = true ↔ a ∈ main' ∨ a ∈ tiny') → config_ c' = config_ c → freq_ok c' → tlfu_wf h' c' main' tiny'.
Proof.
  intros Hwf Hs Hok Hlk Hcf Hf. split; [..|rewrite Hcf; apply Hwf|done|].
  - destruct Hs as [Hr Hw Ha Hv H1 H2 H3]. split; try done. intros a Hal. by apply Hv, Ha.
  - intros a. rewrite (qst_flag _ _ _ _ _ _ _ Hs). apply Hok.
  - intros a. rewrite (qst_linked _ _ _ _ _ _ _ Hs). apply Hlk.
  - rewrite (size_alive h h'); [apply Hwf|]. apply (qst_alive _ _ _ _ _ _ _ Hs).
Qed.
Lemma keeps_of_st h a h' ls xss lk fl tm : qst (λ a, is_Some (payload h a)) h' ls xss lk fl tm → own_flags h fl →
  (∀ b, b ≠ a → tm b = time h b) → keeps h a h'.
Proof.
  intros Hs Hown Htm. split; [apply (qst_alive _ _ _ _ _ _ _ Hs)|]. split.
  - intros b Hb. rewrite (qst_time _ _ _ _ _ _ _ Hs). by apply Htm.
  - intros f b H0 H1. rewrite (qst_flag _ _ _ _ _ _ _ Hs). by apply Hown.
Qed.

(** ** Adding *)
Definition share c (n : nat) : Z := tinySizePercent (config_ c) * Z.of_nat n / 100.
(** The queues after an item was put at the head of Tiny: over its share, Tiny
    gives its tail to Main; otherwise the tails compete. *)
Definition added c a main tiny : list Z * list Z :=
  let tiny := a :: tiny in
  if share c (length main + length tiny) <? Z.of_nat (length tiny)
  then (from_option (λ t, t :: main) main (last tiny), removelast tiny)
  else contest c main tiny.

Lemma contest_elem c main tiny a : let q := contest c main tiny in a ∈ q.1 ∨ a ∈ q.2 ↔ a ∈ main ∨ a ∈ tiny.
Proof.
  unfold contest. destruct (snoc_case main) as [->|(ms & m & -> & ->)]; [done|].
  destruct (snoc_case tiny) as [->|(ts & t & -> & ->)]; [done|]. rewrite !removelast_last.
  destruct (admits _ _ _); cbn [fst snd]; set_solver.
Qed.
Lemma added_elem c a main tiny b : let q := added c a main tiny in b ∈ q.1 ∨ b ∈ q.2 ↔ b = a ∨ b ∈ main ∨ b ∈ tiny.
Proof.
  cbv zeta. unfold added. destruct (_ <? _).
  - destruct (snoc_case (a :: tiny)) as [|(ts & t & Ht & Hl)]; [done|]. rewrite Hl. cbn [from_option fst snd].
    assert (b ∈ a :: tiny ↔ b ∈ ts ++ [t]) as Hb by by rewrite Ht. rewrite Ht, removelast_last.
    rewrite elem_of_cons in Hb. set_solver.
  - rewrite contest_elem. set_solver.
Qed.

Lemma contest_lengths c main tiny : length (contest c main tiny).1 = length main ∧ length (contest c main tiny).2 = length tiny.
Proof.
  unfold contest. destruct (snoc_case main) as [->|(ms & m & -> & ->)]; [done|].
  destruct (snoc_case tiny) as [->|(ts & t & -> & ->)]; [done|]. rewrite !removelast_last.
  destruct (admits _ _ _); cbn [fst snd length]; rewrite ?length_app; cbn; lia.
Qed.
Lemma added_lengths c a main tiny : let q := added c a main tiny in
  (length q.1 + length q.2 = S (length main + length tiny))%nat ∧
  Z.of_nat (length q.2) ≤ Z.max (share c (S (length main + length tiny))) (Z.of_nat (length tiny)).
Proof.
  cbv zeta. unfold added. replace (length main + length (a :: tiny))%nat with (S (length main + length tiny)) by (cbn; lia).
  destruct (Z.ltb_spec (share c (S (length main + length tiny))) (Z.of_nat (length (a :: tiny)))) as [Hlt|Hge].
  - destruct (snoc_case (a :: tiny)) as [|(ts & t & Ht & Hl)]; [done|]. rewrite Hl. cbn [from_option fst snd].
    apply (f_equal length) in Ht as Hlen. rewrite Ht, removelast_last. rewrite length_app in Hlen. cbn in *. lia.
  - destruct (contest_lengths c main (a :: tiny)) as [-> ->]. cbn in *. lia.
Qed.

Lemma update_with_lru ls a c : update a (with_lru ls c) = with_lru ls <$> update a c.
Proof.
  unfold updateFrequenciesLocked. cbn. destruct (increment _ _ _ _ _) as [f| |]; [|done..]. cbn [mbind result_bind fmap].
  destruct (_ =? _); [|done]. by destruct (decayCountsBy _ _ _).
Qed.

Lemma add_place h c a main tiny A h1 ls1 lk fl tm : freq_ok c → lru_ c = ls1 → 1 ≤ tinySizePercent (config_ c) ≤ 50 →
  qst A h1 ls1 [main; a :: tiny] lk fl tm → tiny_ok (a :: tiny) fl → own_flags h fl →
  ∃ ls' h' fl', (t ← lru_list Tiny (lru_ c);
      if u64 (tinySizePercent (config_ c) * mlist_size (lru_ c)) / 100 <? size_ t then promoteTail (c, h1)
      else maybePromoteTailLocked combineHashes hashInt hashNode (c, h1)) = Ok (with_lru ls' c, h') ∧
    qst A h' ls' [(added c a main tiny).1; (added c a main tiny).2] lk fl' tm ∧
    tiny_ok (added c a main tiny).2 fl' ∧ own_flags h fl'.
Proof.
  intros Hf <- Hp Hs Hok Hown. destruct (get_tiny Hs) as (l & -> & Hd). res_simpl.
  pose proof (queues_size Hs) as Hsz. destruct (qr_size h1 (lru_ c) _ (qst_rep _ _ _ _ _ _ _ Hs)) as [Hsz' Hle]; [cbn; lia|].
  rewrite Hsz' in Hsz. change (length [main; a :: tiny]) with 2%nat in Hle.
  rewrite (rep_size _ _ _ Hd), Hsz', Hsz, wrap_small by (unfold fits; nia). fold (share c (length main + length (a :: tiny))).
  unfold added. destruct (_ <? _).
  - destruct (snoc_case (a :: tiny)) as [|(ts & t & Ht & Hl)]; [done|]. rewrite Hl. cbn [from_option fst snd]. rewrite Ht, removelast_last in *.
    destruct (promoteTail_aux A h1 c main ts t lk fl tm Hs Hok) as (ls' & h' & Heq & Hs' & Hok').
    exists ls', h', (setf kMMFlag0 t false fl). split; [done|]. split; [done|]. split; [done|]. by apply own_setf; [left|].
  - destruct (contest_aux A h1 c main (a :: tiny) lk fl tm Hs Hok Hf) as (ls' & h' & Heq & Hs' & Hok').
    exists ls', h', (contest_flags c main (a :: tiny) fl). split; [done|]. split; [done|]. split; [done|]. by apply own_contest.
Qed.

Abbreviation tl_add := (add combineHashes hashInt hashNode nextPowTwo).
Section operation_specs.
Context {h : Store} {c : Container} {main tiny : list Z} (Hwf : tlfu_wf h c main tiny).

Lemma not_queued a : linked h a = false → a ∉ main ∧ a ∉ tiny.
Proof. intros Hl. split; intros Ha; assert (linked h a = true) by (apply (tw_linked _ _ _ _ Hwf); auto); congruence. Qed.
Lemma own_refl : own_flags h (λ f, flag f h).
Proof. done. Qed.
Lemma few_items A h' ls' m' t' lk fl tm : qst A h' ls' [m'; t'] lk fl tm → (∀ a, A a ↔ is_Some (payload h a)) →
  0 ≤ mlist_size ls' ≤ items_max.
Proof.
  intros Hs HA. rewrite (queues_size Hs). pose proof (queues_few Hs h HA). pose proof (tw_few _ _ _ _ Hwf). lia.
Qed.

Lemma tlfu_add_aux a now : is_Some (payload h a) → linked h a = false →
  ∃ c1 c' h', update a c = Ok c1 ∧ tl_add a now (c, h) = Ok (true, (c', h')) ∧
    tlfu_wf h' c' (added c1 a main tiny).1 (added c1 a main tiny).2 ∧ time h' a = u32 now ∧ flag kMMFlag1 h' a = false ∧
    config_ c' = config_ c ∧ keeps h a h'.
Proof.
  intros Ha Hl. pose proof (tw_st _ _ _ _ Hwf) as Hs. destruct (not_queued a Hl) as [Hnm Hnt]. unfold add.
  rewrite (qst_testLinked Hs a Ha), Hl. res_simpl. unfold on_list. cbn [lru_index].
  destruct (qst_link Hs 1 tiny a eq_refl Ha) as (ls1 & h1 & -> & Hs1); [rewrite in_two; tauto|]. cbn in Hs1. res_simpl.
  destruct (qst_mark Hs1 kMMFlag0 true a Ha) as (h2 & Heq2 & Hs2). unfold markTiny. rewrite Heq2. res_simpl.
  pose proof (tiny_set tiny _ a (tw_tiny _ _ _ _ Hwf)) as Hok2. set (fl2 := setf kMMFlag0 a true _) in *.
  assert (own_flags h fl2) as Hown2 by (apply own_setf; [by left|apply own_refl]).
  destruct (update_aux a c (tw_freq _ _ _ _ Hwf)) as (c1 & Hupd & Hf1 & (L1 & C1 & N1 & R1) & _).
  exists c1. rewrite update_with_lru, Hupd. cbn [fmap result_fmap]. res_simpl.
  assert (freq_ok (with_lru ls1 c1)) as Hf1' by (destruct Hf1; by split).
  pose proof (tw_cfg _ _ _ _ Hwf) as Hcfg.
  destruct (add_place h (with_lru ls1 c1) a main tiny (λ a, is_Some (payload h a)) h2 ls1 (linked h) fl2 (time h) Hf1') as (ls3 & h3 & fl3 & Heq3 & Hs3 & Hok3 & Hown3);
    [done|cbn; rewrite C1; apply Hcfg|done|done|done|]. change (added (with_lru ls1 c1) a main tiny) with (added c1 a main tiny) in *.
  destruct (lru_list Tiny (lru_ (with_lru ls1 c1))) as [l3| |]; [|done..]. cbn [mbind result_bind] in Heq3 |- *. rewrite Heq3. res_simpl.
  set (c3 := with_lru ls3 (with_lru ls1 c1)).
  destruct (grow_aux c3) as (c4 & -> & Hf4 & (L4 & C4 & _)).
  { pose proof (fo_cap _ Hf1). cbn. lia. }
  { intros _. destruct Hf1'; by split. }
  { apply (few_items _ _ _ _ _ _ _ _ Hs3). done. }
  { cbn. by rewrite C1. }
  res_simpl. destruct (qst_mark_linked Hs3 true a Ha) as (h5 & -> & Hs5). res_simpl.
  destruct (qst_setTime Hs5 a (u32 now) Ha) as (h6 & -> & Hs6). res_simpl.
  destruct (qst_mark Hs6 kMMFlag1 false a Ha) as (h7 & Heq7 & Hs7). unfold unmarkAccessed. rewrite Heq7. res_simpl.
  exists c4, h7. split; [done|]. split; [done|]. cbn in C4. rewrite C1 in C4. split; [|split; [|split; [|split; [done|]]]].
  - eapply (wf_of_st h c main tiny h7 c4); [exact Hwf|rewrite L4; exact Hs7|by apply tiny_other| |done|done].
    intros b. rewrite (added_elem c1 a main tiny b). unfold set. rewrite <- (tw_linked _ _ _ _ Hwf b). case_decide; naive_solver.
  - rewrite (qst_time _ _ _ _ _ _ _ Hs7). apply setv_eq.
  - rewrite (qst_flag _ _ _ _ _ _ _ Hs7). apply setf_eq.
  - eapply keeps_of_st; [exact Hs7|by apply own_setf; [right|]|]. intros b Hb. by apply setv_ne.
Qed.

(** ** Removing *)
Lemma queues_delete (xs : list Z) i a b : NoDup xs → xs !! i = Some a → b ∈ delete i xs ↔ b ∈ xs ∧ b ≠ a.
Proof. intros Hnd Hi. by apply elem_of_delete. Qed.

Lemma tlfu_removeLocked_aux a : linked h a = true →
  ∃ ls' h' main' tiny', removeLocked a (c, h) = Ok (with_lru ls' c, h') ∧
    (∃ i, (main !! i = Some a ∧ main' = delete i main ∧ tiny' = tiny) ∨ (tiny !! i = Some a ∧ main' = main ∧ tiny' = delete i tiny)) ∧
    tlfu_wf h' (with_lru ls' c) main' tiny' ∧ linked h' a = false ∧ getNext h' a = Ok None ∧ getPrev h' a = Ok None ∧ keeps h a h'.
Proof.
  intros Hl. pose proof (tw_st _ _ _ _ Hwf) as Hs. pose proof (tw_tiny _ _ _ _ Hwf) as Hok. unfold removeLocked, isTiny.
  assert (is_Some (payload h a)) as Ha.
  { apply (tw_linked _ _ _ _ Hwf) in Hl as [Hx|Hx]; [by apply (main_alive Hs)|by apply (tiny_alive Hs)]. }
  rewrite (qst_testFlag Hs kMMFlag0 a Ha). res_simpl.
  (* the list the item is in *)
  assert (∃ ls1 h1 fl1 main' tiny', (if flag kMMFlag0 h a then '(ls, h) ← on_list Tiny (remove a) (lru_ c, h); h ← unmarkTiny a h; Ok (ls, h)
      else on_list Main (remove a) (lru_ c, h)) = Ok (ls1, h1) ∧
    qst (λ a, is_Some (payload h a)) h1 ls1 [main'; tiny'] (linked h) fl1 (time h) ∧ tiny_ok tiny' fl1 ∧ own_flags h fl1 ∧
    (∃ i, (main !! i = Some a ∧ main' = delete i main ∧ tiny' = tiny) ∨ (tiny !! i = Some a ∧ main' = main ∧ tiny' = delete i tiny)) ∧
    ∀ b, b ∈ main' ∨ b ∈ tiny' ↔ (b ∈ main ∨ b ∈ tiny) ∧ b ≠ a) as (ls1 & h1 & fl1 & main' & tiny' & Heq1 & Hs1 & Hok1 & Hown1 & Hcase & Hel).
  { destruct (flag kMMFlag0 h a) eqn:Et; unfold on_list; cbn [lru_index].
    - apply Hok in Et as Hin. apply list_elem_of_lookup in Hin as [i Hi].
      destruct (qst_remove Hs 1 tiny i a eq_refl Hi) as (ls1 & h1 & -> & Hs1). cbn in Hs1. res_simpl.
      destruct (qst_mark Hs1 kMMFlag0 false a Ha) as (h2 & Heq2 & Hs2). unfold unmarkTiny. rewrite Heq2. res_simpl.
      eexists ls1, h2, _, main, (delete i tiny). split; [done|]. split; [exact Hs2|].
      pose proof (λ b, queues_delete tiny i a b (tiny_nodup Hs) Hi) as Hd.
      split; [by apply (tiny_unset tiny)|]. split; [apply own_setf; [by left|apply own_refl]|]. split; [exists i; by right|].
      intros b. rewrite Hd. assert (b = a → b ∉ main) by (intros -> Hm; apply (main_not_tiny Hs a Hm); by apply Hok). naive_solver.
    - assert (a ∈ main) as Hin. { apply (tw_linked _ _ _ _ Hwf) in Hl as [|Hx%Hok]; [done|]. cbv beta in Hx. congruence. }
      apply list_elem_of_lookup in Hin as [i Hi].
      destruct (qst_remove Hs 0 main i a eq_refl Hi) as (ls1 & h1 & -> & Hs1). cbn in Hs1.
      eexists ls1, h1, _, (delete i main), tiny. split; [done|]. split; [exact Hs1|]. split; [done|]. split; [apply own_refl|].
      split; [exists i; by left|]. intros b. rewrite (queues_delete main i a b (main_nodup Hs) Hi).
      assert (b = a → b ∉ tiny) by (intros -> Hm%Hok; cbv beta in Hm; congruence). naive_solver. }
  rewrite Heq1. res_simpl. destruct (qst_mark Hs1 kMMFlag1 false a Ha) as (h2 & Heq2 & Hs2). unfold unmarkAccessed. rewrite Heq2. res_simpl.
  destruct (qst_mark_linked Hs2 false a Ha) as (h3 & -> & Hs3). res_simpl.
  exists ls1, h3, main', tiny'. split; [done|]. split; [done|]. split; [|split; [|]].
  - eapply (wf_of_st h c main tiny h3 (with_lru ls1 c)); [exact Hwf|exact Hs3|by apply tiny_other| |done|destruct (tw_freq _ _ _ _ Hwf); by split].
    intros b. rewrite Hel. unfold set. rewrite <- (tw_linked _ _ _ _ Hwf b). case_decide; naive_solver.
  - rewrite (qst_linked _ _ _ _ _ _ _ Hs3). apply setv_eq.
  - destruct (qr_clear _ _ _ (qst_rep _ _ _ _ _ _ _ Hs3) a) as [-> ->].
    + by apply (qst_alive _ _ _ _ _ _ _ Hs3).
    + rewrite in_two, Hel. naive_solver.
    + split; [done|]. split; [done|]. eapply keeps_of_st; [exact Hs3|by apply own_setf; [right|]|done].
Qed.

(** ** Replacing *)
Lemma queues_insert (xs : list Z) i a n b : NoDup xs → xs !! i = Some a → b ∈ <[i := n]> xs ↔ b = n ∨ (b ∈ xs ∧ b ≠ a).
Proof. intros Hnd Hi. by apply elem_of_list_insert. Qed.

(** The list an item is in, and that list after a change. *)
Definition at_queue a (i : nat) (f : list Z → list Z) main' tiny' : Prop :=
  (main !! i = Some a ∧ main' = f main ∧ tiny' = tiny) ∨ (tiny !! i = Some a ∧ main' = main ∧ tiny' = f tiny).

Lemma tlfu_replaceNode_aux a n : linked h a = true → is_Some (payload h n) → linked h n = false →
  ∃ ls' h' main' tiny' i, replaceNode a n (c, h) = Ok (true, (with_lru ls' c, h')) ∧ at_queue a i (λ xs, <[i := n]> xs) main' tiny' ∧
    tlfu_wf h' (with_lru ls' c) main' tiny' ∧ time h' n = time h a ∧ flag kMMFlag1 h' n = flag kMMFlag1 h a ∧
    linked h' a = false ∧ keeps h n h'.
Proof.
  intros Hl Hal Hln. pose proof (tw_st _ _ _ _ Hwf) as Hs. pose proof (tw_tiny _ _ _ _ Hwf) as Hok.
  destruct (not_queued n Hln) as [Hnm Hnt]. assert (n ≠ a) as Hna by (intros ->; congruence).
  assert (is_Some (payload h a)) as Ha.
  { apply (tw_linked _ _ _ _ Hwf) in Hl as [Hx|Hx]; [by apply (main_alive Hs)|by apply (tiny_alive Hs)]. }
  unfold replaceNode. rewrite (qst_testLinked Hs a Ha), Hl. res_simpl. rewrite (qst_testLinked Hs n Hal), Hln. res_simpl.
  rewrite (qst_getTime Hs a Ha). res_simpl. unfold isTiny. rewrite (qst_testFlag Hs kMMFlag0 a Ha). res_simpl.
  assert (∃ ls1 h1 fl1 main' tiny' i, (if flag kMMFlag0 h a then
        '(ls, h) ← on_list Tiny (replace a n) (lru_ c, h); h ← unmarkTiny a h; h ← markTiny n h; Ok (ls, h)
      else on_list Main (replace a n) (lru_ c, h)) = Ok (ls1, h1) ∧
    qst (λ a, is_Some (payload h a)) h1 ls1 [main'; tiny'] (linked h) fl1 (time h) ∧ tiny_ok tiny' fl1 ∧ own_flags h fl1 ∧
    fl1 kMMFlag1 a = flag kMMFlag1 h a ∧ at_queue a i (λ xs, <[i := n]> xs) main' tiny' ∧
    ∀ b, b ∈ main' ∨ b ∈ tiny' ↔ b = n ∨ (b ∈ main ∨ b ∈ tiny) ∧ b ≠ a)
    as (ls1 & h1 & fl1 & main' & tiny' & i & Heq1 & Hs1 & Hok1 & Hown1 & Hacc & Hcase & Hel).
  { destruct (flag kMMFlag0 h a) eqn:Et; unfold on_list; cbn [lru_index].
    - apply Hok in Et as Hin. apply list_elem_of_lookup in Hin as [i Hi].
      destruct (qst_replace Hs 1 tiny i a n eq_refl Hi Hal) as (ls1 & h1 & -> & Hs1); [rewrite in_two; tauto|]. cbn in Hs1. res_simpl.
      destruct (qst_mark Hs1 kMMFlag0 false a Ha) as (h2 & Heq2 & Hs2). unfold unmarkTiny. rewrite Heq2. res_simpl.
      destruct (qst_mark Hs2 kMMFlag0 true n Hal) as (h3 & Heq3 & Hs3). unfold markTiny. rewrite Heq3. res_simpl.
      pose proof (λ b, queues_delete tiny i a b (tiny_nodup Hs) Hi) as Hd.
      pose proof (λ b, queues_insert tiny i a n b (tiny_nodup Hs) Hi) as Hin.
      eexists ls1, h3, _, main, (<[i := n]> tiny), i. split; [done|]. split; [exact Hs3|].
      split; [apply (tiny_perm (n :: delete i tiny)); [by apply tiny_set, (tiny_unset tiny)|intros b; rewrite Hin, elem_of_cons, Hd; naive_solver]|].
      split; [do 2 (apply own_setf; [by left|]); apply own_refl|]. split; [by rewrite !setf_ne|]. split; [by right|].
      intros b. rewrite Hin. assert (b = a → b ∉ main) by (intros -> Hm; apply (main_not_tiny Hs a Hm); by apply Hok). naive_solver.
    - assert (a ∈ main) as Hin. { apply (tw_linked _ _ _ _ Hwf) in Hl as [|Hx%Hok]; [done|]. cbv beta in Hx. congruence. }
      apply list_elem_of_lookup in Hin as [i Hi].
      destruct (qst_replace Hs 0 main i a n eq_refl Hi Hal) as (ls1 & h1 & -> & Hs1); [rewrite in_two; tauto|]. cbn in Hs1.
      eexists ls1, h1, _, (<[i := n]> main), tiny, i. split; [done|]. split; [exact Hs1|]. split; [done|]. split; [apply own_refl|].
      split; [done|]. split; [by left|]. intros b. rewrite (queues_insert main i a n b (main_nodup Hs) Hi).
      assert (b = a → b ∉ tiny) by (intros -> Hm%Hok; cbv beta in Hm; congruence). naive_solver. }
  rewrite Heq1. res_simpl. destruct (qst_mark_linked Hs1 false a Ha) as (h2 & -> & Hs2). res_simpl.
  destruct (qst_mark_linked Hs2 true n Hal) as (h3 & -> & Hs3). res_simpl.
  destruct (qst_setTime Hs3 n (time h a) Hal) as (h4 & -> & Hs4). res_simpl.
  unfold isAccessed. rewrite (qst_testFlag Hs4 kMMFlag1 a Ha). res_simpl.
  destruct (qst_mark Hs4 kMMFlag1 (fl1 kMMFlag1 a) n Hal) as (h5 & Heq5 & Hs5).
  assert ((if fl1 kMMFlag1 a then markAccessed n h4 else unmarkAccessed n h4) = Ok h5) as -> by (by destruct (fl1 kMMFlag1 a)).
  res_simpl. exists ls1, h5, main', tiny', i. split; [done|]. split; [done|]. split; [|split; [|split; [|split]]].
  - eapply (wf_of_st h c main tiny h5 (with_lru ls1 c)); [exact Hwf|exact Hs5|by apply tiny_other| |done|destruct (tw_freq _ _ _ _ Hwf); by split].
    intros b. rewrite Hel. unfold set. rewrite <- (tw_linked _ _ _ _ Hwf b). repeat case_decide; naive_solver.
  - rewrite (qst_time _ _ _ _ _ _ _ Hs5). apply setv_eq.
  - rewrite (qst_flag _ _ _ _ _ _ _ Hs5), setf_eq. done.
  - rewrite (qst_linked _ _ _ _ _ _ _ Hs5), setv_ne by done. apply setv_eq.
  - eapply keeps_of_st; [exact Hs5|by apply own_setf; [right|]|]. intros b Hb. by apply setv_ne.
Qed.

(** ** Recording accesses *)
Lemma age_stat_aux n now : 0 ≤ n →
  getEvictionAgeStatLocked c n now h = Ok (mkEvictionAgeStat (mkEvictionStatPerType (age h now (last main)) (Z.of_nat (length main))
    (match prev_at main (length main - Z.to_nat n) with
     | Some a => age h now (Some a) | None => age h now (last main) end)) EvictionStat_zero EvictionStat_zero).
Proof.
  intros Hn. pose proof (tw_st _ _ _ _ Hwf) as Hs. unfold getEvictionAgeStatLocked.
  destruct (get_main Hs) as (l & -> & Hd). res_simpl. pose proof (qst_words _ _ _ _ _ _ _ Hs) as Hw.
  rewrite (rep_tail _ _ _ Hd), <- prev_at_length. rewrite alive_age; [|done|apply (rep_alive_prev Hd)]. res_simpl.
  rewrite (walkBack_spec h l); try done; [|rewrite (rep_size _ _ _ Hd); lia]. res_simpl. rewrite (rep_size _ _ _ Hd).
  pose proof (rep_alive_prev Hd (length main - Z.to_nat n)) as Hal.
  destruct (prev_at main (length main - Z.to_nat n)) as [a|]; [|done]. rewrite (step_getTime (meta_refl h Hw)) by done. done.
Qed.
Lemma reconfigure_spec curr now : ∃ next refresh, reconfigureLocked curr now c h = Ok (with_times next refresh c).
Proof.
  unfold reconfigureLocked. destruct (_ <? _); [exists (nextReconfigureTime_ c), (lruRefreshTime_ c); by destruct c|].
  rewrite age_stat_aux by done. res_simpl. cbn [warmQueueStat oldestElementAge].
  destruct (co_ratio _ (tw_cfg _ _ _ _ Hwf) (age h now (last main)) (age_fits _ _ _)) as [r ->]. res_simpl. by eexists _, _.
Qed.

Abbreviation record := (recordAccess combineHashes hashInt hashNode).
Abbreviation record_locked := (recordAccess_locked combineHashes hashInt hashNode).
Lemma record_locked_aux a curr now : linked h a = true →
  ∃ c' h' main' tiny' i, record_locked a curr now (c, h) = Ok (true, (c', h')) ∧ at_queue a i (λ xs, a :: delete i xs) main' tiny' ∧
    tlfu_wf h' c' main' tiny' ∧ time h' a = curr ∧ config_ c' = config_ c ∧ keeps h a h' ∧
    (∃ c1, update a c = Ok c1 ∧ accessFreq_ c' = accessFreq_ c1 ∧ windowSize_ c' = windowSize_ c1).
Proof.
  intros Hl. pose proof (tw_st _ _ _ _ Hwf) as Hs. pose proof (tw_tiny _ _ _ _ Hwf) as Hok.
  assert (is_Some (payload h a)) as Ha.
  { apply (tw_linked _ _ _ _ Hwf) in Hl as [Hx|Hx]; [by apply (main_alive Hs)|by apply (tiny_alive Hs)]. }
  unfold recordAccess_locked. destruct (reconfigure_spec curr now) as (nx & rf & ->). res_simpl.
  rewrite (qst_testLinked Hs a Ha), Hl. cbn [negb]. unfold getLruType, isTiny. rewrite (qst_testFlag Hs kMMFlag0 a Ha). res_simpl.
  assert (∃ ls1 h1 main' tiny' i, on_list (if flag kMMFlag0 h a then Tiny else Main) (moveToHead a) (lru_ c, h) = Ok (ls1, h1) ∧
    qst (λ a, is_Some (payload h a)) h1 ls1 [main'; tiny'] (linked h) (λ f, flag f h) (time h) ∧
    at_queue a i (λ xs, a :: delete i xs) main' tiny' ∧ (∀ b, b ∈ main' ↔ b ∈ main) ∧ (∀ b, b ∈ tiny' ↔ b ∈ tiny))
    as (ls1 & h1 & main' & tiny' & i & Heq1 & Hs1 & Hcase & Hm & Ht).
  { assert (∀ (xs : list Z) i b, NoDup xs → xs !! i = Some a → b ∈ a :: delete i xs ↔ b ∈ xs) as Hmv.
    { intros xs i b Hnd Hi. rewrite elem_of_cons, (queues_delete xs i a b Hnd Hi).
      assert (a ∈ xs) by by eapply list_elem_of_lookup_2. destruct (decide (b = a)); naive_solver. }
    destruct (flag kMMFlag0 h a) eqn:Et; unfold on_list; cbn [lru_index].
    - apply Hok in Et as Hin. apply list_elem_of_lookup in Hin as [i Hi].
      destruct (qst_move Hs 1 tiny i a eq_refl Hi) as (ls1 & h1 & -> & Hs1). cbn in Hs1.
      eexists ls1, h1, main, _, i. split; [done|]. split; [exact Hs1|]. split; [by right|]. split; [done|].
      intros b. apply Hmv; [apply (tiny_nodup Hs)|done].
    - assert (a ∈ main) as Hin. { apply (tw_linked _ _ _ _ Hwf) in Hl as [|Hx%Hok]; [done|]. cbv beta in Hx. congruence. }
      apply list_elem_of_lookup in Hin as [i Hi].
      destruct (qst_move Hs 0 main i a eq_refl Hi) as (ls1 & h1 & -> & Hs1). cbn in Hs1.
      eexists ls1, h1, _, tiny, i. split; [done|]. split; [exact Hs1|]. split; [by left|]. split; [|done].
      intros b. apply Hmv; [apply (main_nodup Hs)|done]. }
  change (lru_ (with_times nx rf c)) with (lru_ c). rewrite Heq1. res_simpl.
  destruct (qst_setTime Hs1 a curr Ha) as (h2 & -> & Hs2). res_simpl.
  assert (freq_ok (with_times nx rf c)) as Hfq by (destruct (tw_freq _ _ _ _ Hwf); by split).
  destruct (update_aux a _ Hfq) as (c1 & Hu & Hf1 & (L1 & C1 & _) & _). rewrite update_with_lru, Hu. cbn [fmap result_fmap]. res_simpl.
  exists (with_lru ls1 c1), h2, main', tiny', i. split; [done|]. split; [done|]. split; [|split; [|split; [|split]]].
  - eapply (wf_of_st h c main tiny h2 (with_lru ls1 c1)); [exact Hwf|exact Hs2|by apply (tiny_perm tiny)| |done|destruct Hf1; by split].
    intros b. rewrite Hm, Ht. apply (tw_linked _ _ _ _ Hwf).
  - rewrite (qst_time _ _ _ _ _ _ _ Hs2). apply setv_eq.
  - done.
  - eapply keeps_of_st; [exact Hs2|apply own_refl|]. intros b Hb. by apply setv_ne.
  - revert Hu. unfold updateFrequenciesLocked. cbn. destruct (increment _ _ _ _ _) as [f| |]; [|done..]. cbn [mbind result_bind].
    destruct (_ =? _); [|intros [= <-]; by eexists]. destruct (decayCountsBy _ _ _); [|done..]. cbn. intros [= <-]. by eexists.
Qed.

Lemma mark_accessed_aux a v : is_Some (payload h a) →
  ∃ h', withRef (if v : bool then setFlag kMMFlag1 else unSetFlag kMMFlag1) a h = Ok h' ∧ tlfu_wf h' c main tiny ∧
    flag kMMFlag1 h' a = v ∧ (∀ b, linked h' b = linked h b ∧ time h' b = time h b) ∧ keeps h a h'.
Proof.
  intros Ha. destruct (qst_mark (tw_st _ _ _ _ Hwf) kMMFlag1 v a Ha) as (h' & Heq & Hs'). exists h'. split; [done|]. split; [|split; [|split]].
  - eapply (wf_of_st h c main tiny h' c); [exact Hwf|exact Hs'|apply tiny_other; [done|apply Hwf]|apply Hwf|done|apply Hwf].
  - rewrite (qst_flag _ _ _ _ _ _ _ Hs'). apply setf_eq.
  - intros b. by rewrite (qst_linked _ _ _ _ _ _ _ Hs'), (qst_time _ _ _ _ _ _ _ Hs').
  - eapply keeps_of_st; [exact Hs'|apply own_setf; [by right|apply own_refl]|done].
Qed.

(** ** Eviction *)
Definition it_at main tiny (j i : nat) : LockedIterator :=
  mkLockedIterator (mkIterator (prev_at tiny j) FROM_TAIL) (mkIterator (prev_at main i) FROM_TAIL).
(** Whose turn it is: the tail of Tiny, unless it would be admitted to Main. *)
Definition tiny_turn (t m : option Z) : bool :=
  match m, t with None, _ => true | _, None => false | Some m, Some t => negb (admits c t m) end.

Lemma tlfu_begin_aux : getEvictionIterator c = Ok (it_at main tiny (length tiny) (length main)).
Proof.
  pose proof (tw_st _ _ _ _ Hwf) as Hs. unfold getEvictionIterator, rbegin, it_at.
  destruct (get_tiny Hs) as (l & -> & Hd). res_simpl. destruct (get_main Hs) as (l' & -> & Hd'). res_simpl.
  by rewrite (rep_tail _ _ _ Hd), (rep_tail _ _ _ Hd'), !prev_at_length.
Qed.
Lemma prev_at_elem (xs : list Z) k a : prev_at xs k = Some a → a ∈ xs.
Proof. destruct k; [done|]. apply list_elem_of_lookup_2. Qed.

Abbreviation turn := (evictTiny combineHashes hashInt hashNode).
Lemma turn_aux j i : turn (it_at main tiny j i) c h = Ok (tiny_turn (prev_at tiny j) (prev_at main i)).
Proof.
  unfold evictTiny, tiny_turn, it_at. cbn [mIter_ tIter_ curr_].
  destruct (prev_at main i) as [m|] eqn:Em; [|done]. destruct (prev_at tiny j) as [t|] eqn:Et; [|done].
  by rewrite (admit_aux _ h (lru_ c) main tiny _ _ _ c t m (tw_st _ _ _ _ Hwf) (tw_tiny _ _ _ _ Hwf) (tw_freq _ _ _ _ Hwf)
    (prev_at_elem _ _ _ Et) (prev_at_elem _ _ _ Em)).
Qed.
Lemma iter_step l (xs : list Z) k : dlist_rep h l xs → (0 < k ≤ length xs)%nat →
  iter_incr h (mkIterator (prev_at xs k) FROM_TAIL) = Ok (mkIterator (prev_at xs (k - 1)) FROM_TAIL).
Proof.
  intros Hd Hk. destruct k as [|k]; [lia|]. cbn [prev_at]. destruct (lookup_lt_is_Some_2 xs k) as [a Ha]; [lia|].
  unfold iter_incr, goForward. cbn [curr_ dir_]. rewrite Ha. rewrite bool_decide_eq_true_2 by done. res_simpl.
  destruct (rep_links _ _ _ Hd k a Ha) as (_ & _ & ->). res_simpl. do 3 f_equal. lia.
Qed.

(** The next position, for a position that has one. *)
Definition next_at j i : nat * nat :=
  if tiny_turn (prev_at tiny j) (prev_at main i) then ((j - 1)%nat, i) else (j, (i - 1)%nat).
Lemma turn_positive j i : (0 < j + i)%nat → (j ≤ length tiny)%nat → (i ≤ length main)%nat →
  (if tiny_turn (prev_at tiny j) (prev_at main i) then 0 < j else 0 < i)%nat.
Proof.
  intros Hp Hj Hi. unfold tiny_turn. destruct i as [|i]; cbn [prev_at]; [lia|].
  destruct (lookup_lt_is_Some_2 main i) as [m ->]; [lia|]. destruct j as [|j]; cbn [prev_at]; [lia|].
  destruct (lookup_lt_is_Some_2 tiny j) as [t ->]; [lia|]. destruct (negb _); lia.
Qed.
Lemma it_incr_aux j i : (0 < j + i)%nat → (j ≤ length tiny)%nat → (i ≤ length main)%nat →
  it_incr combineHashes hashInt hashNode (it_at main tiny j i) c h = Ok (it_at main tiny (next_at j i).1 (next_at j i).2).
Proof.
  intros Hp Hj Hi. pose proof (turn_positive j i Hp Hj Hi) as Ht. pose proof (tw_st _ _ _ _ Hwf) as Hs.
  unfold it_incr, next_at. rewrite turn_aux. res_simpl. destruct (tiny_turn _ _); cbn [it_at tIter_ mIter_ fst snd].
  - destruct (get_tiny Hs) as (l & _ & Hd). rewrite (iter_step l tiny j Hd) by lia. done.
  - destruct (get_main Hs) as (l & _ & Hd). rewrite (iter_step l main i Hd) by lia. done.
Qed.
Lemma it_valid_aux j i : (j ≤ length tiny)%nat → (i ≤ length main)%nat → it_valid (it_at main tiny j i) = (0 <? j + i)%nat.
Proof.
  intros Hj Hi. unfold it_valid, it_at. cbn [tIter_ mIter_ curr_].
  assert (∀ (xs : list Z) k, (k ≤ length xs)%nat → bool_decide (is_Some (prev_at xs k)) = (0 <? k)%nat) as Hb.
  { intros xs [|k] Hk; [done|]. cbn [prev_at]. apply bool_decide_eq_true_2, lookup_lt_is_Some_2. lia. }
  rewrite !Hb by done. destruct j, i; done.
Qed.
End operation_specs.

(** The order in which the candidates come up: the merge of the queues from
    their tails, taking the tail of Tiny unless it would be admitted. *)
Definition merge_by (admits : Z → Z → bool) : list Z → list Z → list Z :=
  fix merge ts := fix go ms := match ts, ms with
  | [], _ => ms
  | _, [] => ts
  | t :: ts', m :: ms' => if admits t m then m :: go ms' else t :: merge ts' ms
  end.
Definition merge c : list Z → list Z → list Z := merge_by (admits c).
Definition candidates c main tiny (j i : nat) : list Z := merge c (reverse (take j tiny)) (reverse (take i main)).

Lemma merge_perm c ts ms : merge c ts ms ≡ₚ ts ++ ms.
Proof.
  revert ms. induction ts as [|t ts IHt]; intros ms; [by destruct ms|]. induction ms as [|m ms IHm]; [by rewrite app_nil_r|].
  unfold merge in *. cbn [merge_by]. destruct (admits _ _ _); [|by rewrite IHt]. rewrite <- Permutation_middle. constructor. apply IHm.
Qed.
Lemma candidates_step c main tiny j i : (0 < j + i)%nat → (j ≤ length tiny)%nat → (i ≤ length main)%nat →
  ∃ a, (if tiny_turn (c := c) (prev_at tiny j) (prev_at main i) then prev_at tiny j else prev_at main i) = Some a ∧
  candidates c main tiny j i = a :: candidates c main tiny (next_at (c := c) (main := main) (tiny := tiny) j i).1 (next_at (c := c) (main := main) (tiny := tiny) j i).2.
Proof.
  intros Hp Hj Hi. unfold candidates, next_at, tiny_turn.
  assert (∀ (xs : list Z) k, (S k ≤ length xs)%nat → ∃ a, xs !! k = Some a ∧ reverse (take (S k) xs) = a :: reverse (take k xs)) as Hr.
  { intros xs k Hk. destruct (lookup_lt_is_Some_2 xs k) as [a Ha]; [lia|]. exists a. split; [done|].
    by rewrite (take_S_r _ _ a Ha), reverse_snoc. }
  destruct i as [|i]; cbn [prev_at].
  - destruct j as [|j]; [lia|]. destruct (Hr tiny j Hj) as (t & Ht & ->). exists t. cbn [prev_at]. rewrite Ht. split; [done|].
    cbn [fst snd]. replace (S j - 1)%nat with j by lia. cbn. by destruct (reverse (take j tiny)).
  - destruct (Hr main i Hi) as (m & Hm & Em). rewrite Hm, Em. destruct j as [|j]; cbn [prev_at].
    + exists m. split; [done|]. cbn [fst snd]. replace (S i - 1)%nat with i by lia. cbn. by destruct (reverse (take i main)).
    + destruct (Hr tiny j Hj) as (t & Ht & Et). rewrite Ht, Et. destruct (admits c t m) eqn:Ea; cbn [negb fst snd].
      * exists m. split; [done|]. replace (S i - 1)%nat with i by lia. rewrite Et. unfold merge. cbn [merge_by]. by rewrite Ea.
      * exists t. split; [done|]. replace (S j - 1)%nat with j by lia. rewrite Em. unfold merge. cbn [merge_by]. by rewrite Ea.
Qed.

Lemma delete_prefix (xs : list Z) k : (k < length xs)%nat →
  take k (delete k xs) = take k xs ∧ prev_at (delete k xs) k = prev_at xs k ∧ length (delete k xs) = (length xs - 1)%nat.
Proof.
  intros Hk. assert (take k (delete k xs) = take k xs) as Ht.
  { rewrite delete_take_drop, take_app_le, take_ge by (rewrite length_take; lia). done. }
  split; [done|]. split; [|by rewrite length_delete by (by apply lookup_lt_is_Some_2)].
  destruct k as [|k]; [done|]. cbn [prev_at]. rewrite <- (lookup_take_lt (delete (S k) xs) (S k)), Ht by lia. apply lookup_take_lt. lia.
Qed.
Lemma nodup_index (xs : list Z) i j a : NoDup xs → xs !! i = Some a → xs !! j = Some a → i = j.
Proof. intros Hnd. by apply NoDup_lookup. Qed.

Abbreviation evict := (removeIterator combineHashes hashInt hashNode).
(** Removing at any position takes out the candidate there and leaves the
    iterator at the next one. *)
Lemma tlfu_evict_aux h c main tiny j i : tlfu_wf h c main tiny → (0 < j + i)%nat → (j ≤ length tiny)%nat → (i ≤ length main)%nat →
  ∃ a ls' h' main' tiny' j' i', evict (it_at main tiny j i) (c, h) = Ok (it_at main' tiny' j' i', (with_lru ls' c, h')) ∧
    tlfu_wf h' (with_lru ls' c) main' tiny' ∧ (j' ≤ length tiny')%nat ∧ (i' ≤ length main')%nat ∧
    (j + i = S (j' + i') ∧ length tiny + j' = length tiny' + j ∧ length main + i' = length main' + i)%nat ∧
    candidates c main tiny j i = a :: candidates c main' tiny' j' i' ∧ linked h a = true ∧ linked h' a = false ∧ keeps h a h'.
Proof.
  intros Hwf Hp Hj Hi. pose proof (tw_st _ _ _ _ Hwf) as Hs.
  destruct (candidates_step c main tiny j i Hp Hj Hi) as (a & Hget & Hcand). pose proof (turn_positive (c := c) j i Hp Hj Hi) as Hpos.
  assert (linked h a = true) as Hl.
  { apply (tw_linked _ _ _ _ Hwf). destruct (tiny_turn _ _); apply prev_at_elem in Hget; auto. }
  assert (is_Some (payload h a)) as Ha.
  { apply (tw_linked _ _ _ _ Hwf) in Hl as [Hx|Hx]; [by apply (main_alive Hs)|by apply (tiny_alive Hs)]. }
  unfold removeIterator, it_get. cbn [fst snd]. rewrite (turn_aux Hwf). res_simpl. cbn [it_at tIter_ mIter_ curr_]. rewrite Hget. res_simpl.
  rewrite (qst_testLinked Hs a Ha), Hl. res_simpl. fold (it_at main tiny j i). rewrite (it_incr_aux Hwf j i Hp Hj Hi). res_simpl.
  destruct (tlfu_removeLocked_aux Hwf a Hl) as (ls' & h' & main' & tiny' & -> & (k & Hk) & Hwf' & Hl' & _ & _ & Hkeep). res_simpl.
  exists a, ls', h', main', tiny'. revert Hcand Hget Hpos. unfold next_at. destruct (tiny_turn (prev_at tiny j) (prev_at main i)); cbn [fst snd]; intros Hcand Hget Hpos.
  - destruct j as [|j]; [lia|]. cbn [prev_at] in Hget. replace (S j - 1)%nat with j in * by lia.
    destruct Hk as [(Hk & -> & ->)|(Hk & -> & ->)].
    { exfalso. apply list_elem_of_lookup_2 in Hk, Hget. by apply (main_not_tiny Hs a). }
    rewrite <- (nodup_index tiny j k a (tiny_nodup Hs) Hget Hk) in *. destruct (delete_prefix tiny j Hj) as (Ht & Hpv & Hlen).
    exists j, i. split; [unfold it_at; by rewrite Hpv|]. split; [done|]. split; [lia|]. split; [done|]. split; [lia|].
    split; [|done]. rewrite Hcand. unfold candidates. by rewrite Ht.
  - destruct i as [|i]; [lia|]. cbn [prev_at] in Hget. replace (S i - 1)%nat with i in * by lia.
    destruct Hk as [(Hk & -> & ->)|(Hk & -> & ->)].
    2:{ exfalso. apply list_elem_of_lookup_2 in Hk, Hget. by apply (main_not_tiny Hs a). }
    rewrite <- (nodup_index main i k a (main_nodup Hs) Hget Hk) in *. destruct (delete_prefix main i Hi) as (Ht & Hpv & Hlen).
    exists j, i. split; [unfold it_at; by rewrite Hpv|]. split; [done|]. split; [done|]. split; [lia|]. split; [lia|].
    split; [|done]. rewrite Hcand. unfold candidates. by rewrite Ht.
Qed.

(** ** Runs *)
Inductive tlfu_op :=
  | TAdd (a now : Z)
  | TRemove (a : Z)
  | TEvict (skip : nat)
  | TReplace (a n : Z)
  | TRecordAccess (a : Z) (mode : AccessMode) (now : Z) (lockFree : bool)
  | TSetConfig (cfg : Config) (now : Z).

(** Advancing the eviction iterator over candidates that cannot be evicted. *)
Fixpoint it_skip (n : nat) (it : LockedIterator) c h : result LockedIterator :=
  match n with
  | O => Ok it
  | S n => if it_valid it then it ← it_incr combineHashes hashInt hashNode it c h; it_skip n it c h else Ok it
  end.
(** One call; [TEvict] removes the candidate after the first [skip], if any. *)
Definition run_tlfu_op (op : tlfu_op) (s : Container * Store) : result (Container * Store) :=
  match op with
  | TAdd a now => '(_, s) ← tl_add a now s; Ok s
  | TRemove a => '(_, s) ← removeNode a s; Ok s
  | TEvict skip =>
      it ← getEvictionIterator (fst s);
      it ← it_skip skip it (fst s) (snd s);
      if it_valid it then '(_, s) ← evict it s; Ok s else Ok s
  | TReplace a n => '(_, s) ← replaceNode a n s; Ok s
  | TRecordAccess a mode now lockFree => '(_, s) ← recordAccess combineHashes hashInt hashNode a mode now lockFree s; Ok s
  | TSetConfig cfg now => Ok (setConfig cfg now (fst s), snd s)
  end.
(** Calls are made on allocated items, and configurations are valid. *)
Definition tlfu_op_ok h (op : tlfu_op) : Prop :=
  match op with
  | TAdd a _ | TRemove a | TRecordAccess a _ _ _ => is_Some (payload h a)
  | TEvict _ => True
  | TReplace a n => is_Some (payload h a) ∧ is_Some (payload h n)
  | TSetConfig cfg _ => cfg_ok cfg
  end.
(** At most [items_max] fresh items. *)
Definition new_items h : Prop := fresh_items h ∧ (∀ a, flag kMMFlag0 h a = false) ∧ Z.of_nat (size h) ≤ items_max.

Inductive tlfu_reach (h0 : Store) (cfg : Config) (now : Z) : Container → Store → Prop :=
  | tl_new c : Container_new nextPowTwo cfg now = Ok c → tlfu_reach h0 cfg now c h0
  | tl_step c h op c' h' : tlfu_reach h0 cfg now c h → tlfu_op_ok h op →
      run_tlfu_op op (c, h) = Ok (c', h') → tlfu_reach h0 cfg now c' h'.

Lemma tlfu_new_aux h cfg now : new_items h → cfg_ok cfg → ∃ c, Container_new nextPowTwo cfg now = Ok c ∧ tlfu_wf h c [] [].
Proof.
  intros (Hfr & Hfl & Hsz) Hc. unfold Container_new.
  destruct (grow_aux (mkContainer (MultiDList_new NumTypes) 0 0 0 0 0 cfg CountMinSketch_empty)) as (c & -> & Hf & L & C & _);
    [cbn; unfold items_max; lia|cbn; lia|split; by vm_compute|done|]. res_simpl. eexists. split; [done|].
  cbn [lru_ config_] in L, C. split; cbn; rewrite ?L, ?C.
  - by apply (fresh_qst h 2).
  - intros a. rewrite Hfl. set_solver.
  - intros a. split; [|set_solver]. intros Hl. destruct Hfr as [_ Hfr].
    assert (is_Some (payload h a)) as (_ & Hl' & _)%Hfr; [|congruence]. unfold linked in Hl. by destruct (payload h a).
  - done.
  - destruct Hf; by split.
  - done.
Qed.

Lemma skip_aux n h c main tiny j i : tlfu_wf h c main tiny → (j ≤ length tiny)%nat → (i ≤ length main)%nat →
  ∃ j' i', it_skip n (it_at main tiny j i) c h = Ok (it_at main tiny j' i') ∧ (j' ≤ length tiny)%nat ∧ (i' ≤ length main)%nat ∧
    candidates c main tiny j' i' = drop n (candidates c main tiny j i).
Proof.
  intros Hwf. revert j i. induction n as [|n IH]; intros j i Hj Hi; cbn [it_skip]; [by exists j, i|].
  rewrite it_valid_aux by done. destruct (Nat.ltb_spec 0 (j + i)) as [Hp|Hp].
  - rewrite (it_incr_aux Hwf j i Hp Hj Hi). res_simpl. destruct (candidates_step c main tiny j i Hp Hj Hi) as (a & _ & Hcand).
    pose proof (turn_positive (c := c) j i Hp Hj Hi) as Hpos. rewrite Hcand. cbn [drop].
    revert Hpos. unfold next_at. destruct (tiny_turn _ _); cbn [fst snd]; intros Hpos; apply IH; lia.
  - exists j, i. split; [done|]. split; [done|]. split; [done|]. assert (j = 0 ∧ i = 0)%nat as [-> ->] by lia. done.
Qed.

(** [recordAccess] on every branch. *)
Lemma record_aux h c main tiny a mode now lockFree : tlfu_wf h c main tiny → is_Some (payload h a) →
  let enabled := match mode with kWrite => updateOnWrite (config_ c) | kRead => updateOnRead (config_ c) end && linked h a &&
    ((u32 (time h a + lruRefreshTime_ c) <=? u32 now) || negb (flag kMMFlag1 h a)) in
  let bumped := enabled && (negb (tryLockUpdate (config_ c)) || lockFree) in
  ∃ c' h' main' tiny', recordAccess combineHashes hashInt hashNode a mode now lockFree (c, h) = Ok (bumped, (c', h')) ∧
    tlfu_wf h' c' main' tiny' ∧ config_ c' = config_ c ∧ keeps h a h' ∧
    if bumped then (∃ i, at_queue (main := main) (tiny := tiny) a i (λ xs, a :: delete i xs) main' tiny') ∧ time h' a = u32 now ∧
      (∃ c1, update a c = Ok c1 ∧ accessFreq_ c' = accessFreq_ c1 ∧ windowSize_ c' = windowSize_ c1)
    else main' = main ∧ tiny' = tiny ∧ c' = c ∧ time h' a = time h a ∧ flag kMMFlag1 h' a = (flag kMMFlag1 h a || enabled).
Proof.
  intros Hwf Ha enabled bumped. subst bumped enabled. pose proof (tw_st _ _ _ _ Hwf) as Hs. unfold recordAccess.
  assert (keeps h a h) as Hk by done.
  set (upd := match mode with kWrite => updateOnWrite (config_ c) | kRead => updateOnRead (config_ c) end).
  assert (match mode with kWrite => negb (updateOnWrite (config_ c)) | kRead => negb (updateOnRead (config_ c)) end = negb upd) as ->
    by by destruct mode.
  destruct upd; cbn [negb andb]; [|exists c, h, main, tiny; by rewrite orb_false_r].
  rewrite (qst_testLinked Hs a Ha). res_simpl. rewrite (qst_getTime Hs a Ha). res_simpl. unfold isAccessed.
  rewrite (qst_testFlag Hs kMMFlag1 a Ha). res_simpl.
  destruct (linked h a) eqn:El; cbn [andb]; [|exists c, h, main, tiny; by rewrite orb_false_r].
  destruct ((u32 (time h a + lruRefreshTime_ c) <=? u32 now) || negb (flag kMMFlag1 h a)) eqn:Ed; cbn [andb];
    [|exists c, h, main, tiny; by rewrite orb_false_r].
  assert (∃ h1, (if flag kMMFlag1 h a then Ok h else markAccessed a h) = Ok h1 ∧ tlfu_wf h1 c main tiny ∧ flag kMMFlag1 h1 a = true ∧
    (∀ b, linked h1 b = linked h b ∧ time h1 b = time h b) ∧ keeps h a h1) as (h1 & -> & Hwf1 & Hf1 & Hlt & Hk1).
  { destruct (flag kMMFlag1 h a) eqn:Ef; [by exists h|]. destruct (mark_accessed_aux Hwf a true Ha) as (h1 & Heq & H1). by exists h1. }
  res_simpl. destruct (Hlt a) as [Hl1 Ht1]. rewrite El in Hl1.
  destruct (tryLockUpdate (config_ c) && negb lockFree) eqn:Elk.
  - assert (negb (tryLockUpdate (config_ c)) || lockFree = false) as -> by (destruct (tryLockUpdate (config_ c)), lockFree; done).
    exists c, h1, main, tiny. by rewrite orb_true_r.
  - assert (negb (tryLockUpdate (config_ c)) || lockFree = true) as -> by (destruct (tryLockUpdate (config_ c)), lockFree; done).
    destruct (record_locked_aux Hwf1 a (u32 now) now Hl1) as (c' & h' & main' & tiny' & i & Heq & Hat & Hwf' & Ht & Hcf & Hk' & Hu).
    exists c', h', main', tiny'. split; [done|]. split; [done|]. split; [done|]. split; [|split; [by exists i|done]].
    destruct Hk1 as (K1 & K2 & K3), Hk' as (K1' & K2' & K3'). split; [intros b; by rewrite K1', K1|].
    split; [intros b Hb; by rewrite K2', K2|]. intros f b F0 F1. by rewrite K3', K3.
Qed.

Lemma run_wf h c main tiny op : tlfu_wf h c main tiny → tlfu_op_ok h op →
  ∃ c' h' main' tiny', run_tlfu_op op (c, h) = Ok (c', h') ∧ tlfu_wf h' c' main' tiny'.
Proof.
  intros Hwf Hop. pose proof (tw_st _ _ _ _ Hwf) as Hs.
  destruct op as [a now|a|skip|a n|a mode now lf|cfg now]; cbn [run_tlfu_op tlfu_op_ok fst snd] in *.
  - destruct (linked h a) eqn:El.
    + unfold add. rewrite (qst_testLinked Hs a Hop), El. res_simpl. by exists c, h, main, tiny.
    + destruct (tlfu_add_aux Hwf a now Hop El) as (c1 & c' & h' & _ & -> & Hwf' & _). res_simpl. by eexists c', h', _, _.
  - unfold removeNode. cbn [snd]. rewrite (qst_testLinked Hs a Hop). res_simpl.
    destruct (linked h a) eqn:El; cbn [negb]; [|by exists c, h, main, tiny].
    destruct (tlfu_removeLocked_aux Hwf a El) as (ls' & h' & main' & tiny' & -> & _ & Hwf' & _). res_simpl. by eexists _, h', _, _.
  - rewrite (tlfu_begin_aux Hwf). res_simpl.
    destruct (skip_aux skip h c main tiny (length tiny) (length main) Hwf) as (j & i & -> & Hj & Hi & _); [done..|]. res_simpl.
    rewrite it_valid_aux by done. destruct (Nat.ltb_spec 0 (j + i)) as [Hp|]; [|by exists c, h, main, tiny].
    destruct (tlfu_evict_aux h c main tiny j i Hwf Hp Hj Hi) as (a & ls' & h' & main' & tiny' & j' & i' & -> & Hwf' & _). res_simpl.
    by eexists _, h', _, _.
  - destruct Hop as [Ha Hn]. destruct (linked h a) eqn:El.
    + destruct (linked h n) eqn:En.
      * unfold replaceNode. rewrite (qst_testLinked Hs a Ha), El. res_simpl. rewrite (qst_testLinked Hs n Hn), En. res_simpl.
        by exists c, h, main, tiny.
      * destruct (tlfu_replaceNode_aux Hwf a n El Hn En) as (ls' & h' & main' & tiny' & i & -> & _ & Hwf' & _). res_simpl. by eexists _, h', _, _.
    + unfold replaceNode. rewrite (qst_testLinked Hs a Ha), El. res_simpl. by exists c, h, main, tiny.
  - destruct (record_aux h c main tiny a mode now lf Hwf Hop) as (c' & h' & main' & tiny' & -> & Hwf' & _). res_simpl. by eexists c', h', _, _.
  - eexists _, h, main, tiny. split; [done|]. destruct Hwf as [H1 H2 H3 H4 H5 H6]. split; try done. destruct H5; by split.
Qed.
Lemma reach_wf h0 cfg now c h : new_items h0 → cfg_ok cfg → tlfu_reach h0 cfg now c h → ∃ main tiny, tlfu_wf h c main tiny.
Proof.
  intros Hn Hc. induction 1 as [c Hnew|c h op c' h' _ (main & tiny & Hwf) Hop Hrun].
  - destruct (tlfu_new_aux h0 cfg now Hn Hc) as (c0 & Heq & Hwf). rewrite Heq in Hnew. simplify_eq. by exists [], [].
  - destruct (run_wf h c main tiny op Hwf Hop) as (c2 & h2 & m2 & t2 & Heq & Hwf2). rewrite Heq in Hrun. simplify_eq. by exists m2, t2.
Qed.

(** Removing [n] candidates through one iterator. *)
Fixpoint evict_n (n : nat) (it : LockedIterator) (s : Container * Store) : result (list Z * (LockedIterator * (Container * Store))) :=
  match n with
  | O => Ok ([], (it, s))
  | S n =>
      p ← it_get combineHashes hashInt hashNode it (fst s) (snd s);
      a ← deref p;
      '(it, s) ← evict it s;
      '(removed, r) ← evict_n n it s;
      Ok (a :: removed, r)
  end.

Lemma get_aux h c main tiny j i : tlfu_wf h c main tiny → (j ≤ length tiny)%nat → (i ≤ length main)%nat →
  it_get combineHashes hashInt hashNode (it_at main tiny j i) c h = Ok (candidates c main tiny j i !! 0%nat).
Proof.
  intros Hwf Hj Hi. unfold it_get. rewrite (turn_aux Hwf). res_simpl. cbn [it_at tIter_ mIter_ curr_].
  destruct (Nat.eq_dec (j + i)%nat 0%nat) as [Hz|Hp]; [assert (j = 0 ∧ i = 0)%nat as [-> ->] by lia; done|].
  destruct (candidates_step c main tiny j i ltac:(lia) Hj Hi) as (a & Hget & ->). by rewrite Hget.
Qed.
Lemma candidates_length c main tiny j i : (j ≤ length tiny)%nat → (i ≤ length main)%nat →
  length (candidates c main tiny j i) = (j + i)%nat.
Proof. intros Hj Hi. unfold candidates. rewrite merge_perm, length_app, !length_reverse, !length_take. lia. Qed.
Lemma evict_n_aux n h c main tiny j i : tlfu_wf h c main tiny → (j ≤ length tiny)%nat → (i ≤ length main)%nat → (n ≤ j + i)%nat →
  ∃ ls' h' main' tiny' j' i', evict_n n (it_at main tiny j i) (c, h) =
      Ok (take n (candidates c main tiny j i), (it_at main' tiny' j' i', (with_lru ls' c, h'))) ∧
    tlfu_wf h' (with_lru ls' c) main' tiny' ∧ candidates c main' tiny' j' i' = drop n (candidates c main tiny j i) ∧
    (length tiny + j' = length tiny' + j)%nat ∧ (length main + i' = length main' + i)%nat ∧ (j' ≤ length tiny')%nat ∧ (i' ≤ length main')%nat.
Proof.
  revert h c main tiny j i. induction n as [|n IH]; intros h c main tiny j i Hwf Hj Hi Hn; cbn [evict_n].
  { exists (lru_ c), h, main, tiny, j, i. replace (with_lru (lru_ c) c) with c by by destruct c. done. }
  cbn [fst snd]. rewrite (get_aux h c main tiny j i Hwf Hj Hi). res_simpl.
  destruct (tlfu_evict_aux h c main tiny j i Hwf ltac:(lia) Hj Hi)
    as (a & ls1 & h1 & m1 & t1 & j1 & i1 & Heq & Hwf1 & Hj1 & Hi1 & Hs1 & Hcand & _).
  rewrite Hcand. cbn [lookup list_lookup]. res_simpl. rewrite Heq. res_simpl.
  destruct (IH h1 (with_lru ls1 c) m1 t1 j1 i1 Hwf1 Hj1 Hi1 ltac:(lia))
    as (ls' & h' & main' & tiny' & j' & i' & -> & Hwf' & Hc' & HL & HM & Hj' & Hi'). res_simpl.
  exists ls', h', main', tiny', j', i'. split; [reflexivity|]. split; [exact Hwf'|]. split; [exact Hc'|]. lia.
Qed.

(** ** Properties *)

(** C12: a W-TinyLFU container never reaches a null dereference, a failed
    [XDCHECK], an access outside its counters or an exception in a [noexcept]
    function: over at most 2^22 fresh items the constructor returns, and after any
    calls of [add], [remove], eviction after skipping candidates, [replace],
    [recordAccess] and [setConfig] (with valid configurations) the container is
    well formed, every further call returns, and the window that decides when
    counters are halved is below its limit. *)
Theorem tlfu_reachable_safe h0 cfg now : new_items h0 → cfg_ok cfg →
  (∃ c, Container_new nextPowTwo cfg now = Ok c) ∧
  ∀ c h, tlfu_reach h0 cfg now c h →
    (∃ main tiny, tlfu_wf h c main tiny) ∧ 0 ≤ windowSize_ c < maxWindowSize_ c ∧
    ∀ op, tlfu_op_ok h op → ∃ c' h', run_tlfu_op op (c, h) = Ok (c', h').
Proof.
  intros Hn Hc. split; [destruct (tlfu_new_aux h0 cfg now Hn Hc) as (c & Heq & _); by exists c|].
  intros c h Hr. destruct (reach_wf h0 cfg now c h Hn Hc Hr) as (main & tiny & Hwf). split; [by exists main, tiny|].
  split; [apply (tw_freq _ _ _ _ Hwf)|]. intros op Hop. destruct (run_wf h c main tiny op Hwf Hop) as (c' & h' & _ & _ & Heq & _). by exists c', h'.
Qed.

(** C24: [add] counts the item and puts it at the head of Tiny.  If Tiny is then
    larger than its share its tail becomes the head of Main; otherwise the tails
    of the two queues compete: the tail of Tiny enters Main, and that of Main the
    end of Tiny, if it is counted at least as often, and else the tail of Main
    moves to the head.  Tiny is never left longer than it was, unless it is within
    its share. *)
Theorem tlfu_add_spec h c main tiny a now : tlfu_wf h c main tiny → is_Some (payload h a) →
  if linked h a then tl_add a now (c, h) = Ok (false, (c, h))
  else ∃ c1 c' h' main' tiny', update a c = Ok c1 ∧ tl_add a now (c, h) = Ok (true, (c', h')) ∧
    (main', tiny') = added c1 a main tiny ∧ tlfu_wf h' c' main' tiny' ∧
    (length main' + length tiny' = S (length main + length tiny))%nat ∧
    Z.of_nat (length tiny') ≤ Z.max (share c' (length main' + length tiny')) (Z.of_nat (length tiny)) ∧
    linked h' a = true ∧ time h' a = u32 now ∧ flag kMMFlag1 h' a = false ∧ keeps h a h'.
Proof.
  intros Hwf Ha. destruct (linked h a) eqn:El.
  { unfold add. by rewrite (qst_testLinked (tw_st _ _ _ _ Hwf) a Ha), El. }
  destruct (tlfu_add_aux Hwf a now Ha El) as (c1 & c' & h' & Hu & Heq & Hwf' & Ht & Hf & Hc & Hk).
  destruct (added_lengths c1 a main tiny) as [Hlen Hsh]. destruct (update_aux a c (tw_freq _ _ _ _ Hwf)) as (c2 & Hu2 & _ & (_ & C2 & _) & _).
  rewrite Hu in Hu2. injection Hu2 as <-. exists c1, c', h', (added c1 a main tiny).1, (added c1 a main tiny).2.
  split; [done|]. split; [done|]. split; [by destruct (added _ _ _ _)|]. split; [done|]. split; [done|].
  split; [unfold share in *; rewrite Hlen, Hc, <- C2; exact Hsh|]. split; [|done]. apply (tw_linked _ _ _ _ Hwf'), added_elem. by left.
Qed.

(** C23: the eviction iterator goes through all items of both queues, once each,
    from their tails: the candidate is the tail item of Tiny that is left, unless
    it is counted at least as often as that of Main, which is then the candidate.
    Removing through the iterator takes the items out in this order, and the
    queues keep the rest. *)
Theorem tlfu_eviction_order h c main tiny : tlfu_wf h c main tiny →
  let order := merge c (reverse tiny) (reverse main) in
  order ≡ₚ tiny ++ main ∧
  ∃ it, getEvictionIterator c = Ok it ∧
    (∀ k, ∃ it', it_skip k it c h = Ok it' ∧ it_get combineHashes hashInt hashNode it' c h = Ok (order !! k)) ∧
    ∀ n, (n ≤ length main + length tiny)%nat → ∃ it' c' h' main' tiny',
      evict_n n it (c, h) = Ok (take n order, (it', (c', h'))) ∧ tlfu_wf h' c' main' tiny' ∧
      merge c' (reverse tiny') (reverse main') = drop n order ∧ getEvictionIterator c' = Ok it'.
Proof.
  intros Hwf order. assert (candidates c main tiny (length tiny) (length main) = order) as Hall
    by (unfold candidates, order; by rewrite !firstn_all).
  split; [unfold order; rewrite merge_perm; by rewrite !reverse_Permutation|].
  eexists. split; [apply (tlfu_begin_aux Hwf)|]. split.
  - intros k. destruct (skip_aux k h c main tiny (length tiny) (length main) Hwf) as (j & i & Heq & Hj & Hi & Hc); [done..|].
    eexists. split; [exact Heq|]. rewrite (get_aux h c main tiny j i Hwf Hj Hi), Hc, Hall, lookup_drop. do 2 f_equal. lia.
  - intros n Hn. destruct (evict_n_aux n h c main tiny (length tiny) (length main) Hwf)
      as (ls' & h' & main' & tiny' & j' & i' & Heq & Hwf' & Hc & HL & HM & Hj' & Hi'); [lia..|].
    rewrite Hall in Heq, Hc. assert (j' = length tiny' ∧ i' = length main') as [-> ->] by lia.
    exists (it_at main' tiny' (length tiny') (length main')), (with_lru ls' c), h', main', tiny'. split; [done|]. split; [done|].
    split; [|apply (tlfu_begin_aux Hwf')]. rewrite <- Hc. unfold candidates. by rewrite !firstn_all.
Qed.

(** [recordAccess] promotes exactly when the access mode is configured, the item
    is queued and due or not accessed before, and the lock was obtained: the item
    moves to the head of its queue, is stamped and counted.  Otherwise the queues
    stay as they are; the item is marked accessed when only the lock was missing. *)
Theorem tlfu_recordAccess_spec h c main tiny a mode now lockFree : tlfu_wf h c main tiny → is_Some (payload h a) →
  let enabled := match mode with kWrite => updateOnWrite (config_ c) | kRead => updateOnRead (config_ c) end && linked h a &&
    ((u32 (time h a + lruRefreshTime_ c) <=? u32 now) || negb (flag kMMFlag1 h a)) in
  let bumped := enabled && (negb (tryLockUpdate (config_ c)) || lockFree) in
  ∃ c' h' main' tiny', recordAccess combineHashes hashInt hashNode a mode now lockFree (c, h) = Ok (bumped, (c', h')) ∧
    tlfu_wf h' c' main' tiny' ∧ config_ c' = config_ c ∧ keeps h a h' ∧
    if bumped then (∃ i, at_queue (main := main) (tiny := tiny) a i (λ xs, a :: delete i xs) main' tiny') ∧ time h' a = u32 now ∧
      (∃ c1, update a c = Ok c1 ∧ accessFreq_ c' = accessFreq_ c1 ∧ windowSize_ c' = windowSize_ c1)
    else main' = main ∧ tiny' = tiny ∧ c' = c ∧ time h' a = time h a ∧ flag kMMFlag1 h' a = (flag kMMFlag1 h a || enabled).
Proof. apply record_aux. Qed.
End spec.

(** ** A concrete container

    Three fresh items, the default configuration and simple hashes. *)
#[local] Existing Instance example_compressor.
Definition tl_pow (v : Z) : Z := 2 ^ Z.log2_up v.
Lemma tl_pow_ok : next_pow_two tl_pow.
Proof.
  intros v Hv. exists (Z.log2_up v). split; [apply Z.log2_up_nonneg|]. split; [done|].
  destruct (decide (v = 0)) as [->|Hne]; [split; [done|]; intros j Hj; cbn in Hj; lia|].
  split; [apply Z.log2_up_le_pow2; lia|]. intros j Hj. destruct (Z.lt_ge_cases (2 ^ j) v) as [|Hge]; [done|].
  apply Z.log2_up_le_pow2 in Hge; lia.
Qed.
Definition tl_cfg : Config := mkConfig 60 60 (S754_zero false) false true true 32 1 0.
Lemma tl_cfg_ok : cfg_ok tl_cfg.
Proof. split; [cbn; lia..|apply scale_zero_ok]. Qed.
Lemma tl_items : new_items fresh2q.
Proof.
  split; [apply fresh2q_ok|]. split; [|by vm_compute].
  intros a. destruct (payload fresh2q a) as [p|] eqn:E; [|unfold flag; by rewrite E].
  revert a p E. assert (∀ a, is_Some (payload fresh2q a) → flag kMMFlag0 fresh2q a = false) as Hf.
  { refine (items_3 _ _ _ (λ a, flag kMMFlag0 fresh2q a = false) _ eq_refl _ _ _); by vm_compute. }
  intros a p E. apply Hf. by exists p.
Qed.
Definition tl_hash (a : Z) : Z := a / 64.
Abbreviation tl_run := (run_tlfu_op ex_combine ex_int tl_hash tl_pow).

Lemma tlfu_reachable_safe_witness : ∃ c, Container_new tl_pow tl_cfg 0 = Ok c ∧ ∃ c' h', tl_run (TAdd (ex_node 0) 10) (c, fresh2q) = Ok (c', h').
Proof.
  destruct (tlfu_reachable_safe ex_combine ex_int tl_hash tl_pow tl_pow_ok fresh2q tl_cfg 0 tl_items tl_cfg_ok) as [[c Hc] Hall].
  exists c. split; [done|]. destruct (Hall c fresh2q) as (_ & _ & Hop); [by apply tl_new|]. apply Hop. by eexists.
Defined.

(** An empty container over the fresh items, and one with an item. *)
Lemma tl_empty_wf : ∃ c, tlfu_wf fresh2q c [] [] ∧ config_ c = tl_cfg.
Proof.
  destruct (tlfu_new_aux ex_combine ex_int tl_hash tl_pow tl_pow_ok fresh2q tl_cfg 0 tl_items tl_cfg_ok) as (c & Heq & Hwf). exists c. split; [done|].
  revert Heq. unfold Container_new. destruct (grow_aux tl_pow tl_pow_ok (mkContainer (MultiDList_new NumTypes) 0 0 0 0 0 tl_cfg CountMinSketch_empty))
    as (c0 & -> & _ & _ & C & _); [cbn; unfold items_max; lia|cbn; lia|split; by vm_compute|apply tl_cfg_ok|]. cbn [mbind result_bind]. intros [= <-]. done.
Qed.
Lemma tl_one_wf : ∃ c h, tlfu_wf h c [ex_node 0] [].
Proof.
  destruct tl_empty_wf as (c & Hwf & Hc). destruct (tlfu_add_aux ex_combine ex_int tl_hash tl_pow tl_pow_ok Hwf (ex_node 0) 10) as (c1 & c' & h' & Hu & _ & Hwf' & _);
    [by eexists|by vm_compute|]. exists c', h'.
  destruct (update_aux ex_combine ex_int tl_hash (ex_node 0) c (tw_freq _ _ _ _ Hwf)) as (c2 & Hu2 & _ & (_ & C2 & _) & _).
  rewrite Hu in Hu2. injection Hu2 as <-. revert Hwf'. unfold added, share. rewrite C2, Hc. done.
Qed.

Lemma tlfu_add_spec_witness : ∃ c c' h', tlfu_wf fresh2q c [] [] ∧
  add ex_combine ex_int tl_hash tl_pow (ex_node 0) 10 (c, fresh2q) = Ok (true, (c', h')) ∧ linked h' (ex_node 0) = true.
Proof.
  destruct tl_empty_wf as (c & Hwf & _).
  pose proof (tlfu_add_spec ex_combine ex_int tl_hash tl_pow tl_pow_ok fresh2q c [] [] (ex_node 0) 10 Hwf ltac:(by eexists)) as Hs.
  change (linked fresh2q (ex_node 0)) with false in Hs. cbv iota in Hs.
  destruct Hs as (c1 & c' & h' & m' & t' & _ & Heq & _ & _ & _ & _ & Hl & _). by exists c, c', h'.
Defined.

Lemma tlfu_eviction_order_witness : ∃ c h it it' c' h', tlfu_wf h c [ex_node 0] [] ∧ getEvictionIterator c = Ok it ∧
  evict_n ex_combine ex_int tl_hash 1 it (c, h) = Ok ([ex_node 0], (it', (c', h'))).
Proof.
  destruct tl_one_wf as (c & h & Hwf).
  destruct (tlfu_eviction_order ex_combine ex_int tl_hash h c [ex_node 0] [] Hwf) as (_ & it & Hit & _ & Hev).
  destruct (Hev 1%nat) as (it' & c' & h' & m' & t' & Heq & _); [cbn; lia|]. by exists c, h, it, it', c', h'.
Defined.

(** Saved and restored, a container forgets that it was configured to update with
    a try-lock. *)
Lemma restore_forgets_try_lock : ∃ o cfg, tryLockUpdate tl_cfg = true ∧
  MMTinyLFU_saveState (mkContainer [DList_empty; DList_empty] 0 3200 100 0 60 tl_cfg CountMinSketch_empty) = Ok o ∧
  Config_restore (o_config o) = Ok cfg ∧ tryLockUpdate cfg = false.
Proof. eexists _, _. split; [done|]. split; [vm_compute; reflexivity|]. split; [vm_compute; reflexivity|done]. Qed.

(** A container that has grown to 52428800 items with the default window ratio
    asks for 2^30 counters per row and is left without any. *)
Lemma counters_overflow : ∃ c,
  maybeGrowAccessCountersLocked tl_pow
    (mkContainer [mkDList None None 52428800; DList_empty] 0 3200 26214400 0 60 tl_cfg CountMinSketch_empty) = Ok c ∧
  width_ (accessFreq_ c) = 2 ^ 30 ∧ table_ (accessFreq_ c) = [] ∧
  updateFrequenciesLocked ex_combine ex_int tl_hash 0 c = Undef.
Proof. eexists. split; [vm_compute; reflexivity|]. by vm_compute. Qed.
