(* ===== verification/BloomFilter.v ===== *)
(** The array of Bloom filters ([common/BloomFilter.h], [BloomFilter.cpp])
    that navy's BigHash keeps to skip device reads.

    The bit array is a list of bytes indexed as the code indexes it; an index
    outside the allocation is undefined behaviour.  The two hash functions
    ([folly::hash::hash_128_to_64] and [twang_mix64]) are parameters.  The
    record stream of [persist]/[recover] is a list of records. *)
From S2P Require Import Prelude.

Record BloomFilter := mkBloomFilter {
  numFilters_ : Z;
  hashTableBitSize_ : Z;
  filterByteSize_ : Z;
  seeds_ : list Z;
  bits_ : option (list Z);   (** [None] is a null array *)
}.

(** The default constructor. *)
Definition BloomFilter_empty : BloomFilter := mkBloomFilter 0 0 0 [] None.

Definition byteIndex (bitIdx : Z) : Z := Z.shiftr bitIdx 3.
Definition bitMask (bitIdx : Z) : Z := u8 (Z.shiftl 1 (Z.land bitIdx 7)).
Definition bitsToBytes (bits : Z) : Z := Z.shiftr (Z.land (u64 (bits + 7)) (uint_max 64 - 7)) 3.

(** [ptr\[byteIndex(bitIdx)\]] with [ptr] at offset [base] of the array. *)
Definition byte_at (bits : list Z) (base bitIdx : Z) : result Z :=
  deref (bits !! Z.to_nat (base + byteIndex bitIdx)).
Definition bitSet (base bitIdx : Z) (bits : list Z) : result (list Z) :=
  b ← byte_at bits base bitIdx;
  Ok (<[Z.to_nat (base + byteIndex bitIdx) := Z.lor b (bitMask bitIdx)]> bits).
Definition bitGet (bits : list Z) (base bitIdx : Z) : result bool :=
  b ← byte_at bits base bitIdx; Ok (negb (Z.land b (bitMask bitIdx) =? 0)).

Definition getByteSize (bf : BloomFilter) : Z := u64 (numFilters_ bf * filterByteSize_ bf).
Definition numHashes (bf : BloomFilter) : Z := u32 (Z.of_nat (length (seeds_ bf))).
Definition numBitsPerFilter (bf : BloomFilter) : Z := u64 (filterByteSize_ bf * 8).
(** The offset of filter [idx] in the array. *)
Definition getFilterBytes (bf : BloomFilter) (idx : Z) : result Z :=
  _ ← xdcheck (bool_decide (bits_ bf ≠ None)); Ok (u64 (idx * filterByteSize_ bf)).
Definition with_bits (b : list Z) (bf : BloomFilter) : BloomFilter :=
  mkBloomFilter (numFilters_ bf) (hashTableBitSize_ bf) (filterByteSize_ bf) (seeds_ bf) (Some b).
Definition with_seeds (s : list Z) (bf : BloomFilter) : BloomFilter :=
  mkBloomFilter (numFilters_ bf) (hashTableBitSize_ bf) (filterByteSize_ bf) s (bits_ bf).

Section operations.
Context (combineHashes : Z → Z → Z) (hashInt : Z → Z).

Definition BloomFilter_new (numFilters numHashes hashTableBitSize : Z) : result BloomFilter :=
  let filterByteSize := bitsToBytes (u64 (numHashes * hashTableBitSize)) in
  _ ← throw_if ((numFilters =? 0) || (numHashes =? 0) || (hashTableBitSize =? 0)) InvalidArgument;
  Ok (mkBloomFilter numFilters hashTableBitSize filterByteSize
        ((λ i, hashInt (Z.of_nat i)) <$> seq 0 (Z.to_nat numHashes))
        (Some (replicate (Z.to_nat (u64 (numFilters * filterByteSize))) 0))).

(** The loop over the seeds, from bit [firstBit] on. *)
Fixpoint set_loop (seeds : list Z) (firstBit idx key : Z) (bf : BloomFilter) : result BloomFilter :=
  match seeds with
  | [] => Ok bf
  | seed :: seeds =>
      base ← getFilterBytes bf idx;
      _ ← xdcheck (idx <? numFilters_ bf);
      let bitNum := combineHashes key seed mod hashTableBitSize_ bf in
      bits ← deref (bits_ bf);
      bits ← bitSet base (u64 (firstBit + bitNum)) bits;
      set_loop seeds (u64 (firstBit + hashTableBitSize_ bf)) idx key (with_bits bits bf)
  end.
Definition set (idx key : Z) (bf : BloomFilter) : result BloomFilter := set_loop (seeds_ bf) 0 idx key bf.

Fixpoint couldExist_loop (seeds : list Z) (firstBit idx key : Z) (bf : BloomFilter) : result bool :=
  match seeds with
  | [] => Ok true
  | seed :: seeds =>
      _ ← xdcheck (idx <? numFilters_ bf);
      base ← getFilterBytes bf idx;
      let bitNum := combineHashes key seed mod hashTableBitSize_ bf in
      bits ← deref (bits_ bf);
      b ← bitGet bits base (u64 (firstBit + bitNum));
      if negb b then Ok false
      else couldExist_loop seeds (u64 (firstBit + hashTableBitSize_ bf)) idx key bf
  end.
Definition couldExist (idx key : Z) (bf : BloomFilter) : result bool :=
  couldExist_loop (seeds_ bf) 0 idx key bf.

(** [memset(ptr, 0, n)] at offset [base]. *)
Definition memset0 (base n : Z) (bits : list Z) : result (list Z) :=
  if decide (base + n ≤ Z.of_nat (length bits))
  then Ok (take (Z.to_nat base) bits ++ replicate (Z.to_nat n) 0 ++ drop (Z.to_nat (base + n)) bits)
  else Undef.

Definition clear (idx : Z) (bf : BloomFilter) : result BloomFilter :=
  match bits_ bf with
  | None => Ok bf
  | Some bits =>
      _ ← xdcheck (idx <? numFilters_ bf);
      base ← getFilterBytes bf idx;
      bits ← memset0 base (filterByteSize_ bf) bits;
      Ok (with_bits bits bf)
  end.

Definition reset (bf : BloomFilter) : result BloomFilter :=
  match bits_ bf with
  | None => Ok bf
  | Some bits => bits ← memset0 0 (getByteSize bf) bits; Ok (with_bits bits bf)
  end.
End operations.

(** *** Persistence *)
Definition kPersistFragmentSize : Z := 1024 * 1024.

Record BloomFilterPersistentData := mkPersistentData {
  bd_numFilters : Z; bd_hashTableBitSize : Z; bd_filterByteSize : Z; bd_fragmentSize : Z;
  bd_seeds : list Z;
}.
(** A record of the stream: the serialized configuration, or raw bytes. *)
Inductive record := RProto (bd : BloomFilterPersistentData) | RBytes (b : list Z).

(** [while (off < size)], writing [min(size - off, fragmentSize)] bytes of
    [data] from [off] at a time. *)
Fixpoint write_fragments (fuel : nat) (data : list Z) (off size fragmentSize : Z) : result (list record) :=
  if off <? size then
    match fuel with
    | O => Undef
    | S fuel =>
        let nBytes := Z.min (size - off) fragmentSize in
        rest ← write_fragments fuel data (off + nBytes) size fragmentSize;
        Ok (RBytes (take (Z.to_nat nBytes) (drop (Z.to_nat off) data)) :: rest)
    end
  else Ok [].
(** The same for the [nBytes] leading zeroes of [fakeInitBits]. *)
Fixpoint write_zeroes (fuel : nat) (off size fragmentSize : Z) : result (list record) :=
  if off <? size then
    match fuel with
    | O => Undef
    | S fuel =>
        let nBytes := Z.min (size - off) fragmentSize in
        rest ← write_zeroes fuel (off + nBytes) size fragmentSize;
        Ok (RBytes (replicate (Z.to_nat nBytes) 0) :: rest)
    end
  else Ok [].

Definition serializeBits (fragmentSize : Z) (bf : BloomFilter) : result (list record) :=
  bits ← deref (bits_ bf);
  let bitsSize := getByteSize bf in
  _ ← (if decide (bitsSize ≤ Z.of_nat (length bits)) then Ok tt else Undef);
  w ← write_fragments (Z.to_nat bitsSize) bits 0 bitsSize fragmentSize;
  let initSize := bitsToBytes (numFilters_ bf) in
  w' ← write_zeroes (Z.to_nat initSize) 0 initSize fragmentSize;
  Ok (w ++ w').

Definition persist (bf : BloomFilter) : result (list record) :=
  let bd := mkPersistentData (s32 (numFilters_ bf)) (s64 (hashTableBitSize_ bf)) (s64 (filterByteSize_ bf))
              (s32 kPersistFragmentSize) (s64 <$> seeds_ bf) in
  w ← serializeBits kPersistFragmentSize bf;
  Ok (RProto bd :: w).

(** [while (off < size)], copying each record at [off]. *)
Fixpoint read_fragments (fuel : nat) (off size : Z) (bits : list Z) (rr : list record)
    : result (list Z * list record) :=
  if off <? size then
    match fuel, rr with
    | O, _ => Undef
    | S _, [] => Throw InvalidArgument
    | S _, RProto _ :: _ => Undef
    | S fuel, RBytes b :: rr =>
        if decide (off + Z.of_nat (length b) ≤ Z.of_nat (length bits)) then
          read_fragments fuel (off + Z.of_nat (length b)) size
            (take (Z.to_nat off) bits ++ b ++ drop (Z.to_nat off + length b) bits) rr
        else Undef
    end
  else Ok (bits, rr).
Fixpoint skip_fragments (fuel : nat) (off size : Z) (rr : list record) : result (list record) :=
  if off <? size then
    match fuel, rr with
    | O, _ => Undef
    | S _, [] => Throw InvalidArgument
    | S _, RProto _ :: _ => Undef
    | S fuel, RBytes b :: rr => skip_fragments fuel (off + Z.of_nat (length b)) size rr
    end
  else Ok rr.

Definition deserializeBits (bf : BloomFilter) (rr : list record) : result (BloomFilter * list record) :=
  bits ← deref (bits_ bf);
  '(bits, rr) ← read_fragments (S (length rr)) 0 (getByteSize bf) bits rr;
  rr ← skip_fragments (S (length rr)) 0 (bitsToBytes (numFilters_ bf)) rr;
  Ok (with_bits bits bf, rr).

(** [for i: seeds_\[i\] = bd.seeds()\[i\]]. *)
Definition recover_seeds (from seeds : list Z) : result (list Z) :=
  if decide (length from ≤ length seeds)%nat then Ok ((u64 <$> from) ++ drop (length from) seeds) else Undef.

Definition recover (bf : BloomFilter) (rr : list record) : result (BloomFilter * list record) :=
  match rr with
  | RProto bd :: rr =>
      _ ← throw_if (negb (numFilters_ bf =? u32 (bd_numFilters bd)) ||
                    negb (hashTableBitSize_ bf =? u64 (bd_hashTableBitSize bd)) ||
                    negb (filterByteSize_ bf =? u64 (bd_filterByteSize bd)) ||
                    negb (u32 (bd_fragmentSize bd) =? kPersistFragmentSize)) InvalidArgument;
      seeds ← recover_seeds (bd_seeds bd) (seeds_ bf);
      deserializeBits (with_seeds seeds bf) rr
  | RBytes _ :: _ => Throw RuntimeError
  | [] => Undef
  end.

(** ** The array as a set of bits *)

(** Bit [g] of the whole array. *)
Definition getbit (bits : list Z) (g : Z) : bool :=
  match bits !! Z.to_nat (g / 8) with Some b => Z.testbit b (g mod 8) | None => false end.

(** Dimensions without overflow, and an array of the right size. *)
Record bf_wf (bf : BloomFilter) (bits : list Z) : Prop := {
  wf_bits : bits_ bf = Some bits;
  wf_len : Z.of_nat (length bits) = numFilters_ bf * filterByteSize_ bf;
  wf_filters : 0 < numFilters_ bf < 2 ^ 32;
  wf_table : 0 < hashTableBitSize_ bf < 2 ^ 64;
  wf_bytes : 0 < filterByteSize_ bf;
  wf_seeds : 0 < Z.of_nat (length (seeds_ bf)) < 2 ^ 32;
  wf_fit : Z.of_nat (length (seeds_ bf)) * hashTableBitSize_ bf ≤ 8 * filterByteSize_ bf;
  wf_small : numFilters_ bf * filterByteSize_ bf < 2 ^ 61;
}.

Lemma bitsToBytes_eq n : 0 ≤ n → n + 7 < 2 ^ 64 → bitsToBytes n = (n + 7) / 8.
Proof.
  intros. unfold bitsToBytes. rewrite wrap_small by (unfold fits; lia).
  rewrite Z.shiftr_land. change (Z.shiftr (uint_max 64 - 7) 3) with (2 ^ 61 - 1).
  rewrite land_ones_mod, Z.shiftr_div_pow2 by lia. apply Z.mod_small.
  change (2 ^ 3) with 8. split; [apply Z.div_pos; lia|]. apply Z.div_lt_upper_bound; lia.
Qed.

Lemma bitMask_eq j : 0 ≤ j → bitMask j = Z.shiftl 1 (j mod 8).
Proof.
  intros. unfold bitMask. change 7 with (2 ^ 3 - 1). rewrite land_ones_mod by lia. change (2 ^ 3) with 8.
  apply wrap_small. rewrite Z.shiftl_1_l. pose proof (Z.mod_pos_bound j 8). unfold fits.
  split; [lia|]. apply Z.pow_lt_mono_r; lia.
Qed.

(** The array index of a bit of a filter, and its place in the byte. *)
Lemma global_index base j : 0 ≤ base → 0 ≤ j →
  (8 * base + j) / 8 = base + byteIndex j ∧ (8 * base + j) mod 8 = j mod 8.
Proof.
  intros. unfold byteIndex. rewrite Z.shiftr_div_pow2 by lia. change (2 ^ 3) with 8.
  rewrite (Z.add_comm (8 * base)), (Z.mul_comm 8), Z.div_add, Z.mod_add by lia. lia.
Qed.

Lemma bit_in_range (bits : list Z) base j : 0 ≤ base → 0 ≤ j → 8 * base + j < 8 * Z.of_nat (length bits) →
  is_Some (bits !! Z.to_nat (base + byteIndex j)).
Proof.
  intros Hb Hj Hlt. apply lookup_lt_is_Some_2. destruct (global_index base j) as [<- _]; try done.
  assert ((8 * base + j) / 8 < Z.of_nat (length bits)) by (apply Z.div_lt_upper_bound; lia).
  pose proof (Z.div_pos (8 * base + j) 8). lia.
Qed.

Lemma bitGet_spec bits base j : 0 ≤ base → 0 ≤ j → 8 * base + j < 8 * Z.of_nat (length bits) →
  bitGet bits base j = Ok (getbit bits (8 * base + j)).
Proof.
  intros Hb Hj Hlt. destruct (bit_in_range bits base j Hb Hj Hlt) as [b Hbit].
  unfold bitGet, byte_at, getbit. destruct (global_index base j) as [-> ->]; try done. rewrite Hbit. cbn.
  rewrite bitMask_eq, land_bit_nonzero by (done || by apply Z.mod_pos_bound). done.
Qed.

Lemma bitSet_spec bits base j : 0 ≤ base → 0 ≤ j → 8 * base + j < 8 * Z.of_nat (length bits) →
  ∃ bits', bitSet base j bits = Ok bits' ∧ length bits' = length bits ∧
    ∀ g, 0 ≤ g → getbit bits' g = getbit bits g || (g =? 8 * base + j).
Proof.
  intros Hb Hj Hlt. destruct (bit_in_range bits base j Hb Hj Hlt) as [b Hbit].
  unfold bitSet, byte_at. rewrite Hbit. cbn. eexists. split; [done|]. split; [by rewrite length_insert|].
  intros g Hg. unfold getbit. destruct (global_index base j) as [Hdiv Hmod]; try done.
  pose proof (Z.mod_pos_bound j 8). pose proof (Z.mod_pos_bound g 8). pose proof (Z.div_pos g 8).
  assert (0 ≤ byteIndex j) by (unfold byteIndex; apply Z.shiftr_nonneg; lia).
  rewrite bitMask_eq by done. destruct (decide (g / 8 = base + byteIndex j)) as [E|E].
  - rewrite E, list_lookup_insert_eq by by eapply lookup_lt_Some. rewrite Hbit.
    rewrite Z.lor_spec, testbit_one_shift by lia. f_equal. apply eq_true_iff_eq. rewrite !Z.eqb_eq.
    pose proof (Z.div_mod g 8). pose proof (Z.div_mod (8 * base + j) 8). split; [lia|]. intros ->. lia.
  - rewrite list_lookup_insert_ne by lia. replace (g =? 8 * base + j) with false; [by rewrite orb_false_r|].
    symmetry. apply Z.eqb_neq. intros ->. done.
Qed.

Section loops.
Context (combineHashes : Z → Z → Z).

(** The array bits a key maps to, one per hash function. *)
Fixpoint positions (seeds : list Z) (table base firstBit key : Z) : list Z :=
  match seeds with
  | [] => []
  | seed :: seeds =>
      8 * base + (firstBit + combineHashes key seed mod table) :: positions seeds table base (firstBit + table) key
  end.

Lemma positions_range seeds table base firstBit key g : 0 < table → 0 ≤ firstBit →
  g ∈ positions seeds table base firstBit key →
  8 * base + firstBit ≤ g < 8 * base + firstBit + Z.of_nat (length seeds) * table.
Proof.
  intros Ht. revert firstBit. induction seeds as [|s seeds IH]; intros firstBit Hf; cbn [positions].
  - by intros ?%elem_of_nil.
  - rewrite elem_of_cons. pose proof (Z.mod_pos_bound (combineHashes key s) table). cbn [length].
    intros [->|Hin]; [nia|]. apply IH in Hin; lia.
Qed.

Section filter.
Context (bf : BloomFilter) (bits : list Z) (Hwf : bf_wf bf bits) (idx : Z) (Hidx : 0 ≤ idx < numFilters_ bf).
Let base := idx * filterByteSize_ bf.

Lemma base_range : 0 ≤ base ∧ base + filterByteSize_ bf ≤ Z.of_nat (length bits) < 2 ^ 61.
Proof.
  unfold base. rewrite (wf_len _ _ Hwf). pose proof (wf_bytes _ _ Hwf). pose proof (wf_small _ _ Hwf). nia.
Qed.

Lemma filter_bytes bits' : getFilterBytes (with_bits bits' bf) idx = Ok base.
Proof.
  unfold getFilterBytes. cbn. unfold base. f_equal. apply wrap_small. pose proof base_range as Hr.
  pose proof (wf_bytes _ _ Hwf). unfold base in Hr. unfold fits. lia.
Qed.

Lemma loop_bit seed seeds firstBit key : 0 ≤ firstBit →
  firstBit + Z.of_nat (length (seed :: seeds)) * hashTableBitSize_ bf ≤ 8 * filterByteSize_ bf →
  let j := firstBit + combineHashes key seed mod hashTableBitSize_ bf in
  u64 j = j ∧ u64 (firstBit + hashTableBitSize_ bf) = firstBit + hashTableBitSize_ bf ∧
  0 ≤ j ∧ 8 * base + j < 8 * Z.of_nat (length bits).
Proof.
  intros Hf Hfit j. cbn [length] in Hfit. pose proof base_range. pose proof (wf_table _ _ Hwf).
  pose proof (Z.mod_pos_bound (combineHashes key seed) (hashTableBitSize_ bf)).
  assert (hashTableBitSize_ bf ≤ Z.of_nat (S (length seeds)) * hashTableBitSize_ bf)
    by (rewrite Nat2Z.inj_succ, Z.mul_succ_l; pose proof (Z.mul_nonneg_nonneg (Z.of_nat (length seeds)) (hashTableBitSize_ bf)); lia).
  assert (0 ≤ j < 8 * filterByteSize_ bf) by (unfold j; lia).
  split_and!; [apply wrap_small; unfold fits; lia| |lia..].
  apply wrap_small. unfold fits. lia.
Qed.

Lemma set_loop_spec seeds firstBit key bits1 : length bits1 = length bits → 0 ≤ firstBit →
  firstBit + Z.of_nat (length seeds) * hashTableBitSize_ bf ≤ 8 * filterByteSize_ bf →
  ∃ bits', set_loop combineHashes seeds firstBit idx key (with_bits bits1 bf) = Ok (with_bits bits' bf) ∧
    length bits' = length bits ∧
    ∀ g, 0 ≤ g → getbit bits' g = getbit bits1 g ||
      bool_decide (g ∈ positions seeds (hashTableBitSize_ bf) base firstBit key).
Proof.
  revert firstBit bits1. induction seeds as [|seed seeds IH]; intros firstBit bits1 Hlen Hf Hfit.
  - exists bits1. split; [done|]. split; [done|]. intros g _. cbn. by rewrite orb_false_r.
  - cbn [set_loop]. rewrite filter_bytes. res_simpl. cbn [numFilters_ hashTableBitSize_ bits_ with_bits].
    rewrite (proj2 (Z.ltb_lt _ _)) by apply Hidx. res_simpl.
    destruct (loop_bit seed seeds firstBit key Hf Hfit) as (-> & -> & Hj & Hlt).
    destruct (bitSet_spec bits1 base (firstBit + combineHashes key seed mod hashTableBitSize_ bf))
      as (bits2 & -> & Hlen2 & Hb2); [apply base_range|done|by rewrite Hlen|]. res_simpl.
    pose proof (wf_table _ _ Hwf). cbn [length] in Hfit.
    destruct (IH (firstBit + hashTableBitSize_ bf) bits2) as (bits' & Heq & Hl' & Hb'); [congruence|lia..|].
    exists bits'. split; [done|]. split; [done|]. intros g Hg. rewrite Hb', Hb2 by done. cbn [positions].
    rewrite <- orb_assoc. f_equal. apply eq_true_iff_eq.
    rewrite orb_true_iff, Z.eqb_eq, !bool_decide_eq_true, elem_of_cons. done.
Qed.

Lemma couldExist_loop_spec seeds firstBit key bits1 : length bits1 = length bits → 0 ≤ firstBit →
  firstBit + Z.of_nat (length seeds) * hashTableBitSize_ bf ≤ 8 * filterByteSize_ bf →
  couldExist_loop combineHashes seeds firstBit idx key (with_bits bits1 bf) =
    Ok (forallb (getbit bits1) (positions seeds (hashTableBitSize_ bf) base firstBit key)).
Proof.
  revert firstBit. induction seeds as [|seed seeds IH]; intros firstBit Hlen Hf Hfit; [done|].
  cbn [couldExist_loop]. cbn [numFilters_ hashTableBitSize_ bits_ with_bits].
  rewrite (proj2 (Z.ltb_lt _ _)) by apply Hidx. res_simpl. rewrite filter_bytes. res_simpl.
  destruct (loop_bit seed seeds firstBit key Hf Hfit) as (-> & -> & Hj & Hlt).
  rewrite bitGet_spec by (apply base_range || done || by rewrite Hlen). res_simpl. cbn [positions forallb].
  destruct (getbit bits1 _); [|done]. cbn [negb andb]. pose proof (wf_table _ _ Hwf). cbn [length] in Hfit.
  apply IH; [done|lia..].
Qed.
End filter.
End loops.

(** ** What the filters promise *)
Lemma forallb_elem {A} (f : A → bool) l : forallb f l = true ↔ ∀ x, x ∈ l → f x = true.
Proof. rewrite forallb_forall. by setoid_rewrite list_elem_of_In. Qed.

Section theorems.
Context (combineHashes : Z → Z → Z) (hashInt : Z → Z).
Implicit Types (bf : BloomFilter) (bits : list Z).

(** The answer of filter [idx] for [key]. *)
Definition answer bf bits idx key : bool :=
  forallb (getbit bits) (positions combineHashes (seeds_ bf) (hashTableBitSize_ bf)
    (idx * filterByteSize_ bf) 0 key).

Lemma with_bits_id bf bits : bf_wf bf bits → with_bits bits bf = bf.
Proof. intros Hwf. destruct bf. unfold with_bits. cbn. f_equal. symmetry. apply Hwf. Qed.
Lemma with_bits_wf bf bits bits' : bf_wf bf bits → length bits' = length bits → bf_wf (with_bits bits' bf) bits'.
Proof. intros Hwf Hl. split; cbn; try apply Hwf; [done|]. rewrite Hl. apply Hwf. Qed.

Lemma couldExist_aux bf bits idx key : bf_wf bf bits → 0 ≤ idx < numFilters_ bf →
  couldExist combineHashes idx key bf = Ok (answer bf bits idx key).
Proof.
  intros Hwf Hidx. unfold couldExist, answer. rewrite <- (with_bits_id bf bits Hwf) at 1 2.
  apply (couldExist_loop_spec combineHashes bf bits Hwf idx Hidx); [done..|]. pose proof (wf_fit _ _ Hwf). cbn. lia.
Qed.

Lemma positions_filter bf bits idx key g : bf_wf bf bits →
  g ∈ positions combineHashes (seeds_ bf) (hashTableBitSize_ bf) (idx * filterByteSize_ bf) 0 key →
  8 * (idx * filterByteSize_ bf) ≤ g < 8 * ((idx + 1) * filterByteSize_ bf).
Proof.
  intros Hwf Hg%positions_range; [|by apply (wf_table _ _ Hwf)|done]. pose proof (wf_fit _ _ Hwf). lia.
Qed.

(** Filters do not overlap. *)
Lemma filters_disjoint bf bits i j g : bf_wf bf bits →
  8 * (i * filterByteSize_ bf) ≤ g < 8 * ((i + 1) * filterByteSize_ bf) →
  8 * (j * filterByteSize_ bf) ≤ g < 8 * ((j + 1) * filterByteSize_ bf) → i = j.
Proof.
  intros Hwf Hi Hj. pose proof (wf_bytes _ _ Hwf).
  destruct (Z.lt_trichotomy i j) as [Hlt|[->|Hlt]]; [|done|]; exfalso.
  - assert ((i + 1) * filterByteSize_ bf ≤ j * filterByteSize_ bf) by (apply Z.mul_le_mono_nonneg_r; lia). lia.
  - assert ((j + 1) * filterByteSize_ bf ≤ i * filterByteSize_ bf) by (apply Z.mul_le_mono_nonneg_r; lia). lia.
Qed.

Lemma answer_ext bf bits bits' idx key : bf_wf bf bits → 0 ≤ idx →
  (∀ g, 8 * (idx * filterByteSize_ bf) ≤ g < 8 * ((idx + 1) * filterByteSize_ bf) →
        getbit bits' g = getbit bits g) →
  answer bf bits' idx key = answer bf bits idx key.
Proof.
  intros Hwf Hidx Hg. unfold answer. apply eq_true_iff_eq. rewrite !forallb_elem.
  split; intros Hall g Hin; specialize (Hall g Hin);
    [rewrite <- Hg|rewrite Hg]; try done; by eapply positions_filter.
Qed.

Lemma set_aux bf bits idx key : bf_wf bf bits → 0 ≤ idx < numFilters_ bf →
  ∃ bits', let bf' := with_bits bits' bf in set combineHashes idx key bf = Ok bf' ∧ bf_wf bf' bits' ∧
    couldExist combineHashes idx key bf' = Ok true ∧
    (∀ i k, 0 ≤ i < numFilters_ bf → couldExist combineHashes i k bf = Ok true →
            couldExist combineHashes i k bf' = Ok true) ∧
    (∀ i k, 0 ≤ i < numFilters_ bf → i ≠ idx →
            couldExist combineHashes i k bf' = couldExist combineHashes i k bf).
Proof.
  intros Hwf Hidx.
  assert (set combineHashes idx key bf = set_loop combineHashes (seeds_ bf) 0 idx key (with_bits bits bf)) as ->
    by by rewrite (with_bits_id bf bits Hwf).
  destruct (set_loop_spec combineHashes bf bits Hwf idx Hidx (seeds_ bf) 0 key bits)
    as (bits' & Heq & Hlen & Hb); [done..|pose proof (wf_fit _ _ Hwf); lia|].
  exists bits'. pose proof (with_bits_wf bf bits bits' Hwf Hlen) as Hwf'.
  split; [exact Heq|]. split; [done|].
  assert (∀ i k, 0 ≤ i < numFilters_ bf → couldExist combineHashes i k (with_bits bits' bf) =
    Ok (answer bf bits' i k)) as Hce' by (intros; by rewrite (couldExist_aux _ bits')).
  assert (0 ≤ idx * filterByteSize_ bf) by (pose proof (wf_bytes _ _ Hwf); nia).
  split_and!.
  - rewrite Hce' by done. f_equal. unfold answer. apply forallb_elem. intros g Hg.
    pose proof (positions_filter _ _ _ _ _ Hwf Hg). rewrite Hb by lia.
    by rewrite bool_decide_eq_true_2, orb_true_r by done.
  - intros i k Hi. rewrite Hce', (couldExist_aux _ bits) by done. intros [= Ha]. f_equal.
    unfold answer in *. apply forallb_elem. intros g Hg.
    assert (0 ≤ g) by (apply (positions_filter _ _ _ _ _ Hwf) in Hg; pose proof (wf_bytes _ _ Hwf); nia).
    rewrite Hb by done. rewrite forallb_elem in Ha. by rewrite (Ha g Hg).
  - intros i k Hi Hne. rewrite Hce', (couldExist_aux _ bits) by done. f_equal.
    apply answer_ext; [done|lia|]. intros g Hg. pose proof (wf_bytes _ _ Hwf). rewrite Hb by nia.
    rewrite bool_decide_eq_false_2; [by rewrite orb_false_r|].
    intros Hin%(positions_filter _ _ _ _ _ Hwf). by eapply Hne, filters_disjoint.
Qed.

(** C38: no false negatives.  [set] on a filter of the array never fails;
    afterwards [couldExist] is true for that key, every key that could exist
    in any filter still could, and the other filters answer every query as
    before. *)
Theorem set_no_false_negative bf bits idx key : bf_wf bf bits → 0 ≤ idx < numFilters_ bf →
  ∃ bf' bits', set combineHashes idx key bf = Ok bf' ∧ bf_wf bf' bits' ∧
    couldExist combineHashes idx key bf' = Ok true ∧
    (∀ i k, 0 ≤ i < numFilters_ bf → couldExist combineHashes i k bf = Ok true →
            couldExist combineHashes i k bf' = Ok true) ∧
    (∀ i k, 0 ≤ i < numFilters_ bf → i ≠ idx →
            couldExist combineHashes i k bf' = couldExist combineHashes i k bf).
Proof. intros Hwf Hidx. destruct (set_aux bf bits idx key Hwf Hidx) as (bits' & H). by exists (with_bits bits' bf), bits'. Qed.

(** *** Clearing *)
Lemma memset0_spec base n bits : 0 ≤ base → 0 ≤ n → base + n ≤ Z.of_nat (length bits) →
  ∃ bits', memset0 base n bits = Ok bits' ∧ length bits' = length bits ∧
    ∀ g, 0 ≤ g → getbit bits' g = getbit bits g && negb ((8 * base <=? g) && (g <? 8 * (base + n))).
Proof.
  intros Hb Hn Hle. unfold memset0. rewrite decide_True by done. eexists. split; [done|].
  split; [rewrite !length_app, length_take, length_replicate, length_drop; lia|].
  intros g Hg. unfold getbit. pose proof (Z.div_pos g 8). pose proof (Z.div_mod g 8). pose proof (Z.mod_pos_bound g 8).
  destruct (decide (g / 8 < base)) as [E1|E1].
  { rewrite lookup_app_l, lookup_take_lt by (rewrite ?length_take; lia).
    rewrite (proj2 (Z.leb_gt _ _)) by lia. by rewrite andb_true_r. }
  rewrite lookup_app_r by (rewrite length_take; lia). rewrite length_take.
  rewrite (proj2 (Z.leb_le (8 * base) g)) by lia. destruct (decide (g / 8 < base + n)) as [E2|E2].
  - rewrite lookup_app_l by (rewrite length_replicate; lia). rewrite lookup_replicate_2 by lia.
    rewrite (proj2 (Z.ltb_lt _ _)) by lia. by rewrite Z.bits_0, andb_false_r.
  - rewrite lookup_app_r by (rewrite length_replicate; lia). rewrite length_replicate, lookup_drop.
    rewrite (proj2 (Z.ltb_ge _ _)) by lia. rewrite andb_true_r.
    replace (Z.to_nat (base + n) + _)%nat with (Z.to_nat (g / 8)) by lia. done.
Qed.

Lemma answer_zero bf bits0 bits idx key : bf_wf bf bits0 → 0 ≤ idx < numFilters_ bf →
  (∀ g, 8 * (idx * filterByteSize_ bf) ≤ g < 8 * ((idx + 1) * filterByteSize_ bf) → getbit bits g = false) →
  answer bf bits idx key = false.
Proof.
  intros Hwf Hidx Hz. unfold answer. pose proof (wf_seeds _ _ Hwf).
  destruct (seeds_ bf) as [|s ss] eqn:E; [cbn in *; lia|]. cbn [positions forallb].
  rewrite Hz; [done|]. eapply (positions_filter bf bits0 idx key); [done|]. rewrite E. by left.
Qed.

Lemma clear_reset_aux bf bits idx : bf_wf bf bits → 0 ≤ idx < numFilters_ bf →
  (∃ bits', let bf' := with_bits bits' bf in clear idx bf = Ok bf' ∧ bf_wf bf' bits' ∧
     (∀ k, couldExist combineHashes idx k bf' = Ok false) ∧
     (∀ i k, 0 ≤ i < numFilters_ bf → i ≠ idx →
        couldExist combineHashes i k bf' = couldExist combineHashes i k bf)) ∧
  (∃ bits', let bf' := with_bits bits' bf in reset bf = Ok bf' ∧ bf_wf bf' bits' ∧
     ∀ i k, 0 ≤ i < numFilters_ bf → couldExist combineHashes i k bf' = Ok false).
Proof.
  intros Hwf Hidx. pose proof (wf_bytes _ _ Hwf) as Hby.
  assert (∀ bits', length bits' = length bits → ∀ i k, 0 ≤ i < numFilters_ bf →
    couldExist combineHashes i k (with_bits bits' bf) = Ok (answer bf bits' i k)) as Hce.
  { intros bits' Hlen i k Hi. by rewrite (couldExist_aux _ bits') by (done || by eapply with_bits_wf). }
  split.
  - unfold clear. rewrite (wf_bits _ _ Hwf), (proj2 (Z.ltb_lt _ _)) by apply Hidx. res_simpl.
    assert (getFilterBytes bf idx = Ok (idx * filterByteSize_ bf)) as ->
      by (rewrite <- (with_bits_id bf bits Hwf) at 1; by apply (filter_bytes bf bits)). res_simpl.
    pose proof (base_range bf bits Hwf idx Hidx) as (Hb0 & Hb1).
    destruct (memset0_spec (idx * filterByteSize_ bf) (filterByteSize_ bf) bits) as (bits' & -> & Hlen & Hg); [lia..|].
    exists bits'. split; [done|]. split; [by eapply with_bits_wf|]. split.
    + intros k. rewrite Hce by done. f_equal. apply (answer_zero _ bits); [done..|]. intros g Hgr. rewrite Hg by lia.
      rewrite (proj2 (Z.leb_le _ _)), (proj2 (Z.ltb_lt _ _)) by lia. by rewrite andb_false_r.
    + intros i k Hi Hne. rewrite Hce, (couldExist_aux _ bits) by done. f_equal.
      apply answer_ext; [done|lia|]. intros g Hgr. rewrite Hg by nia.
      destruct ((_ <=? g) && _) eqn:E; [|by rewrite andb_true_r]. exfalso.
      apply andb_prop in E as [E1%Z.leb_le E2%Z.ltb_lt]. eapply Hne, (filters_disjoint bf bits i idx g); [done|lia..].
  - unfold reset. rewrite (wf_bits _ _ Hwf). pose proof (wf_small _ _ Hwf). pose proof (wf_filters _ _ Hwf).
    assert (getByteSize bf = Z.of_nat (length bits)) as ->.
    { unfold getByteSize. rewrite (wf_len _ _ Hwf). apply wrap_small. unfold fits. nia. }
    destruct (memset0_spec 0 (Z.of_nat (length bits)) bits) as (bits' & -> & Hlen & Hg); [lia..|]. res_simpl.
    exists bits'. split; [done|]. split; [by eapply with_bits_wf|].
    intros i k Hi. rewrite Hce by done. f_equal. apply (answer_zero _ bits); [done..|]. intros g Hgr. rewrite Hg by nia.
    assert ((i + 1) * filterByteSize_ bf ≤ numFilters_ bf * filterByteSize_ bf)
      by (apply Z.mul_le_mono_nonneg_r; lia). pose proof (wf_len _ _ Hwf).
    rewrite (proj2 (Z.leb_le _ _)), (proj2 (Z.ltb_lt _ _)) by nia. by rewrite andb_false_r.
Qed.

(** [clear] empties exactly one filter: afterwards no key could exist in
    it, and every other filter answers as before; [reset] empties all of
    them.  Neither fails. *)
Theorem clear_reset_spec bf bits idx : bf_wf bf bits → 0 ≤ idx < numFilters_ bf →
  (∃ bf' bits', clear idx bf = Ok bf' ∧ bf_wf bf' bits' ∧
     (∀ k, couldExist combineHashes idx k bf' = Ok false) ∧
     (∀ i k, 0 ≤ i < numFilters_ bf → i ≠ idx →
        couldExist combineHashes i k bf' = couldExist combineHashes i k bf)) ∧
  (∃ bf' bits', reset bf = Ok bf' ∧ bf_wf bf' bits' ∧
     ∀ i k, 0 ≤ i < numFilters_ bf → couldExist combineHashes i k bf' = Ok false).
Proof.
  intros Hwf Hidx. destruct (clear_reset_aux bf bits idx Hwf Hidx) as [(bits1 & H1) (bits2 & H2)].
  split; [by exists (with_bits bits1 bf), bits1|by exists (with_bits bits2 bf), bits2].
Qed.
End theorems.

(** ** Construction and persistence *)
Section persistence.
Context (combineHashes : Z → Z → Z) (hashInt : Z → Z).
Implicit Types (bf : BloomFilter) (bits : list Z).

Lemma getbit_zero n g : getbit (replicate n 0) g = false.
Proof.
  unfold getbit. destruct (_ !! _) as [b|] eqn:E; [|done].
  apply lookup_replicate in E as [-> _]. apply Z.bits_0.
Qed.

(** The constructor throws on a zero parameter; otherwise, unless the
    array size overflows, it yields well-formed filters in which no key could
    exist. *)
Theorem BloomFilter_new_spec numFilters numHashes table :
  fits 32 numFilters → fits 32 numHashes → 0 ≤ table →
  numHashes * table + 7 < 2 ^ 64 → numFilters * ((numHashes * table + 7) / 8) < 2 ^ 61 →
  if decide (numFilters = 0 ∨ numHashes = 0 ∨ table = 0)
  then BloomFilter_new hashInt numFilters numHashes table = Throw InvalidArgument
  else ∃ bf bits, BloomFilter_new hashInt numFilters numHashes table = Ok bf ∧ bf_wf bf bits ∧
    numFilters_ bf = numFilters ∧
    ∀ i k, 0 ≤ i < numFilters → couldExist combineHashes i k bf = Ok false.
Proof.
  intros Hf Hh Ht Ho1 Ho2. unfold BloomFilter_new. case_decide as Hd.
  { destruct (Z.eqb_spec numFilters 0), (Z.eqb_spec numHashes 0), (Z.eqb_spec table 0); try done; lia. }
  unfold fits in *. rewrite !(proj2 (Z.eqb_neq _ 0)) by lia. res_simpl.
  rewrite (wrap_small 64 (numHashes * table)) by (unfold fits; nia). rewrite bitsToBytes_eq by nia.
  set (F := (numHashes * table + 7) / 8) in *.
  assert (numHashes * table ≤ 8 * F < numHashes * table + 8) as HF.
  { unfold F. clear. Z.to_euclidean_division_equations. lia. }
  assert (0 < F) by nia. rewrite wrap_small by (unfold fits; nia).
  set (bf := mkBloomFilter _ _ _ _ _). exists bf, (replicate (Z.to_nat (numFilters * F)) 0).
  assert (bf_wf bf (replicate (Z.to_nat (numFilters * F)) 0)) as Hwf.
  { split; cbn; rewrite ?length_replicate, ?length_fmap, ?length_seq; try done; try lia; try nia. }
  split; [done|]. split; [done|]. split; [done|]. intros i k Hi.
  rewrite (couldExist_aux combineHashes bf _ i k Hwf) by done. f_equal. eapply answer_zero; [done..|].
  intros g _. apply getbit_zero.
Qed.

(** *** Fragments *)
Lemma fragments_roundtrip fuel data dst off fs : 0 < fs → 0 ≤ off → off ≤ Z.of_nat (length data) →
  Z.of_nat (length data) - off ≤ Z.of_nat fuel → length dst = length data →
  take (Z.to_nat off) dst = take (Z.to_nat off) data →
  ∃ w, write_fragments fuel data off (Z.of_nat (length data)) fs = Ok w ∧
    ∀ fuel' rest, (length w ≤ fuel')%nat →
      read_fragments fuel' off (Z.of_nat (length data)) dst (w ++ rest) = Ok (data, rest).
Proof.
  intros Hfs. revert off dst. induction fuel as [|fuel IH]; intros off dst Hoff Hle Hfuel Hlen Heq.
  - exists []. cbn [write_fragments]. rewrite (proj2 (Z.ltb_ge _ _)) by lia. split; [done|].
    intros fuel' rest _. destruct fuel'; cbn [read_fragments]; rewrite (proj2 (Z.ltb_ge _ _)) by lia;
      rewrite !take_ge in Heq by lia; by subst.
  - cbn [write_fragments]. destruct (Z.ltb_spec off (Z.of_nat (length data))) as [Hlt|Hge].
    2:{ exists []. split; [done|]. intros fuel' rest _.
        destruct fuel'; cbn [read_fragments]; rewrite (proj2 (Z.ltb_ge _ _)) by lia;
          rewrite !take_ge in Heq by lia; by subst. }
    set (n := Z.min (Z.of_nat (length data) - off) fs). set (chunk := take (Z.to_nat n) (drop (Z.to_nat off) data)).
    assert (Z.of_nat (length chunk) = n) as Hcl by (unfold chunk; rewrite length_take, length_drop; lia).
    set (dst' := take (Z.to_nat off) dst ++ chunk ++ drop (Z.to_nat off + length chunk) dst).
    destruct (IH (off + n) dst') as (w & Hw & Hr); try lia.
    { unfold dst'. rewrite !length_app, length_take, length_drop. lia. }
    { unfold dst'. rewrite Heq, app_assoc, take_app_le by (rewrite length_app, length_take; lia).
      rewrite take_ge by (rewrite length_app, length_take; lia). unfold chunk.
      replace (Z.to_nat (off + n)) with (Z.to_nat off + Z.to_nat n)%nat by lia. by rewrite take_take_drop. }
    rewrite Hw. res_simpl. eexists. split; [done|]. intros fuel' rest Hf. destruct fuel' as [|fuel']; [cbn in Hf; lia|].
    cbn [read_fragments app]. rewrite (proj2 (Z.ltb_lt _ _)) by done. fold chunk.
    rewrite decide_True by lia. fold dst'. rewrite Hcl. apply Hr. cbn in Hf. lia.
Qed.

Lemma zeroes_skip fuel off size fs : 0 < fs → 0 ≤ off → size - off ≤ Z.of_nat fuel →
  ∃ w, write_zeroes fuel off size fs = Ok w ∧
    ∀ fuel' rest, (length w ≤ fuel')%nat → skip_fragments fuel' off size (w ++ rest) = Ok rest.
Proof.
  intros Hfs. revert off. induction fuel as [|fuel IH]; intros off Hoff Hfuel; cbn [write_zeroes].
  - rewrite (proj2 (Z.ltb_ge _ _)) by lia. exists []. split; [done|]. intros [|fuel'] rest _;
      cbn [skip_fragments]; by rewrite (proj2 (Z.ltb_ge _ _)) by lia.
  - destruct (Z.ltb_spec off size) as [Hlt|Hge].
    2:{ exists []. split; [done|]. intros [|fuel'] rest _; cbn [skip_fragments];
          by rewrite (proj2 (Z.ltb_ge _ _)) by lia. }
    destruct (IH (off + Z.min (size - off) fs)) as (w & -> & Hr); [lia..|]. res_simpl.
    eexists. split; [done|]. intros [|fuel'] rest Hf; cbn in Hf; [lia|].
    cbn [skip_fragments app]. rewrite (proj2 (Z.ltb_lt _ _)), length_replicate by done.
    replace (Z.of_nat (Z.to_nat (Z.min (size - off) fs))) with (Z.min (size - off) fs) by lia.
    apply Hr. lia.
Qed.

Lemma persist_recover_aux bf bits bf0 bits0 : bf_wf bf bits → bf_wf bf0 bits0 → fits 64 (filterByteSize_ bf) →
  Forall (fits 64) (seeds_ bf) → length (seeds_ bf0) = length (seeds_ bf) →
  numFilters_ bf0 = numFilters_ bf → hashTableBitSize_ bf0 = hashTableBitSize_ bf →
  filterByteSize_ bf0 = filterByteSize_ bf →
  ∃ rr, persist bf = Ok rr ∧ ∀ rest, recover bf0 (rr ++ rest) = Ok (bf, rest).
Proof.
  intros Hwf Hwf0 HF Hseeds Hsl Hn Hh Hfb. pose proof (wf_filters _ _ Hwf). pose proof (wf_table _ _ Hwf).
  assert (∀ b bs, bf_wf b bs → getByteSize b = Z.of_nat (length bs)) as Hsize.
  { intros b bs Hb. unfold getByteSize. rewrite (wf_len _ _ Hb). apply wrap_small.
    pose proof (wf_small _ _ Hb). pose proof (wf_filters _ _ Hb). pose proof (wf_bytes _ _ Hb). unfold fits. nia. }
  assert (length bits0 = length bits) as Hlen.
  { pose proof (wf_len _ _ Hwf). pose proof (wf_len _ _ Hwf0). rewrite Hn, Hfb in *. lia. }
  destruct (fragments_roundtrip (Z.to_nat (Z.of_nat (length bits))) bits bits0 0 kPersistFragmentSize)
    as (w & Hw & Hr); [done|lia..|done|done|].
  destruct (zeroes_skip (Z.to_nat (bitsToBytes (numFilters_ bf))) 0 (bitsToBytes (numFilters_ bf))
    kPersistFragmentSize) as (w' & Hw' & Hr'); [done|lia..|].
  unfold persist, serializeBits. rewrite (wf_bits _ _ Hwf), (Hsize bf bits Hwf). res_simpl.
  rewrite decide_True, Hw by lia. res_simpl. rewrite Hw'. res_simpl. eexists. split; [done|]. intros rest.
  unfold recover. cbn [app bd_numFilters bd_hashTableBitSize bd_filterByteSize bd_fragmentSize bd_seeds].
  rewrite (wrap_swrap 32 (numFilters_ bf)), (wrap_swrap 64 (hashTableBitSize_ bf)),
    (wrap_swrap 64 (filterByteSize_ bf)) by (done || unfold fits; lia).
  rewrite Hn, Hh, Hfb, !Z.eqb_refl. cbn [negb orb throw_if mbind result_bind].
  unfold recover_seeds. rewrite length_fmap, decide_True by lia. res_simpl.
  rewrite <- list_fmap_compose, drop_ge, app_nil_r by lia.
  assert ((u64 ∘ s64) <$> seeds_ bf = seeds_ bf) as ->.
  { rewrite <- (list_fmap_id (seeds_ bf)) at 2. apply list_fmap_ext. intros i x Hx. cbn.
    apply wrap_swrap; [lia|]. by eapply Forall_lookup_1. }
  unfold deserializeBits. cbn [bits_ with_seeds]. rewrite (wf_bits _ _ Hwf0). res_simpl.
  change (getByteSize (with_seeds (seeds_ bf) bf0)) with (getByteSize bf0).
  rewrite (Hsize bf0 bits0 Hwf0), Hlen, <- app_assoc, Hr by (rewrite length_app; lia). res_simpl.
  cbn [numFilters_ with_seeds]. rewrite Hn, Hr' by (rewrite length_app; lia). res_simpl.
  transitivity (Ok (with_bits bits bf, rest)); [|by rewrite (with_bits_id bf bits Hwf)].
  unfold with_bits, with_seeds. cbn. by rewrite Hn, Hh, Hfb.
Qed.

(** Persistence round trip.  A filter array written with [persist] and
    read back with [recover] into an array of the same dimensions is restored
    exactly, seeds and bits, and exactly its records are consumed. *)
Theorem persist_recover bf bits bf0 bits0 : bf_wf bf bits → bf_wf bf0 bits0 → fits 64 (filterByteSize_ bf) →
  Forall (fits 64) (seeds_ bf) → length (seeds_ bf0) = length (seeds_ bf) →
  numFilters_ bf0 = numFilters_ bf → hashTableBitSize_ bf0 = hashTableBitSize_ bf →
  filterByteSize_ bf0 = filterByteSize_ bf →
  ∃ rr, persist bf = Ok rr ∧ ∀ rest, recover bf0 (rr ++ rest) = Ok (bf, rest).
Proof. apply persist_recover_aux. Qed.
End persistence.

(** ** Concrete filters

    Two filters of two hash functions over 16 bits each, with toy hash
    functions. *)
Definition bf_hash (a b : Z) : Z := a * 7 + b * 3.
Definition bf_example : BloomFilter := mkBloomFilter 2 16 4 [1; 2] (Some (replicate 8 0)).
Lemma bf_example_wf : bf_wf bf_example (replicate 8 0).
Proof. by split. Qed.

Lemma set_no_false_negative_witness : ∃ bf' bits', set bf_hash 1 42 bf_example = Ok bf' ∧ bf_wf bf' bits' ∧
  couldExist bf_hash 1 42 bf' = Ok true.
Proof.
  destruct (set_no_false_negative bf_hash bf_example (replicate 8 0) 1 42 bf_example_wf ltac:(done))
    as (bf' & bits' & ? & ? & ? & _). by exists bf', bits'.
Defined.

Lemma clear_reset_spec_witness : ∃ bf' bits', clear 1 bf_example = Ok bf' ∧ bf_wf bf' bits' ∧
  couldExist bf_hash 1 42 bf' = Ok false.
Proof.
  destruct (clear_reset_spec bf_hash bf_example (replicate 8 0) 1 bf_example_wf ltac:(done))
    as [(bf' & bits' & ? & ? & Hk & _) _]. exists bf', bits'. by split_and!.
Defined.

Lemma BloomFilter_new_spec_witness : ∃ bf bits, BloomFilter_new (λ i, i + 1) 2 2 16 = Ok bf ∧ bf_wf bf bits.
Proof.
  destruct (BloomFilter_new_spec bf_hash (λ i, i + 1) 2 2 16 ltac:(done) ltac:(done) ltac:(done) ltac:(done) ltac:(done))
    as (bf & bits & ? & ? & _). by exists bf, bits.
Defined.

Lemma persist_recover_witness : ∃ rr, persist bf_example = Ok rr ∧
  ∀ rest, recover bf_example (rr ++ rest) = Ok (bf_example, rest).
Proof.
  apply (persist_recover bf_example (replicate 8 0) bf_example (replicate 8 0) bf_example_wf bf_example_wf);
    try done. by repeat constructor.
Defined.

(** The dimensions [recover] compares do not fix the number of hash
    functions: with one-bit tables, eight of them fit the byte that one
    takes, the configuration is accepted and the copy of the seeds runs past
    the end of [seeds_]. *)
Lemma recover_trusts_seed_count :
  let bf8 := mkBloomFilter 1 1 1 [0; 1; 2; 3; 4; 5; 6; 7] (Some [0]) in
  let bf1 := mkBloomFilter 1 1 1 [0] (Some [0]) in
  bf_wf bf8 [0] ∧ bf_wf bf1 [0] ∧ (rr ← persist bf8; recover bf1 rr) = Undef.
Proof. cbn zeta. split; [by split|]. split; [by split|]. by vm_compute. Qed.
