(* ===== verification/BucketStorage.v ===== *)
(** The FIFO allocator inside a BigHash bucket
    ([navy/bighash/BucketStorage.h], [BucketStorage.cpp]), on the bytes of the
    bucket.

    A slot is a 32-bit little-endian size followed by that many bytes; slots
    are packed from offset 0 to [endOffset_].  An access outside the buffer is
    undefined behaviour.  [storage_rep] relates the buffer to the sequence of
    slot contents, on which [allocate] appends, [remove] deletes and
    [removeUntil] drops a prefix. *)
From S2P Require Import Prelude.

(** ** Buffers *)

(** The [n]-byte little-endian representation of a word, and back. *)
Fixpoint le_bytes (n : nat) (v : Z) : list Z :=
  match n with O => [] | S n => v mod 256 :: le_bytes n (v / 256) end.
Fixpoint le_val (bs : list Z) : Z :=
  match bs with [] => 0 | b :: bs => b + 256 * le_val bs end.

(** [n] bytes at offset [off]. *)
Definition slice (off n : Z) (data : list Z) : result (list Z) :=
  if decide (0 ≤ off ∧ 0 ≤ n ∧ off + n ≤ Z.of_nat (length data))
  then Ok (take (Z.to_nat n) (drop (Z.to_nat off) data)) else Undef.
Definition splice (off : Z) (bs data : list Z) : result (list Z) :=
  if decide (0 ≤ off ∧ off + Z.of_nat (length bs) ≤ Z.of_nat (length data))
  then Ok (take (Z.to_nat off) data ++ bs ++ drop (Z.to_nat off + length bs) data) else Undef.
Definition memmove (dst src len : Z) (data : list Z) : result (list Z) :=
  bs ← slice src len data; splice dst bs data.
Definition read_u32 (off : Z) (data : list Z) : result Z := le_val <$> slice off 4 data.
Definition read_u64 (off : Z) (data : list Z) : result Z := le_val <$> slice off 8 data.

(** ** The storage *)
Record BucketStorage := mkBucketStorage {
  capacity_ : Z;
  numAllocations_ : Z;
  endOffset_ : Z;
  data_ : list Z;
}.

(** A view is the offset of its first byte and its size; [None] is the null
    view. *)
Record Allocation := mkAllocation { view_ : option (Z * Z); position_ : Z }.
Definition Allocation_null : Allocation := mkAllocation None 0.
Definition done_ (a : Allocation) : bool := bool_decide (view_ a = None).

(** [sizeof(Slot)]. *)
Definition kAllocationOverhead : Z := 4.
Definition slotSize (size : Z) : Z := u32 (kAllocationOverhead + size).

Definition BucketStorage_new (capacity : Z) (data : list Z) : BucketStorage :=
  mkBucketStorage capacity 0 0 data.
Definition remainingCapacity (s : BucketStorage) : Z := u32 (capacity_ s - endOffset_ s).
Definition canAllocate (size : Z) (s : BucketStorage) : bool :=
  endOffset_ s + slotSize size <=? capacity_ s.

Definition allocate (size : Z) (s : BucketStorage) : result (Allocation * BucketStorage) :=
  if negb (canAllocate size s) then Ok (Allocation_null, s)
  else
    data ← splice (endOffset_ s) (le_bytes 4 size) (data_ s);
    let num := u32 (numAllocations_ s + 1) in
    Ok (mkAllocation (Some (endOffset_ s + kAllocationOverhead, size)) (u32 (num - 1)),
        mkBucketStorage (capacity_ s) num (u32 (endOffset_ s + slotSize size)) data).

(** The loop of [remove] over the allocations, then the copy of the rest. *)
Fixpoint remove_loop (allocs : list Allocation) (srcOffset dstOffset num : Z) (data : list Z)
    : result (Z * Z * Z * list Z) :=
  match allocs with
  | [] => Ok (srcOffset, dstOffset, num, data)
  | alloc :: allocs =>
      '(off, size) ← deref (view_ alloc);
      let allocOffset := u32 off in
      let removedOffset := u32 (allocOffset - kAllocationOverhead) in
      '(dstOffset, data) ←
        (if negb (srcOffset =? removedOffset) then
           let len := u32 (removedOffset - srcOffset) in
           data ← (if negb (dstOffset =? srcOffset) then memmove dstOffset srcOffset len data else Ok data);
           Ok (u32 (dstOffset + len), data)
         else Ok (dstOffset, data));
      remove_loop allocs (u32 (allocOffset + size)) dstOffset (u32 (num - 1)) data
  end.

Definition removeAll (allocs : list Allocation) (s : BucketStorage) : result BucketStorage :=
  match allocs with
  | [] => Ok s
  | _ =>
      '(srcOffset, dstOffset, num, data) ← remove_loop allocs 0 0 (numAllocations_ s) (data_ s);
      '(dstOffset, data) ←
        (if negb (srcOffset =? endOffset_ s) then
           let len := u32 (endOffset_ s - srcOffset) in
           data ← memmove dstOffset srcOffset len data; Ok (u32 (dstOffset + len), data)
         else Ok (dstOffset, data));
      Ok (mkBucketStorage (capacity_ s) num dstOffset data)
  end.
Definition remove1 (alloc : Allocation) (s : BucketStorage) : result BucketStorage := removeAll [alloc] s.

Definition removeUntil (alloc : Allocation) (s : BucketStorage) : result BucketStorage :=
  match view_ alloc with
  | None => Ok s
  | Some (off, size) =>
      let offset := u32 (off + size) in
      if endOffset_ s <? offset then Ok s
      else
        data ← memmove 0 offset (u32 (endOffset_ s - offset)) (data_ s);
        Ok (mkBucketStorage (capacity_ s) (u32 (numAllocations_ s - u32 (position_ alloc + 1)))
              (u32 (endOffset_ s - offset)) data)
  end.

Definition getFirst (s : BucketStorage) : result Allocation :=
  if endOffset_ s =? 0 then Ok Allocation_null
  else size ← read_u32 0 (data_ s); Ok (mkAllocation (Some (kAllocationOverhead, size)) 0).

Definition getNext (alloc : Allocation) (s : BucketStorage) : result Allocation :=
  match view_ alloc with
  | None => Ok Allocation_null
  | Some (off, size) =>
      let next := off + size in
      if endOffset_ s <=? next then Ok Allocation_null
      else size ← read_u32 next (data_ s);
           Ok (mkAllocation (Some (next + kAllocationOverhead, size)) (u32 (position_ alloc + 1)))
  end.

(** The offset of an allocation; a null view has no address in the bucket. *)
Definition getOffset (alloc : Allocation) : result Z := '(off, _) ← deref (view_ alloc); Ok (u32 off).

(** ** Buffers as sequences *)
Definition bytes (bs : list Z) : Prop := Forall (fits 8) bs.

Lemma length_le_bytes n v : length (le_bytes n v) = n.
Proof. revert v. induction n; intros; cbn; auto. Qed.
Lemma bytes_le_bytes n v : bytes (le_bytes n v).
Proof.
  revert v. induction n as [|n IH]; intros v; [constructor|]. cbn.
  constructor; [by apply Z.mod_pos_bound|apply IH].
Qed.
Lemma le_roundtrip n v : 0 ≤ v < 256 ^ Z.of_nat n → le_val (le_bytes n v) = v.
Proof.
  revert v. induction n as [|n IH]; intros v Hv; cbn; [cbn in Hv; lia|].
  rewrite Nat2Z.inj_succ, Z.pow_succ_r in Hv by lia.
  rewrite IH; [pose proof (Z.div_mod v 256); lia|].
  split; [apply Z.div_pos; lia|apply Z.div_lt_upper_bound; lia].
Qed.

Lemma slice_app A X B n : n = Z.of_nat (length X) →
  slice (Z.of_nat (length A)) n (A ++ X ++ B) = Ok X.
Proof.
  intros ->. unfold slice. rewrite decide_True by (rewrite !length_app; lia).
  rewrite !Nat2Z.id, drop_app_length. by rewrite take_app_length.
Qed.
Lemma splice_app A X Y B : length X = length Y →
  splice (Z.of_nat (length A)) Y (A ++ X ++ B) = Ok (A ++ Y ++ B).
Proof.
  intros Hl. unfold splice. rewrite decide_True by (rewrite !length_app; lia). do 2 f_equal.
  - by rewrite Nat2Z.id, take_app_length.
  - f_equal. rewrite Nat2Z.id, <- Hl, <- length_app, app_assoc. apply drop_app_length.
Qed.

(** Moving [X] down over the gap [G]: the gap ends up behind it. *)
Lemma memmove_gap A G X B dst src len : dst = Z.of_nat (length A) → src = Z.of_nat (length A + length G) →
  len = Z.of_nat (length X) →
  ∃ G', memmove dst src len (A ++ G ++ X ++ B) = Ok (A ++ X ++ G' ++ B) ∧ length G' = length G.
Proof.
  intros -> -> ->. exists (drop (length X) (G ++ X)). unfold memmove. split; [|rewrite length_drop, length_app; lia].
  rewrite (app_assoc A G), <- length_app, slice_app by done. res_simpl.
  rewrite <- app_assoc. replace (G ++ X ++ B) with (take (length X) (G ++ X) ++ drop (length X) (G ++ X) ++ B).
  - apply splice_app. rewrite length_take, length_app. lia.
  - by rewrite app_assoc, take_drop, <- app_assoc.
Qed.

(** ** The representation of a sequence of slots *)
Definition slot (p : list Z) : list Z := le_bytes 4 (Z.of_nat (length p)) ++ p.
Definition slots (ps : list (list Z)) : list Z := concat (slot <$> ps).

Record storage_rep (s : BucketStorage) (ps : list (list Z)) : Prop := {
  sr_data : ∃ rest, data_ s = slots ps ++ rest;
  sr_len : Z.of_nat (length (data_ s)) = capacity_ s;
  sr_cap : capacity_ s < 2 ^ 32;
  sr_end : endOffset_ s = Z.of_nat (length (slots ps));
  sr_num : numAllocations_ s = Z.of_nat (length ps);
}.

(** The allocation for the slot at position [i]. *)
Definition alloc_of (off : Z) (pos : nat) (p : list Z) : Allocation :=
  mkAllocation (Some (off + kAllocationOverhead, Z.of_nat (length p))) (Z.of_nat pos).
Definition alloc_at (ps : list (list Z)) (i : nat) : Allocation :=
  match ps !! i with
  | Some p => alloc_of (Z.of_nat (length (slots (take i ps)))) i p
  | None => Allocation_null
  end.

Section slots.
Implicit Types (s : BucketStorage) (ps qs : list (list Z)) (p : list Z).

Lemma length_slot p : length (slot p) = (4 + length p)%nat.
Proof. unfold slot. by rewrite length_app, length_le_bytes. Qed.
Lemma slots_app ps qs : slots (ps ++ qs) = slots ps ++ slots qs.
Proof. unfold slots. by rewrite fmap_app, concat_app. Qed.
Lemma slots_cons p ps : slots (p :: ps) = slot p ++ slots ps.
Proof. done. Qed.
Lemma slots_split ps i p : ps !! i = Some p → slots ps = slots (take i ps) ++ slot p ++ slots (drop (S i) ps).
Proof. intros Hi. rewrite <- (take_drop_middle _ _ _ Hi) at 1. by rewrite slots_app. Qed.
Lemma slots_len_ge ps : (length ps ≤ length (slots ps))%nat.
Proof. induction ps as [|p ps IH]; [done|]. rewrite slots_cons, length_app, length_slot. cbn. lia. Qed.
Lemma slots_take_S ps i p : ps !! i = Some p →
  length (slots (take (S i) ps)) = (length (slots (take i ps)) + 4 + length p)%nat.
Proof. intros Hi. rewrite (take_S_r _ _ _ Hi), slots_app, length_app, slots_cons, !length_app, length_slot. cbn. lia. Qed.

Lemma rep_bounds s ps : storage_rep s ps →
  Z.of_nat (length (slots ps)) ≤ capacity_ s < 2 ^ 32 ∧ Z.of_nat (length ps) ≤ Z.of_nat (length (slots ps)).
Proof.
  intros Hrep. destruct (sr_data _ _ Hrep) as [rest Hd]. pose proof (sr_len _ _ Hrep) as Hl.
  pose proof (sr_cap _ _ Hrep). pose proof (slots_len_ge ps). rewrite Hd, length_app in Hl. lia.
Qed.

(** Reading the size field in front of the slot at position [i]. *)
Lemma read_slot_size s ps i p : storage_rep s ps → ps !! i = Some p →
  read_u32 (Z.of_nat (length (slots (take i ps)))) (data_ s) = Ok (Z.of_nat (length p)).
Proof.
  intros Hrep Hi. pose proof (rep_bounds _ _ Hrep) as Hb. destruct (sr_data _ _ Hrep) as [rest Hd].
  rewrite (slots_split _ _ _ Hi) in Hd, Hb. rewrite !length_app, length_slot in Hb.
  unfold read_u32. rewrite Hd. unfold slot. rewrite <- !app_assoc.
  rewrite slice_app by (rewrite length_le_bytes; lia). res_simpl. rewrite le_roundtrip; [done|]. cbn. lia.
Qed.

Lemma getFirst_spec s ps : storage_rep s ps → getFirst s = Ok (alloc_at ps 0).
Proof.
  intros Hrep. unfold getFirst. rewrite (sr_end _ _ Hrep). unfold alloc_at. destruct ps as [|p ps]; [done|].
  rewrite (proj2 (Z.eqb_neq _ _)) by (rewrite slots_cons, length_app, length_slot; lia).
  pose proof (read_slot_size s (p :: ps) 0 p Hrep eq_refl) as Hr.
  change (read_u32 0 (data_ s) = Ok (Z.of_nat (length p))) in Hr. by rewrite Hr.
Qed.

Lemma getNext_spec s ps i : storage_rep s ps → (i < length ps)%nat →
  getNext (alloc_at ps i) s = Ok (alloc_at ps (S i)).
Proof.
  intros Hrep Hi. destruct (lookup_lt_is_Some_2 _ _ Hi) as [p Hp]. pose proof (rep_bounds _ _ Hrep) as Hb.
  assert (alloc_at ps i = alloc_of (Z.of_nat (length (slots (take i ps)))) i p) as -> by (unfold alloc_at; by rewrite Hp).
  unfold getNext. cbn [view_ alloc_of position_]. unfold kAllocationOverhead.
  pose proof (slots_take_S ps i p Hp) as Ht. rewrite (sr_end _ _ Hrep).
  unfold alloc_at. destruct (ps !! S i) as [q|] eqn:Hq.
  - assert (length (slots ps) = length (slots (take (S i) ps)) + 4 + length q + length (slots (drop (S (S i)) ps)))%nat
      by (rewrite (slots_split _ _ _ Hq) at 1; rewrite !length_app, length_slot; lia).
    rewrite (proj2 (Z.leb_gt _ _)) by lia.
    replace (Z.of_nat (length (slots (take i ps))) + 4 + Z.of_nat (length p)) with
      (Z.of_nat (length (slots (take (S i) ps)))) by lia.
    rewrite (read_slot_size s ps (S i) q Hrep Hq). res_simpl. unfold alloc_of, kAllocationOverhead. cbn [position_].
    pose proof (lookup_lt_Some _ _ _ Hq). rewrite (wrap_small 32 (Z.of_nat i + 1)) by (unfold fits; lia).
    do 2 f_equal. lia.
  - apply lookup_ge_None in Hq. rewrite take_ge in Ht by lia. by rewrite (proj2 (Z.leb_le _ _)) by lia.
Qed.

Lemma allocate_spec s ps size : storage_rep s ps → 0 ≤ size < 2 ^ 32 - 4 →
  if decide (Z.of_nat (length (slots ps)) + 4 + size ≤ capacity_ s)
  then ∃ p s', allocate size s = Ok (alloc_at (ps ++ [p]) (length ps), s') ∧ storage_rep s' (ps ++ [p]) ∧
    Z.of_nat (length p) = size ∧ capacity_ s' = capacity_ s
  else allocate size s = Ok (Allocation_null, s).
Proof.
  intros Hrep Hsz. pose proof (rep_bounds _ _ Hrep) as Hb. unfold allocate, canAllocate, slotSize, kAllocationOverhead.
  rewrite (sr_end _ _ Hrep), (wrap_small 32 (4 + size)) by (unfold fits; lia). case_decide as Hd.
  2:{ by rewrite (proj2 (Z.leb_gt _ _)) by lia. }
  rewrite (proj2 (Z.leb_le _ _)) by lia. cbn [negb].
  destruct (sr_data _ _ Hrep) as [rest Hdata]. pose proof (sr_len _ _ Hrep) as Hlen.
  rewrite Hdata, length_app in Hlen.
  set (p := take (Z.to_nat size) (drop 4 rest)). set (rest' := drop (4 + Z.to_nat size) rest).
  assert (rest = take 4 rest ++ p ++ rest') as Hrest.
  { unfold p, rest'. rewrite <- drop_drop, take_drop, take_drop. done. }
  assert (Z.of_nat (length p) = size) as Hp by (unfold p; rewrite length_take, length_drop; lia).
  rewrite Hdata, Hrest, splice_app by (rewrite length_le_bytes, length_take; lia). res_simpl.
  rewrite (sr_num _ _ Hrep), !wrap_small by (unfold fits; rewrite ?wrap_small; unfold fits; lia).
  exists p, (mkBucketStorage (capacity_ s) (Z.of_nat (length ps) + 1) (Z.of_nat (length (slots ps)) + (4 + size))
    (slots ps ++ le_bytes 4 size ++ p ++ rest')). split; [|split; [|split; done]].
  - assert (alloc_at (ps ++ [p]) (length ps) = alloc_of (Z.of_nat (length (slots ps))) (length ps) p) as ->.
    { unfold alloc_at. by rewrite lookup_app_r, Nat.sub_diag, take_app_length by lia. }
    unfold alloc_of, kAllocationOverhead. rewrite Hp.
    replace (Z.of_nat (length ps) + 1 - 1) with (Z.of_nat (length ps)) by lia. done.
  - assert (slots (ps ++ [p]) = slots ps ++ le_bytes 4 size ++ p) as Hs.
    { rewrite slots_app. unfold slots at 2, slot. cbn. by rewrite app_nil_r, Hp. }
    split; cbn [data_ capacity_ endOffset_ numAllocations_].
    + exists rest'. by rewrite Hs, <- !app_assoc.
    + rewrite !length_app, length_le_bytes. apply (f_equal length) in Hrest.
      rewrite !length_app, length_take in Hrest. lia.
    + lia.
    + rewrite Hs, !length_app, length_le_bytes. lia.
    + rewrite length_app. cbn. lia.
Qed.

(** Overwriting the content of a slot. *)
Lemma write_slot s ps i p q : storage_rep s ps → ps !! i = Some p → length q = length p →
  ∃ s', splice (Z.of_nat (length (slots (take i ps))) + kAllocationOverhead) q (data_ s) = Ok (data_ s') ∧
    s' = mkBucketStorage (capacity_ s) (numAllocations_ s) (endOffset_ s) (data_ s') ∧
    storage_rep s' (<[i := q]> ps).
Proof.
  intros Hrep Hi Hl. destruct (sr_data _ _ Hrep) as [rest Hd]. pose proof (lookup_lt_Some _ _ _ Hi) as Hlt.
  set (A := slots (take i ps) ++ le_bytes 4 (Z.of_nat (length p))).
  set (B := slots (drop (S i) ps) ++ rest).
  assert (data_ s = A ++ p ++ B) as Hd'.
  { rewrite Hd, (slots_split _ _ _ Hi). unfold A, B, slot. by rewrite <- !app_assoc. }
  assert (slots (<[i := q]> ps) ++ rest = A ++ q ++ B) as Hs.
  { rewrite (slots_split _ i q) by by apply list_lookup_insert_eq.
    rewrite take_insert_ge, drop_insert_lt by lia. unfold A, B, slot. by rewrite Hl, <- !app_assoc. }
  exists (mkBucketStorage (capacity_ s) (numAllocations_ s) (endOffset_ s) (A ++ q ++ B)).
  split; [|split; [done|split; cbn]].
  - rewrite Hd'. replace (_ + _) with (Z.of_nat (length A)) by
      (unfold A, kAllocationOverhead; rewrite length_app, length_le_bytes; lia).
    by apply splice_app.
  - exists rest. by rewrite Hs.
  - rewrite <- (sr_len _ _ Hrep), Hd', !length_app, Hl. done.
  - apply Hrep.
  - rewrite (sr_end _ _ Hrep). apply (f_equal length) in Hs. rewrite Hd' in Hd.
    apply (f_equal length) in Hd. rewrite !length_app in *. lia.
  - rewrite length_insert. apply Hrep.
Qed.
End slots.

(** ** Removal *)
Section removal.
Implicit Types (s : BucketStorage) (ps qs ks : list (list Z)) (p : list Z) (A G R : list Z).

Lemma removeUntil_aux s ps i : storage_rep s ps → (i < length ps)%nat →
  ∃ s', removeUntil (alloc_at ps i) s = Ok s' ∧ storage_rep s' (drop (S i) ps) ∧ capacity_ s' = capacity_ s.
Proof.
  intros Hrep Hi. destruct (lookup_lt_is_Some_2 _ _ Hi) as [p Hp]. pose proof (rep_bounds _ _ Hrep) as Hb.
  assert (alloc_at ps i = alloc_of (Z.of_nat (length (slots (take i ps)))) i p) as ->
    by (unfold alloc_at; by rewrite Hp).
  unfold removeUntil. cbn [view_ alloc_of position_]. unfold kAllocationOverhead.
  pose proof (slots_take_S ps i p Hp) as Ht.
  replace (Z.of_nat (length (slots (take i ps))) + 4 + Z.of_nat (length p)) with
    (Z.of_nat (length (slots (take (S i) ps)))) by lia.
  assert (slots ps = slots (take (S i) ps) ++ slots (drop (S i) ps)) as Hs by by rewrite <- slots_app, take_drop.
  assert (length (slots ps) = length (slots (take (S i) ps)) + length (slots (drop (S i) ps)))%nat as Hl
    by (rewrite Hs at 1; by rewrite length_app).
  rewrite (sr_end _ _ Hrep), (sr_num _ _ Hrep), !(wrap_small 32) by (unfold fits; rewrite ?(wrap_small 32); unfold fits; lia).
  rewrite (proj2 (Z.ltb_ge _ _)) by lia. destruct (sr_data _ _ Hrep) as [rest Hd].
  destruct (memmove_gap [] (slots (take (S i) ps)) (slots (drop (S i) ps)) rest 0
    (Z.of_nat (length (slots (take (S i) ps))))
    (Z.of_nat (length (slots ps)) - Z.of_nat (length (slots (take (S i) ps))))) as (G' & Hm & HG); [done|done|lia|].
  assert (data_ s = slots (take (S i) ps) ++ slots (drop (S i) ps) ++ rest) as Hd'
    by by rewrite app_assoc, <- slots_app, take_drop.
  cbn [app] in Hm. rewrite Hd', Hm. res_simpl. eexists. split; [done|]. split; [split; cbn|done].
  - by exists (G' ++ rest).
  - rewrite <- (sr_len _ _ Hrep), Hd', !length_app. lia.
  - apply Hrep.
  - lia.
  - rewrite length_drop. lia.
Qed.

(** A removal plan: slots [ks] to keep, then one to remove, repeatedly. *)
Definition plan : Type := list (list (list Z) * list Z).
Definition plan_all (segs : plan) : list (list Z) := concat ((λ kp, kp.1 ++ [kp.2]) <$> segs).
Definition plan_kept (segs : plan) : list (list Z) := concat (fst <$> segs).
Fixpoint plan_allocs (off : Z) (pos : nat) (segs : plan) : list Allocation :=
  match segs with
  | [] => []
  | (ks, p) :: segs =>
      let off := off + Z.of_nat (length (slots ks)) in
      alloc_of off (pos + length ks) p ::
        plan_allocs (off + Z.of_nat (length (slot p))) (pos + length ks + 1) segs
  end.

(** Moving a kept run down to [dst], when there is something to move. *)
Lemma keep_run A G X B dst src : length G = (Z.to_nat src - length A)%nat →
  dst = Z.of_nat (length A) → src = Z.of_nat (length A + length G) → src + Z.of_nat (length X) < 2 ^ 32 →
  ∃ G', (if negb (src =? src + Z.of_nat (length X)) then
           data ← (if negb (dst =? src) then memmove dst src (Z.of_nat (length X)) (A ++ G ++ X ++ B)
                   else Ok (A ++ G ++ X ++ B));
           Ok (u32 (dst + Z.of_nat (length X)), data)
         else Ok (dst, A ++ G ++ X ++ B)) = Ok (dst + Z.of_nat (length X), A ++ X ++ G' ++ B) ∧
    length G' = length G.
Proof.
  intros _ Hdst Hsrc Hlt. destruct (Z.eqb_spec src (src + Z.of_nat (length X))) as [E|E]; cbn [negb].
  - assert (X = []) as -> by (destruct X; [done|cbn in E; lia]). exists G. split; [|done]. cbn. do 2 f_equal. lia.
  - rewrite wrap_small by (unfold fits; lia). destruct (Z.eqb_spec dst src) as [E'|E']; cbn [negb].
    + assert (G = []) as -> by (destruct G; [done|cbn in *; lia]). exists []. split; [done|done].
    + destruct (memmove_gap A G X B dst src (Z.of_nat (length X))) as (G' & -> & HG); [done..|].
      exists G'. by split.
Qed.

Lemma remove_loop_spec segs A G R pos num : Z.of_nat (length segs) ≤ num < 2 ^ 32 →
  Z.of_nat (length (A ++ G ++ slots (plan_all segs))) < 2 ^ 32 →
  ∃ G', remove_loop (plan_allocs (Z.of_nat (length A + length G)) pos segs)
      (Z.of_nat (length A + length G)) (Z.of_nat (length A)) num (A ++ G ++ slots (plan_all segs) ++ R) =
    Ok (Z.of_nat (length A + length G + length (slots (plan_all segs))),
        Z.of_nat (length A + length (slots (plan_kept segs))), num - Z.of_nat (length segs),
        A ++ slots (plan_kept segs) ++ G' ++ R) ∧
    (length G' + length (slots (plan_kept segs)) = length G + length (slots (plan_all segs)))%nat.
Proof.
  revert A G pos num. induction segs as [|[ks p] segs IH]; intros A G pos num Hnum Hlen.
  { exists G. cbn. rewrite !Nat.add_0_r, Z.sub_0_r. done. }
  assert (slots (plan_all ((ks, p) :: segs)) = slots ks ++ slot p ++ slots (plan_all segs)) as Hall.
  { change (plan_all ((ks, p) :: segs)) with ((ks ++ [p]) ++ plan_all segs).
    rewrite !slots_app, slots_cons. change (slots []) with (@nil Z). by rewrite app_nil_r, <- app_assoc. }
  rewrite Hall in *. rewrite !length_app in Hlen. pose proof (length_slot p) as Hsl.
  cbn [plan_allocs remove_loop alloc_of view_ deref mbind result_bind length] in *. unfold kAllocationOverhead.
  set (src := Z.of_nat (length A + length G)) in *.
  rewrite (wrap_small 32 (src + _ + 4)) by (unfold fits, src; lia).
  replace (u32 (src + Z.of_nat (length (slots ks)) + 4 - 4)) with (src + Z.of_nat (length (slots ks)))
    by (rewrite wrap_small by (unfold fits, src; lia); lia).
  replace (u32 (src + Z.of_nat (length (slots ks)) - src)) with (Z.of_nat (length (slots ks)))
    by (rewrite wrap_small by (unfold fits; lia); lia).
  destruct (keep_run A G (slots ks) (slot p ++ slots (plan_all segs) ++ R) (Z.of_nat (length A)) src)
    as (G1 & Hk & HG1); [unfold src; lia|done|done|unfold src; lia|].
  rewrite <- !app_assoc, Hk. cbn [mbind result_bind].
  rewrite (wrap_small 32 (src + Z.of_nat (length (slots ks)) + 4 + Z.of_nat (length p))),
    (wrap_small 32 (num - 1)) by (unfold fits, src; lia).
  destruct (IH (A ++ slots ks) (G1 ++ slot p) (pos + length ks + 1)%nat (num - 1)) as (G' & Heq & HG'); [lia| |].
  { rewrite !length_app. lia. }
  exists G'. rewrite <- !app_assoc, !length_app in Heq.
  replace (src + Z.of_nat (length (slots ks)) + Z.of_nat (length (slot p))) with
    (Z.of_nat (length A + length (slots ks) + (length G1 + length (slot p)))) by (unfold src; lia).
  replace (src + Z.of_nat (length (slots ks)) + 4 + Z.of_nat (length p)) with
    (Z.of_nat (length A + length (slots ks) + (length G1 + length (slot p)))) by (unfold src; lia).
  replace (Z.of_nat (length A) + Z.of_nat (length (slots ks))) with (Z.of_nat (length A + length (slots ks))) by lia.
  rewrite Heq. rewrite !length_app in HG'.
  assert (slots (plan_kept ((ks, p) :: segs)) = slots ks ++ slots (plan_kept segs)) as -> by apply slots_app.
  rewrite <- !app_assoc, !length_app. split; [|lia].
  f_equal. repeat match goal with |- (_, _) = (_, _) => f_equal end; done || lia.
Qed.

Lemma removeAll_plan s ps segs tl : storage_rep s ps → ps = plan_all segs ++ tl →
  ∃ s', removeAll (plan_allocs 0 0 segs) s = Ok s' ∧ storage_rep s' (plan_kept segs ++ tl) ∧
    capacity_ s' = capacity_ s.
Proof.
  intros Hrep Hps. pose proof (rep_bounds _ _ Hrep) as Hb. destruct (sr_data _ _ Hrep) as [rest Hd].
  rewrite Hps, slots_app in Hd, Hb. rewrite !length_app in Hb.
  assert (length (plan_all segs) = length (plan_kept segs) + length segs)%nat as Hcount.
  { clear. induction segs as [|[ks p] segs IH]; [done|]. unfold plan_all, plan_kept in *. cbn.
    rewrite !length_app, IH. cbn. lia. }
  destruct segs as [|seg segs]; [exists s; cbn in *; by subst|].
  set (sg := seg :: segs) in *. unfold removeAll.
  assert (∃ a l, plan_allocs 0 0 sg = a :: l) as (a & l & Hal) by (destruct seg; cbn; eauto). rewrite Hal, <- Hal.
  destruct (remove_loop_spec sg [] [] (slots tl ++ rest) 0 (numAllocations_ s)) as (G' & Heq & HG').
  { rewrite (sr_num _ _ Hrep), Hps, length_app. lia. }
  { cbn [app]. lia. }
  cbn [app length Nat.add] in Heq. change (Z.of_nat 0) with 0 in Heq. rewrite Hd, <- app_assoc, Heq. res_simpl.
  rewrite (sr_end _ _ Hrep), Hps, slots_app, length_app. cbn [length Nat.add] in HG'.
  set (src := Z.of_nat (length (slots (plan_all sg)))).
  replace (u32 (Z.of_nat (length (slots (plan_all sg)) + length (slots tl)) - src)) with (Z.of_nat (length (slots tl)))
    by (rewrite wrap_small by (unfold fits, src; lia); unfold src; lia).
  assert (∃ G2, (if negb (src =? Z.of_nat (length (slots (plan_all sg)) + length (slots tl))) then
      data ← memmove (Z.of_nat (length (slots (plan_kept sg)))) src (Z.of_nat (length (slots tl)))
        (slots (plan_kept sg) ++ G' ++ slots tl ++ rest);
      Ok (u32 (Z.of_nat (length (slots (plan_kept sg))) + Z.of_nat (length (slots tl))), data)
      else Ok (Z.of_nat (length (slots (plan_kept sg))), slots (plan_kept sg) ++ G' ++ slots tl ++ rest)) =
    Ok (Z.of_nat (length (slots (plan_kept sg ++ tl))), slots (plan_kept sg ++ tl) ++ G2 ++ rest) ∧
    length G2 = length G') as (G2 & -> & HG2).
  { rewrite slots_app, length_app. destruct (Z.eqb_spec src (Z.of_nat (length (slots (plan_all sg)) + length (slots tl)))) as [E|E].
    - assert (slots tl = []) as -> by (destruct (slots tl); [done|unfold src in E; cbn in E; lia]).
      exists G'. cbn. rewrite Nat.add_0_r, app_nil_r. done.
    - cbn [negb]. destruct (memmove_gap (slots (plan_kept sg)) G' (slots tl) rest
        (Z.of_nat (length (slots (plan_kept sg)))) src (Z.of_nat (length (slots tl)))) as (G2 & -> & HG2);
        [done|unfold src; lia|done|].
      exists G2. res_simpl. split; [|done]. rewrite wrap_small by (unfold fits; lia). rewrite <- app_assoc.
      do 2 f_equal. lia. }
  res_simpl. eexists. split; [done|]. split; [split; cbn [data_ capacity_ endOffset_ numAllocations_]|done].
  - by exists (G2 ++ rest).
  - rewrite <- (sr_len _ _ Hrep), Hd, slots_app, !length_app. lia.
  - apply Hrep.
  - done.
  - rewrite (sr_num _ _ Hrep), Hps, !length_app. lia.
Qed.

(** The plan that removes the slots satisfying [P]. *)
Fixpoint plan_of (P : list Z → bool) (ps : list (list Z)) : plan * list (list Z) :=
  match ps with
  | [] => ([], [])
  | q :: qs =>
      let '(segs, tl) := plan_of P qs in
      if P q then (([], q) :: segs, tl)
      else match segs with [] => ([], q :: tl) | (ks, p) :: segs => ((q :: ks, p) :: segs, tl) end
  end.
(** The allocations of those slots. *)
Fixpoint allocs_of (P : list Z → bool) (off : Z) (pos : nat) (ps : list (list Z)) : list Allocation :=
  match ps with
  | [] => []
  | q :: qs =>
      let rest := allocs_of P (off + Z.of_nat (length (slot q))) (S pos) qs in
      if P q then alloc_of off pos q :: rest else rest
  end.

Lemma plan_of_spec P ps : let '(segs, tl) := plan_of P ps in
  ps = plan_all segs ++ tl ∧ filter (λ p, P p = false) ps = plan_kept segs ++ tl ∧
  ∀ off pos, allocs_of P off pos ps = plan_allocs off pos segs.
Proof.
  induction ps as [|q qs IH]; [done|]. cbn [plan_of allocs_of]. destruct (plan_of P qs) as [segs tl].
  destruct IH as (IH1 & IH2 & IH3). rewrite filter_cons. destruct (P q) eqn:E.
  - rewrite decide_False by done. split_and!; [by rewrite IH1 at 1|exact IH2|]. intros off pos. rewrite IH3.
    cbn [plan_allocs]. change (Z.of_nat (length (slots []))) with 0. cbn [length].
    by rewrite Z.add_0_r, Nat.add_0_r, Nat.add_1_r.
  - rewrite decide_True by done. destruct segs as [|[ks p] segs].
    + split_and!; [by rewrite IH1|by rewrite IH2|intros; by rewrite IH3].
    + split_and!; [by rewrite IH1|by rewrite IH2|]. intros off pos. rewrite IH3. cbn [plan_allocs].
      rewrite slots_cons, length_app, Nat2Z.inj_add, !Z.add_assoc. f_equal; [|f_equal; cbn; lia].
      f_equal. cbn. lia.
Qed.

Lemma removeAll_aux s ps P : storage_rep s ps →
  ∃ s', removeAll (allocs_of P 0 0 ps) s = Ok s' ∧ storage_rep s' (filter (λ p, P p = false) ps) ∧
    capacity_ s' = capacity_ s.
Proof.
  intros Hrep. pose proof (plan_of_spec P ps) as Hp. destruct (plan_of P ps) as [segs tl].
  destruct Hp as (H1 & -> & ->). by apply (removeAll_plan s ps).
Qed.

Lemma remove1_aux s ps i : storage_rep s ps → (i < length ps)%nat →
  ∃ s', remove1 (alloc_at ps i) s = Ok s' ∧ storage_rep s' (delete i ps) ∧ capacity_ s' = capacity_ s.
Proof.
  intros Hrep Hi. destruct (lookup_lt_is_Some_2 _ _ Hi) as [p Hp].
  destruct (removeAll_plan s ps [(take i ps, p)] (drop (S i) ps) Hrep) as (s' & Heq & Hrep' & Hc).
  { unfold plan_all. cbn [fmap list_fmap concat fst snd]. rewrite app_nil_r, <- app_assoc. symmetry.
    by apply take_drop_middle. }
  exists s'. unfold remove1. cbn [plan_allocs] in Heq. unfold alloc_at. rewrite Hp.
  rewrite length_take_le, Z.add_0_l in Heq by lia. split; [done|]. split; [|done].
  rewrite delete_take_drop. unfold plan_kept in Hrep'. cbn in Hrep'. by rewrite app_nil_r in Hrep'.
Qed.
End removal.

(** [remove] of any set of slots, given by their allocations in order,
    compacts the buffer: the contents of the other slots remain, in order, and
    the count and the end offset are theirs; [removeUntil] drops the slots up
    to and including the given one. *)
Theorem bucket_storage_remove s ps P i : storage_rep s ps → (i < length ps)%nat →
  (∃ s', removeAll (allocs_of P 0 0 ps) s = Ok s' ∧ storage_rep s' (filter (λ p, P p = false) ps) ∧
     capacity_ s' = capacity_ s) ∧
  (∃ s', removeUntil (alloc_at ps i) s = Ok s' ∧ storage_rep s' (drop (S i) ps) ∧ capacity_ s' = capacity_ s).
Proof. intros Hrep Hi. split; [by apply removeAll_aux|by apply removeUntil_aux]. Qed.

Definition ex_storage : BucketStorage :=
  mkBucketStorage 40 4 22 (slots [[1]; [2; 2]; [3]; [4; 4]] ++ repeat 0 18).
Lemma bucket_storage_remove_witness :
  let P p := bool_decide (length p = 2%nat) in
  removeAll (allocs_of P 0 0 [[1]; [2; 2]; [3]; [4; 4]]) ex_storage =
    Ok (mkBucketStorage 40 2 10 [1; 0; 0; 0; 1; 1; 0; 0; 0; 3; 2; 1; 0; 0; 0; 3; 2; 0; 0; 0; 4; 4;
          0; 0; 0; 0; 0; 0; 0; 0; 0; 0; 0; 0; 0; 0; 0; 0; 0; 0]) ∧
  (∃ s', removeAll (allocs_of P 0 0 [[1]; [2; 2]; [3]; [4; 4]]) ex_storage = Ok s' ∧
     storage_rep s' (filter (λ p, P p = false) [[1]; [2; 2]; [3]; [4; 4]]) ∧ capacity_ s' = 40) ∧
  (∃ s', removeUntil (alloc_at [[1]; [2; 2]; [3]; [4; 4]] 1) ex_storage = Ok s' ∧
     storage_rep s' [[3]; [4; 4]] ∧ capacity_ s' = 40).
Proof.
  split; [vm_compute; reflexivity|].
  apply (bucket_storage_remove ex_storage [[1]; [2; 2]; [3]; [4; 4]] (λ p, bool_decide (length p = 2%nat)) 1);
    [|cbn; lia]. split; [by exists (repeat 0 18)|done..].
Defined.
