(* ===== verification/Bucket.v ===== *)
(** A BigHash bucket ([navy/bighash/Bucket.h], [Bucket.cpp]): a FIFO of
    entries in a [BucketStorage].

    An entry is laid out in its slot as on the device: key size, value size
    (32 bits each), key hash (64 bits), key, value, little-endian.  The
    optional callbacks are arguments: [checkExpired] as a predicate on values,
    [destructorCb] as whether one is given, its calls being returned as a list
    of events. *)
From S2P Require Import Prelude BucketStorage.

Record HashedKey := mkHashedKey { hk_key : list Z; hk_hash : Z }.
(** [operator==]: hash, length, bytes. *)
Definition hk_eq (a b : HashedKey) : bool :=
  (hk_hash a =? hk_hash b) && (length (hk_key a) =? length (hk_key b))%nat && bool_decide (hk_key a = hk_key b).

Inductive DestructorEvent := Recycled | Removed | PutFailed.
Definition event : Type := HashedKey * list Z * DestructorEvent.

(** ** Entries *)
Definition sizeof_BucketEntry : Z := 16.
Definition computeSize (keySize valueSize : Z) : Z := u32 (sizeof_BucketEntry + keySize + valueSize).

Record BucketEntry := mkBucketEntry { keySize_ : Z; valueSize_ : Z; keyHash_ : Z; e_data : Z }.
(** [getIteratorEntry]: the fixed part of the entry at the allocation, and the
    offset of its [data_]. *)
Definition getIteratorEntry (itr : Allocation) (s : BucketStorage) : result BucketEntry :=
  '(off, _) ← deref (view_ itr);
  ks ← read_u32 off (data_ s); vs ← read_u32 (off + 4) (data_ s); kh ← read_u64 (off + 8) (data_ s);
  Ok (mkBucketEntry ks vs kh (off + 16)).
Definition entry_key (e : BucketEntry) (s : BucketStorage) : result (list Z) :=
  slice (e_data e) (keySize_ e) (data_ s).
Definition entry_value (e : BucketEntry) (s : BucketStorage) : result (list Z) :=
  slice (e_data e + keySize_ e) (valueSize_ e) (data_ s).
Definition hashedKey (e : BucketEntry) (s : BucketStorage) : result HashedKey :=
  k ← entry_key e s; Ok (mkHashedKey k (keyHash_ e)).
Definition keyEqualsTo (e : BucketEntry) (hk : HashedKey) (s : BucketStorage) : result bool :=
  k ← hashedKey e s; Ok (hk_eq hk k).

(** [BucketEntry::create] in the memory of [alloc]. *)
Definition create (alloc : Allocation) (hk : HashedKey) (value : list Z) (s : BucketStorage) : result BucketStorage :=
  '(off, _) ← deref (view_ alloc);
  data ← splice off (le_bytes 4 (u32 (Z.of_nat (length (hk_key hk)))) ++
                     le_bytes 4 (u32 (Z.of_nat (length value))) ++ le_bytes 8 (hk_hash hk)) (data_ s);
  data ← splice (off + 16) (hk_key hk) data;
  data ← splice (off + 16 + u32 (Z.of_nat (length (hk_key hk)))) value data;
  Ok (mkBucketStorage (capacity_ s) (numAllocations_ s) (endOffset_ s) data).

(** ** The bucket *)
Record Bucket := mkBucket { checksum_ : Z; generationTime_ : Z; storage_ : BucketStorage }.
Definition sizeof_Bucket : Z := 24.
Definition with_storage (s : BucketStorage) (b : Bucket) : Bucket := mkBucket (checksum_ b) (generationTime_ b) s.

(** A new bucket in a buffer of [size] bytes whose tail is [data]. *)
Definition initNew (size generationTime : Z) (data : list Z) : Bucket :=
  mkBucket 0 generationTime (BucketStorage_new (u32 (size - sizeof_Bucket)) data).
Definition setChecksum (c : Z) (b : Bucket) : Bucket := mkBucket c (generationTime_ b) (storage_ b).
Definition size (b : Bucket) : Z := numAllocations_ (storage_ b).
Definition remainingBytes (b : Bucket) : Z := remainingCapacity (storage_ b).

(** Enough for every slot and the end of the iteration. *)
Definition slot_fuel (s : BucketStorage) : nat := S (Z.to_nat (numAllocations_ s)).

Fixpoint find_loop (fuel : nat) (hk : HashedKey) (itr : Allocation) (s : BucketStorage)
    : result (option (list Z)) :=
  if done_ itr then Ok None
  else
    match fuel with
    | O => Undef
    | S fuel =>
        e ← getIteratorEntry itr s; eq ← keyEqualsTo e hk s;
        if eq : bool then v ← entry_value e s; Ok (Some v)
        else itr ← getNext itr s; find_loop fuel hk itr s
    end.
Definition find (hk : HashedKey) (b : Bucket) : result (option (list Z)) :=
  itr ← getFirst (storage_ b); find_loop (slot_fuel (storage_ b)) hk itr (storage_ b).

(** The calls of [destructorCb], when there is one. *)
Definition notify (cb : bool) (e : BucketEntry) (ev : DestructorEvent) (s : BucketStorage) : result (list event) :=
  if cb then k ← hashedKey e s; v ← entry_value e s; Ok [(k, v, ev)] else Ok [].

Fixpoint removeExpired_loop (fuel : nat) (check : list Z → bool) (cb : bool) (itr : Allocation)
    (s : BucketStorage) : result (list Allocation * list event) :=
  if done_ itr then Ok ([], [])
  else
    match fuel with
    | O => Undef
    | S fuel =>
        e ← getIteratorEntry itr s; v ← entry_value e s;
        if negb (check v) then itr ← getNext itr s; removeExpired_loop fuel check cb itr s
        else
          evs ← notify cb e Recycled s;
          next ← getNext itr s;
          '(removed, rest) ← removeExpired_loop fuel check cb next s;
          Ok (itr :: removed, evs ++ rest)
    end.
Definition removeExpired (checkExpired : option (list Z → bool)) (cb : bool) (itr : Allocation) (b : Bucket)
    : result (Z * list event * Bucket) :=
  match checkExpired with
  | None => Ok (0, [], b)
  | Some check =>
      '(removed, evs) ← removeExpired_loop (slot_fuel (storage_ b)) check cb itr (storage_ b);
      s ← removeAll removed (storage_ b);
      Ok (u32 (Z.of_nat (length removed)), evs, with_storage s b)
  end.

(** The eviction loop of [makeSpace]. *)
Fixpoint evict_loop (fuel : nat) (cb : bool) (itr : Allocation) (evictions curFreeSpace requiredSize : Z)
    (b : Bucket) : result (Z * list event * Bucket) :=
  match fuel with
  | O => Undef
  | S fuel =>
      let s := storage_ b in
      let evictions := u32 (evictions + 1) in
      evs ← (if cb then e ← getIteratorEntry itr s; notify cb e Recycled s else Ok []);
      let curFreeSpace := u32 (curFreeSpace + slotSize (match view_ itr with Some (_, n) => n | None => 0 end)) in
      if requiredSize <=? curFreeSpace then s ← removeUntil itr s; Ok (evictions, evs, with_storage s b)
      else
        itr ← getNext itr s;
        _ ← xdcheck (negb (done_ itr));
        '(n, rest, b) ← evict_loop fuel cb itr evictions curFreeSpace requiredSize b;
        Ok (n, evs ++ rest, b)
  end.

Definition makeSpace (size : Z) (checkExpired : option (list Z → bool)) (cb : bool) (b : Bucket)
    : result (Z * Z * list event * Bucket) :=
  let requiredSize := slotSize size in
  _ ← xdcheck (requiredSize <=? capacity_ (storage_ b));
  if requiredSize <=? remainingCapacity (storage_ b) then Ok (0, 0, [], b)
  else
    itr ← getFirst (storage_ b);
    '(evictionExpired, evs, b) ← removeExpired checkExpired cb itr b;
    let curFreeSpace := remainingCapacity (storage_ b) in
    if (0 <? evictionExpired) && (requiredSize <=? curFreeSpace)
    then Ok (evictionExpired, evictionExpired, evs, b)
    else
      itr ← getFirst (storage_ b);
      '(evictions, evs', b) ← evict_loop (slot_fuel (storage_ b)) cb itr evictionExpired curFreeSpace requiredSize b;
      Ok (evictions, evictionExpired, evs ++ evs', b).

Definition insert (hk : HashedKey) (value : list Z) (checkExpired : option (list Z → bool)) (cb : bool)
    (b : Bucket) : result (Z * Z * list event * Bucket) :=
  let size := computeSize (u32 (Z.of_nat (length (hk_key hk)))) (u32 (Z.of_nat (length value))) in
  _ ← xdcheck (size <=? capacity_ (storage_ b));
  '(n, m, evs, b) ← makeSpace size checkExpired cb b;
  '(alloc, s) ← allocate size (storage_ b);
  _ ← xdcheck (negb (done_ alloc));
  s ← create alloc hk value s;
  Ok (n, m, evs, with_storage s b).

Fixpoint remove_key_loop (fuel : nat) (hk : HashedKey) (cb : bool) (itr : Allocation) (b : Bucket)
    : result (Z * list event * Bucket) :=
  if done_ itr then Ok (0, [], b)
  else
    match fuel with
    | O => Undef
    | S fuel =>
        e ← getIteratorEntry itr (storage_ b); eq ← keyEqualsTo e hk (storage_ b);
        if eq : bool then
          evs ← notify cb e Removed (storage_ b);
          s ← remove1 itr (storage_ b); Ok (1, evs, with_storage s b)
        else itr ← getNext itr (storage_ b); remove_key_loop fuel hk cb itr b
    end.
Definition remove (hk : HashedKey) (cb : bool) (b : Bucket) : result (Z * list event * Bucket) :=
  itr ← getFirst (storage_ b); remove_key_loop (slot_fuel (storage_ b)) hk cb itr b.

(** The string a [const char*] denotes: the bytes up to the first NUL. *)
Fixpoint cstring (bs : list Z) : result (list Z) :=
  match bs with
  | [] => Undef
  | b :: bs => if b =? 0 then Ok [] else s ← cstring bs; Ok (b :: s)
  end.
(** [getRandomAlloc] for the random offset [randOffset]; the key it returns is
    a [std::string] built from the address of the entry's key. *)
Fixpoint getRandomAlloc_loop (fuel : nat) (randOffset : Z) (itr : Allocation) (s : BucketStorage)
    : result (option (list Z * list Z)) :=
  if done_ itr then Ok None
  else
    match fuel with
    | O => Undef
    | S fuel =>
        offset ← getOffset itr;
        '(_, size) ← deref (view_ itr);
        if randOffset <? offset + size then
          e ← getIteratorEntry itr s;
          k ← cstring (drop (Z.to_nat (e_data e)) (data_ s)); v ← entry_value e s;
          Ok (Some (k, v))
        else itr ← getNext itr s; getRandomAlloc_loop fuel randOffset itr s
    end.
Definition getRandomAlloc (randOffset : Z) (b : Bucket) : result (option (list Z * list Z)) :=
  itr ← getFirst (storage_ b); getRandomAlloc_loop (slot_fuel (storage_ b)) randOffset itr (storage_ b).

(** ** Entries as data *)
Record Entry := mkEntry { en_hk : HashedKey; en_value : list Z }.

Definition enc_head (e : Entry) : list Z :=
  le_bytes 4 (Z.of_nat (length (hk_key (en_hk e)))) ++ le_bytes 4 (Z.of_nat (length (en_value e))) ++
  le_bytes 8 (hk_hash (en_hk e)).
(** The bytes of an entry. *)
Definition enc (e : Entry) : list Z := enc_head e ++ hk_key (en_hk e) ++ en_value e.
Definition entry_ok (e : Entry) : Prop := fits 64 (hk_hash (en_hk e)).

Record bucket_rep (b : Bucket) (es : list Entry) : Prop := {
  br_storage : storage_rep (storage_ b) (enc <$> es);
  br_ok : Forall entry_ok es;
}.

Lemma length_enc_head e : length (enc_head e) = 16%nat.
Proof. unfold enc_head. by rewrite !length_app, !length_le_bytes. Qed.
Lemma length_enc e : length (enc e) = (16 + length (hk_key (en_hk e)) + length (en_value e))%nat.
Proof. unfold enc. rewrite !length_app, length_enc_head. lia. Qed.

(** An iterator on the entry at position [i]. *)
Definition itr_at (es : list Entry) (i : nat) : Allocation := alloc_at (enc <$> es) i.

Section reading.
Context {b : Bucket} {es : list Entry} (Hrep : bucket_rep b es).

Lemma itr_first : getFirst (storage_ b) = Ok (itr_at es 0).
Proof. apply getFirst_spec, Hrep. Qed.
Lemma itr_next i : (i < length es)%nat → getNext (itr_at es i) (storage_ b) = Ok (itr_at es (S i)).
Proof. intros. apply getNext_spec; [apply Hrep|by rewrite length_fmap]. Qed.
Lemma itr_done i : done_ (itr_at es i) = bool_decide (length es ≤ i)%nat.
Proof.
  unfold done_, itr_at, alloc_at. rewrite list_lookup_fmap. destruct (es !! i) as [e|] eqn:E; cbn.
  - apply lookup_lt_Some in E. by rewrite !bool_decide_eq_false_2 by (done || lia).
  - apply lookup_ge_None in E. by rewrite !bool_decide_eq_true_2 by done.
Qed.

(** Where entry [i] lies. *)
Definition entry_off (i : nat) : Z := Z.of_nat (length (slots (take i (enc <$> es)))) + kAllocationOverhead.
Lemma entry_bytes i e : es !! i = Some e → ∃ A B, data_ (storage_ b) = A ++ enc e ++ B ∧
  Z.of_nat (length A) = entry_off i ∧ Z.of_nat (length (A ++ enc e ++ B)) < 2 ^ 32.
Proof.
  intros Hi. destruct (sr_data _ _ (br_storage _ _ Hrep)) as [rest Hd].
  assert ((enc <$> es) !! i = Some (enc e)) as Hi' by by rewrite list_lookup_fmap, Hi.
  exists (slots (take i (enc <$> es)) ++ le_bytes 4 (Z.of_nat (length (enc e)))),
    (slots (drop (S i) (enc <$> es)) ++ rest).
  assert (data_ (storage_ b) = (slots (take i (enc <$> es)) ++ le_bytes 4 (Z.of_nat (length (enc e)))) ++
    enc e ++ slots (drop (S i) (enc <$> es)) ++ rest) as Hd'.
  { rewrite Hd, (slots_split _ _ _ Hi'). unfold slot. by rewrite <- !app_assoc. }
  split; [done|]. split.
  - rewrite length_app, length_le_bytes. unfold entry_off, kAllocationOverhead. lia.
  - rewrite <- Hd', (sr_len _ _ (br_storage _ _ Hrep)). apply (sr_cap _ _ (br_storage _ _ Hrep)).
Qed.

Lemma view_at i e : es !! i = Some e → view_ (itr_at es i) = Some (entry_off i, Z.of_nat (length (enc e))).
Proof. intros Hi. unfold itr_at, alloc_at. by rewrite list_lookup_fmap, Hi. Qed.

(** Reading entry [i] through an iterator. *)
Lemma read_entry i e : es !! i = Some e → ∃ r, getIteratorEntry (itr_at es i) (storage_ b) = Ok r ∧
  hashedKey r (storage_ b) = Ok (en_hk e) ∧ entry_value r (storage_ b) = Ok (en_value e).
Proof.
  intros Hi. destruct (entry_bytes i e Hi) as (A & B & Hd & Hoff & Hlt). unfold getIteratorEntry.
  rewrite (view_at i e Hi). cbn [deref mbind result_bind]. rewrite Hd, <- Hoff.
  rewrite !length_app, length_enc in Hlt. pose proof (br_ok _ _ Hrep) as Hok.
  pose proof (Forall_lookup_1 _ _ _ _ Hok Hi) as Hh. unfold entry_ok, fits in Hh.
  destruct e as [[key h] v]. cbn [en_hk hk_key hk_hash en_value] in *.
  unfold enc, enc_head. cbn [en_hk hk_key hk_hash en_value].
  set (k4 := le_bytes 4 (Z.of_nat (length key))). set (v4 := le_bytes 4 (Z.of_nat (length v))).
  set (h8 := le_bytes 8 h). rewrite <- !app_assoc.
  assert (length k4 = 4%nat) as Hk4 by apply length_le_bytes. assert (length v4 = 4%nat) as Hv4 by apply length_le_bytes.
  assert (length h8 = 8%nat) as Hh8 by apply length_le_bytes.
  assert (read_u32 (Z.of_nat (length A)) (A ++ k4 ++ v4 ++ h8 ++ key ++ v ++ B) = Ok (Z.of_nat (length key))) as ->.
  { unfold read_u32. rewrite slice_app by (by rewrite Hk4). res_simpl. unfold k4. rewrite le_roundtrip; [done|cbn; lia]. }
  assert (read_u32 (Z.of_nat (length A) + 4) (A ++ k4 ++ v4 ++ h8 ++ key ++ v ++ B) = Ok (Z.of_nat (length v))) as Hrv.
  { unfold read_u32. rewrite (app_assoc A). replace (Z.of_nat (length A) + 4) with (Z.of_nat (length (A ++ k4)))
      by (rewrite length_app; lia). rewrite slice_app by (by rewrite Hv4). res_simpl. unfold v4.
    rewrite le_roundtrip; [done|cbn; lia]. }
  assert (read_u64 (Z.of_nat (length A) + 8) (A ++ k4 ++ v4 ++ h8 ++ key ++ v ++ B) = Ok h) as Hrh.
  { unfold read_u64. rewrite (app_assoc k4), (app_assoc A).
    replace (Z.of_nat (length A) + 8) with (Z.of_nat (length (A ++ k4 ++ v4)))
      by (rewrite !length_app; lia). rewrite slice_app by (by rewrite Hh8). res_simpl. unfold h8.
    rewrite le_roundtrip; [done|cbn; lia]. }
  res_simpl. rewrite Hrv. res_simpl. rewrite Hrh. res_simpl. eexists. split; [done|].
  unfold hashedKey, entry_key, entry_value. cbn [e_data keySize_ valueSize_ keyHash_].
  rewrite Hd. unfold enc, enc_head. cbn [en_hk hk_key hk_hash en_value]. fold k4 v4 h8. rewrite <- !app_assoc. split.
  - rewrite (app_assoc v4), (app_assoc k4), (app_assoc A).
    replace (Z.of_nat (length A) + 16) with (Z.of_nat (length (A ++ k4 ++ v4 ++ h8))) by (rewrite !length_app; lia).
    by rewrite slice_app.
  - rewrite (app_assoc h8), (app_assoc v4), (app_assoc k4), (app_assoc A).
    replace (Z.of_nat (length A) + 16 + Z.of_nat (length key)) with (Z.of_nat (length (A ++ k4 ++ v4 ++ h8 ++ key)))
      by (rewrite !length_app; lia).
    by rewrite slice_app.
Qed.

Lemma read_keyEquals i e hk r : es !! i = Some e → hashedKey r (storage_ b) = Ok (en_hk e) →
  keyEqualsTo r hk (storage_ b) = Ok (hk_eq hk (en_hk e)).
Proof. intros _ Hk. unfold keyEqualsTo. by rewrite Hk. Qed.
Lemma read_notify i e cb ev r : es !! i = Some e → hashedKey r (storage_ b) = Ok (en_hk e) →
  entry_value r (storage_ b) = Ok (en_value e) →
  notify cb r ev (storage_ b) = Ok (if cb then [(en_hk e, en_value e, ev)] else []).
Proof. intros _ Hk Hv. unfold notify. destruct cb; [|done]. by rewrite Hk, Hv. Qed.
End reading.

(** ** Lookup and removal *)
Section operations.
Implicit Types (b : Bucket) (es : list Entry) (hk : HashedKey) (cb : bool).

(** The first entry with the key. *)
Definition first_match hk es : option (nat * Entry) := list_find (λ e, hk_eq hk (en_hk e) = true) es.

Lemma hk_eq_spec (a b : HashedKey) : hk_eq a b = true ↔ a = b.
Proof.
  unfold hk_eq. rewrite !andb_true_iff, Z.eqb_eq, Nat.eqb_eq, bool_decide_eq_true.
  destruct a, b; cbn. naive_solver.
Qed.

Lemma drop_cons es i : (i < length es)%nat → ∃ e, es !! i = Some e ∧ drop i es = e :: drop (S i) es.
Proof. intros Hi. destruct (lookup_lt_is_Some_2 _ _ Hi) as [e He]. exists e. split; [done|by apply drop_S]. Qed.

Lemma fuel_len b es : bucket_rep b es → slot_fuel (storage_ b) = S (length es).
Proof.
  intros Hrep. unfold slot_fuel. rewrite (sr_num _ _ (br_storage _ _ Hrep)), length_fmap. lia.
Qed.

Lemma find_loop_spec b es hk i fuel : bucket_rep b es → (length es ≤ i + fuel)%nat →
  find_loop fuel hk (itr_at es i) (storage_ b) = Ok ((λ ie, en_value ie.2) <$> first_match hk (drop i es)).
Proof.
  intros Hrep. revert i. induction fuel as [|fuel IH]; intros i Hf; cbn [find_loop]; rewrite itr_done;
    (destruct (decide (length es ≤ i)%nat) as [Hge|Hlt];
     [rewrite bool_decide_eq_true_2 by done; by rewrite drop_ge|]); [lia|].
  rewrite bool_decide_eq_false_2 by done. destruct (drop_cons es i) as (e & He & ->); [lia|].
  destruct (read_entry Hrep i e He) as (r & -> & Hk & Hv). cbn [mbind result_bind].
  rewrite (read_keyEquals i e hk r He Hk). cbn [mbind result_bind]. unfold first_match. cbn [list_find].
  destruct (hk_eq hk (en_hk e)) eqn:E.
  - rewrite decide_True, Hv by done. done.
  - rewrite decide_False, (itr_next Hrep) by (done || lia). cbn [mbind result_bind]. rewrite IH by lia.
    unfold first_match. destruct (list_find _ (drop (S i) es)) as [[j e']|]; done.
Qed.

Lemma find_aux b es hk : bucket_rep b es → find hk b = Ok ((λ ie, en_value ie.2) <$> first_match hk es).
Proof.
  intros Hrep. unfold find. rewrite (itr_first Hrep). cbn [mbind result_bind].
  by rewrite (find_loop_spec b es hk 0) by (done || rewrite (fuel_len b es); done || lia).
Qed.

Lemma remove_key_loop_spec b es hk cb i fuel : bucket_rep b es → (length es ≤ i + fuel)%nat →
  match first_match hk (drop i es) with
  | None => remove_key_loop fuel hk cb (itr_at es i) b = Ok (0, [], b)
  | Some (j, e) => ∃ b', remove_key_loop fuel hk cb (itr_at es i) b =
      Ok (1, if cb then [(en_hk e, en_value e, Removed)] else [], b') ∧ bucket_rep b' (delete (i + j)%nat es) ∧
      capacity_ (storage_ b') = capacity_ (storage_ b)
  end.
Proof.
  intros Hrep. revert i. induction fuel as [|fuel IH]; intros i Hf; cbn [remove_key_loop]; rewrite itr_done;
    (destruct (decide (length es ≤ i)%nat) as [Hge|Hlt];
     [rewrite bool_decide_eq_true_2 by done; by rewrite drop_ge|]); [lia|].
  rewrite bool_decide_eq_false_2 by done. destruct (drop_cons es i) as (e & He & ->); [lia|].
  destruct (read_entry Hrep i e He) as (r & -> & Hk & Hv). cbn [mbind result_bind].
  rewrite (read_keyEquals i e hk r He Hk). cbn [mbind result_bind]. unfold first_match. cbn [list_find].
  destruct (hk_eq hk (en_hk e)) eqn:E.
  - rewrite decide_True, (read_notify i e cb Removed r He Hk Hv) by done. cbn [mbind result_bind].
    destruct (remove1_aux (storage_ b) (enc <$> es) i) as (s' & Heq & Hs & Hc);
      [apply Hrep|rewrite length_fmap; lia|].
    change (alloc_at (enc <$> es) i) with (itr_at es i) in Heq. rewrite Heq. cbn [mbind result_bind].
    eexists. split; [done|]. rewrite Nat.add_0_r. split; [|done]. split; cbn [storage_ with_storage].
    + by rewrite list_fmap_delete.
    + apply Forall_delete, Hrep.
  - rewrite decide_False, (itr_next Hrep) by (done || lia). cbn [mbind result_bind].
    specialize (IH (S i) ltac:(lia)). unfold first_match in IH.
    destruct (list_find _ (drop (S i) es)) as [[j e']|]; [|done]. cbn.
    destruct IH as (b' & -> & Hb' & Hc). exists b'. split; [done|]. split; [|done].
    by replace (i + S j)%nat with (S i + j)%nat by lia.
Qed.

(** ** Making space *)
Definition expired (check : option (list Z → bool)) (e : Entry) : bool :=
  match check with Some f => f (en_value e) | None => false end.

Definition slot_len (e : Entry) : Z := 4 + Z.of_nat (length (enc e)).
Definition used es : Z := Z.of_nat (length (slots (enc <$> es))).
Lemma used_cons e es : used (e :: es) = slot_len e + used es.
Proof. unfold used, slot_len. rewrite fmap_cons, slots_cons, length_app, length_slot. lia. Qed.
Lemma used_app es es' : used (es ++ es') = used es + used es'.
Proof. unfold used. rewrite fmap_app, slots_app, length_app. lia. Qed.
Lemma used_bounds b es : bucket_rep b es → 0 ≤ used es ≤ capacity_ (storage_ b) ∧ capacity_ (storage_ b) < 2 ^ 32 ∧
  Z.of_nat (length es) ≤ used es.
Proof. intros Hrep. pose proof (rep_bounds _ _ (br_storage _ _ Hrep)) as Hb. rewrite length_fmap in Hb. unfold used. lia. Qed.
Lemma remaining b es : bucket_rep b es → remainingCapacity (storage_ b) = capacity_ (storage_ b) - used es.
Proof.
  intros Hrep. pose proof (used_bounds b es Hrep). unfold remainingCapacity.
  rewrite (sr_end _ _ (br_storage _ _ Hrep)). fold (used es). apply wrap_small. unfold fits. lia.
Qed.

(** The value part of the bytes of an entry. *)
Definition payload_value (p : list Z) : list Z := drop (16 + Z.to_nat (le_val (take 4 p))) p.
Lemma payload_value_enc e : Z.of_nat (length (enc e)) < 2 ^ 32 → payload_value (enc e) = en_value e.
Proof.
  intros Hlt. rewrite length_enc in Hlt. unfold payload_value, enc, enc_head. rewrite <- !app_assoc.
  rewrite take_app_length' by (by rewrite length_le_bytes). rewrite le_roundtrip by (cbn; lia). rewrite Nat2Z.id.
  rewrite !app_assoc. apply drop_app_length'. rewrite !length_app, !length_le_bytes. lia.
Qed.

Lemma removeExpired_loop_spec b es check cb i fuel : bucket_rep b es → (length es ≤ i + fuel)%nat →
  removeExpired_loop fuel check cb (itr_at es i) (storage_ b) =
    Ok (allocs_of (check ∘ payload_value) (Z.of_nat (length (slots (take i (enc <$> es))))) i (enc <$> drop i es),
        if cb then (λ e, (en_hk e, en_value e, Recycled)) <$> filter (λ e, check (en_value e) = true) (drop i es)
        else []).
Proof.
  intros Hrep. revert i. induction fuel as [|fuel IH]; intros i Hf; cbn [removeExpired_loop]; rewrite itr_done;
    (destruct (decide (length es ≤ i)%nat) as [Hge|Hlt];
     [rewrite bool_decide_eq_true_2 by done; rewrite drop_ge by done; by destruct cb|]); [lia|].
  rewrite bool_decide_eq_false_2 by done. destruct (drop_cons es i) as (e & He & ->); [lia|].
  destruct (read_entry Hrep i e He) as (r & -> & Hk & Hv). cbn [mbind result_bind]. rewrite Hv. cbn [mbind result_bind].
  assert ((enc <$> es) !! i = Some (enc e)) as Hi by by rewrite list_lookup_fmap, He.
  pose proof (used_bounds b es Hrep) as Hb. pose proof (slots_split _ _ _ Hi) as Hs.
  apply (f_equal length) in Hs. rewrite !length_app, length_slot in Hs. unfold used in Hb.
  cbn [fmap list_fmap allocs_of]. unfold compose at 1. rewrite payload_value_enc by lia. rewrite filter_cons.
  pose proof (slots_take_S _ _ _ Hi) as Ht.
  replace (Z.of_nat (length (slots (take i (enc <$> es)))) + Z.of_nat (length (slot (enc e)))) with
    (Z.of_nat (length (slots (take (S i) (enc <$> es))))) by (rewrite length_slot; lia).
  destruct (check (en_value e)) eqn:E; cbn [negb].
  - rewrite (read_notify i e cb Recycled r He Hk Hv). cbn [mbind result_bind].
    rewrite (itr_next Hrep) by lia. cbn [mbind result_bind]. rewrite IH by lia. cbn [mbind result_bind].
    rewrite decide_True by done. unfold itr_at, alloc_at. rewrite Hi. by destruct cb.
  - rewrite (itr_next Hrep) by lia. cbn [mbind result_bind]. rewrite IH, decide_False by (done || lia). done.
Qed.

(** The calls of [destructorCb] for entries whose space is recycled. *)
Definition recycled cb es : list event := if cb then (λ e, (en_hk e, en_value e, Recycled)) <$> es else [].

Lemma filter_enc (P : list Z → bool) es :
  Forall (λ e, payload_value (enc e) = en_value e) es →
  filter (λ p, (P ∘ payload_value) p = false) (enc <$> es) = enc <$> filter (λ e, P (en_value e) = false) es.
Proof.
  induction 1 as [|e es He _ IH]; [done|]. cbn [fmap list_fmap]. rewrite !filter_cons. unfold compose in *.
  rewrite He. destruct (P (en_value e)); [rewrite !decide_False by done; exact IH|].
  rewrite !decide_True by done. rewrite fmap_cons. f_equal. exact IH.
Qed.

Lemma filter_all_true (Q : Entry → Prop) `{∀ e, Decision (Q e)} es : (∀ e, Q e) → filter Q es = es.
Proof. intros HQ. induction es as [|e es IH]; [done|]. by rewrite filter_cons, decide_True, IH by done. Qed.
Lemma filter_all_false (Q : Entry → Prop) `{∀ e, Decision (Q e)} es : (∀ e, ¬ Q e) → filter Q es = [].
Proof. intros HQ. induction es as [|e es IH]; [done|]. by rewrite filter_cons, decide_False, IH by done. Qed.
Lemma filter_enc_true (P : list Z → bool) es :
  Forall (λ e, payload_value (enc e) = en_value e) es →
  filter (λ p, (P ∘ payload_value) p = true) (enc <$> es) = enc <$> filter (λ e, P (en_value e) = true) es.
Proof.
  induction 1 as [|e es He _ IH]; [done|]. cbn [fmap list_fmap]. rewrite !filter_cons. unfold compose in *.
  rewrite He. destruct (P (en_value e)); [rewrite !decide_True by done|rewrite !decide_False by done; exact IH].
  rewrite fmap_cons. f_equal. exact IH.
Qed.

Lemma length_allocs_of P off pos ps : length (allocs_of P off pos ps) = length (filter (λ p, P p = true) ps).
Proof.
  revert off pos. induction ps as [|p ps IH]; intros; [done|]. cbn [allocs_of]. rewrite filter_cons.
  destruct (P p); [rewrite decide_True by done; cbn; by rewrite IH|rewrite decide_False by done; apply IH].
Qed.

Lemma removeExpired_aux b es check cb : bucket_rep b es →
  ∃ b', removeExpired check cb (itr_at es 0) b =
      Ok (Z.of_nat (length (filter (λ e, expired check e = true) es)),
          recycled cb (filter (λ e, expired check e = true) es), b') ∧
    bucket_rep b' (filter (λ e, expired check e = false) es) ∧ capacity_ (storage_ b') = capacity_ (storage_ b).
Proof.
  intros Hrep. unfold removeExpired. destruct check as [f|]; cbn [expired].
  2:{ exists b. rewrite filter_all_false, filter_all_true by done. by destruct cb. }
  pose proof (used_bounds b es Hrep) as Hb.
  rewrite (removeExpired_loop_spec b es f cb 0) by (done || rewrite (fuel_len b es); done || lia).
  cbn [mbind result_bind]. change (Z.of_nat (length (slots (take 0 (enc <$> es))))) with 0. rewrite drop_0.
  assert (Forall (λ e, payload_value (enc e) = en_value e) es) as Hpv.
  { apply Forall_lookup. intros i e He. apply payload_value_enc.
    assert ((enc <$> es) !! i = Some (enc e)) as Hi by by rewrite list_lookup_fmap, He.
    pose proof (slots_split _ _ _ Hi) as Hs. apply (f_equal length) in Hs.
    rewrite !length_app, length_slot in Hs. unfold used in Hb. lia. }
  destruct (removeAll_aux (storage_ b) (enc <$> es) (f ∘ payload_value)) as (s' & -> & Hs & Hc); [apply Hrep|].
  cbn [mbind result_bind]. rewrite length_allocs_of, filter_enc_true, length_fmap by done.
  pose proof (length_filter (λ e, f (en_value e) = true) es).
  rewrite wrap_small by (unfold fits; lia). eexists. split; [done|]. split; [split; cbn|done].
  - by rewrite filter_enc in Hs.
  - apply Forall_forall. intros e [_ He]%list_elem_of_filter. pose proof (br_ok _ _ Hrep) as Hok.
    rewrite Forall_forall in Hok. by apply Hok.
Qed.

Lemma used_nil : used [] = 0.
Proof. done. Qed.

(** How many entries from the front free [need] bytes. *)
Fixpoint evict_count (need : Z) es : nat :=
  match es with
  | [] => 0
  | e :: es => if need <=? slot_len e then 1 else S (evict_count (need - slot_len e) es)
  end.

Lemma evict_count_spec need es : need ≤ used es →
  let k := evict_count need es in
  (k ≤ length es)%nat ∧ need ≤ used (take k es) ∧ (∀ j, (j < k)%nat → j ≠ 0%nat → used (take j es) < need).
Proof.
  revert need. induction es as [|e es IH]; intros need Hn; cbn [evict_count].
  - split; [done|]. split; [done|]. lia.
  - rewrite used_cons in Hn. destruct (Z.leb_spec need (slot_len e)) as [Hle|Hgt].
    + split; [cbn; lia|]. split; [|lia]. cbn [take]. rewrite used_cons, take_0, used_nil. lia.
    + destruct (IH (need - slot_len e)) as (H1 & H2 & H3); [lia|]. split; [cbn; lia|].
      cbn [take]. rewrite used_cons. split; [lia|]. intros [|j] Hj Hj0; [done|]. cbn [take]. rewrite used_cons.
      destruct (decide (j = 0%nat)) as [->|]; [rewrite take_0, used_nil; lia|]. specialize (H3 j). lia.
Qed.

Lemma evict_loop_spec b es cb i fuel ev cur req : bucket_rep b es → (i < length es)%nat →
  (length es ≤ i + fuel)%nat → cur = capacity_ (storage_ b) - used (drop i es) → 
  req - cur ≤ used (drop i es) → req ≤ capacity_ (storage_ b) → 0 ≤ ev → ev + Z.of_nat (length es - i) < 2 ^ 32 →
  let k := evict_count (req - cur) (drop i es) in
  ∃ b', evict_loop fuel cb (itr_at es i) ev cur req b =
      Ok (ev + Z.of_nat k, recycled cb (take k (drop i es)), b') ∧
    bucket_rep b' (drop (i + k) es) ∧ capacity_ (storage_ b') = capacity_ (storage_ b).
Proof.
  intros Hrep. revert i ev cur. induction fuel as [|fuel IH]; intros i ev cur Hi Hf Hcur Hneed Hreq Hev Hev'; [lia|].
  destruct (drop_cons es i) as (e & He & Hd); [lia|]. rewrite Hd in *. cbn [evict_loop].
  destruct (read_entry Hrep i e He) as (r & Hr & Hk & Hv). pose proof (used_bounds b es Hrep) as Hb.
  assert (used es = used (take i es) + used (e :: drop (S i) es)) as Hu
    by (rewrite <- used_app, <- Hd, take_drop; done).
  assert (0 ≤ used (take i es) ∧ 0 ≤ used (drop (S i) es)) as Hpos by (unfold used; lia).
  rewrite used_cons in *. assert (4 ≤ slot_len e) by (unfold slot_len; lia).
  assert ((if cb then x ← getIteratorEntry (itr_at es i) (storage_ b); notify cb x Recycled (storage_ b) else Ok [])
    = Ok (recycled cb [e])) as ->.
  { destruct cb; [|done]. rewrite Hr. cbn [mbind result_bind]. by rewrite (read_notify i e true Recycled r He Hk Hv). }
  cbn [mbind result_bind]. rewrite (view_at i e He).
  assert (slotSize (Z.of_nat (length (enc e))) = slot_len e) as ->.
  { unfold slotSize, kAllocationOverhead. apply wrap_small. unfold fits, slot_len in *. lia. }
  rewrite (wrap_small 32 (cur + slot_len e)), (wrap_small 32 (ev + 1)) by (unfold fits; lia).
  cbn [evict_count]. destruct (Z.leb_spec req (cur + slot_len e)) as [Hle|Hgt].
  - rewrite (proj2 (Z.leb_le _ _)) by lia.
    destruct (removeUntil_aux (storage_ b) (enc <$> es) i) as (s' & Heq & Hs & Hc);
      [apply Hrep|rewrite length_fmap; lia|].
    change (alloc_at (enc <$> es) i) with (itr_at es i) in Heq. rewrite Heq. cbn [mbind result_bind].
    eexists. split; [done|]. split; [|done]. split; cbn [storage_ with_storage].
    + rewrite Nat.add_1_r. by rewrite fmap_drop.
    + apply Forall_drop, Hrep.
  - rewrite (proj2 (Z.leb_gt _ _)) by lia. rewrite (itr_next Hrep) by lia. cbn [mbind result_bind].
    assert (S i < length es)%nat as Hi'.
    { destruct (decide (S i < length es)%nat); [done|]. rewrite drop_ge in * by lia. unfold used in *. cbn in *. lia. }
    rewrite itr_done, bool_decide_eq_false_2 by lia. cbn [negb xdcheck mbind result_bind].
    destruct (IH (S i) (ev + 1) (cur + slot_len e)) as (b' & Heq & Hb' & Hc); [lia..|]. rewrite Heq.
    cbn [mbind result_bind]. replace (req - (cur + slot_len e)) with (req - cur - slot_len e) in * by lia.
    set (k := evict_count _ _) in *. exists b'. split; [|by replace (i + S k)%nat with (S i + k)%nat by lia].
    replace (ev + 1 + Z.of_nat k) with (ev + Z.of_nat (S k)) by lia. by destruct cb.
Qed.

(** What [makeSpace] leaves of the entries, and how many it evicts. *)
Definition unexpired check es : list Entry := filter (λ e, expired check e = false) es.
Definition n_expired check es : nat := length (filter (λ e, expired check e = true) es).
Definition n_evicted cap req check es : nat :=
  let es1 := unexpired check es in
  if bool_decide (0 < n_expired check es)%nat && (req <=? cap - used es1) then 0
  else evict_count (req - (cap - used es1)) es1.

Lemma used_filter (P : Entry → Prop) `{∀ e, Decision (P e)} es : used (filter P es) ≤ used es.
Proof.
  induction es as [|e es IH]; [done|]. rewrite filter_cons, used_cons. case_decide; [rewrite used_cons; lia|].
  assert (0 ≤ slot_len e) by (unfold slot_len; lia). lia.
Qed.

Lemma length_expired check es : (n_expired check es + length (unexpired check es))%nat = length es.
Proof.
  unfold n_expired, unexpired. induction es as [|e es IH]; [done|]. rewrite !filter_cons.
  repeat case_decide; cbn [length]; try congruence; try lia. by destruct (expired check e).
Qed.

Definition space_for (cap req : Z) check es : list Entry :=
  if req <=? cap - used es then es else drop (n_evicted cap req check es) (unexpired check es).
(** The counts [makeSpace] returns, and the entries it gives to [destructorCb]. *)
Definition space_counts (cap req : Z) check es : Z * Z :=
  if req <=? cap - used es then (0, 0)
  else (Z.of_nat (n_expired check es + n_evicted cap req check es), Z.of_nat (n_expired check es)).
Definition space_gone (cap req : Z) check es : list Entry :=
  if req <=? cap - used es then []
  else filter (λ e, expired check e = true) es ++ take (n_evicted cap req check es) (unexpired check es).

Lemma recycled_app cb es es' : recycled cb es ++ recycled cb es' = recycled cb (es ++ es').
Proof. unfold recycled. destruct cb; [by rewrite fmap_app|done]. Qed.

Lemma n_expired_0 check es : n_expired check es = 0%nat → unexpired check es = es.
Proof.
  unfold n_expired, unexpired. induction es as [|e es IH]; [done|]. rewrite !filter_cons.
  destruct (expired check e); [rewrite decide_True by done; done|rewrite decide_False, decide_True by done].
  intros H. by rewrite IH.
Qed.

Lemma makeSpace_aux b es size check cb : bucket_rep b es → 0 ≤ size → 4 + size ≤ capacity_ (storage_ b) →
  let cap := capacity_ (storage_ b) in
  ∃ b', makeSpace size check cb b = Ok (space_counts cap (4 + size) check es,
      recycled cb (space_gone cap (4 + size) check es), b') ∧
    bucket_rep b' (space_for cap (4 + size) check es) ∧ capacity_ (storage_ b') = cap.
Proof.
  intros Hrep Hsz Hle cap. subst cap. pose proof (used_bounds b es Hrep) as Hb. unfold makeSpace. cbv zeta.
  assert (slotSize size = 4 + size) as -> by (apply wrap_small; unfold fits, kAllocationOverhead; lia).
  rewrite (proj2 (Z.leb_le (4 + size) (capacity_ (storage_ b)))) by done.
  cbn [xdcheck mbind result_bind]. rewrite (remaining b es) by done.
  unfold space_counts, space_gone, space_for.
  destruct (Z.leb_spec (4 + size) (capacity_ (storage_ b) - used es)) as [Hr|Hr].
  { exists b. split; [by destruct cb|done]. }
  rewrite (itr_first Hrep). cbn [mbind result_bind].
  destruct (removeExpired_aux b es check cb Hrep) as (b1 & -> & Hb1 & Hc1). cbn [mbind result_bind].
  fold (n_expired check es) in *. fold (unexpired check es) in *. rewrite (remaining b1 _ Hb1), Hc1.
  unfold n_evicted. rewrite bool_decide_decide. set (es1 := unexpired check es) in *.
  pose proof (length_expired check es) as Hlen. fold es1 in Hlen.
  assert ((0 <? Z.of_nat (n_expired check es)) = bool_decide (0 < n_expired check es)%nat) as ->.
  { case_bool_decide; [apply Z.ltb_lt|apply Z.ltb_ge]; lia. }
  rewrite bool_decide_decide.
  destruct ((if decide (0 < n_expired check es)%nat then true else false) &&
    (4 + size <=? capacity_ (storage_ b) - used es1)) eqn:E.
  { exists b1. rewrite Nat.add_0_r, take_0, drop_0, app_nil_r. done. }
  assert (capacity_ (storage_ b) - used es1 < 4 + size) as Hneed.
  { case_decide; cbn [andb] in E; [by apply Z.leb_gt in E|]. unfold es1. rewrite n_expired_0 by lia. lia. }
  assert (0 < length es1)%nat as Hne.
  { destruct es1; [rewrite used_nil in Hneed; lia|cbn; lia]. }
  rewrite (itr_first Hb1). cbn [mbind result_bind].
  destruct (evict_loop_spec b1 es1 cb 0 (slot_fuel (storage_ b1)) (Z.of_nat (n_expired check es))
    (capacity_ (storage_ b) - used es1) (4 + size)) as (b2 & Heq & Hb2 & Hc2);
    [done|done|rewrite (fuel_len b1 es1) by done|rewrite drop_0|rewrite drop_0|..|]; [lia..|].
  rewrite Heq, drop_0. cbn [mbind result_bind]. rewrite drop_0 in Hb2. exists b2.
  rewrite recycled_app, Nat2Z.inj_add. split; [done|]. split; [done|lia].
Qed.

(** ** Insertion *)
Lemma splice_seq off X Y d d2 : splice off (X ++ Y) d = Ok d2 →
  ∃ d1, splice off X d = Ok d1 ∧ splice (off + Z.of_nat (length X)) Y d1 = Ok d2.
Proof.
  unfold splice. case_decide as H; [|done]. intros [= <-]. rewrite length_app in H.
  rewrite decide_True by lia. eexists. split; [done|].
  assert (length (take (Z.to_nat off) d) = Z.to_nat off) as Ht by (rewrite length_take; lia).
  rewrite decide_True.
  2:{ rewrite !length_app, length_drop, Ht. lia. }
  f_equal. replace (Z.to_nat (off + Z.of_nat (length X))) with (Z.to_nat off + length X)%nat by lia.
  rewrite !app_assoc.
  rewrite take_app_length' by (rewrite length_app; lia). rewrite <- !app_assoc. do 3 f_equal.
  rewrite app_assoc, <- drop_drop. rewrite drop_app_length' by (rewrite length_app; lia).
  rewrite drop_drop, length_app. f_equal. lia.
Qed.

(** [create] in a slot of the right size makes it the encoding of the entry. *)
Lemma create_aux s ps i p e : storage_rep s ps → ps !! i = Some p → length p = length (enc e) →
  ∃ s', create (alloc_at ps i) (en_hk e) (en_value e) s = Ok s' ∧ storage_rep s' (<[i := enc e]> ps) ∧
    capacity_ s' = capacity_ s.
Proof.
  intros Hrep Hi Hl. destruct (write_slot s ps i p (enc e) Hrep Hi) as (s' & Hw & Hs' & Hrep'); [done|].
  pose proof (rep_bounds _ _ Hrep) as Hb. pose proof (slots_split _ _ _ Hi) as Hsp.
  apply (f_equal length) in Hsp. rewrite !length_app, length_slot, Hl, length_enc in Hsp.
  unfold create, alloc_at. rewrite Hi. cbn [view_ alloc_of deref mbind result_bind].
  rewrite !(wrap_small 32) by (unfold fits; lia). fold (enc_head e).
  set (off := _ + kAllocationOverhead) in *. unfold enc in Hw.
  destruct (splice_seq _ _ _ _ _ Hw) as (d1 & Hd1 & Hw1). destruct (splice_seq _ _ _ _ _ Hw1) as (d2 & Hd2 & Hw2).
  rewrite length_enc_head in *. change (Z.of_nat 16) with 16 in *.
  rewrite Hd1. cbn [mbind result_bind]. rewrite Hd2. cbn [mbind result_bind]. rewrite Hw2. cbn [mbind result_bind].
  rewrite <- Hs'. eexists. split; [done|]. split; [done|]. by rewrite Hs'.
Qed.

Definition expired_of check es : list Entry := filter (λ e, expired check e = true) es.

(** What eviction gives: enough space, and no more evicted than needed. *)
Lemma space_for_spec cap req check es : req ≤ cap →
  let kept := space_for cap req check es in
  req ≤ cap - used kept ∧
  (cap - used es < req → ∃ evicted, unexpired check es = evicted ++ kept ∧
    length evicted = n_evicted cap req check es ∧
    ∀ j, (j < length evicted)%nat → cap - used (drop j (unexpired check es)) < req).
Proof.
  intros Hreq kept. subst kept. unfold space_for.
  destruct (Z.leb_spec req (cap - used es)) as [Hle|Hgt]; [split; [done|lia]|].
  set (es1 := unexpired check es). set (k := n_evicted cap req check es).
  enough ((k ≤ length es1)%nat ∧ req ≤ cap - used (drop k es1) ∧
    ∀ j, (j < k)%nat → cap - used (drop j es1) < req) as (H1 & H2 & H3).
  { split; [done|]. intros _. exists (take k es1). rewrite take_drop, length_take_le by done. done. }
  assert (∀ j, used es1 = used (take j es1) + used (drop j es1)) as Hu by (intros; rewrite <- used_app, take_drop; done).
  unfold k, n_evicted. fold es1. case_bool_decide as Hx; cbn [andb].
  1: destruct (Z.leb_spec req (cap - used es1)); [rewrite drop_0; split; [lia|split; [done|lia]]|].
  all: destruct (evict_count_spec (req - (cap - used es1)) es1) as (H1 & H2 & H3); [lia|];
    split; [done|]; split; [pose proof (Hu (evict_count (req - (cap - used es1)) es1)); lia|];
    intros [|j] Hj; [rewrite drop_0|specialize (H3 (S j) Hj ltac:(done)); pose proof (Hu (S j)); lia]; try lia.
  unfold es1. rewrite n_expired_0 by lia. done.
Qed.

Lemma insert_aux b es e check cb : bucket_rep b es → entry_ok e → slot_len e ≤ capacity_ (storage_ b) →
  let cap := capacity_ (storage_ b) in
  ∃ b', insert (en_hk e) (en_value e) check cb b =
      Ok (space_counts cap (slot_len e) check es, recycled cb (space_gone cap (slot_len e) check es), b') ∧
    bucket_rep b' (space_for cap (slot_len e) check es ++ [e]) ∧ capacity_ (storage_ b') = cap.
Proof.
  intros Hrep Hok Hle cap. subst cap. pose proof (used_bounds b es Hrep) as Hb.
  assert (slot_len e = 4 + Z.of_nat (length (enc e))) as Hsl by done. rewrite length_enc in Hsl.
  set (size := Z.of_nat (length (enc e))). unfold insert. cbv zeta.
  assert (computeSize (u32 (Z.of_nat (length (hk_key (en_hk e))))) (u32 (Z.of_nat (length (en_value e)))) = size) as ->.
  { unfold computeSize, sizeof_BucketEntry, size. rewrite length_enc.
    rewrite (wrap_small 32 (Z.of_nat _)), (wrap_small 32 (Z.of_nat (length (en_value e)))) by (unfold fits; lia).
    rewrite (wrap_small 32) by (unfold fits; lia). lia. }
  rewrite (proj2 (Z.leb_le size _)) by (unfold size; rewrite length_enc; lia). cbn [xdcheck mbind result_bind].
  destruct (makeSpace_aux b es size check cb Hrep) as (b1 & -> & Hb1 & Hc1); [unfold size; lia|exact Hle|].
  fold (slot_len e) in *. change (4 + size) with (slot_len e) in *.
  destruct (space_counts _ _ _ _) as [n m]. cbn [mbind result_bind].
  destruct (space_for_spec (capacity_ (storage_ b)) (slot_len e) check es Hle) as [Hfit _].
  set (kept := space_for _ _ _ _) in *. pose proof (allocate_spec (storage_ b1) (enc <$> kept) size (br_storage _ _ Hb1)) as Ha.
  fold (used kept) in Ha. rewrite decide_True in Ha by (unfold slot_len in Hfit; lia).
  destruct Ha as (p & s1 & -> & Hs1 & Hp & Hc2); [unfold size in *; unfold slot_len in *; lia|].
  cbn [mbind result_bind]. rewrite length_fmap in *.
  assert (((enc <$> kept) ++ [p]) !! length kept = Some p) as Hlk.
  { rewrite lookup_app_r by (by rewrite length_fmap). by rewrite length_fmap, Nat.sub_diag. }
  assert (done_ (alloc_at ((enc <$> kept) ++ [p]) (length kept)) = false) as ->
    by (unfold done_, alloc_at; rewrite Hlk; done). cbn [negb xdcheck mbind result_bind].
  destruct (create_aux s1 _ _ p e Hs1 Hlk) as (s2 & -> & Hs2 & Hc3); [unfold size in Hp; lia|].
  cbn [mbind result_bind]. eexists. split; [done|]. split; [split; cbn [storage_ with_storage]|cbn; lia].
  - rewrite insert_app_r_alt, length_fmap, Nat.sub_diag in Hs2 by (by rewrite length_fmap). by rewrite fmap_app.
  - apply Forall_app. split; [apply Hb1|by constructor].
Qed.
End operations.

(** *** The header

    No operation changes the generation time. *)
Lemma remove_generation hk cb b n evs b' : remove hk cb b = Ok (n, evs, b') → generationTime_ b' = generationTime_ b.
Proof.
  unfold remove. intros (itr & _ & Hl)%bind_Ok. revert itr Hl.
  induction (slot_fuel (storage_ b)) as [|fuel IH]; intros itr; cbn [remove_key_loop];
    (destruct (done_ itr); [by intros [= _ _ <-]|]); [done|].
  intros (e & _ & (eq & _ & Hl)%bind_Ok)%bind_Ok. destruct eq.
  - apply bind_Ok in Hl as (ev & _ & (s & _ & [= _ _ <-])%bind_Ok). done.
  - apply bind_Ok in Hl as (itr' & _ & Hl). by apply IH in Hl.
Qed.

Lemma evict_loop_generation fuel cb itr ev cur req b n evs b' :
  evict_loop fuel cb itr ev cur req b = Ok (n, evs, b') → generationTime_ b' = generationTime_ b.
Proof.
  revert itr ev cur n evs b'. induction fuel as [|fuel IH]; intros itr ev cur n evs b'; cbn [evict_loop]; [done|].
  intros (es & _ & Hl)%bind_Ok. destruct (req <=? _).
  - by apply bind_Ok in Hl as (s & _ & [= _ _ <-]).
  - apply bind_Ok in Hl as (itr' & _ & (_ & _ & ([[k rest] b1] & Hl & [= _ _ <-])%bind_Ok)%bind_Ok).
    by apply IH in Hl.
Qed.

Lemma makeSpace_generation sz check cb b n m evs b' :
  makeSpace sz check cb b = Ok (n, m, evs, b') → generationTime_ b' = generationTime_ b.
Proof.
  unfold makeSpace. intros (_ & _ & Hl)%bind_Ok. destruct (slotSize sz <=? _); [by injection Hl as _ _ _ <-|].
  apply bind_Ok in Hl as (itr & _ & ([[k ev] b1] & Hx & Hl)%bind_Ok).
  assert (generationTime_ b1 = generationTime_ b) as Hg.
  { unfold removeExpired in Hx. destruct check as [f|]; [|by injection Hx as _ _ <-].
    by apply bind_Ok in Hx as ([al el] & _ & (s & _ & [= _ _ <-])%bind_Ok). }
  destruct (_ && _); [by injection Hl as _ _ _ <-|].
  apply bind_Ok in Hl as (itr' & _ & ([[k' ev'] b2] & Hy%evict_loop_generation & [= _ _ _ <-])%bind_Ok). congruence.
Qed.

Lemma insert_generation hk value check cb b r b' :
  insert hk value check cb b = Ok (r, b') → generationTime_ b' = generationTime_ b.
Proof.
  unfold insert.
  intros (_ & _ & ([[[n m] evs] b1] & Hm%makeSpace_generation & ([al s] & _ & (_ & _ & (s' & _ & [= _ <-])%bind_Ok)%bind_Ok)%bind_Ok)%bind_Ok)%bind_Ok.
  done.
Qed.

(** ** Properties *)

(** A new bucket holds no entry. *)
Lemma initNew_rep sz gen data : 24 ≤ sz < 2 ^ 32 → Z.of_nat (length data) = sz - 24 →
  bucket_rep (initNew sz gen data) [].
Proof.
  intros Hs Hd. assert (u32 (sz - sizeof_Bucket) = sz - 24) as Hc
    by (unfold sizeof_Bucket; apply wrap_small; unfold fits; lia).
  split; [|constructor]. unfold initNew. split; cbn [storage_ BucketStorage_new data_ capacity_]; rewrite ?Hc; try done; [by exists data|lia].
Qed.

Lemma find_first_match es hk : (∀ e, e ∈ es → en_hk e ≠ hk) → first_match hk es = None.
Proof.
  intros Hn. apply list_find_None, Forall_forall. intros e He Heq. apply hk_eq_spec in Heq. by apply (Hn e He).
Qed.

Definition keys (es : list Entry) : list HashedKey := en_hk <$> es.

(** What [remove] leaves of the entries. *)
Definition without (hk : HashedKey) (es : list Entry) : list Entry :=
  match first_match hk es with Some (i, _) => delete i es | None => es end.

Lemma bucket_remove_aux b es hk cb : bucket_rep b es →
  ∃ b', remove hk cb b = Ok (match first_match hk es with
      | Some (_, e) => (1, if cb then [(en_hk e, en_value e, Removed)] else [], b')
      | None => (0, [], b') end) ∧
    bucket_rep b' (without hk es) ∧ capacity_ (storage_ b') = capacity_ (storage_ b).
Proof.
  intros Hrep. pose proof (remove_key_loop_spec b es hk cb 0 (slot_fuel (storage_ b)) Hrep) as H.
  rewrite (fuel_len b es) in H by done. specialize (H ltac:(lia)). rewrite drop_0 in H.
  unfold remove, without. rewrite (itr_first Hrep). cbn [mbind result_bind]. rewrite (fuel_len b es) by done.
  destruct (first_match hk es) as [[i e]|].
  - destruct H as (b' & H & Hb' & Hc). exists b'. by rewrite H.
  - exists b. by rewrite H.
Qed.

Lemma keys_without es hk : NoDup (keys es) → NoDup (keys (without hk es)) ∧ hk ∉ keys (without hk es).
Proof.
  intros Hnd. unfold without, first_match. destruct (list_find _ es) as [[i e]|] eqn:E.
  - apply list_find_Some in E as (Hi & He & _). apply hk_eq_spec in He. subst hk.
    rewrite <- (take_drop_middle es i e Hi) in Hnd. unfold keys in *. rewrite delete_take_drop, fmap_app.
    rewrite fmap_app, fmap_cons in Hnd. apply NoDup_app in Hnd as (H1 & H2 & [H3 H4]%NoDup_cons). split.
    + apply NoDup_app. split; [done|]. split; [|done]. intros x Hx Hx'. apply (H2 x Hx). by right.
    + rewrite elem_of_app. intros [Hx|Hx]; [apply (H2 _ Hx); by left|done].
  - apply list_find_None in E. split; [done|]. intros (e & -> & He)%list_elem_of_fmap.
    rewrite Forall_forall in E. by apply (E e He), hk_eq_spec.
Qed.

Lemma space_for_sublist cap req check es : space_for cap req check es `sublist_of` es.
Proof.
  unfold space_for. case_match; [done|]. etrans; [apply sublist_drop|]. apply sublist_filter.
Qed.

(** [find] returns the value of the first entry with the key (hash, length
    and bytes equal), and nothing when no entry has it. *)
Theorem bucket_find_spec b es hk : bucket_rep b es →
  ∃ r, find hk b = Ok r ∧
    (∀ v, r = Some v ↔ ∃ i e, es !! i = Some e ∧ en_hk e = hk ∧ en_value e = v ∧
       ∀ j e', es !! j = Some e' → (j < i)%nat → en_hk e' ≠ hk).
Proof.
  intros Hrep. rewrite (find_aux b es hk Hrep). eexists. split; [done|]. intros v. unfold first_match. split.
  - destruct (list_find _ es) as [[i e]|] eqn:E; [|done]. intros [= <-]. exists i, e.
    apply list_find_Some in E as (Hi & He & Hj). apply hk_eq_spec in He. split; [done|]. split; [done|]. split; [done|].
    intros j e' Hl Hlt Heq. apply (Hj j e' Hl Hlt). by apply hk_eq_spec.
  - intros (i & e & Hi & He & <- & Hj). rewrite (proj2 (list_find_Some _ es i e)); [done|].
    split; [done|]. split; [by apply hk_eq_spec|]. intros j y Hy Hlt Heq%hk_eq_spec. by apply (Hj j y).
Qed.

(** C37: [insert] of an entry that fits the bucket appends it.  When the free
    space is not enough it removes every expired entry and then, only if that
    still is not enough, the oldest of the others, as few as give the space;
    it returns the numbers removed and expired and reports each removed entry
    once to the destructor callback. *)
Theorem bucket_insert_spec b es e check cb : bucket_rep b es → entry_ok e →
  slot_len e ≤ capacity_ (storage_ b) →
  let free es := capacity_ (storage_ b) - used es in
  ∃ n m evs kept b', insert (en_hk e) (en_value e) check cb b = Ok (n, m, evs, b') ∧
    bucket_rep b' (kept ++ [e]) ∧ capacity_ (storage_ b') = capacity_ (storage_ b) ∧
    if slot_len e <=? free es then kept = es ∧ n = 0 ∧ m = 0 ∧ evs = []
    else ∃ evicted, unexpired check es = evicted ++ kept ∧ m = Z.of_nat (length (expired_of check es)) ∧
      n = m + Z.of_nat (length evicted) ∧ evs = recycled cb (expired_of check es ++ evicted) ∧
      ∀ j, (j < length evicted)%nat → free (drop j (unexpired check es)) < slot_len e.
Proof.
  intros Hrep Hok Hle free. subst free. cbv beta.
  destruct (insert_aux b es e check cb Hrep Hok Hle) as (b' & Heq & Hb' & Hc).
  pose proof (space_for_spec (capacity_ (storage_ b)) (slot_len e) check es Hle) as [_ Hs]. revert Hs Heq Hb'.
  unfold space_counts, space_gone, space_for.
  destruct (Z.leb_spec (slot_len e) (capacity_ (storage_ b) - used es)) as [Hf|Hf]; intros Hs Heq Hb'.
  - exists 0, 0, [], es, b'. rewrite Heq. by destruct cb.
  - destruct (Hs Hf) as (evicted & Hsplit & Hlen & Hmin). rewrite Nat2Z.inj_add in Heq.
    do 5 eexists. split; [exact Heq|]. split; [exact Hb'|]. split; [done|]. exists evicted. rewrite Hlen.
    split; [exact Hsplit|]. split; [done|]. split; [done|]. split; [|by rewrite <- Hlen].
    rewrite <- Hlen, Hsplit, take_app_length. done.
Qed.

(** [remove] deletes the first entry with the key, reports it once as
    removed and returns 1; without such an entry it returns 0 and changes
    nothing.  When keys are distinct the key is gone and the others remain. *)
Theorem bucket_remove_spec b es hk cb : bucket_rep b es → NoDup (keys es) →
  ∃ n evs b' es', remove hk cb b = Ok (n, evs, b') ∧ bucket_rep b' es' ∧ NoDup (keys es') ∧ (hk ∉ keys es') ∧
    (match first_match hk es with
    | None => n = 0 ∧ evs = [] ∧ es' = es
    | Some (i, e) => en_hk e = hk ∧ n = 1 ∧ evs = (if cb then [(hk, en_value e, Removed)] else []) ∧
        es = take i es' ++ e :: drop i es'
    end).
Proof.
  intros Hrep Hnd. destruct (bucket_remove_aux b es hk cb Hrep) as (b' & Heq & Hb' & _).
  destruct (keys_without es hk Hnd) as [H1 H2]. unfold without in *.
  destruct (first_match hk es) as [[i e]|] eqn:E.
  - do 4 eexists. split; [exact Heq|]. split; [exact Hb'|]. split; [done|]. split; [done|].
    apply list_find_Some in E as (Hi & He & _). apply hk_eq_spec in He. subst hk. split; [done|]. split; [done|].
    split; [done|]. rewrite delete_take_drop. pose proof (lookup_lt_Some _ _ _ Hi).
    rewrite take_app_length', drop_app_length' by (rewrite length_take_le; lia). symmetry. by apply take_drop_middle.
  - do 4 eexists. split; [exact Heq|]. by split.
Qed.

Lemma without_sublist es hk : without hk es `sublist_of` es.
Proof. unfold without. destruct (first_match _ es) as [[]|]; [apply sublist_delete|done]. Qed.

(** Appending an entry whose key is not there: the keys stay distinct and
    looking the key up gives the new entry. *)
Lemma append_fresh es e : NoDup (keys es) → en_hk e ∉ keys es →
  NoDup (keys (es ++ [e])) ∧ first_match (en_hk e) (es ++ [e]) = Some (length es, e).
Proof.
  intros Hnd Hn. split.
  - unfold keys. rewrite fmap_app. apply NoDup_app. split; [done|]. split; [|apply NoDup_singleton].
    by intros hk Hk ->%list_elem_of_singleton.
  - apply list_find_Some. split; [by rewrite lookup_app_r, Nat.sub_diag|]. split; [by apply hk_eq_spec|].
    intros j y Hy Hlt Heq%hk_eq_spec. rewrite lookup_app_l in Hy by done. apply Hn. rewrite Heq.
    by apply list_elem_of_fmap_2, list_elem_of_lookup_2 with j.
Qed.

(** Removing a key and inserting it again, as the user of a bucket must,
    makes [find] return the new value, keeps the keys of the bucket distinct,
    and any other key found afterwards has the value it had before. *)
Theorem bucket_upsert_find b es e check cb cb' : bucket_rep b es → NoDup (keys es) → entry_ok e →
  slot_len e ≤ capacity_ (storage_ b) →
  ∃ n evs b1 r b2 es', remove (en_hk e) cb b = Ok (n, evs, b1) ∧
    insert (en_hk e) (en_value e) check cb' b1 = Ok (r, b2) ∧
    bucket_rep b2 es' ∧ NoDup (keys es') ∧ find (en_hk e) b2 = Ok (Some (en_value e)) ∧
    ∀ e', en_hk e' ≠ en_hk e → e' ∈ es' → e' ∈ es.
Proof.
  intros Hrep Hnd Hok Hle. destruct (bucket_remove_aux b es (en_hk e) cb Hrep) as (b1 & Heq & Hb1 & Hc1).
  destruct (keys_without es (en_hk e) Hnd) as [H1 H2].
  destruct (insert_aux b1 _ e check cb' Hb1 Hok) as (b2 & Hins & Hb2 & Hc2); [by rewrite Hc1|].
  set (kept := space_for _ _ _ _) in *.
  assert (kept `sublist_of` without (en_hk e) es) as Hsub by apply space_for_sublist.
  assert (keys kept `sublist_of` keys (without (en_hk e) es)) as Hks by by apply (fmap_sublist en_hk).
  destruct (append_fresh kept e) as [Hnd' Hfm];
    [by apply (sublist_NoDup _ _ H1)|by intros Hx; apply H2, (elem_of_sublist _ _ _ Hx)|].
  destruct (first_match (en_hk e) es) as [[]|]; do 3 eexists; eexists _, b2, (kept ++ [e]);
    (split; [exact Heq|]; split; [exact Hins|]); clear Heq Hins.
  all: split; [done|]; split; [done|]; split; [by rewrite (find_aux b2 _ (en_hk e) Hb2), Hfm|].
  all: intros e' Hne; rewrite elem_of_app, list_elem_of_singleton; intros [He'| ->]; [|done].
  all: apply (elem_of_sublist _ _ _ He'); etrans; [exact Hsub|apply without_sublist].
Qed.

(** ** A concrete bucket *)
Definition ex_entry (k v : Z) : Entry := mkEntry (mkHashedKey [k] (k * 1000)) [v; v].
Definition ex_entries : list Entry := [ex_entry 1 10; ex_entry 2 20; ex_entry 3 30].
Definition ex_bucket : Bucket :=
  mkBucket 0 7 (mkBucketStorage 76 3 69 (slots (enc <$> ex_entries) ++ repeat 0 7)).

Lemma ex_bucket_rep : bucket_rep ex_bucket ex_entries.
Proof.
  split; [split; [by exists (repeat 0 7)|done..]|]. repeat constructor; unfold entry_ok, fits; cbn; lia.
Qed.

(** The key [getRandomAlloc] returns runs on past the key's bytes: keys are not
    NUL-terminated in a bucket, so here the value of the entry and the size
    field of the next slot follow it. *)
Lemma getRandomAlloc_key_overruns : ∃ k v,
  getRandomAlloc 0 ex_bucket = Ok (Some (k, v)) ∧ ex_entries !! 0%nat = Some (ex_entry 1 10) ∧
  v = en_value (ex_entry 1 10) ∧ k = hk_key (en_hk (ex_entry 1 10)) ++ [10; 10; 19] ∧
  find (mkHashedKey k 1000) ex_bucket = Ok None.
Proof. eexists _, _. split; [vm_compute; reflexivity|]. by vm_compute. Qed.

Lemma bucket_find_spec_witness : find (mkHashedKey [2] 2000) ex_bucket = Ok (Some [20; 20]) ∧
  ∃ r, find (mkHashedKey [2] 2000) ex_bucket = Ok r ∧
    (∀ v, r = Some v ↔ ∃ i e, ex_entries !! i = Some e ∧ en_hk e = mkHashedKey [2] 2000 ∧ en_value e = v ∧
       ∀ j e', ex_entries !! j = Some e' → (j < i)%nat → en_hk e' ≠ mkHashedKey [2] 2000).
Proof. split; [reflexivity|]. apply (bucket_find_spec ex_bucket ex_entries), ex_bucket_rep. Defined.

(** The second entry is expired; dropping it alone makes room. *)
Definition ex_check (v : list Z) : bool := bool_decide (v = [20; 20]).
Lemma bucket_insert_spec_witness :
  let e := ex_entry 4 40 in
  fst <$> insert (en_hk e) (en_value e) (Some ex_check) true ex_bucket
    = Ok (1, 1, [(mkHashedKey [2] 2000, [20; 20], Recycled)]) ∧
  fst <$> insert (en_hk e) (en_value e) None true ex_bucket
    = Ok (1, 0, [(mkHashedKey [1] 1000, [10; 10], Recycled)]) ∧
  ∃ n m evs kept b', insert (en_hk e) (en_value e) None true ex_bucket = Ok (n, m, evs, b') ∧
    bucket_rep b' (kept ++ [e]) ∧ capacity_ (storage_ b') = 76 ∧
    ∃ evicted, unexpired None ex_entries = evicted ++ kept ∧ m = Z.of_nat (length (expired_of None ex_entries)) ∧
      n = m + Z.of_nat (length evicted) ∧ evs = recycled true (expired_of None ex_entries ++ evicted) ∧
      ∀ j, (j < length evicted)%nat → 76 - used (drop j (unexpired None ex_entries)) < slot_len e.
Proof.
  split; [vm_compute; reflexivity|]. split; [vm_compute; reflexivity|].
  apply (bucket_insert_spec ex_bucket ex_entries (ex_entry 4 40) None true ex_bucket_rep);
    [unfold entry_ok, fits; cbn; lia|vm_compute; discriminate].
Defined.

Lemma bucket_remove_spec_witness :
  fst <$> remove (mkHashedKey [2] 2000) true ex_bucket = Ok (1, [(mkHashedKey [2] 2000, [20; 20], Removed)]) ∧
  ∃ n evs b' es', remove (mkHashedKey [2] 2000) true ex_bucket = Ok (n, evs, b') ∧ bucket_rep b' es' ∧
    NoDup (keys es') ∧ (mkHashedKey [2] 2000 ∉ keys es') ∧
    (match first_match (mkHashedKey [2] 2000) ex_entries with
    | None => n = 0 ∧ evs = [] ∧ es' = ex_entries
    | Some (i, e) => en_hk e = mkHashedKey [2] 2000 ∧ n = 1 ∧ evs = [(mkHashedKey [2] 2000, en_value e, Removed)] ∧
        ex_entries = take i es' ++ e :: drop i es'
    end).
Proof.
  split; [vm_compute; reflexivity|].
  apply (bucket_remove_spec ex_bucket ex_entries (mkHashedKey [2] 2000) true ex_bucket_rep).
  repeat constructor; cbn; rewrite ?elem_of_cons; set_solver.
Defined.

Lemma bucket_upsert_find_witness :
  let e := mkEntry (mkHashedKey [2] 2000) [77] in
  ∃ n evs b1 r b2 es', remove (en_hk e) true ex_bucket = Ok (n, evs, b1) ∧
    insert (en_hk e) (en_value e) None true b1 = Ok (r, b2) ∧
    bucket_rep b2 es' ∧ NoDup (keys es') ∧ find (en_hk e) b2 = Ok (Some [77]) ∧
    ∀ e', en_hk e' ≠ en_hk e → e' ∈ es' → e' ∈ ex_entries.
Proof.
  apply (bucket_upsert_find ex_bucket ex_entries (mkEntry (mkHashedKey [2] 2000) [77]) None true true ex_bucket_rep);
    [repeat constructor; cbn; rewrite ?elem_of_cons; set_solver|unfold entry_ok, fits; cbn; lia|vm_compute; discriminate].
Defined.
