(* ===== verification/Device.v ===== *)
(** Navy's block device ([navy/common/Device.h], [Device.cpp]).

    [Device] is the base class: it checks ranges and alignment, encrypts,
    splits requests into pieces the device accepts and counts bytes and
    errors.  Its virtual functions are the class [DeviceImpl]; what a client
    may rely on is [DeviceImplLaws], which [MemoryDevice] satisfies.
    The encryptor is a parameter.  Latency statistics and the addresses of
    the buffers in memory are left out. *)
From S2P Require Import Prelude BucketStorage.

(** ** Implementations *)

(** [writeImpl] returns whether it succeeded, [readImpl] the bytes read. *)
Class DeviceImpl (B : Type) := {
  writeImpl : Z → list Z → B → result (bool * B);
  readImpl : Z → Z → B → result (option (list Z) * B);
}.

(** The [n] bytes of [l] from [off]. *)
Definition region (off n : Z) (l : list Z) : list Z := take (Z.to_nat n) (drop (Z.to_nat off) l).
(** Outside the [n] bytes from [off]. *)
Definition outside (off n : Z) (i : nat) : Prop := Z.of_nat i < off ∨ off + n ≤ Z.of_nat i.

(** A device holds [raw] bytes.  Requests inside it return; they may fail, and
    a failed write may have damaged its own range. *)
Class DeviceImplLaws (B : Type) `{DeviceImpl B} := {
  raw : B → list Z;
  writeImpl_spec off bs b : 0 ≤ off → off + Z.of_nat (length bs) ≤ Z.of_nat (length (raw b)) →
    ∃ ok b', writeImpl off bs b = Ok (ok, b') ∧ length (raw b') = length (raw b) ∧
      (∀ i, outside off (Z.of_nat (length bs)) i → raw b' !! i = raw b !! i) ∧
      (ok = true → region off (Z.of_nat (length bs)) (raw b') = bs);
  readImpl_spec off n b : 0 ≤ off → 0 ≤ n → off + n ≤ Z.of_nat (length (raw b)) →
    ∃ r b', readImpl off n b = Ok (r, b') ∧ raw b' = raw b ∧ ∀ bs, r = Some bs → bs = region off n (raw b);
}.

(** [DeviceEncryptor]: in-place encryption with a salt, which may fail. *)
Record Encryptor := mkEncryptor {
  encryptionBlockSize : Z;
  encrypt : list Z → Z → option (list Z);
  decrypt : list Z → Z → option (list Z);
}.

Record Device (B : Type) := mkDevice {
  size_ : Z;
  ioAlignmentSize_ : Z;
  maxIOSize_ : Z;
  maxWriteSize_ : Z;
  encryptor_ : option Encryptor;
  bytesWritten_ : Z;
  bytesRead_ : Z;
  writeIOErrors_ : Z;
  readIOErrors_ : Z;
  encryptionErrors_ : Z;
  decryptionErrors_ : Z;
  impl_ : B;
}.
Arguments mkDevice {B}.
Arguments size_ {B}. Arguments ioAlignmentSize_ {B}. Arguments maxIOSize_ {B}. Arguments maxWriteSize_ {B}.
Arguments encryptor_ {B}. Arguments bytesWritten_ {B}. Arguments bytesRead_ {B}. Arguments writeIOErrors_ {B}.
Arguments readIOErrors_ {B}. Arguments encryptionErrors_ {B}. Arguments decryptionErrors_ {B}. Arguments impl_ {B}.

(** [folly::isPowTwo] and [powTwoAlign] of [navy/common/Utils.h]. *)
Definition isPowTwo (v : Z) : bool := negb (v =? 0) && (Z.land v (v - 1) =? 0).
Definition powTwoAlign (size boundary : Z) : result Z :=
  _ ← xdcheck (isPowTwo boundary);
  Ok (Z.land (u64 (size + (boundary - 1))) (uint_max 64 - (boundary - 1))).

Section device.
Context {B : Type} `{DeviceImpl B}.
Implicit Types (d : Device B) (b : B).

Definition with_impl b d : Device B :=
  mkDevice (size_ d) (ioAlignmentSize_ d) (maxIOSize_ d) (maxWriteSize_ d) (encryptor_ d) (bytesWritten_ d)
    (bytesRead_ d) (writeIOErrors_ d) (readIOErrors_ d) (encryptionErrors_ d) (decryptionErrors_ d) b.
(** Add to the counters. *)
Definition count (written read werr rerr eerr derr : Z) d : Device B :=
  mkDevice (size_ d) (ioAlignmentSize_ d) (maxIOSize_ d) (maxWriteSize_ d) (encryptor_ d)
    (u64 (bytesWritten_ d + written)) (u64 (bytesRead_ d + read)) (u64 (writeIOErrors_ d + werr))
    (u64 (readIOErrors_ d + rerr)) (u64 (encryptionErrors_ d + eerr)) (u64 (decryptionErrors_ d + derr)) (impl_ d).

Definition Device_new (size : Z) (encryptor : option Encryptor) (ioAlignSize maxIOSize maxWriteSize : Z) (b : B)
    : result (Device B) :=
  _ ← throw_if (ioAlignSize =? 0) InvalidArgument;
  _ ← throw_if (match encryptor with
                | Some e => negb (encryptionBlockSize e =? ioAlignSize) | None => false end) InvalidArgument;
  _ ← throw_if (negb (maxWriteSize mod ioAlignSize =? 0)) InvalidArgument;
  _ ← throw_if (negb (maxIOSize mod ioAlignSize =? 0)) InvalidArgument;
  Ok (mkDevice size ioAlignSize maxIOSize maxWriteSize encryptor 0 0 0 0 0 0 b).

Definition getIOAlignedSize (size : Z) d : result Z := powTwoAlign size (ioAlignmentSize_ d).
(** The size of the buffer [makeIOBuffer] returns. *)
Definition makeIOBuffer (size : Z) d : result Z := getIOAlignedSize size d.

(** The loop of [writeInternal]; each turn writes at least a byte. *)
Fixpoint writeInternal_loop (fuel : nat) (maxWriteSize offset : Z) (data : list Z) d : result (bool * Device B) :=
  let remainingSize := Z.of_nat (length data) in
  if 0 <? remainingSize then
    match fuel with
    | O => Undef
    | S fuel =>
        let writeSize := Z.min maxWriteSize remainingSize in
        _ ← xdcheck (offset mod ioAlignmentSize_ d =? 0);
        _ ← xdcheck (writeSize mod ioAlignmentSize_ d =? 0);
        '(result, b) ← writeImpl offset (take (Z.to_nat (u32 writeSize)) data) (impl_ d);
        let d := with_impl b d in
        if result : bool then
          writeInternal_loop fuel maxWriteSize (u64 (offset + writeSize)) (drop (Z.to_nat writeSize) data)
            (count writeSize 0 0 0 0 0 d)
        else Ok (false, d)
    end
  else Ok (true, d).
Definition writeInternal (offset : Z) (data : list Z) d : result (bool * Device B) :=
  let size := Z.of_nat (length data) in
  let maxWriteSize := if maxWriteSize_ d =? 0 then size else maxWriteSize_ d in
  '(result, d) ← writeInternal_loop (length data) maxWriteSize offset data d;
  Ok (result, if result : bool then d else count 0 0 1 0 0 0 d).

(** [write] of a [Buffer]. *)
Definition write (offset : Z) (buffer : list Z) d : result (bool * Device B) :=
  _ ← xdcheck (u64 (offset + Z.of_nat (length buffer)) <=? size_ d);
  match encryptor_ d with
  | None => writeInternal offset buffer d
  | Some e =>
      _ ← xdcheck (offset mod encryptionBlockSize e =? 0);
      match encrypt e buffer offset with
      | None => Ok (false, count 0 0 0 0 1 0 d)
      | Some data => writeInternal offset data d
      end
  end.

(** [write] of a [BufferView]: with an encryptor the view is copied to an
    aligned buffer first, whose further bytes are whatever memory held
    ([junk]). *)
Definition write_view (junk : list Z) (offset : Z) (view : list Z) d : result (bool * Device B) :=
  match encryptor_ d with
  | Some _ =>
      bufSize ← makeIOBuffer (Z.of_nat (length view)) d;
      _ ← xdcheck (Z.of_nat (length view) <=? bufSize);
      write offset (view ++ take (Z.to_nat bufSize - length view) junk) d
  | None =>
      _ ← xdcheck (u64 (offset + Z.of_nat (length view)) <=? size_ d);
      writeInternal offset view d
  end.

(** The loop of [readInternal]: the bytes read from [curOffset] on. *)
Fixpoint readInternal_loop (fuel : nat) (maxReadSize size curOffset remainingSize : Z) d
    : result (option (list Z) * Device B) :=
  if 0 <? remainingSize then
    match fuel with
    | O => Undef
    | S fuel =>
        let readSize := Z.min maxReadSize remainingSize in
        _ ← xdcheck (curOffset mod ioAlignmentSize_ d =? 0);
        _ ← xdcheck (size mod ioAlignmentSize_ d =? 0);
        '(result, b) ← readImpl curOffset (u32 readSize) (impl_ d);
        let d := with_impl b d in
        match result with
        | None => Ok (None, count 0 0 0 1 0 0 d)
        | Some bs =>
            '(rest, d) ← readInternal_loop fuel maxReadSize size (u64 (curOffset + readSize))
                           (u32 (remainingSize - readSize)) (count 0 readSize 0 0 0 0 d);
            Ok (option_map (app bs) rest, d)
        end
    end
  else Ok (Some [], d).
Definition readInternal (offset size : Z) d : result (option (list Z) * Device B) :=
  _ ← xdcheck (u64 (offset + size) <=? size_ d);
  let maxReadSize := if maxIOSize_ d =? 0 then size else maxIOSize_ d in
  '(r, d) ← readInternal_loop (Z.to_nat size) maxReadSize size offset size d;
  match r, encryptor_ d with
  | Some value, Some e =>
      _ ← xdcheck (offset mod encryptionBlockSize e =? 0);
      match decrypt e value offset with
      | None => Ok (None, count 0 0 0 0 0 1 d)
      | Some value => Ok (Some value, d)
      end
  | r, _ => Ok (r, d)
  end.
(** [read] into memory of the caller. *)
Definition read (offset size : Z) d : result (option (list Z) * Device B) := readInternal offset size d.

(** [read] returning a [Buffer]: any offset and size. *)
Definition read_buffer (offset size : Z) d : result (option (list Z) * Device B) :=
  _ ← xdcheck (u64 (offset + size) <=? size_ d);
  let readOffset := Z.land offset (uint_max 64 - (ioAlignmentSize_ d - 1)) in
  let readPrefixSize := Z.land offset (ioAlignmentSize_ d - 1) in
  readSize ← getIOAlignedSize (readPrefixSize + size) d;
  readSize ← makeIOBuffer readSize d;
  '(r, d) ← readInternal readOffset (u32 readSize) d;
  Ok (option_map (region readPrefixSize size) r, d).
End device.

(** ** Memory device *)
Record MemoryDevice := mkMemoryDevice { buffer_ : list Z }.
Definition mem_writeImpl (offset : Z) (value : list Z) (m : MemoryDevice) : result (bool * MemoryDevice) :=
  _ ← xdcheck (u64 (offset + Z.of_nat (length value)) <=? Z.of_nat (length (buffer_ m)));
  buf ← splice offset value (buffer_ m);
  Ok (true, mkMemoryDevice buf).
Definition mem_readImpl (offset size : Z) (m : MemoryDevice) : result (option (list Z) * MemoryDevice) :=
  _ ← xdcheck (u64 (offset + size) <=? Z.of_nat (length (buffer_ m)));
  value ← slice offset size (buffer_ m);
  Ok (Some value, m).
#[global] Instance MemoryDevice_impl : DeviceImpl MemoryDevice :=
  {| writeImpl := mem_writeImpl; readImpl := mem_readImpl |}.
Definition MemoryDevice_new (size : Z) (encryptor : option Encryptor) (ioAlignSize : Z)
    : result (Device MemoryDevice) :=
  Device_new size encryptor ioAlignSize 0 0 (mkMemoryDevice (replicate (Z.to_nat size) 0)).

(** ** Regions *)
Section regions.
Implicit Types (off n : Z) (l : list Z).

Lemma region_lookup off n l i : 0 ≤ off → Z.of_nat i < n → region off n l !! i = l !! (Z.to_nat off + i)%nat.
Proof. intros. unfold region. rewrite lookup_take_lt, lookup_drop by lia. done. Qed.
Lemma region_length off n l : 0 ≤ off → 0 ≤ n → off + n ≤ Z.of_nat (length l) → Z.of_nat (length (region off n l)) = n.
Proof. intros. unfold region. rewrite length_take, length_drop. lia. Qed.
(** A region depends only on its own bytes. *)
Lemma region_ext off n l l' : 0 ≤ off →
  (∀ i, off ≤ Z.of_nat i < off + n → l !! i = l' !! i) → region off n l = region off n l'.
Proof.
  intros Ho Heq. apply list_eq. intros i. destruct (decide (Z.of_nat i < n)).
  - rewrite !region_lookup by done. apply Heq. lia.
  - unfold region. rewrite !lookup_take_ge by lia. done.
Qed.
Lemma region_app off n m l : 0 ≤ off → 0 ≤ n → 0 ≤ m →
  region off (n + m) l = region off n l ++ region (off + n) m l.
Proof.
  intros. unfold region. rewrite (Z2Nat.inj_add n m), (Z2Nat.inj_add off n), <- drop_drop, take_take_drop by done.
  done.
Qed.
Lemma region_all l : region 0 (Z.of_nat (length l)) l = l.
Proof. unfold region. rewrite Nat2Z.id, drop_0. by apply take_ge. Qed.
Lemma region_region off n off' n' l : 0 ≤ off → 0 ≤ off' → 0 ≤ n' → off' + n' ≤ n →
  region off' n' (region off n l) = region (off + off') n' l.
Proof.
  intros. apply list_eq. intros i. destruct (decide (Z.of_nat i < n')).
  - rewrite !region_lookup by lia. f_equal. lia.
  - unfold region. rewrite !lookup_take_ge by lia. done.
Qed.
End regions.

Lemma splice_region off bs l : 0 ≤ off → off + Z.of_nat (length bs) ≤ Z.of_nat (length l) →
  ∃ l', splice off bs l = Ok l' ∧ length l' = length l ∧
    (∀ i, outside off (Z.of_nat (length bs)) i → l' !! i = l !! i) ∧ region off (Z.of_nat (length bs)) l' = bs.
Proof.
  intros Ho Hle. unfold splice. rewrite decide_True by done. eexists. split; [done|].
  assert (length (take (Z.to_nat off) l) = Z.to_nat off) as Ht by (rewrite length_take; lia).
  split; [rewrite !length_app, length_drop; lia|]. split.
  - intros i [Hi|Hi].
    + rewrite lookup_app_l, lookup_take_lt by lia. done.
    + rewrite !lookup_app_r, lookup_drop, Ht by lia. f_equal. lia.
  - unfold region. rewrite drop_app_length' by done. rewrite Nat2Z.id. by apply take_app_length.
Qed.

Lemma u64_le x n : 0 ≤ x ≤ n → (u64 x <=? n) = true.
Proof. intros. apply Z.leb_le. unfold wrap. pose proof (Z.mod_le x (2 ^ 64)). lia. Qed.

#[global, refine] Instance MemoryDevice_laws : DeviceImplLaws MemoryDevice := {| raw := buffer_ |}.
Proof.
  - intros off bs m Ho Hle. cbn [writeImpl MemoryDevice_impl]. unfold mem_writeImpl. rewrite u64_le by lia. res_simpl.
    destruct (splice_region off bs (buffer_ m) Ho Hle) as (l' & -> & Hl & Hout & Hr). res_simpl.
    by exists true, (mkMemoryDevice l').
  - intros off n m Ho Hn Hle. cbn [readImpl MemoryDevice_impl]. unfold mem_readImpl, slice. rewrite u64_le by lia.
    rewrite decide_True by done. res_simpl. eexists _, m. split; [done|]. split; [done|]. by intros bs [= <-].
Defined.

(** ** Requests *)
Section requests.
Context {B : Type} `{DeviceImplLaws B}.
Implicit Types (d : Device B) (bs : list Z).

(** Encryption preserves sizes and can be undone with the same salt. *)
Definition encryptor_ok (e : Encryptor) : Prop :=
  (∀ v salt c, encrypt e v salt = Some c → length c = length v ∧ decrypt e c salt = Some v) ∧
  (∀ c salt v, decrypt e c salt = Some v → length v = length c).

Record device_ok d : Prop := {
  dev_size : Z.of_nat (length (raw (impl_ d))) = size_ d;
  dev_size_fits : size_ d < 2 ^ 64;
  dev_align : ∃ k, 0 ≤ k < 32 ∧ ioAlignmentSize_ d = 2 ^ k;
  dev_maxIO : 0 ≤ maxIOSize_ d ∧ (ioAlignmentSize_ d | maxIOSize_ d);
  dev_maxWrite : 0 ≤ maxWriteSize_ d ∧ (ioAlignmentSize_ d | maxWriteSize_ d);
  dev_encryptor : ∀ e, encryptor_ d = Some e → encryptionBlockSize e = ioAlignmentSize_ d ∧ encryptor_ok e;
}.

(** Everything but the bytes and the counters. *)
Definition same_config d d' : Prop :=
  size_ d' = size_ d ∧ ioAlignmentSize_ d' = ioAlignmentSize_ d ∧ maxIOSize_ d' = maxIOSize_ d ∧
  maxWriteSize_ d' = maxWriteSize_ d ∧ encryptor_ d' = encryptor_ d.
(** After writing [n] bytes at [off]. *)
Definition only_changed off n d d' : Prop :=
  same_config d d' ∧ length (raw (impl_ d')) = length (raw (impl_ d)) ∧
  ∀ i, outside off n i → raw (impl_ d') !! i = raw (impl_ d) !! i.

Lemma same_config_trans d1 d2 d3 : same_config d1 d2 → same_config d2 d3 → same_config d1 d3.
Proof. unfold same_config. intuition congruence. Qed.
Lemma same_config_ok d d' : device_ok d → same_config d d' → length (raw (impl_ d')) = length (raw (impl_ d)) → device_ok d'.
Proof. intros [] (E1 & E2 & E3 & E4 & E5) Hl. split; rewrite ?E1, ?E2, ?E3, ?E4, ?E5, ?Hl; done. Qed.

Lemma mod_divide a b : 0 < b → (b | a) → (a mod b =? 0) = true.
Proof. intros ? Hd. apply Z.eqb_eq, Z.mod_divide; [lia|done]. Qed.
Lemma align_pos d : device_ok d → 0 < ioAlignmentSize_ d.
Proof. intros Hd. destruct (dev_align d Hd) as (k & ? & ->). lia. Qed.

Lemma divide_min a x y : (a | x) → (a | y) → (a | Z.min x y).
Proof. intros. destruct (Z.min_spec x y) as [[_ ->]|[_ ->]]; done. Qed.

Lemma writeInternal_loop_spec fuel max off bs d : device_ok d → 0 ≤ off → 0 < max →
  off + Z.of_nat (length bs) ≤ size_ d → Z.of_nat (length bs) < 2 ^ 32 → (length bs ≤ fuel)%nat →
  (ioAlignmentSize_ d | off) → (ioAlignmentSize_ d | max) → (ioAlignmentSize_ d | Z.of_nat (length bs)) →
  ∃ r d', writeInternal_loop fuel max off bs d = Ok (r, d') ∧ only_changed off (Z.of_nat (length bs)) d d' ∧
    (r = true → region off (Z.of_nat (length bs)) (raw (impl_ d')) = bs).
Proof.
  revert off bs d. induction fuel as [|fuel IH]; intros off bs d Hok Ho Hmax Hle Hfit Hf Ha1 Ha2 Ha3;
    cbn [writeInternal_loop]; (destruct (Z.ltb_spec 0 (Z.of_nat (length bs))) as [Hpos|Hz];
    [|destruct bs; [|cbn in Hz; lia]; exists true, d; done]); [lia|].
  pose proof (align_pos d Hok) as Hal. set (ws := Z.min max (Z.of_nat (length bs))).
  assert (ioAlignmentSize_ d | ws) as Haw by by apply divide_min.
  assert (0 < ws ≤ Z.of_nat (length bs)) as Hws by (unfold ws; lia).
  rewrite !mod_divide by done. res_simpl. rewrite (wrap_small 32 ws) by (unfold fits; lia).
  set (c := take (Z.to_nat ws) bs). assert (Z.of_nat (length c) = ws) as Hc by (unfold c; rewrite length_take; lia).
  pose proof (dev_size d Hok) as Hsz. pose proof (dev_size_fits d Hok).
  destruct (writeImpl_spec off c (impl_ d)) as (ok & b & -> & Hlen & Hout & Hreg); [lia..|]. res_simpl.
  rewrite Hc in *. destruct ok.
  2:{ exists false, (with_impl b d). split; [done|]. split; [|done]. split; [done|]. split; [done|].
      intros i Hi. apply Hout. unfold outside in *. lia. }
  set (d1 := count _ _ _ _ _ _ _). assert (same_config d d1) as Hs1 by done.
  assert (device_ok d1) as Hok1 by (by apply (same_config_ok d)).
  rewrite (wrap_small 64) by (unfold fits; lia). set (rest := drop (Z.to_nat ws) bs).
  assert (Z.of_nat (length rest) = Z.of_nat (length bs) - ws) as Hr by (unfold rest; rewrite length_drop; lia).
  destruct (IH (off + ws) rest d1) as (r & d' & -> & (Hs & Hl & Ho') & Hr');
    [done|lia|done|change (size_ d1) with (size_ d); lia|lia|lia|by apply Z.divide_add_r|done|
     rewrite Hr; by apply Z.divide_sub_r|].
  exists r, d'. split; [done|]. split.
  - split; [by eapply same_config_trans|]. split; [by rewrite Hl|]. intros i Hi. rewrite Ho', Hout; [done|..];
      unfold outside in *; lia.
  - intros ->. specialize (Hr' eq_refl).
    replace (Z.of_nat (length bs)) with (ws + Z.of_nat (length rest)) by lia. rewrite region_app, Hr' by lia.
    rewrite (region_ext off ws _ (raw b)), Hreg by (done || intros i Hi; apply Ho'; unfold outside; lia).
    apply take_drop.
Qed.

Lemma readInternal_loop_spec fuel max size off n d : device_ok d → 0 ≤ off → 0 < max → 0 ≤ n →
  off + n ≤ size_ d → n < 2 ^ 32 → n ≤ Z.of_nat fuel →
  (ioAlignmentSize_ d | off) → (ioAlignmentSize_ d | max) → (ioAlignmentSize_ d | n) → (ioAlignmentSize_ d | size) →
  ∃ r d', readInternal_loop fuel max size off n d = Ok (r, d') ∧ same_config d d' ∧
    raw (impl_ d') = raw (impl_ d) ∧ ∀ bs, r = Some bs → bs = region off n (raw (impl_ d)).
Proof.
  revert off n d. induction fuel as [|fuel IH]; intros off n d Hok Ho Hmax Hn Hle Hfit Hf Ha1 Ha2 Ha3 Ha4;
    cbn [readInternal_loop]; (destruct (Z.ltb_spec 0 n) as [Hpos|Hz];
    [|assert (n = 0) as -> by lia; exists (Some []), d; split_and!; [done..|by intros bs [= <-]]]); [lia|].
  pose proof (align_pos d Hok) as Hal. set (rs := Z.min max n).
  assert (ioAlignmentSize_ d | rs) as Har by by apply divide_min.
  assert (0 < rs ≤ n) as Hrs by (unfold rs; lia).
  rewrite !mod_divide by done. res_simpl. rewrite (wrap_small 32 rs) by (unfold fits; lia).
  pose proof (dev_size d Hok) as Hsz. pose proof (dev_size_fits d Hok).
  destruct (readImpl_spec off rs (impl_ d)) as (r & b & -> & Hraw & Hreg); [lia..|]. res_simpl.
  destruct r as [bs|].
  2:{ eexists None, _. split; [done|]. split; [done|]. by split. }
  set (d1 := count _ _ _ _ _ _ _). assert (same_config d d1) as Hs1 by done.
  assert (raw (impl_ d1) = raw (impl_ d)) as Hr1 by done.
  assert (device_ok d1) as Hok1 by (apply (same_config_ok d); [done..|by rewrite Hr1]).
  rewrite (wrap_small 64), (wrap_small 32) by (unfold fits; lia).
  destruct (IH (off + rs) (n - rs) d1) as (r & d' & -> & Hs & Hr & Hrr);
    [done|lia|done|lia|change (size_ d1) with (size_ d); lia|lia|lia|by apply Z.divide_add_r|done|
     by apply Z.divide_sub_r|done|].
  res_simpl. eexists _, d'. split; [done|]. split; [done|]. split; [by rewrite Hr, Hr1|].
  destruct r as [rest|]; [|done]. intros ? [= <-]. rewrite (Hreg _ eq_refl), (Hrr _ eq_refl), Hr1.
  rewrite <- region_app by lia. f_equal. lia.
Qed.

(** What a successful [read] of [n] bytes at [off] returns; nothing when the
    bytes there do not decrypt. *)
Definition peek d off n : option (list Z) :=
  match encryptor_ d with
  | None => Some (region off n (raw (impl_ d)))
  | Some e => decrypt e (region off n (raw (impl_ d))) off
  end.
(** A request the device accepts. *)
Definition request_ok off n d : Prop :=
  0 ≤ off ∧ 0 ≤ n < 2 ^ 32 ∧ off + n ≤ size_ d ∧ (ioAlignmentSize_ d | off) ∧ (ioAlignmentSize_ d | n).

Lemma read_aux off n d : device_ok d → request_ok off n d →
  ∃ r d', read off n d = Ok (r, d') ∧ same_config d d' ∧ raw (impl_ d') = raw (impl_ d) ∧
    ∀ bs, r = Some bs → peek d off n = Some bs.
Proof.
  intros Hok (Ho & Hn & Hle & Ha1 & Ha2). unfold read, readInternal. rewrite u64_le by lia. res_simpl.
  destruct (dev_maxIO d Hok) as [Hm1 Hm2]. set (max := if _ : bool then n else _).
  assert (∃ r d', readInternal_loop (Z.to_nat n) max n off n d = Ok (r, d') ∧ same_config d d' ∧
    raw (impl_ d') = raw (impl_ d) ∧ ∀ bs, r = Some bs → bs = region off n (raw (impl_ d)))
    as (r & d' & -> & Hs & Hr & Hrr).
  { destruct (decide (n = 0)) as [->|Hne]; [exists (Some []), d; split_and!; [done..|by intros bs [= <-]]|].
    apply readInternal_loop_spec; try done; unfold max; destruct (Z.eqb_spec (maxIOSize_ d) 0); done || lia. }
  res_simpl. unfold peek. pose proof Hs as (_ & _ & _ & _ & He). rewrite He.
  destruct r as [bs|]; [|by exists None, d']. rewrite <- (Hrr bs eq_refl).
  destruct (encryptor_ d) as [e|] eqn:E.
  - destruct (dev_encryptor d Hok e E) as [-> _]. rewrite mod_divide by (done || by apply align_pos). res_simpl.
    destruct (decrypt e bs off) as [v|]; eexists _, _; (split; [done|]; split; [done|]; split; [done|]);
      [by intros ? [= <-]|done].
  - eexists _, _. split; [done|]. split; [done|]. split; [done|]. by intros ? [= <-].
Qed.

Lemma peek_length off n bs d : device_ok d → 0 ≤ off → 0 ≤ n → off + n ≤ size_ d → peek d off n = Some bs →
  Z.of_nat (length bs) = n.
Proof.
  intros Hok Ho Hn Hle. unfold peek. rewrite <- (dev_size d Hok) in Hle.
  destruct (encryptor_ d) as [e|] eqn:E; [|intros [= <-]; by apply region_length].
  intros ->%(proj2 (proj2 (dev_encryptor d Hok e E))). by apply region_length.
Qed.

Lemma peek_outside off n off' n' d d' : only_changed off n d d' → 0 ≤ off' → off' + n' ≤ off ∨ off + n ≤ off' →
  peek d' off' n' = peek d off' n'.
Proof.
  intros ((_ & _ & _ & _ & He) & _ & Hout) Ho Hd. unfold peek. rewrite He.
  rewrite (region_ext off' n' (raw (impl_ d')) (raw (impl_ d))); [done|done|]. intros i Hi. apply Hout. unfold outside. lia.
Qed.

Lemma writeInternal_aux off bs d : device_ok d → request_ok off (Z.of_nat (length bs)) d →
  ∃ r d', writeInternal off bs d = Ok (r, d') ∧ only_changed off (Z.of_nat (length bs)) d d' ∧
    (r = true → region off (Z.of_nat (length bs)) (raw (impl_ d')) = bs).
Proof.
  intros Hok (Ho & Hn & Hle & Ha1 & Ha2). unfold writeInternal. destruct (dev_maxWrite d Hok) as [Hm1 Hm2].
  set (max := if _ : bool then _ else _).
  assert (∃ r d', writeInternal_loop (length bs) max off bs d = Ok (r, d') ∧
    only_changed off (Z.of_nat (length bs)) d d' ∧
    (r = true → region off (Z.of_nat (length bs)) (raw (impl_ d')) = bs)) as (r & d' & -> & Hch & Hr).
  { destruct (decide (bs = [])) as [->|Hne]; [by exists true, d|].
    assert (0 < length bs)%nat by (destruct bs; [done|cbn; lia]).
    apply writeInternal_loop_spec; try done; try lia; unfold max; destruct (Z.eqb_spec (maxWriteSize_ d) 0); done || lia. }
  res_simpl. eexists r, _. split; [done|]. by destruct r.
Qed.

Lemma write_aux off bs d : device_ok d → request_ok off (Z.of_nat (length bs)) d →
  ∃ r d', write off bs d = Ok (r, d') ∧ only_changed off (Z.of_nat (length bs)) d d' ∧
    (r = true → peek d' off (Z.of_nat (length bs)) = Some bs).
Proof.
  intros Hok Hreq. pose proof Hreq as (Ho & Hn & Hle & Ha1 & Ha2). unfold write. rewrite u64_le by lia. res_simpl.
  unfold peek. destruct (encryptor_ d) as [e|] eqn:E.
  - destruct (dev_encryptor d Hok e E) as [-> Hen]. rewrite mod_divide by (done || by apply align_pos). res_simpl.
    destruct (encrypt e bs off) as [c|] eqn:Ec; [|by eexists false, _].
    destruct (proj1 Hen _ _ _ Ec) as [Hl Hd]. rewrite <- Hl in *.
    destruct (writeInternal_aux off c d Hok Hreq) as (r & d' & -> & Hch & Hr). exists r, d'. split; [done|].
    split; [done|]. intros Ht. destruct Hch as ((_ & _ & _ & _ & ->) & _). by rewrite E, Hr.
  - destruct (writeInternal_aux off bs d Hok Hreq) as (r & d' & -> & Hch & Hr). exists r, d'. split; [done|].
    split; [done|]. intros Ht. destruct Hch as ((_ & _ & _ & _ & ->) & _). by rewrite E, Hr.
Qed.

(** *** Alignment *)
Lemma land_align_down x k : fits 64 x → 0 ≤ k ≤ 64 → Z.land x (uint_max 64 - (2 ^ k - 1)) = x / 2 ^ k * 2 ^ k.
Proof.
  intros Hx Hk. rewrite <- Z.shiftr_div_pow2, <- Z.shiftl_mul_pow2, <- Z.ldiff_ones_r by lia.
  assert (uint_max 64 - (2 ^ k - 1) = Z.ldiff (Z.ones 64) (Z.ones k)) as ->.
  { rewrite <- Z.sub_nocarry_ldiff; [rewrite !Z.ones_equiv; unfold uint_max; lia|].
    apply Z.bits_inj'. intros i Hi. rewrite Z.ldiff_spec, Z.bits_0. destruct (decide (i < k)).
    - rewrite (Z.ones_spec_low 64) by lia. by rewrite andb_false_r.
    - rewrite Z.ones_spec_high by lia. done. }
  apply Z.bits_inj'. intros i Hi. rewrite Z.land_spec, !Z.ldiff_spec. destruct (decide (i < 64)).
  - rewrite (Z.ones_spec_low 64) by lia. done.
  - rewrite (testbit_high 64 x i); [done|done|lia].
Qed.

Lemma isPowTwo_pow k : 0 ≤ k → isPowTwo (2 ^ k) = true.
Proof.
  intros Hk. unfold isPowTwo. rewrite land_ones_mod, Z.mod_same by lia.
  rewrite (proj2 (Z.eqb_neq _ 0)) by lia. done.
Qed.

Lemma powTwoAlign_spec x k : 0 ≤ k < 32 → 0 ≤ x → x + 2 ^ k ≤ 2 ^ 64 →
  ∃ y, powTwoAlign x (2 ^ k) = Ok y ∧ (2 ^ k | y) ∧ x ≤ y < x + 2 ^ k ∧ ((2 ^ k | x) → y = x).
Proof.
  intros Hk Hx Hle. unfold powTwoAlign. rewrite isPowTwo_pow by lia. res_simpl.
  rewrite wrap_small, land_align_down by (unfold fits; lia). eexists. split; [done|].
  split; [apply Z.divide_factor_r|]. assert (0 < 2 ^ k) by lia. split.
  - pose proof (Z.div_mod (x + (2 ^ k - 1)) (2 ^ k)). pose proof (Z.mod_pos_bound (x + (2 ^ k - 1)) (2 ^ k)). lia.
  - intros [q ->]. rewrite Z.div_add_l, (Z.div_small (2 ^ k - 1)) by lia. lia.
Qed.

Lemma align_id n d : device_ok d → 0 ≤ n < 2 ^ 32 → (ioAlignmentSize_ d | n) → makeIOBuffer n d = Ok n.
Proof.
  intros Hok Hn Hd. unfold makeIOBuffer, getIOAlignedSize. destruct (dev_align d Hok) as (k & Hk & E).
  rewrite E in *. pose proof (Z.pow_lt_mono_r 2 k 32).
  destruct (powTwoAlign_spec n k) as (y & -> & _ & _ & Hy); [lia..|]. by rewrite Hy.
Qed.

(** C39: a write that the device reports as done is read back exactly, if
    the read succeeds; whether it succeeds or not, no other range changes.
    Requests are split to the device's limits and encrypted on the way. *)
Theorem device_write_read off bs d : device_ok d → request_ok off (Z.of_nat (length bs)) d →
  ∃ ok d1, write off bs d = Ok (ok, d1) ∧ device_ok d1 ∧
    (ok = true → ∃ r d2, read off (Z.of_nat (length bs)) d1 = Ok (r, d2) ∧ (r = Some bs ∨ r = None)) ∧
    ∀ off' n, request_ok off' n d → off' + n ≤ off ∨ off + Z.of_nat (length bs) ≤ off' →
      ∃ r1 d1' r2 d2', read off' n d = Ok (r1, d1') ∧ read off' n d1 = Ok (r2, d2') ∧
        ∀ v1 v2, r1 = Some v1 → r2 = Some v2 → v1 = v2.
Proof.
  intros Hok Hreq. destruct (write_aux off bs d Hok Hreq) as (ok & d1 & Hw & Hch & Hpk). exists ok, d1.
  pose proof Hch as (Hs & Hl & _). assert (device_ok d1) as Hok1 by by apply (same_config_ok d).
  assert (∀ o n, request_ok o n d → request_ok o n d1) as Hreq'.
  { intros o n. destruct Hs as (E1 & E2 & _). unfold request_ok. by rewrite E1, E2. }
  split; [done|]. split; [done|]. split.
  - intros Ht. destruct (read_aux _ _ d1 Hok1 (Hreq' _ _ Hreq)) as (r & d2 & -> & _ & _ & Hr). exists r, d2.
    split; [done|]. rewrite (Hpk Ht) in Hr. destruct r as [v|]; [left; by rewrite (Hr v)|by right].
  - intros off' n Hr' Hdis. destruct (read_aux _ _ d Hok Hr') as (r1 & d1' & -> & _ & _ & H1).
    destruct (read_aux _ _ d1 Hok1 (Hreq' _ _ Hr')) as (r2 & d2' & -> & _ & _ & H2).
    do 4 eexists. split; [done|]. split; [done|]. intros v1 v2 E1 E2. apply H1 in E1. apply H2 in E2.
    rewrite (peek_outside off (Z.of_nat (length bs)) off' n d d1) in E2; [congruence|done|apply Hr'|done].
Qed.

Lemma divide_le_step p a b : 0 < p → (p | a) → (p | b) → a < b + p → a ≤ b.
Proof. intros Hp [x ->] [y ->] Hlt. apply Z.mul_le_mono_nonneg_r; [lia|]. apply Z.lt_succ_r, (Z.mul_lt_mono_pos_r p); lia. Qed.

(** The unaligned [read] returns exactly the bytes asked for. *)
Theorem device_read_unaligned off n d : device_ok d → encryptor_ d = None → (ioAlignmentSize_ d | size_ d) →
  0 ≤ off → 0 ≤ n → off + n ≤ size_ d → n + 2 * ioAlignmentSize_ d ≤ 2 ^ 32 →
  ∃ r d', read_buffer off n d = Ok (r, d') ∧ raw (impl_ d') = raw (impl_ d) ∧
    (r = None ∨ r = Some (region off n (raw (impl_ d)))).
Proof.
  intros Hok Hne Hds Ho Hn Hle Hsm. unfold read_buffer, makeIOBuffer, getIOAlignedSize. rewrite u64_le by lia. res_simpl.
  destruct (dev_align d Hok) as (k & Hk & E). rewrite E in *. pose proof (dev_size_fits d Hok). assert (0 < 2 ^ k) by lia.
  rewrite land_align_down, land_ones_mod by (unfold fits; lia). pose proof (Z.mod_pos_bound off (2 ^ k)).
  pose proof (Z.div_mod off (2 ^ k)). pose proof (Z.mod_le off (2 ^ k)). set (pre := off mod 2 ^ k) in *. set (ro := off / 2 ^ k * 2 ^ k) in *.
  destruct (powTwoAlign_spec (pre + n) k) as (rs & -> & Hdv & Hrs & _); [lia..|]. res_simpl.
  destruct (powTwoAlign_spec rs k) as (rs' & -> & _ & _ & Hid); [lia..|]. rewrite (Hid Hdv) in *. res_simpl.
  rewrite (wrap_small 32) by (unfold fits; lia). fold (read ro rs d).
  assert (ro + rs ≤ size_ d) as Hend.
  { apply (divide_le_step (2 ^ k)); [lia|apply Z.divide_add_r; [apply Z.divide_factor_r|done]|done|lia]. }
  destruct (read_aux ro rs d Hok) as (r & d' & -> & _ & Hraw & Hr).
  { unfold request_ok. rewrite E. split_and!; [lia..|apply Z.divide_factor_r|done]. }
  res_simpl. eexists _, d'. split; [done|]. split; [done|]. destruct r as [v|]; [right|by left].
  specialize (Hr v eq_refl). unfold peek in Hr. rewrite Hne in Hr. injection Hr as <-. cbn [option_map]. f_equal.
  rewrite region_region by lia. f_equal. lia.
Qed.
End requests.

(** ** Devices that do not fail *)
Class DeviceReliable (B : Type) `{DeviceImpl B} := {
  writeImpl_done off bs b ok b' : writeImpl off bs b = Ok (ok, b') → ok = true;
  readImpl_done off n b r b' : readImpl off n b = Ok (r, b') → is_Some r;
}.
#[global, refine] Instance MemoryDevice_reliable : DeviceReliable MemoryDevice := {}.
Proof.
  - intros off bs b ok b'. cbn. unfold mem_writeImpl. intros ([] & _ & (l & _ & [= <- _])%bind_Ok)%bind_Ok. done.
  - intros off n b r b'. cbn. unfold mem_readImpl. intros ([] & _ & (l & _ & [= <- _])%bind_Ok)%bind_Ok. done.
Defined.

Section reliable.
Context {B : Type} `{DeviceReliable B}.
Implicit Types d : Device B.

Lemma writeInternal_loop_done fuel max off bs d r d' :
  writeInternal_loop fuel max off bs d = Ok (r, d') → r = true.
Proof.
  revert off bs d. induction fuel as [|fuel IH]; intros off bs d; cbn [writeInternal_loop];
    (destruct (0 <? _); [|by intros [= <- _]]); [done|].
  intros (_ & _ & (_ & _ & ([ok b] & Hw & Hr)%bind_Ok)%bind_Ok)%bind_Ok.
  apply writeImpl_done in Hw as ->. by apply IH in Hr.
Qed.
Lemma write_done off bs d r d' : encryptor_ d = None → write off bs d = Ok (r, d') → r = true.
Proof.
  unfold write, writeInternal. intros -> (_ & _ & ([r0 d0] & Hl & [= <- _])%bind_Ok)%bind_Ok.
  by apply writeInternal_loop_done in Hl.
Qed.
Lemma readInternal_loop_done fuel max size off n d r d' :
  readInternal_loop fuel max size off n d = Ok (r, d') → is_Some r ∧ encryptor_ d' = encryptor_ d.
Proof.
  revert off n d r. induction fuel as [|fuel IH]; intros off n d r; cbn [readInternal_loop];
    (destruct (0 <? _); [|by intros [= <- <-]]); [done|].
  intros (_ & _ & (_ & _ & ([ok b] & Hw & Hr)%bind_Ok)%bind_Ok)%bind_Ok.
  destruct (readImpl_done _ _ _ _ _ Hw) as [bs ->]. apply bind_Ok in Hr as ([rest d0] & Hr & [= <- <-]).
  apply IH in Hr as [[v ->] He]. done.
Qed.
Lemma read_done off n d r d' : encryptor_ d = None → read off n d = Ok (r, d') → is_Some r ∧ encryptor_ d' = None.
Proof.
  unfold read, readInternal. intros Hne (_ & _ & ([r0 d0] & Hl & Hr)%bind_Ok)%bind_Ok.
  apply readInternal_loop_done in Hl as [[v ->] He]. rewrite He, Hne in Hr. injection Hr as <- <-. by rewrite He.
Qed.
End reliable.

(** A new memory device is well-formed when its sizes are. *)
Lemma MemoryDevice_new_ok size k : 0 ≤ size < 2 ^ 64 → 0 ≤ k < 32 →
  ∃ d, MemoryDevice_new size None (2 ^ k) = Ok d ∧ device_ok d ∧ size_ d = size ∧ ioAlignmentSize_ d = 2 ^ k ∧
    encryptor_ d = None.
Proof.
  intros Hs Hk. unfold MemoryDevice_new, Device_new. rewrite (proj2 (Z.eqb_neq (2 ^ k) 0)) by lia.
  rewrite !Z.mod_0_l by lia. res_simpl. eexists. split; [done|]. split; [|done].
  split; cbn; [rewrite length_replicate; lia|apply Hs|by exists k|split; [done|apply Z.divide_0_r]..|done].
Qed.

(** ** A concrete device

    Twenty-four bytes in blocks of four, written one block at a time and
    masked with the offset. *)
Definition ex_mask (v : list Z) (salt : Z) : option (list Z) := Some (Z.lxor (salt + 90) <$> v).
Definition ex_encryptor : Encryptor := mkEncryptor 4 ex_mask ex_mask.
Definition ex_device : Device MemoryDevice :=
  mkDevice 24 4 8 4 (Some ex_encryptor) 0 0 0 0 0 0 (mkMemoryDevice (replicate 24 0)).

Lemma ex_device_ok : device_ok ex_device.
Proof.
  split; cbn; [done|done|by exists 2|split; [done|by exists 2]|split; [done|by exists 1]|].
  intros e [= <-]. split; [done|]. split; [|intros c salt v [= <-]; by rewrite length_fmap]. intros v salt c [= <-]. cbn. unfold ex_mask. rewrite length_fmap. split; [done|].
  f_equal. rewrite <- list_fmap_compose. rewrite <- (list_fmap_id v) at 2. apply list_fmap_ext. intros i x _. cbn.
  by rewrite <- Z.lxor_assoc, Z.lxor_nilpotent.
Qed.

Lemma device_write_read_witness :
  (∃ d1, write 8 [1; 2; 3; 4; 5; 6; 7; 8] ex_device = Ok (true, d1) ∧ bytesWritten_ d1 = 8 ∧
     ∃ d2, read 8 8 d1 = Ok (Some [1; 2; 3; 4; 5; 6; 7; 8], d2)) ∧
  ∃ ok d1, write 8 [1; 2; 3; 4; 5; 6; 7; 8] ex_device = Ok (ok, d1) ∧ device_ok d1.
Proof.
  split.
  - eexists. split; [vm_compute; reflexivity|]. split; [done|]. eexists. vm_compute. reflexivity.
  - destruct (device_write_read 8 [1; 2; 3; 4; 5; 6; 7; 8] ex_device ex_device_ok) as (ok & d1 & ? & ? & _);
      [|by exists ok, d1]. unfold request_ok. cbn. split_and!; [done..|by exists 2|by exists 2].
Defined.

Definition ex_plain_device : Device MemoryDevice :=
  mkDevice 16 4 0 0 None 0 0 0 0 0 0 (mkMemoryDevice [0; 1; 2; 3; 4; 5; 6; 7; 8; 9; 10; 11; 12; 13; 14; 15]).
Lemma device_read_unaligned_witness :
  (∃ d', read_buffer 3 7 ex_plain_device = Ok (Some [3; 4; 5; 6; 7; 8; 9], d')) ∧
  ∃ r d', read_buffer 3 7 ex_plain_device = Ok (r, d') ∧ (r = None ∨ r = Some [3; 4; 5; 6; 7; 8; 9]).
Proof.
  split; [eexists; vm_compute; reflexivity|].
  destruct (device_read_unaligned 3 7 ex_plain_device) as (r & d' & ? & _ & ?); try done; [|by exists 4|by exists r, d'].
  split; cbn; [done|done|by exists 2|split; [done|apply Z.divide_0_r]..|done].
Defined.
