(* ===== verification/BigHash.v ===== *)
(** BigHash ([navy/bighash/BigHash.h], [BigHash.cpp]): navy's engine for small
    items.

    The device is divided into buckets; a key lives in the bucket its hash
    selects.  Every operation reads a bucket, works on it in memory and
    writes it back; a Bloom filter per bucket (optional) saves reads.

    The state is the configuration, the filters, the device ([Device.v]) and
    the counters.  A bucket in a buffer is the bytes of [Bucket.v]'s record in
    the packed layout of the class.  The checksum and hash functions are
    parameters.  Operations run under the lock of their bucket, so they are
    modelled as atomic; calls of the destructor callback are returned as a
    list of events. *)
From S2P Require Import Prelude BucketStorage Bucket BloomFilter Device.

Inductive Status := SOk | NotFound | Rejected | Retry | DeviceError | BadState.

(** The counters of the engine. *)
Inductive Counter :=
  | lookupCount_ | bfProbeCount_ | bfRejectCount_ | itemCount_ | insertCount_ | succInsertCount_
  | succLookupCount_ | removeCount_ | succRemoveCount_ | evictionCount_ | evictionExpiredCount_
  | logicalWrittenCount_ | physicalWrittenCount_ | ioErrorCount_ | bfFalsePositiveCount_
  | bfRebuildCount_ | checksumErrorCount_ | usedSizeBytes_.
#[global] Instance Counter_eq_dec : EqDecision Counter.
Proof. solve_decision. Defined.

Record BigHash (B : Type) := mkBigHash {
  checkExpired_ : option (list Z → bool);
  destructorCb_ : bool;                      (** whether the configuration has one *)
  bucketSize_ : Z;
  cacheBaseOffset_ : Z;
  numBuckets_ : Z;
  bloomFilter_ : option BloomFilter;
  generationTime_ : Z;                       (** nanoseconds, a signed 64-bit count *)
  device_ : Device B;
  counters : Counter → Z;
  bucketExpirationsDist_x100_ : list Z;      (** the values tracked *)
}.
Arguments mkBigHash {B}. Arguments checkExpired_ {B}. Arguments destructorCb_ {B}. Arguments bucketSize_ {B}.
Arguments cacheBaseOffset_ {B}. Arguments numBuckets_ {B}. Arguments bloomFilter_ {B}.
Arguments generationTime_ {B}. Arguments device_ {B}. Arguments counters {B}. Arguments bucketExpirationsDist_x100_ {B}.

Record Config (B : Type) := mkConfig {
  c_bucketSize : Z;
  c_cacheBaseOffset : Z;
  c_cacheSize : Z;
  c_device : option (Device B);
  c_checkExpired : option (list Z → bool);
  c_destructorCb : bool;
  c_bloomFilter : option BloomFilter;
}.
Arguments mkConfig {B}. Arguments c_bucketSize {B}. Arguments c_cacheBaseOffset {B}. Arguments c_cacheSize {B}.
Arguments c_device {B}. Arguments c_checkExpired {B}. Arguments c_destructorCb {B}. Arguments c_bloomFilter {B}.
Definition numBuckets {B} (c : Config B) : Z := c_cacheSize c / c_bucketSize c.

(** [Config::validate]. *)
Definition validate {B} (c : Config B) : result unit :=
  _ ← throw_if (c_cacheSize c <? c_bucketSize c) InvalidArgument;
  _ ← throw_if (negb (isPowTwo (c_bucketSize c))) InvalidArgument;
  _ ← throw_if (Z.shiftl (c_bucketSize c) 32 <? c_cacheSize c) InvalidArgument;
  _ ← throw_if (negb (c_cacheBaseOffset c mod c_bucketSize c =? 0) ||
                negb (c_cacheSize c mod c_bucketSize c =? 0)) InvalidArgument;
  _ ← throw_if (match c_device c with None => true | Some _ => false end) InvalidArgument;
  throw_if (match c_bloomFilter c with
            | Some bf => negb (numFilters_ bf =? numBuckets c) | None => false end) InvalidArgument.

(** ** Buckets in buffers *)

(** [reinterpret_cast<Bucket*>(buffer.data())]. *)
Definition bucket_at (buf : list Z) : result Bucket :=
  c ← read_u32 0 buf; g ← read_u64 4 buf;
  cap ← read_u32 12 buf; num ← read_u32 16 buf; endo ← read_u32 20 buf;
  Ok (mkBucket c g (mkBucketStorage cap num endo (drop 24 buf))).
(** The bytes of a bucket. *)
Definition bucket_bytes (b : Bucket) : list Z :=
  le_bytes 4 (checksum_ b) ++ le_bytes 8 (Bucket.generationTime_ b) ++ le_bytes 4 (capacity_ (storage_ b)) ++
  le_bytes 4 (numAllocations_ (storage_ b)) ++ le_bytes 4 (endOffset_ (storage_ b)) ++ data_ (storage_ b).

Section bighash.
Context {B : Type} `{DeviceImpl B}.
(** [navy::checksum], the Bloom filter's hash and the hash of a key. *)
Context (checksum : list Z → Z) (combineHashes : Z → Z → Z) (hashKey : list Z → Z).
Implicit Types (st : BigHash B) (bid : Z) (hk : HashedKey).

Definition computeChecksum (view : list Z) : Z := checksum (drop 4 view).
Definition makeHK (key : list Z) : HashedKey := mkHashedKey key (hashKey key).

Definition with_device (d : Device B) st : BigHash B :=
  mkBigHash (checkExpired_ st) (destructorCb_ st) (bucketSize_ st) (cacheBaseOffset_ st) (numBuckets_ st)
    (bloomFilter_ st) (generationTime_ st) d (counters st) (bucketExpirationsDist_x100_ st).
Definition with_bloom (bf : BloomFilter) st : BigHash B :=
  mkBigHash (checkExpired_ st) (destructorCb_ st) (bucketSize_ st) (cacheBaseOffset_ st) (numBuckets_ st)
    (Some bf) (generationTime_ st) (device_ st) (counters st) (bucketExpirationsDist_x100_ st).
Definition with_generation (g : Z) st : BigHash B :=
  mkBigHash (checkExpired_ st) (destructorCb_ st) (bucketSize_ st) (cacheBaseOffset_ st) (numBuckets_ st)
    (bloomFilter_ st) g (device_ st) (counters st) (bucketExpirationsDist_x100_ st).
Definition with_counters (f : Counter → Z) st : BigHash B :=
  mkBigHash (checkExpired_ st) (destructorCb_ st) (bucketSize_ st) (cacheBaseOffset_ st) (numBuckets_ st)
    (bloomFilter_ st) (generationTime_ st) (device_ st) f (bucketExpirationsDist_x100_ st).
Definition track (v : Z) st : BigHash B :=
  mkBigHash (checkExpired_ st) (destructorCb_ st) (bucketSize_ st) (cacheBaseOffset_ st) (numBuckets_ st)
    (bloomFilter_ st) (generationTime_ st) (device_ st) (counters st) (bucketExpirationsDist_x100_ st ++ [v]).

(** [counter.set(n)], [counter.add(n)], [counter.sub(n)]. *)
Definition cset (c : Counter) (n : Z) st : BigHash B :=
  with_counters (λ c', if decide (c' = c) then n else counters st c') st.
Definition cadd (c : Counter) (n : Z) st : BigHash B := cset c (u64 (counters st c + n)) st.
Definition csub (c : Counter) (n : Z) st : BigHash B := cset c (u64 (counters st c - n)) st.
Definition inc (c : Counter) st : BigHash B := cadd c 1 st.

(** The counters [reset] clears: all but [bfRejectCount_] and [bfRebuildCount_]. *)
Definition reset_counters (f : Counter → Z) (c : Counter) : Z :=
  if decide (c = bfRejectCount_ ∨ c = bfRebuildCount_) then f c else 0.
(** [reset] at steady-clock time [now]. *)
Definition reset (now : Z) st : result (BigHash B) :=
  let st := with_generation now st in
  st ← match bloomFilter_ st with
       | Some bf => bf ← BloomFilter.reset bf; Ok (with_bloom bf st)
       | None => Ok st
       end;
  Ok (with_counters (reset_counters (counters st)) st).

Definition BigHash_new (c : Config B) (now : Z) : result (BigHash B) :=
  _ ← validate c;
  d ← deref (c_device c);
  reset now (mkBigHash (c_checkExpired c) (c_destructorCb c) (c_bucketSize c) (c_cacheBaseOffset c) (numBuckets c)
               (c_bloomFilter c) 0 d (λ _, 0) []).

Definition getSize st : Z := u64 (bucketSize_ st * numBuckets_ st).
Definition getMaxItemSize st : Z := u64 (bucketSize_ st - sizeof_Bucket - slotSize sizeof_BucketEntry).
Definition estimateWriteSize st : Z := bucketSize_ st.
Definition getBucketId st hk : Z := u32 (hk_hash hk mod numBuckets_ st).
Definition getBucketOffset st bid : Z := u64 (cacheBaseOffset_ st + u64 (bucketSize_ st * bid)).

(** ** Bloom filters *)
Definition bfSet bid keyHash st : result (BigHash B) :=
  match bloomFilter_ st with
  | None => Ok st
  | Some bf => bf ← BloomFilter.set combineHashes bid keyHash bf; Ok (with_bloom bf st)
  end.
Definition bfClear bid st : result (BigHash B) :=
  match bloomFilter_ st with
  | None => Ok st
  | Some bf => bf ← BloomFilter.clear bid bf; Ok (with_bloom bf st)
  end.
Definition bfReject bid keyHash st : result (bool * BigHash B) :=
  match bloomFilter_ st with
  | None => Ok (false, st)
  | Some bf =>
      let st := inc bfProbeCount_ st in
      b ← BloomFilter.couldExist combineHashes bid keyHash bf;
      Ok (if b : bool then (false, st) else (true, inc bfRejectCount_ st))
  end.
(** The loop of [bfRebuild] over the entries of the bucket. *)
Fixpoint bfRebuild_loop (fuel : nat) bid (itr : Allocation) (b : Bucket) (bf : BloomFilter) : result BloomFilter :=
  if done_ itr then Ok bf
  else
    match fuel with
    | O => Undef
    | S fuel =>
        e ← getIteratorEntry itr (storage_ b);
        bf ← BloomFilter.set combineHashes bid (keyHash_ e) bf;
        itr ← getNext itr (storage_ b);
        bfRebuild_loop fuel bid itr b bf
    end.
Definition bfRebuild bid (b : Bucket) st : result (BigHash B) :=
  match bloomFilter_ st with
  | None => Ok st
  | Some bf =>
      let st := inc bfRebuildCount_ st in
      bf ← BloomFilter.clear bid bf;
      itr ← getFirst (storage_ b);
      bf ← bfRebuild_loop (slot_fuel (storage_ b)) bid itr b bf;
      Ok (with_bloom bf st)
  end.

(** ** Reading and writing buckets *)
(** [None] is the null buffer of a failed read. *)
Definition readBucket bid st : result (option Bucket * BigHash B) :=
  bufSize ← makeIOBuffer (bucketSize_ st) (device_ st);
  '(r, d) ← Device.read (getBucketOffset st bid) (u32 bufSize) (device_ st);
  let st := with_device d st in
  match r with
  | None => Ok (None, st)
  | Some buffer =>
      bucket ← bucket_at buffer;
      if negb (computeChecksum buffer =? checksum_ bucket) ||
         negb (u64 (generationTime_ st) =? Bucket.generationTime_ bucket)
      then Ok (Some (initNew (Z.of_nat (length buffer)) (u64 (generationTime_ st)) (drop 24 buffer)), st)
      else Ok (Some bucket, st)
  end.
Definition writeBucket bid (bucket : Bucket) st : result (bool * BigHash B) :=
  let bucket := setChecksum (computeChecksum (bucket_bytes bucket)) bucket in
  '(r, d) ← Device.write (getBucketOffset st bid) (bucket_bytes bucket) (device_ st);
  Ok (r, with_device d st).

(** ** Operations *)
(** The calls [destructorCb_] gets, when the configuration has one. *)
Definition destroyed st (evs : list event) : list event := if destructorCb_ st then evs else [].
(** The copies [insert] keeps have their key's hash computed again. *)
Definition rehash (ev : event) : event := let '(k, v, t) := ev in (makeHK (hk_key k), v, t).

(** Space accounting of [insert]. *)
Definition account_space (oldRemainingBytes newRemainingBytes : Z) st : BigHash B :=
  if oldRemainingBytes <? newRemainingBytes
  then csub usedSizeBytes_ (u32 (newRemainingBytes - oldRemainingBytes)) st
  else cadd usedSizeBytes_ (u32 (oldRemainingBytes - newRemainingBytes)) st.

(** The counters after a successful [insert]. *)
Definition insert_counters hk (value : list Z) (oldRemainingBytes newRemainingBytes removed evicted evictExpired : Z)
    st : BigHash B :=
  let st := account_space oldRemainingBytes newRemainingBytes st in
  let st := cadd itemCount_ 1 st in
  let st := csub itemCount_ (u32 (evicted + removed)) st in
  let st := cadd evictionCount_ evicted st in
  let st := cadd evictionExpiredCount_ evictExpired st in
  let st := if 0 <? evictExpired then track (u32 (evictExpired * 100)) st else st in
  let st := cadd logicalWrittenCount_ (Z.of_nat (length (hk_key hk)) + Z.of_nat (length value)) st in
  let st := cadd physicalWrittenCount_ (bucketSize_ st) st in
  inc succInsertCount_ st.

Definition insert hk (value : list Z) st : result (Status * list event * BigHash B) :=
  let bid := getBucketId st hk in
  let st := inc insertCount_ st in
  '(r, st) ← readBucket bid st;
  match r with
  | None => Ok (DeviceError, [], inc ioErrorCount_ st)
  | Some bucket =>
      let oldRemainingBytes := remainingBytes bucket in
      '(removed, evs1, bucket) ← Bucket.remove hk true bucket;
      '(evicted, evictExpired, evs2, bucket) ← Bucket.insert hk value (checkExpired_ st) true bucket;
      let newRemainingBytes := remainingBytes bucket in
      st ← (if u32 (removed + evicted) =? 0 then bfSet bid (hk_hash hk) st else bfRebuild bid bucket st);
      '(res, st) ← writeBucket bid bucket st;
      if negb res then st ← bfClear bid st; Ok (DeviceError, [], inc ioErrorCount_ st)
      else
        let st := insert_counters hk value oldRemainingBytes newRemainingBytes removed evicted evictExpired st in
        Ok (SOk, destroyed st (rehash <$> (evs1 ++ evs2)), st)
  end.

Definition couldExist hk st : result (bool * BigHash B) :=
  '(rejected, st) ← bfReject (getBucketId st hk) (hk_hash hk) st;
  let canExist := negb rejected in
  Ok (canExist, if negb canExist then inc lookupCount_ st else st).

Definition lookup hk st : result (Status * option (list Z) * BigHash B) :=
  let bid := getBucketId st hk in
  let st := inc lookupCount_ st in
  '(rejected, st) ← bfReject bid (hk_hash hk) st;
  if rejected : bool then Ok (NotFound, None, st)
  else
    '(r, st) ← readBucket bid st;
    match r with
    | None => Ok (DeviceError, None, inc ioErrorCount_ st)
    | Some bucket =>
        v ← Bucket.find hk bucket;
        match v with
        | None => Ok (NotFound, None, inc bfFalsePositiveCount_ st)
        | Some value => Ok (SOk, Some value, inc succLookupCount_ st)
        end
    end.

(** The value [remove] hands to [destructorCb_]: the copy its callback made. *)
Definition removed_event hk (evs : list event) : list event :=
  match last evs with Some (_, v, _) => [(hk, v, Removed)] | None => [] end.

Definition remove hk st : result (Status * list event * BigHash B) :=
  let bid := getBucketId st hk in
  let st := inc removeCount_ st in
  '(rejected, st) ← bfReject bid (hk_hash hk) st;
  if rejected : bool then Ok (NotFound, [], st)
  else
    '(r, st) ← readBucket bid st;
    match r with
    | None => Ok (DeviceError, [], inc ioErrorCount_ st)
    | Some bucket =>
        let oldRemainingBytes := remainingBytes bucket in
        '(removed, evs, bucket) ← Bucket.remove hk true bucket;
        if removed =? 0 then Ok (NotFound, [], inc bfFalsePositiveCount_ st)
        else
          let newRemainingBytes := remainingBytes bucket in
          st ← bfRebuild bid bucket st;
          '(res, st) ← writeBucket bid bucket st;
          if negb res then st ← bfClear bid st; Ok (DeviceError, [], inc ioErrorCount_ st)
          else
            _ ← xdcheck (oldRemainingBytes <=? newRemainingBytes);
            let st := csub usedSizeBytes_ (u32 (newRemainingBytes - oldRemainingBytes)) st in
            let st := csub itemCount_ 1 st in
            let st := cadd physicalWrittenCount_ (bucketSize_ st) st in
            let st := inc succRemoveCount_ st in
            Ok (SOk, destroyed st (removed_event hk evs), st)
    end.

(** [getRandomAlloc] for the random bucket [bid] and offset in it. *)
Definition getRandomAlloc bid (randOffset : Z) st : result (Status * option (list Z * list Z) * BigHash B) :=
  '(r, st) ← readBucket bid st;
  match r with
  | None => Ok (NotFound, None, inc ioErrorCount_ st)
  | Some bucket =>
      kv ← Bucket.getRandomAlloc randOffset bucket;
      match kv with
      | Some (key, value) => if decide (key = []) then Ok (NotFound, None, st) else Ok (SOk, Some (key, value), st)
      | None => Ok (NotFound, None, st)
      end
  end.

(** ** Persistence *)
Definition kFormatVersion : Z := 10.
Record BigHashPersistentData := mkPersistentData {
  pd_version : Z; pd_generationTime : Z; pd_itemCount : Z; pd_bucketSize : Z; pd_cacheBaseOffset : Z;
  pd_numBuckets : Z; pd_usedSizeBytes : Z;
}.
Definition persist st : result (BigHashPersistentData * list record) :=
  let pd := mkPersistentData (s32 kFormatVersion) (generationTime_ st) (s64 (counters st itemCount_))
    (s64 (bucketSize_ st)) (s64 (cacheBaseOffset_ st)) (s64 (numBuckets_ st)) (s64 (counters st usedSizeBytes_)) in
  w ← match bloomFilter_ st with Some bf => BloomFilter.persist bf | None => Ok [] end;
  Ok (pd, w).

(** The filters after an exception in [BloomFilter::recover]: their seeds may
    have been replaced (the bits will be cleared). *)
Definition bloom_after_throw (bf : BloomFilter) (rr : list record) : BloomFilter :=
  match rr with
  | RProto bd :: _ =>
      match recover_seeds (bd_seeds bd) (seeds_ bf) with
      | Ok seeds =>
          if (numFilters_ bf =? u32 (bd_numFilters bd)) && (hashTableBitSize_ bf =? u64 (bd_hashTableBitSize bd)) &&
             (filterByteSize_ bf =? u64 (bd_filterByteSize bd)) && (u32 (bd_fragmentSize bd) =? kPersistFragmentSize)
          then with_seeds seeds bf else bf
      | _ => bf
      end
  | _ => bf
  end.
(** [recover] at time [now], from what [deserializeProto] makes of the first
    record (an exception if it cannot) and the records after it. *)
Definition recover (now : Z) (hd : result BigHashPersistentData) (rr : list record) st
    : result (bool * BigHash B) :=
  match hd with
  | Undef => Undef
  | Throw _ => st ← reset now st; Ok (false, st)
  | Ok pd =>
      if negb (u32 (pd_version pd) =? kFormatVersion) ||
         negb ((u64 (pd_bucketSize pd) =? bucketSize_ st) && (u64 (pd_cacheBaseOffset pd) =? cacheBaseOffset_ st) &&
               (u64 (pd_numBuckets pd) =? numBuckets_ st))
      then st ← reset now st; Ok (false, st)
      else
        let st := with_generation (pd_generationTime pd) st in
        let st := cset itemCount_ (u64 (pd_itemCount pd)) st in
        let st := cset usedSizeBytes_ (u64 (pd_usedSizeBytes pd)) st in
        match bloomFilter_ st with
        | None => Ok (true, st)
        | Some bf =>
            match BloomFilter.recover bf rr with
            | Ok (bf, _) => Ok (true, with_bloom bf st)
            | Throw _ => st ← reset now (with_bloom (bloom_after_throw bf rr) st); Ok (false, st)
            | Undef => Undef
            end
        end
  end.
End bighash.

(** ** The layout of a bucket *)
Section layout.
Implicit Types (b : Bucket).

Record header_ok b : Prop := {
  ho_checksum : fits 32 (checksum_ b);
  ho_generation : fits 64 (Bucket.generationTime_ b);
  ho_capacity : fits 32 (capacity_ (storage_ b));
  ho_num : fits 32 (numAllocations_ (storage_ b));
  ho_end : fits 32 (endOffset_ (storage_ b));
}.

(** Reading a word between other bytes. *)
Lemma read_u32_at L A v X off : L = A ++ le_bytes 4 v ++ X → off = Z.of_nat (length A) → fits 32 v → read_u32 off L = Ok v.
Proof.
  intros -> -> Hv. unfold read_u32. rewrite slice_app by (by rewrite length_le_bytes). res_simpl.
  rewrite le_roundtrip; [done|exact Hv].
Qed.
Lemma read_u64_at L A v X off : L = A ++ le_bytes 8 v ++ X → off = Z.of_nat (length A) → fits 64 v → read_u64 off L = Ok v.
Proof.
  intros -> -> Hv. unfold read_u64. rewrite slice_app by (by rewrite length_le_bytes). res_simpl.
  rewrite le_roundtrip; [done|exact Hv].
Qed.

Lemma bucket_bytes_length b : length (bucket_bytes b) = (24 + length (data_ (storage_ b)))%nat.
Proof. unfold bucket_bytes. rewrite !length_app, !length_le_bytes. lia. Qed.

Lemma bucket_at_bytes b : header_ok b → bucket_at (bucket_bytes b) = Ok b.
Proof.
  intros [H1 H2 H3 H4 H5]. unfold bucket_at. destruct b as [c g [cap num endo data]].
  unfold bucket_bytes. cbn [checksum_ Bucket.generationTime_ storage_ capacity_ numAllocations_ endOffset_ data_] in *.
  set (L := le_bytes 4 c ++ _). set (A := le_bytes 4 c ++ le_bytes 8 g). set (A' := A ++ le_bytes 4 cap).
  rewrite (read_u32_at L [] c _ 0 eq_refl eq_refl H1). res_simpl.
  rewrite (read_u64_at L (le_bytes 4 c) g _ 4 eq_refl eq_refl H2). res_simpl.
  rewrite (read_u32_at L A cap _ 12 ltac:(unfold L, A; rewrite <- !app_assoc; reflexivity) eq_refl H3). res_simpl.
  rewrite (read_u32_at L A' num _ 16 ltac:(unfold L, A', A; rewrite <- !app_assoc; reflexivity) eq_refl H4). res_simpl.
  rewrite (read_u32_at L (A' ++ le_bytes 4 num) endo _ 20
    ltac:(unfold L, A', A; rewrite <- !app_assoc; reflexivity) eq_refl H5). res_simpl. done.
Qed.
End layout.

(** ** What the engine holds *)
Section invariant.
Context {B : Type} `{DeviceImplLaws B}.
Context (checksum : list Z → Z) (combineHashes : Z → Z → Z) (hashKey : list Z → Z).
(** The checksum is a 32-bit word. *)
Context (checksum_fits : ∀ v, fits 32 (checksum v)).
Implicit Types (st : BigHash B) (bid : Z) (hk : HashedKey) (es : list Entry) (d : Device B).

(** Sizes and offsets without overflow, and aligned for the device. *)
Record geometry st : Prop := {
  geo_size : 24 ≤ bucketSize_ st < 2 ^ 32;
  geo_num : 0 < numBuckets_ st ≤ 2 ^ 32;
  geo_base : 0 ≤ cacheBaseOffset_ st;
  geo_end : cacheBaseOffset_ st + bucketSize_ st * numBuckets_ st ≤ size_ (device_ st);
  geo_align : (ioAlignmentSize_ (device_ st) | bucketSize_ st) ∧ (ioAlignmentSize_ (device_ st) | cacheBaseOffset_ st);
  geo_device : device_ok (device_ st);
  geo_filters : ∀ bf, bloomFilter_ st = Some bf → numFilters_ bf = numBuckets_ st ∧ ∃ bits, bf_wf bf bits;
}.

Definition bucket_off st bid : Z := cacheBaseOffset_ st + bucketSize_ st * bid.
Definition capacity st : Z := bucketSize_ st - 24.
(** The checks of [readBucket]. *)
Definition valid (gen : Z) (bs : list Z) (b : Bucket) : Prop :=
  computeChecksum checksum bs = checksum_ b ∧ u64 gen = Bucket.generationTime_ b.
#[global] Instance valid_dec gen bs b : Decision (valid gen bs b).
Proof. unfold valid. apply _. Defined.

(** Bytes that pass the checks hold the entries they represent, any other
    bytes (and none) hold nothing. *)
Definition bytes_hold (gen size : Z) (o : option (list Z)) es : Prop :=
  match o with
  | None => es = []
  | Some bs => ∀ b, bucket_at bs = Ok b →
      if decide (valid gen bs b) then bucket_rep b es ∧ capacity_ (storage_ b) = size - 24 else es = []
  end.
(** Bucket [bid] on the device holds the entries [es]. *)
Definition holds st bid es : Prop :=
  bytes_hold (generationTime_ st) (bucketSize_ st) (peek (device_ st) (bucket_off st bid) (bucketSize_ st)) es.

Lemma bucket_request st bid : geometry st → 0 ≤ bid < numBuckets_ st →
  request_ok (bucket_off st bid) (bucketSize_ st) (device_ st) ∧ getBucketOffset st bid = bucket_off st bid.
Proof.
  intros Hg Hb. pose proof (geo_size _ Hg). pose proof (geo_base _ Hg). pose proof (geo_end _ Hg).
  pose proof (dev_size_fits _ (geo_device _ Hg)). destruct (geo_align _ Hg) as [Ha1 Ha2].
  assert (bucketSize_ st * bid + bucketSize_ st ≤ bucketSize_ st * numBuckets_ st) by nia.
  assert (0 ≤ bucketSize_ st * bid) by nia. unfold getBucketOffset, bucket_off, request_ok.
  rewrite (wrap_small 64 (bucketSize_ st * bid)), wrap_small by (unfold fits; lia). split; [|done].
  split_and!; try lia; [|done]. apply Z.divide_add_r; [done|]. by apply Z.divide_mul_l.
Qed.

(** A buffer of the size of a bucket can be viewed as one. *)
Lemma bucket_at_total bs : 24 ≤ Z.of_nat (length bs) → ∃ b, bucket_at bs = Ok b ∧ data_ (storage_ b) = drop 24 bs.
Proof.
  intros Hl. unfold bucket_at, read_u32, read_u64, slice.
  rewrite !decide_True by lia. res_simpl. eexists. split; [done|]. done.
Qed.

Lemma readBucket_spec st bid es : geometry st → 0 ≤ bid < numBuckets_ st → holds st bid es →
  ∃ r d, readBucket checksum bid st = Ok (r, with_device d st) ∧ same_config (device_ st) d ∧
    raw (impl_ d) = raw (impl_ (device_ st)) ∧
    ∀ b, r = Some b → bucket_rep b es ∧ capacity_ (storage_ b) = capacity st ∧
      Bucket.generationTime_ b = u64 (generationTime_ st).
Proof.
  intros Hg Hb Hh. destruct (bucket_request st bid Hg Hb) as [Hreq Hoff]. pose proof (geo_size _ Hg) as Hsz.
  unfold readBucket. rewrite align_id by (apply Hg || lia). res_simpl. rewrite Hoff, (wrap_small 32) by (unfold fits; lia).
  destruct (read_aux _ _ _ (geo_device _ Hg) Hreq) as (r & d & -> & Hs & Hraw & Hr). res_simpl.
  destruct r as [bs|]; [|by exists None, d]. specialize (Hr bs eq_refl).
  assert (Z.of_nat (length bs) = bucketSize_ st) as Hl
    by (apply (peek_length (bucket_off st bid) _ _ (device_ st)); [apply Hg|apply Hreq|lia|apply Hreq|done]).
  destruct (bucket_at_total bs) as (b & Hbk & Hdata); [lia|]. rewrite Hbk. res_simpl. unfold holds, bytes_hold in Hh. rewrite Hr in Hh.
  specialize (Hh b Hbk).
  change (generationTime_ (with_device d st)) with (generationTime_ st).
  destruct (Z.eqb_spec (computeChecksum checksum bs) (checksum_ b)) as [E1|E1]; cbn [negb orb];
    [destruct (Z.eqb_spec (u64 (generationTime_ st)) (Bucket.generationTime_ b)) as [E2|E2]|]; cbn [negb].
  { rewrite decide_True in Hh by done. eexists _, d. split; [done|]. split; [done|]. split; [done|].
    intros ? [= <-]. by destruct Hh. }
  all: rewrite decide_False in Hh by (by intros []); subst es; eexists _, d; split; [done|]; split; [done|]; split; [done|].
  all: intros ? [= <-]; split; [apply initNew_rep; [lia|rewrite length_drop; lia]|].
  all: split; [|done]; unfold capacity, initNew, sizeof_Bucket; cbn; rewrite wrap_small by (unfold fits; lia); lia.
Qed.

Lemma writeBucket_spec st bid b es : geometry st → 0 ≤ bid < numBuckets_ st → bucket_rep b es →
  capacity_ (storage_ b) = capacity st → Bucket.generationTime_ b = u64 (generationTime_ st) →
  ∃ r d, writeBucket checksum bid b st = Ok (r, with_device d st) ∧
    only_changed (bucket_off st bid) (bucketSize_ st) (device_ st) d ∧ (r = true → holds (with_device d st) bid es).
Proof.
  intros Hg Hb Hrep Hcap Hgen. destruct (bucket_request st bid Hg Hb) as [Hreq Hoff]. pose proof (geo_size _ Hg) as Hsz.
  unfold writeBucket. rewrite Hoff. set (b' := setChecksum _ b).
  pose proof (used_bounds b es Hrep) as Hub. destruct Hrep as [Hst Hok].
  assert (header_ok b') as Hho.
  { split; cbn; [apply checksum_fits|rewrite Hgen; by apply wrap_fits|..]; unfold fits.
    - unfold capacity in *; lia.
    - rewrite (sr_num _ _ Hst), length_fmap. lia.
    - rewrite (sr_end _ _ Hst). fold (used es). lia. }
  assert (Z.of_nat (length (bucket_bytes b')) = bucketSize_ st) as Hl.
  { rewrite bucket_bytes_length. pose proof (sr_len _ _ Hst). unfold capacity in *. cbn. lia. }
  rewrite <- Hl in Hreq.
  destruct (write_aux _ _ _ (geo_device _ Hg) Hreq) as (r & d & -> & Hch & Hr). res_simpl. rewrite Hl in *.
  exists r, d. split; [done|]. split; [done|]. intros Ht. unfold holds, bytes_hold. cbn [device_ with_device].
  change (bucket_off (with_device d st) bid) with (bucket_off st bid). change (bucketSize_ (with_device d st)) with (bucketSize_ st).
  rewrite (Hr Ht), bucket_at_bytes by done. intros ? [= <-]. rewrite decide_True; [by split|].
  split; [|exact (eq_sym Hgen)]. unfold computeChecksum, b', bucket_bytes. cbn [checksum_ setChecksum].
  by rewrite !drop_app_length' by (by rewrite length_le_bytes).
Qed.

(** *** Filters *)
(** The answer of the filters for a key hash in a bucket. *)
Definition bf_answer st bid (h : Z) : bool :=
  match bloomFilter_ st with
  | None => true
  | Some bf => match BloomFilter.couldExist combineHashes bid h bf with Ok b => b | _ => false end
  end.
(** No entry is hidden by the filter of its bucket. *)
Definition covered st bid es : Prop := ∀ e, e ∈ es → bf_answer st bid (hk_hash (en_hk e)) = true.

(** [st'] is [st] but for its filters and counters; the filters of buckets
    other than [bid] answer as before. *)
Record bf_step bid st st' : Prop := {
  bs_geo : geometry st';
  bs_fixed : checkExpired_ st' = checkExpired_ st ∧ destructorCb_ st' = destructorCb_ st ∧
    bucketSize_ st' = bucketSize_ st ∧ cacheBaseOffset_ st' = cacheBaseOffset_ st ∧
    numBuckets_ st' = numBuckets_ st ∧ generationTime_ st' = generationTime_ st ∧ device_ st' = device_ st;
  bs_items : counters st' itemCount_ = counters st itemCount_;
  bs_used : counters st' usedSizeBytes_ = counters st usedSizeBytes_;
  bs_filter : bloomFilter_ st = None ↔ bloomFilter_ st' = None;
  bs_others : ∀ b h, 0 ≤ b < numBuckets_ st → b ≠ bid → bf_answer st' b h = bf_answer st b h;
}.

Lemma with_bloom_geometry st bf bits : geometry st → numFilters_ bf = numBuckets_ st → bf_wf bf bits →
  geometry (with_bloom bf st).
Proof. intros Hg Hn Hwf. split; cbn; try apply Hg. intros ? [= <-]. split; [done|by exists bits]. Qed.
Lemma bf_step_refl bid st : geometry st → bf_step bid st st.
Proof. by split. Qed.
Lemma bf_step_bloom bid st bf bf' bits : geometry st → bloomFilter_ st = Some bf → numFilters_ bf' = numFilters_ bf →
  bf_wf bf' bits →
  (∀ i k, 0 ≤ i < numFilters_ bf → i ≠ bid → BloomFilter.couldExist combineHashes i k bf' =
     BloomFilter.couldExist combineHashes i k bf) → bf_step bid st (with_bloom bf' st).
Proof.
  intros Hg Hbf Hn Hwf Hoth. destruct (geo_filters _ Hg bf Hbf) as [Hnb _].
  split; try done; [apply with_bloom_geometry with bits; [done|congruence|done]|by rewrite Hbf|].
  intros i h Hi Hne. unfold bf_answer. cbn [bloomFilter_ with_bloom]. rewrite Hbf, Hoth by (done || by rewrite Hnb). done.
Qed.

Lemma bfSet_spec bid h st : geometry st → 0 ≤ bid < numBuckets_ st →
  ∃ st', bfSet combineHashes bid h st = Ok st' ∧ bf_step bid st st' ∧ bf_answer st' bid h = true ∧
    ∀ k, bf_answer st bid k = true → bf_answer st' bid k = true.
Proof.
  intros Hg Hb. unfold bfSet. destruct (bloomFilter_ st) as [bf|] eqn:E.
  2:{ exists st. split; [done|]. split; [by apply bf_step_refl|]. unfold bf_answer. by rewrite E. }
  destruct (geo_filters _ Hg bf E) as [Hn [bits Hwf]].
  destruct (set_aux combineHashes bf bits bid h Hwf) as (bits' & -> & Hwf' & Hset & Hmono & Hoth);
    [by rewrite Hn|]. res_simpl. eexists. split; [done|].
  split; [by eapply bf_step_bloom|]. unfold bf_answer. cbn [bloomFilter_ with_bloom]. rewrite E, Hset. split; [done|].
  intros k Hk. rewrite (Hmono bid k); [done|by rewrite Hn|].
  rewrite (couldExist_aux _ bf bits) in * by (done || by rewrite Hn). by rewrite Hk.
Qed.

Lemma bfClear_spec bid st : geometry st → 0 ≤ bid < numBuckets_ st →
  ∃ st', bfClear bid st = Ok st' ∧ bf_step bid st st' ∧
    (bloomFilter_ st ≠ None → ∀ k, bf_answer st' bid k = false).
Proof.
  intros Hg Hb. unfold bfClear. destruct (bloomFilter_ st) as [bf|] eqn:E.
  2:{ exists st. split; [done|]. split; [by apply bf_step_refl|done]. }
  destruct (geo_filters _ Hg bf E) as [Hn [bits Hwf]].
  destruct (clear_reset_aux combineHashes bf bits bid Hwf) as [(bits' & -> & Hwf' & Hclr & Hoth) _];
    [by rewrite Hn|]. res_simpl. eexists. split; [done|].
  split; [by eapply bf_step_bloom|]. intros _ k. unfold bf_answer. cbn [bloomFilter_ with_bloom]. by rewrite Hclr.
Qed.

Lemma bfReject_spec bid h st : geometry st → 0 ≤ bid < numBuckets_ st →
  ∃ st', bfReject combineHashes bid h st = Ok (negb (bf_answer st bid h), st') ∧ bf_step bid st st' ∧
    bloomFilter_ st' = bloomFilter_ st.
Proof.
  intros Hg Hb. unfold bfReject, bf_answer. destruct (bloomFilter_ st) as [bf|] eqn:E.
  2:{ exists st. split; [done|]. by split; [apply bf_step_refl|]. }
  destruct (geo_filters _ Hg bf E) as [Hn [bits Hwf]].
  rewrite (couldExist_aux _ bf bits) by (done || by rewrite Hn). res_simpl.
  assert (∀ f, (∀ c, c = itemCount_ ∨ c = usedSizeBytes_ → f c = counters st c) →
    bf_step bid st (with_counters f st) ∧ bloomFilter_ (with_counters f st) = Some bf) as Hf.
  { intros f Hc. split; [|done]. split; try done; [split; apply Hg|by apply Hc; left|by apply Hc; right]. }
  destruct (answer _ _ _ _ _); eexists; (split; [done|]); apply Hf; by intros ? [->| ->].
Qed.

Lemma bfRebuild_loop_spec bid b es bf bits i fuel : bucket_rep b es → bf_wf bf bits → 0 ≤ bid < numFilters_ bf →
  (length es ≤ i + fuel)%nat →
  ∃ bf' bits', bfRebuild_loop combineHashes fuel bid (itr_at es i) b bf = Ok bf' ∧ bf_wf bf' bits' ∧
    numFilters_ bf' = numFilters_ bf ∧
    (∀ e, e ∈ drop i es → BloomFilter.couldExist combineHashes bid (hk_hash (en_hk e)) bf' = Ok true) ∧
    (∀ k, BloomFilter.couldExist combineHashes bid k bf = Ok true →
       BloomFilter.couldExist combineHashes bid k bf' = Ok true) ∧
    (∀ j k, 0 ≤ j < numFilters_ bf → j ≠ bid →
       BloomFilter.couldExist combineHashes j k bf' = BloomFilter.couldExist combineHashes j k bf).
Proof.
  intros Hrep. revert bf bits i. induction fuel as [|fuel IH]; intros bf bits i Hwf Hb Hf; cbn [bfRebuild_loop];
    rewrite itr_done; (destruct (decide (length es ≤ i)%nat) as [Hge|Hlt];
     [rewrite bool_decide_eq_true_2 by done; exists bf, bits; rewrite drop_ge by done; split_and!; try done;
      by intros e ?%elem_of_nil|]); [lia|].
  rewrite bool_decide_eq_false_2 by done. destruct (drop_cons es i) as (e & He & ->); [lia|].
  destruct (read_entry Hrep i e He) as (r & -> & Hk & Hv). res_simpl.
  assert (keyHash_ r = hk_hash (en_hk e)) as ->.
  { unfold hashedKey in Hk. apply bind_Ok in Hk as (k & _ & [= <-]). done. }
  destruct (set_aux combineHashes bf bits bid (hk_hash (en_hk e)) Hwf Hb) as (bits1 & -> & Hwf1 & Hset & Hmono & Hoth).
  res_simpl. rewrite (itr_next Hrep) by lia. res_simpl.
  destruct (IH (with_bits bits1 bf) bits1 (S i) Hwf1 Hb) as (bf' & bits' & -> & Hwf' & Hn & Hin & Hm & Ho); [lia|].
  exists bf', bits'. split; [done|]. split; [done|]. split; [done|]. split_and!.
  - intros e' [->|He']%elem_of_cons; [by apply Hm|by apply Hin].
  - intros k Hk'. by apply Hm, Hmono.
  - intros j k Hj Hne. by rewrite Ho, Hoth.
Qed.

Lemma bfRebuild_spec bid b es st : geometry st → 0 ≤ bid < numBuckets_ st → bucket_rep b es →
  ∃ st', bfRebuild combineHashes bid b st = Ok st' ∧ bf_step bid st st' ∧ covered st' bid es.
Proof.
  intros Hg Hb Hrep. unfold bfRebuild. destruct (bloomFilter_ st) as [bf|] eqn:E.
  2:{ exists st. split; [done|]. split; [by apply bf_step_refl|]. intros e _. unfold bf_answer. by rewrite E. }
  destruct (geo_filters _ Hg bf E) as [Hn [bits Hwf]].
  destruct (clear_reset_aux combineHashes bf bits bid Hwf) as [(bits' & -> & Hwf' & _ & Hoth) _]; [by rewrite Hn|].
  res_simpl. rewrite (itr_first Hrep). res_simpl.
  destruct (bfRebuild_loop_spec bid b es (with_bits bits' bf) bits' 0 (slot_fuel (storage_ b)))
    as (bf' & bits2 & -> & Hwf2 & Hn2 & Hin & _ & Ho); [done|done|cbn; by rewrite Hn|rewrite (fuel_len b es) by done; lia|].
  res_simpl. eexists. split; [done|]. split.
  - assert (geometry (inc bfRebuildCount_ st)) as Hg' by (split; apply Hg).
    destruct (bf_step_bloom bid (inc bfRebuildCount_ st) bf bf' bits2) as [? Hfx ? ? Hno Hot]; try done.
    intros j k Hj Hne. by rewrite Ho, Hoth.
  - intros e He. unfold bf_answer. cbn [bloomFilter_ with_bloom]. by rewrite Hin.
Qed.

(** *** The engine as a whole *)
(** The entries of every bucket: what is on the device, each key once and in
    the bucket of its hash. *)
Record bh_wf st (C : Z → list Entry) : Prop := {
  bw_geo : geometry st;
  bw_holds : ∀ bid, 0 ≤ bid < numBuckets_ st → holds st bid (C bid);
  bw_keys : ∀ bid, NoDup (keys (C bid));
  bw_home : ∀ bid e, e ∈ C bid → hk_hash (en_hk e) mod numBuckets_ st = bid;
}.
Definition upd (C : Z → list Entry) bid es : Z → list Entry := λ b, if decide (b = bid) then es else C b.

(** An operation on bucket [bid]: the configuration stays, the device changes
    in that bucket only and the other filters answer as before. *)
Record step bid st st' : Prop := {
  sp_geo : geometry st';
  sp_fixed : checkExpired_ st' = checkExpired_ st ∧ destructorCb_ st' = destructorCb_ st ∧
    bucketSize_ st' = bucketSize_ st ∧ cacheBaseOffset_ st' = cacheBaseOffset_ st ∧
    numBuckets_ st' = numBuckets_ st ∧ generationTime_ st' = generationTime_ st;
  sp_device : only_changed (bucket_off st bid) (bucketSize_ st) (device_ st) (device_ st');
  sp_filter : bloomFilter_ st = None ↔ bloomFilter_ st' = None;
  sp_others : ∀ b h, 0 ≤ b < numBuckets_ st → b ≠ bid → bf_answer st' b h = bf_answer st b h;
}.

Lemma only_changed_refl off n d : only_changed off n d d.
Proof. done. Qed.
Lemma only_changed_trans off n d1 d2 d3 : only_changed off n d1 d2 → only_changed off n d2 d3 → only_changed off n d1 d3.
Proof.
  intros (Hs & Hl & Ho) (Hs' & Hl' & Ho'). split; [by eapply same_config_trans|]. split; [by rewrite Hl'|].
  intros i Hi. by rewrite Ho', Ho.
Qed.
Lemma step_trans bid st1 st2 st3 : step bid st1 st2 → step bid st2 st3 → step bid st1 st3.
Proof.
  intros [G1 F1 D1 N1 O1] [G2 F2 D2 N2 O2]. unfold bucket_off in *.
  destruct F1 as (E1 & E2 & E3 & E4 & E5 & E6), F2 as (E1' & E2' & E3' & E4' & E5' & E6').
  split; [done|by split_and!; etrans; eauto|unfold bucket_off| |].
  - rewrite E3, E4 in D2. by eapply only_changed_trans.
  - by rewrite N1.
  - intros b h Hb Hne. rewrite O2, O1 by (done || by rewrite E5). done.
Qed.
Lemma step_bf bid st st' : bf_step bid st st' → step bid st st'.
Proof.
  intros [G (E1 & E2 & E3 & E4 & E5 & E6 & Ed) _ _ N O]. split; try done. rewrite Ed. apply only_changed_refl.
Qed.
Lemma step_counters bid st f : geometry st → step bid st (with_counters f st).
Proof. intros Hg. split; try done. split; apply Hg. Qed.
Lemma step_device bid st d : geometry st → 0 ≤ bid < numBuckets_ st →
  only_changed (bucket_off st bid) (bucketSize_ st) (device_ st) d → step bid st (with_device d st).
Proof.
  intros Hg Hb Hch. split; try done. destruct Hch as ((E1 & E2 & E3 & E4 & E5) & Hl & _).
  split; cbn [bucketSize_ numBuckets_ cacheBaseOffset_ device_ bloomFilter_ with_device]; rewrite ?E1, ?E2; try apply Hg.
  by apply (same_config_ok (device_ st)); [apply Hg|split_and!|].
Qed.

(** Buckets do not overlap. *)
Lemma step_holds bid st st' b es : step bid st st' → geometry st → 0 ≤ bid < numBuckets_ st →
  0 ≤ b < numBuckets_ st → b ≠ bid → holds st b es → holds st' b es.
Proof.
  intros [_ (_ & _ & E3 & E4 & _ & E6) Hd _ _] Hg Hb Hb' Hne. unfold holds, bucket_off in *.
  rewrite E3, E4, E6, (peek_outside _ _ _ _ (device_ st) (device_ st') Hd); [done|..].
  - pose proof (geo_base _ Hg). pose proof (geo_size _ Hg). nia.
  - pose proof (geo_size _ Hg). destruct (Z.lt_trichotomy b bid) as [|[|]]; [left; nia|done|right; nia].
Qed.

(** A completed operation. *)
Lemma step_wf bid st st' C es : bh_wf st C → 0 ≤ bid < numBuckets_ st → step bid st st' → holds st' bid es →
  NoDup (keys es) → (∀ e, e ∈ es → hk_hash (en_hk e) mod numBuckets_ st = bid) → bh_wf st' (upd C bid es).
Proof.
  intros Hwf Hb Hs Hh Hnd Hhome. pose proof (sp_fixed _ _ _ Hs) as (_ & _ & _ & _ & E5 & _).
  split; [apply Hs|..]; rewrite ?E5; unfold upd; intros b; case_decide as Hd; subst; try done.
  - intros Hb'. apply (step_holds bid st); try done; by apply Hwf.
  - apply Hwf.
  - apply Hwf.
Qed.
Lemma step_wf_same bid st st' C : bh_wf st C → 0 ≤ bid < numBuckets_ st → step bid st st' →
  holds st' bid (C bid) → bh_wf st' C.
Proof.
  intros Hwf Hb Hs Hh. pose proof (sp_fixed _ _ _ Hs) as (_ & _ & _ & _ & E5 & _).
  split; [apply Hs|..]; rewrite ?E5; try apply Hwf. intros b Hb'. destruct (decide (b = bid)) as [->|Hne]; [done|].
  apply (step_holds bid st); try done; by apply Hwf.
Qed.
Lemma holds_same_raw bid st st' es : step bid st st' → raw (impl_ (device_ st')) = raw (impl_ (device_ st)) →
  holds st bid es → holds st' bid es.
Proof.
  intros [_ (_ & _ & E3 & E4 & _ & E6) ((_ & _ & _ & _ & Ee) & _) _ _] Hr.
  unfold holds, bucket_off, peek. by rewrite E3, E4, E6, Ee, Hr.
Qed.

(** *** Accounting *)
Definition removed_count hk es : Z := match first_match hk es with Some _ => 1 | None => 0 end.
Lemma length_without hk es : Z.of_nat (length es) = removed_count hk es + Z.of_nat (length (without hk es)).
Proof.
  unfold removed_count, without, first_match. destruct (list_find _ es) as [[i e]|] eqn:E; [|done].
  apply list_find_Some in E as (Hi & _). pose proof (lookup_lt_Some _ _ _ Hi). rewrite length_delete by done. lia.
Qed.
Lemma length_space_for cap req check es : req ≤ cap →
  Z.of_nat (length es) = (space_counts cap req check es).1 + Z.of_nat (length (space_for cap req check es)) ∧
  0 ≤ (space_counts cap req check es).1.
Proof.
  intros Hr. destruct (space_for_spec cap req check es Hr) as [_ Hs]. revert Hs. unfold space_counts, space_for.
  destruct (Z.leb_spec req (cap - used es)) as [Hle|Hgt]; [cbn; lia|]. intros Hs.
  destruct (Hs Hgt) as (evicted & Hsp & Hl & _). pose proof (length_expired check es) as Hlen.
  apply (f_equal length) in Hsp. rewrite length_app in Hsp. cbn. lia.
Qed.

Lemma u64_plus_r a b : u64 (a + u64 b) = u64 (a + b).
Proof. unfold wrap. by rewrite Zplus_mod_idemp_r. Qed.
Lemma u64_minus_l a b : u64 (u64 a - b) = u64 (a - b).
Proof. unfold wrap. by rewrite Zminus_mod_idemp_l. Qed.

Lemma account_space_spec old new st : fits 32 old → fits 32 new →
  counters (account_space old new st) usedSizeBytes_ = u64 (counters st usedSizeBytes_ + old - new) ∧
  counters (account_space old new st) itemCount_ = counters st itemCount_.
Proof.
  unfold fits. intros Ho Hn. unfold account_space. destruct (Z.ltb_spec old new); (split; [|done]);
    cbn; rewrite (wrap_small 32) by (unfold fits; lia); f_equal; lia.
Qed.

Lemma insert_counters_spec hk v old new removed evicted expired st bid : geometry st → fits 32 old → fits 32 new →
  fits 32 (evicted + removed) →
  let st' := insert_counters hk v old new removed evicted expired st in
  step bid st st' ∧ device_ st' = device_ st ∧ bloomFilter_ st' = bloomFilter_ st ∧
  counters st' itemCount_ = u64 (counters st itemCount_ + 1 - (evicted + removed)) ∧
  counters st' usedSizeBytes_ = u64 (counters st usedSizeBytes_ + old - new).
Proof.
  intros Hg Ho Hn Hf st'. destruct (account_space_spec old new st Ho Hn) as [Hu Hi].
  assert (∃ f l, account_space old new st = with_counters f st ∧ st' =
    mkBigHash (checkExpired_ st) (destructorCb_ st) (bucketSize_ st) (cacheBaseOffset_ st) (numBuckets_ st)
      (bloomFilter_ st) (generationTime_ st) (device_ st) (counters st') l) as (f & l & E1 & E2).
  { unfold st', insert_counters, account_space. destruct (old <? new), (0 <? expired); by eexists _, _. }
  split; [rewrite E2; split; try done; split; apply Hg|]. split; [by rewrite E2|]. split; [by rewrite E2|].
  clear E2. unfold st', insert_counters. rewrite (wrap_small 32 (evicted + removed)) by done.
  split.
  - transitivity (u64 (u64 (counters (account_space old new st) itemCount_ + 1) - (evicted + removed)));
      [by destruct (0 <? expired)|by rewrite Hi, u64_minus_l].
  - transitivity (counters (account_space old new st) usedSizeBytes_); [by destruct (0 <? expired)|done].
Qed.

Lemma getBucketId_home st hk : geometry st →
  getBucketId st hk = hk_hash hk mod numBuckets_ st ∧ 0 ≤ hk_hash hk mod numBuckets_ st < numBuckets_ st.
Proof.
  intros Hg. pose proof (geo_num _ Hg). pose proof (Z.mod_pos_bound (hk_hash hk) (numBuckets_ st)).
  split; [|lia]. unfold getBucketId. apply wrap_small. unfold fits. lia.
Qed.

(** What [insert] of [e] leaves in a bucket that holds [es], and what it
    reports to the destructor callback. *)
Definition inserted st (e : Entry) es : list Entry :=
  space_for (capacity st) (slot_len e) (checkExpired_ st) (without (en_hk e) es) ++ [e].
Definition insert_events st (e : Entry) es : list event :=
  destroyed st (rehash hashKey <$>
    match first_match (en_hk e) es with Some (_, e0) => [(en_hk e0, en_value e0, Removed)] | None => [] end ++
    recycled true (space_gone (capacity st) (slot_len e) (checkExpired_ st) (without (en_hk e) es))).

Lemma inserted_keys st e es : NoDup (keys es) → NoDup (keys (inserted st e es)) ∧
  first_match (en_hk e) (inserted st e es) = Some (length (inserted st e es) - 1, e)%nat ∧
  ∀ e', e' ∈ inserted st e es → e' = e ∨ e' ∈ es.
Proof.
  intros Hnd. unfold inserted. destruct (keys_without es (en_hk e) Hnd) as [H1 H2].
  set (es1 := without (en_hk e) es) in *. set (kept := space_for _ _ _ es1).
  assert (kept `sublist_of` es1) as Hsub by apply space_for_sublist.
  assert (keys kept `sublist_of` keys es1) as Hks by by apply (fmap_sublist en_hk).
  destruct (append_fresh kept e) as [Hnd' Hfm];
    [by apply (sublist_NoDup _ _ H1)|by intros Hx; apply H2, (elem_of_sublist _ _ _ Hx)|].
  split; [done|]. split; [rewrite Hfm, length_app; do 2 f_equal; cbn; lia|].
  intros e'. rewrite elem_of_app, list_elem_of_singleton. intros [He| ->]; [right|by left].
  apply (elem_of_sublist _ _ _ He). etrans; [exact Hsub|apply without_sublist].
Qed.

(** *** Operations *)
(** The status, events and counters of a failed operation: the read failed
    and nothing changed, or the write failed and the bucket's filter, if there
    is one, rejects every key. *)
Definition failed_op (C : Z → list Entry) bid st (evs : list event) st' : Prop :=
  evs = [] ∧ counters st' itemCount_ = counters st itemCount_ ∧
  counters st' usedSizeBytes_ = counters st usedSizeBytes_ ∧
  ((bh_wf st' C ∧ bloomFilter_ st' = bloomFilter_ st) ∨
   (bloomFilter_ st ≠ None → ∀ k, bf_answer st' bid k = false)).

(** The update of the filter in [insert]. *)
Lemma insert_filter_spec st bid (e : Entry) b es es' (n : Z) : geometry st → 0 ≤ bid < numBuckets_ st →
  bucket_rep b es' → e ∈ es' → (∀ e', e' ∈ es' → e' = e ∨ e' ∈ es) →
  ∃ st', (if n =? 0 then bfSet combineHashes bid (hk_hash (en_hk e)) st else bfRebuild combineHashes bid b st) = Ok st' ∧
    bf_step bid st st' ∧ bf_answer st' bid (hk_hash (en_hk e)) = true ∧ (covered st bid es → covered st' bid es').
Proof.
  intros Hg Hb Hrep He Hin. destruct (n =? 0).
  - destruct (bfSet_spec bid (hk_hash (en_hk e)) st Hg Hb) as (st' & -> & Hs & Hset & Hmono).
    exists st'. split; [done|]. split; [done|]. split; [done|]. intros Hc e' He'.
    destruct (Hin e' He') as [->|He'']; [done|]. by apply Hmono, Hc.
  - destruct (bfRebuild_spec bid b _ st Hg Hb Hrep) as (st' & -> & Hs & Hc). exists st'. split; [done|].
    split; [done|]. split; [|done]. by apply Hc.
Qed.

(** Storing a changed bucket: [writeBucket], and [bfClear] when it fails. *)
Lemma store_spec st bid b es : geometry st → 0 ≤ bid < numBuckets_ st → bucket_rep b es →
  capacity_ (storage_ b) = capacity st → Bucket.generationTime_ b = u64 (generationTime_ st) →
  ∃ r st1, writeBucket checksum bid b st = Ok (r, st1) ∧ step bid st st1 ∧
    counters st1 = counters st ∧ bloomFilter_ st1 = bloomFilter_ st ∧
    (r = true → holds st1 bid es) ∧
    (r = false → ∃ st2, bfClear bid st1 = Ok st2 ∧ step bid st st2 ∧
       counters st2 itemCount_ = counters st itemCount_ ∧ counters st2 usedSizeBytes_ = counters st usedSizeBytes_ ∧
       (bloomFilter_ st ≠ None → ∀ k, bf_answer st2 bid k = false)).
Proof.
  intros Hg Hb Hrep Hcap Hgen.
  destruct (writeBucket_spec st bid b es Hg Hb Hrep Hcap Hgen) as (r & d & Hw & Hch & Hh).
  pose proof (step_device bid st d Hg Hb Hch) as Hs. exists r, (with_device d st).
  split; [done|]. split; [done|]. split; [done|]. split; [done|]. split; [done|]. intros _.
  destruct (bfClear_spec bid (with_device d st) (sp_geo _ _ _ Hs) Hb) as (st2 & Hc & Hs2 & Hf).
  exists st2. split; [done|]. split; [eapply step_trans; [exact Hs|by apply step_bf]|].
  destruct Hs2 as [_ _ Hi Hu _ _]. done.
Qed.

Lemma wf_counters st C f : bh_wf st C → bh_wf (with_counters f st) C.
Proof. intros Hwf. split; try apply Hwf. split; apply Hwf. Qed.

(** Loading a bucket. *)
Lemma load_spec st C bid : bh_wf st C → 0 ≤ bid < numBuckets_ st →
  ∃ r st', readBucket checksum bid st = Ok (r, st') ∧ step bid st st' ∧ bh_wf st' C ∧
    counters st' = counters st ∧ bloomFilter_ st' = bloomFilter_ st ∧
    ∀ b, r = Some b → bucket_rep b (C bid) ∧ capacity_ (storage_ b) = capacity st ∧
      Bucket.generationTime_ b = u64 (generationTime_ st).
Proof.
  intros Hwf Hb. pose proof (bw_geo _ _ Hwf) as Hg. pose proof (bw_holds _ _ Hwf bid Hb) as Hh.
  destruct (readBucket_spec st bid _ Hg Hb Hh) as (r & d & -> & Hsc & Hraw & Hr). exists r, (with_device d st).
  assert (step bid st (with_device d st)) as Hs.
  { apply step_device; [done|done|]. split; [done|]. split; [by rewrite Hraw|]. intros i _. by rewrite Hraw. }
  split; [done|]. split; [done|]. split; [|done]. apply (step_wf_same bid st); try done.
  by apply (holds_same_raw bid st).
Qed.

(** [remove] then [insert] on the bucket, as [BigHash::insert] does. *)
Lemma upsert_spec b es e check : bucket_rep b es → entry_ok e → slot_len e ≤ capacity_ (storage_ b) →
  let es' := space_for (capacity_ (storage_ b)) (slot_len e) check (without (en_hk e) es) ++ [e] in
  ∃ n m b1 b2, Bucket.remove (en_hk e) true b = Ok (removed_count (en_hk e) es,
      match first_match (en_hk e) es with Some (_, e0) => [(en_hk e0, en_value e0, Removed)] | None => [] end, b1) ∧
    Bucket.insert (en_hk e) (en_value e) check true b1 =
      Ok (n, m, recycled true (space_gone (capacity_ (storage_ b)) (slot_len e) check (without (en_hk e) es)), b2) ∧
    bucket_rep b2 es' ∧ capacity_ (storage_ b2) = capacity_ (storage_ b) ∧
    Bucket.generationTime_ b2 = Bucket.generationTime_ b ∧
    remainingBytes b = capacity_ (storage_ b) - used es ∧ remainingBytes b2 = capacity_ (storage_ b) - used es' ∧
    fits 32 (remainingBytes b) ∧ fits 32 (remainingBytes b2) ∧ fits 32 (n + removed_count (en_hk e) es) ∧
    n + removed_count (en_hk e) es = Z.of_nat (length es) + 1 - Z.of_nat (length es').
Proof.
  intros Hrep Hok Hle es'. destruct (bucket_remove_aux b es (en_hk e) true Hrep) as (b1 & Hrm & Hb1 & Hc1).
  destruct (Bucket.insert_aux b1 _ e check true Hb1 Hok) as (b2 & Hin & Hb2 & Hc2); [by rewrite Hc1|].
  rewrite Hc1 in *. fold es' in Hb2. destruct (space_counts _ _ _ _) as [n m] eqn:Ecnt. exists n, m, b1, b2.
  assert (Bucket.generationTime_ b2 = Bucket.generationTime_ b) as Hgen.
  { rewrite (insert_generation _ _ _ _ _ _ _ Hin).
    destruct (first_match (en_hk e) es) as [[]|]; by apply remove_generation in Hrm. }
  pose proof (length_space_for (capacity_ (storage_ b)) (slot_len e) check (without (en_hk e) es) Hle) as Hlen.
  rewrite Ecnt in Hlen. cbn [fst] in Hlen. pose proof (length_without (en_hk e) es) as Hlw.
  pose proof (used_bounds b es Hrep) as Hub. pose proof (used_bounds b2 _ Hb2) as Hub2.
  assert (0 ≤ removed_count (en_hk e) es) by (unfold removed_count; case_match; lia).
  assert (Z.of_nat (length es') = Z.of_nat (length (space_for (capacity_ (storage_ b)) (slot_len e) check
    (without (en_hk e) es))) + 1) as Hle' by (unfold es'; rewrite length_app; cbn; lia).
  split; [rewrite Hrm; unfold removed_count; by destruct (first_match _ _) as [[]|]|].
  split; [done|]. split; [done|]. split; [done|]. split; [done|].
  unfold remainingBytes. rewrite (remaining b es Hrep), (remaining b2 es' Hb2), Hc2. unfold fits. split_and!; lia.
Qed.

(** What a successful [insert] of [e] leaves. *)
Definition insert_post (C : Z → list Entry) (e : Entry) bid st (evs : list event) st' : Prop :=
  bh_wf st' (upd C bid (inserted st e (C bid))) ∧
  bf_answer st' bid (hk_hash (en_hk e)) = true ∧
  (covered st bid (C bid) → covered st' bid (inserted st e (C bid))) ∧
  evs = insert_events st e (C bid) ∧
  counters st' itemCount_ = u64 (counters st itemCount_ + Z.of_nat (length (inserted st e (C bid))) -
                                 Z.of_nat (length (C bid))) ∧
  counters st' usedSizeBytes_ = u64 (counters st usedSizeBytes_ + used (inserted st e (C bid)) - used (C bid)).

(** Entry and use counts change by what the bucket gained. *)
Lemma insert_done_spec st C e st4 old new n m evs :
  let bid := hk_hash (en_hk e) mod numBuckets_ st in
  let st5 := insert_counters (en_hk e) (en_value e) old new (removed_count (en_hk e) (C bid)) n m st4 in
  bh_wf st C → step bid st st4 → holds st4 bid (inserted st e (C bid)) →
  bf_answer st4 bid (hk_hash (en_hk e)) = true → (covered st bid (C bid) → covered st4 bid (inserted st e (C bid))) →
  counters st4 itemCount_ = counters st itemCount_ → counters st4 usedSizeBytes_ = counters st usedSizeBytes_ →
  fits 32 old → fits 32 new → fits 32 (n + removed_count (en_hk e) (C bid)) →
  n + removed_count (en_hk e) (C bid) = Z.of_nat (length (C bid)) + 1 - Z.of_nat (length (inserted st e (C bid))) →
  old - new = used (inserted st e (C bid)) - used (C bid) → evs = insert_events st e (C bid) →
  step bid st st5 ∧ insert_post C e bid st evs st5.
Proof.
  intros bid st5 Hwf Hs Hh Ha Hcov Hi Hu Hf1 Hf2 Hfn Hn Hon ->. pose proof (bw_geo _ _ Hwf) as Hg.
  destruct (getBucketId_home st (en_hk e) Hg) as [_ Hb]. fold bid in Hb.
  destruct (insert_counters_spec (en_hk e) (en_value e) old new (removed_count (en_hk e) (C bid)) n m st4 bid
    (sp_geo _ _ _ Hs) Hf1 Hf2 Hfn) as (Hs5 & Hd5 & Hbf5 & Hi5 & Hu5). fold st5 in Hs5, Hd5, Hbf5, Hi5, Hu5.
  pose proof (step_trans _ _ _ _ Hs Hs5) as Hs05. split; [done|].
  destruct (inserted_keys st e (C bid) (bw_keys _ _ Hwf bid)) as (Hnd & _ & Hin).
  assert (∀ k, bf_answer st5 bid k = bf_answer st4 bid k) as Ha5 by (intros k; unfold bf_answer; by rewrite Hbf5).
  split; [|split; [by rewrite Ha5|split; [|split; [done|]]]].
  - apply (step_wf bid st); try done; [by apply (holds_same_raw bid st4); [done|by rewrite Hd5|]|].
    intros e' [->|He']%Hin; [done|by apply Hwf].
  - intros Hc e' He'. rewrite Ha5. by apply Hcov.
  - rewrite Hi5, Hu5, Hi, Hu, Hn. split; f_equal; lia.
Qed.

Lemma bighash_insert_aux st C e : bh_wf st C → entry_ok e → slot_len e ≤ capacity st →
  let bid := hk_hash (en_hk e) mod numBuckets_ st in
  ∃ s evs st', insert checksum combineHashes hashKey (en_hk e) (en_value e) st = Ok (s, evs, st') ∧ step bid st st' ∧
    match s with
    | SOk => insert_post C e bid st evs st'
    | DeviceError => failed_op C bid st evs st'
    | _ => False
    end.
Proof.
  intros Hwf Hok Hle bid. pose proof (bw_geo _ _ Hwf) as Hg. destruct (getBucketId_home st (en_hk e) Hg) as [Hid Hb].
  fold bid in Hid, Hb. set (es := C bid). unfold insert. rewrite Hid. set (st1 := inc insertCount_ st).
  assert (step bid st st1) as Hs1 by by apply step_counters.
  destruct (load_spec st1 C bid) as (r & st2 & -> & Hs2 & Hwf2 & Hc2 & Hf2 & Hr); [by apply wf_counters|done|].
  res_simpl. pose proof (step_trans _ _ _ _ Hs1 Hs2) as Hs. destruct r as [b|].
  2:{ eexists DeviceError, _, _. split; [done|]. split; [eapply step_trans; [exact Hs|apply step_counters, Hs]|].
      split_and!; [done|cbn; by rewrite Hc2..|left; split; [by apply wf_counters|exact Hf2]]. }
  destruct (Hr b eq_refl) as (Hrep & Hcap & Hgen). clear Hr. fold es in Hrep. change (capacity st1) with (capacity st) in Hcap.
  pose proof (sp_fixed _ _ _ Hs) as (Ece & Ecb & Ebs & Ebo & Enb & Egt).
  destruct (upsert_spec b es e (checkExpired_ st2) Hrep Hok) as
    (n & m & b1 & b2 & -> & H2); [by rewrite Hcap|]. res_simpl. rewrite Ece, Hcap in H2. rewrite Ece.
  destruct H2 as (-> & Hb2 & Hcap2 & Hgen2 & Hr1 & Hr2 & Hf1 & Hf2' & Hfn & Hn). res_simpl.
  fold (inserted st e es) in *. rewrite (wrap_small 32) by (by rewrite Z.add_comm).
  destruct (inserted_keys st e es (bw_keys _ _ Hwf bid)) as (_ & _ & Hin).
  destruct (insert_filter_spec st2 bid e b2 es _ (removed_count (en_hk e) es + n) (sp_geo _ _ _ Hs)
    ltac:(by rewrite Enb) Hb2) as (st3 & -> & Hs3 & Ha3 & Hcov3);
    [unfold inserted; apply elem_of_app; right; by apply list_elem_of_singleton|done|]. res_simpl.
  pose proof (step_trans _ _ _ _ Hs (step_bf _ _ _ Hs3)) as Hs03.
  pose proof (sp_fixed _ _ _ Hs03) as (Ece3 & Ecb3 & Ebs3 & Ebo3 & Enb3 & Egt3).
  destruct (store_spec st3 bid b2 _ (bs_geo _ _ _ Hs3) ltac:(by rewrite Enb3) Hb2) as
    (ok & st4 & -> & Hs4 & Hc4 & Hf4 & Hok4 & Hbad4);
    [rewrite Hcap2; unfold capacity; by rewrite Ebs3|rewrite Hgen2, Egt3; exact Hgen|]. res_simpl.
  pose proof (step_trans _ _ _ _ Hs03 Hs4) as Hs04.
  assert (counters st3 itemCount_ = counters st itemCount_) as Hi3 by (rewrite (bs_items _ _ _ Hs3), Hc2; done).
  assert (counters st3 usedSizeBytes_ = counters st usedSizeBytes_) as Hu3 by (rewrite (bs_used _ _ _ Hs3), Hc2; done).
  destruct ok; cbn [negb].
  - destruct (insert_done_spec st C e st4 (remainingBytes b) (remainingBytes b2) n m (insert_events st e es)) as [Hs5 Hp];
      try done; try (by rewrite Hc4); try (rewrite Hr1, Hr2; fold bid es; lia).
    + by apply Hok4.
    + unfold bf_answer in *. by rewrite Hf4.
    + intros Hcov e' He'. unfold bf_answer. rewrite Hf4. apply Hcov3; [|done]. intros e'' He''. specialize (Hcov e'' He'').
      unfold bf_answer in *. rewrite Hf2. exact Hcov.
    + eexists SOk, _, _. split; [done|]. fold bid es in Hs5, Hp. split; [done|].
      unfold destroyed. pose proof (sp_fixed _ _ _ Hs5) as (_ & -> & _). done.
  - destruct (Hbad4 eq_refl) as (st5 & -> & Hs5 & Hi5 & Hu5 & Hf5). res_simpl.
    pose proof (step_trans _ _ _ _ Hs03 Hs5) as Hs05.
    eexists DeviceError, _, _. split; [done|]. split; [eapply step_trans; [exact Hs05|apply step_counters, Hs05]|].
    split; [done|]. split; [rewrite <- Hi3; exact Hi5|]. split; [rewrite <- Hu3; exact Hu5|]. right.
    intros Hne. apply Hf5. intros HN. apply Hne, (sp_filter _ _ _ Hs03), HN.
Qed.

(** Nothing but the other counters and the device's own state changed. *)
Record quiet (C : Z → list Entry) bid st st' : Prop := {
  q_wf : bh_wf st' C;
  q_step : step bid st st';
  q_filter : bloomFilter_ st' = bloomFilter_ st;
  q_items : counters st' itemCount_ = counters st itemCount_;
  q_used : counters st' usedSizeBytes_ = counters st usedSizeBytes_;
}.
Lemma quiet_trans C bid st1 st2 st3 : quiet C bid st1 st2 → quiet C bid st2 st3 → quiet C bid st1 st3.
Proof. intros [] []. split; [done|by eapply step_trans|congruence..]. Qed.
Lemma quiet_inc C bid st c : bh_wf st C → c ≠ itemCount_ → c ≠ usedSizeBytes_ → quiet C bid st (inc c st).
Proof.
  intros Hwf H1 H2. split; [by apply wf_counters|apply step_counters, Hwf|done|..]; unfold inc, cadd, cset; cbn;
    rewrite decide_False by congruence; done.
Qed.

(** The filter check and the read at the start of [lookup] and [remove]. *)
Lemma probe_spec st C hk c : bh_wf st C → c ≠ itemCount_ → c ≠ usedSizeBytes_ →
  let bid := hk_hash hk mod numBuckets_ st in
  ∃ st2, bfReject combineHashes bid (hk_hash hk) (inc c st) = Ok (negb (bf_answer st bid (hk_hash hk)), st2) ∧
    quiet C bid st st2 ∧
    ∃ r st3, readBucket checksum bid st2 = Ok (r, st3) ∧ quiet C bid st st3 ∧
      ∀ b, r = Some b → bucket_rep b (C bid) ∧ capacity_ (storage_ b) = capacity st ∧
        Bucket.generationTime_ b = u64 (generationTime_ st).
Proof.
  intros Hwf H1 H2 bid. pose proof (quiet_inc C bid st c Hwf H1 H2) as Q1. pose proof (bw_geo _ _ Hwf) as Hg.
  destruct (getBucketId_home st hk Hg) as [_ Hb]. fold bid in Hb.
  destruct (bfReject_spec bid (hk_hash hk) (inc c st) (bw_geo _ _ (q_wf _ _ _ _ Q1)) Hb) as (st2 & Hr & Hs & Hf).
  assert (quiet C bid (inc c st) st2) as Q2.
  { split; [|by apply step_bf|done|apply Hs|apply Hs]. apply (step_wf_same bid (inc c st)); [apply Q1|done|by apply step_bf|].
    apply (holds_same_raw bid (inc c st)); [by apply step_bf| |by apply Q1].
    destruct Hs as [_ (_ & _ & _ & _ & _ & _ & ->) _ _ _ _]. done. }
  exists st2. split; [done|]. pose proof (quiet_trans _ _ _ _ _ Q1 Q2) as Q. split; [done|].
  pose proof (sp_fixed _ _ _ (q_step _ _ _ _ Q)) as (_ & _ & Ebs & _ & Enb & Egt).
  destruct (load_spec st2 C bid (q_wf _ _ _ _ Q)) as (r & st3 & -> & Hs3 & Hwf3 & Hc3 & Hf3 & Hrr); [by rewrite Enb|].
  exists r, st3. split; [done|]. split; [|unfold capacity in *; by rewrite Ebs, Egt in Hrr].
  apply (quiet_trans _ _ _ st2); [done|]. split; try done; by rewrite Hc3.
Qed.

Lemma first_match_in es hk i e : first_match hk es = Some (i, e) → e ∈ es ∧ en_hk e = hk.
Proof.
  intros (Hi & He & _)%list_find_Some. split; [by eapply list_elem_of_lookup_2|]. symmetry. by apply hk_eq_spec.
Qed.
Lemma first_match_none es hk : first_match hk es = None → hk ∉ keys es.
Proof.
  intros Hn (e & -> & He)%list_elem_of_fmap. apply list_find_None in Hn. rewrite Forall_forall in Hn.
  by apply (Hn e He), hk_eq_spec.
Qed.
(** A key the filter rejects has no entry, if no entry is hidden. *)
Lemma rejected_absent st bid es hk : covered st bid es → bf_answer st bid (hk_hash hk) = false → hk ∉ keys es.
Proof. intros Hc Ha (e & -> & He)%list_elem_of_fmap. rewrite (Hc e He) in Ha. done. Qed.

Lemma bighash_lookup_aux st C hk : bh_wf st C →
  let bid := hk_hash hk mod numBuckets_ st in
  ∃ s v st', lookup checksum combineHashes hk st = Ok (s, v, st') ∧ bh_wf st' C ∧ step bid st st' ∧
    bloomFilter_ st' = bloomFilter_ st ∧
    match s with
    | SOk => ∃ e, e ∈ C bid ∧ en_hk e = hk ∧ v = Some (en_value e)
    | NotFound => v = None ∧ (covered st bid (C bid) → hk ∉ keys (C bid))
    | DeviceError => v = None
    | _ => False
    end.
Proof.
  intros Hwf bid. destruct (getBucketId_home st hk (bw_geo _ _ Hwf)) as [Hid Hb].
  fold bid in Hid, Hb. unfold lookup. rewrite Hid.
  destruct (probe_spec st C hk lookupCount_ Hwf) as (st2 & Hrj & Q2 & r & st3 & Hrd & Q3 & Hr); [done..|].
  fold bid in Hrj, Hrd, Q2, Q3, Hr. rewrite Hrj. res_simpl. destruct (bf_answer st bid (hk_hash hk)) eqn:Ha; cbn [negb].
  2:{ exists NotFound, None, st2. destruct Q2. split_and!; try done. intros Hc. by apply (rejected_absent st bid). }
  rewrite Hrd. res_simpl.
  assert (∀ c, c ≠ itemCount_ → c ≠ usedSizeBytes_ → quiet C bid st (inc c st3)) as Q
    by (intros; eapply quiet_trans; [exact Q3|apply quiet_inc; [apply Q3|done..]]).
  destruct r as [b|].
  2:{ destruct (Q ioErrorCount_); [done..|]. by eexists DeviceError, None, _. }
  destruct (Hr b eq_refl) as (Hrep & _). rewrite (find_aux b _ hk Hrep). res_simpl.
  destruct (first_match hk (C bid)) as [[i e]|] eqn:E; cbn [fmap option_fmap option_map].
  - apply first_match_in in E as [He1 He2]. destruct (Q succLookupCount_); [done..|].
    eexists SOk, _, _. split_and!; try done. by exists e.
  - destruct (Q bfFalsePositiveCount_); [done..|]. eexists NotFound, _, _. split_and!; try done.
    intros _. by apply first_match_none.
Qed.

(** What a successful [remove] leaves. *)
Definition remove_post (C : Z → list Entry) hk bid st (evs : list event) st' : Prop :=
  ∃ e, e ∈ C bid ∧ en_hk e = hk ∧ bh_wf st' (upd C bid (without hk (C bid))) ∧ (hk ∉ keys (without hk (C bid))) ∧
    covered st' bid (without hk (C bid)) ∧ evs = destroyed st [(hk, en_value e, Removed)] ∧
    counters st' itemCount_ = u64 (counters st itemCount_ - 1) ∧
    counters st' usedSizeBytes_ = u64 (counters st usedSizeBytes_ - slot_len e).

Lemma used_without hk es i e : first_match hk es = Some (i, e) → used es = used (without hk es) + slot_len e.
Proof.
  intros E. unfold without. rewrite E. apply list_find_Some in E as (Hi & _).
  rewrite delete_take_drop, used_app. rewrite <- (take_drop_middle es i e Hi) at 1.
  rewrite used_app, used_cons. lia.
Qed.

Lemma remove_done_spec st C hk st5 i e n :
  let bid := hk_hash hk mod numBuckets_ st in
  let st6 := csub itemCount_ 1 (csub usedSizeBytes_ n st5) in
  let st7 := inc succRemoveCount_ (cadd physicalWrittenCount_ (bucketSize_ st6) st6) in
  bh_wf st C → first_match hk (C bid) = Some (i, e) → step bid st st5 → holds st5 bid (without hk (C bid)) →
  covered st5 bid (without hk (C bid)) →
  counters st5 itemCount_ = counters st itemCount_ → counters st5 usedSizeBytes_ = counters st usedSizeBytes_ →
  n = slot_len e → step bid st st7 ∧ remove_post C hk bid st (destroyed st7 [(hk, en_value e, Removed)]) st7.
Proof.
  intros bid st6 st7 Hwf Hfm Hs Hh Hcov Hi Hu ->. assert (step bid st5 st7) as Hs7 by apply (step_counters bid st5), Hs.
  pose proof (step_trans _ _ _ _ Hs Hs7) as Hs07. split; [done|].
  destruct (getBucketId_home st hk (bw_geo _ _ Hwf)) as [_ Hb]. fold bid in Hb.
  destruct (first_match_in _ _ _ _ Hfm) as [He1 He2]. destruct (keys_without (C bid) hk (bw_keys _ _ Hwf bid)) as [Hnd Hno].
  exists e. split; [done|]. split; [done|]. split; [|split; [done|split; [done|split]]].
  - apply (step_wf bid st); try done. intros e' He'. apply Hwf. by apply (elem_of_sublist _ _ _ He'), without_sublist.
  - unfold destroyed. pose proof (sp_fixed _ _ _ Hs07) as (_ & -> & _). done.
  - rewrite <- Hi, <- Hu. done.
Qed.

Lemma bighash_remove_aux st C hk : bh_wf st C →
  let bid := hk_hash hk mod numBuckets_ st in
  ∃ s evs st', remove checksum combineHashes hk st = Ok (s, evs, st') ∧ step bid st st' ∧
    match s with
    | SOk => remove_post C hk bid st evs st'
    | NotFound => evs = [] ∧ bh_wf st' C ∧ bloomFilter_ st' = bloomFilter_ st ∧
        counters st' itemCount_ = counters st itemCount_ ∧ counters st' usedSizeBytes_ = counters st usedSizeBytes_ ∧
        (covered st bid (C bid) → hk ∉ keys (C bid))
    | DeviceError => failed_op C bid st evs st'
    | _ => False
    end.
Proof.
  intros Hwf bid. destruct (getBucketId_home st hk (bw_geo _ _ Hwf)) as [Hid Hb].
  fold bid in Hid, Hb. unfold remove. rewrite Hid.
  destruct (probe_spec st C hk removeCount_ Hwf) as (st2 & Hrj & Q2 & r & st3 & Hrd & Q3 & Hr); [done..|].
  fold bid in Hrj, Hrd, Q2, Q3, Hr. rewrite Hrj. res_simpl. destruct (bf_answer st bid (hk_hash hk)) eqn:Ha; cbn [negb].
  2:{ exists NotFound, [], st2. destruct Q2. split_and!; try done. intros Hc. by apply (rejected_absent st bid). }
  rewrite Hrd. res_simpl.
  assert (∀ c, c ≠ itemCount_ → c ≠ usedSizeBytes_ → quiet C bid st (inc c st3)) as Q
    by (intros; eapply quiet_trans; [exact Q3|apply quiet_inc; [apply Q3|done..]]).
  destruct r as [b|].
  2:{ destruct (Q ioErrorCount_); [done..|]. eexists DeviceError, [], _. split; [done|]. split; [done|].
      split; [done|]. split; [done|]. split; [done|]. by left. }
  destruct (Hr b eq_refl) as (Hrep & Hcap & Hgen).
  destruct (bucket_remove_aux b _ hk true Hrep) as (b1 & Hrm & Hb1 & Hc1).
  destruct (first_match hk (C bid)) as [[i e]|] eqn:E.
  2:{ rewrite Hrm. res_simpl. destruct (Q bfFalsePositiveCount_); [done..|]. eexists NotFound, [], _. split_and!; try done.
      intros _. by apply first_match_none. }
  rewrite Hrm. res_simpl. apply remove_generation in Hrm. rewrite <- Hrm in Hgen. rewrite <- Hc1 in Hcap. cbn [Z.eqb].
  pose proof (sp_fixed _ _ _ (q_step _ _ _ _ Q3)) as (_ & Ecb & Ebs & _ & Enb & Egt).
  destruct (bfRebuild_spec bid b1 _ st3 (bw_geo _ _ (q_wf _ _ _ _ Q3)) ltac:(by rewrite Enb) Hb1) as (st4 & -> & Hs4 & Hcov4).
  res_simpl. pose proof (step_trans _ _ _ _ (q_step _ _ _ _ Q3) (step_bf _ _ _ Hs4)) as Hs04.
  pose proof (sp_fixed _ _ _ Hs04) as (_ & Ecb4 & Ebs4 & _ & Enb4 & Egt4).
  destruct (store_spec st4 bid b1 _ (bs_geo _ _ _ Hs4) ltac:(by rewrite Enb4) Hb1) as
    (ok & st5 & -> & Hs5 & Hc5 & Hf5 & Hok5 & Hbad5);
    [unfold capacity in *; by rewrite Ebs4|by rewrite Egt4|]. res_simpl.
  pose proof (step_trans _ _ _ _ Hs04 Hs5) as Hs05. pose proof (used_without hk _ i e E) as Huw.
  pose proof (used_bounds b _ Hrep) as Hub. pose proof (used_bounds b1 _ Hb1) as Hub1.
  assert (counters st4 itemCount_ = counters st itemCount_) as Hi4 by (rewrite (bs_items _ _ _ Hs4); apply Q3).
  assert (counters st4 usedSizeBytes_ = counters st usedSizeBytes_) as Hu4 by (rewrite (bs_used _ _ _ Hs4); apply Q3).
  unfold remainingBytes. rewrite (remaining b _ Hrep), (remaining b1 _ Hb1), Hc1. destruct ok; cbn [negb].
  - assert (0 ≤ slot_len e) by (unfold slot_len; lia). rewrite (proj2 (Z.leb_le _ _)) by lia. res_simpl.
    rewrite (wrap_small 32) by (unfold fits; lia).
    destruct (remove_done_spec st C hk st5 i e (capacity_ (storage_ b) - used (without hk (C bid)) -
      (capacity_ (storage_ b) - used (C bid)))) as [Hs6 Hp]; try done; try (by rewrite Hc5); [by apply Hok5| |lia|].
    { intros e' He'. unfold bf_answer. rewrite Hf5. by apply Hcov4. }
    destruct (first_match_in _ _ _ _ E) as [_ <-]. eexists SOk, _, _. split; [done|]. by split.
  - destruct (Hbad5 eq_refl) as (st6 & -> & Hs6 & Hi6 & Hu6 & Hf6). res_simpl.
    pose proof (step_trans _ _ _ _ Hs04 Hs6) as Hs06.
    eexists DeviceError, _, _. split; [done|]. split; [eapply step_trans; [exact Hs06|apply step_counters, Hs06]|].
    split; [done|]. split; [rewrite <- Hi4; exact Hi6|]. split; [rewrite <- Hu4; exact Hu6|]. right.
    intros Hne. apply Hf6. intros HN. apply Hne, (sp_filter _ _ _ Hs04), HN.
Qed.

(** C31: [insert] of an item that fits returns [Ok] or [DeviceError], never
    anything undefined.  After [Ok] the bucket of the key holds what it held
    without the key's old entry and without the entries expired or evicted for
    space, then the new entry; its filter admits the key and hides no entry if
    it hid none before; every entry that went is reported once to the
    destructor callback; item and byte counts change by what the bucket
    gained.  A failed read changes nothing; after a failed write the filter
    rejects every key of the bucket.  No other bucket or filter changes. *)
Theorem bighash_insert_spec st C e : bh_wf st C → entry_ok e → slot_len e ≤ capacity st →
  let bid := hk_hash (en_hk e) mod numBuckets_ st in
  ∃ s evs st', insert checksum combineHashes hashKey (en_hk e) (en_value e) st = Ok (s, evs, st') ∧ step bid st st' ∧
    match s with
    | SOk => insert_post C e bid st evs st'
    | DeviceError => failed_op C bid st evs st'
    | _ => False
    end.
Proof. apply bighash_insert_aux. Qed.

(** [lookup] returns [Ok] with the value of the key's entry, [NotFound],
    or [DeviceError]; it is [NotFound] only for a key without an entry, unless
    the filter hides entries.  It changes no bucket and no filter. *)
Theorem bighash_lookup_spec st C hk : bh_wf st C →
  let bid := hk_hash hk mod numBuckets_ st in
  ∃ s v st', lookup checksum combineHashes hk st = Ok (s, v, st') ∧ bh_wf st' C ∧ step bid st st' ∧
    bloomFilter_ st' = bloomFilter_ st ∧
    match s with
    | SOk => ∃ e, e ∈ C bid ∧ en_hk e = hk ∧ v = Some (en_value e)
    | NotFound => v = None ∧ (covered st bid (C bid) → hk ∉ keys (C bid))
    | DeviceError => v = None
    | _ => False
    end.
Proof. apply bighash_lookup_aux. Qed.

(** [remove] returns [Ok] after taking the key's entry out of its
    bucket, rebuilding the filter from what is left (so that it hides nothing),
    reporting the value and reducing the counts; [NotFound] changes nothing;
    errors are as for [insert]. *)
Theorem bighash_remove_spec st C hk : bh_wf st C →
  let bid := hk_hash hk mod numBuckets_ st in
  ∃ s evs st', remove checksum combineHashes hk st = Ok (s, evs, st') ∧ step bid st st' ∧
    match s with
    | SOk => remove_post C hk bid st evs st'
    | NotFound => evs = [] ∧ bh_wf st' C ∧ bloomFilter_ st' = bloomFilter_ st ∧
        counters st' itemCount_ = counters st itemCount_ ∧ counters st' usedSizeBytes_ = counters st usedSizeBytes_ ∧
        (covered st bid (C bid) → hk ∉ keys (C bid))
    | DeviceError => failed_op C bid st evs st'
    | _ => False
    end.
Proof. apply bighash_remove_aux. Qed.

(** [getMaxItemSize] is exact: with buckets that have room for a header
    and an empty entry, an item's key and value are within it if and only if
    the item fits an empty bucket (and [insert] accepts it). *)
Theorem bighash_max_item_exact st (e : Entry) : geometry st → 44 ≤ bucketSize_ st →
  Z.of_nat (length (hk_key (en_hk e))) + Z.of_nat (length (en_value e)) ≤ getMaxItemSize st ↔ slot_len e ≤ capacity st.
Proof.
  intros Hg Hsz. pose proof (geo_size _ Hg). unfold getMaxItemSize, capacity, slot_len. rewrite length_enc.
  change (slotSize sizeof_BucketEntry) with 20. unfold sizeof_Bucket. rewrite wrap_small by (unfold fits; lia). lia.
Qed.

(** *** Construction, reset and recovery *)
(** No bucket on the device carries the engine's generation and checksum. *)
Definition stale st : Prop := ∀ bid bs b, 0 ≤ bid < numBuckets_ st →
  peek (device_ st) (bucket_off st bid) (bucketSize_ st) = Some bs → bucket_at bs = Ok b →
  ¬ valid (generationTime_ st) bs b.
Lemma stale_wf st : geometry st → stale st → bh_wf st (λ _, []).
Proof.
  intros Hg Hs. split; [done|..|constructor|by intros ? ? ?%elem_of_nil].
  intros bid Hb. unfold holds, bytes_hold. destruct (peek _ _ _) as [bs|] eqn:E; [|done].
  intros b Hbk. rewrite decide_False; [done|]. by eapply Hs.
Qed.

Lemma bighash_reset_aux now st : geometry st →
  ∃ st', reset now st = Ok st' ∧ geometry st' ∧ generationTime_ st' = now ∧ device_ st' = device_ st ∧
    bucketSize_ st' = bucketSize_ st ∧ numBuckets_ st' = numBuckets_ st ∧ cacheBaseOffset_ st' = cacheBaseOffset_ st ∧
    counters st' itemCount_ = 0 ∧ counters st' usedSizeBytes_ = 0 ∧
    (bloomFilter_ st ≠ None → ∀ bid h, 0 ≤ bid < numBuckets_ st → bf_answer st' bid h = false) ∧
    (stale st' → bh_wf st' (λ _, [])).
Proof.
  intros Hg. unfold reset. cbn [bloomFilter_ with_generation]. destruct (bloomFilter_ st) as [bf|] eqn:E.
  - destruct (geo_filters _ Hg bf E) as [Hn [bits Hwf]]. pose proof (geo_num _ Hg).
    destruct (clear_reset_aux combineHashes bf bits 0 Hwf) as [_ (bits' & -> & Hwf' & Hk)]; [rewrite Hn; lia|].
    res_simpl. eexists. split; [done|].
    match goal with |- geometry ?s ∧ _ => assert (geometry s) as Hg' end.
    { split; cbn; try apply Hg. intros ? [= <-]. split; [done|by exists bits']. }
    split; [done|]. split_and!; try done; [|by apply stale_wf].
    intros _ bid h Hb. unfold bf_answer. cbn [bloomFilter_ with_counters with_bloom]. by rewrite Hk by (by rewrite Hn).
  - res_simpl. eexists. split; [done|].
    match goal with |- geometry ?s ∧ _ => assert (geometry s) as Hg' end.
    { split; cbn; try apply Hg. }
    split; [done|]. split_and!; try done. by apply stale_wf.
Qed.

(** The configurations [validate] accepts. *)
Definition valid_config (c : Config B) : Prop :=
  c_bucketSize c ≤ c_cacheSize c ∧ isPowTwo (c_bucketSize c) = true ∧ c_cacheSize c ≤ c_bucketSize c * 2 ^ 32 ∧
  c_cacheBaseOffset c mod c_bucketSize c = 0 ∧ c_cacheSize c mod c_bucketSize c = 0 ∧ c_device c ≠ None ∧
  (∀ bf, c_bloomFilter c = Some bf → numFilters_ bf = numBuckets c).

Lemma validate_aux (c : Config B) :
  (validate c = Ok tt ∧ valid_config c) ∨ (validate c = Throw InvalidArgument ∧ ¬ valid_config c).
Proof.
  unfold validate, valid_config. rewrite Z.shiftl_mul_pow2 by done.
  destruct (Z.ltb_spec (c_cacheSize c) (c_bucketSize c)); res_simpl; [right; split; [done|lia]|].
  destruct (isPowTwo (c_bucketSize c)); res_simpl; [|right; by split; [|intros (_ & ? & _)]].
  destruct (Z.ltb_spec (c_bucketSize c * 2 ^ 32) (c_cacheSize c)); res_simpl; [right; split; [done|lia]|].
  destruct (Z.eqb_spec (c_cacheBaseOffset c mod c_bucketSize c) 0); res_simpl; [|right; by split; [|intuition]].
  destruct (Z.eqb_spec (c_cacheSize c mod c_bucketSize c) 0); res_simpl; [|right; by split; [|intuition]].
  destruct (c_device c) as [d|]; res_simpl; [|right; by split; [|intuition]].
  destruct (c_bloomFilter c) as [bf|]; res_simpl; [|left; by split_and!].
  destruct (Z.eqb_spec (numFilters_ bf) (numBuckets c)) as [E|E]; res_simpl.
  - left. split_and!; try done. by intros ? [= <-].
  - right. split; [done|]. intros (_ & _ & _ & _ & _ & _ & Hx). by apply E, Hx.
Qed.

(** C33: the constructor throws [invalid_argument] on every configuration that is
    not valid.  On a valid one, over a well-formed device that holds the whole range
    and whose alignment divides the bucket size, and with buckets large enough for
    their header, which [validate] does not check, it yields an engine whose
    bucket offsets do not overflow, stay in the configured range and are
    aligned; it is empty when no bucket on the device carries its generation. *)
Theorem bighash_new_spec (c : Config B) now : fits 32 (c_bucketSize c) → fits 64 (c_cacheBaseOffset c) →
  (¬ valid_config c → BigHash_new c now = Throw InvalidArgument) ∧
  (∀ d, valid_config c → c_device c = Some d → device_ok d → 24 ≤ c_bucketSize c →
     c_cacheBaseOffset c + c_cacheSize c ≤ size_ d → (ioAlignmentSize_ d | c_bucketSize c) →
     (∀ bf, c_bloomFilter c = Some bf → ∃ bits, bf_wf bf bits) →
     ∃ st, BigHash_new c now = Ok st ∧ geometry st ∧ bucketSize_ st * numBuckets_ st = c_cacheSize c ∧
       (∀ bid, 0 ≤ bid < numBuckets_ st → getBucketOffset st bid = bucket_off st bid ∧
          c_cacheBaseOffset c ≤ bucket_off st bid ∧
          bucket_off st bid + bucketSize_ st ≤ c_cacheBaseOffset c + c_cacheSize c) ∧
       (stale st → bh_wf st (λ _, []))).
Proof.
  intros Hf1 Hf2. unfold BigHash_new. destruct (validate_aux c) as [[-> Hv]|[-> Hv]]; (split; [done|]); [|done].
  intros d _ Hd Hdok Hsz Hend Hal Hbf. rewrite Hd. res_simpl.
  destruct Hv as (Hv1 & _ & Hv3 & Hv4 & Hv5 & _ & Hv7). unfold fits in *.
  apply Z.mod_divide in Hv4; [|lia]. apply Z.mod_divide in Hv5; [|lia]. destruct Hv5 as [q Hq].
  assert (numBuckets c = q) as Hn by (unfold numBuckets; rewrite Hq; apply Z.div_mul; lia).
  assert (c_bucketSize c * q = c_cacheSize c) as Hq' by lia.
  match goal with |- context [reset now ?s] => assert (geometry s) as Hg; [|destruct (bighash_reset_aux now s Hg)
    as (st & -> & Hg' & _ & _ & Eb & En & Eo & _ & _ & _ & Hst)] end.
  { split; cbn; rewrite ?Hn; try done; try lia; [nia|split; [done|by etrans]|].
    intros bf Ebf. split; [by rewrite <- Hn; apply Hv7|by apply Hbf]. }
  cbn [bucketSize_ numBuckets_ cacheBaseOffset_] in Eb, En, Eo. rewrite Hn in En.
  exists st. split; [done|]. split; [done|]. split; [by rewrite Eb, En|]. split; [|done].
  intros bid Hb. split; [by apply bucket_request|]. unfold bucket_off. rewrite Eb, Eo in *. rewrite En in Hb. nia.
Qed.

(** [reset] makes every bucket empty and every filter reject, provided
    the new generation time is on no bucket of the device. *)
Theorem bighash_reset_spec now st : geometry st →
  ∃ st', reset now st = Ok st' ∧ geometry st' ∧ generationTime_ st' = now ∧ device_ st' = device_ st ∧
    bucketSize_ st' = bucketSize_ st ∧ numBuckets_ st' = numBuckets_ st ∧ cacheBaseOffset_ st' = cacheBaseOffset_ st ∧
    counters st' itemCount_ = 0 ∧ counters st' usedSizeBytes_ = 0 ∧
    (bloomFilter_ st ≠ None → ∀ bid h, 0 ≤ bid < numBuckets_ st → bf_answer st' bid h = false) ∧
    (stale st' → bh_wf st' (λ _, [])).
Proof. apply bighash_reset_aux. Qed.

(** Filters that one engine can recover from another's records. *)
Definition compatible_filters (o o0 : option BloomFilter) : Prop :=
  match o, o0 with
  | Some bf, Some bf0 => length (seeds_ bf0) = length (seeds_ bf) ∧ hashTableBitSize_ bf0 = hashTableBitSize_ bf ∧
      filterByteSize_ bf0 = filterByteSize_ bf ∧ fits 64 (filterByteSize_ bf) ∧ Forall (fits 64) (seeds_ bf)
  | None, None => True
  | _, _ => False
  end.

(** C32: restart.  An engine of the same configuration that recovers, on the
    same device, what [persist] wrote holds the same entries with the same
    filters and counts. *)
Theorem bighash_persist_recover st C st0 now : bh_wf st C → geometry st0 → device_ st0 = device_ st →
  bucketSize_ st0 = bucketSize_ st → cacheBaseOffset_ st0 = cacheBaseOffset_ st → numBuckets_ st0 = numBuckets_ st →
  compatible_filters (bloomFilter_ st) (bloomFilter_ st0) →
  fits 64 (counters st itemCount_) → fits 64 (counters st usedSizeBytes_) →
  ∃ pd rr st', persist st = Ok (pd, rr) ∧ recover now (Ok pd) rr st0 = Ok (true, st') ∧ bh_wf st' C ∧
    bloomFilter_ st' = bloomFilter_ st ∧ counters st' itemCount_ = counters st itemCount_ ∧
    counters st' usedSizeBytes_ = counters st usedSizeBytes_.
Proof.
  intros Hwf Hg0 Ed Eb Eo En Hcf Hi Hu. pose proof (bw_geo _ _ Hwf) as Hg. pose proof (geo_size _ Hg).
  pose proof (geo_num _ Hg). pose proof (geo_base _ Hg). pose proof (geo_end _ Hg).
  pose proof (dev_size_fits _ (geo_device _ Hg)).
  assert (∃ w, (match bloomFilter_ st with Some bf => BloomFilter.persist bf | None => Ok [] end) = Ok w ∧
    match bloomFilter_ st, bloomFilter_ st0 with
    | Some bf, Some bf0 => BloomFilter.recover bf0 w = Ok (bf, []) | None, None => True | _, _ => False end)
    as (w & Hw & Hrec).
  { destruct (bloomFilter_ st) as [bf|] eqn:E, (bloomFilter_ st0) as [bf0|] eqn:E0; try done; [|by exists []].
    destruct Hcf as (? & ? & ? & ? & ?). destruct (geo_filters _ Hg bf E) as [Hn [bits Hb]].
    destruct (geo_filters _ Hg0 bf0 E0) as [Hn0 [bits0 Hb0]].
    destruct (persist_recover_aux bf bits bf0 bits0) as (rr & Hp & Hr); try done; [congruence|].
    exists rr. split; [done|]. specialize (Hr []). by rewrite app_nil_r in Hr. }
  unfold persist. rewrite Hw. res_simpl. match goal with |- ∃ pd rr st', Ok (?p, w) = _ ∧ _ => exists p, w end. unfold recover.
  cbn [pd_version pd_bucketSize pd_cacheBaseOffset pd_numBuckets pd_generationTime pd_itemCount pd_usedSizeBytes].
  rewrite !(wrap_swrap 64) by (done || unfold fits; nia). rewrite (wrap_swrap 32) by done. rewrite Eb, Eo, En, !Z.eqb_refl.
  cbn [negb andb orb bloomFilter_ with_counters with_generation cset].
  assert (∀ st', device_ st' = device_ st → bucketSize_ st' = bucketSize_ st → cacheBaseOffset_ st' = cacheBaseOffset_ st →
    numBuckets_ st' = numBuckets_ st → generationTime_ st' = generationTime_ st → bloomFilter_ st' = bloomFilter_ st →
    bh_wf st' C) as Hsame.
  { intros st' F1 F2 F3 F4 F5 F6. split; [split|..]; unfold holds, bucket_off; rewrite ?F1, ?F2, ?F3, ?F4, ?F5, ?F6;
      try apply Hwf; apply Hg. }
  destruct (bloomFilter_ st) as [bf|] eqn:E, (bloomFilter_ st0) as [bf0|] eqn:E0; try done.
  - rewrite Hrec. eexists. split; [done|]. split; [done|]. split; [by apply Hsame|done].
  - eexists. split; [done|]. split; [done|]. split; [apply Hsame; done|done].
Qed.
End invariant.

(** ** Runs on a device that does not fail *)
Section runs.
Context {B : Type} `{DeviceReliable B, !DeviceImplLaws B}.
Context (checksum : list Z → Z) (combineHashes : Z → Z → Z) (hashKey : list Z → Z).
Context (checksum_fits : ∀ v, fits 32 (checksum v)).
Implicit Types (st : BigHash B) (bid : Z) (hk : HashedKey) (es : list Entry).

(** A device without an encryptor. *)
Definition plain st : Prop := encryptor_ (device_ st) = None.

Lemma readBucket_done bid st r st' : plain st → readBucket checksum bid st = Ok (r, st') → is_Some r ∧ plain st'.
Proof.
  unfold readBucket. intros Hp (n & _ & ([r0 d] & Hrd & Hr)%bind_Ok)%bind_Ok.
  destruct (read_done _ _ _ _ _ Hp Hrd) as [[bs ->] Hd]. apply bind_Ok in Hr as (b & _ & Hr).
  destruct (_ || _); injection Hr as <- <-; done.
Qed.
Lemma writeBucket_done bid b st r st' : plain st → writeBucket checksum bid b st = Ok (r, st') → r = true.
Proof. unfold writeBucket. intros Hp ([r0 d] & Hw & [= <- _])%bind_Ok. by apply write_done in Hw. Qed.

Lemma bfSet_device bid h st st' : bfSet combineHashes bid h st = Ok st' → device_ st' = device_ st.
Proof. unfold bfSet. destruct (bloomFilter_ st) as [bf0|]; [intros (bf & _ & [= <-])%bind_Ok|intros [= <-]]; done. Qed.
Lemma bfRebuild_device bid b st st' : bfRebuild combineHashes bid b st = Ok st' → device_ st' = device_ st.
Proof.
  unfold bfRebuild. destruct (bloomFilter_ st) as [bf0|]; [|by intros [= <-]].
  intros (bf & _ & (itr & _ & (bf' & _ & [= <-])%bind_Ok)%bind_Ok)%bind_Ok. done.
Qed.
Lemma bfReject_device bid h st r st' : bfReject combineHashes bid h st = Ok (r, st') → device_ st' = device_ st.
Proof.
  unfold bfReject. destruct (bloomFilter_ st) as [bf|]; [intros (b & _ & Hr)%bind_Ok|by intros [= _ <-]].
  destruct b; by injection Hr as _ <-.
Qed.

Lemma insert_no_error hk v st s evs st' : plain st →
  insert checksum combineHashes hashKey hk v st = Ok (s, evs, st') → s = SOk.
Proof.
  unfold insert. intros Hp ([r st1] & Hrd & Hi)%bind_Ok.
  destruct (readBucket_done _ (inc insertCount_ st) _ _ Hp Hrd) as [[b ->] Hp1].
  apply bind_Ok in Hi as ([[n ev] b1] & _ & ([[[n' m] ev'] b2] & _ & (st2 & Hf & ([ok st3] & Hw & Hi)%bind_Ok)%bind_Ok)%bind_Ok).
  assert (device_ st2 = device_ st1) as Hd by (destruct (_ =? 0); [by eapply bfSet_device|by eapply bfRebuild_device]).
  apply writeBucket_done in Hw as ->; [|unfold plain; by rewrite Hd]. by injection Hi.
Qed.
Lemma lookup_no_error hk st s v st' : plain st → lookup checksum combineHashes hk st = Ok (s, v, st') → s ≠ DeviceError.
Proof.
  unfold lookup. intros Hp ([rj st1] & Hrj%bfReject_device & Hi)%bind_Ok. destruct rj; [by injection Hi as <- _ _|].
  apply bind_Ok in Hi as ([r st2] & Hrd & Hi).
  destruct (readBucket_done _ st1 _ _ ltac:(unfold plain; by rewrite Hrj) Hrd) as [[b ->] _].
  apply bind_Ok in Hi as ([w|] & _ & [= <- _ _]); done.
Qed.
Lemma remove_no_error hk st s evs st' : plain st → remove checksum combineHashes hk st = Ok (s, evs, st') → s ≠ DeviceError.
Proof.
  unfold remove. intros Hp ([rj st1] & Hrj%bfReject_device & Hi)%bind_Ok. destruct rj; [by injection Hi as <- _ _|].
  apply bind_Ok in Hi as ([r st2] & Hrd & Hi).
  destruct (readBucket_done _ st1 _ _ ltac:(unfold plain; by rewrite Hrj) Hrd) as [[b ->] Hp2].
  apply bind_Ok in Hi as ([[n ev] b1] & _ & Hi). destruct (n =? 0); [by injection Hi as <- _ _|].
  apply bind_Ok in Hi as (st3 & Hf%bfRebuild_device & ([ok st4] & Hw & Hi)%bind_Ok).
  apply writeBucket_done in Hw as ->; [|unfold plain; by rewrite Hf]. apply bind_Ok in Hi as ([] & _ & [= <- _ _]). done.
Qed.

(** A client's calls. *)
Inductive op := OInsert (e : Entry) | OLookup (hk : HashedKey) | ORemove (hk : HashedKey).
Definition run_op (o : op) st : result (Status * option (list Z) * BigHash B) :=
  match o with
  | OInsert e => '(s, _, st) ← insert checksum combineHashes hashKey (en_hk e) (en_value e) st; Ok (s, None, st)
  | OLookup hk => lookup checksum combineHashes hk st
  | ORemove hk => '(s, _, st) ← remove checksum combineHashes hk st; Ok (s, None, st)
  end.
Fixpoint run (ops : list op) st : result (list (Status * option (list Z)) * BigHash B) :=
  match ops with
  | [] => Ok ([], st)
  | o :: ops => '(s, v, st) ← run_op o st; '(outs, st) ← run ops st; Ok ((s, v) :: outs, st)
  end.

(** The specification: a map of [n] buckets, each a queue of entries of
    bounded size from which expired and then oldest entries make room. *)
Definition spec_op (n cap : Z) (check : option (list Z → bool)) (o : op) (C : Z → list Entry)
    : Status * option (list Z) * (Z → list Entry) :=
  match o with
  | OInsert e =>
      let bid := hk_hash (en_hk e) mod n in
      (SOk, None, upd C bid (space_for cap (slot_len e) check (without (en_hk e) (C bid)) ++ [e]))
  | OLookup hk =>
      match first_match hk (C (hk_hash hk mod n)) with
      | Some (_, e) => (SOk, Some (en_value e), C) | None => (NotFound, None, C) end
  | ORemove hk =>
      let bid := hk_hash hk mod n in
      match first_match hk (C bid) with
      | Some _ => (SOk, None, upd C bid (without hk (C bid))) | None => (NotFound, None, C) end
  end.
Fixpoint spec_run (n cap : Z) (check : option (list Z → bool)) (ops : list op) (C : Z → list Entry)
    : list (Status * option (list Z)) * (Z → list Entry) :=
  match ops with
  | [] => ([], C)
  | o :: ops =>
      let '(s, v, C) := spec_op n cap check o C in
      let '(outs, C) := spec_run n cap check ops C in ((s, v) :: outs, C)
  end.
Definition op_ok (cap : Z) (o : op) : Prop :=
  match o with OInsert e => entry_ok e ∧ slot_len e ≤ cap | _ => True end.
Definition all_covered st (C : Z → list Entry) : Prop :=
  ∀ bid, 0 ≤ bid < numBuckets_ st → covered combineHashes st bid (C bid).

(** The configuration of the engine that the specification depends on. *)
Definition same_spec st st' : Prop :=
  numBuckets_ st' = numBuckets_ st ∧ capacity st' = capacity st ∧ checkExpired_ st' = checkExpired_ st.
Lemma step_spec bid st st' : step combineHashes bid st st' → plain st → plain st' ∧ same_spec st st'.
Proof.
  intros [_ (E1 & _ & E3 & _ & E5 & _) ((_ & _ & _ & _ & Ee) & _) _ _] Hp. unfold plain, same_spec, capacity.
  by rewrite Ee, E1, E3, E5.
Qed.
Lemma step_covered bid st st' C es : step combineHashes bid st st' → all_covered st C → 
  (0 ≤ bid < numBuckets_ st → covered combineHashes st' bid es) → all_covered st' (upd C bid es).
Proof.
  intros Hs Hc Hb b Hrange. pose proof (sp_fixed _ _ _ _ Hs) as (_ & _ & _ & _ & E5 & _). rewrite E5 in Hrange.
  unfold upd. case_decide as Hd; [subst; by apply Hb|]. intros e He. rewrite (sp_others _ _ _ _ Hs) by done.
  by apply Hc.
Qed.
Lemma filter_covered st st' C : bloomFilter_ st' = bloomFilter_ st → numBuckets_ st' = numBuckets_ st →
  all_covered st C → all_covered st' C.
Proof. intros Hf Hn Hc b Hb e He. rewrite Hn in Hb. specialize (Hc b Hb e He). unfold bf_answer in *. by rewrite Hf. Qed.

(** In a bucket with distinct keys, an entry with the key is the match. *)
Lemma first_match_unique es hk e : NoDup (keys es) → e ∈ es → en_hk e = hk → ∃ i, first_match hk es = Some (i, e).
Proof.
  intros Hnd He <-. destruct (first_match (en_hk e) es) as [[i e']|] eqn:E.
  - apply list_elem_of_lookup in He as [j Hj]. apply list_find_Some in E as (Hi & Heq & _). apply hk_eq_spec in Heq.
    assert (i = j) as ->; [|by exists j; congruence].
    apply (NoDup_lookup (keys es) i j (en_hk e)); [done|..]; unfold keys; rewrite list_lookup_fmap.
    + rewrite Hi. cbn. by rewrite Heq.
    + by rewrite Hj.
  - exfalso. apply (first_match_none _ _ E). by apply list_elem_of_fmap_2.
Qed.
Lemma first_match_absent es hk : hk ∉ keys es → first_match hk es = None.
Proof. intros Hn. apply find_first_match. intros e He <-. apply Hn. by apply list_elem_of_fmap_2. Qed.

Lemma op_refines o st C : plain st → bh_wf checksum st C → all_covered st C → op_ok (capacity st) o →
  let '(s, v, C') := spec_op (numBuckets_ st) (capacity st) (checkExpired_ st) o C in
  ∃ st', run_op o st = Ok (s, v, st') ∧ bh_wf checksum st' C' ∧ all_covered st' C' ∧ plain st' ∧ same_spec st st'.
Proof.
  intros Hp Hwf Hc Hok. destruct o as [e|hk|hk]; cbn [spec_op run_op op_ok] in *.
  - destruct Hok as [Hok Hle].
    destruct (bighash_insert_aux checksum combineHashes hashKey checksum_fits st C e Hwf Hok Hle)
      as (s & evs & st' & Hin & Hs & Hpost). rewrite Hin. res_simpl.
    apply insert_no_error in Hin as ->; [|done]. destruct Hpost as (Hwf' & _ & Hcov & _).
    exists st'. split; [done|]. split; [done|]. destruct (getBucketId_home st (en_hk e) (bw_geo _ _ _ Hwf)) as [_ Hb].
    split; [apply (step_covered _ st); [done|done|]; intros _; by apply Hcov, Hc|]. by eapply step_spec.
  - destruct (bighash_lookup_aux checksum combineHashes st C hk Hwf) as (s & v & st' & Hlk & Hwf' & Hs & Hf & Hpost).
    destruct (step_spec _ _ _ Hs Hp) as [Hp' Hsp]. pose proof (filter_covered _ _ _ Hf (proj1 Hsp) Hc) as Hc'.
    destruct (getBucketId_home st hk (bw_geo _ _ _ Hwf)) as [_ Hb].
    pose proof (lookup_no_error _ _ _ _ _ Hp Hlk) as Hne. destruct s; try done.
    + destruct Hpost as (e & He & Hk & ->). destruct (first_match_unique _ hk e (bw_keys _ _ _ Hwf _) He Hk) as [i ->].
      by exists st'.
    + destruct Hpost as [-> Hn]. rewrite first_match_absent by (apply Hn, Hc, Hb). by exists st'.
  - destruct (bighash_remove_aux checksum combineHashes checksum_fits st C hk Hwf) as (s & evs & st' & Hrm & Hs & Hpost).
    destruct (step_spec _ _ _ Hs Hp) as [Hp' Hsp]. destruct (getBucketId_home st hk (bw_geo _ _ _ Hwf)) as [_ Hb].
    pose proof (remove_no_error _ _ _ _ _ Hp Hrm) as Hne. rewrite Hrm. res_simpl. destruct s; try done.
    + destruct Hpost as (e & He & Hk & Hwf' & _ & Hcov & _).
      destruct (first_match_unique _ hk e (bw_keys _ _ _ Hwf _) He Hk) as [i ->].
      exists st'. split; [done|]. split; [done|]. split; [by apply (step_covered _ st)|done].
    + destruct Hpost as (_ & Hwf' & Hf & _ & _ & Hn). rewrite first_match_absent by (apply Hn, Hc, Hb).
      exists st'. split; [done|]. split; [done|]. split; [by apply (filter_covered st); [|apply Hsp|]|done].
Qed.

(** C13: refinement.  On a device that does not fail, from a well-formed
    state in which no filter hides an entry, any sequence of inserts of items
    that fit, lookups and removes runs to completion and returns exactly what
    the map of bounded queues returns, and ends in a state that represents the
    map's. *)
Theorem bighash_run_refines ops st C : plain st → bh_wf checksum st C → all_covered st C →
  Forall (op_ok (capacity st)) ops →
  let '(outs, C') := spec_run (numBuckets_ st) (capacity st) (checkExpired_ st) ops C in
  ∃ st', run ops st = Ok (outs, st') ∧ bh_wf checksum st' C' ∧ all_covered st' C'.
Proof.
  revert st C. induction ops as [|o ops IH]; intros st C Hp Hwf Hc Hok; cbn [spec_run run]; [by exists st|].
  apply Forall_cons in Hok as [Ho Hok]. pose proof (op_refines o st C Hp Hwf Hc Ho) as Hr.
  destruct (spec_op _ _ _ o C) as [[s v] C1]. destruct Hr as (st1 & Hrun & Hwf1 & Hc1 & Hp1 & (E1 & E2 & E3)).
  rewrite Hrun. res_simpl. specialize (IH st1 C1 Hp1 Hwf1 Hc1). rewrite E1, E2, E3 in IH. specialize (IH Hok).
  destruct (spec_run _ _ _ ops C1) as [outs C2]. destruct IH as (st2 & -> & Hwf2 & Hc2). res_simpl. by exists st2.
Qed.
End runs.

(** ** A concrete engine

    Two buckets of 128 bytes on a memory device, with the filters of
    [BloomFilter.bf_example] and toy checksum and hash functions. *)
Definition ex_checksum (v : list Z) : Z := u32 (foldr Z.add 1 v).
Definition ex_hashKey (k : list Z) : Z := le_val k.
Lemma ex_checksum_fits v : fits 32 (ex_checksum v).
Proof. by apply wrap_fits. Qed.
Definition ex_mem : Device MemoryDevice := mkDevice 256 1 0 0 None 0 0 0 0 0 0 (mkMemoryDevice (replicate 256 0)).
Definition ex_bh : BigHash MemoryDevice := mkBigHash None true 128 0 2 (Some bf_example) 7 ex_mem (λ _, 0) [].
(** Entries of 24 bytes in a slot: four fit a bucket. *)
Definition ex_item (k v : Z) : Entry := mkEntry (mkHashedKey [k] k) [v; v; v].

Lemma ex_mem_ok : device_ok ex_mem.
Proof. split; cbn; [done|done|by exists 0|split; [done|apply Z.divide_0_r]..|done]. Qed.
Lemma ex_bh_geometry : geometry ex_bh.
Proof.
  split; cbn; try done; [split; apply Z.divide_1_l|apply ex_mem_ok|].
  intros bf [= <-]. split; [done|]. exists (replicate 8 0). apply bf_example_wf.
Qed.
Lemma ex_bh_stale : stale ex_checksum ex_bh.
Proof.
  intros bid bs b Hb Hp Hbk [_ Hg].
  assert (bs = replicate 128 0) as ->.
  { assert (bid = 0 ∨ bid = 1) as [-> | ->] by (cbn in Hb; lia); by injection Hp as <-. }
  vm_compute in Hbk. injection Hbk as <-. vm_compute in Hg. done.
Qed.
Lemma ex_bh_wf : bh_wf ex_checksum ex_bh (λ _, []).
Proof. apply stale_wf; [apply ex_bh_geometry|apply ex_bh_stale]. Qed.

Lemma bighash_insert_spec_witness :
  let e := ex_item 3 30 in
  ∃ s evs st', insert ex_checksum bf_hash ex_hashKey (en_hk e) (en_value e) ex_bh = Ok (s, evs, st') ∧
    s = SOk ∧ counters st' itemCount_ = 1 ∧ counters st' usedSizeBytes_ = 24 ∧
    match s with
    | SOk => insert_post ex_checksum bf_hash ex_hashKey (λ _, []) e 1 ex_bh evs st'
    | DeviceError => failed_op ex_checksum bf_hash (λ _, []) 1 ex_bh evs st'
    | _ => False
    end.
Proof.
  cbv zeta. destruct (bighash_insert_spec ex_checksum bf_hash ex_hashKey ex_checksum_fits ex_bh (λ _, []) (ex_item 3 30)
    ex_bh_wf) as (s & evs & st' & Heq & _ & Hpost); [done|vm_compute; discriminate|].
  exists s, evs, st'. split; [exact Heq|]. vm_compute in Heq. injection Heq as <- <- <-. split_and!; [done..|exact Hpost].
Defined.

Lemma bighash_max_item_exact_witness : getMaxItemSize ex_bh = 84 ∧ (1 + 3 ≤ getMaxItemSize ex_bh ↔ 24 ≤ 104).
Proof. split; [reflexivity|]. apply (bighash_max_item_exact ex_bh (ex_item 1 10) ex_bh_geometry). done. Defined.
(** Smaller buckets make the size wrap around. *)
Lemma getMaxItemSize_wraps : getMaxItemSize (mkBigHash None true 32 0 2 None 7 ex_mem (λ _, 0) []) = 2 ^ 64 - 12.
Proof. reflexivity. Qed.

Lemma bighash_lookup_spec_witness :
  ∃ s v st', lookup ex_checksum bf_hash (mkHashedKey [3] 3) ex_bh = Ok (s, v, st') ∧ s = NotFound ∧
    bh_wf ex_checksum st' (λ _, []).
Proof.
  destruct (bighash_lookup_spec ex_checksum bf_hash ex_bh (λ _, []) (mkHashedKey [3] 3) ex_bh_wf)
    as (s & v & st' & Heq & Hwf & _). exists s, v, st'. split; [exact Heq|]. split; [|exact Hwf].
  vm_compute in Heq. by injection Heq as <- _ _.
Defined.

Lemma bighash_remove_spec_witness :
  ∃ s evs st', remove ex_checksum bf_hash (mkHashedKey [3] 3) ex_bh = Ok (s, evs, st') ∧ s = NotFound ∧ evs = [].
Proof.
  destruct (bighash_remove_spec ex_checksum bf_hash ex_checksum_fits ex_bh (λ _, []) (mkHashedKey [3] 3) ex_bh_wf)
    as (s & evs & st' & Heq & _). exists s, evs, st'. split; [exact Heq|]. vm_compute in Heq. by injection Heq as <- <- _.
Defined.

(** Five items go to bucket 1, which evicts the oldest. *)
Definition ex_ops : list op :=
  [OInsert (ex_item 1 10); OInsert (ex_item 3 30); OInsert (ex_item 5 50); OInsert (ex_item 7 70);
   OInsert (ex_item 3 31); OInsert (ex_item 9 90); OLookup (mkHashedKey [1] 1); OLookup (mkHashedKey [3] 3);
   ORemove (mkHashedKey [3] 3); OLookup (mkHashedKey [3] 3)].
Lemma bighash_run_refines_witness :
  (∃ st', run ex_checksum bf_hash ex_hashKey ex_ops ex_bh =
    Ok (repeat (SOk, None) 6 ++ [(NotFound, None); (SOk, Some [31; 31; 31]); (SOk, None); (NotFound, None)], st')) ∧
  let '(outs, C') := spec_run 2 104 None ex_ops (λ _, []) in
  ∃ st', run ex_checksum bf_hash ex_hashKey ex_ops ex_bh = Ok (outs, st') ∧ bh_wf ex_checksum st' C' ∧
    all_covered bf_hash st' C'.
Proof.
  split; [eexists; vm_compute; reflexivity|].
  apply (bighash_run_refines ex_checksum bf_hash ex_hashKey ex_checksum_fits ex_ops ex_bh (λ _, []));
    [done|apply ex_bh_wf|by intros bid _ e ?%elem_of_nil|].
  repeat constructor; vm_compute; done.
Defined.

Definition ex_config : Config MemoryDevice := mkConfig 128 0 256 (Some ex_mem) None true (Some bf_example).
Lemma bighash_new_spec_witness :
  BigHash_new (mkConfig 100 0 200 (Some ex_mem) None true None) 7 = Throw InvalidArgument ∧
  ∃ st, BigHash_new ex_config 7 = Ok st ∧ geometry st ∧ bucketSize_ st * numBuckets_ st = 256.
Proof.
  split; [reflexivity|].
  destruct (bighash_new_spec ex_checksum bf_hash ex_config 7 ltac:(done) ltac:(done)) as [_ Hok].
  destruct (Hok ex_mem) as (st & ? & ? & ? & _); try done; [|apply ex_mem_ok|by exists 128| |by exists st].
  - unfold valid_config. cbn. split_and!; try done. by intros bf [= <-].
  - intros bf [= <-]. exists (replicate 8 0). apply bf_example_wf.
Defined.

Lemma bighash_reset_spec_witness :
  ∃ st', reset 8 ex_bh = Ok st' ∧ generationTime_ st' = 8 ∧ ∀ bid h, 0 ≤ bid < 2 → bf_answer bf_hash st' bid h = false.
Proof.
  destruct (bighash_reset_spec ex_checksum bf_hash 8 ex_bh ex_bh_geometry)
    as (st' & ? & _ & ? & _ & _ & _ & _ & _ & _ & Hf & _).
  exists st'. split; [done|]. split; [done|]. by apply Hf.
Defined.

Lemma bighash_persist_recover_witness :
  ∃ pd rr st', persist ex_bh = Ok (pd, rr) ∧ recover 9 (Ok pd) rr ex_bh = Ok (true, st') ∧
    bh_wf ex_checksum st' (λ _, []) ∧ bloomFilter_ st' = Some bf_example.
Proof.
  destruct (bighash_persist_recover ex_checksum ex_bh (λ _, []) ex_bh 9 ex_bh_wf ex_bh_geometry)
    as (pd & rr & st' & ? & ? & ? & ? & _); try done; [by split_and!; [..|repeat constructor]|by exists pd, rr, st'].
Defined.

(** ** After a failed write

    A device whose writes fail as told. *)
Record FlakyDevice := mkFlakyDevice { f_mem : MemoryDevice; f_fails : list bool }.
Definition flaky_writeImpl (off : Z) (bs : list Z) (f : FlakyDevice) : result (bool * FlakyDevice) :=
  match f_fails f with
  | true :: fs => Ok (false, mkFlakyDevice (f_mem f) fs)
  | fs => '(r, m) ← mem_writeImpl off bs (f_mem f); Ok (r, mkFlakyDevice m (tail fs))
  end.
Definition flaky_readImpl (off n : Z) (f : FlakyDevice) : result (option (list Z) * FlakyDevice) :=
  '(r, m) ← mem_readImpl off n (f_mem f); Ok (r, mkFlakyDevice m (f_fails f)).
#[global] Instance FlakyDevice_impl : DeviceImpl FlakyDevice :=
  {| writeImpl := flaky_writeImpl; readImpl := flaky_readImpl |}.
Definition ex_flaky : BigHash FlakyDevice :=
  mkBigHash None true 128 0 2 (Some bf_example) 7
    (mkDevice 256 1 0 0 None 0 0 0 0 0 0 (mkFlakyDevice (mkMemoryDevice (replicate 256 0)) [false; true; false; false]))
    (λ _, 0) [].

(** Clearing the filter hides the old value only until the next rebuild: the
    second insert of key 1 fails and the key is gone, but after another key of
    the bucket is written twice, a lookup returns the value before the failed
    overwrite. *)
Lemma failed_insert_resurrects_old_value :
  ∃ st', run ex_checksum bf_hash ex_hashKey
    [OInsert (ex_item 1 10); OInsert (ex_item 1 11); OLookup (mkHashedKey [1] 1);
     OInsert (ex_item 3 30); OInsert (ex_item 3 31); OLookup (mkHashedKey [1] 1)] ex_flaky =
  Ok ([(SOk, None); (DeviceError, None); (NotFound, None); (SOk, None); (SOk, None); (SOk, Some [10; 10; 10])], st').
Proof. eexists. vm_compute. reflexivity. Qed.
