(* ===== verification/SList.v ===== *)
(** The intrusive singly linked list ([allocator/datastruct/SList.h] and
    [SList-inl.h]) that holds the free allocations of an allocation class.

    The nodes are pieces of raw memory, so the store is a map from an address
    to the compressed pointer kept there, and writing a hook never fails.  The
    two functions of the compressor are arguments of the operations: what an
    allocation compresses to depends on the headers of the slab allocator,
    which change while a list exists.  [slist_rep] relates a list and a store
    to the sequence of nodes. *)
From S2P Require Import Prelude SlabAllocator PtrCompressor.

Abbreviation Hooks := (gmap Z Z).
Record SList := mkSList { size_ : Z; head_ : option Z; tail_ : option Z }.
Definition SList_empty : SList := mkSList 0 None None.
(** [slist_] is the address of the list the iterator belongs to. *)
Record Iterator := mkIterator { curr_ : option Z; prev_ : option Z; slist_ : Z }.
Record SListObject := mkSListObject { o_size : Z; compressedHead : Z; compressedTail : Z }.

Section operations.
Context (compress : option Z → result Z) (unCompress : Z → result (option Z)).

Definition getNext (h : Hooks) (node : Z) : result (option Z) := c ← deref (h !! node); unCompress c.
Definition setNext (node : Z) (next : option Z) (h : Hooks) : result Hooks :=
  c ← compress next;
  let h := <[node := c]> h in
  n ← getNext h node;
  _ ← xdcheck (bool_decide (n = next));
  Ok h.

Definition empty (l : SList) : bool := size_ l =? 0.
Definition getHead (l : SList) : option Z := if empty l then None else head_ l.
Definition is_null (p : option Z) : bool := bool_decide (p = None).

Definition checkStateOrThrow (l : SList) : result unit :=
  _ ← throw_if (((size_ l =? 0) && negb (is_null (head_ l))) || (is_null (head_ l) && negb (size_ l =? 0)))
        InvalidArgument;
  throw_if (xorb (is_null (head_ l)) (is_null (tail_ l))) InvalidArgument.

Definition insert (node : Z) (l : SList) (h : Hooks) : result (SList * Hooks) :=
  _ ← xdcheck (bool_decide (head_ l ≠ Some node));
  _ ← xdcheck (bool_decide (tail_ l ≠ Some node));
  _ ← xdcheck (Bool.eqb (size_ l =? 0) (is_null (head_ l)));
  _ ← xdcheck (Bool.eqb (size_ l =? 0) (is_null (tail_ l)));
  h ← setNext node (head_ l) h;
  Ok (mkSList (u64 (size_ l + 1)) (Some node) (if is_null (tail_ l) then Some node else tail_ l), h).

Definition pop (l : SList) (h : Hooks) : result (SList * Hooks) :=
  if empty l then Throw LogicError
  else
    node ← deref (head_ l);
    head ← getNext h node;
    let l := mkSList (u64 (size_ l - 1)) head (if is_null head then None else tail_ l) in
    _ ← xdcheck (negb (size_ l =? 0) || is_null (head_ l));
    _ ← checkStateOrThrow l;
    h ← setNext node None h;
    Ok (l, h).

(** [splice(SList&& other)]: the second result is what [other] is left as. *)
Definition splice (l other : SList) (h : Hooks) : result (SList * SList * Hooks) :=
  if empty other then Ok (l, other, h)
  else
    _ ← xdcheck (bool_decide (head_ l ≠ head_ other));
    _ ← xdcheck (Bool.eqb (size_ l =? 0) (is_null (head_ l)));
    _ ← xdcheck (Bool.eqb (size_ l =? 0) (is_null (tail_ l)));
    _ ← xdcheck (negb (is_null (head_ other)));
    _ ← xdcheck (negb (size_ other =? 0));
    _ ← xdcheck (negb (is_null (tail_ other)));
    last ← deref (tail_ other);
    h ← setNext last (head_ l) h;
    Ok (mkSList (u64 (size_ l + size_ other)) (head_ other) (if is_null (tail_ l) then tail_ other else tail_ l),
        SList_empty, h).

(** *** Iterators *)
Definition slist_begin (this : Z) (l : SList) : Iterator := mkIterator (head_ l) None this.
Definition slist_end (this : Z) : Iterator := mkIterator None None this.
Definition iter_eqb (i j : Iterator) : bool := (slist_ i =? slist_ j) && bool_decide (curr_ i = curr_ j).
Definition iter_incr (h : Hooks) (i : Iterator) : result Iterator :=
  _ ← xdcheck (negb (is_null (curr_ i)));
  node ← deref (curr_ i);
  next ← getNext h node;
  Ok (mkIterator next (Some node) (slist_ i)).

Definition remove (this : Z) (it : Iterator) (l : SList) (h : Hooks) : result (Iterator * SList * Hooks) :=
  _ ← throw_if (negb (slist_ it =? this)) LogicError;
  _ ← throw_if (iter_eqb it (slist_end this)) LogicError;
  node ← deref (curr_ it);
  next ← getNext h node;
  '(l, h) ← match prev_ it with
    | None => pop l h
    | Some prev =>
        h ← setNext prev next h;
        let l := mkSList (u64 (size_ l - 1)) (head_ l) (if decide (tail_ l = Some node) then Some prev else tail_ l) in
        _ ← checkStateOrThrow l;
        h ← setNext node None h;
        Ok (l, h)
    end;
  Ok (mkIterator next (prev_ it) this, l, h).

(** *** Saved state *)
Definition saveState (l : SList) : result SListObject :=
  hd ← compress (head_ l);
  tl ← compress (tail_ l);
  Ok (mkSListObject (s64 (size_ l)) hd tl).

(** The walk to the last node, for an object without a tail. *)
Fixpoint walk (fuel : nat) (h : Hooks) (tail : Z) : result Z :=
  next ← getNext h tail;
  match next with
  | None => Ok tail
  | Some n => match fuel with O => Undef | S fuel => walk fuel h n end
  end.
Definition SList_restore (o : SListObject) (h : Hooks) : result SList :=
  head ← unCompress (u32 (compressedHead o));
  tail ← (if 0 <=? compressedTail o then unCompress (u32 (compressedTail o))
          else match head with Some hd => Some <$> walk (size h) h hd | None => Ok None end);
  let l := mkSList (u64 (o_size o)) head tail in
  _ ← checkStateOrThrow l;
  Ok l.
End operations.

(** ** The sequence a list stands for *)
Section rep.
Context (compress : option Z → result Z) (unCompress : Z → result (option Z)).

(** [p] survives compression. *)
Definition rt (p : option Z) : Prop := ∃ c, compress p = Ok c ∧ fits 32 c ∧ unCompress c = Ok p.
Definition good (x : Z) : Prop := 0 < x < 2 ^ 64 ∧ rt (Some x).

Fixpoint chain (h : Hooks) (xs : list Z) : Prop :=
  match xs with
  | [] => True
  | x :: xs => (∃ c, h !! x = Some c ∧ compress (head xs) = Ok c) ∧ chain h xs
  end.

Record slist_rep (h : Hooks) (l : SList) (xs : list Z) : Prop := {
  sr_size : size_ l = Z.of_nat (length xs);
  sr_head : head_ l = head xs;
  sr_tail : tail_ l = last xs;
  sr_chain : chain h xs;
  sr_nodup : NoDup xs;
  sr_good : Forall good xs;
  sr_null : rt None;
}.

Lemma slist_rep_empty h : rt None → slist_rep h SList_empty [].
Proof. split; try done. constructor. Qed.

Lemma chain_frame h h' xs : (∀ x, x ∈ xs → h' !! x = h !! x) → chain h xs → chain h' xs.
Proof.
  induction xs as [|x xs IH]; cbn; [done|]. intros Hf [(c & Hx & Hc) Hch].
  split; [exists c; rewrite Hf by (by left); done|]. apply IH; [|done]. intros y Hy. apply Hf. by right.
Qed.
Lemma slist_frame h h' l xs : slist_rep h l xs → (∀ x, x ∈ xs → h' !! x = h !! x) → slist_rep h' l xs.
Proof. intros [] Hf. split; try done. by eapply chain_frame. Qed.

(** Distinct non-null 64-bit addresses cannot overflow the size. *)
Lemma addresses_fit xs : NoDup xs → Forall (λ x, 0 < x < 2 ^ 64) xs → Z.of_nat (length xs) < 2 ^ 64.
Proof.
  intros Hnd Hr. assert (length xs ≤ length (seqZ 1 (2 ^ 64 - 1)))%nat as Hle; [|rewrite length_seqZ in Hle; lia].
  apply submseteq_length, NoDup_submseteq; [done|]. intros x Hx. rewrite Forall_forall in Hr.
  apply elem_of_seqZ. specialize (Hr x Hx). lia.
Qed.
Lemma good_fit xs : NoDup xs → Forall good xs → Z.of_nat (length xs) < 2 ^ 64.
Proof. intros. apply addresses_fit; [done|]. eapply Forall_impl; [done|]. by intros x [? _]. Qed.

Lemma rt_head xs : rt None → Forall good xs → rt (head xs).
Proof. intros Hn Hg. destruct xs as [|x xs]; [done|]. apply Forall_cons in Hg as [[_ ?] _]. done. Qed.

Lemma setNext_spec node p h : rt p → ∃ c, compress p = Ok c ∧
  setNext compress unCompress node p h = Ok (<[node := c]> h).
Proof.
  intros (c & Hc & _ & Hu). exists c. split; [done|]. unfold setNext, getNext. rewrite Hc. res_simpl.
  rewrite lookup_insert_eq. res_simpl. rewrite Hu. res_simpl. by rewrite bool_decide_true.
Qed.

Lemma slist_getNext_aux h x xs : chain h (x :: xs) → rt (head xs) → getNext unCompress h x = Ok (head xs).
Proof.
  intros [(c & Hx & Hc) _] (c' & Hc' & _ & Hu). unfold getNext. rewrite Hx. res_simpl. rewrite Hc' in Hc.
  by injection Hc as ->.
Qed.

(** The size test and the null tests agree. *)
Lemma slist_size_zero h l xs : slist_rep h l xs →
  (size_ l =? 0) = is_null (head_ l) ∧ (size_ l =? 0) = is_null (tail_ l) ∧ empty l = bool_decide (xs = []).
Proof.
  intros [Hs -> -> _ _ _ _]. unfold empty. rewrite Hs. unfold is_null. destruct xs as [|x xs].
  - by rewrite !bool_decide_true.
  - rewrite !bool_decide_false; [by split_and!|done| |done]. rewrite last_cons. by destruct (last xs).
Qed.
Lemma slist_empty_iff h l xs : slist_rep h l xs → empty l = bool_decide (xs = []).
Proof. intros H. by destruct (slist_size_zero _ _ _ H) as (_ & _ & ?). Qed.
Lemma slist_getHead h l xs : slist_rep h l xs → getHead l = head xs.
Proof.
  intros H. unfold getHead. rewrite (slist_empty_iff _ _ _ H), (sr_head _ _ _ H). by destruct xs.
Qed.
Lemma slist_check h l xs : slist_rep h l xs → checkStateOrThrow l = Ok tt.
Proof.
  intros H. destruct (slist_size_zero _ _ _ H) as (E1 & E2 & _). unfold checkStateOrThrow.
  rewrite E1, <- E2, E1. by destruct (is_null (head_ l)).
Qed.

Lemma slist_insert_aux h l xs x : slist_rep h l xs → x ∉ xs → good x →
  ∃ l' h', insert compress unCompress x l h = Ok (l', h') ∧ slist_rep h' l' (x :: xs) ∧
    ∀ y, y ≠ x → h' !! y = h !! y.
Proof.
  intros H Hx Hg. destruct (slist_size_zero _ _ _ H) as (E1 & E2 & _). unfold insert.
  rewrite <- E1, <- E2, !eqb_reflx. destruct H as [Hs Hh Ht Hc Hnd Hgs Hn].
  rewrite !bool_decide_true; cycle 1.
  { rewrite Hh. intros E. apply Hx. destruct xs; [done|]. simplify_eq/=. by left. }
  { rewrite Ht. intros E. apply Hx. by eapply last_Some_elem_of. }
  res_simpl. destruct (setNext_spec x (head_ l) h) as (c & Ec & ->); [rewrite Hh; by apply rt_head|].
  res_simpl. eexists _, _. split; [done|].
  assert (NoDup (x :: xs)) as Hnd' by (by apply NoDup_cons_2).
  assert (Forall good (x :: xs)) as Hg' by (by apply Forall_cons).
  split; [|intros y Hy; by rewrite lookup_insert_ne].
  split; cbn [size_ head_ tail_]; try done.
  - rewrite Hs. pose proof (good_fit _ Hnd' Hg') as Hf. cbn [length] in *. rewrite wrap_small by (unfold fits; lia). lia.
  - rewrite Hs, last_cons, Ht. destruct xs as [|y xs]; cbn; [done|]. rewrite last_cons. by destruct (last xs).
  - cbn. split; [exists c; rewrite lookup_insert_eq, <- Hh; done|].
    eapply chain_frame; [|done]. intros y Hy. rewrite lookup_insert_ne; [done|]. intros ->. done.
Qed.

Lemma slist_pop_aux h l x xs : slist_rep h l (x :: xs) →
  ∃ l' h', pop compress unCompress l h = Ok (l', h') ∧ slist_rep h' l' xs ∧ ∀ y, y ≠ x → h' !! y = h !! y.
Proof.
  intros H. unfold pop. rewrite (slist_empty_iff _ _ _ H). cbn [bool_decide].
  pose proof H as [Hs Hh Ht Hc Hnd Hgs Hn]. rewrite bool_decide_false by done.
  apply NoDup_cons in Hnd as [Hx Hnd']. apply Forall_cons in Hgs as [Hg Hgs'].
  rewrite Hh. change (head (x :: xs)) with (Some x). res_simpl. rewrite (slist_getNext_aux _ _ xs) by (done || by apply rt_head). res_simpl.
  set (l' := mkSList _ _ _).
  assert (slist_rep h l' xs) as H'.
  { split; cbn [l' size_ head_ tail_]; try done; [|rewrite Ht; destruct xs; done|by destruct Hc].
    rewrite Hs. cbn [length]. pose proof (good_fit _ (sr_nodup _ _ _ H) (sr_good _ _ _ H)) as Hf. cbn [length] in Hf.
    rewrite wrap_small by (unfold fits; lia). lia. }
  rewrite (slist_check _ _ _ H'). destruct (slist_size_zero _ _ _ H') as (E1 & _ & _).
  rewrite E1. replace (negb (is_null (head_ l')) || is_null (head_ l')) with true by (by destruct (is_null _)).
  res_simpl. destruct (setNext_spec x None h Hn) as (c & _ & ->). res_simpl. eexists _, _. split; [done|].
  split; [eapply slist_frame; [done|]; intros y Hy; rewrite lookup_insert_ne; [done|by intros ->]|].
  intros y Hy. by rewrite lookup_insert_ne.
Qed.
Lemma slist_pop_empty h l : slist_rep h l [] → pop compress unCompress l h = Throw LogicError.
Proof. intros H. unfold pop. by rewrite (slist_empty_iff _ _ _ H). Qed.

Lemma chain_splice h xs ys y c : chain h (ys ++ [y]) → chain h xs → NoDup ((ys ++ [y]) ++ xs) →
  compress (head xs) = Ok c → chain (<[y := c]> h) ((ys ++ [y]) ++ xs).
Proof.
  intros Hys Hxs Hnd Hc. induction ys as [|z ys IH]; cbn in *.
  - split; [exists c; by rewrite lookup_insert_eq|]. eapply chain_frame; [|done]. intros x Hx.
    rewrite lookup_insert_ne; [done|]. apply NoDup_cons in Hnd as [Hy _]. by intros ->.
  - destruct Hys as [(cz & Hz & Ecz) Hys]. apply NoDup_cons in Hnd as [Hz' Hnd].
    split; [|by apply IH]. exists cz. rewrite lookup_insert_ne.
    + split; [done|]. by destruct ys.
    + intros ->. apply Hz'. set_solver.
Qed.

Lemma slist_splice_aux h l xs o ys : slist_rep h l xs → slist_rep h o ys → NoDup (ys ++ xs) →
  ∃ l' h', splice compress unCompress l o h = Ok (l', SList_empty, h') ∧ slist_rep h' l' (ys ++ xs) ∧
    ∀ y, y ∉ ys → h' !! y = h !! y.
Proof.
  intros Hl Ho Hnd. unfold splice. rewrite (slist_empty_iff _ _ _ Ho).
  destruct ys as [|y0 ys0] eqn:Eys.
  { rewrite bool_decide_true by done. destruct o as [n hd tl]. pose proof Ho as [E1 E2 E3 _ _ _ _]. cbn in *. subst.
    by exists l, h. }
  rewrite <- Eys in *. rewrite bool_decide_false by (by rewrite Eys).
  destruct (slist_size_zero _ _ _ Hl) as (E1 & E2 & E3). destruct (slist_size_zero _ _ _ Ho) as (F1 & F2 & F3).
  unfold empty in F3. rewrite bool_decide_false in F3 by (by rewrite Eys).
  rewrite <- E1, <- E2, <- F1, <- F2, F3, !eqb_reflx. res_simpl.
  pose proof Hl as [Hs Hh Ht Hc Hn Hg Hnull]. pose proof Ho as [Hos Hoh Hot Hoc Hon Hog _].
  rewrite bool_decide_true; cycle 1.
  { rewrite Hh, Hoh, Eys. cbn. destruct xs as [|x xs]; [done|]. cbn. intros [= ->].
    rewrite Eys in Hnd. cbn in Hnd. apply NoDup_cons in Hnd as [Hnd _]. set_solver. }
  res_simpl. destruct (exists_last (l := ys)) as (ys' & y & Ey); [by rewrite Eys|].
  rewrite Hot, Ey, last_snoc. res_simpl.
  destruct (setNext_spec y (head_ l) h) as (c & Ec & ->); [rewrite Hh; by apply rt_head|]. res_simpl.
  rewrite Hh in Ec. rewrite <- Ey. eexists _, _. split; [done|].
  assert (Forall good (ys ++ xs)) as Hg' by (by apply Forall_app).
  split; [|intros z Hz; rewrite lookup_insert_ne; [done|]; intros ->; apply Hz; rewrite Ey; set_solver].
  split; cbn [size_ head_ tail_]; try done.
  - rewrite Hs, Hos. pose proof (good_fit _ Hnd Hg') as Hf. rewrite length_app in Hf |- *.
    rewrite wrap_small by (unfold fits; lia). lia.
  - rewrite Hoh. by rewrite Eys.
  - rewrite E2, last_app, Ht. unfold is_null. destruct (last xs) eqn:El; cbn; [done|]. by rewrite Ey, last_snoc.
  - rewrite Ey in *. by apply chain_splice.
Qed.

(** *** Removing through an iterator *)
Lemma chain_app_r h xs ys : chain h (xs ++ ys) → chain h ys.
Proof. induction xs as [|x xs IH]; cbn; [done|]. intros [_ ?]. auto. Qed.
Lemma chain_unlink h pre p x post c : chain h (pre ++ p :: x :: post) → NoDup (pre ++ p :: x :: post) →
  compress (head post) = Ok c → chain (<[p := c]> h) (pre ++ p :: post).
Proof.
  intros Hch Hnd Hc. induction pre as [|z pre IH]; cbn in *.
  - split; [exists c; by rewrite lookup_insert_eq|]. destruct Hch as (_ & _ & Hch).
    apply NoDup_cons in Hnd as [Hp _]. eapply chain_frame; [|done]. intros y Hy. rewrite lookup_insert_ne; [done|].
    intros ->. apply Hp. by right.
  - destruct Hch as [(cz & Hz & Ecz) Hch]. apply NoDup_cons in Hnd as [Hz' Hnd]. split; [|by apply IH].
    exists cz. rewrite lookup_insert_ne; [|intros ->; apply Hz'; set_solver]. split; [done|]. by destruct pre.
Qed.

(** The iterator that stands between [pre] and the rest of a list. *)
Definition iter_at (this : Z) (pre post : list Z) : Iterator := mkIterator (head post) (last pre) this.

Lemma iter_incr_aux h l pre x post this : slist_rep h l (pre ++ x :: post) →
  iter_incr unCompress h (iter_at this pre (x :: post)) = Ok (iter_at this (pre ++ [x]) post).
Proof.
  intros [_ _ _ Hc _ Hg Hn]. apply Forall_app in Hg as [_ Hg]. apply Forall_cons in Hg as [_ Hg].
  apply chain_app_r in Hc. unfold iter_incr, is_null. cbn [iter_at curr_ prev_ slist_ head].
  rewrite bool_decide_false by done. cbn [hd_error]. res_simpl.
  rewrite (slist_getNext_aux _ _ post) by (done || by apply rt_head). res_simpl. unfold iter_at. by rewrite last_snoc.
Qed.

Lemma slist_remove_aux h l pre x post this : slist_rep h l (pre ++ x :: post) →
  ∃ l' h', remove compress unCompress this (iter_at this pre (x :: post)) l h = Ok (iter_at this pre post, l', h') ∧
    slist_rep h' l' (pre ++ post) ∧ ∀ y, y ≠ x → y ∉ pre → h' !! y = h !! y.
Proof.
  intros H. pose proof H as [Hs Hh Ht Hc Hnd Hg Hn]. apply Forall_app in Hg as [Hg1 Hg2].
  apply Forall_cons in Hg2 as [_ Hg2]. unfold remove, iter_eqb.
  cbn [iter_at curr_ prev_ slist_ head hd_error slist_end]. rewrite Z.eqb_refl, bool_decide_false by done. res_simpl.
  rewrite (slist_getNext_aux _ _ post) by (by eapply chain_app_r || by apply rt_head). res_simpl.
  destruct (last pre) as [p|] eqn:El; cycle 1.
  { apply last_None in El as ->. cbn [app] in *. destruct (slist_pop_aux _ _ _ _ H) as (l' & h' & -> & H' & Hf).
    res_simpl. exists l', h'. split; [done|]. split; [done|]. intros y Hy _. by apply Hf. }
  apply last_split in El. revert El. generalize (removelast pre) as pre'. intros pre' ->. rewrite <- app_assoc in *. cbn [app] in *.
  destruct (setNext_spec p (head post) h) as (c & Ec & ->); [by apply rt_head|]. res_simpl.
  set (l' := mkSList _ _ _).
  assert (NoDup (pre' ++ p :: post) ∧ x ∉ pre' ++ p :: post) as [Hnd' Hx].
  { replace (pre' ++ p :: x :: post) with ((pre' ++ [p]) ++ x :: post) in Hnd by (by rewrite <- app_assoc).
    rewrite <- Permutation_middle, NoDup_cons, <- app_assoc in Hnd. by destruct Hnd. }
  assert (slist_rep (<[p := c]> h) l' (pre' ++ p :: post)) as H'.
  { split; cbn [l' size_ head_ tail_]; try done.
    - rewrite Hs. pose proof (good_fit _ Hnd (sr_good _ _ _ H)) as Hf. rewrite !length_app in Hf |- *.
      cbn [length] in Hf |- *.
      rewrite wrap_small by (unfold fits; lia). rewrite length_app. cbn [length]. lia.
    - rewrite Hh. by destruct pre'.
    - rewrite Ht. rewrite !last_app, !last_cons. destruct (last post) as [z|] eqn:Ez.
      + rewrite decide_False; [done|]. intros [= ->]. apply Hx. apply last_Some_elem_of in Ez. set_solver.
      + by rewrite decide_True.
    - by eapply chain_unlink.
    - apply Forall_app. apply Forall_app in Hg1 as [Hga Hgb]. apply Forall_cons in Hgb as [Hgb _].
      split; [done|]. by apply Forall_cons. }
  rewrite (slist_check _ _ _ H'). res_simpl. destruct (setNext_spec x None (<[p := c]> h) Hn) as (cn & _ & ->).
  res_simpl. eexists _, _. split; [unfold iter_at; by rewrite last_snoc|]. split.
  - eapply slist_frame; [done|]. intros y Hy. rewrite lookup_insert_ne; [done|]. by intros ->.
  - intros y Hy Hyp. rewrite !lookup_insert_ne; [done| |done]. intros ->. set_solver.
Qed.

(** *** Saving and restoring *)
Lemma walk_spec h x xs fuel : chain h (x :: xs) → rt None → Forall good xs → (length xs ≤ fuel)%nat →
  walk unCompress fuel h x = Ok (default x (last xs)).
Proof.
  revert x fuel. induction xs as [|y xs IH]; intros x fuel Hc Hn Hg Hf.
  - destruct fuel; cbn; rewrite (slist_getNext_aux _ _ []) by done; done.
  - destruct fuel as [|fuel]; [cbn in Hf; lia|]. cbn [walk].
    rewrite (slist_getNext_aux _ _ (y :: xs)) by (done || by apply rt_head). cbn [head hd_error]. res_simpl.
    apply Forall_cons in Hg as [_ Hg]. rewrite IH; [|by destruct Hc|done|done|cbn in Hf; lia].
    rewrite last_cons. by destruct (last xs).
Qed.
Lemma chain_elem h xs x : chain h xs → x ∈ xs → is_Some (h !! x).
Proof.
  induction xs as [|y xs IH]; cbn; [by intros _ ?%elem_of_nil|]. intros [(c & Hy & _) Hc] [->|Hx]%elem_of_cons; [done|].
  auto.
Qed.
Lemma chain_length h xs : chain h xs → NoDup xs → (length xs ≤ size h)%nat.
Proof.
  intros Hc Hnd. rewrite <- (size_dom h), <- (size_list_to_set (C := gset Z) xs Hnd). apply subseteq_size.
  intros x Hx%elem_of_list_to_set. apply elem_of_dom. by eapply chain_elem.
Qed.
Lemma rt_last xs : rt None → Forall good xs → rt (last xs).
Proof.
  intros Hn Hg. destruct (last xs) as [x|] eqn:E; [|done]. apply last_Some_elem_of in E.
  rewrite Forall_forall in Hg. by destruct (Hg _ E).
Qed.

Lemma slist_restore_aux h l xs : slist_rep h l xs → Z.of_nat (length xs) < 2 ^ 63 →
  ∃ o, saveState compress l = Ok o ∧ SList_restore unCompress o h = Ok l ∧
    SList_restore unCompress (mkSListObject (o_size o) (compressedHead o) (-1)) h = Ok l.
Proof.
  intros H Hlen. pose proof H as [Hs Hh Ht Hc Hnd Hg Hn].
  destruct (rt_head xs Hn Hg) as (c1 & E1 & F1 & U1). destruct (rt_last xs Hn Hg) as (c2 & E2 & F2 & U2).
  unfold saveState. rewrite Hh, Ht, E1, E2. res_simpl. eexists. split; [done|].
  unfold SList_restore. cbn [o_size compressedHead compressedTail].
  rewrite (wrap_small 32 c1), (wrap_small 32 c2) by done. rewrite (proj2 (Z.leb_le 0 c2)) by apply F2.
  change (0 <=? -1) with false. rewrite U1, U2. res_simpl.
  rewrite wrap_swrap by (done || unfold fits; lia).
  assert (mkSList (size_ l) (head xs) (last xs) = l) as El by (destruct l; cbn in *; by subst).
  assert (match head xs with Some hd => Some <$> walk unCompress (size h) h hd | None => Ok None end = Ok (last xs)) as ->.
  { destruct xs as [|x xs]; cbn [head hd_error]; [done|]. pose proof (chain_length _ _ Hc Hnd) as Hsz. cbn [length] in Hsz.
    rewrite (walk_spec _ _ xs); [|done|done|by apply Forall_cons in Hg as [_ ?]|lia].
    rewrite last_cons. by destruct (last xs). }
  res_simpl. rewrite El, (slist_check _ _ _ H). done.
Qed.
End rep.

(** The headers of the slab allocator may change under a list, as long as its
    nodes compress as before. *)
Lemma slist_rep_compressor c1 u1 c2 u2 h l xs : slist_rep c1 u1 h l xs → c2 None = c1 None → rt c2 u2 None →
  (∀ x, x ∈ xs → c2 (Some x) = c1 (Some x) ∧ rt c2 u2 (Some x)) → slist_rep c2 u2 h l xs.
Proof.
  intros [Hs Hh Ht Hc Hnd Hg Hn] E0 Hn2 Hx. split; try done.
  - clear - Hc E0 Hx. induction xs as [|x xs IH]; [done|]. destruct Hc as [(c & Hl & Ec) Hc].
    split; [|apply IH; [done|]; intros y Hy; apply Hx; by right]. exists c. split; [done|].
    destruct xs as [|y xs]; cbn in *; [congruence|]. rewrite <- Ec. apply Hx. by right; left.
  - apply Forall_forall. intros x Hin. rewrite Forall_forall in Hg. split; [by apply Hg|]. by apply Hx.
Qed.
