(* ===== verification/AllocationClass.v ===== *)
(** Allocation classes ([allocator/memory/AllocationClass.h] and [.cpp], the
    release context of [Slab.h]): carving slabs into allocations of one size,
    freeing them, and taking a slab out of the class while other threads
    allocate and free.

    A class shares the slab headers and the allocations' memory with other
    components, so its operations thread a [Mem]: the slab allocator (for the
    headers) and the words written into free allocations.  A critical section
    of the class lock is one atomic definition; [startSlabRelease], which drops
    the lock between batches, is a state machine over [Phase] whose steps may
    interleave with every other operation.  The random choice of a slab and the
    answers of [shouldAbortFn] are arguments. *)
From Stdlib Require Import Sorted.
From S2P Require Import Prelude SlabAllocator PtrCompressor SList.

Record Mem := mkMem { m_sa : SlabAllocator; m_hooks : Hooks }.
Definition with_sa (sa : SlabAllocator) (m : Mem) : Mem := mkMem sa (m_hooks m).
Definition with_hooks (h : Hooks) (m : Mem) : Mem := mkMem (m_sa m) h.

(** ** [SlabReleaseContext] *)
Inductive SlabReleaseMode := kResize | kRebalance | kAdvise.
(** [zeroOnRelease_] has no initialiser: [None] until it is set. *)
Record SlabReleaseContext := mkContext {
  slab_ : Z;
  pid_ : Z;
  victim_ : Z;
  activeAllocations_ : list Z;
  receiver_ : Z;
  mode_ : SlabReleaseMode;
  zeroOnRelease_ : option bool;
}.
Definition releasedContext (slab pid cid : Z) (m : SlabReleaseMode) : SlabReleaseContext :=
  mkContext slab pid cid [] kInvalidClassId m None.
Definition activeContext (slab pid cid : Z) (allocations : list Z) (m : SlabReleaseMode) : SlabReleaseContext :=
  mkContext slab pid cid allocations kInvalidClassId m None.
Definition isReleased (c : SlabReleaseContext) : bool := bool_decide (activeAllocations_ c = []).
Definition hasValidReceiver (c : SlabReleaseContext) : bool := negb (receiver_ c =? kInvalidClassId).
Definition setReceiver (r : Z) (c : SlabReleaseContext) : SlabReleaseContext :=
  mkContext (slab_ c) (pid_ c) (victim_ c) (activeAllocations_ c) r (mode_ c) (zeroOnRelease_ c).
Definition setZeroOnRelease (b : bool) (c : SlabReleaseContext) : SlabReleaseContext :=
  mkContext (slab_ c) (pid_ c) (victim_ c) (activeAllocations_ c) (receiver_ c) (mode_ c) (Some b).

(** ** State *)
Record AllocationClass := mkAC {
  classId_ : Z;
  poolId_ : Z;
  allocationSize_ : Z;
  currOffset_ : Z;
  currSlab_ : Z;
  allocatedSlabs_ : list Z;
  freeSlabs_ : list Z;
  freedAllocations_ : SList;
  canAllocate_ : bool;
  activeReleases_ : Z;
  slabReleaseAllocMap_ : gmap Z (list bool);
}.
Definition with_curr (slab off : Z) ac := mkAC (classId_ ac) (poolId_ ac) (allocationSize_ ac) off slab
  (allocatedSlabs_ ac) (freeSlabs_ ac) (freedAllocations_ ac) (canAllocate_ ac) (activeReleases_ ac)
  (slabReleaseAllocMap_ ac).
Definition with_slabs (allocated free : list Z) ac := mkAC (classId_ ac) (poolId_ ac) (allocationSize_ ac)
  (currOffset_ ac) (currSlab_ ac) allocated free (freedAllocations_ ac) (canAllocate_ ac) (activeReleases_ ac)
  (slabReleaseAllocMap_ ac).
Definition with_freed (l : SList) (can : bool) ac := mkAC (classId_ ac) (poolId_ ac) (allocationSize_ ac)
  (currOffset_ ac) (currSlab_ ac) (allocatedSlabs_ ac) (freeSlabs_ ac) l can (activeReleases_ ac)
  (slabReleaseAllocMap_ ac).
Definition with_releases (n : Z) (mp : gmap Z (list bool)) ac := mkAC (classId_ ac) (poolId_ ac) (allocationSize_ ac)
  (currOffset_ ac) (currSlab_ ac) (allocatedSlabs_ ac) (freeSlabs_ ac) (freedAllocations_ ac) (canAllocate_ ac) n mp.

(** ** Helpers *)
Definition sizeof_FreeAlloc : Z := 4.
Definition kFreeAllocsPruneLimit : Z := 4 * 1024.
Definition getAllocsPerSlab ac : Z := u32 (kSize / allocationSize_ ac).
Definition isFull ac : bool := negb (canAllocate_ ac).
Definition getAllocForIdx (slab idx : Z) ac : result Z :=
  _ ← throw_if (getAllocsPerSlab ac <=? idx) InvalidArgument;
  memoryAtOffset slab (idx * allocationSize_ ac).
Definition getAllocIdx (slab alloc : Z) ac : result Z :=
  let offset := u64 (alloc - slab) in
  _ ← xdcheck (offset mod allocationSize_ ac =? 0);
  _ ← xdcheck (offset <? kSize);
  Ok (offset / allocationSize_ ac).

(** The free list's compressor refers to the slab allocator. *)
Definition fl_insert (p : Z) (l : SList) (m : Mem) : result (SList * Mem) :=
  '(l, h) ← SList.insert (slab_compress (m_sa m)) (slab_unCompress (m_sa m)) p l (m_hooks m); Ok (l, with_hooks h m).
Definition fl_pop (l : SList) (m : Mem) : result (SList * Mem) :=
  '(l, h) ← SList.pop (slab_compress (m_sa m)) (slab_unCompress (m_sa m)) l (m_hooks m); Ok (l, with_hooks h m).
Definition fl_splice (l other : SList) (m : Mem) : result (SList * SList * Mem) :=
  '(l, other, h) ← SList.splice (slab_compress (m_sa m)) (slab_unCompress (m_sa m)) l other (m_hooks m);
  Ok (l, other, with_hooks h m).

Definition set_header (i : Z) (f : SlabHeader → SlabHeader) (m : Mem) : Mem := with_sa (upd_header i f (m_sa m)) m.
Definition header_of (slab : Z) (m : Mem) : option Z := getSlabHeaderOfSlab (m_sa m) slab.
Definition header_at (i : Z) (m : Mem) : SlabHeader := headers (m_sa m) i.
(** [header->classId = cid; header->allocSize = size;] *)
Definition assign (cid size : Z) (hd : SlabHeader) : SlabHeader := mkSlabHeader (poolId hd) cid (flags hd) size.

(** ** Construction *)
Definition ac_checkState ac (sa : SlabAllocator) : result unit :=
  _ ← throw_if (classId_ ac <? 0) InvalidArgument;
  _ ← throw_if ((allocationSize_ ac <? sizeof_FreeAlloc) || (kSize <? allocationSize_ ac)) InvalidArgument;
  let header := getSlabHeaderOfSlab sa (currSlab_ ac) in
  _ ← throw_if (negb (currSlab_ ac =? 0) && bool_decide (header = None)) InvalidArgument;
  _ ← throw_if (match header with Some i => negb (classId (headers sa i) =? classId_ ac) | None => false end)
        InvalidArgument;
  throw_if (negb (currSlab_ ac =? 0) && negb (bool_decide (currSlab_ ac ∈ allocatedSlabs_ ac))) InvalidArgument.

Definition AllocationClass_new (cid pid size : Z) (sa : SlabAllocator) : result AllocationClass :=
  let ac := mkAC cid pid size 0 0 [] [] SList_empty true 0 ∅ in
  _ ← ac_checkState ac sa;
  Ok ac.

(** ** Allocating *)
Definition addSlabLocked (slab : Z) ac (m : Mem) : result (AllocationClass * Mem) :=
  header ← deref (header_of slab m);
  Ok (with_slabs (allocatedSlabs_ ac) (freeSlabs_ ac ++ [slab]) (with_freed (freedAllocations_ ac) true ac),
      set_header header (assign (classId_ ac) (allocationSize_ ac)) m).
Definition addSlab (slab : Z) ac (m : Mem) : result (AllocationClass * Mem) :=
  _ ← xdcheck (negb (slab =? 0)); addSlabLocked slab ac m.

Definition canAllocateFromCurrentSlabLocked ac : bool :=
  negb (currSlab_ ac =? 0) && (u32 (currOffset_ ac + allocationSize_ ac) <=? kSize).
Definition allocateFromCurrentSlabLocked ac : result (Z * AllocationClass) :=
  _ ← xdcheck (canAllocateFromCurrentSlabLocked ac);
  ret ← memoryAtOffset (currSlab_ ac) (currOffset_ ac);
  Ok (ret, with_curr (currSlab_ ac) (u32 (currOffset_ ac + allocationSize_ ac)) ac).
Definition setupCurrentSlabLocked ac : result AllocationClass :=
  slab ← deref (last (freeSlabs_ ac));
  Ok (with_curr slab 0 (with_slabs (allocatedSlabs_ ac ++ [slab]) (removelast (freeSlabs_ ac)) ac)).

Definition allocateLocked ac (m : Mem) : result (option Z * AllocationClass * Mem) :=
  if SList.empty (freedAllocations_ ac) && bool_decide (freeSlabs_ ac = []) &&
     negb (canAllocateFromCurrentSlabLocked ac)
  then Ok (None, with_freed (freedAllocations_ ac) false ac, m)
  else
    _ ← xdcheck (canAllocate_ ac);
    if negb (SList.empty (freedAllocations_ ac)) then
      ret ← deref (getHead (freedAllocations_ ac));
      '(l, m) ← fl_pop (freedAllocations_ ac) m;
      Ok (Some ret, with_freed l (canAllocate_ ac) ac, m)
    else if canAllocateFromCurrentSlabLocked ac then
      '(ret, ac) ← allocateFromCurrentSlabLocked ac;
      Ok (Some ret, ac, m)
    else
      ac ← setupCurrentSlabLocked ac;
      '(ret, ac) ← allocateFromCurrentSlabLocked ac;
      Ok (Some ret, ac, m).
Definition allocate ac (m : Mem) : result (option Z * AllocationClass * Mem) :=
  if negb (canAllocate_ ac) then Ok (None, ac, m) else allocateLocked ac m.
Definition addSlabAndAllocate (slab : Z) ac (m : Mem) : result (option Z * AllocationClass * Mem) :=
  _ ← xdcheck (negb (slab =? 0));
  '(ac, m) ← addSlabLocked slab ac m;
  allocateLocked ac m.

(** ** Freeing *)
Definition free (memory : Z) ac (m : Mem) : result (AllocationClass * Mem) :=
  let slab := getSlabForMemory memory in
  match getSlabHeader (m_sa m) memory with
  | None => Throw InvalidArgument
  | Some header =>
      if negb (classId (header_at header m) =? classId_ ac) then Throw InvalidArgument
      else if isMarkedForRelease (header_at header m) then
        match slabReleaseAllocMap_ ac !! slab with
        | None => Throw RuntimeError
        | Some allocState =>
            idx ← getAllocIdx slab memory ac;
            freed ← deref (allocState !! Z.to_nat idx);
            if freed : bool then Throw InvalidArgument
            else Ok (with_releases (activeReleases_ ac)
                       (<[slab := <[Z.to_nat idx := true]> allocState]> (slabReleaseAllocMap_ ac)) ac, m)
        end
      else
        '(l, m) ← fl_insert memory (freedAllocations_ ac) m;
        Ok (with_freed l true ac, m)
  end.

(** ** Starting the release of a slab *)
Record Prune := mkPrune { freeAllocs : SList; inSlab : SList; notInSlab : SList }.
(** Where [startSlabRelease] is: between [Marked] and the end other threads
    may take the class lock at every change of phase. *)
Inductive Phase :=
  | Marked                            (** the slab is marked, [pruneFreeAllocs] begins *)
  | Scanned (p : Prune)               (** a batch is partitioned, [shouldAbortFn] is next *)
  | Batched (p : Prune)               (** a batch is put back, the next one is scanned without the lock *)
  | Collecting                        (** all free allocations are pruned *)
  | Finishing (active : list Z)       (** active allocations are known *)
  | Aborting (p : Prune)              (** aborted: put everything back *)
  | Unmarking.                        (** aborted: clear the mark *)
Record Release := mkRelease { r_slab : Z; r_header : Z; r_mode : SlabReleaseMode; r_phase : Phase }.
Inductive Outcome := Running (r : Release) | Returned (ctx : SlabReleaseContext) | Raised (e : exn).

(** [*it = v.back(); v.pop_back()] at the first occurrence of [x]. *)
Definition swap_remove (x : Z) (v : list Z) : option (list Z) :=
  match list_find (eq x) v, last v with
  | Some (i, _), Some b => Some (removelast (<[i := b]> v))
  | _, _ => None
  end.

Definition getSlabForReleaseLocked (rnd : Z) ac : option Z :=
  match freeSlabs_ ac with
  | slab :: _ => Some slab
  | [] =>
      match allocatedSlabs_ ac with
      | [] => None
      | slabs => slabs !! Z.to_nat (rnd mod Z.of_nat (length slabs))
      end
  end.

Definition createSlabReleaseAllocMapLocked (slab : Z) ac : option AllocationClass :=
  match slabReleaseAllocMap_ ac !! slab with
  | Some _ => None
  | None => Some (with_releases (activeReleases_ ac)
              (<[slab := replicate (Z.to_nat (getAllocsPerSlab ac)) false]> (slabReleaseAllocMap_ ac)) ac)
  end.
Definition getSlabReleaseAllocMapLocked (slab : Z) ac : result (list bool) :=
  match slabReleaseAllocMap_ ac !! slab with Some s => Ok s | None => Throw OutOfRange end.

(** [allocState[i] = true] from [i] on. *)
Definition set_from (i : nat) (bits : list bool) : list bool := take i bits ++ replicate (length bits - i) true.

(** The slab stops being the one that is carved. *)
Definition stopCarving (slab : Z) ac : result AllocationClass :=
  if currSlab_ ac =? slab then
    allocState ← deref (slabReleaseAllocMap_ ac !! slab);
    _ ← xdcheck (Z.of_nat (length allocState) =? getAllocsPerSlab ac);
    Ok (with_curr 0 0 (with_releases (activeReleases_ ac)
      (<[slab := set_from (Z.to_nat (currOffset_ ac / allocationSize_ ac)) allocState]> (slabReleaseAllocMap_ ac)) ac))
  else Ok ac.

(** The first critical section.  The two [std::runtime_error]s leave the slab
    marked, so they are outcomes with a state. *)
Definition startRelease_begin (mode : SlabReleaseMode) (hint : option Z) (rnd : Z) ac (m : Mem)
    : result (Outcome * AllocationClass * Mem) :=
  let hintSlab := getSlabForMemory (default 0 hint) in
  _ ← throw_if (negb (is_null hint) && negb (isValidSlab (m_sa m) hintSlab)) InvalidArgument;
  match (if is_null hint then getSlabForReleaseLocked rnd ac else Some hintSlab) with
  | None => Throw InvalidArgument
  | Some slab =>
      match header_of slab m with
      | None => Throw InvalidArgument
      | Some header =>
          let hd := header_at header m in
          if negb (classId hd =? classId_ ac) || negb (poolId hd =? poolId_ ac) || isMarkedForRelease hd
          then Throw InvalidArgument
          else match swap_remove slab (freeSlabs_ ac) with
          | Some free =>
              let m := set_header header (assign kInvalidClassId 0) m in
              Ok (Returned (releasedContext slab (poolId (header_at header m)) (classId (header_at header m)) mode),
                  with_slabs (allocatedSlabs_ ac) free ac, m)
          | None =>
              let m := set_header header (setMarkedForRelease true) m in
              match createSlabReleaseAllocMapLocked slab ac with
              | None => Ok (Raised RuntimeError, ac, m)
              | Some ac =>
                  match swap_remove slab (allocatedSlabs_ ac) with
                  | None => Ok (Raised RuntimeError, ac, m)
                  | Some allocated =>
                      ac ← stopCarving slab (with_slabs allocated (freeSlabs_ ac) ac);
                      Ok (Running (mkRelease slab header mode Marked), ac, m)
                  end
              end
          end
      end
  end.

(** [partitionFreeAllocs], at most [n] allocations. *)
Fixpoint partition_loop (n : nat) (slab : Z) (p : Prune) (m : Mem) : result (Prune * Mem) :=
  match n with
  | O => Ok (p, m)
  | S n =>
      if SList.empty (freeAllocs p) then Ok (p, m)
      else
        alloc ← deref (getHead (freeAllocs p));
        '(rest, m) ← fl_pop (freeAllocs p) m;
        if isMemoryInSlab (m_sa m) alloc slab then
          '(l, m) ← fl_insert alloc (inSlab p) m;
          partition_loop n slab (mkPrune rest l (notInSlab p)) m
        else
          '(l, m) ← fl_insert alloc (notInSlab p) m;
          partition_loop n slab (mkPrune rest (inSlab p) l) m
  end.
Definition partitionFreeAllocs : Z → Prune → Mem → result (Prune * Mem) :=
  partition_loop (Z.to_nat kFreeAllocsPruneLimit).

(** The first critical section of [pruneFreeAllocs]. *)
Definition prune_take (slab : Z) ac (m : Mem) : result (Prune * AllocationClass * Mem) :=
  '(p, m) ← partitionFreeAllocs slab (mkPrune (freedAllocations_ ac) SList_empty SList_empty) m;
  Ok (p, with_freed SList_empty (canAllocate_ ac) ac, m).

(** Marking the allocations found in the slab as freed. *)
Fixpoint mark_loop (fuel : nat) (slab : Z) (l : SList) (bits : list bool) ac (m : Mem)
    : result (SList * list bool * Mem) :=
  if SList.empty l then Ok (l, bits, m)
  else match fuel with
  | O => Undef
  | S fuel =>
      alloc ← deref (getHead l);
      '(l, m) ← fl_pop l m;
      _ ← xdcheck (isMemoryInSlab (m_sa m) alloc slab);
      idx ← getAllocIdx slab alloc ac;
      _ ← xdcheck (idx <? Z.of_nat (length bits));
      mark_loop fuel slab l (<[Z.to_nat idx := true]> bits) ac m
  end.

(** The critical section of the loop of [pruneFreeAllocs]. *)
Definition prune_putBack (slab : Z) (p : Prune) ac (m : Mem) : result (Prune * AllocationClass * Mem) :=
  '(notIn, ac, m) ←
    (if negb (SList.empty (notInSlab p)) then
       '(l, notIn, m) ← fl_splice (freedAllocations_ ac) (notInSlab p) m;
       Ok (notIn, with_freed l true ac, m)
     else Ok (notInSlab p, ac, m));
  allocState ← getSlabReleaseAllocMapLocked slab ac;
  '(ins, allocState, m) ← mark_loop (Z.to_nat (size_ (inSlab p))) slab (inSlab p) allocState ac m;
  Ok (mkPrune (freeAllocs p) ins notIn,
      with_releases (activeReleases_ ac) (<[slab := allocState]> (slabReleaseAllocMap_ ac)) ac, m).

(** The allocations whose bit is not set. *)
Fixpoint collect (slab offset size : Z) (bits : list bool) : result (list Z) :=
  match bits with
  | [] => Ok []
  | freed :: bits =>
      if freed : bool then collect slab (offset + size) size bits
      else p ← memoryAtOffset slab offset; ps ← collect slab (offset + size) size bits; Ok (p :: ps)
  end.

(** The critical section of an aborted [pruneFreeAllocs]. *)
Definition prune_abort (p : Prune) ac (m : Mem) : result (AllocationClass * Mem) :=
  '(fa, m) ← (if negb (SList.empty (notInSlab p)) then
                '(l, _, m) ← fl_splice (freeAllocs p) (notInSlab p) m; Ok (l, m)
              else Ok (freeAllocs p, m));
  '(fa, m) ← (if negb (SList.empty (inSlab p)) then
                '(l, _, m) ← fl_splice fa (inSlab p) m; Ok (l, m)
              else Ok (fa, m));
  '(l, _, m) ← fl_splice (freedAllocations_ ac) fa m;
  Ok (with_freed l (canAllocate_ ac) ac, m).

(** The last critical section of [startSlabRelease]. *)
Definition startRelease_end (r : Release) (active : list Z) ac (m : Mem)
    : result (SlabReleaseContext * AllocationClass * Mem) :=
  let slab := r_slab r in let header := r_header r in
  if decide (active = []) then
    let m := set_header header (λ hd, setMarkedForRelease false (assign kInvalidClassId 0 hd)) m in
    let ac := with_releases (activeReleases_ ac) (delete slab (slabReleaseAllocMap_ ac)) ac in
    Ok (releasedContext slab (poolId (header_at header m)) (classId (header_at header m)) (r_mode r), ac, m)
  else
    Ok (activeContext slab (poolId (header_at header m)) (classId (header_at header m)) active (r_mode r),
        with_releases (s64 (activeReleases_ ac + 1)) (slabReleaseAllocMap_ ac) ac, m).

(** One step of [startSlabRelease]; [abort] is what [shouldAbortFn] answers if asked. *)
Definition startRelease_step (abort : bool) (r : Release) ac (m : Mem) : result (Outcome * AllocationClass * Mem) :=
  let slab := r_slab r in
  let next ph := Running (mkRelease slab (r_header r) (r_mode r) ph) in
  match r_phase r with
  | Marked => '(p, ac, m) ← prune_take slab ac m; Ok (next (Scanned p), ac, m)
  | Scanned p =>
      if abort then Ok (next (Aborting p), ac, m)
      else
        '(p, ac, m) ← prune_putBack slab p ac m;
        if SList.empty (freeAllocs p) then
          _ ← xdcheck (SList.empty (notInSlab p));
          _ ← xdcheck (SList.empty (inSlab p));
          Ok (next Collecting, ac, m)
        else Ok (next (Batched p), ac, m)
  | Batched p => '(p, m) ← partitionFreeAllocs slab p m; Ok (next (Scanned p), ac, m)
  | Collecting =>
      allocState ← getSlabReleaseAllocMapLocked slab ac;
      active ← collect slab 0 (allocationSize_ ac) allocState;
      Ok (next (Finishing active), ac, m)
  | Finishing active => '(ctx, ac, m) ← startRelease_end r active ac m; Ok (Returned ctx, ac, m)
  | Aborting p => '(ac, m) ← prune_abort p ac m; Ok (next Unmarking, ac, m)
  | Unmarking =>
      Ok (Raised SlabReleaseAborted,
          with_releases (activeReleases_ ac) (delete slab (slabReleaseAllocMap_ ac)) ac,
          set_header (r_header r) (setMarkedForRelease false) m)
  end.

(** [startSlabRelease] without interference; [aborts] are the answers of
    [shouldAbortFn], [false] when there are no more. *)
Fixpoint startRelease_run (fuel : nat) (aborts : list bool) (r : Release) ac (m : Mem)
    : result (Outcome * AllocationClass * Mem) :=
  match fuel with
  | O => Undef
  | S fuel =>
      '(o, ac, m) ← startRelease_step (default false (head aborts)) r ac m;
      let aborts := match r_phase r with Scanned _ => tail aborts | _ => aborts end in
      match o with Running r => startRelease_run fuel aborts r ac m | o => Ok (o, ac, m) end
  end.
Definition startSlabRelease (mode : SlabReleaseMode) (hint : option Z) (rnd : Z) (aborts : list bool) ac (m : Mem)
    : result (Outcome * AllocationClass * Mem) :=
  '(o, ac, m) ← startRelease_begin mode hint rnd ac m;
  match o with
  | Running r => startRelease_run (4 * Z.to_nat (size_ (freedAllocations_ ac)) + 6) aborts r ac m
  | o => Ok (o, ac, m)
  end.

(** ** Ending a release *)
Definition allFreed (slab : Z) ac : result bool :=
  match slabReleaseAllocMap_ ac !! slab with
  | None => Throw RuntimeError
  | Some allocState => Ok (forallb id allocState)
  end.

Fixpoint reinsert_loop (slab : Z) (idx : nat) (bits : list bool) (l : SList) (inserted : bool) ac (m : Mem)
    : result (SList * bool * Mem) :=
  match bits with
  | [] => Ok (l, inserted, m)
  | freed :: bits =>
      if freed : bool then
        alloc ← getAllocForIdx slab (Z.of_nat idx) ac;
        '(l, m) ← fl_insert alloc l m;
        reinsert_loop slab (S idx) bits l true ac m
      else reinsert_loop slab (S idx) bits l inserted ac m
  end.
Definition abortSlabRelease (ctx : SlabReleaseContext) ac (m : Mem) : result (AllocationClass * Mem) :=
  _ ← throw_if (isReleased ctx) InvalidArgument;
  let slab := slab_ ctx in
  '(l, inserted, m) ← match slabReleaseAllocMap_ ac !! slab with
    | Some allocState => reinsert_loop slab 0 allocState (freedAllocations_ ac) false ac m
    | None => Ok (freedAllocations_ ac, false, m)
    end;
  let ac := with_freed l (if inserted : bool then true else canAllocate_ ac) ac in
  let ac := with_slabs (allocatedSlabs_ ac ++ [slab]) (freeSlabs_ ac) ac in
  header ← deref (header_of slab m);
  Ok (with_releases (s64 (activeReleases_ ac - 1)) (delete slab (slabReleaseAllocMap_ ac)) ac,
      set_header header (λ hd, setMarkedForRelease false (assign (classId_ ac) (allocationSize_ ac) hd)) m).

(** The critical section before the wait, and the one after it. *)
Definition complete_check (ctx : SlabReleaseContext) ac (m : Mem) : result Z :=
  match header_of (slab_ ctx) m with
  | None => Throw RuntimeError
  | Some header =>
      let hd := header_at header m in
      if negb (classId hd =? classId_ ac) || negb (isMarkedForRelease hd) then Throw RuntimeError else Ok header
  end.
Definition complete_end (ctx : SlabReleaseContext) (header : Z) ac (m : Mem) : result (AllocationClass * Mem) :=
  let ac := with_releases (s64 (activeReleases_ ac - 1)) (delete (slab_ ctx) (slabReleaseAllocMap_ ac)) ac in
  let m := set_header header (λ hd, setMarkedForRelease false (assign kInvalidClassId 0 hd)) m in
  _ ← xdcheck (0 <=? activeReleases_ ac);
  Ok (ac, m).
(** [completeSlabRelease] up to the first [allFreed] of [waitUntilAllFreed];
    [false] when it has to wait, and then nothing has changed. *)
Definition completeSlabRelease (ctx : SlabReleaseContext) ac (m : Mem) : result (bool * AllocationClass * Mem) :=
  if isReleased ctx then Ok (true, ac, m)
  else
    header ← complete_check ctx ac m;
    freed ← allFreed (slab_ ctx) ac;
    if freed : bool then '(ac, m) ← complete_end ctx header ac m; Ok (true, ac, m)
    else Ok (false, ac, m).

(** ** Queries *)
Definition checkSlabInRelease (ctx : SlabReleaseContext) (memory : Z) ac (m : Mem) : result unit :=
  match getSlabHeader (m_sa m) memory with
  | None => Throw InvalidArgument
  | Some header =>
      let hd := header_at header m in
      _ ← throw_if (negb (classId hd =? classId_ ac)) InvalidArgument;
      _ ← throw_if (negb (isMarkedForRelease hd)) InvalidArgument;
      throw_if (negb (getSlabForMemory memory =? slab_ ctx)) InvalidArgument
  end.
Definition isAllocFreedLocked (memory : Z) ac : result bool :=
  let slab := getSlabForMemory memory in
  match slabReleaseAllocMap_ ac !! slab with
  | None => Throw RuntimeError
  | Some allocState => idx ← getAllocIdx slab memory ac; deref (allocState !! Z.to_nat idx)
  end.
Definition isAllocFreed (ctx : SlabReleaseContext) (memory : Z) ac (m : Mem) : result bool :=
  _ ← checkSlabInRelease ctx memory ac m; isAllocFreedLocked memory ac.
(** The allocation the callback is called with, if it is. *)
Definition processAllocForRelease (ctx : SlabReleaseContext) (memory : Z) ac (m : Mem) : result (option Z) :=
  _ ← checkSlabInRelease ctx memory ac m;
  freed ← isAllocFreedLocked memory ac;
  Ok (if freed : bool then None else Some memory).

Inductive SlabIterationStatus :=
  kFinishedCurrentSlabAndContinue | kSkippedCurrentSlabAndContinue | kAbortIteration.
Record AllocInfo := mkAllocInfo { i_poolId : Z; i_classId : Z; i_allocSize : Z }.
(** The callback sees the allocations of the slab in order, until it returns [false]. *)
Fixpoint forEach_loop (n : nat) (ptr size : Z) (callback : Z → bool) : SlabIterationStatus * list Z :=
  match n with
  | O => (kFinishedCurrentSlabAndContinue, [])
  | S n => if callback ptr then let '(s, ps) := forEach_loop n (ptr + size) size callback in (s, ptr :: ps)
           else (kAbortIteration, [ptr])
  end.
Definition forEachAllocation (tryLock : bool) (slab : Z) (callback : AllocInfo → Z → bool) ac (m : Mem)
    : SlabIterationStatus * list Z :=
  if negb tryLock then (kSkippedCurrentSlabAndContinue, [])
  else match header_of slab m with
  | None => (kSkippedCurrentSlabAndContinue, [])
  | Some header =>
      let hd := header_at header m in
      if negb (classId hd =? classId_ ac) || negb (poolId hd =? poolId_ ac) || isAdvised hd || isMarkedForRelease hd
      then (kSkippedCurrentSlabAndContinue, [])
      else forEach_loop (Z.to_nat (getAllocsPerSlab ac)) slab (allocationSize_ ac)
             (callback (mkAllocInfo (poolId hd) (classId hd) (allocSize hd)))
  end.

Record ACStats := mkACStats {
  st_allocSize : Z; allocsPerSlab : Z; usedSlabs : Z; st_freeSlabs : Z; st_freeAllocs : Z; activeAllocs : Z; full : bool;
}.
Definition getStats ac : ACStats :=
  let freeAllocsInCurrSlab :=
    if canAllocateFromCurrentSlabLocked ac then u64 (kSize - currOffset_ ac) / allocationSize_ ac else 0 in
  let perSlab := getAllocsPerSlab ac in
  let nSlabsAllocated := Z.of_nat (length (allocatedSlabs_ ac)) in
  let nFreedAllocs := size_ (freedAllocations_ ac) in
  mkACStats (allocationSize_ ac) perSlab nSlabsAllocated (Z.of_nat (length (freeSlabs_ ac))) nFreedAllocs
    (u64 (nSlabsAllocated * perSlab - nFreedAllocs - freeAllocsInCurrSlab)) (isFull ac).
Definition totalSlabs (s : ACStats) : Z := u64 (st_freeSlabs s + usedSlabs s).
Definition getTotalFreeMemory (s : ACStats) : Z := u64 (kSize * st_freeSlabs s + st_freeAllocs s * st_allocSize s).

(** ** Saved state *)
Record AllocationClassObject := mkACObject {
  o_classId : Z; o_allocationSize : Z; o_currOffset : Z; o_canAllocate : bool; o_freed : SListObject;
  o_currSlabIdx : Z; o_allocatedSlabIdxs : list Z; o_freeSlabIdxs : list Z;
}.
Definition ac_saveState ac (m : Mem) : result AllocationClassObject :=
  _ ← throw_if (ownsMemory (m_sa m)) LogicError;
  _ ← throw_if (0 <? activeReleases_ ac) LogicError;
  curr ← slabIdx (m_sa m) (currSlab_ ac);
  allocated ← mapM (slabIdx (m_sa m)) (allocatedSlabs_ ac);
  free ← mapM (slabIdx (m_sa m)) (freeSlabs_ ac);
  freed ← SList.saveState (slab_compress (m_sa m)) (freedAllocations_ ac);
  Ok (mkACObject (classId_ ac) (allocationSize_ ac) (currOffset_ ac) (canAllocate_ ac) freed (s32 curr)
        (s32 <$> allocated) (s32 <$> free)).
Definition AllocationClass_restore (o : AllocationClassObject) (pid : Z) (m : Mem) : result AllocationClass :=
  let slab_at idx := getSlabForIdx (slabMemoryStart (m_sa m)) (u32 idx) in
  freed ← SList_restore (slab_unCompress (m_sa m)) (o_freed o) (m_hooks m);
  _ ← throw_if (ownsMemory (m_sa m)) LogicError;
  let ac := mkAC (o_classId o) pid (u32 (o_allocationSize o)) (u32 (o_currOffset o)) (slab_at (o_currSlabIdx o))
              (slab_at <$> o_allocatedSlabIdxs o) (slab_at <$> o_freeSlabIdxs o) freed (o_canAllocate o) 0 ∅ in
  _ ← ac_checkState ac (m_sa m);
  Ok ac.

(** ** The allocations of a class *)
Abbreviation per ac := (Z.to_nat (getAllocsPerSlab ac)).
(** The [k]-th allocation of a slab. *)
Definition addr ac (slab : Z) (k : nat) : Z := slab + Z.of_nat k * allocationSize_ ac.

(** The slab is valid and its header says it belongs to the class. *)
Definition owned ac (sa : SlabAllocator) (marked : bool) (s : Z) : Prop :=
  isValidSlab sa s = true ∧
  let hd := headers sa (slabIndex sa s) in
  classId hd = classId_ ac ∧ poolId hd = poolId_ ac ∧ allocSize hd = allocationSize_ ac ∧ isMarkedForRelease hd = marked.

(** What the slabs of a class look like, given the set of allocations that are
    in use: held by a user or waiting in a free list.  In an allocated slab
    these are all but the part that is not carved yet; in a slab that is being
    released they are those whose bit is not set. *)
Record core ac (sa : SlabAllocator) (U : gset Z) : Prop := {
  c_sa : sa_wf sa;
  c_size : getMinAllocSize ≤ allocationSize_ ac ≤ kSize;
  c_class : 0 ≤ classId_ ac;
  c_nodup : NoDup (allocatedSlabs_ ac ++ freeSlabs_ ac);
  c_apart s : s ∈ allocatedSlabs_ ac ++ freeSlabs_ ac → slabReleaseAllocMap_ ac !! s = None;
  c_owned s : s ∈ allocatedSlabs_ ac ++ freeSlabs_ ac → owned ac sa false s;
  c_releasing s bs : slabReleaseAllocMap_ ac !! s = Some bs → owned ac sa true s ∧ length bs = per ac;
  c_used p : p ∈ U → ∃ s k, (k < per ac)%nat ∧ p = addr ac s k ∧
    (s ∈ allocatedSlabs_ ac ∨ is_Some (slabReleaseAllocMap_ ac !! s));
  c_allocated s k : s ∈ allocatedSlabs_ ac → (k < per ac)%nat →
    addr ac s k ∈ U ↔ ¬ (s = currSlab_ ac ∧ currOffset_ ac ≤ Z.of_nat k * allocationSize_ ac);
  c_bits s bs k b : slabReleaseAllocMap_ ac !! s = Some bs → bs !! k = Some b → addr ac s k ∈ U ↔ b = false;
  c_curr : currSlab_ ac = 0 ∨ currSlab_ ac ∈ allocatedSlabs_ ac;
  c_offset : ∃ j, (j ≤ per ac)%nat ∧ currOffset_ ac = Z.of_nat j * allocationSize_ ac;
  c_complete s : isValidSlab sa s = true → classId (headers sa (slabIndex sa s)) = classId_ ac →
    poolId (headers sa (slabIndex sa s)) = poolId_ ac →
    s ∈ allocatedSlabs_ ac ++ freeSlabs_ ac ∨ is_Some (slabReleaseAllocMap_ ac !! s);
}.

Section geometry.
Context (ac : AllocationClass).
Hypothesis Hsize : getMinAllocSize ≤ allocationSize_ ac ≤ kSize.

Lemma per_val : Z.of_nat (per ac) = kSize / allocationSize_ ac ∧
  (0 < per ac)%nat ∧ Z.of_nat (per ac) * allocationSize_ ac ≤ kSize ∧ Z.of_nat (per ac) ≤ 65536.
Proof.
  change getMinAllocSize with 64 in Hsize. rewrite kSize_val in Hsize.
  unfold getAllocsPerSlab. rewrite kSize_val, wrap_small;
    [|unfold fits; change (2 ^ 32) with 4294967296; Z.to_euclidean_division_equations; nia].
  assert (1 ≤ 4194304 / allocationSize_ ac ≤ 65536) by (Z.to_euclidean_division_equations; nia).
  rewrite Z2Nat.id by lia. repeat split; try lia. Z.to_euclidean_division_equations. nia.
Qed.
Lemma per_index k : (k < per ac)%nat ↔ (Z.of_nat k + 1) * allocationSize_ ac ≤ kSize.
Proof.
  destruct per_val as (E & _ & _ & _). change getMinAllocSize with 64 in Hsize.
  split; intros Hk.
  - apply inj_lt in Hk. rewrite E in Hk. Z.to_euclidean_division_equations. nia.
  - apply Nat2Z.inj_lt. rewrite E. Z.to_euclidean_division_equations. nia.
Qed.

Lemma addr_alloc_at sa b s k : owned ac sa b s → (k < per ac)%nat → alloc_at sa s (Z.of_nat k) (addr ac s k).
Proof.
  intros (Hv & _ & _ & Hs & _) Hk. rewrite per_index in Hk. unfold alloc_at. rewrite Hs. split_and!; try done; lia.
Qed.
Lemma addr_slab sa b s k : sa_wf sa → owned ac sa b s → (k < per ac)%nat →
  getSlabForMemory (addr ac s k) = s ∧ 0 < addr ac s k < 2 ^ 64.
Proof.
  intros Hwf Ho Hk. destruct (alloc_at_bounds _ _ _ _ Hwf (addr_alloc_at _ _ _ _ Ho Hk)) as (_ & _ & ? & [_ ?] & _ & _).
  split; [done|]. split; [|done]. destruct Ho as (Hv & _). rewrite (valid_slab_iff _ Hwf) in Hv.
  destruct (wf_start _ Hwf). pose proof (wf_slab_start_eq _ Hwf). rewrite kSize_val in *. unfold addr.
  change getMinAllocSize with 64 in Hsize. nia.
Qed.
Lemma addr_inj_idx s k k' : addr ac s k = addr ac s k' → k = k'.
Proof. unfold addr. change getMinAllocSize with 64 in Hsize. intros. nia. Qed.

Lemma getAllocIdx_spec sa b s k : sa_wf sa → owned ac sa b s → (k < per ac)%nat →
  getAllocIdx s (addr ac s k) ac = Ok (Z.of_nat k).
Proof.
  intros Hwf Ho Hk. unfold getAllocIdx, addr. rewrite per_index in Hk. change getMinAllocSize with 64 in Hsize.
  replace (s + Z.of_nat k * allocationSize_ ac - s) with (Z.of_nat k * allocationSize_ ac) by lia.
  rewrite wrap_small by (unfold fits; rewrite kSize_val in *; nia).
  rewrite Z.mod_mul, Z.div_mul, (proj2 (Z.ltb_lt _ _)) by nia. done.
Qed.
Lemma getAllocForIdx_spec s k : (k < per ac)%nat → getAllocForIdx s (Z.of_nat k) ac = Ok (addr ac s k).
Proof.
  intros Hk. unfold getAllocForIdx, memoryAtOffset. rewrite (proj2 (Z.leb_gt _ _)) by lia. rewrite per_index in Hk.
  change getMinAllocSize with 64 in Hsize. by rewrite (proj2 (Z.ltb_lt _ _)) by nia.
Qed.
End geometry.

Section core.
Context (ac : AllocationClass) (sa : SlabAllocator) (U : gset Z).
Hypothesis Hcore : core ac sa U.

(** A slab with carved allocations. *)
Definition carved (s : Z) : Prop := s ∈ allocatedSlabs_ ac ∨ is_Some (slabReleaseAllocMap_ ac !! s).

Lemma carved_owned s : carved s → ∃ b, owned ac sa b s.
Proof.
  intros [Hs|[bs Hs]]; [exists false|exists true].
  - apply (c_owned _ _ _ Hcore). set_solver.
  - by eapply c_releasing.
Qed.
Lemma carved_slab s k : carved s → (k < per ac)%nat → getSlabForMemory (addr ac s k) = s ∧ 0 < addr ac s k < 2 ^ 64.
Proof.
  intros [b Ho]%carved_owned Hk. eapply addr_slab; [apply (c_size _ _ _ Hcore)|apply (c_sa _ _ _ Hcore)|done|done].
Qed.
Lemma addr_inj s k s' k' : carved s → carved s' → (k < per ac)%nat → (k' < per ac)%nat →
  addr ac s k = addr ac s' k' → s = s' ∧ k = k'.
Proof.
  intros Hs Hs' Hk Hk' E. assert (s = s') as <-.
  { rewrite <- (proj1 (carved_slab s k Hs Hk)), E. by apply carved_slab. }
  split; [done|]. eapply addr_inj_idx; [apply (c_size _ _ _ Hcore)|done].
Qed.
Lemma used_slab p : p ∈ U → ∃ k, (k < per ac)%nat ∧ p = addr ac (getSlabForMemory p) k ∧ carved (getSlabForMemory p).
Proof.
  intros (s & k & Hk & -> & Hs)%(c_used _ _ _ Hcore). rewrite (proj1 (carved_slab s k Hs Hk)). by exists k.
Qed.
Lemma bit_index s bs k b : slabReleaseAllocMap_ ac !! s = Some bs → bs !! k = Some b → (k < per ac)%nat.
Proof. intros [_ <-]%(c_releasing _ _ _ Hcore). apply lookup_lt_Some. Qed.

Lemma addr_good s k : carved s → (k < per ac)%nat → good (slab_compress sa) (slab_unCompress sa) (addr ac s k).
Proof.
  intros Hs Hk. split; [by apply carved_slab|]. destruct (carved_owned s Hs) as [b Ho].
  apply slab_roundtrip; [apply (c_sa _ _ _ Hcore)|]. exists s, (Z.of_nat k).
  eapply addr_alloc_at; [apply (c_size _ _ _ Hcore)|done|done].
Qed.
Lemma used_good p : p ∈ U → good (slab_compress sa) (slab_unCompress sa) p.
Proof. intros (k & Hk & Hp & Hs)%used_slab. rewrite Hp. by apply addr_good. Qed.

Lemma used_header p : p ∈ U → ∃ b, getSlabHeader sa p = Some (slabIndex sa (getSlabForMemory p)) ∧
  owned ac sa b (getSlabForMemory p) ∧
  (b = true ↔ is_Some (slabReleaseAllocMap_ ac !! getSlabForMemory p)).
Proof.
  intros (k & Hk & Hp & Hs)%used_slab. destruct Hs as [Hs|[bs Hs]].
  - exists false. pose proof (c_owned _ _ _ Hcore _ (proj2 (elem_of_app _ _ _) (or_introl Hs))) as Ho.
    split; [unfold getSlabHeader; by rewrite (proj1 Ho)|]. split; [done|]. split; [done|].
    rewrite (c_apart _ _ _ Hcore) by set_solver. by intros [? ?].
  - exists true. pose proof (c_releasing _ _ _ Hcore _ _ Hs) as [Ho _].
    split; [unfold getSlabHeader; by rewrite (proj1 Ho)|]. split; [done|]. by split; [exists bs|].
Qed.

Lemma canCarve_spec : canAllocateFromCurrentSlabLocked ac = true ↔
  currSlab_ ac ∈ allocatedSlabs_ ac ∧
  ∃ j, (j < per ac)%nat ∧ currOffset_ ac = Z.of_nat j * allocationSize_ ac ∧
    u32 (currOffset_ ac + allocationSize_ ac) = Z.of_nat (S j) * allocationSize_ ac.
Proof.
  destruct (c_offset _ _ _ Hcore) as (j & Hj & Ej). pose proof (c_size _ _ _ Hcore) as Hsz.
  destruct (per_val ac Hsz) as (_ & _ & Hper & _). change getMinAllocSize with 64 in Hsz. rewrite kSize_val in Hsz.
  assert (u32 (currOffset_ ac + allocationSize_ ac) = Z.of_nat (S j) * allocationSize_ ac) as Eu.
  { rewrite Ej, wrap_small; [lia|]. unfold fits. change (2 ^ 32) with 4294967296. rewrite kSize_val in Hper. nia. }
  unfold canAllocateFromCurrentSlabLocked. rewrite andb_true_iff, negb_true_iff, Z.eqb_neq, Z.leb_le, Eu.
  assert (currSlab_ ac ∈ allocatedSlabs_ ac → currSlab_ ac ≠ 0) as Hnz.
  { intros Hin. destruct (carved_slab _ 0 (or_introl Hin)) as [_ Hp]; [apply per_val; by apply (c_size _ _ _ Hcore)|].
    unfold addr in Hp. lia. }
  split.
  - intros [Hc Hle]. destruct (c_curr _ _ _ Hcore) as [|Hin]; [done|]. split; [done|]. exists j.
    split; [|done]. apply per_index; [apply (c_size _ _ _ Hcore)|]. lia.
  - intros [Hin (j' & Hj' & Ej' & _)]. split; [by apply Hnz|]. rewrite per_index in Hj' by apply (c_size _ _ _ Hcore).
    assert (j = j') as -> by nia. lia.
Qed.

(** Cutting the next allocation off the current slab. *)
Lemma core_carve : canAllocateFromCurrentSlabLocked ac = true →
  ∃ p ac', allocateFromCurrentSlabLocked ac = Ok (p, ac') ∧ (p ∉ U) ∧ core ac' sa ({[p]} ∪ U) ∧
    getSlabForMemory p ∈ allocatedSlabs_ ac ∧ ac' = with_curr (currSlab_ ac) (currOffset_ ac') ac.
Proof.
  intros Hcan. pose proof Hcan as Hj. apply canCarve_spec in Hj as [Hin (j & Hj & Ej & Eu)]. unfold allocateFromCurrentSlabLocked.
  rewrite Hcan. unfold memoryAtOffset. pose proof (c_size _ _ _ Hcore) as Hsz. change getMinAllocSize with 64 in Hsz.
  pose proof Hj as Hj'. rewrite per_index in Hj' by apply (c_size _ _ _ Hcore).
  rewrite (proj2 (Z.ltb_lt _ _)) by nia. res_simpl. rewrite Eu. eexists (addr ac (currSlab_ ac) j), _.
  split; [unfold addr; by rewrite Ej|]. cbn [currOffset_ with_curr].
  assert (carved (currSlab_ ac)) as Hcv by (by left).
  assert (addr ac (currSlab_ ac) j ∉ U) as Hnew.
  { rewrite (c_allocated _ _ _ Hcore) by done. rewrite Ej. intros Hn. apply Hn. split; [done|lia]. }
  split; [done|]. split; [|split; [by rewrite (proj1 (carved_slab _ _ Hcv Hj))|done]].
  destruct Hcore as [H1 H2 H3 H4 H5 H6 H7 H8 H9 H10 H11 H12 H13]. split; cbn; try done.
  - intros p [->%elem_of_singleton|Hp]%elem_of_union; [|by apply H8]. exists (currSlab_ ac), j.
    split_and!; [done..|by left].
  - intros s k Hs Hk. change (addr _ s k) with (addr ac s k). rewrite elem_of_union, elem_of_singleton, H9 by done.
    split.
    + intros [E|Hn] [-> Hle]; [|apply Hn; split; [done|nia]].
      apply addr_inj_idx in E; [subst; nia|done].
    + intros Hn. destruct (decide (s = currSlab_ ac ∧ k = j)) as [[-> ->]|Hne]; [by left|]. right.
      intros [-> Hle]. apply Hn. split; [done|]. assert (k ≠ j) by naive_solver. nia.
  - intros s bs k b Hs Hb. change (addr _ s k) with (addr ac s k).
    rewrite elem_of_union, elem_of_singleton. rewrite (H10 _ _ _ _ Hs Hb).
    split; [|by right]. intros [E|]; [|done]. apply addr_inj in E as [-> _]; [|by right|done|by eapply bit_index|done].
    rewrite H5 in Hs by set_solver. done.
  - exists (S j). split; [done|]. done.
Qed.
End core.

(** ** How the operations change the slabs *)
(** Only the free list differs. *)
Lemma core_freed ac sa U l b : core ac sa U → core (with_freed l b ac) sa U.
Proof. intros []. by split. Qed.
Lemma core_releases_id ac sa U n : core ac sa U → core (with_releases n (slabReleaseAllocMap_ ac) ac) sa U.
Proof. intros []. by split. Qed.

Lemma upd_header_wf sa i f : sa_wf sa → sa_wf (upd_header i f sa).
Proof. apply slab_view_wf. done. Qed.
Lemma upd_header_same sa i f : headers (upd_header i f sa) i = f (headers sa i).
Proof. cbn. by rewrite decide_True. Qed.
Lemma upd_header_other sa s s' f : sa_wf sa → isValidSlab sa s = true → isValidSlab sa s' = true → s' ≠ s →
  headers (upd_header (slabIndex sa s) f sa) (slabIndex sa s') = headers sa (slabIndex sa s').
Proof.
  intros Hwf Hs Hs' Hne. cbn. rewrite decide_False; [done|]. intros E. by apply Hne, (slabIndex_inj sa Hwf).
Qed.
Lemma upd_header_index sa i f s : slabIndex (upd_header i f sa) s = slabIndex sa s.
Proof. done. Qed.
Lemma owned_upd ac sa s f b s' : sa_wf sa → isValidSlab sa s = true → s' ≠ s → owned ac sa b s' →
  owned ac (upd_header (slabIndex sa s) f sa) b s'.
Proof.
  intros Hwf Hs Hne (Hv & Hh). split; [done|]. cbv zeta. change (slabIndex (upd_header _ f sa) s') with (slabIndex sa s').
  by rewrite upd_header_other.
Qed.

(** Flags of a header. *)
Lemma mark_set hd : isMarkedForRelease (setMarkedForRelease true hd) = true.
Proof.
  unfold isMarkedForRelease, setMarkedForRelease, headerIsFlagSet, headerSetFlag. cbn [flags headerFlag_bit].
  rewrite land_bit_nonzero by done. rewrite Z.lor_spec. apply orb_true_r.
Qed.
Lemma mark_unset hd : isMarkedForRelease (setMarkedForRelease false hd) = false.
Proof.
  unfold isMarkedForRelease, setMarkedForRelease, headerIsFlagSet, headerUnSetFlag. cbn [flags headerFlag_bit].
  rewrite land_bit_nonzero by done. rewrite Z.land_spec. apply andb_false_r.
Qed.
Lemma assign_mark cid size hd : isMarkedForRelease (assign cid size hd) = isMarkedForRelease hd.
Proof. done. Qed.

#[local] Arguments setMarkedForRelease : simpl never.
#[local] Arguments isMarkedForRelease : simpl never.

Section core_steps.
Context (ac : AllocationClass) (sa : SlabAllocator) (U : gset Z).
Hypothesis Hcore : core ac sa U.

(** No slab of the class that is not carved has an allocation in use. *)
Lemma uncarved_unused s k : isValidSlab sa s = true → ¬ carved ac s → (k < per ac)%nat → addr ac s k ∉ U.
Proof.
  intros Hv Hs Hk (s' & k' & Hk' & E & Hs')%(c_used _ _ _ Hcore). apply Hs.
  pose proof (c_size _ _ _ Hcore) as Hsz. destruct (carved_slab _ _ _ Hcore s' k' Hs' Hk') as [E1 _].
  rewrite <- E in E1. rewrite <- E1 in Hs'. replace s with (getSlabForMemory (addr ac s k)); [done|].
  rewrite per_index in Hk by done. pose proof (c_sa _ _ _ Hcore) as Hwf. rewrite (valid_slab_iff _ Hwf) in Hv.
  change getMinAllocSize with 64 in Hsz. apply getSlabForMemory_offset; [|by destruct Hv|nia].
  destruct (wf_start _ Hwf), (wf_next _ Hwf) as [? Hal]. pose proof (wf_slab_start_eq _ Hwf). pose proof (wf_end _ Hwf).
  assert (s + kSize ≤ nextSlabAllocation sa).
  { rewrite kSize_val in *. Z.to_euclidean_division_equations. lia. }
  unfold fits. rewrite kSize_val in *. nia.
Qed.

(** An empty slab becomes the one that is carved. *)
Lemma core_setup s : last (freeSlabs_ ac) = Some s → canAllocateFromCurrentSlabLocked ac = false →
  ∃ ac', setupCurrentSlabLocked ac = Ok ac' ∧ core ac' sa U ∧ canAllocateFromCurrentSlabLocked ac' = true ∧
    ac' = with_curr s 0 (with_slabs (allocatedSlabs_ ac ++ [s]) (removelast (freeSlabs_ ac)) ac).
Proof.
  intros Hl Hcan. unfold setupCurrentSlabLocked. rewrite Hl. res_simpl. eexists. split; [done|].
  apply last_split in Hl. pose proof (c_size _ _ _ Hcore) as Hsz. destruct (per_val ac Hsz) as (_ & Hper & _).
  assert (core (with_curr s 0 (with_slabs (allocatedSlabs_ ac ++ [s]) (removelast (freeSlabs_ ac)) ac)) sa U) as Hc.
  { pose proof Hcore as [H1 H2 H3 H4 H5 H6 H7 H8 H9 H10 H11 H12 H13]. rewrite Hl in H4, H5, H6.
    assert (∀ x, x ∈ (allocatedSlabs_ ac ++ [s]) ++ removelast (freeSlabs_ ac) ↔
                 x ∈ allocatedSlabs_ ac ++ removelast (freeSlabs_ ac) ++ [s]) as Hsame by set_solver.
    split; cbn; try done.
    - by rewrite <- app_assoc, (Permutation_app_comm [s]).
    - intros x Hx. apply H5. by rewrite <- Hsame.
    - intros x Hx. apply H6. by rewrite <- Hsame.
    - intros p (s' & k & Hk & -> & Hs')%H8. exists s', k. split; [done|]. split; [done|]. set_solver.
    - intros s' k Hs' Hk. change (k < per ac)%nat in Hk. change (addr _ s' k) with (addr ac s' k).
      apply elem_of_app in Hs' as [Hs'| ->%list_elem_of_singleton].
      + assert (s' ≠ s) as Hne.
        { intros ->. apply NoDup_app in H4 as (_ & H4 & _). apply (H4 s Hs'). set_solver. }
        split; [by intros _ [? _]|]. intros _. apply H9; [done|done|]. intros [-> Hle].
        assert (canAllocateFromCurrentSlabLocked ac = true); [|congruence]. apply (canCarve_spec _ _ _ Hcore).
        destruct H12 as (j & Hj & Ej). split; [done|]. change getMinAllocSize with 64 in H2.
        rewrite Ej in Hle. assert (Z.of_nat j ≤ Z.of_nat k) by (clear - Hle H2; nia).
        assert (j < per ac)%nat as Hlt by lia. exists j. split; [done|]. split; [done|].
        rewrite per_index in Hlt by done. rewrite Ej, wrap_small; [lia|]. rewrite kSize_val in *.
        unfold fits. change (2 ^ 32) with 4294967296. clear - Hlt H2. nia.
      + split; [|intros Hn; exfalso; apply Hn; split; [done|clear - H2; change getMinAllocSize with 64 in H2; nia]].
        intros Hu. exfalso. revert Hu.
        apply uncarved_unused; [apply H6; set_solver| |done]. intros [Hs|[bs Hs]].
        * apply NoDup_app in H4 as (_ & H4 & _). apply (H4 s Hs). set_solver.
        * rewrite H5 in Hs by set_solver. done.
    - right. set_solver.
    - exists 0%nat. split; [lia|done].
    - intros x Hx Hcl Hpl. destruct (H13 x Hx Hcl Hpl) as [Hin|]; [left|by right]. apply Hsame. by rewrite <- Hl. }
  split; [done|]. split; [|done]. apply (canCarve_spec _ _ _ Hc). cbn. split; [set_solver|]. exists 0%nat.
  split; [done|]. split; [done|]. rewrite wrap_small; [lia|]. unfold fits. change getMinAllocSize with 64 in Hsz.
  rewrite kSize_val in Hsz. lia.
Qed.

(** Freeing an allocation of a slab that is being released. *)
Lemma core_bit s bs k n : slabReleaseAllocMap_ ac !! s = Some bs → bs !! k = Some false →
  core (with_releases n (<[s := <[k := true]> bs]> (slabReleaseAllocMap_ ac)) ac) sa (U ∖ {[addr ac s k]}).
Proof.
  intros Hs Hk. assert (carved ac s) as Hcv by (by right; exists bs).
  pose proof (bit_index _ _ _ Hcore _ _ _ _ Hs Hk) as Hkp.
  pose proof Hcore as [H1 H2 H3 H4 H5 H6 H7 H8 H9 H10 H11 H12 H13]. split; cbn; try done.
  - intros s' Hs'. rewrite lookup_insert_ne by (intros <-; rewrite H5 in Hs; done). by apply H5.
  - intros s' bs' [[<- <-]|[? ?]]%lookup_insert_Some; [|by apply H7]. rewrite length_insert. by apply H7.
  - intros p [(s' & k' & Hk' & -> & Hs')%H8 _]%elem_of_difference. exists s', k'. split; [done|]. split; [done|].
    destruct Hs'; [by left|right]. destruct (decide (s = s')) as [->|]; [by rewrite lookup_insert_eq|].
    by rewrite lookup_insert_ne.
  - intros s' k' Hs' Hk'. change (addr _ s' k') with (addr ac s' k'). rewrite elem_of_difference, <- H9, elem_of_singleton by done.
    split; [by intros [? _]|]. intros Hu. split; [done|]. intros E.
    apply (addr_inj _ _ _ Hcore) in E as [-> _]; [|by left|done..]. rewrite H5 in Hs by set_solver. done.
  - intros s' bs' k' b Hs' Hb. change (addr _ s' k') with (addr ac s' k').
    rewrite elem_of_difference, elem_of_singleton.
    apply lookup_insert_Some in Hs' as [[<- <-]|[Hne Hs']].
    + apply list_lookup_insert_Some in Hb as [(-> & <- & _)|(Hne & Hb)].
      * split; [|done]. intros [_ ?]. done.
      * rewrite (H10 _ _ _ _ Hs Hb). split; [by intros [? _]|]. intros ->. split; [done|].
        intros E. apply addr_inj_idx in E; [done|done].
    + rewrite (H10 _ _ _ _ Hs' Hb). split; [by intros [? _]|]. intros ->. split; [done|]. intros E.
      apply (addr_inj _ _ _ Hcore) in E as [-> _]; [done|by right; exists bs'|done| |done].
      by eapply bit_index.
  - intros x Hx Hcl Hpl. destruct (H13 x Hx Hcl Hpl); [by left|right]. rewrite lookup_insert_is_Some'. by right.
Qed.

(** A slab joins the class. *)
Lemma core_addSlab s : isValidSlab sa s = true → (s ∉ allocatedSlabs_ ac ++ freeSlabs_ ac) →
  slabReleaseAllocMap_ ac !! s = None → poolId (headers sa (slabIndex sa s)) = poolId_ ac →
  isMarkedForRelease (headers sa (slabIndex sa s)) = false →
  core (with_slabs (allocatedSlabs_ ac) (freeSlabs_ ac ++ [s]) ac)
    (upd_header (slabIndex sa s) (assign (classId_ ac) (allocationSize_ ac)) sa) U.
Proof.
  intros Hv Hn Hm Hp Hmk. pose proof Hcore as [H1 H2 H3 H4 H5 H6 H7 H8 H9 H10 H11 H12 H13]. split; cbn; try done.
  - by apply upd_header_wf.
  - rewrite app_assoc, <- Permutation_cons_append. by apply NoDup_cons_2.
  - intros s'. rewrite app_assoc, elem_of_app, list_elem_of_singleton. intros [Hs'| ->]; [by apply H5|done].
  - intros s'. rewrite app_assoc, elem_of_app, list_elem_of_singleton. intros [Hs'| ->].
    + apply owned_upd; [done..| |by apply H6]. by intros ->.
    + split; [done|]. cbv zeta. change (slabIndex (upd_header _ _ sa) s) with (slabIndex sa s). by rewrite upd_header_same.
  - intros s' bs Hs'. destruct (H7 _ _ Hs') as [Ho Hlen]. split; [|done]. apply owned_upd; [done..| |done].
    intros ->. congruence.
  - intros x Hx. destruct (decide (x = s)) as [->|Hne]; [left; set_solver|].
    change (slabIndex (upd_header _ _ sa) x) with (slabIndex sa x). rewrite decide_False by (by intros ?%(slabIndex_inj sa H1)).
    intros Hcl Hpl. destruct (H13 x Hx Hcl Hpl); [left; set_solver|by right].
Qed.

(** A slab that is given back: its bits are all set, or it was empty. *)
Lemma core_delete s f n : isValidSlab sa s = true → (∀ hd, classId (f hd) = kInvalidClassId) → (s ∉ allocatedSlabs_ ac ++ freeSlabs_ ac) →
  (∀ bs, slabReleaseAllocMap_ ac !! s = Some bs → forallb id bs = true) →
  core (with_releases n (delete s (slabReleaseAllocMap_ ac)) ac) (upd_header (slabIndex sa s) f sa) U.
Proof.
  intros Hv Hf Hn Hall. pose proof Hcore as [H1 H2 H3 H4 H5 H6 H7 H8 H9 H10 H11 H12 H13]. split; cbn; try done.
  - by apply upd_header_wf.
  - intros s' Hs'. rewrite lookup_delete_ne by (by intros ->). by apply H5.
  - intros s' Hs'. apply owned_upd; [done..| |by apply H6]. by intros ->.
  - intros s' bs [Hne Hs']%lookup_delete_Some. destruct (H7 _ _ Hs') as [Ho Hlen]. split; [|done].
    by apply owned_upd.
  - intros p Hp. pose proof Hp as (s' & k & Hk & -> & Hs')%H8. exists s', k. split; [done|]. split; [done|].
    destruct Hs' as [|[bs Hs']]; [by left|]. right. rewrite lookup_delete_ne; [done|]. intros <-.
    destruct (H7 _ _ Hs') as [_ Hlen]. destruct (lookup_lt_is_Some_2 bs k) as [b Hb]; [lia|].
    pose proof (Hall _ Hs') as Hb'. rewrite forallb_forall in Hb'.
    assert (b = true) as -> by (apply (Hb' b), list_elem_of_In; by eapply list_elem_of_lookup_2).
    by apply (H10 _ _ _ _ Hs' Hb) in Hp.
  - intros s' bs k b [Hne Hs']%lookup_delete_Some. by apply H10.
  - intros x Hx. change (slabIndex (upd_header _ _ sa) x) with (slabIndex sa x).
    destruct (decide (x = s)) as [->|Hne]; [rewrite decide_True, Hf by done; change kInvalidClassId with (-1); lia|].
    rewrite decide_False by (by intros ?%(slabIndex_inj sa H1)). intros Hcl Hpl.
    destruct (H13 x Hx Hcl Hpl) as [Hin|]; [by left|right]. by rewrite lookup_delete_ne.
Qed.

Lemma core_drop_free s free f : freeSlabs_ ac ≡ₚ s :: free → (∀ hd, classId (f hd) = kInvalidClassId) →
  core (with_slabs (allocatedSlabs_ ac) free ac) (upd_header (slabIndex sa s) f sa) U.
Proof.
  intros Hp Hf. pose proof Hcore as [H1 H2 H3 H4 H5 H6 H7 H8 H9 H10 H11 H12 H13].
  rewrite Hp, <- Permutation_middle, NoDup_cons in H4. destruct H4 as [Hs H4].
  assert (∀ x, x ∈ allocatedSlabs_ ac ++ free → x ∈ allocatedSlabs_ ac ++ freeSlabs_ ac ∧ x ≠ s) as Hsub.
  { intros x Hx. split; [rewrite Hp; set_solver|by intros ->]. }
  assert (s ∈ allocatedSlabs_ ac ++ freeSlabs_ ac) as Hin by (rewrite Hp; set_solver).
  destruct (H6 s Hin) as [Hv _]. split; cbn; try done.
  - by apply upd_header_wf.
  - intros x [Hx _]%Hsub. by apply H5.
  - intros x [Hx Hne]%Hsub. apply owned_upd; [done..|by apply H6].
  - intros s' bs Hs'. destruct (H7 _ _ Hs') as [Ho Hlen]. split; [|done]. apply owned_upd; [done..| |done].
    intros ->. rewrite H5 in Hs'; done.
  - intros x Hx. change (slabIndex (upd_header _ _ sa) x) with (slabIndex sa x).
    destruct (decide (x = s)) as [->|Hne]; [rewrite decide_True, Hf by done; change kInvalidClassId with (-1); lia|].
    rewrite decide_False by (by intros ?%(slabIndex_inj sa H1)). intros Hcl Hpl.
    destruct (H13 x Hx Hcl Hpl) as [Hinx|]; [left|by right]. rewrite Hp in Hinx. set_solver.
Qed.

(** A slab goes back to the allocated ones with all its allocations in use. *)
Lemma core_abort s bs n U' : slabReleaseAllocMap_ ac !! s = Some bs →
  (∀ p, p ∈ U' ↔ p ∈ U ∨ ∃ k, (k < per ac)%nat ∧ p = addr ac s k) →
  core (with_releases n (delete s (slabReleaseAllocMap_ ac)) (with_slabs (allocatedSlabs_ ac ++ [s]) (freeSlabs_ ac) ac))
    (upd_header (slabIndex sa s) (λ hd, setMarkedForRelease false (assign (classId_ ac) (allocationSize_ ac) hd)) sa) U'.
Proof.
  intros Hs HU. pose proof Hcore as [H1 H2 H3 H4 H5 H6 H7 H8 H9 H10 H11 H12 H13].
  assert (s ∉ allocatedSlabs_ ac ++ freeSlabs_ ac) as Hn by (intros Hin%H5; congruence).
  destruct (H7 _ _ Hs) as [(Hv & Ho) Hlen].
  assert (∀ x, x ∈ (allocatedSlabs_ ac ++ [s]) ++ freeSlabs_ ac ↔ x ∈ allocatedSlabs_ ac ++ freeSlabs_ ac ∨ x = s)
    as Hin by set_solver.
  assert (∀ s' k k', s' ≠ s → carved ac s' → (k < per ac)%nat → (k' < per ac)%nat → addr ac s' k ≠ addr ac s k') as Hne.
  { intros s' k k' Hne Hs' Hk Hk' E. apply (addr_inj _ _ _ Hcore) in E as [-> _]; [done|done|by right; exists bs|done|done]. }
  split; cbn; try done.
  - by apply upd_header_wf.
  - rewrite <- app_assoc, (Permutation_app_comm [s]), app_assoc, <- Permutation_cons_append. by apply NoDup_cons_2.
  - intros x [Hx| ->]%Hin; [|by rewrite lookup_delete_eq]. rewrite lookup_delete_ne by (by intros ->). by apply H5.
  - intros x [Hx| ->]%Hin; [apply owned_upd; [done..| |by apply H6]; by intros ->|].
    split; [done|]. cbv zeta. change (slabIndex (upd_header _ _ sa) s) with (slabIndex sa s). rewrite upd_header_same.
    cbv beta. rewrite mark_unset. cbn. destruct Ho as (_ & ? & _). done.
  - intros x bsx [Hnex Hx]%lookup_delete_Some. destruct (H7 _ _ Hx) as [Hox Hlenx]. split; [|done]. by apply owned_upd.
  - intros p [(s' & k & Hk & -> & Hs')%H8|(k & Hk & ->)]%HU; [|exists s, k; split; [done|]; split; [done|]; left; set_solver].
    exists s', k. split; [done|]. split; [done|]. destruct Hs' as [|Hs']; [left; set_solver|].
    destruct (decide (s' = s)) as [->|]; [left; set_solver|]. right. by rewrite lookup_delete_ne.
  - intros s' k Hs' Hk. change (addr _ s' k) with (addr ac s' k). change (k < per ac)%nat in Hk. rewrite HU.
    apply elem_of_app in Hs' as [Hs'| ->%list_elem_of_singleton].
    + rewrite <- H9 by done. split; [|by left]. intros [|(k' & Hk' & E)]; [done|]. apply Hne in E; [done| |by left|done|done].
      intros ->. apply Hn. set_solver.
    + split; [|intros _; right; by exists k]. intros _ [-> _]. destruct H11 as [E|Hc]; [|by apply Hn; set_solver].
      destruct (carved_slab _ _ _ Hcore _ k (or_intror (ex_intro _ bs Hs)) Hk) as [_ Hp]. rewrite E in Hv.
      rewrite (valid_slab_iff _ H1) in Hv. destruct (wf_start _ H1). pose proof (wf_slab_start_eq _ H1).
      rewrite kSize_val in *. lia.
  - intros s' bs' k b [Hnes Hs']%lookup_delete_Some Hb. change (addr _ s' k) with (addr ac s' k). rewrite HU.
    rewrite <- (H10 _ _ _ _ Hs' Hb). split; [|by left]. intros [|(k' & Hk' & E)]; [done|].
    apply Hne in E; [done|done|by right; exists bs'|by eapply bit_index|done].
  - set_solver.
  - intros x Hx. destruct (decide (x = s)) as [->|Hnx]; [left; set_solver|].
    change (slabIndex (upd_header _ _ sa) x) with (slabIndex sa x). rewrite decide_False by (by intros ?%(slabIndex_inj sa H1)).
    intros Hcl Hpl. destruct (H13 x Hx Hcl Hpl); [left; set_solver|right]. by rewrite lookup_delete_ne.
Qed.

(** A slab is marked and taken out of the allocated ones; what is not carved
    counts as freed. *)
Lemma set_from_lookup i n k b : (i ≤ n)%nat → set_from i (replicate n false) !! k = Some b →
  (k < n)%nat ∧ (b = false ↔ (k < i)%nat).
Proof.
  intros Hi. unfold set_from. rewrite take_replicate, length_replicate, Nat.min_l by done.
  intros [Hk|[Hlen Hk]]%lookup_app_Some; apply lookup_replicate in Hk as [-> Hk]; rewrite ?length_replicate in *;
    (split; [lia|]); split; (done || lia).
Qed.
Definition initial_bits (s : Z) : list bool :=
  if currSlab_ ac =? s then set_from (Z.to_nat (currOffset_ ac / allocationSize_ ac)) (replicate (per ac) false)
  else replicate (per ac) false.
Lemma initial_bits_spec s : s ∈ allocatedSlabs_ ac → length (initial_bits s) = per ac ∧
  ∀ k b, initial_bits s !! k = Some b → (k < per ac)%nat ∧ (addr ac s k ∈ U ↔ b = false).
Proof.
  intros Hs. destruct (c_offset _ _ _ Hcore) as (j & Hj & Ej). pose proof (c_size _ _ _ Hcore) as Hsz.
  change getMinAllocSize with 64 in Hsz. unfold initial_bits.
  rewrite Ej, Z.div_mul, Nat2Z.id by lia. destruct (Z.eqb_spec (currSlab_ ac) s) as [<-|Hne].
  - split; [unfold set_from; rewrite length_app, length_take, !length_replicate; lia|].
    intros k b [Hk Hb]%set_from_lookup; [|done]. split; [done|]. rewrite (c_allocated _ _ _ Hcore) by done.
    rewrite Hb, Ej. split; [|intros Hlt [_ Hle]; nia]. intros Hn. apply Nat.nle_gt. intros Hle. apply Hn. split; [done|nia].
  - split; [by rewrite length_replicate|]. intros k b [-> Hk]%lookup_replicate. split; [done|].
    rewrite (c_allocated _ _ _ Hcore) by done. split; [done|]. intros _ [-> _]. done.
Qed.

Lemma core_begin s allocated : allocatedSlabs_ ac ≡ₚ s :: allocated →
  let ac2 := with_curr (if currSlab_ ac =? s then 0 else currSlab_ ac) (if currSlab_ ac =? s then 0 else currOffset_ ac)
    (with_releases (activeReleases_ ac) (<[s := initial_bits s]> (slabReleaseAllocMap_ ac))
      (with_slabs allocated (freeSlabs_ ac) ac)) in
  slabReleaseAllocMap_ ac !! s = None ∧
  (∃ ac1, createSlabReleaseAllocMapLocked s ac = Some ac1 ∧ allocatedSlabs_ ac1 = allocatedSlabs_ ac ∧
    stopCarving s (with_slabs allocated (freeSlabs_ ac1) ac1) = Ok ac2) ∧
  core ac2 (upd_header (slabIndex sa s) (setMarkedForRelease true) sa) U.
Proof.
  intros Hp ac2. pose proof Hcore as [H1 H2 H3 H4 H5 H6 H7 H8 H9 H10 H11 H12 H13].
  assert (s ∈ allocatedSlabs_ ac) as Hin by (rewrite Hp; set_solver).
  assert (slabReleaseAllocMap_ ac !! s = None) as Hm by (apply H5; set_solver).
  destruct (per_val ac H2) as (_ & Hper & _ & Hmax). destruct (initial_bits_spec s Hin) as [Hlen Hbits].
  split; [done|]. split.
  { unfold createSlabReleaseAllocMapLocked. rewrite Hm. eexists. split; [done|]. split; [done|].
    unfold stopCarving, ac2, initial_bits. cbn [currSlab_ with_slabs with_releases].
    destruct (currSlab_ ac =? s); [|by destruct ac]. cbn [slabReleaseAllocMap_ with_slabs with_releases].
    rewrite lookup_insert_eq. res_simpl. rewrite length_replicate.
    change (getAllocsPerSlab (with_slabs _ _ _)) with (getAllocsPerSlab ac). rewrite (proj2 (Z.eqb_eq _ _)) by lia.
    res_simpl. cbn. by rewrite insert_insert_eq. }
  rewrite Hp in H4. cbn in H4. apply NoDup_cons in H4 as [Hns H4].
  assert (∀ x, x ∈ allocated ++ freeSlabs_ ac → x ∈ allocatedSlabs_ ac ++ freeSlabs_ ac ∧ x ≠ s) as Hsub.
  { intros x Hx. split; [rewrite Hp; set_solver|by intros ->]. }
  destruct (H6 s ltac:(set_solver)) as (Hv & Ho).
  split; cbn; try done.
  - by apply upd_header_wf.
  - intros x [Hx Hne]%Hsub. rewrite lookup_insert_ne by done. by apply H5.
  - intros x [Hx Hne]%Hsub. apply owned_upd; [done..|by apply H6].
  - intros x bs [[<- <-]|[Hne Hx]]%lookup_insert_Some.
    + split; [|done]. split; [done|]. cbv zeta. change (slabIndex (upd_header _ _ sa) s) with (slabIndex sa s).
      rewrite upd_header_same, mark_set. destruct Ho as (? & ? & ? & _). done.
    + destruct (H7 _ _ Hx) as [Hox Hlenx]. split; [|done]. by apply owned_upd.
  - intros p (s' & k & Hk & -> & Hs')%H8. exists s', k. split; [done|]. split; [done|].
    destruct (decide (s = s')) as [<-|Hne]; [right; by rewrite lookup_insert_eq|].
    rewrite lookup_insert_ne by done. destruct Hs' as [Hs'|]; [|by right]. left. rewrite Hp in Hs'. set_solver.
  - intros s' k Hs' Hk. change (addr _ s' k) with (addr ac s' k). rewrite H9; [|rewrite Hp; set_solver|done].
    assert (s' ≠ s) by (intros ->; apply Hns; set_solver).
    destruct (Z.eqb_spec (currSlab_ ac) s) as [<-|]; [|done]. split; [|by intros _ [? _]]. intros _ [-> _].
    destruct (H6 0) as [Hv0 _]; [rewrite Hp; set_solver|]. rewrite (valid_slab_iff _ H1) in Hv0.
    destruct (wf_start _ H1). pose proof (wf_slab_start_eq _ H1). rewrite kSize_val in *. lia.
  - intros s' bs k b [[<- <-]|[Hne Hs']]%lookup_insert_Some Hb; [by apply Hbits|]. by apply (H10 _ _ _ _ Hs').
  - destruct (Z.eqb_spec (currSlab_ ac) s) as [|Hne]; [by left|]. destruct H11 as [|Hc]; [by left|]. right.
    rewrite Hp in Hc. set_solver.
  - destruct (currSlab_ ac =? s); [|done]. exists 0%nat. split; [lia|done].
  - intros x Hx. destruct (decide (x = s)) as [->|Hnx]; [right; by rewrite lookup_insert_eq|].
    change (slabIndex (upd_header _ _ sa) x) with (slabIndex sa x). rewrite decide_False by (by intros ?%(slabIndex_inj sa H1)).
    intros Hcl Hpl. rewrite lookup_insert_ne by done. destruct (H13 x Hx Hcl Hpl) as [Hinx|]; [left|by right].
    rewrite Hp in Hinx. set_solver.
Qed.
End core_steps.

Lemma swap_remove_spec x v : match swap_remove x v with Some v' => v ≡ₚ x :: v' | None => x ∉ v end.
Proof.
  unfold swap_remove. destruct (list_find (eq x) v) as [[i y]|] eqn:E; cycle 1.
  { apply list_find_None in E. rewrite Forall_forall in E. intros Hx. by apply (E x). }
  apply list_find_Some in E as (Hi & <- & _). destruct (last v) as [b|] eqn:El; [|by apply last_None in El as ->].
  apply last_split in El. revert El. generalize (removelast v) as w. intros w ->.
  apply lookup_app_Some in Hi as [Hi|[Hlen Hi]].
  - rewrite insert_app_l by (by eapply lookup_lt_Some). rewrite removelast_last.
    rewrite <- (take_drop_middle w i x Hi) at 1. rewrite insert_take_drop by (by eapply lookup_lt_Some).
    rewrite <- !Permutation_middle. cbn [app]. rewrite app_nil_r. apply Permutation_swap.
  - apply list_lookup_singleton_Some in Hi as [Hi <-].
    rewrite list_insert_id by (rewrite lookup_app_r, Hi by done; done).
    rewrite removelast_last. by rewrite <- Permutation_cons_append.
Qed.

(** ** The invariant *)
Definition fl_rep (m : Mem) : SList → list Z → Prop :=
  slist_rep (slab_compress (m_sa m)) (slab_unCompress (m_sa m)) (m_hooks m).

(** The three lists of [pruneFreeAllocs]. *)
Record prune_ok (m : Mem) (s : Z) (p : Prune) (fs ins ns : list Z) : Prop := {
  p_free : fl_rep m (freeAllocs p) fs;
  p_in : fl_rep m (inSlab p) ins;
  p_not : fl_rep m (notInSlab p) ns;
  p_in_slab : Forall (λ x, getSlabForMemory x = s) ins;
  p_not_slab : Forall (λ x, getSlabForMemory x ≠ s) ns;
}.

(** A running [startSlabRelease] that was not aborted, with the free
    allocations [off] that it has taken offline. *)
Definition phase_ok (m : Mem) (mp : gmap Z (list bool)) (r : option Release) (live : gset Z) (online off : list Z) : Prop :=
  match r with
  | None => off = []
  | Some r =>
      let s := r_slab r in
      is_Some (mp !! s) ∧ r_header r = slabIndex (m_sa m) s ∧
      (r_phase r ≠ Marked → Forall (λ p, getSlabForMemory p ≠ s) online) ∧
      match r_phase r with
      | Marked | Collecting => off = []
      | Scanned p => ∃ fs ins ns, off = fs ++ ins ++ ns ∧ prune_ok m s p fs ins ns
      | Batched p => prune_ok m s p off [] []
      | Finishing act => off = [] ∧ ∀ p, p ∈ live → getSlabForMemory p = s → p ∈ act
      | Aborting _ | Unmarking => False
      end
  end.

(** [live] are the allocations users hold, [online] is the free list of the
    class. *)
Record ac_wf ac (m : Mem) (r : option Release) (live : gset Z) (online off : list Z) : Prop := {
  w_core : core ac (m_sa m) (live ∪ list_to_set (online ++ off));
  w_online : fl_rep m (freedAllocations_ ac) online;
  w_nodup : NoDup (online ++ off);
  w_live p : p ∈ live → p ∉ online ++ off;
  w_can : canAllocate_ ac = false → online = [] ∧ freeSlabs_ ac = [] ∧ canAllocateFromCurrentSlabLocked ac = false;
  w_active : activeReleases_ ac = Z.of_nat (size (slabReleaseAllocMap_ ac)) - match r with Some _ => 1 | None => 0 end;
  w_apart s p : is_Some (slabReleaseAllocMap_ ac !! s) → r_slab <$> r ≠ Some s → p ∈ online ++ off →
    getSlabForMemory p ≠ s;
  w_phase : phase_ok m (slabReleaseAllocMap_ ac) r live online off;
}.

(** Lists survive a change of headers that keeps the class of their nodes. *)
Lemma fl_rep_owned ac ac' m m' l xs : sa_wf (m_sa m') → slabMemoryStart (m_sa m') = slabMemoryStart (m_sa m) →
  allocationSize_ ac' = allocationSize_ ac →
  (∀ x, x ∈ xs → (∃ b, owned ac (m_sa m) b (getSlabForMemory x)) ∧ (∃ b, owned ac' (m_sa m') b (getSlabForMemory x)) ∧
    is_alloc (m_sa m') x ∧ m_hooks m' !! x = m_hooks m !! x) →
  fl_rep m l xs → fl_rep m' l xs.
Proof.
  intros Hsa Hst Hsz Hxs Hrep. unfold fl_rep in *. eapply slist_frame in Hrep; [|by intros x (_ & _ & _ & ?)%Hxs].
  eapply slist_rep_compressor; [done|done|apply slab_null|].
  intros x ((b & Hv & _ & _ & Hs & _) & (b' & Hv' & _ & _ & Hs' & _) & Hal & _)%Hxs.
  split; [|by apply slab_roundtrip].
  assert (slabIndex (m_sa m') (getSlabForMemory x) = slabIndex (m_sa m) (getSlabForMemory x)) as Ei
    by (unfold slabIndex; by rewrite Hst).
  unfold slab_compress, compress. rewrite Hv, Hv'. cbn [negb]. rewrite Ei in *. by rewrite Hs, Hs', Hsz.
Qed.
Lemma used_is_alloc ac sa U p : core ac sa U → p ∈ U → is_alloc sa p.
Proof.
  intros Hc (k & Hk & E & Hs)%(used_slab _ _ _ Hc). destruct (carved_owned _ _ _ Hc _ Hs) as [b Ho].
  exists (getSlabForMemory p), (Z.of_nat k). rewrite E at 2. eapply addr_alloc_at; [apply Hc|done|done].
Qed.
Lemma fl_rep_core ac ac' U U' m m' l xs : core ac (m_sa m) U → core ac' (m_sa m') U' →
  slabMemoryStart (m_sa m') = slabMemoryStart (m_sa m) → allocationSize_ ac' = allocationSize_ ac →
  (∀ x, x ∈ xs → x ∈ U ∧ x ∈ U' ∧ m_hooks m' !! x = m_hooks m !! x) → fl_rep m l xs → fl_rep m' l xs.
Proof.
  intros Hc Hc' Hst Hsz Hxs. apply (fl_rep_owned ac ac'); [apply Hc'|done|done|]. intros x (Hx & Hx' & Hh)%Hxs.
  destruct (used_header _ _ _ Hc x Hx) as (b & _ & Ho & _). destruct (used_header _ _ _ Hc' x Hx') as (b' & _ & Ho' & _).
  split; [by exists b|]. split; [by exists b'|]. split; [by eapply used_is_alloc|done].
Qed.

Lemma phase_frame m m' mp mp' r live live' online online' off : phase_ok m mp r live online off →
  slabMemoryStart (m_sa m') = slabMemoryStart (m_sa m) →
  (∀ l xs, (∀ x, x ∈ xs → x ∈ off) → fl_rep m l xs → fl_rep m' l xs) →
  (∀ s, r_slab <$> r = Some s → is_Some (mp !! s) → is_Some (mp' !! s)) →
  (∀ r0, r = Some r0 → r_phase r0 ≠ Marked → ∀ p, p ∈ online' → p ∈ online ∨ getSlabForMemory p ≠ r_slab r0) →
  (∀ r0, r = Some r0 → r_phase r0 ≠ Marked → ∀ p, p ∈ live' → p ∈ live ∨ getSlabForMemory p ≠ r_slab r0) →
  phase_ok m' mp' r live' online' off.
Proof.
  intros Hp Hst Hrep Hmp Hon Hlive. destruct r as [r0|]; [|done]. cbn in *. destruct Hp as (H1 & H2 & H3 & H4).
  split; [by apply Hmp|]. split; [by rewrite H2; unfold slabIndex; rewrite Hst|]. split.
  { intros Hne. apply Forall_forall. intros p Hp. destruct (Hon _ eq_refl Hne p Hp) as [Hp'|]; [|done].
    specialize (H3 Hne). rewrite Forall_forall in H3. by apply H3. }
  assert (∀ p fs ins ns, off = fs ++ ins ++ ns → prune_ok m (r_slab r0) p fs ins ns → prune_ok m' (r_slab r0) p fs ins ns) as Hpr.
  { intros p fs ins ns -> [Hf Hi Hn ? ?]. split; [apply Hrep; [set_solver|done]..|done|done]. }
  destruct (r_phase r0) eqn:Eph; try done.
  - destruct H4 as (fs & ins & ns & E & H4). exists fs, ins, ns. split; [done|]. by apply Hpr.
  - apply Hpr; [by rewrite app_nil_r|done].
  - destruct H4 as [H4 H5]. split; [done|]. intros p Hp Hs. destruct (Hlive _ eq_refl ltac:(congruence) p Hp); [by apply H5|done].
Qed.

Lemma fl_rep_hooks m h l xs : (∀ x, x ∈ xs → h !! x = m_hooks m !! x) → fl_rep m l xs → fl_rep (with_hooks h m) l xs.
Proof. intros Hh Hr. by eapply slist_frame. Qed.

Lemma fl_insert_spec m l xs x : fl_rep m l xs → x ∉ xs → good (slab_compress (m_sa m)) (slab_unCompress (m_sa m)) x →
  ∃ l' h', fl_insert x l m = Ok (l', with_hooks h' m) ∧ fl_rep (with_hooks h' m) l' (x :: xs) ∧
    ∀ y, y ≠ x → h' !! y = m_hooks m !! y.
Proof.
  intros Hr Hx Hg. unfold fl_insert. destruct (slist_insert_aux _ _ _ _ _ _ Hr Hx Hg) as (l' & h' & -> & ? & ?).
  by exists l', h'.
Qed.
Lemma fl_pop_spec m l x xs : fl_rep m l (x :: xs) →
  ∃ l' h', fl_pop l m = Ok (l', with_hooks h' m) ∧ fl_rep (with_hooks h' m) l' xs ∧ ∀ y, y ≠ x → h' !! y = m_hooks m !! y.
Proof.
  intros Hr. unfold fl_pop. destruct (slist_pop_aux _ _ _ _ _ _ Hr) as (l' & h' & -> & ? & ?). by exists l', h'.
Qed.
Lemma fl_splice_spec m l xs o ys : fl_rep m l xs → fl_rep m o ys → NoDup (ys ++ xs) →
  ∃ l' h', fl_splice l o m = Ok (l', SList_empty, with_hooks h' m) ∧ fl_rep (with_hooks h' m) l' (ys ++ xs) ∧
    ∀ y, y ∉ ys → h' !! y = m_hooks m !! y.
Proof.
  intros Hr Ho Hnd. unfold fl_splice. destruct (slist_splice_aux _ _ _ _ _ _ _ Hr Ho Hnd) as (l' & h' & -> & ? & ?).
  by exists l', h'.
Qed.

(** Only the words of the allocations [xs] change. *)
Definition touches (xs : list Z) (m m' : Mem) : Prop := ∀ y, y ∉ xs → m_hooks m' !! y = m_hooks m !! y.
Lemma touches_refl xs m : touches xs m m.
Proof. done. Qed.
#[export] Hint Resolve touches_refl : cachelib.

(** *** Allocation *)
Definition same_class ac ac' : Prop :=
  allocationSize_ ac' = allocationSize_ ac ∧ classId_ ac' = classId_ ac ∧ poolId_ ac' = poolId_ ac.
(** A slab in which allocations are made is not being released. *)
Lemma allocated_not_released ac m r live online off p r0 : ac_wf ac m r live online off →
  getSlabForMemory p ∈ allocatedSlabs_ ac → r = Some r0 → getSlabForMemory p ≠ r_slab r0.
Proof.
  intros Hwf Hs -> E. destruct (w_phase _ _ _ _ _ _ Hwf) as ([bs Hm] & _).
  rewrite <- E, (c_apart _ _ _ (w_core _ _ _ _ _ _ Hwf)) in Hm by set_solver. done.
Qed.

Lemma carve_wf ac m r live online off : ac_wf ac m r live online off → canAllocateFromCurrentSlabLocked ac = true →
  ∃ p ac', allocateFromCurrentSlabLocked ac = Ok (p, ac') ∧ (p ∉ live) ∧ ac_wf ac' m r ({[p]} ∪ live) online off ∧
    slabReleaseAllocMap_ ac !! getSlabForMemory p = None ∧ same_class ac ac'.
Proof.
  intros Hwf Hcan. pose proof Hwf as [W1 W2 W3 W4 W5 W6 W7 W8].
  destruct (core_carve _ _ _ W1 Hcan) as (p & ac' & Hcv & Hp & Hc & Hs & E). exists p, ac'. split; [done|].
  rewrite E in Hc |- *. clear E Hcv. split; [set_solver|].
  split; [|split; [apply (c_apart _ _ _ W1); set_solver|done]].
  assert (canAllocate_ ac = true) as Et by (destruct (canAllocate_ ac); [done|]; destruct W5 as (_ & _ & ?); congruence).
  split; cbn; try done.
  - replace ({[p]} ∪ live ∪ list_to_set (online ++ off)) with ({[p]} ∪ (live ∪ list_to_set (online ++ off))) by set_solver.
    done.
  - set_solver.
  - congruence.
  - eapply phase_frame; [done|done|done|done|by left|]. intros r0 Er _ q [->%elem_of_singleton|]%elem_of_union; [|by left].
    right. by eapply allocated_not_released.
Qed.

Lemma setup_wf ac m r live off : ac_wf ac m r live [] off → freeSlabs_ ac ≠ [] → canAllocateFromCurrentSlabLocked ac = false →
  ∃ ac', setupCurrentSlabLocked ac = Ok ac' ∧ ac_wf ac' m r live [] off ∧ canAllocateFromCurrentSlabLocked ac' = true ∧
    slabReleaseAllocMap_ ac' = slabReleaseAllocMap_ ac ∧ same_class ac ac'.
Proof.
  intros Hwf Hf Hcan. pose proof Hwf as [W1 W2 W3 W4 W5 W6 W7 W8].
  destruct (last (freeSlabs_ ac)) as [s|] eqn:El; [|by apply last_None in El].
  destruct (core_setup _ _ _ W1 s El Hcan) as (ac' & Hsu & Hc & Hcan' & ->). eexists. split; [done|]. split; [|done].
  assert (canAllocate_ ac = true) as Et by (destruct (canAllocate_ ac); [done|]; destruct W5 as (_ & ? & _); done).
  split; cbn; try done. congruence.
Qed.

Lemma pop_wf ac m r live p online off : ac_wf ac m r live (p :: online) off →
  ∃ l m', fl_pop (freedAllocations_ ac) m = Ok (l, m') ∧ m_sa m' = m_sa m ∧ (p ∉ live) ∧ touches [p] m m' ∧
    ac_wf (with_freed l (canAllocate_ ac) ac) m' r ({[p]} ∪ live) online off.
Proof.
  intros [W1 W2 W3 W4 W5 W6 W7 W8]. destruct (fl_pop_spec _ _ _ _ W2) as (l & h & -> & Hr & Hh).
  exists l, (with_hooks h m). split; [done|]. split; [done|]. split; [intros ?%W4; set_solver|].
  split; [intros y Hy; apply Hh; set_solver|].
  pose proof W3 as [Hp Hnd]%NoDup_cons. split; cbn; try done.
  - apply core_freed. replace ({[p]} ∪ live ∪ list_to_set (online ++ off)) with
      (live ∪ list_to_set ((p :: online) ++ off)) by set_solver. done.
  - intros q [->%elem_of_singleton|Hq]%elem_of_union; [done|]. apply W4 in Hq. set_solver.
  - intros E. by destruct (W5 E).
  - intros s q Hs Hne Hq. apply (W7 s q Hs Hne). set_solver.
  - eapply phase_frame; [done|done| |done|by left; right|].
    + intros l' xs Hxs. apply fl_rep_hooks. intros x Hx. apply Hh. intros ->. apply Hp. set_solver.
    + intros r0 Er Hm q [->%elem_of_singleton|]%elem_of_union; [|by left]. right. subst r. destruct W8 as (_ & _ & Hon & _).
      specialize (Hon Hm). apply Forall_cons in Hon as [? _]. done.
Qed.

(** Under the lock: an allocation nobody holds, or nothing only if nothing is free. *)
Lemma allocateLocked_aux ac m r live online off : ac_wf ac m r live online off →
  ∃ o ac' m', allocateLocked ac m = Ok (o, ac', m') ∧ m_sa m' = m_sa m ∧ same_class ac ac' ∧ touches online m m' ∧
    match o with
    | None => online = [] ∧ freeSlabs_ ac = [] ∧ canAllocateFromCurrentSlabLocked ac = false ∧ ac_wf ac' m' r live [] off
    | Some p => (p ∉ live) ∧ is_alloc (m_sa m) p ∧ ac_wf ac' m' r ({[p]} ∪ live) (tail online) off ∧
        (online = [] ∨ head online = Some p) ∧
        ∀ s, is_Some (slabReleaseAllocMap_ ac !! s) → r_slab <$> r ≠ Some s → getSlabForMemory p ≠ s
    end.
Proof.
  intros Hwf. pose proof Hwf as [W1 W2 W3 W4 W5 W6 W7 W8]. unfold allocateLocked.
  rewrite (slist_empty_iff _ _ _ _ _ W2), (slist_getHead _ _ _ _ _ W2).
  assert (∀ ac' m' p online', ac_wf ac' m' r ({[p]} ∪ live) online' off → is_alloc (m_sa m') p) as Hal.
  { intros ac' m' p online' H. apply (used_is_alloc _ _ _ _ (w_core _ _ _ _ _ _ H)). set_solver. }
  destruct online as [|p online].
  - rewrite bool_decide_true by done. cbn [andb negb]. destruct (canAllocateFromCurrentSlabLocked ac) eqn:Ecan.
    + rewrite andb_false_r. destruct (canAllocate_ ac) eqn:Et; [|by destruct W5 as (_ & _ & ?)]. res_simpl.
      destruct (carve_wf _ _ _ _ _ _ Hwf Ecan) as (p & ac' & -> & Hp & Hw & Em & E). res_simpl.
      exists (Some p), ac', m. split_and!; try done; [by eapply Hal|by left|].
      intros s [bs Hs] _ <-. congruence.
    + rewrite andb_true_r. destruct (freeSlabs_ ac) as [|s0 fs] eqn:Ef.
      * rewrite bool_decide_true by done. eexists None, _, _. split_and!; try done. split; cbn; try done.
        by apply core_freed.
      * rewrite bool_decide_false by done. destruct (canAllocate_ ac) eqn:Et; [|by destruct W5 as (_ & ? & _)]. res_simpl.
        destruct (setup_wf _ _ _ _ _ Hwf) as (ac1 & -> & Hw1 & Hcan1 & Em1 & E1 & E2 & E3); [by rewrite Ef|done|]. res_simpl.
        destruct (carve_wf _ _ _ _ _ _ Hw1 Hcan1) as (p & ac' & -> & Hp & Hw & Em & F1 & F2 & F3). res_simpl.
        exists (Some p), ac', m. split_and!; try done; [unfold same_class; split_and!; congruence|by eapply Hal|by left|].
        intros s [bs Hs] _ <-. congruence.
  - rewrite bool_decide_false by done. destruct (canAllocate_ ac) eqn:Et; [|by destruct W5]. res_simpl.
    destruct (pop_wf _ _ _ _ _ _ _ Hwf) as (l & m' & -> & Esa & Hp & Ht & Hw). res_simpl. rewrite Et in Hw.
    eexists (Some p), _, m'. split_and!; try done; [intros y Hy; apply Ht; set_solver|rewrite <- Esa; by eapply Hal|by right|].
    intros s Hs Hne. apply (W7 s p Hs Hne). by left.
Qed.

(** *** Freeing *)
Lemma free_list_wf ac m r live online off p : ac_wf ac m r live online off → p ∈ live →
  slabReleaseAllocMap_ ac !! getSlabForMemory p = None →
  ∃ l m', fl_insert p (freedAllocations_ ac) m = Ok (l, m') ∧ m_sa m' = m_sa m ∧ touches [p] m m' ∧
    ac_wf (with_freed l true ac) m' r (live ∖ {[p]}) (p :: online) off.
Proof.
  intros Hwf Hp Hm. pose proof Hwf as [W1 W2 W3 W4 W5 W6 W7 W8]. pose proof (W4 p Hp) as Hnp.
  destruct (fl_insert_spec m _ _ p W2) as (l & h & -> & Hr & Hh); [set_solver| |].
  { apply (used_good _ _ _ W1). set_solver. }
  exists l, (with_hooks h m). split; [done|]. split; [done|]. split; [intros y Hy; apply Hh; set_solver|]. split; cbn; try done.
  - apply core_freed. replace (live ∖ {[p]} ∪ _) with (live ∪ list_to_set (online ++ off)); [done|].
    apply set_eq. intros x. destruct (decide (x = p)); set_solver.
  - by apply NoDup_cons_2.
  - intros q [Hq Hne]%elem_of_difference. apply W4 in Hq. set_solver.
  - intros s q Hs Hne [->|Hq]%elem_of_cons; [|by apply (W7 s q)]. intros <-. rewrite Hm in Hs. by destruct Hs.
  - eapply phase_frame; [done|done| |done| |set_solver].
    + intros l' xs Hxs. apply fl_rep_hooks. intros x Hx. apply Hh. intros ->. apply Hnp. set_solver.
    + intros r0 -> _ q [->|Hq]%elem_of_cons; [|by left]. right. destruct W8 as ([bs Hbs] & _). intros E. congruence.
Qed.

Lemma free_bit_wf ac m r live online off p bs k : ac_wf ac m r live online off → p ∈ live →
  slabReleaseAllocMap_ ac !! getSlabForMemory p = Some bs → p = addr ac (getSlabForMemory p) k → bs !! k = Some false →
  ac_wf (with_releases (activeReleases_ ac) (<[getSlabForMemory p := <[k := true]> bs]> (slabReleaseAllocMap_ ac)) ac)
    m r (live ∖ {[p]}) online off.
Proof.
  intros Hwf Hp Hm Ep Hk. pose proof Hwf as [W1 W2 W3 W4 W5 W6 W7 W8].
  assert (∀ s, is_Some (<[getSlabForMemory p := <[k := true]> bs]> (slabReleaseAllocMap_ ac) !! s) ↔
               is_Some (slabReleaseAllocMap_ ac !! s)) as Hdom.
  { intros s. rewrite !lookup_insert_is_Some'. split; [|by right]. intros [<-|]; [by exists bs|done]. }
  split; cbn; try done.
  - pose proof (core_bit _ _ _ W1 _ _ k (activeReleases_ ac) Hm Hk) as Hc. rewrite <- Ep in Hc.
    replace (live ∖ {[p]} ∪ _) with ((live ∪ list_to_set (online ++ off)) ∖ {[p]}); [done|].
    apply W4 in Hp. set_solver.
  - intros q [Hq Hne]%elem_of_difference. by apply W4.
  - rewrite W6. by rewrite map_size_insert_Some by (by exists bs).
  - intros s q Hs. apply (W7 s q). by apply Hdom.
  - eapply phase_frame; [done|done|done| |by left|set_solver]. intros s _ Hs. by apply Hdom.
Qed.

Definition freed_online ac (p : Z) (online : list Z) : list Z :=
  match slabReleaseAllocMap_ ac !! getSlabForMemory p with Some _ => online | None => p :: online end.
Lemma free_aux ac m r live online off p : ac_wf ac m r live online off → p ∈ live →
  ∃ ac' m', free p ac m = Ok (ac', m') ∧ m_sa m' = m_sa m ∧
    ac_wf ac' m' r (live ∖ {[p]}) (freed_online ac p online) off ∧ same_class ac ac' ∧ touches [p] m m'.
Proof.
  intros Hwf Hp. pose proof (w_core _ _ _ _ _ _ Hwf) as Hc.
  assert (p ∈ live ∪ list_to_set (online ++ off)) as Hu by set_solver.
  destruct (used_header _ _ _ Hc p Hu) as (b & Hh & (Hv & Hcl & _ & _ & Hmk) & Hb). unfold free, freed_online.
  rewrite Hh. unfold header_at. rewrite Hcl, Z.eqb_refl. cbn [negb]. rewrite Hmk.
  destruct (slabReleaseAllocMap_ ac !! getSlabForMemory p) as [bs|] eqn:Em.
  - assert (b = true) as -> by (by apply Hb; exists bs).
    destruct (used_slab _ _ _ Hc p Hu) as (k & Hk & Ep & Hs). destruct (carved_owned _ _ _ Hc _ Hs) as [b' Ho].
    assert (getAllocIdx (getSlabForMemory p) p ac = Ok (Z.of_nat k)) as ->.
    { rewrite Ep at 2. eapply getAllocIdx_spec; [apply Hc|apply Hc|done|done]. }
    res_simpl. rewrite Nat2Z.id. destruct (c_releasing _ _ _ Hc _ _ Em) as [_ Hlen].
    destruct (lookup_lt_is_Some_2 bs k) as [bit Hbit]; [lia|].
    assert (bit = false) as -> by (apply (c_bits _ _ _ Hc _ _ _ _ Em Hbit); by rewrite <- Ep).
    rewrite Hbit. res_simpl. eexists _, _. split; [done|]. split; [done|]. split; [|done]. by eapply free_bit_wf.
  - assert (b = false) as -> by (destruct b; [by destruct (proj1 Hb eq_refl)|done]).
    destruct (free_list_wf _ _ _ _ _ _ _ Hwf Hp Em) as (l & m' & -> & Esa & Ht & Hw). res_simpl.
    by exists (with_freed l true ac), m'.
Qed.

(** *** Slabs joining and leaving *)
(** Lists and phase under a change of headers. *)
Lemma headers_wf ac ac' m sa' r live online off : ac_wf ac m r live online off →
  core ac' sa' (live ∪ list_to_set (online ++ off)) → slabMemoryStart sa' = slabMemoryStart (m_sa m) →
  allocationSize_ ac' = allocationSize_ ac → freedAllocations_ ac' = freedAllocations_ ac →
  fl_rep (with_sa sa' m) (freedAllocations_ ac') online ∧
  (∀ l xs, (∀ x, x ∈ xs → x ∈ off) → fl_rep m l xs → fl_rep (with_sa sa' m) l xs).
Proof.
  intros Hwf Hc Hst Hsz Hfr. rewrite Hfr.
  assert (∀ l xs, (∀ x, x ∈ xs → x ∈ online ++ off) → fl_rep m l xs → fl_rep (with_sa sa' m) l xs) as Hrep.
  { intros l xs Hxs. apply (fl_rep_core _ _ _ _ _ (with_sa sa' m) _ _ (w_core _ _ _ _ _ _ Hwf) Hc); [done|done|].
    intros x Hx%Hxs. set_solver. }
  split; [apply Hrep; [set_solver|apply Hwf]|]. intros l xs Hxs. apply Hrep. set_solver.
Qed.

(** A slab of the pool that no class owns. *)
Definition fresh_slab ac (m : Mem) (s : Z) : Prop :=
  isValidSlab (m_sa m) s = true ∧
  let hd := headers (m_sa m) (slabIndex (m_sa m) s) in
  classId hd = kInvalidClassId ∧ poolId hd = poolId_ ac ∧ isMarkedForRelease hd = false.

Lemma addSlabLocked_aux ac m r live online off s : ac_wf ac m r live online off → fresh_slab ac m s →
  ∃ ac' m', addSlabLocked s ac m = Ok (ac', m') ∧ ac_wf ac' m' r live online off ∧ same_class ac ac' ∧ freeSlabs_ ac' = freeSlabs_ ac ++ [s] ∧
    m_sa m' = upd_header (slabIndex (m_sa m) s) (assign (classId_ ac) (allocationSize_ ac)) (m_sa m) ∧
    m_hooks m' = m_hooks m.
Proof.
  intros Hwf (Hv & Hcl & Hpl & Hmk). pose proof Hwf as [W1 W2 W3 W4 W5 W6 W7 W8].
  assert ((s ∉ allocatedSlabs_ ac ++ freeSlabs_ ac) ∧ slabReleaseAllocMap_ ac !! s = None) as [Hn Hm].
  { pose proof (c_class _ _ _ W1) as H0. change kInvalidClassId with (-1) in Hcl. split.
    - intros (_ & Hcl' & _)%(c_owned _ _ _ W1). lia.
    - destruct (_ !! s) eqn:E; [|done]. apply (c_releasing _ _ _ W1) in E as ((_ & Hcl' & _) & _). lia. }
  unfold addSlabLocked, header_of. rewrite header_of_valid by done. res_simpl. eexists _, _. split; [done|].
  split; [|done]. set (f := assign _ _). set (ac' := with_slabs _ _ _).
  assert (core ac' (upd_header (slabIndex (m_sa m) s) f (m_sa m)) (live ∪ list_to_set (online ++ off))) as Hc.
  { apply (core_freed (with_slabs (allocatedSlabs_ ac) (freeSlabs_ ac ++ [s]) ac) _ _ (freedAllocations_ ac) true).
    by apply core_addSlab. }
  destruct (headers_wf _ _ _ _ _ _ _ _ Hwf Hc) as [Hrep Hreps]; [done..|].
  split; try done. eapply phase_frame; [done|done|done|done|by left|by left].
Qed.

Lemma begin_free_wf ac m live online s free : ac_wf ac m None live online [] → freeSlabs_ ac ≡ₚ s :: free →
  ac_wf (with_slabs (allocatedSlabs_ ac) free ac) (set_header (slabIndex (m_sa m) s) (assign kInvalidClassId 0) m)
    None live online [].
Proof.
  intros Hwf Hp. pose proof Hwf as [W1 W2 W3 W4 W5 W6 W7 W8].
  pose proof (core_drop_free _ _ _ W1 s free (assign kInvalidClassId 0) Hp ltac:(done)) as Hc.
  destruct (headers_wf _ _ _ _ _ _ _ _ Hwf Hc) as [Hrep Hreps]; [done..|].
  split; try done. cbn. intros E. destruct (W5 E) as (? & Ef & ?). rewrite Ef in Hp. by apply Permutation_nil_cons in Hp.
Qed.

Lemma begin_marked_wf ac m live online s allocated mode : ac_wf ac m None live online [] →
  allocatedSlabs_ ac ≡ₚ s :: allocated →
  ∃ ac1 ac2, createSlabReleaseAllocMapLocked s ac = Some ac1 ∧ allocatedSlabs_ ac1 = allocatedSlabs_ ac ∧
    stopCarving s (with_slabs allocated (freeSlabs_ ac1) ac1) = Ok ac2 ∧
    ac_wf ac2 (set_header (slabIndex (m_sa m) s) (setMarkedForRelease true) m)
      (Some (mkRelease s (slabIndex (m_sa m) s) mode Marked)) live online [] ∧
    allocationSize_ ac2 = allocationSize_ ac ∧ classId_ ac2 = classId_ ac ∧ poolId_ ac2 = poolId_ ac.
Proof.
  intros Hwf Hp. pose proof Hwf as [W1 W2 W3 W4 W5 W6 W7 W8].
  destruct (core_begin _ _ _ W1 s allocated Hp) as (Hm & (ac1 & E1 & E2 & E3) & Hc).
  eexists ac1, _. split; [done|]. split; [done|]. split; [done|]. split; [|done].
  destruct (headers_wf _ _ _ _ _ _ _ _ Hwf Hc) as [Hrep Hreps]; [done..|].
  split; try done; cbn.
  - intros E. destruct (W5 E) as (? & ? & Ecan). split; [done|]. split; [done|].
    unfold canAllocateFromCurrentSlabLocked in *. cbn. by destruct (currSlab_ ac =? s).
  - rewrite W6, map_size_insert_None by done. lia.
  - intros s' p Hs' Hne Hp'. rewrite lookup_insert_ne in Hs' by congruence. by apply (W7 s' p).
  - rewrite lookup_insert_eq. split; [done|]. split; [done|]. done.
Qed.

(** What the first critical section of [startSlabRelease] does. *)
Definition release_target (hint : option Z) (rnd : Z) ac : option Z :=
  if is_null hint then getSlabForReleaseLocked rnd ac else getSlabForMemory <$> hint.
Lemma begin_aux ac m live online mode hint rnd : ac_wf ac m None live online [] →
  match startRelease_begin mode hint rnd ac m with
  | Ok (Returned ctx, ac', m') =>
      ∃ s, release_target hint rnd ac = Some s ∧ s ∈ freeSlabs_ ac ∧ freeSlabs_ ac ≡ₚ s :: freeSlabs_ ac' ∧
        ctx = releasedContext s (poolId_ ac) kInvalidClassId mode ∧
        m' = set_header (slabIndex (m_sa m) s) (assign kInvalidClassId 0) m ∧ ac_wf ac' m' None live online [] ∧
        same_class ac ac'
  | Ok (Running r, ac', m') =>
      ∃ s, release_target hint rnd ac = Some s ∧ s ∈ allocatedSlabs_ ac ∧ allocationSize_ ac' = allocationSize_ ac ∧
        r = mkRelease s (slabIndex (m_sa m) s) mode Marked ∧ classId_ ac' = classId_ ac ∧ poolId_ ac' = poolId_ ac ∧
        m' = set_header (slabIndex (m_sa m) s) (setMarkedForRelease true) m ∧ ac_wf ac' m' (Some r) live online []
  | Throw e => e = InvalidArgument ∧ ∀ s, release_target hint rnd ac = Some s → s ∉ allocatedSlabs_ ac ++ freeSlabs_ ac
  | _ => False
  end.
Proof.
  intros Hwf. pose proof (w_core _ _ _ _ _ _ Hwf) as Hc. unfold startRelease_begin.
  assert ((if is_null hint then getSlabForReleaseLocked rnd ac else Some (getSlabForMemory (default 0 hint))) =
    release_target hint rnd ac) as -> by (by destruct hint).
  destruct (negb (is_null hint) && _) eqn:Eh.
  { res_simpl. split; [done|]. apply andb_true_iff in Eh as [E1 E2]. unfold release_target.
    destruct hint as [p|]; [|done]. intros s. cbn. intros [= <-] (Hv & _)%(c_owned _ _ _ Hc). cbn in E2. by rewrite Hv in E2. }
  res_simpl. destruct (release_target hint rnd ac) as [s|]; [|done]. unfold header_of, getSlabHeaderOfSlab.
  destruct (isValidSlab (m_sa m) s) eqn:Hv; cycle 1.
  { split; [done|]. intros s' [= <-] (Hv' & _)%(c_owned _ _ _ Hc). congruence. }
  unfold header_at. set (hd := headers (m_sa m) (slabIndex (m_sa m) s)).
  destruct (negb (classId hd =? classId_ ac) || _ || _) eqn:Eg.
  { split; [done|]. intros s' [= <-] (_ & E1 & E2 & _ & E3)%(c_owned _ _ _ Hc). fold hd in E1, E2, E3.
    by rewrite E1, E2, E3, !Z.eqb_refl in Eg. }
  apply orb_false_iff in Eg as [[Eg1%negb_false_iff%Z.eqb_eq Eg2%negb_false_iff%Z.eqb_eq]%orb_false_iff Eg3].
  pose proof (swap_remove_spec s (freeSlabs_ ac)) as Hsf. destruct (swap_remove s (freeSlabs_ ac)) as [fr|].
  - exists s. split; [done|]. split; [rewrite Hsf; by left|]. split; [done|]. split; [|split; [done|split; [by apply begin_free_wf|done]]].
    cbn. rewrite decide_True by done. cbn. by rewrite <- Eg2.
  - assert (s ∈ allocatedSlabs_ ac) as Hin.
    { destruct (c_complete _ _ _ Hc s Hv Eg1 Eg2) as [[|]%elem_of_app|[bs Hbs]]; [done|done|].
      apply (c_releasing _ _ _ Hc) in Hbs as [(_ & _ & _ & _ & E) _]. fold hd in E. congruence. }
    pose proof (swap_remove_spec s (allocatedSlabs_ ac)) as Hsa.
    destruct (swap_remove s (allocatedSlabs_ ac)) as [al|] eqn:Esr; [|done].
    destruct (begin_marked_wf _ _ _ _ s al mode Hwf Hsa) as (ac1 & ac2 & -> & E2 & E3 & Hw & E4 & E5 & E6).
    rewrite E2, Esr, E3. res_simpl. by exists s.
Qed.

(** *** Pruning the free list *)
Lemma partition_spec n s m p fs ins ns : isValidSlab (m_sa m) s = true → prune_ok m s p fs ins ns → NoDup (fs ++ ins ++ ns) →
  ∃ p' h' ins' ns', partition_loop n s p m = Ok (p', with_hooks h' m) ∧
    prune_ok (with_hooks h' m) s p' (drop n fs) ins' ns' ∧ fs ++ ins ++ ns ≡ₚ drop n fs ++ ins' ++ ns' ∧
    ∀ y, y ∉ fs ++ ins ++ ns → h' !! y = m_hooks m !! y.
Proof.
  intros Hv. revert m Hv p fs ins ns. induction n as [|n IH]; intros m Hv p fs ins ns Hp Hnd.
  { exists p, (m_hooks m), ins, ns. by destruct m. }
  cbn [partition_loop]. pose proof Hp as [Hf Hi Hn Fi Fn]. rewrite (slist_empty_iff _ _ _ _ _ Hf), (slist_getHead _ _ _ _ _ Hf).
  destruct fs as [|x fs].
  { rewrite bool_decide_true by done. exists p, (m_hooks m), ins, ns. by destruct m. }
  rewrite bool_decide_false by done. cbn [head hd_error]. res_simpl. cbn [app] in Hnd.
  pose proof Hnd as [Hx Hnd']%NoDup_cons.
  destruct (fl_pop_spec _ _ _ _ Hf) as (rest & h1 & -> & Hf1 & Hh1). res_simpl.
  pose proof (sr_good _ _ _ _ _ Hf) as [Hg _]%Forall_cons.
  assert (∀ l xs, (∀ y, y ∈ xs → y ∈ fs ++ ins ++ ns) → fl_rep m l xs → fl_rep (with_hooks h1 m) l xs) as Hfr.
  { intros l xs Hxs. apply fl_rep_hooks. intros y Hy. apply Hh1. intros ->. by apply Hx, Hxs. }
  set (m1 := with_hooks h1 m).
  assert (isMemoryInSlab (m_sa m1) x s = (getSlabForMemory x =? s)) as ->
    by (unfold isMemoryInSlab; cbn [m1 m_sa with_hooks]; by rewrite Hv).
  assert (fl_rep m1 (inSlab p) ins) as Hi1 by (apply Hfr; [set_solver|done]).
  assert (fl_rep m1 (notInSlab p) ns) as Hn1 by (apply Hfr; [set_solver|done]).
  destruct (Z.eqb_spec (getSlabForMemory x) s) as [Es|Es].
  - destruct (fl_insert_spec m1 _ ins x Hi1) as (l & h2 & -> & Hi2 & Hh2);
      [set_solver|done|]. res_simpl.
    destruct (IH (with_hooks h2 m1) Hv (mkPrune rest l (notInSlab p)) fs (x :: ins) ns) as (p' & h' & ins' & ns' & -> & Hp' & Hperm & Hh').
    { split; cbn; try done; [| |by apply Forall_cons].
      - apply fl_rep_hooks; [|done]. intros y Hy. apply Hh2. intros ->. set_solver.
      - apply fl_rep_hooks; [|done]. intros y Hy. apply Hh2. intros ->. set_solver. }
    { cbn [app]. by rewrite <- Permutation_middle. }
    exists p', h', ins', ns'. split; [done|]. split; [done|]. cbn [drop]. split.
    { cbn [app] in Hperm |- *. by rewrite <- Hperm, <- Permutation_middle. }
    intros y Hy. rewrite Hh' by set_solver. cbn. rewrite Hh2, Hh1 by set_solver. done.
  - destruct (fl_insert_spec m1 _ ns x Hn1) as (l & h2 & -> & Hn2 & Hh2);
      [set_solver|done|]. res_simpl.
    destruct (IH (with_hooks h2 m1) Hv (mkPrune rest (inSlab p) l) fs ins (x :: ns)) as (p' & h' & ins' & ns' & -> & Hp' & Hperm & Hh').
    { split; cbn; try done; [| |by apply Forall_cons].
      - apply fl_rep_hooks; [|done]. intros y Hy. apply Hh2. intros ->. set_solver.
      - apply fl_rep_hooks; [|done]. intros y Hy. apply Hh2. intros ->. set_solver. }
    { by rewrite <- !Permutation_middle. }
    exists p', h', ins', ns'. split; [done|]. split; [done|]. cbn [drop]. split.
    { cbn [app]. by rewrite <- Hperm, <- !Permutation_middle. }
    intros y Hy. rewrite Hh' by set_solver. cbn. rewrite Hh2, Hh1 by set_solver. done.
Qed.

Definition with_phase (ph : Phase) (r : Release) : Release := mkRelease (r_slab r) (r_header r) (r_mode r) ph.

Lemma release_slab_valid ac m r live online off : ac_wf ac m (Some r) live online off →
  isValidSlab (m_sa m) (r_slab r) = true ∧ r_header r = slabIndex (m_sa m) (r_slab r) ∧
  ∃ bs, slabReleaseAllocMap_ ac !! r_slab r = Some bs ∧ owned ac (m_sa m) true (r_slab r) ∧ length bs = per ac.
Proof.
  intros Hwf. destruct (w_phase _ _ _ _ _ _ Hwf) as ([bs Hbs] & Hh & _).
  destruct (c_releasing _ _ _ (w_core _ _ _ _ _ _ Hwf) _ _ Hbs) as [Ho Hlen]. split; [apply Ho|]. split; [done|]. by exists bs.
Qed.

(** Taking the free list offline. *)
Lemma take_wf ac m r live online off : ac_wf ac m (Some r) live online off → r_phase r = Marked →
  ∃ p ac' m' off', prune_take (r_slab r) ac m = Ok (p, ac', m') ∧ m_sa m' = m_sa m ∧ off' ≡ₚ online ∧
    fl_rep m' (freeAllocs p) (drop (Z.to_nat kFreeAllocsPruneLimit) online) ∧
    ac' = with_freed SList_empty (canAllocate_ ac) ac ∧ touches online m m' ∧
    ac_wf ac' m' (Some (with_phase (Scanned p) r)) live [] off'.
Proof.
  intros Hwf Hph. destruct (release_slab_valid _ _ _ _ _ _ Hwf) as (Hv & Hhd & bs & Hbs & _).
  pose proof Hwf as [W1 W2 W3 W4 W5 W6 W7 W8]. cbn in W8. rewrite Hph in W8. destruct W8 as (_ & _ & _ & ->).
  rewrite app_nil_r in *. unfold prune_take, partitionFreeAllocs.
  destruct (partition_spec (Z.to_nat kFreeAllocsPruneLimit) (r_slab r) m
    (mkPrune (freedAllocations_ ac) SList_empty SList_empty) online [] []) as (p & h & ins & ns & -> & Hp & Hperm & Hh).
  { done. }
  { split; cbn; [done|apply slist_rep_empty, slab_null|apply slist_rep_empty, slab_null|by apply Forall_nil|by apply Forall_nil]. }
  { by rewrite app_nil_r. }
  rewrite app_nil_r in Hperm. res_simpl. eexists p, _, _, _. split; [done|]. split; [done|]. split; [done|].
  split; [apply Hp|]. split; [done|]. split; [intros y Hy; apply Hh; by rewrite app_nil_r|].
  split; cbn [freedAllocations_ with_freed activeReleases_ slabReleaseAllocMap_ canAllocate_ app]; try done.
  - apply core_freed. cbn [m_sa with_hooks]. by rewrite <- Hperm.
  - apply slist_rep_empty, slab_null.
  - by rewrite <- Hperm.
  - intros q Hq. rewrite <- Hperm. by apply W4.
  - intros E. by destruct (W5 E) as (? & ? & ?).
  - intros s q Hs Hne Hq. rewrite <- Hperm in Hq. by apply (W7 s q).
  - cbn. split; [by exists bs|]. split; [done|]. split; [by intros _; apply Forall_nil|]. by eexists _, _, _.
Qed.

(** Scanning a batch without the lock. *)
Lemma batch_wf ac m r live online off p : ac_wf ac m (Some r) live online off → r_phase r = Batched p →
  ∃ p' m' off', partitionFreeAllocs (r_slab r) p m = Ok (p', m') ∧ m_sa m' = m_sa m ∧ off' ≡ₚ off ∧
    fl_rep m' (freeAllocs p') (drop (Z.to_nat kFreeAllocsPruneLimit) off) ∧ touches off m m' ∧
    ac_wf ac m' (Some (with_phase (Scanned p') r)) live online off'.
Proof.
  intros Hwf Hph. destruct (release_slab_valid _ _ _ _ _ _ Hwf) as (Hv & Hhd & bs & Hbs & _).
  pose proof Hwf as [W1 W2 W3 W4 W5 W6 W7 W8]. cbn in W8. rewrite Hph in W8. destruct W8 as (_ & _ & Hon & Hpr).
  pose proof W3 as (_ & Hdis & Hnd)%NoDup_app.
  destruct (partition_spec (Z.to_nat kFreeAllocsPruneLimit) (r_slab r) m p off [] [] Hv Hpr) as
    (p' & h & ins & ns & E & Hp & Hperm & Hh); [by rewrite app_nil_r|]. rewrite app_nil_r in *.
  eexists p', _, _. split; [exact E|]. split; [done|]. split; [by symmetry|]. split; [apply Hp|]. split; [exact Hh|].
  split; rewrite <- ?Hperm; try done.
  - apply fl_rep_hooks; [|done]. intros x Hx. apply Hh. by apply Hdis.
  - intros q Hq. rewrite <- Hperm. by apply W4.
  - intros s q Hs Hne Hq. rewrite <- Hperm in Hq. by apply (W7 s q).
  - cbn. split; [by exists bs|]. split; [done|]. split; [intros _; apply Hon; congruence|]. by eexists _, _, _.
Qed.

(** Marking the pruned allocations of the slab as freed. *)
Lemma mark_spec ac s mp n ins : ∀ m l bits U fuel, fl_rep m l ins → NoDup ins →
  core (with_releases n (<[s := bits]> mp) ac) (m_sa m) U →
  (∀ x, x ∈ ins → x ∈ U ∧ getSlabForMemory x = s) → (length ins ≤ fuel)%nat →
  ∃ l' bits' h', mark_loop fuel s l bits ac m = Ok (l', bits', with_hooks h' m) ∧ fl_rep (with_hooks h' m) l' [] ∧
    core (with_releases n (<[s := bits']> mp) ac) (m_sa m) (U ∖ list_to_set ins) ∧
    ∀ y, y ∉ ins → h' !! y = m_hooks m !! y.
Proof.
  induction ins as [|x ins IH]; intros m l bits U fuel Hr Hnd Hc Hin Hf.
  - assert (mark_loop fuel s l bits ac m = Ok (l, bits, m)) as ->.
    { destruct fuel; cbn [mark_loop]; by rewrite (slist_empty_iff _ _ _ _ _ Hr). }
    exists l, bits, (m_hooks m). split; [by destruct m|]. split; [by destruct m|].
    split; [|done]. by replace (U ∖ list_to_set []) with U by set_solver.
  - destruct fuel as [|fuel]; [cbn in Hf; lia|]. cbn [mark_loop].
    rewrite (slist_empty_iff _ _ _ _ _ Hr), bool_decide_false, (slist_getHead _ _ _ _ _ Hr) by done. cbn [head hd_error]. res_simpl.
    destruct (fl_pop_spec _ _ _ _ Hr) as (l1 & h1 & -> & Hr1 & Hh1). res_simpl. apply NoDup_cons in Hnd as [Hx Hnd].
    destruct (Hin x) as [HxU Hxs]; [by left|]. destruct (used_slab _ _ _ Hc x HxU) as (k & Hk & Ex & Hcv).
    destruct (carved_owned _ _ _ Hc _ Hcv) as [b Ho]. rewrite Hxs in Ex, Hcv, Ho.
    unfold isMemoryInSlab. cbn [m_sa with_hooks]. rewrite (proj1 Ho), Hxs, Z.eqb_refl. res_simpl.
    change (addr (with_releases n (<[s := bits]> mp) ac) s k) with (addr ac s k) in Ex.
    assert (slabReleaseAllocMap_ (with_releases n (<[s := bits]> mp) ac) !! s = Some bits) as Hm by (cbn; by rewrite lookup_insert_eq).
    assert (getAllocIdx s x ac = Ok (Z.of_nat k)) as ->.
    { rewrite Ex. apply (getAllocIdx_spec ac (c_size _ _ _ Hc) (m_sa m) b); [apply Hc|done|done]. }
    res_simpl. destruct (c_releasing _ _ _ Hc _ _ Hm) as [_ Hlen]. change (k < per ac)%nat in Hk.
    change (length bits = per ac) in Hlen. rewrite (proj2 (Z.ltb_lt _ _)) by lia. res_simpl. rewrite Nat2Z.id.
    destruct (lookup_lt_is_Some_2 bits k) as [bit Hbit]; [lia|].
    assert (bit = false) as -> by (apply (c_bits _ _ _ Hc _ _ _ _ Hm Hbit); change (addr _ s k) with (addr ac s k); by rewrite <- Ex).
    pose proof (core_bit _ _ _ Hc _ _ _ n Hm Hbit) as Hc'. cbn in Hc'. rewrite insert_insert_eq in Hc'.
    change (addr _ s k) with (addr ac s k) in Hc'. rewrite <- Ex in Hc'.
    destruct (IH (with_hooks h1 m) l1 (<[k := true]> bits) (U ∖ {[x]}) fuel) as (l' & bits' & h' & -> & Hr' & Hcf & Hh').
    { done. } { done. } { exact Hc'. }
    { intros y Hy. destruct (Hin y) as [HyU Hys]; [by right|]. split; [|done]. apply elem_of_difference. split; [done|].
      intros ->%elem_of_singleton. done. }
    { cbn in Hf. lia. }
    exists l', bits', h'. split; [done|]. split; [done|]. split.
    + replace (U ∖ list_to_set (x :: ins)) with (U ∖ {[x]} ∖ list_to_set ins) by set_solver. done.
    + intros y Hy. rewrite Hh' by set_solver. cbn. apply Hh1. set_solver.
Qed.

(** Giving the other allocations of a batch back to the class. *)
Lemma giveBack_spec ac m online ns p : fl_rep m (freedAllocations_ ac) online → fl_rep m (notInSlab p) ns → NoDup (ns ++ online) →
  ∃ l notIn can h, (if negb (SList.empty (notInSlab p)) then
       '(l, notIn, m) ← fl_splice (freedAllocations_ ac) (notInSlab p) m;
       Ok (notIn, with_freed l true ac, m)
     else Ok (notInSlab p, ac, m)) = Ok (notIn, with_freed l can ac, with_hooks h m) ∧
    fl_rep (with_hooks h m) notIn [] ∧ fl_rep (with_hooks h m) l (ns ++ online) ∧
    (∀ y, y ∉ ns → h !! y = m_hooks m !! y) ∧ (can = false → canAllocate_ ac = false ∧ ns = []).
Proof.
  intros Hon Hns Hnd. rewrite (slist_empty_iff _ _ _ _ _ Hns). destruct ns as [|x ns].
  - rewrite bool_decide_true by done. exists (freedAllocations_ ac), (notInSlab p), (canAllocate_ ac), (m_hooks m).
    destruct m, ac. done.
  - rewrite bool_decide_false by done. cbn [negb].
    destruct (fl_splice_spec _ _ _ _ _ Hon Hns Hnd) as (l & h & -> & Hr & Hh). res_simpl.
    exists l, SList_empty, true, h. split; [done|]. split; [apply slist_rep_empty, slab_null|]. done.
Qed.

Lemma putBack_wf ac m r live online off p : ac_wf ac m (Some r) live online off → r_phase r = Scanned p →
  ∃ p' ac' m' online' fs, prune_putBack (r_slab r) p ac m = Ok (p', ac', m') ∧ m_sa m' = m_sa m ∧
    freeAllocs p' = freeAllocs p ∧ fl_rep m (freeAllocs p) fs ∧
    (∀ x, getSlabForMemory x ≠ r_slab r → x ∈ online' ++ fs ↔ x ∈ online ++ off) ∧
    ac_wf ac' m' (Some (with_phase (Batched p') r)) live online' fs ∧ touches (online ++ off) m m' ∧
    allocationSize_ ac' = allocationSize_ ac ∧ classId_ ac' = classId_ ac ∧ poolId_ ac' = poolId_ ac.
Proof.
  intros Hwf Hph. destruct (release_slab_valid _ _ _ _ _ _ Hwf) as (Hv & Hhd & bs & Hbs & Ho & Hlen).
  pose proof Hwf as [W1 W2 W3 W4 W5 W6 W7 W8]. cbn in W8. rewrite Hph in W8.
  destruct W8 as (_ & _ & Hon & fs & ins & ns & -> & [Hf Hi Hn Fi Fn]). specialize (Hon ltac:(done)).
  rewrite Forall_forall in Fi, Fn, Hon.
  assert (NoDup (ns ++ online) ∧ NoDup (fs ++ ns ++ online) ∧ NoDup ins ∧ ∀ x, x ∈ ins → x ∉ fs ++ ns ++ online)
    as (Hnd1 & Hnd2 & Hnd3 & Hdis).
  { assert (online ++ fs ++ ins ++ ns ≡ₚ ins ++ fs ++ ns ++ online) as E.
    { rewrite (Permutation_app_comm online), <- !app_assoc, (Permutation_app_swap_app fs). done. }
    rewrite E in W3. apply NoDup_app in W3 as (? & Hd & W3). pose proof W3 as (? & ? & ?)%NoDup_app. done. }
  unfold prune_putBack.
  destruct (giveBack_spec ac m online ns p W2 Hn Hnd1) as (l & notIn & can & h1 & -> & Hnot & Hl & Hh1 & Hcan). res_simpl.
  unfold getSlabReleaseAllocMapLocked. cbn [slabReleaseAllocMap_ with_freed]. rewrite Hbs. res_simpl.
  set (m1 := with_hooks h1 m). set (ac1 := with_freed l can ac).
  assert (fl_rep m1 (inSlab p) ins) as Hi1.
  { apply fl_rep_hooks; [|done]. intros x Hx. apply Hh1. intros Hx'. apply (Hdis x Hx). set_solver. }
  assert (core (with_releases (activeReleases_ ac1) (<[r_slab r := bs]> (slabReleaseAllocMap_ ac1)) ac1) (m_sa m1)
    (live ∪ list_to_set (online ++ fs ++ ins ++ ns))) as Hc1.
  { rewrite insert_id by done. by apply core_releases_id, core_freed. }
  destruct (mark_spec ac1 (r_slab r) (slabReleaseAllocMap_ ac1) (activeReleases_ ac1) ins m1 _ bs _
    (Z.to_nat (size_ (inSlab p))) Hi1 Hnd3 Hc1) as (l2 & bits & h2 & -> & Hl2 & Hc2 & Hh2).
  { intros x Hx. split; [set_solver|by apply Fi]. }
  { rewrite (sr_size _ _ _ _ _ Hi). lia. }
  res_simpl. assert (∀ lx xs, (∀ x, x ∈ xs → x ∉ ins) → fl_rep m1 lx xs → fl_rep (with_hooks h2 m1) lx xs) as Hfr.
  { intros lx xs Hxs. apply fl_rep_hooks. intros x Hx. by apply Hh2, Hxs. }
  eexists _, _, (with_hooks h2 m1), (ns ++ online), fs. split; [done|]. split; [done|]. split; [done|]. split; [done|].
  split. { intros x Hx. split; [set_solver|]. intros Hin. assert (x ∉ ins) by (intros ?%Fi; done). set_solver. }
  split; [|split; [intros y Hy; cbn; rewrite Hh2 by set_solver; apply Hh1; set_solver|done]].
  split; cbn [freedAllocations_ with_releases with_freed ac1 activeReleases_ slabReleaseAllocMap_ canAllocate_]; try done.
  - cbn in Hc2 |- *. replace (live ∪ list_to_set ((ns ++ online) ++ fs)) with
      ((live ∪ list_to_set (online ++ fs ++ ins ++ ns)) ∖ list_to_set ins); [done|].
    apply set_eq. intros x. specialize (Hdis x). specialize (W4 x). set_solver.
  - apply Hfr; [|done]. intros x Hx Hx'. apply (Hdis x Hx'). set_solver.
  - by rewrite Permutation_app_comm.
  - intros q Hq%W4. set_solver.
  - intros E. destruct (Hcan E) as [E1 ->]. destruct (W5 E1) as (-> & ? & ?). done.
  - rewrite W6. by rewrite map_size_insert_Some by (by exists bs).
  - intros s q Hs Hne Hq. apply (W7 s q); [|done|set_solver]. rewrite lookup_insert_is_Some' in Hs. by destruct Hs as [<-|].
  - cbn. split; [by rewrite lookup_insert_eq|]. split; [done|]. split.
    { intros _. apply Forall_forall. intros x [?|?]%elem_of_app; [by apply Fn|by apply Hon]. }
    split; cbn; try done; try by apply Forall_nil.
    + apply Hfr; [intros x Hx Hx'; apply (Hdis x Hx'); set_solver|]. apply fl_rep_hooks; [|done].
      intros x Hx. apply Hh1. intros Hx'. apply NoDup_app in Hnd2 as (_ & Hnd2 & _). apply (Hnd2 x Hx). set_solver.
    + apply Hfr; [|done]. by intros x ?%elem_of_nil.
Qed.

(** *** The end of [startSlabRelease] *)
Lemma collect_spec s sz bits : 0 < sz → ∀ i, 0 ≤ i → (i + Z.of_nat (length bits)) * sz ≤ kSize →
  ∃ ps, collect s (i * sz) sz bits = Ok ps ∧ StronglySorted Z.lt ps ∧
    ∀ x, x ∈ ps ↔ ∃ k, bits !! k = Some false ∧ x = s + (i + Z.of_nat k) * sz.
Proof.
  intros Hsz. induction bits as [|b bits IH]; intros i Hi Hle; cbn [collect].
  { exists []. split; [done|]. split; [constructor|]. intros x. split; [by intros ?%elem_of_nil|by intros (k & ? & _)]. }
  cbn [length] in Hle. destruct (IH (i + 1)) as (ps & E & Hs & Hps); [lia|lia|].
  replace ((i + 1) * sz) with (i * sz + sz) in E by lia.
  assert (∀ x, (∃ k, (b :: bits) !! k = Some false ∧ x = s + (i + Z.of_nat k) * sz) ↔
    (b = false ∧ x = s + i * sz) ∨ x ∈ ps) as Hiff.
  { intros x. rewrite Hps. split.
    - intros ([|k] & Hk & ->); [left|right]; cbn in Hk.
      + injection Hk as ->. split; [done|lia].
      + exists k. split; [done|]. lia.
    - intros [[-> ->]|(k & Hk & ->)]; [exists 0%nat|exists (S k)]; (split; [done|lia]). }
  destruct b.
  - exists ps. split; [done|]. split; [done|]. intros x. rewrite Hiff. naive_solver.
  - unfold memoryAtOffset. rewrite (proj2 (Z.ltb_lt _ _)) by nia. res_simpl. rewrite E. res_simpl.
    eexists. split; [done|]. split.
    + constructor; [done|]. apply Forall_forall. intros x Hx. apply Hps in Hx as (k & _ & ->). nia.
    + intros x. rewrite Hiff, elem_of_cons. naive_solver.
Qed.

Lemma valid_slabs_bound sa xs : sa_wf sa → NoDup xs → (∀ s, s ∈ xs → isValidSlab sa s = true) → Z.of_nat (length xs) ≤ 65535.
Proof.
  intros Hsa Hnd Hv. assert (NoDup (slabIndex sa <$> xs)) as Hnd'.
  { apply NoDup_fmap_2_strong; [|done]. intros x y Hx Hy. apply slabIndex_inj; auto. }
  assert (length (slabIndex sa <$> xs) ≤ length (seqZ 0 65535))%nat as Hle; [|rewrite length_fmap, length_seqZ in Hle; lia].
  apply submseteq_length, NoDup_submseteq; [done|]. intros i (s & -> & Hs)%list_elem_of_fmap.
  apply Hv in Hs. rewrite (valid_slab_iff _ Hsa) in Hs. destruct Hs as [Hr Hal].
  destruct (slabIndex_eq _ Hsa s ltac:(lia) Hal) as (_ & _ & H1 & H2). apply elem_of_seqZ. lia.
Qed.
Lemma releases_bound ac sa U : core ac sa U → Z.of_nat (size (slabReleaseAllocMap_ ac)) ≤ 65535.
Proof.
  intros Hc. rewrite <- length_map_to_list, <- (length_fmap fst).
  apply (valid_slabs_bound sa); [apply Hc|apply NoDup_fst_map_to_list|].
  intros s ([s' bs] & -> & Hs)%list_elem_of_fmap. apply elem_of_map_to_list in Hs. by apply (c_releasing _ _ _ Hc) in Hs as [[? _] _].
Qed.
Lemma s64_small x : - 2 ^ 63 ≤ x < 2 ^ 63 → s64 x = x.
Proof. intros. unfold swrap. change (64 - 1) with 63. rewrite Z.mod_small by lia. lia. Qed.

Lemma collect_wf ac m r live online off : ac_wf ac m (Some r) live online off → r_phase r = Collecting →
  ∃ bs act, slabReleaseAllocMap_ ac !! r_slab r = Some bs ∧ collect (r_slab r) 0 (allocationSize_ ac) bs = Ok act ∧
    StronglySorted Z.lt act ∧ (∀ x, x ∈ act ↔ x ∈ live ∧ getSlabForMemory x = r_slab r) ∧
    ac_wf ac m (Some (with_phase (Finishing act) r)) live online off.
Proof.
  intros Hwf Hph. destruct (release_slab_valid _ _ _ _ _ _ Hwf) as (Hv & Hhd & bs & Hbs & Ho & Hlen).
  pose proof Hwf as [W1 W2 W3 W4 W5 W6 W7 W8]. cbn in W8. rewrite Hph in W8. destruct W8 as (_ & _ & Hon & ->).
  specialize (Hon ltac:(done)). rewrite Forall_forall in Hon. pose proof (c_size _ _ _ W1) as Hsz.
  destruct (per_val ac Hsz) as (_ & _ & Hper & _). change getMinAllocSize with 64 in Hsz.
  destruct (collect_spec (r_slab r) (allocationSize_ ac) bs ltac:(lia) 0) as (act & Eact & Hs & Hact); [lia|by rewrite Hlen|].
  exists bs, act. split; [done|]. split; [done|]. split; [done|]. rewrite app_nil_r in *.
  assert (∀ x, x ∈ act ↔ x ∈ live ∧ getSlabForMemory x = r_slab r) as Hlv.
  { intros x. rewrite Hact. split.
    - intros (k & Hk & Ex). assert (x = addr ac (r_slab r) k) as -> by (unfold addr; lia).
      pose proof (proj2 (c_bits _ _ _ W1 _ _ _ _ Hbs Hk) eq_refl) as Hu.
      assert (getSlabForMemory (addr ac (r_slab r) k) = r_slab r) as Es.
      { apply (carved_slab _ _ _ W1); [by right; exists bs|by eapply (bit_index _ _ _ W1)]. }
      split; [|done]. apply elem_of_union in Hu as [|Hu]; [done|]. apply elem_of_list_to_set in Hu. by apply Hon in Hu.
    - intros [Hx Es]. destruct (used_slab _ _ _ W1 x) as (k & Hk & Ex & _); [set_solver|]. rewrite Es in Ex.
      destruct (lookup_lt_is_Some_2 bs k) as [b Hb]; [lia|]. exists k. split; [|unfold addr in Ex; lia].
      rewrite Hb. f_equal. apply (c_bits _ _ _ W1 _ _ _ _ Hbs Hb). rewrite <- Ex. set_solver. }
  split; [done|]. split; rewrite ?app_nil_r; try done. cbn. split; [by exists bs|]. split; [done|].
  split; [intros _; by apply Forall_forall|]. split; [done|]. intros p Hp Hs'. by apply Hlv.
Qed.

Lemma finish_wf ac m r live online off act : ac_wf ac m (Some r) live online off → r_phase r = Finishing act →
  ∃ ctx ac' m', startRelease_end r act ac m = Ok (ctx, ac', m') ∧
    ctx = mkContext (r_slab r) (poolId_ ac) (if decide (act = []) then kInvalidClassId else classId_ ac) act
            kInvalidClassId (r_mode r) None ∧
    ac_wf ac' m' None live online [] ∧ allocationSize_ ac' = allocationSize_ ac ∧
    classId_ ac' = classId_ ac ∧ poolId_ ac' = poolId_ ac ∧ m_hooks m' = m_hooks m ∧
    (if decide (act = []) then slabReleaseAllocMap_ ac' !! r_slab r = None ∧
       m' = set_header (slabIndex (m_sa m) (r_slab r)) (λ hd, setMarkedForRelease false (assign kInvalidClassId 0 hd)) m
     else is_Some (slabReleaseAllocMap_ ac' !! r_slab r) ∧ m' = m).
Proof.
  intros Hwf Hph. destruct (release_slab_valid _ _ _ _ _ _ Hwf) as (Hv & Hhd & bs & Hbs & (_ & Ecl & Epl & _) & Hlen).
  pose proof Hwf as [W1 W2 W3 W4 W5 W6 W7 W8]. cbn in W8. rewrite Hph in W8. destruct W8 as (_ & _ & Hon & -> & Hact).
  specialize (Hon ltac:(done)). rewrite Forall_forall in Hon. unfold startRelease_end, header_at, set_header. rewrite Hhd.
  pose proof (releases_bound _ _ _ W1) as Hb. destruct (decide (act = [])) as [->|Hne].
  - eexists _, _, _. split; [done|]. split.
    { unfold releasedContext, with_sa. cbn [m_sa]. rewrite upd_header_same. cbv beta.
      unfold setMarkedForRelease, headerUnSetFlag, assign. cbn [poolId classId]. by rewrite Epl. }
    set (f := λ hd, setMarkedForRelease false (assign kInvalidClassId 0 hd)).
    assert (core (with_releases (activeReleases_ ac) (delete (r_slab r) (slabReleaseAllocMap_ ac)) ac)
      (upd_header (slabIndex (m_sa m) (r_slab r)) f (m_sa m)) (live ∪ list_to_set (online ++ []))) as Hc.
    { apply core_delete; [done|done|done| |].
      - intros Hin%(c_apart _ _ _ W1). congruence.
      - intros bs' Hbs'. rewrite Hbs in Hbs'. injection Hbs' as <-. apply forallb_forall. intros b (k & Hk)%list_elem_of_In%list_elem_of_lookup.
        destruct b; [done|]. pose proof (proj2 (c_bits _ _ _ W1 _ _ _ _ Hbs Hk) eq_refl) as Hu.
        assert (getSlabForMemory (addr ac (r_slab r) k) = r_slab r) as Es.
        { apply (carved_slab _ _ _ W1); [by right; exists bs|by eapply (bit_index _ _ _ W1)]. }
        apply elem_of_union in Hu as [Hu|Hu]; [by apply Hact in Hu; [apply elem_of_nil in Hu|]|].
        rewrite app_nil_r in Hu. apply elem_of_list_to_set in Hu. by apply Hon in Hu. }
    destruct (headers_wf _ _ _ _ _ _ _ _ Hwf Hc) as [Hrep Hreps]; [done..|].
    split; [|split_and!; try done; cbn; by rewrite lookup_delete_eq].
    split; cbn; try done.
    + rewrite W6. rewrite map_size_delete_Some by (by exists bs). assert (size (slabReleaseAllocMap_ ac) ≠ 0%nat); [|lia].
      intros E%map_size_empty_inv. by rewrite E in Hbs.
    + intros s q [_ Hs]%lookup_delete_is_Some _ Hq. destruct (decide (s = r_slab r)) as [->|].
      * apply Hon. rewrite app_nil_r in Hq. done.
      * apply (W7 s q); [done|cbn; congruence|done].
  - eexists _, _, _. split; [done|]. split; [unfold activeContext; by rewrite Ecl, Epl|].
    split; [|split_and!; try done; cbn; by exists bs].
    split; cbn; try done.
    + by apply core_releases_id.
    + rewrite W6, s64_small; [lia|]. change (2 ^ 63) with 9223372036854775808. lia.
    + intros s q Hs _ Hq. destruct (decide (s = r_slab r)) as [->|].
      * apply Hon. rewrite app_nil_r in Hq. done.
      * apply (W7 s q); [done|cbn; congruence|done].
Qed.

(** One step of a release that is not aborted. *)
Definition exact (r : Release) (live : gset Z) : Prop :=
  match r_phase r with
  | Finishing act => StronglySorted Z.lt act ∧ ∀ x, x ∈ act ↔ x ∈ live ∧ getSlabForMemory x = r_slab r
  | _ => True
  end.
(** A bound on the steps to go. *)
Definition steps_left (r : Release) (online : list Z) : nat :=
  match r_phase r with
  | Marked => 4 * length online + 5
  | Scanned p => 4 * Z.to_nat (size_ (freeAllocs p)) + 4
  | Batched p => 4 * Z.to_nat (size_ (freeAllocs p)) + (if SList.empty (freeAllocs p) then 5 else 3)
  | Collecting => 2
  | _ => 1
  end.

Lemma rep_size m l xs : fl_rep m l xs → Z.to_nat (size_ l) = length xs.
Proof. intros H. rewrite (sr_size _ _ _ _ _ H). lia. Qed.

Lemma release_step_wf ac m r live online off : ac_wf ac m (Some r) live online off →
  ∃ o ac' m', startRelease_step false r ac m = Ok (o, ac', m') ∧ same_class ac ac' ∧ touches (online ++ off) m m' ∧
    match o with
    | Running r' => r_slab r' = r_slab r ∧ r_mode r' = r_mode r ∧ m_sa m' = m_sa m ∧ exact r' live ∧
        ∃ online' off', ac_wf ac' m' (Some r') live online' off' ∧ (steps_left r' online' < steps_left r online)%nat ∧
          ∀ x, getSlabForMemory x ≠ r_slab r → x ∈ online' ++ off' ↔ x ∈ online ++ off
    | Returned ctx => ∃ act, r_phase r = Finishing act ∧ off = [] ∧
        ctx = mkContext (r_slab r) (poolId_ ac) (if decide (act = []) then kInvalidClassId else classId_ ac) act
                kInvalidClassId (r_mode r) None ∧ ac_wf ac' m' None live online [] ∧
        (if decide (act = []) then slabReleaseAllocMap_ ac' !! r_slab r = None ∧
           m' = set_header (slabIndex (m_sa m) (r_slab r)) (λ hd, setMarkedForRelease false (assign kInvalidClassId 0 hd)) m
         else is_Some (slabReleaseAllocMap_ ac' !! r_slab r) ∧ m' = m)
    | Raised _ => False
    end.
Proof.
  intros Hwf. unfold startRelease_step, exact, steps_left. destruct (r_phase r) as [|p|p| |act|p|] eqn:Hph.
  - destruct (take_wf _ _ _ _ _ _ Hwf Hph) as (p & ac' & m' & off' & -> & Esa & Hperm & Hr & -> & Ht & Hw). res_simpl.
    eexists _, _, _. split; [done|]. split; [done|]. split; [intros y Hy; apply Ht; set_solver|].
    split; [done|]. split; [done|]. split; [done|]. split; [done|].
    exists [], off'. split; [done|]. split.
    + cbn [r_phase]. rewrite (rep_size _ _ _ Hr), length_drop. lia.
    + intros x _. destruct (w_phase _ _ _ _ _ _ Hwf) as (_ & _ & _ & Hoff). rewrite Hph in Hoff. subst off.
      by rewrite app_nil_r, <- Hperm.
  - destruct (putBack_wf _ _ _ _ _ _ p Hwf Hph) as (p' & ac' & m' & online' & fs & -> & Esa & Efa & Hr & Hx & Hw & Ht & Hsame).
    res_simpl. destruct (w_phase _ _ _ _ _ _ Hw) as (Hm & Hh & Hon & [Hfs Hin Hnot _ _]). cbn in Hin, Hnot.
    rewrite (slist_empty_iff _ _ _ _ _ Hfs), (slist_empty_iff _ _ _ _ _ Hin), (slist_empty_iff _ _ _ _ _ Hnot).
    rewrite !(bool_decide_true ([] = [])) by done. res_simpl.
    destruct fs as [|f fs]; [rewrite bool_decide_true by done|rewrite bool_decide_false by done].
    + eexists _, _, _. split; [done|]. split; [done|]. split; [done|]. split; [done|]. split; [done|]. split; [done|]. split; [done|].
      exists online', []. split; [|split; [cbn; lia|done]]. destruct Hw as [V1 V2 V3 V4 V5 V6 V7 V8]. split; try done.
      split; [done|]. split; [done|]. split; [|done]. intros _. apply Hon. done.
    + eexists _, _, _. split; [done|]. split; [done|]. split; [done|]. split; [done|]. split; [done|]. split; [done|]. split; [done|].
      exists online', (f :: fs). split; [done|]. split; [|done]. cbn [r_phase].
      rewrite (slist_empty_iff _ _ _ _ _ Hfs), bool_decide_false, (rep_size _ _ _ Hfs), (rep_size _ _ _ Hr) by done. lia.
  - destruct (batch_wf _ _ _ _ _ _ p Hwf Hph) as (p' & m' & off' & -> & Esa & Hperm & Hr & Ht & Hw). res_simpl.
    eexists _, _, _. split; [done|]. split; [done|]. split; [intros y Hy; apply Ht; set_solver|].
    split; [done|]. split; [done|]. split; [done|]. split; [done|].
    exists online, off'. split; [done|]. split.
    + cbn [r_phase]. destruct (w_phase _ _ _ _ _ _ Hwf) as (_ & _ & _ & Hpr). rewrite Hph in Hpr. destruct Hpr as [Hf _ _ _ _].
      rewrite (rep_size _ _ _ Hr), (rep_size _ _ _ Hf), length_drop, (slist_empty_iff _ _ _ _ _ Hf).
      destruct off; [rewrite bool_decide_true by done|rewrite bool_decide_false by done]; [cbn [length]; lia|].
      cbn [length]. assert (0 < Z.to_nat kFreeAllocsPruneLimit)%nat by (apply Nat.ltb_lt; done). lia.
    + intros x _. by rewrite Hperm.
  - destruct (collect_wf _ _ _ _ _ _ Hwf Hph) as (bs & act & Hbs & Hcol & Hsort & Hact & Hw).
    unfold getSlabReleaseAllocMapLocked. rewrite Hbs. res_simpl. rewrite Hcol. res_simpl.
    eexists _, _, _. split; [done|]. split; [done|]. split; [done|]. split; [done|]. split; [done|]. split; [done|]. split; [done|].
    exists online, off. split; [done|]. split; [cbn; lia|done].
  - destruct (finish_wf _ _ _ _ _ _ act Hwf Hph) as (ctx & ac' & m' & -> & -> & Hw & E1 & E2 & E3 & Eh & Hd). res_simpl.
    eexists _, _, _. split; [done|]. split; [done|]. split; [intros y _; by rewrite Eh|]. exists act. split; [done|].
    destruct (w_phase _ _ _ _ _ _ Hwf) as (_ & _ & _ & Hoff). rewrite Hph in Hoff. destruct Hoff as [-> _]. done.
  - destruct (w_phase _ _ _ _ _ _ Hwf) as (_ & _ & _ & Hf). by rewrite Hph in Hf.
  - destruct (w_phase _ _ _ _ _ _ Hwf) as (_ & _ & _ & Hf). by rewrite Hph in Hf.
Qed.

(** *** Ending a release *)
(** The loop of [abortSlabRelease] puts the freed allocations of the slab into
    the free list. *)
Lemma reinsert_spec ac sa U s : core ac sa U → carved ac s → ∀ bits i m l xs ins,
  m_sa m = sa → fl_rep m l xs → (i + length bits ≤ per ac)%nat →
  (∀ k, bits !! k = Some true → addr ac s (i + k) ∉ xs) →
  ∃ l' ys h', reinsert_loop s i bits l ins ac m = Ok (l', bool_decide (ys ≠ []) || ins, with_hooks h' m) ∧
    fl_rep (with_hooks h' m) l' (ys ++ xs) ∧ (∀ y, y ∉ ys → h' !! y = m_hooks m !! y) ∧
    ∀ x, x ∈ ys ↔ ∃ k, bits !! k = Some true ∧ x = addr ac s (i + k).
Proof.
  intros Hc Hs bits. induction bits as [|b bits IH]; intros i m l xs ins Hsa Hr Hlen Hnew; cbn [reinsert_loop].
  { exists l, [], (m_hooks m). rewrite bool_decide_false by (by intros Hn; apply Hn). split; [by destruct m|].
    split; [by destruct m|]. split; [done|]. intros x. split; [by intros ?%elem_of_nil|by intros (k & ? & _)]. }
  cbn [length] in Hlen. pose proof (c_size _ _ _ Hc) as Hsz.
  assert (∀ ys : list Z, (∀ x, x ∈ ys ↔ ∃ k, bits !! k = Some true ∧ x = addr ac s (S i + k)) →
    ∀ x, (∃ k, (b :: bits) !! k = Some true ∧ x = addr ac s (i + k)) ↔ (b = true ∧ x = addr ac s i) ∨ x ∈ ys) as Hiff.
  { intros ys Hys x. rewrite Hys. split.
    - intros ([|k] & Hk & ->); cbn in Hk; [left|right].
      + injection Hk as ->. split; [done|]. by rewrite Nat.add_0_r.
      + exists k. split; [done|]. f_equal. lia.
    - intros [[-> ->]|(k & Hk & ->)]; [exists 0%nat|exists (S k)]; (split; [done|]); f_equal; lia. }
  destruct b; cycle 1.
  { destruct (IH (S i) m l xs ins Hsa Hr) as (l' & ys & h' & E & Hr' & Hh & Hys); [lia| |].
    { intros k Hk. replace (S i + k)%nat with (i + S k)%nat by lia. by apply Hnew. }
    exists l', ys, h'. split; [done|]. split; [done|]. split; [done|]. intros x. rewrite (Hiff _ Hys). naive_solver. }
  rewrite getAllocForIdx_spec by (done || lia). res_simpl.
  destruct (fl_insert_spec m l xs (addr ac s i) Hr) as (l1 & h1 & -> & Hr1 & Hh1).
  { replace i with (i + 0)%nat by lia. by apply Hnew. }
  { rewrite Hsa. apply (addr_good _ _ _ Hc); [done|lia]. }
  res_simpl. destruct (IH (S i) (with_hooks h1 m) l1 (addr ac s i :: xs) true Hsa Hr1) as (l' & ys & h' & E & Hr' & Hh & Hys).
  { lia. }
  { intros k Hk. replace (S i + k)%nat with (i + S k)%nat by lia. intros [E|Hin]%elem_of_cons; [|by apply (Hnew (S k))].
    apply addr_inj_idx in E; [lia|done]. }
  exists l', (ys ++ [addr ac s i]), h'. split.
  { rewrite E. cbn. rewrite orb_true_r, bool_decide_true; [done|]. by destruct ys. }
  split; [by rewrite <- app_assoc|]. split.
  - intros y Hy. rewrite Hh by set_solver. cbn. apply Hh1. set_solver.
  - intros x. rewrite (Hiff _ Hys). set_solver.
Qed.

(** A context whose release has started and not ended. *)
Definition ctx_active ac (r : option Release) (ctx : SlabReleaseContext) : Prop :=
  activeAllocations_ ctx ≠ [] ∧ is_Some (slabReleaseAllocMap_ ac !! slab_ ctx) ∧ r_slab <$> r ≠ Some (slab_ ctx).

Lemma abort_aux ac m r live online off ctx : ac_wf ac m r live online off → ctx_active ac r ctx →
  ∃ ac' m' ys, abortSlabRelease ctx ac m = Ok (ac', m') ∧ same_class ac ac' ∧
    allocatedSlabs_ ac' = allocatedSlabs_ ac ++ [slab_ ctx] ∧
    m_sa m' = upd_header (slabIndex (m_sa m) (slab_ ctx))
      (λ hd, setMarkedForRelease false (assign (classId_ ac) (allocationSize_ ac) hd)) (m_sa m) ∧
    (∀ x, x ∈ ys ↔ (x ∉ live) ∧ ∃ k, (k < per ac)%nat ∧ x = addr ac (slab_ ctx) k) ∧ touches ys m m' ∧
    ac_wf ac' m' r live (ys ++ online) off.
Proof.
  intros Hwf (Hne & [bs Hbs] & Hr). pose proof Hwf as [W1 W2 W3 W4 W5 W6 W7 W8]. set (s := slab_ ctx) in *.
  assert (carved ac s) as Hcv by (by right; exists bs). destruct (c_releasing _ _ _ W1 _ _ Hbs) as [Ho Hlen].
  assert (∀ k, (k < per ac)%nat → addr ac s k ∉ online ++ off) as Hnot.
  { intros k Hk Hin. apply (W7 s _ (ex_intro _ bs Hbs) Hr Hin). by apply (carved_slab _ _ _ W1). }
  unfold abortSlabRelease, isReleased. rewrite bool_decide_false by done. res_simpl. fold s. rewrite Hbs.
  destruct (reinsert_spec _ _ _ s W1 Hcv bs 0 m _ online false eq_refl W2) as (l & ys & h & -> & Hl & Hh & Hys).
  { lia. }
  { intros k Hk Hin. apply (Hnot (0 + k)%nat); [|set_solver]. rewrite <- Hlen. by eapply lookup_lt_Some. }
  res_simpl. unfold header_of. rewrite header_of_valid by apply Ho. res_simpl.
  assert (∀ x, x ∈ ys ↔ (x ∉ live) ∧ ∃ k, (k < per ac)%nat ∧ x = addr ac s k) as Hys'.
  { intros x. rewrite Hys. split.
    - intros (k & Hk & ->). assert (k < per ac)%nat as Hkp by (rewrite <- Hlen; by eapply lookup_lt_Some).
      split; [|by exists k]. intros Hin. assert (addr ac s k ∈ live ∪ list_to_set (online ++ off)) as Hu by set_solver.
      by apply (c_bits _ _ _ W1 _ _ _ _ Hbs Hk) in Hu.
    - intros [Hx (k & Hk & ->)]. exists k. split; [|done]. destruct (lookup_lt_is_Some_2 bs k) as [b Hb]; [lia|].
      rewrite Hb. f_equal. destruct b; [done|]. pose proof (proj2 (c_bits _ _ _ W1 _ _ _ _ Hbs Hb) eq_refl) as Hu.
      apply elem_of_union in Hu as [|Hu]; [done|]. apply elem_of_list_to_set in Hu. by apply Hnot in Hu. }
  assert (NoDup ys) as Hndy by (apply (sr_nodup _ _ _ _ _), NoDup_app in Hl as (? & _ & _); done).
  assert (∀ x, x ∈ ys → x ∉ online ++ off) as Hyd by (intros x [_ (k & Hk & ->)]%Hys'; by apply Hnot).
  set (can := if bool_decide (ys ≠ []) || false then true else canAllocate_ ac).
  set (ac1 := with_freed l can ac).
  assert (core ac1 (m_sa m) (live ∪ list_to_set (online ++ off))) as Hc1 by (by apply core_freed).
  pose proof (core_abort _ _ _ Hc1 s bs (s64 (activeReleases_ ac1 - 1)) (live ∪ list_to_set ((ys ++ online) ++ off)) Hbs) as Hc2.
  specialize (Hc2 ltac:(clear - Hys'; intros p; change (addr ac1 s) with (addr ac s); change (per ac1) with (per ac);
    specialize (Hys' p); destruct (decide (p ∈ live)); set_solver)).
  set (m' := set_header _ _ (with_hooks h m)). set (ac' := with_releases _ _ _).
  assert (∀ lx xs, (∀ x, x ∈ xs → x ∈ (ys ++ online) ++ off) → fl_rep (with_hooks h m) lx xs → fl_rep m' lx xs) as Hrep.
  { intros lx xs Hxs. apply (fl_rep_owned ac1 ac'); [apply Hc2|done|done|]. intros x Hx%Hxs.
    assert (x ∈ live ∪ list_to_set ((ys ++ online) ++ off)) as Hu by set_solver.
    destruct (used_header _ _ _ Hc2 x Hu) as (b' & _ & Ho' & _). split; [|split; [by exists b'|split; [|done]]].
    - destruct (decide (x ∈ ys)) as [(_ & k & Hk & ->)%Hys'|Hn].
      + exists true. by rewrite (proj1 (carved_slab _ _ _ W1 s k Hcv Hk)).
      + destruct (used_header _ _ _ Hc1 x) as (b & _ & Ho1 & _); [set_solver|]. by exists b.
    - by apply (used_is_alloc _ _ _ _ Hc2). }
  exists ac', m', ys. split; [done|]. split; [done|]. split; [done|]. split; [done|]. split; [done|]. split; [exact Hh|].
  split; cbn [ac' ac1 freedAllocations_ with_releases with_slabs with_freed slabReleaseAllocMap_ activeReleases_ canAllocate_ freeSlabs_]; try done.
  - apply Hrep; [set_solver|done].
  - rewrite <- app_assoc. apply NoDup_app. split; [done|]. by split.
  - intros q Hq. rewrite <- app_assoc. intros [[? _]%Hys'|Hin]%elem_of_app; [done|]. by apply (W4 q).
  - unfold can. destruct ys as [|y ys0]; [rewrite bool_decide_false by (by intros Hn; apply Hn)|by rewrite bool_decide_true].
    cbn. intros E. destruct (W5 E) as (-> & ? & ?). done.
  - rewrite W6, map_size_delete_Some by (by exists bs). pose proof (releases_bound _ _ _ W1).
    assert (size (slabReleaseAllocMap_ ac) ≠ 0%nat) by (intros E%map_size_empty_inv; by rewrite E in Hbs).
    rewrite s64_small; [lia|]. change (2 ^ 63) with 9223372036854775808. destruct r; lia.
  - intros s' q [Hns Hs']%lookup_delete_is_Some Hner. rewrite <- app_assoc. intros [[_ (k & Hk & ->)]%Hys'|Hin]%elem_of_app.
    + rewrite (proj1 (carved_slab _ _ _ W1 s k Hcv Hk)). done.
    + by apply (W7 s' q).
  - eapply phase_frame; [done|done| | | |by left].
    + intros lx xs Hxs Hx. apply Hrep; [set_solver|]. apply fl_rep_hooks; [|done]. intros x Hin. apply Hh.
      intros Hy. apply (Hyd x Hy). set_solver.
    + intros s' Es' Hs'. rewrite lookup_delete_ne; [done|]. intros <-. done.
    + intros r0 -> _ q [[_ (k & Hk & ->)]%Hys'|]%elem_of_app; [right|by left].
      rewrite (proj1 (carved_slab _ _ _ W1 s k Hcv Hk)). intros ->. by apply Hr.
Qed.

(** All bits of a slab in release are set exactly when no user holds one of
    its allocations. *)
Lemma all_freed_iff ac m r live online off s bs : ac_wf ac m r live online off → slabReleaseAllocMap_ ac !! s = Some bs →
  r_slab <$> r ≠ Some s → forallb id bs = true ↔ ∀ x, x ∈ live → getSlabForMemory x ≠ s.
Proof.
  intros Hwf Hbs Hr. pose proof Hwf as [W1 W2 W3 W4 W5 W6 W7 W8]. assert (carved ac s) as Hcv by (by right; exists bs).
  destruct (c_releasing _ _ _ W1 _ _ Hbs) as [_ Hlen]. rewrite forallb_forall. split.
  - intros Hall x Hx Es. destruct (used_slab _ _ _ W1 x) as (k & Hk & Ex & _); [set_solver|]. rewrite Es in Ex.
    destruct (lookup_lt_is_Some_2 bs k) as [b Hb]; [lia|].
    assert (b = true) as -> by (apply (Hall b), list_elem_of_In; by eapply list_elem_of_lookup_2).
    assert (addr ac s k ∈ live ∪ list_to_set (online ++ off)) as Hu by (rewrite <- Ex; set_solver).
    by apply (c_bits _ _ _ W1 _ _ _ _ Hbs Hb) in Hu.
  - intros Hno b (k & Hk)%list_elem_of_In%list_elem_of_lookup. destruct b; [done|].
    pose proof (proj2 (c_bits _ _ _ W1 _ _ _ _ Hbs Hk) eq_refl) as Hu.
    assert (getSlabForMemory (addr ac s k) = s) as Es.
    { apply (carved_slab _ _ _ W1); [done|by eapply (bit_index _ _ _ W1)]. }
    apply elem_of_union in Hu as [Hu|Hu]; [by apply Hno in Hu|]. apply elem_of_list_to_set in Hu.
    by apply (W7 s _ (ex_intro _ bs Hbs) Hr) in Hu.
Qed.

Definition released_mem (s : Z) (m : Mem) : Mem :=
  set_header (slabIndex (m_sa m) s) (λ hd, setMarkedForRelease false (assign kInvalidClassId 0 hd)) m.

Lemma complete_aux ac m r live online off ctx : ac_wf ac m r live online off → ctx_active ac r ctx →
  ∃ b ac' m', completeSlabRelease ctx ac m = Ok (b, ac', m') ∧ same_class ac ac' ∧
    (b = true ↔ ∀ x, x ∈ live → getSlabForMemory x ≠ slab_ ctx) ∧
    (if b : bool then ac_wf ac' m' r live online off ∧ slabReleaseAllocMap_ ac' !! slab_ ctx = None ∧
       (slab_ ctx ∉ allocatedSlabs_ ac' ++ freeSlabs_ ac') ∧ m' = released_mem (slab_ ctx) m
     else ac' = ac ∧ m' = m).
Proof.
  intros Hwf (Hne & [bs Hbs] & Hr). pose proof Hwf as [W1 W2 W3 W4 W5 W6 W7 W8].
  destruct (c_releasing _ _ _ W1 _ _ Hbs) as [(Hv & Ecl & Epl & Esz & Emk) Hlen].
  unfold completeSlabRelease, isReleased, complete_check, header_of, header_at, allFreed.
  rewrite bool_decide_false, header_of_valid, Ecl, Emk, Z.eqb_refl by done. res_simpl. rewrite Hbs. res_simpl.
  pose proof (all_freed_iff _ _ _ _ _ _ _ _ Hwf Hbs Hr) as Hall. destruct (forallb id bs) eqn:Eall; cycle 1.
  { exists false, ac, m. done. }
  unfold complete_end. set (ac' := with_releases _ _ _). set (m' := set_header _ _ _).
  assert (slab_ ctx ∉ allocatedSlabs_ ac ++ freeSlabs_ ac) as Hn by (intros Hin%(c_apart _ _ _ W1); congruence).
  assert (core ac' (m_sa m') (live ∪ list_to_set (online ++ off))) as Hc.
  { apply core_delete; [done|done|done|done|]. intros bs' Hbs'. rewrite Hbs in Hbs'. by injection Hbs' as <-. }
  destruct (headers_wf _ _ _ (m_sa m') _ _ _ _ Hwf Hc) as [Hrep Hreps]; [done..|].
  assert (activeReleases_ ac' = Z.of_nat (size (delete (slab_ ctx) (slabReleaseAllocMap_ ac))) - match r with Some _ => 1 | None => 0 end
    ∧ 0 ≤ activeReleases_ ac') as [Ea Ha].
  { pose proof (releases_bound _ _ _ W1). cbn. rewrite W6, map_size_delete_Some by (by exists bs).
    assert (size (slabReleaseAllocMap_ ac) ≠ 0%nat) by (intros E%map_size_empty_inv; by rewrite E in Hbs).
    rewrite s64_small by (change (2 ^ 63) with 9223372036854775808; destruct r; lia). split; [lia|].
    destruct r as [r0|]; [|lia]. destruct W8 as ([bs0 Hbs0] & _).
    assert (size (delete (slab_ ctx) (slabReleaseAllocMap_ ac)) ≠ 0%nat) as Hsz.
    { intros E%map_size_empty_inv. assert (delete (slab_ ctx) (slabReleaseAllocMap_ ac) !! r_slab r0 = Some bs0) as Ed.
      { rewrite lookup_delete_ne; [done|]. intros E2. by apply Hr; cbn; rewrite E2. }
      by rewrite E in Ed. }
    rewrite map_size_delete_Some in Hsz by (by exists bs). lia. }
  rewrite (proj2 (Z.leb_le _ _)) by done. res_simpl. exists true, ac', m'. split; [done|]. split; [done|]. split; [done|].
  split; [|split; [cbn; by rewrite lookup_delete_eq|done]].
  split; try done.
  - cbn. intros s q [_ Hs]%lookup_delete_is_Some. by apply W7.
  - eapply phase_frame; [done|done|done| |by left|by left]. intros s Es Hs. cbn. rewrite lookup_delete_ne; [done|].
    intros <-. done.
Qed.

(** *** What the rest of the program does meanwhile *)
(** The header says that the slab belongs to the class. *)
Definition is_ours ac (sa : SlabAllocator) (s : Z) : Prop :=
  isValidSlab sa s = true ∧ classId (headers sa (slabIndex sa s)) = classId_ ac ∧
  poolId (headers sa (slabIndex sa s)) = poolId_ ac.
Record env_step ac (m m' : Mem) : Prop := {
  e_sa : sa_wf (m_sa m');
  e_start : slabMemoryStart (m_sa m') = slabMemoryStart (m_sa m);
  e_ours s : is_ours ac (m_sa m) s ↔ is_ours ac (m_sa m') s;
  e_headers s : is_ours ac (m_sa m) s → headers (m_sa m') (slabIndex (m_sa m) s) = headers (m_sa m) (slabIndex (m_sa m) s);
  e_hooks x : is_ours ac (m_sa m) (getSlabForMemory x) → m_hooks m' !! x = m_hooks m !! x;
}.

Lemma env_owned ac m m' b s : env_step ac m m' → owned ac (m_sa m) b s ↔ owned ac (m_sa m') b s.
Proof.
  intros [_ Hst Hours Hhd _]. assert (slabIndex (m_sa m') s = slabIndex (m_sa m) s) as Ei by (unfold slabIndex; by rewrite Hst).
  specialize (Hours s). specialize (Hhd s). unfold owned, is_ours in *. rewrite Ei in *. split.
  - intros (Hv & Hc & Hp & Hz & Hm). rewrite Hhd by done. by destruct Hours as [(? & _) _].
  - intros (Hv & Hc & Hp & Hz & Hm). assert (isValidSlab (m_sa m) s = true ∧ classId (headers (m_sa m) (slabIndex (m_sa m) s)) = classId_ ac ∧
      poolId (headers (m_sa m) (slabIndex (m_sa m) s)) = poolId_ ac) as Ho by (by apply Hours).
    rewrite Hhd in * by done. by destruct Ho.
Qed.
Lemma core_env ac m m' U : core ac (m_sa m) U → env_step ac m m' → core ac (m_sa m') U.
Proof.
  intros Hc He. pose proof Hc as [H1 H2 H3 H4 H5 H6 H7 H8 H9 H10 H11 H12 H13]. split; try done.
  - apply He.
  - intros s Hs. by apply (env_owned _ _ _ _ _ He), H6.
  - intros s bs Hs. destruct (H7 _ _ Hs). split; [|done]. by apply (env_owned _ _ _ _ _ He).
  - intros s Hv Hcl Hpl. destruct (proj2 (e_ours _ _ _ He s)) as (? & ? & ?); [done|]. by apply H13.
Qed.
Lemma env_wf ac m m' r live online off : ac_wf ac m r live online off → env_step ac m m' → ac_wf ac m' r live online off.
Proof.
  intros Hwf He. pose proof Hwf as [W1 W2 W3 W4 W5 W6 W7 W8]. pose proof (core_env _ _ _ _ W1 He) as Hc.
  assert (∀ l xs, (∀ x, x ∈ xs → x ∈ online ++ off) → fl_rep m l xs → fl_rep m' l xs) as Hrep.
  { intros l xs Hxs. apply (fl_rep_core _ _ _ _ _ _ _ _ W1 Hc); [apply He|done|]. intros x Hx%Hxs.
    split; [set_solver|]. split; [set_solver|]. destruct (used_header _ _ _ W1 x) as (b & _ & (? & ? & ? & _) & _); [set_solver|].
    by apply He. }
  split; try done.
  - apply Hrep; [set_solver|done].
  - eapply phase_frame; [done|apply He| |done|by left|by left]. intros l xs Hxs. apply Hrep. set_solver.
Qed.
Lemma write_wf ac m r live online off p c : ac_wf ac m r live online off → p ∈ live →
  ac_wf ac (with_hooks (<[p := c]> (m_hooks m)) m) r live online off.
Proof.
  intros Hwf Hp. pose proof Hwf as [W1 W2 W3 W4 W5 W6 W7 W8].
  assert (∀ l xs, (∀ x, x ∈ xs → x ∈ online ++ off) → fl_rep m l xs → fl_rep (with_hooks (<[p := c]> (m_hooks m)) m) l xs) as Hrep.
  { intros l xs Hxs. apply fl_rep_hooks. intros x Hx%Hxs. rewrite lookup_insert_ne; [done|]. intros ->. by apply (W4 x). }
  split; try done.
  - apply Hrep; [set_solver|done].
  - eapply phase_frame; [done|done| |done|by left|by left]. intros l xs Hxs. apply Hrep. set_solver.
Qed.

(** The slabs in release are those whose headers say so. *)
Lemma releasing_iff ac sa U s : core ac sa U →
  is_Some (slabReleaseAllocMap_ ac !! s) ↔ is_ours ac sa s ∧ isMarkedForRelease (headers sa (slabIndex sa s)) = true.
Proof.
  intros Hc. split.
  - intros [bs Hbs]. destruct (c_releasing _ _ _ Hc _ _ Hbs) as [(? & ? & ? & _ & ?) _]. done.
  - intros [(Hv & Hcl & Hpl) Hm]. destruct (c_complete _ _ _ Hc s Hv Hcl Hpl) as [Hin|]; [|done].
    apply (c_owned _ _ _ Hc) in Hin as (_ & _ & _ & _ & E). congruence.
Qed.
Lemma releasing_same ac ac' sa U U' s : core ac sa U → core ac' sa U' → same_class ac ac' →
  is_Some (slabReleaseAllocMap_ ac' !! s) ↔ is_Some (slabReleaseAllocMap_ ac !! s).
Proof.
  intros Hc Hc' (_ & E1 & E2). rewrite (releasing_iff _ _ _ _ Hc), (releasing_iff _ _ _ _ Hc'). unfold is_ours. by rewrite E1, E2.
Qed.
Lemma releasing_upd ac ac' sa s0 f U U' s : core ac sa U → core ac' (upd_header (slabIndex sa s0) f sa) U' →
  same_class ac ac' → isValidSlab sa s0 = true → s ≠ s0 →
  is_Some (slabReleaseAllocMap_ ac' !! s) ↔ is_Some (slabReleaseAllocMap_ ac !! s).
Proof.
  intros Hc Hc' (_ & E1 & E2) Hv Hne. rewrite (releasing_iff _ _ _ _ Hc), (releasing_iff _ _ _ _ Hc'). unfold is_ours.
  rewrite E1, E2. change (isValidSlab (upd_header _ f sa) s) with (isValidSlab sa s).
  change (slabIndex (upd_header (slabIndex sa s0) f sa) s) with (slabIndex sa s).
  destruct (isValidSlab sa s) eqn:Hs; [|by split; intros [[? _] _]].
  by rewrite (upd_header_other sa s0 s f (c_sa _ _ _ Hc) Hv Hs Hne).
Qed.
