(* ===== verification/AllocationFrame.v ===== *)
(** What an operation of one allocation class leaves alone: headers of slabs
    that are not its own, the lists of the slab allocator, and the words of
    other classes' allocations.  [class_step] is the promise a class makes to
    the classes and pools it shares memory with; [class_step_env] turns it into
    the [env_step] those rely on. *)
From S2P Require Import Prelude SlabAllocator PtrCompressor SList AllocationClass.

(** Flags as slabs in use have them: one byte, not advised away. *)
Definition sound (hd : SlabHeader) : Prop := fits 8 (flags hd) ∧ isAdvised hd = false.

Lemma flags_marked b hd : sound hd → sound (setMarkedForRelease b hd).
Proof.
  intros [Hf Ha]. unfold sound, isAdvised, headerIsFlagSet in *. change (headerFlag_bit IS_ADVISED) with 1 in *.
  change (u8 (Z.shiftl 1 1)) with (Z.shiftl 1 1) in *. rewrite land_bit_nonzero in * by done.
  unfold setMarkedForRelease. destruct b.
  - unfold headerSetFlag. cbn [flags]. change (headerFlag_bit IS_MARKED_FOR_RELEASE) with 0.
    change (u8 (Z.shiftl 1 0)) with (Z.shiftl 1 0). change (Z.lor (flags hd) (Z.shiftl 1 0)) with (Z.setbit (flags hd) 0).
    split; [by apply fits_setbit|]. by rewrite Z.setbit_neq.
  - unfold headerUnSetFlag. cbn [flags]. change (headerFlag_bit IS_MARKED_FOR_RELEASE) with 0.
    change (u8 (Z.shiftl 1 0)) with (Z.shiftl 1 0).
    replace (Z.land (flags hd) _) with (Z.clearbit (flags hd) 0); [|by rewrite <- (land_clear_bit 8)].
    split; [by apply fits_clearbit|]. by rewrite Z.clearbit_neq.
Qed.

(** [join] is the slab given to the class, [leave] the slab it gave up. *)
Record class_step (ac : AllocationClass) (m m' : Mem) (join leave : option Z) : Prop := {
  f_view : slab_view (m_sa m') = slab_view (m_sa m);
  f_rest : memoryPoolSize (m_sa m') = memoryPoolSize (m_sa m) ∧ pretendMadvise (m_sa m') = pretendMadvise (m_sa m) ∧
    ownsMemory (m_sa m') = ownsMemory (m_sa m);
  f_pool s : poolId (headers (m_sa m') (slabIndex (m_sa m) s)) = poolId (headers (m_sa m) (slabIndex (m_sa m) s));
  f_sound s : sound (headers (m_sa m) (slabIndex (m_sa m) s)) → sound (headers (m_sa m') (slabIndex (m_sa m) s));
  f_other s : isValidSlab (m_sa m) s = true → ¬ is_ours ac (m_sa m) s → join ≠ Some s →
    headers (m_sa m') (slabIndex (m_sa m) s) = headers (m_sa m) (slabIndex (m_sa m) s);
  f_ours s : is_ours ac (m_sa m') s ↔ (is_ours ac (m_sa m) s ∨ join = Some s) ∧ leave ≠ Some s;
  f_join s : join = Some s → fresh_slab ac m s;
  f_left s : leave = Some s → is_ours ac (m_sa m) s ∧ fresh_slab ac m' s ∧
    allocSize (headers (m_sa m') (slabIndex (m_sa m') s)) = 0;
  f_hooks x : ¬ is_ours ac (m_sa m) (getSlabForMemory x) → join ≠ Some (getSlabForMemory x) → m_hooks m' !! x = m_hooks m !! x;
}.

Lemma class_step_same ac m m' : m_sa m' = m_sa m →
  (∀ x, ¬ is_ours ac (m_sa m) (getSlabForMemory x) → m_hooks m' !! x = m_hooks m !! x) → class_step ac m m' None None.
Proof. intros E Hh. split; rewrite ?E; try done; [intros s; naive_solver|intros x Hx _; by apply Hh]. Qed.

Lemma class_step_upd ac m m' s f join leave : sa_wf (m_sa m) → 0 ≤ classId_ ac → isValidSlab (m_sa m) s = true →
  m_sa m' = upd_header (slabIndex (m_sa m) s) f (m_sa m) →
  (is_ours ac (m_sa m) s ∧ join = None ∨ fresh_slab ac m s ∧ join = Some s) →
  (∀ hd, poolId (f hd) = poolId hd) → (∀ hd, sound hd → sound (f hd)) →
  (let hd := f (headers (m_sa m) (slabIndex (m_sa m) s)) in
   leave = None ∧ classId hd = classId_ ac ∨
   leave = Some s ∧ join = None ∧ classId hd = kInvalidClassId ∧ isMarkedForRelease hd = false ∧ allocSize hd = 0) →
  (∀ x, ¬ is_ours ac (m_sa m) (getSlabForMemory x) → m_hooks m' !! x = m_hooks m !! x) → class_step ac m m' join leave.
Proof.
  intros Hsa Hc Hv E Hj Hpl Hsd Hl Hh. cbv zeta in Hl.
  assert (∀ s', isValidSlab (m_sa m) s' = true → s' ≠ s →
    headers (m_sa m') (slabIndex (m_sa m) s') = headers (m_sa m) (slabIndex (m_sa m) s')) as Hne.
  { intros s' Hv' Hne. rewrite E. apply upd_header_other; done. }
  assert (headers (m_sa m') (slabIndex (m_sa m) s) = f (headers (m_sa m) (slabIndex (m_sa m) s))) as Hs.
  { rewrite E. apply upd_header_same. }
  assert (∀ s', isValidSlab (m_sa m') s' = isValidSlab (m_sa m) s' ∧ slabIndex (m_sa m') s' = slabIndex (m_sa m) s') as Hsame
    by (intros s'; by rewrite E).
  assert (poolId (headers (m_sa m) (slabIndex (m_sa m) s)) = poolId_ ac) as Ep
    by (by destruct Hj as [[(_ & _ & ?) _]|[(_ & _ & ? & _) _]]).
  assert (kInvalidClassId ≠ classId_ ac) as Hinv by (change kInvalidClassId with (-1); lia).
  split; try done.
  - by rewrite E.
  - by rewrite E.
  - intros s'. rewrite E. cbn. destruct (decide _) as [->|]; [apply Hpl|done].
  - intros s'. rewrite E. cbn. destruct (decide _) as [->|]; [apply Hsd|done].
  - intros s' Hv' Hno Hnj. apply Hne; [done|]. intros ->. destruct Hj as [[? _]|[_ ?]]; done.
  - intros s'. unfold is_ours. destruct (Hsame s') as [-> ->]. destruct (decide (s' = s)) as [->|Hn].
    + rewrite Hs, Hpl, Ep. destruct Hl as [[-> Hcl]|(-> & -> & Hcl & _)]; rewrite Hcl.
      * split; [|done]. intros _. split; [|done]. destruct Hj as [[(? & ? & ?) _]|[_ ?]]; [by left|by right].
      * split; [by intros (_ & ? & _)|by intros [_ []]].
    + assert (leave ≠ Some s') as Hnl by (intros ->; destruct Hl as [[? _]|[? _]]; congruence).
      assert (join ≠ Some s') as Hnj by (intros ->; destruct Hj as [[_ ?]|[_ ?]]; congruence).
      split; [|intros [[Ho|Ho] _]; [|done]].
      * intros Ho. pose proof Ho as (Hv' & _). rewrite Hne in Ho by done. split; [by left|done].
      * pose proof Ho as (Hv' & _). by rewrite Hne.
  - intros s' Ej. destruct Hj as [[_ ?]|[? ?]]; [congruence|]. by simplify_eq.
  - intros s' ->. destruct Hl as [[? _]|(? & -> & Hcl & Hmk & Hz)]; [congruence|]. simplify_eq.
    destruct (Hsame s) as [Hv1 Hi1]. unfold fresh_slab. rewrite Hv1, Hi1, Hs, Hpl. split; [|done].
    by destruct Hj as [[? _]|[_ ?]].
  - intros x Hx _. by apply Hh.
Qed.

(** Other classes see such a step as a step of their environment. *)
Lemma class_step_env ac ac' m m' join leave : class_step ac m m' join leave → sa_wf (m_sa m) → 0 ≤ classId_ ac' →
  (classId_ ac', poolId_ ac') ≠ (classId_ ac, poolId_ ac) → env_step ac' m m'.
Proof.
  intros [Hv _ Hpl Hsd Hot Hou Hj Hl Hh] Hsa Hc Hne.
  assert (∀ s, isValidSlab (m_sa m') s = isValidSlab (m_sa m) s ∧ slabIndex (m_sa m') s = slabIndex (m_sa m) s) as Hsame
    by (intros s; by apply slab_view_valid).
  assert (∀ s, is_ours ac' (m_sa m) s → ¬ is_ours ac (m_sa m) s ∧ join ≠ Some s) as Hd.
  { intros s (_ & Hcl & Hp). split; [intros (_ & ? & ?); congruence|]. intros Ej.
    apply Hj in Ej as (_ & ? & _). change kInvalidClassId with (-1) in *. lia. }
  assert (∀ s, is_ours ac' (m_sa m) s → headers (m_sa m') (slabIndex (m_sa m) s) = headers (m_sa m) (slabIndex (m_sa m) s)) as Hhd.
  { intros s Hs. destruct (Hd s Hs). apply Hot; [apply Hs|done|done]. }
  split.
  - by eapply slab_view_wf.
  - by injection Hv.
  - intros s. split.
    + intros Hs. pose proof (Hhd s Hs) as E. destruct Hs as (? & ? & ?). unfold is_ours. destruct (Hsame s) as [-> ->]. by rewrite E.
    + intros Hs. destruct (Hsame s) as [E1 E2]. unfold is_ours in Hs. rewrite E1, E2 in Hs. destruct Hs as (Hvs & Hcs & Hps).
      destruct (isValidSlab (m_sa m) s) eqn:Evs; [|done].
      assert (¬ is_ours ac (m_sa m) s ∧ join ≠ Some s) as [Hno Hnj].
      { destruct (decide (leave = Some s)) as [->|Hnl].
        { destruct (Hl s eq_refl) as (_ & (_ & Hcl & _) & _). rewrite E2 in Hcl. change kInvalidClassId with (-1) in Hcl. lia. }
        assert (¬ is_ours ac (m_sa m') s) as Hn.
        { unfold is_ours. rewrite E1, E2. intros (_ & ? & ?). congruence. }
        rewrite Hou in Hn. naive_solver. }
      rewrite Hot in Hcs, Hps by done. done.
  - done.
  - intros x Hx. by apply Hh; apply Hd.
Qed.

Lemma class_step_trans ac ac1 m m1 m2 join : class_step ac m m1 join None → same_class ac ac1 →
  class_step ac1 m1 m2 None None → class_step ac m m2 join None.
Proof.
  intros [V R P S O U J L H] (_ & E1 & E2) [V' R' P' S' O' U' J' L' H'].
  assert (∀ s sa, is_ours ac1 sa s ↔ is_ours ac sa s) as Eo by (intros s sa; unfold is_ours; by rewrite E1, E2).
  assert (∀ s, isValidSlab (m_sa m1) s = isValidSlab (m_sa m) s ∧ slabIndex (m_sa m1) s = slabIndex (m_sa m) s) as Hsame
    by (intros s; by apply slab_view_valid).
  setoid_rewrite Eo in O'. setoid_rewrite Eo in U'. setoid_rewrite Eo in H'. setoid_rewrite U in O'. setoid_rewrite U in U'.
  setoid_rewrite U in H'. split.
  - congruence.
  - destruct R as (? & ? & ?), R' as (? & ? & ?). split_and!; congruence.
  - intros s. specialize (P' s). rewrite (proj2 (Hsame s)) in P'. by rewrite P', P.
  - intros s Hs. specialize (S' s). rewrite (proj2 (Hsame s)) in S'. by apply S', S.
  - intros s Hv Hn Hj. specialize (O' s). destruct (Hsame s) as [Ev Ei]. rewrite Ev, Ei in O'. rewrite O', O; [done..| |done].
    naive_solver.
  - intros s. rewrite U'. naive_solver.
  - done.
  - done.
  - intros x Hx Hj. rewrite H', H; [done..|naive_solver|done].
Qed.
