(* ===== verification/AllocationRun.v ===== *)
(** Allocation classes in use: the operations of [AllocationClass] as the
    steps of a system whose threads allocate, free and release slabs, with the
    invariant of every reachable state, the specifications of the operations,
    saved state, and what aborting a release does.

    The system keeps, besides the class and the memory, what the callers know:
    the allocations they hold and the contexts of the releases they have
    started.  [startSlabReleaseLock_] allows one [startSlabRelease] at a time,
    whose steps interleave with everything else; other components change the
    slab allocator and the memory around the class by [OEnv]. *)
From Stdlib Require Import Sorted.
From S2P Require Import Prelude SlabAllocator PtrCompressor SList AllocationClass AllocationFrame.

Record Sys := mkSys {
  s_ac : AllocationClass;
  s_mem : Mem;
  s_rel : option Release;
  s_live : gset Z;
  s_ctxs : list SlabReleaseContext;
}.

Inductive op :=
  | OAllocate                                 (** [allocate] *)
  | OAllocateLocked                           (** the locked part, after an earlier test of [canAllocate_] *)
  | OFree (p : Z)
  | OWrite (p c : Z)                          (** a user writes into an allocation *)
  | OAddSlab (s : Z)
  | OAddSlabAndAllocate (s : Z)
  | OStart (mode : SlabReleaseMode) (hint : option Z) (rnd : Z)
  | OStep (abort : bool)                      (** the next step of [startSlabRelease], and what [shouldAbortFn] answers *)
  | OAbort (i : nat)                          (** [abortSlabRelease] of the [i]-th context *)
  | OComplete (i : nat)                       (** [completeSlabRelease] of the [i]-th context *)
  | OEnv (m : Mem).

Definition with_ret (r : option Z * AllocationClass * Mem) (st : Sys) : option Z * Sys :=
  let '(o, ac, m) := r in
  (o, mkSys ac m (s_rel st) (match o with Some p => {[p]} ∪ s_live st | None => s_live st end) (s_ctxs st)).
Definition with_outcome (r : Outcome * AllocationClass * Mem) (st : Sys) : result (option Z * Sys) :=
  let '(o, ac, m) := r in
  match o with
  | Running r => Ok (None, mkSys ac m (Some r) (s_live st) (s_ctxs st))
  | Returned ctx =>
      Ok (None, mkSys ac m None (s_live st) (if isReleased ctx then s_ctxs st else s_ctxs st ++ [ctx]))
  | Raised e => Throw e
  end.
Definition sys_step (o : op) (st : Sys) : result (option Z * Sys) :=
  let ac := s_ac st in let m := s_mem st in
  match o with
  | OAllocate => r ← allocate ac m; Ok (with_ret r st)
  | OAllocateLocked => r ← allocateLocked ac m; Ok (with_ret r st)
  | OFree p => '(ac, m) ← free p ac m; Ok (None, mkSys ac m (s_rel st) (s_live st ∖ {[p]}) (s_ctxs st))
  | OWrite p c => Ok (None, mkSys ac (with_hooks (<[p := c]> (m_hooks m)) m) (s_rel st) (s_live st) (s_ctxs st))
  | OAddSlab s => '(ac, m) ← addSlab s ac m; Ok (None, mkSys ac m (s_rel st) (s_live st) (s_ctxs st))
  | OAddSlabAndAllocate s => r ← addSlabAndAllocate s ac m; Ok (with_ret r st)
  | OStart mode hint rnd => r ← startRelease_begin mode hint rnd ac m; with_outcome r st
  | OStep abort => rel ← deref (s_rel st); r ← startRelease_step abort rel ac m; with_outcome r st
  | OAbort i =>
      ctx ← deref (s_ctxs st !! i);
      '(ac, m) ← abortSlabRelease ctx ac m;
      Ok (None, mkSys ac m (s_rel st) (s_live st) (delete i (s_ctxs st)))
  | OComplete i =>
      ctx ← deref (s_ctxs st !! i);
      '(b, ac, m) ← completeSlabRelease ctx ac m;
      Ok (None, mkSys ac m (s_rel st) (s_live st) (if b : bool then delete i (s_ctxs st) else s_ctxs st))
  | OEnv m => Ok (None, mkSys ac m (s_rel st) (s_live st) (s_ctxs st))
  end.

(** What callers must respect.  A release that is aborted half-way leaves the class
    in a bad state ([aborted_release_loses_slab], [aborted_release_hides_free_allocs]),
    so [shouldAbortFn] is to answer no. *)
Definition op_ok (o : op) (st : Sys) : Prop :=
  match o with
  | OFree p | OWrite p _ => p ∈ s_live st
  | OAddSlab s | OAddSlabAndAllocate s => fresh_slab (s_ac st) (s_mem st) s
  | OStart _ _ _ => s_rel st = None
  | OStep abort => abort = false ∧ is_Some (s_rel st)
  | OAbort i | OComplete i => is_Some (s_ctxs st !! i)
  | OEnv m => env_step (s_ac st) (s_mem st) m
  | _ => True
  end.

(** *** The invariant of the system *)
Definition ctxs_ok (st : Sys) : Prop :=
  NoDup (slab_ <$> s_ctxs st) ∧ ∀ ctx, ctx ∈ s_ctxs st → ctx_active (s_ac st) (s_rel st) ctx ∧
    ∀ p, p ∈ s_live st → getSlabForMemory p = slab_ ctx → p ∈ activeAllocations_ ctx.
Definition sys_wf (st : Sys) : Prop :=
  (∃ online off, ac_wf (s_ac st) (s_mem st) (s_rel st) (s_live st) online off) ∧ ctxs_ok st.

(** Contexts stay valid while their slabs stay in release. *)
Lemma ctxs_keep st ac' m' rel' live' : ctxs_ok st →
  (∀ ctx, ctx ∈ s_ctxs st → ctx_active (s_ac st) (s_rel st) ctx →
    is_Some (slabReleaseAllocMap_ ac' !! slab_ ctx) ∧ r_slab <$> rel' ≠ Some (slab_ ctx) ∧
    ∀ p, p ∈ live' → getSlabForMemory p = slab_ ctx → p ∈ s_live st) →
  ctxs_ok (mkSys ac' m' rel' live' (s_ctxs st)).
Proof.
  intros [Hnd Hctx] Hkeep. split; [done|]. cbn. intros ctx Hin. destruct (Hctx ctx Hin) as [Hact Hall].
  destruct (Hkeep ctx Hin Hact) as (Hs & Hr & Hl). split; [|intros p Hp Es; by apply Hall; [apply Hl|]].
  by destruct Hact.
Qed.
Lemma ctxs_delete st i ac' m' rel' live' ctx : ctxs_ok st → s_ctxs st !! i = Some ctx →
  (∀ c, c ∈ s_ctxs st → slab_ c ≠ slab_ ctx → ctx_active (s_ac st) (s_rel st) c →
    is_Some (slabReleaseAllocMap_ ac' !! slab_ c) ∧ r_slab <$> rel' ≠ Some (slab_ c) ∧
    ∀ p, p ∈ live' → getSlabForMemory p = slab_ c → p ∈ s_live st) →
  ctxs_ok (mkSys ac' m' rel' live' (delete i (s_ctxs st))).
Proof.
  intros [Hnd Hctx] Hi Hkeep. cbn.
  assert (s_ctxs st ≡ₚ ctx :: delete i (s_ctxs st)) as Hp by (by apply delete_Permutation).
  rewrite Hp in Hnd. cbn in Hnd. apply NoDup_cons in Hnd as [Hnot Hnd]. split; [done|]. cbn. intros c Hin.
  assert (c ∈ s_ctxs st) as Hin' by (rewrite Hp; by right). destruct (Hctx c Hin') as [Hact Hall].
  destruct (Hkeep c Hin') as (Hs & Hr & Hl); [|done|split; [by destruct Hact|]; intros p Hp' Es; by apply Hall; [apply Hl|]].
  intros E. apply Hnot. rewrite <- E. by apply list_elem_of_fmap_2.
Qed.

(** The slab an operation brings into the class, and the one that leaves it. *)
Definition joins (o : op) : option Z :=
  match o with OAddSlab s | OAddSlabAndAllocate s => Some s | _ => None end.
Definition leaves (o : op) (st st' : Sys) : option Z :=
  match o with
  | OStart _ hint rnd => match s_rel st' with Some _ => None | None => release_target hint rnd (s_ac st) end
  | OStep _ =>
      match s_rel st, s_rel st' with
      | Some r, None => if decide (length (s_ctxs st') = length (s_ctxs st)) then Some (r_slab r) else None
      | _, _ => None
      end
  | OComplete i =>
      if decide (length (s_ctxs st') = length (s_ctxs st)) then None else slab_ <$> (s_ctxs st !! i)
  | _ => None
  end.
Definition step_post (o : op) (st : Sys) (ret : option Z) (st' : Sys) : Prop :=
  sys_wf st' ∧ same_class (s_ac st) (s_ac st') ∧
  match ret with
  | Some p => (p ∉ s_live st) ∧ s_live st' = {[p]} ∪ s_live st ∧ is_alloc (m_sa (s_mem st')) p
  | None => s_live st' = match o with OFree p => s_live st ∖ {[p]} | _ => s_live st end
  end ∧
  match o with
  | OEnv _ => True
  | _ => class_step (s_ac st) (s_mem st) (s_mem st') (joins o) (leaves o st st')
  end.

(** The words an operation touches belong to slabs of the class. *)
Lemma touches_ours ac m m' xs U : core ac (m_sa m) U → (∀ x, x ∈ xs → x ∈ U) → touches xs m m' →
  ∀ x, ¬ is_ours ac (m_sa m) (getSlabForMemory x) → m_hooks m' !! x = m_hooks m !! x.
Proof.
  intros Hc Hxs Ht x Hx. apply Ht. intros Hin%Hxs. apply Hx.
  destruct (used_header _ _ _ Hc x Hin) as (b & _ & (? & ? & ? & _) & _). done.
Qed.
Lemma quiet_step ac m m' r live online off xs : ac_wf ac m r live online off → m_sa m' = m_sa m →
  (∀ x, x ∈ xs → x ∈ live ∪ list_to_set (online ++ off)) → touches xs m m' → class_step ac m m' None None.
Proof. intros Hwf E Hxs Ht. apply class_step_same; [done|]. by eapply touches_ours; [apply (w_core _ _ _ _ _ _ Hwf)|..]. Qed.

Lemma allocate_step ac m rel live ctxs online off : ac_wf ac m rel live online off → ctxs_ok (mkSys ac m rel live ctxs) →
  ∃ ret st', (r ← allocateLocked ac m; Ok (with_ret r (mkSys ac m rel live ctxs))) = Ok (ret, st') ∧
    step_post OAllocate (mkSys ac m rel live ctxs) ret st' ∧ m_sa (s_mem st') = m_sa m ∧
    (freeSlabs_ ac ≠ [] → ret ≠ None).
Proof.
  intros Hwf Hctx. destruct (allocateLocked_aux _ _ _ _ _ _ Hwf) as (o & ac' & m' & -> & Esa & Hsc & Ht & Ho). res_simpl.
  cbn [with_ret s_rel s_live s_ctxs]. eexists _, _. split; [done|].
  split; [|split; [done|intros Hf ->; by destruct Ho as (_ & ? & _)]].
  assert (class_step ac m m' None None) as Hst by (eapply quiet_step; [done|done| |done]; set_solver).
  assert (∀ online' live', ac_wf ac' m' rel live' online' off → ∀ s, is_Some (slabReleaseAllocMap_ ac !! s) →
    is_Some (slabReleaseAllocMap_ ac' !! s)) as Hrel.
  { intros online' live' Hw s Hs. pose proof (w_core _ _ _ _ _ _ Hw) as Hc. rewrite Esa in Hc.
    by apply (releasing_same _ _ _ _ _ _ (w_core _ _ _ _ _ _ Hwf) Hc Hsc). }
  destruct o as [p|].
  - destruct Ho as (Hp & Hal & Hw & _ & Hnot).
    split; [|split; [done|]; split; [split; [done|]; split; [done|]; cbn; by rewrite Esa|done]].
    split; [by eexists _, _|]. apply (ctxs_keep _ _ _ _ _ Hctx). cbn. intros ctx _ (_ & Hs & Hr).
    split; [by eapply Hrel|]. split; [done|]. intros q [->%elem_of_singleton|]%elem_of_union Es; [|done].
    by apply (Hnot (slab_ ctx)) in Es.
  - destruct Ho as (-> & _ & _ & Hw). split; [|done]. split; [by eexists _, _|]. apply (ctxs_keep _ _ _ _ _ Hctx). cbn.
    intros ctx _ (_ & Hs & Hr). split; [by eapply Hrel|]. done.
Qed.

Lemma addSlab_step ac m rel live ctxs online off s : ac_wf ac m rel live online off → ctxs_ok (mkSys ac m rel live ctxs) →
  fresh_slab ac m s → (s =? 0) = false ∧
  ∃ ac' m', addSlabLocked s ac m = Ok (ac', m') ∧ ac_wf ac' m' rel live online off ∧
    ctxs_ok (mkSys ac' m' rel live ctxs) ∧ same_class ac ac' ∧ freeSlabs_ ac' ≠ [] ∧ class_step ac m m' (Some s) None.
Proof.
  intros Hwf Hctx Hf. pose proof (w_core _ _ _ _ _ _ Hwf) as Hc. pose proof Hf as (Hv & Hcl & _). split.
  { pose proof (c_sa _ _ _ Hc) as Hsa. rewrite (valid_slab_iff _ Hsa) in Hv. destruct (wf_start _ Hsa).
    pose proof (wf_slab_start_eq _ Hsa). rewrite kSize_val in *. apply Z.eqb_neq. lia. }
  destruct (addSlabLocked_aux _ _ _ _ _ _ _ Hwf Hf) as (ac' & m' & E & Hw & Hsc & Ef & Esa & Eh).
  exists ac', m'. split; [done|]. split; [done|]. split; [|split; [done|split; [rewrite Ef; by destruct (freeSlabs_ ac)|]]]; cycle 1.
  { eapply class_step_upd; [apply Hc|apply Hc|done|done|by right|done|done|by left|]. intros x _. by rewrite Eh. } apply (ctxs_keep _ _ _ _ _ Hctx). cbn.
  intros ctx _ (_ & Hs & Hr). split; [|done]. pose proof (w_core _ _ _ _ _ _ Hw) as Hc'. rewrite Esa in Hc'.
  apply (releasing_upd _ _ _ _ _ _ _ _ Hc Hc' Hsc Hv); [|done]. intros <-.
  apply (releasing_iff _ _ _ _ Hc) in Hs as [(_ & Hcl' & _) _]. pose proof (c_class _ _ _ Hc).
  change kInvalidClassId with (-1) in Hcl. lia.
Qed.

(** The result of the first critical section and of the steps of
    [startSlabRelease]. *)
Lemma start_step ac m live ctxs online off mode hint rnd : ac_wf ac m None live online off →
  ctxs_ok (mkSys ac m None live ctxs) →
  let st := mkSys ac m None live ctxs in
  (∃ st', (r ← startRelease_begin mode hint rnd ac m; with_outcome r st) = Ok (None, st') ∧
     sys_wf st' ∧ same_class ac (s_ac st') ∧ s_live st' = live ∧
     class_step ac m (s_mem st') None (leaves (OStart mode hint rnd) st st')) ∨
  ((r ← startRelease_begin mode hint rnd ac m; with_outcome r st) = Throw InvalidArgument ∧
   ∀ s, release_target hint rnd ac = Some s → s ∉ allocatedSlabs_ ac ++ freeSlabs_ ac).
Proof.
  intros Hwf Hctx st. pose proof (w_phase _ _ _ _ _ _ Hwf) as Hoff. cbn in Hoff. subst off.
  pose proof (begin_aux _ _ _ _ mode hint rnd Hwf) as Hb. pose proof (w_core _ _ _ _ _ _ Hwf) as Hc.
  destruct (startRelease_begin mode hint rnd ac m) as [[[o ac'] m']|e|]; [|by destruct Hb as [-> ?]; right|done].
  left. destruct o as [r|ctx|e]; [| |done]; res_simpl; cbn [with_outcome].
  - destruct Hb as (s & _ & Hin & E1 & -> & E2 & E3 & -> & Hw). eexists. split; [done|].
    split; [|split; [done|split; [done|]]]; cycle 1.
    { destruct (c_owned _ _ _ Hc s ltac:(set_solver)) as (Hv & ? & ? & _).
      eapply (class_step_upd _ _ _ s); [apply Hc|apply Hc|done|done|by left|done|by apply flags_marked|by left|done]. }
    split; [by eexists _, _|]. apply (ctxs_keep _ _ _ _ _ Hctx). cbn. intros ctx _ (_ & Hs & _).
    destruct (c_owned _ _ _ Hc s ltac:(set_solver)) as (Hv & _).
    assert (slab_ ctx ≠ s) as Hne by (intros E; subst s; rewrite (c_apart _ _ _ Hc) in Hs by set_solver; by destruct Hs).
    split; [|split; [congruence|done]]. by apply (releasing_upd _ _ _ _ _ _ _ _ Hc (w_core _ _ _ _ _ _ Hw) ltac:(done) Hv Hne).
  - destruct Hb as (s & Et & Hin & Hp & -> & -> & Hw & Hsc). eexists. split; [done|].
    change (isReleased (releasedContext s (poolId_ ac) kInvalidClassId mode)) with true. cbn [s_ac].
    split; [|split; [done|split; [done|]]]; cycle 1.
    { cbn. rewrite Et. destruct (c_owned _ _ _ Hc s ltac:(set_solver)) as (Hv & ? & ? & _ & ?).
      eapply (class_step_upd _ _ _ s); [apply Hc|apply Hc|done|done|by left|done|done|by right|done]. }
    split; [by eexists _, _|]. apply (ctxs_keep _ _ _ _ _ Hctx). cbn. intros ctx _ (_ & Hs & _).
    destruct (c_owned _ _ _ Hc s ltac:(set_solver)) as (Hv & _).
    assert (slab_ ctx ≠ s) as Hne by (intros E; subst s; rewrite (c_apart _ _ _ Hc) in Hs by set_solver; by destruct Hs).
    split; [|done]. by apply (releasing_upd _ _ _ _ _ _ _ _ Hc (w_core _ _ _ _ _ _ Hw) Hsc Hv Hne).
Qed.

Lemma release_step ac m r live ctxs online off : ac_wf ac m (Some r) live online off →
  ctxs_ok (mkSys ac m (Some r) live ctxs) →
  ∃ st', (o ← startRelease_step false r ac m; with_outcome o (mkSys ac m (Some r) live ctxs)) = Ok (None, st') ∧
    sys_wf st' ∧ same_class ac (s_ac st') ∧ s_live st' = live ∧
    class_step ac m (s_mem st') None (leaves (OStep false) (mkSys ac m (Some r) live ctxs) st').
Proof.
  intros Hwf Hctx. destruct (release_step_wf _ _ _ _ _ _ Hwf) as (o & ac' & m' & -> & Hsc & Ht & Ho). res_simpl. cbn [with_outcome s_ctxs s_live].
  pose proof (w_core _ _ _ _ _ _ Hwf) as Hc. destruct o as [r'|ctx|e]; [| |done].
  - destruct Ho as (Es & _ & Esa & _ & online' & off' & Hw & _). eexists. split; [done|].
    split; [|split; [done|split; [done|eapply quiet_step; [done|done| |done]; set_solver]]].
    split; [by eexists _, _|]. apply (ctxs_keep _ _ _ _ _ Hctx). cbn. intros c _ (_ & Hs & Hr).
    pose proof (w_core _ _ _ _ _ _ Hw) as Hc'. rewrite Esa in Hc'.
    split; [by apply (releasing_same _ _ _ _ _ _ Hc Hc' Hsc)|]. by rewrite Es.
  - destruct Ho as (act & Hph & -> & -> & Hw & Hd). unfold isReleased. cbn [activeAllocations_].
    destruct (release_slab_valid _ _ _ _ _ _ Hwf) as (Hv & _).
    assert (∀ c, c ∈ ctxs → ctx_active ac (Some r) c → is_Some (slabReleaseAllocMap_ ac' !! slab_ c)) as Hkeep.
    { intros c _ (_ & Hs & Hr). pose proof (w_core _ _ _ _ _ _ Hw) as Hc'. destruct (decide (act = [])).
      - destruct Hd as [_ ->]. apply (releasing_upd _ _ _ _ _ _ _ _ Hc Hc' Hsc Hv); [|done]. intros E. by apply Hr; cbn; rewrite E.
      - destruct Hd as [_ ->]. by apply (releasing_same _ _ _ _ _ _ Hc Hc' Hsc). }
    eexists. split; [done|]. split; [|split; [done|split; [done|]]]; cycle 1.
    { cbn. destruct (decide (act = [])) as [->|Hne].
      - rewrite bool_decide_true, decide_True by done. destruct Hd as [_ ->].
        destruct (release_slab_valid _ _ _ _ _ _ Hwf) as (_ & _ & bs & Hbs & (_ & ? & ? & _ & ?) & _).
        eapply (class_step_upd _ _ _ (r_slab r)); [apply Hc|apply Hc|done|done|by left|done| | |done].
        + intros hd Hs. by apply flags_marked.
        + right. split_and!; try done. apply mark_unset.
      - rewrite bool_decide_false by done. rewrite length_app. cbn. rewrite decide_False by lia.
        destruct Hd as [_ ->]. by apply class_step_same. }
    split; [by eexists _, _|].
    assert (ctxs_ok (mkSys ac' m' None live ctxs)) as [Hnd Hall].
    { apply (ctxs_keep _ _ _ _ _ Hctx). cbn. intros c Hin Hact. split; [by apply Hkeep|done]. }
    cbn in Hnd, Hall |- *. destruct (decide (act = [])) as [->|Hne]; [by rewrite bool_decide_true|].
    rewrite bool_decide_false by done. destruct Hd as [Hs _]. destruct (w_phase _ _ _ _ _ _ Hwf) as (_ & _ & _ & Hfin).
    rewrite Hph in Hfin. destruct Hfin as [_ Hfin]. split; cbn.
    + rewrite fmap_app. cbn. apply NoDup_app. split; [done|]. split; [|apply NoDup_singleton].
      intros x (c & -> & Hin)%list_elem_of_fmap Hx%list_elem_of_singleton. destruct Hctx as [_ Hctx].
      destruct (Hctx c Hin) as [(_ & _ & Hr) _]. cbn in Hr. congruence.
    + intros c [Hin| ->%list_elem_of_singleton]%elem_of_app; [by apply Hall|]. split; [by split_and!|]. exact Hfin.
Qed.

Lemma step_safe o st : sys_wf st → op_ok o st →
  (∃ ret st', sys_step o st = Ok (ret, st') ∧ step_post o st ret st' ∧ (is_Some (joins o) → o ≠ OAddSlab (default 0 (joins o)) → ret ≠ None)) ∨
  (sys_step o st = Throw InvalidArgument ∧ ∃ mode hint rnd, o = OStart mode hint rnd ∧
    ∀ s, release_target hint rnd (s_ac st) = Some s → s ∉ allocatedSlabs_ (s_ac st) ++ freeSlabs_ (s_ac st)).
Proof.
  destruct st as [ac m rel live ctxs]. intros [(online & off & Hwf) Hctx] Hok.
  pose proof (w_core _ _ _ _ _ _ Hwf) as Hc.
  destruct o as [| |p|p c|s|s|mode hint rnd|ab|i|i|m']; cbn [sys_step op_ok s_ac s_mem s_rel s_live s_ctxs joins] in *.
  - left. unfold allocate. destruct (canAllocate_ ac) eqn:Et; cbn [negb].
    + destruct (allocate_step _ _ _ _ _ _ _ Hwf Hctx) as (ret & st' & ? & ? & _). exists ret, st'. split_and!; [done..|by intros []].
    + res_simpl. eexists _, _. split; [done|]. split; [|by intros []]. split; [by split; [eexists _, _|]|].
      split; [done|]. split; [done|]. by apply class_step_same.
  - left. destruct (allocate_step _ _ _ _ _ _ _ Hwf Hctx) as (ret & st' & ? & ? & _). exists ret, st'. split_and!; [done..|by intros []].
  - left. destruct (free_aux _ _ _ _ _ _ _ Hwf Hok) as (ac' & m' & -> & Esa & Hw & Hsc & Ht). res_simpl.
    eexists _, _. split; [done|]. split; [|by intros []].
    split; [|split; [done|split; [done|cbn; eapply quiet_step; [done|done| |done]; set_solver]]].
    split; [by eexists _, _|]. apply (ctxs_keep _ _ _ _ _ Hctx). cbn.
    intros ctx _ (_ & Hs & Hr). pose proof (w_core _ _ _ _ _ _ Hw) as Hc'. rewrite Esa in Hc'.
    split; [by apply (releasing_same _ _ _ _ _ _ Hc Hc' Hsc)|]. split; [done|]. set_solver.
  - left. eexists _, _. split; [done|]. split; [|by intros []]. split; [|split; [done|split; [done|cbn]]]; cycle 1.
    { eapply (quiet_step _ _ _ _ _ _ _ [p]); [done|done|set_solver|]. intros y Hy. cbn. rewrite lookup_insert_ne; [done|set_solver]. }
    split; [eexists _, _; by apply write_wf|]. apply (ctxs_keep _ _ _ _ _ Hctx). by intros ctx _ (_ & ? & ?).
  - left. destruct (addSlab_step _ _ _ _ _ _ _ _ Hwf Hctx Hok) as (Hz & ac' & m' & E & Hw & Hctx' & Hsc & _ & Hst).
    unfold addSlab. rewrite Hz. res_simpl. rewrite E. res_simpl. eexists _, _. split; [done|]. split; [|done].
    by split; [split; [eexists _, _|]|].
  - left. destruct (addSlab_step _ _ _ _ _ _ _ _ Hwf Hctx Hok) as (Hz & ac' & m' & E & Hw & Hctx' & Hsc & Hf & Hst).
    unfold addSlabAndAllocate. rewrite Hz. res_simpl. rewrite E. res_simpl.
    destruct (allocate_step _ _ _ _ _ _ _ Hw Hctx') as (ret & st' & E' & (Hw' & Hsc' & Hret & Hst') & _ & Hne).
    exists ret, st'. split; [done|]. split; [|by intros _ _; apply Hne]. split; [done|]. split; [|split; [done|by eapply class_step_trans]].
    destruct Hsc as (? & ? & ?), Hsc' as (? & ? & ?). cbn in *. split_and!; congruence.
  - subst rel. destruct (start_step _ _ _ _ _ _ mode hint rnd Hwf Hctx) as [(st' & E & Hw & Hsc & El & Hst)|[E Ht]].
    + left. exists None, st'. split; [done|]. split; [done|by intros []].
    + right. split; [done|]. by exists mode, hint, rnd.
  - left. destruct Hok as [-> [r ->]]. res_simpl. destruct (release_step _ _ _ _ _ _ _ Hwf Hctx) as (st' & E & Hw & Hsc & El & Hst).
    exists None, st'. split; [done|]. split; [done|by intros []].
  - left. destruct Hok as [ctx Hi]. rewrite Hi. res_simpl. pose proof (list_elem_of_lookup_2 _ _ _ Hi) as Hin.
    destruct (proj2 Hctx ctx Hin) as [Hact _]. pose proof Hact as (_ & Hs0 & _).
    pose proof (proj1 (releasing_iff _ _ _ _ Hc) Hs0) as [Hours _].
    destruct (abort_aux _ _ _ _ _ _ _ Hwf Hact) as (ac' & m' & ys & -> & Hsc & _ & Esa & Hys & Ht & Hw). res_simpl.
    eexists _, _. split; [done|]. split; [|by intros []]. split; [|split; [done|split; [done|cbn]]]; cycle 1.
    { eapply (class_step_upd _ _ _ (slab_ ctx)); [apply Hc|apply Hc|apply Hours|done|by left|done| |by left|].
      - intros hd Hs. by apply flags_marked.
      - intros x Hx. apply Ht. intros (_ & k & Hk & ->)%Hys. apply Hx.
        by rewrite (proj1 (carved_slab _ _ _ Hc (slab_ ctx) k (or_intror Hs0) Hk)). }
    split; [by eexists _, _|]. apply (ctxs_delete _ _ _ _ _ _ ctx Hctx Hi). cbn.
    intros c _ Hne' (_ & Hs & Hr). split; [|done]. pose proof (w_core _ _ _ _ _ _ Hw) as Hc'. rewrite Esa in Hc'.
    by apply (releasing_upd _ _ _ _ _ _ _ _ Hc Hc' Hsc); [apply Hours|..].
  - left. destruct Hok as [ctx Hi]. rewrite Hi. res_simpl. pose proof (list_elem_of_lookup_2 _ _ _ Hi) as Hin.
    destruct (proj2 Hctx ctx Hin) as [Hact _]. pose proof Hact as (_ & Hs0 & _).
    pose proof (proj1 (releasing_iff _ _ _ _ Hc) Hs0) as [Hours _].
    destruct (complete_aux _ _ _ _ _ _ _ Hwf Hact) as (b & ac' & m' & -> & Hsc & _ & Hb). res_simpl.
    eexists _, _. split; [done|]. split; [|by intros []]. destruct b; cycle 1.
    { destruct Hb as [-> ->]. split; [by split; [eexists _, _|]|]. split; [done|]. split; [done|]. cbn.
      rewrite decide_True by done. by apply class_step_same. }
    destruct Hb as (Hw & _ & _ & ->). split; [|split; [done|split; [done|cbn]]]; cycle 1.
    { assert (length ctxs ≠ 0%nat) by (intros E%nil_length_inv; by rewrite E in Hi).
      rewrite length_delete by (by exists ctx). rewrite decide_False, Hi by lia. cbn.
      eapply (class_step_upd _ _ _ (slab_ ctx)); [apply Hc|apply Hc|apply Hours|done|by left|done| | |done].
      - intros hd Hs. by apply flags_marked.
      - right. split_and!; try done. apply mark_unset. }
    split; [by eexists _, _|]. apply (ctxs_delete _ _ _ _ _ _ ctx Hctx Hi). cbn.
    intros c _ Hne (_ & Hs & Hr). split; [|done].
    by apply (releasing_upd _ _ _ _ _ _ _ _ Hc (w_core _ _ _ _ _ _ Hw) Hsc); [apply Hours|..].
  - left. eexists _, _. split; [done|]. split; [|by intros []]. split; [|done]. split; [eexists _, _; by eapply env_wf|].
    apply (ctxs_keep _ _ _ _ _ Hctx). by intros ctx _ (_ & ? & ?).
Qed.

(** ** Reachable states *)
Definition sys_rel (st st' : Sys) : Prop := ∃ o ret, op_ok o st ∧ sys_step o st = Ok (ret, st').
Definition sys_init ac (m : Mem) : Sys := mkSys ac m None ∅ [].

Lemma reachable_wf st st' : sys_wf st → rtc sys_rel st st' → sys_wf st' ∧ same_class (s_ac st) (s_ac st').
Proof.
  intros Hwf Hr. induction Hr as [|st1 st2 st3 (o & ret & Hok & E) _ IH]; [done|].
  destruct (step_safe o st1 Hwf Hok) as [(ret' & st' & E' & (Hw & Hsc & _) & _)|[E' _]]; [|congruence].
  rewrite E in E'. injection E' as <- <-. destruct (IH Hw) as [Hw3 Hsc3]. split; [done|].
  destruct Hsc as (? & ? & ?), Hsc3 as (? & ? & ?). split_and!; congruence.
Qed.

(** A class with no slabs. *)
Lemma new_aux cid pid size sa : AllocationClass_new cid pid size sa =
  (if (cid <? 0) || (size <? sizeof_FreeAlloc) || (kSize <? size) then Throw InvalidArgument
   else if isValidSlab sa 0 && negb (classId (headers sa (slabIndex sa 0)) =? cid) then Throw InvalidArgument
   else Ok (mkAC cid pid size 0 0 [] [] SList_empty true 0 ∅)).
Proof.
  unfold AllocationClass_new, ac_checkState, getSlabHeaderOfSlab. cbn [classId_ allocationSize_ currSlab_ allocatedSlabs_].
  destruct (cid <? 0); [done|]. cbn [orb]. destruct (size <? sizeof_FreeAlloc), (kSize <? size); try done.
  cbn. destruct (isValidSlab sa 0); [|done]. cbn. by destruct (classId (headers sa (slabIndex sa 0)) =? cid).
Qed.
Lemma null_slab_invalid sa : sa_wf sa → isValidSlab sa 0 = false.
Proof.
  intros Hsa. apply not_true_iff_false. rewrite (valid_slab_iff _ Hsa). destruct (wf_start _ Hsa).
  pose proof (wf_slab_start_eq _ Hsa). rewrite kSize_val in *. lia.
Qed.
Lemma new_wf cid pid size sa h : sa_wf sa → 0 ≤ cid → getMinAllocSize ≤ size ≤ kSize →
  (∀ s, ¬ is_ours (mkAC cid pid size 0 0 [] [] SList_empty true 0 ∅) sa s) →
  sys_wf (sys_init (mkAC cid pid size 0 0 [] [] SList_empty true 0 ∅) (mkMem sa h)).
Proof.
  intros Hsa Hcid Hsz Hno. split; [|split; [apply NoDup_nil_2|by intros ctx ?%elem_of_nil]].
  exists [], []. split; cbn; try done; [|apply slist_rep_empty, slab_null|apply NoDup_nil_2|].
  2: by intros s p _ _ ?%elem_of_nil.
  split; cbn; try done; try by left.
  all: try (intros; match goal with H : _ ∈ [] |- _ => by apply elem_of_nil in H end).
  - exists 0%nat. split; [lia|done].
  - intros s Hv Hcl Hpl. by destruct (Hno s).
Qed.

(** The memory of distinct allocations does not overlap. *)
Definition apart (size : Z) (live : gset Z) : Prop :=
  ∀ p q, p ∈ live → q ∈ live → p ≠ q → p + size ≤ q ∨ q + size ≤ p.
Lemma core_apart ac sa U : core ac sa U → apart (allocationSize_ ac) U.
Proof.
  intros Hc p q (s & k & Hk & -> & Hs)%(c_used _ _ _ Hc) (s' & k' & Hk' & -> & Hs')%(c_used _ _ _ Hc) Hne.
  pose proof (c_size _ _ _ Hc) as Hsz. pose proof (c_sa _ _ _ Hc) as Hsa.
  destruct (carved_owned _ _ _ Hc s Hs) as (b & Hv & _), (carved_owned _ _ _ Hc s' Hs') as (b' & Hv' & _).
  rewrite (valid_slab_iff _ Hsa) in Hv, Hv'. destruct Hv as [_ Hal], Hv' as [_ Hal'].
  rewrite per_index in Hk, Hk' by done. unfold addr in *. change getMinAllocSize with 64 in Hsz.
  destruct (decide (s = s')) as [<-|Hns].
  - assert (k ≠ k') by naive_solver. nia.
  - assert (s + kSize ≤ s' ∨ s' + kSize ≤ s) by (rewrite kSize_val in *; clear - Hal Hal' Hns; Z.to_euclidean_division_equations; lia).
    nia.
Qed.

(** C15: memory safety of slab carving and slab release.  Start with a new
    class over a slab allocator in which no slab is its own.  After any
    interleaving of allocations, frees, added slabs, the steps of at most one
    [startSlabRelease] at a time, [abortSlabRelease] and completions of started
    releases, writes into held allocations and changes by other components, where
    the [shouldAbortFn] of a release answers no, the memory ranges of the
    allocations users hold are disjoint, and every further permitted operation,
    a release step whose [shouldAbortFn] answers no among them, returns normally (no exception, failed debug check,
    null pointer or access out of range), never handing out an allocation
    somebody holds.  Only starting a release may throw, when the slab it is to
    release is not an unmarked slab of the class. *)
Theorem ac_reachable_safe cid pid size sa h ac st o :
  sa_wf sa → getMinAllocSize ≤ size → AllocationClass_new cid pid size sa = Ok ac → (∀ s, ¬ is_ours ac sa s) →
  rtc sys_rel (sys_init ac (mkMem sa h)) st → op_ok o st →
  apart size (s_live st) ∧
  ((∃ ret st', sys_step o st = Ok (ret, st') ∧
      match ret with
      | Some p => (p ∉ s_live st) ∧ s_live st' = {[p]} ∪ s_live st ∧ is_alloc (m_sa (s_mem st')) p
      | None => s_live st' = match o with OFree p => s_live st ∖ {[p]} | _ => s_live st end
      end) ∨
   (sys_step o st = Throw InvalidArgument ∧ ∃ mode hint rnd, o = OStart mode hint rnd ∧
      ∀ s, release_target hint rnd (s_ac st) = Some s → s ∉ allocatedSlabs_ (s_ac st) ++ freeSlabs_ (s_ac st))).
Proof.
  intros Hsa Hsz Hnew Hno Hr Hok. rewrite new_aux, (null_slab_invalid _ Hsa) in Hnew.
  destruct (_ || _ || _) eqn:Eg; [done|]. injection Hnew as <-.
  apply orb_false_iff in Eg as [[E1%Z.ltb_ge E2%Z.ltb_ge]%orb_false_iff E3%Z.ltb_ge].
  destruct (reachable_wf _ _ (new_wf cid pid size sa h Hsa E1 (conj Hsz E3) Hno) Hr) as [Hwf (Esz & _ & _)].
  split.
  - destruct Hwf as [(online & off & Hw) _]. intros p q Hp Hq. cbn in Esz. rewrite <- Esz.
    apply (core_apart _ _ _ (w_core _ _ _ _ _ _ Hw)); set_solver.
  - destruct (step_safe o st Hwf Hok) as [(ret & st' & E & (_ & _ & Hret & _) & _)|Ht]; [left|by right]. by exists ret, st'.
Qed.

(** [allocate] takes the head of the free list if there is one, else carves
    the current slab or the next empty one; it returns [nullptr] exactly when
    there is nothing to take, although it first looks at a flag that is not
    protected by the lock. *)
Theorem ac_allocate_spec ac m r live online off : ac_wf ac m r live online off →
  ∃ ret ac' m', allocate ac m = Ok (ret, ac', m') ∧ m_sa m' = m_sa m ∧
    match ret with
    | None => online = [] ∧ freeSlabs_ ac = [] ∧ canAllocateFromCurrentSlabLocked ac = false ∧
        ac_wf ac' m' r live [] off
    | Some p => (p ∉ live) ∧ is_alloc (m_sa m) p ∧ (online = [] ∨ head online = Some p) ∧
        ac_wf ac' m' r ({[p]} ∪ live) (tail online) off
    end.
Proof.
  intros Hwf. unfold allocate. destruct (canAllocate_ ac) eqn:Et; cbn [negb].
  - destruct (allocateLocked_aux _ _ _ _ _ _ Hwf) as (o & ac' & m' & E & Esa & _ & _ & Ho). exists o, ac', m'.
    split; [done|]. split; [done|]. destruct o; [|done]. by destruct Ho as (? & ? & ? & ? & _).
  - destruct (w_can _ _ _ _ _ _ Hwf Et) as (-> & ? & ?). by exists None, ac, m.
Qed.

(** [free] of an allocation a user holds puts it at the head of the free
    list, or, when its slab is being released, marks it as freed there so that
    it is not allocated again. *)
Theorem ac_free_spec ac m r live online off p : ac_wf ac m r live online off → p ∈ live →
  ∃ ac' m', free p ac m = Ok (ac', m') ∧ m_sa m' = m_sa m ∧
    ac_wf ac' m' r (live ∖ {[p]})
      (match slabReleaseAllocMap_ ac !! getSlabForMemory p with Some _ => online | None => p :: online end) off.
Proof.
  intros Hwf Hp. destruct (free_aux _ _ _ _ _ _ _ Hwf Hp) as (ac' & m' & ? & ? & ? & _). by exists ac', m'.
Qed.

(** ** Releasing a slab without interference *)
Definition ctx_lists (ctx : SlabReleaseContext) (s : Z) (live : gset Z) : Prop :=
  slab_ ctx = s ∧ StronglySorted Z.lt (activeAllocations_ ctx) ∧
  ∀ x, x ∈ activeAllocations_ ctx ↔ x ∈ live ∧ getSlabForMemory x = s.

Lemma run_spec live fuel : ∀ r ac m online off, ac_wf ac m (Some r) live online off → exact r live →
  (steps_left r online ≤ fuel)%nat →
  ∃ ctx ac' m' online', startRelease_run fuel [] r ac m = Ok (Returned ctx, ac', m') ∧ ctx_lists ctx (r_slab r) live ∧
    mode_ ctx = r_mode r ∧ same_class ac ac' ∧ ac_wf ac' m' None live online' [] ∧
    (∀ x, x ∈ online' ↔ x ∈ online ++ off ∧ getSlabForMemory x ≠ r_slab r) ∧
    (if decide (activeAllocations_ ctx = []) then slabReleaseAllocMap_ ac' !! r_slab r = None ∧
       m_sa m' = m_sa (released_mem (r_slab r) m)
     else is_Some (slabReleaseAllocMap_ ac' !! r_slab r)).
Proof.
  induction fuel as [|fuel IH]; intros r ac m online off Hwf Hex Hle.
  { unfold steps_left in Hle. destruct (r_phase r) as [|p|p| | | |]; try lia. destruct (SList.empty (freeAllocs p)); lia. }
  cbn [startRelease_run]. change (default false (head [])) with false.
  destruct (release_step_wf _ _ _ _ _ _ Hwf) as (o & ac1 & m1 & -> & Hsc & _ & Ho). res_simpl. destruct o as [r1|ctx|e]; [| |done].
  - destruct Ho as (Es & Em & Esa & Hex1 & online1 & off1 & Hw1 & Hlt & Hx).
    replace (match r_phase r with Scanned _ => tail [] | _ => [] end) with (@nil bool) by (by destruct (r_phase r)).
    destruct (IH r1 ac1 m1 online1 off1 Hw1 Hex1 ltac:(lia)) as (ctx & ac' & m' & online' & -> & Hc & Hm & Hsc' & Hw & Hon & Hd).
    rewrite Es in *. exists ctx, ac', m', online'. split; [done|]. split; [done|]. split; [congruence|]. split.
    { destruct Hsc as (? & ? & ?), Hsc' as (? & ? & ?). split_and!; congruence. }
    split; [done|]. split; [|unfold released_mem in *; cbn in *; by rewrite Esa in Hd].
    intros x. rewrite Hon. split; intros [? ?]; (split; [by apply Hx|done]).
  - destruct Ho as (act & Hph & -> & -> & Hw & Hd). unfold exact in Hex. rewrite Hph in Hex.
    eexists _, _, _, online. split; [done|]. split; [done|]. split; [done|]. split; [done|]. split; [done|].
    destruct (w_phase _ _ _ _ _ _ Hwf) as (_ & _ & Hon & _). rewrite Hph in Hon. specialize (Hon ltac:(done)).
    rewrite Forall_forall in Hon. split; [intros x; rewrite app_nil_r; naive_solver|]. cbn [activeAllocations_].
    destruct (decide (act = [])); destruct Hd as [Hd1 ->]; done.
Qed.

(** No allocation lives in an empty slab. *)
Lemma free_slab_unused ac sa U s p : core ac sa U → s ∈ freeSlabs_ ac → p ∈ U → getSlabForMemory p ≠ s.
Proof.
  intros Hc Hs Hp <-. destruct (used_slab _ _ _ Hc p Hp) as (k & _ & _ & [Ha|[bs Hb]]).
  - pose proof (c_nodup _ _ _ Hc) as (_ & Hd & _)%NoDup_app. by apply (Hd _ Ha).
  - rewrite (c_apart _ _ _ Hc) in Hb by set_solver. done.
Qed.
Lemma not_listed ac sa U s : core ac sa U → classId (headers sa (slabIndex sa s)) ≠ classId_ ac ∨ is_Some (slabReleaseAllocMap_ ac !! s) →
  s ∉ allocatedSlabs_ ac ++ freeSlabs_ ac.
Proof.
  intros Hc [Hne|[bs Hb]] Hin.
  - apply (c_owned _ _ _ Hc) in Hin as (_ & ? & _). done.
  - apply (c_apart _ _ _ Hc) in Hin. congruence.
Qed.

Lemma start_release_aux ac m live online mode hint rnd s :
  ac_wf ac m None live online [] → release_target hint rnd ac = Some s → s ∈ allocatedSlabs_ ac ++ freeSlabs_ ac →
  ∃ ctx ac' m' online', startSlabRelease mode hint rnd [] ac m = Ok (Returned ctx, ac', m') ∧
    ctx_lists ctx s live ∧ mode_ ctx = mode ∧ ac_wf ac' m' None live online' [] ∧
    (∀ x, x ∈ online' ↔ x ∈ online ∧ getSlabForMemory x ≠ s) ∧ (s ∉ allocatedSlabs_ ac' ++ freeSlabs_ ac') ∧
    (is_Some (slabReleaseAllocMap_ ac' !! s) ↔ activeAllocations_ ctx ≠ []).
Proof.
  intros Hwf Ht Hin. pose proof (begin_aux _ _ _ _ mode hint rnd Hwf) as Hb. unfold startSlabRelease.
  pose proof (w_core _ _ _ _ _ _ Hwf) as Hc.
  destruct (startRelease_begin mode hint rnd ac m) as [[[o ac1] m1]|e|]; [|by destruct Hb as [_ Hb]; destruct (Hb s Ht)|done].
  assert (∀ ac' sa f U', core ac' (upd_header (slabIndex sa s) f sa) U' → (∀ hd, classId (f hd) = kInvalidClassId) →
    s ∉ allocatedSlabs_ ac' ++ freeSlabs_ ac') as Hgone.
  { intros ac' sa f U' Hc' Hf. apply (not_listed _ _ _ _ Hc'). left.
    change (slabIndex (upd_header _ f sa) s) with (slabIndex sa s). rewrite upd_header_same, Hf.
    pose proof (c_class _ _ _ Hc'). change kInvalidClassId with (-1). lia. }
  res_simpl. destruct o as [r|ctx|e]; [| |done].
  - destruct Hb as (s' & Ht' & _ & E1 & -> & _ & _ & -> & Hw). rewrite Ht in Ht'. injection Ht' as <-.
    destruct (run_spec live (4 * Z.to_nat (size_ (freedAllocations_ ac1)) + 6) _ _ _ _ _ Hw I) as
      (ctx & ac' & m' & online' & -> & Hl & Hm & Hsc & Hw' & Hon & Hd).
    { cbn [steps_left r_phase]. rewrite (rep_size _ _ _ (w_online _ _ _ _ _ _ Hw)). lia. }
    cbn [r_slab r_mode] in *. exists ctx, ac', m', online'. split; [done|]. split; [done|]. split; [done|]. split; [done|].
    split; [intros x; by rewrite Hon, app_nil_r|]. pose proof (w_core _ _ _ _ _ _ Hw') as Hc'.
    destruct (decide (activeAllocations_ ctx = [])) as [E|E].
    + destruct Hd as [Hd1 Hd2]. rewrite Hd2 in Hc'. unfold released_mem, set_header in Hc'. cbn [m_sa with_sa] in Hc'.
      split; [by eapply Hgone|]. rewrite Hd1. split; [by intros [? ?]|done].
    + split; [apply (not_listed _ _ _ _ Hc'); by right|done].
  - destruct Hb as (s' & Ht' & Hf & Hp & -> & -> & Hw & _). rewrite Ht in Ht'. injection Ht' as <-.
    eexists _, _, _, online. split; [done|]. pose proof (w_core _ _ _ _ _ _ Hw) as Hc'. split_and!; try done.
    + split; [done|]. split; [constructor|]. cbn. intros x. split; [by intros ?%elem_of_nil|]. intros [Hx Es].
      exfalso. apply (free_slab_unused _ _ _ s x Hc Hf); [set_solver|done].
    + intros x. split; [|by intros [? _]]. intros Hx. split; [done|]. apply (free_slab_unused _ _ _ _ _ Hc Hf). set_solver.
    + unfold set_header in Hc'. cbn [m_sa with_sa] in Hc'. by eapply Hgone.
    + split; [|done]. intros Hs. apply (releasing_iff _ _ _ _ Hc') in Hs as [(_ & Ecl & _) _]. exfalso. revert Ecl.
      change (slabIndex (m_sa (set_header (slabIndex (m_sa m) s) (assign kInvalidClassId 0) m)) s) with (slabIndex (m_sa m) s).
      cbn. rewrite decide_True by done. cbn. pose proof (c_class _ _ _ Hc'). change kInvalidClassId with (-1). lia.
Qed.

(** C30: [startSlabRelease], when it is not aborted, terminates for every slab of
    the class: it takes the slab out of the class's lists, prunes exactly the
    slab's allocations from the free list, and returns a context with exactly
    the allocations of the slab that users hold, in address order.  The release
    stays open (its bitmap is kept) exactly when there are such allocations. *)
Theorem startSlabRelease_spec ac m live online mode hint rnd s :
  ac_wf ac m None live online [] → release_target hint rnd ac = Some s → s ∈ allocatedSlabs_ ac ++ freeSlabs_ ac →
  ∃ ctx ac' m' online', startSlabRelease mode hint rnd [] ac m = Ok (Returned ctx, ac', m') ∧
    ctx_lists ctx s live ∧ mode_ ctx = mode ∧ ac_wf ac' m' None live online' [] ∧
    (∀ x, x ∈ online' ↔ x ∈ online ∧ getSlabForMemory x ≠ s) ∧ (s ∉ allocatedSlabs_ ac' ++ freeSlabs_ ac') ∧
    (is_Some (slabReleaseAllocMap_ ac' !! s) ↔ activeAllocations_ ctx ≠ []).
Proof. apply start_release_aux. Qed.

(** ** Ending a release *)
(** [abortSlabRelease] of an open release gives the slab back to the
    class: every allocation of the slab that no user holds, carved or not, is in
    the free list, and the slab is an allocated, unmarked slab of the class. *)
Theorem abortSlabRelease_spec ac m r live online off ctx : ac_wf ac m r live online off → ctx_active ac r ctx →
  ∃ ac' m' ys, abortSlabRelease ctx ac m = Ok (ac', m') ∧ allocatedSlabs_ ac' = allocatedSlabs_ ac ++ [slab_ ctx] ∧
    owned ac' (m_sa m') false (slab_ ctx) ∧ slabReleaseAllocMap_ ac' !! slab_ ctx = None ∧
    (∀ x, x ∈ ys ↔ (x ∉ live) ∧ ∃ k, (k < per ac)%nat ∧ x = addr ac (slab_ ctx) k) ∧
    ac_wf ac' m' r live (ys ++ online) off.
Proof.
  intros Hwf Hact. destruct (abort_aux _ _ _ _ _ _ _ Hwf Hact) as (ac' & m' & ys & E & _ & Ea & _ & Hys & _ & Hw).
  exists ac', m', ys. pose proof (w_core _ _ _ _ _ _ Hw) as Hc.
  assert (slab_ ctx ∈ allocatedSlabs_ ac' ++ freeSlabs_ ac') as Hin by (rewrite Ea; set_solver).
  split_and!; try done; [by apply (c_owned _ _ _ Hc)|by apply (c_apart _ _ _ Hc)].
Qed.

Lemma complete_spec_aux ac m r live online off ctx : ac_wf ac m r live online off → ctx_active ac r ctx →
  ∃ b ac' m', completeSlabRelease ctx ac m = Ok (b, ac', m') ∧
    (b = true ↔ ∀ x, x ∈ live → getSlabForMemory x ≠ slab_ ctx) ∧
    (if b : bool then ac_wf ac' m' r live online off ∧ slabReleaseAllocMap_ ac' !! slab_ ctx = None ∧
       (slab_ ctx ∉ allocatedSlabs_ ac' ++ freeSlabs_ ac') ∧ fresh_slab ac' m' (slab_ ctx)
     else ac' = ac ∧ m' = m).
Proof.
  intros Hwf Hact. destruct (complete_aux _ _ _ _ _ _ _ Hwf Hact) as (b & ac' & m' & E & Hsc & Hb & Hd).
  exists b, ac', m'. split; [done|]. split; [done|]. destruct b; [|done]. destruct Hd as (Hw & Hm & Hn & ->).
  split; [done|]. split; [done|]. split; [done|]. destruct Hact as (_ & [bs Hbs] & _).
  destruct (c_releasing _ _ _ (w_core _ _ _ _ _ _ Hwf) _ _ Hbs) as [(Hv & _ & Epl & _) _].
  split; [done|]. unfold released_mem, set_header. cbn [m_sa with_sa]. cbv zeta.
  change (slabIndex (upd_header _ _ (m_sa m)) (slab_ ctx)) with (slabIndex (m_sa m) (slab_ ctx)).
  rewrite upd_header_same. cbv beta. rewrite mark_unset. destruct Hsc as (_ & _ & ->). by split_and!.
Qed.

(** [completeSlabRelease] of an open release goes on to wait exactly while
    a user holds an allocation of the slab; otherwise the slab leaves the class
    with a clean header. *)
Theorem completeSlabRelease_spec ac m r live online off ctx : ac_wf ac m r live online off → ctx_active ac r ctx →
  ∃ b ac' m', completeSlabRelease ctx ac m = Ok (b, ac', m') ∧
    (b = true ↔ ∀ x, x ∈ live → getSlabForMemory x ≠ slab_ ctx) ∧
    (if b : bool then ac_wf ac' m' r live online off ∧ slabReleaseAllocMap_ ac' !! slab_ ctx = None ∧
       (slab_ ctx ∉ allocatedSlabs_ ac' ++ freeSlabs_ ac') ∧ fresh_slab ac' m' (slab_ ctx)
     else ac' = ac ∧ m' = m).
Proof. apply complete_spec_aux. Qed.

Fixpoint sys_run (ops : list op) (st : Sys) : result Sys :=
  match ops with
  | [] => Ok st
  | o :: ops => '(_, st) ← sys_step o st; sys_run ops st
  end.

Lemma sys_run_app a b st : sys_run (a ++ b) st = sys_run a st ≫= sys_run b.
Proof.
  revert st. induction a as [|o a IH]; intros st; [done|]. cbn. destruct (sys_step o st) as [[ret st']| |]; [|done|done].
  apply IH.
Qed.
Lemma free_all ps : ∀ st, sys_wf st → NoDup ps → (∀ x, x ∈ ps → x ∈ s_live st) →
  ∃ st', sys_run (OFree <$> ps) st = Ok st' ∧ sys_wf st' ∧ s_ctxs st' = s_ctxs st ∧ s_live st' = s_live st ∖ list_to_set ps.
Proof.
  induction ps as [|p ps IH]; intros st Hwf Hnd Hps; [exists st; split_and!; try done; set_solver|].
  apply NoDup_cons in Hnd as [Hp Hnd]. destruct (step_safe (OFree p) st Hwf) as [(ret & st1 & E & (Hw & _ & Hret & _) & _)|[_ (? & ? & ? & ? & _)]];
    [apply Hps; by left| |done].
  assert (ret = None ∧ s_ctxs st1 = s_ctxs st) as [-> Ec].
  { cbn in E. destruct (free p (s_ac st) (s_mem st)) as [[ac m]| |]; [|done|done]. by injection E as <- <-. }
  cbn in Hret. destruct (IH st1 Hw Hnd) as (st' & E' & Hw' & Ec' & El).
  { intros x Hx. rewrite Hret. apply elem_of_difference. split; [apply Hps; by right|]. intros ->%elem_of_singleton. done. }
  exists st'. cbn [fmap list_fmap sys_run]. rewrite E. res_simpl. split; [done|]. split; [done|]. split; [congruence|].
  rewrite El, Hret. set_solver.
Qed.

(** A started release can always be finished: once every allocation of the
    slab that is still held has been freed, in any order,
    [completeSlabRelease] succeeds and the slab has left the class. *)
Theorem release_completes st i ctx ps : sys_wf st → s_ctxs st !! i = Some ctx →
  NoDup ps → (∀ x, x ∈ ps ↔ x ∈ s_live st ∧ getSlabForMemory x = slab_ ctx) →
  ∃ st', sys_run ((OFree <$> ps) ++ [OComplete i]) st = Ok st' ∧ sys_wf st' ∧ s_ctxs st' = delete i (s_ctxs st) ∧
    s_live st' = s_live st ∖ list_to_set ps ∧ (slab_ ctx ∉ allocatedSlabs_ (s_ac st') ++ freeSlabs_ (s_ac st')) ∧
    fresh_slab (s_ac st') (s_mem st') (slab_ ctx).
Proof.
  intros Hwf Hi Hnd Hps. rewrite sys_run_app.
  destruct (free_all ps st Hwf Hnd) as (st1 & -> & Hw1 & Ec & El); [by intros x [? _]%Hps|]. res_simpl. cbn [sys_run].
  destruct (step_safe (OComplete i) st1 Hw1) as [(ret & st' & E & (Hw' & _ & Hlive & _) & _)|[_ (? & ? & ? & ? & _)]];
    [by cbn; rewrite Ec, Hi| |done].
  rewrite E. res_simpl. exists st'. split; [done|]. split; [done|]. cbn [sys_step] in E. rewrite Ec, Hi in E. res_simpl.
  destruct Hw1 as [(online & off & Hwf1) Hctx1].
  destruct (proj2 Hctx1 ctx) as [Hact _]; [rewrite Ec; by eapply list_elem_of_lookup_2|].
  destruct (complete_spec_aux _ _ _ _ _ _ _ Hwf1 Hact) as (b & ac' & m' & Eq & Hb & Hd). rewrite Eq in E. res_simpl.
  assert (b = true) as ->.
  { apply Hb. rewrite El. intros x [Hx Hn]%elem_of_difference Es. apply Hn, elem_of_list_to_set, Hps. done. }
  injection E as <- <-. destruct Hd as (_ & _ & Hn & Hf). by rewrite <- El.
Qed.

(** ** Statistics *)
Definition allocs_of ac : list Z := (λ '(s, k), addr ac s k) <$> list_prod (allocatedSlabs_ ac) (seq 0 (per ac)).
(** What is left of the current slab. *)
Definition uncarved ac : list Z :=
  if canAllocateFromCurrentSlabLocked ac
  then addr ac (currSlab_ ac) <$> seq (Z.to_nat (currOffset_ ac / allocationSize_ ac))
         (per ac - Z.to_nat (currOffset_ ac / allocationSize_ ac))
  else [].

Lemma NoDup_list_prod {A B} (l : list A) (l' : list B) : NoDup l → NoDup l' → NoDup (list_prod l l').
Proof.
  intros Hl Hl'. induction Hl as [|a l Ha Hl IH]; cbn; [apply NoDup_nil_2|]. apply NoDup_app. split; [|split; [|done]].
  - change (List.map (λ y, (a, y)) l') with ((λ y, (a, y)) <$> l'). apply NoDup_fmap_2; [|done]. by intros x y [= ->].
  - intros [x y] Hx [Hin _]%list_elem_of_In%in_prod_iff. change (List.map (λ y, (a, y)) l') with ((λ y, (a, y)) <$> l') in Hx.
    apply list_elem_of_fmap in Hx as (z & [= -> ->] & _). apply Ha. by apply list_elem_of_In.
Qed.
Lemma elem_of_allocs ac x : x ∈ allocs_of ac ↔ ∃ s k, s ∈ allocatedSlabs_ ac ∧ (k < per ac)%nat ∧ x = addr ac s k.
Proof.
  unfold allocs_of. rewrite list_elem_of_fmap. split.
  - intros ([s k] & -> & [Hs Hk]%list_elem_of_In%in_prod_iff). apply list_elem_of_In in Hs. apply in_seq in Hk.
    exists s, k. split; [done|]. split; [lia|done].
  - intros (s & k & Hs & Hk & ->). exists (s, k). split; [done|]. apply list_elem_of_In, in_prod_iff.
    split; [by apply list_elem_of_In|]. apply in_seq. lia.
Qed.
Lemma allocs_nodup ac sa U : core ac sa U → NoDup (allocs_of ac).
Proof.
  intros Hc. apply NoDup_fmap_2_strong.
  - intros [s k] [s' k'] [Hs Hk]%list_elem_of_In%in_prod_iff [Hs' Hk']%list_elem_of_In%in_prod_iff E.
    apply list_elem_of_In in Hs, Hs'. apply in_seq in Hk, Hk'.
    apply (addr_inj _ _ _ Hc) in E as [-> ->]; [done|by left|by left|lia|lia].
  - apply NoDup_list_prod.
    + pose proof (c_nodup _ _ _ Hc) as (? & _ & _)%NoDup_app. done.
    + apply NoDup_seq.
Qed.
Lemma elem_of_uncarved ac sa U x : core ac sa U →
  x ∈ uncarved ac ↔ ∃ k, currSlab_ ac ∈ allocatedSlabs_ ac ∧ (k < per ac)%nat ∧ currOffset_ ac ≤ Z.of_nat k * allocationSize_ ac ∧
    x = addr ac (currSlab_ ac) k.
Proof.
  intros Hc. unfold uncarved. destruct (c_offset _ _ _ Hc) as (j & Hj & Ej). pose proof (c_size _ _ _ Hc) as Hsz.
  change getMinAllocSize with 64 in Hsz. rewrite Ej, Z.div_mul, Nat2Z.id by lia.
  destruct (canAllocateFromCurrentSlabLocked ac) eqn:Ecan.
  - apply (canCarve_spec _ _ _ Hc) in Ecan as [Hin _]. rewrite list_elem_of_fmap. split.
    + intros (k & -> & Hk%elem_of_seq). exists k. split; [done|]. split; [lia|]. split; [nia|done].
    + intros (k & _ & Hk & Hle & ->). exists k. split; [done|]. apply elem_of_seq. nia.
  - split; [by intros ?%elem_of_nil|]. intros (k & Hin & Hk & Hle & ->). exfalso.
    assert (canAllocateFromCurrentSlabLocked ac = true); [|congruence]. apply (canCarve_spec _ _ _ Hc). split; [done|].
    assert (Z.of_nat j ≤ Z.of_nat k) by nia. exists j. split; [lia|]. split; [done|].
    rewrite per_index in Hk by done. rewrite Ej, wrap_small; [lia|]. unfold fits. change (2 ^ 32) with 4294967296.
    rewrite kSize_val in *. nia.
Qed.

(** [getStats] counts exactly: while no release is being started, the
    active allocations it reports are the allocations users hold in the
    allocated slabs, and the free ones are those of the free list. *)
Theorem ac_getStats_exact ac m live online : ac_wf ac m None live online [] →
  activeAllocs (getStats ac) = Z.of_nat (size (filter (λ p, getSlabForMemory p ∈ allocatedSlabs_ ac) live)) ∧
  st_freeAllocs (getStats ac) = Z.of_nat (length online) ∧ full (getStats ac) = negb (canAllocate_ ac).
Proof.
  intros [W1 W2 W3 W4 W5 W6 W7 W8]. split; [|split; [by rewrite <- (sr_size _ _ _ _ _ W2)|done]].
  set (act := filter (λ p, getSlabForMemory p ∈ allocatedSlabs_ ac) live). rewrite app_nil_r in *.
  assert (∀ x, x ∈ act ↔ x ∈ live ∧ getSlabForMemory x ∈ allocatedSlabs_ ac) as Hact by (intros x; unfold act; set_solver).
  assert (∀ s k, s ∈ allocatedSlabs_ ac → (k < per ac)%nat → getSlabForMemory (addr ac s k) = s) as Hslab.
  { intros s k Hs Hk. apply (carved_slab _ _ _ W1); [by left|done]. }
  assert (allocs_of ac ≡ₚ elements act ++ online ++ uncarved ac) as Hperm.
  { apply NoDup_Permutation; [by eapply allocs_nodup| |].
    - apply NoDup_app. split; [apply NoDup_elements|]. split.
      { intros x [Hx _]%elem_of_elements%Hact [Ho|Hu]%elem_of_app; [by apply (W4 x)|].
        apply (elem_of_uncarved _ _ _ _ W1) in Hu as (k & Hin & Hk & Hle & ->).
        assert (addr ac (currSlab_ ac) k ∈ live ∪ list_to_set online) as Hu by set_solver.
        by apply (c_allocated _ _ _ W1) in Hu; [destruct Hu|..]. }
      apply NoDup_app. split; [done|]. split.
      { intros x Hx Hu. apply (elem_of_uncarved _ _ _ _ W1) in Hu as (k & Hin & Hk & Hle & ->).
        assert (addr ac (currSlab_ ac) k ∈ live ∪ list_to_set online) as Hu by set_solver.
        by apply (c_allocated _ _ _ W1) in Hu; [destruct Hu|..]. }
      unfold uncarved. destruct (canAllocateFromCurrentSlabLocked ac); [|apply NoDup_nil_2].
      apply NoDup_fmap_2_strong; [|apply NoDup_seq]. intros k k' _ _. apply addr_inj_idx, W1.
    - intros x. rewrite elem_of_allocs, !elem_of_app, elem_of_elements, Hact, (elem_of_uncarved _ _ _ _ W1). split.
      + intros (s & k & Hs & Hk & ->). rewrite Hslab by done.
        destruct (decide (s = currSlab_ ac ∧ currOffset_ ac ≤ Z.of_nat k * allocationSize_ ac)) as [[-> Hle]|Hn].
        * right. right. by exists k.
        * apply (c_allocated _ _ _ W1 _ _ Hs Hk) in Hn. apply elem_of_union in Hn as [Hn|Hn]; [by left|].
          right. left. by apply elem_of_list_to_set in Hn.
      + intros [[Hx Hs]|[Hx|(k & Hin & Hk & _ & ->)]]; [| |by exists (currSlab_ ac), k].
        * destruct (used_slab _ _ _ W1 x) as (k & Hk & Ex & _); [set_solver|]. by exists (getSlabForMemory x), k.
        * destruct (used_slab _ _ _ W1 x) as (k & Hk & Ex & [Hs|Hs]); [set_solver|by exists (getSlabForMemory x), k|].
          exfalso. by apply (W7 _ x Hs ltac:(done) Hx). }
  apply Permutation_length in Hperm. rewrite !length_app in Hperm. unfold allocs_of in Hperm.
  rewrite length_fmap, length_prod, length_seq in Hperm. change (length (elements act)) with (size act) in Hperm.
  assert (Z.of_nat (length (uncarved ac)) = if canAllocateFromCurrentSlabLocked ac
    then u64 (kSize - currOffset_ ac) / allocationSize_ ac else 0) as Eu.
  { unfold uncarved. destruct (canAllocateFromCurrentSlabLocked ac) eqn:Ecan; [|done].
    apply (canCarve_spec _ _ _ W1) in Ecan as (_ & j & Hj & Ej & _). pose proof (c_size _ _ _ W1) as Hsz.
    destruct (per_val ac Hsz) as (Ep & _ & Hper & _). change getMinAllocSize with 64 in Hsz.
    rewrite length_fmap, length_seq, Ej, Z.div_mul, Nat2Z.id by lia. rewrite kSize_val in *.
    rewrite wrap_small by (unfold fits; change (2 ^ 64) with 18446744073709551616; nia).
    replace (4194304 - Z.of_nat j * allocationSize_ ac) with (4194304 + (- Z.of_nat j) * allocationSize_ ac) by lia.
    rewrite Z.div_add by lia. lia. }
  assert (Z.of_nat (length (allocatedSlabs_ ac)) ≤ 65535) as Hn.
  { apply (valid_slabs_bound (m_sa m)); [apply W1| |].
    - pose proof (c_nodup _ _ _ W1) as (? & _ & _)%NoDup_app. done.
    - intros s Hs. apply (c_owned _ _ _ W1). set_solver. }
  destruct (per_val ac (c_size _ _ _ W1)) as (_ & _ & _ & Hp). unfold getStats. cbn [activeAllocs].
  rewrite <- Eu, (sr_size _ _ _ _ _ W2). assert (0 ≤ getAllocsPerSlab ac) as Hnn by (apply wrap_fits; done).
  apply (f_equal Z.of_nat) in Hperm. rewrite Nat2Z.inj_mul, !Nat2Z.inj_add, Z2Nat.id in Hperm by done.
  rewrite Z2Nat.id in Hp by done. rewrite wrap_small; [lia|].
  unfold fits. change (2 ^ 64) with 18446744073709551616. split; [lia|]. nia.
Qed.

(** ** Saved state *)
Lemma online_length ac m live online : ac_wf ac m None live online [] → Z.of_nat (length online) < 2 ^ 63.
Proof.
  intros [W1 W2 W3 W4 W5 W6 W7 W8]. rewrite app_nil_r in *.
  assert (length online ≤ length (allocs_of ac))%nat as Hle.
  { apply submseteq_length, NoDup_submseteq; [done|]. intros x Hx. apply elem_of_allocs.
    destruct (used_slab _ _ _ W1 x) as (k & Hk & Ex & [Hs|Hs]); [set_solver|by exists (getSlabForMemory x), k|].
    exfalso. by apply (W7 _ x Hs ltac:(done) Hx). }
  unfold allocs_of in Hle. rewrite length_fmap, length_prod, length_seq in Hle.
  assert (Z.of_nat (length (allocatedSlabs_ ac)) ≤ 65535) as Hn.
  { apply (valid_slabs_bound (m_sa m)); [apply W1| |].
    - pose proof (c_nodup _ _ _ W1) as (? & _ & _)%NoDup_app. done.
    - intros s Hs. apply (c_owned _ _ _ W1). set_solver. }
  destruct (per_val ac (c_size _ _ _ W1)) as (_ & _ & _ & Hp). change (2 ^ 63) with 9223372036854775808. nia.
Qed.

Lemma saved_slab sa s : sa_wf sa → isValidSlab sa s = true →
  slabIdx sa s = Ok (slabIndex sa s) ∧ getSlabForIdx (slabMemoryStart sa) (u32 (s32 (slabIndex sa s))) = s.
Proof.
  intros Hsa Hv. split; [by apply slabIdx_valid|]. rewrite (valid_slab_iff _ Hsa) in Hv. destruct Hv as [Hr Hal].
  by apply slab_of_saved_idx; [|lia|].
Qed.
Lemma saved_slabs sa xs : sa_wf sa → (∀ s, s ∈ xs → isValidSlab sa s = true) →
  mapM (slabIdx sa) xs = Ok (slabIndex sa <$> xs) ∧
  (λ idx, getSlabForIdx (slabMemoryStart sa) (u32 idx)) <$> (s32 <$> (slabIndex sa <$> xs)) = xs.
Proof.
  intros Hsa Hv. split.
  - apply mapM_Ok, Forall_forall. intros s Hs. apply saved_slab; auto.
  - rewrite <- !list_fmap_compose. rewrite <- (list_fmap_id xs) at 2. apply list_fmap_ext. intros i s Hi. unfold compose.
    apply (saved_slab sa s Hsa). apply Hv. by eapply list_elem_of_lookup_2.
Qed.

Lemma ac_restore_aux ac m live online : ac_wf ac m None live online [] →
  (ownsMemory (m_sa m) = true → ac_saveState ac m = Throw LogicError) ∧
  (slabReleaseAllocMap_ ac ≠ ∅ → ac_saveState ac m = Throw LogicError) ∧
  (ownsMemory (m_sa m) = false → slabReleaseAllocMap_ ac = ∅ →
   ∃ o, ac_saveState ac m = Ok o ∧ AllocationClass_restore o (poolId_ ac) m = Ok ac).
Proof.
  intros Hwf. pose proof Hwf as [W1 W2 W3 W4 W5 W6 W7 W8]. pose proof (c_sa _ _ _ W1) as Hsa. rewrite Z.sub_0_r in W6.
  unfold ac_saveState. split; [by intros ->|]. split.
  { intros Hne. destruct (ownsMemory (m_sa m)); [done|]. res_simpl.
    assert (size (slabReleaseAllocMap_ ac) ≠ 0%nat) by (by intros ?%map_size_empty_inv).
    by rewrite W6, (proj2 (Z.ltb_lt _ _)) by lia. }
  intros Hown Hm. rewrite Hown, W6, Hm. cbn [throw_if]. rewrite map_size_empty. res_simpl. cbn [Z.of_nat Z.ltb Z.compare throw_if]. res_simpl.
  assert (∀ s, s ∈ allocatedSlabs_ ac ++ freeSlabs_ ac → isValidSlab (m_sa m) s = true) as Hv
    by (intros s Hs; by apply (c_owned _ _ _ W1)).
  assert (∃ i, slabIdx (m_sa m) (currSlab_ ac) = Ok i ∧
    getSlabForIdx (slabMemoryStart (m_sa m)) (u32 (s32 i)) = currSlab_ ac) as (ci & Eci & Eci').
  { destruct (c_curr _ _ _ W1) as [->|Hin]; [by exists kNullSlabIdx|]. eexists. apply saved_slab; [done|]. apply Hv. set_solver. }
  rewrite Eci. res_simpl.
  destruct (saved_slabs _ (allocatedSlabs_ ac) Hsa) as [-> Ea]; [intros s Hs; apply Hv; set_solver|]. res_simpl.
  destruct (saved_slabs _ (freeSlabs_ ac) Hsa) as [-> Ef]; [intros s Hs; apply Hv; set_solver|]. res_simpl.
  destruct (slist_restore_aux _ _ _ _ _ W2) as (fo & -> & Er & _); [by eapply online_length|]. res_simpl.
  eexists. split; [done|]. unfold AllocationClass_restore. cbn [o_freed]. rewrite Er, Hown. res_simpl.
  cbn [o_classId o_allocationSize o_currOffset o_currSlabIdx o_allocatedSlabIdxs o_freeSlabIdxs o_canAllocate].
  rewrite Eci', Ea, Ef. pose proof (c_size _ _ _ W1) as Hsz. destruct (c_offset _ _ _ W1) as (j & Hj & Ej).
  destruct (per_val ac Hsz) as (_ & _ & Hper & _). change getMinAllocSize with 64 in Hsz.
  rewrite (wrap_small 32 (allocationSize_ ac)) by (unfold fits; change (2 ^ 32) with 4294967296; rewrite kSize_val in Hsz; lia).
  rewrite (wrap_small 32 (currOffset_ ac)) by (unfold fits; change (2 ^ 32) with 4294967296; rewrite kSize_val in *; nia).
  assert (mkAC (classId_ ac) (poolId_ ac) (allocationSize_ ac) (currOffset_ ac) (currSlab_ ac) (allocatedSlabs_ ac)
    (freeSlabs_ ac) (freedAllocations_ ac) (canAllocate_ ac) 0 ∅ = ac) as ->.
  { rewrite Hm, map_size_empty in W6. destruct ac; cbn in *. by subst. }
  unfold ac_checkState. rewrite (proj2 (Z.ltb_ge (classId_ ac) 0)) by apply (c_class _ _ _ W1). change sizeof_FreeAlloc with 4.
  rewrite (proj2 (Z.ltb_ge (allocationSize_ ac) 4)), (proj2 (Z.ltb_ge kSize _)) by lia. res_simpl.
  destruct (c_curr _ _ _ W1) as [E0|Hin].
  - rewrite E0. unfold getSlabHeaderOfSlab. rewrite (null_slab_invalid _ Hsa). done.
  - pose proof (c_owned _ _ _ W1 (currSlab_ ac) ltac:(set_solver)) as (Hvc & Hcl & _).
    rewrite (header_of_valid _ _ Hvc), Hcl, Z.eqb_refl. rewrite (bool_decide_false (Some _ = None)) by done.
    rewrite (bool_decide_true (_ ∈ _)) by done. rewrite andb_false_r. res_simpl. by rewrite andb_false_r.
Qed.

(** A class that is quiet (no release is open or being started), saved and
    restored over the same memory, is the same class, free list and current
    slab included; saving fails when the allocator owns its memory and when a
    release is open. *)
Theorem ac_saveState_restore ac m live online : ac_wf ac m None live online [] →
  (ownsMemory (m_sa m) = true → ac_saveState ac m = Throw LogicError) ∧
  (slabReleaseAllocMap_ ac ≠ ∅ → ac_saveState ac m = Throw LogicError) ∧
  (ownsMemory (m_sa m) = false → slabReleaseAllocMap_ ac = ∅ →
   ∃ o, ac_saveState ac m = Ok o ∧ AllocationClass_restore o (poolId_ ac) m = Ok ac).
Proof. apply ac_restore_aux. Qed.

(** ** A concrete class

    Four slabs of a pool, and a class of 1 MiB allocations: four in a slab. *)
Definition op_okb (o : op) (st : Sys) : bool :=
  match o with
  | OFree p | OWrite p _ => bool_decide (p ∈ s_live st)
  | OAddSlab s | OAddSlabAndAllocate s =>
      let hd := headers (m_sa (s_mem st)) (slabIndex (m_sa (s_mem st)) s) in
      isValidSlab (m_sa (s_mem st)) s && (classId hd =? kInvalidClassId) && (poolId hd =? poolId_ (s_ac st)) &&
      negb (isMarkedForRelease hd)
  | OStart _ _ _ => match s_rel st with None => true | Some _ => false end
  | OStep abort => negb abort && match s_rel st with None => false | Some _ => true end
  | OAbort i | OComplete i => match s_ctxs st !! i with Some _ => true | None => false end
  | OEnv _ => false
  | _ => true
  end.
Lemma op_okb_sound o st : op_okb o st = true → op_ok o st.
Proof.
  destruct o as [| | | |s|s|mode hint rnd|[]|i|i|]; cbn; try done; try (by apply bool_decide_eq_true_1).
  1, 2: intros [[[Hv Hc%Z.eqb_eq]%andb_true_iff Hp%Z.eqb_eq]%andb_true_iff Hm%negb_true_iff]%andb_true_iff; by split_and!.
  - by destruct (s_rel st).
  - by destruct (s_rel st).
  - by destruct (s_ctxs st !! i).
  - by destruct (s_ctxs st !! i).
Qed.
Fixpoint sys_runb (ops : list op) (st : Sys) : option Sys :=
  match ops with
  | [] => Some st
  | o :: ops => if op_okb o st then match sys_step o st with Ok (_, st) => sys_runb ops st | _ => None end else None
  end.
Lemma sys_runb_sound ops : ∀ st st', sys_runb ops st = Some st' → rtc sys_rel st st'.
Proof.
  induction ops as [|o ops IH]; intros st st'; cbn; [by intros [= <-]|]. destruct (op_okb o st) eqn:Eo; [|done].
  destruct (sys_step o st) as [[ret st1]| |] eqn:E; [|done|done]. intros H%IH. eapply rtc_l; [|done].
  exists o, ret. split; [by apply op_okb_sound|done].
Qed.

Definition ex_sa : SlabAllocator :=
  mkSlabAllocator (replicate kMaxPools 0) [] [] kSize (5 * kSize) (2 * kSize) (6 * kSize) true false false
    (λ _, mkSlabHeader 0 (-1) 0 0).
Lemma ex_sa_wf : sa_wf ex_sa.
Proof.
  split; [split; reflexivity|split; [split; [reflexivity|discriminate]|reflexivity]
    |reflexivity..|split; [split; discriminate|reflexivity]|apply NoDup_nil_2
    |by apply Forall_nil|discriminate|reflexivity].
Qed.
Definition ex_size : Z := 1048576.
Definition ex_ac : AllocationClass := mkAC 0 0 ex_size 0 0 [] [] SList_empty true 0 ∅.
Definition ex_init : Sys := sys_init ex_ac (mkMem ex_sa ∅).
Lemma ex_not_ours s : ¬ is_ours ex_ac ex_sa s.
Proof. by intros (_ & ? & _). Qed.
Lemma ex_init_wf : sys_wf ex_init.
Proof. apply new_wf; [apply ex_sa_wf|done|done|apply ex_not_ours]. Qed.

(** Three allocations of the first slab are made and the first is freed. *)
Definition ex_slab : Z := 2 * kSize.
Definition ex_ops : list op := [OAddSlabAndAllocate ex_slab; OAllocate; OAllocate; OFree ex_slab].
Definition ex_st : Sys := default ex_init (sys_runb ex_ops ex_init).
Definition ex_open : Sys :=
  default ex_init (sys_runb [OStart kRebalance (Some ex_slab) 0; OStep false; OStep false; OStep false; OStep false] ex_st).

Lemma ex_reach : rtc sys_rel ex_init ex_st.
Proof.
  apply (sys_runb_sound ex_ops). unfold ex_st. destruct (sys_runb ex_ops ex_init) as [st|] eqn:E; [done|].
  by vm_compute in E.
Qed.
Lemma ex_st_wf : sys_wf ex_st.
Proof. apply (reachable_wf _ _ ex_init_wf ex_reach). Qed.
Lemma ex_open_wf : sys_wf ex_open.
Proof.
  refine (proj1 (reachable_wf _ _ ex_st_wf (sys_runb_sound [OStart kRebalance (Some ex_slab) 0; OStep false; OStep false; OStep false; OStep false] _ _ _))).
  unfold ex_open. destruct (sys_runb _ ex_st) as [st|] eqn:E; [done|]. by vm_compute in E.
Qed.
Lemma ex_rel : s_rel ex_st = None ∧ s_rel ex_open = None ∧ length (s_ctxs ex_open) = 1%nat ∧
  allocatedSlabs_ (s_ac ex_st) = [ex_slab].
Proof. by vm_compute. Qed.

Lemma ac_reachable_safe_witness : ∃ p st', sys_step OAllocate ex_st = Ok (Some p, st') ∧ (p ∉ s_live ex_st).
Proof.
  destruct (ac_reachable_safe 0 0 ex_size ex_sa ∅ ex_ac ex_st OAllocate ex_sa_wf) as [_ [(ret & st' & E & H)|[E _]]];
    [done|done|apply ex_not_ours|apply ex_reach|done| |by vm_compute in E].
  destruct ret as [p|]; [|by vm_compute in E]. exists p, st'. split; [exact E|]. destruct H as [H _]. exact H.
Defined.
Lemma ac_allocate_spec_witness : ∃ p ac' m', allocate (s_ac ex_st) (s_mem ex_st) = Ok (Some p, ac', m') ∧
  (p ∉ s_live ex_st) ∧ p = ex_slab.
Proof.
  destruct ex_st_wf as [(online & off & Hwf) _].
  destruct (ac_allocate_spec _ _ _ _ _ _ Hwf) as (ret & ac' & m' & E & _ & Hret).
  assert (ret = Some ex_slab) as -> by (vm_compute in E; by injection E as <- _ _).
  exists ex_slab, ac', m'. split; [exact E|]. destruct Hret as [H _]. split; [exact H|reflexivity].
Defined.
Lemma ac_free_spec_witness : let p := ex_slab + ex_size in
  ∃ ac' m' online, free p (s_ac ex_st) (s_mem ex_st) = Ok (ac', m') ∧
    ac_wf ac' m' (s_rel ex_st) (s_live ex_st ∖ {[p]}) online [].
Proof.
  cbv zeta. destruct ex_st_wf as [(online & off & Hwf) _].
  assert (off = []) as -> by (pose proof (w_phase _ _ _ _ _ _ Hwf) as H; rewrite (proj1 ex_rel) in H; done).
  destruct (ac_free_spec _ _ _ _ _ _ (ex_slab + ex_size) Hwf) as (ac' & m' & E & _ & Hw); [by vm_compute|].
  exists ac', m'. eexists. split; [exact E|exact Hw].
Defined.

(** Slab 2 has one allocation in the free list, two in use and one that is not
    carved yet. *)
Lemma startSlabRelease_spec_witness : ∃ ctx ac' m' online,
  startSlabRelease kRebalance (Some ex_slab) 0 [] (s_ac ex_st) (s_mem ex_st) = Ok (Returned ctx, ac', m') ∧
  ac_wf ac' m' None (s_live ex_st) online [] ∧ (ex_slab ∉ online) ∧
  activeAllocations_ ctx = [ex_slab + ex_size; ex_slab + 2 * ex_size].
Proof.
  destruct ex_st_wf as [(online & off & Hwf) _]. rewrite (proj1 ex_rel) in Hwf.
  pose proof (w_phase _ _ _ _ _ _ Hwf) as Hoff. cbn in Hoff. subst off.
  destruct (startSlabRelease_spec _ _ _ _ kRebalance (Some ex_slab) 0 ex_slab Hwf) as
    (ctx & ac' & m' & online' & E & Hl & _ & Hw & Hon & _); [by vm_compute|by rewrite (proj2 (proj2 (proj2 ex_rel))); left|].
  exists ctx, ac', m', online'. split; [exact E|]. split; [done|].
  split; [intros [_ Hn]%Hon; apply Hn; by vm_compute|]. vm_compute in E. by injection E as <- _ _.
Defined.

Definition ex_ctx : SlabReleaseContext :=
  default (releasedContext 0 0 0 kResize) (s_ctxs ex_open !! 0%nat).
Lemma ex_ctx_at : s_ctxs ex_open !! 0%nat = Some ex_ctx ∧ slab_ ex_ctx = ex_slab.
Proof. split; by vm_compute. Qed.
Lemma ex_ctx_active : ctx_active (s_ac ex_open) (s_rel ex_open) ex_ctx.
Proof. apply (proj2 (proj2 ex_open_wf) ex_ctx). eapply list_elem_of_lookup_2, ex_ctx_at. Qed.

Lemma abortSlabRelease_spec_witness : ∃ ac' m', abortSlabRelease ex_ctx (s_ac ex_open) (s_mem ex_open) = Ok (ac', m') ∧
  allocatedSlabs_ ac' = [ex_slab] ∧ owned ac' (m_sa m') false ex_slab ∧ size_ (freedAllocations_ ac') = 2.
Proof.
  destruct ex_open_wf as [(online & off & Hwf) _].
  destruct (abortSlabRelease_spec _ _ _ _ _ _ _ Hwf ex_ctx_active) as (ac' & m' & ys & E & Ea & Ho & _).
  exists ac', m'. split; [exact E|]. rewrite (proj2 ex_ctx_at) in *. split; [exact Ea|]. split; [exact Ho|].
  vm_compute in E. by injection E as <- _.
Defined.
Lemma completeSlabRelease_spec_witness : ∃ ac' m',
  completeSlabRelease ex_ctx (s_ac ex_open) (s_mem ex_open) = Ok (false, ac', m') ∧ ac' = s_ac ex_open.
Proof.
  destruct ex_open_wf as [(online & off & Hwf) _].
  destruct (completeSlabRelease_spec _ _ _ _ _ _ _ Hwf ex_ctx_active) as (b & ac' & m' & E & _ & Hd).
  exists ac', m'. destruct b; [by vm_compute in E|]. destruct Hd as [-> ->]. split; [exact E|done].
Defined.
Lemma release_completes_witness :
  ∃ st', sys_run [OFree (ex_slab + 2 * ex_size); OFree (ex_slab + ex_size); OComplete 0] ex_open = Ok st' ∧
    fresh_slab (s_ac st') (s_mem st') ex_slab.
Proof.
  destruct (release_completes ex_open 0 ex_ctx [ex_slab + 2 * ex_size; ex_slab + ex_size] ex_open_wf (proj1 ex_ctx_at))
    as (st' & E & _ & _ & _ & _ & Hf).
  - apply NoDup_cons. split; [by intros H%list_elem_of_singleton; vm_compute in H|apply NoDup_singleton].
  - assert (s_live ex_open = {[ex_slab + 2 * ex_size; ex_slab + ex_size]}) as -> by (by vm_compute).
    rewrite (proj2 ex_ctx_at). intros x. split.
    + intros [->|[->|?%elem_of_nil]%elem_of_cons]%elem_of_cons; [..|done]; (split; [set_solver|by vm_compute]).
    + intros [Hx _]. set_solver.
  - exists st'. split; [exact E|]. by rewrite (proj2 ex_ctx_at) in Hf.
Defined.
Lemma ac_getStats_exact_witness : activeAllocs (getStats (s_ac ex_st)) = 2 ∧ st_freeAllocs (getStats (s_ac ex_st)) = 1 ∧
  activeAllocs (getStats (s_ac ex_st)) =
    Z.of_nat (size (filter (λ p, getSlabForMemory p ∈ allocatedSlabs_ (s_ac ex_st)) (s_live ex_st))).
Proof.
  destruct ex_st_wf as [(online & off & Hwf) _]. rewrite (proj1 ex_rel) in Hwf.
  pose proof (w_phase _ _ _ _ _ _ Hwf) as Hoff. cbn in Hoff. subst off.
  split; [by vm_compute|]. split; [by vm_compute|]. apply (ac_getStats_exact _ _ _ _ Hwf).
Defined.
Lemma ac_saveState_restore_witness : ∃ o, ac_saveState (s_ac ex_st) (s_mem ex_st) = Ok o ∧
  AllocationClass_restore o 0 (s_mem ex_st) = Ok (s_ac ex_st).
Proof.
  destruct ex_st_wf as [(online & off & Hwf) _]. rewrite (proj1 ex_rel) in Hwf.
  pose proof (w_phase _ _ _ _ _ _ Hwf) as Hoff. cbn in Hoff. subst off.
  destruct (ac_saveState_restore _ _ _ _ Hwf) as (_ & _ & H). apply H; by vm_compute.
Defined.

(** ** Aborting [startSlabRelease]

    When [shouldAbortFn] says so, the slab is unmarked but stays out of the
    allocated slabs: the class still answers for its allocations but never
    releases it again, and what was not carved of it is lost.  The next attempt
    to release it marks it, for good, and throws [std::runtime_error]. *)
Definition ex_aborted : result (Outcome * AllocationClass * Mem) :=
  startSlabRelease kRebalance (Some ex_slab) 0 [true] (s_ac ex_st) (s_mem ex_st).
Definition ex_again : result (Outcome * AllocationClass * Mem) :=
  '(_, ac, m) ← ex_aborted; startSlabRelease kRebalance (Some ex_slab) 0 [] ac m.
(** The exception, the slabs of the class, the length of its free list, its
    current slab, and the class and mark in the header of the slab. *)
Definition summary (r : result (Outcome * AllocationClass * Mem)) :=
  '(o, ac, m) ← r;
  Ok (match o with Raised e => Some e | _ => None end, allocatedSlabs_ ac ++ freeSlabs_ ac, size_ (freedAllocations_ ac),
      currSlab_ ac, classId (header_at 0 m), isMarkedForRelease (header_at 0 m)).
Lemma aborted_release_loses_slab :
  summary ex_aborted = Ok (Some SlabReleaseAborted, [], 1, 0, 0, false) ∧
  summary ex_again = Ok (Some RuntimeError, [], 1, 0, 0, true).
Proof. split; vm_compute; reflexivity. Qed.

(** The aborted release also puts the free list back without raising
    [canAllocate_], which a failed allocation may have lowered meanwhile: then
    [allocate] returns [nullptr] with a free allocation at hand, and a thread
    that tested the flag earlier fails the debug check of [allocateLocked]. *)
Definition ex_full : Sys :=
  default ex_init (sys_runb [OAddSlabAndAllocate ex_slab; OAllocate; OAllocate; OAllocate; OFree ex_slab;
    OStart kRebalance (Some ex_slab) 0; OStep false; OAllocate] ex_init).
Definition ex_hidden : result (Outcome * AllocationClass * Mem) :=
  r ← deref (s_rel ex_full);
  '(o, ac, m) ← startRelease_step true r (s_ac ex_full) (s_mem ex_full);
  match o with Running r => startRelease_step true r ac m | o => Ok (o, ac, m) end.
Lemma aborted_release_hides_free_allocs :
  ('(_, ac, m) ← ex_hidden; Ok (size_ (freedAllocations_ ac), canAllocate_ ac)) = Ok (1, false) ∧
  ('(_, ac, m) ← ex_hidden; '(p, _, _) ← allocate ac m; Ok p) = Ok None ∧
  ('(_, ac, m) ← ex_hidden; '(p, _, _) ← allocateLocked ac m; Ok p) = Undef.
Proof. split_and!; vm_compute; reflexivity. Qed.
