(* ===== verification/MemoryPool.v ===== *)
(** Memory pools ([allocator/memory/MemoryPool.h] and [.cpp], the pool
    statistics of [MemoryAllocatorStats.h]): allocation classes of increasing
    sizes over one slab allocator, a list of spare slabs, and the accounting of
    slabs and bytes against the size of the pool.

    Operations take the pool and the [Mem] that its classes share.  The counters
    are 64-bit (32-bit for the release counts) and wrap.  [startSlabRelease]
    is split where its class drops its lock, so that its steps may interleave
    with other operations; the result of [madvise] is an argument. *)
From S2P Require Import Prelude SlabAllocator PtrCompressor SList AllocationClass.

Abbreviation s8 := (swrap 8).

Record MemoryPool := mkPool {
  id_ : Z;
  maxSize_ : Z;
  currSlabAllocSize_ : Z;
  currAllocSize_ : Z;
  pool_freeSlabs_ : list Z;
  acSizes_ : list Z;
  ac_ : list AllocationClass;
  curSlabsAdvised_ : Z;
  nSlabResize_ : Z;
  nSlabRebalance_ : Z;
  nSlabReleaseAborted_ : Z;
}.
Implicit Types (pool : MemoryPool) (m : Mem).

Definition resize (size : Z) pool := mkPool (id_ pool) size (currSlabAllocSize_ pool) (currAllocSize_ pool)
  (pool_freeSlabs_ pool) (acSizes_ pool) (ac_ pool) (curSlabsAdvised_ pool)
  (nSlabResize_ pool) (nSlabRebalance_ pool) (nSlabReleaseAborted_ pool).
Definition with_slabAllocSize (f : Z → Z) pool := mkPool (id_ pool) (maxSize_ pool) (u64 (f (currSlabAllocSize_ pool)))
  (currAllocSize_ pool) (pool_freeSlabs_ pool) (acSizes_ pool) (ac_ pool) (curSlabsAdvised_ pool)
  (nSlabResize_ pool) (nSlabRebalance_ pool) (nSlabReleaseAborted_ pool).
Definition with_allocSize (f : Z → Z) pool := mkPool (id_ pool) (maxSize_ pool) (currSlabAllocSize_ pool)
  (u64 (f (currAllocSize_ pool))) (pool_freeSlabs_ pool) (acSizes_ pool) (ac_ pool) (curSlabsAdvised_ pool)
  (nSlabResize_ pool) (nSlabRebalance_ pool) (nSlabReleaseAborted_ pool).
Definition with_freeSlabs (l : list Z) pool := mkPool (id_ pool) (maxSize_ pool) (currSlabAllocSize_ pool)
  (currAllocSize_ pool) l (acSizes_ pool) (ac_ pool) (curSlabsAdvised_ pool)
  (nSlabResize_ pool) (nSlabRebalance_ pool) (nSlabReleaseAborted_ pool).
Definition with_class (i : nat) (ac : AllocationClass) pool := mkPool (id_ pool) (maxSize_ pool)
  (currSlabAllocSize_ pool) (currAllocSize_ pool) (pool_freeSlabs_ pool) (acSizes_ pool) (<[i := ac]> (ac_ pool))
  (curSlabsAdvised_ pool) (nSlabResize_ pool) (nSlabRebalance_ pool) (nSlabReleaseAborted_ pool).
Definition setNumSlabsAdvised (value : Z) pool := mkPool (id_ pool) (maxSize_ pool) (currSlabAllocSize_ pool)
  (currAllocSize_ pool) (pool_freeSlabs_ pool) (acSizes_ pool) (ac_ pool) value
  (nSlabResize_ pool) (nSlabRebalance_ pool) (nSlabReleaseAborted_ pool).
Definition count_release (nresize nrebalance naborted : Z) pool := mkPool (id_ pool) (maxSize_ pool)
  (currSlabAllocSize_ pool) (currAllocSize_ pool) (pool_freeSlabs_ pool) (acSizes_ pool) (ac_ pool)
  (curSlabsAdvised_ pool) (u32 (nSlabResize_ pool + nresize)) (u32 (nSlabRebalance_ pool + nrebalance))
  (u32 (nSlabReleaseAborted_ pool + naborted)).

(** ** Sizes *)
Definition getPoolAdvisedSize pool : Z := u64 (curSlabsAdvised_ pool * kSize).
Definition getPoolUsableSize pool : Z :=
  let advisedSize := getPoolAdvisedSize pool in
  if maxSize_ pool <=? advisedSize then 0 else maxSize_ pool - advisedSize.
Definition getCurrentUsedSize pool : Z :=
  u64 (currSlabAllocSize_ pool + Z.of_nat (length (pool_freeSlabs_ pool)) * kSize).
Definition overLimit pool : bool := maxSize_ pool <? u64 (getCurrentUsedSize pool + getPoolAdvisedSize pool).
Definition getUnAllocatedSlabMemory pool : Z :=
  let totalAllocSize := u64 (currSlabAllocSize_ pool + getPoolAdvisedSize pool) in
  if maxSize_ pool <? totalAllocSize then 0 else maxSize_ pool - totalAllocSize.
Definition mp_allSlabsAllocated pool : bool :=
  maxSize_ pool <? u64 (currSlabAllocSize_ pool + getPoolAdvisedSize pool + kSize).
Definition getNumClassId pool : Z := Z.of_nat (length (acSizes_ pool)).

(** ** Construction *)
(** [std::is_sorted] and the absence of [std::adjacent_find]. *)
Fixpoint is_sorted (l : list Z) : bool :=
  match l with
  | x :: (y :: _) as l' => (x <=? y) && is_sorted l'
  | _ => true
  end.
Fixpoint adjacent_equal (l : list Z) : bool :=
  match l with
  | x :: (y :: _) as l' => (x =? y) || adjacent_equal l'
  | _ => false
  end.
Definition class_matches (sz : Z) (ac : AllocationClass) : bool :=
  (sz =? allocationSize_ ac) && negb (sz <? kMinAllocSize) && negb (kSize <? sz).
Definition mp_checkState pool (sa : SlabAllocator) : result unit :=
  _ ← throw_if (id_ pool <? 0) InvalidArgument;
  _ ← throw_if (currSlabAllocSize_ pool <? currAllocSize_ pool) InvalidArgument;
  _ ← throw_if (bool_decide (acSizes_ pool = []) || bool_decide (ac_ pool = [])) InvalidArgument;
  _ ← throw_if (negb (length (acSizes_ pool) =? length (ac_ pool))%nat) InvalidArgument;
  _ ← throw_if (negb (is_sorted (acSizes_ pool))) InvalidArgument;
  _ ← throw_if (adjacent_equal (acSizes_ pool)) InvalidArgument;
  _ ← throw_if (negb (forallb (λ '(sz, ac), class_matches sz ac) (zip (acSizes_ pool) (ac_ pool)))) InvalidArgument;
  throw_if (negb (forallb (isValidSlab sa) (pool_freeSlabs_ pool))) InvalidArgument.

Fixpoint createClasses_loop (id pid : Z) (sizes : list Z) (sa : SlabAllocator) : result (list AllocationClass) :=
  match sizes with
  | [] => Ok []
  | size :: sizes =>
      _ ← throw_if ((size <? kMinAllocSize) || (kSize <? size)) InvalidArgument;
      ac ← AllocationClass_new id pid size sa;
      acs ← createClasses_loop (s8 (id + 1)) pid sizes sa;
      Ok (ac :: acs)
  end.
Definition createAllocationClasses (pid : Z) (sizes : list Z) (sa : SlabAllocator) : result (list AllocationClass) :=
  acs ← createClasses_loop 0 pid sizes sa;
  _ ← xdcheck (is_sorted (allocationSize_ <$> acs));
  Ok acs.
(** [allocSizes]: the elements of the [std::set], in order. *)
Definition MemoryPool_new (id poolSize : Z) (allocSizes : list Z) (sa : SlabAllocator) : result MemoryPool :=
  ac ← createAllocationClasses id allocSizes sa;
  let pool := mkPool id poolSize 0 0 [] allocSizes ac 0 0 0 0 in
  _ ← mp_checkState pool sa;
  Ok pool.

(** ** Finding a class *)
(** [std::lower_bound] by halving. *)
Fixpoint lower_bound_loop (fuel : nat) (l : list Z) (first len : nat) (v : Z) : result nat :=
  match fuel with
  | O => Undef
  | S fuel =>
      if (len =? 0)%nat then Ok first
      else
        let half := (len / 2)%nat in
        x ← deref (l !! (first + half)%nat);
        if x <? v then lower_bound_loop fuel l (S (first + half)) (len - half - 1) v
        else lower_bound_loop fuel l first half v
  end.
Definition lower_bound (l : list Z) (v : Z) : result nat := lower_bound_loop (S (length l)) l 0 (length l) v.

Definition getAllocationClassId (size : Z) pool : result Z :=
  back ← deref (last (acSizes_ pool));
  _ ← throw_if ((back <? size) || (size =? 0)) InvalidArgument;
  idx ← lower_bound (acSizes_ pool) size;
  _ ← xdcheck (negb (idx =? length (acSizes_ pool))%nat);
  _ ← xdcheck (idx <? length (ac_ pool))%nat;
  Ok (s8 (Z.of_nat idx)).
Definition getAllocationClassId_memory (memory : Z) pool m : result Z :=
  match getSlabHeader (m_sa m) memory with
  | None => Throw InvalidArgument
  | Some header =>
      let hd := headers (m_sa m) header in
      if negb (poolId hd =? id_ pool) then Throw InvalidArgument
      else if classId hd =? kInvalidClassId then Throw InvalidArgument
      else if (s8 (Z.of_nat (length (ac_ pool))) <=? classId hd) || (classId hd <? 0) then Throw RuntimeError
      else Ok (classId hd)
  end.

(** [ac_[cid]]: the class and its place; outside the vector is undefined. *)
Definition class_at (cid : Z) pool : result (nat * AllocationClass) :=
  if cid <? 0 then Undef
  else ac ← deref (ac_ pool !! Z.to_nat cid); Ok (Z.to_nat cid, ac).
Definition getAllocationClassFor_size (size : Z) pool : result (nat * AllocationClass) :=
  cid ← getAllocationClassId size pool; class_at cid pool.
Definition getAllocationClassFor_memory (memory : Z) pool m : result (nat * AllocationClass) :=
  cid ← getAllocationClassId_memory memory pool m; class_at cid pool.
Definition getAllocationClassFor (cid : Z) pool : result (nat * AllocationClass) :=
  if cid <? s8 (Z.of_nat (length (ac_ pool))) then class_at cid pool else Throw InvalidArgument.

Definition getAllocationClass (cid : Z) pool : result AllocationClass := '(_, ac) ← getAllocationClassFor cid pool; Ok ac.
Definition mp_forEachAllocation (tryLock : bool) (cid slab : Z) (callback : AllocInfo → Z → bool) pool m
    : result (SlabIterationStatus * list Z) :=
  '(_, allocClass) ← getAllocationClassFor cid pool;
  Ok (forEachAllocation tryLock slab callback allocClass m).

(** ** Allocating and freeing *)
Definition getSlabLocked pool m : result (option Z * MemoryPool * Mem) :=
  if mp_allSlabsAllocated pool then Ok (None, pool, m)
  else
    let pool := with_slabAllocSize (λ n, n + kSize) pool in
    match last (pool_freeSlabs_ pool) with
    | Some slab => Ok (Some slab, with_freeSlabs (removelast (pool_freeSlabs_ pool)) pool, m)
    | None =>
        '(slab, sa) ← makeNewSlab (id_ pool) (m_sa m);
        let pool := if is_null slab then with_slabAllocSize (λ n, n - kSize) pool else pool in
        Ok (slab, pool, with_sa sa m)
    end.

(** The first attempt, without the pool's lock. *)
Definition allocate_fast (size : Z) pool m : result (option Z * MemoryPool * Mem) :=
  '(i, ac) ← getAllocationClassFor_size size pool;
  '(alloc, ac, m) ← AllocationClass.allocate ac m;
  let pool := with_class i ac pool in
  _ ← xdcheck (size <=? allocationSize_ ac);
  Ok (alloc, if is_null alloc then pool else with_allocSize (λ n, n + allocationSize_ ac) pool, m).
(** The second one, under the lock. *)
Definition allocate_slow (size : Z) pool m : result (option Z * MemoryPool * Mem) :=
  '(i, ac) ← getAllocationClassFor_size size pool;
  '(alloc, ac, m) ← AllocationClass.allocate ac m;
  let pool := with_class i ac pool in
  if negb (is_null alloc) then Ok (alloc, with_allocSize (λ n, n + allocationSize_ ac) pool, m)
  else
    '(slab, pool, m) ← getSlabLocked pool m;
    match slab with
    | None => Ok (None, pool, m)
    | Some slab =>
        '(alloc, ac, m) ← addSlabAndAllocate slab ac m;
        _ ← xdcheck (negb (is_null alloc));
        Ok (alloc, with_allocSize (λ n, n + allocationSize_ ac) (with_class i ac pool), m)
    end.
Definition mp_allocate (size : Z) pool m : result (option Z * MemoryPool * Mem) :=
  '(alloc, pool, m) ← allocate_fast size pool m;
  if negb (is_null alloc) then Ok (alloc, pool, m)
  else if mp_allSlabsAllocated pool then Ok (None, pool, m)
  else allocate_slow size pool m.
Definition allocateZeroedSlab pool m : result (option Z * MemoryPool * Mem) := mp_allocate kSize pool m.

Definition mp_free (alloc : Z) pool m : result (MemoryPool * Mem) :=
  '(i, ac) ← getAllocationClassFor_memory alloc pool m;
  '(ac, m) ← AllocationClass.free alloc ac m;
  Ok (with_allocSize (λ n, n - allocationSize_ ac) (with_class i ac pool), m).

(** ** Releasing slabs *)
(** [memset] of a slab, as far as the words of its allocations are known. *)
Definition zero_slab (slab : Z) m : Mem :=
  with_hooks (map_imap (λ p c, Some (if getSlabForMemory p =? slab then 0 else c)) (m_hooks m)) m.

Definition releaseSlab (mode : SlabReleaseMode) (slab : Z) (zeroOnRelease : bool) (receiver : Z) (madviseOk : bool) pool m
    : result (MemoryPool * Mem) :=
  let m := if zeroOnRelease then zero_slab slab m else m in
  match mode with
  | kResize =>
      sa ← freeSlab slab (m_sa m);
      Ok (count_release 1 0 0 (with_slabAllocSize (λ n, n - kSize) pool), with_sa sa m)
  | kAdvise =>
      '(b, sa) ← adviseSlab madviseOk slab (m_sa m);
      let pool := if b : bool then setNumSlabsAdvised (u64 (curSlabsAdvised_ pool + 1)) pool
                  else with_freeSlabs (pool_freeSlabs_ pool ++ [slab]) pool in
      Ok (with_slabAllocSize (λ n, n - kSize) pool, with_sa sa m)
  | kRebalance =>
      if negb (receiver =? kInvalidClassId) then
        '(i, ac) ← getAllocationClassFor receiver pool;
        '(ac, m) ← addSlab slab ac m;
        Ok (count_release 0 1 0 (with_class i ac pool), m)
      else
        Ok (count_release 0 1 0 (with_slabAllocSize (λ n, n - kSize) (with_freeSlabs (pool_freeSlabs_ pool ++ [slab]) pool)), m)
  end.

Fixpoint reclaim_loop (n : nat) (numReclaimed : Z) pool m : result (Z * MemoryPool * Mem) :=
  match n with
  | O => Ok (numReclaimed, pool, m)
  | S n =>
      '(slab, sa) ← reclaimSlab (id_ pool) (m_sa m);
      let m := with_sa sa m in
      match slab with
      | None => Ok (numReclaimed, pool, m)
      | Some slab =>
          header ← deref (getSlabHeaderOfSlab sa slab);
          _ ← xdcheck (poolId (headers sa header) =? id_ pool);
          reclaim_loop n (u32 (numReclaimed + 1))
            (setNumSlabsAdvised (u64 (curSlabsAdvised_ pool - 1)) (with_freeSlabs (pool_freeSlabs_ pool ++ [slab]) pool)) m
      end
  end.
Definition reclaimSlabsAndGrow (numSlabs : Z) pool m : result (Z * MemoryPool * Mem) :=
  reclaim_loop (Z.to_nat numSlabs) 0 pool m.

Definition releaseFromFreeSlabs pool : result (SlabReleaseContext * MemoryPool) :=
  match last (pool_freeSlabs_ pool) with
  | None => Throw InvalidArgument
  | Some slab =>
      Ok (releasedContext slab (id_ pool) kInvalidClassId kResize, with_freeSlabs (removelast (pool_freeSlabs_ pool)) pool)
  end.

Definition startRelease_check (victim receiver : Z) (mode : SlabReleaseMode) : result unit :=
  _ ← throw_if (negb (receiver =? kInvalidClassId) && match mode with kRebalance => false | _ => true end) InvalidArgument;
  throw_if ((victim =? kInvalidClassId) && match mode with kResize => false | _ => true end) InvalidArgument.
(** What happens before the class drops its lock for the first time. *)
Definition mp_startRelease_begin (victim receiver : Z) (mode : SlabReleaseMode) (hint : option Z) (rnd : Z) pool m
    : result (Outcome * MemoryPool * Mem) :=
  _ ← startRelease_check victim receiver mode;
  if victim =? kInvalidClassId then '(ctx, pool) ← releaseFromFreeSlabs pool; Ok (Returned ctx, pool, m)
  else
    '(i, ac) ← getAllocationClassFor victim pool;
    '(o, ac, m) ← startRelease_begin mode hint rnd ac m;
    Ok (o, with_class i ac pool, m).
Definition mp_startRelease_step (victim : Z) (abort : bool) (r : Release) pool m : result (Outcome * MemoryPool * Mem) :=
  '(i, ac) ← getAllocationClassFor victim pool;
  '(o, ac, m) ← startRelease_step abort r ac m;
  Ok (o, with_class i ac pool, m).
(** What happens when the class has answered. *)
Definition mp_startRelease_end (receiver : Z) (zeroOnRelease madviseOk : bool) (o : Outcome) pool m
    : result (Outcome * MemoryPool * Mem) :=
  match o with
  | Returned context =>
      let context := setZeroOnRelease zeroOnRelease (setReceiver receiver context) in
      if isReleased context then
        '(pool, m) ← releaseSlab (mode_ context) (slab_ context) zeroOnRelease receiver madviseOk pool m;
        Ok (Returned context, pool, m)
      else Ok (Returned context, pool, m)
  | _ => Ok (o, pool, m)
  end.
(** The whole function, when no other operation interleaves. *)
Definition mp_startSlabRelease (victim receiver : Z) (mode : SlabReleaseMode) (hint : option Z) (rnd : Z)
    (zeroOnRelease madviseOk : bool) (aborts : list bool) pool m : result (Outcome * MemoryPool * Mem) :=
  _ ← startRelease_check victim receiver mode;
  '(o, pool, m) ←
    (if victim =? kInvalidClassId then '(ctx, pool) ← releaseFromFreeSlabs pool; Ok (Returned ctx, pool, m)
     else
       '(i, ac) ← getAllocationClassFor victim pool;
       '(o, ac, m) ← AllocationClass.startSlabRelease mode hint rnd aborts ac m;
       Ok (o, with_class i ac pool, m));
  mp_startRelease_end receiver zeroOnRelease madviseOk o pool m.

Definition mp_abortSlabRelease (context : SlabReleaseContext) pool m : result (MemoryPool * Mem) :=
  '(i, ac) ← getAllocationClassFor (victim_ context) pool;
  '(ac, m) ← AllocationClass.abortSlabRelease context ac m;
  Ok (count_release 0 0 1 (with_class i ac pool), m).

(** [false]: the class is still waiting for allocations to be freed. *)
Definition mp_completeSlabRelease (context : SlabReleaseContext) (madviseOk : bool) pool m
    : result (bool * MemoryPool * Mem) :=
  if isReleased context then Ok (true, pool, m)
  else
    _ ← throw_if (negb (receiver_ context =? kInvalidClassId) &&
                  match mode_ context with kRebalance => false | _ => true end) InvalidArgument;
    zeroOnRelease ← deref (zeroOnRelease_ context);
    '(i, ac) ← getAllocationClassFor (victim_ context) pool;
    '(b, ac, m) ← AllocationClass.completeSlabRelease context ac m;
    let pool := with_class i ac pool in
    if negb b then Ok (false, pool, m)
    else
      header ← deref (header_of (slab_ context) m);
      let hd := header_at header m in
      _ ← xdcheck (poolId hd =? id_ pool);
      _ ← xdcheck (classId hd =? kInvalidClassId);
      _ ← xdcheck (allocSize hd =? 0);
      '(pool, m) ← releaseSlab (mode_ context) (slab_ context) zeroOnRelease (receiver_ context) madviseOk pool m;
      Ok (true, pool, m).

(** ** Statistics *)
Record MPStats := mkMPStats {
  classIds : gset Z; acStats : gmap Z ACStats; mps_freeSlabs : Z; slabsUnAllocated : Z;
  numSlabResize : Z; numSlabRebalance : Z; numSlabAdvise : Z;
}.
Definition mp_getStats pool : MPStats :=
  let availableMemory := getUnAllocatedSlabMemory pool in
  let nfree := Z.of_nat (length (pool_freeSlabs_ pool)) in
  mkMPStats (list_to_set (classId_ <$> ac_ pool))
    (foldr (λ ac mp, <[classId_ ac := getStats ac]> mp) ∅ (ac_ pool))
    nfree (if 0 <? availableMemory then u64 (availableMemory / kSize - nfree) else 0)
    (nSlabResize_ pool) (nSlabRebalance_ pool) (curSlabsAdvised_ pool).
Definition allocatedSlabs (s : MPStats) : Z :=
  u64 (s64 (map_fold (λ _ a total, s64 (total + totalSlabs a)) 0 (acStats s) + mps_freeSlabs s)).
Definition numFreeAllocs (s : MPStats) : Z := map_fold (λ _ a n, u64 (n + st_freeAllocs a)) 0 (acStats s).
Definition freeMemory (s : MPStats) : Z :=
  u64 (map_fold (λ _ a ret, u64 (ret + getTotalFreeMemory a)) 0 (acStats s) +
       u64 (slabsUnAllocated s + mps_freeSlabs s) * kSize).

(** ** Saved state *)
Record MemoryPoolObject := mkMPObject {
  o_id : Z; o_maxSize : Z; o_currSlabAllocSize : Z; o_currAllocSize : Z; o_acSizes : list Z;
  o_ac : list AllocationClassObject; o_numSlabResize : Z; o_numSlabRebalance : Z;
  o_poolFreeSlabIdxs : list Z; o_numSlabsAdvised : Z;
}.
Definition mp_saveState pool m : result MemoryPoolObject :=
  _ ← throw_if (ownsMemory (m_sa m)) LogicError;
  idxs ← mapM (slabIdx (m_sa m)) (pool_freeSlabs_ pool);
  acs ← mapM (λ ac, ac_saveState ac m) (ac_ pool);
  Ok (mkMPObject (id_ pool) (s64 (maxSize_ pool)) (s64 (currSlabAllocSize_ pool)) (s64 (currAllocSize_ pool))
    (acSizes_ pool) acs (nSlabResize_ pool) (nSlabRebalance_ pool) (s32 <$> idxs) (s64 (curSlabsAdvised_ pool))).
Definition createMcSizesFromSerialized (o : MemoryPoolObject) : list Z := u32 <$> o_acSizes o.
Definition createMcFromSerialized (o : MemoryPoolObject) (pid : Z) m : result (list AllocationClass) :=
  mapM (λ oc, AllocationClass_restore oc pid m) (o_ac o).
Definition MemoryPool_restore (o : MemoryPoolObject) m : result MemoryPool :=
  acs ← createMcFromSerialized o (o_id o) m;
  _ ← throw_if (ownsMemory (m_sa m)) LogicError;
  let slab_at (i : Z) := getSlabForIdx (slabMemoryStart (m_sa m)) (u32 i) in
  let pool := mkPool (o_id o) (u64 (o_maxSize o)) (u64 (o_currSlabAllocSize o)) (u64 (o_currAllocSize o))
    (slab_at <$> o_poolFreeSlabIdxs o) (createMcSizesFromSerialized o) acs (u64 (o_numSlabsAdvised o))
    (u32 (o_numSlabResize o)) (u32 (o_numSlabRebalance o)) 0 in
  _ ← mp_checkState pool (m_sa m);
  Ok pool.
