(* ===== verification/PoolSlabs.v ===== *)
(** Slabs changing hands: what [makeNewSlab], [freeSlab], [adviseSlab] and
    [reclaimSlab] do to the slabs that memory pools hold, in one form
    ([sa_step]), and what a pool relies on while others use the slab allocator
    ([pool_env]). *)
From S2P Require Import Prelude SlabAllocator PtrCompressor SList AllocationClass AllocationFrame.

Definition header_at_slab (sa : SlabAllocator) (s : Z) : SlabHeader := headers sa (slabIndex sa s).

(** [add] comes into use for pool [id], [rem] goes out of use. *)
Record sa_step (id : Z) (sa sa' : SlabAllocator) (add rem : option Z) : Prop := {
  t_wf : sa_wf sa';
  t_start : slabMemoryStart sa' = slabMemoryStart sa;
  t_use s : in_use sa' s ↔ (in_use sa s ∧ rem ≠ Some s) ∨ add = Some s;
  t_valid s : isValidSlab sa s = true → isValidSlab sa' s = true;
  t_other s : isValidSlab sa' s = true → add ≠ Some s → rem ≠ Some s →
    isValidSlab sa s = true ∧ header_at_slab sa' s = header_at_slab sa s;
  t_add s : add = Some s → ¬ in_use sa s ∧ header_at_slab sa' s = SlabHeader_pid id;
  t_rem s : rem = Some s → poolId (header_at_slab sa' s) = kInvalidPoolId;
  t_end : getSlabMemoryEnd sa' = getSlabMemoryEnd sa;
}.

Lemma makeNewSlabImpl_valid sa r sa' : sa_wf sa → makeNewSlabImpl sa = Ok (r, sa') →
  (∀ s, isValidSlab sa s = true → isValidSlab sa' s = true) ∧
  (∀ s, isValidSlab sa' s = true → isValidSlab sa s = true ∨ r = Some s) ∧
  (r = None → freeSlabs sa' = freeSlabs sa ∧ allMemorySlabbed sa' = allMemorySlabbed sa) ∧
  getSlabMemoryEnd sa' = getSlabMemoryEnd sa.
Proof.
  intros Hwf. unfold makeNewSlabImpl. destruct (canAllocate sa); cbn [negb]; [|intros [= <- <-]; naive_solver].
  destruct (last (freeSlabs sa)) eqn:El; [intros [= <- <-]; naive_solver|].
  destruct (nextSlabAllocation sa mod kSize =? 0); [|done]. res_simpl. destruct (allMemorySlabbed sa) eqn:Ea.
  { intros [= <- <-]. split; [done|]. split; [by left|]. split; [|done]. intros _. split; [done|]. by rewrite <- Ea. }
  intros [= <- <-]. apply last_None in El. destruct (fresh_slab_wf sa Hwf El Ea) as (_ & _ & Hiff).
  split; [|split; [|done]]; intros s; rewrite Hiff; [by left|]. intros [|]; [by left|]. right. congruence.
Qed.

Lemma makeNewSlab_step id sa : sa_wf sa → 0 ≤ id < Z.of_nat kMaxPools →
  ∃ r sa', makeNewSlab id sa = Ok (r, sa') ∧ sa_step id sa sa' r None ∧
    (r = None ↔ freeSlabs sa = [] ∧ allMemorySlabbed sa = true) ∧
    (r = None → freeSlabs sa' = freeSlabs sa ∧ allMemorySlabbed sa' = allMemorySlabbed sa).
Proof.
  intros Hwf Hid. unfold makeNewSlab.
  destruct (makeNewSlabImpl_spec sa Hwf) as (r & sa1 & E & Hwf1 & Hh & Hst & Hnone & Hr).
  destruct (makeNewSlabImpl_valid _ _ _ Hwf E) as (Hv1 & Hv2 & Hno & Hend). rewrite E. res_simpl.
  assert (∀ s, slabIndex sa1 s = slabIndex sa s) as Ei by (intros s; unfold slabIndex; by rewrite Hst).
  destruct r as [slab|].
  - destruct Hr as (Hnu & Hna & Hval & Hiff).
    destruct (claim_slab id slab sa1 Hwf1 Hid Hval) as (sa' & -> & Hview & Hhdr & Hother & _).
    exists (Some slab), sa'. split; [done|]. split; [|done].
    assert (∀ s, isValidSlab sa' s = isValidSlab sa1 s) as Ev by (intros s; by apply slab_view_valid).
    split.
    + by apply (slab_view_wf sa1).
    + rewrite <- Hst. by injection Hview.
    + intros s. rewrite (slab_view_in_use sa' sa1 s Hview), Hiff. naive_solver.
    + intros s Hs. rewrite Ev. by apply Hv1.
    + intros s Hs Hne _. rewrite Ev in Hs. destruct (Hv2 s Hs) as [?|?]; [|done]. split; [done|].
      unfold header_at_slab. rewrite Hother by (done || congruence). by rewrite Hh, Ei.
    + intros s [= <-]. done.
    + done.
    + rewrite <- Hend. unfold getSlabMemoryEnd. injection Hview. congruence.
  - exists None, sa1. split; [done|]. split; [|done]. split; try done.
    + intros s. rewrite Hr. naive_solver.
    + intros s Hs _ _. destruct (Hv2 s Hs) as [?|?]; [|done]. split; [done|]. unfold header_at_slab. by rewrite Hh, Ei.
Qed.

Lemma reclaimSlab_step id sa : sa_wf sa → 0 ≤ id < Z.of_nat kMaxPools →
  ∃ r sa', reclaimSlab id sa = Ok (r, sa') ∧ sa_step id sa sa' r None ∧ r = head (advisedSlabs sa).
Proof.
  intros Hwf Hid. unfold reclaimSlab. destruct (advisedSlabs sa) as [|slab rest] eqn:Hadv.
  { exists None, sa. split; [done|]. split; [|done]. split; try done. intros s. naive_solver. }
  pose proof (wf_nodup _ Hwf) as Hnd. pose proof (wf_valid _ Hwf) as Hv. rewrite Hadv in *.
  rewrite <- Permutation_middle in Hnd, Hv. apply NoDup_cons in Hnd as [Hnotin Hnd].
  apply Forall_cons in Hv as [Hslab Hv]. rewrite elem_of_app in Hnotin.
  assert (sa_wf (set_advised rest sa)) as Hwf1 by (by destruct Hwf; split).
  destruct (claim_slab id slab _ Hwf1 Hid Hslab) as (sa' & -> & Hview & Hhdr & Hother & _).
  exists (Some slab), sa'. split; [done|]. split; [|done].
  assert (∀ s, isValidSlab sa' s = isValidSlab sa s) as Ev by (intros s; by apply (slab_view_valid _ (set_advised rest sa))).
  split.
  - by eapply slab_view_wf.
  - by injection Hview.
  - intros s. rewrite (slab_view_in_use _ _ s Hview). unfold in_use. rewrite Hadv, elem_of_cons.
    change (isValidSlab (set_advised rest sa) s) with (isValidSlab sa s).
    change (freeSlabs (set_advised rest sa)) with (freeSlabs sa). cbn [advisedSlabs set_advised].
    destruct (decide (s = slab)) as [->|]; naive_solver.
  - intros s. by rewrite Ev.
  - intros s Hs Hne _. rewrite Ev in Hs. split; [done|]. unfold header_at_slab. by rewrite Hother by (done || congruence).
  - intros s [= <-]. split; [|done]. intros (_ & _ & Hn). apply Hn. rewrite Hadv. by left.
  - done.
  - unfold getSlabMemoryEnd. injection Hview. cbn. congruence.
Qed.

Lemma freeSlab_step id slab sa : sa_wf sa → in_use sa slab → 0 ≤ poolId (header_at_slab sa slab) < Z.of_nat kMaxPools →
  ∃ sa', freeSlab slab sa = Ok sa' ∧ sa_step id sa sa' None (Some slab).
Proof.
  intros Hwf Huse Hpid. pose proof Huse as (Hval & Hnf & Hna). unfold freeSlab.
  rewrite header_of_valid, bool_decide_true by done. res_simpl.
  unfold header_at_slab in Hpid. destruct (set_pool_size_ok _ (λ n, n - kSize) sa Hpid) as (sa1 & -> & Hv1 & Hh & _ & _). res_simpl.
  eexists; split; [done|]. set (sa2 := set_free _ true sa1).
  assert (freeSlabs sa1 = freeSlabs sa ∧ advisedSlabs sa1 = advisedSlabs sa) as [Hf1 Ha1] by (by injection Hv1).
  assert (∀ s, isValidSlab sa2 s = isValidSlab sa s ∧ slabIndex sa2 s = slabIndex sa s) as Hsame
    by (intros s; apply (slab_view_valid sa1 sa s Hv1)).
  split.
  - apply (slab_view_wf sa2); [done|]. pose proof (slab_view_wf sa sa1 (eq_sym Hv1) Hwf) as []. split; cbn; try done.
    + rewrite Hf1, Ha1. by apply push_list_nodup; [apply Hwf|..].
    + rewrite Hf1, Ha1. apply push_list_forall; [|by rewrite (proj1 (Hsame slab))].
      eapply Forall_impl; [apply Hwf|]. intros s Hs. by rewrite (proj1 (Hsame s)).
  - by injection Hv1.
  - intros s. unfold in_use. change (isValidSlab (upd_header _ _ sa2) s) with (isValidSlab sa2 s).
    rewrite (proj1 (Hsame s)). cbn. rewrite Hf1, Ha1, elem_of_app, list_elem_of_singleton.
    destruct (decide (s = slab)); naive_solver.
  - intros s. change (isValidSlab (upd_header _ _ sa2) s) with (isValidSlab sa2 s). by rewrite (proj1 (Hsame s)).
  - intros s. change (isValidSlab (upd_header _ _ sa2) s) with (isValidSlab sa2 s). rewrite (proj1 (Hsame s)).
    intros Hs _ Hne. split; [done|]. unfold header_at_slab.
    change (slabIndex (upd_header _ _ sa2) s) with (slabIndex sa2 s). rewrite (proj2 (Hsame s)). cbn.
    rewrite decide_False, Hh; [done|]. intros E%(slabIndex_inj sa Hwf); [|done..]. by subst.
  - done.
  - intros s [= <-]. unfold header_at_slab. change (slabIndex (upd_header _ _ sa2) slab) with (slabIndex sa2 slab).
    rewrite (proj2 (Hsame slab)). cbn. by rewrite decide_True.
  - unfold getSlabMemoryEnd. injection Hv1. cbn. congruence.
Qed.

Lemma set_unset_advised hd : sound hd → setAdvised false (setAdvised true hd) = hd.
Proof.
  intros [Hf Ha]. destruct hd as [p c fl z]. unfold sound, isAdvised, headerIsFlagSet in Ha. cbn in Hf, Ha.
  change (u8 (Z.shiftl 1 1)) with (Z.shiftl 1 1) in Ha. rewrite land_bit_nonzero in Ha by done.
  unfold setAdvised, headerUnSetFlag, headerSetFlag. cbn. f_equal.
  change (u8 (Z.shiftl 1 1)) with (Z.shiftl 1 1). change (Z.lor fl (Z.shiftl 1 1)) with (Z.setbit fl 1).
  replace (Z.land (Z.setbit fl 1) _) with (Z.clearbit (Z.setbit fl 1) 1);
    [|rewrite <- (land_clear_bit 8); [done|done|by apply fits_setbit]].
  apply Z.bits_inj'. intros n Hn. rewrite Z.clearbit_eqb, Z.setbit_eqb by done.
  destruct (Z.eqb_spec 1 n) as [<-|]; [by rewrite Ha, andb_false_r|by rewrite andb_true_r].
Qed.

Lemma adviseSlab_step id ok slab sa : sa_wf sa → in_use sa slab → sound (header_at_slab sa slab) →
  ∃ b sa', adviseSlab ok slab sa = Ok (b, sa') ∧ sa_step id sa sa' None (if b : bool then Some slab else None).
Proof.
  intros Hwf Huse Hsd. pose proof Huse as (Hval & Hnf & Hna). unfold adviseSlab. rewrite header_of_valid by done.
  cbn [pretendMadvise upd_header]. destruct (ok || pretendMadvise sa).
  - eexists true, _. split; [done|]. set (sa2 := set_advised _ _). split.
    + apply (slab_view_wf sa2); [done|]. destruct Hwf; split; cbn; try done; [by apply push_list_nodup|by apply push_list_forall].
    + done.
    + intros s. unfold in_use. change (isValidSlab (upd_header _ _ sa2) s) with (isValidSlab sa s). cbn.
      rewrite elem_of_app, list_elem_of_singleton. destruct (decide (s = slab)); naive_solver.
    + done.
    + intros s Hs _ Hne. split; [done|]. unfold header_at_slab. change (slabIndex (upd_header _ _ sa2) s) with (slabIndex sa s). cbn.
      assert (slabIndex sa s ≠ slabIndex sa slab) by (intros E%(slabIndex_inj sa Hwf); [by subst|done..]).
      by rewrite !decide_False by done.
    + done.
    + intros s [= <-]. unfold header_at_slab. change (slabIndex (upd_header _ _ sa2) slab) with (slabIndex sa slab). cbn.
      by rewrite !decide_True.
    + done.
  - eexists false, _. split; [done|]. set (sa2 := upd_header _ _ (upd_header _ _ sa)). split; try done.
    + by apply (slab_view_wf sa).
    + intros s. change (in_use sa2 s) with (in_use sa s). naive_solver.
    + intros s Hs _ _. split; [done|]. unfold header_at_slab. change (slabIndex sa2 s) with (slabIndex sa s). cbn.
      destruct (decide _) as [->|]; [|done]. rewrite decide_True by done. by apply set_unset_advised.
Qed.

(** Slabs out of use belong to no pool. *)
Definition idle_clean (sa : SlabAllocator) : Prop :=
  ∀ s, isValidSlab sa s = true → ¬ in_use sa s → poolId (header_at_slab sa s) = kInvalidPoolId.
Lemma sa_step_idle id sa sa' add rem : sa_step id sa sa' add rem → idle_clean sa → idle_clean sa'.
Proof.
  intros [T1 T2 T3 T4 T5 T6 T7 T8] Hid s Hv Hn. destruct (decide (rem = Some s)) as [Hr|Hr]; [by apply T7|].
  destruct (decide (add = Some s)) as [Ha|Ha]; [destruct Hn; apply T3; by right|].
  destruct (T5 s Hv Ha Hr) as [Hv' ->]. apply Hid; [done|]. intros Hu. apply Hn, T3. by left.
Qed.
Lemma class_step_idle ac m m' join leave : class_step ac m m' join leave → idle_clean (m_sa m) → idle_clean (m_sa m').
Proof.
  intros [V _ P _ _ _ _ _ _] Hid s Hv Hn. destruct (slab_view_valid _ _ s V) as [Ev Ei].
  unfold header_at_slab. rewrite Ei, P. apply Hid; [by rewrite <- Ev|]. by rewrite <- (slab_view_in_use _ _ s V).
Qed.

(** ** What pool [id] relies on *)
Definition of_pool (id : Z) (sa : SlabAllocator) (s : Z) : Prop := isValidSlab sa s = true ∧ poolId (header_at_slab sa s) = id.
Record pool_env (id : Z) (m m' : Mem) : Prop := {
  pe_sa : sa_wf (m_sa m');
  pe_idle : idle_clean (m_sa m) → idle_clean (m_sa m');
  pe_start : slabMemoryStart (m_sa m') = slabMemoryStart (m_sa m);
  pe_ours s : of_pool id (m_sa m) s ↔ of_pool id (m_sa m') s;
  pe_headers s : of_pool id (m_sa m) s → header_at_slab (m_sa m') s = header_at_slab (m_sa m) s;
  pe_use s : of_pool id (m_sa m) s → in_use (m_sa m) s → in_use (m_sa m') s;
  pe_hooks x : of_pool id (m_sa m) (getSlabForMemory x) → m_hooks m' !! x = m_hooks m !! x;
  pe_end : getSlabMemoryEnd (m_sa m') = getSlabMemoryEnd (m_sa m);
}.
Lemma pool_env_refl id m : sa_wf (m_sa m) → pool_env id m m.
Proof. by split. Qed.
Lemma pool_env_trans id m1 m2 m3 : pool_env id m1 m2 → pool_env id m2 m3 → pool_env id m1 m3.
Proof.
  intros [A1 A0 A2 A3 A4 A5 A6 A7] [B1 B0 B2 B3 B4 B5 B6 B7]. split.
  - done.
  - intros H. by apply B0, A0.
  - congruence.
  - intros s. by rewrite A3.
  - intros s Hs. rewrite B4, A4; [done|done|by apply A3].
  - intros s Hs Hu. apply B5; [by apply A3|by apply A5].
  - intros x Hx. rewrite B6, A6; [done|done|by apply A3].
  - congruence.
Qed.
Lemma pool_env_class id m m' ac : pool_env id m m' → poolId_ ac = id → env_step ac m m'.
Proof.
  intros [H1 _ H2 H3 H4 H5 H6 _] <-.
  assert (∀ s, slabIndex (m_sa m') s = slabIndex (m_sa m) s) as Ei by (intros s; unfold slabIndex; by rewrite H2).
  assert (∀ s, is_ours ac (m_sa m) s → of_pool (poolId_ ac) (m_sa m) s) as Ho by (by intros s (? & _ & ?)).
  split; [done|done| | |].
  - intros s. split; intros (Hv & Hc & Hp).
    + assert (of_pool (poolId_ ac) (m_sa m) s) as Hs by done. pose proof (H4 s Hs) as E. apply H3 in Hs as [? ?].
      unfold header_at_slab in E. split; [done|]. split; [by rewrite E|done].
    + assert (of_pool (poolId_ ac) (m_sa m) s) as Hs by (by apply H3). pose proof (H4 s Hs) as E. destruct Hs as [? ?].
      unfold header_at_slab in E. split; [done|]. split; [by rewrite <- E|done].
  - intros s Hs%Ho. apply H4 in Hs. unfold header_at_slab in Hs. by rewrite Ei in Hs.
  - intros x Hx%Ho. by apply H6.
Qed.

(** Steps of the slab allocator and of classes are steps of the environment of
    the other pools. *)
Lemma sa_step_env id id' m sa' add rem : sa_step id (m_sa m) sa' add rem → sa_wf (m_sa m) → id' ≠ id → 0 ≤ id' →
  (∀ s, rem = Some s → poolId (header_at_slab (m_sa m) s) = id) →
  idle_clean (m_sa m) → pool_env id' m (with_sa sa' m).
Proof.
  intros Hst Hwf Hne Hid Hrem Hidle. pose proof Hst as [T1 T2 T3 T4 T5 T6 T7 T8].
  assert (∀ s, add = Some s → ¬ of_pool id' (m_sa m) s) as Hadd.
  { intros s [Hn _]%T6 [Hv Hp]. rewrite (Hidle s Hv Hn) in Hp. change kInvalidPoolId with (-1) in Hp. lia. }
  assert (∀ s, of_pool id' (m_sa m) s → add ≠ Some s ∧ rem ≠ Some s ∧ isValidSlab sa' s = true) as Hd.
  { intros s Hs. split; [by intros ?%Hadd|]. split; [|apply T4; by destruct Hs]. intros E%Hrem. by destruct Hs as [_ <-]. }
  split; cbn [m_sa with_sa m_hooks]; try done.
  - by eapply sa_step_idle.
  - intros s. split.
    + intros Hs. destruct (Hd s Hs) as (H1 & H2 & H3). destruct (T5 s H3 H1 H2) as [_ E]. destruct Hs as [_ ?].
      split; [done|]. by rewrite E.
    + intros [Hv Hp]. destruct (decide (add = Some s)) as [->|Ha].
      { destruct (T6 s eq_refl) as [_ E]. rewrite E in Hp. cbn in Hp. congruence. }
      destruct (decide (rem = Some s)) as [->|Hr].
      { rewrite (T7 s eq_refl) in Hp. change kInvalidPoolId with (-1) in Hp. lia. }
      destruct (T5 s Hv Ha Hr) as [? E]. split; [done|]. by rewrite <- E.
  - intros s Hs. destruct (Hd s Hs) as (H1 & H2 & H3). by destruct (T5 s H3 H1 H2).
  - intros s Hs Hu. apply T3. left. split; [done|]. by apply Hd.
Qed.
Lemma class_step_pool_env ac id' m m' join leave : class_step ac m m' join leave → sa_wf (m_sa m) → id' ≠ poolId_ ac →
  pool_env id' m m'.
Proof.
  intros Hst Hwf Hne. pose proof Hst as [V R P S O U J L H].
  assert (∀ s, isValidSlab (m_sa m') s = isValidSlab (m_sa m) s ∧ slabIndex (m_sa m') s = slabIndex (m_sa m) s) as Hsame
    by (intros s; by apply slab_view_valid).
  assert (∀ s, of_pool id' (m_sa m) s → ¬ is_ours ac (m_sa m) s ∧ join ≠ Some s) as Hd.
  { intros s [_ Hp]. split; [intros (_ & _ & E)|intros (_ & _ & E & _)%J]; unfold header_at_slab in *; congruence. }
  split.
  - by eapply slab_view_wf.
  - by eapply class_step_idle.
  - by injection V.
  - intros s. unfold of_pool, header_at_slab. destruct (Hsame s) as [-> ->]. by rewrite P.
  - intros s Hs. destruct (Hd s Hs). unfold header_at_slab. destruct (Hsame s) as [_ ->]. apply O; [apply Hs|done|done].
  - intros s _ Hu. by apply (slab_view_in_use _ _ s V).
  - intros x Hx. apply H; by apply Hd.
  - unfold getSlabMemoryEnd. injection V. congruence.
Qed.
