(* ===== verification/PoolInv.v ===== *)
(** The invariant of a memory pool: every allocation class is well formed over
    the shared memory ([sys_wf]), the slabs of the pool are split between its
    classes and its spare slabs, and how operations of one class or of the slab
    allocator preserve it. *)
From Stdlib Require Import Sorted.
From S2P Require Import Prelude SlabAllocator PtrCompressor SList AllocationClass AllocationFrame AllocationRun.
From S2P Require Import MemoryPool PoolSlabs.

(** What the callers of a pool know about one of its classes: the
    [startSlabRelease] that is running, with its receiver and zeroing flag, the
    allocations they hold and the contexts they got. *)
Record Cls := mkCls {
  k_rel : option (Release * Z * bool);
  k_live : gset Z;
  k_ctxs : list SlabReleaseContext;
}.
Definition rel_of (k : Cls) : option Release := (λ '(r, _, _), r) <$> k_rel k.
Definition class_sys (ac : AllocationClass) (m : Mem) (k : Cls) : Sys := mkSys ac m (rel_of k) (k_live k) (k_ctxs k).

Definition receiver_ok (nclasses receiver : Z) (mode : SlabReleaseMode) : Prop :=
  receiver = kInvalidClassId ∨ (0 ≤ receiver < nclasses ∧ mode = kRebalance).
Definition ctx_ok (id nclasses i : Z) (ctx : SlabReleaseContext) : Prop :=
  victim_ ctx = i ∧ pid_ ctx = id ∧ is_Some (zeroOnRelease_ ctx) ∧ receiver_ok nclasses (receiver_ ctx) (mode_ ctx).
Definition cls_ok (id nclasses i : Z) (k : Cls) : Prop :=
  (∀ ctx, ctx ∈ k_ctxs k → ctx_ok id nclasses i ctx) ∧
  (∀ r rc z, k_rel k = Some (r, rc, z) → receiver_ok nclasses rc (r_mode r)).

(** A slab the pool holds outside of its classes. *)
Definition spare_slab (id : Z) (sa : SlabAllocator) (s : Z) : Prop :=
  in_use sa s ∧ let hd := header_at_slab sa s in
  classId hd = kInvalidClassId ∧ poolId hd = id ∧ isMarkedForRelease hd = false.
Definition in_class (acs : list AllocationClass) (sa : SlabAllocator) (s : Z) : Prop :=
  ∃ i ac, acs !! i = Some ac ∧ is_ours ac sa s.

Record pool_inv (id : Z) (sizes : list Z) (acs : list AllocationClass) (m : Mem) (cls : list Cls)
    (spare : list Z) (n : Z) : Prop := {
  i_sa : sa_wf (m_sa m);
  i_idle : idle_clean (m_sa m);
  i_id : 0 ≤ id < Z.of_nat kMaxPools;
  i_sizes : allocationSize_ <$> acs = sizes;
  i_len : length cls = length acs;
  i_num : (0 < length acs ≤ 127)%nat;
  i_sorted : StronglySorted Z.lt sizes;
  i_class i ac : acs !! i = Some ac → classId_ ac = Z.of_nat i ∧ poolId_ ac = id;
  i_sys i ac k : acs !! i = Some ac → cls !! i = Some k → sys_wf (class_sys ac m k);
  i_cls i k : cls !! i = Some k → cls_ok id (Z.of_nat (length acs)) (Z.of_nat i) k;
  i_nodup : NoDup spare;
  i_spare s : s ∈ spare → spare_slab id (m_sa m) s;
  i_slabs s : of_pool id (m_sa m) s →
    in_use (m_sa m) s ∧ sound (header_at_slab (m_sa m) s) ∧ (s ∈ spare ∨ in_class acs (m_sa m) s);
  i_count : ∃ S : gset Z, (∀ s, s ∈ S ↔ in_class acs (m_sa m) s) ∧ Z.of_nat (size S) = n;
}.

Lemma sys_env ac m m' k : sys_wf (class_sys ac m k) → env_step ac m m' → sys_wf (class_sys ac m' k).
Proof.
  intros Hwf He. destruct (step_safe (OEnv m') _ Hwf He) as [(ret & st' & E & (Hw & _) & _)|[E _]]; [|done].
  cbn in E. injection E as <- <-. done.
Qed.

Lemma size_change (S : gset Z) (join leave : option Z) : (∀ s, join = Some s → s ∉ S) → (∀ s, leave = Some s → s ∈ S) →
  Z.of_nat (size ((S ∪ list_to_set (option_list join)) ∖ list_to_set (option_list leave))) =
  Z.of_nat (size S) + Z.of_nat (length (option_list join)) - Z.of_nat (length (option_list leave)).
Proof.
  intros Hj Hl.
  assert (size (S ∪ list_to_set (option_list join)) = size S + length (option_list join))%nat as Ej.
  { destruct join as [j|]; simpl; rewrite ?(right_id_L ∅ (∪)); [|by rewrite Nat.add_0_r].
    rewrite size_union, size_singleton; [lia|].
    apply disjoint_singleton_r. by apply Hj. }
  destruct leave as [l|]; simpl; rewrite ?(right_id_L ∅ (∪)), ?difference_empty_L; [|lia].
  assert (l ∈ S ∪ list_to_set (option_list join)) as Hin by (apply elem_of_union_l; by apply Hl).
  rewrite size_difference, size_singleton, Ej by (by apply singleton_subseteq_l).
  assert (size (S ∪ list_to_set (option_list join)) ≠ 0%nat); [|lia].
  intros E%size_empty_inv. by apply E in Hin.
Qed.

Section inv.
Context {id : Z} {sizes : list Z} {acs : list AllocationClass} {m : Mem} {cls : list Cls} {spare : list Z} {n : Z}.
Context (Hinv : pool_inv id sizes acs m cls spare n).

Lemma inv_lookup i ac : acs !! i = Some ac → ∃ k, cls !! i = Some k ∧ sys_wf (class_sys ac m k).
Proof.
  intros Hi. destruct (lookup_lt_is_Some_2 cls i) as [k Hk].
  { rewrite (i_len _ _ _ _ _ _ _ Hinv). by eapply lookup_lt_Some. }
  exists k. split; [done|]. by eapply (i_sys _ _ _ _ _ _ _ Hinv).
Qed.
Lemma inv_core i ac : acs !! i = Some ac → ∃ U, core ac (m_sa m) U.
Proof.
  intros (k & _ & (online & off & Hw) & _)%inv_lookup. eexists. apply (w_core _ _ _ _ _ _ Hw).
Qed.
Lemma spare_not_ours s i ac : s ∈ spare → acs !! i = Some ac → ¬ is_ours ac (m_sa m) s.
Proof.
  intros Hs Hi (_ & Hc & _). destruct (i_spare _ _ _ _ _ _ _ Hinv s Hs) as (_ & Hcl & _). unfold header_at_slab in Hcl.
  destruct (i_class _ _ _ _ _ _ _ Hinv i ac Hi). change kInvalidClassId with (-1) in Hcl. lia.
Qed.
Lemma spare_of_pool s : s ∈ spare → of_pool id (m_sa m) s.
Proof. intros (Hu & _ & Hp & _)%(i_spare _ _ _ _ _ _ _ Hinv). split; [apply Hu|done]. Qed.
Lemma spare_fresh s i ac : s ∈ spare → acs !! i = Some ac → fresh_slab ac m s.
Proof.
  intros (Hu & Hcl & Hp & Hm)%(i_spare _ _ _ _ _ _ _ Hinv) Hi. destruct (i_class _ _ _ _ _ _ _ Hinv i ac Hi) as [_ E].
  unfold header_at_slab in *. unfold fresh_slab. rewrite E. split; [apply Hu|done].
Qed.
Lemma ours_in_use i ac s : acs !! i = Some ac → is_ours ac (m_sa m) s → of_pool id (m_sa m) s ∧ in_use (m_sa m) s.
Proof.
  intros Hi (Hv & Hc & Hp). destruct (i_class _ _ _ _ _ _ _ Hinv i ac Hi) as [_ E].
  assert (of_pool id (m_sa m) s) as Hs by (split; [done|]; unfold header_at_slab; congruence).
  split; [done|]. by apply (i_slabs _ _ _ _ _ _ _ Hinv).
Qed.

(** Distinct classes have distinct ids. *)
Lemma class_ids i j ac ac' : acs !! i = Some ac → acs !! j = Some ac' → i ≠ j →
  (classId_ ac', poolId_ ac') ≠ (classId_ ac, poolId_ ac) ∧ 0 ≤ classId_ ac'.
Proof.
  intros Hi Hj Hne. destruct (i_class _ _ _ _ _ _ _ Hinv _ _ Hi), (i_class _ _ _ _ _ _ _ Hinv _ _ Hj).
  split; [|lia]. intros [= E _]. apply Hne. lia.
Qed.

(** The memory changes around the classes. *)
Lemma inv_env m' spare' : sa_wf (m_sa m') → idle_clean (m_sa m') → (∀ i ac, acs !! i = Some ac → env_step ac m m') → NoDup spare' →
  (∀ s, s ∈ spare' → spare_slab id (m_sa m') s) →
  (∀ s, of_pool id (m_sa m') s → in_use (m_sa m') s ∧ sound (header_at_slab (m_sa m') s) ∧
    (s ∈ spare' ∨ in_class acs (m_sa m) s)) →
  pool_inv id sizes acs m' cls spare' n.
Proof.
  intros Hsa Hidle He Hnd Hsp Hsl. destruct Hinv as [I1 I0 I2 I3 I4 I5 I6 I7 I8 I9 I10 I11 I12 I13].
  assert (∀ s, in_class acs (m_sa m) s ↔ in_class acs (m_sa m') s) as Hc.
  { intros s. split; intros (i & ac & Hi & Ho); exists i, ac; (split; [done|]); by apply (e_ours _ _ _ (He i ac Hi)). }
  split; try done.
  - intros i ac k Hi Hk. eapply sys_env; [by eapply I8|]. by eapply He.
  - intros s Hs. rewrite <- Hc. by apply Hsl.
  - destruct I13 as (S & HS & Hn). exists S. split; [|done]. intros s. by rewrite HS.
Qed.

(** The slab allocator gives and takes slabs. *)
Lemma inv_slabs sa' add rem rest : sa_step id (m_sa m) sa' add rem → option_list rem ++ rest ≡ₚ spare →
  pool_inv id sizes acs (with_sa sa' m) cls (option_list add ++ rest) n.
Proof.
  intros Hst Hp. pose proof Hst as [T1 T2 T3 T4 T5 T6 T7 T8].
  assert (∀ s, rem = Some s → s ∈ spare) as Hrem by (intros s ->; rewrite <- Hp; set_solver).
  assert (∀ s, s ∈ rest → s ∈ spare) as Hrest by (intros s Hs; rewrite <- Hp; set_solver).
  assert (NoDup (option_list rem ++ rest)) as Hnd by (rewrite Hp; apply Hinv).
  assert (∀ s, of_pool id (m_sa m) s → add ≠ Some s) as Hna.
  { intros s Hs E. apply T6 in E as [Hn _]. by apply Hn, (i_slabs _ _ _ _ _ _ _ Hinv). }
  assert (∀ s, s ∈ rest → rem ≠ Some s) as Hrr.
  { intros s Hs ->. apply NoDup_app in Hnd as (_ & Hd & _). apply (Hd s); [by left|done]. }
  assert (∀ s, isValidSlab sa' s = true → add ≠ Some s → rem ≠ Some s → header_at_slab sa' s = header_at_slab (m_sa m) s) as Hh.
  { intros s H1 H2 H3. by apply T5. }
  assert (0 ≤ id) as Hid0 by apply Hinv.
  apply inv_env; cbn [m_sa with_sa]; [done|eapply sa_step_idle; [done|apply Hinv]|..].
  - intros i ac Hi.
    assert (∀ s, is_ours ac (m_sa m) s → add ≠ Some s ∧ rem ≠ Some s ∧ isValidSlab sa' s = true) as Hd.
    { intros s Hs. destruct (ours_in_use i ac s Hi Hs) as [Hop Hu]. split; [by apply Hna|].
      split; [intros E%Hrem; by eapply spare_not_ours|]. apply T4, Hs. }
    assert (∀ s, slabIndex sa' s = slabIndex (m_sa m) s) as Ei by (intros s; unfold slabIndex; by rewrite T2).
    split; cbn [m_sa with_sa m_hooks]; try done.
    + intros s. split.
      * intros Hs. destruct (Hd s Hs) as (H1 & H2 & H3). pose proof (Hh s H3 H1 H2) as E. unfold header_at_slab in E.
        destruct Hs as (? & ? & ?). split; [done|]. by rewrite E.
      * intros (Hv & Hc & Hpl). destruct (i_class _ _ _ _ _ _ _ Hinv i ac Hi) as [Ec Ep].
        destruct (decide (add = Some s)) as [->|Ha].
        { destruct (T6 s eq_refl) as [_ E]. unfold header_at_slab in E. rewrite E in Hc. cbn in Hc.
          change kInvalidClassId with (-1) in Hc. lia. }
        destruct (decide (rem = Some s)) as [->|Hr].
        { pose proof (T7 s eq_refl) as E. unfold header_at_slab in E. rewrite E in Hpl. change kInvalidPoolId with (-1) in Hpl. lia. }
        destruct (T5 s Hv Ha Hr) as [? E]. unfold header_at_slab in E. rewrite E in Hc, Hpl. done.
    + intros s Hs. destruct (Hd s Hs) as (H1 & H2 & H3). pose proof (Hh s H3 H1 H2) as E. unfold header_at_slab in E.
      by rewrite Ei in E.
  - destruct add as [a|]; cbn; [|by apply NoDup_app in Hnd as (_ & _ & ?)]. constructor; [|by apply NoDup_app in Hnd as (_ & _ & ?)].
    intros Hin%Hrest%spare_of_pool%Hna. done.
  - intros s [Ha|Hs]%elem_of_app.
    + destruct add as [a|]; [|by apply elem_of_nil in Ha]. apply list_elem_of_singleton in Ha as ->.
      split; [apply T3; by right|]. destruct (T6 a eq_refl) as [_ E]. by rewrite E.
    + pose proof (Hna s (spare_of_pool s (Hrest s Hs))) as Ha. pose proof (Hrr s Hs) as Hr.
      destruct (i_spare _ _ _ _ _ _ _ Hinv s (Hrest s Hs)) as (Hu & Hsp).
      split; [apply T3; by left|]. by rewrite Hh; [|apply T4, Hu|..].
  - intros s [Hv Hpl]. destruct (decide (add = Some s)) as [->|Ha].
    { destruct (T6 s eq_refl) as [_ E]. split; [apply T3; by right|]. rewrite E. split; [done|]. left. set_solver. }
    destruct (decide (rem = Some s)) as [->|Hr].
    { rewrite (T7 s eq_refl) in Hpl. change kInvalidPoolId with (-1) in Hpl. lia. }
    destruct (T5 s Hv Ha Hr) as [Hv' E]. rewrite E in Hpl |- *.
    destruct (i_slabs _ _ _ _ _ _ _ Hinv s (conj Hv' Hpl)) as (Hu & Hsd & Hor). split; [apply T3; by left|]. split; [done|].
    destruct Hor as [Hs|]; [left|by right]. rewrite <- Hp in Hs. apply elem_of_app in Hs as [Hs|Hs]; [|set_solver].
    destruct rem as [r|]; [|by apply elem_of_nil in Hs]. apply list_elem_of_singleton in Hs as ->. done.
Qed.

(** Writing into a spare slab. *)
Lemma inv_zero s : s ∈ spare → pool_inv id sizes acs (zero_slab s m) cls spare n.
Proof.
  intros Hs. apply inv_env; cbn [m_sa zero_slab with_hooks]; try apply Hinv.
  intros i ac Hi. split; cbn [m_sa zero_slab with_hooks m_hooks]; try done; [apply Hinv|].
  intros x Hx. rewrite map_lookup_imap. destruct (m_hooks m !! x) as [c|]; [cbn|done].
  destruct (Z.eqb_spec (getSlabForMemory x) s) as [<-|]; [|done]. by destruct (spare_not_ours _ _ _ Hs Hi).
Qed.

(** An operation of one class. *)
Lemma inv_class i ac k ac' m' k' join leave rest : acs !! i = Some ac → cls !! i = Some k →
  sys_wf (class_sys ac' m' k') → same_class ac ac' → class_step ac m m' join leave →
  cls_ok id (Z.of_nat (length acs)) (Z.of_nat i) k' → option_list join ++ rest ≡ₚ spare →
  pool_inv id sizes (<[i := ac']> acs) m' (<[i := k']> cls) (option_list leave ++ rest)
    (n + Z.of_nat (length (option_list join)) - Z.of_nat (length (option_list leave))).
Proof.
  intros Hi Hk Hwf (Esz & Ecl & Epl) Hst Hcls Hp. pose proof Hst as [V R P Sd O U J L H].
  destruct Hinv as [I1 I0 I2 I3 I4 I5 I6 I7 I8 I9 I10 I11 I12 I13]. destruct (I7 i ac Hi) as [Eci Epi].
  assert (∀ s, isValidSlab (m_sa m') s = isValidSlab (m_sa m) s ∧ slabIndex (m_sa m') s = slabIndex (m_sa m) s) as Hsame
    by (intros s; by apply slab_view_valid).
  assert (∀ j ac1, acs !! j = Some ac1 → j ≠ i → env_step ac1 m m') as He.
  { intros j ac1 Hj Hne. destruct (class_ids i j ac ac1 Hi Hj ltac:(done)). by eapply class_step_env. }
  assert (∀ sa s, is_ours ac' sa s ↔ is_ours ac sa s) as Eo by (intros sa s; unfold is_ours; by rewrite Ecl, Epl).
  assert (∀ s, join = Some s → s ∈ spare) as Hjs by (intros s ->; rewrite <- Hp; set_solver).
  assert (∀ s, s ∈ rest → s ∈ spare) as Hrest by (intros s Hs; rewrite <- Hp; set_solver).
  assert (∀ s, leave = Some s → s ∉ spare) as Hls.
  { intros s (Ho & _)%L Hs. by destruct (spare_not_ours s i ac Hs Hi). }
  assert (NoDup (option_list join ++ rest)) as Hnd by (rewrite Hp; done).
  assert (∀ s, in_class (<[i := ac']> acs) (m_sa m') s ↔ (in_class acs (m_sa m) s ∨ join = Some s) ∧ leave ≠ Some s) as Hin.
  { intros s. split.
    - intros (j & ac1 & Hj & Ho). destruct (decide (j = i)) as [->|Hne].
      + rewrite list_lookup_insert_eq in Hj by (by eapply lookup_lt_Some). injection Hj as <-. apply Eo in Ho.
        apply U in Ho as [[Ho|Ho] Hl]; (split; [|done]); [left|by right]. by exists i, ac.
      + rewrite list_lookup_insert_ne in Hj by done. apply (e_ours _ _ _ (He j ac1 Hj Hne)) in Ho.
        split; [left; by exists j, ac1|]. intros (Hl & _)%L. destruct (class_ids i j ac ac1 Hi Hj ltac:(done)) as [Hd _].
        apply Hd. destruct Ho as (_ & ? & ?), Hl as (_ & ? & ?). congruence.
    - intros [[(j & ac1 & Hj & Ho)|Ej] Hl].
      + destruct (decide (j = i)) as [->|Hne].
        * rewrite Hi in Hj. injection Hj as <-. exists i, ac'. rewrite list_lookup_insert_eq by (by eapply lookup_lt_Some).
          split; [done|]. apply Eo, U. by split; [left|].
        * exists j, ac1. rewrite list_lookup_insert_ne by done. split; [done|]. by apply (e_ours _ _ _ (He j ac1 Hj Hne)).
      + exists i, ac'. rewrite list_lookup_insert_eq by (by eapply lookup_lt_Some). split; [done|]. apply Eo, U. by split; [right|]. }
  assert (∀ s, s ∈ rest → join ≠ Some s) as Hrj.
  { intros s Hs ->. apply NoDup_app in Hnd as (_ & Hd & _). apply (Hd s); [by left|done]. }
  split.
  - by eapply slab_view_wf.
  - by eapply class_step_idle.
  - done.
  - rewrite list_fmap_insert, Esz, I3. apply list_insert_id. rewrite <- I3, list_lookup_fmap, Hi. done.
  - by rewrite !length_insert.
  - by rewrite length_insert.
  - done.
  - intros j ac1 Hj. destruct (decide (j = i)) as [->|Hne].
    + rewrite list_lookup_insert_eq in Hj by (by eapply lookup_lt_Some). injection Hj as <-. by rewrite Ecl, Epl.
    + rewrite list_lookup_insert_ne in Hj by done. by apply I7.
  - intros j ac1 k1 Hj Hk1. destruct (decide (j = i)) as [->|Hne].
    + rewrite list_lookup_insert_eq in Hj by (by eapply lookup_lt_Some). injection Hj as <-.
      rewrite list_lookup_insert_eq in Hk1 by (by eapply lookup_lt_Some). by injection Hk1 as <-.
    + rewrite list_lookup_insert_ne in Hj by done. rewrite list_lookup_insert_ne in Hk1 by done. eapply sys_env; [by eapply I8|]. by eapply He.
  - intros j k1 Hk1. rewrite length_insert. destruct (decide (j = i)) as [->|Hne].
    + rewrite list_lookup_insert_eq in Hk1 by (by eapply lookup_lt_Some). by injection Hk1 as <-.
    + rewrite list_lookup_insert_ne in Hk1 by done. by apply I9.
  - destruct leave as [l|]; cbn; [|by apply NoDup_app in Hnd as (_ & _ & ?)]. constructor; [|by apply NoDup_app in Hnd as (_ & _ & ?)].
    intros Hl%Hrest. by apply (Hls l).
  - intros s [Hl|Hs]%elem_of_app.
    + destruct leave as [l|]; [|by apply elem_of_nil in Hl]. apply list_elem_of_singleton in Hl as ->.
      destruct (L l eq_refl) as (Ho & (Hv & Hc & Hpl & Hmk) & _). unfold spare_slab, header_at_slab.
      split; [|split_and!; [done|congruence|done]]. apply (slab_view_in_use _ _ _ V).
      by destruct (ours_in_use i ac l Hi Ho).
    + destruct (I11 s (Hrest s Hs)) as (Hu & Hsp). unfold spare_slab, header_at_slab in *. destruct (Hsame s) as [_ ->].
      rewrite O; [|apply Hu|by eapply spare_not_ours; [apply Hrest|]|by apply Hrj]. split; [|done].
      by apply (slab_view_in_use _ _ _ V).
  - intros s [Hv Hpl]. unfold header_at_slab in *. destruct (Hsame s) as [Ev Ei]. rewrite Ei in *. rewrite Ev in Hv. rewrite P in Hpl.
    destruct (I12 s (conj Hv Hpl)) as (Hu & Hsd & Hor). split; [by apply (slab_view_in_use _ _ _ V)|]. split; [by apply Sd|].
    rewrite Hin. destruct (decide (leave = Some s)) as [->|Hl]; [left; set_solver|].
    destruct Hor as [Hs|]; [|by right; split; [left|]]. rewrite <- Hp in Hs. apply elem_of_app in Hs as [Hs|Hs]; [|left; set_solver].
    right. split; [right|done]. destruct join as [j|]; [|by apply elem_of_nil in Hs]. by apply list_elem_of_singleton in Hs as ->.
  - destruct I13 as (S & HS & Hn).
    assert (∀ s, join = Some s → s ∉ S) as Hjn.
    { intros s Ej Hs. apply HS in Hs as (j & ac1 & Hj & Ho). by destruct (spare_not_ours s j ac1 (Hjs s Ej) Hj). }
    assert (∀ s, leave = Some s → s ∈ S) as Hln by (intros s (Ho & _)%L; apply HS; by exists i, ac).
    exists ((S ∪ list_to_set (option_list join)) ∖ list_to_set (option_list leave)). split.
    + intros s. rewrite Hin, elem_of_difference, elem_of_union, HS, !elem_of_list_to_set.
      destruct join as [j|], leave as [l|]; cbn; rewrite ?list_elem_of_singleton, ?elem_of_nil; naive_solver.
    + rewrite size_change by done. lia.
Qed.
End inv.
