(* ===== verification/PoolRun.v ===== *)
(** Memory pools in use: the operations of [MemoryPool] as the steps of a
    system of callers that interleave, the invariant of its reachable states,
    exact accounting, and the specifications of the operations. *)
From Stdlib Require Import Sorted.
From S2P Require Import Prelude SlabAllocator PtrCompressor SList AllocationClass AllocationFrame AllocationRun.
From S2P Require Import MemoryPool PoolSlabs PoolInv.

Local Arguments wrap : simpl never.

(** [p_drift] counts the slabs released from the spare ones. *)
Record PSys := mkPSys { p_pool : MemoryPool; p_mem : Mem; p_cls : list Cls; p_drift : Z }.

Definition add_live (ret : option Z) (k : Cls) : Cls :=
  mkCls (k_rel k) (match ret with Some p => {[p]} ∪ k_live k | None => k_live k end) (k_ctxs k).
Definition drop_live (p : Z) (k : Cls) : Cls := mkCls (k_rel k) (k_live k ∖ {[p]}) (k_ctxs k).
Definition set_rel (r : option (Release * Z * bool)) (k : Cls) : Cls := mkCls r (k_live k) (k_ctxs k).
Definition add_ctx (ctx : SlabReleaseContext) (k : Cls) : Cls :=
  mkCls None (k_live k) (if isReleased ctx then k_ctxs k else k_ctxs k ++ [ctx]).
Definition drop_ctx (j : nat) (k : Cls) : Cls := mkCls (k_rel k) (k_live k) (delete j (k_ctxs k)).

Inductive pop :=
  | PAllocate (size : Z)
  | PAllocateSlow (size : Z)                  (** the locked part, after an earlier attempt *)
  | PFree (i : nat) (p : Z)                   (** [i]: the class of the allocation *)
  | PWrite (i : nat) (p c : Z)
  | PResize (size : Z)
  | PSetAdvised (value : Z)
  | PStart (victim receiver : Z) (mode : SlabReleaseMode) (hint : option Z) (rnd : Z) (zeroOnRelease madviseOk : bool)
  | PStep (i : nat) (abort madviseOk : bool)  (** the next step of the release that runs in class [i], and what [shouldAbortFn] answers *)
  | PAbort (i j : nat)                        (** the [j]-th context of class [i] *)
  | PComplete (i j : nat) (madviseOk : bool)
  | PReclaim (numSlabs : Z)
  | PEnv (m : Mem).                           (** other pools *)

Definition pool_outcome (i : nat) (receiver : Z) (zero madviseOk : bool) (o : Outcome) pool m (cls : list Cls) (drift : Z)
    : result (option Z * PSys) :=
  match o with
  | Running r => Ok (None, mkPSys pool m (alter (set_rel (Some (r, receiver, zero))) i cls) drift)
  | _ =>
      '(o, pool, m) ← mp_startRelease_end receiver zero madviseOk o pool m;
      match o with
      | Returned ctx => Ok (None, mkPSys pool m (alter (add_ctx ctx) i cls) drift)
      | Raised e => Throw e
      | Running _ => Undef
      end
  end.
Definition pool_step (o : pop) (st : PSys) : result (option Z * PSys) :=
  let pool := p_pool st in let m := p_mem st in let cls := p_cls st in let drift := p_drift st in
  match o with
  | PAllocate size =>
      cid ← getAllocationClassId size pool;
      '(ret, pool, m) ← mp_allocate size pool m;
      Ok (ret, mkPSys pool m (alter (add_live ret) (Z.to_nat cid) cls) drift)
  | PAllocateSlow size =>
      cid ← getAllocationClassId size pool;
      '(ret, pool, m) ← allocate_slow size pool m;
      Ok (ret, mkPSys pool m (alter (add_live ret) (Z.to_nat cid) cls) drift)
  | PFree i p =>
      '(pool, m) ← mp_free p pool m;
      Ok (None, mkPSys pool m (alter (drop_live p) i cls) drift)
  | PWrite i p c => Ok (None, mkPSys pool (with_hooks (<[p := c]> (m_hooks m)) m) cls drift)
  | PResize size => Ok (None, mkPSys (resize size pool) m cls drift)
  | PSetAdvised value => Ok (None, mkPSys (setNumSlabsAdvised value pool) m cls drift)
  | PStart victim receiver mode hint rnd zero madviseOk =>
      '(o, pool, m) ← mp_startRelease_begin victim receiver mode hint rnd pool m;
      if victim =? kInvalidClassId then
        '(_, pool, m) ← mp_startRelease_end receiver zero madviseOk o pool m;
        Ok (None, mkPSys pool m cls (drift + 1))
      else pool_outcome (Z.to_nat victim) receiver zero madviseOk o pool m cls drift
  | PStep i abort madviseOk =>
      k ← deref (cls !! i);
      '(r, receiver, zero) ← deref (k_rel k);
      '(o, pool, m) ← mp_startRelease_step (Z.of_nat i) abort r pool m;
      pool_outcome i receiver zero madviseOk o pool m cls drift
  | PAbort i j =>
      k ← deref (cls !! i);
      ctx ← deref (k_ctxs k !! j);
      '(pool, m) ← mp_abortSlabRelease ctx pool m;
      Ok (None, mkPSys pool m (alter (drop_ctx j) i cls) drift)
  | PComplete i j madviseOk =>
      k ← deref (cls !! i);
      ctx ← deref (k_ctxs k !! j);
      '(b, pool, m) ← mp_completeSlabRelease ctx madviseOk pool m;
      Ok (None, mkPSys pool m (if b : bool then alter (drop_ctx j) i cls else cls) drift)
  | PReclaim numSlabs =>
      '(_, pool, m) ← reclaimSlabsAndGrow numSlabs pool m;
      Ok (None, mkPSys pool m cls drift)
  | PEnv m => Ok (None, mkPSys pool m cls drift)
  end.

(** What callers must respect; [shouldAbortFn] is to answer no, as for a class. *)
Definition pop_ok (o : pop) (st : PSys) : Prop :=
  match o with
  | PAllocate size | PAllocateSlow size => fits 32 size
  | PFree i p | PWrite i p _ => ∃ k, p_cls st !! i = Some k ∧ p ∈ k_live k
  | PStart victim receiver _ _ _ _ _ =>
      (victim = kInvalidClassId ∨ 0 ≤ victim ∧ ∀ k, p_cls st !! Z.to_nat victim = Some k → k_rel k = None) ∧
      (receiver = kInvalidClassId ∨ 0 ≤ receiver < Z.of_nat (length (ac_ (p_pool st))))
  | PStep i abort _ => abort = false ∧ ∃ k x, p_cls st !! i = Some k ∧ k_rel k = Some x
  | PAbort i j | PComplete i j _ => ∃ k, p_cls st !! i = Some k ∧ is_Some (k_ctxs k !! j)
  | PEnv m => pool_env (id_ (p_pool st)) (p_mem st) m
  | PResize _ | PSetAdvised _ | PReclaim _ => True
  end.

(** ** The invariant *)
(** The bytes in allocations that callers hold. *)
Fixpoint live_bytes (acs : list AllocationClass) (cls : list Cls) : Z :=
  match acs, cls with
  | ac :: acs, k :: cls => allocationSize_ ac * Z.of_nat (size (k_live k)) + live_bytes acs cls
  | _, _ => 0
  end.
Lemma live_bytes_insert acs cls i ac k ac' k' : acs !! i = Some ac → cls !! i = Some k → allocationSize_ ac' = allocationSize_ ac →
  live_bytes (<[i := ac']> acs) (<[i := k']> cls) =
  live_bytes acs cls + allocationSize_ ac * (Z.of_nat (size (k_live k')) - Z.of_nat (size (k_live k))).
Proof.
  revert acs cls. induction i as [|i IH]; intros [|a acs] [|c cls] Hi Hk E; try done; cbn in Hi, Hk.
  - simplify_eq. cbn. rewrite E. lia.
  - change (<[S i := ac']> (a :: acs)) with (a :: <[i := ac']> acs).
    change (<[S i := k']> (c :: cls)) with (c :: <[i := k']> cls). cbn [live_bytes]. rewrite (IH acs cls) by done. lia.
Qed.

Definition slabs_held (st : PSys) (n : Z) : Prop :=
  pool_inv (id_ (p_pool st)) (acSizes_ (p_pool st)) (ac_ (p_pool st)) (p_mem st) (p_cls st) (pool_freeSlabs_ (p_pool st)) n.
Definition pool_wf (st : PSys) : Prop := ∃ n, slabs_held st n ∧
  currSlabAllocSize_ (p_pool st) = u64 (kSize * (n - p_drift st)) ∧
  currAllocSize_ (p_pool st) = u64 (live_bytes (ac_ (p_pool st)) (p_cls st)).
(** What the other pools see. *)
Definition others (id : Z) (m m' : Mem) : Prop := ∀ id', id' ≠ id → 0 ≤ id' → pool_env id' m m'.

Lemma others_trans id m1 m2 m3 : others id m1 m2 → others id m2 m3 → others id m1 m3.
Proof. intros H1 H2 id' Hne Hid. eapply pool_env_trans; [by apply H1|by apply H2]. Qed.
Lemma others_class id ac m m' join leave : class_step ac m m' join leave → sa_wf (m_sa m) → poolId_ ac = id → others id m m'.
Proof. intros Hst Hsa <- id' Hne _. by eapply class_step_pool_env. Qed.

(** ** Calling a class *)
Local Ltac retarget H n' :=
  match type of H with pool_inv _ _ _ _ _ _ ?x => replace x with n' in H by (simpl; lia) end.
Section calls.
Context {id : Z} {sizes : list Z} {acs : list AllocationClass} {m : Mem} {cls : list Cls} {spare : list Z} {n : Z}.
Context (Hinv : pool_inv id sizes acs m cls spare n).
Context {i : nat} {ac : AllocationClass} {k : Cls} (Hi : acs !! i = Some ac) (Hk : cls !! i = Some k).

Let Hsys : sys_wf (class_sys ac m k) := i_sys _ _ _ _ _ _ _ Hinv i ac k Hi Hk.
Let Hcls : cls_ok id (Z.of_nat (length acs)) (Z.of_nat i) k := i_cls _ _ _ _ _ _ _ Hinv i k Hk.
Let Hsa : sa_wf (m_sa m) := i_sa _ _ _ _ _ _ _ Hinv.
Let Hpool : poolId_ ac = id := proj2 (i_class _ _ _ _ _ _ _ Hinv i ac Hi).

Lemma call_none ac' m' k' : sys_wf (class_sys ac' m' k') → same_class ac ac' → class_step ac m m' None None →
  cls_ok id (Z.of_nat (length acs)) (Z.of_nat i) k' →
  pool_inv id sizes (<[i := ac']> acs) m' (<[i := k']> cls) spare n ∧ others id m m'.
Proof.
  intros Hw Hsc Hst Hok. split; [|by eapply others_class].
  pose proof (inv_class Hinv i ac k ac' m' k' None None spare Hi Hk Hw Hsc Hst Hok ltac:(done)) as H.
  by retarget H n.
Qed.
Lemma call_join s rest ac' m' k' : sys_wf (class_sys ac' m' k') → same_class ac ac' → class_step ac m m' (Some s) None →
  cls_ok id (Z.of_nat (length acs)) (Z.of_nat i) k' → s :: rest ≡ₚ spare →
  pool_inv id sizes (<[i := ac']> acs) m' (<[i := k']> cls) rest (n + 1) ∧ others id m m'.
Proof.
  intros Hw Hsc Hst Hok Hp. split; [|by eapply others_class].
  pose proof (inv_class Hinv i ac k ac' m' k' (Some s) None rest Hi Hk Hw Hsc Hst Hok Hp) as H.
  by retarget H (n + 1).
Qed.
Lemma call_leave s ac' m' k' : sys_wf (class_sys ac' m' k') → same_class ac ac' → class_step ac m m' None (Some s) →
  cls_ok id (Z.of_nat (length acs)) (Z.of_nat i) k' →
  pool_inv id sizes (<[i := ac']> acs) m' (<[i := k']> cls) (s :: spare) (n - 1) ∧ others id m m'.
Proof.
  intros Hw Hsc Hst Hok. split; [|by eapply others_class].
  pose proof (inv_class Hinv i ac k ac' m' k' None (Some s) spare Hi Hk Hw Hsc Hst Hok ltac:(done)) as H.
  by retarget H (n - 1).
Qed.

Lemma allocate_call : ∃ ret ac' m', AllocationClass.allocate ac m = Ok (ret, ac', m') ∧ same_class ac ac' ∧
  pool_inv id sizes (<[i := ac']> acs) m' (<[i := add_live ret k]> cls) spare n ∧ others id m m' ∧
  (∀ p, ret = Some p → (p ∉ k_live k) ∧ is_alloc (m_sa m') p).
Proof.
  destruct (step_safe OAllocate _ Hsys I) as [(ret & st' & E & (Hw & Hsc & Hret & Hst) & _)|[_ (? & ? & ? & ? & _)]]; [|done].
  cbn in E. destruct (AllocationClass.allocate ac m) as [[[ret' ac'] m']|e|] eqn:Ea; [|done|done]. res_simpl. injection E as <- <-.
  cbn in Hw, Hsc, Hret, Hst. exists ret', ac', m'. split; [done|]. split; [done|].
  destruct (call_none ac' m' (add_live ret' k) Hw Hsc Hst Hcls) as [H1 H2]. split; [done|]. split; [done|].
  intros p ->. by destruct Hret as (? & _ & ?).
Qed.

Lemma addSlabAndAllocate_call s rest : s :: rest ≡ₚ spare →
  ∃ p ac' m', addSlabAndAllocate s ac m = Ok (Some p, ac', m') ∧ same_class ac ac' ∧
    pool_inv id sizes (<[i := ac']> acs) m' (<[i := add_live (Some p) k]> cls) rest (n + 1) ∧ others id m m' ∧
    (p ∉ k_live k) ∧ is_alloc (m_sa m') p.
Proof.
  intros Hp. assert (s ∈ spare) as Hs by (rewrite <- Hp; by left).
  destruct (step_safe (OAddSlabAndAllocate s) _ Hsys (spare_fresh Hinv s i ac Hs Hi))
    as [(ret & st' & E & (Hw & Hsc & Hret & Hst) & Hne)|[_ (? & ? & ? & ? & _)]]; [|done].
  cbn in E. destruct (addSlabAndAllocate s ac m) as [[[ret' ac'] m']|e|] eqn:Ea; [|done|done]. res_simpl. injection E as <- <-.
  destruct ret' as [p|]; [|by destruct Hne]. cbn in Hw, Hsc, Hret, Hst. exists p, ac', m'. split; [done|]. split; [done|].
  destruct (call_join s rest ac' m' (add_live (Some p) k) Hw Hsc Hst Hcls Hp) as [H1 H2]. by destruct Hret as (? & _ & ?).
Qed.

Lemma addSlab_call s rest : s :: rest ≡ₚ spare →
  ∃ ac' m', addSlab s ac m = Ok (ac', m') ∧ same_class ac ac' ∧
    pool_inv id sizes (<[i := ac']> acs) m' (<[i := k]> cls) rest (n + 1) ∧ others id m m' ∧ is_ours ac' (m_sa m') s.
Proof.
  intros Hp. assert (s ∈ spare) as Hs by (rewrite <- Hp; by left).
  destruct (step_safe (OAddSlab s) _ Hsys (spare_fresh Hinv s i ac Hs Hi))
    as [(ret & st' & E & (Hw & Hsc & Hret & Hst) & _)|[_ (? & ? & ? & ? & _)]]; [|done].
  cbn in E. destruct (addSlab s ac m) as [[ac' m']|e|] eqn:Ea; [|done|done]. res_simpl. injection E as <- <-.
  exists ac', m'. split; [done|]. split; [done|]. cbn in Hst, Hsc.
  destruct (call_join s rest ac' m' k Hw Hsc Hst Hcls Hp) as [H1 H2]. split; [done|]. split; [done|].
  destruct (proj2 (f_ours _ _ _ _ _ Hst s)) as (? & E1 & E2); [by split; [right|]|].
  destruct Hsc as (_ & F1 & F2). split; [done|]. by rewrite F1, F2.
Qed.

Lemma free_call p : p ∈ k_live k → ∃ ac' m', AllocationClass.free p ac m = Ok (ac', m') ∧ same_class ac ac' ∧
  pool_inv id sizes (<[i := ac']> acs) m' (<[i := drop_live p k]> cls) spare n ∧ others id m m'.
Proof.
  intros Hp. destruct (step_safe (OFree p) _ Hsys Hp) as [(ret & st' & E & (Hw & Hsc & Hret & Hst) & _)|[_ (? & ? & ? & ? & _)]]; [|done].
  cbn in E. destruct (AllocationClass.free p ac m) as [[ac' m']|e|] eqn:Ea; [|done|done]. res_simpl. injection E as <- <-.
  exists ac', m'. split; [done|]. split; [done|]. by apply (call_none ac' m' (drop_live p k) Hw Hsc Hst Hcls).
Qed.

Lemma write_call p c : p ∈ k_live k →
  pool_inv id sizes acs (with_hooks (<[p := c]> (m_hooks m)) m) cls spare n ∧ others id m (with_hooks (<[p := c]> (m_hooks m)) m).
Proof.
  intros Hp. destruct (step_safe (OWrite p c) _ Hsys Hp) as [(ret & st' & E & (Hw & Hsc & Hret & Hst) & _)|[_ (? & ? & ? & ? & _)]]; [|done].
  cbn in E. injection E as <- <-. destruct (call_none ac _ k Hw Hsc Hst Hcls) as [H1 H2]. by rewrite !list_insert_id in H1.
Qed.

Lemma abort_call j ctx : k_ctxs k !! j = Some ctx → ∃ ac' m', AllocationClass.abortSlabRelease ctx ac m = Ok (ac', m') ∧ same_class ac ac' ∧
  pool_inv id sizes (<[i := ac']> acs) m' (<[i := drop_ctx j k]> cls) spare n ∧ others id m m'.
Proof.
  intros Hj. destruct (step_safe (OAbort j) _ Hsys (ex_intro _ ctx Hj))
    as [(ret & st' & E & (Hw & Hsc & Hret & Hst) & _)|[_ (? & ? & ? & ? & _)]]; [|done].
  cbn in E. rewrite Hj in E. cbn in E.
  destruct (AllocationClass.abortSlabRelease ctx ac m) as [[ac' m']|e|] eqn:Ea; [|done|done]. res_simpl. injection E as <- <-.
  exists ac', m'. split; [done|]. split; [done|]. apply (call_none ac' m' (drop_ctx j k) Hw Hsc Hst).
  destruct Hcls as [H1 H2]. split; [|done]. cbn. intros c Hc. apply H1. by eapply list_elem_of_delete_inv.
Qed.

Lemma rel_none : k_rel k = None → rel_of k = None.
Proof. unfold rel_of. by intros ->. Qed.
Lemma begin_call mode hint rnd : k_rel k = None →
  match startRelease_begin mode hint rnd ac m with
  | Ok (o, ac', m') => same_class ac ac' ∧ others id m m' ∧
      match o with
      | Running r => r_mode r = mode ∧ ∀ rc z, receiver_ok (Z.of_nat (length acs)) rc mode →
          pool_inv id sizes (<[i := ac']> acs) m' (<[i := set_rel (Some (r, rc, z)) k]> cls) spare n
      | Returned ctx => ∃ s, ctx = releasedContext s id kInvalidClassId mode ∧
          pool_inv id sizes (<[i := ac']> acs) m' cls (s :: spare) (n - 1)
      | Raised _ => False
      end
  | Throw e => e = InvalidArgument ∧
      ∀ s, release_target hint rnd ac = Some s → s ∉ allocatedSlabs_ ac ++ freeSlabs_ ac
  | Undef => False
  end.
Proof.
  intros Hrel. pose proof (rel_none Hrel) as Hr. pose proof Hsys as [(online & off & Hwf) _]. cbn in Hwf. rewrite Hr in Hwf.
  pose proof (w_phase _ _ _ _ _ _ Hwf) as Hoff. cbn in Hoff. subst off.
  pose proof (begin_aux _ _ _ _ mode hint rnd Hwf) as Hb.
  destruct (step_safe (OStart mode hint rnd) _ Hsys Hr) as [(ret & st' & E & (Hw & Hsc & _ & Hst) & _)|[E (? & ? & ? & [= <- <- <-] & Ht)]];
    cbn in E; destruct (startRelease_begin mode hint rnd ac m) as [[[o ac'] m']|e|]; try done; res_simpl.
  - destruct o as [r|ctx|e]; cbn in E; [| |done].
    + injection E as _ <-. cbn in Hw, Hsc, Hst. destruct Hb as (s & _ & _ & _ & -> & _). split; [done|].
      split; [by eapply others_class|]. split; [done|]. intros rc z Hrc.
      eapply (call_none ac' m' (set_rel (Some (_, rc, z)) k)); [exact Hw|done|done|]. destruct Hcls as [H1 _]. split; [done|].
      by intros ? ? ? [= <- <- <-].
    + injection E as _ <-. cbn in Hw, Hsc, Hst. destruct Hb as (s & Et & _ & _ & -> & _). rewrite Et in Hst. split; [done|].
      split; [by eapply others_class|]. exists s. split; [by rewrite Hpool|]. change (isReleased _) with true in Hw.
      assert (sys_wf (class_sys ac' m' k)) as Hw' by (unfold class_sys; by rewrite Hr).
      destruct (call_leave s ac' m' k Hw' Hsc Hst Hcls) as [H1 _]. by rewrite (list_insert_id cls) in H1.
  - by destruct o.
Qed.

Lemma ctx_swap rel live ctxs ac1 m1 c c' : sys_wf (mkSys ac1 m1 rel live (ctxs ++ [c])) →
  slab_ c' = slab_ c → activeAllocations_ c' = activeAllocations_ c → sys_wf (mkSys ac1 m1 rel live (ctxs ++ [c'])).
Proof.
  intros [Hwf [Hnd Hall]] Es Ea. split; [done|].
  assert (slab_ <$> (ctxs ++ [c']) = slab_ <$> (ctxs ++ [c])) as Ef by (rewrite !fmap_app; simpl; by rewrite Es).
  split; cbn [s_ctxs s_ac s_rel s_live] in *; [by rewrite Ef|].
  intros x [Hx| ->%list_elem_of_singleton]%elem_of_app; [apply Hall; set_solver|].
  destruct (Hall c ltac:(set_solver)) as [(? & ? & ?) ?]. unfold ctx_active. by rewrite Es, Ea.
Qed.
Lemma step_call r rc z : k_rel k = Some (r, rc, z) →
  ∃ o ac' m', startRelease_step false r ac m = Ok (o, ac', m') ∧ same_class ac ac' ∧ others id m m' ∧
    match o with
    | Running r' => r_mode r' = r_mode r ∧
        pool_inv id sizes (<[i := ac']> acs) m' (<[i := set_rel (Some (r', rc, z)) k]> cls) spare n
    | Returned ctx => mode_ ctx = r_mode r ∧ pid_ ctx = id ∧
        (if isReleased ctx
         then pool_inv id sizes (<[i := ac']> acs) m' (<[i := set_rel None k]> cls) (slab_ ctx :: spare) (n - 1)
         else pool_inv id sizes (<[i := ac']> acs) m'
                (<[i := add_ctx (setZeroOnRelease z (setReceiver rc ctx)) k]> cls) spare n)
    | Raised _ => False
    end.
Proof.
  intros Hrel. assert (rel_of k = Some r) as Hr by (unfold rel_of; by rewrite Hrel).
  pose proof Hsys as [(online & off & Hwf) _]. cbn in Hwf. rewrite Hr in Hwf.
  destruct (release_step_wf _ _ _ _ _ _ Hwf) as (o & ac' & m' & Ea & Hsc & _ & Ho). exists o, ac', m'. split; [done|]. split; [done|].
  destruct (step_safe (OStep false) _ Hsys) as [(ret & st' & E & (Hw & _ & _ & Hst) & _)|[_ (? & ? & ? & ? & _)]];
    [by cbn; rewrite Hr| |done].
  cbn in E. rewrite Hr in E. cbn in E. rewrite Ea in E. cbn in E. destruct o as [r'|ctx|e]; cbn in E; [| |done].
  - injection E as _ <-. cbn in Hw, Hst. rewrite Hr in Hst. split; [by eapply others_class|]. destruct Ho as (_ & Em & _). split; [done|].
    eapply (call_none ac' m' (set_rel (Some (r', rc, z)) k)); [exact Hw|done|done|]. destruct Hcls as [H1 H2]. split; [done|].
    intros ? ? ? [= <- <- <-]. rewrite Em. by eapply H2.
  - injection E as _ <-. cbn in Hw, Hst. rewrite Hr in Hst. split; [by eapply others_class|].
    destruct Ho as (act & Hph & _ & -> & _). cbn [mode_ pid_]. split; [done|]. split; [done|]. unfold isReleased in *. cbn in Hw, Hst |- *.
    destruct (decide (act = [])) as [->|Hne].
    + rewrite (bool_decide_true ([] = [])) in * by done. rewrite decide_True in Hst by done.
      eapply (call_leave (r_slab r) ac' m' (set_rel None k)); [exact Hw|done|done|]. destruct Hcls as [H1 _]. by split.
    + rewrite bool_decide_false in Hw, Hst |- * by done. rewrite length_app in Hst. cbn in Hst. rewrite decide_False in Hst by lia.
      unfold add_ctx, isReleased. cbn. rewrite bool_decide_false by done.
      eapply (call_none ac' m' (mkCls None (k_live k) (k_ctxs k ++ [_]))); [|done|done|].
      * unfold class_sys. cbn. eapply ctx_swap; [exact Hw|done|done].
      * destruct Hcls as [H1 H2]. split; [|done]. cbn. intros c [Hc| ->%list_elem_of_singleton]%elem_of_app; [by apply H1|].
        split; cbn; [apply (i_class _ _ _ _ _ _ _ Hinv i ac Hi)|]. split; [done|]. split; [done|]. by eapply H2.
Qed.

Lemma complete_call j ctx : k_ctxs k !! j = Some ctx →
  ∃ b ac' m', AllocationClass.completeSlabRelease ctx ac m = Ok (b, ac', m') ∧ same_class ac ac' ∧ others id m m' ∧
    activeAllocations_ ctx ≠ [] ∧
    (if b : bool then pool_inv id sizes (<[i := ac']> acs) m' (<[i := drop_ctx j k]> cls) (slab_ ctx :: spare) (n - 1) ∧
       allocSize (header_at_slab (m_sa m') (slab_ ctx)) = 0
     else ac' = ac ∧ m' = m).
Proof.
  intros Hj. pose proof Hsys as [(online & off & Hwf) [_ Hctx]]. cbn in Hwf, Hctx.
  destruct (Hctx ctx (list_elem_of_lookup_2 _ _ _ Hj)) as [Hact _].
  destruct (complete_aux _ _ _ _ _ _ _ Hwf Hact) as (b & ac' & m' & Ea & Hsc & _ & Hb). exists b, ac', m'. split; [done|]. split; [done|].
  destruct (step_safe (OComplete j) _ Hsys (ex_intro _ ctx Hj)) as [(ret & st' & E & (Hw & _ & _ & Hst) & _)|[_ (? & ? & ? & ? & _)]]; [|done].
  cbn in E. rewrite Hj in E. cbn in E. rewrite Ea in E. cbn in E. injection E as _ <-. cbn in Hw, Hst. rewrite Hj in Hst.
  split; [by eapply others_class|]. split; [apply Hact|]. destruct b; [|done].
  assert (length (k_ctxs k) ≠ 0%nat) by (intros E%nil_length_inv; by rewrite E in Hj).
  rewrite length_delete, decide_False in Hst by (by exists ctx) || lia. cbn in Hst. split.
  - eapply (call_leave (slab_ ctx) ac' m' (drop_ctx j k)); [exact Hw|done|done|]. destruct Hcls as [H1 H2]. split; [|done].
    cbn. intros c Hc. apply H1. by eapply list_elem_of_delete_inv.
  - by destruct (f_left _ _ _ _ _ Hst (slab_ ctx) eq_refl) as (_ & _ & ?).
Qed.
End calls.

(** ** Finding a class *)
Lemma sorted_lookup (l : list Z) i j x y : StronglySorted Z.lt l → l !! i = Some x → l !! j = Some y → (i < j)%nat → x < y.
Proof.
  intros Hs. revert i j. induction Hs as [|a l _ IH Hall]; intros i j Hi Hj Hlt; [done|].
  destruct j as [|j]; [lia|]. cbn in Hj. destruct i as [|i]; cbn in Hi.
  - injection Hi as <-. rewrite Forall_forall in Hall. apply Hall. by eapply list_elem_of_lookup_2.
  - eapply IH; [done..|lia].
Qed.
Lemma lower_bound_loop_spec l v fuel : StronglySorted Z.lt l → ∀ first len, (len < fuel)%nat → (first + len ≤ length l)%nat →
  (∀ j x, l !! j = Some x → (j < first)%nat → x < v) → (∀ j x, l !! j = Some x → (first + len ≤ j)%nat → v ≤ x) →
  ∃ i, lower_bound_loop fuel l first len v = Ok i ∧ (i ≤ length l)%nat ∧
    ∀ j x, l !! j = Some x → ((j < i)%nat → x < v) ∧ ((i ≤ j)%nat → v ≤ x).
Proof.
  intros Hs. induction fuel as [|fuel IH]; intros first len Hf Hle Hlo Hhi; [lia|]. cbn [lower_bound_loop].
  destruct (Nat.eqb_spec len 0) as [->|Hne].
  { exists first. split; [done|]. split; [lia|]. intros j x Hj. split; intros; [by eapply Hlo|eapply Hhi; [done|lia]]. }
  assert (len / 2 < len)%nat as Hhalf by (apply Nat.div_lt; lia). set (half := (len / 2)%nat) in *.
  destruct (lookup_lt_is_Some_2 l (first + half)) as [y Hy]; [lia|]. rewrite Hy. res_simpl. destruct (Z.ltb_spec y v).
  - apply IH; [lia|lia| |].
    + intros j x Hj Hlt. destruct (decide (j = first + half)%nat) as [->|]; [congruence|].
      destruct (decide (j < first + half)%nat); [|lia]. pose proof (sorted_lookup l j (first + half) x y Hs Hj Hy ltac:(lia)). lia.
    + intros j x Hj Hge. eapply Hhi; [done|lia].
  - apply IH; [lia|lia|done|]. intros j x Hj Hge. destruct (decide (j = first + half)%nat) as [->|]; [assert (x = y) by congruence; lia|].
    pose proof (sorted_lookup l (first + half) j y x Hs Hy Hj ltac:(lia)). lia.
Qed.

Lemma s8_small x : 0 ≤ x < 128 → s8 x = x.
Proof. intros. unfold swrap. change (2 ^ 8) with 256. change (2 ^ (8 - 1)) with 128. rewrite Z.mod_small; lia. Qed.

(** The first class that is large enough, by linear search. *)
Definition first_fit (size : Z) (sizes : list Z) : option nat := fst <$> list_find (λ a, size ≤ a) sizes.

Lemma getAllocationClassId_aux size pool : StronglySorted Z.lt (acSizes_ pool) → acSizes_ pool ≠ [] →
  (length (acSizes_ pool) ≤ 128)%nat → length (ac_ pool) = length (acSizes_ pool) → 0 ≤ size →
  getAllocationClassId size pool =
  match first_fit size (acSizes_ pool) with
  | Some i => if size =? 0 then Throw InvalidArgument else Ok (Z.of_nat i)
  | None => Throw InvalidArgument
  end.
Proof.
  intros Hs Hne Hlen Hac Hsz. unfold getAllocationClassId, first_fit. set (l := acSizes_ pool) in *.
  destruct (last l) as [back|] eqn:El; [|by apply last_None in El]. res_simpl. rewrite last_lookup in El.
  destruct (list_find (λ a, size ≤ a) l) as [[i x]|] eqn:Ef.
  - apply list_find_Some in Ef as (Hi & Hx & Hlt). cbn [fmap option_fmap option_map fst].
    assert (size ≤ back) as Hb.
    { destruct (decide (i = pred (length l))) as [->|]; [assert (x = back) by congruence; lia|].
      pose proof (lookup_lt_Some _ _ _ Hi). pose proof (sorted_lookup l i _ x back Hs Hi El ltac:(lia)). lia. }
    rewrite (proj2 (Z.ltb_ge _ _)) by done. cbn [orb]. destruct (size =? 0); [done|]. res_simpl. unfold lower_bound.
    destruct (lower_bound_loop_spec l size (S (length l)) Hs 0 (length l)) as (i' & -> & Hle & Hspec); [lia|lia|lia| |].
    { intros j y Hj Hge. apply lookup_lt_Some in Hj. lia. }
    res_simpl. assert (i' = i) as ->.
    { destruct (Hspec i x Hi) as [H1 H2]. assert (i' ≤ i)%nat by (destruct (decide (i < i')%nat); [lia|lia]).
      destruct (decide (i' = i)); [done|]. destruct (lookup_lt_is_Some_2 l i') as [y Hy]; [apply lookup_lt_Some in Hi; lia|].
      destruct (Hspec i' y Hy) as [_ H3]. destruct (Hlt i' y Hy); lia. }
    pose proof (lookup_lt_Some _ _ _ Hi) as Hil. destruct (Nat.eqb_spec i (length l)) as [|_]; [lia|]. res_simpl.
    rewrite Hac, (proj2 (Nat.ltb_lt _ _)) by done. res_simpl. by rewrite s8_small by lia.
  - apply list_find_None in Ef. rewrite Forall_forall in Ef. apply list_elem_of_lookup_2 in El. specialize (Ef _ El). cbn in Ef.
    by rewrite (proj2 (Z.ltb_lt _ _)) by lia.
Qed.

Section lookup.
Context {pool : MemoryPool} {m : Mem} {cls : list Cls} {spare : list Z} {n : Z}.
Context (Hinv : pool_inv (id_ pool) (acSizes_ pool) (ac_ pool) m cls spare n).

Lemma sizes_length : length (acSizes_ pool) = length (ac_ pool).
Proof. by rewrite <- (i_sizes _ _ _ _ _ _ _ Hinv), length_fmap. Qed.
Lemma class_at_ok i ac : ac_ pool !! i = Some ac → class_at (Z.of_nat i) pool = Ok (i, ac).
Proof. intros Hi. unfold class_at. rewrite (proj2 (Z.ltb_ge _ _)), Nat2Z.id, Hi by lia. done. Qed.
Lemma getAllocationClassFor_ok i ac : ac_ pool !! i = Some ac → getAllocationClassFor (Z.of_nat i) pool = Ok (i, ac).
Proof.
  intros Hi. unfold getAllocationClassFor. pose proof (i_num _ _ _ _ _ _ _ Hinv). pose proof (lookup_lt_Some _ _ _ Hi).
  rewrite s8_small, (proj2 (Z.ltb_lt _ _)) by lia. by apply class_at_ok.
Qed.
(** An admissible size leads to a class of at least that size. *)
Lemma class_for_size size cid : getAllocationClassId size pool = Ok cid → 0 ≤ size →
  ∃ i ac, cid = Z.of_nat i ∧ getAllocationClassFor_size size pool = Ok (i, ac) ∧ ac_ pool !! i = Some ac ∧
    size ≤ allocationSize_ ac.
Proof.
  intros E Hsz. unfold getAllocationClassFor_size. rewrite E. res_simpl.
  pose proof sizes_length. pose proof (i_num _ _ _ _ _ _ _ Hinv).
  rewrite getAllocationClassId_aux in E; [|apply Hinv|by intros E0; rewrite E0 in *; cbn in *; lia|lia|done|done].
  unfold first_fit in E. destruct (list_find _ _) as [[i x]|] eqn:Ef; [|done]. cbn in E. destruct (size =? 0); [done|].
  injection E as <-. apply list_find_Some in Ef as (Hi & Hx & _). rewrite <- (i_sizes _ _ _ _ _ _ _ Hinv), list_lookup_fmap in Hi.
  destruct (ac_ pool !! i) as [ac|] eqn:Ea; [|done]. cbn in Hi. injection Hi as <-. exists i, ac.
  split; [done|]. split; [by apply class_at_ok|]. done.
Qed.
(** Memory that a caller holds leads to its class. *)
Lemma class_for_memory i ac k p : ac_ pool !! i = Some ac → cls !! i = Some k → p ∈ k_live k →
  getAllocationClassFor_memory p pool m = Ok (i, ac).
Proof.
  intros Hi Hk Hp. pose proof (i_sys _ _ _ _ _ _ _ Hinv i ac k Hi Hk) as [(online & off & Hwf) _]. cbn in Hwf.
  destruct (used_header _ _ _ (w_core _ _ _ _ _ _ Hwf) p) as (b & Hh & (Hv & Hcl & Hpl & _) & _); [set_solver|].
  destruct (i_class _ _ _ _ _ _ _ Hinv i ac Hi) as [Ec Ep]. pose proof (i_num _ _ _ _ _ _ _ Hinv).
  pose proof (lookup_lt_Some _ _ _ Hi). unfold getAllocationClassFor_memory, getAllocationClassId_memory. rewrite Hh.
  rewrite Hpl, Hcl, Ep, Ec, Z.eqb_refl. cbn [negb]. change kInvalidClassId with (-1).
  rewrite (proj2 (Z.eqb_neq _ _)) by lia. rewrite s8_small, (proj2 (Z.leb_gt _ _)), (proj2 (Z.ltb_ge _ _)) by lia.
  cbn [orb]. res_simpl. by apply class_at_ok.
Qed.
End lookup.

(** ** Operations of the pool *)
Lemma u64_plus a b : u64 (u64 a + b) = u64 (a + b).
Proof. apply Zplus_mod_idemp_l. Qed.
Lemma u64_minus a b : u64 (u64 a - b) = u64 (a - b).
Proof. apply Zminus_mod_idemp_l. Qed.
Lemma u64_u64 a : u64 (u64 a) = u64 a.
Proof. apply Zmod_mod. Qed.
Lemma alter_insert {A} (f : A → A) i (l : list A) x : l !! i = Some x → alter f i l = <[i := f x]> l.
Proof. revert i. induction l as [|y l IH]; intros [|i] H; cbn in H |- *; try done; [by simplify_eq|]. f_equal. by apply IH. Qed.
Lemma add_live_none k : add_live None k = k.
Proof. by destruct k. Qed.

(** What identifies a pool does not change. *)
Definition same_pool pool pool' : Prop :=
  id_ pool' = id_ pool ∧ acSizes_ pool' = acSizes_ pool ∧ length (ac_ pool') = length (ac_ pool).
Definition pool_post (st st' : PSys) : Prop :=
  pool_wf st' ∧ same_pool (p_pool st) (p_pool st') ∧ others (id_ (p_pool st)) (p_mem st) (p_mem st').
Lemma pool_post_trans st1 st2 st3 : pool_post st1 st2 → pool_post st2 st3 → pool_post st1 st3.
Proof.
  intros (_ & (E1 & E2 & E3) & Ho1) (Hw & (F1 & F2 & F3) & Ho2). split; [done|]. split; [split_and!; congruence|].
  rewrite E1 in Ho2. by eapply others_trans.
Qed.

Section alloc.
Context {pool : MemoryPool} {m : Mem} {cls : list Cls} {drift : Z}.
Let st := mkPSys pool m cls drift.
Context (Hwf : pool_wf st).

Lemma allocate_fast_aux size cid : getAllocationClassId size pool = Ok cid → 0 ≤ size →
  ∃ ret pool' m', allocate_fast size pool m = Ok (ret, pool', m') ∧
    pool_post st (mkPSys pool' m' (alter (add_live ret) (Z.to_nat cid) cls) drift) ∧
    (∀ p, ret = Some p → is_alloc (m_sa m') p ∧ ∃ k, cls !! Z.to_nat cid = Some k ∧ p ∉ k_live k) ∧
    (ret = None → mp_allSlabsAllocated pool' = mp_allSlabsAllocated pool ∧ pool_freeSlabs_ pool' = pool_freeSlabs_ pool) ∧
    maxSize_ pool' = maxSize_ pool ∧ curSlabsAdvised_ pool' = curSlabsAdvised_ pool ∧
    currSlabAllocSize_ pool' = currSlabAllocSize_ pool.
Proof.
  intros E Hsz. destruct Hwf as (n & Hinv & Hslab & Halloc). cbn in Hslab, Halloc. unfold slabs_held in Hinv. cbn in Hinv.
  destruct (class_for_size Hinv size cid E Hsz) as (i & ac & -> & Ecl & Hi & Hle). rewrite Nat2Z.id.
  destruct (inv_lookup Hinv i ac Hi) as (k & Hk & _).
  destruct (allocate_call Hinv Hi Hk) as (ret & ac' & m' & Ea & (Esz & Ecid & Epid) & Hinv' & Hoth & Hret).
  unfold allocate_fast. rewrite Ecl. res_simpl. rewrite Ea. res_simpl. rewrite Esz, (proj2 (Z.leb_le _ _)) by done. res_simpl.
  eexists _, _, _. split; [done|]. rewrite (alter_insert _ _ _ _ Hk). split; [|split; [|split; [|by destruct ret]]].
  - split; [exists n|split; [|done]].
    + destruct ret as [p|]; cbn; (split; [exact Hinv'|]); (split; [done|]); rewrite (live_bytes_insert _ _ i ac k) by done; cbn.
      * destruct (Hret p eq_refl) as [Hp _]. rewrite size_union, size_singleton by set_solver.
        rewrite Halloc, u64_plus. f_equal. lia.
      * rewrite Halloc. f_equal. lia.
    + unfold same_pool. cbn. destruct ret; cbn; by rewrite length_insert.
  - intros p ->. destruct (Hret p eq_refl). split; [done|]. by exists k.
  - by intros ->.
Qed.

(** A pool only grows when the slab fits its size. *)
Definition within_limit pool pool' : Prop :=
  maxSize_ pool' = maxSize_ pool ∧ curSlabsAdvised_ pool' = curSlabsAdvised_ pool ∧
  (currSlabAllocSize_ pool' ≠ currSlabAllocSize_ pool →
   u64 (currSlabAllocSize_ pool' + getPoolAdvisedSize pool') ≤ maxSize_ pool').

(** The pool takes a slab in hand, or has none to take. *)
Lemma getSlabLocked_aux n : slabs_held st n → currSlabAllocSize_ pool = u64 (kSize * (n - drift)) →
  ∃ ret pool' m', getSlabLocked pool m = Ok (ret, pool', m') ∧ ac_ pool' = ac_ pool ∧ acSizes_ pool' = acSizes_ pool ∧
    id_ pool' = id_ pool ∧ currAllocSize_ pool' = currAllocSize_ pool ∧ others (id_ pool) m m' ∧
    currSlabAllocSize_ pool' = u64 (kSize * (n + (if is_null ret then 0 else 1) - drift)) ∧
    pool_inv (id_ pool) (acSizes_ pool) (ac_ pool) m' cls (option_list ret ++ pool_freeSlabs_ pool') n ∧
    (ret = None ↔ mp_allSlabsAllocated pool = true ∨
       pool_freeSlabs_ pool = [] ∧ freeSlabs (m_sa m) = [] ∧ allMemorySlabbed (m_sa m) = true) ∧
    (ret = None → freeSlabs (m_sa m') = freeSlabs (m_sa m) ∧ allMemorySlabbed (m_sa m') = allMemorySlabbed (m_sa m)) ∧
    within_limit pool pool'.
Proof.
  intros Hinv Hslab. unfold slabs_held in Hinv. cbn in Hinv. unfold getSlabLocked.
  assert (others (id_ pool) m m) as Hrefl by (intros id' _ _; apply pool_env_refl, Hinv).
  destruct (mp_allSlabsAllocated pool) eqn:Eall.
  { eexists None, _, _. split; [done|]. split_and!; try done; [rewrite Hslab; f_equal; cbn; lia|split; [by left|done]]. }
  assert (u64 (u64 (currSlabAllocSize_ pool + kSize) + getPoolAdvisedSize pool) ≤ maxSize_ pool) as Hlim.
  { unfold mp_allSlabsAllocated in Eall. apply Z.ltb_ge in Eall. rewrite u64_plus.
    by replace (currSlabAllocSize_ pool + kSize + getPoolAdvisedSize pool) with
      (currSlabAllocSize_ pool + getPoolAdvisedSize pool + kSize) by lia. }
  cbn [pool_freeSlabs_ with_slabAllocSize id_]. destruct (last (pool_freeSlabs_ pool)) as [s|] eqn:El.
  - eexists (Some s), _, _. split; [done|]. cbn. split_and!; try done.
    + rewrite Hslab, u64_plus. f_equal. lia.
    + apply last_split in El. replace (pool_freeSlabs_ pool) with (removelast (pool_freeSlabs_ pool) ++ [s]) in Hinv by done.
      destruct Hinv as [I1 I0 I2 I3 I4 I5 I6 I7 I8 I9 I10 I11 I12 I13].
      assert (removelast (pool_freeSlabs_ pool) ++ [s] ≡ₚ s :: removelast (pool_freeSlabs_ pool)) as Hp by (by rewrite <- Permutation_cons_append).
      split; try done; [by rewrite <- Hp|intros x Hx; apply I11; by rewrite Hp|]. intros x Hx. rewrite <- Hp. by apply I12.
    + split; [done|]. intros [|[Hn _]]; [done|]. by rewrite Hn in El.
  - apply last_None in El. destruct (makeNewSlab_step (id_ pool) (m_sa m)) as (r & sa' & -> & Hst & Hr & Hno); [apply Hinv..|].
    res_simpl. assert (∀ id', id' ≠ id_ pool → 0 ≤ id' → pool_env id' m (with_sa sa' m)) as Ho.
    { intros id' Hne Hid. by eapply sa_step_env; [done|apply Hinv|done|done|done|apply Hinv]. }
    pose proof (inv_slabs Hinv sa' r None (pool_freeSlabs_ pool) Hst ltac:(done)) as Hinv'.
    eexists r, _, _. split; [done|]. destruct r as [s|]; cbn; split_and!; try done.
    + rewrite Hslab, u64_plus. f_equal. lia.
    + split; [done|]. intros [|(_ & Hf & Ha)]; [done|]. by apply Hr.
    + rewrite Hslab, u64_minus, Z.add_simpl_r, u64_u64. f_equal. lia.
    + split; [|done]. intros _. right. split; [done|]. by apply Hr.
    + repeat (split; [done|]). intros Hne. destruct Hne. cbn. rewrite Hslab, u64_minus, Z.add_simpl_r. apply u64_u64.
Qed.
End alloc.

Lemma allocate_slow_aux pool m cls drift size cid : pool_wf (mkPSys pool m cls drift) →
  getAllocationClassId size pool = Ok cid → 0 ≤ size →
  ∃ ret pool' m', allocate_slow size pool m = Ok (ret, pool', m') ∧
    pool_post (mkPSys pool m cls drift) (mkPSys pool' m' (alter (add_live ret) (Z.to_nat cid) cls) drift) ∧
    (∀ p, ret = Some p → is_alloc (m_sa m') p ∧ ∃ k, cls !! Z.to_nat cid = Some k ∧ p ∉ k_live k) ∧
    (ret = None → mp_allSlabsAllocated pool = true ∨
       pool_freeSlabs_ pool = [] ∧ freeSlabs (m_sa m') = [] ∧ allMemorySlabbed (m_sa m') = true) ∧
    within_limit pool pool'.
Proof.
  intros (n & Hinv & Hslab & Halloc) E Hsz. cbn in Hslab, Halloc. unfold slabs_held in Hinv. cbn in Hinv.
  destruct (class_for_size Hinv size cid E Hsz) as (i & ac & -> & Ecl & Hi & Hle). rewrite Nat2Z.id.
  destruct (inv_lookup Hinv i ac Hi) as (k & Hk & _).
  destruct (allocate_call Hinv Hi Hk) as (ret & ac' & m' & Ea & (Esz & Ecid & Epid) & Hinv' & Hoth & Hret).
  unfold allocate_slow. rewrite Ecl. res_simpl. rewrite Ea. res_simpl.
  assert (i < length (ac_ pool))%nat as Hlt by (by eapply lookup_lt_Some). destruct ret as [p|].
  { change (is_null (Some p)) with false. cbn [negb]. eexists _, _, _. split; [done|]. rewrite (alter_insert _ _ _ _ Hk). split; [|split; [|done]].
    - split; [exists n|split; [|done]]; cbn.
      + split; [exact Hinv'|]. split; [done|]. cbn. rewrite (live_bytes_insert _ _ i ac k) by done. cbn.
        destruct (Hret p eq_refl) as [Hp _]. rewrite size_union, size_singleton by set_solver.
        rewrite Halloc, u64_plus, Esz. f_equal. lia.
      + unfold same_pool. cbn. by rewrite length_insert.
    - intros q [= <-]. destruct (Hret p eq_refl). split; [done|]. by exists k. }
  change (is_null None) with true. cbn [negb]. rewrite add_live_none, (list_insert_id cls) in Hinv' by done.
  set (pool1 := with_class i ac' pool) in *.
  destruct (@getSlabLocked_aux pool1 m' cls drift n Hinv' Hslab) as
    (slab & pool2 & m2 & -> & A1 & A2 & A3 & A4 & Hoth2 & Hslab2 & Hinv2 & Hnull & Hno & Hlim). res_simpl.
  assert (others (id_ pool) m m2) as Ho12 by (by eapply others_trans).
  destruct slab as [s|]; cycle 1.
  { eexists _, _, _. split; [done|]. rewrite (alter_insert _ _ _ _ Hk), add_live_none, list_insert_id by done. split; [|split; [done|split; [|done]]].
    - split; [exists n|split; [|done]]; cbn.
      + unfold slabs_held. cbn. rewrite A1, A2, A3. split; [exact Hinv2|]. cbn in Hslab2. replace (n + 0) with n in Hslab2 by lia.
        split; [done|]. rewrite A4. cbn. rewrite Halloc. f_equal. rewrite <- (list_insert_id cls i k) at 2 by done.
        rewrite (live_bytes_insert _ _ i ac k) by done. lia.
      + unfold same_pool. cbn. rewrite A1, A2, A3. cbn. by rewrite length_insert.
    - intros _. destruct (proj1 Hnull eq_refl) as [Hall|(? & Hf & Hm)]; [by left|right]. split; [done|].
      destruct (Hno eq_refl) as [-> ->]. done. }
  assert (<[i := ac']> (ac_ pool) !! i = Some ac') as Hi' by (by rewrite list_lookup_insert_eq).
  destruct (addSlabAndAllocate_call Hinv2 Hi' Hk s (pool_freeSlabs_ pool2) ltac:(done)) as
    (p & ac2 & m3 & -> & (Esz2 & _ & _) & Hinv3 & Hoth3 & Hp & Hal). res_simpl.
  change (is_null (Some p)) with false. res_simpl. eexists _, _, _. split; [done|]. rewrite (alter_insert _ _ _ _ Hk). split; [|split; [|done]].
  - split; [exists (n + 1)|split; [|by eapply others_trans]]; cbn.
    + unfold slabs_held. cbn. rewrite A1, A2, A3. split; [exact Hinv3|]. cbn in Hslab2. split; [done|].
      change (ac_ pool1) with (<[i := ac']> (ac_ pool)). rewrite list_insert_insert_eq, (live_bytes_insert _ _ i ac k) by (done || congruence).
      cbn. rewrite size_union, size_singleton by set_solver. rewrite A4. cbn. rewrite Halloc, u64_plus, Esz2, Esz. f_equal. lia.
    + unfold same_pool. cbn. rewrite A1, A2, A3. cbn. by rewrite !length_insert.
  - intros q [= <-]. split; [done|]. by exists k.
Qed.

Lemma alter_add_none i (cls : list Cls) : alter (add_live None) i cls = cls.
Proof.
  destruct (cls !! i) as [k|] eqn:Hk; [by rewrite (alter_insert _ _ _ _ Hk), add_live_none, list_insert_id|].
  revert i Hk. induction cls as [|c cls IH]; intros [|i] Hk; try done. cbn. f_equal. by apply IH.
Qed.
Lemma classId_same pool pool' size : same_pool pool pool' → getAllocationClassId size pool' = getAllocationClassId size pool.
Proof. intros (_ & E1 & E2). unfold getAllocationClassId. by rewrite E1, E2. Qed.

Lemma mp_allocate_aux pool m cls drift size cid : pool_wf (mkPSys pool m cls drift) →
  getAllocationClassId size pool = Ok cid → 0 ≤ size →
  ∃ ret pool' m', mp_allocate size pool m = Ok (ret, pool', m') ∧
    pool_post (mkPSys pool m cls drift) (mkPSys pool' m' (alter (add_live ret) (Z.to_nat cid) cls) drift) ∧
    (∀ p, ret = Some p → is_alloc (m_sa m') p ∧ ∃ k, cls !! Z.to_nat cid = Some k ∧ p ∉ k_live k) ∧
    (ret = None → mp_allSlabsAllocated pool = true ∨
       pool_freeSlabs_ pool = [] ∧ freeSlabs (m_sa m') = [] ∧ allMemorySlabbed (m_sa m') = true) ∧
    within_limit pool pool'.
Proof.
  intros Hwf E Hsz. unfold mp_allocate.
  destruct (allocate_fast_aux Hwf size cid E Hsz) as (ret & pool1 & m1 & -> & Hpost & Hret & Hnone & L1 & L2 & L3). res_simpl.
  assert (within_limit pool pool1) as Hlim1 by (by split_and!; [..|rewrite L3]).
  destruct ret as [p|]; [by eexists _, _, _|]. change (is_null None) with true. cbn [negb]. destruct (Hnone eq_refl) as [Eall Efree].
  rewrite alter_add_none in Hpost. destruct (mp_allSlabsAllocated pool1) eqn:Eall1.
  { eexists _, _, _. split; [done|]. rewrite alter_add_none. split; [done|]. split; [done|]. split; [|done]. intros _. left. congruence. }
  destruct Hpost as (Hw1 & Hsame & Hoth).
  destruct (allocate_slow_aux pool1 m1 cls drift size cid Hw1) as (ret & pool' & m' & -> & Hpost' & Hret' & Hn' & M1 & M2 & M3); [|done|].
  { by rewrite (classId_same pool). }
  eexists _, _, _. split; [done|]. split; [by eapply pool_post_trans|]. split; [done|]. split.
  - rewrite <- Efree. intros [|]%Hn'; [left; congruence|by right].
  - split_and!; [congruence..|]. rewrite <- L3. exact M3.
Qed.

Lemma mp_free_aux pool m cls drift i k p : pool_wf (mkPSys pool m cls drift) → cls !! i = Some k → p ∈ k_live k →
  ∃ pool' m', mp_free p pool m = Ok (pool', m') ∧
    pool_post (mkPSys pool m cls drift) (mkPSys pool' m' (alter (drop_live p) i cls) drift).
Proof.
  intros (n & Hinv & Hslab & Halloc) Hk Hp. cbn in Hslab, Halloc. unfold slabs_held in Hinv. cbn in Hinv.
  destruct (lookup_lt_is_Some_2 (ac_ pool) i) as [ac Hi].
  { rewrite <- (i_len _ _ _ _ _ _ _ Hinv). by eapply lookup_lt_Some. }
  unfold mp_free. rewrite (class_for_memory Hinv i ac k p Hi Hk Hp). res_simpl.
  destruct (free_call Hinv Hi Hk p Hp) as (ac' & m' & -> & (Esz & _) & Hinv' & Hoth). res_simpl.
  eexists _, _. split; [done|]. rewrite (alter_insert _ _ _ _ Hk). split; [exists n|split; [|done]]; cbn.
  - split; [exact Hinv'|]. split; [done|]. cbn. rewrite (live_bytes_insert _ _ i ac k) by done. cbn.
    rewrite size_difference, size_singleton by set_solver. rewrite Halloc, u64_minus, Esz. f_equal.
    assert (size (k_live k) ≠ 0%nat) by (intros E%size_empty_inv; set_solver).
    rewrite Nat2Z.inj_sub by lia. lia.
  - unfold same_pool. cbn. by rewrite length_insert.
Qed.

(** ** Slabs in hand *)
Lemma inv_perm id sizes acs m cls spare spare' n : pool_inv id sizes acs m cls spare n → spare ≡ₚ spare' →
  pool_inv id sizes acs m cls spare' n.
Proof.
  intros [I1 I0 I2 I3 I4 I5 I6 I7 I8 I9 I10 I11 I12 I13] Hp. split; try done; [by rewrite <- Hp|intros s Hs; apply I11; by rewrite Hp|].
  intros s Hs. rewrite <- Hp. by apply I12.
Qed.
Lemma others_zero id m s : sa_wf (m_sa m) → of_pool id (m_sa m) s → others id m (zero_slab s m).
Proof.
  intros Hsa Hs id' Hne Hid. split; cbn [m_sa zero_slab with_hooks m_hooks]; try done. intros x Hx. rewrite map_lookup_imap.
  destruct (m_hooks m !! x) as [c|]; [cbn|done]. destruct (Z.eqb_spec (getSlabForMemory x) s) as [<-|]; [|done].
  destruct Hs, Hx. congruence.
Qed.

(** The slab leaves the hand of [releaseSlab]: to the slab allocator, the spare
    slabs or the receiving class. *)
Definition slab_moved (mode : SlabReleaseMode) (receiver s : Z) pool m : Prop :=
  match mode with
  | kResize => ¬ in_use (m_sa m) s
  | kAdvise => ¬ in_use (m_sa m) s ∨ s ∈ pool_freeSlabs_ pool
  | kRebalance =>
      if receiver =? kInvalidClassId then s ∈ pool_freeSlabs_ pool
      else ∃ ac, ac_ pool !! Z.to_nat receiver = Some ac ∧ is_ours ac (m_sa m) s
  end.
Lemma sa_step_gone id sa sa' s : sa_step id sa sa' None (Some s) → ¬ in_use sa' s.
Proof. intros Hst [[_ H]|]%(t_use _ _ _ _ _ Hst); [by apply H|done]. Qed.
Lemma releaseSlab_aux mode s zero rc madviseOk pool m cls n drift :
  pool_inv (id_ pool) (acSizes_ pool) (ac_ pool) m cls (s :: pool_freeSlabs_ pool) n →
  currSlabAllocSize_ pool = u64 (kSize * (n + 1 - drift)) → currAllocSize_ pool = u64 (live_bytes (ac_ pool) cls) →
  receiver_ok (Z.of_nat (length (ac_ pool))) rc mode →
  ∃ pool' m', releaseSlab mode s zero rc madviseOk pool m = Ok (pool', m') ∧ pool_wf (mkPSys pool' m' cls drift) ∧
    same_pool pool pool' ∧ others (id_ pool) m m' ∧ slab_moved mode rc s pool' m'.
Proof.
  intros Hinv0 Hslab Halloc Hrc. unfold releaseSlab.
  set (m0 := if zero then zero_slab s m else m).
  assert (pool_inv (id_ pool) (acSizes_ pool) (ac_ pool) m0 cls (s :: pool_freeSlabs_ pool) n ∧ others (id_ pool) m m0) as [Hinv Ho0].
  { unfold m0. destruct zero; [split; [apply (inv_zero Hinv0); by left|]|].
    - apply others_zero; [apply Hinv0|]. apply (spare_of_pool Hinv0). by left.
    - split; [done|]. intros id' _ _. apply pool_env_refl, Hinv0. }
  assert (∀ m', others (id_ pool) m0 m' → others (id_ pool) m m') as Hot by (intros m' H; by eapply others_trans). clearbody m0. clear Hinv0.
  pose proof (i_spare _ _ _ _ _ _ _ Hinv s ltac:(by left)) as (Hu & _ & Hpl & _).
  assert (sound (header_at_slab (m_sa m0) s)) as Hsd.
  { apply (i_slabs _ _ _ _ _ _ _ Hinv). apply (spare_of_pool Hinv). by left. }
  assert (∀ sa' rem, sa_step (id_ pool) (m_sa m0) sa' None rem → (∀ x, rem = Some x → x = s) → others (id_ pool) m0 (with_sa sa' m0)) as Hsao.
  { intros sa' rem Hst Hrem id' Hne Hid. eapply sa_step_env; [done|apply Hinv|done|done| |apply Hinv]. by intros x ->%Hrem. }
  destruct mode.
  - destruct (freeSlab_step (id_ pool) s (m_sa m0)) as (sa' & -> & Hst); [apply Hinv|done|rewrite Hpl; apply Hinv|]. res_simpl.
    eexists _, _. split; [done|]. split; [exists n|split; [done|split; [apply Hot, (Hsao _ _ Hst); congruence|by eapply sa_step_gone]]]; cbn.
    split; [exact (inv_slabs Hinv sa' None (Some s) (pool_freeSlabs_ pool) Hst ltac:(done))|]. split; [|done]. rewrite Hslab, u64_minus. f_equal. lia.
  - destruct Hrc as [->|[Hrc _]].
    + rewrite Z.eqb_refl. cbn [negb]. eexists _, _. split; [done|].
      split; [exists n|split; [done|split; [apply Hot; intros id' _ _; apply pool_env_refl, Hinv|cbn; set_solver]]]; cbn.
      split; [eapply inv_perm; [exact Hinv|apply Permutation_cons_append]|]. split; [|done].
      cbn. rewrite Hslab, u64_minus. f_equal. lia.
    + change kInvalidClassId with (-1). rewrite (proj2 (Z.eqb_neq _ _)) by lia. cbn [negb].
      destruct (lookup_lt_is_Some_2 (ac_ pool) (Z.to_nat rc)) as [ac Hi]; [lia|].
      replace rc with (Z.of_nat (Z.to_nat rc)) by lia. rewrite (getAllocationClassFor_ok Hinv _ ac Hi).
      res_simpl. destruct (inv_lookup Hinv _ ac Hi) as (k & Hk & _).
      destruct (addSlab_call Hinv Hi Hk s (pool_freeSlabs_ pool) ltac:(done)) as (ac' & m' & -> & (Esz & _) & Hinv' & Hoth & Hours). res_simpl.
      eexists _, _. split; [done|]. split; [exists (n + 1)|split; [|split; [by apply Hot|]]]; cbn.
      * rewrite (list_insert_id cls) in Hinv' by done. split; [exact Hinv'|]. split; [done|]. cbn. rewrite Halloc. f_equal.
        rewrite <- (list_insert_id cls (Z.to_nat rc) k) at 2 by done. rewrite (live_bytes_insert _ _ _ ac k) by done. lia.
      * unfold same_pool. cbn. by rewrite length_insert.
      * change kInvalidClassId with (-1). rewrite (proj2 (Z.eqb_neq _ _)) by lia. exists ac'. rewrite Z2Nat.id by lia.
        by rewrite list_lookup_insert_eq by (by eapply lookup_lt_Some).
  - destruct (adviseSlab_step (id_ pool) madviseOk s (m_sa m0)) as (b & sa' & -> & Hst); [apply Hinv|done|done|]. res_simpl.
    eexists _, _. split; [done|]. split; [exists n|split; [by destruct b|split; [apply Hot, (Hsao _ _ Hst); by destruct b; intros x [= ->]|]]]; cbn; cycle 1.
    { destruct b; [left; by eapply sa_step_gone|right; cbn; set_solver]. }
    destruct b; cbn.
    + split; [exact (inv_slabs Hinv sa' None (Some s) (pool_freeSlabs_ pool) Hst ltac:(done))|]. split; [|done]. cbn. rewrite Hslab, u64_minus. f_equal. lia.
    + split; [|split; [cbn; rewrite Hslab, u64_minus; f_equal; lia|done]].
      eapply inv_perm; [exact (inv_slabs Hinv sa' None None (s :: pool_freeSlabs_ pool) Hst ltac:(done))|]. apply Permutation_cons_append.
Qed.

(** ** Releases *)
Lemma drift_eq n drift : kSize * (n - drift) = kSize * (n - 1 + 1 - drift).
Proof. f_equal. lia. Qed.

(** The class has answered. *)
Lemma outcome_aux pool m cls0 drift i ac ac' m' k o rc zero madviseOk n :
  currSlabAllocSize_ pool = u64 (kSize * (n - drift)) → currAllocSize_ pool = u64 (live_bytes (ac_ pool) cls0) →
  ac_ pool !! i = Some ac → cls0 !! i = Some k → same_class ac ac' → others (id_ pool) m m' →
  receiver_ok (Z.of_nat (length (ac_ pool))) rc (match o with Returned ctx => mode_ ctx | _ => kRebalance end) →
  match o with
  | Running r => pool_inv (id_ pool) (acSizes_ pool) (<[i := ac']> (ac_ pool)) m'
                   (<[i := set_rel (Some (r, rc, zero)) k]> cls0) (pool_freeSlabs_ pool) n
  | Returned ctx =>
      if isReleased ctx
      then pool_inv (id_ pool) (acSizes_ pool) (<[i := ac']> (ac_ pool)) m' (<[i := set_rel None k]> cls0)
             (slab_ ctx :: pool_freeSlabs_ pool) (n - 1)
      else pool_inv (id_ pool) (acSizes_ pool) (<[i := ac']> (ac_ pool)) m'
             (<[i := add_ctx (setZeroOnRelease zero (setReceiver rc ctx)) k]> cls0) (pool_freeSlabs_ pool) n
  | Raised _ => False
  end →
  ∃ st', pool_outcome i rc zero madviseOk o (with_class i ac' pool) m' cls0 drift = Ok (None, st') ∧
    pool_post (mkPSys pool m cls0 drift) st' ∧ (∀ j k', p_cls st' !! j = Some k' → ∃ k, cls0 !! j = Some k ∧ k_live k' = k_live k).
Proof.
  intros Hslab Halloc Hi Hk (Esz & _) Hoth Hrc Ho.
  assert (same_pool pool (with_class i ac' pool)) as Hsame by (unfold same_pool; cbn; by rewrite length_insert).
  assert (∀ k', k_live k' = k_live k → u64 (live_bytes (<[i := ac']> (ac_ pool)) (<[i := k']> cls0)) = currAllocSize_ pool) as Hb.
  { intros k' Ek. rewrite (live_bytes_insert _ _ i ac k) by done. rewrite Ek, Halloc. f_equal. lia. }
  assert (∀ k', k_live k' = k_live k → ∀ j k1, <[i := k']> cls0 !! j = Some k1 → ∃ k2, cls0 !! j = Some k2 ∧ k_live k1 = k_live k2) as Hl.
  { intros k' Ek j k1 Hj. destruct (decide (j = i)) as [->|]; [|rewrite list_lookup_insert_ne in Hj by done; by exists k1].
    rewrite list_lookup_insert_eq in Hj by (by eapply lookup_lt_Some). injection Hj as <-. by exists k. }
  destruct o as [r|ctx|e]; [| |done].
  - cbn. eexists. split; [done|]. rewrite (alter_insert _ _ _ _ Hk). split; [|by apply Hl]. split; [exists n|done].
    cbn. split; [exact Ho|]. split; [done|]. cbn. by rewrite Hb.
  - cbn [pool_outcome mp_startRelease_end]. set (ctx' := setZeroOnRelease zero (setReceiver rc ctx)).
    change (isReleased ctx') with (isReleased ctx). change (mode_ ctx') with (mode_ ctx). change (slab_ ctx') with (slab_ ctx).
    destruct (isReleased ctx) eqn:Er; res_simpl.
    + destruct (releaseSlab_aux (mode_ ctx) (slab_ ctx) zero rc madviseOk (with_class i ac' pool) m' (<[i := set_rel None k]> cls0) (n - 1) drift)
        as (pool' & m2 & -> & Hw & Hsame' & Hoth' & _).
      { exact Ho. } { cbn. by rewrite Hslab, drift_eq. } { cbn. by rewrite Hb. } { cbn. by rewrite length_insert. }
      res_simpl. eexists. split; [done|]. rewrite (alter_insert _ _ _ _ Hk). unfold add_ctx. change (isReleased ctx') with (isReleased ctx).
      rewrite Er. split; [|by apply Hl]. split; [done|]. split; [|by eapply others_trans].
      destruct Hsame as (? & ? & ?), Hsame' as (? & ? & ?). cbn in *. split_and!; cbn; congruence.
    + eexists. split; [done|]. rewrite (alter_insert _ _ _ _ Hk). split; [|by apply Hl]. split; [exists n|done].
      cbn. split; [exact Ho|]. split; [done|]. cbn. by rewrite Hb.
Qed.

(** The class has been left by all callers, or not yet. *)
Lemma mp_complete_aux pool m cls drift i j k ctx madviseOk : pool_wf (mkPSys pool m cls drift) → cls !! i = Some k → k_ctxs k !! j = Some ctx →
  ∃ b pool' m', mp_completeSlabRelease ctx madviseOk pool m = Ok (b, pool', m') ∧
    pool_post (mkPSys pool m cls drift) (mkPSys pool' m' (if b : bool then alter (drop_ctx j) i cls else cls) drift) ∧
    (if b then slab_moved (mode_ ctx) (receiver_ ctx) (slab_ ctx) pool' m' else pool' = pool ∧ m' = m).
Proof.
  intros Hwf Hk Hj. pose proof Hwf as (n & Hinv & Hslab & Halloc). unfold slabs_held in Hinv. cbn in Hinv, Hslab, Halloc.
  destruct (lookup_lt_is_Some_2 (ac_ pool) i) as [ac Hi].
  { rewrite <- (i_len _ _ _ _ _ _ _ Hinv). by eapply lookup_lt_Some. }
  destruct (proj1 (i_cls _ _ _ _ _ _ _ Hinv i k Hk) ctx (list_elem_of_lookup_2 _ _ _ Hj)) as (Ev & _ & [zero Ez] & Hrc).
  destruct (complete_call Hinv Hi Hk j ctx Hj) as (b & ac' & m' & Ec & (Esz & _) & Hoth & Hact & Hb).
  unfold mp_completeSlabRelease, isReleased. rewrite bool_decide_false by done.
  assert (negb (receiver_ ctx =? kInvalidClassId) && match mode_ ctx with kRebalance => false | _ => true end = false) as ->.
  { destruct Hrc as [->|[_ ->]]; [done|by rewrite andb_false_r]. }
  res_simpl. rewrite Ez. res_simpl. rewrite Ev, (getAllocationClassFor_ok Hinv i ac Hi). res_simpl. rewrite Ec. res_simpl.
  assert (same_pool pool (with_class i ac' pool)) as Hsame by (unfold same_pool; cbn; by rewrite length_insert).
  destruct b; cbn [negb]; res_simpl; cycle 1.
  { destruct Hb as [-> ->]. assert (with_class i ac pool = pool) as -> by (destruct pool; unfold with_class; cbn in *; by rewrite list_insert_id).
    eexists _, _, _. by split_and!. }
  destruct Hb as [Hinv' Hz]. pose proof (i_spare _ _ _ _ _ _ _ Hinv' (slab_ ctx) ltac:(by left)) as ((Hv & _) & Hcl & Hpl & _).
  unfold header_at_slab in Hcl, Hpl, Hz. unfold header_of, header_at. rewrite header_of_valid by done. res_simpl.
  rewrite Hcl, Hpl, Hz, !Z.eqb_refl. res_simpl.
  destruct (releaseSlab_aux (mode_ ctx) (slab_ ctx) zero (receiver_ ctx) madviseOk (with_class i ac' pool) m' (<[i := drop_ctx j k]> cls) (n - 1) drift)
    as (pool' & m2 & -> & Hw & Hsame' & Hoth' & Hmv).
  { exact Hinv'. } { cbn. by rewrite Hslab, drift_eq. }
  { cbn. rewrite (live_bytes_insert _ _ i ac k) by done. rewrite Halloc. f_equal. cbn. lia. } { cbn. by rewrite length_insert. }
  res_simpl. eexists _, _, _. split; [done|]. rewrite (alter_insert _ _ _ _ Hk). split; [|done]. split; [done|]. split; [|by eapply others_trans].
  destruct Hsame as (? & ? & ?), Hsame' as (? & ? & ?). cbn in *. split_and!; cbn; congruence.
Qed.

Lemma reclaim_aux cls drift k : ∀ num pool m, pool_wf (mkPSys pool m cls drift) →
  ∃ r pool' m', reclaim_loop k num pool m = Ok (r, pool', m') ∧ pool_post (mkPSys pool m cls drift) (mkPSys pool' m' cls drift).
Proof.
  induction k as [|k IH]; intros num pool m Hwf.
  { eexists _, _, _. split; [done|]. split; [done|]. split; [done|]. intros id' _ _. cbn. apply pool_env_refl.
    destruct Hwf as (n & Hinv & _). apply Hinv. }
  pose proof Hwf as (n & Hinv & Hslab & Halloc). cbn in Hslab, Halloc. unfold slabs_held in Hinv. cbn in Hinv. cbn [reclaim_loop].
  destruct (reclaimSlab_step (id_ pool) (m_sa m)) as (r & sa' & -> & Hst & _); [apply Hinv..|]. res_simpl.
  pose proof (inv_slabs Hinv sa' r None (pool_freeSlabs_ pool) Hst ltac:(done)) as Hinv'.
  assert (others (id_ pool) m (with_sa sa' m)) as Hoth.
  { intros id' Hne Hid. by eapply sa_step_env; [done|apply Hinv|done|done|done|apply Hinv]. }
  destruct r as [s|].
  - pose proof (i_spare _ _ _ _ _ _ _ Hinv' s ltac:(by left)) as ((Hv & _) & _ & Hp & _). cbn in Hv, Hp.
    rewrite header_of_valid by done. res_simpl. unfold header_at_slab in Hp. rewrite Hp, Z.eqb_refl. res_simpl.
    destruct (IH (u32 (num + 1)) (setNumSlabsAdvised (u64 (curSlabsAdvised_ pool - 1)) (with_freeSlabs (pool_freeSlabs_ pool ++ [s]) pool))
      (with_sa sa' m)) as (r & pool' & m' & -> & Hpost).
    { exists n. cbn. split; [|done]. eapply inv_perm; [exact Hinv'|]. apply Permutation_cons_append. }
    eexists _, _, _. split; [done|]. destruct Hpost as (Hw & Hsame & Ho). split; [done|]. split; [done|]. by eapply others_trans.
  - eexists _, _, _. split; [done|]. split; [|done]. exists n. cbn. split; [exact Hinv'|done].
Qed.

(** ** Allocations of different classes are apart *)
Lemma live_ours id sizes acs m cls spare n i ac k p : pool_inv id sizes acs m cls spare n → acs !! i = Some ac → cls !! i = Some k →
  p ∈ k_live k → is_ours ac (m_sa m) (getSlabForMemory p).
Proof.
  intros Hinv Hi Hk Hp. pose proof (i_sys _ _ _ _ _ _ _ Hinv i ac k Hi Hk) as [(online & off & Hwf) _]. cbn in Hwf.
  destruct (used_header _ _ _ (w_core _ _ _ _ _ _ Hwf) p) as (b & _ & (? & ? & ? & _) & _); [set_solver|]. done.
Qed.
Lemma live_disjoint id sizes acs m cls spare n i j k k' p : pool_inv id sizes acs m cls spare n → cls !! i = Some k → cls !! j = Some k' →
  p ∈ k_live k → p ∈ k_live k' → i = j.
Proof.
  intros Hinv Hk Hk' Hp Hp'. destruct (decide (i = j)) as [|Hne]; [done|].
  destruct (lookup_lt_is_Some_2 acs i) as [ac Hi]; [rewrite <- (i_len _ _ _ _ _ _ _ Hinv); by eapply lookup_lt_Some|].
  destruct (lookup_lt_is_Some_2 acs j) as [ac' Hj]; [rewrite <- (i_len _ _ _ _ _ _ _ Hinv); by eapply lookup_lt_Some|].
  destruct (live_ours _ _ _ _ _ _ _ i ac k p Hinv Hi Hk Hp) as (_ & E1 & E2).
  destruct (live_ours _ _ _ _ _ _ _ j ac' k' p Hinv Hj Hk' Hp') as (_ & E3 & E4).
  destruct (class_ids Hinv i j ac ac' Hi Hj Hne) as [Hd _]. exfalso. apply Hd. congruence.
Qed.

(** ** Every step *)
Definition held (st : PSys) (p : Z) : Prop := ∃ i k, p_cls st !! i = Some k ∧ p ∈ k_live k.
Definition ret_ok (st : PSys) (ret : option Z) (st' : PSys) : Prop :=
  ∀ p, ret = Some p → ¬ held st p ∧ held st' p ∧ is_alloc (m_sa (p_mem st')) p.
(** The calls that may throw [std::invalid_argument], and when. *)
Definition refused (o : pop) (st : PSys) : Prop :=
  match o with
  | PAllocate size | PAllocateSlow size => size = 0 ∨ first_fit size (acSizes_ (p_pool st)) = None
  | PStart victim receiver mode hint rnd _ _ =>
      (receiver ≠ kInvalidClassId ∧ mode ≠ kRebalance) ∨
      (victim = kInvalidClassId ∧ (mode ≠ kResize ∨ pool_freeSlabs_ (p_pool st) = [])) ∨
      (0 ≤ victim ∧ ∀ ac s, ac_ (p_pool st) !! Z.to_nat victim = Some ac → release_target hint rnd ac = Some s →
         s ∉ allocatedSlabs_ ac ++ freeSlabs_ ac)
  | _ => False
  end.

Lemma alloc_ret_ok pool m cls drift ret pool' m' cid : pool_wf (mkPSys pool' m' (alter (add_live ret) (Z.to_nat cid) cls) drift) →
  (∀ p, ret = Some p → is_alloc (m_sa m') p ∧ ∃ k, cls !! Z.to_nat cid = Some k ∧ p ∉ k_live k) →
  ret_ok (mkPSys pool m cls drift) ret (mkPSys pool' m' (alter (add_live ret) (Z.to_nat cid) cls) drift).
Proof.
  intros (n & Hinv & _) Hret p ->. destruct (Hret p eq_refl) as (Hal & k & Hk & Hp). split; [|split; [|done]]; cycle 1.
  { exists (Z.to_nat cid), (add_live (Some p) k). cbn. rewrite (alter_insert _ _ _ _ Hk).
    by rewrite list_lookup_insert_eq; [split; [done|set_solver]|eapply lookup_lt_Some]. }
  intros (j & k' & Hj & Hp'). cbn in Hj. unfold slabs_held in Hinv. cbn in Hinv. rewrite (alter_insert _ _ _ _ Hk) in Hinv.
  set (i := Z.to_nat cid) in *. destruct (decide (j = i)) as [->|Hne]; [congruence|]. apply Hne.
  eapply (live_disjoint _ _ _ _ _ _ _ j i k' (add_live (Some p) k) p Hinv); [by rewrite list_lookup_insert_ne| |done|cbn; set_solver].
  by rewrite list_lookup_insert_eq by (by eapply lookup_lt_Some).
Qed.

Lemma pool_inv_nonempty pool m cls spare n : pool_inv (id_ pool) (acSizes_ pool) (ac_ pool) m cls spare n →
  acSizes_ pool ≠ [] ∧ (length (acSizes_ pool) ≤ 127)%nat ∧ length (ac_ pool) = length (acSizes_ pool).
Proof.
  intros Hinv. pose proof (sizes_length Hinv) as E. pose proof (i_num _ _ _ _ _ _ _ Hinv). split; [|lia].
  intros En. rewrite En in E. cbn in E. lia.
Qed.
Lemma admissible pool m cls spare n size : pool_inv (id_ pool) (acSizes_ pool) (ac_ pool) m cls spare n → 0 ≤ size →
  (∃ cid, getAllocationClassId size pool = Ok cid) ∨
  (getAllocationClassId size pool = Throw InvalidArgument ∧ (size = 0 ∨ first_fit size (acSizes_ pool) = None)).
Proof.
  intros Hinv Hsz. destruct (pool_inv_nonempty _ _ _ _ _ Hinv) as (H1 & H2 & H3).
  rewrite getAllocationClassId_aux; [|apply Hinv|done|lia|done|done]. destruct (first_fit _ _) as [i|]; [|by right; split; [|right]].
  destruct (Z.eqb_spec size 0); [by right; split; [|left]|left; by eexists].
Qed.

Lemma start_safe st victim receiver mode hint rnd zero madviseOk : pool_wf st →
  pop_ok (PStart victim receiver mode hint rnd zero madviseOk) st →
  (∃ st', pool_step (PStart victim receiver mode hint rnd zero madviseOk) st = Ok (None, st') ∧ pool_post st st') ∨
  (pool_step (PStart victim receiver mode hint rnd zero madviseOk) st = Throw InvalidArgument ∧
   refused (PStart victim receiver mode hint rnd zero madviseOk) st).
Proof.
  destruct st as [pool m cls drift]. intros (n & Hinv & Hslab & Halloc) [Hvic Hrc].
  cbn in Hslab, Halloc, Hvic, Hrc. unfold slabs_held in Hinv. cbn in Hinv. cbn [pool_step refused p_pool p_mem p_cls p_drift].
  unfold mp_startRelease_begin, startRelease_check.
  destruct (negb (receiver =? kInvalidClassId) && match mode with kRebalance => false | _ => true end) eqn:E1.
  { right. split; [done|]. left. apply andb_true_iff in E1 as [?%negb_true_iff%Z.eqb_neq ?]. split; [done|]. by intros ->. }
  res_simpl. assert (receiver_ok (Z.of_nat (length (ac_ pool))) receiver mode) as Hrok.
  { destruct (Z.eqb_spec receiver kInvalidClassId) as [->|Hne]; [by left|]. cbn in E1. right. destruct Hrc; [done|]. split; [done|]. by destruct mode. }
  destruct (Z.eqb_spec victim kInvalidClassId) as [->|Hv].
  - destruct mode; cbn; [|right; split; [done|]; right; left; split; [done|]; by left|right; split; [done|]; right; left; split; [done|]; by left].
    unfold releaseFromFreeSlabs. destruct (last (pool_freeSlabs_ pool)) as [s|] eqn:El; res_simpl; cycle 1.
    { right. split; [done|]. right. left. split; [done|]. right. by apply last_None. }
    left. cbn [mp_startRelease_end].
    change (isReleased _) with true. cbn iota.
    apply last_split in El.
    destruct (releaseSlab_aux kResize s zero receiver madviseOk (with_freeSlabs (removelast (pool_freeSlabs_ pool)) pool) m cls n (drift + 1))
      as (pool' & m' & E & Hw & Hsame & Hoth & _).
    { cbn. eapply inv_perm; [exact Hinv|]. rewrite El at 1. by rewrite <- Permutation_cons_append. }
    { cbn. rewrite Hslab. do 2 f_equal. lia. } { done. } { done. }
    cbn [mode_ slab_ releasedContext setReceiver setZeroOnRelease]. rewrite E. res_simpl. eexists. split; [done|]. by split.
  - destruct Hvic as [|[Hv0 Hvr]]; [done|]. cbn [andb]. res_simpl. unfold getAllocationClassFor.
    pose proof (i_num _ _ _ _ _ _ _ Hinv) as Hnum. rewrite s8_small by lia.
    destruct (Z.ltb_spec victim (Z.of_nat (length (ac_ pool)))) as [Hlt|Hge]; cycle 1.
    { right. split; [done|]. right. right. split; [done|]. intros ac s Hi. cbn in Hi. apply lookup_lt_Some in Hi. lia. }
    destruct (lookup_lt_is_Some_2 (ac_ pool) (Z.to_nat victim)) as [ac Hi]; [lia|].
    unfold class_at. rewrite (proj2 (Z.ltb_ge _ _)), Hi by lia. res_simpl. destruct (inv_lookup Hinv _ ac Hi) as (k & Hk & _).
    pose proof (begin_call Hinv Hi Hk mode hint rnd (Hvr k Hk)) as Hb.
    destruct (startRelease_begin mode hint rnd ac m) as [[[o ac'] m']|e|]; [|destruct Hb as [-> Ht]|done]; res_simpl; cycle 1.
    { right. split; [done|]. right. right. split; [done|]. intros ac0 s0 Hi0. injection Hi0 as <-. apply Ht. }
    left. destruct Hb as (Hsc & Hoth & Ho).
    destruct (outcome_aux pool m cls drift (Z.to_nat victim) ac ac' m' k o receiver zero madviseOk n) as (st' & -> & Hpost & _); try done.
    + destruct o as [r|ctx|e]; [|destruct Ho as (s & -> & _); done|done]. destruct Hrok as [|[? _]]; [by left|by right].
    + destruct o as [r|ctx|e]; [destruct Ho as [_ Ho]; by apply Ho| |done]. destruct Ho as (s & -> & Ho).
      change (isReleased _) with true. cbn [slab_ releasedContext]. cbn iota.
      assert (set_rel None k = k) as -> by (destruct k as [rl lv cx]; cbn; specialize (Hvr _ Hk); cbn in Hvr; by subst).
      by rewrite (list_insert_id cls).
    + by exists st'.
Qed.

Lemma pool_step_safe o st : pool_wf st → pop_ok o st →
  (∃ ret st', pool_step o st = Ok (ret, st') ∧ ret_ok st ret st' ∧ pool_wf st' ∧ same_pool (p_pool st) (p_pool st') ∧
     match o with PEnv _ => True | _ => others (id_ (p_pool st)) (p_mem st) (p_mem st') end) ∨
  (pool_step o st = Throw InvalidArgument ∧ refused o st).
Proof.
  destruct o as [size|size|i p|i p c|size|value|victim receiver mode hint rnd zero madviseOk|i ab madviseOk|i j|i j madviseOk|num|m'];
    intros Hwf Hok; pose proof Hwf as (n & Hinv & Hslab & Halloc); unfold slabs_held in Hinv; destruct st as [pool m cls drift];
    cbn in Hinv, Hslab, Halloc, Hok.
  - cbn [pool_step p_pool]. destruct (admissible _ _ _ _ _ size Hinv ltac:(apply Hok)) as [[cid E]|[E Hr]]; rewrite E; res_simpl; [|by right].
    left. destruct (mp_allocate_aux pool m cls drift size cid Hwf E ltac:(apply Hok)) as (ret & pool' & m' & Ea & Hpost & Hret & _).
    cbn [p_mem p_cls p_drift]. rewrite Ea. res_simpl. eexists _, _. split; [done|]. split; [|exact Hpost]. apply alloc_ret_ok; [apply Hpost|done].
  - cbn [pool_step p_pool]. destruct (admissible _ _ _ _ _ size Hinv ltac:(apply Hok)) as [[cid E]|[E Hr]]; rewrite E; res_simpl; [|by right].
    left. destruct (allocate_slow_aux pool m cls drift size cid Hwf E ltac:(apply Hok)) as (ret & pool' & m' & Ea & Hpost & Hret & _).
    cbn [p_mem p_cls p_drift]. rewrite Ea. res_simpl. eexists _, _. split; [done|]. split; [|exact Hpost]. apply alloc_ret_ok; [apply Hpost|done].
  - left. destruct Hok as (k & Hk & Hp). cbn [pool_step p_pool p_mem p_cls p_drift].
    destruct (mp_free_aux pool m cls drift i k p Hwf Hk Hp) as (pool' & m' & -> & Hpost). res_simpl. by eexists _, _.
  - left. destruct Hok as (k & Hk & Hp). destruct (lookup_lt_is_Some_2 (ac_ pool) i) as [ac Hi].
    { rewrite <- (i_len _ _ _ _ _ _ _ Hinv). by eapply lookup_lt_Some. }
    destruct (write_call Hinv Hi Hk p c Hp) as [Hinv' Hoth]. eexists _, _. split; [done|]. split; [done|]. split; [by exists n|done].
  - left. eexists _, _. split; [done|]. split; [done|]. split; [by exists n|]. split; [done|]. intros id' _ _. apply pool_env_refl, Hinv.
  - left. eexists _, _. split; [done|]. split; [done|]. split; [by exists n|]. split; [done|]. intros id' _ _. apply pool_env_refl, Hinv.
  - destruct (start_safe _ victim receiver mode hint rnd zero madviseOk Hwf Hok) as [(st' & E & Hpost)|Hr]; [left|by right]. by exists None, st'.
  - left. destruct Hok as (-> & k & [[r rc] z] & Hk & Hrel). cbn [pool_step p_pool p_mem p_cls p_drift]. rewrite Hk. res_simpl. rewrite Hrel. res_simpl.
    destruct (lookup_lt_is_Some_2 (ac_ pool) i) as [ac Hi].
    { rewrite <- (i_len _ _ _ _ _ _ _ Hinv). by eapply lookup_lt_Some. }
    unfold mp_startRelease_step. rewrite (getAllocationClassFor_ok Hinv i ac Hi). res_simpl.
    destruct (step_call Hinv Hi Hk r rc z Hrel) as (o & ac' & m' & -> & Hsc & Hoth & Ho). res_simpl.
    assert (receiver_ok (Z.of_nat (length (ac_ pool))) rc (r_mode r)) as Hrc by (by eapply (i_cls _ _ _ _ _ _ _ Hinv i k Hk)).
    destruct (outcome_aux pool m cls drift i ac ac' m' k o rc z madviseOk n) as (st' & -> & Hpost & _); try done.
    + destruct o as [r'|ctx|e]; [|destruct Ho as (-> & _); done|done]. destruct Hrc as [|[? _]]; [by left|by right].
    + destruct o as [r'|ctx|e]; [by destruct Ho|by destruct Ho as (_ & _ & Ho)|done].
    + by eexists _, _.
  - left. destruct Hok as (k & Hk & ctx & Hj). cbn [pool_step p_pool p_mem p_cls p_drift]. rewrite Hk. res_simpl. rewrite Hj. res_simpl.
    destruct (lookup_lt_is_Some_2 (ac_ pool) i) as [ac Hi].
    { rewrite <- (i_len _ _ _ _ _ _ _ Hinv). by eapply lookup_lt_Some. }
    destruct (proj1 (i_cls _ _ _ _ _ _ _ Hinv i k Hk) ctx (list_elem_of_lookup_2 _ _ _ Hj)) as (Ev & _).
    unfold mp_abortSlabRelease. rewrite Ev, (getAllocationClassFor_ok Hinv i ac Hi). res_simpl.
    destruct (abort_call Hinv Hi Hk j ctx Hj) as (ac' & m' & -> & (Esz & _) & Hinv' & Hoth). res_simpl.
    eexists _, _. split; [done|]. rewrite (alter_insert _ _ _ _ Hk). split; [done|]. split; [|split; [|done]].
    + exists n. cbn. split; [exact Hinv'|]. split; [done|]. cbn. rewrite (live_bytes_insert _ _ i ac k) by done. rewrite Halloc. f_equal. cbn. lia.
    + unfold same_pool. cbn. by rewrite length_insert.
  - left. destruct Hok as (k & Hk & ctx & Hj). cbn [pool_step p_pool p_mem p_cls p_drift]. rewrite Hk. res_simpl. rewrite Hj. res_simpl.
    destruct (mp_complete_aux pool m cls drift i j k ctx madviseOk Hwf Hk Hj) as (b & pool' & m' & -> & Hpost & _). res_simpl. by eexists _, _.
  - left. cbn [pool_step p_pool p_mem p_cls p_drift]. unfold reclaimSlabsAndGrow.
    destruct (reclaim_aux cls drift (Z.to_nat num) 0 pool m Hwf) as (r & pool' & m' & -> & Hpost). res_simpl. by eexists _, _.
  - left. eexists _, _. split; [done|]. split; [done|]. split; [|done]. exists n. cbn. split; [|done]. unfold slabs_held. cbn.
    apply (inv_env Hinv).
    + apply Hok.
    + apply (pe_idle _ _ _ Hok), Hinv.
    + intros i ac Hi. eapply pool_env_class; [done|]. by eapply (i_class _ _ _ _ _ _ _ Hinv).
    + apply Hinv.
    + intros s Hs. pose proof (spare_of_pool Hinv s Hs) as Hop. destruct (i_spare _ _ _ _ _ _ _ Hinv s Hs) as (Hu & Hsp).
      split; [by apply Hok|]. by rewrite (pe_headers _ _ _ Hok s Hop).
    + intros s Hs. apply (pe_ours _ _ _ Hok) in Hs. rewrite (pe_headers _ _ _ Hok s Hs).
      destruct (i_slabs _ _ _ _ _ _ _ Hinv s Hs) as (Hu & Hsd & Hor). split; [by apply Hok|done].
Qed.
