(* ===== verification/PoolSpec.v ===== *)
(** Memory pools from their construction on: every reachable state of a pool is
    safe and its accounting exact, the specifications of [MemoryPool]'s
    operations, and concrete pools. *)
From Stdlib Require Import Sorted.
From S2P Require Import Prelude SlabAllocator PtrCompressor SList AllocationClass AllocationFrame AllocationRun.
From S2P Require Import MemoryPool PoolSlabs PoolInv PoolRun.

Local Arguments wrap : simpl never.

(** ** Construction *)
Definition empty_class (id pid size : Z) : AllocationClass := mkAC id pid size 0 0 [] [] SList_empty true 0 ∅.
Lemma create_spec pid sa : sa_wf sa → ∀ sizes id acs, 0 ≤ id → id + Z.of_nat (length sizes) ≤ 127 →
  createClasses_loop id pid sizes sa = Ok acs →
  acs = imap (λ i, empty_class (id + Z.of_nat i) pid) sizes ∧ Forall (λ size, kMinAllocSize ≤ size ≤ kSize) sizes.
Proof.
  intros Hsa. induction sizes as [|size sizes IH]; intros id acs Hid Hlen E; cbn [createClasses_loop] in E.
  { by injection E as <-. }
  destruct ((size <? kMinAllocSize) || (kSize <? size)) eqn:Eg; [done|]. res_simpl.
  apply orb_false_iff in Eg as [E1%Z.ltb_ge E2%Z.ltb_ge].
  rewrite new_aux, (null_slab_invalid _ Hsa) in E. cbn [andb] in E. destruct (_ || _ || _) in E; [done|]. res_simpl.
  cbn [length] in Hlen. rewrite s8_small in E by lia.
  destruct (createClasses_loop (id + 1) pid sizes sa) as [acs'| |] eqn:Ec; [|done|done]. res_simpl. injection E as <-.
  destruct (IH (id + 1) acs' ltac:(lia) ltac:(lia) Ec) as [-> Hall]. split; [|by constructor].
  cbn [imap]. f_equal; [by rewrite Z.add_0_r|]. apply imap_ext. intros i x Hi. unfold compose. f_equal. lia.
Qed.
Lemma sorted_strict l : is_sorted l = true → adjacent_equal l = false → StronglySorted Z.lt l.
Proof.
  intros Hs Ha. apply Sorted_StronglySorted; [intros x y z; lia|].
  induction l as [|x l IH]; [constructor|]. destruct l as [|y l]; [by repeat constructor|].
  cbn [is_sorted] in Hs. cbn [adjacent_equal] in Ha.
  apply andb_true_iff in Hs as [Hle%Z.leb_le Hs]. apply orb_false_iff in Ha as [Hne%Z.eqb_neq Ha].
  constructor; [by apply IH|]. constructor. lia.
Qed.

Definition pool_init pool m : PSys := mkPSys pool m (replicate (length (ac_ pool)) (mkCls None ∅ [])) 0.

Lemma live_bytes_init acs n : live_bytes acs (replicate n (mkCls None ∅ [])) = 0.
Proof. revert n. induction acs as [|ac acs IH]; intros [|n]; try done. cbn [replicate live_bytes k_live]. rewrite IH, size_empty. lia. Qed.

(** A pool as [MemoryPool::MemoryPool] leaves it. *)
Lemma pool_init_wf id poolSize sizes m pool : sa_wf (m_sa m) → idle_clean (m_sa m) →
  id < Z.of_nat kMaxPools → (length sizes ≤ 127)%nat → (∀ s, ¬ of_pool id (m_sa m) s) →
  MemoryPool_new id poolSize sizes (m_sa m) = Ok pool →
  pool_wf (pool_init pool m) ∧ id_ pool = id ∧ acSizes_ pool = sizes ∧ maxSize_ pool = poolSize.
Proof.
  intros Hsa Hidle Hid Hlen Hno E. unfold MemoryPool_new in E.
  unfold createAllocationClasses in E. destruct (createClasses_loop 0 id sizes (m_sa m)) as [acs| |] eqn:Ec; [|done|done]. res_simpl.
  destruct (create_spec id (m_sa m) Hsa sizes 0 acs ltac:(lia) ltac:(lia) Ec) as [Eacs Hall].
  destruct (is_sorted (allocationSize_ <$> acs)); [|done]. res_simpl.
  set (pl := mkPool id poolSize 0 0 [] sizes acs 0 0 0 0) in *. unfold mp_checkState in E. cbn [id_ currSlabAllocSize_ currAllocSize_ acSizes_ ac_ pool_freeSlabs_ pl] in E.
  destruct (Z.ltb_spec id 0) as [|Hid0]; [done|]. cbn [throw_if Z.ltb Z.compare] in E. res_simpl. destruct (_ || _) eqn:Ee in E; [done|]. res_simpl.
  cbn [forallb negb throw_if] in E. destruct (negb (_ =? _)%nat) in E; [done|]. res_simpl. destruct (is_sorted sizes) eqn:Es in E; [|done]. cbn [negb] in E. res_simpl.
  destruct (adjacent_equal sizes) eqn:Eq in E; [done|]. res_simpl. destruct (negb (forallb _ _)) in E; [done|]. res_simpl. injection E as <-.
  split; [|done]. exists 0. split; [|split; [done|cbn; by rewrite live_bytes_init]].
  assert (∀ i ac, acs !! i = Some ac → ∃ size, sizes !! i = Some size ∧ ac = empty_class (Z.of_nat i) id size) as Hac.
  { intros i ac. rewrite Eacs, list_lookup_imap. destruct (sizes !! i) as [size|]; [|done]. cbn. intros [= <-]. by exists size. }
  assert (length acs = length sizes) as El by (by rewrite Eacs, length_imap).
  assert (sizes ≠ []) as Hne by (destruct sizes; [done|done]).
  assert (allocationSize_ <$> acs = sizes) as Esz.
  { apply list_eq. intros i. rewrite list_lookup_fmap. destruct (acs !! i) as [ac|] eqn:Ei; cbn.
    - destruct (Hac i ac Ei) as (size & -> & ->). done.
    - symmetry. apply lookup_ge_None in Ei. apply lookup_ge_None. lia. }
  split; cbn -[replicate]; try done.
  - by rewrite length_replicate.
  - destruct sizes; [done|]. cbn in *. lia.
  - by apply sorted_strict.
  - intros i ac Hi. by destruct (Hac i ac Hi) as (size & _ & ->).
  - intros i ac k Hi [-> _]%lookup_replicate. destruct (Hac i ac Hi) as (size & Hsz & ->). destruct m as [sa h]. unfold class_sys, rel_of. cbn.
    apply new_wf; [done|lia| |].
    + rewrite Forall_forall in Hall. apply Hall. by eapply list_elem_of_lookup_2.
    + intros s (Hv & _ & Hp). apply (Hno s). by split.
  - intros i k [-> _]%lookup_replicate. split; [by intros ctx ?%elem_of_nil|done].
  - apply NoDup_nil_2.
  - by intros s ?%elem_of_nil.
  - intros s Hs. by destruct (Hno s).
  - exists ∅. split; [|by rewrite size_empty]. intros s. split; [set_solver|]. intros (i & ac & Hi & Hv & _ & Hp).
    destruct (Hac i ac Hi) as (size & _ & ->). destruct (Hno s). by split.
Qed.

(** ** Reachable states *)
Definition pool_rel (st st' : PSys) : Prop := ∃ o ret, pop_ok o st ∧ pool_step o st = Ok (ret, st').
Lemma pool_reachable_wf st st' : pool_wf st → rtc pool_rel st st' → pool_wf st' ∧ same_pool (p_pool st) (p_pool st').
Proof.
  intros Hwf Hr. induction Hr as [|st1 st2 st3 (o & ret & Hok & E) _ IH]; [done|].
  destruct (pool_step_safe o st1 Hwf Hok) as [(ret' & st' & E' & _ & Hw & Hs & _)|[E' _]]; [|congruence].
  rewrite E in E'. injection E' as <- <-. destruct (IH Hw) as [Hw3 Hs3]. split; [done|].
  destruct Hs as (? & ? & ?), Hs3 as (? & ? & ?). split_and!; congruence.
Qed.

Section held.
Context {id : Z} {sizes : list Z} {acs : list AllocationClass} {m : Mem} {cls : list Cls} {spare : list Z} {n : Z}.
Context (Hinv : pool_inv id sizes acs m cls spare n).

(** An allocation lies in a slab of its class. *)
Lemma live_slab i ac k p : acs !! i = Some ac → cls !! i = Some k → p ∈ k_live k →
  ∃ j, (j < per ac)%nat ∧ p = addr ac (getSlabForMemory p) j ∧ is_ours ac (m_sa m) (getSlabForMemory p) ∧
    (getSlabForMemory p ≤ p ∧ p + allocationSize_ ac ≤ getSlabForMemory p + kSize) ∧ getSlabForMemory p mod kSize = 0.
Proof.
  intros Hi Hk Hp. pose proof (live_ours _ _ _ _ _ _ _ i ac k p Hinv Hi Hk Hp) as Hours.
  pose proof (i_sys _ _ _ _ _ _ _ Hinv i ac k Hi Hk) as [(online & off & Hwf) _]. cbn in Hwf.
  pose proof (w_core _ _ _ _ _ _ Hwf) as Hc. pose proof (c_size _ _ _ Hc) as Hsz.
  destruct (used_slab _ _ _ Hc p) as (j & Hj & E & _); [set_solver|]. exists j. split; [done|]. split; [done|]. split; [done|].
  destruct Hours as (Hv & _). rewrite (valid_slab_iff _ (c_sa _ _ _ Hc)) in Hv. destruct Hv as [_ Hal]. split; [|done].
  rewrite per_index in Hj by done. unfold addr in E. change getMinAllocSize with 64 in Hsz. nia.
Qed.
Lemma slabs_apart s s' : s mod kSize = 0 → s' mod kSize = 0 → s ≠ s' → s + kSize ≤ s' ∨ s' + kSize ≤ s.
Proof. rewrite kSize_val. intros. Z.to_euclidean_division_equations. lia. Qed.
Lemma live_apart i j ac ac' k k' p q : acs !! i = Some ac → acs !! j = Some ac' → cls !! i = Some k → cls !! j = Some k' →
  p ∈ k_live k → q ∈ k_live k' → p ≠ q → p + allocationSize_ ac ≤ q ∨ q + allocationSize_ ac' ≤ p.
Proof.
  intros Hi Hj Hk Hk' Hp Hq Hne. destruct (decide (i = j)) as [<-|Hij].
  - simplify_eq. pose proof (i_sys _ _ _ _ _ _ _ Hinv i ac k ltac:(done) ltac:(done)) as [(online & off & Hwf) _]. cbn in Hwf.
    apply (core_apart _ _ _ (w_core _ _ _ _ _ _ Hwf)); set_solver.
  - destruct (live_slab i ac k p Hi Hk Hp) as (_ & _ & _ & (_ & E1 & E2) & Hr & Ha), (live_slab j ac' k' q Hj Hk' Hq) as (_ & _ & _ & (_ & E3 & E4) & Hr' & Ha').
    destruct (class_ids Hinv i j ac ac' Hi Hj Hij) as [Hd _].
    assert (getSlabForMemory p ≠ getSlabForMemory q) as Hns by (intros E; apply Hd; congruence).
    destruct (slabs_apart _ _ Ha Ha' Hns); lia.
Qed.

(** The allocations of a class fit into its slabs. *)
Lemma class_bytes i ac k (S : gset Z) : acs !! i = Some ac → cls !! i = Some k → (∀ s, is_ours ac (m_sa m) s → s ∈ S) →
  allocationSize_ ac * Z.of_nat (size (k_live k)) ≤ kSize * Z.of_nat (size S).
Proof.
  intros Hi Hk HS. destruct (inv_core Hinv i ac Hi) as (U & Hc). pose proof (c_size _ _ _ Hc) as Hsz.
  assert (size (k_live k) ≤ length ((λ '(s, j), addr ac s j) <$> list_prod (elements S) (seq 0 (per ac))))%nat as Hle.
  { unfold size, set_size, compose. apply submseteq_length, NoDup_submseteq; [apply NoDup_elements|]. intros p Hp%elem_of_elements.
    destruct (live_slab i ac k p Hi Hk Hp) as (j & Hj & E & Ho & _). apply list_elem_of_fmap. exists (getSlabForMemory p, j).
    split; [done|]. apply list_elem_of_In, in_prod_iff. split; [apply list_elem_of_In, elem_of_elements; auto|]. apply in_seq. lia. }
  rewrite length_fmap, length_prod, length_seq in Hle. change (length (elements S)) with (size S) in Hle.
  destruct (per_val ac Hsz) as (_ & _ & Hper & _). change getMinAllocSize with 64 in Hsz. nia.
Qed.
Lemma bytes_suffix (S : gset Z) : (∀ s, s ∈ S ↔ in_class acs (m_sa m) s) → ∀ acs' cls' o,
  (∀ i ac, acs' !! i = Some ac → acs !! (o + i)%nat = Some ac) → (∀ i k, cls' !! i = Some k → cls !! (o + i)%nat = Some k) →
  live_bytes acs' cls' ≤ kSize * Z.of_nat (size (filter (λ s, Z.of_nat o ≤ classId (header_at_slab (m_sa m) s)) S)).
Proof.
  intros HS. induction acs' as [|ac acs' IH]; intros [|k cls'] o Ha Hc; cbn [live_bytes]; try (rewrite kSize_val; lia).
  pose proof (Ha 0%nat ac eq_refl) as Hi. pose proof (Hc 0%nat k eq_refl) as Hk. rewrite Nat.add_0_r in Hi, Hk.
  assert (∀ i, (Datatypes.S o + i)%nat = (o + Datatypes.S i)%nat) as Eo by lia.
  specialize (IH cls' (Datatypes.S o) ltac:(intros i a H; rewrite Eo; by apply Ha) ltac:(intros i a H; rewrite Eo; by apply Hc)).
  set (here := filter (λ s, classId (header_at_slab (m_sa m) s) = Z.of_nat o) S).
  set (rest := filter (λ s, Z.of_nat (Datatypes.S o) ≤ classId (header_at_slab (m_sa m) s)) S) in *.
  replace (filter (λ s, Z.of_nat o ≤ classId (header_at_slab (m_sa m) s)) S) with (here ∪ rest); cycle 1.
  { apply set_eq. intros s. unfold here, rest. rewrite elem_of_union, !elem_of_filter.
    destruct (decide (classId (header_at_slab (m_sa m) s) = Z.of_nat o)); naive_solver lia. }
  rewrite size_union by (unfold here, rest; intros s; rewrite !elem_of_filter; lia).
  assert (allocationSize_ ac * Z.of_nat (size (k_live k)) ≤ kSize * Z.of_nat (size here)); [|lia].
  apply (class_bytes o); [done..|].
  { intros s Ho. unfold here. apply elem_of_filter. split; [|apply HS; by exists o, ac].
    destruct Ho as (_ & E & _), (i_class _ _ _ _ _ _ _ Hinv o ac Hi). unfold header_at_slab. congruence. }
Qed.
Lemma bytes_bound : 0 ≤ live_bytes acs cls ≤ kSize * n ∧ 0 ≤ n ≤ 65535.
Proof.
  destruct (i_count _ _ _ _ _ _ _ Hinv) as (S & HS & En). split; [split|].
  - pose proof (inv_core Hinv) as Hc. clear - Hc. revert cls. induction acs as [|ac l IH]; intros [|k c]; cbn [live_bytes]; try lia.
    destruct (Hc 0%nat ac eq_refl) as [U HU]. pose proof (c_size _ _ _ HU) as Hsz. change getMinAllocSize with 64 in Hsz.
    specialize (IH (λ i a H, Hc (Datatypes.S i) a H) c). nia.
  - pose proof (bytes_suffix S HS acs cls 0 ltac:(done) ltac:(done)) as Hb.
    assert (size (filter (λ s, (Z.of_nat 0 ≤ classId (header_at_slab (m_sa m) s))%Z) S) ≤ size S)%nat.
    { apply subseteq_size. intros s [_ ?]%elem_of_filter. done. }
    rewrite kSize_val in *. lia.
  - split; [lia|]. rewrite <- En. apply (valid_slabs_bound (m_sa m)); [apply Hinv|apply NoDup_elements|].
    intros s Hs%elem_of_elements%HS. by destruct Hs as (_ & _ & _ & ? & _).
Qed.
End held.

(** A state of a pool made by [MemoryPool::MemoryPool] over a slab allocator in
    which it has no slabs yet; the allocator may serve other pools. *)
Definition pool_reachable (id poolSize : Z) (sizes : list Z) (m : Mem) (st : PSys) : Prop :=
  sa_wf (m_sa m) ∧ idle_clean (m_sa m) ∧ id < Z.of_nat kMaxPools ∧
  (∀ s, ¬ of_pool id (m_sa m) s) ∧
  ∃ pool, MemoryPool_new id poolSize sizes (m_sa m) = Ok pool ∧ rtc pool_rel (pool_init pool m) st.

Lemma reachable_inv {id poolSize sizes m st} : (length sizes ≤ 127)%nat → pool_reachable id poolSize sizes m st →
  pool_wf st ∧ id_ (p_pool st) = id ∧ acSizes_ (p_pool st) = sizes.
Proof.
  intros H4 (H1 & H2 & H3 & H5 & pool & H6 & Hr).
  destruct (pool_init_wf id poolSize sizes m pool H1 H2 H3 H4 H5 H6) as (Hwf & E1 & E2 & _).
  destruct (pool_reachable_wf _ _ Hwf Hr) as (Hw & F1 & F2 & _). cbn in F1, F2. split; [done|]. split; congruence.
Qed.

(** Distinct allocations of the pool, of one class or of two, do not overlap. *)
Definition pool_apart (st : PSys) : Prop := ∀ i j ac ac' k k' p q,
  ac_ (p_pool st) !! i = Some ac → ac_ (p_pool st) !! j = Some ac' → p_cls st !! i = Some k → p_cls st !! j = Some k' →
  p ∈ k_live k → q ∈ k_live k' → p ≠ q → p + allocationSize_ ac ≤ q ∨ q + allocationSize_ ac' ≤ p.

(** C17: memory safety of a pool of at most 127 allocation classes (the constructor
    accepts 128, see [class_count_wraps]).  After any interleaving of [allocate]
    (its locked part also on its own), [free], the steps of slab releases in several
    classes at once, whose [shouldAbortFn] answers no, [abortSlabRelease],
    completions, [reclaimSlabsAndGrow], resizing, advising, writes into held
    allocations and steps of other pools on the same slab allocator, the memory of
    distinct held allocations is disjoint.  Every further such operation returns (no failed debug check, null pointer or
    access out of range), does not hand out an allocation that somebody holds,
    and leaves what other pools rely on alone; it throws only
    [std::invalid_argument], and only for a size no class serves or a release
    with inconsistent arguments or nothing to release. *)
Theorem pool_reachable_safe id poolSize sizes m st o : (length sizes ≤ 127)%nat → pool_reachable id poolSize sizes m st → pop_ok o st →
  pool_apart st ∧
  ((∃ ret st', pool_step o st = Ok (ret, st') ∧ ret_ok st ret st' ∧
      match o with PEnv _ => True | _ => others id (p_mem st) (p_mem st') end) ∨
   (pool_step o st = Throw InvalidArgument ∧ refused o st)).
Proof.
  intros Hlen (Hwf & <- & _)%(reachable_inv Hlen) Hok. split.
  - destruct Hwf as (n & Hinv & _). intros i j ac ac' k k' p q. by apply (live_apart Hinv).
  - destruct (pool_step_safe o st Hwf Hok) as [(ret & st' & E & Hr & _ & _ & Ho)|]; [left|by right]. by exists ret, st'.
Qed.

(** C18: the accounting of a pool of at most 127 classes is exact in every reachable
    state.
    [currAllocSize_] is the number of bytes in held allocations, without wrap;
    these fit into the slabs of the classes; and [currSlabAllocSize_] counts
    exactly these slabs, less one for each slab that was released from the
    spare ones ([p_drift]). *)
Theorem pool_accounting id poolSize sizes m st : (length sizes ≤ 127)%nat → pool_reachable id poolSize sizes m st →
  ∃ S : gset Z, (∀ s, s ∈ S ↔ in_class (ac_ (p_pool st)) (m_sa (p_mem st)) s) ∧
    currAllocSize_ (p_pool st) = live_bytes (ac_ (p_pool st)) (p_cls st) ∧
    currAllocSize_ (p_pool st) ≤ kSize * Z.of_nat (size S) ∧
    currSlabAllocSize_ (p_pool st) = u64 (kSize * (Z.of_nat (size S) - p_drift st)) ∧
    (p_drift st = 0 → currSlabAllocSize_ (p_pool st) = kSize * Z.of_nat (size S)).
Proof.
  intros Hlen ((n & Hinv & Hslab & Halloc) & _)%(reachable_inv Hlen). destruct (bytes_bound Hinv) as [Hb Hn].
  destruct (i_count _ _ _ _ _ _ _ Hinv) as (S & HS & En). exists S. split; [done|]. rewrite En.
  assert (∀ x, 0 ≤ x ≤ kSize * n → u64 x = x) as Hw.
  { intros x Hx. apply wrap_small. unfold fits. rewrite kSize_val in *. change (2 ^ 64) with 18446744073709551616. lia. }
  rewrite Halloc, Hw by done. split; [done|]. split; [lia|]. split; [done|]. intros E0. rewrite Hslab, E0, Z.sub_0_r.
  apply Hw. rewrite kSize_val. lia.
Qed.

(** C28: [getAllocationClassId], a binary search, finds the first class of a pool
    (with at most 127 classes) that is large enough, as a linear search would; it throws for size zero and for a
    size above the largest class. *)
Theorem getAllocationClassId_first_fit id poolSize sizes m st size : (length sizes ≤ 127)%nat → pool_reachable id poolSize sizes m st → 0 ≤ size →
  getAllocationClassId size (p_pool st) =
  match first_fit size sizes with
  | Some i => if size =? 0 then Throw InvalidArgument else Ok (Z.of_nat i)
  | None => Throw InvalidArgument
  end.
Proof.
  intros Hlen ((n & Hinv & _) & _ & <-)%(reachable_inv Hlen) Hsz. destruct (pool_inv_nonempty _ _ _ _ _ Hinv) as (H1 & H2 & H3).
  apply getAllocationClassId_aux; [apply Hinv|done|lia|done|done].
Qed.

(** [MemoryPool::allocate] for an admissible size, in a reachable state,
    returns an allocation that nobody holds, or [nullptr] only when the pool is
    at its limit or no slab is left; it enlarges the pool only within its
    limit. *)
Theorem mp_allocate_spec id poolSize sizes m st size i : (length sizes ≤ 127)%nat → pool_reachable id poolSize sizes m st →
  fits 32 size → size ≠ 0 → first_fit size sizes = Some i →
  ∃ ret pool' m', mp_allocate size (p_pool st) (p_mem st) = Ok (ret, pool', m') ∧
    pool_wf (mkPSys pool' m' (alter (add_live ret) i (p_cls st)) (p_drift st)) ∧
    within_limit (p_pool st) pool' ∧
    match ret with
    | Some p => (∃ k, p_cls st !! i = Some k ∧ p ∉ k_live k) ∧ is_alloc (m_sa m') p
    | None => mp_allSlabsAllocated (p_pool st) = true ∨
        pool_freeSlabs_ (p_pool st) = [] ∧ freeSlabs (m_sa m') = [] ∧ allMemorySlabbed (m_sa m') = true
    end.
Proof.
  intros Hlen (Hwf & _ & <-)%(reachable_inv Hlen) Hsz Hnz Hff. pose proof Hwf as (n & Hinv & _).
  destruct (pool_inv_nonempty _ _ _ _ _ Hinv) as (H1 & H2 & H3).
  assert (getAllocationClassId size (p_pool st) = Ok (Z.of_nat i)) as E.
  { rewrite getAllocationClassId_aux; [|apply Hinv|done|lia|done|apply Hsz]. by rewrite Hff, (proj2 (Z.eqb_neq _ _)). }
  destruct st as [pool m0 cls drift]. cbn [p_pool p_mem p_cls p_drift] in *.
  destruct (mp_allocate_aux pool m0 cls drift size _ Hwf E ltac:(apply Hsz)) as (ret & pool' & m' & Ea & Hpost & Hret & Hnone & Hlim).
  rewrite Nat2Z.id in *. eexists _, _, _. split; [done|]. split; [apply Hpost|]. split; [done|].
  destruct ret as [p|]; [by destruct (Hret p eq_refl)|by apply Hnone].
Qed.

(** ** Saved state *)
Definition forget_aborted pool : MemoryPool := mkPool (id_ pool) (maxSize_ pool) (currSlabAllocSize_ pool) (currAllocSize_ pool)
  (pool_freeSlabs_ pool) (acSizes_ pool) (ac_ pool) (curSlabsAdvised_ pool) (nSlabResize_ pool) (nSlabRebalance_ pool) 0.

Lemma restore_classes pid m acs :
  (∀ ac, ac ∈ acs → ∃ o, ac_saveState ac m = Ok o ∧ AllocationClass_restore o pid m = Ok ac) →
  ∃ os, mapM (λ ac, ac_saveState ac m) acs = Ok os ∧ mapM (λ o, AllocationClass_restore o pid m) os = Ok acs.
Proof.
  induction acs as [|ac acs IH]; intros H; [by exists []|].
  destruct (H ac ltac:(by left)) as (o & E1 & E2). destruct IH as (os & F1 & F2); [intros a Ha; apply H; by right|].
  exists (o :: os). cbn. rewrite E1, F1. res_simpl. rewrite E2. res_simpl. by rewrite F2.
Qed.
Lemma strict_sorted l : StronglySorted Z.lt l → is_sorted l = true ∧ adjacent_equal l = false.
Proof.
  intros H%StronglySorted_Sorted. induction H as [|x l _ [IH1 IH2] Hd]; [done|]. destruct Hd as [|y l Hlt]; [done|].
  change (is_sorted (x :: y :: l)) with ((x <=? y) && is_sorted (y :: l)).
  change (adjacent_equal (x :: y :: l)) with ((x =? y) || adjacent_equal (y :: l)). rewrite IH1, IH2, (proj2 (Z.leb_le _ _)), (proj2 (Z.eqb_neq _ _)) by lia. done.
Qed.
Lemma u64_s64 x : fits 64 x → u64 (s64 x) = x.
Proof.
  unfold fits, wrap, swrap. change (2 ^ 64) with 18446744073709551616. change (2 ^ (64 - 1)) with 9223372036854775808.
  intros. Z.to_euclidean_division_equations. lia.
Qed.

(** What [checkState] tests holds. *)
Lemma checkState_ok pool m cls n : pool_inv (id_ pool) (acSizes_ pool) (ac_ pool) m cls (pool_freeSlabs_ pool) n →
  currAllocSize_ pool ≤ currSlabAllocSize_ pool → mp_checkState pool (m_sa m) = Ok tt.
Proof.
  intros Hinv Hle. destruct (pool_inv_nonempty _ _ _ _ _ Hinv) as (Hne & _ & Hlen).
  destruct (strict_sorted _ (i_sorted _ _ _ _ _ _ _ Hinv)) as [E1 E2]. unfold mp_checkState.
  rewrite (proj2 (Z.ltb_ge (id_ pool) 0)), (proj2 (Z.ltb_ge (currSlabAllocSize_ pool) _)) by (apply Hinv || done).
  rewrite (bool_decide_false (acSizes_ pool = [])) by done.
  rewrite (bool_decide_false (ac_ pool = [])) by (intros E; rewrite E in Hlen; by destruct (acSizes_ pool)).
  rewrite Hlen, Nat.eqb_refl, E1, E2. res_simpl.
  assert (forallb (λ '(sz, ac), class_matches sz ac) (zip (acSizes_ pool) (ac_ pool)) = true) as ->.
  { apply forallb_forall. intros [sz ac] Hin%list_elem_of_In. apply list_elem_of_lookup in Hin as [i Hi].
    apply lookup_zip_with_Some in Hi as (a & b & [= <- <-] & Hs & Ha).
    rewrite <- (i_sizes _ _ _ _ _ _ _ Hinv), list_lookup_fmap, Ha in Hs. injection Hs as <-.
    destruct (inv_core Hinv i ac Ha) as (U & Hc). pose proof (c_size _ _ _ Hc) as [H1 H2]. unfold class_matches.
    change getMinAllocSize with kMinAllocSize in H1.
    by rewrite Z.eqb_refl, (proj2 (Z.ltb_ge _ kMinAllocSize)), (proj2 (Z.ltb_ge kSize _)). }
  res_simpl. assert (forallb (isValidSlab (m_sa m)) (pool_freeSlabs_ pool) = true) as ->; [|done].
  apply forallb_forall. intros s Hs%list_elem_of_In. by destruct (i_spare _ _ _ _ _ _ _ Hinv s Hs) as ((? & _) & _).
Qed.

(** No release is open, the allocator does not own its memory, and the fields
    have their widths. *)
Definition saveable (st : PSys) : Prop :=
  (∀ k, k ∈ p_cls st → k_rel k = None) ∧ (∀ ac, ac ∈ ac_ (p_pool st) → slabReleaseAllocMap_ ac = ∅) ∧
  ownsMemory (m_sa (p_mem st)) = false ∧ p_drift st = 0 ∧
  fits 64 (maxSize_ (p_pool st)) ∧ fits 64 (curSlabsAdvised_ (p_pool st)) ∧
  fits 32 (nSlabResize_ (p_pool st)) ∧ fits 32 (nSlabRebalance_ (p_pool st)).
Lemma mp_restore_aux st : pool_wf st → saveable st →
  ∃ o, mp_saveState (p_pool st) (p_mem st) = Ok o ∧ MemoryPool_restore o (p_mem st) = Ok (forget_aborted (p_pool st)).
Proof.
  intros (n & Hinv & Hslab & Halloc) (Hrel & Hmap & Hown & Hd & M1 & M2 & M3 & M4).
  destruct (bytes_bound Hinv) as [Hb Hn]. unfold slabs_held in Hinv. destruct st as [pool mm cls drift]. cbn [p_pool p_mem p_cls p_drift] in *.
  assert (∀ x, 0 ≤ x ≤ kSize * n → fits 64 x) as Hw.
  { intros x Hx. unfold fits. rewrite kSize_val in *. change (2 ^ 64) with 18446744073709551616. lia. }
  rewrite wrap_small in Halloc by (by apply Hw). rewrite Hd, Z.sub_0_r, wrap_small in Hslab by (apply Hw; rewrite kSize_val; lia).
  destruct (restore_classes (id_ pool) mm (ac_ pool)) as (os & Es & Er).
  { intros ac [i Hi]%list_elem_of_lookup. destruct (inv_lookup Hinv i ac Hi) as (k & Hk & (online & off & Hwf) & _).
    destruct (i_class _ _ _ _ _ _ _ Hinv i ac Hi) as [_ <-]. cbn in Hwf. unfold rel_of in Hwf.
    rewrite (Hrel k) in Hwf by (by eapply list_elem_of_lookup_2). cbn in Hwf.
    pose proof (w_phase _ _ _ _ _ _ Hwf) as Hoff. cbn in Hoff. subst off.
    destruct (ac_restore_aux _ _ _ _ Hwf) as (_ & _ & H). apply H; [done|]. apply Hmap. by eapply list_elem_of_lookup_2. }
  destruct (saved_slabs (m_sa mm) (pool_freeSlabs_ pool) (i_sa _ _ _ _ _ _ _ Hinv)) as [Ef Eb].
  { intros s Hs. by destruct (i_spare _ _ _ _ _ _ _ Hinv s Hs) as ((? & _) & _). }
  unfold mp_saveState. rewrite Hown, Ef, Es. res_simpl. eexists. split; [done|].
  unfold MemoryPool_restore, createMcFromSerialized, createMcSizesFromSerialized. cbn [o_ac o_id]. rewrite Er, Hown. res_simpl.
  cbn [o_maxSize o_currSlabAllocSize o_currAllocSize o_poolFreeSlabIdxs o_acSizes o_numSlabsAdvised o_numSlabResize o_numSlabRebalance].
  assert (fits 64 (currSlabAllocSize_ pool)) by (apply Hw; rewrite Hslab, kSize_val; lia).
  assert (fits 64 (currAllocSize_ pool)) by (rewrite Halloc; by apply Hw).
  rewrite Eb, !u64_s64, !(wrap_small 32) by done.
  replace (u32 <$> acSizes_ pool) with (acSizes_ pool); cycle 1.
  { rewrite <- (list_fmap_id (acSizes_ pool)) at 1. apply list_fmap_ext. intros i x Hi. symmetry. apply wrap_small.
    rewrite <- (i_sizes _ _ _ _ _ _ _ Hinv), list_lookup_fmap in Hi. destruct (ac_ pool !! i) as [ac|] eqn:Ei; [|done]. injection Hi as <-.
    destruct (inv_core Hinv i ac Ei) as (U & Hc). pose proof (c_size _ _ _ Hc) as Hsz. change getMinAllocSize with 64 in Hsz.
    unfold fits, Datatypes.id. change (2 ^ 32) with 4294967296. rewrite kSize_val in Hsz. lia. }
  change (mkPool _ _ _ _ _ _ _ _ _ _ _) with (forget_aborted pool).
  rewrite (checkState_ok (forget_aborted pool) mm cls n); [done|exact Hinv|]. cbn. lia.
Qed.

(** A pool without open releases is saved and restored over the same memory
    to the same pool, its classes, free lists and spare slabs included; only the
    count of aborted releases starts anew. *)
Theorem mp_saveState_restore id poolSize sizes m st : (length sizes ≤ 127)%nat → pool_reachable id poolSize sizes m st → saveable st →
  ∃ o, mp_saveState (p_pool st) (p_mem st) = Ok o ∧ MemoryPool_restore o (p_mem st) = Ok (forget_aborted (p_pool st)).
Proof. intros Hlen (Hwf & _)%(reachable_inv Hlen). by apply mp_restore_aux. Qed.

(** ** Releases without interference *)
(** The class runs to the end. *)
Lemma run_call id sizes acs cls spare n i rc z fuel : ∀ ac m k r ctx ac' m',
  pool_inv id sizes (<[i := ac]> acs) m (<[i := k]> cls) spare n → (i < length acs)%nat → (i < length cls)%nat →
  k_rel k = Some (r, rc, z) → startRelease_run fuel [] r ac m = Ok (Returned ctx, ac', m') →
  same_class ac ac' ∧ others id m m' ∧ mode_ ctx = r_mode r ∧
  (if isReleased ctx then pool_inv id sizes (<[i := ac']> acs) m' (<[i := set_rel None k]> cls) (slab_ ctx :: spare) (n - 1)
   else pool_inv id sizes (<[i := ac']> acs) m' (<[i := add_ctx (setZeroOnRelease z (setReceiver rc ctx)) k]> cls) spare n).
Proof.
  induction fuel as [|fuel IH]; intros ac m k r ctx ac' m' Hinv Hi Hk Hrel E; [done|]. cbn [startRelease_run] in E.
  destruct (step_call Hinv (list_lookup_insert_eq _ _ _ Hi) (list_lookup_insert_eq _ _ _ Hk) r rc z Hrel)
    as (o & ac1 & m1 & Es & Hsc & Hoth & Ho). change (default false (head [])) with false in E. rewrite Es in E. res_simpl.
  destruct o as [r1|ctx1|e]; [| |done].
  - replace (match r_phase r with Scanned _ => tail [] | _ => [] end) with (@nil bool) in E by (by destruct (r_phase r)).
    destruct Ho as [Em Hinv1]. rewrite (list_insert_insert_eq acs), (list_insert_insert_eq cls) in Hinv1. destruct (IH ac1 m1 _ r1 ctx ac' m' Hinv1 Hi Hk eq_refl E) as (Hsc1 & Hoth1 & Em1 & H).
    split; [destruct Hsc as (? & ? & ?), Hsc1 as (? & ? & ?); split_and!; congruence|]. split; [by eapply others_trans|].
    split; [congruence|]. by destruct (isReleased ctx).
  - injection E as -> -> ->. destruct Ho as (Em & _ & H). do 3 (split; [done|]).
    destruct (isReleased ctx); by rewrite (list_insert_insert_eq acs), (list_insert_insert_eq cls) in H.
Qed.

Lemma start_call id sizes acs m cls spare n i ac k rc z mode hint rnd ctx ac' m' :
  pool_inv id sizes acs m cls spare n → acs !! i = Some ac → cls !! i = Some k → k_rel k = None →
  receiver_ok (Z.of_nat (length acs)) rc mode → AllocationClass.startSlabRelease mode hint rnd [] ac m = Ok (Returned ctx, ac', m') →
  same_class ac ac' ∧ others id m m' ∧
  (if isReleased ctx then pool_inv id sizes (<[i := ac']> acs) m' (<[i := set_rel None k]> cls) (slab_ ctx :: spare) (n - 1)
   else pool_inv id sizes (<[i := ac']> acs) m' (<[i := add_ctx (setZeroOnRelease z (setReceiver rc ctx)) k]> cls) spare n).
Proof.
  intros Hinv Hi Hk Hrel Hrc Es. pose proof (begin_call Hinv Hi Hk mode hint rnd Hrel) as Hb. unfold AllocationClass.startSlabRelease in Es.
  destruct (startRelease_begin mode hint rnd ac m) as [[[o ac1] m1]|e|]; [|done|done]. res_simpl. destruct Hb as (Hsc & Hoth & Ho).
  destruct o as [r|ctx1|e]; [| |done].
  - destruct Ho as [Er Ho].
    destruct (run_call _ _ _ _ _ _ i rc z _ ac1 m1 _ r ctx ac' m' (Ho rc z Hrc) (lookup_lt_Some _ _ _ Hi) (lookup_lt_Some _ _ _ Hk) eq_refl Es)
      as (Hsc1 & Hoth1 & _ & H).
    split; [destruct Hsc as (? & ? & ?), Hsc1 as (? & ? & ?); split_and!; congruence|]. split; [by eapply others_trans|].
    by destruct (isReleased ctx).
  - injection Es as <- <- <-. destruct Ho as (s1 & -> & Ho). change (isReleased _) with true. cbn iota. split; [done|]. split; [done|].
    assert (set_rel None k = k) as -> by (destruct k; cbn in *; by subst). by rewrite (list_insert_id cls).
Qed.

(** [MemoryPool::startSlabRelease], when the class is asked for one of its
    slabs and nothing interferes, terminates and returns a context that lists
    exactly the allocations of the slab that callers hold, in address order.
    When there are none the slab has already gone where the mode says: back to
    the slab allocator, to the spare slabs, or to the receiving class. *)
Theorem mp_startSlabRelease_spec id poolSize sizes m st i ac k receiver mode hint rnd zero madviseOk s :
  (length sizes ≤ 127)%nat → pool_reachable id poolSize sizes m st → ac_ (p_pool st) !! i = Some ac → p_cls st !! i = Some k → k_rel k = None →
  receiver_ok (Z.of_nat (length sizes)) receiver mode →
  release_target hint rnd ac = Some s → s ∈ allocatedSlabs_ ac ++ freeSlabs_ ac →
  ∃ ctx pool' m',
    mp_startSlabRelease (Z.of_nat i) receiver mode hint rnd zero madviseOk [] (p_pool st) (p_mem st) =
      Ok (Returned ctx, pool', m') ∧
    pool_wf (mkPSys pool' m' (alter (add_ctx ctx) i (p_cls st)) (p_drift st)) ∧
    ctx_lists ctx s (k_live k) ∧ mode_ ctx = mode ∧ receiver_ ctx = receiver ∧
    (isReleased ctx = true → slab_moved mode receiver s pool' m').
Proof.
  intros Hlen (Hwf & _ & Esz)%(reachable_inv Hlen) Hi Hk Hrel Hrc Ht Hin. pose proof Hwf as (n & Hinv & Hslab & Halloc).
  unfold slabs_held in Hinv. destruct st as [pool mm cls drift]. cbn [p_pool p_mem p_cls p_drift] in *.
  pose proof (sizes_length Hinv) as Elen. rewrite Esz in Elen. rewrite Elen in Hrc. pose proof (lookup_lt_Some _ _ _ Hi) as Hlt.
  unfold mp_startSlabRelease, startRelease_check. change kInvalidClassId with (-1).
  assert (negb (receiver =? -1) && match mode with kRebalance => false | _ => true end = false) as ->.
  { destruct Hrc as [->|[_ ->]]; [done|by rewrite andb_false_r]. }
  rewrite (proj2 (Z.eqb_neq (Z.of_nat i) (-1))) by lia. cbn [andb]. res_simpl. rewrite (getAllocationClassFor_ok Hinv i ac Hi). res_simpl.
  pose proof (i_sys _ _ _ _ _ _ _ Hinv i ac k Hi Hk) as [(online & off & Hac) _]. cbn in Hac. unfold rel_of in Hac. rewrite Hrel in Hac.
  pose proof (w_phase _ _ _ _ _ _ Hac) as Hoff. cbn in Hoff. subst off.
  destruct (start_release_aux _ _ _ _ mode hint rnd s Hac Ht Hin) as (ctx & ac' & m' & online' & Es & Hl & Em & _).
  destruct (start_call _ _ _ _ _ _ _ i ac k receiver zero mode hint rnd ctx ac' m' Hinv Hi Hk Hrel Hrc Es) as (Hsc & Hoth & Hfin).
  rewrite Es. res_simpl. cbn [mp_startRelease_end]. destruct Hl as (<- & Hsort & Hall).
  set (ctx' := setZeroOnRelease zero (setReceiver receiver ctx)). change (isReleased ctx') with (isReleased ctx).
  change (mode_ ctx') with (mode_ ctx). change (slab_ ctx') with (slab_ ctx).
  assert (∀ k', k_live k' = k_live k → u64 (live_bytes (<[i := ac']> (ac_ pool)) (<[i := k']> cls)) = currAllocSize_ pool) as Hb.
  { intros k' Ek. rewrite (live_bytes_insert _ _ i ac k) by (done || apply Hsc). rewrite Ek, Halloc. f_equal. lia. }
  destruct (isReleased ctx) eqn:Er.
  - destruct (releaseSlab_aux (mode_ ctx) (slab_ ctx) zero receiver madviseOk (with_class i ac' pool) m' (<[i := set_rel None k]> cls) (n - 1) drift)
      as (pool' & m2 & -> & Hw & _ & _ & Hmv).
    { exact Hfin. } { cbn. by rewrite Hslab, drift_eq. } { cbn. by rewrite Hb. } { cbn. rewrite length_insert. by rewrite Em. }
    res_simpl. eexists ctx', _, _. split; [done|]. rewrite (alter_insert _ _ _ _ Hk). unfold add_ctx. change (isReleased ctx') with (isReleased ctx).
    rewrite Er. split; [exact Hw|]. rewrite <- Em. by split_and!.
  - eexists ctx', _, _. split; [done|]. rewrite (alter_insert _ _ _ _ Hk). change (isReleased ctx') with (isReleased ctx). rewrite Er.
    split; [|by split_and!]. exists n. cbn. split; [exact Hfin|]. split; [done|]. cbn. by rewrite Hb.
Qed.

(** [MemoryPool::completeSlabRelease] of a context that was returned earlier
    either waits, changing nothing, or finds all allocations of the slab freed
    and moves it where the context says. *)
Theorem mp_completeSlabRelease_spec id poolSize sizes m st i j k ctx madviseOk :
  (length sizes ≤ 127)%nat → pool_reachable id poolSize sizes m st → p_cls st !! i = Some k → k_ctxs k !! j = Some ctx →
  ∃ b pool' m', mp_completeSlabRelease ctx madviseOk (p_pool st) (p_mem st) = Ok (b, pool', m') ∧
    if b : bool
    then slab_moved (mode_ ctx) (receiver_ ctx) (slab_ ctx) pool' m' ∧
         pool_wf (mkPSys pool' m' (alter (drop_ctx j) i (p_cls st)) (p_drift st))
    else pool' = p_pool st ∧ m' = p_mem st.
Proof.
  intros Hlen (Hwf & _)%(reachable_inv Hlen) Hk Hj. destruct st as [pool mm cls drift].
  destruct (mp_complete_aux pool mm cls drift i j k ctx madviseOk Hwf Hk Hj) as (b & pool' & m' & E & (Hw & _) & H).
  exists b, pool', m'. split; [done|]. by destruct b.
Qed.

(** ** A concrete pool

    Four slabs, none of them in use yet; a pool of at most three slabs with
    classes of 1 MiB and 4 MiB. *)
Definition pop_okb (o : pop) (st : PSys) : bool :=
  match o with
  | PAllocate size | PAllocateSlow size => (0 <=? size) && (size <? 2 ^ 32)
  | PFree i p | PWrite i p _ => match p_cls st !! i with Some k => bool_decide (p ∈ k_live k) | None => false end
  | PStart victim receiver _ _ _ _ _ =>
      ((victim =? kInvalidClassId) ||
       (0 <=? victim) && match p_cls st !! Z.to_nat victim with Some (mkCls (Some _) _ _) => false | _ => true end) &&
      ((receiver =? kInvalidClassId) || (0 <=? receiver) && (receiver <? Z.of_nat (length (ac_ (p_pool st)))))
  | PStep i abort _ => negb abort && match p_cls st !! i with Some (mkCls (Some _) _ _) => true | _ => false end
  | PAbort i j | PComplete i j _ =>
      match p_cls st !! i with Some k => match k_ctxs k !! j with Some _ => true | None => false end | None => false end
  | PEnv _ => false
  | PResize _ | PSetAdvised _ | PReclaim _ => true
  end.
Lemma pop_okb_sound o st : pop_okb o st = true → pop_ok o st.
Proof.
  destruct o as [size|size|i p|i p c| | |victim receiver mode hint rnd zero ok|i [] ok|i j|i j ok| |]; cbn -[Z.pow]; try done.
  1, 2: by intros [?%Z.leb_le ?%Z.ltb_lt]%andb_true_iff.
  1, 2: destruct (p_cls st !! i) as [k|]; [|done]; intros H%bool_decide_eq_true_1; by exists k.
  - intros [Hv Hr]%andb_true_iff. split.
    + apply orb_true_iff in Hv as [->%Z.eqb_eq|[Hv%Z.leb_le Hk]%andb_true_iff]; [by left|right]. split; [done|].
      intros k E. rewrite E in Hk. destruct k as [[?|] ? ?]; done.
    + apply orb_true_iff in Hr as [->%Z.eqb_eq|[?%Z.leb_le ?%Z.ltb_lt]%andb_true_iff]; [by left|by right].
  - destruct (p_cls st !! i) as [[[x|] ? ?]|]; try done. intros _. split; [done|]. by eexists _, x.
  - destruct (p_cls st !! i) as [k|]; [|done]. destruct (k_ctxs k !! j) eqn:E; [|done]. intros _. exists k. by rewrite E.
  - destruct (p_cls st !! i) as [k|]; [|done]. destruct (k_ctxs k !! j) eqn:E; [|done]. intros _. exists k. by rewrite E.
Qed.
Fixpoint pool_runb (ops : list pop) (st : PSys) : option PSys :=
  match ops with
  | [] => Some st
  | o :: ops => if pop_okb o st then match pool_step o st with Ok (_, st) => pool_runb ops st | _ => None end else None
  end.
Lemma pool_runb_sound ops : ∀ st st', pool_runb ops st = Some st' → rtc pool_rel st st'.
Proof.
  induction ops as [|o ops IH]; intros st st'; cbn; [by intros [= <-]|]. destruct (pop_okb o st) eqn:Eo; [|done].
  destruct (pool_step o st) as [[ret st1]| |] eqn:E; [|done|done]. intros H%IH. eapply rtc_l; [|done].
  exists o, ret. split; [by apply pop_okb_sound|done].
Qed.

Definition pex_sa : SlabAllocator :=
  mkSlabAllocator (replicate kMaxPools 0) [] [] kSize (5 * kSize) (2 * kSize) (2 * kSize) true false false
    (λ _, mkSlabHeader (-1) (-1) 0 0).
Lemma pex_sa_wf : sa_wf pex_sa.
Proof.
  split; [split; reflexivity|split; [split; [reflexivity|discriminate]|reflexivity]
    |reflexivity..|split; [split; discriminate|reflexivity]|apply NoDup_nil_2
    |by apply Forall_nil|discriminate|reflexivity].
Qed.
Lemma pex_no_slabs id s : ¬ of_pool id pex_sa s.
Proof. intros [Hv _]. rewrite (valid_slab_iff _ pex_sa_wf) in Hv. cbn in Hv. lia. Qed.
Lemma pex_idle : idle_clean pex_sa.
Proof. done. Qed.

Definition pex_mem : Mem := mkMem pex_sa ∅.
Definition pex_sizes : list Z := [1048576; 4194304].
Definition pex_pool : MemoryPool :=
  mkPool 3 (3 * kSize) 0 0 [] pex_sizes [empty_class 0 3 1048576; empty_class 1 3 4194304] 0 0 0 0.
Definition pex_init : PSys := pool_init pex_pool pex_mem.
Definition pex_run (ops : list pop) (st : PSys) : PSys := default pex_init (pool_runb ops st).

Lemma pex_reachable ops : pool_runb ops pex_init ≠ None → pool_reachable 3 (3 * kSize) pex_sizes pex_mem (pex_run ops pex_init).
Proof.
  intros H. split; [apply pex_sa_wf|]. split; [apply pex_idle|]. split; [done|]. split; [apply pex_no_slabs|].
  exists pex_pool. split; [by vm_compute|]. unfold pex_run. destruct (pool_runb ops pex_init) as [st|] eqn:E; [|done].
  by apply (pool_runb_sound ops).
Qed.

(** Three allocations of 1 MiB in one slab, the first one freed again, and one
    of 4 MiB. *)
Definition pex_ops : list pop :=
  [PAllocate 1000000; PAllocate 1048576; PAllocate 77; PAllocate 1048577; PFree 0 (2 * kSize)].
(** The slab of the small ones is then to move to the other class. *)
Definition pex_release : list pop :=
  pex_ops ++ [PStart 0 1 kRebalance (Some (2 * kSize)) 0 true true; PStep 0 false true; PStep 0 false true; PStep 0 false true; PStep 0 false true].
Definition pex_st : PSys := Eval vm_compute in pex_run pex_ops pex_init.
Definition pex_open : PSys := Eval vm_compute in pex_run pex_release pex_init.
Lemma pex_st_reachable : pool_reachable 3 (3 * kSize) pex_sizes pex_mem pex_st.
Proof. refine (pex_reachable pex_ops _). by vm_compute. Qed.
Lemma pex_open_reachable : pool_reachable 3 (3 * kSize) pex_sizes pex_mem pex_open.
Proof. refine (pex_reachable pex_release _). by vm_compute. Qed.

Lemma pex_few : (length pex_sizes ≤ 127)%nat.
Proof. cbn. lia. Qed.
Lemma pool_reachable_safe_witness : pool_apart pex_st ∧
  ∃ st', pool_step (PAllocate 5) pex_st = Ok (Some (2 * kSize), st') ∧ ¬ held pex_st (2 * kSize).
Proof.
  destruct (pool_reachable_safe 3 (3 * kSize) pex_sizes pex_mem pex_st (PAllocate 5) pex_few pex_st_reachable) as [Ha [(ret & st' & E & Hr & _)|[E _]]];
    [done| |by vm_compute in E].
  split; [exact Ha|]. assert (ret = Some (2 * kSize)) as -> by (vm_compute in E; by injection E as <- _).
  exists st'. split; [exact E|]. by destruct (Hr (2 * kSize) eq_refl).
Defined.
Lemma pool_accounting_witness : ∃ S : gset Z, currAllocSize_ (p_pool pex_st) = 6 * 1048576 ∧
  currSlabAllocSize_ (p_pool pex_st) = kSize * Z.of_nat (size S) ∧
  ∀ s, s ∈ S ↔ in_class (ac_ (p_pool pex_st)) (m_sa (p_mem pex_st)) s.
Proof.
  destruct (pool_accounting 3 (3 * kSize) pex_sizes pex_mem pex_st pex_few pex_st_reachable) as (S & HS & _ & _ & _ & Hd).
  exists S. split; [reflexivity|]. split; [by apply Hd|exact HS].
Defined.
Lemma getAllocationClassId_first_fit_witness : getAllocationClassId 1048577 (p_pool pex_st) = Ok 1.
Proof. rewrite (getAllocationClassId_first_fit 3 (3 * kSize) pex_sizes pex_mem pex_st 1048577 pex_few pex_st_reachable); [reflexivity|lia]. Defined.
Lemma mp_allocate_spec_witness : ∃ p pool' m', mp_allocate 4194304 (p_pool pex_st) (p_mem pex_st) = Ok (Some p, pool', m') ∧
  within_limit (p_pool pex_st) pool' ∧ is_alloc (m_sa m') p.
Proof.
  destruct (mp_allocate_spec 3 (3 * kSize) pex_sizes pex_mem pex_st 4194304 1 pex_few pex_st_reachable) as (ret & pool' & m' & E & _ & Hl & Hr);
    [done|done|done|]. destruct ret as [p|]; [|by vm_compute in E]. exists p, pool', m'. split; [exact E|]. split; [exact Hl|apply Hr].
Defined.
Lemma mp_saveState_restore_witness : ∃ o, mp_saveState (p_pool pex_st) (p_mem pex_st) = Ok o ∧
  MemoryPool_restore o (p_mem pex_st) = Ok (forget_aborted (p_pool pex_st)).
Proof.
  apply (mp_saveState_restore 3 (3 * kSize) pex_sizes pex_mem pex_st pex_few pex_st_reachable). split_and!; try done.
  - by intros k [->|[->|?%elem_of_nil]%elem_of_cons]%elem_of_cons.
  - by intros ac [->|[->|?%elem_of_nil]%elem_of_cons]%elem_of_cons.
Defined.
Definition pex_class (i : nat) (st : PSys) : AllocationClass := default (empty_class 0 0 0) (ac_ (p_pool st) !! i).
Definition pex_cls (i : nat) (st : PSys) : Cls := default (mkCls None ∅ []) (p_cls st !! i).
Lemma mp_startSlabRelease_spec_witness : ∃ ctx pool' m',
  mp_startSlabRelease 0 1 kRebalance (Some (2 * kSize)) 0 true true [] (p_pool pex_st) (p_mem pex_st) = Ok (Returned ctx, pool', m') ∧
  ctx_lists ctx (2 * kSize) {[2 * kSize + 1048576; 2 * kSize + 2 * 1048576]}.
Proof.
  destruct (mp_startSlabRelease_spec 3 (3 * kSize) pex_sizes pex_mem pex_st 0 (pex_class 0 pex_st) (pex_cls 0 pex_st) 1 kRebalance
    (Some (2 * kSize)) 0 true true (2 * kSize) pex_few pex_st_reachable) as (ctx & pool' & m' & E & _ & Hl & _); try done.
  - right. split; [cbn; lia|done].
  - change (allocatedSlabs_ (pex_class 0 pex_st) ++ freeSlabs_ (pex_class 0 pex_st)) with [2 * kSize]. by left.
  - exists ctx, pool', m'. split; [exact E|exact Hl].
Defined.
(** With the two allocations freed, the slab goes to the class of 4 MiB. *)
Definition pex_freed : PSys := Eval vm_compute in
  pex_run (pex_release ++ [PFree 0 (2 * kSize + 1048576); PFree 0 (2 * kSize + 2 * 1048576)]) pex_init.
Lemma pex_freed_reachable : pool_reachable 3 (3 * kSize) pex_sizes pex_mem pex_freed.
Proof. refine (pex_reachable (pex_release ++ [PFree 0 (2 * kSize + 1048576); PFree 0 (2 * kSize + 2 * 1048576)]) _). by vm_compute. Qed.
Lemma mp_completeSlabRelease_spec_witness : ∃ ctx pool' m' ac,
  mp_completeSlabRelease ctx true (p_pool pex_freed) (p_mem pex_freed) = Ok (true, pool', m') ∧
  ac_ pool' !! 1%nat = Some ac ∧ is_ours ac (m_sa m') (2 * kSize).
Proof.
  set (ctx := default (releasedContext 0 0 0 kResize) (k_ctxs (pex_cls 0 pex_freed) !! 0%nat)). exists ctx.
  destruct (mp_completeSlabRelease_spec 3 (3 * kSize) pex_sizes pex_mem pex_freed 0 0 (pex_cls 0 pex_freed) ctx true pex_few pex_freed_reachable)
    as (b & pool' & m' & E & H); [done|done|]. destruct b; [|by vm_compute in E]. destruct H as [(ac & Ha & Ho) _].
  exists pool', m', ac. split; [exact E|]. split; [exact Ha|exact Ho].
Defined.

(** ** Where the pool does not do what it means to *)

(** A slab moved to the spare ones is no longer counted by
    [currSlabAllocSize_]; [startSlabRelease] without a victim gives it back to
    the slab allocator and subtracts it a second time.  Here one class keeps a
    slab in use and the counter says zero: the pool may take one slab more than
    its size allows, and a restart refuses the saved state. *)
Definition to_spare (s : Z) : list pop := PStart 1 (-1) kRebalance (Some s) 0 false true :: replicate 4 (PStep 1 false true).
Definition pex_drift_ops : list pop :=
  [PAllocate 4194304; PAllocate 4194304; PFree 1 (2 * kSize)] ++ to_spare (2 * kSize) ++
  [PStart (-1) (-1) kResize None 0 false true; PResize kSize].
Definition pex_drift : PSys := Eval vm_compute in pex_run pex_drift_ops pex_init.
Lemma pex_drift_reachable : pool_reachable 3 (3 * kSize) pex_sizes pex_mem pex_drift.
Proof. refine (pex_reachable pex_drift_ops _). by vm_compute. Qed.
Lemma spare_release_subtracts_twice :
  allocatedSlabs_ (pex_class 1 pex_drift) = [3 * kSize] ∧ currAllocSize_ (p_pool pex_drift) = kSize ∧
  currSlabAllocSize_ (p_pool pex_drift) = 0 ∧ maxSize_ (p_pool pex_drift) = kSize ∧ mp_allSlabsAllocated (p_pool pex_drift) = false ∧
  ('(ret, pool, _) ← mp_allocate 4194304 (p_pool pex_drift) (p_mem pex_drift); Ok (ret, currAllocSize_ pool, overLimit pool)) =
    Ok (Some (2 * kSize), 2 * kSize, false) ∧
  (o ← mp_saveState (p_pool pex_drift) (p_mem pex_drift); MemoryPool_restore o (p_mem pex_drift)) = Throw InvalidArgument.
Proof. by split_and!; vm_compute. Qed.

(** The check of a class id compares with [static_cast<ClassId>(ac_.size())],
    which is [-128] for the 128 classes the interface admits: no id is valid,
    so nothing can be freed or released. *)
Definition pex_128 : MemoryPool := mkPool 3 (3 * kSize) 0 0 [] ((λ i, 64 * Z.of_nat (S i)) <$> seq 0 128)
  (imap (λ i size, empty_class (Z.of_nat i) 3 size) ((λ i, 64 * Z.of_nat (S i)) <$> seq 0 128)) 0 0 0 0.
Lemma class_count_wraps :
  MemoryPool_new 3 (3 * kSize) (acSizes_ pex_128) pex_sa = Ok pex_128 ∧
  (∀ cid, 0 ≤ cid → getAllocationClassFor cid pex_128 = Throw InvalidArgument) ∧
  ('(ret, pool, m) ← mp_allocate 64 pex_128 pex_mem; p ← deref ret; mp_free p pool m) = Throw RuntimeError.
Proof.
  split; [by vm_compute|]. split; [|by vm_compute]. intros cid Hc. unfold getAllocationClassFor.
  assert (s8 (Z.of_nat (length (ac_ pex_128))) = -128) as -> by (vm_compute; reflexivity). by rewrite (proj2 (Z.ltb_ge _ _)) by lia.
Qed.

(** Aborting a context whose slab was free has class id [-1], which passes the
    check of [getAllocationClassFor] and indexes the vector of classes. *)
Lemma abort_released_out_of_range pool m : (0 < length (ac_ pool) ≤ 127)%nat →
  mp_abortSlabRelease (releasedContext (2 * kSize) (id_ pool) kInvalidClassId kRebalance) pool m = Undef.
Proof.
  intros Hl. unfold mp_abortSlabRelease, getAllocationClassFor. cbn [victim_ releasedContext]. change kInvalidClassId with (-1).
  rewrite s8_small by lia. by rewrite (proj2 (Z.ltb_lt _ _)) by lia.
Qed.

(** Spare slabs above the size of the pool make [slabsUnAllocated] wrap. *)
Definition pex_spare : PSys := Eval vm_compute in
  pex_run ([PAllocate 4194304; PAllocate 4194304; PFree 1 (2 * kSize); PFree 1 (3 * kSize)] ++ to_spare (2 * kSize) ++
           to_spare (3 * kSize) ++ [PResize kSize]) pex_init.
Lemma unallocated_slabs_wrap : length (pool_freeSlabs_ (p_pool pex_spare)) = 2%nat ∧
  slabsUnAllocated (mp_getStats (p_pool pex_spare)) = 2 ^ 64 - 1.
Proof. by split; vm_compute. Qed.
