(* ===== verification/PoolManager.v ===== *)
(** The pools of an allocator ([allocator/memory/MemoryPoolManager.h] and
    [.cpp]): creation and sizes against the memory there is, names and ids, the
    plan of which pools advise slabs away or reclaim them, and saved state.

    [pools_] is the array of owning pointers, null where there is no pool.  The
    slab allocator is the one of the shared [Mem]. *)
From Stdlib Require Import Sorted.
From stdpp Require Import strings.
From S2P Require Import Prelude SlabAllocator PtrCompressor SList AllocationClass MemoryPool.

Module Manager.
Definition kMaxPools : nat := 64.
Record MemoryPoolManager := mkMPM {
  pools_ : list (option MemoryPool);
  poolsByName_ : gmap string Z;
  nextPoolId_ : Z;
  numSlabsToAdvise_ : Z;
}.
Implicit Types (mgr : MemoryPoolManager) (pool : MemoryPool) (m : Mem) (sa : SlabAllocator).

Definition MemoryPoolManager_new : MemoryPoolManager := mkMPM (replicate kMaxPools None) ∅ 0 0.
Definition with_pool (id : Z) pool mgr : MemoryPoolManager :=
  mkMPM (<[Z.to_nat id := Some pool]> (pools_ mgr)) (poolsByName_ mgr) (nextPoolId_ mgr) (numSlabsToAdvise_ mgr).

(** [*pools_[id]]: undefined outside the array and for a null pointer. *)
Definition pool_at (id : Z) mgr : result MemoryPool :=
  if id <? 0 then Undef else p ← deref (pools_ mgr !! Z.to_nat id); deref p.
Definition poolIds mgr : list Z := seqZ 0 (nextPoolId_ mgr).
Fixpoint sum_pools (f : MemoryPool → Z) (ids : list Z) (sum : Z) mgr : result Z :=
  match ids with
  | [] => Ok sum
  | id :: ids => pool ← pool_at id mgr; sum_pools f ids (u64 (sum + f pool)) mgr
  end.

(** ** Pools and their sizes *)
Definition getRemainingSizeLocked mgr sa : result Z :=
  let totalSize := u64 (getNumUsableAndAdvisedSlabs sa * kSize) in
  sum ← sum_pools maxSize_ (poolIds mgr) 0 mgr;
  _ ← xdcheck (sum <=? totalSize);
  Ok (totalSize - sum).
Definition getBytesUnReserved := getRemainingSizeLocked.

Definition createNewPool (name : string) (poolSize : Z) (allocSizes : list Z) mgr sa : result (Z * MemoryPoolManager) :=
  match poolsByName_ mgr !! name with
  | Some _ => Throw InvalidArgument
  | None =>
      _ ← throw_if (nextPoolId_ mgr =? Z.of_nat kMaxPools) LogicError;
      remaining ← getRemainingSizeLocked mgr sa;
      _ ← throw_if (remaining <? poolSize) InvalidArgument;
      let id := nextPoolId_ mgr in
      pool ← MemoryPool_new id poolSize allocSizes sa;
      _ ← xdcheck (Z.to_nat id <? length (pools_ mgr))%nat;
      Ok (id, mkMPM (<[Z.to_nat id := Some pool]> (pools_ mgr)) (<[name := id]> (poolsByName_ mgr)) (s8 (id + 1))
                (numSlabsToAdvise_ mgr))
  end.

Definition getPoolByName (name : string) mgr : result (Z * MemoryPool) :=
  match poolsByName_ mgr !! name with
  | None => Throw InvalidArgument
  | Some poolId =>
      _ ← xdcheck (poolId <? nextPoolId_ mgr);
      _ ← xdcheck (0 <=? poolId);
      pool ← pool_at poolId mgr;
      Ok (poolId, pool)
  end.
Definition getPoolById (id : Z) mgr : result MemoryPool :=
  if (id <? nextPoolId_ mgr) && (0 <=? id) then pool_at id mgr else Throw InvalidArgument.
Definition getPoolNameById (id : Z) mgr : result string :=
  match list_find (λ kv, kv.2 = id) (map_to_list (poolsByName_ mgr)) with
  | Some (_, (name, _)) => Ok name
  | None => Throw InvalidArgument
  end.
Definition getPoolIds mgr : gset Z := list_to_set (poolIds mgr).

Definition resizePools (src dest bytes : Z) mgr : result (bool * MemoryPoolManager) :=
  srcPool ← getPoolById src mgr;
  _ ← getPoolById dest mgr;
  if maxSize_ srcPool <? bytes then Ok (false, mgr)
  else
    let mgr := with_pool src (resize (maxSize_ srcPool - bytes) srcPool) mgr in
    destPool ← getPoolById dest mgr;
    Ok (true, with_pool dest (resize (u64 (maxSize_ destPool + bytes)) destPool) mgr).
Definition shrinkPool (pid bytes : Z) mgr : result (bool * MemoryPoolManager) :=
  pool ← getPoolById pid mgr;
  if maxSize_ pool <? bytes then Ok (false, mgr)
  else Ok (true, with_pool pid (resize (maxSize_ pool - bytes) pool) mgr).
Definition growPool (pid bytes : Z) mgr sa : result (bool * MemoryPoolManager) :=
  pool ← getPoolById pid mgr;
  remaining ← getRemainingSizeLocked mgr sa;
  if remaining <? bytes then Ok (false, mgr)
  else Ok (true, with_pool pid (resize (u64 (maxSize_ pool + bytes)) pool) mgr).

Fixpoint overLimit_loop (ids : list Z) (res : gset Z) mgr : result (gset Z) :=
  match ids with
  | [] => Ok res
  | id :: ids =>
      pool ← getPoolById id mgr;
      overLimit_loop ids (if overLimit pool then {[id]} ∪ res else res) mgr
  end.
Definition getPoolsOverLimit mgr : result (gset Z) := overLimit_loop (snd <$> map_to_list (poolsByName_ mgr)) ∅ mgr.

(** ** Advising slabs away *)
Definition getAdvisedMemorySize mgr : result Z := sum_pools getPoolAdvisedSize (poolIds mgr) 0 mgr.
(** [numSlabs]: a signed 32-bit integer, whose negation may be undefined. *)
Definition updateNumSlabsToAdvise (numSlabs : Z) mgr : result MemoryPoolManager :=
  _ ← xdcheck (negb (numSlabs =? - 2 ^ 31));
  _ ← throw_if ((numSlabs <? 0) && (numSlabsToAdvise_ mgr <? - numSlabs)) InvalidArgument;
  Ok (mkMPM (pools_ mgr) (poolsByName_ mgr) (nextPoolId_ mgr) (u64 (numSlabsToAdvise_ mgr + numSlabs))).

Definition div64 (a b : Z) : result Z := if b =? 0 then Undef else Ok (a / b).
(** [std::unordered_map] with [operator[]]. *)
Definition at0 (mp : gmap Z Z) (id : Z) : Z := default 0 (mp !! id).

Fixpoint targets_loop (ids : list Z) (total toAdvise : Z) (inUse targets : gmap Z Z) (sum : Z) : result (gmap Z Z * Z) :=
  match ids with
  | [] => Ok (targets, sum)
  | id :: ids =>
      t ← div64 (u64 (at0 inUse id * toAdvise)) total;
      targets_loop ids total toAdvise inUse (<[id := t]> targets) (u64 (sum + t))
  end.
Fixpoint remainder_loop (ids : list Z) (total toAdvise : Z) (inUse targets : gmap Z Z) (sum : Z) : result (gmap Z Z * Z) :=
  match ids with
  | [] => Ok (targets, sum)
  | id :: ids =>
      if sum <? toAdvise then
        q ← div64 (u64 (at0 targets id * total)) toAdvise;
        if q <? at0 inUse id
        then remainder_loop ids total toAdvise inUse (<[id := u64 (at0 targets id + 1)]> targets) (u64 (sum + 1))
        else remainder_loop ids total toAdvise inUse targets sum
      else Ok (targets, sum)
  end.
(** [poolIds]: the elements of the set in order. *)
Definition getTargetSlabsToAdvise (ids : list Z) (total : Z) (inUse : gmap Z Z) mgr : result (gmap Z Z) :=
  '(targets, sum) ← targets_loop ids total (numSlabsToAdvise_ mgr) inUse ∅ 0;
  '(targets, sum) ← remainder_loop ids total (numSlabsToAdvise_ mgr) inUse targets sum;
  _ ← xdcheck (sum =? numSlabsToAdvise_ mgr);
  Ok targets.

Record PoolAdviseReclaimData := mkPARD { poolAdviseReclaimMap : gmap Z Z; advise : bool }.
Fixpoint usage_loop (ids : list Z) (inUse : gmap Z Z) (totalInUse totalAdvised : Z) mgr : result (gmap Z Z * Z * Z) :=
  match ids with
  | [] => Ok (inUse, totalInUse, totalAdvised)
  | id :: ids =>
      pool ← pool_at id mgr;
      let n := getCurrentUsedSize pool / kSize in
      usage_loop ids (<[id := n]> inUse) (u64 (totalInUse + n)) (u64 (totalAdvised + curSlabsAdvised_ pool)) mgr
  end.
Fixpoint setAdvised_loop (targets : list (Z * Z)) mgr : result MemoryPoolManager :=
  match targets with
  | [] => Ok mgr
  | (id, n) :: targets =>
      pool ← pool_at id mgr;
      setAdvised_loop targets (with_pool id (setNumSlabsAdvised n pool) mgr)
  end.
(** The pools in order take what they are away from their target ([f]) until
    [diff] is used up. *)
Fixpoint spread_loop (f : Z → Z → Z) (ids : list Z) (targets : gmap Z Z) (diff : Z) (res : gmap Z Z) mgr : result (gmap Z Z) :=
  match ids with
  | [] => Ok res
  | id :: ids =>
      if diff =? 0 then Ok res
      else
        pool ← pool_at id mgr;
        let n := f (at0 targets id) (curSlabsAdvised_ pool) in
        if n <=? 0 then spread_loop f ids targets diff res mgr
        else spread_loop f ids targets (diff - Z.min n diff) (<[id := Z.min n diff]> res) mgr
  end.
Definition calcNumSlabsToAdviseReclaim (ids : list Z) mgr : result (PoolAdviseReclaimData * MemoryPoolManager) :=
  '(inUse, totalInUse, totalAdvised) ← usage_loop ids ∅ 0 0 mgr;
  let toAdvise := numSlabsToAdvise_ mgr in
  if (totalInUse =? 0) || ((toAdvise =? 0) && (totalAdvised =? 0)) then Ok (mkPARD ∅ false, mgr)
  else
    targets ← getTargetSlabsToAdvise ids totalInUse inUse mgr;
    if toAdvise =? totalAdvised then
      mgr ← setAdvised_loop (map_to_list targets) mgr; Ok (mkPARD ∅ false, mgr)
    else if totalAdvised <? toAdvise then
      res ← spread_loop (λ target curr, target - curr) ids targets (toAdvise - totalAdvised) ∅ mgr;
      Ok (mkPARD res true, mgr)
    else
      res ← spread_loop (λ target curr, curr - target) ids targets (totalAdvised - toAdvise) ∅ mgr;
      Ok (mkPARD res false, mgr).

(** ** Saved state *)
Record MemoryPoolManagerObject := mkMPMObject {
  o_pools : list MemoryPoolObject; o_poolsByName : gmap string Z; o_nextPoolId : option Z;
}.
Definition mpm_saveState mgr m : result MemoryPoolManagerObject :=
  _ ← throw_if (ownsMemory (m_sa m)) LogicError;
  pools ← mapM (λ id, pool ← pool_at id mgr; mp_saveState pool m) (poolIds mgr);
  Ok (mkMPMObject pools (poolsByName_ mgr) (Some (nextPoolId_ mgr))).
Fixpoint restore_pools (i : nat) (objects : list MemoryPoolObject) (pools : list (option MemoryPool)) (slabsAdvised : Z) m
    : result (list (option MemoryPool) * Z) :=
  match objects with
  | [] => Ok (pools, slabsAdvised)
  | o :: objects =>
      pool ← MemoryPool_restore o m;
      _ ← deref (pools !! i);
      restore_pools (S i) objects (<[i := Some pool]> pools) (u64 (slabsAdvised + curSlabsAdvised_ pool)) m
  end.
Definition MemoryPoolManager_restore (o : MemoryPoolManagerObject) m : result MemoryPoolManager :=
  let nextPoolId := default 0 (o_nextPoolId o) in
  _ ← throw_if (ownsMemory (m_sa m)) LogicError;
  _ ← throw_if (bool_decide (o_nextPoolId o = None)) LogicError;
  _ ← throw_if (negb (Z.of_nat (length (o_pools o)) =? u64 nextPoolId)) LogicError;
  '(pools, slabsAdvised) ← restore_pools 0 (o_pools o) (replicate kMaxPools None) 0 m;
  _ ← throw_if (negb (Z.of_nat (size (o_poolsByName o)) =? u64 nextPoolId)) LogicError;
  _ ← throw_if (negb (slabsAdvised =? numSlabsReclaimable (m_sa m))) LogicError;
  Ok (mkMPM pools (o_poolsByName o) nextPoolId (numSlabsReclaimable (m_sa m))).
End Manager.
