(* ===== verification/ManagerSpec.v ===== *)
(** What the pool manager computes: the shares of slabs that pools advise away
    or reclaim add up, and pool sizes never exceed the memory there is. *)
From Stdlib Require Import Sorted.
From stdpp Require Import strings.
From S2P Require Import Prelude SlabAllocator PtrCompressor SList AllocationClass MemoryPool PoolManager.
Import Manager.

Local Arguments wrap : simpl never.
Implicit Types (mgr : MemoryPoolManager) (pool : MemoryPool) (ids : list Z) (f g : Z → Z).

(** ** Sums *)
Fixpoint total f ids : Z := match ids with [] => 0 | id :: ids => f id + total f ids end.
Lemma total_ext f g ids : (∀ id, id ∈ ids → f id = g id) → total f ids = total g ids.
Proof. induction ids as [|x ids IH]; intros H; [done|]. cbn. rewrite (H x), IH; [done|intros; apply H; by right|by left]. Qed.
Lemma total_nonneg f ids : (∀ id, id ∈ ids → 0 ≤ f id) → 0 ≤ total f ids.
Proof. induction ids as [|x ids IH]; intros H; [done|]. cbn. pose proof (H x ltac:(by left)). enough (0 ≤ total f ids) by lia. apply IH. intros. apply H. by right. Qed.
Lemma total_le f g ids : (∀ id, id ∈ ids → f id ≤ g id) → total f ids ≤ total g ids.
Proof.
  induction ids as [|x ids IH]; intros H; [done|]. cbn. pose proof (H x ltac:(by left)).
  enough (total f ids ≤ total g ids) by lia. apply IH. intros. apply H. by right.
Qed.
Lemma total_elem f ids id : (∀ id, id ∈ ids → 0 ≤ f id) → id ∈ ids → f id ≤ total f ids.
Proof.
  induction ids as [|x ids IH]; intros H Hin; [by apply elem_of_nil in Hin|]. cbn.
  assert (0 ≤ total f ids) by (apply total_nonneg; intros; apply H; by right). pose proof (H x ltac:(by left)).
  apply elem_of_cons in Hin as [->|Hin]; [lia|]. enough (f id ≤ total f ids) by lia. apply IH; [|done]. intros. apply H. by right.
Qed.
Lemma total_plus f g ids : total (λ id, f id + g id) ids = total f ids + total g ids.
Proof. induction ids as [|x ids IH]; [done|]. cbn. rewrite IH. lia. Qed.
Lemma total_scale f k ids : total (λ id, f id * k) ids = total f ids * k.
Proof. induction ids as [|x ids IH]; [done|]. cbn. rewrite IH. lia. Qed.

Lemma at0_insert_eq (mp : gmap Z Z) id v : at0 (<[id := v]> mp) id = v.
Proof. unfold at0. by rewrite lookup_insert_eq. Qed.
Lemma at0_insert_ne (mp : gmap Z Z) id id' v : id ≠ id' → at0 (<[id := v]> mp) id' = at0 mp id'.
Proof. intros. unfold at0. by rewrite lookup_insert_ne. Qed.

(** ** Shares *)
Section shares.
Context (inUse : gmap Z Z) (T N : Z).
Context (HT : 0 < T) (HN : 0 ≤ N).
(** The exact share of a pool, rounded down, and whether it was rounded. *)
Definition share (id : Z) : Z := at0 inUse id * N / T.
Definition inexact (id : Z) : Z := if at0 inUse id * N mod T =? 0 then 0 else 1.

Lemma shares_close ids : (∀ id, id ∈ ids → 0 ≤ at0 inUse id) → total (at0 inUse) ids = T →
  0 ≤ total share ids ≤ N ∧ N - total share ids ≤ total inexact ids.
Proof.
  intros Hpos HS.
  assert (N * T = T * total share ids + total (λ id, at0 inUse id * N mod T) ids) as E.
  { rewrite <- HS at 1. rewrite Z.mul_comm, <- total_scale. rewrite Z.mul_comm, <- total_scale, <- total_plus.
    apply total_ext. intros id _. unfold share. pose proof (Z.div_mod (at0 inUse id * N) T). lia. }
  assert (0 ≤ total (λ id, at0 inUse id * N mod T) ids) as H0.
  { apply total_nonneg. intros id _. by apply Z.mod_pos_bound. }
  assert (total (λ id, at0 inUse id * N mod T) ids ≤ total inexact ids * T) as H1.
  { rewrite <- total_scale. apply total_le. intros id _. unfold inexact.
    pose proof (Z.mod_pos_bound (at0 inUse id * N) T HT). destruct (Z.eqb_spec (at0 inUse id * N mod T) 0); lia. }
  assert (0 ≤ total share ids).
  { apply total_nonneg. intros id Hid. apply Z.div_pos; [|done]. specialize (Hpos id Hid). nia. }
  nia.
Qed.

(** A share that was rounded down is recognised by multiplying back. *)
Lemma rounded_back id : 0 < N → 0 ≤ at0 inUse id → (share id * T / N <? at0 inUse id) = (inexact id =? 1).
Proof.
  intros Hpos Hu. unfold share, inexact. set (n := at0 inUse id) in *. pose proof (Z.div_mod (n * N) T) as E.
  pose proof (Z.mod_pos_bound (n * N) T HT) as Hr. destruct (Z.eqb_spec (n * N mod T) 0) as [E0|E0]; cbn.
  - replace (n * N / T * T) with (n * N) by lia. rewrite Z.div_mul by lia. apply Z.ltb_irrefl.
  - apply Z.ltb_lt. apply Z.div_lt_upper_bound; [done|]. lia.
Qed.

Lemma targets_loop_spec : T * N < 2 ^ 64 → ∀ ids targets sum, NoDup ids → (∀ id, id ∈ ids → 0 ≤ at0 inUse id ≤ T) →
  0 ≤ sum → sum + total share ids < 2 ^ 64 →
  ∃ targets', targets_loop ids T N inUse targets sum = Ok (targets', sum + total share ids) ∧
    (∀ id, id ∈ ids → targets' !! id = Some (share id)) ∧ (∀ id, id ∉ ids → targets' !! id = targets !! id).
Proof.
  intros Hov. induction ids as [|x ids IH]; intros targets sum Hnd Hle Hs Hb.
  { exists targets. split; [cbn; do 2 f_equal; lia|]. split; [by intros id ?%elem_of_nil|done]. }
  apply NoDup_cons in Hnd as [Hx Hnd]. cbn [targets_loop total] in *. unfold div64. rewrite (proj2 (Z.eqb_neq _ _)) by lia.
  pose proof (Hle x ltac:(by left)) as Hx0. rewrite (wrap_small 64 (at0 inUse x * N)) by (unfold fits; nia). res_simpl.
  assert (0 ≤ share x) by (apply Z.div_pos; nia).
  assert (0 ≤ total share ids) by (apply total_nonneg; intros id Hid; apply Z.div_pos; [|done]; specialize (Hle id ltac:(by right)); nia).
  fold (share x). rewrite (wrap_small 64 (sum + share x)) by (unfold fits; lia).
  destruct (IH (<[x := share x]> targets) (sum + share x)) as (targets' & -> & H1 & H2); [done|intros; apply Hle; by right|lia|lia|].
  exists targets'. split; [do 2 f_equal; lia|]. split.
  - intros id [->|Hid]%elem_of_cons; [|by apply H1]. by rewrite H2, lookup_insert_eq.
  - intros id Hn. rewrite H2 by set_solver. rewrite lookup_insert_ne; [done|set_solver].
Qed.

Lemma remainder_loop_spec : T * N < 2 ^ 64 → T < 2 ^ 64 → N < 2 ^ 64 → ∀ ids targets sum, NoDup ids → (∀ id, id ∈ ids → 0 ≤ at0 inUse id ≤ T) →
  (∀ id, id ∈ ids → targets !! id = Some (share id)) → 0 ≤ sum ≤ N → N - sum ≤ total inexact ids →
  ∃ targets', remainder_loop ids T N inUse targets sum = Ok (targets', N) ∧
    total (at0 targets') ids = total share ids + (N - sum) ∧
    (∀ id, id ∈ ids → ∃ t, targets' !! id = Some t ∧ share id ≤ t ≤ share id + inexact id) ∧
    (∀ id, id ∉ ids → targets' !! id = targets !! id).
Proof.
  intros Hov HT64 HN64.
  assert (∀ id, 0 ≤ inexact id) as Hi by (intros id; unfold inexact; by destruct (_ =? 0)).
  induction ids as [|x ids IH]; intros targets sum Hnd Hle Heq Hs Hc.
  { cbn in Hc. exists targets. cbn. split; [do 2 f_equal; lia|]. split; [lia|]. split; [by intros id ?%elem_of_nil|done]. }
  pose proof Hnd as [Hx Hnd']%NoDup_cons. cbn [remainder_loop]. pose proof (Hle x ltac:(by left)) as Hx0.
  destruct (Z.ltb_spec sum N) as [Hlt|Hge]; cycle 1.
  { exists targets. split; [do 2 f_equal; lia|]. split; [|split; [|done]].
    - rewrite (total_ext _ share); [lia|]. intros id Hid. unfold at0. by rewrite Heq.
    - intros id Hid. exists (share id). split; [by apply Heq|]. pose proof (Hi id). lia. }
  unfold div64. rewrite (proj2 (Z.eqb_neq N 0)) by lia. assert (at0 targets x = share x) as -> by (unfold at0; by rewrite (Heq x) by (by left)).
  assert (0 ≤ share x ∧ share x * T ≤ at0 inUse x * N) as [Hq0 Hq].
  { unfold share. split; [apply Z.div_pos; nia|]. pose proof (Z.mul_div_le (at0 inUse x * N) T HT). lia. }
  rewrite (wrap_small 64 (share x * T)) by (unfold fits; nia). res_simpl. rewrite rounded_back by lia.
  cbn [total] in Hc |- *. destruct (Z.eqb_spec (inexact x) 1) as [E1|E1].
  - assert (share x + 1 < 2 ^ 64 ∧ sum + 1 < 2 ^ 64) as [B1 B2].
    { split; [|lia]. unfold inexact in E1. destruct (Z.eqb_spec (at0 inUse x * N mod T) 0); [done|].
      pose proof (Z.div_mod (at0 inUse x * N) T). pose proof (Z.mod_pos_bound (at0 inUse x * N) T HT). unfold share in *. nia. }
    rewrite !(wrap_small 64) by (unfold fits; lia).
    destruct (IH (<[x := share x + 1]> targets) (sum + 1)) as (targets' & -> & H1 & H2 & H3);
      [done|intros; apply Hle; by right| |lia|lia|].
    { intros id Hid. rewrite lookup_insert_ne by (intros ->; done). apply Heq. by right. }
    assert (targets' !! x = Some (share x + 1)) as Ex by (by rewrite H3, lookup_insert_eq).
    exists targets'. split; [done|]. split; [unfold at0 at 1; rewrite Ex; cbn; lia|]. split.
    + intros id [->|Hid]%elem_of_cons; [eexists; split; [done|lia]|by apply H2].
    + intros id Hn. rewrite H3 by set_solver. rewrite lookup_insert_ne; [done|set_solver].
  - assert (inexact x = 0) as E0 by (unfold inexact in *; by destruct (_ =? 0)).
    destruct (IH targets sum) as (targets' & -> & H1 & H2 & H3); [done|intros; apply Hle; by right|intros; apply Heq; by right|lia|lia|].
    assert (targets' !! x = Some (share x)) as Ex by (rewrite H3 by done; apply Heq; by left).
    exists targets'. split; [done|]. split; [unfold at0 at 1; rewrite Ex; cbn; lia|]. split.
    + intros id [->|Hid]%elem_of_cons; [eexists; split; [done|lia]|by apply H2].
    + intros id Hn. apply H3. set_solver.
Qed.
End shares.

(** Every pool's target is its exact share rounded down, plus one for some pools
    whose share is not integral, and the targets add up. *)
Lemma targets_aux ids inUse mgr : let N := numSlabsToAdvise_ mgr in let T := total (at0 inUse) ids in
  NoDup ids → (∀ id, id ∈ ids → 0 ≤ at0 inUse id) → 0 < T → 0 ≤ N → T * N < 2 ^ 64 → T < 2 ^ 64 → N < 2 ^ 64 →
  ∃ targets, getTargetSlabsToAdvise ids T inUse mgr = Ok targets ∧ total (at0 targets) ids = N ∧
    (∀ id, id ∈ ids → ∃ t, targets !! id = Some t ∧ share inUse T N id ≤ t ≤ share inUse T N id + inexact inUse T N id) ∧
    (∀ id, id ∉ ids → targets !! id = None).
Proof.
  intros N T Hnd Hpos HT HN Hov HT64 HN64. unfold getTargetSlabsToAdvise. fold N.
  assert (∀ id, id ∈ ids → 0 ≤ at0 inUse id ≤ T) as Hle.
  { intros id Hid. split; [by apply Hpos|]. by apply (total_elem (at0 inUse)). }
  destruct (shares_close inUse T N HT HN ids Hpos eq_refl) as [Hsh Hc].
  destruct (targets_loop_spec inUse T N HT HN Hov ids ∅ 0 Hnd Hle ltac:(lia) ltac:(lia)) as (t1 & -> & H1 & H2). res_simpl.
  destruct (remainder_loop_spec inUse T N HT HN Hov HT64 HN64 ids t1 (0 + total (share inUse T N) ids) Hnd Hle H1 ltac:(lia) ltac:(lia))
    as (t2 & -> & H3 & H4 & H5). res_simpl.
  rewrite Z.eqb_refl. res_simpl. exists t2. split; [done|]. split; [lia|]. split; [done|]. intros id Hn. by rewrite H5, H2.
Qed.

(** [getTargetSlabsToAdvise] distributes exactly [numSlabsToAdvise_] slabs
    over the pools (the debug check at its end never fails): each pool gets its
    exact share of the slabs in use, rounded down, or one more if its share is
    not integral. *)
Theorem getTargetSlabsToAdvise_exact ids inUse mgr : let N := numSlabsToAdvise_ mgr in let T := total (at0 inUse) ids in
  NoDup ids → (∀ id, id ∈ ids → 0 ≤ at0 inUse id) → 0 < T → 0 ≤ N → T * N < 2 ^ 64 → T < 2 ^ 64 → N < 2 ^ 64 →
  ∃ targets, getTargetSlabsToAdvise ids T inUse mgr = Ok targets ∧ total (at0 targets) ids = N ∧
    ∀ id, id ∈ ids → at0 inUse id * N / T ≤ at0 targets id ≤ at0 inUse id * N / T + (if at0 inUse id * N mod T =? 0 then 0 else 1).
Proof.
  intros N T H1 H2 H3 H4 H5 H6 H7. destruct (targets_aux ids inUse mgr H1 H2 H3 H4 H5 H6 H7) as (t & E & Hs & Ht & _).
  exists t. split; [done|]. split; [done|]. intros id (v & Ev & Hv)%Ht.
  assert (at0 t id = v) as -> by (unfold at0; by rewrite Ev). exact Hv.
Qed.

(** ** The plan *)
Definition pool_get (f : MemoryPool → Z) mgr (id : Z) : Z :=
  match pools_ mgr !! Z.to_nat id with Some (Some pool) => f pool | _ => 0 end.
Definition used : MemoryPoolManager → Z → Z := pool_get (λ pool, getCurrentUsedSize pool / kSize).
Definition advised : MemoryPoolManager → Z → Z := pool_get curSlabsAdvised_.
Definition has_pools ids mgr : Prop := ∀ id, id ∈ ids → 0 ≤ id ∧ ∃ pool, pools_ mgr !! Z.to_nat id = Some (Some pool).

Lemma pool_at_ok id mgr pool : 0 ≤ id → pools_ mgr !! Z.to_nat id = Some (Some pool) → pool_at id mgr = Ok pool.
Proof. intros Hid E. unfold pool_at. rewrite (proj2 (Z.ltb_ge _ _)) by done. by rewrite E. Qed.
Lemma has_pools_cons id ids mgr : has_pools (id :: ids) mgr → has_pools ids mgr.
Proof. intros H x Hx. apply H. by right. Qed.

Lemma usage_loop_spec mgr : ∀ ids inUse u a, has_pools ids mgr → NoDup ids → 0 ≤ u → 0 ≤ a →
  (∀ id, id ∈ ids → 0 ≤ used mgr id ∧ 0 ≤ advised mgr id) → u + total (used mgr) ids < 2 ^ 64 → a + total (advised mgr) ids < 2 ^ 64 →
  ∃ inUse', usage_loop ids inUse u a mgr = Ok (inUse', u + total (used mgr) ids, a + total (advised mgr) ids) ∧
    (∀ id, id ∈ ids → inUse' !! id = Some (used mgr id)) ∧ (∀ id, id ∉ ids → inUse' !! id = inUse !! id).
Proof.
  induction ids as [|x ids IH]; intros inUse u a Hp Hnd Hu Ha Hpos Hbu Hba.
  { exists inUse. cbn. split; [do 2 f_equal; [f_equal|]; lia|]. split; [by intros id ?%elem_of_nil|done]. }
  apply NoDup_cons in Hnd as [Hx Hnd]. destruct (Hp x ltac:(by left)) as (Hx0 & pool & Ep). cbn [usage_loop total] in *.
  rewrite (pool_at_ok _ _ _ Hx0 Ep). res_simpl.
  assert (getCurrentUsedSize pool / kSize = used mgr x) as Eu by (unfold used, pool_get; by rewrite Ep).
  assert (curSlabsAdvised_ pool = advised mgr x) as Ea by (unfold advised, pool_get; by rewrite Ep). rewrite Eu, Ea.
  assert (0 ≤ total (used mgr) ids ∧ 0 ≤ total (advised mgr) ids) as [Q1 Q2].
  { split; apply total_nonneg; intros id Hid; apply Hpos; by right. }
  destruct (Hpos x ltac:(by left)) as [Q3 Q4]. rewrite !(wrap_small 64) by (unfold fits; lia).
  destruct (IH (<[x := used mgr x]> inUse) (u + used mgr x) (a + advised mgr x)) as (inUse' & -> & H1 & H2);
    [by eapply has_pools_cons|done|lia|lia|intros; apply Hpos; by right|lia|lia|].
  exists inUse'. split; [do 2 f_equal; [f_equal|]; lia|]. split.
  - intros id [->|Hid]%elem_of_cons; [|by apply H1]. by rewrite H2, lookup_insert_eq.
  - intros id Hn. rewrite H2 by set_solver. rewrite lookup_insert_ne; [done|set_solver].
Qed.

(** Going through the pools in order uses up the difference. *)
Lemma spread_loop_spec (f : Z → Z → Z) (targets : gmap Z Z) mgr : ∀ ids diff res, has_pools ids mgr → NoDup ids → 0 ≤ diff →
  diff ≤ total (λ id, Z.max 0 (f (at0 targets id) (advised mgr id))) ids → (∀ id, id ∈ ids → res !! id = None) →
  ∃ res', spread_loop f ids targets diff res mgr = Ok res' ∧ total (at0 res') ids = diff ∧
    (∀ id, id ∈ ids → 0 ≤ at0 res' id ≤ Z.max 0 (f (at0 targets id) (advised mgr id))) ∧
    (∀ id, id ∉ ids → res' !! id = res !! id).
Proof.
  induction ids as [|x ids IH]; intros diff res Hp Hnd Hd Hc Hn.
  { exists res. cbn in *. split; [done|]. split; [lia|]. split; [by intros id ?%elem_of_nil|done]. }
  pose proof Hnd as [Hx Hnd']%NoDup_cons. destruct (Hp x ltac:(by left)) as (Hx0 & pool & Ep). cbn [spread_loop].
  destruct (Z.eqb_spec diff 0) as [->|Hne].
  { exists res. split; [done|]. assert (∀ id, id ∈ x :: ids → at0 res id = 0) as E by (intros id Hid; unfold at0; by rewrite Hn).
    split; [rewrite (total_ext _ (λ _, 0)) by done; clear; induction ids; cbn in *; lia|]. split; [|done]. intros id Hid. rewrite E by done. lia. }
  rewrite (pool_at_ok _ _ _ Hx0 Ep). res_simpl.
  assert (curSlabsAdvised_ pool = advised mgr x) as -> by (unfold advised, pool_get; by rewrite Ep).
  assert (0 ≤ total (λ id, Z.max 0 (f (at0 targets id) (advised mgr id))) ids) by (apply total_nonneg; lia).
  cbn [total] in *. set (n := f (at0 targets x) (advised mgr x)) in *. destruct (Z.leb_spec n 0) as [Hn0|Hn0].
  - destruct (IH diff res) as (res' & -> & H1 & H2 & H3); [by eapply has_pools_cons|done|done|lia|intros; apply Hn; by right|].
    assert (at0 res' x = 0) as Ex by (unfold at0; rewrite H3 by done; by rewrite Hn by (by left)).
    exists res'. split; [done|]. split; [rewrite Ex; lia|]. split.
    + intros id [->|Hid]%elem_of_cons; [rewrite Ex; fold n; lia|by apply H2].
    + intros id Hid. apply H3. set_solver.
  - destruct (IH (diff - Z.min n diff) (<[x := Z.min n diff]> res)) as (res' & -> & H1 & H2 & H3);
      [by eapply has_pools_cons|done|lia|lia| |].
    { intros id Hid. rewrite lookup_insert_ne by (intros ->; done). apply Hn. by right. }
    assert (at0 res' x = Z.min n diff) as Ex by (unfold at0; by rewrite H3, lookup_insert_eq).
    exists res'. split; [done|]. split; [rewrite Ex; lia|]. split.
    + intros id [->|Hid]%elem_of_cons; [rewrite Ex; fold n; lia|by apply H2].
    + intros id Hid. rewrite H3 by set_solver. rewrite lookup_insert_ne; [done|set_solver].
Qed.

Lemma advised_with_pool id n pool mgr id' : 0 ≤ id → 0 ≤ id' → pools_ mgr !! Z.to_nat id = Some (Some pool) →
  advised (with_pool id (setNumSlabsAdvised n pool) mgr) id' = if decide (id = id') then n else advised mgr id'.
Proof.
  intros H0 H0' E. unfold advised, pool_get. cbn. case_decide as Hd.
  - subst. by rewrite list_lookup_insert_eq by (by eapply lookup_lt_Some).
  - rewrite list_lookup_insert_ne by lia. done.
Qed.
Lemma has_pools_with id ids pool mgr : has_pools ids mgr → has_pools ids (with_pool id pool mgr).
Proof.
  intros H x Hx. destruct (H x Hx) as (Hx0 & p & E). split; [done|]. cbn. destruct (decide (Z.to_nat id = Z.to_nat x)) as [Ei|Hne].
  - rewrite Ei, list_lookup_insert_eq; [by eexists|by eapply lookup_lt_Some].
  - rewrite list_lookup_insert_ne by done. by eexists.
Qed.
Lemma setAdvised_loop_spec : ∀ ts mgr, has_pools ts.*1 mgr → NoDup ts.*1 →
  ∃ mgr', setAdvised_loop ts mgr = Ok mgr' ∧ (∀ id n, (id, n) ∈ ts → advised mgr' id = n) ∧
    (∀ id, 0 ≤ id → id ∉ ts.*1 → advised mgr' id = advised mgr id) ∧
    poolsByName_ mgr' = poolsByName_ mgr ∧ nextPoolId_ mgr' = nextPoolId_ mgr ∧ numSlabsToAdvise_ mgr' = numSlabsToAdvise_ mgr.
Proof.
  induction ts as [|[x n] ts IH]; intros mgr Hp Hnd.
  { exists mgr. split; [done|]. split; [by intros id n ?%elem_of_nil|done]. }
  cbn [fmap list_fmap fst] in *. apply NoDup_cons in Hnd as [Hx Hnd]. destruct (Hp x ltac:(by left)) as (Hx0 & pool & Ep).
  cbn [setAdvised_loop]. rewrite (pool_at_ok _ _ _ Hx0 Ep). res_simpl.
  destruct (IH (with_pool x (setNumSlabsAdvised n pool) mgr)) as (mgr' & -> & H1 & H2 & H3);
    [apply has_pools_with; by eapply has_pools_cons|done|].
  exists mgr'. split; [done|]. split; [|split; [|done]].
  - intros id v [[= -> ->]|Hin]%elem_of_cons; [|by apply H1]. rewrite H2 by done. rewrite (advised_with_pool _ _ pool) by done.
    by rewrite decide_True.
  - intros id Hid Hn. rewrite H2 by (done || set_solver). rewrite (advised_with_pool _ _ pool) by done. rewrite decide_False; [done|set_solver].
Qed.

(** Targets that add up leave room for the difference. *)
Lemma gaps_cover f g ids : total f ids - total g ids ≤ total (λ id, Z.max 0 (f id - g id)) ids.
Proof. induction ids as [|x ids IH]; cbn; lia. Qed.

Lemma plan_aux ids mgr : has_pools ids mgr → NoDup ids →
  (∀ id, id ∈ ids → 0 ≤ used mgr id ∧ 0 ≤ advised mgr id) →
  let N := numSlabsToAdvise_ mgr in let U := total (used mgr) ids in let A := total (advised mgr) ids in
  0 ≤ N → U * N < 2 ^ 64 → U < 2 ^ 64 → N < 2 ^ 64 → A < 2 ^ 64 →
  ∃ data mgr', calcNumSlabsToAdviseReclaim ids mgr = Ok (data, mgr') ∧
    if decide (U = 0 ∨ N = 0 ∧ A = 0) then data = mkPARD ∅ false ∧ mgr' = mgr
    else if decide (N = A) then poolAdviseReclaimMap data = ∅ ∧ total (advised mgr') ids = N
    else mgr' = mgr ∧ advise data = bool_decide (A < N) ∧ total (at0 (poolAdviseReclaimMap data)) ids = Z.abs (N - A) ∧
      ∀ id, id ∈ ids → 0 ≤ at0 (poolAdviseReclaimMap data) id.
Proof.
  intros Hp Hnd Hpos N U A HN Hov HU HN64 HA. unfold calcNumSlabsToAdviseReclaim.
  destruct (usage_loop_spec mgr ids ∅ 0 0 Hp Hnd ltac:(lia) ltac:(lia) Hpos HU HA) as (inUse & -> & Hin & _).
  rewrite !Z.add_0_l. res_simpl. fold N U A.
  assert (0 ≤ U ∧ 0 ≤ A) as [HU0 HA0] by (split; apply total_nonneg; intros id Hid; by apply Hpos).
  replace ((U =? 0) || (N =? 0) && (A =? 0)) with (bool_decide (U = 0 ∨ N = 0 ∧ A = 0)) by
    (destruct (Z.eqb_spec U 0), (Z.eqb_spec N 0), (Z.eqb_spec A 0); cbn; first [apply bool_decide_true|apply bool_decide_false]; tauto).
  case_bool_decide as Hd; [eexists _, _; split; [done|]; by rewrite decide_True|].
  assert (∀ id, id ∈ ids → at0 inUse id = used mgr id) as Hu by (intros id Hid; unfold at0; by rewrite Hin).
  destruct (targets_aux ids inUse mgr) as (targets & Et & Hsum & Ht & Hout);
    try (fold N; rewrite ?(total_ext _ (used mgr)) by done; fold U; done || lia).
  { intros id Hid. rewrite Hu by done. by apply Hpos. }
  rewrite (total_ext _ (used mgr)) in Et by done. fold U in Et. rewrite Et. res_simpl. clear Et. fold N in Hsum.
  destruct (Z.eqb_spec N A) as [E|Hne].
  - destruct (setAdvised_loop_spec (map_to_list targets) mgr) as (mgr' & -> & Hset & _).
    { intros id ([? t] & -> & Hin')%list_elem_of_fmap. apply elem_of_map_to_list in Hin'. apply Hp. cbn.
      destruct (decide (z ∈ ids)) as [|Hn]; [done|]. by rewrite Hout in Hin'. }
    { apply NoDup_fst_map_to_list. }
    res_simpl. eexists _, _. split; [done|]. rewrite decide_False, decide_True by done. split; [done|]. rewrite <- Hsum. apply total_ext.
    intros id (t & Et & _)%Ht. unfold at0. rewrite Et. apply Hset. by apply elem_of_map_to_list.
  - pose proof (gaps_cover (at0 targets) (advised mgr) ids) as G1. pose proof (gaps_cover (advised mgr) (at0 targets) ids) as G2.
    fold A in G1, G2. destruct (Z.ltb_spec A N) as [Hlt|Hge].
    + destruct (spread_loop_spec (λ target curr, target - curr) targets mgr ids (N - A) ∅ Hp Hnd ltac:(lia) ltac:(cbv beta; lia) ltac:(done))
        as (res & -> & Hs & Hb & _). res_simpl.
      eexists _, _. split; [done|]. rewrite !decide_False by done. cbn. split; [done|]. rewrite bool_decide_true by done.
      split; [done|]. split; [lia|]. intros id Hid. by apply Hb.
    + destruct (spread_loop_spec (λ target curr, curr - target) targets mgr ids (A - N) ∅ Hp Hnd ltac:(lia) ltac:(cbv beta; lia) ltac:(done))
        as (res & -> & Hs & Hb & _). res_simpl.
      eexists _, _. split; [done|]. rewrite !decide_False by done. cbn. split; [done|]. rewrite bool_decide_false by lia.
      split; [done|]. split; [lia|]. intros id Hid. by apply Hb.
Qed.

(** C29: [calcNumSlabsToAdviseReclaim] returns a plan.  When some slab is in use,
    carrying it out gives exactly [numSlabsToAdvise_] advised slabs in the given
    pools: either it rebalances the counts itself, or the slabs it asks pools to
    advise (or to reclaim) add up to the difference.  It asks for nothing when no
    slab is in use, or none is advised nor to be advised.  The product of the slabs
    in use and the slabs to advise is one of 64 bits. *)
Theorem calcNumSlabsToAdviseReclaim_exact ids mgr : has_pools ids mgr → NoDup ids →
  (∀ id, id ∈ ids → 0 ≤ used mgr id ∧ 0 ≤ advised mgr id) →
  let N := numSlabsToAdvise_ mgr in let U := total (used mgr) ids in let A := total (advised mgr) ids in
  0 ≤ N → U * N < 2 ^ 64 → U < 2 ^ 64 → N < 2 ^ 64 → A < 2 ^ 64 →
  ∃ data mgr', calcNumSlabsToAdviseReclaim ids mgr = Ok (data, mgr') ∧
    let sign := if advise data then 1 else -1 in
    (U = 0 ∨ N = 0 ∧ A = 0 → data = mkPARD ∅ false ∧ mgr' = mgr) ∧
    (U ≠ 0 → total (λ id, advised mgr' id + sign * at0 (poolAdviseReclaimMap data) id) ids = N) ∧
    (∀ id, id ∈ ids → 0 ≤ at0 (poolAdviseReclaimMap data) id).
Proof.
  intros Hp Hnd Hpos N U A HN Hov HU HN64 HA.
  destruct (plan_aux ids mgr Hp Hnd Hpos HN Hov HU HN64 HA) as (data & mgr' & E & H). exists data, mgr'. split; [done|].
  fold N U A in H. cbv zeta. rewrite total_plus.
  assert (∀ sign, total (λ id, sign * at0 (poolAdviseReclaimMap data) id) ids = total (at0 (poolAdviseReclaimMap data)) ids * sign) as Es.
  { intros sign. rewrite <- total_scale. apply total_ext. intros. lia. }
  assert (∀ id, at0 (∅ : gmap Z Z) id = 0) as E0 by done.
  assert (total (at0 ∅) ids = 0) as Et by (rewrite (total_ext _ (λ _, 0)) by done; clear; induction ids; cbn; lia).
  rewrite Es. case_decide as Hd; [|case_decide as Hna].
  - destruct H as [-> ->]. split; [done|]. cbn. rewrite Et. fold A. split; [|intros; by rewrite E0]. destruct Hd as [|[? ?]]; lia.
  - destruct H as [-> Hs]. rewrite Et. split; [by intros ?|]. split; [intros _; destruct (advise data); lia|]. intros. by rewrite E0.
  - destruct H as (-> & -> & Hs & Hb). split; [by intros ?|]. rewrite Hs. fold A. split; [|done]. intros _. case_bool_decide; lia.
Qed.

(** ** Three pools

    They use 5, 3 and 3 slabs and have 2, 0 and 1 advised away. *)
Definition mex_pool (id n adv : Z) : MemoryPool := mkPool id (8 * kSize) (n * kSize) 0 [] [1024] [] adv 0 0 0.
Definition mex_mgr (toAdvise : Z) : MemoryPoolManager :=
  mkMPM [Some (mex_pool 0 5 2); Some (mex_pool 1 3 0); Some (mex_pool 2 3 1)] ∅ 3 toAdvise.
Lemma mex_has toAdvise : has_pools [0; 1; 2] (mex_mgr toAdvise).
Proof. intros id [->|[->|[->|?%elem_of_nil]%elem_of_cons]%elem_of_cons]%elem_of_cons; [..|done]; (split; [done|by eexists]). Qed.
Lemma mex_nodup : NoDup [0; 1; 2].
Proof. apply (bool_decide_unpack _). by vm_compute. Qed.
Lemma mex_counts toAdvise id : id ∈ [0; 1; 2] → 0 ≤ used (mex_mgr toAdvise) id ∧ 0 ≤ advised (mex_mgr toAdvise) id.
Proof. intros [->|[->|[->|?%elem_of_nil]%elem_of_cons]%elem_of_cons]%elem_of_cons; [..|done]; by split. Qed.

Lemma getTargetSlabsToAdvise_exact_witness : ∃ targets,
  getTargetSlabsToAdvise [0; 1; 2] 11 {[0 := 5; 1 := 3; 2 := 3]} (mex_mgr 7) = Ok targets ∧ total (at0 targets) [0; 1; 2] = 7.
Proof.
  destruct (getTargetSlabsToAdvise_exact [0; 1; 2] {[0 := 5; 1 := 3; 2 := 3]} (mex_mgr 7)) as (targets & E & Hs & _); try done.
  - apply mex_nodup.
  - by intros id [->|[->|[->|?%elem_of_nil]%elem_of_cons]%elem_of_cons]%elem_of_cons.
  - by exists targets.
Defined.
Lemma calcNumSlabsToAdviseReclaim_exact_witness : ∃ data,
  calcNumSlabsToAdviseReclaim [0; 1; 2] (mex_mgr 7) = Ok (data, mex_mgr 7) ∧ advise data = true ∧
  total (λ id, advised (mex_mgr 7) id + 1 * at0 (poolAdviseReclaimMap data) id) [0; 1; 2] = 7.
Proof.
  destruct (calcNumSlabsToAdviseReclaim_exact [0; 1; 2] (mex_mgr 7)) as (data & mgr' & E & _ & Hs & _);
    [apply mex_has|apply mex_nodup|apply mex_counts|by vm_compute..|].
  exists data. assert (data = mkPARD {[0 := 2; 1 := 2]} true ∧ mgr' = mex_mgr 7) as [-> ->] by (vm_compute in E; by injection E as <- <-).
  split; [exact E|]. split; [done|]. apply Hs. by vm_compute.
Defined.
