(* ===== verification/MemoryAllocator.v ===== *)
(** [MemoryAllocator] ([allocator/memory/MemoryAllocator.h] and [.cpp]): the
    interface of the memory layer, over the slab allocator (inside the shared
    [Mem]) and the pool manager.

    [startSlabRelease] is split as in [MemoryPool]; the outcome of try-locks
    during iteration is an argument, and iteration returns the allocations it
    hands to the callback, whose answers say whether to go on. *)
From Stdlib Require Import Floats.SpecFloat.
From stdpp Require Import strings.
From S2P Require Import Prelude SlabAllocator PtrCompressor DList Doubles MMCommon SList AllocationClass MemoryPool PoolManager.
Import Manager.

Module Allocator.
Definition kMaxClasses : Z := Z.shiftl 1 7.
Definition kAlignment : Z := 8.

Record Config := mkConfig {
  allocSizes : list Z;               (** the elements of the set, in order *)
  enableZeroedSlabAllocs : bool;
  disableFullCoredump : bool;
  lockMemory : bool;
}.
Record MemoryAllocator := mkMA { config_ : Config; memoryPoolManager_ : MemoryPoolManager }.
Implicit Types (a : MemoryAllocator) (m : Mem).
Definition with_mgr (mgr : MemoryPoolManager) a : MemoryAllocator := mkMA (config_ a) mgr.

Definition checkConfig (config : Config) : result unit :=
  throw_if (kMaxClasses <? Z.of_nat (length (allocSizes config))) InvalidArgument.
(** The constructors, over given or own memory whose first words hold [hdrs]. *)
Definition MemoryAllocator_new (config : Config) (memStart memSize : Z) (owns : bool) (hdrs : Z → SlabHeader) (hooks : gmap Z Z)
    : result (MemoryAllocator * Mem) :=
  sa ← SlabAllocator_new memStart memSize owns hdrs;
  _ ← checkConfig config;
  Ok (mkMA config MemoryPoolManager_new, mkMem sa hooks).

(** ** Pools *)
Definition addPool (name : string) (size : Z) (sizes : list Z) (ensureProvisionable : bool) a m : result (Z * MemoryAllocator) :=
  let poolAllocSizes := if bool_decide (sizes = []) then allocSizes (config_ a) else sizes in
  _ ← throw_if (kMaxClasses <? Z.of_nat (length poolAllocSizes)) InvalidArgument;
  _ ← throw_if (ensureProvisionable && (size <? u64 (kSize * Z.of_nat (length poolAllocSizes)))) InvalidArgument;
  '(id, mgr) ← createNewPool name size poolAllocSizes (memoryPoolManager_ a) (m_sa m);
  Ok (id, with_mgr mgr a).
(** [noexcept]: only [invalid_argument] is caught. *)
Definition getPoolId (name : string) a : result Z :=
  match getPoolByName name (memoryPoolManager_ a) with
  | Ok (_, pool) => Ok (id_ pool)
  | Throw InvalidArgument => Ok kInvalidPoolId
  | _ => Undef
  end.
Definition getPoolName (id : Z) a : result string := getPoolNameById id (memoryPoolManager_ a).
Definition getPool (id : Z) a : result MemoryPool := getPoolById id (memoryPoolManager_ a).
Definition ma_shrinkPool (pid bytes : Z) a : result (bool * MemoryAllocator) :=
  '(b, mgr) ← shrinkPool pid bytes (memoryPoolManager_ a); Ok (b, with_mgr mgr a).
Definition ma_growPool (pid bytes : Z) a m : result (bool * MemoryAllocator) :=
  '(b, mgr) ← growPool pid bytes (memoryPoolManager_ a) (m_sa m); Ok (b, with_mgr mgr a).
Definition ma_resizePools (src dest bytes : Z) a : result (bool * MemoryAllocator) :=
  '(b, mgr) ← resizePools src dest bytes (memoryPoolManager_ a); Ok (b, with_mgr mgr a).
Definition ma_updateNumSlabsToAdvise (numSlabs : Z) a : result MemoryAllocator :=
  mgr ← updateNumSlabsToAdvise numSlabs (memoryPoolManager_ a); Ok (with_mgr mgr a).
Definition ma_calcNumSlabsToAdviseReclaim (ids : list Z) a : result (PoolAdviseReclaimData * MemoryAllocator) :=
  '(data, mgr) ← calcNumSlabsToAdviseReclaim ids (memoryPoolManager_ a); Ok (data, with_mgr mgr a).

(** ** Sizes *)
Definition getMemorySize m : Z := u64 (getNumUsableSlabs (m_sa m) * kSize).
Definition getMemorySizeInclAdvised m : Z := u64 (getNumUsableAndAdvisedSlabs (m_sa m) * kSize).
Definition getUnreservedMemorySize a m : result Z := getBytesUnReserved (memoryPoolManager_ a) (m_sa m).
Definition getMemorySizeFor (memorySize : Z) : Z := u64 (getNumUsableSlabsFor memorySize * kSize).
Definition ma_allSlabsAllocated (pid : Z) a : result bool := pool ← getPool pid a; Ok (mp_allSlabsAllocated pool).
Definition getAllocSize (pid cid : Z) a : result Z :=
  pool ← getPool pid a; ac ← getAllocationClass cid pool; Ok (allocationSize_ ac).
Definition getAllocInfo (memory : Z) m : result AllocInfo :=
  match getSlabHeader (m_sa m) memory with
  | None => Throw InvalidArgument
  | Some header => let hd := headers (m_sa m) header in Ok (mkAllocInfo (poolId hd) (classId hd) (allocSize hd))
  end.

(** ** Allocating and freeing *)
Definition ma_allocate (id size : Z) a m : result (option Z * MemoryAllocator * Mem) :=
  mp ← getPoolById id (memoryPoolManager_ a);
  '(ret, mp, m) ← mp_allocate size mp m;
  Ok (ret, with_mgr (with_pool id mp (memoryPoolManager_ a)) a, m).
Definition ma_allocateZeroedSlab (id : Z) a m : result (option Z * MemoryAllocator * Mem) :=
  _ ← throw_if (negb (enableZeroedSlabAllocs (config_ a))) LogicError;
  mp ← getPoolById id (memoryPoolManager_ a);
  '(ret, mp, m) ← allocateZeroedSlab mp m;
  Ok (ret, with_mgr (with_pool id mp (memoryPoolManager_ a)) a, m).
(** The pool and its place in the manager. *)
Definition getMemoryPool (memory : Z) a m : result (Z * MemoryPool) :=
  match getSlabHeader (m_sa m) memory with
  | None => Throw InvalidArgument
  | Some header =>
      let poolId := poolId (headers (m_sa m) header) in
      mp ← getPoolById poolId (memoryPoolManager_ a);
      Ok (poolId, mp)
  end.
Definition ma_free (memory : Z) a m : result (MemoryAllocator * Mem) :=
  '(id, mp) ← getMemoryPool memory a m;
  '(mp, m) ← mp_free memory mp m;
  Ok (with_mgr (with_pool id mp (memoryPoolManager_ a)) a, m).
Definition ma_getAllocationClassId (poolId size : Z) a : result Z :=
  pool ← getPoolById poolId (memoryPoolManager_ a); getAllocationClassId size pool.

(** ** Releasing slabs *)
Definition ma_startRelease_begin (pid victim receiver : Z) (mode : SlabReleaseMode) (hint : option Z) (rnd : Z) a m
    : result (Outcome * MemoryAllocator * Mem) :=
  pool ← getPoolById pid (memoryPoolManager_ a);
  '(o, pool, m) ← mp_startRelease_begin victim receiver mode hint rnd pool m;
  Ok (o, with_mgr (with_pool pid pool (memoryPoolManager_ a)) a, m).
Definition ma_startSlabRelease (pid victim receiver : Z) (mode : SlabReleaseMode) (hint : option Z) (rnd : Z)
    (madviseOk : bool) (aborts : list bool) a m : result (Outcome * MemoryAllocator * Mem) :=
  pool ← getPoolById pid (memoryPoolManager_ a);
  '(o, pool, m) ← mp_startSlabRelease victim receiver mode hint rnd (enableZeroedSlabAllocs (config_ a)) madviseOk aborts pool m;
  Ok (o, with_mgr (with_pool pid pool (memoryPoolManager_ a)) a, m).
Definition ma_completeSlabRelease (context : SlabReleaseContext) (madviseOk : bool) a m : result (bool * MemoryAllocator * Mem) :=
  pool ← getPoolById (pid_ context) (memoryPoolManager_ a);
  '(b, pool, m) ← mp_completeSlabRelease context madviseOk pool m;
  Ok (b, with_mgr (with_pool (pid_ context) pool (memoryPoolManager_ a)) a, m).
Definition ma_abortSlabRelease (context : SlabReleaseContext) a m : result (MemoryAllocator * Mem) :=
  pool ← getPoolById (pid_ context) (memoryPoolManager_ a);
  '(pool, m) ← mp_abortSlabRelease context pool m;
  Ok (with_mgr (with_pool (pid_ context) pool (memoryPoolManager_ a)) a, m).
Definition ma_reclaimSlabsAndGrow (id numSlabs : Z) a m : result (Z * MemoryAllocator * Mem) :=
  pool ← getPoolById id (memoryPoolManager_ a);
  '(n, pool, m) ← reclaimSlabsAndGrow numSlabs pool m;
  Ok (n, with_mgr (with_pool id pool (memoryPoolManager_ a)) a, m).
Definition ma_isAllocFreed (ctx : SlabReleaseContext) (memory : Z) a m : result bool :=
  pool ← getPoolById (pid_ ctx) (memoryPoolManager_ a);
  ac ← getAllocationClass (victim_ ctx) pool;
  isAllocFreed ctx memory ac m.
Definition ma_allAllocsFreed (ctx : SlabReleaseContext) a : result bool :=
  pool ← getPoolById (pid_ ctx) (memoryPoolManager_ a);
  ac ← getAllocationClass (victim_ ctx) pool;
  allFreed (slab_ ctx) ac.
Definition ma_processAllocForRelease (ctx : SlabReleaseContext) (memory : Z) a m : result (option Z) :=
  pool ← getPoolById (pid_ ctx) (memoryPoolManager_ a);
  ac ← getAllocationClass (victim_ ctx) pool;
  processAllocForRelease ctx memory ac m.

(** ** Iteration *)
Fixpoint slabs_loop (idxs : list Z) (tryLock : Z → bool) (callback : AllocInfo → Z → bool) (slabSkipped : Z) (visited : list Z) a m
    : result (Z * list Z) :=
  match idxs with
  | [] => Ok (slabSkipped, visited)
  | idx :: idxs =>
      let slab := getSlabForIdx (slabMemoryStart (m_sa m)) idx in
      match getSlabHeaderOfSlab (m_sa m) slab with
      | None => slabs_loop idxs tryLock callback slabSkipped visited a m
      | Some header =>
          let hd := headers (m_sa m) header in
          if (poolId hd =? kInvalidPoolId) || (classId hd =? kInvalidClassId) || isAdvised hd || isMarkedForRelease hd
          then slabs_loop idxs tryLock callback (u64 (slabSkipped + 1)) visited a m
          else
            pool ← getPoolById (poolId hd) (memoryPoolManager_ a);
            '(status, ptrs) ← mp_forEachAllocation (tryLock slab) (classId hd) slab callback pool m;
            match status with
            | kSkippedCurrentSlabAndContinue => slabs_loop idxs tryLock callback (u64 (slabSkipped + 1)) (visited ++ ptrs) a m
            | kAbortIteration => Ok (slabSkipped, visited ++ ptrs)
            | kFinishedCurrentSlabAndContinue => slabs_loop idxs tryLock callback slabSkipped (visited ++ ptrs) a m
            end
      end
  end.
Definition ma_forEachAllocation (tryLock : Z → bool) (callback : AllocInfo → Z → bool) a m : result (Z * list Z) :=
  slabs_loop (seqZ 0 (getNumUsableSlabs (m_sa m))) tryLock callback 0 [] a m.

(** ** Saved state *)
Record MemoryAllocatorObject := mkMAObject {
  o_allocSizes : list Z; o_enableZeroedSlabAllocs : bool; o_lockMemory : bool;
  o_slabAllocator : SlabAllocatorObject; o_memoryPoolManager : MemoryPoolManagerObject;
}.
Definition ma_saveState a m : result MemoryAllocatorObject :=
  sao ← SlabAllocator.saveState (m_sa m);
  mgro ← mpm_saveState (memoryPoolManager_ a) m;
  Ok (mkMAObject (allocSizes (config_ a)) (enableZeroedSlabAllocs (config_ a)) (lockMemory (config_ a)) sao mgro).
Definition MemoryAllocator_restore (o : MemoryAllocatorObject) (memStart memSize : Z) (disableCoredump : bool)
    (hdrs : Z → SlabHeader) (hooks : gmap Z Z) : result (MemoryAllocator * Mem) :=
  let config := mkConfig (u32 <$> o_allocSizes o) (o_enableZeroedSlabAllocs o) disableCoredump (o_lockMemory o) in
  sa ← SlabAllocator_restore (o_slabAllocator o) memStart memSize hdrs;
  mgr ← MemoryPoolManager_restore (o_memoryPoolManager o) (mkMem sa hooks);
  _ ← checkConfig config;
  Ok (mkMA config mgr, mkMem sa hooks).

(** ** Size classes *)
Definition getAlignedSize (size alignment : Z) : Z :=
  let rem := size mod alignment in if rem =? 0 then size else u32 (size + alignment - rem).
(** [static_cast<uint32_t>(size * factor)], aligned. *)
Definition scaled (size : Z) (factor : spec_float) : result Z :=
  t ← double_to_u32 (double_mul (double_of_u64 size) factor); Ok (getAlignedSize t kAlignment).
Fixpoint nextSize_loop (fuel : nat) (prevSize newSize : Z) (incFactor : spec_float) : result Z :=
  match fuel with
  | O => Undef
  | S fuel =>
      next ← scaled newSize incFactor;
      _ ← throw_if (next =? newSize) InvalidArgument;
      if kSize <? next then Ok next
      else
        _ ← div64 kSize next; _ ← div64 kSize prevSize;
        if kSize / next =? kSize / prevSize then nextSize_loop fuel prevSize next incFactor
        else
          let perSlab := kSize / next in
          _ ← xdcheck (0 <? perSlab);
          let maxChunkSize := kSize / perSlab in
          let size := maxChunkSize - maxChunkSize mod kAlignment in
          _ ← xdcheck (size mod kAlignment =? 0);
          _ ← xdcheck (kSize / size =? perSlab);
          Ok size
  end.
(** Sizes grow by at least the alignment. *)
Definition sizes_fuel : nat := Z.to_nat (kSize / kAlignment + 2).
Definition nextSize (prevSize : Z) (incFactor : spec_float) : result Z := nextSize_loop sizes_fuel prevSize prevSize incFactor.
Fixpoint sizes_loop (fuel : nat) (factor : spec_float) (maxSize : Z) (reduceFragmentation : bool) (size : Z) (sizes : gset Z)
    : result (gset Z) :=
  match fuel with
  | O => Undef
  | S fuel =>
      if size <? maxSize then
        nPerSlab ← div64 kSize size;
        if nPerSlab <=? 1 then Ok sizes
        else
          let sizes := {[size]} ∪ sizes in
          next ← (if reduceFragmentation then nextSize size factor
                  else next ← scaled size factor; _ ← throw_if (size =? next) InvalidArgument; Ok next);
          sizes_loop fuel factor maxSize reduceFragmentation next sizes
      else Ok sizes
  end.
Definition double_le (x y : spec_float) : bool := SFleb x y.
Definition generateAllocSizes (factor : spec_float) (maxSize minSize : Z) (reduceFragmentation : bool) : result (gset Z) :=
  _ ← throw_if (kSize <? maxSize) InvalidArgument;
  _ ← throw_if (double_le factor (double_of_u64 1)) InvalidArgument;
  sizes ← sizes_loop sizes_fuel factor maxSize reduceFragmentation minSize ∅;
  Ok ({[getAlignedSize maxSize kAlignment]} ∪ sizes).
End Allocator.
