(* ===== verification/AllocatorSpec.v ===== *)
(** The memory allocator as a whole: every pool keeps its invariant while all of
    them share the slab allocator, allocations of any pools are apart, pool
    sizes stay within the memory, and the interface passes operations on to the
    right pool. *)
From Stdlib Require Import Sorted.
From Stdlib Require Import Floats.SpecFloat.
From stdpp Require Import strings.
From S2P Require Import Prelude SlabAllocator PtrCompressor SList AllocationClass AllocationFrame AllocationRun.
From S2P Require Import MemoryPool PoolSlabs PoolInv PoolRun PoolSpec PoolManager ManagerSpec MemoryAllocator.
Import Manager Allocator.

Local Arguments wrap : simpl never.

(** ** Operations of a pool do not change its size *)
Create HintDb keeps discriminated.
Local Ltac keeps := intros H; inv_ok H; simplify_eq; cbn; repeat case_match; cbn; eauto with keeps.

Lemma getSlabLocked_max pool m r pool' m' : getSlabLocked pool m = Ok (r, pool', m') → maxSize_ pool' = maxSize_ pool.
Proof. unfold getSlabLocked. keeps. Qed.
#[local] Hint Resolve getSlabLocked_max : keeps.
Lemma allocate_fast_max size pool m r pool' m' : allocate_fast size pool m = Ok (r, pool', m') → maxSize_ pool' = maxSize_ pool.
Proof. unfold allocate_fast. keeps. Qed.
Lemma allocate_slow_max size pool m r pool' m' : allocate_slow size pool m = Ok (r, pool', m') → maxSize_ pool' = maxSize_ pool.
Proof. unfold allocate_slow. intros H. inv_ok H; simplify_eq; cbn; try done; by match goal with E : getSlabLocked _ _ = _ |- _ => apply getSlabLocked_max in E end. Qed.
Lemma mp_allocate_max size pool m r pool' m' : mp_allocate size pool m = Ok (r, pool', m') → maxSize_ pool' = maxSize_ pool.
Proof.
  unfold mp_allocate. intros H. inv_ok H; simplify_eq; try (by eapply allocate_fast_max).
  apply allocate_fast_max in E. apply allocate_slow_max in H. congruence.
Qed.
Lemma mp_free_max p pool m pool' m' : mp_free p pool m = Ok (pool', m') → maxSize_ pool' = maxSize_ pool.
Proof. unfold mp_free. keeps. Qed.
Lemma releaseSlab_max mode s z rc ok pool m pool' m' : releaseSlab mode s z rc ok pool m = Ok (pool', m') → maxSize_ pool' = maxSize_ pool.
Proof. unfold releaseSlab. keeps. Qed.
Lemma reclaim_max k : ∀ num pool m r pool' m', reclaim_loop k num pool m = Ok (r, pool', m') → maxSize_ pool' = maxSize_ pool.
Proof.
  induction k as [|k IH]; cbn [reclaim_loop]; intros num pool m r pool' m' H; inv_ok H; simplify_eq; try done.
  apply IH in H. exact H.
Qed.
#[local] Hint Resolve mp_allocate_max allocate_slow_max mp_free_max releaseSlab_max : keeps.
Lemma release_begin_max v rc mode hint rnd pool m o pool' m' : mp_startRelease_begin v rc mode hint rnd pool m = Ok (o, pool', m') →
  maxSize_ pool' = maxSize_ pool.
Proof.
  unfold mp_startRelease_begin, releaseFromFreeSlabs. intros H. inv_ok H; simplify_eq; try done;
    match goal with E : _ = Ok (_, _) |- _ => inv_ok E; simplify_eq; done end.
Qed.
Lemma release_end_max rc z ok o pool m o' pool' m' : mp_startRelease_end rc z ok o pool m = Ok (o', pool', m') → maxSize_ pool' = maxSize_ pool.
Proof. unfold mp_startRelease_end. keeps. Qed.
Lemma release_step_max v ab r pool m o pool' m' : mp_startRelease_step v ab r pool m = Ok (o, pool', m') → maxSize_ pool' = maxSize_ pool.
Proof. unfold mp_startRelease_step. keeps. Qed.
Lemma outcome_max i rc z ok o pool m cls d ret st : pool_outcome i rc z ok o pool m cls d = Ok (ret, st) → maxSize_ (p_pool st) = maxSize_ pool.
Proof. unfold pool_outcome. intros H. inv_ok H; simplify_eq; cbn; try done; by eapply release_end_max. Qed.

Definition resizes (o : pop) : bool := match o with PResize _ => true | _ => false end.
Lemma pool_step_max o st ret st' : resizes o = false → pool_step o st = Ok (ret, st') → maxSize_ (p_pool st') = maxSize_ (p_pool st).
Proof.
  destruct o; intros Hr; try done; cbn [pool_step].
  all: intros H; inv_ok H; simplify_eq; cbn; eauto with keeps.
  all: repeat match goal with
    | E : mp_startRelease_begin _ _ _ _ _ _ _ = Ok _ |- _ => apply release_begin_max in E
    | E : mp_startRelease_step _ _ _ _ _ = Ok _ |- _ => apply release_step_max in E
    | E : mp_startRelease_end _ _ _ _ _ _ = Ok _ |- _ => apply release_end_max in E
    | E : pool_outcome _ _ _ _ _ _ _ _ _ = Ok _ |- _ => apply outcome_max in E
    | E : mp_abortSlabRelease _ _ _ = Ok _ |- _ => unfold mp_abortSlabRelease in E; inv_ok E; simplify_eq
    | E : mp_completeSlabRelease _ _ _ _ = Ok _ |- _ => unfold mp_completeSlabRelease in E; inv_ok E; simplify_eq
    | E : releaseSlab _ _ _ _ _ _ _ = Ok _ |- _ => apply releaseSlab_max in E
    | E : reclaimSlabsAndGrow _ _ _ = Ok _ |- _ => apply reclaim_max in E
    end; try done; congruence.
Qed.

(** ** The system

    Next to the allocator and the memory: what the callers of each pool know
    ([PSys]). *)
Record MSys := mkMSys { ms_a : MemoryAllocator; ms_m : Mem; ms_cls : list (list Cls); ms_drift : list Z }.
Definition mgr_of (st : MSys) : MemoryPoolManager := memoryPoolManager_ (ms_a st).
Definition set_mgr (mgr : MemoryPoolManager) (st : MSys) : MSys := mkMSys (with_mgr mgr (ms_a st)) (ms_m st) (ms_cls st) (ms_drift st).

Inductive mop :=
  | MAllocate (id size : Z)
  | MFree (id : nat) (i : nat) (p : Z)         (** the pool and class of the allocation *)
  | MPool (id : Z) (o : pop)                   (** any other operation, passed on to its pool *)
  | MAddPool (name : string) (size : Z) (sizes : list Z) (ensureProvisionable : bool)
  | MShrink (id bytes : Z)
  | MGrow (id bytes : Z)
  | MResize (src dest bytes : Z)
  | MUpdateAdvise (numSlabs : Z).

(** [MemoryAllocator] finds the pool and calls it. *)
Definition lift (id : Z) (o : pop) (st : MSys) : result (option Z * MSys) :=
  pool ← getPoolById id (mgr_of st);
  cls ← deref (ms_cls st !! Z.to_nat id);
  drift ← deref (ms_drift st !! Z.to_nat id);
  '(ret, ps) ← pool_step o (mkPSys pool (ms_m st) cls drift);
  Ok (ret, mkMSys (with_mgr (with_pool id (p_pool ps) (mgr_of st)) (ms_a st)) (p_mem ps)
             (<[Z.to_nat id := p_cls ps]> (ms_cls st)) (<[Z.to_nat id := p_drift ps]> (ms_drift st))).
Definition mstep (o : mop) (st : MSys) : result (option Z * MSys) :=
  let a := ms_a st in let m := ms_m st in
  match o with
  | MAllocate id size =>
      cid ← ma_getAllocationClassId id size a;
      '(ret, a, m) ← ma_allocate id size a m;
      Ok (ret, mkMSys a m (alter (alter (add_live ret) (Z.to_nat cid)) (Z.to_nat id) (ms_cls st)) (ms_drift st))
  | MFree id i p =>
      '(a, m) ← ma_free p a m;
      Ok (None, mkMSys a m (alter (alter (drop_live p) i) id (ms_cls st)) (ms_drift st))
  | MPool id o => lift id o st
  | MAddPool name size sizes ensure =>
      '(id, a) ← addPool name size sizes ensure a m;
      pool ← getPool id a;
      let ps := pool_init pool m in
      Ok (None, mkMSys a m (ms_cls st ++ [p_cls ps]) (ms_drift st ++ [p_drift ps]))
  | MShrink id bytes => '(_, a) ← ma_shrinkPool id bytes a; Ok (None, mkMSys a m (ms_cls st) (ms_drift st))
  | MGrow id bytes => '(_, a) ← ma_growPool id bytes a m; Ok (None, mkMSys a m (ms_cls st) (ms_drift st))
  | MResize src dest bytes => '(_, a) ← ma_resizePools src dest bytes a; Ok (None, mkMSys a m (ms_cls st) (ms_drift st))
  | MUpdateAdvise n => a ← ma_updateNumSlabsToAdvise n a; Ok (None, mkMSys a m (ms_cls st) (ms_drift st))
  end.

(** The pool of an id and its callers. *)
Definition pool_sys (id : nat) (st : MSys) (ps : PSys) : Prop :=
  pools_ (mgr_of st) !! id = Some (Some (p_pool ps)) ∧ p_mem ps = ms_m st ∧
  ms_cls st !! id = Some (p_cls ps) ∧ ms_drift st !! id = Some (p_drift ps).
Definition the_sizes (sizes : list Z) (st : MSys) : list Z := if bool_decide (sizes = []) then allocSizes (config_ (ms_a st)) else sizes.
Definition mop_ok (o : mop) (st : MSys) : Prop :=
  match o with
  | MAllocate _ size => fits 32 size
  | MFree id i p => ∃ ps k, pool_sys id st ps ∧ p_cls ps !! i = Some k ∧ p ∈ k_live k
  | MPool id o =>
      match o with PResize _ | PEnv _ => False | _ => ∀ ps, 0 ≤ id → pool_sys (Z.to_nat id) st ps → pop_ok o ps end
  | MAddPool _ size sizes _ => fits 64 size ∧ StronglySorted Z.lt (the_sizes sizes st) ∧ (length (the_sizes sizes st) ≤ 127)%nat
  | MShrink _ bytes | MGrow _ bytes | MResize _ _ bytes => 0 ≤ bytes
  | MUpdateAdvise n => - 2 ^ 31 < n < 2 ^ 31
  end.

(** ** The invariant *)
Definition capacity (m : Mem) : Z := kSize * getNumUsableAndAdvisedSlabs (m_sa m).
Definition reserved (mgr : MemoryPoolManager) : Z := total (pool_get maxSize_ mgr) (poolIds mgr).
Record msys_wf (st : MSys) : Prop := {
  mw_sa : sa_wf (m_sa (ms_m st));
  mw_idle : idle_clean (m_sa (ms_m st));
  mw_len : length (pools_ (mgr_of st)) = Manager.kMaxPools;
  mw_next : 0 ≤ nextPoolId_ (mgr_of st) ≤ Z.of_nat Manager.kMaxPools;
  mw_cls : Z.of_nat (length (ms_cls st)) = nextPoolId_ (mgr_of st) ∧ Z.of_nat (length (ms_drift st)) = nextPoolId_ (mgr_of st);
  mw_pool id : Z.of_nat id < nextPoolId_ (mgr_of st) →
    ∃ ps, pool_sys id st ps ∧ pool_wf ps ∧ id_ (p_pool ps) = Z.of_nat id ∧ 0 ≤ maxSize_ (p_pool ps);
  mw_free id s : nextPoolId_ (mgr_of st) ≤ id → ¬ of_pool id (m_sa (ms_m st)) s;
  mw_reserved : reserved (mgr_of st) ≤ capacity (ms_m st);
  mw_names name id : poolsByName_ (mgr_of st) !! name = Some id → 0 ≤ id < nextPoolId_ (mgr_of st);
  mw_inj name name' id : poolsByName_ (mgr_of st) !! name = Some id → poolsByName_ (mgr_of st) !! name' = Some id → name = name';
  mw_count : Z.of_nat (size (poolsByName_ (mgr_of st))) = nextPoolId_ (mgr_of st);
}.

Lemma capacity_fits m : 0 ≤ capacity m < 2 ^ 54.
Proof.
  unfold capacity, getNumUsableAndAdvisedSlabs. pose proof (wrap_fits 32 ((getSlabMemoryEnd (m_sa m) - slabMemoryStart (m_sa m)) / kSize) ltac:(lia)) as H.
  unfold fits in H. rewrite kSize_val in *. change (2 ^ 54) with (4194304 * 2 ^ 32). lia.
Qed.
Lemma poolIds_elem mgr id : id ∈ poolIds mgr ↔ 0 ≤ id < nextPoolId_ mgr.
Proof. unfold poolIds. rewrite elem_of_seqZ. lia. Qed.
Lemma pool_sys_eq id st ps ps' : pool_sys id st ps → pool_sys id st ps' → ps = ps'.
Proof. destruct ps, ps'. intros (? & ? & ? & ?) (? & ? & ? & ?). cbn in *. by simplify_eq. Qed.

Section wf.
Context {st : MSys} (Hwf : msys_wf st).
Lemma getPoolById_aux id :
  (∃ ps, 0 ≤ id < nextPoolId_ (mgr_of st) ∧ pool_sys (Z.to_nat id) st ps ∧ pool_wf ps ∧ id_ (p_pool ps) = id ∧ 0 ≤ maxSize_ (p_pool ps) ∧
     getPoolById id (mgr_of st) = Ok (p_pool ps)) ∨
  (getPoolById id (mgr_of st) = Throw InvalidArgument ∧ ¬ 0 ≤ id < nextPoolId_ (mgr_of st)).
Proof.
  unfold getPoolById. destruct (Z.ltb_spec id (nextPoolId_ (mgr_of st))), (Z.leb_spec 0 id); cbn [andb]; try (right; split; [done|lia]).
  left. destruct (mw_pool _ Hwf (Z.to_nat id)) as (ps & Hps & Hw & Hid & Hmax); [lia|]. rewrite Z2Nat.id in Hid by done.
  exists ps. split; [lia|]. do 4 (split; [done|]). apply pool_at_ok; [done|]. apply Hps.
Qed.
Lemma poolIds_has : has_pools (poolIds (mgr_of st)) (mgr_of st).
Proof.
  intros id [H0 H1]%poolIds_elem. split; [done|]. destruct (mw_pool _ Hwf (Z.to_nat id)) as (ps & Hps & _); [lia|].
  exists (p_pool ps). apply Hps.
Qed.
Lemma max_nonneg id : id ∈ poolIds (mgr_of st) → 0 ≤ pool_get maxSize_ (mgr_of st) id.
Proof.
  intros [H0 H1]%poolIds_elem. destruct (mw_pool _ Hwf (Z.to_nat id)) as (ps & (Hp & _) & _ & _ & Hmax); [lia|].
  unfold pool_get. by rewrite Hp.
Qed.
Lemma sum_pools_spec (f : MemoryPool → Z) mgr : ∀ ids sum, has_pools ids mgr → (∀ id, id ∈ ids → 0 ≤ pool_get f mgr id) → 0 ≤ sum →
  sum + total (pool_get f mgr) ids < 2 ^ 64 → sum_pools f ids sum mgr = Ok (sum + total (pool_get f mgr) ids).
Proof.
  induction ids as [|x ids IH]; intros sum Hp Hpos Hs Hb; cbn [sum_pools total] in *; [by rewrite Z.add_0_r|].
  destruct (Hp x ltac:(by left)) as (Hx & pool & E). rewrite (pool_at_ok _ _ _ Hx E). res_simpl.
  assert (f pool = pool_get f mgr x) as -> by (unfold pool_get; by rewrite E).
  pose proof (Hpos x ltac:(by left)). assert (0 ≤ total (pool_get f mgr) ids) by (apply total_nonneg; intros; apply Hpos; by right).
  rewrite wrap_small by (unfold fits; lia). rewrite IH; [f_equal; lia|by eapply has_pools_cons|intros; apply Hpos; by right|lia|lia].
Qed.
Lemma remaining_aux : getRemainingSizeLocked (mgr_of st) (m_sa (ms_m st)) = Ok (capacity (ms_m st) - reserved (mgr_of st)).
Proof.
  pose proof (capacity_fits (ms_m st)) as Hc. pose proof (mw_reserved _ Hwf) as Hr. unfold getRemainingSizeLocked.
  assert (getNumUsableAndAdvisedSlabs (m_sa (ms_m st)) * kSize = capacity (ms_m st)) as -> by (unfold capacity; lia).
  rewrite wrap_small by (unfold fits; lia). unfold reserved in *.
  rewrite (sum_pools_spec maxSize_ _ _ 0 poolIds_has max_nonneg); [|lia|lia]. res_simpl. rewrite Z.add_0_l, (proj2 (Z.leb_le _ _)) by done. done.
Qed.
End wf.

(** ** One pool changes *)
Lemma total_update f ids id v : NoDup ids → id ∈ ids → total (λ x, if decide (x = id) then v else f x) ids = total f ids - f id + v.
Proof.
  induction ids as [|x ids IH]; intros Hnd Hin; [by apply elem_of_nil in Hin|]. apply NoDup_cons in Hnd as [Hx Hnd]. cbn [total].
  apply elem_of_cons in Hin as [->|Hin].
  - rewrite decide_True by done. rewrite (total_ext _ f ids); [lia|]. intros y Hy. rewrite decide_False; [done|]. by intros ->.
  - rewrite decide_False by (intros ->; done). rewrite IH by done. lia.
Qed.
Lemma reserved_with_pool mgr id pool pool' : 0 ≤ id < nextPoolId_ mgr → pools_ mgr !! Z.to_nat id = Some (Some pool) →
  reserved (with_pool id pool' mgr) = reserved mgr - maxSize_ pool + maxSize_ pool'.
Proof.
  intros Hid E. unfold reserved. change (poolIds (with_pool id pool' mgr)) with (poolIds mgr).
  assert (pool_get maxSize_ mgr id = maxSize_ pool) as Eg by (unfold pool_get; by rewrite E).
  rewrite <- Eg, <- (total_update (pool_get maxSize_ mgr) _ id (maxSize_ pool')); [|apply NoDup_seqZ|by apply poolIds_elem].
  apply total_ext. intros x [Hx _]%poolIds_elem. unfold pool_get. cbn [pools_ with_pool]. case_decide as Hd.
  - subst. by rewrite list_lookup_insert_eq by (by eapply lookup_lt_Some).
  - by rewrite list_lookup_insert_ne by lia.
Qed.
Lemma others_capacity id m m' : 0 ≤ id → others id m m' → capacity m' = capacity m ∧ sa_wf (m_sa m') ∧ (idle_clean (m_sa m) → idle_clean (m_sa m')).
Proof.
  intros Hid Ho. destruct (Ho (id + 1) ltac:(lia) ltac:(lia)) as [H1 H2 H3 _ _ _ _ H4]. split; [|done].
  unfold capacity, getNumUsableAndAdvisedSlabs. by rewrite H3, H4.
Qed.
(** A pool does not mind what the others do. *)
Lemma pool_wf_env ps m' : pool_wf ps → pool_env (id_ (p_pool ps)) (p_mem ps) m' → pool_wf (mkPSys (p_pool ps) m' (p_cls ps) (p_drift ps)).
Proof.
  intros Hw He. destruct (pool_step_safe (PEnv m') ps Hw He) as [(ret & st' & E & _ & Hw' & _)|[E _]]; [|done].
  injection E as <- <-. exact Hw'.
Qed.

Definition set_sys (id : Z) (ps : PSys) (st : MSys) : MSys :=
  mkMSys (with_mgr (with_pool id (p_pool ps) (mgr_of st)) (ms_a st)) (p_mem ps)
    (<[Z.to_nat id := p_cls ps]> (ms_cls st)) (<[Z.to_nat id := p_drift ps]> (ms_drift st)).
Lemma set_sys_same id ps st : pool_sys (Z.to_nat id) st ps → mkMSys (ms_a st) (ms_m st) (<[Z.to_nat id := p_cls ps]> (ms_cls st)) (<[Z.to_nat id := p_drift ps]> (ms_drift st)) = st.
Proof. intros (_ & _ & H1 & H2). destruct st. cbn in *. by rewrite !list_insert_id. Qed.

Lemma set_sys_wf st id ps ps' : msys_wf st → 0 ≤ id < nextPoolId_ (mgr_of st) → pool_sys (Z.to_nat id) st ps →
  pool_wf ps' → id_ (p_pool ps') = id → 0 ≤ maxSize_ (p_pool ps') → others id (ms_m st) (p_mem ps') →
  reserved (mgr_of st) - maxSize_ (p_pool ps) + maxSize_ (p_pool ps') ≤ capacity (ms_m st) → msys_wf (set_sys id ps' st).
Proof.
  intros [W1 W2 W3 W4 [W5 W5'] W6 W7 W8 W9 W10 W11] Hid (Hp1 & Hp2 & Hp3 & Hp4) Hw' Hid' Hmax' Hoth Hres.
  destruct (others_capacity id _ _ (proj1 Hid) Hoth) as (Hcap & Hsa & Hidle).
  unfold set_sys. split; cbn [ms_m ms_a ms_cls ms_drift mgr_of memoryPoolManager_ with_mgr pools_ with_pool poolsByName_ nextPoolId_]; try done.
  - by apply Hidle.
  - by rewrite length_insert.
  - by rewrite !length_insert.
  - intros j Hj. destruct (W6 j Hj) as (pj & (Q1 & Q2 & Q3 & Q4) & Qw & Qid & Qmax).
    destruct (decide (j = Z.to_nat id)) as [->|Hne].
    + exists ps'. rewrite Hid', Z2Nat.id by lia. split; [|done]. unfold pool_sys. cbn.
      rewrite !list_lookup_insert_eq by (by eapply lookup_lt_Some). done.
    + exists (mkPSys (p_pool pj) (p_mem ps') (p_cls pj) (p_drift pj)). split; [|split; [|done]].
      * unfold pool_sys. cbn. by rewrite !list_lookup_insert_ne by done.
      * apply pool_wf_env; [done|]. rewrite Qid, Q2. apply Hoth; lia.
  - intros j s Hj Hs. assert (pool_env j (ms_m st) (p_mem ps')) as He by (apply Hoth; lia).
    apply (pe_ours _ _ _ He) in Hs. by eapply W7.
  - unfold mgr_of. cbn. rewrite (reserved_with_pool _ id (p_pool ps)) by done. rewrite Hcap. unfold mgr_of in Hres. lia.
Qed.

(** Operations of one pool. *)
Definition held_in (st : MSys) (p : Z) : Prop := ∃ id ps, pool_sys id st ps ∧ held ps p.
Definition passed_on (o : pop) : bool := match o with PResize _ | PEnv _ => false | _ => true end.
Lemma lift_aux st id o : msys_wf st → passed_on o = true → (∀ ps, 0 ≤ id → pool_sys (Z.to_nat id) st ps → pop_ok o ps) →
  (∃ ret st' ps ps', lift id o st = Ok (ret, st') ∧ msys_wf st' ∧ 0 ≤ id < nextPoolId_ (mgr_of st) ∧ pool_sys (Z.to_nat id) st ps ∧
     pool_step o ps = Ok (ret, ps') ∧ st' = set_sys id ps' st ∧ ret_ok ps ret ps') ∨
  (lift id o st = Throw InvalidArgument ∧
   (¬ 0 ≤ id < nextPoolId_ (mgr_of st) ∨ ∃ ps, pool_sys (Z.to_nat id) st ps ∧ refused o ps)).
Proof.
  intros Hwf Hpass Hok. unfold lift. destruct (getPoolById_aux Hwf id) as [(ps & Hid & Hps & Hw & Hpid & Hmax & ->)|[-> Hn]];
    [|right; split; [done|by left]]. res_simpl. pose proof Hps as (Hp1 & Hp2 & Hp3 & Hp4). rewrite Hp3, Hp4. res_simpl.
  assert (mkPSys (p_pool ps) (ms_m st) (p_cls ps) (p_drift ps) = ps) as -> by (destruct ps; cbn in *; by subst).
  destruct (pool_step_safe o ps Hw (Hok ps ltac:(lia) Hps)) as [(ret & ps' & E & Hr & Hw' & (Hs & _) & Ho)|[E Hr]]; rewrite E; res_simpl.
  - left. exists ret, (set_sys id ps' st), ps, ps'. split; [done|]. split; [|done].
    assert (maxSize_ (p_pool ps') = maxSize_ (p_pool ps)) as Em by (eapply pool_step_max; [|exact E]; by destruct o).
    apply (set_sys_wf st id ps); try done.
    + congruence.
    + lia.
    + rewrite <- Hp2, <- Hpid. by destruct o.
    + rewrite Em. pose proof (mw_reserved _ Hwf). lia.
  - right. split; [done|]. right. by exists ps.
Qed.

(** ** The interface *)
Lemma allocate_is_lift st id size : msys_wf st → mstep (MAllocate id size) st = lift id (PAllocate size) st.
Proof.
  intros Hwf. cbn [mstep]. unfold ma_getAllocationClassId, lift, ma_allocate. fold (mgr_of st).
  destruct (getPoolById_aux Hwf id) as [(ps & Hid & Hps & Hw & Hpid & Hmax & ->)|[-> Hn]]; [|done]. res_simpl.
  destruct Hps as (Hp1 & Hp2 & Hp3 & Hp4). rewrite Hp3, Hp4. res_simpl. cbn [pool_step p_pool p_mem p_cls p_drift].
  destruct (getAllocationClassId size (p_pool ps)) as [cid|e|]; res_simpl; try done.
  destruct (mp_allocate size (p_pool ps) (ms_m st)) as [[[ret pool'] m']|e|]; res_simpl; try done.
  by rewrite (alter_insert _ _ _ _ Hp3), (list_insert_id (ms_drift st)).
Qed.
Lemma free_is_lift st id i p ps k : msys_wf st → pool_sys id st ps → p_cls ps !! i = Some k → p ∈ k_live k →
  mstep (MFree id i p) st = lift (Z.of_nat id) (PFree i p) st.
Proof.
  intros Hwf Hps Hk Hp. cbn [mstep]. unfold ma_free, getMemoryPool, lift. fold (mgr_of st).
  pose proof Hps as (Hp1 & Hp2 & Hp3 & Hp4).
  assert (Z.of_nat id < nextPoolId_ (mgr_of st)) as Hlt by (apply lookup_lt_Some in Hp3; pose proof (mw_cls _ Hwf); lia).
  destruct (mw_pool _ Hwf id Hlt) as (ps' & Hps' & (n & Hinv & _) & Hpid & _). rewrite (pool_sys_eq _ _ _ _ Hps' Hps) in *. clear ps' Hps'.
  destruct (lookup_lt_is_Some_2 (ac_ (p_pool ps)) i) as [ac Hi].
  { rewrite <- (i_len _ _ _ _ _ _ _ Hinv). by eapply lookup_lt_Some. }
  destruct (live_ours _ _ _ _ _ _ _ i ac k p Hinv Hi Hk Hp) as (Hv & _ & Epl). rewrite Hp2 in Hv, Epl.
  unfold getSlabHeader. rewrite Hv. rewrite Epl. destruct (i_class _ _ _ _ _ _ _ Hinv i ac Hi) as [_ ->]. rewrite Hpid.
  destruct (getPoolById_aux Hwf (Z.of_nat id)) as [(ps' & Hid & Hps' & _ & _ & _ & ->)|[_ Hn]]; [|lia]. res_simpl.
  rewrite Nat2Z.id in *. rewrite (pool_sys_eq _ _ _ _ Hps' Hps) in *. rewrite Hp3, Hp4. res_simpl. cbn [pool_step p_pool p_mem p_cls p_drift].
  destruct (mp_free p (p_pool ps) (ms_m st)) as [[pool' m']|e|]; res_simpl; try done.
  by rewrite (alter_insert _ _ _ _ Hp3), (list_insert_id (ms_drift st)).
Qed.

(** Creating a pool from a set of sizes. *)
Definition sizes_ok (sizes : list Z) : Prop := sizes ≠ [] ∧ Forall (λ size, kMinAllocSize ≤ size ≤ kSize) sizes.
Lemma create_total pid sa : sa_wf sa → ∀ sizes id, 0 ≤ id → id + Z.of_nat (length sizes) ≤ 127 →
  (∃ acs, createClasses_loop id pid sizes sa = Ok acs) ∨
  (createClasses_loop id pid sizes sa = Throw InvalidArgument ∧ ¬ Forall (λ size, kMinAllocSize ≤ size ≤ kSize) sizes).
Proof.
  intros Hsa. induction sizes as [|size sizes IH]; intros id Hid Hlen; cbn [createClasses_loop]; [left; by eexists|].
  destruct ((size <? kMinAllocSize) || (kSize <? size)) eqn:Eg.
  { right. split; [done|]. intros [H _]%Forall_cons. apply orb_true_iff in Eg as [?%Z.ltb_lt|?%Z.ltb_lt]; lia. }
  apply orb_false_iff in Eg as [E1%Z.ltb_ge E2%Z.ltb_ge]. res_simpl. rewrite new_aux, (null_slab_invalid _ Hsa). cbn [andb].
  rewrite (proj2 (Z.ltb_ge id 0)), (proj2 (Z.ltb_ge size _)), (proj2 (Z.ltb_ge kSize _)) by (change sizeof_FreeAlloc with 4; change kMinAllocSize with 64 in E1; lia).
  cbn [orb]. res_simpl. cbn [length] in Hlen. rewrite s8_small by lia.
  destruct (IH (id + 1) ltac:(lia) ltac:(lia)) as [[acs ->]|[-> Hn]]; res_simpl; [left; by eexists|].
  right. split; [done|]. by intros [_ H]%Forall_cons.
Qed.
Lemma imap_sizes id pid sizes : allocationSize_ <$> imap (λ i, empty_class (id + Z.of_nat i) pid) sizes = sizes.
Proof.
  apply list_eq. intros i. rewrite list_lookup_fmap, list_lookup_imap. by destruct (sizes !! i).
Qed.
Lemma new_total id poolSize sizes sa : sa_wf sa → 0 ≤ id → StronglySorted Z.lt sizes → (length sizes ≤ 127)%nat →
  (∃ pool, MemoryPool_new id poolSize sizes sa = Ok pool) ∨ (MemoryPool_new id poolSize sizes sa = Throw InvalidArgument ∧ ¬ sizes_ok sizes).
Proof.
  intros Hsa Hid Hsort Hlen. unfold MemoryPool_new, createAllocationClasses. destruct (strict_sorted _ Hsort) as [S1 S2].
  destruct (create_total id sa Hsa sizes 0 ltac:(lia) ltac:(lia)) as [[acs Ec]|[-> Hn]]; [|right; split; [done|]; by intros [_ ?]].
  destruct (create_spec id sa Hsa sizes 0 acs ltac:(lia) ltac:(lia) Ec) as [Ea Hall]. rewrite Ec. res_simpl.
  assert (allocationSize_ <$> acs = sizes) as Es by (rewrite Ea; apply imap_sizes). rewrite Es, S1. res_simpl.
  unfold mp_checkState. cbn [id_ currSlabAllocSize_ currAllocSize_ acSizes_ ac_ pool_freeSlabs_].
  rewrite (proj2 (Z.ltb_ge id 0)) by done. res_simpl. change (0 <? 0) with false. res_simpl.
  destruct (decide (sizes = [])) as [->|Hne]; [right; split; [done|]; by intros [? _]|]. left.
  assert (length acs = length sizes) as El by (rewrite <- Es; by rewrite length_fmap).
  rewrite (bool_decide_false (sizes = [])), (bool_decide_false (acs = [])) by (done || (intros ->; by destruct sizes)).
  res_simpl. rewrite El, Nat.eqb_refl, S1, S2. cbn [negb]. res_simpl.
  assert (forallb (λ '(sz, ac), class_matches sz ac) (zip sizes acs) = true) as ->; [|by eexists].
  apply forallb_forall. intros [sz ac] Hin%list_elem_of_In. apply list_elem_of_lookup in Hin as [i Hi].
  apply lookup_zip_with_Some in Hi as (x & y & [= <- <-] & Hs & Ha). unfold class_matches.
  assert (allocationSize_ ac = sz) as -> by (rewrite <- Es, list_lookup_fmap, Ha in Hs; by injection Hs).
  rewrite Forall_forall in Hall. destruct (Hall sz (list_elem_of_lookup_2 _ _ _ Hs)).
  by rewrite Z.eqb_refl, (proj2 (Z.ltb_ge _ kMinAllocSize)), (proj2 (Z.ltb_ge kSize _)).
Qed.

(** When the interface throws. *)
Definition no_pool (id : Z) (st : MSys) : Prop := ¬ 0 ≤ id < nextPoolId_ (mgr_of st).
Definition m_refused (o : mop) (st : MSys) : Prop :=
  match o with
  | MAllocate id size => no_pool id st ∨ ∃ ps, pool_sys (Z.to_nat id) st ps ∧ refused (PAllocate size) ps
  | MPool id o => no_pool id st ∨ ∃ ps, pool_sys (Z.to_nat id) st ps ∧ refused o ps
  | MFree _ _ _ => False
  | MAddPool name size sizes ensure =>
      is_Some (poolsByName_ (mgr_of st) !! name) ∨ nextPoolId_ (mgr_of st) = Z.of_nat Manager.kMaxPools ∨
      capacity (ms_m st) - reserved (mgr_of st) < size ∨ ¬ sizes_ok (the_sizes sizes st) ∨
      (ensure = true ∧ size < kSize * Z.of_nat (length (the_sizes sizes st)))
  | MShrink id _ | MGrow id _ => no_pool id st
  | MResize src dest _ => no_pool src st ∨ no_pool dest st
  | MUpdateAdvise n => numSlabsToAdvise_ (mgr_of st) + n < 0
  end.

Lemma pool_get_below (f : MemoryPool → Z) pools names next n ids i pool : (∀ id, id ∈ ids → Z.to_nat id ≠ i) →
  total (pool_get f (mkMPM (<[i := Some pool]> pools) names next n)) ids = total (pool_get f (mkMPM pools names next n)) ids.
Proof.
  intros H. apply total_ext. intros id Hid. unfold pool_get. cbn. by rewrite list_lookup_insert_ne by (intros ->; by eapply H).
Qed.
Lemma pool_get_ext (f : MemoryPool → Z) mgr mgr' ids : pools_ mgr' = pools_ mgr → total (pool_get f mgr') ids = total (pool_get f mgr) ids.
Proof. intros E. apply total_ext. intros id _. unfold pool_get. by rewrite E. Qed.

Lemma total_app f ids ids' : total f (ids ++ ids') = total f ids + total f ids'.
Proof. induction ids as [|x ids IH]; cbn; [done|]. rewrite IH. lia. Qed.

(** The new pool joins the others. *)
Lemma add_pool_wf st name size pool : msys_wf st → poolsByName_ (mgr_of st) !! name = None → nextPoolId_ (mgr_of st) < Z.of_nat Manager.kMaxPools →
  size ≤ capacity (ms_m st) - reserved (mgr_of st) → 0 ≤ size →
  pool_wf (pool_init pool (ms_m st)) → id_ pool = nextPoolId_ (mgr_of st) → maxSize_ pool = size →
  let mgr := mgr_of st in let id := nextPoolId_ mgr in
  msys_wf (mkMSys (with_mgr (mkMPM (<[Z.to_nat id := Some pool]> (pools_ mgr)) (<[name := id]> (poolsByName_ mgr)) (id + 1) (numSlabsToAdvise_ mgr)) (ms_a st))
    (ms_m st) (ms_cls st ++ [p_cls (pool_init pool (ms_m st))]) (ms_drift st ++ [0])).
Proof.
  intros [W1 W2 W3 W4 [W5 W5'] W6 W7 W8 W9 W10 W11] Hnew Hlt Hsz H0 Hw Hid Hmax mgr id.
  split; cbn [ms_m ms_a ms_cls ms_drift mgr_of memoryPoolManager_ with_mgr pools_ poolsByName_ nextPoolId_]; fold mgr in Hlt, W3, W4, W5, W5' |- *; try done.
  - by rewrite length_insert.
  - unfold id. lia.
  - rewrite !length_app. cbn. unfold id. lia.
  - intros j Hj. destruct (decide (j = Z.to_nat id)) as [->|Hne].
    + exists (pool_init pool (ms_m st)). split; [|split; [done|]].
      * unfold pool_sys. cbn -[pool_init]. rewrite list_lookup_insert_eq by (rewrite W3; unfold id; lia). split; [done|]. split; [done|].
        split; (apply list_lookup_middle; unfold id; lia).
      * cbn. rewrite Hid, Hmax. unfold id. split; [fold mgr; lia|done].
    + destruct (W6 j ltac:(fold mgr; unfold id in *; lia)) as (pj & (Q1 & Q2 & Q3 & Q4) & Qw & Qid & Qmax). exists pj. split; [|done].
      unfold pool_sys. cbn. rewrite list_lookup_insert_ne by done. split; [done|]. split; [done|].
      split; (apply lookup_app_l_Some; done).
  - intros j s Hj. apply W7. fold mgr. unfold id in Hj. lia.
  - unfold reserved, poolIds. cbn [nextPoolId_]. rewrite (seqZ_app 0 id 1) by (unfold id; lia). rewrite (seqZ_cons (0 + id)) by lia. change (seqZ _ (Z.pred 1)) with (@nil Z).
    rewrite total_app. cbn [total]. rewrite (pool_get_below maxSize_) by (intros x Hx%elem_of_seqZ; unfold id in *; lia).
    rewrite (pool_get_ext maxSize_ mgr) by done. unfold pool_get at 2. cbn [pools_]. rewrite Z.add_0_l.
    rewrite list_lookup_insert_eq by (rewrite W3; unfold id; lia). unfold reserved, poolIds in Hsz. fold mgr in Hsz. fold id in Hsz. lia.
  - intros nm i. destruct (decide (nm = name)) as [->|Hne]; [rewrite lookup_insert_eq; intros [= <-]; unfold id; lia|].
    rewrite lookup_insert_ne by done. intros Hi%W9. fold mgr in Hi. unfold id. lia.
  - intros n1 n2 i. destruct (decide (n1 = name)) as [->|H1], (decide (n2 = name)) as [->|H2];
      rewrite ?lookup_insert_eq, ?lookup_insert_ne by done; try done; [intros [= <-] Hi%W9|intros Hi%W9 [= <-]|apply W10];
      fold mgr in Hi; unfold id in Hi; lia.
  - rewrite map_size_insert_None by done. fold mgr in W11. unfold id. lia.
Qed.

(** ** Every step *)
Definition m_ret_ok (st : MSys) (ret : option Z) (st' : MSys) : Prop :=
  ∀ p, ret = Some p → ¬ held_in st p ∧ held_in st' p ∧ is_alloc (m_sa (ms_m st')) p.
(** The memory of a held allocation belongs to its pool. *)
Lemma held_pool ps p : pool_wf ps → held ps p → of_pool (id_ (p_pool ps)) (m_sa (p_mem ps)) (getSlabForMemory p).
Proof.
  intros (n & Hinv & _) (i & k & Hk & Hp). destruct (lookup_lt_is_Some_2 (ac_ (p_pool ps)) i) as [ac Hi].
  { rewrite <- (i_len _ _ _ _ _ _ _ Hinv). by eapply lookup_lt_Some. }
  destruct (live_ours _ _ _ _ _ _ _ i ac k p Hinv Hi Hk Hp) as (Hv & _ & E). destruct (i_class _ _ _ _ _ _ _ Hinv i ac Hi) as [_ <-]. by split.
Qed.
Lemma sys_pool st id ps : msys_wf st → pool_sys id st ps → pool_wf ps ∧ id_ (p_pool ps) = Z.of_nat id ∧ p_mem ps = ms_m st ∧ Z.of_nat id < nextPoolId_ (mgr_of st).
Proof.
  intros Hwf Hps. pose proof Hps as (_ & Hm & Hc & _). pose proof (lookup_lt_Some _ _ _ Hc). pose proof (mw_cls _ Hwf).
  destruct (mw_pool _ Hwf id ltac:(lia)) as (ps' & Hps' & Hw & Hid & _). rewrite (pool_sys_eq _ _ _ _ Hps' Hps) in *. split; [done|]. split; [done|]. split; [done|lia].
Qed.
Lemma held_one st id id' ps ps' p : msys_wf st → pool_sys id st ps → pool_sys id' st ps' → held ps p → held ps' p → id = id'.
Proof.
  intros Hwf Hps Hps' Hp Hp'. destruct (sys_pool _ _ _ Hwf Hps) as (Hw & Hid & Hm & _), (sys_pool _ _ _ Hwf Hps') as (Hw' & Hid' & Hm' & _).
  destruct (held_pool _ _ Hw Hp) as [_ E], (held_pool _ _ Hw' Hp') as [_ E']. rewrite Hm in E. rewrite Hm' in E'. lia.
Qed.
Lemma set_sys_lookup st id ps' : msys_wf st → 0 ≤ id < nextPoolId_ (mgr_of st) → pool_sys (Z.to_nat id) (set_sys id ps' st) ps'.
Proof.
  intros Hwf Hid. pose proof (mw_cls _ Hwf). pose proof (mw_len _ Hwf). pose proof (mw_next _ Hwf). unfold pool_sys, set_sys, mgr_of in *. cbn.
  rewrite !list_lookup_insert_eq by lia. done.
Qed.
Lemma lift_ret st id ps ps' ret : msys_wf st → msys_wf (set_sys id ps' st) → 0 ≤ id < nextPoolId_ (mgr_of st) → pool_sys (Z.to_nat id) st ps →
  ret_ok ps ret ps' → m_ret_ok st ret (set_sys id ps' st).
Proof.
  intros Hwf Hwf' Hid Hps Hr p ->. destruct (Hr p eq_refl) as (Hn & Hh & Ha). pose proof (set_sys_lookup st id ps' Hwf Hid) as Hs.
  split; [|split; [by exists (Z.to_nat id), ps'|done]]. intros (j & pj & Hpj & Hj). destruct (decide (j = Z.to_nat id)) as [->|Hne].
  - rewrite (pool_sys_eq _ _ _ _ Hpj Hps) in Hj. done.
  - pose proof Hpj as (Q1 & Q2 & Q3 & Q4). apply Hne.
    apply (held_one (set_sys id ps' st) j (Z.to_nat id) (mkPSys (p_pool pj) (p_mem ps') (p_cls pj) (p_drift pj)) ps' p Hwf'); [|done|done|done].
    unfold pool_sys, set_sys. cbn. by rewrite !list_lookup_insert_ne by done.
Qed.

Lemma resize_wf ps size : pool_wf ps → pool_wf (mkPSys (resize size (p_pool ps)) (p_mem ps) (p_cls ps) (p_drift ps)).
Proof. intros (n & H). by exists n. Qed.
(** Changing the size of a pool. *)
Lemma resize_sys st id ps size : msys_wf st → 0 ≤ id < nextPoolId_ (mgr_of st) → pool_sys (Z.to_nat id) st ps → 0 ≤ size →
  reserved (mgr_of st) - maxSize_ (p_pool ps) + size ≤ capacity (ms_m st) →
  let mgr' := with_pool id (resize size (p_pool ps)) (mgr_of st) in
  msys_wf (set_mgr mgr' st) ∧ reserved mgr' = reserved (mgr_of st) - maxSize_ (p_pool ps) + size.
Proof.
  intros Hwf Hid Hps H0 Hres mgr'. destruct (sys_pool _ _ _ Hwf Hps) as (Hw & Eid & Hm & _).
  split; [|by apply (reserved_with_pool _ _ (p_pool ps)); [|apply Hps]].
  pose proof (set_sys_wf st id ps (mkPSys (resize size (p_pool ps)) (p_mem ps) (p_cls ps) (p_drift ps)) Hwf Hid Hps) as H.
  unfold set_sys in H. cbn [p_pool p_mem p_cls p_drift] in H. destruct Hps as (_ & _ & Hc & Hd). rewrite !list_insert_id, Hm in H by done.
  apply H; [rewrite <- Hm; by apply resize_wf|cbn; lia|done| |done]. intros id' _ _. apply pool_env_refl. apply Hwf.
Qed.
Lemma reserved_ge st id ps : msys_wf st → 0 ≤ id < nextPoolId_ (mgr_of st) → pool_sys (Z.to_nat id) st ps →
  maxSize_ (p_pool ps) ≤ reserved (mgr_of st).
Proof.
  intros Hwf Hid (E & _). replace (maxSize_ (p_pool ps)) with (pool_get maxSize_ (mgr_of st) id) by (unfold pool_get; by rewrite E).
  apply total_elem; [by apply max_nonneg|by apply poolIds_elem].
Qed.
Lemma add_pool_step st name size sizes ensure : msys_wf st → mop_ok (MAddPool name size sizes ensure) st →
  (∃ st', mstep (MAddPool name size sizes ensure) st = Ok (None, st') ∧ msys_wf st') ∨
  (∃ e, mstep (MAddPool name size sizes ensure) st = Throw e ∧ (e = InvalidArgument ∨ e = LogicError) ∧ m_refused (MAddPool name size sizes ensure) st).
Proof.
  intros Hwf (Hsz & Hsort & Hlen). cbn [mstep m_refused]. unfold addPool. fold (the_sizes sizes st). set (szs := the_sizes sizes st) in *.
  change kMaxClasses with 128. rewrite (proj2 (Z.ltb_ge 128 _)) by lia. res_simpl.
  rewrite (wrap_small 64 (kSize * _)) by (unfold fits; change (2 ^ 64) with 18446744073709551616; rewrite kSize_val; lia).
  destruct (ensure && (size <? kSize * Z.of_nat (length szs))) eqn:Ee.
  { right. exists InvalidArgument. split; [done|]. split; [by left|]. do 4 right. apply andb_true_iff in Ee as [-> ?%Z.ltb_lt]. done. }
  res_simpl. fold (mgr_of st). unfold createNewPool. destruct (poolsByName_ (mgr_of st) !! name) as [i|] eqn:En.
  { right. exists InvalidArgument. split; [done|]. split; [by left|]. left. by eexists. }
  pose proof (mw_next _ Hwf) as Hnext. destruct (Z.eqb_spec (nextPoolId_ (mgr_of st)) (Z.of_nat Manager.kMaxPools)) as [Emax|Hmax].
  { right. exists LogicError. split; [done|]. split; [by right|]. right. by left. }
  res_simpl. rewrite (remaining_aux Hwf). res_simpl. destruct (Z.ltb_spec (capacity (ms_m st) - reserved (mgr_of st)) size) as [Hlt|Hge].
  { right. exists InvalidArgument. split; [done|]. split; [by left|]. do 2 right. by left. }
  res_simpl. set (id := nextPoolId_ (mgr_of st)) in *.
  destruct (new_total id size szs (m_sa (ms_m st)) (mw_sa _ Hwf) ltac:(lia) Hsort Hlen) as [[pool Ep]|[-> Hn]]; cycle 1.
  { right. exists InvalidArgument. split; [done|]. split; [by left|]. do 3 right. by left. }
  left. rewrite Ep. res_simpl. rewrite (mw_len _ Hwf), (proj2 (Nat.ltb_lt _ _)) by lia. res_simpl.
  destruct (pool_init_wf id size szs (ms_m st) pool) as (Hw & Hid & _ & Hm); [apply Hwf|apply Hwf|unfold Manager.kMaxPools, SlabAllocator.kMaxPools in *; lia|done| |done|].
  { intros s. apply (mw_free _ Hwf). done. }
  unfold Manager.kMaxPools in *. rewrite s8_small by lia. unfold getPool, getPoolById, pool_at. cbn [memoryPoolManager_ with_mgr nextPoolId_ pools_].
  rewrite (proj2 (Z.ltb_lt _ _)), (proj2 (Z.leb_le _ _)), (proj2 (Z.ltb_ge _ _)) by lia. cbn [andb].
  rewrite list_lookup_insert_eq by (rewrite (mw_len _ Hwf); unfold Manager.kMaxPools; lia). res_simpl.
  eexists. split; [done|]. apply (add_pool_wf st name size pool Hwf); try done; unfold Manager.kMaxPools; lia || apply Hsz.
Qed.

Lemma mstep_safe o st : msys_wf st → mop_ok o st →
  (∃ ret st', mstep o st = Ok (ret, st') ∧ m_ret_ok st ret st' ∧ msys_wf st') ∨
  (∃ e, mstep o st = Throw e ∧ (e = InvalidArgument ∨ e = LogicError) ∧ m_refused o st).
Proof.
  intros Hwf Hok. assert (∀ id o', passed_on o' = true → (∀ ps, 0 ≤ id → pool_sys (Z.to_nat id) st ps → pop_ok o' ps) →
    (∃ ret st', lift id o' st = Ok (ret, st') ∧ m_ret_ok st ret st' ∧ msys_wf st') ∨
    (lift id o' st = Throw InvalidArgument ∧ (no_pool id st ∨ ∃ ps, pool_sys (Z.to_nat id) st ps ∧ refused o' ps))) as Hlift.
  { intros id o' Hp Hpo. destruct (lift_aux st id o' Hwf Hp Hpo) as [(ret & st' & ps & ps' & E & Hw & Hid & Hps & _ & -> & Hr)|H]; [left|by right].
    exists ret, (set_sys id ps' st). split; [done|]. split; [|done]. by eapply lift_ret. }
  assert (∀ st', msys_wf st' → m_ret_ok st None st') as Hnone by done.
  destruct o as [id size|id i p|id o|name size sizes ensure|id bytes|id bytes|src dest bytes|n].
  - rewrite allocate_is_lift by done. destruct (Hlift id (PAllocate size)) as [H|[E H]]; [done|done|by left|right].
    exists InvalidArgument. split; [done|]. split; [by left|exact H].
  - destruct Hok as (ps & k & Hps & Hk & Hp). rewrite (free_is_lift st id i p ps k) by done.
    destruct (Hlift (Z.of_nat id) (PFree i p)) as [H|[E [H|(? & _ & H)]]]; [done| |by left| |done].
    + rewrite Nat2Z.id. intros ps' _ Hps'. rewrite (pool_sys_eq _ _ _ _ Hps' Hps). by exists k.
    + destruct (sys_pool _ _ _ Hwf Hps) as (_ & _ & _ & ?). destruct H. lia.
  - destruct (Hlift id o) as [H|[E H]]; [by destruct o|by destruct o|by left|right]. exists InvalidArgument. split; [done|]. split; [by left|exact H].
  - destruct (add_pool_step st name size sizes ensure Hwf Hok) as [(st' & E & Hw)|H]; [left|by right]. exists None, st'. split; [done|]. by split; [apply Hnone|].
  - cbn [mstep m_refused]. unfold ma_shrinkPool, shrinkPool. fold (mgr_of st).
    destruct (getPoolById_aux Hwf id) as [(ps & Hid & Hps & Hw & Hpid & Hmax & ->)|[-> Hn]];
      [|right; exists InvalidArgument; split; [done|]; by split; [left|]].
    res_simpl. left. destruct (Z.ltb_spec (maxSize_ (p_pool ps)) bytes) as [Hlt|Hge]; res_simpl; eexists None, _; (split; [done|]).
    + split; [done|]. destruct st as [[cf mgr] m cs ds]. exact Hwf.
    + split; [done|]. cbn in Hok. pose proof (mw_reserved _ Hwf). apply (resize_sys st id ps); [done..|lia|lia].
  - cbn [mstep m_refused]. unfold ma_growPool, growPool. fold (mgr_of st).
    destruct (getPoolById_aux Hwf id) as [(ps & Hid & Hps & Hw & Hpid & Hmax & ->)|[-> Hn]];
      [|right; exists InvalidArgument; split; [done|]; by split; [left|]].
    res_simpl. rewrite (remaining_aux Hwf). res_simpl. cbn in Hok. pose proof (reserved_ge _ _ _ Hwf Hid Hps) as Hge'.
    left. destruct (Z.ltb_spec (capacity (ms_m st) - reserved (mgr_of st)) bytes) as [Hlt|Hge]; res_simpl; eexists None, _; (split; [done|]).
    + split; [done|]. destruct st as [[cf mgr] m cs ds]. exact Hwf.
    + split; [done|]. pose proof (capacity_fits (ms_m st)). rewrite wrap_small by (unfold fits; lia). apply (resize_sys st id ps); [done..|lia|lia].
  - cbn [mstep m_refused]. unfold ma_resizePools, resizePools. fold (mgr_of st).
    destruct (getPoolById_aux Hwf src) as [(ps & Hid & Hps & Hw & Hpid & Hmax & ->)|[-> Hn]];
      [|right; exists InvalidArgument; split; [done|]; split; [by left|by left]].
    res_simpl. destruct (getPoolById_aux Hwf dest) as [(pd & Hidd & Hpd & _ & _ & _ & ->)|[-> Hn]];
      [|right; exists InvalidArgument; split; [done|]; split; [by left|by right]].
    res_simpl. left. cbn in Hok. pose proof (mw_reserved _ Hwf) as Hres.
    destruct (Z.ltb_spec (maxSize_ (p_pool ps)) bytes) as [Hlt|Hge]; res_simpl.
    { eexists None, _. split; [done|]. split; [done|]. destruct st as [[cf mgr] m cs ds]. exact Hwf. }
    destruct (resize_sys st src ps (maxSize_ (p_pool ps) - bytes) Hwf Hid Hps ltac:(lia) ltac:(lia)) as [Hwf1 Hr1].
    set (mgr1 := with_pool src _ (mgr_of st)) in *. set (st1 := set_mgr mgr1 st) in *.
    change mgr1 with (mgr_of st1). destruct (getPoolById_aux Hwf1 dest) as [(pd1 & Hid1 & Hpd1 & _ & _ & Hmax1 & ->)|[_ Hn]]; [|done].
    res_simpl. eexists None, _. split; [done|]. split; [done|]. pose proof (reserved_ge _ _ _ Hwf1 Hid1 Hpd1) as Hge1.
    pose proof (capacity_fits (ms_m st)) as Hcap. change (mgr_of st1) with mgr1 in Hge1. rewrite wrap_small by (unfold fits; lia).
    apply (resize_sys st1 dest pd1); [done..|lia|]. change (mgr_of st1) with mgr1. change (ms_m st1) with (ms_m st). lia.
  - cbn [mstep m_refused]. unfold ma_updateNumSlabsToAdvise, updateNumSlabsToAdvise. fold (mgr_of st). cbn in Hok.
    rewrite (proj2 (Z.eqb_neq n (- 2 ^ 31))) by lia. cbn [negb]. res_simpl.
    destruct (Z.ltb_spec n 0), (Z.ltb_spec (numSlabsToAdvise_ (mgr_of st)) (- n)); cbn [andb]; res_simpl.
    1: right; exists InvalidArgument; split; [done|]; split; [by left|lia].
    all: left; eexists None, _; (split; [done|]); (split; [done|]); destruct Hwf as [W1 W2 W3 W4 W5 W6 W7 W8 W9 W10 W11]; split; done.
Qed.

(** ** Reachable states *)
Definition m_rel (st st' : MSys) : Prop := ∃ o ret, mop_ok o st ∧ mstep o st = Ok (ret, st').
Lemma m_reachable_wf st st' : msys_wf st → rtc m_rel st st' → msys_wf st'.
Proof.
  intros Hwf Hr. induction Hr as [|st1 st2 st3 (o & ret & Hok & E) _ IH]; [done|].
  destruct (mstep_safe o st1 Hwf Hok) as [(ret' & st' & E' & _ & Hw)|(e & E' & _)]; [|congruence].
  rewrite E in E'. injection E' as <- <-. by apply IH.
Qed.

Lemma slab_new_inv memStart memSize owns hdrs sa : SlabAllocator_new memStart memSize owns hdrs = Ok sa →
  nextSlabAllocation sa = slabMemoryStart sa ∧ memoryStart sa = memStart.
Proof. unfold SlabAllocator_new. intros H. inv_ok H. by simplify_eq. Qed.
Definition memory_ok (memStart memSize : Z) : Prop :=
  0 ≤ memStart ∧ 0 ≤ memSize ≤ getMaxAddressableSize ∧ memStart + memSize < 2 ^ 64.
Lemma m_init_wf config memStart memSize owns hdrs hooks a m : memory_ok memStart memSize →
  MemoryAllocator_new config memStart memSize owns hdrs hooks = Ok (a, m) → msys_wf (mkMSys a m [] []).
Proof.
  intros (H1 & H2 & H3) E. unfold MemoryAllocator_new in E. 
  destruct (SlabAllocator_new memStart memSize owns hdrs) as [sa| |] eqn:Es; [|done|done]. res_simpl.
  destruct (checkConfig config) as [[]| |]; [|done|done]. res_simpl. injection E as <- <-.
  pose proof (SlabAllocator_new_spec memStart memSize owns hdrs H1 H2 H3) as Hs. rewrite Es in Hs. case_decide as Hd; [|done].
  destruct Hs as (sa' & [= <-] & Hsa & _ & _). destruct (slab_new_inv _ _ _ _ _ Es) as [Hnx _].
  assert (∀ s, isValidSlab sa s = false) as Hv.
  { intros s. apply not_true_iff_false. rewrite (valid_slab_iff _ Hsa). lia. }
  split; cbn; try done.
  - intros s Hs. congruence.
  - lia.
  - intros id s _ [Hs _]. congruence.
  - unfold reserved. cbn. apply capacity_fits.
Qed.

(** Distinct allocations, of whatever pools and classes, do not overlap. *)
Definition m_apart (st : MSys) : Prop := ∀ id id' ps ps' i j ac ac' k k' p q,
  pool_sys id st ps → pool_sys id' st ps' → ac_ (p_pool ps) !! i = Some ac → ac_ (p_pool ps') !! j = Some ac' →
  p_cls ps !! i = Some k → p_cls ps' !! j = Some k' → p ∈ k_live k → q ∈ k_live k' → p ≠ q →
  p + allocationSize_ ac ≤ q ∨ q + allocationSize_ ac' ≤ p.
Lemma m_apart_wf st : msys_wf st → m_apart st.
Proof.
  intros Hwf id id' ps ps' i j ac ac' k k' p q Hps Hps' Hi Hj Hk Hk' Hp Hq Hne.
  destruct (sys_pool _ _ _ Hwf Hps) as ((n & Hinv & _) & Hid & Hm & _), (sys_pool _ _ _ Hwf Hps') as ((n' & Hinv' & _) & Hid' & Hm' & _).
  destruct (decide (id = id')) as [<-|Hdiff].
  { rewrite (pool_sys_eq _ _ _ _ Hps' Hps) in *. by apply (live_apart Hinv i j ac ac' k k'). }
  destruct (live_slab Hinv i ac k p Hi Hk Hp) as (_ & _ & _ & (_ & _ & E) & Hr & Ha), (live_slab Hinv' j ac' k' q Hj Hk' Hq) as (_ & _ & _ & (_ & _ & E') & Hr' & Ha').
  destruct (i_class _ _ _ _ _ _ _ Hinv i ac Hi) as [_ Ep], (i_class _ _ _ _ _ _ _ Hinv' j ac' Hj) as [_ Ep'].
  assert (getSlabForMemory p ≠ getSlabForMemory q) as Hns. { intros Es. rewrite Hm in E. rewrite Hm' in E'. rewrite Es in E. apply Hdiff. lia. }
  destruct (slabs_apart _ _ Ha Ha' Hns); lia.
Qed.

Definition allocator_reachable (config : Config) (memStart memSize : Z) (owns : bool) (st : MSys) : Prop :=
  memory_ok memStart memSize ∧ ∃ hdrs hooks a m, MemoryAllocator_new config memStart memSize owns hdrs hooks = Ok (a, m) ∧
    rtc m_rel (mkMSys a m [] []) st.
Lemma allocator_wf config memStart memSize owns st : allocator_reachable config memStart memSize owns st → msys_wf st.
Proof. intros (Hm & hdrs & hooks & a & m & E & Hr). eapply m_reachable_wf; [|done]. by eapply m_init_wf. Qed.

(** C16: the memory layer is safe as a whole.  From a new [MemoryAllocator], after
    any interleaving of creating, growing, shrinking and resizing pools,
    allocating and freeing in any of them, and the steps of slab releases, the
    memory of distinct held allocations of all pools is disjoint and the sizes
    of the pools add up to no more than the memory.  Every further permitted call
    returns, without failed debug check or access out of range, hands out only
    memory nobody holds, and throws [std::invalid_argument] or
    [std::logic_error] only for the reasons in [m_refused]; freeing a held
    allocation always succeeds, whichever pool it came from. *)
Theorem allocator_reachable_safe config memStart memSize owns st o : allocator_reachable config memStart memSize owns st → mop_ok o st →
  m_apart st ∧ reserved (mgr_of st) ≤ capacity (ms_m st) ∧
  ((∃ ret st', mstep o st = Ok (ret, st') ∧ m_ret_ok st ret st') ∨
   (∃ e, mstep o st = Throw e ∧ (e = InvalidArgument ∨ e = LogicError) ∧ m_refused o st)).
Proof.
  intros Hwf%allocator_wf Hok. split; [by apply m_apart_wf|]. split; [apply Hwf|].
  destruct (mstep_safe o st Hwf Hok) as [(ret & st' & E & Hr & _)|H]; [left|by right]. by exists ret, st'.
Qed.

(** In every reachable state the pool of a held allocation is recognised from
    its address alone: [getAllocInfo] names its pool and class and the size of
    the class. *)
Theorem getAllocInfo_held config memStart memSize owns st id ps i ac k p : allocator_reachable config memStart memSize owns st →
  pool_sys id st ps → ac_ (p_pool ps) !! i = Some ac → p_cls ps !! i = Some k → p ∈ k_live k →
  getAllocInfo p (ms_m st) = Ok (mkAllocInfo (Z.of_nat id) (Z.of_nat i) (allocationSize_ ac)) ∧
  getMemoryPool p (ms_a st) (ms_m st) = Ok (Z.of_nat id, p_pool ps).
Proof.
  intros Hwf%allocator_wf Hps Hi Hk Hp. destruct (sys_pool _ _ _ Hwf Hps) as ((n & Hinv & _) & Hid & Hm & Hlt).
  pose proof (i_sys _ _ _ _ _ _ _ Hinv i ac k Hi Hk) as [(online & off & Hac) _]. cbn in Hac.
  destruct (used_header _ _ _ (w_core _ _ _ _ _ _ Hac) p) as (b & Hh & (Hv & Hcl & Hpl & Hsz & _) & _); [set_solver|].
  destruct (i_class _ _ _ _ _ _ _ Hinv i ac Hi) as [Ec Ep]. rewrite Hm in *. unfold getAllocInfo, getMemoryPool. rewrite Hh.
  cbn zeta. rewrite Hcl, Hpl, Hsz, Ec, Ep, Hid. split; [done|]. fold (mgr_of st).
  destruct (getPoolById_aux Hwf (Z.of_nat id)) as [(ps' & _ & Hps' & _ & _ & _ & ->)|[_ Hn]]; [|lia]. res_simpl.
  rewrite Nat2Z.id in Hps'. by rewrite (pool_sys_eq _ _ _ _ Hps' Hps).
Qed.

(** Names and ids of pools are two-way: in every reachable state a pool that
    was added under a name is found by it, [getPoolName] of its id is the name,
    and every id below [nextPoolId_] has a name. *)
Theorem pool_names config memStart memSize owns st : allocator_reachable config memStart memSize owns st →
  (∀ name id, poolsByName_ (mgr_of st) !! name = Some id → getPoolId name (ms_a st) = Ok id ∧ getPoolName id (ms_a st) = Ok name) ∧
  (∀ name, poolsByName_ (mgr_of st) !! name = None → getPoolId name (ms_a st) = Ok kInvalidPoolId) ∧
  (∀ id, 0 ≤ id < nextPoolId_ (mgr_of st) → ∃ name, getPoolName id (ms_a st) = Ok name ∧ getPoolId name (ms_a st) = Ok id).
Proof.
  intros Hwf%allocator_wf.
  assert (∀ name id, poolsByName_ (mgr_of st) !! name = Some id → getPoolId name (ms_a st) = Ok id ∧ getPoolName id (ms_a st) = Ok name) as Hbi.
  { intros name id E. pose proof (mw_names _ Hwf _ _ E) as Hid. unfold getPoolId, getPoolByName, getPoolName, getPoolNameById. fold (mgr_of st).
    rewrite E, (proj2 (Z.ltb_lt _ _)), (proj2 (Z.leb_le _ _)) by lia. res_simpl.
    destruct (mw_pool _ Hwf (Z.to_nat id)) as (ps & (Hp & _) & _ & Epid & _); [lia|]. rewrite (pool_at_ok _ _ _ (proj1 Hid) Hp). res_simpl.
    split; [f_equal; lia|]. destruct (list_find _ _) as [[k [n i]]|] eqn:Ef.
    - apply list_find_Some in Ef as (Hk & Hi & _). cbn in Hi. subst i. apply list_elem_of_lookup_2, elem_of_map_to_list in Hk.
      by rewrite (mw_inj _ Hwf _ _ _ Hk E).
    - apply list_find_None in Ef. rewrite Forall_forall in Ef. by apply elem_of_map_to_list, Ef in E. }
  split; [done|]. split.
  - intros name E. unfold getPoolId, getPoolByName. fold (mgr_of st). by rewrite E.
  - intros id Hid. assert (∃ name, poolsByName_ (mgr_of st) !! name = Some id) as [name E]; [|exists name; by destruct (Hbi name id E)].
    destruct (decide (id ∈ (snd <$> map_to_list (poolsByName_ (mgr_of st))))) as [([n i] & -> & Hin)%list_elem_of_fmap|Hn].
    { exists n. by apply elem_of_map_to_list. }
    assert (NoDup (snd <$> map_to_list (poolsByName_ (mgr_of st)))) as Hnd.
    { apply NoDup_fmap_2_strong; [|apply NoDup_map_to_list]. intros [n1 i1] [n2 i2] H1 H2 E. cbn in E. subst i2.
      apply elem_of_map_to_list in H1, H2. by rewrite (mw_inj _ Hwf _ _ _ H1 H2). }
    assert (length (id :: (snd <$> map_to_list (poolsByName_ (mgr_of st)))) ≤ length (poolIds (mgr_of st)))%nat as Hle.
    { apply submseteq_length, NoDup_submseteq; [by apply NoDup_cons|]. intros x [->|([n i] & -> & Hin)%list_elem_of_fmap]%elem_of_cons.
      - by apply poolIds_elem.
      - apply elem_of_map_to_list in Hin. apply poolIds_elem. by eapply (mw_names _ Hwf). }
    cbn [length] in Hle. rewrite length_fmap in Hle.
    unfold poolIds in Hle. rewrite length_seqZ in Hle. pose proof (mw_count _ Hwf) as Hc. rewrite <- length_map_to_list in Hc. lia.
Qed.

(** ** Saved state *)
Lemma restore_pools_spec m (pools : list MemoryPool) : ∀ objects k adv,
  Forall2 (λ pool o, MemoryPool_restore o m = Ok (forget_aborted pool)) pools objects → (length pools ≤ k)%nat →
  Forall (λ pool, 0 ≤ curSlabsAdvised_ pool) pools → 0 ≤ adv → adv + foldr (λ pool s, curSlabsAdvised_ pool + s) 0 pools < 2 ^ 64 →
  ∀ done, restore_pools (length done) objects (done ++ replicate k None) adv m =
    Ok (done ++ (Some <$> (forget_aborted <$> pools)) ++ replicate (k - length pools) None, adv + foldr (λ pool s, curSlabsAdvised_ pool + s) 0 pools).
Proof.
  induction pools as [|pool pools IH]; intros objects k adv H Hk Hpos Ha Hb done; inversion H as [|? o ? objects' E H']; subst; cbn [restore_pools foldr length] in *.
  { cbn. by rewrite Nat.sub_0_r, Z.add_0_r. }
  apply Forall_cons in Hpos as [Hp Hpos]. rewrite E. res_simpl. destruct k as [|k]; [lia|]. cbn [replicate].
  rewrite list_lookup_middle by done. res_simpl. rewrite insert_app_r_alt, Nat.sub_diag by lia. cbn [insert list_insert].
  assert (0 ≤ foldr (λ pool s, curSlabsAdvised_ pool + s) 0 pools) by (clear - Hpos; induction Hpos; cbn; lia).
  rewrite (wrap_small 64) by (unfold fits; cbn [curSlabsAdvised_ forget_aborted]; lia).
  specialize (IH objects' k (adv + curSlabsAdvised_ pool) H' ltac:(lia) Hpos ltac:(lia) ltac:(lia) (done ++ [Some (forget_aborted pool)])).
  rewrite length_app, Nat.add_1_r, <- app_assoc in IH. cbn [app] in IH. cbn [curSlabsAdvised_ forget_aborted].
  change (<[0%nat:=Some (forget_aborted pool)]> (None :: replicate k None)) with (Some (forget_aborted pool) :: replicate k (@None MemoryPool)).
  rewrite IH. rewrite <- app_assoc. cbn. do 2 f_equal. lia.
Qed.

(** The pools of the manager, in order. *)
Lemma pools_list st : msys_wf st → (∀ id ps, pool_sys id st ps → saveable ps) →
  ∃ pools objects, mapM (λ id, pool ← pool_at id (mgr_of st); mp_saveState pool (ms_m st)) (poolIds (mgr_of st)) = Ok objects ∧
    Forall2 (λ pool o, MemoryPool_restore o (ms_m st) = Ok (forget_aborted pool)) pools objects ∧
    Z.of_nat (length pools) = nextPoolId_ (mgr_of st) ∧ (∀ i pool, pools !! i = Some pool → pools_ (mgr_of st) !! i = Some (Some pool)) ∧
    Forall (λ pool, 0 ≤ curSlabsAdvised_ pool) pools ∧
    foldr (λ pool s, curSlabsAdvised_ pool + s) 0 pools = total (advised (mgr_of st)) (poolIds (mgr_of st)).
Proof.
  intros Hwf Hsave. pose proof (mw_next _ Hwf) as [H0 _]. unfold poolIds.
  cut (∀ n, n ≤ nextPoolId_ (mgr_of st) → 0 ≤ n → ∃ pools objects,
    mapM (λ id, pool ← pool_at id (mgr_of st); mp_saveState pool (ms_m st)) (seqZ (nextPoolId_ (mgr_of st) - n) n) = Ok objects ∧
    Forall2 (λ pool o, MemoryPool_restore o (ms_m st) = Ok (forget_aborted pool)) pools objects ∧
    Z.of_nat (length pools) = n ∧
    (∀ i pool, pools !! i = Some pool → pools_ (mgr_of st) !! (Z.to_nat (nextPoolId_ (mgr_of st) - n) + i)%nat = Some (Some pool)) ∧
    Forall (λ pool, 0 ≤ curSlabsAdvised_ pool) pools ∧
    foldr (λ pool s, curSlabsAdvised_ pool + s) 0 pools = total (advised (mgr_of st)) (seqZ (nextPoolId_ (mgr_of st) - n) n)).
  { intros H. specialize (H (nextPoolId_ (mgr_of st)) ltac:(lia) H0). by rewrite Z.sub_diag in H. }
  intros n Hn Hpos. revert Hn. pattern n. apply natlike_ind; [|clear n Hpos; intros n Hpos IH|done]; intros Hn.
  { exists [], []. rewrite seqZ_nil by lia. split_and!; try done; constructor. }
  destruct IH as (pools & objects & E1 & E2 & E3 & E4 & E5 & E6); [lia|]. rewrite seqZ_cons by lia.
  replace (Z.succ (nextPoolId_ (mgr_of st) - Z.succ n)) with (nextPoolId_ (mgr_of st) - n) by lia. rewrite Z.pred_succ.
  set (id := nextPoolId_ (mgr_of st) - Z.succ n) in *.
  destruct (mw_pool _ Hwf (Z.to_nat id)) as (ps & Hps & Hw & _); [lia|]. pose proof Hps as (Hp & Hm & _).
  destruct (mp_restore_aux ps Hw (Hsave _ _ Hps)) as (o & Es & Er). rewrite Hm in Es, Er.
  exists (p_pool ps :: pools), (o :: objects). cbn [mapM foldr total]. rewrite (pool_at_ok id _ _ ltac:(lia) Hp). res_simpl. rewrite Es. res_simpl.
  rewrite E1. res_simpl. split; [done|]. split; [by constructor|]. split; [cbn; lia|]. split; [|split].
  - intros [|i] pool Hi; cbn in Hi; [injection Hi as <-; by rewrite Nat.add_0_r|]. rewrite <- (E4 i pool Hi). f_equal. lia.
  - constructor; [|done]. destruct (Hsave _ _ Hps) as (_ & _ & _ & _ & _ & Hf & _). apply Hf.
  - rewrite E6. f_equal. unfold advised, pool_get. by rewrite Hp.
Qed.

(** In a reachable state in which no release is open, the memory is not owned
    and the counts of advised slabs in the pools add up to what the slab
    allocator has, the pool manager saved and restored over the same memory has
    the same pools (but for their counts of aborted releases), names and next
    id, and wants exactly the advised slabs advised. *)
Theorem mpm_saveState_restore config memStart memSize owns st : allocator_reachable config memStart memSize owns st →
  ownsMemory (m_sa (ms_m st)) = false → (∀ id ps, pool_sys id st ps → saveable ps) →
  total (advised (mgr_of st)) (poolIds (mgr_of st)) = numSlabsReclaimable (m_sa (ms_m st)) →
  numSlabsReclaimable (m_sa (ms_m st)) < 2 ^ 64 →
  ∃ o mgr', mpm_saveState (mgr_of st) (ms_m st) = Ok o ∧ MemoryPoolManager_restore o (ms_m st) = Ok mgr' ∧
    poolsByName_ mgr' = poolsByName_ (mgr_of st) ∧ nextPoolId_ mgr' = nextPoolId_ (mgr_of st) ∧
    numSlabsToAdvise_ mgr' = numSlabsReclaimable (m_sa (ms_m st)) ∧
    ∀ id, getPoolById id mgr' = (pool ← getPoolById id (mgr_of st); Ok (forget_aborted pool)).
Proof.
  intros Hwf%allocator_wf Hown Hsave Hadv Hfit. destruct (pools_list st Hwf Hsave) as (pools & objects & E1 & E2 & E3 & E4 & E5 & E6).
  unfold mpm_saveState. rewrite Hown, E1. res_simpl. eexists _, _. split; [done|].
  unfold MemoryPoolManager_restore. cbn [o_nextPoolId o_pools o_poolsByName default]. rewrite Hown. res_simpl.
  rewrite (bool_decide_false (Some _ = None)) by done. res_simpl. pose proof (mw_next _ Hwf) as Hnext. unfold Manager.kMaxPools in Hnext.
  assert (length objects = length pools) as El by (symmetry; by eapply Forall2_length).
  rewrite (wrap_small 64 (nextPoolId_ _)) by (unfold fits; lia). rewrite El, E3, Z.eqb_refl. cbn [negb]. res_simpl.
  pose proof (restore_pools_spec (ms_m st) pools objects Manager.kMaxPools 0 E2 ltac:(unfold Manager.kMaxPools; lia) E5 ltac:(lia) ltac:(lia) []) as Er.
  cbn [app length] in Er. rewrite Er. res_simpl. rewrite (mw_count _ Hwf), Z.eqb_refl. cbn [negb]. res_simpl.
  rewrite Z.add_0_l, E6, Hadv, Z.eqb_refl. cbn [negb]. res_simpl. split; [done|]. do 3 (split; [done|]).
  intros id. unfold getPoolById. cbn [nextPoolId_]. destruct ((id <? nextPoolId_ (mgr_of st)) && (0 <=? id)) eqn:Eid; [|done].
  apply andb_true_iff in Eid as [Hlt%Z.ltb_lt Hge%Z.leb_le]. destruct (lookup_lt_is_Some_2 pools (Z.to_nat id)) as [pool Hp]; [lia|].
  rewrite (pool_at_ok id _ pool Hge (E4 _ _ Hp)). res_simpl. apply pool_at_ok; [done|]. cbn [pools_].
  rewrite lookup_app_l by (rewrite !length_fmap; lia). by rewrite !list_lookup_fmap, Hp.
Qed.

(** ** A concrete allocator

    Five slabs of memory, the first of which holds the headers. *)
Definition sys_at (id : nat) (st : MSys) : option PSys :=
  match pools_ (mgr_of st) !! id, ms_cls st !! id, ms_drift st !! id with
  | Some (Some pool), Some cls, Some drift => Some (mkPSys pool (ms_m st) cls drift)
  | _, _, _ => None
  end.
Lemma sys_at_spec id st ps : sys_at id st = Some ps ↔ pool_sys id st ps.
Proof.
  unfold sys_at, pool_sys. destruct (pools_ (mgr_of st) !! id) as [[pool|]|], (ms_cls st !! id) as [cls|], (ms_drift st !! id) as [drift|];
    split; intros; naive_solver (destruct ps; cbn in *; simplify_eq; done).
Qed.
Fixpoint sortedb (sizes : list Z) : bool :=
  match sizes with [] => true | x :: sizes => forallb (Z.ltb x) sizes && sortedb sizes end.
Lemma sortedb_sound sizes : sortedb sizes = true → StronglySorted Z.lt sizes.
Proof.
  induction sizes as [|x sizes IH]; cbn; [constructor|]. intros [H1 H2]%andb_true_iff. constructor; [by apply IH|].
  apply Forall_forall. intros y Hy. rewrite forallb_forall in H1. apply Z.ltb_lt, H1. by apply list_elem_of_In.
Qed.
Definition mop_okb (o : mop) (st : MSys) : bool :=
  match o with
  | MAllocate _ size => (0 <=? size) && (size <? 2 ^ 32)
  | MFree id i p => match sys_at id st with Some ps => match p_cls ps !! i with Some k => bool_decide (p ∈ k_live k) | None => false end | None => false end
  | MPool id o =>
      match o with PResize _ | PEnv _ => false | _ => match sys_at (Z.to_nat id) st with Some ps => pop_okb o ps | None => true end end
  | MAddPool _ size sizes _ =>
      (0 <=? size) && (size <? 2 ^ 64) && sortedb (the_sizes sizes st) && (length (the_sizes sizes st) <=? 127)%nat
  | MShrink _ bytes | MGrow _ bytes | MResize _ _ bytes => 0 <=? bytes
  | MUpdateAdvise n => (- 2 ^ 31 <? n) && (n <? 2 ^ 31)
  end.
Lemma mop_okb_sound o st : mop_okb o st = true → mop_ok o st.
Proof.
  destruct o as [id size|id i p|id o|name size sizes ensure|id n|id n|src dest n|n]; cbn -[Z.pow].
  - by intros [?%Z.leb_le ?%Z.ltb_lt]%andb_true_iff.
  - destruct (sys_at id st) as [ps|] eqn:E; [|done]. destruct (p_cls ps !! i) as [k|] eqn:Ek; [|done].
    intros H%bool_decide_eq_true_1. exists ps, k. by apply sys_at_spec in E.
  - assert (match sys_at (Z.to_nat id) st with Some ps => pop_okb o ps | None => true end = true →
      ∀ ps, 0 ≤ id → pool_sys (Z.to_nat id) st ps → pop_ok o ps) as H.
    { intros H ps _ Hps. apply sys_at_spec in Hps. rewrite Hps in H. by apply pop_okb_sound. }
    by destruct o; try apply H.
  - intros [[[?%Z.leb_le ?%Z.ltb_lt]%andb_true_iff Hs%sortedb_sound]%andb_true_iff Hl%Nat.leb_le]%andb_true_iff. done.
  - by intros ?%Z.leb_le.
  - by intros ?%Z.leb_le.
  - by intros ?%Z.leb_le.
  - by intros [?%Z.ltb_lt ?%Z.ltb_lt]%andb_true_iff.
Qed.
Fixpoint m_runb (ops : list mop) (st : MSys) : option MSys :=
  match ops with
  | [] => Some st
  | o :: ops => if mop_okb o st then match mstep o st with Ok (_, st) => m_runb ops st | _ => None end else None
  end.
Lemma m_runb_sound ops : ∀ st st', m_runb ops st = Some st' → rtc m_rel st st'.
Proof.
  induction ops as [|o ops IH]; intros st st'; cbn; [by intros [= <-]|]. destruct (mop_okb o st) eqn:Eo; [|done].
  destruct (mstep o st) as [[ret st1]| |] eqn:E; [|done|done]. intros H%IH. eapply rtc_l; [|done].
  exists o, ret. split; [by apply mop_okb_sound|done].
Qed.

Definition aex_config : Config := mkConfig [1048576; 4194304] false false false.
Definition aex_hdrs : Z → SlabHeader := λ _, mkSlabHeader (-1) (-1) 0 0.
Definition aex_init : MSys := Eval vm_compute in
  match MemoryAllocator_new aex_config kSize (5 * kSize) false aex_hdrs ∅ with
  | Ok (a, m) => mkMSys a m [] []
  | _ => mkMSys (mkMA aex_config MemoryPoolManager_new) pex_mem [] []
  end.
Definition aex_run (ops : list mop) : MSys := default aex_init (m_runb ops aex_init).
Lemma aex_reachable ops : m_runb ops aex_init ≠ None → allocator_reachable aex_config kSize (5 * kSize) false (aex_run ops).
Proof.
  intros H. split; [by vm_compute|]. exists aex_hdrs, ∅, (ms_a aex_init), (ms_m aex_init). split; [vm_compute; reflexivity|].
  unfold aex_run. destruct (m_runb ops aex_init) as [st|] eqn:E; [|done]. by apply (m_runb_sound ops).
Qed.
(** Two pools; allocations in both, one of them freed, a slab of the first
    pool given to the second. *)
Definition aex_ops : list mop :=
  [MAddPool "a" (2 * kSize) [] true; MAddPool "b" kSize [1048576] false; MAllocate 0 1000; MAllocate 0 1048577; MAllocate 1 77;
   MAllocate 1 78; MFree 1 0 (4 * kSize + 1048576); MResize 0 1 kSize].
Definition aex_st : MSys := Eval vm_compute in aex_run aex_ops.
Lemma aex_st_reachable : allocator_reachable aex_config kSize (5 * kSize) false aex_st.
Proof. refine (aex_reachable aex_ops _). by vm_compute. Qed.

Lemma allocator_reachable_safe_witness : m_apart aex_st ∧ reserved (mgr_of aex_st) ≤ capacity (ms_m aex_st) ∧
  ∃ st', mstep (MFree 0 1 (3 * kSize)) aex_st = Ok (None, st') ∧ mop_ok (MFree 0 1 (3 * kSize)) aex_st.
Proof.
  destruct (allocator_reachable_safe aex_config kSize (5 * kSize) false aex_st (MFree 0 1 (3 * kSize)) aex_st_reachable) as (H1 & H2 & H3).
  { apply mop_okb_sound. by vm_compute. }
  split; [done|]. split; [done|]. destruct H3 as [(ret & st' & E & _)|(e & _ & _ & [])]. exists st'. split; [|apply mop_okb_sound; by vm_compute].
  rewrite E. vm_compute in E. injection E as <- _. done.
Defined.
Lemma getAllocInfo_held_witness : getAllocInfo (4 * kSize) (ms_m aex_st) = Ok (mkAllocInfo 1 0 1048576).
Proof.
  destruct (sys_at 1 aex_st) as [ps|] eqn:E; [|by vm_compute in E].
  destruct (ac_ (p_pool ps) !! 0%nat) as [ac|] eqn:Eac; [|vm_compute in E; by simplify_eq].
  destruct (p_cls ps !! 0%nat) as [k|] eqn:Ek; [|vm_compute in E; by simplify_eq].
  destruct (getAllocInfo_held aex_config kSize (5 * kSize) false aex_st 1 ps 0 ac k (4 * kSize) aex_st_reachable) as [H _];
    [by apply sys_at_spec|done|done| |].
  - vm_compute in E. injection E as <-. vm_compute in Ek. injection Ek as <-. by apply (bool_decide_eq_true_1 _); vm_compute.
  - rewrite H. vm_compute in E. injection E as <-. vm_compute in Eac. by injection Eac as <-.
Defined.
Lemma pool_names_witness : getPoolId "b" (ms_a aex_st) = Ok 1 ∧ getPoolName 1 (ms_a aex_st) = Ok "b" ∧ getPoolId "c" (ms_a aex_st) = Ok (-1).
Proof.
  destruct (pool_names aex_config kSize (5 * kSize) false aex_st aex_st_reachable) as (H1 & H2 & _).
  destruct (H1 "b"%string 1) as [E1 E2]; [by vm_compute|]. split; [done|]. split; [done|]. apply H2. by vm_compute.
Defined.
Lemma mpm_saveState_restore_witness : ∃ o mgr', mpm_saveState (mgr_of aex_st) (ms_m aex_st) = Ok o ∧
  MemoryPoolManager_restore o (ms_m aex_st) = Ok mgr' ∧ nextPoolId_ mgr' = 2.
Proof.
  destruct (mpm_saveState_restore aex_config kSize (5 * kSize) false aex_st aex_st_reachable) as (o & mgr' & E1 & E2 & _ & E3 & _);
    [done| |by vm_compute|by vm_compute|by exists o, mgr'].
  intros id ps Hps. destruct (sys_pool _ _ _ (allocator_wf _ _ _ _ _ aex_st_reachable) Hps) as (_ & _ & _ & Hlt).
  change (nextPoolId_ (mgr_of aex_st)) with 2 in Hlt. apply sys_at_spec in Hps. destruct id as [|[|id]]; [| |lia]; vm_compute in Hps; injection Hps as <-.
  - split_and!; try done; cbn; intros k Hk; repeat (apply elem_of_cons in Hk as [->|Hk]; [done|]); by apply elem_of_nil in Hk.
  - split_and!; try done; cbn; intros k Hk; repeat (apply elem_of_cons in Hk as [->|Hk]; [done|]); by apply elem_of_nil in Hk.
Defined.

(** ** Where the allocator does not do what it means to *)

(** [forEachAllocation] walks the indices below [getNumUsableSlabs], which
    leaves out the advised slabs, but the slabs of an allocator are numbered
    with them.  Here all four slabs hold allocations and the first one is
    advised away: the last slab is not visited, and not counted as skipped. *)
Definition aex_advise : list mop :=
  [MAddPool "a" (4 * kSize) [4194304] false; MAllocate 0 4194304; MAllocate 0 4194304; MAllocate 0 4194304; MAllocate 0 4194304;
   MFree 0 0 (2 * kSize); MPool 0 (PStart 0 (-1) kAdvise (Some (2 * kSize)) 0 false true)] ++ replicate 4 (MPool 0 (PStep 0 false true)).
Definition aex_advised : MSys := Eval vm_compute in aex_run aex_advise.
Lemma aex_advised_reachable : allocator_reachable aex_config kSize (5 * kSize) false aex_advised.
Proof. refine (aex_reachable aex_advise _). by vm_compute. Qed.
Lemma forEachAllocation_misses_last_slab :
  ma_forEachAllocation (λ _, true) (λ _ _, true) (ms_a aex_advised) (ms_m aex_advised) = Ok (1, [3 * kSize; 4 * kSize]) ∧
  getAllocInfo (5 * kSize) (ms_m aex_advised) = Ok (mkAllocInfo 0 0 4194304) ∧ held_in aex_advised (5 * kSize).
Proof.
  split; [by vm_compute|]. split; [by vm_compute|]. destruct (sys_at 0 aex_advised) as [ps|] eqn:E; [|by vm_compute in E].
  exists 0%nat, ps. split; [by apply sys_at_spec|]. vm_compute in E. injection E as <-.
  eexists 0%nat, _. split; [reflexivity|]. by apply (bool_decide_eq_true_1 _); vm_compute.
Qed.

(** ** The default size classes: 1.25 is [5 * 2 ^ 50 * 2 ^ -52] *)
Definition default_factor : spec_float := S754_finite false (5 * 2 ^ 50) (-52).
Definition default_sizes : result (gset Z) := generateAllocSizes default_factor kSize 72 false.
Definition size_okb (sizes : gset Z) : bool := forallb (λ size, (kMinAllocSize <=? size) && (size <=? kSize)) (elements sizes).
Lemma default_sizes_ok : ∃ sizes, default_sizes = Ok sizes ∧ sizes_ok (elements sizes) ∧ size sizes = 47%nat ∧
  checkConfig (mkConfig (elements sizes) false false false) = Ok () ∧ 72 ∈ sizes ∧ kSize ∈ sizes.
Proof.
  assert (match default_sizes with
    | Ok s => size_okb s && (size s =? 47)%nat && bool_decide (72 ∈ s) && bool_decide (kSize ∈ s) | _ => false end = true) as H
    by (vm_compute; reflexivity).
  destruct default_sizes as [s| |]; [|done|done]. exists s. split; [done|].
  apply andb_true_iff in H as [[[H1 H2%Nat.eqb_eq]%andb_true_iff H3%bool_decide_eq_true_1]%andb_true_iff H4%bool_decide_eq_true_1].
  split; [split|split; [done|split; [|done]]].
  - intros E. apply elements_empty_inv in E. set_solver.
  - apply Forall_forall. intros x Hx%list_elem_of_In. unfold size_okb in H1. rewrite forallb_forall in H1.
    apply H1, andb_true_iff in Hx as [?%Z.leb_le ?%Z.leb_le]. done.
  - unfold checkConfig. cbn [allocSizes]. change (length (elements s)) with (size s). by rewrite H2.
Qed.
