(* ===== verification/ChainedHashTable.v ===== *)
(** The access container: an intrusive hash table with chaining
    ([allocator/ChainedHashTable.h], [ChainedHashTable-inl.h]).

    A node of the table is an item of the store, with the compressed pointer of
    its hook, its key and its reference-count word ([Refcount]).  A bucket is
    the compressed pointer of its first node.  An operation holds the lock of
    the bucket it works on and is one step; the function that makes a handle
    from a node is a parameter, as it is in the code, with the default one and
    the one of the cache as instances.  [ht_rep] relates a table and a store to
    the chains of its buckets, and through them to a finite map from keys to
    nodes that every operation refines. *)
From S2P Require Import Prelude Refcount SlabAllocator PtrCompressor.

Record HNode := mkHNode {
  hn_next : Z;          (** Hook::next_, compressed *)
  hn_key : list Z;
  hn_ref : Z;
}.
Abbreviation HStore := (gmap Z HNode).
Definition with_next (next : Z) (n : HNode) : HNode := mkHNode next (hn_key n) (hn_ref n).
Definition with_ref (ref : Z) (n : HNode) : HNode := mkHNode (hn_next n) (hn_key n) ref.

(** A handle, to no item, to an item, or to an item that is being moved. *)
Inductive Handle := NullHandle | HandleTo (p : Z) | WaitHandle (p : Z).
#[global] Instance Handle_eq_dec : EqDecision Handle.
Proof. solve_decision. Defined.

(** What the table relies on: making a handle takes a reference at most, and
    an exception has no effect. *)
Class HandleMaker := {
  handleMaker : option Z → HStore → result (Handle * HStore);
  hm_null h : handleMaker None h = Ok (NullHandle, h);
  hm_some p n h : h !! p = Some n → fits 32 (hn_ref n) →
    (∃ handle ref, handleMaker (Some p) h = Ok (handle, <[p := with_ref ref n]> h) ∧ fits 32 ref ∧
       isAccessible ref = isAccessible (hn_ref n)) ∨
    (∃ e, handleMaker (Some p) h = Throw e);
}.

(** [kDefaultHandleMaker] *)
Definition defaultHandleMaker (t : option Z) (h : HStore) : result (Handle * HStore) :=
  match t with
  | None => Ok (NullHandle, h)
  | Some p =>
      n ← deref (h !! p);
      '(_, ref) ← incRef (hn_ref n);
      Ok (HandleTo p, <[p := with_ref ref n]> h)
  end.
(** [CacheAllocator::acquire], when the wait for an item being moved can be
    registered at once. *)
Definition acquire (it : option Z) (h : HStore) : result (Handle * HStore) :=
  match it with
  | None => Ok (NullHandle, h)
  | Some p =>
      n ← deref (h !! p);
      '(incRes, ref) ← incRef (hn_ref n);
      match incRes with
      | kIncOk => Ok (HandleTo p, <[p := with_ref ref n]> h)
      | kIncFailedEviction => Ok (NullHandle, h)
      | kIncFailedMoving => Ok (WaitHandle p, h)
      end
  end.

Record Impl := mkImpl {
  numBuckets_ : Z;
  numBucketsMask_ : Z;
  hashTable_ : list Z;        (** compressed *)
  restorable_ : bool;
}.
Definition with_bucket (b c : Z) (ht : Impl) : Impl :=
  mkImpl (numBuckets_ ht) (numBucketsMask_ ht) (<[Z.to_nat b := c]> (hashTable_ ht)) (restorable_ ht).

Record Config := mkConfig { bucketsPower_ : Z; locksPower_ : Z; hasherMagicId : Z }.
Definition kMaxBucketPower : Z := 32.
Definition kMaxLockPower : Z := 32.
Definition Config_new (bucketsPower locksPower magicId : Z) : result Config :=
  _ ← throw_if ((kMaxBucketPower <? bucketsPower) || (kMaxLockPower <? locksPower) || (bucketsPower <? locksPower)) InvalidArgument;
  Ok (mkConfig bucketsPower locksPower magicId).
Definition getNumBuckets (c : Config) : Z := u64 (Z.shiftl 1 (bucketsPower_ c)).

Record DistributionStats := mkDistributionStats { ds_numKeys : Z; ds_numBuckets : Z; itemDistribution : gmap Z Z }.
Record Container := mkContainer {
  config_ : Config;
  ht_ : Impl;
  numIterators_ : Z;
  numKeys_ : Z;
}.
Definition with_ht (ht : Impl) (c : Container) : Container := mkContainer (config_ c) ht (numIterators_ c) (numKeys_ c).
Definition with_keys (f : Z → Z) (c : Container) : Container := mkContainer (config_ c) (ht_ c) (numIterators_ c) (u64 (f (numKeys_ c))).
Definition with_iterators (f : Z → Z) (c : Container) : Container := mkContainer (config_ c) (ht_ c) (u32 (f (numIterators_ c))) (numKeys_ c).

Record ChainedHashTableObject := mkHTObject { o_bucketsPower : Z; o_locksPower : Z; o_numKeys : Z; o_hasherMagicId : Z }.
Record Iterator := mkIterator { currBucket_ : Z; curSor_ : Z; bucketElems_ : list Handle }.

Section operations.
Context `{PtrCompressor} `{HandleMaker} (hasher : list Z → Z).
Implicit Types (ht : Impl) (h : HStore) (c : Container).

(** ** Hooks *)
Definition getHashNext (node : Z) h : result (option Z) := n ← deref (h !! node); pc_unCompress (hn_next n).
Definition getHashNextCompressed (node : Z) h : result Z := n ← deref (h !! node); Ok (hn_next n).
Definition setHashNextCompressed (node next : Z) h : result HStore :=
  n ← deref (h !! node); Ok (<[node := with_next next n]> h).
Definition setHashNext (node : Z) (next : option Z) h : result HStore :=
  n ← deref (h !! node); next ← pc_compress next; Ok (<[node := with_next next n]> h).
Definition getKey (node : Z) h : result (list Z) := n ← deref (h !! node); Ok (hn_key n).

(** ** Impl *)
Definition Impl_check (numBuckets : Z) : result unit :=
  _ ← throw_if (numBuckets =? 0) InvalidArgument;
  throw_if (to_bool (Z.land numBuckets (numBuckets - 1))) InvalidArgument.
Definition Impl_new (numBuckets : Z) : result Impl :=
  _ ← Impl_check numBuckets;
  null ← pc_compress None;
  Ok (mkImpl numBuckets (u64 (numBuckets - 1)) (replicate (Z.to_nat numBuckets) null) false).
(** Over the user's memory, which holds the pointers [mem]. *)
Definition Impl_user (numBuckets : Z) (mem : list Z) (resetMem : bool) : result Impl :=
  _ ← Impl_check numBuckets;
  null ← pc_compress None;
  Ok (mkImpl numBuckets (u64 (numBuckets - 1)) (if resetMem then replicate (Z.to_nat numBuckets) null else mem) true).
Definition impl_size ht : Z := u64 (numBuckets_ ht * 4).

Definition getBucket (k : list Z) ht : Z := Z.land (hasher k) (numBucketsMask_ ht).
Definition bucket_head (b : Z) ht : result Z :=
  _ ← xdcheck (b <? numBuckets_ ht);
  deref (hashTable_ ht !! Z.to_nat b).

Fixpoint find_loop (fuel : nat) (key : list Z) (curr : option Z) h : result (option Z) :=
  match curr with
  | None => Ok None
  | Some p =>
      k ← getKey p h;
      if decide (k = key) then Ok (Some p)
      else match fuel with O => Undef | S fuel => next ← getHashNext p h; find_loop fuel key next h end
  end.
Definition findInBucket (key : list Z) (bucket : Z) ht h : result (option Z) :=
  head ← bucket_head bucket ht;
  curr ← pc_unCompress head;
  find_loop (size h) key curr h.

(** The node with the key, or the end, and the node before. *)
Fixpoint prev_loop (fuel : nat) (key : list Z) (prev curr : option Z) h : result (option Z * option Z) :=
  match curr with
  | None => Ok (prev, None)
  | Some p =>
      k ← getKey p h;
      if decide (key = k) then Ok (prev, Some p)
      else match fuel with O => Undef | S fuel => next ← getHashNext p h; prev_loop fuel key (Some p) next h end
  end.
Definition findPrevInBucket (node bucket : Z) ht h : result (option Z) :=
  head ← bucket_head bucket ht;
  curr ← pc_unCompress head;
  key ← getKey node h;
  '(prev, curr) ← prev_loop (size h) key None curr h;
  _ ← xdcheck (bool_decide (curr ≠ None));
  Ok prev.

Definition insertInBucket (node bucket : Z) ht h : result (bool * Impl * HStore) :=
  _ ← xdcheck (bucket <? numBuckets_ ht);
  key ← getKey node h;
  existing ← findInBucket key bucket ht h;
  match existing with
  | Some _ => Ok (false, ht, h)
  | None =>
      head ← bucket_head bucket ht;
      cnode ← pc_compress (Some node);
      let ht := with_bucket bucket cnode ht in
      h ← setHashNextCompressed node head h;
      Ok (true, ht, h)
  end.

Definition insertOrReplaceInBucket (node bucket : Z) ht h : result (option Z * Impl * HStore) :=
  head ← bucket_head bucket ht;
  curr ← pc_unCompress head;
  key ← getKey node h;
  '(prev, curr) ← prev_loop (size h) key None curr h;
  match curr with
  | None =>
      head ← bucket_head bucket ht;
      cnode ← pc_compress (Some node);
      let ht := with_bucket bucket cnode ht in
      h ← setHashNextCompressed node head h;
      Ok (None, ht, h)
  | Some old =>
      '(ht, h) ← match prev with
        | Some prev => h ← setHashNext prev (Some node) h; Ok (ht, h)
        | None => cnode ← pc_compress (Some node); Ok (with_bucket bucket cnode ht, h)
        end;
      next ← getHashNext old h;
      h ← setHashNext node next h;
      Ok (Some old, ht, h)
  end.

Definition removeFromBucket (node bucket : Z) ht h : result (Impl * HStore) :=
  key ← getKey node h;
  found ← findInBucket key bucket ht h;
  _ ← xdcheck (bool_decide (found = Some node));
  prev ← findPrevInBucket node bucket ht h;
  match prev with
  | Some prev => next ← getHashNext node h; h ← setHashNext prev next h; Ok (ht, h)
  | None =>
      head ← bucket_head bucket ht;
      first ← pc_unCompress head;
      _ ← xdcheck (bool_decide (first = Some node));
      next ← getHashNextCompressed node h;
      Ok (with_bucket bucket next ht, h)
  end.

(** The nodes of a bucket, in order. *)
Fixpoint elems_loop (fuel : nat) (curr : option Z) h : result (list Z) :=
  match curr with
  | None => Ok []
  | Some p =>
      next ← getHashNext p h;
      match fuel with O => Undef | S fuel => ps ← elems_loop fuel next h; Ok (p :: ps) end
  end.
Definition forEachBucketElem (bucket : Z) ht h : result (list Z) :=
  head ← bucket_head bucket ht; curr ← pc_unCompress head; elems_loop (size h) curr h.
Fixpoint count_loop (fuel : nat) (numElems : Z) (curr : option Z) h : result Z :=
  match curr with
  | None => Ok numElems
  | Some p =>
      next ← getHashNext p h;
      match fuel with O => Undef | S fuel => count_loop fuel (u32 (numElems + 1)) next h end
  end.
Definition getBucketNumElems (bucket : Z) ht h : result Z :=
  head ← bucket_head bucket ht; curr ← pc_unCompress head; count_loop (size h) 0 curr h.

(** ** Container *)
Definition Container_new (config : Config) : result Container :=
  ht ← Impl_new (getNumBuckets config); Ok (mkContainer config ht 0 0).
Definition Container_user (config : Config) (mem : list Z) : result Container :=
  ht ← Impl_user (getNumBuckets config) mem true; Ok (mkContainer config ht 0 0).
Definition Container_restore (o : ChainedHashTableObject) (config : Config) (mem : list Z) (nBytes : Z) : result Container :=
  ht ← Impl_user (getNumBuckets config) mem false;
  _ ← throw_if (negb (bucketsPower_ config =? u32 (o_bucketsPower o))) InvalidArgument;
  _ ← throw_if (negb (nBytes =? impl_size ht)) InvalidArgument;
  _ ← throw_if (negb (o_hasherMagicId o =? 0) && negb (o_hasherMagicId o =? hasherMagicId config)) InvalidArgument;
  Ok (mkContainer config ht 0 (u64 (o_numKeys o))).
Definition ht_saveState c : result ChainedHashTableObject :=
  _ ← throw_if (negb (restorable_ (ht_ c))) LogicError;
  _ ← throw_if (negb (numIterators_ c =? 0)) LogicError;
  Ok (mkHTObject (s32 (bucketsPower_ (config_ c))) (s32 (locksPower_ (config_ c))) (s64 (numKeys_ c)) (hasherMagicId (config_ c))).

Definition nodeIsAccessible (node : Z) h : result bool := n ← deref (h !! node); Ok (isAccessible (hn_ref n)).
Definition nodeMark (f : Z → Z) (node : Z) h : result HStore :=
  n ← deref (h !! node); Ok (<[node := with_ref (f (hn_ref n)) n]> h).

Definition ht_insert (node : Z) c h : result (bool * Container * HStore) :=
  accessible ← nodeIsAccessible node h;
  if (accessible : bool) then Ok (false, c, h)
  else
    key ← getKey node h;
    let bucket := getBucket key (ht_ c) in
    '(res, ht, h) ← insertInBucket node bucket (ht_ c) h;
    let c := with_ht ht c in
    if (res : bool) then h ← nodeMark markAccessible node h; Ok (true, with_keys (λ n, n + 1) c, h)
    else Ok (false, c, h).

(** The handle, or the exception that is passed on after the old node was put
    back. *)
Definition insertOrReplace (node : Z) c h : result ((Handle + exn) * Container * HStore) :=
  accessible ← nodeIsAccessible node h;
  if (accessible : bool) then '(handle, h) ← handleMaker None h; Ok (inl handle, c, h)
  else
    key ← getKey node h;
    let bucket := getBucket key (ht_ c) in
    '(oldNode, ht, h) ← insertOrReplaceInBucket node bucket (ht_ c) h;
    let c := with_ht ht c in
    _ ← xdcheck (bool_decide (Some node ≠ oldNode));
    match handleMaker oldNode h with
    | Throw e =>
        old ← deref oldNode;
        '(_, ht, h) ← insertOrReplaceInBucket old bucket (ht_ c) h;
        found ← findInBucket key bucket ht h;
        _ ← xdcheck (bool_decide (found = Some old));
        Ok (inr e, with_ht ht c, h)
    | Ok (handle, h) =>
        h ← nodeMark markAccessible node h;
        match oldNode with
        | Some old => h ← nodeMark unmarkAccessible old h; Ok (inl handle, c, h)
        | None => Ok (inl handle, with_keys (λ n, n + 1) c, h)
        end
    | Undef => Undef
    end.

Definition replaceIf (oldNode newNode : Z) (predicate : HNode → bool) c h : result (bool * Container * HStore) :=
  key ← getKey newNode h;
  let bucket := getBucket key (ht_ c) in
  old ← deref (h !! oldNode);
  if isAccessible (hn_ref old) && predicate old then
    '(_, ht, h) ← insertOrReplaceInBucket newNode bucket (ht_ c) h;
    h ← nodeMark unmarkAccessible oldNode h;
    h ← nodeMark markAccessible newNode h;
    Ok (true, with_ht ht c, h)
  else Ok (false, c, h).
Definition replaceIfAccessible (oldNode newNode : Z) c h : result (bool * Container * HStore) :=
  replaceIf oldNode newNode (λ _, true) c h.

Definition ht_remove (node : Z) c h : result (bool * Container * HStore) :=
  key ← getKey node h;
  let bucket := getBucket key (ht_ c) in
  accessible ← nodeIsAccessible node h;
  if (accessible : bool) then
    '(ht, h) ← removeFromBucket node bucket (ht_ c) h;
    h ← nodeMark unmarkAccessible node h;
    Ok (true, with_keys (λ n, n - 1) (with_ht ht c), h)
  else Ok (false, c, h).

Definition removeIf (node : Z) (predicate : HNode → bool) c h : result (Handle * Container * HStore) :=
  key ← getKey node h;
  let bucket := getBucket key (ht_ c) in
  n ← deref (h !! node);
  if isAccessible (hn_ref n) && predicate n then
    '(handle, h) ← handleMaker (Some node) h;
    '(ht, h) ← removeFromBucket node bucket (ht_ c) h;
    h ← nodeMark unmarkAccessible node h;
    Ok (handle, with_keys (λ n, n - 1) (with_ht ht c), h)
  else '(handle, h) ← handleMaker None h; Ok (handle, c, h).

Definition ht_find (key : list Z) c h : result (Handle * HStore) :=
  let bucket := getBucket key (ht_ c) in
  node ← findInBucket key bucket (ht_ c) h;
  handleMaker node h.

(** ** Iteration *)
Fixpoint handles_loop (nodes : list Z) h : result (list Handle * HStore) :=
  match nodes with
  | [] => Ok ([], h)
  | e :: nodes =>
      match handleMaker (Some e) h with
      | Ok (handle, h) => '(handles, h) ← handles_loop nodes h; Ok (handle :: handles, h)
      | Throw _ => handles_loop nodes h
      | Undef => Undef
      end
  end.
Definition getBucketElems (bucket : Z) c h : result (list Handle * HStore) :=
  nodes ← forEachBucketElem bucket (ht_ c) h; handles_loop nodes h.

(** The first bucket from [b] on that has elements. *)
Fixpoint advance_loop (fuel : nat) (b : Z) c h : result (Iterator * HStore) :=
  if b <? getNumBuckets (config_ c) then
    match fuel with
    | O => Undef
    | S fuel =>
        '(elems, h) ← getBucketElems b c h;
        match elems with [] => advance_loop fuel (u64 (b + 1)) c h | _ :: _ => Ok (mkIterator b 0 elems, h) end
    end
  else Ok (mkIterator b 0 [], h).
Definition iter_fuel c : nat := Z.to_nat (getNumBuckets (config_ c)).
Definition iter_incr (it : Iterator) c h : result (Iterator * HStore) :=
  let cur := u32 (curSor_ it + 1) in
  if cur <? Z.of_nat (length (bucketElems_ it)) then Ok (mkIterator (currBucket_ it) cur (bucketElems_ it), h)
  else advance_loop (iter_fuel c) (u64 (currBucket_ it + 1)) c h.
Fixpoint reset_loop (fuel : nat) (b : Z) (elems : list Handle) c h : result (Iterator * HStore) :=
  match elems with
  | _ :: _ => Ok (mkIterator b 0 elems, h)
  | [] =>
      let b := u64 (b + 1) in
      if b <? getNumBuckets (config_ c) then
        match fuel with O => Undef | S fuel => '(elems, h) ← getBucketElems b c h; reset_loop fuel b elems c h end
      else Ok (mkIterator b 0 [], h)
  end.
Definition iter_reset c h : result (Iterator * HStore) :=
  '(elems, h) ← getBucketElems 0 c h; reset_loop (iter_fuel c) 0 elems c h.
Definition iter_begin c h : result (Iterator * Container * HStore) :=
  let c := with_iterators (λ n, n + 1) c in
  '(it, h) ← iter_reset c h; Ok (it, c, h).
Definition iter_end c : Iterator * Container :=
  (mkIterator (getNumBuckets (config_ c)) 0 [], with_iterators (λ n, n + 1) c).
Definition iter_destroy c : result Container :=
  _ ← xdcheck (0 <? numIterators_ c); Ok (with_iterators (λ n, n - 1) c).
Definition iter_curr (it : Iterator) : result Handle :=
  match bucketElems_ it !! Z.to_nat (curSor_ it) with Some handle => Ok handle | None => Throw LogicError end.
Definition iter_eq (it it' : Iterator) : bool := (currBucket_ it =? currBucket_ it') && (curSor_ it =? curSor_ it').

(** ** Statistics *)
Fixpoint distribution_loop (buckets : list Z) (distribution : gmap Z Z) ht h : result (gmap Z Z) :=
  match buckets with
  | [] => Ok distribution
  | b :: buckets =>
      n ← getBucketNumElems b ht h;
      distribution_loop buckets (<[n := u64 (default 0 (distribution !! n) + 1)]> distribution) ht h
  end.
Definition computeDistribution c h : result DistributionStats :=
  d ← distribution_loop (seqZ 0 (numBuckets_ (ht_ c))) ∅ (ht_ c) h;
  Ok (mkDistributionStats (numKeys_ c) (numBuckets_ (ht_ c)) d).
End operations.
