(* ===== verification/HashSpec.v ===== *)
(** The hash table refines a finite map from keys to nodes. *)
From S2P Require Import Prelude Refcount SlabAllocator PtrCompressor ChainedHashTable.

Definition has_key (h : HStore) (key : list Z) (p : Z) : Prop := hn_key <$> h !! p = Some key.
#[global] Instance has_key_dec h key p : Decision (has_key h key p).
Proof. unfold has_key. apply _. Defined.

Section chains.
Context `{PtrCompressor}.
Implicit Types (h : HStore).

(** The nodes from a compressed pointer to the end of its chain. *)
Fixpoint chain h (c : Z) (xs : list Z) : Prop :=
  pc_unCompress c = Ok (head xs) ∧
  match xs with
  | [] => True
  | p :: xs => valid_ptr p ∧ ∃ n, h !! p = Some n ∧ chain h (hn_next n) xs
  end.

Lemma chain_head h c xs : chain h c xs → pc_unCompress c = Ok (head xs).
Proof. destruct xs; by intros []. Qed.
Lemma chain_cons h c p n xs : pc_unCompress c = Ok (Some p) → valid_ptr p → h !! p = Some n → chain h (hn_next n) xs → chain h c (p :: xs).
Proof. intros. split; [done|]. split; [done|]. by exists n. Qed.
Lemma chain_ptr h c c' xs : chain h c xs → pc_unCompress c' = Ok (head xs) → chain h c' xs.
Proof. destruct xs; intros [_ Hx] ?; by split. Qed.
Lemma ht_chain_elem h c xs p : chain h c xs → p ∈ xs → valid_ptr p ∧ is_Some (h !! p).
Proof.
  revert c. induction xs as [|q xs IH]; intros c Hc Hp; [by apply elem_of_nil in Hp|].
  destruct Hc as (_ & Hv & n & Hn & Hc). apply elem_of_cons in Hp as [->|Hp]; [done|by eapply IH].
Qed.
Lemma ht_chain_frame h h' c xs : chain h c xs → (∀ p, p ∈ xs → hn_next <$> h' !! p = hn_next <$> h !! p) → chain h' c xs.
Proof.
  revert c. induction xs as [|p xs IH]; intros c Hc Hf; [done|]. destruct Hc as (Hu & Hv & n & Hn & Hc). split; [done|]. split; [done|].
  pose proof (Hf p ltac:(by left)) as Hp. rewrite Hn in Hp. destruct (h' !! p) as [n'|] eqn:E; [|done]. exists n'. split; [done|].
  cbn in Hp. injection Hp as ->. apply IH; [done|]. intros. apply Hf. by right.
Qed.
Lemma chain_insert h c xs p n : chain h c xs → p ∉ xs → chain (<[p := n]> h) c xs.
Proof. intros Hc Hp. eapply ht_chain_frame; [done|]. intros q Hq. rewrite lookup_insert_ne; [done|]. set_solver. Qed.
Lemma chain_compress h c xs : chain h c xs → ∃ c', pc_compress (head xs) = Ok c' ∧ chain h c' xs.
Proof.
  intros Hc. destruct (vptr_roundtrip (head xs)) as (c' & E & _ & Hu); [destruct xs as [|p xs]; [done|apply Hc]|].
  exists c'. split; [done|]. by eapply chain_ptr.
Qed.
(** Redirecting the pointer of a node in the middle. *)
Lemma chain_redirect h c l q r n c' r' : chain h c (l ++ q :: r) → q ∉ l → h !! q = Some n →
  chain (<[q := with_next c' n]> h) c' r' → chain (<[q := with_next c' n]> h) c (l ++ q :: r').
Proof.
  revert c. induction l as [|p l IH]; intros c Hc Hq Hn Hr; cbn [app] in *.
  - destruct Hc as (Hu & Hv & _). eapply chain_cons; [done|done|apply lookup_insert_eq|done].
  - destruct Hc as (Hu & Hv & m & Hm & Hc). apply not_elem_of_cons in Hq as [Hqp Hq].
    eapply chain_cons; [done|done|by rewrite lookup_insert_ne by done|]. by apply IH.
Qed.
Lemma chain_suffix h c l r : chain h c (l ++ r) → ∃ c', chain h c' r.
Proof. revert c. induction l as [|p l IH]; intros c Hc; [by exists c|]. destruct Hc as (_ & _ & n & _ & Hc). by eapply IH. Qed.
Lemma chain_next h c l p r n : chain h c (l ++ p :: r) → h !! p = Some n → chain h (hn_next n) r.
Proof.
  intros Hc Hn. destruct (chain_suffix _ _ _ _ Hc) as (c' & _ & _ & m & Hm & Hr). by simplify_eq.
Qed.

(** A node in place of the one after [q]. *)
Lemma chain_swap h c l q old r node n nq cn y : chain h c (l ++ q :: old :: r) → NoDup (l ++ q :: old :: r) → node ∉ l ++ q :: old :: r →
  h !! q = Some nq → h !! node = Some n → valid_ptr node → pc_unCompress cn = Ok (Some node) → chain h y r →
  chain (<[node := with_next y n]> (<[q := with_next cn nq]> h)) c (l ++ q :: node :: r).
Proof.
  intros Hc Hnd Hnl Hq Hn Hv Eu Hr. assert (q ≠ node) as Hqn by set_solver.
  assert (q ∉ l ∧ q ∉ r) as [Hql Hqr].
  { apply NoDup_app in Hnd as (_ & Hlr & [Hqr _]%NoDup_cons). split; [|set_solver]. intros Hq'. apply (Hlr q); set_solver. }
  rewrite insert_insert_ne by done.
  eapply (chain_redirect (<[node := with_next y n]> h) c l q (old :: r) nq cn (node :: r)); [|done|by rewrite lookup_insert_ne|].
  - by apply chain_insert.
  - eapply chain_cons; [done|done|rewrite lookup_insert_ne by done; apply lookup_insert_eq|]. cbn.
    apply chain_insert; [|done]. apply chain_insert; [done|set_solver].
Qed.

(** ** The loops *)
Lemma find_loop_prev key h fuel : ∀ prev curr, find_loop fuel key curr h = snd <$> prev_loop fuel key prev curr h.
Proof.
  induction fuel as [|fuel IH]; intros prev [p|]; cbn; try done; destruct (getKey p h) as [k| |]; res_simpl; try done;
    destruct (decide (k = key)), (decide (key = k)); try congruence; try done.
  destruct (getHashNext p h) as [next| |]; res_simpl; auto.
Qed.
Lemma prev_loop_step key h fuel prev p n : h !! p = Some n →
  prev_loop (S fuel) key prev (Some p) h =
    if decide (has_key h key p) then Ok (prev, Some p) else next ← pc_unCompress (hn_next n); prev_loop fuel key (Some p) next h.
Proof.
  intros Hn. cbn [prev_loop]. unfold getKey, getHashNext. rewrite Hn. res_simpl.
  assert (has_key h key p ↔ hn_key n = key) by (unfold has_key; rewrite Hn; cbn; naive_solver).
  destruct (decide (key = hn_key n)), (decide (has_key h key p)); naive_solver.
Qed.
Lemma prev_loop_found key h p r : has_key h key p → ∀ l c fuel prev, chain h c (l ++ p :: r) → Forall (λ q, ¬ has_key h key q) l →
  (length l < fuel)%nat → prev_loop fuel key prev (head (l ++ p :: r)) h = Ok (match last l with Some q => Some q | None => prev end, Some p).
Proof.
  intros Hp. induction l as [|q l IH]; intros c [|fuel] prev Hc Hl Hf; cbn [length] in Hf; try lia; destruct Hc as (_ & _ & n & Hn & Hc); cbn [head hd_error app];
    rewrite (prev_loop_step _ _ _ _ _ _ Hn).
  - by rewrite decide_True.
  - apply Forall_cons in Hl as [Hq Hl]. rewrite decide_False by done. cbn [app] in Hc. rewrite (chain_head _ _ _ Hc). res_simpl.
    rewrite (IH _ _ _ Hc Hl) by lia. rewrite last_cons. by destruct (last l).
Qed.
Lemma prev_loop_absent key h : ∀ l c fuel prev, chain h c l → Forall (λ q, ¬ has_key h key q) l →
  (length l ≤ fuel)%nat → ∃ prev', prev_loop fuel key prev (head l) h = Ok (prev', None).
Proof.
  induction l as [|q l IH]; intros c fuel prev Hc Hl Hf.
  { exists prev. by destruct fuel. }
  destruct fuel as [|fuel]; cbn [length] in Hf; [lia|]. destruct Hc as (_ & _ & n & Hn & Hc). cbn [head hd_error].
  rewrite (prev_loop_step _ _ _ _ _ _ Hn). apply Forall_cons in Hl as [Hq Hl]. rewrite decide_False by done.
  rewrite (chain_head _ _ _ Hc). res_simpl. apply (IH _ _ _ Hc Hl). lia.
Qed.
Lemma elems_loop_spec h : ∀ l c fuel, chain h c l → (length l ≤ fuel)%nat → elems_loop fuel (head l) h = Ok l.
Proof.
  induction l as [|q l IH]; intros c fuel Hc Hf; [by destruct fuel|]. destruct fuel as [|fuel]; cbn [length] in Hf; [lia|].
  destruct Hc as (_ & _ & n & Hn & Hc). cbn [head hd_error elems_loop]. unfold getHashNext. rewrite Hn. res_simpl.
  rewrite (chain_head _ _ _ Hc). res_simpl. by rewrite (IH _ _ Hc) by lia.
Qed.
Lemma count_loop_spec h : ∀ l c fuel k, chain h c l → (length l ≤ fuel)%nat → 0 ≤ k → k + Z.of_nat (length l) < 2 ^ 32 →
  count_loop fuel k (head l) h = Ok (k + Z.of_nat (length l)).
Proof.
  induction l as [|q l IH]; intros c fuel k Hc Hf Hk Hl; [destruct fuel; cbn; f_equal; lia|]. destruct fuel as [|fuel]; cbn [length] in *; [lia|].
  destruct Hc as (_ & _ & n & Hn & Hc). cbn [head hd_error count_loop]. unfold getHashNext. rewrite Hn. res_simpl.
  rewrite (chain_head _ _ _ Hc). res_simpl. rewrite wrap_small by (unfold fits; lia). rewrite (IH _ _ _ Hc) by lia. f_equal. lia.
Qed.

(** Distinct keys keep the nodes of a chain distinct, and few. *)
Lemma ht_chain_length h c xs : chain h c xs → NoDup xs → (length xs ≤ size h)%nat.
Proof.
  intros Hc Hnd. rewrite <- (size_list_to_set (C := gset Z)) by done. rewrite <- (size_dom (D := gset Z)). apply subseteq_size.
  intros p Hp%elem_of_list_to_set. apply elem_of_dom. by eapply ht_chain_elem.
Qed.
End chains.

Definition same_keys (h h' : HStore) : Prop := ∀ p, hn_key <$> h' !! p = hn_key <$> h !! p.
Lemma same_has_key h h' k p : same_keys h h' → has_key h' k p ↔ has_key h k p.
Proof. intros Hk. unfold has_key. by rewrite Hk. Qed.
Lemma same_keys_refl h : same_keys h h.
Proof. by intros p. Qed.
Lemma same_keys_trans h1 h2 h3 : same_keys h1 h2 → same_keys h2 h3 → same_keys h1 h3.
Proof. intros H1 H2 p. by rewrite H2, H1. Qed.
Lemma same_keys_insert h p n n' : h !! p = Some n → hn_key n' = hn_key n → same_keys h (<[p := n']> h).
Proof.
  intros Hn Hk q. destruct (decide (q = p)) as [->|]; [rewrite lookup_insert_eq, Hn; cbn; by rewrite Hk|by rewrite lookup_insert_ne].
Qed.
Lemma has_key_node h p n k : h !! p = Some n → has_key h k p ↔ hn_key n = k.
Proof. intros Hn. unfold has_key. rewrite Hn. cbn. naive_solver. Qed.

(** A list either has no node with the key or splits at the first one. *)
Lemma split_key h k xs : Forall (λ q, ¬ has_key h k q) xs ∨
  ∃ l p r, xs = l ++ p :: r ∧ has_key h k p ∧ Forall (λ q, ¬ has_key h k q) l.
Proof.
  induction xs as [|p xs IH]; [by left; constructor|]. destruct (decide (has_key h k p)) as [Hp|Hp].
  - right. exists [], p, xs. by split_and!; [| |constructor].
  - destruct IH as [IH|(l & q & r & -> & Hq & Hl)]; [left; by constructor|right]. exists (p :: l), q, r. split_and!; [done..|by constructor].
Qed.

Section tables.
Context `{PtrCompressor} `{HandleMaker} (hasher : list Z → Z).
Implicit Types (ht : Impl) (h : HStore) (B : Z → list Z) (M : gmap (list Z) Z) (c : Container).

Abbreviation bucket k ht := (getBucket hasher k ht).
Definition upd B (b : Z) (xs : list Z) : Z → list Z := λ b', if decide (b' = b) then xs else B b'.
Lemma ht_upd_eq B b xs : upd B b xs b = xs.
Proof. unfold upd. by rewrite decide_True. Qed.
Lemma ht_upd_ne B b xs b' : b' ≠ b → upd B b xs b' = B b'.
Proof. intros. unfold upd. by rewrite decide_False. Qed.

Definition in_range ht (b : Z) : Prop := 0 ≤ b < numBuckets_ ht.
Record ht_rep ht h B : Prop := {
  r_num : ∃ e, 0 ≤ e ≤ 32 ∧ numBuckets_ ht = 2 ^ e;
  r_mask : numBucketsMask_ ht = numBuckets_ ht - 1;
  r_len : Z.of_nat (length (hashTable_ ht)) = numBuckets_ ht;
  r_chain b : in_range ht b → ∃ x, hashTable_ ht !! Z.to_nat b = Some x ∧ chain h x (B b);
  r_home b p k : in_range ht b → p ∈ B b → has_key h k p → bucket k ht = b;
  r_unique b p q k : in_range ht b → p ∈ B b → q ∈ B b → has_key h k p → has_key h k q → p = q;
  r_nodup b : in_range ht b → NoDup (B b);
}.

Lemma bucket_range ht h B k : ht_rep ht h B → in_range ht (bucket k ht).
Proof.
  intros Hr. destruct (r_num _ _ _ Hr) as (e & He & En). unfold in_range, getBucket. rewrite (r_mask _ _ _ Hr), En, land_ones_mod by lia.
  apply Z.mod_pos_bound. lia.
Qed.
Lemma rep_elem ht h B b p : ht_rep ht h B → in_range ht b → p ∈ B b → valid_ptr p ∧ ∃ n, h !! p = Some n ∧ bucket (hn_key n) ht = b.
Proof.
  intros Hr Hb Hp. destruct (r_chain _ _ _ Hr b Hb) as (x & _ & Hc). destruct (ht_chain_elem _ _ _ _ Hc Hp) as [Hv [n Hn]].
  split; [done|]. exists n. split; [done|]. apply (r_home _ _ _ Hr b p); [done|done|by apply (has_key_node _ _ n)].
Qed.
Lemma rep_apart ht h B b b' p : ht_rep ht h B → in_range ht b → in_range ht b' → p ∈ B b → p ∈ B b' → b = b'.
Proof.
  intros Hr Hb Hb' Hp Hp'. destruct (rep_elem _ _ _ _ _ Hr Hb Hp) as (_ & n & Hn & <-).
  destruct (rep_elem _ _ _ _ _ Hr Hb' Hp') as (_ & n' & Hn' & <-). by simplify_eq.
Qed.
Lemma head_ok ht h B b : ht_rep ht h B → in_range ht b → ∃ x, bucket_head b ht = Ok x ∧ chain h x (B b) ∧ hashTable_ ht !! Z.to_nat b = Some x.
Proof.
  intros Hr Hb. destruct (r_chain _ _ _ Hr b Hb) as (x & Hx & Hc). exists x. unfold bucket_head. rewrite (proj2 (Z.ltb_lt _ _)) by apply Hb.
  res_simpl. by rewrite Hx.
Qed.
Lemma rep_fuel ht h B b x : ht_rep ht h B → in_range ht b → chain h x (B b) → (length (B b) ≤ size h)%nat.
Proof. intros Hr Hb Hc. eapply ht_chain_length; [done|]. by apply Hr. Qed.

(** Changing one bucket. *)
Lemma rep_update ht h B h' b x xs : ht_rep ht h B → in_range ht b → same_keys h h' → chain h' x xs → NoDup xs →
  (∀ b' p, in_range ht b' → b' ≠ b → p ∈ B b' → hn_next <$> h' !! p = hn_next <$> h !! p) →
  (∀ p k, p ∈ xs → has_key h k p → bucket k ht = b) →
  (∀ p q k, p ∈ xs → q ∈ xs → has_key h k p → has_key h k q → p = q) →
  ht_rep (with_bucket b x ht) h' (upd B b xs).
Proof.
  intros Hr Hb Hk Hc Hnd Hf Hh Hu. split; cbn; [apply Hr|apply Hr|rewrite length_insert; apply Hr|..]; unfold in_range; cbn; fold (in_range ht).
  - intros b' Hb'. destruct (decide (b' = b)) as [->|Hne].
    + exists x. rewrite ht_upd_eq, list_lookup_insert_eq; [done|]. pose proof (r_len _ _ _ Hr). unfold in_range in Hb. lia.
    + destruct (r_chain _ _ _ Hr b' Hb') as (y & Hy & Hcy). exists y. unfold in_range in *. rewrite ht_upd_ne, list_lookup_insert_ne by (done || lia).
      split; [done|]. eapply ht_chain_frame; [done|]. intros p Hp. by apply (Hf b').
  - intros b' p k Hb' Hp Hpk. rewrite (same_has_key _ _ _ _ Hk) in Hpk. change (bucket k (with_bucket b x ht)) with (bucket k ht).
    destruct (decide (b' = b)) as [->|Hne]; [rewrite ht_upd_eq in Hp; by eapply Hh|rewrite ht_upd_ne in Hp by done; by eapply (r_home _ _ _ Hr)].
  - intros b' p q k Hb' Hp Hq Hpk Hqk. apply (same_has_key _ _ _ _ Hk) in Hpk. apply (same_has_key _ _ _ _ Hk) in Hqk.
    destruct (decide (b' = b)) as [->|Hne]; [rewrite ht_upd_eq in Hp, Hq; by eapply Hu|rewrite ht_upd_ne in Hp, Hq by done; by eapply (r_unique _ _ _ Hr b')].
  - intros b' Hb'. destruct (decide (b' = b)) as [->|Hne]; [by rewrite ht_upd_eq|rewrite ht_upd_ne by done; by apply Hr].
Qed.

(** ** Finding *)
Definition entry ht h B (k : list Z) (p : Z) : Prop := p ∈ B (bucket k ht) ∧ has_key h k p.
Lemma entry_unique ht h B k p q : ht_rep ht h B → entry ht h B k p → entry ht h B k q → p = q.
Proof. intros Hr [Hp Hpk] [Hq Hqk]. by eapply (r_unique _ _ _ Hr); [eapply bucket_range| | | |]. Qed.
Lemma bucket_cases ht h B k : ht_rep ht h B →
  (Forall (λ q, ¬ has_key h k q) (B (bucket k ht)) ∧ ∀ p, ¬ entry ht h B k p) ∨
  ∃ l p r, B (bucket k ht) = l ++ p :: r ∧ Forall (λ q, ¬ has_key h k q) l ∧ entry ht h B k p.
Proof.
  intros Hr. destruct (split_key h k (B (bucket k ht))) as [Ha|(l & p & r & E & Hp & Hl)].
  - left. split; [done|]. intros p [Hp Hk]. rewrite Forall_forall in Ha. by apply (Ha p).
  - right. exists l, p, r. split; [done|]. split; [done|]. split; [rewrite E; set_solver|done].
Qed.
Lemma prev_absent ht h B k x : ht_rep ht h B → chain h x (B (bucket k ht)) → Forall (λ q, ¬ has_key h k q) (B (bucket k ht)) →
  ∃ prev, prev_loop (size h) k None (head (B (bucket k ht))) h = Ok (prev, None).
Proof. intros Hr Hc Ha. eapply prev_loop_absent; [done|done|]. eapply rep_fuel; [done|by eapply bucket_range|done]. Qed.
Lemma prev_found ht h B k x l p r : ht_rep ht h B → chain h x (B (bucket k ht)) → B (bucket k ht) = l ++ p :: r →
  Forall (λ q, ¬ has_key h k q) l → has_key h k p →
  prev_loop (size h) k None (head (B (bucket k ht))) h = Ok (last l, Some p).
Proof.
  intros Hr Hc E Hl Hp. pose proof (rep_fuel _ _ _ _ _ Hr (bucket_range _ _ _ k Hr) Hc) as Hf. rewrite E in *.
  rewrite length_app in Hf. cbn in Hf. rewrite (prev_loop_found k h p r Hp l x (size h) None) by (done || lia). by destruct (last l).
Qed.
Lemma findInBucket_spec ht h B k : ht_rep ht h B →
  (∀ p, entry ht h B k p → findInBucket k (bucket k ht) ht h = Ok (Some p)) ∧
  ((∀ p, ¬ entry ht h B k p) → findInBucket k (bucket k ht) ht h = Ok None).
Proof.
  intros Hr. destruct (head_ok ht h B _ Hr (bucket_range _ _ _ k Hr)) as (x & Ex & Hc & _).
  unfold findInBucket. rewrite Ex. res_simpl. rewrite (chain_head _ _ _ Hc). res_simpl. rewrite (find_loop_prev _ _ _ None).
  destruct (bucket_cases ht h B k Hr) as [[Ha Hn]|(l & p & r & E & Hl & Hp)].
  - destruct (prev_absent _ _ _ _ _ Hr Hc Ha) as (prev & ->). split; [|done]. by intros p ?%Hn.
  - rewrite (prev_found _ _ _ _ _ _ _ _ Hr Hc E Hl (proj2 Hp)). split; [|intros Hno; by destruct (Hno p)].
    intros q Hq. by rewrite (entry_unique _ _ _ _ _ _ Hr Hq Hp).
Qed.

(** ** Changing a bucket *)
Lemma with_bucket_same b x ht : hashTable_ ht !! Z.to_nat b = Some x → with_bucket b x ht = ht.
Proof. intros Hx. unfold with_bucket. rewrite list_insert_id by done. by destruct ht. Qed.
Lemma rep_next ht h B p n y : ht_rep ht h B → h !! p = Some n → (∀ b, in_range ht b → p ∉ B b) → ht_rep ht (<[p := with_next y n]> h) B.
Proof.
  intros Hr Hn Hp. assert (same_keys h (<[p := with_next y n]> h)) as Hk by by eapply same_keys_insert.
  split; try apply Hr.
  - intros b Hb. destruct (r_chain _ _ _ Hr b Hb) as (x & Hx & Hc). exists x. split; [done|]. apply chain_insert; [done|by apply Hp].
  - intros b q k Hb Hq Hqk. apply (same_has_key _ _ _ _ Hk) in Hqk. by eapply (r_home _ _ _ Hr).
  - intros b q q' k Hb Hq Hq' Hqk Hqk'. apply (same_has_key _ _ _ _ Hk) in Hqk. apply (same_has_key _ _ _ _ Hk) in Hqk'. by eapply (r_unique _ _ _ Hr).
Qed.

(** A new node at the head of its bucket. *)
Lemma link_head ht h B node n x cnode : ht_rep ht h B → h !! node = Some n → valid_ptr node → (∀ b, in_range ht b → node ∉ B b) →
  (∀ p, ¬ entry ht h B (hn_key n) p) → chain h x (B (bucket (hn_key n) ht)) → pc_unCompress cnode = Ok (Some node) →
  ht_rep (with_bucket (bucket (hn_key n) ht) cnode ht) (<[node := with_next x n]> h) (upd B (bucket (hn_key n) ht) (node :: B (bucket (hn_key n) ht))).
Proof.
  intros Hr Hn Hv Hout Hnone Hc Eu. pose proof (bucket_range _ _ _ (hn_key n) Hr) as Hb. set (b := bucket (hn_key n) ht) in *.
  assert (∀ k, has_key h k node → k = hn_key n) as Hkn by (intros k Hk; by apply (has_key_node _ _ _ _ Hn) in Hk).
  eapply rep_update; [done|done|by eapply same_keys_insert|..].
  - eapply chain_cons; [done|done|apply lookup_insert_eq|]. cbn. apply chain_insert; [done|by apply Hout].
  - constructor; [by apply Hout|by apply Hr].
  - intros b' p Hb' Hne Hp. rewrite lookup_insert_ne; [done|]. intros <-. by apply (Hout b').
  - intros p k [->|Hp]%elem_of_cons Hk; [by rewrite (Hkn k Hk)|by eapply (r_home _ _ _ Hr)].
  - intros p q k [->|Hp]%elem_of_cons [->|Hq]%elem_of_cons Hpk Hqk; [done|exfalso..|by eapply (r_unique _ _ _ Hr b)].
    + rewrite (Hkn k Hpk) in Hqk. by apply (Hnone q).
    + rewrite (Hkn k Hqk) in Hpk. by apply (Hnone p).
Qed.
(** A node in place of the one with its key. *)
Lemma last_snoc_inv {A} (l : list A) : l = [] ∨ ∃ l' q, l = l' ++ [q] ∧ last l = Some q.
Proof. destruct l as [|x l] using rev_ind; [by left|right]. exists l, x. by rewrite last_snoc. Qed.
Lemma keep_unique ht h B b p q k r l : ht_rep ht h B → in_range ht b → B b = l ++ r → p ∈ l ++ r → q ∈ l ++ r → has_key h k p → has_key h k q → p = q.
Proof. intros Hr Hb E. rewrite <- E. by apply (r_unique _ _ _ Hr b). Qed.
Lemma swap_rep ht h B b l old r node n x h' : ht_rep ht h B → in_range ht b → B b = l ++ old :: r → h !! node = Some n → bucket (hn_key n) ht = b →
  has_key h (hn_key n) old → (∀ b, in_range ht b → node ∉ B b) → same_keys h h' → chain h' x (l ++ node :: r) →
  (∀ b' p, in_range ht b' → b' ≠ b → p ∈ B b' → hn_next <$> h' !! p = hn_next <$> h !! p) →
  ht_rep (with_bucket b x ht) h' (upd B b (l ++ node :: r)).
Proof.
  intros Hr Hb E Hn Hbn Hold Hout Hk Hc Hf. pose proof (r_nodup _ _ _ Hr b Hb) as Hnd. pose proof (Hout b Hb) as Hnb. rewrite E in Hnd, Hnb.
  apply NoDup_app in Hnd as (Hl & Hlr & Hr'). apply NoDup_cons in Hr' as [Hor Hr'].
  assert (∀ q, q ∈ l ++ node :: r → q = node ∨ (q ∈ B b ∧ q ≠ old)) as Hin.
  { rewrite E. intros q [Hq|[->|Hq]%elem_of_cons]%elem_of_app; [right|by left|right]; (split; [set_solver|]); intros ->; [apply (Hlr old); set_solver|done]. }
  assert (∀ k, has_key h k node → k = hn_key n) as Hkn by (intros k Hk'; by apply (has_key_node _ _ _ _ Hn) in Hk').
  assert (∀ q, q ∈ B b → q ≠ old → ¬ has_key h (hn_key n) q) as Hother.
  { intros q Hq Hne Hqk. apply Hne. eapply (r_unique _ _ _ Hr b); [done|done| |done|done]. rewrite E. set_solver. }
  eapply rep_update; [done|done|done|done|..].
  - apply NoDup_app. split; [done|]. split; [|apply NoDup_cons; split; [set_solver|done]]. intros q Hq [->|Hq']%elem_of_cons; [set_solver|].
    apply (Hlr q); [done|]. set_solver.
  - done.
  - intros q k [->|[Hq _]]%Hin Hqk; [by rewrite (Hkn k Hqk)|by eapply (r_home _ _ _ Hr)].
  - intros q q' k [->|[Hq Hne]]%Hin [->|[Hq' Hne']]%Hin Hqk Hqk'; [done|exfalso..|by eapply (r_unique _ _ _ Hr b)].
    + rewrite (Hkn k Hqk) in Hqk'. by apply (Hother q').
    + rewrite (Hkn k Hqk') in Hqk. by apply (Hother q).
Qed.

(** Only hooks change. *)
Definition links_only h h' : Prop := ∀ p, (λ n, (hn_key n, hn_ref n)) <$> h' !! p = (λ n, (hn_key n, hn_ref n)) <$> h !! p.
Lemma links_only_refl h : links_only h h.
Proof. by intros p. Qed.
Lemma links_only_trans h1 h2 h3 : links_only h1 h2 → links_only h2 h3 → links_only h1 h3.
Proof. intros H1 H2 p. by rewrite H2, H1. Qed.
Lemma links_only_insert h p n y : h !! p = Some n → links_only h (<[p := with_next y n]> h).
Proof. intros Hn q. destruct (decide (q = p)) as [->|]; [by rewrite lookup_insert_eq, Hn|by rewrite lookup_insert_ne]. Qed.
Lemma links_only_keys h h' : links_only h h' → same_keys h h'.
Proof. intros Hl p. specialize (Hl p). destruct (h' !! p), (h !! p); cbn in *; congruence. Qed.
Lemma links_only_lookup h h' p n : links_only h h' → h !! p = Some n → ∃ y, h' !! p = Some (with_next y n).
Proof.
  intros Hl Hn. specialize (Hl p). rewrite Hn in Hl. destruct (h' !! p) as [n'|] eqn:E; [|done]. exists (hn_next n').
  cbn in Hl. injection Hl as E1 E2. destruct n'. unfold with_next. cbn in *. by subst.
Qed.
Definition same_shape ht ht' : Prop :=
  numBuckets_ ht' = numBuckets_ ht ∧ numBucketsMask_ ht' = numBucketsMask_ ht ∧ restorable_ ht' = restorable_ ht.
Lemma shape_bucket k ht ht' : same_shape ht ht' → bucket k ht' = bucket k ht.
Proof. intros (_ & E & _). unfold getBucket. by rewrite E. Qed.

(** The nodes of the buckets with [add] linked and [del] unlinked. *)
Definition relinked ht B B' (b : Z) (add del : option Z) : Prop := ∀ b' q, in_range ht b' →
  q ∈ B' b' ↔ Some q = add ∧ b' = b ∨ q ∈ B b' ∧ Some q ≠ del.

Lemma relinked_head ht B b node : relinked ht B (upd B b (node :: B b)) b (Some node) None.
Proof.
  intros b' q Hb'. unfold upd. destruct (decide (b' = b)) as [->|Hne]; [rewrite elem_of_cons|]; naive_solver.
Qed.
Lemma insertInBucket_spec ht h B node n : ht_rep ht h B → h !! node = Some n → valid_ptr node → (∀ b, in_range ht b → node ∉ B b) →
  let k := hn_key n in let b := bucket k ht in
  (∀ p, entry ht h B k p → insertInBucket node b ht h = Ok (false, ht, h)) ∧
  ((∀ p, ¬ entry ht h B k p) → ∃ ht' x B', insertInBucket node b ht h = Ok (true, ht', <[node := with_next x n]> h) ∧
     same_shape ht ht' ∧ ht_rep ht' (<[node := with_next x n]> h) B' ∧ relinked ht B B' b (Some node) None).
Proof.
  intros Hr Hn Hv Hout k b. pose proof (bucket_range _ _ _ k Hr) as Hb. destruct (findInBucket_spec ht h B k Hr) as [Hf Hnf].
  unfold insertInBucket. fold b in Hb, Hf, Hnf. rewrite (proj2 (Z.ltb_lt _ _)) by apply Hb. unfold getKey. rewrite Hn. res_simpl. fold k. split.
  - intros p Hp. by rewrite (Hf p Hp).
  - intros Hno. rewrite (Hnf Hno). res_simpl. destruct (head_ok ht h B b Hr Hb) as (x & -> & Hc & _). res_simpl.
    destruct (pc_roundtrip node Hv) as (cn & -> & _ & Eu). res_simpl. unfold setHashNextCompressed. rewrite Hn. res_simpl.
    exists (with_bucket b cn ht), x, (upd B b (node :: B b)). do 2 (split; [done|]). split; [by apply link_head|apply relinked_head].
Qed.

Lemma insertOrReplaceInBucket_spec ht h B node n : ht_rep ht h B → h !! node = Some n → valid_ptr node → (∀ b, in_range ht b → node ∉ B b) →
  let k := hn_key n in let b := bucket k ht in
  ∃ old ht' h' B', insertOrReplaceInBucket node b ht h = Ok (old, ht', h') ∧ links_only h h' ∧ same_shape ht ht' ∧ ht_rep ht' h' B' ∧
    relinked ht B B' b (Some node) old ∧ match old with Some p => entry ht h B k p | None => ∀ p, ¬ entry ht h B k p end.
Proof.
  intros Hr Hn Hv Hout k b. pose proof (bucket_range _ _ _ k Hr) as Hb. fold b in Hb. destruct (head_ok ht h B b Hr Hb) as (x & Ex & Hc & Hx).
  unfold insertOrReplaceInBucket. rewrite Ex. res_simpl. rewrite (chain_head _ _ _ Hc). res_simpl. unfold getKey. rewrite Hn. res_simpl. fold k.
  destruct (pc_roundtrip node Hv) as (cn & Ecn & _ & Eu). pose proof (bucket_cases ht h B k Hr) as Hbc. fold b in Hbc.
  destruct Hbc as [[Ha Hnone]|(l & old & r & E & Hl & Hold)].
  - destruct (prev_absent _ _ _ k _ Hr Hc Ha) as (prev & Ep). fold b in Ep. rewrite Ep. res_simpl. rewrite Ecn. res_simpl.
    unfold setHashNextCompressed. rewrite Hn. res_simpl. eexists None, _, _, _. split; [done|]. split; [by apply links_only_insert|]. split; [done|].
    split; [by apply link_head|]. split; [apply relinked_head|done].
  - pose proof (prev_found _ _ _ k _ _ _ _ Hr Hc E Hl (proj2 Hold)) as Ep. fold b in Ep. rewrite Ep. res_simpl.
    assert (node ≠ old) as Hne. { intros ->. apply (Hout b Hb). apply Hold. }
    assert (in_range ht b → node ∉ l ++ old :: r) as Hnl by (rewrite <- E; auto). specialize (Hnl Hb).
    pose proof (r_nodup _ _ _ Hr b Hb) as Hnd. rewrite E in Hnd, Hc.
    destruct (ht_chain_elem _ _ _ old Hc) as [_ [no Hno]]; [set_solver|].
    pose proof (chain_next _ _ _ _ _ _ Hc Hno) as Hcr. destruct (chain_compress _ _ _ Hcr) as (y & Ey & Hcy).
    assert (∀ B', B' = upd B b (l ++ node :: r) → relinked ht B B' b (Some node) (Some old)) as Hrel.
    { intros B' ->. intros b' q Hb'. unfold upd. destruct (decide (b' = b)) as [->|Hnb].
      - rewrite E, !elem_of_app, !elem_of_cons. apply NoDup_app in Hnd as (_ & Hlr & [Hor _]%NoDup_cons).
        destruct (decide (q = old)) as [->|]; [|naive_solver]. split; [|naive_solver]. intros [Hq|[->|Hq]]; [exfalso; apply (Hlr old); set_solver|done|done].
      - split; [|naive_solver]. intros Hq. right. split; [done|]. intros [= ->]. apply Hnb. eapply rep_apart; [done|done|done|done|apply Hold]. }
    destruct (last_snoc_inv l) as [->|(l' & q & -> & Eq)].
    + cbn [last]. rewrite Ecn. res_simpl. unfold getHashNext, setHashNext. rewrite Hno. res_simpl. rewrite (chain_head _ _ _ Hcr). res_simpl.
      rewrite Hn. res_simpl. rewrite Ey. res_simpl. eexists _, _, _, _. split; [done|]. split; [by apply links_only_insert|]. split; [done|].
      split; [|split; [by apply Hrel|done]]. eapply (swap_rep _ _ _ _ [] old r node n); try done.
      * apply Hold.
      * apply links_only_keys. by apply links_only_insert.
      * cbn. eapply chain_cons; [done|done|apply lookup_insert_eq|]. apply chain_insert; [done|set_solver].
      * intros b' p Hb' Hnb Hp. rewrite lookup_insert_ne; [done|]. intros <-. by apply (Hout b').
    + rewrite Eq. unfold setHashNext, getHashNext. rewrite <- (app_assoc l' [q] (old :: r)) in Hc, Hnd, Hnl, E. cbn [app] in *.
      destruct (ht_chain_elem _ _ _ q Hc) as [Hvq [nq Hq]]; [set_solver|]. assert (q ≠ node) as Hqn by set_solver.
      assert (q ≠ old) as Hqo by (apply NoDup_app in Hnd as (_ & _ & [Hqr _]%NoDup_cons); set_solver).
      rewrite Hq. res_simpl. rewrite Ecn. res_simpl. rewrite (lookup_insert_ne h q old), Hno by done. res_simpl. rewrite (chain_head _ _ _ Hcr). res_simpl.
      rewrite (lookup_insert_ne h q node), Hn by done. res_simpl. rewrite Ey. res_simpl.
      assert (links_only h (<[node:=with_next y n]> (<[q:=with_next cn nq]> h))) as Hlo.
      { eapply links_only_trans; [by apply links_only_insert|]. apply links_only_insert. by rewrite lookup_insert_ne. }
      eexists _, _, _, (upd B b ((l' ++ [q]) ++ node :: r)). split; [done|]. split; [done|]. split; [done|]. split; [|split; [by apply Hrel|done]].
      refine (eq_ind _ (λ t, ht_rep t _ _) _ _ (with_bucket_same b x ht Hx)). eapply (swap_rep _ _ _ _ (l' ++ [q]) old r node n); try done.
      * by rewrite <- app_assoc.
      * apply Hold.
      * by apply links_only_keys.
      * rewrite <- app_assoc. by apply (chain_swap _ _ _ _ old).
      * intros b' p Hb' Hnb Hp. assert (p ≠ q). { intros ->. apply Hnb. eapply rep_apart; [done|done|done|done|]. rewrite E. set_solver. }
        rewrite !lookup_insert_ne; [done|done|]. intros <-. by apply (Hout b').
Qed.

Lemma drop_rep ht h B b l node r x h' : ht_rep ht h B → in_range ht b → B b = l ++ node :: r → links_only h h' → chain h' x (l ++ r) →
  (∀ b' p, in_range ht b' → b' ≠ b → p ∈ B b' → hn_next <$> h' !! p = hn_next <$> h !! p) →
  ht_rep (with_bucket b x ht) h' (upd B b (l ++ r)) ∧ relinked ht B (upd B b (l ++ r)) b None (Some node).
Proof.
  intros Hr Hb E Hlo Hc Hf. pose proof (r_nodup _ _ _ Hr b Hb) as Hnd. rewrite E in Hnd.
  assert (∀ q, q ∈ l ++ r → q ∈ B b) as Hin by (rewrite E; set_solver). apply NoDup_app in Hnd as (Hl & Hlr & [Hnr Hrr]%NoDup_cons). split.
  - eapply rep_update; [done|done|by apply links_only_keys|done| |done|..].
    + apply NoDup_app. split; [done|]. split; [set_solver|done].
    + intros p k Hp%Hin Hpk. by eapply (r_home _ _ _ Hr).
    + intros p q k Hp%Hin Hq%Hin Hpk Hqk. by eapply (r_unique _ _ _ Hr b).
  - intros b' q Hb'. unfold upd. destruct (decide (b' = b)) as [->|Hne].
    + rewrite E, !elem_of_app, elem_of_cons. split; [|naive_solver]. intros Hq. right. split; [naive_solver|]. intros [= ->].
      destruct Hq as [Hq|Hq]; [apply (Hlr node); set_solver|done].
    + split; [|naive_solver]. intros Hq. right. split; [done|]. intros [= ->]. apply Hne. eapply rep_apart; [done|done|done|done|]. rewrite E. set_solver.
Qed.
Lemma removeFromBucket_spec ht h B node n : ht_rep ht h B → h !! node = Some n → 
  let k := hn_key n in let b := bucket k ht in node ∈ B b →
  ∃ ht' h' B', removeFromBucket node b ht h = Ok (ht', h') ∧ links_only h h' ∧ same_shape ht ht' ∧ ht_rep ht' h' B' ∧
    relinked ht B B' b None (Some node).
Proof.
  intros Hr Hn k b Hin. pose proof (bucket_range _ _ _ k Hr) as Hb. fold b in Hb. destruct (head_ok ht h B b Hr Hb) as (x & Ex & Hc & Hx).
  assert (entry ht h B k node) as Hent by (split; [done|by apply (has_key_node _ _ n)]).
  unfold removeFromBucket, findPrevInBucket, getKey. rewrite Hn. res_simpl. fold k. 
  pose proof (proj1 (findInBucket_spec ht h B k Hr) node Hent) as Ef. fold b in Ef. rewrite Ef. res_simpl.
  rewrite bool_decide_true by done. res_simpl. rewrite Ex. res_simpl. rewrite (chain_head _ _ _ Hc). res_simpl.
  pose proof (bucket_cases ht h B k Hr) as Hbc. fold b in Hbc. destruct Hbc as [[_ Hnone]|(l & old & r & E & Hl & Hold)]; [by destruct (Hnone node)|].
  rewrite (entry_unique _ _ _ _ _ _ Hr Hold Hent) in *. clear old Hold.
  pose proof (prev_found _ _ _ k _ _ _ _ Hr Hc E Hl (proj2 Hent)) as Ep. fold b in Ep. rewrite Ep. res_simpl. rewrite (bool_decide_true (Some node ≠ None)) by done. res_simpl.
  pose proof (r_nodup _ _ _ Hr b Hb) as Hnd. rewrite E in Hnd, Hc.
  pose proof (chain_next _ _ _ _ _ _ Hc Hn) as Hcr. destruct (last_snoc_inv l) as [->|(l' & q & -> & Eq)].
  - cbn [last]. rewrite E. cbn [app head hd_error]. rewrite bool_decide_true by done. res_simpl. unfold getHashNextCompressed. rewrite Hn. res_simpl.
    destruct (drop_rep ht h B b [] node r (hn_next n) h Hr Hb E (links_only_refl h)) as [H1 H2]; [done|done|].
    eexists _, _, _. split; [done|]. split; [apply links_only_refl|]. done.
  - rewrite Eq. unfold getHashNext, setHashNext. rewrite Hn. res_simpl. rewrite (chain_head _ _ _ Hcr). res_simpl.
    rewrite <- (app_assoc l' [q] (node :: r)) in Hc, Hnd. cbn [app] in Hc, Hnd.
    destruct (ht_chain_elem _ _ _ q Hc) as [_ [nq Hq]]; [set_solver|]. rewrite Hq. res_simpl.
    destruct (chain_compress _ _ _ Hcr) as (y & Ey & Hcy). rewrite Ey. res_simpl.
    assert (q ∉ l' ∧ q ∉ r) as [Hql Hqr].
    { apply NoDup_app in Hnd as (_ & Hlr & [Hqr _]%NoDup_cons). split; [|set_solver]. intros Hq'. apply (Hlr q); set_solver. }
    destruct (drop_rep ht h B b (l' ++ [q]) node r x (<[q:=with_next y nq]> h) Hr Hb E) as [H1 H2].
    + by apply links_only_insert.
    + rewrite <- app_assoc. cbn [app]. eapply chain_redirect; [done|done|done|]. by apply chain_insert.
    + intros b' p Hb' Hne Hp. rewrite lookup_insert_ne; [done|]. intros <-. apply Hne. eapply rep_apart; [done|done|done|done|]. rewrite E. set_solver.
    + rewrite (with_bucket_same b x ht Hx) in H1. eexists _, _, _. split; [done|]. split; [by apply links_only_insert|]. done.
Qed.

(** ** The container *)
Definition map_of ht h B M : Prop := ∀ k p, M !! k = Some p ↔ entry ht h B k p.
Record ht_wf c h M : Prop := {
  w_rep : ∃ B, ht_rep (ht_ c) h B ∧ map_of (ht_ c) h B M;
  w_buckets : getNumBuckets (config_ c) = numBuckets_ (ht_ c);
  w_ref p n : h !! p = Some n → fits 32 (hn_ref n) ∧ (isAccessible (hn_ref n) = true ↔ M !! hn_key n = Some p);
  w_keys : numKeys_ c = u64 (Z.of_nat (size M));
  w_config : Config_new (bucketsPower_ (config_ c)) (locksPower_ (config_ c)) (hasherMagicId (config_ c)) = Ok (config_ c) ∧ 0 ≤ bucketsPower_ (config_ c);
}.

Lemma isAccessible_mark v : fits 32 v → fits 32 (markAccessible v) ∧ isAccessible (markAccessible v) = true.
Proof.
  intros Hv. split; [by apply (run_op_fits OpMarkAccessible v RUnit)|].
  destruct (observers_decode (markAccessible v)) as (_ & _ & -> & _). unfold markAccessible, markAdmin. by rewrite mark_setbit, decode_mark.
Qed.
Lemma isAccessible_unmark v : fits 32 v → fits 32 (unmarkAccessible v) ∧ isAccessible (unmarkAccessible v) = false.
Proof.
  intros Hv. split; [by apply (run_op_fits OpUnmarkAccessible v RUnit)|].
  destruct (observers_decode (unmarkAccessible v)) as (_ & _ & -> & _). unfold unmarkAccessible, unmarkAdmin. 
  rewrite unmark_clearbit by done. by rewrite decode_unmark.
Qed.

(** Only reference-count words change, and [acc] is what becomes of the
    accessible bits. *)
Definition words_ok h : Prop := ∀ p n, h !! p = Some n → fits 32 (hn_ref n).
Definition refs_acc h h' (acc : Z → bool → bool) : Prop := ∀ p,
  match h !! p, h' !! p with
  | Some n, Some n' => hn_next n' = hn_next n ∧ hn_key n' = hn_key n ∧ fits 32 (hn_ref n') ∧ isAccessible (hn_ref n') = acc p (isAccessible (hn_ref n))
  | None, None => True
  | _, _ => False
  end.
Lemma refs_acc_refl h : words_ok h → refs_acc h h (λ _ b, b).
Proof. intros Hw p. destruct (h !! p) as [n|] eqn:E; [|done]. split_and!; try done. by apply (Hw p). Qed.
Lemma refs_acc_trans h1 h2 h3 f g : refs_acc h1 h2 f → refs_acc h2 h3 g → refs_acc h1 h3 (λ p b, g p (f p b)).
Proof.
  intros H1 H2 p. specialize (H1 p). specialize (H2 p). destruct (h1 !! p), (h2 !! p), (h3 !! p); try done.
  destruct H2 as (-> & -> & Hf & ->), H1 as (-> & -> & _ & ->). done.
Qed.
Lemma refs_acc_ext h h' f g : refs_acc h h' f → (∀ p b, f p b = g p b) → refs_acc h h' g.
Proof. intros Hh E p. specialize (Hh p). destruct (h !! p), (h' !! p); try done. by rewrite <- E. Qed.
Lemma refs_acc_insert h p n ref : words_ok h → h !! p = Some n → fits 32 ref →
  refs_acc h (<[p := with_ref ref n]> h) (λ q b, if decide (q = p) then isAccessible ref else b).
Proof.
  intros Hw Hn Hf q. destruct (decide (q = p)) as [->|Hne]; [rewrite lookup_insert_eq, Hn; done|rewrite lookup_insert_ne by done].
  destruct (h !! q) as [m|] eqn:E; [|done]. split_and!; try done. by apply (Hw q).
Qed.
Lemma refs_acc_words h h' f : refs_acc h h' f → words_ok h'.
Proof. intros Hh p n Hn. specialize (Hh p). rewrite Hn in Hh. destruct (h !! p); [apply Hh|done]. Qed.
Lemma refs_acc_keys h h' f : refs_acc h h' f → same_keys h h'.
Proof. intros Hh p. specialize (Hh p). destruct (h !! p), (h' !! p); try done. cbn. f_equal. apply Hh. Qed.
Lemma refs_acc_next h h' f p : refs_acc h h' f → hn_next <$> h' !! p = hn_next <$> h !! p.
Proof. intros Hh. specialize (Hh p). destruct (h !! p), (h' !! p); try done. cbn. f_equal. apply Hh. Qed.
Lemma links_words h h' : links_only h h' → words_ok h → words_ok h'.
Proof. intros Hl Hw p n Hn. specialize (Hl p). rewrite Hn in Hl. destruct (h !! p) as [m|] eqn:E; [|done]. cbn in Hl. injection Hl as _ ->. by apply (Hw p). Qed.

Lemma ht_rep_frame ht h B h' : ht_rep ht h B → same_keys h h' → (∀ p, hn_next <$> h' !! p = hn_next <$> h !! p) → ht_rep ht h' B.
Proof.
  intros Hr Hk Hn. split; try apply Hr.
  - intros b Hb. destruct (r_chain _ _ _ Hr b Hb) as (x & Hx & Hc). exists x. split; [done|]. eapply ht_chain_frame; [done|]. intros. apply Hn.
  - intros b q k Hb Hq Hqk. apply (same_has_key _ _ _ _ Hk) in Hqk. by eapply (r_home _ _ _ Hr).
  - intros b q q' k Hb Hq Hq' Hqk Hqk'. apply (same_has_key _ _ _ _ Hk) in Hqk. apply (same_has_key _ _ _ _ Hk) in Hqk'. by eapply (r_unique _ _ _ Hr).
Qed.
Lemma rep_refs ht h B h' f : ht_rep ht h B → refs_acc h h' f → ht_rep ht h' B.
Proof. intros Hr Hf. eapply ht_rep_frame; [done|by eapply refs_acc_keys|]. intros. by eapply refs_acc_next. Qed.

(** The map after a node was linked in place of [old]. *)
Lemma map_link ht ht' h h' B B' M node n old : map_of ht h B M → ht_rep ht h B → same_shape ht ht' → same_keys h h' → h !! node = Some n →
  relinked ht B B' (bucket (hn_key n) ht) (Some node) old → old = M !! hn_key n → map_of ht' h' B' (<[hn_key n := node]> M).
Proof.
  intros Hm Hr Hs Hk Hn Hrel -> k p. unfold entry. rewrite (same_has_key _ _ _ _ Hk), (shape_bucket _ _ _ Hs), (Hrel _ _ (bucket_range _ _ _ k Hr)).
  destruct (decide (k = hn_key n)) as [->|Hne].
  - rewrite lookup_insert_eq. split; [intros [= <-]; split; [by left|by apply (has_key_node _ _ n)]|].
    intros [[[[= ->] _]|[Hp Hd]] Hpk]; [done|]. exfalso. apply Hd. symmetry. by apply Hm.
  - rewrite lookup_insert_ne by done. rewrite (Hm k p). unfold entry. split.
    + intros [Hp Hpk]. split; [right; split; [done|]|done]. intros E. symmetry in E. apply Hm in E as [_ E]. unfold has_key in *. congruence.
    + intros [[[[= ->] _]|[Hp _]] Hpk]; [|done]. apply (has_key_node _ _ n) in Hpk; [congruence|done].
Qed.
Lemma map_unlink ht ht' h h' B B' M node n : map_of ht h B M → ht_rep ht h B → same_shape ht ht' → same_keys h h' → h !! node = Some n →
  relinked ht B B' (bucket (hn_key n) ht) None (Some node) → M !! hn_key n = Some node → map_of ht' h' B' (delete (hn_key n) M).
Proof.
  intros Hm Hr Hs Hk Hn Hrel E k p. unfold entry. rewrite (same_has_key _ _ _ _ Hk), (shape_bucket _ _ _ Hs), (Hrel _ _ (bucket_range _ _ _ k Hr)).
  rewrite lookup_delete_Some, (Hm k p). unfold entry. split.
  - intros [Hne [Hp Hpk]]. split; [right; split; [done|]|done]. intros [= ->]. by apply (has_key_node _ _ n) in Hpk.
  - intros [[[? _]|[Hp Hd]] Hpk]; [done|]. split; [|done]. intros <-. apply Hd. assert (M !! hn_key n = Some p) by (by apply Hm). congruence.
Qed.

(** The accessible bits after it. *)
Definition acc_swap (add del : option Z) (p : Z) (b : bool) : bool :=
  if decide (Some p = add) then true else if decide (Some p = del) then false else b.
Lemma refs_link h h1 h' M node n old : (∀ p n, h !! p = Some n → fits 32 (hn_ref n) ∧ (isAccessible (hn_ref n) = true ↔ M !! hn_key n = Some p)) →
  (∀ k p, M !! k = Some p → has_key h k p) →
  links_only h h1 → refs_acc h1 h' (acc_swap (Some node) old) → h !! node = Some n → old = M !! hn_key n →
  ∀ p n', h' !! p = Some n' → fits 32 (hn_ref n') ∧ (isAccessible (hn_ref n') = true ↔ <[hn_key n := node]> M !! hn_key n' = Some p).
Proof.
  intros Hw Hkey Hl Ha Hn -> p n' Hn'. specialize (Ha p). rewrite Hn' in Ha. destruct (h1 !! p) as [n1|] eqn:E1; [|done].
  specialize (Hl p). rewrite E1 in Hl. destruct (h !! p) as [m|] eqn:E; [|done]. cbn in Hl. injection Hl as K1 R1.
  destruct Ha as (_ & K2 & Hf & ->). split; [done|]. rewrite K2, K1, R1. destruct (Hw p m E) as [_ Hacc]. unfold acc_swap.
  destruct (decide (Some p = Some node)) as [[= ->]|Hne]; [simplify_eq; by rewrite lookup_insert_eq|].
  destruct (decide (hn_key m = hn_key n)) as [Ek|Ek].
  - rewrite Ek, lookup_insert_eq. rewrite Ek in Hacc. case_decide as Hd; [naive_solver|]. rewrite Hacc. naive_solver.
  - rewrite lookup_insert_ne by done. rewrite <- Hacc. case_decide as Hd; [|done]. split; [done|]. intros Ht.
    symmetry in Hd. exfalso. apply Hkey in Hd. by apply (has_key_node _ _ m) in Hd.
Qed.
Lemma refs_unlink h h1 h' M node n : (∀ p n, h !! p = Some n → fits 32 (hn_ref n) ∧ (isAccessible (hn_ref n) = true ↔ M !! hn_key n = Some p)) →
  links_only h h1 → refs_acc h1 h' (acc_swap None (Some node)) → h !! node = Some n → M !! hn_key n = Some node →
  ∀ p n', h' !! p = Some n' → fits 32 (hn_ref n') ∧ (isAccessible (hn_ref n') = true ↔ delete (hn_key n) M !! hn_key n' = Some p).
Proof.
  intros Hw Hl Ha Hn E p n' Hn'. specialize (Ha p). rewrite Hn' in Ha. destruct (h1 !! p) as [n1|] eqn:E1; [|done].
  specialize (Hl p). rewrite E1 in Hl. destruct (h !! p) as [m|] eqn:Em; [|done]. cbn in Hl. injection Hl as K1 R1.
  destruct Ha as (_ & K2 & Hf & ->). split; [done|]. rewrite K2, K1, R1. destruct (Hw p m Em) as [_ Hacc]. unfold acc_swap.
  rewrite decide_False by done. rewrite lookup_delete_Some. case_decide as Hd.
  - injection Hd as ->. simplify_eq. naive_solver.
  - rewrite Hacc. split; [|by intros []]. intros Hp. split; [|done]. intros Ek. rewrite <- Ek, E in Hp. naive_solver.
Qed.

(** ** Operations as steps *)
Inductive hop :=
  | HInsert (node : Z)
  | HInsertOrReplace (node : Z)
  | HReplaceIf (oldNode newNode : Z) (predicate : HNode → bool)
  | HRemove (node : Z)
  | HRemoveIf (node : Z) (predicate : HNode → bool)
  | HFind (key : list Z).
Inductive hret := HBool (b : bool) | HHandle (x : Handle) | HExn (e : exn).

(** An exception of the handle maker reaches the caller. *)
Definition caught {A} (c : Container) (h : HStore) (f : A → hret * Container * HStore) (r : result A) : result (hret * Container * HStore) :=
  match r with Ok a => Ok (f a) | Throw e => Ok (HExn e, c, h) | Undef => Undef end.
Definition hstep (o : hop) c h : result (hret * Container * HStore) :=
  match o with
  | HInsert node => '(b, c, h) ← ht_insert hasher node c h; Ok (HBool b, c, h)
  | HInsertOrReplace node =>
      '(x, c, h) ← insertOrReplace hasher node c h; Ok (match x with inl x => HHandle x | inr e => HExn e end, c, h)
  | HReplaceIf old new predicate => '(b, c, h) ← replaceIf hasher old new predicate c h; Ok (HBool b, c, h)
  | HRemove node => '(b, c, h) ← ht_remove hasher node c h; Ok (HBool b, c, h)
  | HRemoveIf node predicate => caught c h (λ '(x, c, h), (HHandle x, c, h)) (removeIf hasher node predicate c h)
  | HFind key => caught c h (λ '(x, h), (HHandle x, c, h)) (ht_find hasher key c h)
  end.
Definition is_node h (p : Z) : Prop := valid_ptr p ∧ is_Some (h !! p).
Definition hop_ok (o : hop) h : Prop :=
  match o with
  | HInsert p | HInsertOrReplace p | HRemove p | HRemoveIf p _ => is_node h p
  | HReplaceIf old new _ => is_node h old ∧ is_node h new ∧ old ≠ new ∧ hn_key <$> h !! old = hn_key <$> h !! new ∧
      (isAccessible ∘ hn_ref) <$> h !! new = Some false
  | HFind _ => True
  end.
(** What they do to the map. *)
Definition made (p : option Z) (x : Handle) : Prop := ∃ h h', handleMaker p h = Ok (x, h').
Definition h_spec (o : hop) h M (ret : hret) M' : Prop :=
  match o with
  | HInsert p => ∀ k, has_key h k p → match M !! k with
      | None => ret = HBool true ∧ M' = <[k := p]> M
      | Some _ => ret = HBool false ∧ M' = M
      end
  | HInsertOrReplace p => ∀ k, has_key h k p →
      if decide (M !! k = Some p) then ret = HHandle NullHandle ∧ M' = M
      else (∃ x, ret = HHandle x ∧ made (M !! k) x ∧ M' = <[k := p]> M) ∨ (∃ e, ret = HExn e ∧ M !! k ≠ None ∧ M' = M)
  | HReplaceIf old new predicate => ∀ n, h !! old = Some n →
      if decide (M !! hn_key n = Some old ∧ predicate n = true) then ret = HBool true ∧ M' = <[hn_key n := new]> M
      else ret = HBool false ∧ M' = M
  | HRemove p => ∀ k, has_key h k p →
      if decide (M !! k = Some p) then ret = HBool true ∧ M' = delete k M else ret = HBool false ∧ M' = M
  | HRemoveIf p predicate => ∀ n, h !! p = Some n →
      if decide (M !! hn_key n = Some p ∧ predicate n = true)
      then (∃ x, ret = HHandle x ∧ made (Some p) x ∧ M' = delete (hn_key n) M) ∨ (∃ e, ret = HExn e ∧ M' = M)
      else ret = HHandle NullHandle ∧ M' = M
  | HFind key => M' = M ∧ ((∃ x, ret = HHandle x ∧ made (M !! key) x) ∨ (∃ e, ret = HExn e ∧ M !! key ≠ None))
  end.

Lemma wf_words c h M : ht_wf c h M → words_ok h.
Proof. intros Hw p n Hn. by apply (w_ref _ _ _ Hw p). Qed.
Lemma free_node c h M B node n : ht_wf c h M → ht_rep (ht_ c) h B → map_of (ht_ c) h B M → h !! node = Some n → isAccessible (hn_ref n) = false →
  ∀ b, in_range (ht_ c) b → node ∉ B b.
Proof.
  intros Hw Hr Hm Hn Ha b Hb Hin. destruct (rep_elem _ _ _ _ _ Hr Hb Hin) as (_ & n' & Hn' & E). simplify_eq.
  destruct (w_ref _ _ _ Hw node n Hn) as [_ Hacc]. rewrite (proj2 Hacc) in Ha; [done|]. apply Hm. split; [done|]. by apply (has_key_node _ _ n).
Qed.
Lemma map_key c h M B k p : ht_rep (ht_ c) h B → map_of (ht_ c) h B M → M !! k = Some p → has_key h k p.
Proof. intros Hr Hm E. by apply Hm in E as []. Qed.
Lemma nodeMark_ok f p n h : h !! p = Some n → nodeMark f p h = Ok (<[p := with_ref (f (hn_ref n)) n]> h).
Proof. intros Hn. unfold nodeMark. by rewrite Hn. Qed.

(** The state after a node was linked, and after one was unlinked. *)
Lemma wf_link c h M B node n old ht' h1 B' h' c' : ht_wf c h M → ht_rep (ht_ c) h B → map_of (ht_ c) h B M → h !! node = Some n →
  links_only h h1 → same_shape (ht_ c) ht' → ht_rep ht' h1 B' → relinked (ht_ c) B B' (bucket (hn_key n) (ht_ c)) (Some node) old →
  old = M !! hn_key n → refs_acc h1 h' (acc_swap (Some node) old) → ht_ c' = ht' → config_ c' = config_ c →
  numKeys_ c' = u64 (Z.of_nat (size (<[hn_key n := node]> M))) → ht_wf c' h' (<[hn_key n := node]> M).
Proof.
  intros Hw Hr Hm Hn Hl Hs Hr' Hrel Hold Ha <- Ec Ek. split.
  - exists B'. split; [by eapply rep_refs|]. eapply map_link; [done|done|done| |done|done|done].
    eapply same_keys_trans; [by apply links_only_keys|by eapply refs_acc_keys].
  - rewrite Ec, (w_buckets _ _ _ Hw). symmetry. apply Hs.
  - eapply refs_link; [apply Hw| |done|done|done|done]. intros. by eapply map_key.
  - done.
  - rewrite Ec. apply Hw.
Qed.
Lemma wf_unlink c h M B node n ht' h1 B' h' c' : ht_wf c h M → ht_rep (ht_ c) h B → map_of (ht_ c) h B M → h !! node = Some n →
  links_only h h1 → same_shape (ht_ c) ht' → ht_rep ht' h1 B' → relinked (ht_ c) B B' (bucket (hn_key n) (ht_ c)) None (Some node) →
  M !! hn_key n = Some node → refs_acc h1 h' (acc_swap None (Some node)) → ht_ c' = ht' → config_ c' = config_ c →
  numKeys_ c' = u64 (Z.of_nat (size (delete (hn_key n) M))) → ht_wf c' h' (delete (hn_key n) M).
Proof.
  intros Hw Hr Hm Hn Hl Hs Hr' Hrel Hold Ha <- Ec Ek. split.
  - exists B'. split; [by eapply rep_refs|]. eapply map_unlink; [done|done|done| |done|done|done].
    eapply same_keys_trans; [by apply links_only_keys|by eapply refs_acc_keys].
  - rewrite Ec, (w_buckets _ _ _ Hw). symmetry. apply Hs.
  - eapply refs_unlink; [apply Hw|done|done|done|done].
  - done.
  - rewrite Ec. apply Hw.
Qed.
Lemma size_keys (n : Z) : u64 (u64 n + 1) = u64 (n + 1) ∧ u64 (u64 n - 1) = u64 (n - 1).
Proof. unfold wrap. by rewrite Zplus_mod_idemp_l, Zminus_mod_idemp_l. Qed.

Lemma ht_insert_aux c h M node n : ht_wf c h M → h !! node = Some n → valid_ptr node →
  ∃ b c' h', ht_insert hasher node c h = Ok (b, c', h') ∧ same_keys h h' ∧
    match M !! hn_key n with
    | None => b = true ∧ ht_wf c' h' (<[hn_key n := node]> M)
    | Some _ => b = false ∧ ht_wf c' h' M
    end.
Proof.
  intros Hw Hn Hv. destruct (w_rep _ _ _ Hw) as (B & Hr & Hm). unfold ht_insert, nodeIsAccessible. rewrite Hn. res_simpl.
  destruct (isAccessible (hn_ref n)) eqn:Ea.
  { apply (w_ref _ _ _ Hw node n Hn) in Ea. rewrite Ea. exists false, c, h. split; [done|]. split; [done|]. done. }
  unfold getKey. rewrite Hn. res_simpl. pose proof (free_node _ _ _ _ _ _ Hw Hr Hm Hn Ea) as Hout.
  destruct (insertInBucket_spec _ _ _ _ _ Hr Hn Hv Hout) as [Hin Hnew]. destruct (M !! hn_key n) as [p|] eqn:E.
  - apply Hm in E. rewrite (Hin p E). res_simpl. eexists _, _, _. split; [done|]. split; [done|]. split; [done|]. by destruct c.
  - assert (∀ p, ¬ entry (ht_ c) h B (hn_key n) p) as Hno by (intros p Hp%Hm; congruence).
    destruct (Hnew Hno) as (ht' & x & B' & -> & Hs & Hr' & Hrel). res_simpl.
    rewrite (nodeMark_ok _ _ (with_next x n)) by apply lookup_insert_eq. res_simpl. eexists _, _, _. split; [done|].
    assert (links_only h (<[node:=with_next x n]> h)) as Hl by by apply links_only_insert.
    assert (words_ok (<[node:=with_next x n]> h)) as Hwo by (eapply links_words; [done|by eapply wf_words]).
    destruct (isAccessible_mark (hn_ref n)) as [Hf Hacc]; [by eapply (wf_words _ _ _ Hw)|].
    pose proof (refs_acc_insert _ node (with_next x n) (markAccessible (hn_ref n)) Hwo (lookup_insert_eq _ _ _) Hf) as Hra.
    split. { eapply same_keys_trans; [by apply links_only_keys|by eapply refs_acc_keys]. }
    split; [done|]. eapply (wf_link c h M B node n None ht'); try done.
    + eapply refs_acc_ext; [done|]. intros q b. unfold acc_swap. rewrite Hacc.
      destruct (decide (q = node)), (decide (Some q = Some node)); naive_solver.
    + cbn. rewrite (w_keys _ _ _ Hw), (proj1 (size_keys _)), map_size_insert_None by done. f_equal. lia.
Qed.
Lemma wf_same_map c h M ht' h' B' : ht_wf c h M → links_only h h' → same_shape (ht_ c) ht' → ht_rep ht' h' B' → map_of ht' h' B' M →
  ht_wf (with_ht ht' c) h' M.
Proof.
  intros Hw Hl Hs Hr Hm. split; [by exists B'|cbn; rewrite (w_buckets _ _ _ Hw); symmetry; apply Hs| |apply Hw|apply Hw].
  intros p n' Hn'. specialize (Hl p). rewrite Hn' in Hl. destruct (h !! p) as [n|] eqn:E; [|done]. cbn in Hl. injection Hl as -> ->. by apply Hw.
Qed.
Lemma wf_refs c h M h' : ht_wf c h M → refs_acc h h' (λ _ b, b) → ht_wf c h' M.
Proof.
  intros Hw Ha. destruct (w_rep _ _ _ Hw) as (B & Hr & Hm). split; [|apply Hw| |apply Hw|apply Hw].
  - exists B. split; [by eapply rep_refs|]. intros k p. unfold entry. rewrite (same_has_key h h') by by eapply refs_acc_keys. apply Hm.
  - intros p n' Hn'. specialize (Ha p). rewrite Hn' in Ha. destruct (h !! p) as [n|] eqn:E; [|done]. destruct Ha as (_ & -> & Hf & ->).
    split; [done|]. by apply Hw.
Qed.
Lemma hm_cases c h M p n : ht_wf c h M → h !! p = Some n →
  (∃ x ref, handleMaker (Some p) h = Ok (x, <[p := with_ref ref n]> h) ∧ fits 32 ref ∧ isAccessible ref = isAccessible (hn_ref n) ∧
     refs_acc h (<[p := with_ref ref n]> h) (λ _ b, b)) ∨ (∃ e, handleMaker (Some p) h = Throw e).
Proof.
  intros Hw Hn. destruct (hm_some p n h Hn) as [(x & ref & E & Hf & Ha)|He]; [by apply (wf_words _ _ _ Hw p)| |by right].
  left. exists x, ref. split; [done|]. split; [done|]. split; [done|]. intros q. destruct (decide (q = p)) as [->|Hne].
  - by rewrite lookup_insert_eq, Hn.
  - rewrite lookup_insert_ne by done. destruct (h !! q) as [m|] eqn:Eq; [|done]. split_and!; try done. by apply (wf_words _ _ _ Hw q).
Qed.

Lemma ht_find_aux c h M key : ht_wf c h M →
  (∃ x h', ht_find hasher key c h = Ok (x, h') ∧ made (M !! key) x ∧ same_keys h h' ∧ ht_wf c h' M) ∨
  (∃ e, ht_find hasher key c h = Throw e ∧ M !! key ≠ None).
Proof.
  intros Hw. destruct (w_rep _ _ _ Hw) as (B & Hr & Hm). destruct (findInBucket_spec _ _ _ key Hr) as [Hf Hnf]. unfold ht_find.
  destruct (M !! key) as [p|] eqn:E.
  - apply Hm in E as Hent. rewrite (Hf p Hent). res_simpl. pose proof (proj2 Hent) as Hk. unfold has_key in Hk. destruct (h !! p) as [n|] eqn:En; [|done].
    destruct (hm_cases c h M p n Hw En) as [(x & ref & Ex & _ & _ & Hra)|(e & Ee)]; [left|right; by exists e].
    exists x, (<[p:=with_ref ref n]> h). split; [done|]. split; [by eexists _, _|]. split; [by eapply refs_acc_keys|by eapply wf_refs].
  - rewrite Hnf by (intros p Hp%Hm; congruence). res_simpl. left. exists NullHandle, h. split; [apply hm_null|]. split; [exists h, h; apply hm_null|].
    split; [apply same_keys_refl|done].
Qed.

Lemma remove_bucket c h M B node n : ht_wf c h M → ht_rep (ht_ c) h B → map_of (ht_ c) h B M → h !! node = Some n → M !! hn_key n = Some node →
  ∃ ht' h', removeFromBucket node (bucket (hn_key n) (ht_ c)) (ht_ c) h = Ok (ht', h') ∧ links_only h h' ∧
    ∀ h'' c', refs_acc h' h'' (acc_swap None (Some node)) → ht_ c' = ht' → config_ c' = config_ c → numKeys_ c' = u64 (numKeys_ c - 1) →
      ht_wf c' h'' (delete (hn_key n) M).
Proof.
  intros Hw Hr Hm Hn E. apply Hm in E as Hent.
  destruct (removeFromBucket_spec _ _ _ _ _ Hr Hn (proj1 Hent)) as (ht' & h' & B' & -> & Hl & Hs & Hr' & Hrel).
  exists ht', h'. split; [done|]. split; [done|]. intros h'' c' Ha Eht Ec Ek. eapply wf_unlink; try done.
  rewrite Ek, (w_keys _ _ _ Hw), (proj2 (size_keys _)), map_size_delete, E. f_equal. cbn.
  assert (0 < size M)%nat; [|lia]. apply Nat.neq_0_lt_0. intros Hz%map_size_empty_inv. by rewrite Hz in E.
Qed.
Lemma mark_swap h p n f b : words_ok h → h !! p = Some n → fits 32 (f (hn_ref n)) → isAccessible (f (hn_ref n)) = b →
  refs_acc h (<[p := with_ref (f (hn_ref n)) n]> h) (if b then acc_swap (Some p) None else acc_swap None (Some p)).
Proof.
  intros Hwo Hn Hf <-. eapply refs_acc_ext; [by apply refs_acc_insert|]. intros q b. unfold acc_swap.
  destruct (isAccessible (f (hn_ref n))), (decide (q = p)), (decide (Some q = Some p)); naive_solver.
Qed.
Lemma ht_remove_aux c h M node n : ht_wf c h M → h !! node = Some n →
  ∃ b c' h', ht_remove hasher node c h = Ok (b, c', h') ∧ same_keys h h' ∧
    if decide (M !! hn_key n = Some node) then b = true ∧ ht_wf c' h' (delete (hn_key n) M) else b = false ∧ ht_wf c' h' M.
Proof.
  intros Hw Hn. destruct (w_rep _ _ _ Hw) as (B & Hr & Hm). unfold ht_remove, nodeIsAccessible, getKey. rewrite Hn. res_simpl.
  destruct (w_ref _ _ _ Hw node n Hn) as [_ Hacc]. case_decide as Hd.
  - rewrite (proj2 Hacc Hd). destruct (remove_bucket _ _ _ _ _ _ Hw Hr Hm Hn Hd) as (ht' & h1 & -> & Hl & Hfin). res_simpl.
    destruct (links_only_lookup _ _ _ _ Hl Hn) as (y & Hy). rewrite (nodeMark_ok _ _ _ _ Hy). res_simpl. eexists _, _, _. split; [done|].
    destruct (isAccessible_unmark (hn_ref n)) as [Hf Hu]; [by apply (wf_words _ _ _ Hw node)|].
    pose proof (mark_swap h1 node (with_next y n) unmarkAccessible false (links_words _ _ Hl (wf_words _ _ _ Hw)) Hy Hf Hu) as Hra.
    split; [eapply same_keys_trans; [by apply links_only_keys|by eapply refs_acc_keys]|]. split; [done|]. by apply Hfin.
  - destruct (isAccessible (hn_ref n)); [by destruct Hd; apply Hacc|]. eexists _, _, _. split; [done|]. split; [apply same_keys_refl|done].
Qed.
Lemma removeIf_aux c h M node n predicate : ht_wf c h M → h !! node = Some n →
  if decide (M !! hn_key n = Some node ∧ predicate n = true) then
    (∃ x c' h', removeIf hasher node predicate c h = Ok (x, c', h') ∧ made (Some node) x ∧ same_keys h h' ∧ ht_wf c' h' (delete (hn_key n) M)) ∨
    (∃ e, removeIf hasher node predicate c h = Throw e)
  else removeIf hasher node predicate c h = Ok (NullHandle, c, h).
Proof.
  intros Hw Hn. unfold removeIf, getKey. rewrite Hn. res_simpl. destruct (w_ref _ _ _ Hw node n Hn) as [_ Hacc]. case_decide as Hd.
  - destruct Hd as [Hd ->]. rewrite (proj2 Hacc Hd). res_simpl.
    destruct (hm_cases c h M node n Hw Hn) as [(x & ref & Ex & Hf & Ha & Hra)|(e & ->)]; [left|right; by exists e].
    rewrite Ex. res_simpl. pose proof (wf_refs _ _ _ _ Hw Hra) as Hw1. destruct (w_rep _ _ _ Hw1) as (B & Hr & Hm).
    destruct (remove_bucket _ _ _ _ node (with_ref ref n) Hw1 Hr Hm (lookup_insert_eq _ _ _) Hd) as (ht' & h1 & E & Hl & Hfin).
    cbn [hn_key with_ref] in E. rewrite E. res_simpl.
    destruct (links_only_lookup _ _ _ _ Hl (lookup_insert_eq _ _ _)) as (y & Hy). rewrite (nodeMark_ok _ _ _ _ Hy). res_simpl. eexists _, _, _. split; [done|].
    destruct (isAccessible_unmark ref Hf) as [Hfu Hu].
    pose proof (mark_swap h1 node _ unmarkAccessible false (links_words _ _ Hl (wf_words _ _ _ Hw1)) Hy Hfu Hu) as Hra'.
    split; [by eexists _, _|]. split; [|by apply Hfin].
    eapply same_keys_trans; [by eapply refs_acc_keys|]. eapply same_keys_trans; [by apply links_only_keys|by eapply refs_acc_keys].
  - destruct (isAccessible (hn_ref n)), (predicate n); cbn [andb]; try by rewrite hm_null. destruct Hd. split; [by apply Hacc|done].
Qed.

(** Linking a node in place of the one with its key, if any. *)
Lemma put_bucket c h M B node n : ht_wf c h M → ht_rep (ht_ c) h B → map_of (ht_ c) h B M → h !! node = Some n → valid_ptr node →
  isAccessible (hn_ref n) = false →
  ∃ ht' h' B', insertOrReplaceInBucket node (bucket (hn_key n) (ht_ c)) (ht_ c) h = Ok (M !! hn_key n, ht', h') ∧ links_only h h' ∧
    same_shape (ht_ c) ht' ∧ ht_rep ht' h' B' ∧ map_of ht' h' B' (<[hn_key n := node]> M) ∧
    relinked (ht_ c) B B' (bucket (hn_key n) (ht_ c)) (Some node) (M !! hn_key n) ∧
    ∀ h'' c', refs_acc h' h'' (acc_swap (Some node) (M !! hn_key n)) → ht_ c' = ht' → config_ c' = config_ c →
      numKeys_ c' = (if M !! hn_key n then numKeys_ c else u64 (numKeys_ c + 1)) → ht_wf c' h'' (<[hn_key n := node]> M).
Proof.
  intros Hw Hr Hm Hn Hv Ha. pose proof (free_node _ _ _ _ _ _ Hw Hr Hm Hn Ha) as Hout.
  destruct (insertOrReplaceInBucket_spec _ _ _ _ _ Hr Hn Hv Hout) as (old & ht' & h' & B' & -> & Hl & Hs & Hr' & Hrel & Hold).
  assert (old = M !! hn_key n) as Eold.
  { destruct old as [p|]; [symmetry; by apply Hm|]. destruct (M !! hn_key n) as [p|] eqn:E; [|done]. apply Hm in E. by destruct (Hold p). }
  subst old. exists ht', h', B'. split; [done|]. split; [done|]. split; [done|]. split; [done|].
  split; [eapply map_link; try done; by apply links_only_keys|]. split; [done|]. intros h'' c' Hra Eh Ec Ek. eapply wf_link; try done.
  rewrite Ek, (w_keys _ _ _ Hw). destruct (M !! hn_key n) eqn:E.
  - by rewrite map_size_insert, E.
  - rewrite (proj1 (size_keys _)), map_size_insert_None by done. f_equal. lia.
Qed.
Lemma swap_comp h1 h2 h3 p q : refs_acc h1 h2 (acc_swap (Some p) None) → refs_acc h2 h3 (acc_swap None (Some q)) → p ≠ q →
  refs_acc h1 h3 (acc_swap (Some p) (Some q)).
Proof.
  intros H1 H2 Hne. eapply refs_acc_ext; [by eapply refs_acc_trans|]. intros x b. unfold acc_swap. repeat case_decide; naive_solver.
Qed.
Lemma swap_comp' h1 h2 h3 p q : refs_acc h1 h2 (acc_swap None (Some q)) → refs_acc h2 h3 (acc_swap (Some p) None) → 
  refs_acc h1 h3 (acc_swap (Some p) (Some q)).
Proof.
  intros H1 H2. eapply refs_acc_ext; [by eapply refs_acc_trans|]. intros x b. unfold acc_swap. repeat case_decide; naive_solver.
Qed.
Lemma replaceIf_aux c h M old new n n' predicate : ht_wf c h M → h !! old = Some n → h !! new = Some n' → valid_ptr new → old ≠ new →
  hn_key n = hn_key n' → isAccessible (hn_ref n') = false →
  ∃ b c' h', replaceIf hasher old new predicate c h = Ok (b, c', h') ∧ same_keys h h' ∧
    if decide (M !! hn_key n = Some old ∧ predicate n = true) then b = true ∧ ht_wf c' h' (<[hn_key n := new]> M) else b = false ∧ ht_wf c' h' M.
Proof.
  intros Hw Hn Hn' Hv Hne Ek Ha. unfold replaceIf, getKey. rewrite Hn', Hn. res_simpl. destruct (w_ref _ _ _ Hw old n Hn) as [Hfo Hacc].
  destruct (w_rep _ _ _ Hw) as (B & Hr & Hm). case_decide as Hd.
  - destruct Hd as [Hd ->]. rewrite (proj2 Hacc Hd). res_simpl.
    destruct (put_bucket _ _ _ _ _ _ Hw Hr Hm Hn' Hv Ha) as (ht' & h1 & B' & -> & Hl & _ & _ & _ & _ & Hfin). res_simpl.
    destruct (links_only_lookup _ _ _ _ Hl Hn) as (y & Hy). rewrite (nodeMark_ok _ _ _ _ Hy). res_simpl.
    destruct (links_only_lookup _ _ _ _ Hl Hn') as (y' & Hy').
    rewrite (nodeMark_ok _ new (with_next y' n')) by (by rewrite lookup_insert_ne). res_simpl. eexists _, _, _. split; [done|].
    destruct (isAccessible_unmark (hn_ref n) Hfo) as [Hf Hu].
    destruct (isAccessible_mark (hn_ref n')) as [Hf' Hu']; [by apply (wf_words _ _ _ Hw new)|].
    pose proof (mark_swap h1 old _ unmarkAccessible false (links_words _ _ Hl (wf_words _ _ _ Hw)) Hy Hf Hu) as Hra.
    pose proof (mark_swap _ new (with_next y' n') markAccessible true (refs_acc_words _ _ _ Hra)
      ltac:(by rewrite lookup_insert_ne) Hf' Hu') as Hra'.
    pose proof (swap_comp' _ _ _ _ _ Hra Hra') as Hra2.
    split; [eapply same_keys_trans; [by apply links_only_keys|by eapply refs_acc_keys]|]. split; [done|]. rewrite Ek in *.
    apply Hfin; [by rewrite Hd|done|done|by rewrite Hd].
  - assert (isAccessible (hn_ref n) && predicate n = false) as ->.
    { apply andb_false_iff. destruct (isAccessible (hn_ref n)); [right|by left]. destruct (predicate n); [|done]. destruct Hd. split; [by apply Hacc|done]. }
    eexists _, _, _. split; [done|]. split; [apply same_keys_refl|done].
Qed.
(** Putting the old node back. *)
Lemma put_back c h M B node n old no ht' h1 B' : ht_wf c h M → ht_rep (ht_ c) h B → map_of (ht_ c) h B M → h !! node = Some n →
  links_only h h1 → same_shape (ht_ c) ht' → ht_rep ht' h1 B' → map_of ht' h1 B' (<[hn_key n := node]> M) →
  relinked (ht_ c) B B' (bucket (hn_key n) (ht_ c)) (Some node) (Some old) → M !! hn_key n = Some old → h !! old = Some no → node ≠ old →
  ∃ r ht2 h2, insertOrReplaceInBucket old (bucket (hn_key n) (ht_ c)) ht' h1 = Ok (r, ht2, h2) ∧
    findInBucket (hn_key n) (bucket (hn_key n) (ht_ c)) ht2 h2 = Ok (Some old) ∧ same_keys h h2 ∧ ht_wf (with_ht ht2 (with_ht ht' c)) h2 M.
Proof.
  intros Hw Hr Hm Hn Hl Hs Hr' Hm' Hrel E Hno Hne. destruct (proj1 (Hm _ _) E) as [Hin Hko]. apply (has_key_node _ _ no) in Hko; [|done].
  destruct (rep_elem _ _ _ _ _ Hr (bucket_range _ _ _ _ Hr) Hin) as [Hvo _]. destruct (links_only_lookup _ _ _ _ Hl Hno) as (y & Hy).
  assert (∀ b, in_range ht' b → old ∉ B' b) as Hout.
  { intros b Hb Hob. unfold in_range in Hb. rewrite (proj1 Hs) in Hb. apply (Hrel b old Hb) in Hob as [[[= ->] _]|[_ Hd]]; done. }
  destruct (insertOrReplaceInBucket_spec _ _ _ _ _ Hr' Hy Hvo Hout) as (r & ht2 & h2 & B2 & E2 & Hl2 & Hs2 & Hr2 & Hrel2 & Hold2).
  cbn [hn_key with_next] in *. rewrite Hko in *. rewrite (shape_bucket _ _ _ Hs) in E2, Hrel2.
  assert (r = <[hn_key n := node]> M !! hn_key n) as Er.
  { rewrite lookup_insert_eq. destruct r as [p|]; [apply Hm' in Hold2; by rewrite lookup_insert_eq in Hold2|].
    destruct (Hold2 node). apply Hm'. by rewrite lookup_insert_eq. }
  assert (links_only h h2) as Hl' by by eapply links_only_trans.
  assert (same_shape (ht_ c) ht2) as Hs'. { destruct Hs as (? & ? & ?), Hs2 as (? & ? & ?). split_and!; congruence. }
  assert (map_of ht2 h2 B2 M) as Hm2.
  { rewrite <- (insert_id M _ _ E), <- (insert_insert_eq M (hn_key n) old node), <- Hko.
    eapply (map_link ht' ht2 h1 h2 B' B2 _ old (with_next y no) r); [by rewrite Hko|done|done|by apply links_only_keys|done|..];
      cbn [hn_key with_next]; rewrite Hko; [by rewrite (shape_bucket _ _ _ Hs)|done]. }
  exists r, ht2, h2. split; [done|]. split; [|split; [by apply links_only_keys|]].
  - rewrite <- (shape_bucket _ _ _ Hs'). apply (proj1 (findInBucket_spec _ _ _ (hn_key n) Hr2)). by apply Hm2.
  - exact (wf_same_map c h M ht2 h2 B2 Hw Hl' Hs' Hr2 Hm2).
Qed.
Lemma insertOrReplace_aux c h M node n : ht_wf c h M → h !! node = Some n → valid_ptr node →
  ∃ x c' h', insertOrReplace hasher node c h = Ok (x, c', h') ∧ same_keys h h' ∧
    if decide (M !! hn_key n = Some node) then x = inl NullHandle ∧ ht_wf c' h' M
    else (∃ y, x = inl y ∧ made (M !! hn_key n) y ∧ ht_wf c' h' (<[hn_key n := node]> M)) ∨
         (∃ e, x = inr e ∧ M !! hn_key n ≠ None ∧ ht_wf c' h' M).
Proof.
  intros Hw Hn Hv. unfold insertOrReplace, nodeIsAccessible, getKey. rewrite Hn. res_simpl. destruct (w_ref _ _ _ Hw node n Hn) as [Hfn Hacc].
  case_decide as Hd.
  { rewrite (proj2 Hacc Hd), hm_null. res_simpl. eexists _, _, _. split; [done|]. split; [apply same_keys_refl|done]. }
  destruct (isAccessible (hn_ref n)) eqn:Ha; [by destruct Hd; apply Hacc|]. destruct (w_rep _ _ _ Hw) as (B & Hr & Hm).
  destruct (put_bucket _ _ _ _ _ _ Hw Hr Hm Hn Hv Ha) as (ht' & h1 & B' & -> & Hl & Hs & Hr' & Hm' & Hrel & Hfin). res_simpl.
  rewrite bool_decide_true by congruence. res_simpl.
  destruct (links_only_lookup _ _ _ _ Hl Hn) as (y & Hy). destruct (isAccessible_mark (hn_ref n) Hfn) as [Hf Hmark].
  pose proof (links_words _ _ Hl (wf_words _ _ _ Hw)) as Hwo1.
  destruct (M !! hn_key n) as [old|] eqn:E.
  - assert (node ≠ old) as Hne by congruence. pose proof (map_key _ _ _ _ _ _ Hr Hm E) as Hko. unfold has_key in Hko.
    destruct (h !! old) as [no|] eqn:Eno; [|done]. injection Hko as Hko. destruct (links_only_lookup _ _ _ _ Hl Eno) as (yo & Hyo).
    destruct (hm_some old _ h1 Hyo) as [(x & ref & Ex & Hfr & Hrefacc)|(e & Ee)]; [by apply (Hwo1 old)| |].
    + rewrite Ex. res_simpl. rewrite (nodeMark_ok _ node (with_next y n)) by (by rewrite lookup_insert_ne). res_simpl.
      rewrite (nodeMark_ok _ old (with_ref ref (with_next yo no))) by (rewrite lookup_insert_ne by done; apply lookup_insert_eq). res_simpl.
      eexists _, _, _. split; [done|].
      assert (refs_acc h1 (<[old:=with_ref ref (with_next yo no)]> h1) (λ _ b, b)) as Hra1.
      { intros q. destruct (decide (q = old)) as [->|Hq]; [by rewrite lookup_insert_eq, Hyo|]. rewrite lookup_insert_ne by done.
        destruct (h1 !! q) as [m|] eqn:Eq; [|done]. split_and!; try done. by apply (Hwo1 q). }
      destruct (isAccessible_unmark ref Hfr) as [Hfu Hu].
      pose proof (mark_swap _ node (with_next y n) markAccessible true (refs_acc_words _ _ _ Hra1) ltac:(by rewrite lookup_insert_ne) Hf Hmark) as Hra2.
      pose proof (mark_swap _ old (with_ref ref (with_next yo no)) unmarkAccessible false (refs_acc_words _ _ _ Hra2)
        ltac:(rewrite lookup_insert_ne by done; apply lookup_insert_eq) Hfu Hu) as Hra3.
      pose proof (refs_acc_trans _ _ _ _ _ Hra1 (swap_comp _ _ _ _ _ Hra2 Hra3 Hne)) as Hra.
      split; [eapply same_keys_trans; [by apply links_only_keys|by eapply refs_acc_keys]|]. left. eexists. split; [done|].
      split; [by eexists _, _|]. by apply Hfin.
    + rewrite Ee. cbn [deref]. res_simpl.
      destruct (put_back _ _ _ _ _ _ _ _ _ _ _ Hw Hr Hm Hn Hl Hs Hr' Hm' Hrel E Eno Hne) as (r & ht2 & h2 & E2 & Ef & Hk2 & Hw2).
      cbn [ht_ with_ht]. rewrite E2. res_simpl. rewrite Ef. res_simpl. rewrite bool_decide_true by done. res_simpl.
      eexists _, _, _. split; [done|]. split; [done|]. right. by exists e.
  - rewrite hm_null, (nodeMark_ok _ _ _ _ Hy). res_simpl. eexists _, _, _. split; [done|].
    pose proof (mark_swap h1 node _ markAccessible true Hwo1 Hy Hf Hmark) as Hra.
    split; [eapply same_keys_trans; [by apply links_only_keys|by eapply refs_acc_keys]|]. left. eexists. split; [done|].
    split; [exists h, h; apply hm_null|]. by apply Hfin.
Qed.

(** ** Reachable states

    [M] is what the callers know to be in the table.  Between operations the
    items may change in every way that leaves the nodes of the table linked
    and their accessible bits alone. *)
Definition henv h h' M : Prop :=
  (∀ k p, M !! k = Some p → ∃ n n', h !! p = Some n ∧ h' !! p = Some n' ∧ hn_next n' = hn_next n ∧ hn_key n' = hn_key n) ∧
  (∀ p n', h' !! p = Some n' → fits 32 (hn_ref n') ∧ (isAccessible (hn_ref n') = true ↔ M !! hn_key n' = Some p)).
Inductive ht_reachable : Container → HStore → gmap (list Z) Z → Prop :=
  | reach_new config c h : 0 ≤ bucketsPower_ config → Config_new (bucketsPower_ config) (locksPower_ config) (hasherMagicId config) = Ok config →
      Container_new config = Ok c → (∀ p n, h !! p = Some n → fits 32 (hn_ref n) ∧ isAccessible (hn_ref n) = false) → ht_reachable c h ∅
  | reach_user config c h mem : 0 ≤ bucketsPower_ config → Config_new (bucketsPower_ config) (locksPower_ config) (hasherMagicId config) = Ok config →
      Container_user config mem = Ok c → (∀ p n, h !! p = Some n → fits 32 (hn_ref n) ∧ isAccessible (hn_ref n) = false) → ht_reachable c h ∅
  | reach_step c h M o ret c' h' M' : ht_reachable c h M → hop_ok o h → hstep o c h = Ok (ret, c', h') → h_spec o h M ret M' → ht_reachable c' h' M'
  | reach_env c h M h' : ht_reachable c h M → henv h h' M → ht_reachable c h' M
  | reach_iter c h M f : ht_reachable c h M → ht_reachable (with_iterators f c) h M.

Lemma h_spec_det o h M ret M1 M2 : hop_ok o h → h_spec o h M ret M1 → h_spec o h M ret M2 → M1 = M2.
Proof.
  intros Hok H1 H2. assert (∀ p, is_node h p → ∃ n, h !! p = Some n ∧ has_key h (hn_key n) p) as Hex.
  { intros p [_ [n Hn]]. exists n. split; [done|]. by apply (has_key_node _ _ n). }
  destruct o as [p|p|old new f|p|p f|key]; cbn [hop_ok h_spec] in *.
  - destruct (Hex p Hok) as (n & Hn & Hk). specialize (H1 _ Hk). specialize (H2 _ Hk). destruct (M !! hn_key n); naive_solver.
  - destruct (Hex p Hok) as (n & Hn & Hk). specialize (H1 _ Hk). specialize (H2 _ Hk). case_decide; naive_solver.
  - destruct (Hex old (proj1 Hok)) as (n & Hn & Hk). specialize (H1 _ Hn). specialize (H2 _ Hn). case_decide; naive_solver.
  - destruct (Hex p Hok) as (n & Hn & Hk). specialize (H1 _ Hk). specialize (H2 _ Hk). case_decide; naive_solver.
  - destruct (Hex p Hok) as (n & Hn & Hk). specialize (H1 _ Hn). specialize (H2 _ Hn). case_decide; naive_solver.
  - naive_solver.
Qed.
Lemma hstep_aux o c h M : ht_wf c h M → hop_ok o h →
  ∃ ret c' h' M', hstep o c h = Ok (ret, c', h') ∧ h_spec o h M ret M' ∧ same_keys h h' ∧ ht_wf c' h' M'.
Proof.
  intros Hw Hok. destruct o as [p|p|old new f|p|p f|key]; cbn [hop_ok h_spec hstep] in *.
  - destruct Hok as [Hv [n Hn]]. destruct (ht_insert_aux c h M p n Hw Hn Hv) as (b & c' & h' & -> & Hk & H1). res_simpl.
    destruct (M !! hn_key n) eqn:E; destruct H1 as [-> Hw']; eexists _, _, _, _; (split; [done|]); (split; [|by split]);
      intros k Hpk; apply (has_key_node _ _ n) in Hpk as <-; try done; by rewrite E.
  - destruct Hok as [Hv [n Hn]]. destruct (insertOrReplace_aux c h M p n Hw Hn Hv) as (x & c' & h' & -> & Hk & H1). res_simpl. case_decide as Hd.
    + destruct H1 as [-> Hw']. eexists _, _, _, _. split; [done|]. split; [|by split]. intros k Hpk; apply (has_key_node _ _ n) in Hpk as <-; [|done].
      by rewrite decide_True.
    + destruct H1 as [(y & -> & Hmade & Hw')|(e & -> & Hne & Hw')]; eexists _, _, _, _; (split; [done|]); (split; [|by split]);
        intros k Hpk; apply (has_key_node _ _ n) in Hpk as <-; try done; rewrite decide_False by done; [left; by exists y|right; by exists e].
  - destruct Hok as ([_ [n Hn]] & [Hv [n' Hn']] & Hne & Ek & Ha). rewrite Hn, Hn' in Ek. injection Ek as Ek. rewrite Hn' in Ha. injection Ha as Ha.
    destruct (replaceIf_aux c h M old new n n' f Hw Hn Hn' Hv Hne Ek Ha) as (b & c' & h' & -> & Hk & H1). res_simpl.
    case_decide as Hd; destruct H1 as [-> Hw']; eexists _, _, _, _; (split; [done|]); (split; [|by split]); intros m Hm; simplify_eq;
      [by rewrite decide_True|by rewrite decide_False].
  - destruct Hok as [_ [n Hn]]. destruct (ht_remove_aux c h M p n Hw Hn) as (b & c' & h' & -> & Hk & H1). res_simpl.
    case_decide as Hd; destruct H1 as [-> Hw']; eexists _, _, _, _; (split; [done|]); (split; [|by split]); intros k Hpk;
      apply (has_key_node _ _ n) in Hpk as <-; try done; [by rewrite decide_True|by rewrite decide_False].
  - destruct Hok as [_ [n Hn]]. pose proof (removeIf_aux c h M p n f Hw Hn) as H1. case_decide as Hd.
    + destruct H1 as [(x & c' & h' & -> & Hmade & Hk & Hw')|(e & ->)]; cbn [caught]; eexists _, _, _, _; (split; [done|]); (split; [|by split]);
        intros m Hm; simplify_eq; rewrite decide_True by done; [left; by exists x|right; by exists e].
    + rewrite H1. cbn [caught]. eexists _, _, _, _. split; [done|]. split; [|by split]. intros m Hm. simplify_eq. by rewrite decide_False.
  - destruct (ht_find_aux c h M key Hw) as [(x & h' & -> & Hmade & Hk & Hw')|(e & -> & Hne)]; cbn [caught]; eexists _, _, _, _; (split; [done|]);
      (split; [|by split]); (split; [done|]); [left; by exists x|right; by exists e].
Qed.
Lemma wf_env c h M h' : ht_wf c h M → henv h h' M → ht_wf c h' M.
Proof.
  intros Hw [Hn Hacc]. destruct (w_rep _ _ _ Hw) as (B & Hr & Hm).
  assert (∀ b p, in_range (ht_ c) b → p ∈ B b → ∃ n n', h !! p = Some n ∧ h' !! p = Some n' ∧ hn_next n' = hn_next n ∧ hn_key n' = hn_key n) as Hin.
  { intros b p Hb Hp. destruct (rep_elem _ _ _ _ _ Hr Hb Hp) as (_ & n & Hpn & <-). apply (Hn (hn_key n)). apply Hm. split; [done|]. by apply (has_key_node _ _ n). }
  assert (∀ b p k, in_range (ht_ c) b → p ∈ B b → has_key h' k p ↔ has_key h k p) as Hk.
  { intros b p k Hb Hp. destruct (Hin b p Hb Hp) as (n & n' & E & E' & _ & Ek). rewrite (has_key_node _ _ n' _ E'), (has_key_node _ _ n _ E). by rewrite Ek. }
  split; [exists B|apply Hw|done|apply Hw|apply Hw]. split.
  - split; try apply Hr.
    + intros b Hb. destruct (r_chain _ _ _ Hr b Hb) as (x & Hx & Hc). exists x. split; [done|]. eapply ht_chain_frame; [done|].
      intros p Hp. destruct (Hin b p Hb Hp) as (n & n' & -> & -> & E & _). cbn. by rewrite E.
    + intros b p k Hb Hp Hpk. apply (Hk b) in Hpk; [|done..]. by eapply (r_home _ _ _ Hr).
    + intros b p q k Hb Hp Hq Hpk Hqk. apply (Hk b) in Hpk; [|done..]. apply (Hk b) in Hqk; [|done..]. by eapply (r_unique _ _ _ Hr b).
  - intros k p. rewrite (Hm k p). unfold entry. split; intros [Hp Hpk]; (split; [done|]); by apply (Hk (bucket k (ht_ c))); [eapply bucket_range| |].
Qed.
Lemma config_range config : 0 ≤ bucketsPower_ config → Config_new (bucketsPower_ config) (locksPower_ config) (hasherMagicId config) = Ok config →
  getNumBuckets config = 2 ^ bucketsPower_ config ∧ 0 ≤ bucketsPower_ config ≤ 32 ∧ 0 < 2 ^ bucketsPower_ config ≤ 2 ^ 32.
Proof.
  intros Hpow Hc. unfold Config_new in Hc. destruct (kMaxBucketPower <? bucketsPower_ config) eqn:Eb; [done|]. apply Z.ltb_ge in Eb.
  change kMaxBucketPower with 32 in Eb. split; [|split; [lia|split; [lia|apply Z.pow_le_mono_r; lia]]].
  unfold getNumBuckets. rewrite Z.shiftl_1_l. apply wrap_small. split; [lia|]. apply Z.pow_lt_mono_r; lia.
Qed.
Lemma land_pow2 e : 0 ≤ e → Z.land (2 ^ e) (2 ^ e - 1) = 0.
Proof. intros He. rewrite land_ones_mod by done. apply Z.mod_same. lia. Qed.
Lemma ht_new_wf config c h (restorable : bool) : 0 ≤ bucketsPower_ config → Config_new (bucketsPower_ config) (locksPower_ config) (hasherMagicId config) = Ok config →
  (∃ x0, pc_compress None = Ok x0 ∧
     c = mkContainer config (mkImpl (getNumBuckets config) (u64 (getNumBuckets config - 1)) (replicate (Z.to_nat (getNumBuckets config)) x0) restorable) 0 0) →
  (∀ p n, h !! p = Some n → fits 32 (hn_ref n) ∧ isAccessible (hn_ref n) = false) → ht_wf c h ∅.
Proof.
  intros Hpow Hc (c0 & E0 & ->) Hh. pose proof (config_range config Hpow Hc) as (En & Hb & Hp). destruct (pc_null) as (c1 & E1 & _ & Eu).
  assert (c1 = c0) as -> by congruence. rewrite En. split; cbn.
  - exists (λ _, []). split; [split; cbn|].
    + exists (bucketsPower_ config). lia.
    + rewrite wrap_small; [done|]. unfold fits. lia.
    + rewrite length_replicate. lia.
    + intros b [Hb1 Hb2]. cbn in Hb2. exists c0. split; [apply lookup_replicate; split; [done|lia]|]. by split.
    + intros b p k _ Hp'. by apply elem_of_nil in Hp'.
    + intros b p q k _ Hp'. by apply elem_of_nil in Hp'.
    + intros. constructor.
    + intros k p. rewrite lookup_empty. unfold entry. split; [done|]. intros [Hp' _]. by apply elem_of_nil in Hp'.
  - done.
  - intros p n Hn. destruct (Hh p n Hn) as [Hf Ha]. split; [done|]. by rewrite Ha, lookup_empty.
  - done.
  - done.
Qed.
Lemma impl_check_pow config : 0 ≤ bucketsPower_ config → Config_new (bucketsPower_ config) (locksPower_ config) (hasherMagicId config) = Ok config →
  Impl_check (getNumBuckets config) = Ok ().
Proof.
  intros Hpow Hc. destruct (config_range config Hpow Hc) as (En & Hb & Hp). unfold Impl_check. rewrite En, (proj2 (Z.eqb_neq _ _)) by lia. res_simpl.
  by rewrite land_pow2.
Qed.
Lemma ht_reachable_wf c h M : ht_reachable c h M → ht_wf c h M.
Proof.
  induction 1 as [config c h Hpow Hc E Hh|config c h mem Hpow Hc E Hh|c h M o ret c' h' M' _ IH Hok E Hs|c h M h' _ IH He|c h M f _ IH].
  - unfold Container_new, Impl_new in E. rewrite impl_check_pow in E by done. res_simpl. destruct pc_null as (c0 & E0 & _). rewrite E0 in E. res_simpl.
    injection E as <-. eapply (ht_new_wf config _ _ false); try done. by exists c0.
  - unfold Container_user, Impl_user in E. rewrite impl_check_pow in E by done. res_simpl. destruct pc_null as (c0 & E0 & _). rewrite E0 in E. res_simpl.
    injection E as <-. eapply (ht_new_wf config _ _ true); try done. by exists c0.
  - destruct (hstep_aux o c h M IH Hok) as (ret2 & c2 & h2 & M2 & E2 & Hs2 & _ & Hw). rewrite E in E2. injection E2 as <- <- <-.
    by rewrite (h_spec_det _ _ _ _ _ _ Hok Hs Hs2).
  - by eapply wf_env.
  - destruct IH as [Hrep Hb Hr Hk Hcf]. by split.
Qed.

(** ** Iteration *)
(** A handle [x] to [p] can be had from the item as it is in [h]. *)
Definition grants h (p : Z) (x : Handle) : Prop := ∀ h', h' !! p = h !! p → ∃ h'', handleMaker (Some p) h' = Ok (x, h'').
(** Compressed pointers are 32 bits wide, so there are fewer nodes than that. *)
Lemma few_nodes (xs : list Z) : NoDup xs → Forall valid_ptr xs → Z.of_nat (length xs) < 2 ^ 32.
Proof.
  intros Hnd Hv. destruct pc_null as (c0 & E0 & F0 & U0).
  assert (∃ cs, length cs = length xs ∧ Forall2 (λ p x, fits 32 x ∧ pc_unCompress x = Ok (Some p)) xs cs) as (cs & Hlen & H2).
  { clear Hnd. induction Hv as [|p xs Hp _ (cs & Hl & H2)]; [by exists []; split|]. destruct (pc_roundtrip p Hp) as (x & _ & Hf & Hu).
    exists (x :: cs). cbn. split; [by rewrite Hl|]. by constructor. }
  assert (∀ i x, cs !! i = Some x → ∃ p, xs !! i = Some p ∧ fits 32 x ∧ pc_unCompress x = Ok (Some p)) as Hl.
  { intros i x Hx. destruct (Forall2_lookup_r _ _ _ _ _ H2 Hx) as (p & Hp & Hf & Hu). by exists p. }
  assert (length (c0 :: cs) ≤ length (seqZ 0 (2 ^ 32)))%nat as Hle.
  { apply submseteq_length, NoDup_submseteq.
    - apply NoDup_cons. split.
      + intros [i Hi]%list_elem_of_lookup. destruct (Hl i c0 Hi) as (p & _ & _ & Hu). congruence.
      + apply NoDup_alt. intros i j x Hi Hj. destruct (Hl i x Hi) as (p & Hp & _ & Hu), (Hl j x Hj) as (q & Hq & _ & Hu').
        rewrite Hu in Hu'. injection Hu' as <-. by eapply NoDup_lookup.
    - intros x [->|[i Hi]%list_elem_of_lookup]%elem_of_cons; apply elem_of_seqZ; unfold fits in *; [lia|]. destruct (Hl i x Hi) as (_ & _ & Hf & _). lia. }
  rewrite length_seqZ in Hle. cbn [length] in Hle. lia.
Qed.
Lemma handles_loop_spec c M : ∀ nodes h, ht_wf c h M → NoDup nodes → (∀ p, p ∈ nodes → is_Some (h !! p)) →
  ∃ hs h', handles_loop nodes h = Ok (hs, h') ∧ ht_wf c h' M ∧ (hs = [] → h' = h) ∧ (length hs ≤ length nodes)%nat ∧ ∀ p x, p ∈ nodes → grants h p x → x ∈ hs.
Proof.
  induction nodes as [|e nodes IH]; intros h Hw Hnd Hin.
  { exists [], h. split; [done|]. split; [done|]. split; [done|]. split; [done|]. intros p x Hp. by apply elem_of_nil in Hp. }
  apply NoDup_cons in Hnd as [He Hnd]. destruct (Hin e ltac:(by left)) as [n Hn]. cbn [handles_loop].
  destruct (hm_cases c h M e n Hw Hn) as [(y & ref & Ey & _ & _ & Hra)|(ex & Eex)].
  - rewrite Ey. destruct (IH (<[e:=with_ref ref n]> h)) as (hs & h' & E & Hw' & _ & Hlh & Hg); [by eapply wf_refs|done| |].
    { intros p Hp. rewrite lookup_insert_ne by (intros ->; done). apply Hin. by right. }
    rewrite E. res_simpl. exists (y :: hs), h'. split; [done|]. split; [done|]. split; [done|]. split; [cbn; lia|]. intros p x [->|Hp]%elem_of_cons Hgr.
    + destruct (Hgr h eq_refl) as (h'' & E''). rewrite Ey in E''. injection E'' as -> _. by left.
    + right. apply (Hg p x Hp). intros h2 E2. apply Hgr. rewrite E2, lookup_insert_ne; [done|]. intros ->. done.
  - rewrite Eex. destruct (IH h) as (hs & h' & E & Hw' & He' & Hlh & Hg); [done|done|intros; apply Hin; by right|].
    exists hs, h'. split; [done|]. split; [done|]. split; [done|]. split; [cbn; lia|]. intros p x [->|Hp]%elem_of_cons Hgr; [|by apply Hg with p].
    destruct (Hgr h eq_refl) as (h'' & E''). congruence.
Qed.
Lemma getBucketElems_spec c h M b : ht_wf c h M → in_range (ht_ c) b →
  ∃ hs h', getBucketElems b c h = Ok (hs, h') ∧ ht_wf c h' M ∧ (hs = [] → h' = h) ∧ Z.of_nat (length hs) < 2 ^ 32 ∧
    ∀ k p x, M !! k = Some p → bucket k (ht_ c) = b → grants h p x → x ∈ hs.
Proof.
  intros Hw Hb. destruct (w_rep _ _ _ Hw) as (B & Hr & Hm). destruct (head_ok _ _ _ _ Hr Hb) as (x & Ex & Hc & _).
  unfold getBucketElems, forEachBucketElem. rewrite Ex. res_simpl. rewrite (chain_head _ _ _ Hc). res_simpl.
  rewrite (elems_loop_spec _ _ _ _ Hc) by by eapply rep_fuel. res_simpl.
  destruct (handles_loop_spec c M (B b) h Hw (r_nodup _ _ _ Hr b Hb)) as (hs & h' & E & Hw' & He & Hlh & Hg); [intros p Hp; by eapply ht_chain_elem|].
  assert (Z.of_nat (length (B b)) < 2 ^ 32). { apply few_nodes; [by apply Hr|]. apply Forall_forall. intros p Hp. by eapply ht_chain_elem. }
  exists hs, h'. split; [done|]. split; [done|]. split; [done|]. split; [lia|]. intros k p y E' Eb Hgr. apply (Hg p y); [|done]. apply Hm in E' as [Hp _]. by rewrite Eb in Hp.
Qed.
(** No item in front of the iterator is missed. *)
Definition ahead c (k : list Z) (x : Handle) (it : Iterator) : Prop :=
  x ∈ drop (Z.to_nat (curSor_ it)) (bucketElems_ it) ∨ currBucket_ it < bucket k (ht_ c).
Definition iter_ok c (it : Iterator) : Prop :=
  0 ≤ currBucket_ it ≤ numBuckets_ (ht_ c) ∧ 0 ≤ curSor_ it ∧
  (bucketElems_ it = [] ∧ currBucket_ it = numBuckets_ (ht_ c) ∨
   currBucket_ it < numBuckets_ (ht_ c) ∧ curSor_ it < Z.of_nat (length (bucketElems_ it)) < 2 ^ 32).
Lemma num_small ht h B : ht_rep ht h B → 0 < numBuckets_ ht ≤ 2 ^ 32.
Proof. intros Hr. destruct (r_num _ _ _ Hr) as (e & He & ->). split; [lia|]. apply Z.pow_le_mono_r; lia. Qed.
Lemma advance_loop_spec c M : ∀ fuel b h, ht_wf c h M → 0 ≤ b ≤ numBuckets_ (ht_ c) → numBuckets_ (ht_ c) - b ≤ Z.of_nat fuel →
  ∃ it h', advance_loop fuel b c h = Ok (it, h') ∧ ht_wf c h' M ∧ iter_ok c it ∧ b ≤ currBucket_ it ∧
    ∀ k p x, M !! k = Some p → b ≤ bucket k (ht_ c) → grants h p x → ahead c k x it.
Proof.
  induction fuel as [|fuel IH]; intros b h Hw Hb Hf.
  all: destruct (w_rep _ _ _ Hw) as (B & Hr & Hm); pose proof (num_small _ _ _ Hr) as Hn; cbn [advance_loop]; rewrite (w_buckets _ _ _ Hw).
  all: destruct (Z.ltb_spec b (numBuckets_ (ht_ c))) as [Hlt|Hge]; [try lia|].
  1, 3: exists (mkIterator b 0 []), h; split; [done|]; split; [done|]; split; [split; [done|]; split; [done|]; left; cbn; split; [done|lia]|]; split; [done|];
    intros k p x _ Hk; pose proof (bucket_range _ _ _ k Hr); unfold in_range in *; lia.
  destruct (getBucketElems_spec c h M b Hw) as (hs & h1 & E & Hw1 & He & Hlh & Hg); [unfold in_range; lia|]. rewrite E. res_simpl. destruct hs as [|y hs].
  - rewrite He by done. clear h1 E Hw1 He Hlh. rewrite wrap_small by (unfold fits; lia). destruct (IH (b + 1) h) as (it & h' & E' & Hw' & Hok & Hle & Ha); [done|lia|lia|].
    exists it, h'. split; [done|]. split; [done|]. split; [done|]. split; [lia|]. intros k p x Ek Hk Hgr.
    apply (Ha k p x); [done| |done]. destruct (decide (bucket k (ht_ c) = b)) as [Eb|]; [|lia]. exfalso.
    specialize (Hg k p x Ek Eb Hgr). by apply elem_of_nil in Hg.
  - exists (mkIterator b 0 (y :: hs)), h1. split; [done|]. split; [done|]. split; [split; [cbn; lia|]; split; [done|]; right; cbn in *; lia|]. split; [done|].
    intros k p x Ek Hk Hgr. destruct (decide (bucket k (ht_ c) = b)) as [Eb|]; [left|right; cbn; lia]. exact (Hg k p x Ek Eb Hgr).
Qed.
Lemma reset_is_advance c M h : ht_wf c h M → iter_reset c h = advance_loop (S (iter_fuel c)) 0 c h.
Proof.
  intros Hw. destruct (w_rep _ _ _ Hw) as (B & Hr & Hm). pose proof (num_small _ _ _ Hr) as Hn. pose proof (w_buckets _ _ _ Hw) as Eb.
  assert (∀ fuel b elems h, 0 ≤ b < numBuckets_ (ht_ c) →
    reset_loop fuel b elems c h = match elems with [] => advance_loop fuel (u64 (b + 1)) c h | _ :: _ => Ok (mkIterator b 0 elems, h) end) as Hloop.
  { clear h Hw Hr Hm. induction fuel as [|fuel IH]; intros b [|y elems] h Hb; try done; cbn [reset_loop advance_loop].
    rewrite wrap_small by (unfold fits; lia). destruct (Z.ltb_spec (b + 1) (getNumBuckets (config_ c))) as [Hlt|]; [|done].
    destruct (getBucketElems (b + 1) c h) as [[elems h1]| |]; res_simpl; [|done|done]. apply IH. lia. }
  unfold iter_reset. cbn [advance_loop]. rewrite (w_buckets _ _ _ Hw), (proj2 (Z.ltb_lt _ _)) by lia.
  destruct (getBucketElems 0 c h) as [[elems h1]| |]; res_simpl; [|done|done]. rewrite Hloop by lia. done.
Qed.
Lemma iter_incr_spec c h M it : ht_wf c h M → iter_ok c it → bucketElems_ it ≠ [] →
  ∃ it' h', iter_incr it c h = Ok (it', h') ∧ ht_wf c h' M ∧ iter_ok c it' ∧
    (currBucket_ it < currBucket_ it' ∨ it' = mkIterator (currBucket_ it) (curSor_ it + 1) (bucketElems_ it)) ∧
    ∀ k p x y, M !! k = Some p → grants h p x → iter_curr it = Ok y → ahead c k x it → x = y ∨ ahead c k x it'.
Proof.
  intros Hw (Hb & Hcur & Hel) Hne. destruct Hel as [[? _]|[Hlb Hel]]; [done|]. unfold iter_incr. rewrite wrap_small by (unfold fits; lia).
  destruct (w_rep _ _ _ Hw) as (B & Hr & Hm). pose proof (num_small _ _ _ Hr) as Hn.
  assert (∀ x y, iter_curr it = Ok y → x ∈ drop (Z.to_nat (curSor_ it)) (bucketElems_ it) → x = y ∨ x ∈ drop (Z.to_nat (curSor_ it + 1)) (bucketElems_ it)) as Hdrop.
  { intros x y Ey Hx. unfold iter_curr in Ey. destruct (bucketElems_ it !! _) as [z|] eqn:E; [|done]. injection Ey as ->.
    rewrite (drop_S _ _ _ E) in Hx. apply elem_of_cons in Hx as [->|Hx]; [by left|right]. by rewrite Z.add_1_r, Z2Nat.inj_succ. }
  destruct (Z.ltb_spec (curSor_ it + 1) (Z.of_nat (length (bucketElems_ it)))) as [Hlt|Hge].
  - eexists _, h. split; [done|]. split; [done|]. split; [split; [done|]; split; [cbn; lia|]; right; cbn; lia|]. split; [by right|].
    intros k p x y Ek Hg Ey [Hx|Hx]; [|right; by right]. destruct (Hdrop x y Ey Hx) as [->|Hx']; [by left|right; by left].
  - rewrite wrap_small by (unfold fits; lia).
    destruct (advance_loop_spec c M (iter_fuel c) (currBucket_ it + 1) h Hw) as (it' & h' & E & Hw' & Hok & Hle & Ha); [lia|unfold iter_fuel; rewrite (w_buckets _ _ _ Hw); lia|].
    exists it', h'. split; [done|]. split; [done|]. split; [done|]. split; [left; lia|]. intros k p x y Ek Hg Ey [Hx|Hx].
    + destruct (Hdrop x y Ey Hx) as [->|Hx']; [by left|]. rewrite drop_ge in Hx' by lia. by apply elem_of_nil in Hx'.
    + right. apply (Ha k p x); [done|lia|done].
Qed.

(** Walking on while other operations happen: the calls to [operator++] find
    the table in the given states. *)
Fixpoint iterate (it : Iterator) (states : list (Container * HStore)) (visited : list Handle) : result (Iterator * list Handle) :=
  match states with
  | [] => Ok (it, visited)
  | (c, h) :: states =>
      match iter_curr it with
      | Ok x => '(it, _) ← iter_incr it c h; iterate it states (visited ++ [x])
      | Throw _ => Ok (it, visited)
      | Undef => Undef
      end
  end.
Definition finished (it : Iterator) : Prop := bucketElems_ it = [].
(** A state of the table in which [k] is at [p], which grants [x]. *)
Definition holds (num : Z) (k : list Z) (p : Z) (x : Handle) (s : Container * HStore) : Prop :=
  ∃ M, ht_reachable s.1 s.2 M ∧ numBuckets_ (ht_ s.1) = num ∧ M !! k = Some p ∧ grants s.2 p x.

(** ** The number of keys *)
Lemma map_small c h M : ht_wf c h M → Z.of_nat (size M) < 2 ^ 32.
Proof.
  intros Hw. destruct (w_rep _ _ _ Hw) as (B & Hr & Hm). rewrite <- length_map_to_list, <- (length_fmap snd). apply few_nodes.
  - apply NoDup_fmap_2_strong; [|apply NoDup_map_to_list]. intros [k p] [k' p'] H1 H2 E. cbn in E. subst p'.
    apply elem_of_map_to_list in H1, H2. apply Hm in H1 as [_ H1], H2 as [_ H2]. unfold has_key in *. congruence.
  - apply Forall_fmap, Forall_forall. intros [k p] Hin%elem_of_map_to_list. cbn. apply Hm in Hin as [Hin _].
    by eapply rep_elem; [|eapply bucket_range|].
Qed.
Lemma keys_exact c h M : ht_wf c h M → numKeys_ c = Z.of_nat (size M).
Proof. intros Hw. rewrite (w_keys _ _ _ Hw). apply wrap_small. pose proof (map_small _ _ _ Hw). unfold fits. lia. Qed.

(** C14: the hash table is a map from keys to items.  In every state reachable from
    a new table by operations, and by changes to items that leave those in the
    table linked, every operation on existing items returns without null
    dereference, failed check or runaway loop; it answers and changes the map
    exactly as [h_spec] says, also when no handle can be made; and
    [getNumKeys] is the number of keys. *)
Theorem hash_table_refines c h M o : ht_reachable c h M → hop_ok o h →
  numKeys_ c = Z.of_nat (size M) ∧
  ∃ ret c' h' M', hstep o c h = Ok (ret, c', h') ∧ h_spec o h M ret M' ∧ ht_reachable c' h' M'.
Proof.
  intros Hre Hok. pose proof (ht_reachable_wf _ _ _ Hre) as Hw. split; [by eapply keys_exact|].
  destruct (hstep_aux o c h M Hw Hok) as (ret & c' & h' & M' & E & Hs & _ & _). exists ret, c', h', M'. split; [done|]. split; [done|]. by eapply reach_step.
Qed.

(** C19: an item is in the table exactly when its accessible bit is set, and then
    it is the one found under its key: no item is in two chains, hidden behind
    another one with its key, or marked but lost. *)
Theorem accessible_iff_found c h M p n : ht_reachable c h M → h !! p = Some n →
  (isAccessible (hn_ref n) = true ↔ M !! hn_key n = Some p) ∧
  (isAccessible (hn_ref n) = true ↔ findInBucket (hn_key n) (bucket (hn_key n) (ht_ c)) (ht_ c) h = Ok (Some p)).
Proof.
  intros Hw%ht_reachable_wf Hn. destruct (w_ref _ _ _ Hw p n Hn) as [_ Ha]. split; [done|]. rewrite Ha.
  destruct (w_rep _ _ _ Hw) as (B & Hr & Hm). destruct (findInBucket_spec _ _ _ (hn_key n) Hr) as [Hf Hnf]. split.
  - intros E%Hm. by apply Hf.
  - intros E. destruct (M !! hn_key n) as [q|] eqn:Eq.
    + apply Hm in Eq as Hq. rewrite (Hf q Hq) in E. by injection E as ->.
    + rewrite Hnf in E; [done|]. intros q Hq%Hm. congruence.
Qed.

Lemma same_bucket c h M c' h' M' k : ht_wf c h M → ht_wf c' h' M' → numBuckets_ (ht_ c) = numBuckets_ (ht_ c') → bucket k (ht_ c) = bucket k (ht_ c').
Proof.
  intros Hw Hw' E. destruct (w_rep _ _ _ Hw) as (B & Hr & _), (w_rep _ _ _ Hw') as (B' & Hr' & _). unfold getBucket.
  by rewrite (r_mask _ _ _ Hr), (r_mask _ _ _ Hr'), E.
Qed.
Lemma iterate_spec num k p x : ∀ states it visited c h, holds num k p x (c, h) → iter_ok c it → (x ∈ visited ∨ ahead c k x it) →
  Forall (holds num k p x) states →
  ∃ it' visited', iterate it states visited = Ok (it', visited') ∧
    (x ∈ visited' ∨ ¬ finished it' ∧ length visited' = (length visited + length states)%nat).
Proof.
  induction states as [|[c' h'] states IH]; intros it visited c h (M & Hre & Hnum & Ek & Hg) Hok Hx Hall; cbn in Hnum.
  all: pose proof (ht_reachable_wf _ _ _ Hre) as Hw; cbn in Hw; destruct (w_rep _ _ _ Hw) as (B & Hr & _); pose proof (bucket_range _ _ _ k Hr) as [_ Hbk].
  all: assert (finished it → x ∈ visited) as Hfin by (intros Hf; destruct Hx as [Hx|Hx]; [done|]; exfalso; destruct Hok as (_ & Hcs & [[He Heb]|[_ Hl]]);
    [destruct Hx as [Hx|Hx]; [rewrite He, drop_nil in Hx; by apply elem_of_nil in Hx|lia]|unfold finished in Hf; rewrite Hf in Hl; cbn in Hl; lia]).
  - exists it, visited. split; [done|]. destruct (decide (x ∈ visited)); [by left|right]. split; [naive_solver|cbn; lia].
  - cbn [iterate]. unfold iter_curr at 1. destruct (bucketElems_ it !! Z.to_nat (curSor_ it)) as [y|] eqn:Ey; cbn [length].
    + apply Forall_cons in Hall as [Hst Hall]. pose proof Hst as (M' & Hre' & Hnum' & Ek' & Hg'). cbn in Hnum', Hre', Hg'. pose proof (ht_reachable_wf _ _ _ Hre') as Hw'.
      assert (iter_ok c' it) as Hok'. { unfold iter_ok in *. by rewrite Hnum', <- Hnum. }
      assert (∀ j, ahead c k x j ↔ ahead c' k x j) as Hah.
      { intros j. unfold ahead. by rewrite (same_bucket c h M c' h' M' k Hw Hw' ltac:(congruence)). }
      destruct (iter_incr_spec c' h' M' it Hw' Hok') as (it' & h2 & E & Hw2 & Hok2 & _ & Hstep).
      { intros E. by rewrite E, lookup_nil in Ey. }
      rewrite E. res_simpl. destruct (IH it' (visited ++ [y]) c' h' Hst Hok2) as (it2 & v2 & E2 & H2); [|done|].
      { destruct Hx as [Hx|Hx]; [left; set_solver|]. apply Hah in Hx. destruct (Hstep k p x y Ek' Hg') as [->|Ha]; [|done|left; set_solver|by right].
        unfold iter_curr. by rewrite Ey. }
      exists it2, v2. split; [done|]. destruct H2 as [H2|[H2 H3]]; [by left|right]. split; [done|]. rewrite H3, length_app. cbn. lia.
    + exists it, visited. split; [done|]. left. apply Hfin. destruct Hok as (_ & Hcs & [[He _]|[_ Hl]]); [done|].
      apply lookup_ge_None in Ey. lia.
Qed.
(** C20: iterating misses no item that can be handed out.  While other operations run
    between the steps of an iterator, a key that stays in the table at the same
    item, of which a handle can be had in every one of these states, is visited
    before the iterator reaches the end; every step of the iterator returns and
    visits one element. *)
Theorem iteration_misses_nothing num k p x c h states : Forall (holds num k p x) ((c, h) :: states) →
  ∃ it c' h' it' visited, iter_begin c h = Ok (it, c', h') ∧ iterate it states [] = Ok (it', visited) ∧
    (x ∈ visited ∨ ¬ finished it' ∧ length visited = length states).
Proof.
  intros [Hst Hall]%Forall_cons. pose proof Hst as (M & Hre & Hnum & Ek & Hg). cbn in Hre, Hg, Hnum. apply reach_iter with (f := λ n, n + 1) in Hre.
  pose proof (ht_reachable_wf _ _ _ Hre) as Hw. unfold iter_begin. rewrite (reset_is_advance _ M) by done.
  destruct (w_rep _ _ _ Hw) as (B & Hr & _). pose proof (num_small _ _ _ Hr) as Hn.
  destruct (advance_loop_spec (with_iterators (λ n, n + 1) c) M (S (iter_fuel (with_iterators (λ n, n + 1) c))) 0 h Hw) as (it & h' & E & Hw' & Hok & _ & Ha);
    [lia|unfold iter_fuel; rewrite (w_buckets _ _ _ Hw); lia|].
  rewrite E. res_simpl. destruct (iterate_spec num k p x states it [] c h Hst) as (it' & visited & E' & Hv); [done| |done|].
  { right. change (ahead (with_iterators (λ n, n + 1) c) k x it). apply (Ha k p x); [done| |done]. by apply (bucket_range _ _ _ k Hr). }
  exists it, (with_iterators (λ n, n + 1) c), h', it', visited. split; [done|]. split; [done|]. done.
Qed.
(** Every step makes progress: to a later bucket, or to the next element. *)
Theorem iteration_progress c h M it : ht_reachable c h M → iter_ok c it → bucketElems_ it ≠ [] →
  ∃ it' h', iter_incr it c h = Ok (it', h') ∧ iter_ok c it' ∧
    (currBucket_ it < currBucket_ it' ∨ it' = mkIterator (currBucket_ it) (curSor_ it + 1) (bucketElems_ it)).
Proof.
  intros Hw%ht_reachable_wf Hok Hne. destruct (iter_incr_spec c h M it Hw Hok Hne) as (it' & h' & E & _ & Hok' & Hp & _). by exists it', h'.
Qed.

(** A table over the user's memory saved and restored on it, with its
    configuration, is the same table; saving throws when the memory is the
    table's own or iterators are open. *)
Theorem ht_saveState_restore c h M : ht_reachable c h M → 0 ≤ locksPower_ (config_ c) → 
  if restorable_ (ht_ c) && (numIterators_ c =? 0) then
    ∃ o, ht_saveState c = Ok o ∧ Container_restore o (config_ c) (hashTable_ (ht_ c)) (impl_size (ht_ c)) = Ok c
  else ht_saveState c = Throw LogicError.
Proof.
  intros Hw%ht_reachable_wf Hlp. unfold ht_saveState. destruct (restorable_ (ht_ c)) eqn:Er; [|done]. destruct (Z.eqb_spec (numIterators_ c) 0) as [Ei|]; [|done]. res_simpl.
  destruct (w_config _ _ _ Hw) as [Hcf Hpow]. destruct (config_range _ Hpow Hcf) as (En & Hb & Hp). destruct (w_rep _ _ _ Hw) as (B & Hr & _).
  eexists. split; [done|]. unfold Container_restore, Impl_user. rewrite impl_check_pow by done. res_simpl. destruct pc_null as (c0 & -> & _). res_simpl.
  cbn [o_bucketsPower o_numKeys o_hasherMagicId]. rewrite (wrap_swrap 32), (wrap_swrap 64), !Z.eqb_refl by (try lia; unfold fits; rewrite ?(keys_exact _ _ _ Hw); pose proof (map_small _ _ _ Hw); lia). res_simpl.
  rewrite (w_buckets _ _ _ Hw) in *. unfold impl_size at 2. cbn [numBuckets_]. rewrite Z.eqb_refl. res_simpl. rewrite andb_false_r. res_simpl. f_equal.
  pose proof (r_mask _ _ _ Hr) as Emask. clear Hr. destruct c as [cf [nb mask tbl res] ni nk]. cbn in *. subst. f_equal. f_equal.
  apply wrap_small. unfold fits. lia.
Qed.
End tables.

(** ** Handle makers *)
Lemma incRef_accessible v r v' : fits 32 v → incRef v = Ok (r, v') → fits 32 v' ∧ isAccessible v' = isAccessible v.
Proof.
  intros Hv E. assert (run_op OpIncRef v = Ok (RInc r, v')) as Er by (cbn [run_op]; by rewrite E).
  destruct (run_op_spec _ _ _ _ Hv Er) as [Hs Hf]. split; [done|]. cbn [spec_op] in Hs.
  destruct (observers_decode v) as (_ & _ & -> & _), (observers_decode v') as (_ & _ & -> & _).
  revert Hs. generalize (decode v') (decode v). intros d' d Hs. destruct (_ =? _); [done|]. destruct (rs_exclusive d); by injection Hs as _ <-.
Qed.
Lemma incRef_returns v : (∃ r v', incRef v = Ok (r, v')) ∨ incRef v = Throw RefcountOverflow.
Proof. unfold incRef, atomicUpdateValue, incRef_predicate. repeat (case_match; res_simpl); try (by right); left; by eexists _, _. Qed.
Lemma default_some p n (h : HStore) : h !! p = Some n → fits 32 (hn_ref n) →
  (∃ handle ref, defaultHandleMaker (Some p) h = Ok (handle, <[p := with_ref ref n]> h) ∧ fits 32 ref ∧
     isAccessible ref = isAccessible (hn_ref n)) ∨ (∃ e, defaultHandleMaker (Some p) h = Throw e).
Proof.
  intros Hn Hf. cbn. rewrite Hn. res_simpl. destruct (incRef_returns (hn_ref n)) as [(r & v & E)|E]; rewrite E; res_simpl; [left|right; by eexists].
  eexists _, v. split; [done|]. by eapply incRef_accessible.
Qed.
Lemma acquire_some p n (h : HStore) : h !! p = Some n → fits 32 (hn_ref n) →
  (∃ handle ref, acquire (Some p) h = Ok (handle, <[p := with_ref ref n]> h) ∧ fits 32 ref ∧
     isAccessible ref = isAccessible (hn_ref n)) ∨ (∃ e, acquire (Some p) h = Throw e).
Proof.
  intros Hn Hf. cbn. rewrite Hn. res_simpl. destruct (incRef_returns (hn_ref n)) as [(r & v & E)|E]; rewrite E; res_simpl; [left|right; by eexists].
  assert (h = <[p := with_ref (hn_ref n) n]> h) as Eh by (symmetry; apply insert_id; by destruct n).
  destruct r; eexists _, _; (split; [first [reflexivity|rewrite <- Eh; reflexivity]|]); [by eapply incRef_accessible|done|done].
Qed.
#[global] Instance default_HandleMaker : HandleMaker | 10 :=
  {| handleMaker := defaultHandleMaker; hm_null := λ h, eq_refl; hm_some := default_some |}.
Definition cache_HandleMaker : HandleMaker :=
  {| handleMaker := acquire; hm_null := λ h, eq_refl; hm_some := acquire_some |}.

(** A default handle is to the node, and can be had while its count is below the
    maximum. *)
Lemma default_grants h p n : h !! p = Some n → Z.land (hn_ref n) kAccessRefMask ≠ kAccessRefMask → grants h p (HandleTo p).
Proof.
  intros Hn Hm h' E. cbn. rewrite E, Hn. res_simpl. destruct (incRef_returns (hn_ref n)) as [(r & v & ->)|Et]; res_simpl; [by eexists|].
  exfalso. unfold incRef, atomicUpdateValue, incRef_predicate in Et. rewrite (proj2 (Z.eqb_neq _ _)) in Et by done. by destruct (to_bool _).
Qed.

(** ** A concrete table of two buckets, with three items of two keys *)
#[local] Instance hex_compressor : PtrCompressor := slab_PtrCompressor sa_example2 sa_example2_wf.
Definition hex_node (k : Z) : Z := 5 * kSize + k * 1024.
Lemma hex_valid k : 0 ≤ k < 4096 → valid_ptr (hex_node k).
Proof.
  intros Hk. exists (5 * kSize), k. unfold alloc_at, hex_node. change (allocSize _) with 1024. split; [by vm_compute|]. split; [by vm_compute|].
  change kSize with (4096 * 1024). lia.
Qed.
Definition hex_hash (k : list Z) : Z := foldr Z.add 0 k.
Definition hex_store : HStore := list_to_map
  [(hex_node 0, mkHNode 0 [1] 0); (hex_node 1, mkHNode 0 [3] 0); (hex_node 2, mkHNode 0 [1] 0)].
Definition hex_config : Config := mkConfig 1 1 2.
Definition hex_new : Container := Eval vm_compute in
  match Container_user hex_config [0; 0] with Ok c => c | _ => mkContainer hex_config (mkImpl 0 0 [] false) 0 0 end.
Lemma hex_reach0 : ht_reachable hex_hash hex_new hex_store ∅.
Proof.
  apply (reach_user _ hex_config hex_new hex_store [0; 0]); [done|done|by vm_compute|]. intros p n Hn. unfold hex_store in Hn.
  apply elem_of_list_to_map_2 in Hn. repeat (apply elem_of_cons in Hn as [[= -> ->]|Hn]; [by vm_compute|]). by apply elem_of_nil in Hn.
Qed.
Lemma hex_is_node k h : 0 ≤ k < 3 → same_keys hex_store h → is_node h (hex_node k).
Proof.
  intros Hk Hs. split; [apply hex_valid; lia|]. specialize (Hs (hex_node k)). destruct (h !! hex_node k); [done|].
  assert (k = 0 ∨ k = 1 ∨ k = 2) as [-> | [-> | ->]] by lia; by vm_compute in Hs.
Qed.

(** One item inserted, then the other one with its key instead. *)
Definition hex_step (o : hop) (s : Container * HStore) : Container * HStore :=
  match hstep hex_hash o s.1 s.2 with Ok (_, c, h) => (c, h) | _ => s end.
Definition hex1 : Container * HStore := Eval vm_compute in hex_step (HInsert (hex_node 0)) (hex_new, hex_store).
Definition hex2 : Container * HStore := Eval vm_compute in hex_step (HInsert (hex_node 1)) hex1.
Lemma hex_reach1 : ht_reachable hex_hash hex1.1 hex1.2 {[ [1] := hex_node 0 ]}.
Proof.
  apply (reach_step _ hex_new hex_store ∅ (HInsert (hex_node 0)) (HBool true)); [apply hex_reach0|by apply (hex_is_node 0)|by vm_compute|].
  intros k Hk. vm_compute in Hk. injection Hk as <-. rewrite lookup_empty. done.
Qed.
Lemma hex_reach2 : ht_reachable hex_hash hex2.1 hex2.2 (<[ [3] := hex_node 1 ]> {[ [1] := hex_node 0 ]}).
Proof.
  apply (reach_step _ hex1.1 hex1.2 {[ [1] := hex_node 0 ]} (HInsert (hex_node 1)) (HBool true)); [apply hex_reach1| |by vm_compute|].
  - split; [by apply hex_valid|vm_compute; by eexists].
  - intros k Hk. vm_compute in Hk. injection Hk as <-. by rewrite lookup_singleton_ne.
Qed.
Lemma hash_table_refines_witness : numKeys_ hex2.1 = 2 ∧ ∃ c' h' M',
  hstep hex_hash (HInsertOrReplace (hex_node 2)) hex2.1 hex2.2 = Ok (HHandle (HandleTo (hex_node 0)), c', h') ∧
  ht_reachable hex_hash c' h' M' ∧ M' !! [1] = Some (hex_node 2) ∧ M' !! [3] = Some (hex_node 1).
Proof.
  destruct (hash_table_refines hex_hash hex2.1 hex2.2 _ (HInsertOrReplace (hex_node 2)) hex_reach2) as (E & ret & c' & h' & M' & Es & Hs & Hr).
  { split; [by apply hex_valid|vm_compute; by eexists]. }
  split; [exact E|]. assert (ret = HHandle (HandleTo (hex_node 0))) as -> by (vm_compute in Es; by injection Es as <- _ _).
  exists c', h', M'. split; [exact Es|]. split; [exact Hr|].
  specialize (Hs [1] eq_refl). rewrite decide_False in Hs by (by vm_compute). destruct Hs as [(x & _ & _ & ->)|(e & [=] & _)].
  split; [by rewrite lookup_insert_eq|by rewrite lookup_insert_ne, lookup_insert_eq].
Defined.
Lemma accessible_iff_found_witness : findInBucket [3] (getBucket hex_hash [3] (ht_ hex2.1)) (ht_ hex2.1) hex2.2 = Ok (Some (hex_node 1)).
Proof.
  destruct (hex2.2 !! hex_node 1) as [n|] eqn:En; [|by vm_compute in En].
  destruct (accessible_iff_found hex_hash hex2.1 hex2.2 _ (hex_node 1) n hex_reach2 En) as [_ H].
  vm_compute in En. injection En as <-. apply H. by vm_compute.
Defined.
(** The walk goes over the table of the first item, and then that of both. *)
Lemma iteration_misses_nothing_witness : ∃ it c' h' it' visited,
  iter_begin hex1.1 hex1.2 = Ok (it, c', h') ∧ iterate it [hex2; hex2] [] = Ok (it', visited) ∧ HandleTo (hex_node 0) ∈ visited.
Proof.
  assert (∀ s M, ht_reachable hex_hash s.1 s.2 M → numBuckets_ (ht_ s.1) = 2 → M !! [1] = Some (hex_node 0) →
    (∃ n, s.2 !! hex_node 0 = Some n ∧ Z.land (hn_ref n) kAccessRefMask = 0) → holds hex_hash 2 [1] (hex_node 0) (HandleTo (hex_node 0)) s) as Hh.
  { intros s M Hr Hn Em (n & En & Ez). exists M. split; [done|]. split; [done|]. split; [done|]. eapply default_grants; [done|]. by rewrite Ez. }
  destruct (iteration_misses_nothing hex_hash 2 [1] (hex_node 0) (HandleTo (hex_node 0)) hex1.1 hex1.2 [hex2; hex2])
    as (it & c' & h' & it' & visited & E & E' & H).
  - assert (holds hex_hash 2 [1] (hex_node 0) (HandleTo (hex_node 0)) (hex1.1, hex1.2)) as H1.
    { eapply (Hh (hex1.1, hex1.2)); [apply hex_reach1|reflexivity|reflexivity|eexists; split; reflexivity]. }
    assert (holds hex_hash 2 [1] (hex_node 0) (HandleTo (hex_node 0)) hex2) as H2.
    { eapply (Hh hex2); [apply hex_reach2|reflexivity|reflexivity|eexists; split; reflexivity]. }
    repeat (apply Forall_cons; split; [assumption|]). by apply Forall_nil.
  - exists it, c', h', it', visited. split; [exact E|]. split; [exact E'|]. destruct H as [H|[Hnf _]]; [exact H|].
    vm_compute in E. injection E as <- <- <-. vm_compute in E'. injection E' as <- <-. by vm_compute in Hnf.
Defined.
Lemma ht_saveState_restore_witness : ∃ o, ht_saveState hex2.1 = Ok o ∧
  Container_restore o (config_ hex2.1) (hashTable_ (ht_ hex2.1)) (impl_size (ht_ hex2.1)) = Ok hex2.1.
Proof. exact (ht_saveState_restore hex_hash hex2.1 hex2.2 _ hex_reach2 ltac:(done)). Defined.

(** ** Where the table does not do what it says *)

(** [getBucketElems] is to skip items of which no handle can be had; the cache's
    [acquire] gives a null handle, not an exception, for an item that is being
    evicted, and the null handle is put among the elements, so that
    dereferencing the iterator dereferences null.  [removeIf] of such an item
    returns a null handle, as if the item had not been there, but removes it. *)
Definition evicted : HStore := Eval vm_compute in
  match nodeMark (λ v, Z.lor (markInMMContainer v) (getAdminRef kExclusive)) (hex_node 0) hex1.2 with Ok h => h | _ => ∅ end.
Lemma null_handles_are_kept :
  getBucketElems (H0 := cache_HandleMaker) 1 hex1.1 evicted = Ok ([NullHandle], evicted) ∧
  ('(it, _, _) ← iter_begin (H0 := cache_HandleMaker) hex1.1 evicted; iter_curr it) = Ok NullHandle ∧
  ('(x, c, h) ← removeIf (H0 := cache_HandleMaker) hex_hash (hex_node 0) (λ _, true) hex1.1 evicted; y ← nodeIsAccessible (hex_node 0) h; Ok (x, numKeys_ c, y)) =
    Ok (NullHandle, 0, false).
Proof. by split_and!; vm_compute. Qed.
