(* ===== verification/CacheItem.v ===== *)
(** The cache item ([allocator/CacheItem.h], [CacheItem-inl.h]) and the keyed
    allocation at its end ([KAllocation.h]).

    An item is one object that three components share: the access container
    owns its access hook and the accessible bit, the memory-management container
    its MM hook, the linked bit and the MM flags, and the cache the handle count,
    the exclusive bit and the remaining flags of the reference-count word.
    [hstore] and [mstore] are the store of items as the access container and the
    MM container of one allocation class see it, and [put_h] and [put_m] write
    back what they changed.  The second part divides the reference-count word
    among the components. *)
From S2P Require Import Prelude Refcount SlabAllocator PtrCompressor DList MMCommon ChainedHashTable.

(** ** KAllocation *)
Definition kKeyMaxLen : Z := uint_max 8.
Definition kMaxValSizeBits : Z := 32 - 8.
Definition kMaxValSize : Z := Z.shiftl 1 kMaxValSizeBits - 1.
Definition isKeyValid (key : list Z) : bool :=
  (Z.of_nat (length key) <=? kKeyMaxLen) && negb (bool_decide (key = [])).
Definition throwIfKeyInvalid (key : list Z) : result unit := throw_if (negb (isKeyValid key)) InvalidArgument.
(** The size word of [KAllocation(key, valSize)]; the key is copied behind it. *)
Definition kalloc_size (key : list Z) (valSize : Z) : Z :=
  Z.lor (u32 (Z.shiftl (u32 (Z.of_nat (length key))) kMaxValSizeBits)) valSize.
Definition KAllocation_new (key : list Z) (valSize : Z) : result Z :=
  let size_ := kalloc_size key valSize in
  _ ← throw_if (kMaxValSize <? valSize) InvalidArgument;
  _ ← throwIfKeyInvalid key;
  Ok size_.
Definition kalloc_getSize (size_ : Z) : Z := Z.land size_ kMaxValSize.
Definition kalloc_getKeySize (size_ : Z) : Z := u32 (Z.shiftr size_ kMaxValSizeBits).

Lemma lor_high a b n : 0 ≤ n → 0 ≤ b < 2 ^ n → Z.lor (Z.shiftl a n) b = a * 2 ^ n + b.
Proof.
  intros Hn Hb. rewrite <- (Z.shiftl_mul_pow2 a n) by done. rewrite <- Z.lxor_lor, <- Z.add_nocarry_lxor; try done.
  all: apply Z.bits_inj'; intros i Hi; rewrite Z.land_spec, Z.bits_0, Z.shiftl_spec by done; destruct (decide (i < n)) as [Hlt|Hge];
    [by rewrite Z.testbit_neg_r by lia|]; assert (Z.testbit b i = false) as ->; [|apply andb_false_r];
    destruct (decide (b = 0)) as [->|Hne]; [apply Z.bits_0|]; apply Z.bits_above_log2; [lia|]; apply Z.log2_lt_pow2; [lia|];
    apply (Z.lt_le_trans _ (2 ^ n)); [lia|]; apply Z.pow_le_mono_r; lia.
Qed.
(** The size word holds both sizes. *)
Lemma kalloc_word key valSize : isKeyValid key = true → 0 ≤ valSize ≤ kMaxValSize →
  fits 32 (kalloc_size key valSize) ∧ kalloc_getSize (kalloc_size key valSize) = valSize ∧
  kalloc_getKeySize (kalloc_size key valSize) = Z.of_nat (length key).
Proof.
  intros Hk Hv. assert (0 ≤ Z.of_nat (length key) ≤ 255) as Hl.
  { unfold isKeyValid in Hk. apply andb_prop in Hk as [Hk _]. apply Z.leb_le in Hk. change kKeyMaxLen with 255 in Hk. lia. }
  change kMaxValSize with (2 ^ 24 - 1) in *. unfold kalloc_size, kalloc_getSize, kalloc_getKeySize. change kMaxValSizeBits with 24. change kMaxValSize with (2 ^ 24 - 1).
  rewrite (wrap_small 32 (Z.of_nat _)) by (unfold fits; lia). assert (2 ^ 24 = 16777216) as E24 by done. assert (2 ^ 32 = 4294967296) as E32 by done.
  rewrite wrap_small by (unfold fits; rewrite Z.shiftl_mul_pow2; lia). rewrite lor_high by lia. unfold fits. split; [lia|].
  rewrite land_ones_mod, Z.shiftr_div_pow2 by lia. rewrite wrap_small; unfold fits; rewrite ?E24, ?E32; (split; [|]) || idtac; Z.to_euclidean_division_equations; lia.
Qed.

(** ** CacheItem *)
Record Item := mkItem {
  it_hook : Z;            (** accessHook_.next_, compressed *)
  it_next : Z;            (** mmHook_ *)
  it_prev : Z;
  it_time : Z;
  it_ref : Z;             (** ref_ *)
  creationTime_ : Z;
  expiryTime_ : Z;
  it_size : Z;            (** alloc_.size_ *)
  it_key : list Z;        (** the key in alloc_.data_ *)
  it_chain : Z;           (** the hook of a chained item's payload *)
}.
Definition set_ref (r : Z) (it : Item) : Item :=
  mkItem (it_hook it) (it_next it) (it_prev it) (it_time it) r (creationTime_ it) (expiryTime_ it) (it_size it) (it_key it) (it_chain it).
Definition set_expiry (t : Z) (it : Item) : Item :=
  mkItem (it_hook it) (it_next it) (it_prev it) (it_time it) (it_ref it) (creationTime_ it) t (it_size it) (it_key it) (it_chain it).

Definition sizeof_Item : Z := 32.
Definition getRequiredSize (key : list Z) (size : Z) : result Z :=
  let requiredSize := u64 (size + Z.of_nat (length key) + sizeof_Item) in
  _ ← xdcheck (requiredSize <=? uint_max 32);
  if uint_max 32 <? requiredSize then Ok 0 else Ok (u32 requiredSize).
(** The constructor; hooks and word start out null. *)
Definition Item_new (key : list Z) (size creationTime expiryTime : Z) : result Item :=
  size_ ← KAllocation_new key size;
  Ok (mkItem kNull kNull kNull 0 0 creationTime expiryTime size_ key kNull).
Definition getRefcountMax : Z := kAccessRefMask.
Definition getSize (it : Item) : Z :=
  if isChainedItem (it_ref it) then u32 (kalloc_getSize (it_size it) - 4) else kalloc_getSize (it_size it).
(** [isExpired()]; [stale] is the calling thread's [staleTime], and the result
    comes with its new value. *)
Definition isExpired (now stale : Z) (it : Item) : bool * Z :=
  if expiryTime_ it =? 0 then (false, stale)
  else if expiryTime_ it <? stale then (true, stale)
  else let currentTime := u32 now in
       (expiryTime_ it <? currentTime, if negb (currentTime =? stale) then currentTime else stale).
Definition isExpiredAt (currentTimeSec : Z) (it : Item) : bool := (0 <? expiryTime_ it) && (expiryTime_ it <? currentTimeSec).
Definition getConfiguredTTL (it : Item) : Z := if 0 <? expiryTime_ it then u32 (expiryTime_ it - creationTime_ it) else 0.
Definition updateExpiryTime (expiryTimeSecs : Z) (it : Item) : bool * Item :=
  if isMoving (it_ref it) || isMarkedForEviction (it_ref it) || negb (isInMMContainer (it_ref it)) || isChainedItem (it_ref it)
  then (false, it) else (true, set_expiry expiryTimeSecs it).
Definition extendTTL (ttl now : Z) (it : Item) : bool * Item := updateExpiryTime (u32 (now + ttl)) it.

(** *** Chained items *)
(** The four bytes of a compressed pointer, as a key. *)
Definition ptr_key (c : Z) : list Z := [c mod 256; Z.shiftr c 8 mod 256; Z.shiftr c 16 mod 256; Z.shiftr c 24 mod 256].
Definition key_ptr (k : list Z) : result Z :=
  match k with
  | a :: b :: c :: d :: _ => Ok (a + Z.shiftl b 8 + Z.shiftl c 16 + Z.shiftl d 24)
  | _ => Undef
  end.
Definition getParentItem `{PtrCompressor} (it : Item) : result Z :=
  c ← key_ptr (it_key it); p ← pc_unCompress c; deref p.
Definition getNextChained `{PtrCompressor} (it : Item) : result (option Z) := pc_unCompress (it_chain it).

(** ** The store, as the containers see it *)
Abbreviation Items := (gmap Z Item).
Definition hview (it : Item) : HNode := mkHNode (it_hook it) (it_key it) (it_ref it).
Definition set_h (n : HNode) (it : Item) : Item :=
  mkItem (hn_next n) (it_next it) (it_prev it) (it_time it) (hn_ref n) (creationTime_ it) (expiryTime_ it) (it_size it) (it_key it) (it_chain it).
Definition mview (it : Item) : Node := mkNode (it_next it) (it_prev it) (it_time it) (it_ref it).
Definition set_m (n : Node) (it : Item) : Item :=
  mkItem (it_hook it) (next_ n) (prev_ n) (updateTime_ n) (refCount_ n) (creationTime_ it) (expiryTime_ it) (it_size it) (it_key it) (it_chain it).

(** The regular items, or the chained ones. *)
Definition hstore (chained : bool) (items : Items) : HStore :=
  hview <$> filter (λ p, isChainedItem (it_ref p.2) = chained) items.
Definition put_h (h : HStore) (items : Items) : Items :=
  map_imap (λ p it, Some (match h !! p with Some n => set_h n it | None => it end)) items.
(** The items [mine] picks. *)
Definition mstore (mine : Z → bool) (items : Items) : Store := mview <$> filter (λ p, mine p.1 = true) items.
Definition put_m (h : Store) (items : Items) : Items :=
  map_imap (λ p it, Some (match h !! p with Some n => set_m n it | None => it end)) items.

Lemma lookup_hstore b items p : hstore b items !! p =
  it ← items !! p; if decide (isChainedItem (it_ref it) = b) then Some (hview it) else None.
Proof.
  unfold hstore. rewrite lookup_fmap, map_lookup_filter. destruct (items !! p) as [it|]; [|done]. cbn.
  rewrite option_guard_decide. by case_decide.
Qed.
Lemma lookup_put_h h items p : put_h h items !! p = (λ it, match h !! p with Some n => set_h n it | None => it end) <$> items !! p.
Proof. unfold put_h. rewrite map_lookup_imap. by destruct (items !! p). Qed.
Lemma lookup_mstore mine items p : mstore mine items !! p = it ← items !! p; if mine p then Some (mview it) else None.
Proof.
  unfold mstore. rewrite lookup_fmap, map_lookup_filter. destruct (items !! p) as [it|]; [|done]. cbn.
  rewrite option_guard_decide. destruct (mine p); by case_decide.
Qed.
Lemma lookup_put_m h items p : put_m h items !! p = (λ it, match h !! p with Some n => set_m n it | None => it end) <$> items !! p.
Proof. unfold put_m. rewrite map_lookup_imap. by destruct (items !! p). Qed.

(** ** Who owns which bits of the word *)
Definition mm_flag (f : Flags) : bool := match f with kMMFlag0 | kMMFlag1 | kMMFlag2 => true | _ => false end.
(** What an MM container leaves alone. *)
Record same_core (r r' : Z) : Prop := {
  sc_fits : fits 32 r';
  sc_access : rs_access (decode r') = rs_access (decode r);
  sc_accessible : rs_accessible (decode r') = rs_accessible (decode r);
  sc_exclusive : rs_exclusive (decode r') = rs_exclusive (decode r);
  sc_flags f : mm_flag f = false → rs_flag f (decode r') = rs_flag f (decode r);
}.
(** What everybody else leaves alone. *)
Record same_mm (r r' : Z) : Prop := {
  sm_fits : fits 32 r';
  sm_linked : rs_linked (decode r') = rs_linked (decode r);
  sm_flags f : mm_flag f = true → rs_flag f (decode r') = rs_flag f (decode r);
}.

Lemma same_core_refl r : fits 32 r → same_core r r.
Proof. by split. Qed.
Lemma same_core_trans r1 r2 r3 : same_core r1 r2 → same_core r2 r3 → same_core r1 r3.
Proof. intros [] []. split; intros; try (etrans; by eauto); done. Qed.
Lemma same_mm_refl r : fits 32 r → same_mm r r.
Proof. by split. Qed.
Lemma same_mm_trans r1 r2 r3 : same_mm r1 r2 → same_mm r2 r3 → same_mm r1 r3.
Proof. intros [] []. split; intros; try (etrans; by eauto); done. Qed.

Lemma op_decode op v x v' : fits 32 v → run_op op v = Ok (x, v') → fits 32 v' ∧ spec_op op (decode v) = Ok (x, decode v').
Proof.
  intros Hv E. split; [by eapply run_op_fits|]. pose proof (run_op_refines_aux op v Hv) as H. rewrite E in H. by cbn in H.
Qed.

Lemma Ok_pair {A B} (a a' : A) (b b' : B) : Ok (a, b) = Ok (a', b') → a = a' ∧ b = b'.
Proof. by intros [= -> ->]. Qed.

(** The operations an MM container uses on the word. *)
Definition mm_op (op : RefOp) : bool :=
  match op with OpMarkInMMContainer | OpUnmarkInMMContainer => true | OpSetFlag f | OpUnSetFlag f => mm_flag f | _ => false end.
Lemma flag_after f g (b : bool) r : rs_flag g (with_flags r ((if b then Z.setbit else Z.clearbit) (rs_flags r) (flag_index f))) =
  if decide (g = f) then b else rs_flag g r.
Proof.
  unfold rs_flag, with_flags. cbn [rs_flags]. pose proof (flag_index_range f). pose proof (flag_index_range g).
  case_decide as Hd; [subst g|assert (flag_index f ≠ flag_index g) by (intros ?%flag_index_inj; congruence)];
    destruct b; rewrite ?Z.setbit_eq, ?Z.clearbit_eq, ?Z.setbit_neq, ?Z.clearbit_neq by lia; done.
Qed.
Lemma mm_op_core op v x v' : mm_op op = true → fits 32 v → run_op op v = Ok (x, v') → same_core v v'.
Proof.
  intros Ho Hv E. destruct (op_decode op v x v' Hv E) as [Hf Hd].
  destruct op as [| | | | | | | | | | |f|f]; try done; cbn [spec_op] in Hd; apply Ok_pair in Hd as [_ Hd]; split; try done; rewrite <- Hd; try done; intros g Hg; cbn in Ho.
  - rewrite (flag_after f g true). case_decide; congruence.
  - rewrite (flag_after f g false). case_decide; congruence.
Qed.
Lemma other_op_mm op v x v' : mm_op op = false → fits 32 v → run_op op v = Ok (x, v') → same_mm v v'.
Proof.
  intros Ho Hv E. destruct (op_decode op v x v' Hv E) as [Hf Hd].
  destruct op as [| | | | | | | | | | |f|f]; try done; cbn [spec_op] in Hd; repeat case_match; try discriminate; apply Ok_pair in Hd as [_ Hd]; split; try done; rewrite <- Hd; try done; intros g Hg; cbn in Ho.
  - rewrite (flag_after f g true). case_decide; congruence.
  - rewrite (flag_after f g false). case_decide; congruence.
Qed.
