(* ===== verification/CacheTypes.v ===== *)
(** What the cache ([CacheAllocator]) asks of the components it is built from.

    [CacheAllocator<CacheTrait>] is a template over an access container, a
    memory-management container and the memory allocator.  Each is an operations
    class here, which the definitions of the cache use, and a class of laws, which
    its theorems use.  A container works on its view of the items; the pointer
    compressor it is given is the one of the allocator's current state.  The
    laws speak of an abstract state: a map from keys to items for the access
    container, the eviction order for an MM container, and the live allocations
    with their pools and classes for the allocator. *)
From S2P Require Import Prelude Refcount SlabAllocator PtrCompressor DList MMCommon ChainedHashTable CacheItem.

(** ** Pointer compression of another allocator state

    [pc'] reads back what [pc] wrote, for pointers to [P]. *)
Definition pc_agree (P : Z → Prop) (pc pc' : PtrCompressor) : Prop :=
  (∀ p, P p → @valid_ptr pc p → @valid_ptr pc' p) ∧
  (∀ c p, (∀ a, p = Some a → P a) → @pc_unCompress pc c = Ok p → @pc_unCompress pc' c = Ok p).

(** ** The access container *)
Class AccessContainer := {
  AC : Type;
  ac_insert : PtrCompressor → Z → AC → HStore → result (bool * AC * HStore);
  ac_insertOrReplace : PtrCompressor → Z → AC → HStore → result ((Handle + exn) * AC * HStore);
  ac_remove : PtrCompressor → Z → AC → HStore → result (bool * AC * HStore);
  ac_find : PtrCompressor → list Z → AC → HStore → result (Handle * HStore);
}.
(** Keys stay, and words become what [f] says. *)
Definition words_to (f : Z → Z → Z) (h h' : HStore) : Prop := ∀ p,
  (λ n, (hn_key n, hn_ref n)) <$> h' !! p = (λ n, (hn_key n, f p (hn_ref n))) <$> h !! p.
Definition on_item (p : Z) (f : Z → Z) (q r : Z) : Z := if decide (q = p) then f r else r.
(** A change of the items that the container need not see. *)
Definition quiet_h (h h' : HStore) (M : gmap (list Z) Z) : Prop :=
  (∀ k p, M !! k = Some p → ∃ n n', h !! p = Some n ∧ h' !! p = Some n' ∧ hn_next n' = hn_next n ∧ hn_key n' = hn_key n) ∧
  (∀ p n', h' !! p = Some n' → fits 32 (hn_ref n') ∧ (isAccessible (hn_ref n') = true ↔ M !! hn_key n' = Some p)).
Class AccessLaws `{AccessContainer} := {
  ac_rep : PtrCompressor → AC → HStore → gmap (list Z) Z → Prop;
  ac_facts pc c h M : ac_rep pc c h M →
    (∀ p n, h !! p = Some n → fits 32 (hn_ref n) ∧ (isAccessible (hn_ref n) = true ↔ M !! hn_key n = Some p)) ∧
    (∀ k p, M !! k = Some p → ∃ n, h !! p = Some n ∧ hn_key n = k);
  ac_env pc c h M h' : ac_rep pc c h M → quiet_h h h' M → ac_rep pc c h' M;
  ac_move pc pc' c h M : ac_rep pc c h M → pc_agree (λ p, is_Some (h !! p)) pc pc' → ac_rep pc' c h M;
  ac_insert_law pc c h M p n : ac_rep pc c h M → h !! p = Some n → @valid_ptr pc p → isAccessible (hn_ref n) = false →
    ∃ c' h', match M !! hn_key n with
      | None => ac_insert pc p c h = Ok (true, c', h') ∧ ac_rep pc c' h' (<[hn_key n := p]> M) ∧ words_to (on_item p markAccessible) h h'
      | Some _ => ac_insert pc p c h = Ok (false, c', h') ∧ ac_rep pc c' h' M ∧ words_to (λ _ r, r) h h'
      end;
  ac_replace_law pc c h M p n : ac_rep pc c h M → h !! p = Some n → @valid_ptr pc p → isAccessible (hn_ref n) = false →
    match M !! hn_key n with
    | None => ∃ c' h', ac_insertOrReplace pc p c h = Ok (inl NullHandle, c', h') ∧
        ac_rep pc c' h' (<[hn_key n := p]> M) ∧ words_to (on_item p markAccessible) h h'
    | Some q => ∀ nq, h !! q = Some nq →
        (∀ r, incRef (hn_ref nq) = Ok (kIncOk, r) → ∃ c' h', ac_insertOrReplace pc p c h = Ok (inl (HandleTo q), c', h') ∧
           ac_rep pc c' h' (<[hn_key n := p]> M) ∧
           words_to (λ a, on_item p markAccessible a ∘ on_item q (λ _, unmarkAccessible r) a) h h') ∧
        (∀ e, incRef (hn_ref nq) = Throw e → ∃ c' h', ac_insertOrReplace pc p c h = Ok (inr e, c', h') ∧
           ac_rep pc c' h' M ∧ words_to (λ _ r, r) h h')
    end;
  ac_remove_law pc c h M p n : ac_rep pc c h M → h !! p = Some n → M !! hn_key n = Some p →
    ∃ c' h', ac_remove pc p c h = Ok (true, c', h') ∧ ac_rep pc c' h' (delete (hn_key n) M) ∧ words_to (on_item p unmarkAccessible) h h';
  ac_remove_out pc c h M p n : ac_rep pc c h M → h !! p = Some n → M !! hn_key n ≠ Some p → ac_remove pc p c h = Ok (false, c, h);
  ac_find_law pc c h M k : ac_rep pc c h M → ac_find pc k c h = acquire (M !! k) h;
}.

(** ** The memory-management container *)
Class MMType := {
  MMC : Type;
  MMIter : Type;
  mm_add : PtrCompressor → Z → Z → MMC * Store → result (bool * (MMC * Store));
  mm_remove : PtrCompressor → Z → MMC * Store → result (bool * (MMC * Store));
  (** the access mode, the clock, and whether a try-lock would get the lock *)
  mm_recordAccess : PtrCompressor → Z → AccessMode → Z → bool → MMC * Store → result (bool * (MMC * Store));
  mm_begin : PtrCompressor → MMC * Store → result MMIter;
  mm_get : PtrCompressor → MMIter → MMC * Store → result (option Z);
  mm_next : PtrCompressor → MMIter → MMC * Store → result MMIter;
  mm_removeIt : PtrCompressor → MMIter → MMC * Store → result (MMIter * (MMC * Store));
}.
Definition same_hook (n n' : Node) : Prop := next_ n' = next_ n ∧ prev_ n' = prev_ n ∧ updateTime_ n' = updateTime_ n.
(** The node of an item that was just constructed. *)
Definition new_node (n : Node) : Prop :=
  next_ n = kNull ∧ prev_ n = kNull ∧ fits 32 (refCount_ n) ∧ isInMMContainer (refCount_ n) = false ∧
  ∀ f, mm_flag f = true → isFlagSet f (refCount_ n) = false.
Definition quiet_m (pc : PtrCompressor) (h h' : Store) (xs : list Z) : Prop :=
  (∀ a, a ∈ xs → is_Some (h' !! a)) ∧
  (∀ a n', h' !! a = Some n' →
     (∃ n, h !! a = Some n ∧ same_hook n n' ∧ same_mm (refCount_ n) (refCount_ n')) ∨
     (a ∉ xs ∧ @valid_ptr pc a ∧ new_node n')).
(** What a container leaves alone of the words. *)
Definition core_kept (h h' : Store) : Prop := ∀ a,
  match h !! a, h' !! a with
  | Some n, Some n' => same_core (refCount_ n) (refCount_ n')
  | None, None => True
  | _, _ => False
  end.
Class MMLaws `{MMType} := {
  mm_rep : PtrCompressor → Store → MMC → list Z → Prop;      (** next eviction first *)
  mm_at : MMC → MMIter → list Z → nat → Prop;
  mm_facts pc h c xs : mm_rep pc h c xs → NoDup xs ∧ (∀ a, a ∈ xs → is_Some (h !! a)) ∧
    (∀ a n, h !! a = Some n → fits 32 (refCount_ n) ∧ isInMMContainer (refCount_ n) = bool_decide (a ∈ xs));
  mm_env pc h c xs h' : @pc_unCompress pc kNull = Ok None → mm_rep pc h c xs → quiet_m pc h h' xs → mm_rep pc h' c xs;
  mm_move pc pc' h c xs : mm_rep pc h c xs → pc_agree (λ p, is_Some (h !! p)) pc pc' → mm_rep pc' h c xs;
  mm_add_law pc h c xs a now : mm_rep pc h c xs → is_Some (h !! a) → a ∉ xs →
    ∃ c' h' xs', mm_add pc a now (c, h) = Ok (true, (c', h')) ∧ mm_rep pc h' c' xs' ∧ xs' ≡ₚ a :: xs ∧ core_kept h h';
  mm_add_in pc h c xs a now : mm_rep pc h c xs → a ∈ xs → mm_add pc a now (c, h) = Ok (false, (c, h));
  mm_remove_law pc h c xs a : mm_rep pc h c xs → a ∈ xs →
    ∃ c' h' xs', mm_remove pc a (c, h) = Ok (true, (c', h')) ∧ mm_rep pc h' c' xs' ∧ xs ≡ₚ a :: xs' ∧ core_kept h h';
  mm_remove_out pc h c xs a : mm_rep pc h c xs → is_Some (h !! a) → a ∉ xs → mm_remove pc a (c, h) = Ok (false, (c, h));
  mm_record_law pc h c xs a mode now free : mm_rep pc h c xs → is_Some (h !! a) →
    ∃ b c' h' xs', mm_recordAccess pc a mode now free (c, h) = Ok (b, (c', h')) ∧ mm_rep pc h' c' xs' ∧ xs' ≡ₚ xs ∧ core_kept h h';
  mm_begin_law pc h c xs : mm_rep pc h c xs → ∃ it, mm_begin pc (c, h) = Ok it ∧ mm_at c it xs 0;
  mm_get_law pc h c xs it i : mm_rep pc h c xs → mm_at c it xs i → mm_get pc it (c, h) = Ok (xs !! i);
  mm_next_law pc h c xs it i : mm_rep pc h c xs → mm_at c it xs i → (i < length xs)%nat →
    ∃ it', mm_next pc it (c, h) = Ok it' ∧ mm_at c it' xs (S i);
  mm_removeIt_law pc h c xs it i a : mm_rep pc h c xs → mm_at c it xs i → xs !! i = Some a →
    ∃ it' c' h' xs', mm_removeIt pc it (c, h) = Ok (it', (c', h')) ∧ mm_rep pc h' c' xs' ∧ xs ≡ₚ a :: xs' ∧ core_kept h h';
}.

(** ** The memory allocator *)
Class MemAllocator := {
  MA : Type;
  al_pc : MA → PtrCompressor;
  al_classId : Z → Z → MA → result Z;
  al_allocate : Z → Z → MA → result (option Z * MA);
  al_free : Z → MA → result MA;
  al_info : Z → MA → result (Z * Z);       (** pool and class *)
}.
Class AllocatorLaws `{MemAllocator} := {
  al_rep : MA → gmap Z (Z * Z) → Prop;     (** the live allocations *)
  al_null a L : al_rep a L → @pc_unCompress (al_pc a) kNull = Ok None;
  al_valid a L p : al_rep a L → is_Some (L !! p) → @valid_ptr (al_pc a) p;
  al_info_law a L p k : al_rep a L → L !! p = Some k → al_info p a = Ok k;
  al_allocate_law a L pid size : al_rep a L → fits 32 size →
    (∃ e, al_classId pid size a = Throw e) ∨
    (∃ cid ret a', al_classId pid size a = Ok cid ∧ al_allocate pid size a = Ok (ret, a') ∧
       pc_agree (λ p, is_Some (L !! p)) (al_pc a) (al_pc a') ∧ (∀ pid size, al_classId pid size a' = al_classId pid size a) ∧
       match ret with None => al_rep a' L | Some p => L !! p = None ∧ al_rep a' (<[p := (pid, cid)]> L) end);
  al_free_law a L p : al_rep a L → is_Some (L !! p) →
    ∃ a', al_free p a = Ok a' ∧ al_rep a' (delete p L) ∧ pc_agree (λ q, is_Some (delete p L !! q)) (al_pc a) (al_pc a') ∧
      (∀ pid size, al_classId pid size a' = al_classId pid size a);
}.
