(* ===== verification/CacheAllocator.v ===== *)
(** The cache in memory ([allocator/CacheAllocator.h], [CacheAllocator-inl.h]):
    allocation with eviction, insertion, lookup, removal and the release of
    handles, composed from an access container, MM containers and the memory
    allocator.

    [M] is a state monad over the cache with C++ exceptions: an exception leaves
    the state it was thrown in, as the code does, and what the code does on the
    way out ([SCOPE_FAIL], [catch], the destructor of a handle) is written out.
    The cache is one without [NvmCache]: [nvmCache_] is null, a branch that
    depends on it is not taken, and a dereference of it is [Undef].  Statistics
    and the event tracker are left out; [handleCount_] is kept, and the calls of
    the user's [removeCb] and [itemDestructor] are recorded in order. *)
From S2P Require Import Prelude Refcount SlabAllocator PtrCompressor DList MMCommon ChainedHashTable CacheItem CacheTypes.

Inductive RemoveContext := kEviction | kNormal.
Inductive RemoveRes := kSuccess | kNotFoundInRam.
Inductive ReleaseRes := kRecycled | kNotRecycled | kReleased.
Inductive Event :=
  | RemoveCb (ctx : RemoveContext) (p : Z) (key : list Z)
  | ItemDestructor (ctx : RemoveContext) (p : Z) (key : list Z).
#[global] Instance RemoveContext_eq_dec : EqDecision RemoveContext.
Proof. solve_decision. Defined.
#[global] Instance ReleaseRes_eq_dec : EqDecision ReleaseRes.
Proof. solve_decision. Defined.

Record CacheConfig := mkCacheConfig {
  evictionSearchTries : Z;
  removeCb : bool;                    (** set by the user *)
  itemDestructor : bool;
  isSkipPromoteChildrenWhenParentFailed : bool;
}.

(** A handle and its flags. *)
Record ItemHandle := mkItemHandle { h_it : Handle; isNascent : bool; wasExpired : bool }.
Definition null_handle : ItemHandle := mkItemHandle NullHandle false false.
Definition markNascent (h : ItemHandle) : ItemHandle := mkItemHandle (h_it h) true (wasExpired h).
Definition unmarkNascent (h : ItemHandle) : ItemHandle := mkItemHandle (h_it h) false (wasExpired h).
Definition markExpired (h : ItemHandle) : ItemHandle := mkItemHandle (h_it h) (isNascent h) true.

Section cache.
Context `{AccessContainer} `{MMType} `{MemAllocator}.

Record Cache := mkCache {
  config_ : CacheConfig;
  items_ : Items;                      (** the memory of the live items *)
  mmContainers_ : gmap (Z * Z) MMC;
  accessContainer_ : AC;
  chainedItemAccessContainer_ : AC;
  allocator_ : MA;
  handleCount_ : Z;
  staleTime : Z;                       (** of [CacheItem::isExpired] *)
  events : list Event;
}.
Definition with_items (items : Items) (s : Cache) : Cache :=
  mkCache (config_ s) items (mmContainers_ s) (accessContainer_ s) (chainedItemAccessContainer_ s) (allocator_ s) (handleCount_ s) (staleTime s) (events s).
Definition with_mm (k : Z * Z) (c : MMC) (s : Cache) : Cache :=
  mkCache (config_ s) (items_ s) (<[k := c]> (mmContainers_ s)) (accessContainer_ s) (chainedItemAccessContainer_ s) (allocator_ s) (handleCount_ s) (staleTime s) (events s).
Definition with_table (chained : bool) (c : AC) (s : Cache) : Cache :=
  mkCache (config_ s) (items_ s) (mmContainers_ s) (if chained then accessContainer_ s else c)
    (if chained then c else chainedItemAccessContainer_ s) (allocator_ s) (handleCount_ s) (staleTime s) (events s).
Definition with_alloc (a : MA) (s : Cache) : Cache :=
  mkCache (config_ s) (items_ s) (mmContainers_ s) (accessContainer_ s) (chainedItemAccessContainer_ s) a (handleCount_ s) (staleTime s) (events s).
Definition with_count (n : Z) (s : Cache) : Cache :=
  mkCache (config_ s) (items_ s) (mmContainers_ s) (accessContainer_ s) (chainedItemAccessContainer_ s) (allocator_ s) n (staleTime s) (events s).
Definition with_stale (t : Z) (s : Cache) : Cache :=
  mkCache (config_ s) (items_ s) (mmContainers_ s) (accessContainer_ s) (chainedItemAccessContainer_ s) (allocator_ s) (handleCount_ s) t (events s).
Definition with_event (e : Event) (s : Cache) : Cache :=
  mkCache (config_ s) (items_ s) (mmContainers_ s) (accessContainer_ s) (chainedItemAccessContainer_ s) (allocator_ s) (handleCount_ s) (staleTime s) (events s ++ [e]).

(** ** The monad *)
Definition M (A : Type) : Type := Cache → result ((A + exn) * Cache).
#[global] Instance M_ret : MRet M := λ A a s, Ok (inl a, s).
#[global] Instance M_bind : MBind M := λ A B f m s,
  match m s with
  | Ok (inl a, s) => f a s
  | Ok (inr e, s) => Ok (inr e, s)
  | Throw e => Throw e
  | Undef => Undef
  end.
Definition throw {A} (e : exn) : M A := λ s, Ok (inr e, s).
Definition undef {A} : M A := λ _, Undef.
Definition get : M Cache := λ s, Ok (inl s, s).
Definition modify (f : Cache → Cache) : M unit := λ s, Ok (inl tt, f s).
(** A call of a component that leaves the state alone. *)
Definition call {A} (r : result A) : M A := λ s,
  match r with Ok a => Ok (inl a, s) | Throw e => Ok (inr e, s) | Undef => Undef end.
(** The same from a [noexcept] function: an exception ends the program. *)
Definition call_noexcept {A} (r : result A) : M A := λ s, match r with Ok a => Ok (inl a, s) | _ => Undef end.
(** [SCOPE_FAIL { cleanup }] and [try { m } catch (...) { cleanup; throw; }]. *)
Definition on_throw {A} (m : M A) (cleanup : M unit) : M A := λ s,
  match m s with
  | Ok (inr e, s) => (_ ← cleanup; throw e) s
  | r => r
  end.
(** [try { m } catch (const std::exception&) { }]. *)
Definition swallow (m : M unit) : M unit := λ s,
  match m s with Ok (inr _, s) => Ok (inl tt, s) | r => r end.
Definition check (b : bool) : M unit := call (xdcheck b).

(** ** Items *)
Definition pc (s : Cache) : PtrCompressor := al_pc (allocator_ s).
Definition item (p : Z) : M Item := s ← get; call (deref (items_ s !! p)).
Definition put_item (p : Z) (it : Item) : M unit := modify (λ s, with_items (<[p := it]> (items_ s)) s).
(** A member function of [RefcountWithFlags] on the word of an item. *)
Definition refOp {A} (op : Z → result (A * Z)) (p : Z) : M A :=
  it ← item p;
  '(a, r) ← call (op (it_ref it));
  _ ← put_item p (set_ref r it);
  mret a.

(** ** The containers *)
Definition table (chained : bool) (s : Cache) : AC := if chained then chainedItemAccessContainer_ s else accessContainer_ s.
Definition put_table (chained : bool) (c : AC) (h : HStore) (s : Cache) : Cache :=
  with_table chained c (with_items (put_h h (items_ s)) s).
(** [incRef] counts the handles that are given out. *)
Definition count_handle (x : Handle) (s : Cache) : Cache :=
  match x with HandleTo _ => with_count (handleCount_ s + 1) s | _ => s end.
Definition access_insert (chained : bool) (p : Z) : M bool :=
  s ← get;
  '(b, c, h) ← call (ac_insert (pc s) p (table chained s) (hstore chained (items_ s)));
  _ ← modify (put_table chained c h);
  mret b.
Definition access_insertOrReplace (p : Z) : M Handle :=
  s ← get;
  '(x, c, h) ← call (ac_insertOrReplace (pc s) p (table false s) (hstore false (items_ s)));
  _ ← modify (put_table false c h);
  match x with inl x => _ ← modify (count_handle x); mret x | inr e => throw e end.
Definition access_remove (chained : bool) (p : Z) : M bool :=
  s ← get;
  '(b, c, h) ← call (ac_remove (pc s) p (table chained s) (hstore chained (items_ s)));
  _ ← modify (put_table chained c h);
  mret b.
Definition access_find (chained : bool) (key : list Z) : M Handle :=
  s ← get;
  '(x, h) ← call (ac_find (pc s) key (table chained s) (hstore chained (items_ s)));
  _ ← modify (put_table chained (table chained s) h);
  _ ← modify (count_handle x);
  mret x.

(** The MM container of a pool and class, and the items of that class. *)
Definition in_class (k : Z * Z) (s : Cache) (p : Z) : bool :=
  match al_info p (allocator_ s) with Ok k' => bool_decide (k' = k) | _ => false end.
Definition mm_view (k : Z * Z) (s : Cache) : Store := mstore (in_class k s) (items_ s).
Definition mm_read {A} (k : Z * Z) (f : PtrCompressor → MMC * Store → result A) : M A :=
  s ← get;
  c ← call (deref (mmContainers_ s !! k));
  call_noexcept (f (pc s) (c, mm_view k s)).
Definition mm_call {A} (k : Z * Z) (f : PtrCompressor → MMC * Store → result (A * (MMC * Store))) : M A :=
  '(a, (c, h)) ← mm_read k f;
  _ ← modify (λ s, with_mm k c (with_items (put_m h (items_ s)) s));
  mret a.
(** [getMMContainer(item)], as the key of the container. *)
Definition getMMContainer (p : Z) : M (Z * Z) := s ← get; call_noexcept (al_info p (allocator_ s)).

Definition removeFromMMContainer (p : Z) : M bool :=
  it ← item p;
  if isInMMContainer (it_ref it) then k ← getMMContainer p; mm_call k (λ pc, mm_remove pc p) else mret false.
Definition insertInMMContainer (p now : Z) : M unit :=
  it ← item p;
  _ ← check (negb (isInMMContainer (it_ref it)));
  k ← getMMContainer p;
  b ← mm_call k (λ pc, mm_add pc p now);
  if (b : bool) then mret tt else throw RuntimeError.
Definition recordAccessInMMContainer (p : Z) (mode : AccessMode) (now : Z) (free : bool) : M bool :=
  s ← get;
  k ← call (al_info p (allocator_ s));
  mm_call k (λ pc, mm_recordAccess pc p mode now free).

(** ** Handles *)
Definition cache_incRef (p : Z) : M IncResult :=
  res ← refOp incRef p;
  match res with kIncOk => _ ← modify (λ s, with_count (handleCount_ s + 1) s); mret res | _ => mret res end.
Definition cache_decRef (p : Z) : M Z :=
  ret ← refOp decRef p;
  _ ← modify (λ s, with_count (handleCount_ s - 1) s);
  mret ret.
(** [acquire]; a wait for an item that is being moved is registered at once. *)
Definition acquire (it : option Z) : M Handle :=
  match it with
  | None => mret NullHandle
  | Some p =>
      incRes ← cache_incRef p;
      mret (match incRes with kIncOk => HandleTo p | kIncFailedEviction => NullHandle | kIncFailedMoving => WaitHandle p end)
  end.
Definition get_internal (h : Handle) : option Z := match h with HandleTo p => Some p | _ => None end.

(** The memory goes back to the allocator. *)
Definition free_item (p : Z) : M unit :=
  s ← get;
  a ← call (al_free p (allocator_ s));
  modify (λ s, with_alloc a (with_items (delete p (items_ s)) s)).

(** *** Chained items *)
Definition findChainedItem (parent : Z) : M Handle :=
  s ← get;
  c ← call (@pc_compress (pc s) (Some parent));
  access_find true (ptr_key c).
(** The handle to the head of a chain goes; a chained item that nobody holds is
    freed at once. *)
Definition reset_head (h : Handle) : M unit :=
  match h with
  | HandleTo p => swallow (
      ref ← cache_decRef p;
      if ref =? 0 then
        it ← item p;
        s ← get;
        _ ← call (al_info p (allocator_ s));
        if isChainedItem (it_ref it) then free_item p else undef
      else mret tt)
  | _ => mret tt
  end.
Fixpoint free_chain (fuel : nat) (head : option Z) (toRecycle : option Z) (res : ReleaseRes) : M ReleaseRes :=
  match head with
  | None => mret res
  | Some p =>
      match fuel with
      | O => undef
      | S fuel =>
          s ← get;
          it ← item p;
          next ← call (@getNextChained (pc s) it);
          _ ← call (al_info p (allocator_ s));
          _ ← removeFromMMContainer p;
          childRef ← refOp decRef p;
          _ ← check (childRef =? 0);
          res ← (if decide (Some p = toRecycle) then _ ← check (negb (bool_decide (res = kReleased))); mret kRecycled
                 else _ ← free_item p; mret res);
          free_chain fuel next toRecycle res
      end
  end.

(** [toRecycle] is the item whose memory is to be reused. *)
Definition releaseBackToAllocator (p : Z) (ctx : RemoveContext) (nascent : bool) (toRecycle : option Z) : M ReleaseRes :=
  it ← item p;
  _ ← (if negb (isDrained (it_ref it)) then throw RuntimeError else mret tt);
  s ← get;
  _ ← call (al_info p (allocator_ s));
  if isChainedItem (it_ref it) then
    _ ← (if bool_decide (toRecycle ≠ None) then throw RuntimeError else mret tt);
    _ ← free_item p;
    mret kReleased
  else
    _ ← (if negb nascent && removeCb (config_ s) then modify (with_event (RemoveCb ctx p (it_key it))) else mret tt);
    let skipDestructor := nascent ||
      (bool_decide (ctx = kEviction) && isNvmClean (it_ref it) && negb (isNvmEvicted (it_ref it))) in
    _ ← (if negb skipDestructor && itemDestructor (config_ s) then modify (with_event (ItemDestructor ctx p (it_key it))) else mret tt);
    let res := if bool_decide (toRecycle = None) then kReleased else kNotRecycled in
    res ← (if hasChainedItem (it_ref it) then
             headHandle ← findChainedItem p;
             match get_internal headHandle with
             | None => throw RuntimeError
             | Some head =>
                 _ ← reset_head headHandle;
                 hit ← item head;
                 s ← get;
                 parent ← call (@getParentItem (pc s) hit);
                 _ ← (if decide (parent ≠ p) then throw RuntimeError else mret tt);
                 b ← access_remove true head;
                 _ ← (if negb b then throw RuntimeError else mret tt);
                 free_chain (size (items_ s)) (Some head) toRecycle res
             end
           else mret res);
    if decide (Some p = toRecycle) then
      _ ← check (negb (bool_decide (res = kReleased)));
      mret kRecycled
    else
      it ← item p;
      _ ← check (isDrained (it_ref it));
      _ ← free_item p;
      mret res.

Definition release (it : option Z) (nascent : bool) : M unit :=
  match it with
  | None => mret tt
  | Some p =>
      ref ← cache_decRef p;
      if ref =? 0 then
        res ← releaseBackToAllocator p kNormal nascent None;
        check (bool_decide (res = kReleased))
      else mret tt
  end.
(** The destructor of a handle. *)
Definition reset (h : ItemHandle) : M unit := swallow (release (get_internal (h_it h)) (isNascent h)).
Definition clone (h : ItemHandle) : M ItemHandle :=
  x ← acquire (get_internal (h_it h)); mret (mkItemHandle x (isNascent h) (wasExpired h)).

(** ** Eviction *)
Definition search_on (searchTries : Z) (s : Cache) : bool :=
  (evictionSearchTries (config_ s) =? 0) || (searchTries <? evictionSearchTries (config_ s)).
(** The loop under the container's lock: the candidate, the item to recycle,
    and the number of tries. *)
Fixpoint candidate_loop (fuel : nat) (k : Z * Z) (itr : MMIter) (searchTries : Z) : M (option (Z * Z) * Z) :=
  s ← get;
  cur ← mm_read k (λ pc, mm_get pc itr);
  match cur with
  | Some toRecycle =>
      if search_on searchTries s then
        match fuel with
        | O => undef
        | S fuel =>
            let searchTries := u32 (searchTries + 1) in
            it ← item toRecycle;
            candidate ← (if isChainedItem (it_ref it) then call (@getParentItem (pc s) it) else mret toRecycle);
            markedForEviction ← refOp markForEviction candidate;
            if negb markedForEviction then
              itr ← mm_read k (λ pc, mm_next pc itr);
              candidate_loop fuel k itr searchTries
            else
              it ← item toRecycle;
              same ← (if isChainedItem (it_ref it) then parent ← call (@getParentItem (pc s) it); mret (bool_decide (parent = candidate))
                      else mret true);
              _ ← (if (same : bool) then _ ← mm_call k (λ pc, mm_removeIt pc itr); mret tt else mret tt);
              mret (Some (candidate, toRecycle), searchTries)
        end
      else mret (None, searchTries)
  | None => mret (None, searchTries)
  end.
Definition unlinkItemForEviction (p : Z) : M unit :=
  it ← item p;
  _ ← check (isMarkedForEviction (it_ref it));
  _ ← check (getAccessRef (it_ref it) =? 0);
  _ ← access_remove false p;
  _ ← removeFromMMContainer p;
  ref ← refOp unmarkForEviction p;
  check (ref =? 0).
Definition getNextCandidate (k : Z * Z) (searchTries : Z) : M (option (Z * Z) * Z) :=
  s ← get;
  itr ← mm_read k mm_begin;
  first ← mm_read k (λ pc, mm_get pc itr);
  '(found, searchTries) ← match first with
    | None => mret (None, u32 (searchTries + 1))
    | Some _ => candidate_loop (size (items_ s)) k itr searchTries
    end;
  match found with
  | None => mret (None, searchTries)
  | Some (candidate, toRecycle) =>
      it ← item candidate;
      _ ← check (isMarkedForEviction (it_ref it));
      _ ← unlinkItemForEviction candidate;
      mret (Some (candidate, toRecycle), searchTries)
  end.
(** How far the search for an item to evict got: it returned the memory of one,
    it returned nothing, or it is still running after the rounds followed. *)
Inductive Search := Evicted (p : Z) | NothingFound | Searching.
Fixpoint eviction_loop (fuel : nat) (k : Z * Z) (searchTries : Z) : M Search :=
  s ← get;
  if search_on searchTries s then
    match fuel with
    | O => mret Searching
    | S fuel =>
        '(found, searchTries) ← getNextCandidate k searchTries;
        match found with
        | None => eviction_loop fuel k searchTries
        | Some (candidate, toRecycle) =>
            ret ← releaseBackToAllocator candidate kEviction false (Some toRecycle);
            if bool_decide (ret = kRecycled) then mret (Evicted toRecycle) else eviction_loop fuel k searchTries
        end
    end
  else mret NothingFound.
(** With a limit every round uses up a try, so that this is enough for the search
    to end; without one, a first round and [spin] further ones are followed. *)
Definition search_fuel (spin : nat) (s : Cache) : nat :=
  if evictionSearchTries (config_ s) =? 0 then S spin else S (Z.to_nat (evictionSearchTries (config_ s))).
Definition findEviction (spin : nat) (pid cid : Z) : M Search :=
  s ← get; eviction_loop (search_fuel spin s) (pid, cid) 0.

(** ** Allocation *)
(** The item is constructed in the memory [p]; an exception frees it again. *)
Definition construct (p : Z) (key : list Z) (size creationTime expiryTime : Z) : M ItemHandle :=
  on_throw
    (it ← call (Item_new key size creationTime expiryTime);
     _ ← put_item p it;
     x ← acquire (Some p);
     mret (match x with NullHandle => null_handle | _ => markNascent (mkItemHandle x false false) end))
    (free_item p).
(** No handle: the call has not returned, as its search is still running. *)
Definition allocateInternal (spin : nat) (pid : Z) (key : list Z) (size creationTime expiryTime : Z) : M (option ItemHandle) :=
  requiredSize ← call (getRequiredSize key size);
  s ← get;
  cid ← call (al_classId pid requiredSize (allocator_ s));
  '(memory, a) ← call (al_allocate pid requiredSize (allocator_ s));
  _ ← modify (with_alloc a);
  memory ← match memory with Some p => mret (Evicted p) | None => findEviction spin pid cid end;
  match memory with
  | Searching => mret None
  | NothingFound => mret (Some null_handle)
  | Evicted p => h ← construct p key size creationTime expiryTime; mret (Some h)
  end.
Definition allocate (spin : nat) (pid : Z) (key : list Z) (size ttlSecs creationTime now : Z) : M (option ItemHandle) :=
  let creationTime := if creationTime =? 0 then u32 now else creationTime in
  allocateInternal spin pid key size creationTime (if ttlSecs =? 0 then 0 else u32 (creationTime + ttlSecs)).

(** ** Insertion *)
(** What a handle that must not be null points to. *)
Definition handle_item (h : ItemHandle) : M Z := call (deref (get_internal (h_it h))).
(** The result, and the handle with its flags. *)
Definition insert (h : ItemHandle) (now : Z) : M (bool * ItemHandle) :=
  p ← handle_item h;
  it ← item p;
  _ ← (if isAccessible (it_ref it) then throw InvalidArgument else mret tt);
  _ ← insertInMMContainer p now;
  b ← access_insert false p;
  if (b : bool) then mret (true, unmarkNascent h)
  else _ ← removeFromMMContainer p; mret (false, h).
Definition insertOrReplace (h : ItemHandle) (now : Z) : M (ItemHandle * ItemHandle) :=
  p ← handle_item h;
  it ← item p;
  _ ← (if isAccessible (it_ref it) then throw InvalidArgument else mret tt);
  _ ← insertInMMContainer p now;
  replaced ← on_throw
    (replaced ← access_insertOrReplace p;
     match get_internal replaced with
     | Some q =>
         it ← item q;
         if isNvmClean (it_ref it) && negb (isNvmEvicted (it_ref it)) then undef else mret replaced
     | None => mret replaced
     end)
    (_ ← removeFromMMContainer p; mret tt);
  _ ← match get_internal replaced with Some q => _ ← removeFromMMContainer q; mret tt | None => mret tt end;
  mret (mkItemHandle replaced false false, unmarkNascent h).

(** ** Lookup *)
Definition findInternal (key : list Z) : M ItemHandle := x ← access_find false key; mret (mkItemHandle x false false).
Definition findInternalWithExpiration (key : list Z) (now : Z) : M ItemHandle :=
  h ← findInternal key;
  match get_internal (h_it h) with
  | None => mret h
  | Some p =>
      it ← item p;
      s ← get;
      let '(expired, stale) := isExpired now (staleTime s) it in
      _ ← modify (with_stale stale);
      if (expired : bool) then _ ← reset h; mret (markExpired null_handle)
      else mret h
  end.
Fixpoint record_chain (fuel : nat) (head : option Z) (mode : AccessMode) (now : Z) (free : bool) : M unit :=
  match head with
  | None => mret tt
  | Some p =>
      match fuel with
      | O => undef
      | S fuel =>
          _ ← recordAccessInMMContainer p mode now free;
          s ← get;
          it ← item p;
          next ← call (@getNextChained (pc s) it);
          record_chain fuel next mode now free
      end
  end.
Definition markUseful (h : ItemHandle) (mode : AccessMode) (now : Z) (free : bool) : M unit :=
  match get_internal (h_it h) with
  | None => mret tt
  | Some p =>
      recorded ← recordAccessInMMContainer p mode now free;
      it ← item p;
      s ← get;
      if negb (hasChainedItem (it_ref it)) || (negb recorded && isSkipPromoteChildrenWhenParentFailed (config_ s)) then mret tt
      else
        headHandle ← findChainedItem p;
        match get_internal headHandle with
        | None => mret tt
        | Some head =>
            _ ← on_throw (record_chain (size (items_ s)) (Some head) mode now free) (reset_head headHandle);
            reset_head headHandle
        end
  end.
Definition find (key : list Z) (mode : AccessMode) (now : Z) (free : bool) : M ItemHandle :=
  h ← findInternalWithExpiration key now;
  match get_internal (h_it h) with
  | Some _ => _ ← on_throw (markUseful h mode now free) (reset h); mret h
  | None => mret h
  end.
Definition peek (key : list Z) (now : Z) : M ItemHandle := findInternalWithExpiration key now.
Definition couldExistFast (key : list Z) (now : Z) : M bool :=
  h ← findInternalWithExpiration key now;
  match get_internal (h_it h) with Some _ => _ ← reset h; mret true | None => mret false end.

(** ** Removal *)
Definition removeImpl (p : Z) : M RemoveRes :=
  success ← access_remove false p;
  it ← item p;
  _ ← (if success && isNvmClean (it_ref it) && negb (isNvmEvicted (it_ref it)) then undef else mret tt);
  _ ← check (negb (isAccessible (it_ref it)));
  _ ← removeFromMMContainer p;
  it ← item p;
  _ ← check (negb (isNvmClean (it_ref it)));
  mret (if (success : bool) then kSuccess else kNotFoundInRam).
Definition remove (key : list Z) : M RemoveRes :=
  h ← findInternal key;
  match get_internal (h_it h) with
  | None => mret kNotFoundInRam
  | Some p => res ← on_throw (removeImpl p) (reset h); _ ← reset h; mret res
  end.
Definition removeHandle (h : ItemHandle) : M RemoveRes :=
  match get_internal (h_it h) with
  | None => throw InvalidArgument
  | Some p => removeImpl p
  end.
End cache.
