(* ===== verification/CacheCore.v ===== *)
(** The invariant of the cache and the effect of its basic steps.

    [core] relates a cache to the abstract state: the map [M] of the accessible
    items, the eviction order [X] of every allocation class, the live
    allocations [L], the number [n] of handles to each item and the items [ex]
    that are marked exclusive.  It holds also in the middle of an operation.
    One lemma per basic step says what it does to the abstract state; the
    operations are composed from these. *)
From S2P Require Import Prelude Refcount SlabAllocator PtrCompressor DList MMCommon ChainedHashTable CacheItem CacheTypes CacheAllocator.
#[local] Arguments decode : simpl never.
#[local] Arguments rs_flag : simpl never.

(** ** Items and words *)
(** No chained items, and nothing came from NVM. *)
Definition plain (r : Z) : Prop := fits 32 r ∧ rs_flag kIsChainedItem (decode r) = false ∧
  rs_flag kHasChainedItem (decode r) = false ∧ rs_flag kNvmClean (decode r) = false.
Definition items_rel (R : Z → Item → Item → Prop) (items items' : Items) : Prop :=
  ∀ p, option_Forall2 (R p) (items !! p) (items' !! p).
(** What the access container, or an MM container, sees of an item stays. *)
Record same_a (it it' : Item) : Prop := {
  sa_hook : it_hook it' = it_hook it;
  sa_key : it_key it' = it_key it;
  sa_word : fits 32 (it_ref it');
  sa_acc : rs_accessible (decode (it_ref it')) = rs_accessible (decode (it_ref it));
  sa_chained : rs_flag kIsChainedItem (decode (it_ref it')) = rs_flag kIsChainedItem (decode (it_ref it));
}.
Record same_b (it it' : Item) : Prop := {
  sb_hook : same_hook (mview it) (mview it');
  sb_word : same_mm (it_ref it) (it_ref it');
}.

Lemma flag_of f r : isFlagSet f r = rs_flag f (decode r).
Proof. apply observers_decode. Qed.
Lemma chained_of r : isChainedItem r = rs_flag kIsChainedItem (decode r).
Proof. apply flag_of. Qed.
Lemma linked_of r : isInMMContainer r = rs_linked (decode r).
Proof. apply observers_decode. Qed.
Lemma acc_of r : isAccessible r = rs_accessible (decode r).
Proof. apply observers_decode. Qed.

Lemma rel_lookup R items items' p it : items_rel R items items' → items !! p = Some it → ∃ it', items' !! p = Some it' ∧ R p it it'.
Proof. intros Hr Hp. specialize (Hr p). rewrite Hp in Hr. inversion Hr; subst. eauto. Qed.
Lemma rel_lookup' R items items' p it' : items_rel R items items' → items' !! p = Some it' → ∃ it, items !! p = Some it ∧ R p it it'.
Proof. intros Hr Hp. specialize (Hr p). rewrite Hp in Hr. inversion Hr; subst. eauto. Qed.
Lemma rel_dom R items items' p : items_rel R items items' → is_Some (items' !! p) ↔ is_Some (items !! p).
Proof. intros Hr. specialize (Hr p). inversion Hr; split; intros []; eauto; done. Qed.
Lemma rel_impl (R R' : Z → Item → Item → Prop) items items' : items_rel R items items' → (∀ p x y, R p x y → R' p x y) → items_rel R' items items'.
Proof. intros Hr Hi p. destruct (Hr p); constructor. auto. Qed.
Lemma rel_one (R : Z → Item → Item → Prop) items p it it' : items !! p = Some it → R p it it' → (∀ q x, items !! q = Some x → q ≠ p → R q x x) →
  items_rel R items (<[p := it']> items).
Proof.
  intros Hp HR Hx q. destruct (decide (q = p)) as [->|Hne].
  - rewrite lookup_insert_eq, Hp. by constructor.
  - rewrite lookup_insert_ne by done. destruct (items !! q) eqn:E; constructor. by apply Hx.
Qed.

Definition class_view (L : gmap Z (Z * Z)) (k : Z * Z) (items : Items) : Store := mstore (λ p, bool_decide (L !! p = Some k)) items.
Lemma lookup_class L k items p n : class_view L k items !! p = Some n ↔ ∃ it, items !! p = Some it ∧ n = mview it ∧ L !! p = Some k.
Proof.
  unfold class_view. rewrite lookup_mstore. destruct (items !! p) as [it|]; cbn; [|naive_solver].
  case_bool_decide; naive_solver.
Qed.
Lemma class_is_Some L k items p : is_Some (class_view L k items !! p) ↔ is_Some (items !! p) ∧ L !! p = Some k.
Proof. split; [intros [n (it & ? & ? & ?)%lookup_class]; eauto|intros [[it ?] ?]; eexists; apply lookup_class; eauto]. Qed.
Lemma lookup_regular items p n : hstore false items !! p = Some n ↔
  ∃ it, items !! p = Some it ∧ n = hview it ∧ rs_flag kIsChainedItem (decode (it_ref it)) = false.
Proof.
  rewrite lookup_hstore. destruct (items !! p) as [it|]; cbn; [|naive_solver]. rewrite chained_of. case_decide; naive_solver.
Qed.

(** Run the monad; the calls that are left are rewritten with their equations. *)
Ltac m_simpl := cbv beta iota delta [mbind M_bind mret M_ret get modify throw undef call call_noexcept check xdcheck deref on_throw swallow negb].

Section core.
Context `{AccessLaws} `{MMLaws} `{AllocatorLaws}.
Implicit Types (s : Cache) (M : gmap (list Z) Z) (X : Z * Z → list Z) (L : gmap Z (Z * Z)) (n : Z → Z) (ex : Z → bool).

Record core s M X L n ex : Prop := {
  co_alloc : al_rep (allocator_ s) L;
  co_dom p : is_Some (L !! p) ↔ is_Some (items_ s !! p);
  co_access : ac_rep (pc s) (accessContainer_ s) (hstore false (items_ s)) M;
  co_mm k : match mmContainers_ s !! k with
    | Some c => mm_rep (pc s) (class_view L k (items_ s)) c (X k) | None => X k = [] end;
  co_class p k : L !! p = Some k → is_Some (mmContainers_ s !! k);
  co_known pid size cid : al_classId pid size (allocator_ s) = Ok cid → is_Some (mmContainers_ s !! (pid, cid));
  co_item p it : items_ s !! p = Some it →
    plain (it_ref it) ∧ rs_access (decode (it_ref it)) = n p ∧ rs_exclusive (decode (it_ref it)) = ex p;
}.

Lemma access_stable pcx c items items' M : ac_rep pcx c (hstore false items) M → items_rel (λ _, same_a) items items' →
  ac_rep pcx c (hstore false items') M.
Proof.
  intros Hac Hr. eapply ac_env; [done|]. destruct (ac_facts _ _ _ _ Hac) as [Hw Hk]. split.
  - intros k p Hp. destruct (Hk k p Hp) as (nd & (it & Hit & -> & Hc)%lookup_regular & <-).
    destruct (rel_lookup _ _ _ _ _ Hr Hit) as (it' & Hit' & Hs). exists (hview it), (hview it').
    rewrite !lookup_regular. split; [eauto|]. split; [exists it'; rewrite (sa_chained _ _ Hs); eauto|]. cbn. split; apply Hs.
  - intros p n' (it' & Hit' & -> & Hc)%lookup_regular. destruct (rel_lookup' _ _ _ _ _ Hr Hit') as (it & Hit & Hs). cbn.
    split; [apply Hs|]. destruct (Hw p (hview it)) as [_ Hacc]; [apply lookup_regular; exists it; rewrite <- (sa_chained _ _ Hs); eauto|].
    rewrite acc_of, (sa_acc _ _ Hs), (sa_key _ _ Hs), <- acc_of. apply Hacc.
Qed.
Lemma mm_stable pcx L k items items' c xs : @pc_unCompress pcx kNull = Ok None → mm_rep pcx (class_view L k items) c xs →
  items_rel (λ p it it', L !! p = Some k → same_b it it') items items' → mm_rep pcx (class_view L k items') c xs.
Proof.
  intros Hnull Hmm Hr. eapply mm_env; [done|done|]. destruct (mm_facts _ _ _ _ Hmm) as (_ & Hin & _). split.
  - intros a [n (it & Hit & -> & Hl)%lookup_class]%Hin. destruct (rel_lookup _ _ _ _ _ Hr Hit) as (it' & Hit' & _).
    apply class_is_Some. split; [by eexists|done].
  - intros a n' (it' & Hit' & -> & Hl)%lookup_class. destruct (rel_lookup' _ _ _ _ _ Hr Hit') as (it & Hit & Hs). left.
    exists (mview it). split; [apply lookup_class; eauto|]. split; by apply Hs.
Qed.

(** ** What the invariant says *)
Section facts.
Context {s M X L n ex} (Hco : core s M X L n ex).

Lemma co_null : @pc_unCompress (pc s) kNull = Ok None.
Proof. by eapply al_null, Hco. Qed.
Lemma co_class_of p it : items_ s !! p = Some it → ∃ k c, L !! p = Some k ∧ mmContainers_ s !! k = Some c ∧
  mm_rep (pc s) (class_view L k (items_ s)) c (X k) ∧ class_view L k (items_ s) !! p = Some (mview it).
Proof.
  intros Hp. destruct (proj2 (co_dom _ _ _ _ _ _ Hco p)) as [k Hk]; [by eexists|]. destruct (co_class _ _ _ _ _ _ Hco p k Hk) as [c Hc].
  pose proof (co_mm _ _ _ _ _ _ Hco k) as Hm. rewrite Hc in Hm. exists k, c. split_and!; try done. apply lookup_class. eauto.
Qed.
Lemma co_linked p it k : items_ s !! p = Some it → L !! p = Some k → rs_linked (decode (it_ref it)) = bool_decide (p ∈ X k).
Proof.
  intros Hp Hk. destruct (co_class_of p it Hp) as (k' & c & Hk' & _ & Hm & Hn). simplify_eq.
  destruct (mm_facts _ _ _ _ Hm) as (_ & _ & Hf). destruct (Hf p _ Hn) as [_ Hl]. by rewrite <- linked_of.
Qed.
Lemma co_queued p k : p ∈ X k → ∃ it, items_ s !! p = Some it ∧ L !! p = Some k.
Proof.
  intros Hp. pose proof (co_mm _ _ _ _ _ _ Hco k) as Hm. destruct (mmContainers_ s !! k) as [c|]; [|by rewrite Hm, elem_of_nil in Hp].
  destruct (mm_facts _ _ _ _ Hm) as (_ & Hf & _). destruct (Hf p Hp) as [nd (it & ? & _ & ?)%lookup_class]. eauto.
Qed.
Lemma co_nodup k : NoDup (X k).
Proof.
  pose proof (co_mm _ _ _ _ _ _ Hco k) as Hm. destruct (mmContainers_ s !! k) as [c|]; [|rewrite Hm; constructor].
  by destruct (mm_facts _ _ _ _ Hm).
Qed.
Lemma co_regular p it : items_ s !! p = Some it → hstore false (items_ s) !! p = Some (hview it).
Proof. intros Hp. apply lookup_regular. exists it. split_and!; try done. by apply (co_item _ _ _ _ _ _ Hco p it Hp). Qed.
Lemma co_acc p it : items_ s !! p = Some it → rs_accessible (decode (it_ref it)) = bool_decide (M !! it_key it = Some p).
Proof.
  intros Hp. destruct (ac_facts _ _ _ _ (co_access _ _ _ _ _ _ Hco)) as [Hw _].
  destruct (Hw p _ (co_regular p it Hp)) as [_ Hacc]. cbn in Hacc. rewrite acc_of in Hacc. apply eq_true_iff_eq. by rewrite bool_decide_eq_true.
Qed.
Lemma co_mapped k p : M !! k = Some p → ∃ it, items_ s !! p = Some it ∧ it_key it = k.
Proof.
  intros Hp. destruct (ac_facts _ _ _ _ (co_access _ _ _ _ _ _ Hco)) as [_ Hk].
  destruct (Hk k p Hp) as (nd & (it & ? & -> & _)%lookup_regular & ?). eauto.
Qed.
Lemma co_info p it : items_ s !! p = Some it → ∃ k, L !! p = Some k ∧ al_info p (allocator_ s) = Ok k.
Proof.
  intros Hp. destruct (proj2 (co_dom _ _ _ _ _ _ Hco p)) as [k Hk]; [by eexists|]. exists k. split; [done|]. eapply al_info_law; [apply Hco|done].
Qed.
Lemma co_view k : mm_view k s = class_view L k (items_ s).
Proof.
  apply map_eq. intros p. unfold mm_view, class_view. rewrite !lookup_mstore. destruct (items_ s !! p) as [it|] eqn:E; [|done]. cbn.
  destruct (co_info p it E) as (k' & Hk & Hi). unfold in_class. rewrite Hi, Hk. by repeat case_bool_decide; simplify_eq.
Qed.
Lemma co_valid p it : items_ s !! p = Some it → @valid_ptr (pc s) p.
Proof. intros Hp. eapply al_valid; [apply Hco|]. apply (co_dom _ _ _ _ _ _ Hco). by eexists. Qed.
End facts.

(** ** Steps that change a word *)
Lemma core_items s M X L n ex items' n' ex' : core s M X L n ex → items_rel (λ _ it it', same_a it it' ∧ same_b it it') (items_ s) items' →
  (∀ p it, items' !! p = Some it → plain (it_ref it) ∧ rs_access (decode (it_ref it)) = n' p ∧ rs_exclusive (decode (it_ref it)) = ex' p) →
  core (with_items items' s) M X L n' ex'.
Proof.
  intros Hco Hr Hi. split; cbn; try apply Hco; try done.
  - intros p. rewrite (co_dom _ _ _ _ _ _ Hco), (rel_dom _ _ _ _ Hr). done.
  - eapply access_stable; [apply Hco|]. eapply rel_impl; [apply Hr|]. naive_solver.
  - intros k. pose proof (co_mm _ _ _ _ _ _ Hco k) as Hm. destruct (mmContainers_ s !! k) as [c|]; [|done].
    eapply mm_stable; [by apply (co_null Hco)|done|]. eapply rel_impl; [apply Hr|]. naive_solver.
Qed.

(** What a step leaves alone besides: the configuration, and the key, size and
    times of the items; [d] handles are given out, and [evs] is called. *)
Definition body (it : Item) : Z * Z * Z * list Z := (creationTime_ it, expiryTime_ it, it_size it, it_key it).
Record delta (d : Z) (evs : list Event) s s' : Prop := {
  d_config : config_ s' = config_ s;
  d_count : handleCount_ s' = handleCount_ s + d;
  d_events : events s' = events s ++ evs;
  d_stale : staleTime s' = staleTime s;
  d_body p it' : items_ s' !! p = Some it' → ∃ it, items_ s !! p = Some it ∧ body it' = body it;
}.
Lemma delta_refl s : delta 0 [] s s.
Proof. split; [done|lia|by rewrite app_nil_r|done|eauto]. Qed.
Lemma delta_trans d1 d2 evs1 evs2 s1 s2 s3 : delta d1 evs1 s1 s2 → delta d2 evs2 s2 s3 → delta (d1 + d2) (evs1 ++ evs2) s1 s3.
Proof.
  intros [C1 N1 E1 T1 B1] [C2 N2 E2 T2 B2]. split; [congruence|lia|by rewrite E2, E1, app_assoc|congruence|].
  intros p it (it2 & Hp & ->)%B2. by apply B1.
Qed.
Lemma delta_key {d evs s s' p it it'} : delta d evs s s' → items_ s !! p = Some it → items_ s' !! p = Some it' → it_key it' = it_key it.
Proof. intros Hd Hp Hp'. destruct (d_body _ _ _ _ Hd p it' Hp') as (it0 & ? & Hb). unfold body in Hb. by simplify_eq. Qed.
Lemma delta_items items' s : items_rel (λ _ it it', body it' = body it) (items_ s) items' → delta 0 [] s (with_items items' s).
Proof.
  intros Hr. split; cbn; [done|lia|by rewrite app_nil_r|done|]. intros p it' Hp. by destruct (rel_lookup' _ _ _ _ _ Hr Hp) as (it & ? & ?); eauto.
Qed.

Definition xset (k : Z * Z) (xs : list Z) X (k' : Z * Z) : list Z := if decide (k' = k) then xs else X k'.

Lemma core_word s M X L n ex p it r : core s M X L n ex → items_ s !! p = Some it → same_mm (it_ref it) r →
  rs_accessible (decode r) = rs_accessible (decode (it_ref it)) → (∀ f, mm_flag f = false → rs_flag f (decode r) = rs_flag f (decode (it_ref it))) →
  core (with_items (<[p := set_ref r it]> (items_ s)) s) M X L (set p (rs_access (decode r)) n) (set p (rs_exclusive (decode r)) ex).
Proof.
  intros Hco Hp Hm Ha Hf. destruct (co_item _ _ _ _ _ _ Hco p it Hp) as [(Hw & F1 & F2 & F3) _]. eapply core_items; [done| |].
  - apply (rel_one _ _ _ _ _ Hp).
    + split; [split; cbn; try done; [apply Hm|by apply Hf]|split; [done|done]].
    + intros q x Hq _. destruct (co_item _ _ _ _ _ _ Hco q x Hq) as [[Hwx _] _]. split; [by split|split; [done|by apply same_mm_refl]].
  - intros q x. unfold set. destruct (decide (p = q)) as [->|Hne].
    + rewrite lookup_insert_eq. intros [= <-]. cbn. split; [|done]. split; [apply Hm|]. by rewrite !Hf.
    + rewrite lookup_insert_ne by done. apply Hco.
Qed.

(** ** Handle counts and the exclusive bit *)
Lemma refOp_ok {A} (op : Z → result (A * Z)) p s it a r : items_ s !! p = Some it → op (it_ref it) = Ok (a, r) →
  refOp op p s = Ok (inl a, with_items (<[p := set_ref r it]> (items_ s)) s).
Proof. intros Hp E. unfold refOp, item, put_item. m_simpl. rewrite Hp. m_simpl. rewrite E. done. Qed.
Lemma refOp_throw {A} (op : Z → result (A * Z)) p s it e : items_ s !! p = Some it → op (it_ref it) = Throw e → refOp op p s = Ok (inr e, s).
Proof. intros Hp E. unfold refOp, item. m_simpl. rewrite Hp. m_simpl. by rewrite E. Qed.
Definition handle_op (op : RefOp) : bool :=
  match op with OpIncRef | OpDecRef | OpMarkForEviction | OpUnmarkForEviction => true | _ => false end.
Lemma handle_op_keeps op v x r : handle_op op = true → fits 32 v → run_op op v = Ok (x, r) →
  same_mm v r ∧ rs_accessible (decode r) = rs_accessible (decode v) ∧ (∀ f, rs_flag f (decode r) = rs_flag f (decode v)) ∧
  spec_op op (decode v) = Ok (x, decode r).
Proof.
  intros Ho Hv E. assert (mm_op op = false) as Hn by by destruct op. split; [by eapply other_op_mm|]. destruct (op_decode op v x r Hv E) as [_ Hs].
  destruct op; try done; cbn [spec_op] in *; repeat case_match; try discriminate; (split; [|split; [|done]]); apply Ok_pair in Hs as [_ <-]; done.
Qed.
Lemma delta_ref s p it r : items_ s !! p = Some it → delta 0 [] s (with_items (<[p := set_ref r it]> (items_ s)) s).
Proof. intros Hp. apply delta_items. by apply (rel_one _ _ _ _ _ Hp). Qed.
Lemma core_ref s M X L n ex p it op x r : core s M X L n ex → items_ s !! p = Some it → handle_op op = true →
  run_op op (it_ref it) = Ok (x, r) → let s' := with_items (<[p := set_ref r it]> (items_ s)) s in
  spec_op op (decode (it_ref it)) = Ok (x, decode r) ∧
  core s' M X L (set p (rs_access (decode r)) n) (set p (rs_exclusive (decode r)) ex) ∧ delta 0 [] s s'.
Proof.
  intros Hco Hp Ho E. destruct (co_item _ _ _ _ _ _ Hco p it Hp) as [[Hw _] _].
  destruct (handle_op_keeps op _ _ _ Ho Hw E) as (Hm & Ha & Hf & Hs). split; [done|]. split; [|by apply delta_ref]. by apply core_word.
Qed.
Lemma core_ext s M X L n ex X' n' ex' : core s M X L n ex → (∀ k, X' k = X k) →
  (∀ p, is_Some (items_ s !! p) → n' p = n p ∧ ex' p = ex p) → core s M X' L n' ex'.
Proof.
  intros [C1 C2 C3 C4 C5 C6 C7] HX Hn. split; try done.
  - intros k. rewrite HX. apply C4.
  - intros p it Hp. destruct (Hn p) as [-> ->]; [by eexists|]. by apply C7.
Qed.
Lemma core_count s M X L n ex c : core s M X L n ex → core (with_count c s) M X L n ex.
Proof. by intros []. Qed.

Lemma run_Ok {A B} (f : A → RefRet) (m : result (A * B)) x r : prod_map f id <$> m = Ok (x, r) → ∃ a, m = Ok (a, r) ∧ x = f a.
Proof. destruct m as [[a b]| |]; try done. cbn. intros [= <- <-]. eauto. Qed.
(** The outcome of an operation on the word, from its specification. *)
Lemma op_run op v d : fits 32 v → spec_op op (decode v) = d → 
  match d with
  | Ok (x, r') => ∃ r, run_op op v = Ok (x, r) ∧ decode r = r'
  | Throw e => run_op op v = Throw e
  | Undef => True
  end.
Proof.
  intros Hv <-. pose proof (run_op_refines_aux op v Hv) as E. rewrite <- E. destruct (run_op op v) as [[x r]| |]; cbn; eauto.
Qed.
Lemma co_count {s M X L n ex} (Hco : core s M X L n ex) p it : items_ s !! p = Some it → 0 ≤ n p < 2 ^ kNumAccessRefBits.
Proof.
  intros Hp. destruct (co_item _ _ _ _ _ _ Hco p it Hp) as ((Hw & _) & <- & _). by apply decode_valid.
Qed.

Definition kMaxRef : Z := 2 ^ kNumAccessRefBits - 1.
Lemma step_inc s M X L n ex p it : core s M X L n ex → items_ s !! p = Some it → ex p = false →
  if decide (n p = kMaxRef) then incRef (it_ref it) = Throw RefcountOverflow ∧ cache_incRef p s = Ok (inr RefcountOverflow, s)
  else ∃ r s', incRef (it_ref it) = Ok (kIncOk, r) ∧ cache_incRef p s = Ok (inl kIncOk, s') ∧
    core s' M X L (set p (n p + 1) n) ex ∧ delta 1 [] s s'.
Proof.
  intros Hco Hp Hex. destruct (co_item _ _ _ _ _ _ Hco p it Hp) as ((Hw & _) & Hn & He). rewrite Hex in He.
  pose proof (op_run OpIncRef (it_ref it) _ Hw eq_refl) as Ho. cbn [spec_op] in Ho. rewrite Hn, He in Ho. unfold cache_incRef. m_simpl.
  case_decide as Hm.
  - rewrite Hm in Ho. change (kMaxRef =? 2 ^ kNumAccessRefBits - 1) with true in Ho. cbn [run_op] in Ho.
    destruct (incRef (it_ref it)) as [[]| |] eqn:E; try done. injection Ho as ->. split; [done|]. by rewrite (refOp_throw _ _ _ _ _ Hp E).
  - rewrite (proj2 (Z.eqb_neq _ _)) in Ho by exact Hm. destruct Ho as (r & Er & Ed). pose proof Er as (a & Ea & [= <-])%run_Ok.
    rewrite (refOp_ok _ _ _ _ _ _ Hp Ea). m_simpl. destruct (core_ref _ _ _ _ _ _ _ _ OpIncRef _ _ Hco Hp eq_refl Er) as (_ & Hco' & Hd).
    rewrite Ed in Hco'. cbn [with_access rs_access rs_exclusive] in Hco'.
    eexists r, _. split; [done|]. split; [done|]. split; [apply core_count; eapply core_ext; [done|done|]|].
    + intros q _. unfold set. case_decide; subst; rewrite ?Hn, ?He, ?Hex; done.
    + destruct Hd as [D1 D2 D3 D4 D5]. split; cbn in *; try done; lia.
Qed.
Lemma step_dec s M X L n ex p it k : core s M X L n ex → items_ s !! p = Some it → L !! p = Some k → ex p = false → n p ≠ 0 →
  ∃ r s', cache_decRef p s = Ok (inl r, s') ∧ core s' M X L (set p (n p - 1) n) ex ∧ delta (-1) [] s s' ∧
    (r =? 0) = bool_decide (n p = 1 ∧ p ∉ X k ∧ M !! it_key it ≠ Some p).
Proof.
  intros Hco Hp Hk Hex Hn0. destruct (co_item _ _ _ _ _ _ Hco p it Hp) as ((Hw & _) & Hn & He). rewrite Hex in He.
  pose proof (op_run OpDecRef (it_ref it) _ Hw eq_refl) as Ho. cbn [spec_op] in Ho. rewrite Hn in Ho. unfold cache_decRef. m_simpl.
  rewrite (proj2 (Z.eqb_neq _ _) Hn0) in Ho. destruct Ho as (r & Er & Ed). pose proof Er as (a & Ea & [= Ha])%run_Ok.
  rewrite (refOp_ok _ _ _ _ _ _ Hp Ea). m_simpl. destruct (core_ref _ _ _ _ _ _ _ _ OpDecRef _ _ Hco Hp eq_refl Er) as (_ & Hco' & Hd).
  rewrite Ed in Hco'. cbn [with_access rs_access rs_exclusive] in Hco'.
  eexists a, _. split; [done|]. split; [apply core_count; eapply core_ext; [done|done|]|split].
  - intros q _. unfold set. case_decide; subst; rewrite ?Hn, ?He, ?Hex; done.
  - destruct Hd as [D1 D2 D3 D4 D5]. split; cbn in *; try done; lia.
  - rewrite <- Ha. unfold rs_ref. cbn [with_access rs_access rs_linked rs_accessible rs_exclusive]. rewrite He, (co_acc Hco p it Hp), (co_linked Hco p it k Hp Hk).
    pose proof (co_count Hco p it Hp). change (2 ^ kNumAccessRefBits) with 262144 in *. apply eq_true_iff_eq. rewrite Z.eqb_eq, bool_decide_eq_true.
    repeat case_bool_decide; cbn; (split; [intros; split_and!; try done; lia|intros (? & ? & ?); try done; lia]).
Qed.
Lemma step_mark s M X L n ex p it k : core s M X L n ex → items_ s !! p = Some it → L !! p = Some k →
  ∃ s', let b := bool_decide (p ∈ X k ∧ ex p = false ∧ n p = 0) in
    refOp markForEviction p s = Ok (inl b, s') ∧ core s' M X L n (if b then set p true ex else ex) ∧ delta 0 [] s s' ∧
    mmContainers_ s' = mmContainers_ s ∧ (b = false → s' = s).
Proof.
  intros Hco Hp Hk. destruct (co_item _ _ _ _ _ _ Hco p it Hp) as ((Hw & _) & Hn & He).
  pose proof (op_run OpMarkForEviction (it_ref it) _ Hw eq_refl) as Ho. cbn [spec_op] in Ho. rewrite Hn, He, (co_linked Hco p it k Hp Hk) in Ho.
  assert (bool_decide (p ∈ X k) && negb (ex p) && (n p =? 0) = bool_decide (p ∈ X k ∧ ex p = false ∧ n p = 0)) as Eb.
  { apply eq_true_iff_eq. rewrite bool_decide_eq_true, !andb_true_iff, bool_decide_eq_true, negb_true_iff, Z.eqb_eq. tauto. }
  rewrite Eb in Ho. set (b := bool_decide (p ∈ X k ∧ ex p = false ∧ n p = 0)) in *. cbn zeta. clearbody b.
  assert (∃ r, run_op OpMarkForEviction (it_ref it) = Ok (RBool b, r) ∧ decode r = if b then with_admin kExclusive true (decode (it_ref it)) else decode (it_ref it)) as (r & Er & Ed).
  { by destruct b. }
  pose proof Er as (a & Ea & [= <-])%run_Ok. rewrite (refOp_ok _ _ _ _ _ _ Hp Ea).
  destruct (core_ref _ _ _ _ _ _ _ _ OpMarkForEviction _ _ Hco Hp eq_refl Er) as (_ & Hco' & Hd).
  eexists. split; [done|]. split; [|split; [done|split; [done|]]].
  - eapply core_ext; [done|done|]. intros q _. rewrite Ed. unfold set. destruct b; cbn [with_admin rs_access rs_exclusive]; destruct (decide (p = q)) as [<-|]; rewrite ?Hn, ?He; done.
  - intros Hb. rewrite Hb in Ed. assert (r = it_ref it) as -> by (rewrite <- (encode_decode r), Ed; apply encode_decode).
    rewrite insert_id; [by destruct s|]. rewrite Hp. by destruct it.
Qed.
Lemma step_unmark s M X L n ex p it k : core s M X L n ex → items_ s !! p = Some it → L !! p = Some k →
  ex p = true → n p = 0 → p ∉ X k → M !! it_key it ≠ Some p →
  ∃ s', refOp unmarkForEviction p s = Ok (inl 0, s') ∧ core s' M X L n (set p false ex) ∧ delta 0 [] s s'.
Proof.
  intros Hco Hp Hk Hx Hn0 HX HM. destruct (co_item _ _ _ _ _ _ Hco p it Hp) as ((Hw & _) & Hn & He).
  pose proof (op_run OpUnmarkForEviction (it_ref it) _ Hw eq_refl) as Ho. cbn [spec_op] in Ho. rewrite Hn, He, Hx, Hn0 in Ho. cbn [andb Z.eqb] in Ho.
  destruct Ho as (r & Er & Ed). pose proof Er as (a & Ea & [= Ha])%run_Ok. rewrite (refOp_ok _ _ _ _ _ _ Hp Ea).
  destruct (core_ref _ _ _ _ _ _ _ _ OpUnmarkForEviction _ _ Hco Hp eq_refl Er) as (_ & Hco' & Hd).
  assert (rs_ref (with_admin kExclusive false (decode (it_ref it))) = 0) as Hz.
  { unfold rs_ref. cbn [with_admin rs_access rs_linked rs_accessible rs_exclusive].
    rewrite Hn, Hn0, (co_acc Hco p it Hp), (co_linked Hco p it k Hp Hk), !bool_decide_eq_false_2 by done. done. }
  assert (a = 0) as -> by (rewrite <- Ha; exact Hz).
  eexists. split; [done|]. split; [|done]. eapply core_ext; [done|done|]. intros q _. rewrite Ed. unfold set. cbn [with_admin rs_access rs_exclusive]. destruct (decide (p = q)) as [<-|]; rewrite ?Hn; done.
Qed.

(** ** Steps of an MM container *)
(** What becomes of an item when the container of class [k] returns [h']. *)
Definition mm_changed L (k : Z * Z) (h' : Store) (p : Z) (it it' : Item) : Prop := fits 32 (it_ref it) ∧
  ((L !! p = Some k ∧ ∃ nd, h' !! p = Some nd ∧ same_core (it_ref it) (refCount_ nd) ∧ it' = set_m nd it) ∨ (L !! p ≠ Some k ∧ it' = it)).
Lemma put_m_rel s M X L n ex k h' : core s M X L n ex → core_kept (class_view L k (items_ s)) h' →
  items_rel (mm_changed L k h') (items_ s) (put_m h' (items_ s)) ∧ class_view L k (put_m h' (items_ s)) = h'.
Proof.
  intros Hco Hk.
  assert (items_rel (mm_changed L k h') (items_ s) (put_m h' (items_ s))) as Hr.
  { intros p. rewrite lookup_put_m. destruct (items_ s !! p) as [it|] eqn:Ep; constructor. split; [by apply (co_item _ _ _ _ _ _ Hco p it Ep)|].
    specialize (Hk p). destruct (class_view L k (items_ s) !! p) as [nd|] eqn:Ec.
    - apply lookup_class in Ec as (it0 & E0 & -> & El). simplify_eq. destruct (h' !! p) as [nd'|]; [|done]. left. split; [done|]. by exists nd'.
    - right. destruct (h' !! p); [done|]. split; [|done]. intros El.
      assert (class_view L k (items_ s) !! p = Some (mview it)) by (apply lookup_class; eauto). congruence. }
  split; [done|]. apply map_eq. intros p. specialize (Hk p). destruct (class_view L k (items_ s) !! p) as [nd|] eqn:Ec.
  - apply lookup_class in Ec as (it & E0 & -> & El). destruct (h' !! p) as [nd'|] eqn:Eh; [|done]. apply lookup_class.
    destruct (rel_lookup _ _ _ _ _ Hr E0) as (it' & E' & _ & [(_ & nd2 & E2 & _ & ->)|[? _]]); [|done]. simplify_eq.
    exists (set_m nd' it). split; [done|]. split; [by destruct nd'|done].
  - destruct (h' !! p) eqn:Eh; [done|]. destruct (class_view L k (put_m h' (items_ s)) !! p) eqn:E'; [|done].
    apply lookup_class in E' as (it' & E0 & _ & El). destruct (rel_lookup' _ _ _ _ _ Hr E0) as (it & E1 & _).
    assert (class_view L k (items_ s) !! p = Some (mview it)) by (apply lookup_class; eauto). congruence.
Qed.
Lemma insert_is_Some {A} (m : gmap (Z * Z) A) k v k' : is_Some (m !! k') → is_Some (<[k := v]> m !! k').
Proof. intros ?. by rewrite lookup_insert_is_Some'; right. Qed.
Lemma core_mm s M X L n ex k c c' h' xs' : core s M X L n ex → mmContainers_ s !! k = Some c →
  mm_rep (pc s) h' c' xs' → core_kept (class_view L k (items_ s)) h' →
  let s' := with_mm k c' (with_items (put_m h' (items_ s)) s) in core s' M (xset k xs' X) L n ex ∧ delta 0 [] s s'.
Proof.
  intros Hco Hc Hm Hk s'. destruct (put_m_rel _ _ _ _ _ _ _ _ Hco Hk) as [Hr Hv]. split; [split|].
  - apply Hco.
  - intros p. cbn. rewrite (co_dom _ _ _ _ _ _ Hco), (rel_dom _ _ _ _ Hr). done.
  - cbn. eapply access_stable; [apply Hco|]. eapply rel_impl; [done|]. intros p it it' [Hw [(_ & nd & _ & Hs & ->)|[_ ->]]]; [|done].
    split; cbn; try done; by apply Hs.
  - cbn. intros k'. unfold xset. destruct (decide (k' = k)) as [->|Hne]; [by rewrite lookup_insert_eq, Hv|].
    rewrite lookup_insert_ne by done. pose proof (co_mm _ _ _ _ _ _ Hco k') as Hm'. destruct (mmContainers_ s !! k') as [c0|]; [|done].
    eapply mm_stable; [by apply (co_null Hco)|done|]. eapply rel_impl; [done|]. intros p it it' [Hw [[? _]|[_ ->]]] El; [congruence|].
    split; [done|by apply same_mm_refl].
  - cbn. intros p k' Hp. by eapply insert_is_Some, co_class.
  - cbn. intros pid size cid Hp. by eapply insert_is_Some, co_known.
  - cbn. intros p it' Hp. destruct (rel_lookup' _ _ _ _ _ Hr Hp) as (it & Hit & _ & HR).
    destruct (co_item _ _ _ _ _ _ Hco p it Hit) as ((W & F1 & F2 & F3) & Ha & He).
    destruct HR as [(_ & nd & _ & Hs & ->)|[_ ->]]; [|done]. cbn. rewrite (sc_access _ _ Hs), (sc_exclusive _ _ Hs). split; [|done].
    split; [apply Hs|]. by rewrite !(sc_flags _ _ Hs).
  - apply (delta_trans 0 0 [] [] _ (with_items (put_m h' (items_ s)) s)); [apply delta_items|].
    + eapply rel_impl; [done|]. by intros p it it' [_ [(_ & nd & _ & _ & ->)|[_ ->]]].
    + split; cbn; [done|lia|by rewrite app_nil_r|done|eauto].
Qed.

Lemma item_ok p s it : items_ s !! p = Some it → item p s = Ok (inl it, s).
Proof. intros Hp. unfold item. m_simpl. by rewrite Hp. Qed.
Lemma mm_read_ok {A} s M X L n ex k c (f : PtrCompressor → MMC * Store → result A) a : core s M X L n ex → mmContainers_ s !! k = Some c →
  f (pc s) (c, class_view L k (items_ s)) = Ok a → mm_read k f s = Ok (inl a, s).
Proof. intros Hco Hc E. unfold mm_read. m_simpl. by rewrite Hc, (co_view Hco), E. Qed.
Lemma mm_call_ok {A} s M X L n ex k c (f : PtrCompressor → MMC * Store → result (A * (MMC * Store))) a c' h' : core s M X L n ex →
  mmContainers_ s !! k = Some c → f (pc s) (c, class_view L k (items_ s)) = Ok (a, (c', h')) →
  mm_call k f s = Ok (inl a, with_mm k c' (with_items (put_m h' (items_ s)) s)).
Proof. intros Hco Hc E. unfold mm_call. m_simpl. by rewrite (mm_read_ok _ _ _ _ _ _ _ _ _ _ Hco Hc E). Qed.
Lemma getMM_ok s M X L n ex p it k : core s M X L n ex → items_ s !! p = Some it → L !! p = Some k → getMMContainer p s = Ok (inl k, s).
Proof. intros Hco Hp Hk. unfold getMMContainer. m_simpl. destruct (co_info Hco p it Hp) as (k' & ? & ->). by simplify_eq. Qed.

Lemma step_mm_add s M X L n ex p it k now : core s M X L n ex → items_ s !! p = Some it → L !! p = Some k → p ∉ X k →
  ∃ xs' s', insertInMMContainer p now s = Ok (inl tt, s') ∧ xs' ≡ₚ p :: X k ∧ core s' M (xset k xs' X) L n ex ∧ delta 0 [] s s'.
Proof.
  intros Hco Hp Hk HX. destruct (co_class_of Hco p it Hp) as (k' & c & Hk' & Hc & Hm & Hv). simplify_eq.
  destruct (mm_add_law _ _ _ _ p now Hm) as (c' & h' & xs' & E & Hm' & Hperm & Hkept); [by eexists|done|].
  unfold insertInMMContainer. m_simpl. rewrite (item_ok _ _ _ Hp), linked_of, (co_linked Hco p it k Hp Hk), bool_decide_eq_false_2 by done. m_simpl.
  rewrite (getMM_ok _ _ _ _ _ _ _ _ _ Hco Hp Hk), (mm_call_ok _ _ _ _ _ _ _ _ (λ pc, mm_add pc p now) _ _ _ Hco Hc E).
  destruct (core_mm _ _ _ _ _ _ _ _ _ _ _ Hco Hc Hm' Hkept). eexists xs', _. done.
Qed.
Lemma step_mm_remove s M X L n ex p it k : core s M X L n ex → items_ s !! p = Some it → L !! p = Some k →
  ∃ xs' s', removeFromMMContainer p s = Ok (inl (bool_decide (p ∈ X k)), s') ∧
    (if decide (p ∈ X k) then X k ≡ₚ p :: xs' else xs' = X k) ∧ core s' M (xset k xs' X) L n ex ∧ delta 0 [] s s'.
Proof.
  intros Hco Hp Hk. destruct (co_class_of Hco p it Hp) as (k' & c & Hk' & Hc & Hm & Hv). simplify_eq.
  unfold removeFromMMContainer. m_simpl. rewrite (item_ok _ _ _ Hp), linked_of, (co_linked Hco p it k Hp Hk).
  destruct (decide (p ∈ X k)) as [Hin|Hout].
  - rewrite bool_decide_eq_true_2 by done. destruct (mm_remove_law _ _ _ _ p Hm Hin) as (c' & h' & xs' & E & Hm' & Hperm & Hkept).
    rewrite (getMM_ok _ _ _ _ _ _ _ _ _ Hco Hp Hk), (mm_call_ok _ _ _ _ _ _ _ _ (λ pc, mm_remove pc p) _ _ _ Hco Hc E).
    destruct (core_mm _ _ _ _ _ _ _ _ _ _ _ Hco Hc Hm' Hkept). by eexists xs', _.
  - rewrite bool_decide_eq_false_2 by done. exists (X k), s. split; [done|]. split; [done|]. split; [|apply delta_refl].
    eapply core_ext; [done| |done]. intros k'. unfold xset. by case_decide; subst.
Qed.
Lemma step_record s M X L n ex p it k mode now free : core s M X L n ex → items_ s !! p = Some it → L !! p = Some k →
  ∃ b xs' s', recordAccessInMMContainer p mode now free s = Ok (inl b, s') ∧ xs' ≡ₚ X k ∧ core s' M (xset k xs' X) L n ex ∧ delta 0 [] s s'.
Proof.
  intros Hco Hp Hk. destruct (co_class_of Hco p it Hp) as (k' & c & Hk' & Hc & Hm & Hv). simplify_eq.
  destruct (mm_record_law _ _ _ _ p mode now free Hm) as (b & c' & h' & xs' & E & Hm' & Hperm & Hkept); [by eexists|].
  unfold recordAccessInMMContainer. m_simpl. destruct (co_info Hco p it Hp) as (k' & ? & ->). simplify_eq.
  rewrite (mm_call_ok _ _ _ _ _ _ _ _ (λ pc, mm_recordAccess pc p mode now free) _ _ _ Hco Hc E).
  destruct (core_mm _ _ _ _ _ _ _ _ _ _ _ Hco Hc Hm' Hkept). by eexists b, xs', _.
Qed.
Lemma step_removeIt s M X L n ex k c itr i p : core s M X L n ex → mmContainers_ s !! k = Some c → mm_at c itr (X k) i → X k !! i = Some p →
  ∃ itr' xs' s', mm_call k (λ pc, mm_removeIt pc itr) s = Ok (inl itr', s') ∧ X k ≡ₚ p :: xs' ∧ core s' M (xset k xs' X) L n ex ∧ delta 0 [] s s'.
Proof.
  intros Hco Hc Hat Hi. pose proof (co_mm _ _ _ _ _ _ Hco k) as Hm. rewrite Hc in Hm.
  destruct (mm_removeIt_law _ _ _ _ _ _ _ Hm Hat Hi) as (itr' & c' & h' & xs' & E & Hm' & Hperm & Hkept).
  rewrite (mm_call_ok _ _ _ _ _ _ _ _ (λ pc, mm_removeIt pc itr) _ _ _ Hco Hc E).
  destruct (core_mm _ _ _ _ _ _ _ _ _ _ _ Hco Hc Hm' Hkept). by eexists itr', xs', _.
Qed.

(** ** Steps of the access container *)
(** [g] says what becomes of the words. *)
Definition word_steps (g : Z → Z → Z) s n n' ex ex' : Prop := ∀ p it, items_ s !! p = Some it →
  same_mm (it_ref it) (g p (it_ref it)) ∧ (∀ f, mm_flag f = false → rs_flag f (decode (g p (it_ref it))) = rs_flag f (decode (it_ref it))) ∧
  (rs_access (decode (it_ref it)) = n p → rs_access (decode (g p (it_ref it))) = n' p) ∧
  (rs_exclusive (decode (it_ref it)) = ex p → rs_exclusive (decode (g p (it_ref it))) = ex' p).
Lemma put_h_rel s M X L n ex g h' : core s M X L n ex → words_to g (hstore false (items_ s)) h' →
  items_rel (λ p it it', ∃ nd, h' !! p = Some nd ∧ hn_key nd = it_key it ∧ hn_ref nd = g p (it_ref it) ∧ it' = set_h nd it) (items_ s) (put_h h' (items_ s)).
Proof.
  intros Hco Hw p. rewrite lookup_put_h. destruct (items_ s !! p) as [it|] eqn:Ep; constructor. specialize (Hw p).
  rewrite (co_regular Hco p it Ep) in Hw. cbn in Hw. destruct (h' !! p) as [nd|]; [|done]. cbn in Hw. simplify_eq. by exists nd.
Qed.
Lemma core_table s M X L n ex g c' h' M' n' ex' : core s M X L n ex → words_to g (hstore false (items_ s)) h' →
  ac_rep (pc s) c' h' M' → word_steps g s n n' ex ex' →
  let s' := put_table false c' h' s in core s' M' X L n' ex' ∧ delta 0 [] s s'.
Proof.
  intros Hco Hw Hac Hg s'. pose proof (put_h_rel _ _ _ _ _ _ _ _ Hco Hw) as Hr.
  assert (∀ p it', put_h h' (items_ s) !! p = Some it' → plain (it_ref it') ∧ rs_access (decode (it_ref it')) = n' p ∧ rs_exclusive (decode (it_ref it')) = ex' p) as Hi.
  { intros p it' Hp. destruct (rel_lookup' _ _ _ _ _ Hr Hp) as (it & Hit & nd & _ & _ & Er & ->).
    destruct (co_item _ _ _ _ _ _ Hco p it Hit) as ((W & F1 & F2 & F3) & Ha & He). destruct (Hg p it Hit) as (Hm & Hf & Ga & Ge).
    cbn. rewrite Er. split; [|auto]. split; [apply Hm|]. by rewrite !Hf. }
  split; [split|].
  - apply Hco.
  - intros p. cbn. rewrite (co_dom _ _ _ _ _ _ Hco), (rel_dom _ _ _ _ Hr). done.
  - cbn. replace (hstore false (put_h h' (items_ s))) with h'; [done|]. apply map_eq. intros p. destruct (h' !! p) as [nd|] eqn:Eh.
    + specialize (Hw p). rewrite Eh in Hw. destruct (hstore false (items_ s) !! p) as [nd0|] eqn:E0; [|done].
      apply lookup_regular in E0 as (it & Ep & -> & _). destruct (rel_lookup _ _ _ _ _ Hr Ep) as (it' & Ep' & nd' & E' & Ek & Er & ->). simplify_eq.
      symmetry. apply lookup_regular. eexists. split; [done|]. split; [unfold hview; cbn; rewrite <- Ek; by destruct nd|]. by apply (Hi p _ Ep').
    + symmetry. destruct (hstore false (put_h h' (items_ s)) !! p) as [nd|] eqn:E'; [|done].
      apply lookup_regular in E' as (it' & Ep' & _). destruct (rel_lookup' _ _ _ _ _ Hr Ep') as (it & _ & nd' & E0 & _). congruence.
  - cbn. intros k. pose proof (co_mm _ _ _ _ _ _ Hco k) as Hm. destruct (mmContainers_ s !! k) as [c|]; [|done].
    eapply mm_stable; [by apply (co_null Hco)|done|]. intros p. specialize (Hr p). destruct (items_ s !! p) as [it|] eqn:Ep; inversion Hr as [x it' HR Ex E|]; subst; constructor.
    intros _. destruct HR as (nd & _ & _ & Er & ->). split; [done|]. cbn. rewrite Er. by apply (Hg p it).
  - apply Hco.
  - apply Hco.
  - apply Hi.
  - apply (delta_trans 0 0 [] [] _ (with_items (put_h h' (items_ s)) s)); [apply delta_items|].
    + eapply rel_impl; [done|]. by intros p it it' (nd & _ & _ & _ & ->).
    + split; cbn; [done|lia|by rewrite app_nil_r|done|eauto].
Qed.

Lemma mark_access_keeps v (b : bool) : fits 32 v → let r := (if b then markAccessible else unmarkAccessible) v in
  same_mm v r ∧ (∀ f, rs_flag f (decode r) = rs_flag f (decode v)) ∧ rs_access (decode r) = rs_access (decode v) ∧
  rs_exclusive (decode r) = rs_exclusive (decode v).
Proof.
  intros Hv r. assert (run_op (if b then OpMarkAccessible else OpUnmarkAccessible) v = Ok (RUnit, r)) as E by by destruct b.
  split; [eapply other_op_mm; [|done|done]; by destruct b|]. destruct (op_decode _ _ _ _ Hv E) as [_ Hs].
  destruct b; cbn [spec_op] in Hs; apply Ok_pair in Hs as [_ <-]; done.
Qed.
Lemma steps_id s M X L n ex : core s M X L n ex → word_steps (λ _ r, r) s n n ex ex.
Proof. intros Hco p it Hp. destruct (co_item _ _ _ _ _ _ Hco p it Hp) as ([Hw _] & _). split; [by apply same_mm_refl|done]. Qed.
Lemma steps_mark s M X L n ex p (b : bool) : core s M X L n ex → word_steps (on_item p (if b then markAccessible else unmarkAccessible)) s n n ex ex.
Proof.
  intros Hco q it Hq. destruct (co_item _ _ _ _ _ _ Hco q it Hq) as ([Hw _] & _). unfold on_item. case_decide; [|split; [by apply same_mm_refl|done]].
  destruct (mark_access_keeps (it_ref it) b Hw) as (? & Hf & -> & ->). done.
Qed.
Lemma step_insert s M X L n ex p it : core s M X L n ex → items_ s !! p = Some it → M !! it_key it ≠ Some p →
  ∃ s', access_insert false p s = Ok (inl (bool_decide (M !! it_key it = None)), s') ∧
    core s' (if decide (M !! it_key it = None) then <[it_key it := p]> M else M) X L n ex ∧ delta 0 [] s s'.
Proof.
  intros Hco Hp HM. destruct (ac_insert_law _ _ _ _ _ _ (co_access _ _ _ _ _ _ Hco) (co_regular Hco p it Hp) (co_valid Hco p it Hp)) as (c' & h' & E).
  { cbn. by rewrite acc_of, (co_acc Hco p it Hp), bool_decide_eq_false_2. }
  cbn [hn_key hview] in E. unfold access_insert. m_simpl. cbn [table]. destruct (M !! it_key it) as [q|] eqn:EM.
  - rewrite bool_decide_eq_false_2, decide_False by done. destruct E as (-> & Hac & Hw). eexists. split; [done|].
    by apply (core_table _ _ _ _ _ _ _ _ _ _ _ _ Hco Hw Hac (steps_id _ _ _ _ _ _ Hco)).
  - rewrite bool_decide_eq_true_2, decide_True by done. destruct E as (-> & Hac & Hw). eexists. split; [done|].
    by apply (core_table _ _ _ _ _ _ _ _ _ _ _ _ Hco Hw Hac (steps_mark _ _ _ _ _ _ p true Hco)).
Qed.
Lemma words_same h : words_to (λ _ r, r) h h.
Proof. by intros p. Qed.
Lemma step_aremove s M X L n ex p it : core s M X L n ex → items_ s !! p = Some it →
  ∃ s', access_remove false p s = Ok (inl (bool_decide (M !! it_key it = Some p)), s') ∧
    core s' (if decide (M !! it_key it = Some p) then delete (it_key it) M else M) X L n ex ∧ delta 0 [] s s'.
Proof.
  intros Hco Hp. pose proof (co_access _ _ _ _ _ _ Hco) as Hac. pose proof (co_regular Hco p it Hp) as Hr.
  unfold access_remove. m_simpl. cbn [table]. case_decide as HM.
  - rewrite bool_decide_eq_true_2 by done. destruct (ac_remove_law _ _ _ _ _ _ Hac Hr HM) as (c' & h' & -> & Hac' & Hw). eexists. split; [done|].
    by apply (core_table _ _ _ _ _ _ _ _ _ _ _ _ Hco Hw Hac' (steps_mark _ _ _ _ _ _ p false Hco)).
  - rewrite bool_decide_eq_false_2 by done. rewrite (ac_remove_out _ _ _ _ _ _ Hac Hr HM). eexists. split; [done|].
    by apply (core_table _ _ _ _ _ _ _ _ _ _ _ _ Hco (words_same _) Hac (steps_id _ _ _ _ _ _ Hco)).
Qed.
Lemma core_delta_count s M X L n ex d evs s0 c : core s M X L n ex ∧ delta d evs s0 s → core (with_count (handleCount_ s + c) s) M X L n ex ∧
  delta (d + c) evs s0 (with_count (handleCount_ s + c) s).
Proof. intros [Hco [D1 D2 D3 D4 D5]]. split; [by apply core_count|]. split; cbn; try done. lia. Qed.
(** Taking a handle through the table. *)
Lemma inc_word s M X L n ex p it : core s M X L n ex → items_ s !! p = Some it → ex p = false →
  if decide (n p = kMaxRef) then incRef (it_ref it) = Throw RefcountOverflow
  else ∃ r, incRef (it_ref it) = Ok (kIncOk, r) ∧ word_steps (on_item p (λ _, r)) s n (set p (n p + 1) n) ex ex ∧
    fits 32 r ∧ rs_accessible (decode r) = rs_accessible (decode (it_ref it)).
Proof.
  intros Hco Hp Hex. pose proof (step_inc _ _ _ _ _ _ _ _ Hco Hp Hex) as Hs. case_decide; [by destruct Hs|].
  destruct Hs as (r & s' & E & _). exists r. split; [done|]. destruct (co_item _ _ _ _ _ _ Hco p it Hp) as ([Hw _] & Hn & He).
  assert (run_op OpIncRef (it_ref it) = Ok (RInc kIncOk, r)) as Er by (cbn; by rewrite E).
  destruct (handle_op_keeps OpIncRef _ _ _ eq_refl Hw Er) as (Hm & Ha & Hf & Hsp). split; [|split; [apply Hm|done]].
  cbn [spec_op] in Hsp. rewrite He, Hex in Hsp. destruct (_ =? _); [done|]. apply Ok_pair in Hsp as [_ Hd].
  intros q x Hq. unfold on_item, set. destruct (decide (q = p)) as [->|Hne].
  - simplify_eq. rewrite decide_True by done. split; [done|]. split; [by intros|]. rewrite <- Hd. cbn. by rewrite Hn.
  - rewrite decide_False by done. destruct (co_item _ _ _ _ _ _ Hco q x Hq) as ([Hwx _] & _). split; [by apply same_mm_refl|done].
Qed.
Lemma step_find s M X L n ex key : core s M X L n ex →
  match M !! key with
  | None => ∃ s', access_find false key s = Ok (inl NullHandle, s') ∧ core s' M X L n ex ∧ delta 0 [] s s'
  | Some p => ex p = false →
      if decide (n p = kMaxRef) then access_find false key s = Ok (inr RefcountOverflow, s)
      else ∃ s', access_find false key s = Ok (inl (HandleTo p), s') ∧ core s' M X L (set p (n p + 1) n) ex ∧ delta 1 [] s s'
  end.
Proof.
  intros Hco. pose proof (co_access _ _ _ _ _ _ Hco) as Hac. unfold access_find. m_simpl. cbn [table]. rewrite (ac_find_law _ _ _ _ key Hac).
  destruct (M !! key) as [p|] eqn:EM.
  - intros Hex. destruct (co_mapped Hco key p EM) as (it & Hp & Hkey). pose proof (inc_word _ _ _ _ _ _ _ _ Hco Hp Hex) as Hi.
    cbn [ChainedHashTable.acquire]. rewrite (co_regular Hco p it Hp). cbn [deref]. res_simpl. cbn [hn_ref hview]. case_decide as Hm.
    + by rewrite Hi.
    + destruct Hi as (r & -> & Hst & Hf & Ha). res_simpl. eexists. split; [done|]. cbn [count_handle].
      apply (core_delta_count _ _ _ _ _ _ 0 []). eapply (core_table _ _ _ _ _ _ (on_item p (λ _, r)) _ _ _ _ _ Hco); [| |done].
      * intros q. unfold on_item. destruct (decide (q = p)) as [->|Hne]; [by rewrite lookup_insert_eq, (co_regular Hco p it Hp)|by rewrite lookup_insert_ne].
      * eapply ac_env; [done|]. destruct (ac_facts _ _ _ _ Hac) as [Hw Hk]. split.
        -- intros k' q Hq. destruct (Hk k' q Hq) as (nd & Hnd & _). destruct (decide (q = p)) as [->|Hne].
           ++ rewrite (co_regular Hco p it Hp) in *. simplify_eq. eexists _, _. split; [done|]. by rewrite lookup_insert_eq.
           ++ exists nd, nd. by rewrite lookup_insert_ne.
        -- intros q nd. destruct (decide (q = p)) as [->|Hne]; [rewrite lookup_insert_eq|rewrite lookup_insert_ne by done; apply Hw].
           intros [= <-]. cbn. split; [done|]. rewrite acc_of, Ha, <- acc_of. by apply (Hw p _ (co_regular Hco p it Hp)).
  - cbn [ChainedHashTable.acquire]. eexists. split; [done|]. cbn [count_handle].
    by apply (core_table _ _ _ _ _ _ _ _ _ _ _ _ Hco (words_same _) Hac (steps_id _ _ _ _ _ _ Hco)).
Qed.

Lemma steps_swap s M X L n ex p q it r : core s M X L n ex → items_ s !! q = Some it → p ≠ q → fits 32 r →
  word_steps (on_item q (λ _, r)) s n (set q (n q + 1) n) ex ex →
  word_steps (λ a, on_item p markAccessible a ∘ on_item q (λ _, unmarkAccessible r) a) s n (set q (n q + 1) n) ex ex.
Proof.
  intros Hco Hq Hne Hr Hst a x Ha. destruct (co_item _ _ _ _ _ _ Hco a x Ha) as ([Hw _] & _). specialize (Hst a x Ha).
  unfold on_item in *. cbn. destruct (decide (a = q)) as [->|Haq].
  - rewrite (decide_False (P := q = p)) by done. destruct Hst as (Hm & Hf & Hn & He).
    destruct (mark_access_keeps r false Hr) as (? & Hf' & -> & ->). split; [by eapply same_mm_trans|].
    split; [|done]. intros f ?. by rewrite Hf', Hf.
  - case_decide; [|done]. subst. destruct Hst as (_ & _ & Hn & He). destruct (mark_access_keeps (it_ref x) true Hw) as (? & ? & -> & ->). done.
Qed.
Lemma step_replace s M X L n ex p it : core s M X L n ex → items_ s !! p = Some it → M !! it_key it ≠ Some p →
  (∀ q, M !! it_key it = Some q → ex q = false) →
  match M !! it_key it with
  | None => ∃ s', access_insertOrReplace p s = Ok (inl NullHandle, s') ∧ core s' (<[it_key it := p]> M) X L n ex ∧ delta 0 [] s s'
  | Some q =>
      if decide (n q = kMaxRef) then ∃ s', access_insertOrReplace p s = Ok (inr RefcountOverflow, s') ∧ core s' M X L n ex ∧ delta 0 [] s s'
      else ∃ s', access_insertOrReplace p s = Ok (inl (HandleTo q), s') ∧ core s' (<[it_key it := p]> M) X L (set q (n q + 1) n) ex ∧ delta 1 [] s s'
  end.
Proof.
  intros Hco Hp HM Hexq. pose proof (co_access _ _ _ _ _ _ Hco) as Hac.
  pose proof (ac_replace_law _ _ _ _ _ _ Hac (co_regular Hco p it Hp) (co_valid Hco p it Hp)) as E.
  specialize (E ltac:(cbn; by rewrite acc_of, (co_acc Hco p it Hp), bool_decide_eq_false_2)). cbn [hn_key hview] in E.
  unfold access_insertOrReplace. m_simpl. cbn [table]. destruct (M !! it_key it) as [q|] eqn:EM.
  - destruct (co_mapped Hco _ q EM) as (iq & Hq & Hkq). destruct (E _ (co_regular Hco q iq Hq)) as [E1 E2]. cbn [hn_ref hview] in *.
    pose proof (inc_word _ _ _ _ _ _ _ _ Hco Hq (Hexq q eq_refl)) as Hi. case_decide as Hm.
    + destruct (E2 _ Hi) as (c' & h' & -> & Hac' & Hw). eexists. split; [done|].
      by apply (core_table _ _ _ _ _ _ _ _ _ _ _ _ Hco Hw Hac' (steps_id _ _ _ _ _ _ Hco)).
    + destruct Hi as (r & Er & Hst & Hf & _). destruct (E1 _ Er) as (c' & h' & -> & Hac' & Hw). eexists. split; [done|]. cbn [count_handle].
      assert (p ≠ q) as Hpq by congruence. apply (core_delta_count _ _ _ _ _ _ 0 []).
      by apply (core_table _ _ _ _ _ _ _ _ _ _ _ _ Hco Hw Hac' (steps_swap _ _ _ _ _ _ _ _ _ _ Hco Hq Hpq Hf Hst)).
  - destruct E as (c' & h' & -> & Hac' & Hw). eexists. split; [done|]. cbn [count_handle].
    by apply (core_table _ _ _ _ _ _ _ _ _ _ _ _ Hco Hw Hac' (steps_mark _ _ _ _ _ _ p true Hco)).
Qed.

(** ** Memory *)
Lemma agree_weaken (P Q : Z → Prop) pc1 pc2 : pc_agree P pc1 pc2 → (∀ p, Q p → P p) → pc_agree Q pc1 pc2.
Proof. intros [H1' H2'] Hi. split; eauto. Qed.
Lemma regular_dom items p : is_Some (hstore false items !! p) → is_Some (items !! p).
Proof. intros [nd (it & ? & _)%lookup_regular]. by eexists. Qed.
(** Another state of the allocator, in which the items are still live. *)
Lemma core_alloc s M X L n ex a' : core s M X L n ex → al_rep a' L → pc_agree (λ p, is_Some (L !! p)) (pc s) (al_pc a') →
  (∀ pid size, al_classId pid size a' = al_classId pid size (allocator_ s)) → core (with_alloc a' s) M X L n ex.
Proof.
  intros Hco Ha Hag Hcl. split; cbn; try apply Hco; try done.
  - eapply ac_move; [apply Hco|]. eapply agree_weaken; [done|]. intros p Hp%regular_dom. by apply (co_dom _ _ _ _ _ _ Hco).
  - intros k. pose proof (co_mm _ _ _ _ _ _ Hco k) as Hm. destruct (mmContainers_ s !! k) as [c|]; [|done].
    eapply mm_move; [done|]. eapply agree_weaken; [done|]. intros p [_ ?]%class_is_Some. by eexists.
  - intros pid size cid. rewrite Hcl. apply Hco.
Qed.
Lemma step_free s M X L n ex p it k : core s M X L n ex → items_ s !! p = Some it → L !! p = Some k → p ∉ X k → M !! it_key it ≠ Some p →
  ∃ s', free_item p s = Ok (inl tt, s') ∧ core s' M X (delete p L) n ex ∧ delta 0 [] s s' ∧ items_ s' = delete p (items_ s).
Proof.
  intros Hco Hp Hk HX HM. destruct (al_free_law _ _ p (co_alloc _ _ _ _ _ _ Hco)) as (a' & E & Ha & Hag & Hcl); [by eexists|].
  unfold free_item. m_simpl. rewrite E. eexists. split; [done|]. split; [split|]; cbn.
  - done.
  - intros q. destruct (decide (q = p)) as [->|Hne]; [rewrite !lookup_delete_eq; split; by intros []|rewrite !lookup_delete_ne by done; apply Hco].
  - eapply (ac_move (pc s)).
    + eapply ac_env; [apply Hco|]. destruct (ac_facts _ _ _ _ (co_access _ _ _ _ _ _ Hco)) as [Hw _]. split.
      * intros k' q Hq. destruct (co_mapped Hco k' q Hq) as (iq & Hiq & Hkq). assert (q ≠ p) by (intros ->; naive_solver).
        exists (hview iq), (hview iq). split; [by apply (co_regular Hco)|]. split; [|done]. apply lookup_regular. exists iq.
        rewrite lookup_delete_ne by done. split_and!; try done. by apply (co_item _ _ _ _ _ _ Hco q iq Hiq).
      * intros q nd (iq & Hiq & -> & Hc)%lookup_regular. apply lookup_delete_Some in Hiq as [_ Hiq]. apply (Hw q), (co_regular Hco q iq Hiq).
    + eapply agree_weaken; [done|]. intros q Hq%regular_dom. destruct Hq as [iq [Hne Hq]%lookup_delete_Some]. rewrite lookup_delete_ne by done.
      apply (co_dom _ _ _ _ _ _ Hco). by eexists.
  - intros k'. pose proof (co_mm _ _ _ _ _ _ Hco k') as Hm. destruct (mmContainers_ s !! k') as [c|]; [|done]. eapply (mm_move (pc s)).
    + eapply mm_env; [apply (co_null Hco)|done|]. split.
      * intros q Hq. destruct (co_queued Hco q k' Hq) as (iq & Hiq & Hlq). assert (p ≠ q) by (intros ->; naive_solver).
        apply class_is_Some. rewrite !lookup_delete_ne by done. split; [by eexists|done].
      * intros q nd (iq & [Hne Hiq]%lookup_delete_Some & -> & Hl)%lookup_class. rewrite lookup_delete_ne in Hl by done. left. exists (mview iq).
        split; [apply lookup_class; eauto|]. split; [done|]. apply same_mm_refl. by apply (co_item _ _ _ _ _ _ Hco q iq Hiq).
    + eapply agree_weaken; [done|]. intros q [_ ?]%class_is_Some. by eexists.
  - intros q k' [_ Hq]%lookup_delete_Some. by eapply co_class.
  - intros pid size cid. rewrite Hcl. apply Hco.
  - intros q iq [_ Hq]%lookup_delete_Some. by apply Hco.
  - split; [|done]. split; cbn; [done|lia|by rewrite app_nil_r|done|]. intros q iq [_ Hq]%lookup_delete_Some. eauto.
Qed.

Definition new_item (it : Item) : Prop := it_next it = kNull ∧ it_prev it = kNull ∧ it_ref it = 0.
Lemma word_zero : plain 0 ∧ rs_access (decode 0) = 0 ∧ rs_exclusive (decode 0) = false.
Proof. by vm_compute. Qed.
Lemma new_item_node it : new_item it → new_node (mview it).
Proof. intros (? & ? & E). split; [done|]. split; [done|]. cbn. rewrite E. split; [done|]. split; [done|]. by intros []. Qed.
(** A new item in fresh memory, or in the memory of an item that is gone. *)
Lemma core_put s M X L n ex p it k a' : core s M X L n ex → al_rep a' (<[p := k]> L) → pc_agree (λ q, is_Some (L !! q)) (pc s) (al_pc a') →
  (∀ pid size, al_classId pid size a' = al_classId pid size (allocator_ s)) → is_Some (mmContainers_ s !! k) →
  (∀ k', p ∉ X k') → (∀ key, M !! key ≠ Some p) → new_item it →
  core (with_items (<[p := it]> (items_ s)) (with_alloc a' s)) M X (<[p := k]> L) (set p 0 n) (set p false ex).
Proof.
  intros Hco Ha Hag Hcl Hk HX HM Hnew. destruct word_zero as (Hpl & Hz1 & Hz2). assert (it_ref it = 0) as Er by apply Hnew. split; cbn.
  - done.
  - intros q. destruct (decide (q = p)) as [->|Hne]; [rewrite !lookup_insert_eq; split; by eexists|rewrite !lookup_insert_ne by done; apply Hco].
  - eapply ac_env; [eapply (ac_move (pc s)); [apply Hco|]|].
    { eapply agree_weaken; [done|]. intros q Hq%regular_dom. by apply (co_dom _ _ _ _ _ _ Hco). }
    destruct (ac_facts _ _ _ _ (co_access _ _ _ _ _ _ Hco)) as [Hw _]. split.
    + intros k' q Hq. destruct (co_mapped Hco k' q Hq) as (iq & Hiq & Hkq). assert (q ≠ p) by (intros ->; by apply (HM k')).
      exists (hview iq), (hview iq). split; [by apply (co_regular Hco)|]. split; [|done]. apply lookup_regular. exists iq.
      rewrite lookup_insert_ne by done. split_and!; try done. by apply (co_item _ _ _ _ _ _ Hco q iq Hiq).
    + intros q nd (iq & Hiq & -> & Hc)%lookup_regular. destruct (decide (q = p)) as [->|Hne].
      * rewrite lookup_insert_eq in Hiq. simplify_eq. cbn. rewrite Er. split; [done|]. split; [done|]. intros E. by apply HM in E.
      * rewrite lookup_insert_ne in Hiq by done. apply (Hw q), (co_regular Hco q iq Hiq).
  - intros k'. pose proof (co_mm _ _ _ _ _ _ Hco k') as Hm. destruct (mmContainers_ s !! k') as [c|]; [|done].
    eapply mm_env; [by eapply al_null|eapply (mm_move (pc s)); [done|]|].
    { eapply agree_weaken; [done|]. intros q [_ ?]%class_is_Some. by eexists. } split.
    + intros q Hq. destruct (co_queued Hco q k' Hq) as (iq & Hiq & Hlq). assert (p ≠ q) by (intros ->; by apply (HX k')).
      apply class_is_Some. rewrite !lookup_insert_ne by done. split; [by eexists|done].
    + intros q nd (iq & Hiq & -> & Hl)%lookup_class. destruct (decide (q = p)) as [->|Hne].
      * rewrite lookup_insert_eq in Hiq. rewrite lookup_insert_eq in Hl. simplify_eq. right. split; [done|]. split; [|by apply new_item_node].
        eapply al_valid; [done|]. rewrite lookup_insert_eq. by eexists.
      * rewrite lookup_insert_ne in Hiq by done. rewrite lookup_insert_ne in Hl by done. left. exists (mview iq). split; [apply lookup_class; eauto|]. split; [done|].
        apply same_mm_refl. by apply (co_item _ _ _ _ _ _ Hco q iq Hiq).
  - intros q k'. destruct (decide (q = p)) as [->|Hne]; [rewrite lookup_insert_eq; by intros [= <-]|rewrite lookup_insert_ne by done; apply Hco].
  - intros pid size cid. rewrite Hcl. apply Hco.
  - intros q iq. unfold set. destruct (decide (p = q)) as [->|Hne]; [rewrite lookup_insert_eq; intros [= <-]; by rewrite Er|].
    rewrite lookup_insert_ne by done. apply Hco.
Qed.
Lemma core_recycle s M X L n ex p old it k : core s M X L n ex → items_ s !! p = Some old → L !! p = Some k → p ∉ X k → M !! it_key old ≠ Some p →
  new_item it → core (with_items (<[p := it]> (items_ s)) s) M X L (set p 0 n) (set p false ex).
Proof.
  intros Hco Hp Hk HX HM Hnew. pose proof (core_put s M X L n ex p it k (allocator_ s) Hco) as Hput.
  rewrite insert_id in Hput by done. replace (with_alloc (allocator_ s) s) with s in Hput by by destruct s.
  apply Hput; try done; [apply Hco|by eapply co_class| |].
  - intros k' Hin. destruct (co_queued Hco p k' Hin) as (? & _ & ?). simplify_eq.
  - intros key Hkey. destruct (co_mapped Hco key p Hkey) as (? & ? & <-). by simplify_eq.
Qed.
End core.
