(* ===== verification/CacheRun.v ===== *)
(** The operations of the cache, composed from its basic steps: what each does to
    the abstract state of [CacheCore]. *)
From S2P Require Import Prelude Refcount SlabAllocator PtrCompressor DList MMCommon ChainedHashTable CacheItem CacheTypes CacheAllocator CacheCore.
#[local] Arguments decode : simpl never.
#[local] Arguments rs_flag : simpl never.

Section run.
Context `{AccessLaws} `{MMLaws} `{AllocatorLaws}.
Implicit Types (s : Cache) (M : gmap (list Z) Z) (X : Z * Z → list Z) (L : gmap Z (Z * Z)) (n : Z → Z) (ex : Z → bool).

(** ** Release *)
(** The user's callbacks for an item that leaves the cache. *)
Definition release_events (cfg : CacheConfig) (ctx : RemoveContext) (nascent : bool) (p : Z) (key : list Z) : list Event :=
  if nascent then [] else (if removeCb cfg then [RemoveCb ctx p key] else []) ++ (if itemDestructor cfg then [ItemDestructor ctx p key] else []).

Lemma core_event s M X L n ex e : core s M X L n ex → core (with_event e s) M X L n ex.
Proof. by intros []. Qed.
Lemma drained_of {s M X L n ex} (Hco : core s M X L n ex) p it k : items_ s !! p = Some it → L !! p = Some k →
  isDrained (it_ref it) = bool_decide (n p = 0 ∧ p ∉ X k ∧ M !! it_key it ≠ Some p ∧ ex p = false).
Proof.
  intros Hp Hk. destruct (co_item _ _ _ _ _ _ Hco p it Hp) as ((Hw & _) & Hn & He).
  destruct (observers_decode (it_ref it)) as (_ & _ & _ & _ & _ & -> & _). unfold rs_ref.
  rewrite Hn, He, (co_acc Hco p it Hp), (co_linked Hco p it k Hp Hk). pose proof (co_count Hco p it Hp).
  change (2 ^ kNumAccessRefBits) with 262144 in *. apply eq_true_iff_eq. rewrite Z.eqb_eq, bool_decide_eq_true.
  destruct (ex p); repeat case_bool_decide; cbn; (split; [intros; split_and!; try done; lia|intros (? & ? & ? & ?); try done; lia]).
Qed.
Lemma release_back s M X L n ex p it k ctx nascent toRecycle : core s M X L n ex → items_ s !! p = Some it → L !! p = Some k →
  n p = 0 → ex p = false → p ∉ X k → M !! it_key it ≠ Some p → toRecycle = None ∨ toRecycle = Some p →
  ∃ s', releaseBackToAllocator p ctx nascent toRecycle s = Ok (inl (if toRecycle then kRecycled else kReleased), s') ∧
    core s' M X (if toRecycle then L else delete p L) n ex ∧ delta 0 (release_events (config_ s) ctx nascent p (it_key it)) s s' ∧
    items_ s' = (if toRecycle then items_ s else delete p (items_ s)).
Proof.
  intros Hco Hp Hk Hn Hex HX HM Hrec. destruct (co_item _ _ _ _ _ _ Hco p it Hp) as ((Hw & F1 & F2 & F3) & _ & _).
  assert (isChainedItem (it_ref it) = false) as E1 by (by rewrite chained_of).
  assert (hasChainedItem (it_ref it) = false) as E2 by (unfold hasChainedItem; by rewrite flag_of).
  assert (isNvmClean (it_ref it) = false) as E3 by (unfold isNvmClean; by rewrite flag_of).
  destruct (co_info Hco p it Hp) as (k' & _ & Ei). pose proof (drained_of Hco p it k Hp Hk) as Ed. rewrite bool_decide_eq_true_2 in Ed by done.
  set (evs := release_events (config_ s) ctx nascent p (it_key it)).
  assert (∃ s1, core s1 M X L n ex ∧ delta 0 evs s s1 ∧ items_ s1 = items_ s ∧
    releaseBackToAllocator p ctx nascent toRecycle s =
      (if decide (Some p = toRecycle) then _ ← check (negb (bool_decide ((if bool_decide (toRecycle = None) then kReleased else kNotRecycled) = kReleased))); mret kRecycled
       else it ← item p; _ ← check (isDrained (it_ref it)); _ ← free_item p; mret (if bool_decide (toRecycle = None) then kReleased else kNotRecycled)) s1) as (s1 & Hco1 & Hd1 & Hi1 & ->).
  { exists (foldl (λ s e, with_event e s) s evs). unfold releaseBackToAllocator. m_simpl. rewrite (item_ok _ _ _ Hp), Ed. cbn [negb]. m_simpl. rewrite Ei. m_simpl.
    rewrite E1, E2, E3. unfold evs, release_events. destruct nascent, (removeCb (config_ s)), (itemDestructor (config_ s)), (bool_decide (ctx = kEviction));
      cbn [negb andb orb foldl app]; (split; [by repeat apply core_event|]); (split; [|split; [done|reflexivity]]);
      (split; cbn; [done|lia|by rewrite ?app_nil_r, <- ?app_assoc|done|eauto]). }
  rewrite <- Hi1 in Hp. destruct Hrec as [-> | ->].
  - rewrite decide_False by done. m_simpl. rewrite (item_ok _ _ _ Hp), Ed. m_simpl.
    destruct (step_free _ _ _ _ _ _ _ _ _ Hco1 Hp Hk HX HM) as (s2 & -> & Hco2 & Hd2 & Hi2). exists s2. rewrite bool_decide_eq_true_2 by done.
    split; [done|]. split; [done|]. split; [|by rewrite Hi2, Hi1]. rewrite <- (app_nil_r evs). by apply (delta_trans 0 0 _ [] _ s1).
  - rewrite decide_True by done. exists s1. m_simpl. rewrite (bool_decide_eq_false_2 (Some p = None)) by done. by rewrite bool_decide_eq_false_2.
Qed.
Definition last_handle M X n (p : Z) (it : Item) (k : Z * Z) : Prop := n p = 1 ∧ p ∉ X k ∧ M !! it_key it ≠ Some p.
#[local] Instance last_handle_dec M X n p it k : Decision (last_handle M X n p it k).
Proof. unfold last_handle. apply _. Defined.
Lemma release_one s M X L n p it k nascent : core s M X L n (λ _, false) → items_ s !! p = Some it → L !! p = Some k → n p ≠ 0 →
  ∃ s', release (Some p) nascent s = Ok (inl tt, s') ∧
    if decide (last_handle M X n p it k) then
      core s' M X (delete p L) (set p 0 n) (λ _, false) ∧ delta (-1) (release_events (config_ s) kNormal nascent p (it_key it)) s s' ∧ items_ s' !! p = None
    else core s' M X L (set p (n p - 1) n) (λ _, false) ∧ delta (-1) [] s s' ∧ is_Some (items_ s' !! p).
Proof.
  intros Hco Hp Hk Hn. destruct (step_dec _ _ _ _ _ _ _ _ _ Hco Hp Hk eq_refl Hn) as (r & s1 & E & Hco1 & Hd1 & Er).
  unfold release. m_simpl. rewrite E, Er.
  assert (is_Some (items_ s1 !! p)) as [it1 Hp1] by (apply (co_dom _ _ _ _ _ _ Hco1); by eexists). pose proof (delta_key Hd1 Hp Hp1) as Ek.
  destruct (decide (last_handle M X n p it k)) as [Hl|Hl].
  - rewrite bool_decide_eq_true_2 by done. destruct Hl as (H1' & HX & HM). replace (n p - 1) with 0 in Hco1 by lia.
    destruct (release_back _ _ _ _ _ _ _ _ _ kNormal nascent None Hco1 Hp1 Hk) as (s2 & E2 & Hco2 & Hd2 & Hi2); try done.
    { unfold set. by rewrite decide_True. } { by rewrite Ek. } { by left. }
    rewrite E2. m_simpl. rewrite bool_decide_eq_true_2 by done. exists s2. split; [done|]. split; [done|].
    split; [|by rewrite Hi2, lookup_delete_eq]. rewrite Ek, (d_config _ _ _ _ Hd1) in Hd2. exact (delta_trans (-1) 0 [] _ _ _ _ Hd1 Hd2).
  - rewrite bool_decide_eq_false_2 by done. exists s1. split; [done|]. split; [done|]. split; [done|by eexists].
Qed.

(** ** Eviction *)
Abbreviation none := (λ _ : Z, false).
Abbreviation tries s := (evictionSearchTries (config_ s)).
(** No item from position [i] on, up to [j], is idle. *)
Definition busy n (xs : list Z) (i j : nat) : Prop := ∀ a q, (i ≤ a < j)%nat → xs !! a = Some q → n q ≠ 0.
Lemma busy_cons n xs i j p : xs !! i = Some p → n p ≠ 0 → busy n xs (S i) j → busy n xs i j.
Proof. intros Hi Hp Hb a q Ha Hq. destruct (decide (a = i)) as [->|]; [by simplify_eq|]. apply (Hb a); [lia|done]. Qed.
Lemma u32_add a b : u32 (u32 a + b) = u32 (a + b).
Proof. unfold wrap. by rewrite Zplus_mod_idemp_l. Qed.

Lemma search_on_spec t s : search_on t s = true ↔ tries s = 0 ∨ t < tries s.
Proof. unfold search_on. rewrite orb_true_iff, Z.eqb_eq, Z.ltb_lt. done. Qed.
Lemma candidate_spec M X L n k c : ∀ fuel i itr t s, core s M X L n none → mmContainers_ s !! k = Some c → mm_at c itr (X k) i →
  (i ≤ length (X k))%nat → (length (X k) - i ≤ fuel)%nat → 0 ≤ tries s < 2 ^ 32 → fits 32 t → (tries s ≠ 0 → t ≤ tries s) →
  (∃ j p xs' t' s', X k !! (i + j)%nat = Some p ∧ n p = 0 ∧ busy n (X k) i (i + j) ∧ (tries s ≠ 0 → t + Z.of_nat j < tries s) ∧
     candidate_loop fuel k itr t s = Ok (inl (Some (p, p), t'), s') ∧ X k ≡ₚ p :: xs' ∧
     core s' M (xset k xs' X) L n (set p true none) ∧ delta 0 [] s s') ∨
  (∃ v : nat, candidate_loop fuel k itr t s = Ok (inl (None, u32 (t + Z.of_nat v)), s) ∧ busy n (X k) i (i + v) ∧ (tries s ≠ 0 → t + Z.of_nat v ≤ tries s) ∧
     ((i + v)%nat = length (X k) ∨ (tries s ≠ 0 ∧ t + Z.of_nat v = tries s))).
Proof.
  induction fuel as [|fuel IH]; intros i itr t s Hco Hc Hat Hi Hf HT Hfit Ht; pose proof (co_mm _ _ _ _ _ _ Hco k) as Hm; rewrite Hc in Hm;
    cbn [candidate_loop]; m_simpl; rewrite (mm_read_ok _ _ _ _ _ _ _ _ (λ pc, mm_get pc itr) _ Hco Hc (mm_get_law _ _ _ _ _ _ Hm Hat)).
  { right. exists 0%nat. rewrite (proj2 (lookup_ge_None (X k) i)) by lia. rewrite Z.add_0_r, wrap_small by done.
    split; [done|]. split; [intros a q ?; lia|]. split; [done|]. left. lia. }
  destruct (X k !! i) as [p|] eqn:Ei.
  2: { right. exists 0%nat. rewrite Z.add_0_r, wrap_small by done. split; [done|]. split; [intros a q ?; lia|]. split; [done|]. left. apply lookup_ge_None in Ei. lia. }
  destruct (search_on t s) eqn:Es.
  2: { right. exists 0%nat. rewrite Z.add_0_r, wrap_small by done. split; [done|]. split; [intros a q ?; lia|]. split; [done|]. right.
       assert (¬ (tries s = 0 ∨ t < tries s)) as Hno by (rewrite <- search_on_spec; congruence). lia. }
  apply search_on_spec in Es. apply list_elem_of_lookup_2 in Ei as Hin. destruct (co_queued Hco p k Hin) as (it & Hp & Hk).
  destruct (co_item _ _ _ _ _ _ Hco p it Hp) as ((_ & F1 & _) & _).
  rewrite (item_ok _ _ _ Hp). assert (isChainedItem (it_ref it) = false) as -> by (by rewrite chained_of). m_simpl.
  destruct (step_mark _ _ _ _ _ _ _ _ _ Hco Hp Hk) as (s1 & E1 & Hco1 & Hd1 & Hmm1 & Hid1). rewrite E1.
  destruct (decide (n p = 0)) as [Hn|Hn].
  - left. rewrite bool_decide_eq_true_2 in Hco1 |- * by done. cbn [negb] in *.
    assert (is_Some (items_ s1 !! p)) as [it1 Hp1] by (apply (co_dom _ _ _ _ _ _ Hco1); by eexists).
    destruct (co_item _ _ _ _ _ _ Hco1 p it1 Hp1) as ((_ & G1 & _) & _). rewrite (item_ok _ _ _ Hp1).
    assert (isChainedItem (it_ref it1) = false) as -> by (by rewrite chained_of). m_simpl.
    rewrite <- Hmm1 in Hc. destruct (step_removeIt _ _ _ _ _ _ _ _ _ _ _ Hco1 Hc Hat Ei) as (itr' & xs' & s2 & -> & Hperm & Hco2 & Hd2).
    exists 0%nat, p, xs', (u32 (t + 1)), s2. rewrite Nat.add_0_r. split; [done|]. split; [done|]. split; [intros a q ?; lia|]. split; [lia|].
    split; [done|]. split; [done|]. split; [done|]. exact (delta_trans 0 0 [] [] _ _ _ Hd1 Hd2).
  - rewrite bool_decide_eq_false_2 in Hid1 |- * by tauto. rewrite (Hid1 eq_refl). clear E1 Hco1 Hd1 Hmm1 Hid1 s1. cbn [negb].
    assert (i < length (X k))%nat by (by eapply lookup_lt_Some). destruct (mm_next_law _ _ _ _ _ _ Hm Hat) as (itr' & En & Hat'); [done|].
    rewrite (mm_read_ok _ _ _ _ _ _ _ _ (λ pc, mm_next pc itr) _ Hco Hc En).
    assert (tries s ≠ 0 → u32 (t + 1) = t + 1) as Hw. { intros ?. apply wrap_small. unfold fits in *. lia. }
    destruct (IH (S i) itr' (u32 (t + 1)) s Hco Hc Hat') as [(j & q & xs' & t' & s' & Hj & Hq & Hb & Hlt & E & Hr)|(v & E & Hb & Hle & Hend)];
      [lia|lia|done|by apply wrap_fits|lia| |].
    + left. exists (S j), q, xs', t', s'. replace (i + S j)%nat with (S i + j)%nat by lia. split; [done|]. split; [done|].
      split; [by eapply busy_cons|]. split; [|by rewrite E]. intros HT0. specialize (Hlt HT0). rewrite Hw in Hlt by done. lia.
    + right. exists (S v). rewrite E, u32_add. replace (t + 1 + Z.of_nat v) with (t + Z.of_nat (S v)) by lia. split; [done|].
      replace (i + S v)%nat with (S i + v)%nat by lia. split; [by eapply busy_cons|]. split; [intros HT0; specialize (Hle HT0); rewrite Hw in Hle by done; lia|].
      destruct Hend as [Hend|[HT0 Hend]]; [by left|right].
      rewrite Hw in Hend by done. lia.
Qed.

(** The map without an item. *)
Definition mdrop M (key : list Z) (p : Z) : gmap (list Z) Z := if decide (M !! key = Some p) then delete key M else M.
Lemma unlink_spec s M X L n p it k : core s M X L n (set p true none) → items_ s !! p = Some it → L !! p = Some k → n p = 0 → p ∉ X k →
  ∃ s', unlinkItemForEviction p s = Ok (inl tt, s') ∧ core s' (mdrop M (it_key it) p) X L n none ∧ delta 0 [] s s'.
Proof.
  intros Hco Hp Hk Hn HX. destruct (co_item _ _ _ _ _ _ Hco p it Hp) as (_ & Ha & He). unfold set in He. rewrite decide_True in He by done.
  destruct (observers_decode (it_ref it)) as (O1 & _ & _ & O2 & _). unfold unlinkItemForEviction. m_simpl. rewrite (item_ok _ _ _ Hp), O1, O2, He, Ha, Hn.
  cbn [Z.eqb andb negb]. m_simpl.
  destruct (step_aremove _ _ _ _ _ _ _ _ Hco Hp) as (s1 & -> & Hco1 & Hd1). fold (mdrop M (it_key it) p) in Hco1.
  assert (is_Some (items_ s1 !! p)) as [it1 Hp1] by (apply (co_dom _ _ _ _ _ _ Hco1); by eexists).
  destruct (step_mm_remove _ _ _ _ _ _ _ _ _ Hco1 Hp1 Hk) as (xs' & s2 & -> & Hxs & Hco2 & Hd2). rewrite decide_False in Hxs by done. subst xs'.
  assert (is_Some (items_ s2 !! p)) as [it2 Hp2] by (apply (co_dom _ _ _ _ _ _ Hco2); by eexists).
  pose proof (delta_trans 0 0 [] [] _ _ _ Hd1 Hd2) as Hd. pose proof (delta_key Hd Hp Hp2) as Ek.
  destruct (step_unmark _ _ _ _ _ _ _ _ _ Hco2 Hp2 Hk) as (s3 & -> & Hco3 & Hd3); try done.
  { unfold set. by rewrite decide_True. } { unfold xset. by rewrite decide_True. }
  { rewrite Ek. unfold mdrop. case_decide; [by rewrite lookup_delete_eq|done]. }
  exists s3. split; [done|]. split; [|exact (delta_trans 0 0 [] [] _ _ _ Hd Hd3)]. eapply core_ext; [done| |].
  - intros k'. unfold xset. by case_decide; subst.
  - intros q _. unfold set. split; [done|]. by repeat case_decide.
Qed.
Lemma queue_fuel s M X L n ex k : core s M X L n ex → (length (X k) ≤ size (items_ s))%nat.
Proof.
  intros Hco. assert (list_to_set (X k) ⊆@{gset Z} dom (items_ s)) as Hsub.
  { intros p Hp. apply elem_of_list_to_set in Hp. destruct (co_queued Hco p k Hp) as (it & Hit & _). by apply elem_of_dom_2 in Hit. }
  apply subseteq_size in Hsub. by rewrite size_list_to_set, size_dom in Hsub by apply (co_nodup Hco).
Qed.
Lemma next_candidate s M X L n k c t : core s M X L n none → mmContainers_ s !! k = Some c → 0 ≤ tries s < 2 ^ 32 → fits 32 t →
  (tries s ≠ 0 → t < tries s) →
  (∃ j p it xs' t' s', X k !! j = Some p ∧ items_ s !! p = Some it ∧ n p = 0 ∧ busy n (X k) 0 j ∧ (tries s ≠ 0 → t + Z.of_nat j < tries s) ∧
     getNextCandidate k t s = Ok (inl (Some (p, p), t'), s') ∧ X k ≡ₚ p :: xs' ∧
     core s' (mdrop M (it_key it) p) (xset k xs' X) L n none ∧ delta 0 [] s s') ∨
  (∃ v : nat, getNextCandidate k t s = Ok (inl (None, u32 (t + Z.of_nat v)), s) ∧ busy n (X k) 0 v ∧ (1 ≤ v)%nat ∧ (tries s ≠ 0 → t + Z.of_nat v ≤ tries s) ∧
     ((length (X k) ≤ v)%nat ∨ (tries s ≠ 0 ∧ t + Z.of_nat v = tries s))).
Proof.
  intros Hco Hc HT Hfit Ht. pose proof (co_mm _ _ _ _ _ _ Hco k) as Hm. rewrite Hc in Hm.
  destruct (mm_begin_law _ _ _ _ Hm) as (itr & Eb & Hat). unfold getNextCandidate. m_simpl.
  rewrite (mm_read_ok _ _ _ _ _ _ _ _ mm_begin _ Hco Hc Eb), (mm_read_ok _ _ _ _ _ _ _ _ (λ pc, mm_get pc itr) _ Hco Hc (mm_get_law _ _ _ _ _ _ Hm Hat)).
  destruct (X k !! 0%nat) as [p0|] eqn:E0.
  2: { right. exists 1%nat. split; [done|]. apply lookup_ge_None in E0. split; [|split; [done|split; [lia|left; lia]]].
       intros a q ? Hq. apply lookup_lt_Some in Hq. lia. }
  destruct (candidate_spec M X L n k c (size (items_ s)) 0 itr t s Hco Hc Hat) as [(j & p & xs' & t' & s1 & Hj & Hn & Hb & Hlt & E & Hperm & Hco1 & Hd1)|(v & E & Hb & Hle & Hend)];
    [lia|pose proof (queue_fuel _ _ _ _ _ _ k Hco); lia|done|done|lia| |].
  - left. apply list_elem_of_lookup_2 in Hj as Hin. destruct (co_queued Hco p k Hin) as (it & Hp & Hk). rewrite E.
    assert (is_Some (items_ s1 !! p)) as [it1 Hp1] by (apply (co_dom _ _ _ _ _ _ Hco1); by eexists). pose proof (delta_key Hd1 Hp Hp1) as Ek.
    assert (p ∉ xset k xs' X k) as Hout. { unfold xset. rewrite decide_True by done. pose proof (co_nodup Hco k) as Hnd. rewrite Hperm in Hnd. by apply NoDup_cons in Hnd as []. }
    destruct (unlink_spec _ _ _ _ _ _ _ _ Hco1 Hp1 Hk Hn Hout) as (s2 & Eu & Hco2 & Hd2). rewrite Ek in Hco2.
    rewrite (item_ok _ _ _ Hp1). destruct (co_item _ _ _ _ _ _ Hco1 p it1 Hp1) as (_ & Ha & He). unfold set in He. rewrite decide_True in He by done.
    destruct (observers_decode (it_ref it1)) as (_ & _ & _ & O2 & _). rewrite O2, He, Ha, Hn. cbn [Z.eqb andb]. m_simpl. rewrite Eu.
    exists j, p, it, xs', t', s2. do 5 (split; [done|]). split; [done|]. split; [done|]. split; [done|]. exact (delta_trans 0 0 [] [] _ _ _ Hd1 Hd2).
  - right. exists v. rewrite E. split; [done|]. split; [done|]. apply lookup_lt_Some in E0. split; [lia|]. split; [done|]. destruct Hend as [Hend|?]; [left; lia|by right].
Qed.

(** The first idle item within reach is evicted. *)
Lemma evict_found s M X L n k c t j p it fuel : core s M X L n none → mmContainers_ s !! k = Some c → 0 ≤ tries s < 2 ^ 32 → fits 32 t →
  X k !! j = Some p → items_ s !! p = Some it → n p = 0 → busy n (X k) 0 j → (tries s ≠ 0 → t + Z.of_nat j < tries s) → (1 ≤ fuel)%nat →
  ∃ xs' s', eviction_loop fuel k t s = Ok (inl (Evicted p), s') ∧ X k ≡ₚ p :: xs' ∧ core s' (mdrop M (it_key it) p) (xset k xs' X) L n none ∧
    delta 0 (release_events (config_ s) kEviction false p (it_key it)) s s'.
Proof.
  intros Hco Hc HT Hfit Hj Hp Hn Hb Ht Hfuel. destruct fuel as [|fuel]; [lia|]. cbn [eviction_loop]. m_simpl.
  rewrite (proj2 (search_on_spec t s)) by lia.
  destruct (next_candidate s M X L n k c t Hco Hc HT Hfit) as [(j' & q & itq & xs' & t' & s1 & Hj' & Hq & Hnq & Hb' & _ & E & Hperm & Hco1 & Hd1)|(v & E & Hb' & Hv & Hle & Hend)]; [lia| |].
  2: { apply lookup_lt_Some in Hj as Hlt. destruct (Hb' j p); [|done|done]. destruct Hend as [?|[HT0 ?]]; [lia|]. specialize (Ht HT0). lia. }
  assert (j' = j) as ->.
  { destruct (decide (j' < j)%nat) as [Hlt|Hge]; [by destruct (Hb j' q); [lia| |]|]. destruct (decide (j < j')%nat); [by destruct (Hb' j p); [lia| |]|lia]. }
  simplify_eq. rewrite E. apply list_elem_of_lookup_2 in Hj as Hin. destruct (co_queued Hco p k Hin) as (_ & _ & Hk).
  assert (is_Some (items_ s1 !! p)) as [it1 Hp1] by (apply (co_dom _ _ _ _ _ _ Hco1); by eexists). pose proof (delta_key Hd1 Hp Hp1) as Ek.
  destruct (release_back _ _ _ _ _ _ _ _ _ kEviction false (Some p) Hco1 Hp1 Hk) as (s2 & E2 & Hco2 & Hd2 & _); try done.
  { unfold xset. rewrite decide_True by done. pose proof (co_nodup Hco k) as Hnd. rewrite Hperm in Hnd. by apply NoDup_cons in Hnd as []. }
  { rewrite Ek. unfold mdrop. case_decide; [by rewrite lookup_delete_eq|done]. } { by right. }
  rewrite E2. rewrite bool_decide_eq_true_2 by done. exists xs', s2. split; [done|]. split; [done|]. split; [done|].
  rewrite Ek, (d_config _ _ _ _ Hd1) in Hd2. exact (delta_trans 0 0 [] _ _ _ _ Hd1 Hd2).
Qed.
(** With a limit the search ends; when every item within reach is held, nothing
    happens. *)
Lemma evict_none s M X L n k c : core s M X L n none → mmContainers_ s !! k = Some c → 0 < tries s < 2 ^ 32 →
  ∀ fuel t, 0 ≤ t → busy n (X k) 0 (Z.to_nat (tries s - t)) → (Z.to_nat (tries s - t) < fuel)%nat → eviction_loop fuel k t s = Ok (inl NothingFound, s).
Proof.
  intros Hco Hc HT. induction fuel as [|fuel IH]; intros t Ht Hb Hf; [lia|]. cbn [eviction_loop]. m_simpl.
  destruct (search_on t s) eqn:Es; [|done]. apply search_on_spec in Es.
  destruct (next_candidate s M X L n k c t Hco Hc) as [(j & q & itq & xs' & t' & s1 & Hj & Hq & Hnq & _ & Hlt & _)|(v & E & Hb' & Hv & Hle & Hend)];
    [lia|unfold fits; lia|lia| |].
  - destruct (Hb j q); [|done|done]. lia.
  - rewrite E. specialize (Hle ltac:(lia)). rewrite wrap_small by (unfold fits; lia). apply IH; [lia| |lia].
    intros a q Ha Hq. apply (Hb a q); [lia|done].
Qed.
(** Without one the search goes on, round after round, while every item is held. *)
Lemma evict_spins s M X L n k c : core s M X L n none → mmContainers_ s !! k = Some c → tries s = 0 → busy n (X k) 0 (length (X k)) →
  ∀ fuel t, fits 32 t → eviction_loop fuel k t s = Ok (inl Searching, s).
Proof.
  intros Hco Hc HT Hb. induction fuel as [|fuel IH]; intros t Ht; cbn [eviction_loop]; m_simpl; (rewrite (proj2 (search_on_spec t s)) by by left); [done|].
  destruct (next_candidate s M X L n k c t Hco Hc) as [(j & q & itq & xs' & t' & s1 & Hj & Hq & Hnq & _)|(v & -> & _)]; [lia|done|done| |].
  - apply lookup_lt_Some in Hj as Hlt. destruct (Hb j q); [lia|done|done].
  - by apply IH, wrap_fits.
Qed.

(** ** Between operations

    The items in the eviction queues are exactly the accessible ones, an item
    that nobody holds is accessible, and a held item is live. *)
Record rest s M X L n : Prop := {
  re_core : core s M X L n none;
  re_both p it k : items_ s !! p = Some it → L !! p = Some k → p ∈ X k ↔ M !! it_key it = Some p;
  re_used p it : items_ s !! p = Some it → n p = 0 → M !! it_key it = Some p;
  re_live p : n p ≠ 0 → is_Some (items_ s !! p);
  re_tries : 0 ≤ tries s < 2 ^ 32;
}.
(** What an operation leaves alone, but for a new item. *)
Record frame (new : option Z) (d : Z) (evs : list Event) s s' : Prop := {
  f_config : config_ s' = config_ s;
  f_count : handleCount_ s' = handleCount_ s + d;
  f_events : events s' = events s ++ evs;
  f_body p it' : Some p ≠ new → items_ s' !! p = Some it' → ∃ it, items_ s !! p = Some it ∧ body it' = body it;
}.
Lemma delta_frame new d evs s s' : delta d evs s s' → frame new d evs s s'.
Proof. intros [D1 D2 D3 D4 D5]. split; eauto. Qed.
Lemma cframe_trans d1 d2 evs1 evs2 s1 s2 s3 : frame None d1 evs1 s1 s2 → frame None d2 evs2 s2 s3 → frame None (d1 + d2) (evs1 ++ evs2) s1 s3.
Proof.
  intros [C1 N1 E1 B1] [C2 N2 E2 B2]. split; [congruence|lia|by rewrite E2, E1, app_assoc|].
  intros p it Hp (it2 & Hp2 & ->)%B2; [|done]. by apply B1.
Qed.
Lemma frame_key {d evs s s' p it'} : frame None d evs s s' → items_ s' !! p = Some it' → ∃ it, items_ s !! p = Some it ∧ it_key it' = it_key it ∧ body it' = body it.
Proof. intros Hf Hp. destruct (f_body _ _ _ _ _ Hf p it' ltac:(done) Hp) as (it & ? & Hb). exists it. split; [done|]. split; [|done]. unfold body in Hb. by simplify_eq. Qed.
Lemma re_item {s M X L n} (Hre : rest s M X L n) p it : items_ s !! p = Some it → ∃ k, L !! p = Some k.
Proof. intros Hp. apply (co_dom _ _ _ _ _ _ (re_core _ _ _ _ _ Hre)). by eexists. Qed.
(** The invariant after a sequence of basic steps. *)
Lemma rest_intro s M X L n s' M' X' L' n' new d evs : rest s M X L n → core s' M' X' L' n' none → frame new d evs s s' →
  (∀ p it k, items_ s' !! p = Some it → L' !! p = Some k → p ∈ X' k ↔ M' !! it_key it = Some p) →
  (∀ p it, items_ s' !! p = Some it → n' p = 0 → M' !! it_key it = Some p) → (∀ p, n' p ≠ 0 → is_Some (items_ s' !! p)) → rest s' M' X' L' n'.
Proof. intros Hre Hco Hf ???. split; try done. rewrite (f_config _ _ _ _ _ Hf). apply Hre. Qed.

Lemma op_release s M X L n p nascent : rest s M X L n → n p ≠ 0 →
  ∃ it s' L' evs, items_ s !! p = Some it ∧ release (Some p) nascent s = Ok (inl tt, s') ∧ rest s' M X L' (set p (n p - 1) n) ∧ delta (-1) evs s s' ∧
    evs = (if decide (n p = 1 ∧ M !! it_key it ≠ Some p) then release_events (config_ s) kNormal nascent p (it_key it) else []).
Proof.
  intros Hre Hn. pose proof (re_core _ _ _ _ _ Hre) as Hco. destruct (re_live _ _ _ _ _ Hre p Hn) as [it Hp].
  destruct (re_item Hre p it Hp) as [k Hk]. destruct (release_one s M X L n p it k nascent Hco Hp Hk Hn) as (s' & E & Hr).
  assert (last_handle M X n p it k ↔ n p = 1 ∧ M !! it_key it ≠ Some p) as Hl.
  { unfold last_handle. rewrite (re_both _ _ _ _ _ Hre p it k Hp Hk). tauto. }
  exists it, s'. destruct (decide (last_handle M X n p it k)) as [Hd|Hd].
  - destruct Hr as (Hco' & Hdel & Hgone). rewrite decide_True by tauto. exists (delete p L). eexists. split; [done|]. split; [done|]. split; [|done].
    destruct Hd as (Hn1 & HX & HM). replace (n p - 1) with 0 by lia.
    eapply rest_intro; [done|done|by apply (delta_frame None)| | |].
    + intros q itq k' Hq [Hne Hk']%lookup_delete_Some. destruct (d_body _ _ _ _ Hdel q itq Hq) as (it0 & Hq0 & _). rewrite (delta_key Hdel Hq0 Hq). by eapply re_both.
    + intros q itq Hq. destruct (d_body _ _ _ _ Hdel q itq Hq) as (it0 & Hq0 & _). rewrite (delta_key Hdel Hq0 Hq). unfold set.
      case_decide; [subst; congruence|]. by eapply re_used.
    + intros q. unfold set. case_decide as Hqp; [done|]. intros Hq. destruct (re_live _ _ _ _ _ Hre q Hq) as [itq Hitq].
      apply (co_dom _ _ _ _ _ _ Hco'). rewrite lookup_delete_ne by done. apply (co_dom _ _ _ _ _ _ Hco). by eexists.
  - destruct Hr as (Hco' & Hdel & Halive). rewrite decide_False by tauto. exists L. eexists. split; [done|]. split; [done|]. split; [|done].
    eapply rest_intro; [done|done|by apply (delta_frame None)| | |].
    + intros q itq k' Hq Hk'. destruct (d_body _ _ _ _ Hdel q itq Hq) as (it0 & Hq0 & _). rewrite (delta_key Hdel Hq0 Hq). by eapply re_both.
    + intros q itq Hq. destruct (d_body _ _ _ _ Hdel q itq Hq) as (it0 & Hq0 & _). rewrite (delta_key Hdel Hq0 Hq). unfold set.
      case_decide; [|by eapply re_used]. subst q. simplify_eq. intros H0'. destruct (decide (M !! it_key it = Some p)); [done|]. destruct Hd. apply Hl. split; [lia|done].
    + intros q. unfold set. case_decide as Hqp; [by subst|]. intros Hq.
      apply (co_dom _ _ _ _ _ _ Hco'), (co_dom _ _ _ _ _ _ Hco). by apply (re_live _ _ _ _ _ Hre).
Qed.
(** The same when the live items stay the same. *)
Lemma rest_same s M X L n s' M' X' n' d evs : rest s M X L n → core s' M' X' L n' none → frame None d evs s s' →
  (∀ p it k, items_ s !! p = Some it → L !! p = Some k → p ∈ X' k ↔ M' !! it_key it = Some p) →
  (∀ p it, items_ s !! p = Some it → n' p = 0 → M' !! it_key it = Some p) → (∀ p, n' p ≠ 0 → is_Some (items_ s !! p)) → rest s' M' X' L n'.
Proof.
  intros Hre Hco Hd HX HM Hl. eapply rest_intro; [done|done|done| | |].
  - intros p it k Hp Hk. destruct (frame_key Hd Hp) as (it0 & Hp0 & -> & _). by apply HX.
  - intros p it Hp. destruct (frame_key Hd Hp) as (it0 & Hp0 & -> & _). by apply HM.
  - intros p Hn. apply (co_dom _ _ _ _ _ _ Hco), (co_dom _ _ _ _ _ _ (re_core _ _ _ _ _ Hre)). by apply Hl.
Qed.

(** ** Insertion *)
Lemma handle_item_ok h p s : get_internal (h_it h) = Some p → handle_item h s = Ok (inl p, s).
Proof. intros E. unfold handle_item. by rewrite E. Qed.
Lemma xset_perm k xs X p k' : xs ≡ₚ p :: X k → ∀ q, q ∈ xset k xs X k' ↔ q ∈ X k' ∨ (q = p ∧ k' = k).
Proof. intros Hperm q. unfold xset. case_decide; [subst; rewrite Hperm, elem_of_cons; naive_solver|naive_solver]. Qed.
Lemma xset_drop k xs X p k' : X k ≡ₚ p :: xs → NoDup (X k) → ∀ q, q ∈ xset k xs X k' ↔ q ∈ X k' ∧ (q ≠ p ∨ k' ≠ k).
Proof.
  intros Hperm Hnd q. rewrite Hperm in Hnd. apply NoDup_cons in Hnd as [Hp _]. unfold xset. case_decide as Hk; [subst; rewrite Hperm, elem_of_cons|naive_solver].
  split; [|naive_solver]. intros Hq. split; [by right|]. left. by intros ->.
Qed.
Lemma mapped_here {s M X L n} (Hre : rest s M X L n) p it key : items_ s !! p = Some it → M !! key = Some p → key = it_key it.
Proof. intros Hp Hk. destruct (co_mapped (re_core _ _ _ _ _ Hre) key p Hk) as (it' & ? & <-). by simplify_eq. Qed.

Lemma op_insert s M X L n h p it now : rest s M X L n → get_internal (h_it h) = Some p → items_ s !! p = Some it → n p ≠ 0 →
  if decide (M !! it_key it = Some p) then insert h now s = Ok (inr InvalidArgument, s)
  else ∃ X' s', let b := bool_decide (M !! it_key it = None) in
    insert h now s = Ok (inl (b, if b then unmarkNascent h else h), s') ∧
    rest s' (if b then <[it_key it := p]> M else M) X' L n ∧ delta 0 [] s s'.
Proof.
  intros Hre Hh Hp Hn. pose proof (re_core _ _ _ _ _ Hre) as Hco. destruct (re_item Hre p it Hp) as [k Hk].
  unfold insert. m_simpl. rewrite (handle_item_ok _ _ _ Hh), (item_ok _ _ _ Hp), acc_of, (co_acc Hco p it Hp). case_decide as HM.
  { by rewrite bool_decide_eq_true_2. }
  rewrite bool_decide_eq_false_2 by done. assert (p ∉ X k) as HX by (rewrite (re_both _ _ _ _ _ Hre p it k Hp Hk); done).
  destruct (step_mm_add _ _ _ _ _ _ _ _ _ now Hco Hp Hk HX) as (xs1 & s1 & -> & Hp1 & Hco1 & Hd1).
  assert (is_Some (items_ s1 !! p)) as [it1 Hit1] by (apply (co_dom _ _ _ _ _ _ Hco1); by eexists). pose proof (delta_key Hd1 Hp Hit1) as Ek.
  destruct (step_insert _ _ _ _ _ _ _ _ Hco1 Hit1) as (s2 & E2 & Hco2 & Hd2); [by rewrite Ek|]. rewrite Ek in E2, Hco2. rewrite E2.
  pose proof (delta_trans 0 0 [] [] _ _ _ Hd1 Hd2) as Hd. cbn zeta. case_decide as Hnone.
  - rewrite bool_decide_eq_true_2 by done. exists (xset k xs1 X), s2. split; [done|]. split; [|done]. eapply rest_same; [done|done|by apply delta_frame| | |].
    + intros q itq k' Hq Hk'. rewrite (xset_perm _ _ _ _ _ Hp1), (re_both _ _ _ _ _ Hre q itq k' Hq Hk'). destruct (decide (it_key itq = it_key it)) as [Eq|Hne].
      * rewrite Eq, lookup_insert_eq, Hnone. naive_solver.
      * rewrite lookup_insert_ne by done. split; [|by left]. intros [?|[-> ->]]; [done|]. by simplify_eq.
    + intros q itq Hq H0'. assert (q ≠ p) by (by intros ->). pose proof (re_used _ _ _ _ _ Hre q itq Hq H0') as HMq. rewrite lookup_insert_ne; [done|]. intros Eq. congruence.
    + apply Hre.
  - rewrite bool_decide_eq_false_2 by done. assert (is_Some (items_ s2 !! p)) as [it2 Hit2] by (apply (co_dom _ _ _ _ _ _ Hco2); by eexists).
    destruct (step_mm_remove _ _ _ _ _ _ _ _ _ Hco2 Hit2 Hk) as (xs3 & s3 & -> & Hxs & Hco3 & Hd3).
    assert (p ∈ xset k xs1 X k) as Hin by (rewrite (xset_perm _ _ _ _ _ Hp1); by right). rewrite decide_True in Hxs by done.
    exists (xset k xs3 (xset k xs1 X)), s3. split; [done|]. pose proof (delta_trans 0 0 [] [] _ _ _ Hd Hd3) as Hd'. split; [|done].
    eapply rest_same; [done|done|by apply delta_frame| |apply Hre|apply Hre]. intros q itq k' Hq Hk'.
    rewrite (xset_drop _ _ _ _ _ Hxs (co_nodup Hco2 k)), (xset_perm _ _ _ _ _ Hp1), <- (re_both _ _ _ _ _ Hre q itq k' Hq Hk'). split; [naive_solver|].
    intros Hq'. split; [by left|]. destruct (decide (q = p)) as [->|]; [right; intros ->; done|by left].
Qed.

(** An item after a step. *)
Lemma next_item {s M X L n ex p it s1 M1 X1 n1 ex1 d evs} : core s M X L n ex → items_ s !! p = Some it → core s1 M1 X1 L n1 ex1 → delta d evs s s1 →
  ∃ it1, items_ s1 !! p = Some it1 ∧ it_key it1 = it_key it ∧ body it1 = body it.
Proof.
  intros Hco Hp Hco1 Hd. assert (is_Some (items_ s1 !! p)) as [it1 Hp1].
  { apply (co_dom _ _ _ _ _ _ Hco1), (co_dom _ _ _ _ _ _ Hco). by eexists. }
  exists it1. split; [done|]. split; [by eapply delta_key|]. destruct (d_body _ _ _ _ Hd p it1 Hp1) as (it0 & E0 & ->). by rewrite Hp in E0; injection E0 as ->.
Qed.
Lemma nvm_of {s M X L n ex} (Hco : core s M X L n ex) p it : items_ s !! p = Some it → isNvmClean (it_ref it) = false.
Proof. intros Hp. unfold isNvmClean. rewrite flag_of. by apply (co_item _ _ _ _ _ _ Hco p it Hp). Qed.

Lemma op_insertOrReplace s M X L n h p it now : rest s M X L n → get_internal (h_it h) = Some p → items_ s !! p = Some it → n p ≠ 0 →
  if decide (M !! it_key it = Some p) then insertOrReplace h now s = Ok (inr InvalidArgument, s)
  else match M !! it_key it with
    | None => ∃ X' s', insertOrReplace h now s = Ok (inl (null_handle, unmarkNascent h), s') ∧
        rest s' (<[it_key it := p]> M) X' L n ∧ delta 0 [] s s'
    | Some q =>
        if decide (n q = kMaxRef) then ∃ X' s', insertOrReplace h now s = Ok (inr RefcountOverflow, s') ∧ rest s' M X' L n ∧ delta 0 [] s s'
        else ∃ X' s', insertOrReplace h now s = Ok (inl (mkItemHandle (HandleTo q) false false, unmarkNascent h), s') ∧
          rest s' (<[it_key it := p]> M) X' L (set q (n q + 1) n) ∧ delta 1 [] s s'
    end.
Proof.
  intros Hre Hh Hp Hn. pose proof (re_core _ _ _ _ _ Hre) as Hco. destruct (re_item Hre p it Hp) as [k Hk].
  unfold insertOrReplace. m_simpl. rewrite (handle_item_ok _ _ _ Hh), (item_ok _ _ _ Hp), acc_of, (co_acc Hco p it Hp). case_decide as HM.
  { by rewrite bool_decide_eq_true_2. }
  rewrite bool_decide_eq_false_2 by done. assert (p ∉ X k) as HX by (rewrite (re_both _ _ _ _ _ Hre p it k Hp Hk); done).
  destruct (step_mm_add _ _ _ _ _ _ _ _ _ now Hco Hp Hk HX) as (xs1 & s1 & -> & Hp1 & Hco1 & Hd1).
  destruct (next_item Hco Hp Hco1 Hd1) as (it1 & Hit1 & Ek & _). pose proof (step_replace _ _ _ _ _ _ _ _ Hco1 Hit1) as Hs. rewrite Ek in Hs.
  specialize (Hs HM (λ _ _, eq_refl)). destruct (M !! it_key it) as [q|] eqn:EM.
  - assert (q ≠ p) as Hqp by congruence. destruct (co_mapped Hco _ q EM) as (iq & Hq & Hkq). destruct (re_item Hre q iq Hq) as [kq Hkq'].
    case_decide as Hmax; destruct Hs as (s2 & -> & Hco2 & Hd2); pose proof (delta_trans _ _ _ _ _ _ _ Hd1 Hd2) as Hd.
    + destruct (next_item Hco Hp Hco2 Hd) as (it2 & Hit2 & Ek2 & _).
      destruct (step_mm_remove _ _ _ _ _ _ _ _ _ Hco2 Hit2 Hk) as (xs3 & s3 & -> & Hxs & Hco3 & Hd3).
      assert (p ∈ xset k xs1 X k) as Hin by (rewrite (xset_perm _ _ _ _ _ Hp1); by right). rewrite decide_True in Hxs by done.
      pose proof (delta_trans _ _ _ _ _ _ _ Hd Hd3) as Hd'. exists (xset k xs3 (xset k xs1 X)), s3. split; [done|]. split; [|done].
      eapply rest_same; [done|done|by apply delta_frame| |apply Hre|apply Hre]. intros a ita k' Ha Hk'.
      rewrite (xset_drop _ _ _ _ _ Hxs (co_nodup Hco2 k)), (xset_perm _ _ _ _ _ Hp1), <- (re_both _ _ _ _ _ Hre a ita k' Ha Hk'). split; [naive_solver|].
      intros Ha'. split; [by left|]. destruct (decide (a = p)) as [->|]; [right; by intros ->|by left].
    + cbn [get_internal]. destruct (next_item Hco Hq Hco2 Hd) as (iq2 & Hiq2 & Ekq2 & _). rewrite (item_ok _ _ _ Hiq2), (nvm_of Hco2 _ _ Hiq2). cbn [andb]. m_simpl. cbn [get_internal].
      destruct (step_mm_remove _ _ _ _ _ _ _ _ _ Hco2 Hiq2 Hkq') as (xs3 & s3 & -> & Hxs & Hco3 & Hd3).
      assert (q ∈ xset k xs1 X kq) as Hin. { rewrite (xset_perm _ _ _ _ _ Hp1). left. apply (re_both _ _ _ _ _ Hre q iq kq Hq Hkq'). by rewrite Hkq. }
      rewrite decide_True in Hxs by done. pose proof (delta_trans _ _ _ _ _ _ _ Hd Hd3) as Hd'. exists (xset kq xs3 (xset k xs1 X)), s3.
      split; [done|]. split; [|exact Hd']. eapply rest_same; [done|done|by apply delta_frame| | |].
      * intros a ita k' Ha Hk'. rewrite (xset_drop _ _ _ _ _ Hxs (co_nodup Hco2 kq)), (xset_perm _ _ _ _ _ Hp1), (re_both _ _ _ _ _ Hre a ita k' Ha Hk').
        destruct (decide (it_key ita = it_key it)) as [Ea|Hne].
        -- rewrite Ea, lookup_insert_eq, EM. split; [|naive_solver]. intros [[[= ->]|[-> ->]] [?|?]]; [done|congruence|done|done].
        -- rewrite lookup_insert_ne by done. split.
           ++ intros [[?|[-> ->]] _]; [done|by simplify_eq].
           ++ intros ?. split; [by left|]. left. intros ->. simplify_eq.
      * intros a ita Ha H0'. unfold set in H0'. pose proof (co_count Hco a ita Ha). case_decide as Ed; [subst; lia|].
        pose proof (re_used _ _ _ _ _ Hre a ita Ha H0') as HMa. rewrite lookup_insert_ne; [done|]. intros Eq. rewrite <- Eq in HMa. congruence.
      * intros a. unfold set. case_decide as Ed; [subst; intros _; by eexists|apply Hre].
  - destruct Hs as (s2 & -> & Hco2 & Hd2). cbn [get_internal]. pose proof (delta_trans _ _ _ _ _ _ _ Hd1 Hd2) as Hd. exists (xset k xs1 X), s2. split; [done|]. split; [|done].
    eapply rest_same; [done|done|by apply delta_frame| | |apply Hre].
    + intros a ita k' Ha Hk'. rewrite (xset_perm _ _ _ _ _ Hp1), (re_both _ _ _ _ _ Hre a ita k' Ha Hk'). destruct (decide (it_key ita = it_key it)) as [Eq|Hne].
      * rewrite Eq, lookup_insert_eq, EM. naive_solver.
      * rewrite lookup_insert_ne by done. split; [|by left]. intros [?|[-> ->]]; [done|]. by simplify_eq.
    + intros a ita Ha H0'. assert (a ≠ p) by (by intros ->). pose proof (re_used _ _ _ _ _ Hre a ita Ha H0') as HMa. rewrite lookup_insert_ne; [done|]. congruence.
Qed.

(** ** Lookup *)
Lemma set_back n p : ∀ q, set p (set p (n p + 1) n p - 1) (set p (n p + 1) n) q = n q.
Proof. intros q. unfold set. rewrite (decide_True (P := p = p)) by done. destruct (decide (p = q)); [subst; lia|done]. Qed.
Lemma rest_ext s M X L n n' : rest s M X L n → (∀ p, n' p = n p) → rest s M X L n'.
Proof.
  intros [R1 R2 R3 R4 R5] Hn. split; try done.
  - eapply core_ext; [done|done|]. auto.
  - intros p it Hp. rewrite Hn. by apply R3.
  - intros p. rewrite Hn. apply R4.
Qed.
(** One handle more. *)
Lemma rest_acquired s M X L n s' p it : rest s M X L n → items_ s !! p = Some it → core s' M X L (set p (n p + 1) n) none → delta 1 [] s s' →
  rest s' M X L (set p (n p + 1) n).
Proof.
  intros Hre Hp Hco Hd. eapply rest_same; [done|done|by apply delta_frame|apply Hre| |].
  - intros q itq Hq. unfold set. pose proof (co_count (re_core _ _ _ _ _ Hre) q itq Hq). case_decide; [subst; lia|by apply Hre].
  - intros q. unfold set. case_decide; [subst; intros _; by eexists|apply Hre].
Qed.
Lemma core_stale s M X L n ex t : core s M X L n ex → core (with_stale t s) M X L n ex.
Proof. by intros []. Qed.
Lemma rest_stale s M X L n t : rest s M X L n → rest (with_stale t s) M X L n.
Proof. intros [R1 R2 R3 R4 R5]. split; try done. by apply core_stale. Qed.
Lemma frame_stale s t : frame None 0 [] s (with_stale t s).
Proof. split; cbn; [done|lia|by rewrite app_nil_r|eauto]. Qed.
Lemma expired_body now stale it it' : body it' = body it → isExpired now stale it' = isExpired now stale it.
Proof. intros Hb. unfold body in Hb. unfold isExpired. by assert (expiryTime_ it' = expiryTime_ it) as -> by congruence. Qed.

Lemma op_find_handle s M X L n key : rest s M X L n →
  match M !! key with
  | None => ∃ s', findInternal key s = Ok (inl null_handle, s') ∧ rest s' M X L n ∧ delta 0 [] s s'
  | Some p =>
      if decide (n p = kMaxRef) then findInternal key s = Ok (inr RefcountOverflow, s)
      else ∃ s', findInternal key s = Ok (inl (mkItemHandle (HandleTo p) false false), s') ∧ rest s' M X L (set p (n p + 1) n) ∧ delta 1 [] s s'
  end.
Proof.
  intros Hre. pose proof (re_core _ _ _ _ _ Hre) as Hco. pose proof (step_find _ _ _ _ _ _ key Hco) as Hs. unfold findInternal. m_simpl.
  destruct (M !! key) as [p|] eqn:EM.
  - specialize (Hs eq_refl). case_decide; [by rewrite Hs|]. destruct Hs as (s' & -> & Hco' & Hd). exists s'. split; [done|]. split; [|done].
    destruct (co_mapped Hco key p EM) as (it & Hp & _). by eapply rest_acquired.
  - destruct Hs as (s' & -> & Hco' & Hd). exists s'. split; [done|]. split; [|done]. eapply rest_same; [done|done|by apply delta_frame|apply Hre..].
Qed.
Lemma reset_ok h p nascent s s' : get_internal (h_it h) = Some p → isNascent h = nascent → release (Some p) nascent s = Ok (inl tt, s') → reset h s = Ok (inl tt, s').
Proof. intros E1 E2 E. unfold reset. m_simpl. by rewrite E1, E2, E. Qed.
Lemma op_peek s M X L n key now : rest s M X L n →
  match M !! key with
  | None => ∃ s', peek key now s = Ok (inl null_handle, s') ∧ rest s' M X L n ∧ frame None 0 [] s s'
  | Some p => ∀ it, items_ s !! p = Some it →
      if decide (n p = kMaxRef) then peek key now s = Ok (inr RefcountOverflow, s)
      else if (isExpired now (staleTime s) it).1
      then ∃ s' L' , peek key now s = Ok (inl (markExpired null_handle), s') ∧ rest s' M X L' n ∧ frame None 0 [] s s'
      else ∃ s', peek key now s = Ok (inl (mkItemHandle (HandleTo p) false false), s') ∧ rest s' M X L (set p (n p + 1) n) ∧ frame None 1 [] s s'
  end.
Proof.
  intros Hre. pose proof (op_find_handle _ _ _ _ _ key Hre) as Hs. unfold peek, findInternalWithExpiration. m_simpl.
  destruct (M !! key) as [p|] eqn:EM.
  - intros it Hp. case_decide as Hmax; [by rewrite Hs|]. destruct Hs as (s1 & -> & Hre1 & Hd1). cbn [get_internal h_it].
    destruct (next_item (re_core _ _ _ _ _ Hre) Hp (re_core _ _ _ _ _ Hre1) Hd1) as (it1 & Hit1 & Ek & Hb). rewrite (item_ok _ _ _ Hit1).
    rewrite (d_stale _ _ _ _ Hd1), (expired_body now (staleTime s) it it1 Hb). destruct (isExpired now (staleTime s) it) as [[] stale]; cbn [fst]; m_simpl.
    + pose proof (rest_stale _ _ _ _ _ stale Hre1) as Hre2. destruct (op_release _ _ _ _ _ p false Hre2) as (it2 & s3 & L' & evs & Hit2 & E & Hre3 & Hd3 & Hevs).
      { unfold set. rewrite decide_True by done. pose proof (co_count (re_core _ _ _ _ _ Hre) p it Hp). lia. }
      rewrite decide_False in Hevs.
      2: { cbn in Hit2. simplify_eq. rewrite Ek. destruct (co_mapped (re_core _ _ _ _ _ Hre) key p EM) as (it0 & ? & Hk0). simplify_eq. by intros [_ ?]. }
      rewrite (reset_ok (mkItemHandle (HandleTo p) false false) p false _ s3) by done. exists s3, L'. split; [done|]. split; [eapply rest_ext; [done|]; by intros; rewrite set_back|].
      subst evs. pose proof (cframe_trans _ _ _ _ _ _ _ (delta_frame None _ _ _ _ Hd1) (frame_stale s1 stale)) as Hf.
      exact (cframe_trans _ _ _ _ _ _ _ Hf (delta_frame None _ _ _ _ Hd3)).
    + exists (with_stale stale s1). split; [done|]. split; [by apply rest_stale|]. exact (cframe_trans 1 0 [] [] _ _ _ (delta_frame None _ _ _ _ Hd1) (frame_stale s1 stale)).
  - destruct Hs as (s1 & -> & Hre1 & Hd1). exists s1. split; [done|]. split; [done|by apply delta_frame].
Qed.

Lemma op_markUseful s M X L n h p it mode now free : rest s M X L n → get_internal (h_it h) = Some p → items_ s !! p = Some it →
  ∃ X' s', markUseful h mode now free s = Ok (inl tt, s') ∧ rest s' M X' L n ∧ delta 0 [] s s' ∧ ∀ k, X' k ≡ₚ X k.
Proof.
  intros Hre Hh Hp. pose proof (re_core _ _ _ _ _ Hre) as Hco. destruct (re_item Hre p it Hp) as [k Hk].
  destruct (step_record _ _ _ _ _ _ _ _ _ mode now free Hco Hp Hk) as (b & xs & s1 & E & Hperm & Hco1 & Hd1).
  destruct (next_item Hco Hp Hco1 Hd1) as (it1 & Hit1 & _ & _). unfold markUseful. m_simpl. rewrite Hh, E, (item_ok _ _ _ Hit1).
  assert (hasChainedItem (it_ref it1) = false) as ->.
  { unfold hasChainedItem. rewrite flag_of. by apply (co_item _ _ _ _ _ _ Hco1 p it1 Hit1). }
  assert (∀ k', xset k xs X k' ≡ₚ X k') as HX by (intros k'; unfold xset; case_decide; by subst).
  exists (xset k xs X), s1. split; [done|]. split; [|done]. eapply rest_same; [done|done|by apply delta_frame| |apply Hre|apply Hre].
  intros q itq k' Hq Hk'. rewrite (HX k'). by apply Hre.
Qed.
(** What [find] and [peek] return: the state, the eviction order and the handle
    count afterwards. *)
Definition looked_up (op : M ItemHandle) s M X L n (key : list Z) (now : Z) : Prop :=
  match M !! key with
  | None => ∃ s', op s = Ok (inl null_handle, s') ∧ rest s' M X L n ∧ frame None 0 [] s s'
  | Some p => ∀ it, items_ s !! p = Some it →
      if decide (n p = kMaxRef) then op s = Ok (inr RefcountOverflow, s)
      else if (isExpired now (staleTime s) it).1
      then ∃ s' L', op s = Ok (inl (markExpired null_handle), s') ∧ rest s' M X L' n ∧ frame None 0 [] s s'
      else ∃ s' X', op s = Ok (inl (mkItemHandle (HandleTo p) false false), s') ∧ rest s' M X' L (set p (n p + 1) n) ∧ frame None 1 [] s s' ∧
        ∀ k, X' k ≡ₚ X k
  end.
Lemma op_find s M X L n key mode now free : rest s M X L n → looked_up (find key mode now free) s M X L n key now.
Proof.
  intros Hre. pose proof (op_peek _ _ _ _ _ key now Hre) as Hs. unfold peek in Hs. unfold looked_up, find. m_simpl. destruct (M !! key) as [p|] eqn:EM.
  - intros it Hp. specialize (Hs it Hp). case_decide as Hmax; [by rewrite Hs|]. destruct (isExpired now (staleTime s) it) as [[] stale]; cbn [fst] in *.
    + destruct Hs as (s1 & L' & -> & Hr). exists s1, L'. by split.
    + destruct Hs as (s1 & -> & Hre1 & Hf1). cbn [get_internal h_it]. assert (is_Some (items_ s1 !! p)) as [it1 Hp1].
      { apply (re_live _ _ _ _ _ Hre1). unfold set. rewrite decide_True by done. pose proof (co_count (re_core _ _ _ _ _ Hre) p it Hp). lia. }
      destruct (op_markUseful _ _ _ _ _ (mkItemHandle (HandleTo p) false false) p it1 mode now free Hre1 eq_refl Hp1) as (X' & s2 & -> & Hre2 & Hd2 & HX).
      exists s2, X'. split; [done|]. split; [done|]. split; [|done]. exact (cframe_trans 1 0 [] [] _ _ _ Hf1 (delta_frame None _ _ _ _ Hd2)).
  - destruct Hs as (s1 & -> & Hr). exists s1. by split.
Qed.
Lemma op_clone s M X L n h p it : rest s M X L n → get_internal (h_it h) = Some p → items_ s !! p = Some it →
  if decide (n p = kMaxRef) then clone h s = Ok (inr RefcountOverflow, s)
  else ∃ s', clone h s = Ok (inl (mkItemHandle (HandleTo p) (isNascent h) (wasExpired h)), s') ∧ rest s' M X L (set p (n p + 1) n) ∧ delta 1 [] s s'.
Proof.
  intros Hre Hh Hp. pose proof (step_inc _ _ _ _ _ _ _ _ (re_core _ _ _ _ _ Hre) Hp eq_refl) as Hs. unfold clone, acquire. m_simpl. rewrite Hh.
  case_decide; [destruct Hs as [_ ->]; done|]. destruct Hs as (r & s' & _ & -> & Hco & Hd). exists s'. split; [done|]. split; [by eapply rest_acquired|done].
Qed.

(** ** Removal *)
Lemma op_removeImpl s M X L n p it : rest s M X L n → items_ s !! p = Some it → n p ≠ 0 →
  ∃ X' s', removeImpl p s = Ok (inl (if decide (M !! it_key it = Some p) then kSuccess else kNotFoundInRam), s') ∧
    rest s' (mdrop M (it_key it) p) X' L n ∧ delta 0 [] s s'.
Proof.
  intros Hre Hp Hn. pose proof (re_core _ _ _ _ _ Hre) as Hco. destruct (re_item Hre p it Hp) as [k Hk].
  destruct (step_aremove _ _ _ _ _ _ _ _ Hco Hp) as (s1 & E1 & Hco1 & Hd1). fold (mdrop M (it_key it) p) in Hco1.
  destruct (next_item Hco Hp Hco1 Hd1) as (it1 & Hit1 & Ek & _).
  assert (mdrop M (it_key it) p !! it_key it ≠ Some p) as HM by (unfold mdrop; destruct (decide (M !! it_key it = Some p)); [by rewrite lookup_delete_eq|done]).
  unfold removeImpl. m_simpl. rewrite E1, (item_ok _ _ _ Hit1), (nvm_of Hco1 _ _ Hit1), acc_of, (co_acc Hco1 p it1 Hit1), Ek, (bool_decide_eq_false_2 _ HM).
  rewrite andb_false_r. cbn [andb]. m_simpl.
  destruct (step_mm_remove _ _ _ _ _ _ _ _ _ Hco1 Hit1 Hk) as (xs & s2 & -> & Hxs & Hco2 & Hd2). pose proof (delta_trans _ _ _ _ _ _ _ Hd1 Hd2) as Hd.
  destruct (next_item Hco Hp Hco2 Hd) as (it2 & Hit2 & _ & _). rewrite (item_ok _ _ _ Hit2), (nvm_of Hco2 _ _ Hit2). m_simpl.
  exists (xset k xs X), s2. split; [by destruct (decide (M !! it_key it = Some p)); [rewrite bool_decide_eq_true_2|rewrite bool_decide_eq_false_2]|]. split; [|done].
  eapply rest_same; [done|done|by apply delta_frame| | |apply Hre].
  - intros q itq k' Hq Hk'. pose proof (re_both _ _ _ _ _ Hre q itq k' Hq Hk') as Hb. pose proof (re_both _ _ _ _ _ Hre p it k Hp Hk) as Hbp. unfold mdrop.
    destruct (decide (p ∈ X k)) as [Hin|Hout].
    + rewrite (xset_drop _ _ _ _ _ Hxs (co_nodup Hco k)), Hb. rewrite decide_True by tauto. rewrite lookup_delete_Some. split.
      * intros [Hq' Hor]. split; [|done]. intros Eq. destruct Hor as [Hor|Hor]; [apply Hor; apply Hbp in Hin; congruence|].
        apply Hbp in Hin. rewrite Eq in Hin. assert (q = p) as -> by congruence. congruence.
      * intros [Hne Hq']. split; [done|]. left. intros ->. simplify_eq.
    + subst xs. rewrite decide_False by tauto. rewrite <- Hb. unfold xset. destruct (decide (k' = k)); by subst.
  - intros q itq Hq H0'. assert (q ≠ p) by (by intros ->). pose proof (re_used _ _ _ _ _ Hre q itq Hq H0') as HMq. unfold mdrop. destruct (decide (M !! it_key it = Some p)); [|done].
    rewrite lookup_delete_ne; [done|]. congruence.
Qed.
(** [remove(key)]: the handle it takes is the last one of an item nobody else
    holds. *)
Lemma op_remove s M X L n key : rest s M X L n →
  match M !! key with
  | None => ∃ s', remove key s = Ok (inl kNotFoundInRam, s') ∧ rest s' M X L n ∧ frame None 0 [] s s'
  | Some p =>
      if decide (n p = kMaxRef) then remove key s = Ok (inr RefcountOverflow, s)
      else ∃ X' L' s', remove key s = Ok (inl kSuccess, s') ∧ rest s' (delete key M) X' L' n ∧
        frame None 0 (if decide (n p = 0) then release_events (config_ s) kNormal false p key else []) s s'
  end.
Proof.
  intros Hre. pose proof (op_find_handle _ _ _ _ _ key Hre) as Hs. unfold remove. m_simpl. destruct (M !! key) as [p|] eqn:EM.
  - case_decide as Hmax; [by rewrite Hs|]. destruct Hs as (s1 & -> & Hre1 & Hd1). cbn [get_internal h_it].
    destruct (co_mapped (re_core _ _ _ _ _ Hre) key p EM) as (it & Hp & Hkey). pose proof (co_count (re_core _ _ _ _ _ Hre) p it Hp).
    destruct (next_item (re_core _ _ _ _ _ Hre) Hp (re_core _ _ _ _ _ Hre1) Hd1) as (it1 & Hit1 & Ek & Hb).
    assert (set p (n p + 1) n p = n p + 1) as Esp by (unfold set; by rewrite decide_True).
    destruct (op_removeImpl _ _ _ _ _ p it1 Hre1 Hit1) as (X' & s2 & -> & Hre2 & Hd2); [rewrite Esp; lia|]. rewrite Ek, Hkey in *. rewrite decide_True by done.
    unfold mdrop in Hre2. rewrite decide_True in Hre2 by done. destruct (op_release _ _ _ _ _ p false Hre2) as (it2 & s3 & L' & evs & Hit2 & E & Hre3 & Hd3 & Hevs); [rewrite Esp; lia|].
    rewrite (reset_ok (mkItemHandle (HandleTo p) false false) p false _ s3) by done. exists X', L', s3. split; [done|].
    split; [eapply rest_ext; [done|]; by intros; rewrite set_back|]. pose proof (delta_trans _ _ _ _ _ _ _ Hd1 Hd2) as Hd12. pose proof (delta_key Hd12 Hp Hit2) as Ek2.
    rewrite Ek2, Hkey, Esp, (d_config _ _ _ _ Hd12) in Hevs.
    replace (if decide (n p = 0) then _ else _) with evs; [exact (cframe_trans _ _ _ _ _ _ _ (delta_frame None _ _ _ _ Hd12) (delta_frame None _ _ _ _ Hd3))|].
    rewrite Hevs, lookup_delete_eq. destruct (decide (n p = 0)); [rewrite decide_True by (split; [lia|done])|rewrite decide_False by lia]; done.
  - destruct Hs as (s1 & -> & Hre1 & Hd1). cbn [get_internal h_it null_handle]. exists s1. split; [done|]. split; [done|by apply delta_frame].
Qed.

(** ** Allocation *)
(** The item an eviction takes: the first one in the eviction order, among as
    many as may be tried, that nobody holds. *)
Definition within (t : Z) (xs : list Z) : list Z := if t =? 0 then xs else take (Z.to_nat t) xs.
Definition victim (t : Z) n (xs : list Z) : option (nat * Z) := list_find (λ q, n q = 0) (within t xs).
Lemma lookup_within t xs j p : 0 ≤ t → within t xs !! j = Some p ↔ xs !! j = Some p ∧ (t ≠ 0 → Z.of_nat j < t).
Proof.
  intros Ht. unfold within. destruct (Z.eqb_spec t 0) as [->|Hne]; [tauto|]. rewrite lookup_take_Some. split; intros [Hj Hlt]; (split; [done|]); lia.
Qed.
Lemma victim_some t n xs j p : 0 ≤ t → victim t n xs = Some (j, p) → xs !! j = Some p ∧ n p = 0 ∧ busy n xs 0 j ∧ (t ≠ 0 → Z.of_nat j < t).
Proof.
  intros Ht (Hj & Hn & Hb)%list_find_Some. apply lookup_within in Hj as [Hj Hlt]; [|done]. split_and!; try done.
  intros a q Ha Hq. apply (Hb a q); [|lia]. apply lookup_within; [done|]. split; [done|]. lia.
Qed.
Lemma victim_none t n xs : 0 ≤ t → victim t n xs = None → busy n xs 0 (if t =? 0 then length xs else Z.to_nat t).
Proof.
  intros Ht Ev%list_find_None a q Ha Hq. rewrite Forall_forall in Ev. apply Ev, (list_elem_of_lookup_2 _ a), lookup_within; [done|].
  split; [done|]. destruct (Z.eqb_spec t 0); lia.
Qed.
(** The item found, or how the search for one stands. *)
Lemma op_findEviction s M X L n spin pid cid c : rest s M X L n → mmContainers_ s !! (pid, cid) = Some c →
  match victim (tries s) n (X (pid, cid)) with
  | Some (_, p) => ∃ it xs' s', items_ s !! p = Some it ∧ n p = 0 ∧ M !! it_key it = Some p ∧ L !! p = Some (pid, cid) ∧
      findEviction spin pid cid s = Ok (inl (Evicted p), s') ∧ X (pid, cid) ≡ₚ p :: xs' ∧ core s' (delete (it_key it) M) (xset (pid, cid) xs' X) L n none ∧
      delta 0 (release_events (config_ s) kEviction false p (it_key it)) s s'
  | None => findEviction spin pid cid s = Ok (inl (if tries s =? 0 then Searching else NothingFound), s)
  end.
Proof.
  intros Hre Hc. pose proof (re_core _ _ _ _ _ Hre) as Hco. pose proof (re_tries _ _ _ _ _ Hre) as HT. unfold findEviction. m_simpl.
  destruct (victim (tries s) n (X (pid, cid))) as [[j p]|] eqn:Ev.
  - apply victim_some in Ev as (Hj & Hn & Hbusy & Hlt); [|lia]. apply list_elem_of_lookup_2 in Hj as Hin.
    destruct (co_queued Hco p _ Hin) as (it & Hp & Hk). assert (M !! it_key it = Some p) as HM by (by apply (re_both _ _ _ _ _ Hre p it _ Hp Hk)).
    destruct (evict_found s M X L n (pid, cid) c 0 j p it (search_fuel spin s) Hco Hc) as (xs' & s' & E & Hperm & Hco' & Hd); try done;
      [unfold search_fuel; case_match; lia|].
    exists it, xs', s'. unfold mdrop in Hco'. rewrite decide_True in Hco' by done. by split_and!.
  - apply victim_none in Ev; [|lia]. unfold search_fuel. destruct (Z.eqb_spec (tries s) 0) as [E0|E0].
    + by apply (evict_spins s M X L n _ c Hco Hc E0 Ev).
    + apply (evict_none s M X L n _ c Hco Hc); [lia|lia| |lia]. by rewrite Z.sub_0_r.
Qed.
Lemma rest_alloc s M X L n a' : rest s M X L n → al_rep a' L → pc_agree (λ p, is_Some (L !! p)) (pc s) (al_pc a') →
  (∀ pid size, al_classId pid size a' = al_classId pid size (allocator_ s)) → rest (with_alloc a' s) M X L n ∧ delta 0 [] s (with_alloc a' s).
Proof.
  intros Hre Ha Hag Hcl. split.
  - destruct Hre as [R1 R2 R3 R4 R5]. split; try done. by apply core_alloc.
  - split; cbn; [done|lia|by rewrite app_nil_r|done|eauto].
Qed.
Lemma Item_new_spec key size ct et : match Item_new key size ct et with
  | Ok it => new_item it ∧ body it = (ct, et, kalloc_size key size, key)
  | Throw e => e = InvalidArgument
  | Undef => False end.
Proof.
  unfold Item_new, KAllocation_new, throwIfKeyInvalid, throw_if. destruct (kMaxValSize <? size); [done|]. by destruct (isKeyValid key).
Qed.
Lemma construct_ok s M X L n p key size ct et it : core (with_items (<[p := it]> (items_ s)) s) M X L (set p 0 n) none →
  Item_new key size ct et = Ok it →
  ∃ s', construct p key size ct et s = Ok (inl (mkItemHandle (HandleTo p) true false), s') ∧ core s' M X L (set p 1 n) none ∧
    frame (Some p) 1 [] s s' ∧ ∃ it', items_ s' !! p = Some it' ∧ body it' = body it.
Proof.
  intros Hco E. set (s1 := with_items (<[p := it]> (items_ s)) s) in *. assert (items_ s1 !! p = Some it) as Hp by apply lookup_insert_eq.
  pose proof (step_inc _ _ _ _ _ _ _ _ Hco Hp eq_refl) as Hs. assert (set p 0 n p = 0) as E0 by (unfold set; by rewrite decide_True).
  rewrite E0, decide_False in Hs by by vm_compute. destruct Hs as (r & s2 & _ & Ei & Hco2 & Hd).
  unfold construct, acquire, put_item. m_simpl. rewrite E. m_simpl. fold s1. rewrite Ei. m_simpl. exists s2. split; [done|].
  split; [eapply core_ext; [done|done|]; intros q _; unfold set; by repeat case_decide|]. split.
  - split; [apply Hd|rewrite (d_count _ _ _ _ Hd); done|rewrite (d_events _ _ _ _ Hd); done|]. intros q itq Hne Hq.
    destruct (d_body _ _ _ _ Hd q itq Hq) as (it0 & Hq0 & Hb). unfold s1 in Hq0. cbn in Hq0. rewrite lookup_insert_ne in Hq0 by congruence. eauto.
  - assert (is_Some (items_ s2 !! p)) as [it2 Hp2] by (apply (co_dom _ _ _ _ _ _ Hco2), (co_dom _ _ _ _ _ _ Hco); by eexists).
    exists it2. split; [done|]. destruct (d_body _ _ _ _ Hd p it2 Hp2) as (it0 & Hq0 & ->). by rewrite Hp in Hq0; injection Hq0 as ->.
Qed.

Lemma construct_throw s p key size ct et e s' : Item_new key size ct et = Throw e → free_item p s = Ok (inl tt, s') →
  construct p key size ct et s = Ok (inr e, s').
Proof. intros E Ef. unfold construct. m_simpl. rewrite E. m_simpl. by rewrite Ef. Qed.
(** The invariant with the new item. *)
Lemma rest_new s M X L n s' M' X' L' p it d evs : rest s M X L n → core s' M' X' L' (set p 1 n) none → frame (Some p) d evs s s' →
  items_ s' !! p = Some it → (∀ k, p ∉ X' k) → (∀ key, M' !! key ≠ Some p) → (∀ q k, q ≠ p → L' !! q = Some k ↔ L !! q = Some k) →
  (∀ q itq k, q ≠ p → items_ s !! q = Some itq → L !! q = Some k → q ∈ X' k ↔ M' !! it_key itq = Some q) →
  (∀ q itq, q ≠ p → items_ s !! q = Some itq → n q = 0 → M' !! it_key itq = Some q) → rest s' M' X' L' (set p 1 n).
Proof.
  intros Hre Hco Hf Hp HX HM HL Hb Hu.
  assert (∀ q itq, q ≠ p → items_ s' !! q = Some itq → ∃ it0, items_ s !! q = Some it0 ∧ it_key itq = it_key it0) as Hold.
  { intros q itq Hne Hq. destruct (f_body _ _ _ _ _ Hf q itq ltac:(congruence) Hq) as (it0 & Hq0 & E). exists it0. split; [done|]. unfold body in E. congruence. }
  eapply rest_intro; [done|done|done| | |].
  - intros q itq k Hq Hk. destruct (decide (q = p)) as [->|Hne]; [split; [by intros ?%HX|by intros ?%HM]|].
    destruct (Hold q itq Hne Hq) as (it0 & Hq0 & ->). apply Hb; try done. by apply HL.
  - intros q itq Hq. unfold set. case_decide as Hpq; [done|]. destruct (Hold q itq ltac:(congruence) Hq) as (it0 & Hq0 & ->). by apply Hu.
  - intros q. unfold set. case_decide as Hpq; [subst; intros _; by eexists|]. intros Hn. destruct (re_live _ _ _ _ _ Hre q Hn) as [itq Hq].
    destruct (re_item Hre q itq Hq) as [k Hk]. apply (co_dom _ _ _ _ _ _ Hco). exists k. by apply HL.
Qed.
Definition made_room s M X n (k : Z * Z) M' (evs : list Event) : Prop := (M' = M ∧ evs = []) ∨
  ∃ j p it, victim (tries s) n (X k) = Some (j, p) ∧ items_ s !! p = Some it ∧ M !! it_key it = Some p ∧ n p = 0 ∧ M' = delete (it_key it) M ∧
    evs = release_events (config_ s) kEviction false p (it_key it).
(** Fresh memory. *)
Lemma alloc_fresh s M X L n p k a' key size ct et : rest s M X L n → L !! p = None → al_rep a' (<[p := k]> L) →
  pc_agree (λ q, is_Some (L !! q)) (pc s) (al_pc a') → (∀ pid size, al_classId pid size a' = al_classId pid size (allocator_ s)) →
  is_Some (mmContainers_ s !! k) →
  match Item_new key size ct et with
  | Ok it => ∃ s' it', construct p key size ct et (with_alloc a' s) = Ok (inl (mkItemHandle (HandleTo p) true false), s') ∧
      rest s' M X (<[p := k]> L) (set p 1 n) ∧ frame (Some p) 1 [] s s' ∧ n p = 0 ∧ items_ s' !! p = Some it' ∧ body it' = body it ∧ (∀ key, M !! key ≠ Some p)
  | Throw e => ∃ s', construct p key size ct et (with_alloc a' s) = Ok (inr e, s') ∧ rest s' M X L n ∧ delta 0 [] s s'
  | Undef => False
  end.
Proof.
  intros Hre HL Ha Hag Hcl Hk. pose proof (re_core _ _ _ _ _ Hre) as Hco. pose proof (Item_new_spec key size ct et) as Hit.
  assert (items_ s !! p = None) as Hp. { destruct (items_ s !! p) as [x|] eqn:E; [|done]. destruct (re_item Hre p x E). congruence. }
  assert (n p = 0) as Hn. { destruct (decide (n p = 0)) as [|Hne]; [done|]. destruct (re_live _ _ _ _ _ Hre p Hne). congruence. }
  assert (∀ key, M !! key ≠ Some p) as HM. { intros key' E. destruct (co_mapped Hco key' p E) as (? & ? & _). congruence. }
  assert (∀ k', p ∉ X k') as HX. { intros k' E. destruct (co_queued Hco p k' E) as (? & ? & _). congruence. }
  destruct (Item_new key size ct et) as [it|e|] eqn:En; [|clear Hit|done].
  - destruct Hit as [Hnew Hbody]. pose proof (core_put _ _ _ _ _ _ p it k a' Hco Ha Hag Hcl Hk HX HM Hnew) as Hput.
    change (items_ s) with (items_ (with_alloc a' s)) in Hput.
    assert (core (with_items (<[p := it]> (items_ (with_alloc a' s))) (with_alloc a' s)) M X (<[p := k]> L) (set p 0 n) none) as Hput'.
    { eapply core_ext; [done|done|]. intros q _. unfold set. by case_decide. }
    destruct (construct_ok _ _ _ _ _ _ _ _ _ _ _ Hput' En) as (s' & E & Hco' & Hf & it' & Hp' & Hb'). exists s', it'. split; [done|].
    assert (frame (Some p) 1 [] s s') as Hf' by (destruct Hf; split; done). split_and!; try done.
    eapply rest_new; try done; [intros q k' Hne; by rewrite lookup_insert_ne|intros; by eapply (re_both _ _ _ _ _ Hre)|intros; by eapply (re_used _ _ _ _ _ Hre)].
  - destruct (al_free_law _ _ p Ha) as (a2 & Ef & Ha2 & Hag2 & Hcl2); [rewrite lookup_insert_eq; by eexists|]. rewrite delete_insert_id in * by done.
    assert (free_item p (with_alloc a' s) = Ok (inl tt, with_alloc a2 s)) as Efree.
    { unfold free_item. m_simpl. cbn [allocator_ with_alloc]. rewrite Ef. m_simpl. do 2 f_equal. unfold with_alloc, with_items. cbn. by rewrite delete_id. }
    exists (with_alloc a2 s). split; [by eapply construct_throw|]. apply rest_alloc; [done|done| |].
    + destruct Hag as [G1 G2], Hag2 as [G3 G4]. split; [eauto|]. intros c q Hq Hc. by apply G4, G2.
    + intros. by rewrite Hcl2, Hcl.
Qed.

Lemma delta_frame_trans new d1 d2 evs1 evs2 s1 s2 s3 : delta d1 evs1 s1 s2 → frame new d2 evs2 s2 s3 → frame new (d1 + d2) (evs1 ++ evs2) s1 s3.
Proof.
  intros [C1 N1 E1 T1 B1] [C2 N2 E2 B2]. split; [congruence|lia|by rewrite E2, E1, app_assoc|].
  intros p it Hp (it2 & Hp2 & ->)%B2; [|done]. by apply B1.
Qed.
(** The memory of an evicted item: the state [s1] after its eviction. *)
Lemma alloc_recycled s M X L n p k old s1 xs' key size ct et evs : rest s M X L n → items_ s !! p = Some old → L !! p = Some k → n p = 0 →
  M !! it_key old = Some p → X k ≡ₚ p :: xs' → core s1 (delete (it_key old) M) (xset k xs' X) L n none → delta 0 evs s s1 →
  match Item_new key size ct et with
  | Ok it => ∃ s' it', construct p key size ct et s1 = Ok (inl (mkItemHandle (HandleTo p) true false), s') ∧
      rest s' (delete (it_key old) M) (xset k xs' X) L (set p 1 n) ∧ frame (Some p) 1 evs s s' ∧ items_ s' !! p = Some it' ∧ body it' = body it ∧
      (∀ key, delete (it_key old) M !! key ≠ Some p)
  | Throw e => ∃ s', construct p key size ct et s1 = Ok (inr e, s') ∧ rest s' (delete (it_key old) M) (xset k xs' X) (delete p L) n ∧ frame None 0 evs s s'
  | Undef => False
  end.
Proof.
  intros Hre Hp Hk Hn HM Hperm Hco1 Hd. pose proof (re_core _ _ _ _ _ Hre) as Hco. pose proof (Item_new_spec key size ct et) as Hit.
  destruct (next_item Hco Hp Hco1 Hd) as (old1 & Hp1 & Ek & _).
  assert (∀ q k', q ∈ xset k xs' X k' ↔ q ∈ X k' ∧ (q ≠ p ∨ k' ≠ k)) as HX by (intros; apply xset_drop; [done|apply (co_nodup Hco)]).
  assert (∀ k', p ∉ xset k xs' X k') as HXp. { intros k' [Hq [?|Hne]]%HX; [done|]. destruct (co_queued Hco p k' Hq) as (_ & _ & ?). congruence. }
  assert (∀ key', delete (it_key old) M !! key' ≠ Some p) as HMp. { intros key' [Hne E]%lookup_delete_Some. destruct (co_mapped Hco key' p E) as (? & ? & <-). by simplify_eq. }
  assert (∀ q itq k', q ≠ p → items_ s !! q = Some itq → L !! q = Some k' → q ∈ xset k xs' X k' ↔ delete (it_key old) M !! it_key itq = Some q) as Hb.
  { intros q itq k' Hne Hq Hk'. rewrite HX, (re_both _ _ _ _ _ Hre q itq k' Hq Hk'), lookup_delete_Some. split; [|naive_solver]. intros [E _]. split; [|done]. congruence. }
  assert (∀ q itq, q ≠ p → items_ s !! q = Some itq → n q = 0 → delete (it_key old) M !! it_key itq = Some q) as Hu.
  { intros q itq Hne Hq H0'. pose proof (re_used _ _ _ _ _ Hre q itq Hq H0'). rewrite lookup_delete_ne; [done|]. congruence. }
  destruct (Item_new key size ct et) as [it|e|] eqn:En; [|clear Hit|done].
  - destruct Hit as [Hnew Hbody].
    assert (core (with_items (<[p := it]> (items_ s1)) s1) (delete (it_key old) M) (xset k xs' X) L (set p 0 n) none) as Hput.
    { eapply core_ext; [by eapply (core_recycle _ _ _ _ _ _ _ _ _ _ Hco1 Hp1 Hk)|done|]. intros q _. unfold set. by repeat case_decide. }
    destruct (construct_ok _ _ _ _ _ _ _ _ _ _ _ Hput En) as (s' & E & Hco' & Hf & it' & Hp' & Hb'). exists s', it'. split; [done|].
    pose proof (delta_frame_trans (Some p) 0 1 evs [] _ _ _ Hd Hf) as Hf'. rewrite app_nil_r in Hf'. split_and!; try done. by eapply rest_new.
  - destruct (step_free _ _ _ _ _ _ _ _ _ Hco1 Hp1 Hk (HXp k) (HMp _)) as (s2 & Ef & Hco2 & Hd2 & Hi2). exists s2. split; [by eapply construct_throw|].
    pose proof (cframe_trans _ _ _ _ _ _ _ (delta_frame None _ _ _ _ Hd) (delta_frame None _ _ _ _ Hd2)) as Hf. rewrite app_nil_r in Hf. split; [|done].
    assert (∀ q itq, items_ s2 !! q = Some itq → q ≠ p ∧ ∃ it0, items_ s !! q = Some it0 ∧ it_key itq = it_key it0) as Hold.
    { intros q itq Hq. destruct (frame_key Hf Hq) as (it0 & ? & ? & _). rewrite Hi2 in Hq. apply lookup_delete_Some in Hq as [? _]. eauto. }
    eapply rest_intro; [done|done|done| | |].
    + intros q itq k' Hq [_ Hk']%lookup_delete_Some. destruct (Hold q itq Hq) as (Hne & it0 & Hq0 & ->). by apply Hb.
    + intros q itq Hq. destruct (Hold q itq Hq) as (Hne & it0 & Hq0 & ->). by apply Hu.
    + intros q Hq. assert (q ≠ p) by congruence. destruct (re_live _ _ _ _ _ Hre q Hq) as [itq Hitq]. destruct (re_item Hre q itq Hitq) as [k' Hk'].
      apply (co_dom _ _ _ _ _ _ Hco2). rewrite lookup_delete_ne by done. by eexists.
Qed.

Definition required (key : list Z) (size : Z) : Z := size + Z.of_nat (length key) + sizeof_Item.
Lemma getRequiredSize_ok key size : 0 ≤ size → required key size < 2 ^ 32 → getRequiredSize key size = Ok (required key size).
Proof.
  unfold required, getRequiredSize, sizeof_Item. intros Hs Hr. rewrite (wrap_small 64) by (unfold fits; lia). change (uint_max 32) with 4294967295.
  change (2 ^ 32) with 4294967296 in *. rewrite (proj2 (Z.leb_le _ _)), (proj2 (Z.ltb_ge _ _)) by lia. cbn. by rewrite wrap_small by (unfold fits; lia).
Qed.
(** The outcome of an allocation in class [k]. *)
Definition allocated s M X n (k : Z * Z) (key : list Z) (size ct et : Z) (r : option ItemHandle + exn) s' : Prop :=
  ∃ M' X' L' n' evs, rest s' M' X' L' n' ∧ made_room s M X n k M' evs ∧
  match r with
  | inl None => tries s = 0 ∧ victim 0 n (X k) = None ∧ M' = M ∧ n' = n ∧ frame None 0 evs s s'
  | inl (Some h) =>
      (h = null_handle ∧ tries s ≠ 0 ∧ victim (tries s) n (X k) = None ∧ M' = M ∧ n' = n ∧ frame None 0 evs s s') ∨
      (∃ p it, h = mkItemHandle (HandleTo p) true false ∧ frame (Some p) 1 evs s s' ∧ n p = 0 ∧ n' = set p 1 n ∧
         items_ s' !! p = Some it ∧ body it = (ct, et, kalloc_size key size, key) ∧ (∀ key, M' !! key ≠ Some p) ∧ ∃ it0, Item_new key size ct et = Ok it0)
  | inr e => e = InvalidArgument ∧ Item_new key size ct et = Throw e ∧ n' = n ∧ frame None 0 evs s s'
  end.
Lemma op_allocate s M X L n spin pid key size ct et : rest s M X L n → 0 ≤ size → required key size < 2 ^ 32 →
  match al_classId pid (required key size) (allocator_ s) with
  | Throw e => allocateInternal spin pid key size ct et s = Ok (inr e, s)
  | Ok cid => ∃ r s', allocateInternal spin pid key size ct et s = Ok (r, s') ∧ allocated s M X n (pid, cid) key size ct et r s'
  | Undef => False
  end.
Proof.
  intros Hre Hs Hr. pose proof (re_core _ _ _ _ _ Hre) as Hco. unfold allocateInternal. m_simpl. rewrite getRequiredSize_ok by done. m_simpl.
  destruct (al_allocate_law _ _ pid (required key size) (co_alloc _ _ _ _ _ _ Hco)) as [(e & ->)|(cid & ret & a' & Ecl & -> & Hag & Hcl & Hret)]; [unfold fits, required, sizeof_Item in *; lia|done|].
  rewrite Ecl. m_simpl. pose proof (co_known _ _ _ _ _ _ Hco _ _ _ Ecl) as Hkn. pose proof (Item_new_spec key size ct et) as Hit.
  destruct ret as [p|].
  - destruct Hret as [HL Ha]. pose proof (alloc_fresh s M X L n p (pid, cid) a' key size ct et Hre HL Ha Hag Hcl Hkn) as Hc. m_simpl.
    destruct (Item_new key size ct et) as [it|e|] eqn:En; [| |done].
    + destruct Hc as (s' & it' & E & Hre' & Hf & Hn & Hp' & Hb & HM). rewrite E. eexists _, s'. split; [done|]. exists M, X, (<[p := (pid, cid)]> L), (set p 1 n), [].
      split; [done|]. split; [by left|]. right. exists p, it'. rewrite Hb. destruct Hit. by eauto 15.
    + destruct Hc as (s' & E & Hre' & Hd). rewrite E. eexists _, s'. split; [done|]. exists M, X, L, n, []. split; [done|]. split; [by left|]. split; [done|].
      split; [done|]. split; [done|by apply delta_frame].
  - destruct (rest_alloc _ _ _ _ _ a' Hre Hret Hag Hcl) as [Hre1 Hd1]. destruct Hkn as [c Hc].
    pose proof (op_findEviction _ _ _ _ _ spin pid cid c Hre1 Hc) as Hev. cbn [config_ with_alloc items_] in Hev. unfold allocated.
    destruct (victim (tries s) n (X (pid, cid))) as [[j p]|] eqn:Ev.
    + destruct Hev as (old & xs' & s2 & Hp & Hn & HM & Hk & -> & Hperm & Hco2 & Hd2). m_simpl.
      pose proof (delta_trans _ _ _ _ _ _ _ Hd1 Hd2) as Hd. cbn [app Z.add] in Hd.
      pose proof (alloc_recycled s M X L n p (pid, cid) old s2 xs' key size ct et _ Hre Hp Hk Hn HM Hperm Hco2 Hd) as Hc'.
      assert (made_room s M X n (pid, cid) (delete (it_key old) M) (release_events (config_ s) kEviction false p (it_key old))) as Hroom.
      { right. exists j, p, old. by rewrite Ev. }
      destruct (Item_new key size ct et) as [it|e|] eqn:En; [| |done].
      * destruct Hc' as (s' & it' & E & Hre' & Hf & Hp' & Hb & HM'). rewrite E. eexists _, s'. split; [done|]. eexists _, _, _, _, _. split; [done|]. split; [done|]. right.
        exists p, it'. rewrite Hb. destruct Hit. by eauto 15.
      * destruct Hc' as (s' & E & Hre' & Hf). rewrite E. eexists _, s'. split; [done|]. eexists _, _, _, _, _. split; [done|]. split; [done|]. done.
    + rewrite Hev. apply delta_frame with (new := None) in Hd1. destruct (Z.eqb_spec (tries s) 0) as [E0|E0]; m_simpl; (eexists _, _; split; [done|]);
        exists M, X, L, n, []; (split; [done|]); (split; [by left|]); [rewrite E0 in Ev; by split_and!|left; by split_and!].
Qed.
End run.
