(* ===== verification/CacheAccess.v ===== *)
(** The hash table as the access container of the cache: [ChainedHashTable]
    with the handles of the cache ([CacheAllocator::acquire]) meets the laws of
    [CacheTypes]. *)
From S2P Require Import Prelude Refcount SlabAllocator PtrCompressor DList MMCommon ChainedHashTable HashSpec CacheItem CacheTypes.

(** ** What the operations do to the words *)
Lemma words_trans f g h1 h2 h3 : words_to f h1 h2 → words_to g h2 h3 → words_to (λ p, g p ∘ f p) h1 h3.
Proof.
  intros H1 H2 p. specialize (H1 p). specialize (H2 p). destruct (h3 !! p), (h2 !! p), (h1 !! p); cbn in *; try done; congruence.
Qed.
Lemma words_ext f g h h' : words_to f h h' → (∀ p r, f p r = g p r) → words_to g h h'.
Proof. intros Hw Hf p. rewrite (Hw p). destruct (h !! p); cbn; [by rewrite Hf|done]. Qed.
Lemma words_mark f h p n : h !! p = Some n → words_to (on_item p f) h (<[p := with_ref (f (hn_ref n)) n]> h).
Proof.
  intros Hn q. unfold on_item. destruct (decide (q = p)) as [->|Hne].
  - by rewrite lookup_insert_eq, Hn.
  - by rewrite lookup_insert_ne.
Qed.

Section links.
Context `{PtrCompressor}.
Implicit Types (ht : Impl) (h : HStore).

Lemma setHashNextCompressed_links node next h h' : setHashNextCompressed node next h = Ok h' → links_only h h'.
Proof. unfold setHashNextCompressed. destruct (h !! node) as [n|] eqn:E; [|done]. intros [= <-]. by apply links_only_insert. Qed.
Lemma setHashNext_links node next h h' : setHashNext node next h = Ok h' → links_only h h'.
Proof.
  unfold setHashNext. destruct (h !! node) as [n|] eqn:E; [|done]. res_simpl. destruct (pc_compress next); [|done|done].
  intros [= <-]. by apply links_only_insert.
Qed.
Ltac run_inv := repeat match goal with
  | E : mbind _ ?m = Ok _ |- _ => let E1 := fresh "E1" in destruct m eqn:E1; [cbn [mbind result_bind] in E|discriminate E|discriminate E]
  | E : (match ?m with _ => _ end) = Ok _ |- _ => let E1 := fresh "E1" in destruct m eqn:E1
  | E : Ok _ = Ok _ |- _ => injection E as E; subst
  | E : Throw _ = Ok _ |- _ => discriminate E
  | E : Undef = Ok _ |- _ => discriminate E
  end.
Lemma insertInBucket_links node b ht h r ht' h' : insertInBucket node b ht h = Ok (r, ht', h') → links_only h h'.
Proof.
  unfold insertInBucket. intros E. run_inv; simplify_eq; try done. by eapply setHashNextCompressed_links.
Qed.
Lemma removeFromBucket_links node b ht h ht' h' : removeFromBucket node b ht h = Ok (ht', h') → links_only h h'.
Proof. unfold removeFromBucket. intros E. run_inv; simplify_eq; try done. by eapply setHashNext_links. Qed.
Lemma insertOrReplaceInBucket_links node b ht h r ht' h' : insertOrReplaceInBucket node b ht h = Ok (r, ht', h') → links_only h h'.
Proof.
  unfold insertOrReplaceInBucket. intros E. run_inv; simplify_eq; try (by eapply setHashNextCompressed_links);
    eauto using links_only_trans, setHashNext_links.
Qed.
End links.

(** ** The instance *)
Section hash.
Context (hasher : list Z → Z).

Definition hash_AccessContainer : AccessContainer := {|
  AC := Container;
  ac_insert pc p c h := @ht_insert pc hasher p c h;
  ac_insertOrReplace pc p c h := @insertOrReplace pc cache_HandleMaker hasher p c h;
  ac_remove pc p c h := @ht_remove pc hasher p c h;
  ac_find pc k c h := @ht_find pc cache_HandleMaker hasher k c h;
|}.
Abbreviation wf pc := (@ht_wf pc hasher).

Lemma hash_facts pc c h M : wf pc c h M →
  (∀ p n, h !! p = Some n → fits 32 (hn_ref n) ∧ (isAccessible (hn_ref n) = true ↔ M !! hn_key n = Some p)) ∧
  (∀ k p, M !! k = Some p → ∃ n, h !! p = Some n ∧ hn_key n = k).
Proof.
  intros Hw. split; [apply Hw|]. intros k p E. destruct (w_rep _ _ _ _ Hw) as (B & Hr & Hm).
  pose proof (map_key hasher _ _ _ _ _ _ Hr Hm E) as Hk. unfold has_key in Hk. destruct (h !! p) as [n|]; [|done]. exists n. cbn in Hk. split; [done|congruence].
Qed.
Lemma chain_move pc pc' h c xs : pc_agree (λ p, is_Some (h !! p)) pc pc' → @chain pc h c xs → @chain pc' h c xs.
Proof.
  intros [Hv Hu]. revert c. induction xs as [|p xs IH]; intros c.
  - intros [E _]. split; [|done]. by apply Hu.
  - intros (E & Hp & n & Hn & Hc). assert (is_Some (h !! p)) by by eexists. split; [apply Hu; [by intros a [= ->]|done]|].
    split; [by apply Hv|]. exists n. split; [done|]. by apply IH.
Qed.
Lemma hash_move pc pc' c h M : wf pc c h M → pc_agree (λ p, is_Some (h !! p)) pc pc' → wf pc' c h M.
Proof.
  intros [(B & [R1 R2 R3 R4 R5 R6 R7] & Hm) W2 W3 W4 W5] Hag. split; try done. exists B. split; [|done]. split; try done.
  intros b Hb. destruct (R4 b Hb) as (x & Hx & Hc). exists x. split; [done|]. exact (chain_move pc pc' h x _ Hag Hc).
Qed.
Lemma hash_insert pc c h M p n : wf pc c h M → h !! p = Some n → @valid_ptr pc p → isAccessible (hn_ref n) = false →
  ∃ c' h', match M !! hn_key n with
    | None => ht_insert hasher p c h = Ok (true, c', h') ∧ wf pc c' h' (<[hn_key n := p]> M) ∧ words_to (on_item p markAccessible) h h'
    | Some _ => ht_insert hasher p c h = Ok (false, c', h') ∧ wf pc c' h' M ∧ words_to (λ _ r, r) h h'
    end.
Proof.
  intros Hw Hn Hv Ha. destruct (ht_insert_aux hasher c h M p n Hw Hn Hv) as (b & c' & h' & E & _ & Hc). exists c', h'.
  assert (words_to (if b then on_item p markAccessible else λ _ r, r) h h') as Hwd.
  { revert E. unfold ht_insert, nodeIsAccessible, getKey. rewrite Hn. res_simpl. rewrite Ha.
    destruct (insertInBucket p _ _ h) as [[[res ht1] h1]|e|] eqn:Ei; [|done|done]. res_simpl. apply insertInBucket_links in Ei.
    destruct res; [|by intros [= <- <- <-]]. destruct (links_only_lookup _ _ _ _ Ei Hn) as (y & Hy).
    rewrite (nodeMark_ok _ _ _ _ Hy). intros [= <- <- <-]. eapply words_ext; [eapply (words_trans (λ _ r, r)); [exact Ei|apply (words_mark _ _ _ _ Hy)]|done]. }
  destruct (M !! hn_key n); destruct Hc as [-> Hc]; by split_and!.
Qed.
Lemma hash_remove pc c h M p n : wf pc c h M → h !! p = Some n → M !! hn_key n = Some p →
  ∃ c' h', ht_remove hasher p c h = Ok (true, c', h') ∧ wf pc c' h' (delete (hn_key n) M) ∧ words_to (on_item p unmarkAccessible) h h'.
Proof.
  intros Hw Hn E. destruct (ht_remove_aux hasher c h M p n Hw Hn) as (b & c' & h' & Er & _ & Hc). rewrite decide_True in Hc by done. destruct Hc as [-> Hc].
  exists c', h'. split_and!; [done..|]. revert Er. unfold ht_remove, nodeIsAccessible, getKey. rewrite Hn. res_simpl.
  rewrite (proj2 (proj2 (w_ref _ _ _ _ Hw p n Hn)) E). destruct (removeFromBucket p _ _ h) as [[ht1 h1]|e|] eqn:Ei; [|done|done]. res_simpl.
  apply removeFromBucket_links in Ei. destruct (links_only_lookup _ _ _ _ Ei Hn) as (y & Hy). rewrite (nodeMark_ok _ _ _ _ Hy). intros [= <- <-].
  eapply words_ext; [eapply (words_trans (λ _ r, r)); [exact Ei|apply (words_mark _ _ _ _ Hy)]|done].
Qed.
Lemma hash_remove_out pc c h M p n : wf pc c h M → h !! p = Some n → M !! hn_key n ≠ Some p → @ht_remove pc hasher p c h = Ok (false, c, h).
Proof.
  intros Hw Hn E. unfold ht_remove, nodeIsAccessible, getKey. rewrite Hn. res_simpl.
  destruct (isAccessible (hn_ref n)) eqn:Ea; [|done]. by apply (w_ref _ _ _ _ Hw p n Hn) in Ea.
Qed.
Lemma hash_find pc c h M k : wf pc c h M → @ht_find pc cache_HandleMaker hasher k c h = acquire (M !! k) h.
Proof.
  intros Hw. destruct (w_rep _ _ _ _ Hw) as (B & Hr & Hm). destruct (findInBucket_spec hasher _ _ _ k Hr) as [Hf Hnf]. unfold ht_find.
  destruct (M !! k) as [p|] eqn:E; [by rewrite (Hf p) by by apply Hm|]. rewrite Hnf; [done|]. intros p Hp%Hm. congruence.
Qed.
Lemma acquire_links p n h h1 : links_only h h1 → h !! p = Some n → ∃ y, h1 !! p = Some (with_next y n) ∧
  (∀ r, incRef (hn_ref n) = Ok (kIncOk, r) → acquire (Some p) h1 = Ok (HandleTo p, <[p := with_ref r (with_next y n)]> h1)) ∧
  (∀ e, incRef (hn_ref n) = Throw e → acquire (Some p) h1 = Throw e).
Proof.
  intros Hl Hn. destruct (links_only_lookup _ _ _ _ Hl Hn) as (y & Hy). exists y. split; [done|]. cbn [acquire]. rewrite Hy. cbn [deref]. res_simpl.
  cbn [hn_ref with_next]. split; [intros r ->|intros e ->]; done.
Qed.
Lemma hash_replace pc c h M p n : wf pc c h M → h !! p = Some n → @valid_ptr pc p → isAccessible (hn_ref n) = false →
  let run := @insertOrReplace pc cache_HandleMaker hasher p c h in
  match M !! hn_key n with
  | None => ∃ c' h', run = Ok (inl NullHandle, c', h') ∧ wf pc c' h' (<[hn_key n := p]> M) ∧ words_to (on_item p markAccessible) h h'
  | Some q => ∀ nq, h !! q = Some nq →
      (∀ r, incRef (hn_ref nq) = Ok (kIncOk, r) → ∃ c' h', run = Ok (inl (HandleTo q), c', h') ∧ wf pc c' h' (<[hn_key n := p]> M) ∧
         words_to (λ a, on_item p markAccessible a ∘ on_item q (λ _, unmarkAccessible r) a) h h') ∧
      (∀ e, incRef (hn_ref nq) = Throw e → ∃ c' h', run = Ok (inr e, c', h') ∧ wf pc c' h' M ∧ words_to (λ _ r, r) h h')
  end.
Proof.
  intros Hw Hn Hv Ha run. destruct (w_rep _ _ _ _ Hw) as (B & Hr & Hm).
  destruct (@insertOrReplace_aux pc cache_HandleMaker hasher c h M p n Hw Hn Hv) as (x & c' & h' & E & _ & Hc). fold run in E.
  destruct (put_bucket hasher _ _ _ _ _ _ Hw Hr Hm Hn Hv Ha) as (ht1 & h1 & B' & Ep & Hl & _).
  assert (M !! hn_key n ≠ Some p) as Hne. { intros Ea%(w_ref _ _ _ _ Hw p n Hn). congruence. }
  rewrite decide_False in Hc by done. destruct (links_only_lookup _ _ _ _ Hl Hn) as (y & Hy).
  unfold run, insertOrReplace, nodeIsAccessible, getKey in E |- *. rewrite Hn in E |- *. cbn [deref] in E |- *. revert E. res_simpl. rewrite Ha, Ep. res_simpl.
  rewrite bool_decide_true by congruence. res_simpl. destruct (M !! hn_key n) as [q|] eqn:EM.
  - intros E nq Hq. destruct (acquire_links q nq h h1 Hl Hq) as (yq & Hyq & Hok & Hthrow). split.
    + intros r Er. specialize (Hok r Er). revert E. change (@handleMaker cache_HandleMaker) with acquire. rewrite Hok.
      rewrite (nodeMark_ok _ p (with_next y n)) by (rewrite lookup_insert_ne by congruence; done). res_simpl.
      rewrite (nodeMark_ok _ q (with_ref r (with_next yq nq))) by (rewrite lookup_insert_ne by congruence; apply lookup_insert_eq). res_simpl.
      intros E. injection E as <- <- <-. destruct Hc as [(z & [= <-] & _ & Hwf)|(e & ? & _)]; [|done]. eexists _, _. split; [done|]. split; [done|].
      intros a. rewrite <- (Hl a) || idtac. unfold on_item. cbn [hn_ref with_ref with_next]. destruct (decide (a = q)) as [->|Hqa].
      { rewrite lookup_insert_eq, Hq. cbn. rewrite decide_False by congruence. done. }
      rewrite lookup_insert_ne by done. destruct (decide (a = p)) as [->|Hpa]; [by rewrite lookup_insert_eq, Hn|].
      rewrite !lookup_insert_ne by done. exact (Hl a).
    + intros e Ee. specialize (Hthrow e Ee). revert E. change (@handleMaker cache_HandleMaker) with acquire. rewrite Hthrow. cbn [deref]. res_simpl.
      destruct (insertOrReplaceInBucket q _ _ _) as [[[o ht2] h2]|?|] eqn:E2; [|done|done]. res_simpl. apply insertOrReplaceInBucket_links in E2.
      destruct (findInBucket _ _ _ _) as [found| |]; [|done|done]. res_simpl. destruct (bool_decide _); [|done]. res_simpl. intros E. injection E as <- <- <-.
      destruct Hc as [(z & ? & _)|(e' & [= <-] & _ & Hwf)]; [done|]. eexists _, _. split; [done|]. split; [done|]. exact (links_only_trans _ _ _ Hl E2).
  - change (@handleMaker cache_HandleMaker None h1) with (acquire None h1). cbn [acquire].
    rewrite (nodeMark_ok _ _ _ _ Hy). res_simpl. intros E. injection E as <- <- <-. destruct Hc as [(z & [= <-] & _ & Hwf)|(e & ? & _)]; [|done].
    eexists _, _. split; [done|]. split; [done|]. eapply words_ext; [eapply (words_trans (λ _ r, r)); [exact Hl|by apply (words_mark _ _ _ _ Hy)]|done].
Qed.

Definition hash_AccessLaws : @AccessLaws hash_AccessContainer.
Proof.
  refine (@Build_AccessLaws hash_AccessContainer (λ pc, @ht_wf pc hasher) hash_facts _ hash_move hash_insert hash_replace hash_remove hash_remove_out hash_find).
  intros pc c h M h'. apply wf_env.
Defined.
End hash.
