(* ===== verification/CacheMM.v ===== *)
(** The LRU as the memory-management container of the cache: [MMLru] meets the
    laws of [CacheTypes], with the queue from its tail as the eviction order. *)
From Stdlib Require Import Floats.SpecFloat.
From S2P Require Import Prelude Refcount SlabAllocator PtrCompressor DList Doubles MMCommon CacheItem CacheTypes MMLru.

(** ** What the operations leave alone of the words *)
Definition kept (h h' : Store) : Prop := ∀ a,
  match h !! a, h' !! a with
  | Some n, Some n' => fits 32 (refCount_ n) → same_core (refCount_ n) (refCount_ n')
  | None, None => True
  | _, _ => False
  end.
Lemma kept_refl h : kept h h.
Proof. intros a. destruct (h !! a); [|done]. by apply same_core_refl. Qed.
Lemma kept_trans h1 h2 h3 : kept h1 h2 → kept h2 h3 → kept h1 h3.
Proof.
  intros H1 H2 a. specialize (H1 a). specialize (H2 a). destruct (h1 !! a), (h2 !! a), (h3 !! a); try done.
  intros Hf. eapply same_core_trans; [by apply H1|]. by apply H2, H1.
Qed.
Lemma kept_insert h a n n' : h !! a = Some n → (fits 32 (refCount_ n) → same_core (refCount_ n) (refCount_ n')) → kept h (<[a := n']> h).
Proof.
  intros Hn Hs b. destruct (decide (b = a)) as [->|Hne]; [by rewrite lookup_insert_eq, Hn|].
  rewrite lookup_insert_ne by done. apply kept_refl.
Qed.
Lemma kept_core h h' : words h → kept h h' → core_kept h h'.
Proof.
  intros Hw Hk a. specialize (Hk a). destruct (h !! a) as [n|] eqn:E, (h' !! a); try done. apply Hk, (Hw a (updateTime_ n)). unfold payload. by rewrite E.
Qed.

Ltac run_inv := repeat match goal with
  | E : mbind _ ?m = Ok _ |- _ => let E1 := fresh "E1" in destruct m eqn:E1; [cbn [mbind result_bind] in E|discriminate E|discriminate E]
  | E : (match ?m with _ => _ end) = Ok _ |- _ => let E1 := fresh "E1" in destruct m eqn:E1
  | E : Ok _ = Ok _ |- _ => injection E as E; subst
  | E : Throw _ = Ok _ |- _ => discriminate E
  | E : Undef = Ok _ |- _ => discriminate E
  | E : deref ?p = Ok _ |- _ => destruct p eqn:?; [cbn [deref] in E|discriminate E]
  end; simplify_eq.
Create HintDb kept discriminated.
#[local] Hint Resolve same_core_refl : kept.
Ltac write := intros E; run_inv; eapply kept_insert; [eassumption|]; eauto with kept.

Section kept.
Context `{PtrCompressor}.

Lemma setNext_kept a p h h' : setNext a p h = Ok h' → kept h h'.
Proof. unfold setNext. write. Qed.
Lemma setPrev_kept a p h h' : setPrev a p h = Ok h' → kept h h'.
Proof. unfold setPrev. write. Qed.
Lemma setNextFrom_kept a b h h' : setNextFrom a b h = Ok h' → kept h h'.
Proof. unfold setNextFrom. write. Qed.
Lemma setPrevFrom_kept a b h h' : setPrevFrom a b h = Ok h' → kept h h'.
Proof. unfold setPrevFrom. write. Qed.
Lemma setUpdateTime_kept a t h h' : setUpdateTime a t h = Ok h' → kept h h'.
Proof. unfold setUpdateTime. write. Qed.
Lemma withRef_kept op f a h h' : CacheItem.mm_op op = true → (∀ v, run_op op v = Ok (RUnit, f v)) → withRef f a h = Ok h' → kept h h'.
Proof. intros Ho Hf. unfold withRef. write. intros Hv. by eapply mm_op_core. Qed.
Lemma markTail_kept a h h' : markTail a h = Ok h' → kept h h'.
Proof. by apply (withRef_kept (OpSetFlag kMMFlag0)). Qed.
Lemma unmarkTail_kept a h h' : unmarkTail a h = Ok h' → kept h h'.
Proof. by apply (withRef_kept (OpUnSetFlag kMMFlag0)). Qed.
Lemma markAccessed_kept a h h' : markAccessed a h = Ok h' → kept h h'.
Proof. by apply (withRef_kept (OpSetFlag kMMFlag1)). Qed.
Lemma unmarkAccessed_kept a h h' : unmarkAccessed a h = Ok h' → kept h h'.
Proof. by apply (withRef_kept (OpUnSetFlag kMMFlag1)). Qed.
Lemma markLinked_kept a h h' : withRef markInMMContainer a h = Ok h' → kept h h'.
Proof. by apply (withRef_kept OpMarkInMMContainer). Qed.
Lemma unmarkLinked_kept a h h' : withRef unmarkInMMContainer a h = Ok h' → kept h h'.
Proof. by apply (withRef_kept OpUnmarkInMMContainer). Qed.
#[local] Hint Resolve setNext_kept setPrev_kept setNextFrom_kept setPrevFrom_kept setUpdateTime_kept markTail_kept unmarkTail_kept
  markAccessed_kept unmarkAccessed_kept markLinked_kept unmarkLinked_kept : kept.
Lemma when_kept p f h h' : (∀ a h h', f a h = Ok h' → kept h h') → when_ptr p f h = Ok h' → kept h h'.
Proof. intros Hf. destruct p; cbn; [apply Hf|]. intros [= <-]. apply kept_refl. Qed.
Lemma when_setNext_kept p q h h' : when_ptr p (λ a, setNext a q) h = Ok h' → kept h h'.
Proof. apply when_kept. eauto with kept. Qed.
Lemma when_setPrev_kept p q h h' : when_ptr p (λ a, setPrev a q) h = Ok h' → kept h h'.
Proof. apply when_kept. eauto with kept. Qed.
Lemma when_setNextFrom_kept p q h h' : when_ptr p (λ a, setNextFrom a q) h = Ok h' → kept h h'.
Proof. apply when_kept. eauto with kept. Qed.
Lemma when_setPrevFrom_kept p q h h' : when_ptr p (λ a, setPrevFrom a q) h = Ok h' → kept h h'.
Proof. apply when_kept. eauto with kept. Qed.
#[local] Hint Resolve when_setNext_kept when_setPrev_kept when_setNextFrom_kept when_setPrevFrom_kept : kept.

(** Compose the steps of a run, from its end. *)
Ltac chain := repeat match goal with
  | |- kept ?h ?h => apply kept_refl
  | E : _ = Ok ?h' |- kept ?h ?h' => first [by eauto 2 with kept|eapply kept_trans; [|solve [eauto 2 with kept]]]
  | E : _ = Ok (_, ?h') |- kept ?h ?h' => first [by eauto 2 with kept|eapply kept_trans; [|solve [eauto 2 with kept]]]
  end.
Lemma linkAtHead_kept a l h l' h' : linkAtHead a (l, h) = Ok (l', h') → kept h h'.
Proof. unfold linkAtHead. intros E. run_inv. chain. Qed.
Lemma insertBefore_kept a b l h l' h' : insertBefore a b (l, h) = Ok (l', h') → kept h h'.
Proof. unfold insertBefore. intros E. run_inv; chain. Qed.
Lemma unlink_kept a l h l' h' : unlink a (l, h) = Ok (l', h') → kept h h'.
Proof. unfold unlink. intros E. run_inv; chain. Qed.
#[local] Hint Resolve linkAtHead_kept insertBefore_kept unlink_kept : kept.
Lemma remove_kept a l h l' h' : remove a (l, h) = Ok (l', h') → kept h h'.
Proof. unfold remove. intros E. run_inv; chain. Qed.
Lemma moveToHead_kept a l h l' h' : moveToHead a (l, h) = Ok (l', h') → kept h h'.
Proof. unfold moveToHead. intros E. cbn [fst] in E. case_decide; run_inv; [chain|]. match goal with x : DList * Store |- _ => destruct x end. chain. Qed.
#[local] Hint Resolve remove_kept moveToHead_kept : kept.

Lemma growTail_kept l e fuel : ∀ p t h p' t' h', growTail fuel l e (p, t, h) = Ok (p', t', h') → kept h h'.
Proof.
  induction fuel as [|fuel IH]; intros p t h p' t' h' E; cbn in E; run_inv; try apply kept_refl.
  eapply kept_trans; [|by eapply IH]. chain.
Qed.
Lemma shrinkTail_kept l e fuel : ∀ p t h p' t' h', shrinkTail fuel l e (p, t, h) = Ok (p', t', h') → kept h h'.
Proof.
  induction fuel as [|fuel IH]; intros p t h p' t' h' E; cbn in E; run_inv; try apply kept_refl.
  eapply kept_trans; [|by eapply IH]. chain.
Qed.
#[local] Hint Resolve growTail_kept shrinkTail_kept : kept.
Lemma init_kept c h p t h' : initInsertionPoint c h = Ok (p, t, h') → kept h h'.
Proof. unfold initInsertionPoint. intros E. run_inv; chain. Qed.
#[local] Hint Resolve init_kept : kept.
Lemma update_kept c h c' h' : updateLruInsertionPoint (c, h) = Ok (c', h') → kept h h'.
Proof. unfold updateLruInsertionPoint. intros E. run_inv; chain. Qed.
Lemma ensure_kept a c h c' h' : ensureNotInsertionPoint a (c, h) = Ok (c', h') → kept h h'.
Proof. unfold ensureNotInsertionPoint. intros E. run_inv; chain. Qed.
#[local] Hint Resolve update_kept ensure_kept : kept.
Lemma add_kept a now c h b c' h' : add a now (c, h) = Ok (b, (c', h')) → kept h h'.
Proof. unfold add. intros E. run_inv; chain. Qed.
Lemma removeLocked_kept a c h c' h' : removeLocked a (c, h) = Ok (c', h') → kept h h'.
Proof. unfold removeLocked. intros E. run_inv; chain. Qed.
Lemma recordAccess_func_kept a curr now c h c' h' : recordAccess_func a curr now (c, h) = Ok (c', h') → kept h h'.
Proof. unfold recordAccess_func. intros E. run_inv; chain. Qed.
#[local] Hint Resolve removeLocked_kept recordAccess_func_kept : kept.
Lemma removeNode_kept a c h b c' h' : removeNode a (c, h) = Ok (b, (c', h')) → kept h h'.
Proof. unfold removeNode. intros E. run_inv; chain. Qed.
Lemma removeIterator_kept it c h it' c' h' : removeIterator it (c, h) = Ok (it', (c', h')) → kept h h'.
Proof. unfold removeIterator. intros E. run_inv; chain. Qed.
Lemma recordAccess_kept a mode now free c h b c' h' : recordAccess a mode now free (c, h) = Ok (b, (c', h')) → kept h h'.
Proof. unfold recordAccess. intros E. run_inv; chain. Qed.
End kept.

(** ** The instance *)
Definition lru_MMType : MMType := {|
  MMC := Container;
  MMIter := Iterator;
  mm_add pc a now s := @add pc a now s;
  mm_remove pc a s := @removeNode pc a s;
  mm_recordAccess pc a mode now free s := @recordAccess pc a mode now free s;
  mm_begin pc s := Ok (rbegin (lru_ s.1));
  mm_get pc it s := Ok (curr_ it);
  mm_next pc it s := @iter_incr pc s.2 it;
  mm_removeIt pc it s := @removeIterator pc it s;
|}.
Definition lru_rep (pc : PtrCompressor) (h : Store) (c : Container) (xs : list Z) : Prop :=
  @mm_wf pc h c (reverse xs) ∧ cfg_ok (config_ c).
Definition lru_at (c : Container) (it : Iterator) (xs : list Z) (i : nat) : Prop := it = mkIterator (xs !! i) FROM_TAIL.

Lemma alive_payload_node (h : Store) a : is_Some (h !! a) ↔ is_Some (payload h a).
Proof. unfold payload. by rewrite fmap_is_Some. Qed.
Lemma node_linked h a n : h !! a = Some n → linked h a = isInMMContainer (refCount_ n).
Proof. intros E. unfold linked, payload. by rewrite E. Qed.
Lemma node_flag f h a n : h !! a = Some n → flag f h a = isFlagSet f (refCount_ n).
Proof. intros E. unfold flag, payload. by rewrite E. Qed.

Lemma lru_facts pc h c xs : lru_rep pc h c xs → NoDup xs ∧ (∀ a, a ∈ xs → is_Some (h !! a)) ∧
  (∀ a n, h !! a = Some n → fits 32 (refCount_ n) ∧ isInMMContainer (refCount_ n) = bool_decide (a ∈ xs)).
Proof.
  intros [Hwf _]. pose proof (wf_rep _ _ _ Hwf) as Hrep. destruct (wf_store _ _ _ Hwf) as [Hw Hok]. split; [|split].
  - rewrite <- (reverse_Permutation xs). apply Hrep.
  - intros a Ha. rewrite <- elem_of_reverse in Ha. apply list_elem_of_lookup in Ha as [i Hi]. apply alive_payload_node.
    pose proof (rep_alive_lookup Hrep i) as Hal. rewrite Hi in Hal. by apply Hal.
  - intros a n Hn. assert (payload h a = Some (updateTime_ n, refCount_ n)) as Hp by (unfold payload; by rewrite Hn). split; [by eapply Hw|].
    destruct (Hok a) as (_ & Hl & _); [by eexists|]. rewrite <- (node_linked h a n Hn), Hl. apply bool_decide_ext, elem_of_reverse.
Qed.

(** *** Changes from outside *)
Definition hooks_at (pc : PtrCompressor) (h : Store) (a : Z) : result (option Z) * result (option Z) := (@getNext pc h a, @getPrev pc h a).
Lemma wf_transfer pc pc' h h' c xs : @mm_wf pc h c xs → words h' →
  (∀ a, a ∈ xs → is_Some (h' !! a)) →
  (∀ a n', h' !! a = Some n' → @valid_ptr pc' a ∧
     if decide (a ∈ xs) then hooks_at pc' h' a = hooks_at pc h a ∧ isInMMContainer (refCount_ n') = linked h a ∧ isFlagSet kMMFlag0 (refCount_ n') = flag kMMFlag0 h a
     else hooks_at pc' h' a = (Ok None, Ok None) ∧ isInMMContainer (refCount_ n') = false ∧ isFlagSet kMMFlag0 (refCount_ n') = false) →
  @mm_wf pc' h' c xs.
Proof.
  intros [[R1 R2 R3 R4 R5] [_ Hok] (k & (P1 & P2 & P3 & Pt) & Hk) W4 W5] Hw Hin Hn.
  assert (∀ a, a ∈ xs → ∃ n', h' !! a = Some n' ∧ @valid_ptr pc' a ∧ hooks_at pc' h' a = hooks_at pc h a ∧
    isInMMContainer (refCount_ n') = linked h a ∧ isFlagSet kMMFlag0 (refCount_ n') = flag kMMFlag0 h a) as Hx.
  { intros a Ha. destruct (Hin a Ha) as [n' Hn']. destruct (Hn a n' Hn') as [Hv Hc]. rewrite decide_True in Hc by done. exists n'. split; [done|]. split; [done|]. exact Hc. }
  split; [| | |done|done].
  - split; try done. intros i a Hi. destruct (Hx a) as (n' & _ & Hv & Hh & _); [by eapply list_elem_of_lookup_2|].
    destruct (R5 i a Hi) as (_ & E1 & E2). unfold hooks_at in Hh. injection Hh as -> ->. by split_and!.
  - split; [done|]. intros a Ha. apply alive_payload_node in Ha as [n' Hn']. destruct (Hn a n' Hn') as [Hv Hc].
    split; [done|]. rewrite (node_linked _ _ _ Hn'), (node_flag _ _ _ _ Hn'). case_decide as Hd.
    + destruct Hc as (_ & -> & _). rewrite bool_decide_eq_true_2 by done. split; [|done].
      apply list_elem_of_lookup in Hd as [i Hi]. destruct (R5 i a Hi) as (_ & E1 & _). apply getNext_alive in E1.
      destruct (Hok a (E1 a eq_refl)) as (_ & -> & _). apply bool_decide_eq_true_2. by eapply list_elem_of_lookup_2.
    + destruct Hc as (Hh & -> & ->). injection Hh as E1 E2. rewrite bool_decide_eq_false_2 by done. by split_and!.
  - exists k. split; [|done]. split_and!; try done. intros i a Hi. destruct (Hx a) as (n' & Hn' & _ & _ & _ & Hf); [by eapply list_elem_of_lookup_2|].
    by rewrite (node_flag _ _ _ _ Hn'), Hf, (Pt i a Hi).
Qed.
Lemma hooks_node pc h a n : h !! a = Some n → hooks_at pc h a = (@pc_unCompress pc (next_ n), @pc_unCompress pc (prev_ n)).
Proof. intros E. unfold hooks_at, getNext, getPrev. by rewrite E. Qed.
Lemma wf_out pc h c xs a n : @mm_wf pc h c xs → h !! a = Some n → @valid_ptr pc a ∧ (a ∉ xs →
  hooks_at pc h a = (Ok None, Ok None) ∧ linked h a = false ∧ flag kMMFlag0 h a = false).
Proof.
  intros Hwf Hn. destruct (wf_store _ _ _ Hwf) as [_ Hok]. destruct (Hok a) as (Hv & Hl & Ho); [apply alive_payload_node; by eexists|].
  split; [done|]. intros Ha. destruct (Ho Ha) as (Hf & E1 & E2). unfold hooks_at. rewrite E1, E2, Hl, bool_decide_eq_false_2 by done. done.
Qed.
Lemma same_mm_bits r r' : same_mm r r' → isInMMContainer r' = isInMMContainer r ∧ isFlagSet kMMFlag0 r' = isFlagSet kMMFlag0 r.
Proof.
  intros Hs. destruct (observers_decode r) as (_ & -> & _ & _ & _ & _ & ->), (observers_decode r') as (_ & -> & _ & _ & _ & _ & ->).
  split; [apply Hs|by apply Hs].
Qed.
Lemma lru_env pc h c xs h' : @pc_unCompress pc kNull = Ok None → lru_rep pc h c xs → quiet_m pc h h' xs → lru_rep pc h' c xs.
Proof.
  intros Hnull [Hwf Hcfg] [Hin Hq]. split; [|done]. eapply (wf_transfer pc); [done| | |].
  - intros a t r Hp. unfold payload in Hp. destruct (h' !! a) as [n'|] eqn:E; [|done]. injection Hp as _ <-.
    destruct (Hq a n' E) as [(n & _ & _ & Hs)|(_ & _ & Hn)]; [apply Hs|apply Hn].
  - intros a Ha. apply Hin. by apply elem_of_reverse.
  - intros a n' Hn'. rewrite (hooks_node _ _ _ _ Hn'). destruct (Hq a n' Hn') as [(n & Hn & (E1 & E2 & _) & Hs)|(Ha & Hv & E1 & E2 & Hf & Hl & Hfl)].
    + destruct (wf_out _ _ _ _ _ _ Hwf Hn) as [Hv Ho]. split; [done|].
      assert (isInMMContainer (refCount_ n') = linked h a ∧ isFlagSet kMMFlag0 (refCount_ n') = flag kMMFlag0 h a) as [-> ->].
      { rewrite (node_linked _ _ _ Hn), (node_flag _ _ _ _ Hn). by apply same_mm_bits. }
      rewrite E1, E2, <- (hooks_node pc _ _ _ Hn). case_decide; [done|]. by apply Ho.
    + split; [done|]. rewrite decide_False by by rewrite elem_of_reverse. rewrite E1, E2, Hnull. split; [done|]. split; [done|]. by apply Hfl.
Qed.
Lemma lru_move pc pc' h c xs : lru_rep pc h c xs → pc_agree (λ p, is_Some (h !! p)) pc pc' → lru_rep pc' h c xs.
Proof.
  intros Hl [Hv Hu]. pose proof (lru_facts _ _ _ _ Hl) as (_ & Hin & _). destruct Hl as [Hwf Hcfg]. split; [|done].
  destruct (wf_store _ _ _ Hwf) as [Hw _]. eapply (wf_transfer pc); [done|done| |].
  { intros a Ha. apply Hin. by apply elem_of_reverse. }
  intros a n Hn. destruct (wf_out _ _ _ _ _ _ Hwf Hn) as [Hva Ho]. split; [apply Hv; [by eexists|done]|].
  rewrite <- (node_linked _ _ _ Hn), <- (node_flag _ _ _ _ Hn). rewrite (hooks_node pc' _ _ _ Hn). case_decide as Hd.
  - split; [|done]. rewrite (hooks_node pc _ _ _ Hn). pose proof (wf_rep _ _ _ Hwf) as Hrep. apply list_elem_of_lookup in Hd as [i Hi].
    destruct (rep_links _ _ _ Hrep i a Hi) as (_ & E1 & E2). unfold getNext, getPrev in E1, E2. rewrite Hn in E1, E2. cbn [deref mbind result_bind] in E1, E2.
    assert (∀ p b, p = Some b → @alive h p → is_Some (h !! b)) as Hal by (intros p b -> Hal; apply alive_payload_node, Hal; done).
    rewrite E1, E2, (Hu _ _ (λ b E, Hal _ b E (rep_alive_lookup Hrep (S i))) E1), (Hu _ _ (λ b E, Hal _ b E (rep_alive_prev Hrep i)) E2). done.
  - destruct (Ho Hd) as (Hh & Hr). split; [|done]. rewrite (hooks_node pc _ _ _ Hn) in Hh. injection Hh as E1 E2.
    by rewrite !(Hu _ None) by done.
Qed.

(** *** The operations *)
Lemma rev_to (xs ys : list Z) : reverse (reverse ys) ≡ₚ xs → ys ≡ₚ xs.
Proof. by rewrite reverse_involutive. Qed.
Lemma lru_intro pc h c xs ys c0 : @mm_wf pc h c xs → config_ c = config_ c0 → cfg_ok (config_ c0) → ys = reverse xs → lru_rep pc h c ys.
Proof. intros Hwf E Hc ->. split; [by rewrite reverse_involutive|by rewrite E]. Qed.
Lemma lru_words pc h c xs : lru_rep pc h c xs → words h.
Proof. intros [Hwf _]. apply (wf_store _ _ _ Hwf). Qed.
Lemma lru_test pc h c xs a : lru_rep pc h c xs → is_Some (h !! a) → testRef isInMMContainer h a = Ok (bool_decide (a ∈ xs)).
Proof.
  intros [Hwf _] Ha. rewrite (test_linked h c _ a Hwf) by by apply alive_payload_node. f_equal. apply bool_decide_ext, elem_of_reverse.
Qed.
Lemma lru_add pc h c xs a now : lru_rep pc h c xs → is_Some (h !! a) → a ∉ xs →
  ∃ c' h' xs', @add pc a now (c, h) = Ok (true, (c', h')) ∧ lru_rep pc h' c' xs' ∧ xs' ≡ₚ a :: xs ∧ core_kept h h'.
Proof.
  intros Hl Ha Hout. pose proof Hl as [Hwf Hcfg].
  destruct (add_aux h c (reverse xs) a now Hwf) as (c' & h' & E & Hwf' & _ & _ & _ & _ & Ec & _); [by apply alive_payload_node|by rewrite elem_of_reverse|].
  exists c', h', (reverse (insert_at (insert_position c (reverse xs)) a (reverse xs))). split; [done|]. split; [by eapply lru_intro|].
  split; [by rewrite reverse_Permutation, insert_at_perm, reverse_Permutation|]. eapply kept_core; [by eapply lru_words|by eapply add_kept].
Qed.
Lemma lru_remove pc h c xs a : lru_rep pc h c xs → a ∈ xs →
  ∃ c' h' xs', @removeNode pc a (c, h) = Ok (true, (c', h')) ∧ lru_rep pc h' c' xs' ∧ xs ≡ₚ a :: xs' ∧ core_kept h h'.
Proof.
  intros Hl Hin. pose proof (lru_facts _ _ _ _ Hl) as (_ & Hal & _). unfold removeNode. cbn [snd]. rewrite (lru_test _ _ _ _ _ Hl (Hal a Hin)).
  rewrite bool_decide_eq_true_2 by done. cbn [mbind result_bind negb]. rewrite <- elem_of_reverse in Hin. apply list_elem_of_lookup in Hin as [i Hi].
  destruct (removeLocked_aux h c (reverse xs) i a (proj1 Hl) Hi) as (c' & h' & E & Hwf' & _ & _ & _ & _ & Ec & _). rewrite E.
  exists c', h', (reverse (delete i (reverse xs))). split; [done|]. split; [by eapply lru_intro; [| |apply Hl|]|].
  split; [by rewrite reverse_Permutation, <- (delete_Permutation _ _ _ Hi), reverse_Permutation|]. eapply kept_core; [by eapply lru_words|by eapply removeLocked_kept].
Qed.
Lemma lru_record pc h c xs a mode now free : lru_rep pc h c xs → is_Some (h !! a) →
  ∃ b c' h' xs', @recordAccess pc a mode now free (c, h) = Ok (b, (c', h')) ∧ lru_rep pc h' c' xs' ∧ xs' ≡ₚ xs ∧ core_kept h h'.
Proof.
  intros Hl Ha. destruct (recordAccess_aux h c (reverse xs) a mode now free (proj1 Hl)) as (c' & h' & E & _ & _ & Ec & Hcase); [apply Hl|by apply alive_payload_node|].
  apply recordAccess_kept in E as Hk. cbn zeta in E, Hcase.
  match type of Hcase with if ?b then _ else _ => exists b; set (promoted := b) in * end. exists c', h'. clearbody promoted. destruct promoted.
  - destruct Hcase as (_ & i & Hi & Hwf'). exists (reverse (a :: delete i (reverse xs))). split; [done|]. split; [by eapply lru_intro; [| |apply Hl|]|].
    split; [|by eapply kept_core; [eapply lru_words|]]. by rewrite reverse_Permutation, <- (delete_Permutation _ _ _ Hi), reverse_Permutation.
  - destruct Hcase as (-> & _ & Hwf'). exists xs. split; [done|]. split; [by split; [|apply Hl]|]. split; [done|]. by eapply kept_core; [eapply lru_words|].
Qed.

(** *** The eviction iterator *)
Lemma rev_lookup (xs : list Z) i a : xs !! i = Some a → ∃ j, reverse xs !! j = Some a ∧ prev_at (reverse xs) j = xs !! S i.
Proof.
  intros Hi. apply lookup_lt_Some in Hi as Hlt. exists (length xs - S i)%nat. split.
  - apply reverse_lookup_Some. split; [|lia]. by replace (length xs - S (length xs - S i))%nat with i by lia.
  - destruct (length xs - S i)%nat as [|m] eqn:Em; cbn [prev_at].
    + symmetry. apply lookup_ge_None. lia.
    + rewrite reverse_lookup by lia. f_equal. lia.
Qed.
Lemma lru_begin pc h c xs : lru_rep pc h c xs → lru_at c (rbegin (lru_ c)) xs 0.
Proof.
  intros [Hwf _]. unfold lru_at, rbegin. rewrite (rep_tail _ _ _ (wf_rep _ _ _ Hwf)), last_reverse. by destruct xs.
Qed.
Lemma lru_next pc h c xs it i : lru_rep pc h c xs → lru_at c it xs i → (i < length xs)%nat →
  ∃ it', @iter_incr pc h it = Ok it' ∧ lru_at c it' xs (S i).
Proof.
  intros [Hwf _] -> [a Hi]%lookup_lt_is_Some_2. destruct (rev_lookup _ _ _ Hi) as (j & Hj & E).
  destruct (rep_links _ _ _ (wf_rep _ _ _ Hwf) j a Hj) as (_ & _ & Hp). exists (mkIterator (xs !! S i) FROM_TAIL). split; [|done].
  unfold iter_incr, goForward. rewrite Hi. cbn [curr_ dir_]. rewrite bool_decide_eq_true_2 by done. cbn [xdcheck mbind result_bind deref].
  rewrite Hp, E. done.
Qed.
Lemma lru_removeIt pc h c xs it i a : lru_rep pc h c xs → lru_at c it xs i → xs !! i = Some a →
  ∃ it' c' h' xs', @removeIterator pc it (c, h) = Ok (it', (c', h')) ∧ lru_rep pc h' c' xs' ∧ xs ≡ₚ a :: xs' ∧ core_kept h h'.
Proof.
  intros Hl Hat Hi. apply lookup_lt_Some in Hi as Hlt. destruct (lru_next _ _ _ _ _ _ Hl Hat Hlt) as (it' & En & _). exists it'.
  destruct (lru_remove _ _ _ _ a Hl) as (c' & h' & xs' & E & Hl' & Hp & Hk); [by eapply list_elem_of_lookup_2|]. exists c', h', xs'.
  split; [|done]. rewrite Hat in En |- *. unfold removeIterator, removeNode in *. rewrite Hi in En |- *. cbn [curr_ deref mbind result_bind snd] in *.
  destruct (testRef isInMMContainer h a) as [b| |]; [|done|done]. cbn [mbind result_bind] in *. destruct b; [|done]. cbn [negb xdcheck mbind result_bind] in *.
  rewrite En. cbn [mbind result_bind]. destruct (removeLocked a (c, h)); [|done|done]. cbn [mbind result_bind] in *. by simplify_eq.
Qed.

Lemma lru_add_in pc h c xs a now : lru_rep pc h c xs → a ∈ xs → @add pc a now (c, h) = Ok (false, (c, h)).
Proof.
  intros Hl Ha. pose proof (lru_facts _ _ _ _ Hl) as (_ & Hal & _). unfold add.
  by rewrite (lru_test _ _ _ _ _ Hl (Hal a Ha)), bool_decide_eq_true_2.
Qed.
Lemma lru_remove_out pc h c xs a : lru_rep pc h c xs → is_Some (h !! a) → a ∉ xs → @removeNode pc a (c, h) = Ok (false, (c, h)).
Proof. intros Hl Ha Hout. unfold removeNode. cbn [snd]. by rewrite (lru_test _ _ _ _ _ Hl Ha), bool_decide_eq_false_2. Qed.

Definition lru_MMLaws : @MMLaws lru_MMType.
Proof.
  refine (@Build_MMLaws lru_MMType lru_rep lru_at lru_facts lru_env lru_move lru_add lru_add_in lru_remove lru_remove_out lru_record _ _ lru_next lru_removeIt).
  - intros pc h c xs Hl. eexists. split; [done|]. by eapply lru_begin.
  - intros pc h c xs it i Hl ->. done.
Defined.
