(* ===== verification/CacheMemory.v ===== *)
(** The memory allocator under the cache: [MemoryAllocator], its pools, classes
    and slabs, meets the laws of [CacheTypes].  Pointers are compressed by the
    slab allocator of its current state. *)
From S2P Require Import Prelude SlabAllocator PtrCompressor SList AllocationClass AllocationFrame AllocationRun.
From S2P Require Import MemoryPool PoolSlabs PoolInv PoolRun PoolSpec PoolManager ManagerSpec MemoryAllocator AllocatorSpec.
From S2P Require Import CacheItem CacheTypes.
Import Manager Allocator.

(** ** The compressor of a slab allocator *)
Definition round_trips (sa : SlabAllocator) (p : Z) : Prop := ∃ c, slab_compress sa (Some p) = Ok c ∧ fits 32 c ∧ slab_unCompress sa c = Ok (Some p).
Definition raw_PtrCompressor (sa : SlabAllocator) : PtrCompressor := {|
  valid_ptr := round_trips sa;
  pc_compress := slab_compress sa;
  pc_unCompress := slab_unCompress sa;
  pc_roundtrip p H := H;
  pc_null := slab_null sa;
|}.
Definition mem_MemAllocator : MemAllocator := {|
  MA := MemoryAllocator * Mem;
  al_pc s := raw_PtrCompressor (m_sa s.2);
  al_classId pid size s := ma_getAllocationClassId pid size s.1;
  al_allocate pid size s := '(ret, a, m) ← ma_allocate pid size s.1 s.2; Ok (ret, (a, m));
  al_free p s := ma_free p s.1 s.2;
  al_info p s := info ← getAllocInfo p s.2; Ok (i_poolId info, i_classId info);
|}.

(** ** The live allocations *)
Definition cls_at (st : MSys) (id i : nat) : option Cls := cls ← ms_cls st !! id; cls !! i.
Definition live_at (st : MSys) (p : Z) (k : Z * Z) : Prop := ∃ id i c, k = (Z.of_nat id, Z.of_nat i) ∧ cls_at st id i = Some c ∧ p ∈ k_live c.
Definition mem_rep (s : MemoryAllocator * Mem) (L : gmap Z (Z * Z)) : Prop :=
  ∃ st, msys_wf st ∧ s = (ms_a st, ms_m st) ∧ ∀ p k, L !! p = Some k ↔ live_at st p k.

Lemma cls_at_pool st id i c : msys_wf st → cls_at st id i = Some c → ∃ ps, pool_sys id st ps ∧ p_cls ps !! i = Some c.
Proof.
  intros Hwf Hc. unfold cls_at in Hc. destruct (ms_cls st !! id) as [cls|] eqn:E; [|done]. cbn in Hc. apply lookup_lt_Some in E as Hlt.
  destruct (mw_cls _ Hwf) as [Hl _]. destruct (mw_pool _ Hwf id) as (ps & Hps & _); [lia|]. exists ps. split; [done|].
  destruct Hps as (_ & _ & E' & _). by simplify_eq.
Qed.
Definition size_at (st : MSys) (id i : nat) : option Z := ps ← pools_ (mgr_of st) !! id; pool ← ps; acSizes_ pool !! i.
Lemma live_info st id i c p : msys_wf st → cls_at st id i = Some c → p ∈ k_live c →
  ∃ sz, size_at st id i = Some sz ∧ getAllocInfo p (ms_m st) = Ok (mkAllocInfo (Z.of_nat id) (Z.of_nat i) sz) ∧ is_alloc (m_sa (ms_m st)) p.
Proof.
  intros Hwf Hc Hp. destruct (cls_at_pool _ _ _ _ Hwf Hc) as (ps & Hps & Hk). destruct (sys_pool _ _ _ Hwf Hps) as ((n & Hinv & _) & Hid & Hm & Hlt).
  destruct (lookup_lt_is_Some_2 (ac_ (p_pool ps)) i) as [ac Hi]. { rewrite <- (i_len _ _ _ _ _ _ _ Hinv). by eapply lookup_lt_Some. }
  pose proof (i_sys _ _ _ _ _ _ _ Hinv i ac c Hi Hk) as [(online & off & Hac) _]. cbn in Hac. pose proof (w_core _ _ _ _ _ _ Hac) as Hcore.
  destruct (used_header _ _ _ Hcore p) as (b & Hh & (Hv & Hcl & Hpl & Hsz & _) & _); [set_solver|].
  destruct (i_class _ _ _ _ _ _ _ Hinv i ac Hi) as [Ec Ep]. rewrite Hm in *. exists (allocationSize_ ac). split.
  - unfold size_at. rewrite (proj1 Hps). cbn. rewrite <- (i_sizes _ _ _ _ _ _ _ Hinv), list_lookup_fmap, Hi. done.
  - split; [|eapply used_is_alloc; [done|set_solver]]. unfold getAllocInfo. rewrite Hh. cbn zeta. by rewrite Hcl, Hpl, Hsz, Ec, Ep, Hid.
Qed.

(** ** Compressed pointers of live allocations survive *)
Lemma unCompress_null sa c : slab_unCompress sa c = Ok None → isNull c = true.
Proof.
  unfold slab_unCompress, unCompress. destruct (isNull c); [done|]. destruct (getSlabIdx c false), (SlabAllocator.getAllocIdx c); cbn [mbind result_bind]; try done.
  destruct (negb _); cbn [throw_if mbind result_bind]; [done|]. destruct (getMinAllocSize <=? _); cbn [xdcheck mbind result_bind]; [|done].
  destruct (kSize <=? _); cbn [throw_if mbind result_bind]; [done|]. destruct (memoryAtOffset _ _); by res_simpl.
Qed.
Lemma valid_slab_at sa slab off : sa_wf sa → isValidSlab sa slab = true → 0 ≤ off < kSize →
  slab = slabMemoryStart sa + slabIndex sa slab * kSize ∧ getSlabForMemory (slab + off) = slab.
Proof.
  intros Hwf Hv Ho. rewrite (valid_slab_iff _ Hwf) in Hv. destruct Hv as [Hr Hal].
  destruct (slabIndex_eq _ Hwf slab ltac:(lia) Hal) as (_ & He & _). split; [done|].
  destruct (wf_next _ Hwf) as [Hn Hna]. pose proof (wf_end _ Hwf) as Hend. pose proof (slab_start_aligned _ Hwf) as Hst.
  pose proof (wf_slab_start_eq _ Hwf). pose proof (wf_start _ Hwf).
  assert (slab + kSize ≤ nextSlabAllocation sa). { clear - Hr Hna Hal. rewrite kSize_val in *. Z.to_euclidean_division_equations. lia. }
  apply getSlabForMemory_offset; [unfold fits; lia|done|done].
Qed.
Lemma unCompress_same sa sa' c p : sa_wf sa → sa_wf sa' → slabMemoryStart sa' = slabMemoryStart sa →
  isValidSlab sa' (getSlabForMemory p) = true →
  allocSize (headers sa' (slabIndex sa' (getSlabForMemory p))) = allocSize (headers sa (slabIndex sa (getSlabForMemory p))) →
  slab_unCompress sa c = Ok (Some p) → slab_unCompress sa' c = Ok (Some p).
Proof.
  intros Hw Hw' Hst Hv Hsz. unfold slab_unCompress, unCompress. destruct (isNull c); [done|].
  destruct (getSlabIdx c false) as [idx| |]; [|done|done]. destruct (SlabAllocator.getAllocIdx c) as [ai| |]; [|done|done]. cbn [mbind result_bind]. rewrite Hst.
  set (slab := slabMemoryStart sa + idx * kSize). destruct (isValidSlab sa slab) eqn:Ev; [|done]. cbn [negb throw_if mbind result_bind].
  destruct (getMinAllocSize <=? allocSize (headers sa idx)) eqn:Em; [|done]. cbn [xdcheck mbind result_bind].
  set (off := u32 (allocSize (headers sa idx) * ai)). destruct (kSize <=? off) eqn:Eo; [done|]. cbn [throw_if mbind result_bind].
  unfold memoryAtOffset. destruct (off <? kSize) eqn:Eo'; [|done]. cbn [xdcheck mbind result_bind fmap result_fmap]. intros E. injection E as E.
  apply Z.ltb_lt in Eo' as Hlt. destruct (valid_slab_at sa slab off Hw Ev) as (Hidx & Eslab); [pose proof (wrap_fits 32 (allocSize (headers sa idx) * ai)); unfold off, fits in *; lia|].
  assert (slab = slabMemoryStart sa + idx * kSize) as Es by done. clearbody slab.
  assert (slabIndex sa slab = idx) as Ei by (rewrite kSize_val in *; lia).
  rewrite E in Eslab. rewrite Eslab in Hv, Hsz. rewrite Hv. cbn [negb throw_if mbind result_bind].
  destruct (valid_slab_at sa' slab 0 Hw' Hv) as (Hidx' & _); [rewrite kSize_val; lia|].
  assert (slabIndex sa' slab = idx) as Ei' by (rewrite Hst, kSize_val in *; lia).
  rewrite Ei, Ei' in Hsz. rewrite Hsz. rewrite Em. cbn [xdcheck mbind result_bind]. fold off. rewrite Eo. cbn [throw_if mbind result_bind]. rewrite Eo'. cbn. by rewrite E.
Qed.
(** ** A step of one class *)
(** [st'] is [st] after an operation of class [i] of pool [id], which changed what
    is live there by [f]. *)
Record class_stepped (st st' : MSys) (id i : nat) (f : Cls → Cls) : Prop := {
  cs_wf : msys_wf st';
  cs_start : slabMemoryStart (m_sa (ms_m st')) = slabMemoryStart (m_sa (ms_m st));
  cs_cls id' i' : cls_at st' id' i' = if decide (id' = id ∧ i' = i) then f <$> cls_at st id i else cls_at st id' i';
  cs_pools id' size : ma_getAllocationClassId id' size (ms_a st') = ma_getAllocationClassId id' size (ms_a st);
  cs_size id' i' : size_at st' id' i' = size_at st id' i';
}.
Lemma stepped_agree st st' id i f (P : Z → Prop) : msys_wf st → class_stepped st st' id i f →
  (∀ p, P p → ∃ k, live_at st p k ∧ live_at st' p k) → pc_agree P (raw_PtrCompressor (m_sa (ms_m st))) (raw_PtrCompressor (m_sa (ms_m st'))).
Proof.
  intros Hwf [Hwf' Hst _ _ Hsz] HP. split.
  - intros p Hp _. destruct (HP p Hp) as (k & _ & (id' & i' & c & _ & Hc & Hl)).
    destruct (live_info _ _ _ _ _ Hwf' Hc Hl) as (_ & _ & _ & Ha). cbn. by apply slab_roundtrip; [apply Hwf'|].
  - intros c p Hp. cbn. destruct p as [p|].
    + destruct (HP p (Hp p eq_refl)) as (k & (id1 & i1 & c1 & -> & Hc1 & Hl1) & (id2 & i2 & c2 & Ek & Hc2 & Hl2)).
      assert (id2 = id1 ∧ i2 = i1) as [-> ->] by (injection Ek; lia).
      destruct (live_info _ _ _ _ _ Hwf Hc1 Hl1) as (sz & Es & Ei & _), (live_info _ _ _ _ _ Hwf' Hc2 Hl2) as (sz' & Es' & Ei' & _).
      rewrite Hsz, Es in Es'. injection Es' as <-. unfold getAllocInfo, getSlabHeader in Ei, Ei'.
      destruct (isValidSlab (m_sa (ms_m st)) (getSlabForMemory p)) eqn:Ev; [|done]. destruct (isValidSlab (m_sa (ms_m st')) (getSlabForMemory p)) eqn:Ev'; [|done].
      cbn in Ei, Ei'. injection Ei as _ _ Ei. injection Ei' as _ _ Ei'. apply unCompress_same; [apply Hwf|apply Hwf'|done|done|congruence].
    + intros E%unCompress_null. unfold slab_unCompress, unCompress. by rewrite E.
Qed.
Lemma set_sys_stepped st id ps ps' i f : msys_wf st → pool_sys id st ps → msys_wf (set_sys (Z.of_nat id) ps' st) →
  same_pool (p_pool ps) (p_pool ps') → others (Z.of_nat id) (ms_m st) (p_mem ps') → p_cls ps' = alter f i (p_cls ps) →
  class_stepped st (set_sys (Z.of_nat id) ps' st) id i f.
Proof.
  intros Hwf Hps Hwf' Hsame Hoth Hcls. pose proof Hps as (H1 & _ & H2 & _). pose proof (lookup_lt_Some _ _ _ H1). pose proof (lookup_lt_Some _ _ _ H2). split.
  - done.
  - cbn. apply (pe_start (Z.of_nat id + 1)). apply Hoth; lia.
  - intros id' i'. unfold cls_at, set_sys. cbn [ms_cls]. rewrite Nat2Z.id. destruct (decide (id' = id)) as [->|Hne].
    + rewrite list_lookup_insert_eq, H2 by done. cbn. rewrite Hcls. destruct (decide (i' = i)) as [->|Hi].
      * rewrite decide_True by done. apply list_lookup_alter_eq.
      * rewrite decide_False by naive_solver. by apply list_lookup_alter_ne.
    + rewrite list_lookup_insert_ne, decide_False by naive_solver. done.
  - intros id' size. unfold ma_getAllocationClassId, set_sys. cbn [ms_a with_mgr memoryPoolManager_]. fold (mgr_of st).
    change (with_pool (Z.of_nat id) (p_pool ps') (mgr_of st)) with (mgr_of (set_sys (Z.of_nat id) ps' st)).
    destruct (getPoolById_aux Hwf id') as [(ps1 & Hid1 & Hps1 & _ & _ & _ & ->)|[E1 Hn1]],
      (getPoolById_aux Hwf' id') as [(ps2 & Hid2 & Hps2 & _ & _ & _ & ->)|[E2 Hn2]]; [|by destruct Hn2|by destruct Hn1|by rewrite E1, E2]. res_simpl.
    destruct Hps1 as (P1 & _), Hps2 as (P2 & _). unfold set_sys, mgr_of in P2. cbn in P2. rewrite Nat2Z.id in P2. destruct (decide (Z.to_nat id' = id)) as [Hd|Hne].
    + rewrite Hd in *. rewrite list_lookup_insert_eq in P2 by done. rewrite P1 in H1. injection H1 as ->. injection P2 as <-. by apply classId_same.
    + rewrite list_lookup_insert_ne in P2 by done. unfold mgr_of in P1. rewrite P1 in P2. by injection P2 as ->.
  - intros id' i'. unfold size_at, set_sys, mgr_of. cbn. rewrite Nat2Z.id. destruct (decide (id' = id)) as [->|Hne].
    + unfold mgr_of in H1. rewrite list_lookup_insert_eq, H1 by done. cbn. by destruct Hsame as (_ & -> & _).
    + by rewrite list_lookup_insert_ne.
Qed.

(** ** The laws *)
Lemma class_of_size ps size : pool_wf ps → 0 ≤ size →
  (∃ i : nat, getAllocationClassId size (p_pool ps) = Ok (Z.of_nat i)) ∨ getAllocationClassId size (p_pool ps) = Throw InvalidArgument.
Proof.
  intros (n & Hinv & _) Hsz. destruct (pool_inv_nonempty _ _ _ _ _ Hinv) as (H1 & H2 & H3).
  rewrite getAllocationClassId_aux; [|apply Hinv|done|lia|done|done]. destruct (first_fit _ _) as [i|]; [|by right].
  destruct (size =? 0); [by right|left; by eexists].
Qed.
Lemma lift_run st id o ps ret ps' : msys_wf st → pool_sys id st ps → pool_step o ps = Ok (ret, ps') →
  lift (Z.of_nat id) o st = Ok (ret, set_sys (Z.of_nat id) ps' st).
Proof.
  intros Hwf Hps E. destruct (sys_pool _ _ _ Hwf Hps) as (_ & _ & Hm & Hlt). unfold lift.
  destruct (getPoolById_aux Hwf (Z.of_nat id)) as [(ps1 & _ & Hps1 & _ & _ & _ & ->)|[_ Hn]]; [|lia]. rewrite Nat2Z.id in *.
  rewrite (pool_sys_eq _ _ _ _ Hps1 Hps) in *. destruct Hps as (_ & _ & -> & ->). cbn [deref mbind result_bind]. rewrite <- Hm.
  assert (mkPSys (p_pool ps) (p_mem ps) (p_cls ps) (p_drift ps) = ps) as -> by by destruct ps. rewrite E. cbn [mbind result_bind]. unfold set_sys. by rewrite !Nat2Z.id.
Qed.
Lemma run_stepped st id o ps ret ps' i f : msys_wf st → passed_on o = true → pool_sys id st ps → pop_ok o ps → pool_step o ps = Ok (ret, ps') →
  p_cls ps' = alter f i (p_cls ps) → class_stepped st (set_sys (Z.of_nat id) ps' st) id i f.
Proof.
  intros Hwf Hp Hps Hok E Hcls. pose proof (lift_run _ _ _ _ _ _ Hwf Hps E) as El. destruct (sys_pool _ _ _ Hwf Hps) as (Hw & Hid & Hm & _).
  assert (∀ ps1, pool_sys (Z.to_nat (Z.of_nat id)) st ps1 → ps1 = ps) as Hsame by (rewrite Nat2Z.id; intros ps1 H1; by eapply pool_sys_eq).
  destruct (lift_aux st (Z.of_nat id) o Hwf Hp) as [(ret1 & st1 & _ & _ & E1 & Hwf1 & _)|[E1 _]]; [by intros ps1 _ ->%Hsame| |congruence].
  rewrite El in E1. injection E1 as _ <-.
  destruct (pool_step_safe o ps Hw Hok) as [(ret2 & ps2 & E2 & _ & _ & Hs & Ho)|[E2 _]]; [|congruence]. rewrite E in E2. injection E2 as _ <-.
  eapply set_sys_stepped; [done|done|done|done| |done]. rewrite <- Hid, <- Hm. by destruct o.
Qed.
Lemma live_stepped st st' id i f (added : Z → Prop) : class_stepped st st' id i f →
  (∀ q c, cls_at st id i = Some c → q ∈ k_live (f c) ↔ q ∈ k_live c ∨ added q) → (∀ q, added q → is_Some (cls_at st id i)) →
  ∀ p k, live_at st' p k ↔ live_at st p k ∨ (added p ∧ k = (Z.of_nat id, Z.of_nat i)).
Proof.
  intros Hcs Hf Hc p k. unfold live_at. split.
  - intros (id' & i' & c & -> & E & Hp). rewrite (cs_cls _ _ _ _ _ Hcs) in E. case_decide as Hd; [|left; by eauto 10].
    destruct Hd as [-> ->]. apply fmap_Some in E as (c0 & E0 & ->). apply (Hf p c0 E0) in Hp as [Hp|Hp]; [left; eauto 10|by right].
  - intros [(id' & i' & c & -> & E & Hp)|[Ha ->]].
    + exists id', i'. rewrite (cs_cls _ _ _ _ _ Hcs). case_decide as Hd; [|by eauto]. destruct Hd as [-> ->]. exists (f c). rewrite E. split; [done|]. split; [done|]. apply (Hf p c E). by left.
    + destruct (Hc p Ha) as [c E]. exists id, i, (f c). rewrite (cs_cls _ _ _ _ _ Hcs), decide_True, E by done. split; [done|]. split; [done|]. apply (Hf p c E). by right.
Qed.
Lemma mem_allocate s L pid size : mem_rep s L → fits 32 size →
  (∃ e, ma_getAllocationClassId pid size s.1 = Throw e) ∨
  (∃ cid ret s', ma_getAllocationClassId pid size s.1 = Ok cid ∧ al_allocate (MemAllocator := mem_MemAllocator) pid size s = Ok (ret, s') ∧
     pc_agree (λ p, is_Some (L !! p)) (raw_PtrCompressor (m_sa s.2)) (raw_PtrCompressor (m_sa s'.2)) ∧
     (∀ pid size, ma_getAllocationClassId pid size s'.1 = ma_getAllocationClassId pid size s.1) ∧
     match ret with None => mem_rep s' L | Some p => L !! p = None ∧ mem_rep s' (<[p := (pid, cid)]> L) end).
Proof.
  intros (st & Hwf & -> & HL) Hf. cbn [fst snd al_allocate mem_MemAllocator]. unfold ma_getAllocationClassId at 1 2. unfold ma_allocate. fold (mgr_of st).
  destruct (getPoolById_aux Hwf pid) as [(ps & Hid & Hps & Hw & Hpid & Hmax & E)|[E Hn]]; rewrite E; [|left; by eexists]. cbn [mbind result_bind].
  destruct (class_of_size ps size Hw) as [[i Ei]|Ei]; [unfold fits in Hf; lia| |left; by exists InvalidArgument]. right. exists (Z.of_nat i).
  pose proof Hps as (Hp1 & Hp2 & Hp3 & Hp4). assert (mkPSys (p_pool ps) (ms_m st) (p_cls ps) (p_drift ps) = ps) as Eps by (destruct ps; cbn in *; by subst).
  destruct (mp_allocate_aux (p_pool ps) (ms_m st) (p_cls ps) (p_drift ps) size (Z.of_nat i)) as (ret & pool' & m' & Ea & _ & Hret & _ & _); [by rewrite Eps|done|unfold fits in Hf; lia|].
  rewrite Ea. cbn [mbind result_bind]. rewrite Nat2Z.id in *. set (id := Z.to_nat pid) in *. assert (pid = Z.of_nat id) as Epid by lia.
  set (ps' := mkPSys pool' m' (alter (add_live ret) i (p_cls ps)) (p_drift ps)).
  assert (class_stepped st (set_sys (Z.of_nat id) ps' st) id i (add_live ret)) as Hcs.
  { apply (run_stepped st id (PAllocate size) ps ret); try done. cbn [pool_step]. rewrite Hp2, Ei. cbn [mbind result_bind]. rewrite Ea. cbn [mbind result_bind]. by rewrite Nat2Z.id. }
  exists ret, (ms_a (set_sys (Z.of_nat id) ps' st), ms_m (set_sys (Z.of_nat id) ps' st)). split; [done|]. split; [by rewrite Epid|]. cbn [fst snd].
  assert (∀ p k, live_at (set_sys (Z.of_nat id) ps' st) p k ↔ live_at st p k ∨ (ret = Some p ∧ k = (Z.of_nat id, Z.of_nat i))) as Hlive.
  { apply (live_stepped _ _ _ _ _ (λ q, ret = Some q) Hcs).
    - intros q c Hc. unfold add_live. cbn. destruct ret as [p'|]; [|naive_solver]. rewrite elem_of_union, elem_of_singleton. naive_solver.
    - intros q Hq. destruct (Hret q Hq) as (_ & k' & Hk' & _). unfold cls_at. rewrite Hp3. cbn. by eexists. }
  split.
  { eapply stepped_agree; [done|done|]. intros p [k Hk]. exists k. rewrite Hlive. split; [|left]; by apply HL. }
  split; [apply Hcs|]. destruct ret as [p|].
  - assert (L !! p = None) as HLp.
    { destruct (L !! p) as [k|] eqn:Ek; [|done]. apply HL in Ek as Hk.
      destruct (pool_step_safe (PAllocate size) ps Hw Hf) as [(ret2 & ps2 & E2 & Hr2 & _)|[E2 _]];
        cbn [pool_step] in E2; rewrite Hp2, Ei in E2; cbn [mbind result_bind] in E2; rewrite Ea in E2; [|done]. cbn [mbind result_bind] in E2. injection E2 as <- <-. rewrite Nat2Z.id in Hr2.
      destruct (lift_ret st (Z.of_nat id) ps ps' (Some p) Hwf (cs_wf _ _ _ _ _ Hcs)) with p as [Hnot _]; [lia|by rewrite Nat2Z.id|done|done|]. destruct Hnot.
      destruct Hk as (id' & i' & c & _ & Hc & Hp). destruct (cls_at_pool _ _ _ _ Hwf Hc) as (ps1 & Hps1 & Hc1). exists id', ps1. split; [done|]. by exists i', c. }
    split; [done|]. exists (set_sys (Z.of_nat id) ps' st). split; [apply Hcs|]. split; [done|]. intros q k. rewrite Hlive, <- HL, Epid. destruct (decide (q = p)) as [->|Hne].
    + rewrite lookup_insert_eq, HLp. naive_solver.
    + rewrite lookup_insert_ne by done. naive_solver.
  - exists (set_sys (Z.of_nat id) ps' st). split; [apply Hcs|]. split; [done|]. intros p k. rewrite Hlive, HL. naive_solver.
Qed.
Lemma mem_free s L p : mem_rep s L → is_Some (L !! p) →
  ∃ s', ma_free p s.1 s.2 = Ok s' ∧ mem_rep s' (delete p L) ∧
    pc_agree (λ q, is_Some (delete p L !! q)) (raw_PtrCompressor (m_sa s.2)) (raw_PtrCompressor (m_sa s'.2)) ∧
    (∀ pid size, ma_getAllocationClassId pid size s'.1 = ma_getAllocationClassId pid size s.1).
Proof.
  intros (st & Hwf & -> & HL) [k Hk]. apply HL in Hk as (id & i & c & -> & Hc & Hp). cbn [fst snd].
  destruct (cls_at_pool _ _ _ _ Hwf Hc) as (ps & Hps & Hcp). destruct (sys_pool _ _ _ Hwf Hps) as (Hw & _ & Hm & _).
  assert (pop_ok (PFree i p) ps) as Hok by by exists c.
  destruct (pool_step_safe (PFree i p) ps Hw Hok) as [(ret & ps' & E & _)|[_ []]].
  assert (p_cls ps' = alter (drop_live p) i (p_cls ps)) as Ecls.
  { cbn [pool_step] in E. destruct (mp_free p (p_pool ps) (p_mem ps)) as [[pool' m']| |]; [|done|done]. cbn in E. by injection E as <- <-. }
  pose proof (run_stepped st id (PFree i p) ps ret ps' i (drop_live p) Hwf eq_refl Hps Hok E Ecls) as Hcs.
  pose proof (lift_run _ _ _ _ _ _ Hwf Hps E) as El. rewrite <- (free_is_lift st id i p ps c) in El by done. cbn [mstep] in El.
  destruct (ma_free p (ms_a st) (ms_m st)) as [[a' m']| |]; [|done|done]. cbn [mbind result_bind] in El. apply Ok_pair in El as [_ Est].
  set (st' := set_sys (Z.of_nat id) ps' st) in *. exists (a', m'). split; [done|]. cbn [fst snd].
  assert (a' = ms_a st' ∧ m' = ms_m st') as [-> ->] by (split; [exact (f_equal ms_a Est)|exact (f_equal ms_m Est)]).
  assert (∀ q k, live_at st' q k ↔ live_at st q k ∧ q ≠ p) as Hlive.
  { intros q k. unfold live_at. split.
    - intros (id1 & i1 & c1 & -> & E1 & Hq). rewrite (cs_cls _ _ _ _ _ Hcs) in E1. case_decide as Hd.
      + destruct Hd as [-> ->]. rewrite Hc in E1. injection E1 as <-. cbn in Hq. apply elem_of_difference in Hq as [Hq Hne]. split; [by eauto 10|by rewrite elem_of_singleton in Hne].
      + split; [by eauto 10|]. intros ->. apply Hd. assert (live_at st p (Z.of_nat id1, Z.of_nat i1)) as H1%HL by (by exists id1, i1, c1).
        assert (live_at st p (Z.of_nat id, Z.of_nat i)) as H2%HL by (by exists id, i, c). rewrite H1 in H2. injection H2. lia.
    - intros [(id1 & i1 & c1 & -> & E1 & Hq) Hne]. exists id1, i1. rewrite (cs_cls _ _ _ _ _ Hcs). case_decide as Hd; [|by eauto].
      destruct Hd as [-> ->]. exists (drop_live p c). rewrite Hc in E1 |- *. injection E1 as <-. split; [done|]. split; [done|]. cbn. set_solver. }
  split; [|split; [|apply Hcs]].
  - exists st'. split; [apply Hcs|]. split; [done|]. intros q k. rewrite Hlive, <- HL, lookup_delete_Some. naive_solver.
  - eapply stepped_agree; [done|done|]. intros q [k Hq]. apply lookup_delete_Some in Hq as [Hne Hq]. exists k. rewrite Hlive. split_and!; [by apply HL|by apply HL|done].
Qed.

Definition mem_AllocatorLaws : @AllocatorLaws mem_MemAllocator.
Proof.
  refine (@Build_AllocatorLaws mem_MemAllocator mem_rep _ _ _ mem_allocate mem_free).
  - intros s L _. done.
  - intros s L p (st & Hwf & -> & HL) [k Hk]. apply HL in Hk as (id & i & c & -> & Hc & Hp). destruct (live_info _ _ _ _ _ Hwf Hc Hp) as (_ & _ & _ & Ha).
    cbn. apply slab_roundtrip; [apply Hwf|done].
  - intros s L p k (st & Hwf & -> & HL) Hk. apply HL in Hk as (id & i & c & -> & Hc & Hp). destruct (live_info _ _ _ _ _ Hwf Hc Hp) as (sz & _ & Ei & _).
    cbn. by rewrite Ei.
Defined.
(** A new allocator, and a pool of it. *)
Lemma mem_rep_new st : msys_wf st → (∀ p k, ¬ live_at st p k) → mem_rep (ms_a st, ms_m st) ∅.
Proof. intros Hwf Hn. exists st. split; [done|]. split; [done|]. intros p k. rewrite lookup_empty. split; [done|]. by intros ?%Hn. Qed.
