(* ===== verification/CacheSpec.v ===== *)
(** The cache and its clients: what every operation does to the contents of the
    cache, to the items the clients hold and to the callbacks, from any state
    that can be reached. *)
From S2P Require Import Prelude Refcount SlabAllocator PtrCompressor DList MMCommon ChainedHashTable CacheItem CacheTypes CacheAllocator CacheCore CacheRun.

(** ** Clients

    The clients of a cache hold handles; a call that returns a handle adds it to
    them, and dropping one destroys it. *)
Inductive cop :=
  | CAllocate (pid : Z) (key : list Z) (size ttl creationTime now : Z)
  | CInsert (i : nat) (now : Z)                (** the place of the handle *)
  | CInsertOrReplace (i : nat) (now : Z)
  | CFind (key : list Z) (mode : AccessMode) (now : Z) (free : bool)
  | CPeek (key : list Z) (now : Z)
  | CCouldExist (key : list Z) (now : Z)
  | CRemove (key : list Z)
  | CRemoveHandle (i : nat)
  | CClone (i : nat)
  | CMarkUseful (i : nat) (mode : AccessMode) (now : Z) (free : bool)
  | CDrop (i : nat).
(** What came of a call: its result, or that it is still looking for an item to
    evict.  Such a call has changed nothing yet that the other clients see, and
    they go on; [eviction_without_limit_spins] says that it stays so. *)
Inductive cret := RUnit | RBool (b : bool) | RHandle (h : ItemHandle) | RRemove (r : RemoveRes) | RExn (e : exn) | RSearching.

Section clients.
Context {accessC : AccessContainer} {mmC : MMType} {memA : MemAllocator}.
Implicit Types (s : Cache) (H : list ItemHandle).

Definition points_to (p : Z) (h : ItemHandle) : Prop := h_it h = HandleTo p.
#[global] Instance points_to_dec p h : Decision (points_to p h).
Proof. unfold points_to. apply _. Defined.
(** The number of handles to an item. *)
Definition handles H (p : Z) : Z := Z.of_nat (length (filter (points_to p) H)).
Definition keep (h : ItemHandle) H : list ItemHandle := match get_internal (h_it h) with Some _ => H ++ [h] | None => H end.

Definition finish {A} (m : M A) (f : A → cret * list ItemHandle) s H : result (cret * (Cache * list ItemHandle)) :=
  '(a, s) ← m s;
  match a with
  | inl a => let '(ret, H) := f a in Ok (ret, (s, H))
  | inr e => Ok (RExn e, (s, H))
  end.
Definition cstep (o : cop) (c : Cache * list ItemHandle) : result (cret * (Cache * list ItemHandle)) :=
  let '(s, H) := c in
  match o with
  | CAllocate pid key size ttl ct now => 
      finish (allocate 0 pid key size ttl ct now) (λ h, match h with Some h => (RHandle h, keep h H) | None => (RSearching, H) end) s H
  | CInsert i now => h ← deref (H !! i); finish (insert h now) (λ '(b, h), (RBool b, <[i := h]> H)) s H
  | CInsertOrReplace i now => h ← deref (H !! i); finish (insertOrReplace h now) (λ '(old, h), (RHandle old, keep old (<[i := h]> H))) s H
  | CFind key mode now free => finish (find key mode now free) (λ h, (RHandle h, keep h H)) s H
  | CPeek key now => finish (peek key now) (λ h, (RHandle h, keep h H)) s H
  | CCouldExist key now => finish (couldExistFast key now) (λ b, (RBool b, H)) s H
  | CRemove key => finish (remove key) (λ r, (RRemove r, H)) s H
  | CRemoveHandle i => h ← deref (H !! i); finish (removeHandle h) (λ r, (RRemove r, H)) s H
  | CClone i => h ← deref (H !! i); finish (clone h) (λ h, (RHandle h, keep h H)) s H
  | CMarkUseful i mode now free => h ← deref (H !! i); finish (markUseful h mode now free) (λ _, (RUnit, H)) s H
  | CDrop i => h ← deref (H !! i); finish (reset h) (λ _, (RUnit, delete i H)) s H
  end.
(** What a client may call: with its own handles, and for an item whose size is
    an unsigned 32-bit number. *)
Definition cop_ok (o : cop) H : Prop :=
  match o with
  | CAllocate _ key size _ _ _ => 0 ≤ size ∧ required key size < 2 ^ 32
  | CInsert i _ | CInsertOrReplace i _ | CRemoveHandle i | CClone i | CMarkUseful i _ _ _ | CDrop i => is_Some (H !! i)
  | _ => True
  end.

(** The contents: the accessible items by key. *)
Definition contents s : gmap (list Z) Z :=
  list_to_map ((λ x, (it_key x.2, x.1)) <$> filter (λ x, isAccessible (it_ref x.2) = true) (map_to_list (items_ s))).

(** ** The specification *)
(** An item was evicted that nobody held, or nothing was. *)
Definition room_made s H (C C' : gmap (list Z) Z) (evs : list Event) : Prop := (C' = C ∧ evs = []) ∨
  ∃ p it, items_ s !! p = Some it ∧ handles H p = 0 ∧ C !! it_key it = Some p ∧ C' = delete (it_key it) C ∧
    evs = release_events (config_ s) kEviction false p (it_key it).
(** Every item of a class has a handle. *)
Definition all_held s H (pid cid : Z) : Prop := ∀ p it, items_ s !! p = Some it → al_info p (allocator_ s) = Ok (pid, cid) → handles H p ≠ 0.
Definition found s H (C : gmap (list Z) Z) (key : list Z) (now : Z) (ret : cret) : Prop :=
  match C !! key with
  | None => ret = RHandle null_handle
  | Some p => ∃ it, items_ s !! p = Some it ∧ it_key it = key ∧
      ret = if decide (handles H p = kMaxRef) then RExn RefcountOverflow
            else if (isExpired now (staleTime s) it).1 then RHandle (markExpired null_handle)
            else RHandle (mkItemHandle (HandleTo p) false false)
  end.
(** The handles after a call that returned [ret]. *)
Definition handed_out (ret : cret) H : list ItemHandle := match ret with RHandle h => keep h H | _ => H end.
Definition last_of H (p : Z) (it : Item) (C : gmap (list Z) Z) : Prop := handles H p = 1 ∧ C !! it_key it ≠ Some p.
#[global] Instance last_of_dec H p it C : Decision (last_of H p it C).
Proof. unfold last_of. apply _. Defined.

(** [C] and [C'] are the contents before and after, [evs] the calls of the user's
    callbacks. *)
Definition c_spec (o : cop) s H (C : gmap (list Z) Z) (ret : cret) s' H' (C' : gmap (list Z) Z) (evs : list Event) : Prop :=
  match o with
  | CAllocate pid key size ttl ct now =>
      match al_classId pid (required key size) (allocator_ s) with
      | Ok cid => room_made s H C C' evs ∧ H' = handed_out ret H ∧
          ((ret = RHandle null_handle ∧ C' = C ∧ evictionSearchTries (config_ s) ≠ 0) ∨
           (ret = RSearching ∧ C' = C ∧ evictionSearchTries (config_ s) = 0 ∧ all_held s H pid cid) ∨
           (ret = RExn InvalidArgument ∧ (isKeyValid key = false ∨ kMaxValSize < size)) ∨
           (∃ p it, ret = RHandle (mkItemHandle (HandleTo p) true false) ∧ handles H p = 0 ∧ items_ s' !! p = Some it ∧
              (∀ k, C' !! k ≠ Some p) ∧
              let ct := if ct =? 0 then u32 now else ct in
              body it = (ct, if ttl =? 0 then 0 else u32 (ct + ttl), kalloc_size key size, key)))
      | Throw e => ret = RExn e ∧ s' = s ∧ H' = H ∧ C' = C ∧ evs = []
      | Undef => False
      end
  | CInsert i _ => ∀ h p it, H !! i = Some h → points_to p h → items_ s !! p = Some it → evs = [] ∧
      if decide (C !! it_key it = Some p) then ret = RExn InvalidArgument ∧ H' = H ∧ C' = C
      else let b := bool_decide (C !! it_key it = None) in
        ret = RBool b ∧ H' = <[i := if b then unmarkNascent h else h]> H ∧ C' = if b then <[it_key it := p]> C else C
  | CInsertOrReplace i _ => ∀ h p it, H !! i = Some h → points_to p h → items_ s !! p = Some it → evs = [] ∧
      if decide (C !! it_key it = Some p) then ret = RExn InvalidArgument ∧ H' = H ∧ C' = C
      else match C !! it_key it with
        | None => ret = RHandle null_handle ∧ H' = <[i := unmarkNascent h]> H ∧ C' = <[it_key it := p]> C
        | Some q =>
            if decide (handles H q = kMaxRef) then ret = RExn RefcountOverflow ∧ H' = H ∧ C' = C
            else let old := mkItemHandle (HandleTo q) false false in
              ret = RHandle old ∧ H' = <[i := unmarkNascent h]> H ++ [old] ∧ C' = <[it_key it := p]> C
        end
  | CFind key _ now _ | CPeek key now => found s H C key now ret ∧ H' = handed_out ret H ∧ C' = C ∧ evs = []
  | CCouldExist key now => (∃ r, found s H C key now r ∧
        ret = match r with RHandle h => RBool (bool_decide (get_internal (h_it h) ≠ None)) | r => r end) ∧ H' = H ∧ C' = C ∧ evs = []
  | CRemove key => H' = H ∧
      match C !! key with
      | None => ret = RRemove kNotFoundInRam ∧ C' = C ∧ evs = []
      | Some p =>
          if decide (handles H p = kMaxRef) then ret = RExn RefcountOverflow ∧ C' = C ∧ evs = []
          else ret = RRemove kSuccess ∧ C' = delete key C ∧
            evs = if decide (handles H p = 0) then release_events (config_ s) kNormal false p key else []
      end
  | CRemoveHandle i => ∀ h p it, H !! i = Some h → points_to p h → items_ s !! p = Some it → H' = H ∧ evs = [] ∧
      if decide (C !! it_key it = Some p) then ret = RRemove kSuccess ∧ C' = delete (it_key it) C else ret = RRemove kNotFoundInRam ∧ C' = C
  | CClone i => ∀ h p, H !! i = Some h → points_to p h → C' = C ∧ evs = [] ∧ H' = handed_out ret H ∧
      ret = if decide (handles H p = kMaxRef) then RExn RefcountOverflow else RHandle (mkItemHandle (HandleTo p) (isNascent h) (wasExpired h))
  | CMarkUseful _ _ _ _ => ret = RUnit ∧ H' = H ∧ C' = C ∧ evs = []
  | CDrop i => ∀ h p it, H !! i = Some h → points_to p h → items_ s !! p = Some it → ret = RUnit ∧ H' = delete i H ∧ C' = C ∧
      evs = (if decide (last_of H p it C) then release_events (config_ s) kNormal (isNascent h) p (it_key it) else []) ∧
      (items_ s' !! p = None ↔ last_of H p it C)
  end.
End clients.

(** ** Counting handles *)
Section counting.
Implicit Types (H : list ItemHandle).
Lemma handles_cons h H p : handles (h :: H) p = (if decide (points_to p h) then 1 else 0) + handles H p.
Proof. unfold handles. rewrite filter_cons. case_decide; cbn [length]; lia. Qed.
Lemma handles_perm H H' p : H ≡ₚ H' → handles H p = handles H' p.
Proof. intros HP. unfold handles. by rewrite HP. Qed.
Lemma handles_to h H p q : points_to p h → handles (h :: H) q = (if decide (p = q) then 1 else 0) + handles H q.
Proof. intros Hp. rewrite handles_cons. unfold points_to in *. do 2 case_decide; congruence. Qed.
Lemma handles_snoc H h p : points_to p h → ∀ q, handles (H ++ [h]) q = MMCommon.set p (handles H p + 1) (handles H) q.
Proof.
  intros Hp q. rewrite (handles_perm _ (h :: H)) by by rewrite Permutation_app_comm. rewrite (handles_to _ _ p) by done. unfold MMCommon.set.
  destruct (decide (p = q)) as [->|]; lia.
Qed.
Lemma handles_delete H i h p : H !! i = Some h → points_to p h → ∀ q, handles (delete i H) q = MMCommon.set p (handles H p - 1) (handles H) q.
Proof.
  intros Hi Hp q. assert (∀ r, handles H r = (if decide (p = r) then 1 else 0) + handles (delete i H) r) as E.
  { intros r. rewrite <- (handles_to h) by done. apply handles_perm, delete_Permutation, Hi. }
  unfold MMCommon.set. pose proof (E q). destruct (decide (p = q)) as [->|]; lia.
Qed.
Lemma handles_same h h' H q : h_it h' = h_it h → handles (h' :: H) q = handles (h :: H) q.
Proof. intros E. rewrite !handles_cons. unfold points_to. do 2 case_decide; congruence. Qed.
Lemma handles_update H i h h' : H !! i = Some h → h_it h' = h_it h → ∀ q, handles (<[i := h']> H) q = handles H q.
Proof.
  intros Hi Hh q. apply lookup_lt_Some in Hi as Hlt. rewrite (handles_perm _ _ q (delete_Permutation H i h Hi)).
  rewrite (handles_perm _ _ q (delete_Permutation (<[i := h']> H) i h' ltac:(by apply list_lookup_insert_eq))).
  assert (delete i (<[i:=h']> H) = delete i H) as ->; [|by apply handles_same]. apply list_eq. intros j.
  destruct (decide (j < i)%nat); [rewrite !list_lookup_delete_lt, list_lookup_insert_ne by lia|rewrite !list_lookup_delete_ge, list_lookup_insert_ne by lia]; done.
Qed.
Lemma handles_held H i h p : H !! i = Some h → points_to p h → 0 < handles H p.
Proof.
  intros Hi Hp. rewrite (handles_perm _ _ p (delete_Permutation H i h Hi)), handles_cons, decide_True by done. unfold handles. lia.
Qed.
Lemma handles_nil p : handles [] p = 0.
Proof. done. Qed.
End counting.

Section spec.
Context {accessC : AccessContainer} {accessL : AccessLaws} {mmC : MMType} {mmL : MMLaws} {memA : MemAllocator} {memL : AllocatorLaws}.
Implicit Types (s : Cache) (H : list ItemHandle) (C : gmap (list Z) Z) (X : Z * Z → list Z) (L : gmap Z (Z * Z)).

Lemma contents_core s C X L n ex : core s C X L n ex → contents s = C.
Proof.
  intros Hco. apply map_eq. intros k. apply option_eq. intros p.
  assert (∀ p it, (p, it) ∈ filter (λ x, isAccessible (it_ref x.2) = true) (map_to_list (items_ s)) ↔ items_ s !! p = Some it ∧ C !! it_key it = Some p) as Hin.
  { intros q it. rewrite list_elem_of_filter, elem_of_map_to_list. cbn. split; intros [H1 H2]; [split; [done|]|split; [|done]].
    - rewrite acc_of, (co_acc Hco q it H2) in H1. by apply bool_decide_eq_true in H1.
    - rewrite acc_of, (co_acc Hco q it H1). by apply bool_decide_eq_true_2. }
  unfold contents. rewrite <- elem_of_list_to_map.
  - rewrite list_elem_of_fmap. split.
    + intros ([q it] & [= -> ->] & [_ E]%Hin). done.
    + intros E. destruct (co_mapped Hco k p E) as (it & Hit & <-). exists (p, it). split; [done|]. by apply Hin.
  - rewrite <- list_fmap_compose. apply NoDup_fmap_2_strong; [|apply NoDup_filter, NoDup_map_to_list].
    intros [q1 it1] [q2 it2] [E1 M1]%Hin [E2 M2]%Hin. cbn. intros Ek. rewrite Ek in M1. by simplify_eq.
Qed.

(** ** The invariant of the clients *)
Definition is_handle (h : ItemHandle) : Prop := ∃ p, points_to p h.
(** What the constructor of an item established: a key of 1 to 255 bytes, and a
    size word that holds its length and the size of the value. *)
Definition typed (it : Item) : Prop := isKeyValid (it_key it) = true ∧ fits 32 (it_size it) ∧
  kalloc_getKeySize (it_size it) = Z.of_nat (length (it_key it)) ∧ 0 ≤ kalloc_getSize (it_size it) ≤ kMaxValSize.
Record client_inv s H C X L : Prop := {
  ci_rest : rest s C X L (handles H);
  ci_count : handleCount_ s = Z.of_nat (length H);
  ci_handles : Forall is_handle H;
  ci_typed p it : items_ s !! p = Some it → typed it;
}.
Lemma typed_body it it' : body it' = body it → typed it → typed it'.
Proof. unfold body, typed. intros [= _ _ -> ->]. done. Qed.
Lemma typed_new it key size ct et : 0 ≤ size → body it = (ct, et, kalloc_size key size, key) → isKeyValid key = true → size ≤ kMaxValSize → typed it.
Proof.
  unfold body, typed. intros Hs [= _ _ -> ->] Hk Hm. destruct (kalloc_word key size Hk) as (H1 & H2 & H3); [lia|]. rewrite H2, H3. by split_and!.
Qed.

(** The result of an operation: it returns, and the invariant holds again. *)
Definition c_result (o : cop) s H C : Prop := ∃ ret s' H' C' X' L' evs new d,
  cstep o (s, H) = Ok (ret, (s', H')) ∧ client_inv s' H' C' X' L' ∧ c_spec o s H C ret s' H' C' evs ∧ frame new d evs s s' ∧
  (∀ p, new = Some p → handles H p = 0).
Lemma c_intro o s H C X L ret s' H' C' X' L' evs d n' : client_inv s H C X L → cstep o (s, H) = Ok (ret, (s', H')) →
  rest s' C' X' L' n' → (∀ p, handles H' p = n' p) → frame None d evs s s' → Z.of_nat (length H') = Z.of_nat (length H) + d → Forall is_handle H' →
  c_spec o s H C ret s' H' C' evs → c_result o s H C.
Proof.
  intros [I1 I2 I3 I4] E Hre Hn Hf Hd Hh Hs. exists ret, s', H', C', X', L', evs, None, d. split; [done|]. split; [|done]. split.
  - by eapply rest_ext.
  - rewrite (f_count _ _ _ _ _ Hf). lia.
  - done.
  - intros p it' Hp. destruct (f_body _ _ _ _ _ Hf p it' ltac:(done) Hp) as (it & Hit & Hb). by eapply typed_body, I4.
Qed.

Section step.
Context {s H C X L} (Hci : client_inv s H C X L).

Lemma held_item i h : H !! i = Some h → ∃ p it, points_to p h ∧ get_internal (h_it h) = Some p ∧ items_ s !! p = Some it ∧ handles H p ≠ 0.
Proof.
  intros Hi. destruct (Forall_lookup_1 _ _ _ _ (ci_handles _ _ _ _ _ Hci) Hi) as [p Hp]. pose proof (handles_held _ _ _ _ Hi Hp) as Hpos.
  destruct (re_live _ _ _ _ _ (ci_rest _ _ _ _ _ Hci) p) as [it Hit]; [lia|]. exists p, it. split; [done|]. unfold points_to in Hp. rewrite Hp. split; [done|]. split; [done|lia].
Qed.
Lemma is_handle_snoc h p : points_to p h → Forall is_handle (H ++ [h]).
Proof. intros Hp. apply Forall_app. split; [apply Hci|]. constructor; [by exists p|constructor]. Qed.
Lemma keep_some h p : points_to p h → keep h H = H ++ [h].
Proof. intros Hp. unfold keep. by rewrite Hp. Qed.
(** The state is as before. *)
Lemma c_same o ret : cstep o (s, H) = Ok (ret, (s, H)) → c_spec o s H C ret s H C [] → c_result o s H C.
Proof.
  intros E Hs. eapply c_intro; [done|done|apply Hci|done| | |apply Hci|done]; [|by rewrite Z.add_0_r]. apply delta_frame, delta_refl.
Qed.

(** A statement about the item of a handle. *)
Lemma the_item i h p it (P : ItemHandle → Z → Item → Prop) : H !! i = Some h → points_to p h → items_ s !! p = Some it → P h p it →
  ∀ h1 p1 it1, H !! i = Some h1 → points_to p1 h1 → items_ s !! p1 = Some it1 → P h1 p1 it1.
Proof. unfold points_to. intros Hi Hp Hit HP h1 p1 it1 Hi1 Hp1 Hit1. simplify_eq. rewrite Hp in Hp1. injection Hp1 as <-. by simplify_eq. Qed.
Lemma run_at {A} i h (m : ItemHandle → M A) f : H !! i = Some h → (h ← deref (H !! i); finish (m h) (f h) s H) = finish (m h) (f h) s H.
Proof. by intros ->. Qed.
Lemma handles_out_none ret : (∀ h, ret = RHandle h → get_internal (h_it h) = None) → handed_out ret H = H.
Proof. destruct ret as [| |h| | |]; try done. intros E. cbn. unfold keep. by rewrite E. Qed.

Lemma c_insert_step i now : is_Some (H !! i) → c_result (CInsert i now) s H C.
Proof.
  intros [h Hi]. destruct (held_item i h Hi) as (p & it & Hp & Hg & Hit & Hn). pose proof (op_insert _ _ _ _ _ h p it now (ci_rest _ _ _ _ _ Hci) Hg Hit Hn) as Ho.
  destruct (decide (C !! it_key it = Some p)) as [HC|HC].
  - eapply c_same; [cbn; rewrite Hi; cbn; unfold finish; by rewrite Ho|]. refine (the_item i h p it (λ h p it, _) Hi Hp Hit _). by rewrite decide_True.
  - destruct Ho as (X' & s' & E & Hre' & Hd). cbn zeta in E, Hre'. set (b := bool_decide (C !! it_key it = None)) in *. eapply c_intro; [done| |exact Hre'| |by apply delta_frame| | |].
    + cbn. rewrite Hi. cbn. unfold finish. rewrite E. done.
    + apply (handles_update _ _ h); [done|]. by destruct b.
    + rewrite length_insert. lia.
    + apply Forall_insert; [apply Hci|]. exists p. unfold points_to. by destruct b.
    + refine (the_item i h p it (λ h p it, _) Hi Hp Hit _). by rewrite decide_False.
Qed.
Lemma step_insertOrReplace i now : is_Some (H !! i) → c_result (CInsertOrReplace i now) s H C.
Proof.
  intros [h Hi]. destruct (held_item i h Hi) as (p & it & Hp & Hg & Hit & Hn). pose proof (op_insertOrReplace _ _ _ _ _ h p it now (ci_rest _ _ _ _ _ Hci) Hg Hit Hn) as Ho.
  assert (Forall is_handle (<[i := unmarkNascent h]> H)) as Hall by (apply Forall_insert; [apply Hci|by exists p]).
  destruct (decide (C !! it_key it = Some p)) as [HC|HC].
  { eapply c_same; [cbn; rewrite Hi; cbn; unfold finish; by rewrite Ho|]. refine (the_item i h p it (λ h p it, _) Hi Hp Hit _). by rewrite decide_True. }
  destruct (C !! it_key it) as [q|] eqn:EC; [destruct (decide (handles H q = kMaxRef)) as [Hm|Hm]|]; destruct Ho as (X' & s' & E & Hre' & Hd).
  - eapply c_intro; [done| |exact Hre'|done|by apply delta_frame|lia|apply Hci|].
    + cbn. rewrite Hi. cbn. unfold finish. rewrite E. done.
    + refine (the_item i h p it (λ h p it, _) Hi Hp Hit _). by rewrite EC, decide_False, decide_True.
  - eapply (c_intro _ _ _ _ _ _ _ _ (<[i := unmarkNascent h]> H ++ [mkItemHandle (HandleTo q) false false])); [done| |exact Hre'| |by apply delta_frame| | |].
    + cbn. rewrite Hi. cbn. unfold finish. rewrite E. done.
    + intros a. rewrite (handles_snoc _ _ q) by done. unfold MMCommon.set. by rewrite !(handles_update _ _ h) by done.
    + rewrite length_app, length_insert. cbn. lia.
    + apply Forall_app. split; [done|]. constructor; [by exists q|constructor].
    + refine (the_item i h p it (λ h p it, _) Hi Hp Hit _). by rewrite EC, decide_False, decide_False.
  - eapply (c_intro _ _ _ _ _ _ _ _ (<[i := unmarkNascent h]> H)); [done| |exact Hre'| |by apply delta_frame| | |].
    + cbn. rewrite Hi. cbn. unfold finish. rewrite E. done.
    + by apply (handles_update _ _ h).
    + cbn. rewrite length_insert. lia.
    + done.
    + refine (the_item i h p it (λ h p it, _) Hi Hp Hit _). by rewrite EC, decide_False.
Qed.
Lemma step_looked_up o key now (m : M ItemHandle) : looked_up m s C X L (handles H) key now →
  cstep o (s, H) = finish m (λ h, (RHandle h, keep h H)) s H →
  (∀ ret s' H', found s H C key now ret → H' = handed_out ret H → c_spec o s H C ret s' H' C []) → c_result o s H C.
Proof.
  unfold looked_up. intros Ho E Hs. unfold finish in E. destruct (C !! key) as [p|] eqn:EC.
  - destruct (co_mapped (re_core _ _ _ _ _ (ci_rest _ _ _ _ _ Hci)) key p EC) as (it & Hit & Hk). specialize (Ho it Hit).
    assert (∀ ret, ret = (if decide (handles H p = kMaxRef) then RExn RefcountOverflow else if (isExpired now (staleTime s) it).1 then RHandle (markExpired null_handle)
      else RHandle (mkItemHandle (HandleTo p) false false)) → found s H C key now ret) as Hf by (intros ret ->; unfold found; rewrite EC; by exists it).
    destruct (decide (handles H p = kMaxRef)); [|destruct (isExpired now (staleTime s) it).1].
    + rewrite Ho in E. eapply c_same; [exact E|]. by apply Hs; [apply Hf|].
    + destruct Ho as (s' & L' & E1 & Hre' & Hfr). rewrite E1 in E. eapply (c_intro _ _ _ _ _ _ _ _ (H)); [done|exact E|exact Hre'|done|exact Hfr|lia|apply Hci|]. by apply Hs; [apply Hf|].
    + destruct Ho as (s' & X' & E1 & Hre' & Hfr & _). rewrite E1 in E. eapply (c_intro _ _ _ _ _ _ _ _ (H ++ [mkItemHandle (HandleTo p) false false])); [done|exact E|exact Hre'|by apply handles_snoc|exact Hfr|rewrite length_app; cbn; lia|by eapply is_handle_snoc|].
      by apply Hs; [apply Hf|].
  - destruct Ho as (s' & E1 & Hre' & Hfr). rewrite E1 in E. eapply (c_intro _ _ _ _ _ _ _ _ (H)); [done|exact E|exact Hre'|done|exact Hfr|lia|apply Hci|].
    apply Hs; [|done]. unfold found. by rewrite EC.
Qed.
Lemma peek_looked_up key now : looked_up (peek key now) s C X L (handles H) key now.
Proof.
  pose proof (op_peek _ _ _ _ _ key now (ci_rest _ _ _ _ _ Hci)) as Ho. unfold looked_up. destruct (C !! key) as [p|]; [|done]. intros it Hit. specialize (Ho it Hit).
  case_decide; [done|]. destruct (isExpired now (staleTime s) it).1; [done|]. destruct Ho as (s' & E & Hre & Hf). exists s', X. by split_and!.
Qed.
Lemma step_couldExist key now : c_result (CCouldExist key now) s H C.
Proof.
  pose proof (peek_looked_up key now) as Ho. unfold looked_up in Ho. pose proof (ci_rest _ _ _ _ _ Hci) as Hre0.
  assert (∀ r s', found s H C key now r → c_spec (CCouldExist key now) s H C
    (match r with RHandle h => RBool (bool_decide (get_internal (h_it h) ≠ None)) | r => r end) s' H C []) as Hs by (intros r s' Hf; split; [by exists r|done]).
  change (peek key now) with (findInternalWithExpiration key now) in Ho. destruct (C !! key) as [p|] eqn:EC.
  - destruct (co_mapped (re_core _ _ _ _ _ Hre0) key p EC) as (it & Hit & Hk). specialize (Ho it Hit).
    assert (∀ ret, ret = (if decide (handles H p = kMaxRef) then RExn RefcountOverflow else if (isExpired now (staleTime s) it).1 then RHandle (markExpired null_handle)
      else RHandle (mkItemHandle (HandleTo p) false false)) → found s H C key now ret) as Hf by (intros ret ->; unfold found; rewrite EC; by exists it).
    destruct (decide (handles H p = kMaxRef)) as [Hm|Hm]; [|destruct (isExpired now (staleTime s) it).1].
    + eapply c_same; [|by apply (Hs (RExn RefcountOverflow)), Hf]. cbn. unfold finish, couldExistFast. m_simpl. by rewrite Ho.
    + destruct Ho as (s' & L' & E1 & Hre' & Hfr).
      eapply (c_intro _ _ _ _ _ _ _ _ H); [done| |exact Hre'|done|exact Hfr|lia|apply Hci|by apply (Hs (RHandle (markExpired null_handle))), Hf].
      cbn. unfold finish, couldExistFast. m_simpl. by rewrite E1.
    + destruct Ho as (s1 & X1 & E1 & Hre1 & Hf1 & _).
      destruct (op_release _ _ _ _ _ p false Hre1) as (it1 & s2 & L2 & evs & Hit1 & E2 & Hre2 & Hd2 & Hevs).
      { unfold MMCommon.set. rewrite decide_True by done. unfold handles. lia. }
      destruct (frame_key Hf1 Hit1) as (it0 & Hit0 & Ek & _). rewrite Hit in Hit0. injection Hit0 as <-.
      rewrite decide_False in Hevs by (rewrite Ek, Hk, EC; naive_solver). subst evs. pose proof (cframe_trans _ _ _ _ _ _ _ Hf1 (delta_frame None _ _ _ _ Hd2)) as Hfr.
      eapply (c_intro _ _ _ _ _ _ _ _ H); [done| |exact Hre2|intros q; by rewrite set_back|exact Hfr|lia|apply Hci|by apply (Hs (RHandle (mkItemHandle (HandleTo p) false false))), Hf].
      cbn. unfold finish, couldExistFast. m_simpl. rewrite E1. cbn [get_internal h_it]. by rewrite (reset_ok (mkItemHandle (HandleTo p) false false) p false s1 s2 eq_refl eq_refl E2).
  - destruct Ho as (s' & E1 & Hre' & Hfr). eapply (c_intro _ _ _ _ _ _ _ _ H); [done| |exact Hre'|done|exact Hfr|lia|apply Hci|].
    + cbn. unfold finish, couldExistFast. m_simpl. by rewrite E1.
    + apply (Hs (RHandle null_handle)). unfold found. by rewrite EC.
Qed.
Lemma step_remove key : c_result (CRemove key) s H C.
Proof.
  pose proof (op_remove _ _ _ _ _ key (ci_rest _ _ _ _ _ Hci)) as Ho. destruct (C !! key) as [p|] eqn:EC.
  - destruct (decide (handles H p = kMaxRef)) as [Hm|Hm].
    + eapply c_same; [cbn; unfold finish; by rewrite Ho|]. split; [done|]. by rewrite EC, decide_True.
    + destruct Ho as (X' & L' & s' & E & Hre' & Hfr). eapply (c_intro _ _ _ _ _ _ _ _ H); [done|cbn; unfold finish; by rewrite E|exact Hre'|done|exact Hfr|lia|apply Hci|].
      split; [done|]. by rewrite EC, decide_False.
  - destruct Ho as (s' & E & Hre' & Hfr). eapply (c_intro _ _ _ _ _ _ _ _ H); [done|cbn; unfold finish; by rewrite E|exact Hre'|done|exact Hfr|lia|apply Hci|].
    split; [done|]. by rewrite EC.
Qed.
Lemma step_removeHandle i : is_Some (H !! i) → c_result (CRemoveHandle i) s H C.
Proof.
  intros [h Hi]. destruct (held_item i h Hi) as (p & it & Hp & Hg & Hit & Hn). destruct (op_removeImpl _ _ _ _ _ p it (ci_rest _ _ _ _ _ Hci) Hit Hn) as (X' & s' & E & Hre' & Hd).
  eapply (c_intro _ _ _ _ _ _ _ _ H); [done| |exact Hre'|done|by apply delta_frame|lia|apply Hci|].
  - cbn. rewrite Hi. cbn. unfold finish, removeHandle. rewrite Hg, E. done.
  - refine (the_item i h p it (λ h p it, _) Hi Hp Hit _). split; [done|]. split; [done|]. unfold mdrop. by case_decide.
Qed.
Lemma step_clone i : is_Some (H !! i) → c_result (CClone i) s H C.
Proof.
  intros [h Hi]. destruct (held_item i h Hi) as (p & it & Hp & Hg & Hit & Hn). pose proof (op_clone _ _ _ _ _ h p it (ci_rest _ _ _ _ _ Hci) Hg Hit) as Ho.
  assert (∀ ret s' H', H' = handed_out ret H → ret = (if decide (handles H p = kMaxRef) then RExn RefcountOverflow else RHandle (mkItemHandle (HandleTo p) (isNascent h) (wasExpired h))) →
    c_spec (CClone i) s H C ret s' H' C []) as Hs.
  { intros ret s' H' EH Er h1 p1 Hi1 Hp1. unfold points_to in *. simplify_eq. rewrite Hp in Hp1. by injection Hp1 as <-. }
  destruct (decide (handles H p = kMaxRef)) as [Hm|Hm].
  - eapply c_same; [cbn; rewrite Hi; cbn; unfold finish; by rewrite Ho|]. by apply Hs.
  - destruct Ho as (s' & E & Hre' & Hd). eapply (c_intro _ _ _ _ _ _ _ _ (H ++ [mkItemHandle (HandleTo p) (isNascent h) (wasExpired h)])); [done| |exact Hre'|by apply handles_snoc|by apply delta_frame|rewrite length_app; cbn; lia|by eapply is_handle_snoc|].
    + cbn. rewrite Hi. cbn. unfold finish. by rewrite E.
    + by apply Hs.
Qed.
Lemma step_markUseful i mode now free : is_Some (H !! i) → c_result (CMarkUseful i mode now free) s H C.
Proof.
  intros [h Hi]. destruct (held_item i h Hi) as (p & it & Hp & Hg & Hit & Hn).
  destruct (op_markUseful _ _ _ _ _ h p it mode now free (ci_rest _ _ _ _ _ Hci) Hg Hit) as (X' & s' & E & Hre' & Hd & _).
  eapply (c_intro _ _ _ _ _ _ _ _ H); [done| |exact Hre'|done|by apply delta_frame|lia|apply Hci|done]. cbn. rewrite Hi. cbn. unfold finish. by rewrite E.
Qed.
Lemma step_drop i : is_Some (H !! i) → c_result (CDrop i) s H C.
Proof.
  intros [h Hi]. destruct (held_item i h Hi) as (p & it & Hp & Hg & Hit & Hn). pose proof (ci_rest _ _ _ _ _ Hci) as Hre.
  destruct (op_release _ _ _ _ _ p (isNascent h) Hre Hn) as (it0 & s' & L' & evs & Hit0 & E & Hre' & Hd & Hevs). rewrite Hit in Hit0. injection Hit0 as <-.
  apply lookup_lt_Some in Hi as Hlt. pose proof (delta_frame None _ _ _ _ Hd) as Hf.
  eapply (c_intro _ _ _ _ _ _ _ _ (delete i H)); [done| |exact Hre'|by apply (handles_delete _ _ h)|exact Hf|rewrite length_delete by eauto; lia|apply Forall_delete, Hci|].
  - cbn. rewrite Hi. cbn. unfold finish. by rewrite (reset_ok _ _ _ _ _ Hg eq_refl E).
  - refine (the_item i h p it (λ h p it, _) Hi Hp Hit _). split; [done|]. split; [done|]. split; [done|]. split; [exact Hevs|]. unfold last_of. split.
    + intros Hnone. assert (MMCommon.set p (handles H p - 1) (handles H) p = handles H p - 1) as Esp by (unfold MMCommon.set; by rewrite decide_True). split.
      * destruct (decide (handles H p = 1)) as [|Hne]; [done|]. destruct (re_live _ _ _ _ _ Hre' p) as [x Hx]; [rewrite Esp; lia|]. congruence.
      * intros HC. destruct (co_mapped (re_core _ _ _ _ _ Hre') _ _ HC) as (x & Hx & _). congruence.
    + intros [Hone HC]. destruct (items_ s' !! p) as [it'|] eqn:Hit'; [|done]. destruct (frame_key Hf Hit') as (it1 & Hit1 & Ek & _). rewrite Hit in Hit1. injection Hit1 as <-.
      destruct HC. rewrite <- Ek. apply (re_used _ _ _ _ _ Hre' p it' Hit'). unfold MMCommon.set. rewrite decide_True by done. lia.
Qed.
Lemma Item_new_inv key size ct et : match Item_new key size ct et with
  | Ok _ => isKeyValid key = true ∧ size ≤ kMaxValSize
  | _ => isKeyValid key = false ∨ kMaxValSize < size end.
Proof.
  unfold Item_new, KAllocation_new, throwIfKeyInvalid. destruct (Z.ltb_spec kMaxValSize size); cbn; [by right|]. destruct (isKeyValid key); cbn; [done|by left].
Qed.
(** The invariant when the clients hold what they held. *)
Lemma inv_same s' M' X' L' evs : rest s' M' X' L' (handles H) → frame None 0 evs s s' → client_inv s' H M' X' L'.
Proof.
  intros Hre' Hf. split; [done|rewrite (f_count _ _ _ _ _ Hf), (ci_count _ _ _ _ _ Hci); lia|apply Hci|]. intros q itq Hq.
  destruct (f_body _ _ _ _ _ Hf q itq ltac:(done) Hq) as (itq0 & Hq0 & Hbq). exact (typed_body _ _ Hbq (ci_typed _ _ _ _ _ Hci q itq0 Hq0)).
Qed.
(** Without a limit, nothing to evict means that every item of the class is held. *)
Lemma held_of_victim pid cid : victim 0 (handles H) (X (pid, cid)) = None ↔ all_held s H pid cid.
Proof.
  pose proof (ci_rest _ _ _ _ _ Hci) as Hre. pose proof (re_core _ _ _ _ _ Hre) as Hco. unfold victim, all_held. cbn [within Z.eqb]. rewrite list_find_None, Forall_forall. split.
  - intros Hv p it Hp Hk Hn. destruct (re_item Hre p it Hp) as [k HL]. rewrite (al_info_law _ _ _ _ (co_alloc _ _ _ _ _ _ Hco) HL) in Hk. injection Hk as ->.
    apply (Hv p); [|done].
    apply (re_both _ _ _ _ _ Hre p it _ Hp HL). by apply (re_used _ _ _ _ _ Hre).
  - intros Hall p Hp. destruct (co_queued Hco p _ Hp) as (it & Hit & HL). apply (Hall p it Hit). by apply (al_info_law _ _ _ _ (co_alloc _ _ _ _ _ _ Hco)).
Qed.
Lemma step_allocate pid key size ttl ct now : 0 ≤ size → required key size < 2 ^ 32 → c_result (CAllocate pid key size ttl ct now) s H C.
Proof.
  intros Hs Hr. pose proof (ci_rest _ _ _ _ _ Hci) as Hre. set (ct' := if ct =? 0 then u32 now else ct). set (et := if ttl =? 0 then 0 else u32 (ct' + ttl)).
  pose proof (op_allocate _ _ _ _ _ 0 pid key size ct' et Hre Hs Hr) as Ho. pose proof (Item_new_inv key size ct' et) as Hnew.
  assert (∀ r s', allocateInternal 0 pid key size ct' et s = Ok (r, s') → cstep (CAllocate pid key size ttl ct now) (s, H) =
    Ok (match r with inl (Some h) => (RHandle h, (s', keep h H)) | inl None => (RSearching, (s', H)) | inr e => (RExn e, (s', H)) end)) as Ecs.
  { intros r s' E. cbn [cstep]. unfold finish, allocate. fold ct'. fold et. rewrite E. by destruct r as [[]|]. }
  unfold c_result, c_spec. fold ct'. fold et. destruct (al_classId pid (required key size) (allocator_ s)) as [cid|e|] eqn:Ecl; [| |done].
  - destruct Ho as (r & s' & E & M' & X' & L' & n' & evs & Hre' & Hroom & Hcase). specialize (Ecs r s' E).
    assert (room_made s H C M' evs) as Hrm. { destruct Hroom as [?|(j & p & it & _ & ? & ? & ? & ? & ?)]; [by left|right; by exists p, it]. }
    destruct r as [[h|]|e].
    + destruct Hcase as [(-> & Ht & _ & -> & -> & Hf)|(p & it & -> & Hf & Hn & -> & Hit & Hb & HM & it0 & Ei)].
      * exists (RHandle null_handle), s', H, C, X', L', evs, None, 0. split; [exact Ecs|]. split; [|split; [|done]].
        -- by eapply inv_same.
        -- split; [done|]. split; [done|]. by left.
      * rewrite Ei in Hnew. exists (RHandle (mkItemHandle (HandleTo p) true false)), s', (H ++ [mkItemHandle (HandleTo p) true false]), M', X', L', evs, (Some p), 1.
        split; [exact Ecs|]. split; [|split; [|split; [done|by intros q [= <-]]]].
        -- split; [|rewrite (f_count _ _ _ _ _ Hf), (ci_count _ _ _ _ _ Hci), length_app; cbn; lia|by eapply is_handle_snoc|].
           ++ eapply rest_ext; [done|]. intros q. rewrite (handles_snoc _ _ p) by done. by rewrite Hn.
           ++ intros q itq Hq. destruct (decide (q = p)) as [->|Hne]; [rewrite Hit in Hq; injection Hq as <-; exact (typed_new _ _ _ _ _ Hs Hb (proj1 Hnew) (proj2 Hnew))|].
              destruct (f_body _ _ _ _ _ Hf q itq ltac:(congruence) Hq) as (itq0 & Hq0 & Hbq). exact (typed_body _ _ Hbq (ci_typed _ _ _ _ _ Hci q itq0 Hq0)).
        -- split; [done|]. split; [done|]. do 3 right. exists p, it. by split_and!.
    + destruct Hcase as (Ht & Hv & -> & -> & Hf). exists RSearching, s', H, C, X', L', evs, None, 0. split; [exact Ecs|]. split; [|split; [|done]].
      * by eapply inv_same.
      * split; [done|]. split; [done|]. right. left. split; [done|]. split; [done|]. split; [done|]. by apply held_of_victim.
    + destruct Hcase as (-> & Ei & -> & Hf). rewrite Ei in Hnew. exists (RExn InvalidArgument), s', H, M', X', L', evs, None, 0. split; [exact Ecs|]. split; [|split; [|done]].
      * by eapply inv_same.
      * split; [done|]. split; [done|]. do 2 right. by left.
  - exists (RExn e), s, H, C, X, L, [], None, 0. split; [by apply (Ecs (inr e))|]. split; [done|]. split; [done|]. split; [apply delta_frame, delta_refl|done].
Qed.

Lemma cstep_aux o : cop_ok o H → c_result o s H C.
Proof.
  destruct o as [pid key size ttl ct now|i now|i now|key mode now free|key now|key now|key|i|i|i mode now free|i]; cbn [cop_ok]; intros Hok.
  - destruct Hok. by apply step_allocate.
  - by apply c_insert_step.
  - by apply step_insertOrReplace.
  - eapply (step_looked_up _ key now (find key mode now free)); [by apply op_find, Hci|done|done].
  - eapply (step_looked_up _ key now (peek key now)); [by apply peek_looked_up|done|done].
  - apply step_couldExist.
  - apply step_remove.
  - by apply step_removeHandle.
  - by apply step_clone.
  - by apply step_markUseful.
  - by apply step_drop.
Qed.
(** Only [allocate] goes on searching. *)
Lemma found_returns C0 key now ret : found s H C0 key now ret → ret ≠ RSearching.
Proof. unfold found. destruct (C0 !! key); [intros (it & _ & _ & ->)|by intros ->]. by repeat case_match. Qed.
Lemma searching_inv o ret s' H' C' evs : cop_ok o H → c_spec o s H C ret s' H' C' evs → ret = RSearching →
  evictionSearchTries (config_ s) = 0 ∧ ∃ pid key size ttl ct now cid, o = CAllocate pid key size ttl ct now ∧
    al_classId pid (required key size) (allocator_ s) = Ok cid ∧ all_held s H pid cid.
Proof.
  intros Hok Hs ->. assert (∀ i, is_Some (H !! i) → ∃ h p it, H !! i = Some h ∧ points_to p h ∧ items_ s !! p = Some it) as Hheld.
  { intros i [h Hi]. destruct (held_item i h Hi) as (p & it & ? & _ & ? & _). by exists h, p, it. }
  destruct o as [pid key size ttl ct now|i now|i now|key mode now free|key now|key now|key|i|i|i mode now free|i]; cbn [c_spec cop_ok] in *;
    try (destruct (Hheld i Hok) as (h & p & it & Hi & Hp & Hit); specialize (Hs h p)).
  - destruct (al_classId _ _ _) as [cid|e|] eqn:Ecl; [|by destruct Hs|done]. destruct Hs as (_ & _ & [[? _]|[(_ & _ & Ht & Hall)|[[? _]|(p & it & ? & _)]]]); try done.
    split; [done|]. by exists pid, key, size, ttl, ct, now, cid.
  - destruct (Hs it Hi Hp Hit) as (_ & Hs'). case_decide; by destruct Hs'.
  - destruct (Hs it Hi Hp Hit) as (_ & Hs'). repeat case_match; by destruct Hs'.
  - by destruct (found_returns _ _ _ _ (proj1 Hs)).
  - by destruct (found_returns _ _ _ _ (proj1 Hs)).
  - destruct Hs as ((r & Hf & Er) & _). pose proof (found_returns _ _ _ _ Hf). by destruct r.
  - destruct Hs as (_ & Hs). repeat case_match; by destruct Hs.
  - destruct (Hs it Hi Hp Hit) as (_ & _ & Hs'). case_decide; by destruct Hs'.
  - destruct (Hs Hi Hp) as (_ & _ & _ & Hs'). by case_decide.
  - by destruct Hs.
  - by destruct (Hs it Hi Hp Hit).
Qed.
End step.

(** ** Reachable states *)
(** A new cache: no items, empty containers, and one container per class of every
    pool. *)
Record cache_start s : Prop := {
  st_items : items_ s = ∅;
  st_count : handleCount_ s = 0;
  st_tries : 0 ≤ evictionSearchTries (config_ s) < 2 ^ 32;
  st_alloc : al_rep (allocator_ s) ∅;
  st_access : ac_rep (pc s) (accessContainer_ s) ∅ ∅;
  st_mm k c : mmContainers_ s !! k = Some c → mm_rep (pc s) ∅ c [];
  st_known pid size cid : al_classId pid size (allocator_ s) = Ok cid → is_Some (mmContainers_ s !! (pid, cid));
}.
Definition cache_rel (c c' : Cache * list ItemHandle) : Prop := ∃ o ret, cop_ok o c.2 ∧ cstep o c = Ok (ret, c').
Definition cache_reachable s H : Prop := ∃ s0, cache_start s0 ∧ rtc cache_rel (s0, []) (s, H).

Lemma start_inv s : cache_start s → client_inv s [] ∅ (λ _, []) ∅.
Proof.
  intros [S1 S2 S3 S4 S5 S6 S7]. split; [|done|constructor|by rewrite S1].
  assert (hstore false ∅ = ∅) as Eh by (apply map_eq; intros p; by rewrite lookup_hstore, !lookup_empty).
  assert (∀ k, class_view ∅ k ∅ = ∅) as Em by (intros k; apply map_eq; intros p; unfold class_view; by rewrite lookup_mstore, !lookup_empty).
  split; [split|..]; rewrite ?S1, ?Eh; try done.
  - intros p. rewrite !lookup_empty. done.
  - intros k. rewrite Em. destruct (mmContainers_ s !! k) as [c|] eqn:E; [by eapply S6|done].
Qed.
Lemma cache_reachable_inv s H : cache_reachable s H → ∃ X L, client_inv s H (contents s) X L.
Proof.
  intros (s0 & Hs0 & Hr). assert (∃ C X L, client_inv s H C X L) as (C & X & L & Hci).
  { refine (rtc_ind_r (λ c, ∃ C X L, client_inv c.1 c.2 C X L) (s0, []) _ _ (s, H) Hr).
    - exists ∅, (λ _, []), ∅. by apply start_inv.
    - intros [s2 H2] [s3 H3] _ (o & ret & Hok & E) (C & X & L & Hci). cbn [fst snd] in *.
      destruct (cstep_aux Hci o Hok) as (ret' & s' & H' & C' & X' & L' & evs & new & d & E' & Hci' & _). rewrite E in E'. injection E' as <- <- <-. by exists C', X', L'. }
  exists X, L. by rewrite (contents_core _ _ _ _ _ _ (re_core _ _ _ _ _ (ci_rest _ _ _ _ _ Hci))).
Qed.

(** ** Theorems *)
(** C2: the cache is safe for its clients.  After any sequence of calls from a new
    cache, over any access container, MM containers and memory allocator that
    meet their interfaces: every handle is to a live item; [handleCount_] is
    the number of handles; no item is lost (one that nobody holds is in the
    cache under its key).  Every further call of a client goes without failed
    debug check and without touching memory that was freed, an item that stays
    held across it keeps its memory, key, size and times, and the call returns,
    with one exception: without a limit ([evictionSearchTries] is zero)
    [allocate] goes on searching when every item of the class it needs is held. *)
Theorem cache_reachable_safe s H o : cache_reachable s H → cop_ok o H →
  handleCount_ s = Z.of_nat (length H) ∧
  (∀ h, h ∈ H → ∃ p it, points_to p h ∧ items_ s !! p = Some it) ∧
  (∀ p it, items_ s !! p = Some it → handles H p = 0 → contents s !! it_key it = Some p) ∧
  ∃ ret s' H', cstep o (s, H) = Ok (ret, (s', H')) ∧
    (∀ p it, items_ s !! p = Some it → 0 < handles H p → 0 < handles H' p → ∃ it', items_ s' !! p = Some it' ∧ body it' = body it) ∧
    (ret = RSearching → evictionSearchTries (config_ s) = 0 ∧ ∃ pid key size ttl ct now cid, o = CAllocate pid key size ttl ct now ∧
       al_classId pid (required key size) (allocator_ s) = Ok cid ∧ all_held s H pid cid).
Proof.
  intros (X & L & Hci)%cache_reachable_inv Hok. split; [apply Hci|]. split; [|split].
  - intros h [i Hi]%list_elem_of_lookup. destruct (held_item Hci i h Hi) as (p & it & ? & _ & ? & _). by exists p, it.
  - intros p it Hit Hn. by apply (re_used _ _ _ _ _ (ci_rest _ _ _ _ _ Hci) p it).
  - destruct (cstep_aux Hci o Hok) as (ret & s' & H' & C' & X' & L' & evs & new & d & E & Hci' & Hs & Hf & Hnew). exists ret, s', H'. split; [done|].
    split; [|by apply (searching_inv Hci o ret s' H' C' evs)]. intros p it Hit Hp Hp'. destruct (re_live _ _ _ _ _ (ci_rest _ _ _ _ _ Hci') p) as [it' Hit']; [lia|]. exists it'. split; [done|].
    destruct (f_body _ _ _ _ _ Hf p it') as (it0 & Hit0 & Hb); [intros <-; specialize (Hnew p eq_refl); lia|done|]. rewrite Hit in Hit0. by injection Hit0 as <-.
Qed.
(** C1: the cache is a map from keys to items with eviction.  In every reachable
    state a call of a client returns what [c_spec] says of the contents: [find]
    and [peek] the item under the key unless it is expired, [insert] succeeds
    exactly when the key is free, [insertOrReplace] hands out the old item,
    [remove] takes the key out, [allocate] takes out at most one item and only
    one that nobody holds, and the memory of an item goes back when its last
    handle is dropped and it is not in the cache.  Without a limit
    ([evictionSearchTries] is zero) [allocate] does not return while every item
    of the class it needs is held, and has changed nothing then; every other call
    returns.  The calls of the user's callbacks are the ones that [c_spec] lists:
    for the item that is evicted, for the item that [remove] takes out while
    nobody holds it, and for the item whose last handle is dropped after it left
    the cache, unless that handle is nascent; no others. *)
Theorem cache_refines_map s H o : cache_reachable s H → cop_ok o H →
  ∃ ret s' H' evs, cstep o (s, H) = Ok (ret, (s', H')) ∧ c_spec o s H (contents s) ret s' H' (contents s') evs ∧
    events s' = events s ++ evs ∧ cache_reachable s' H'.
Proof.
  intros Hr Hok. pose proof Hr as (X & L & Hci)%cache_reachable_inv.
  destruct (cstep_aux Hci o Hok) as (ret & s' & H' & C' & X' & L' & evs & new & d & E & Hci' & Hs & Hf & _). exists ret, s', H', evs.
  rewrite (contents_core _ _ _ _ _ _ (re_core _ _ _ _ _ (ci_rest _ _ _ _ _ Hci'))). split; [done|]. split; [done|]. split; [apply Hf|].
  destruct Hr as (s0 & Hs0 & Hr). exists s0. split; [done|]. eapply rtc_r; [done|]. by exists o, ret.
Qed.
(** C5: the words of the items tell the truth.  In every reachable state an item
    has a key of 1 to 255 bytes, a size word that holds the length of the key and
    a value size that fits its 24 bits, and a 32-bit reference-count word: its
    count is the number of handles the clients have, the accessible bit says
    that the item is found under its key, the linked bit says the same, and it
    is neither exclusive nor drained. *)
Theorem items_typed s H p it : cache_reachable s H → items_ s !! p = Some it →
  typed it ∧ fits 32 (it_ref it) ∧ getAccessRef (it_ref it) = handles H p ∧
  isAccessible (it_ref it) = bool_decide (contents s !! it_key it = Some p) ∧
  isInMMContainer (it_ref it) = isAccessible (it_ref it) ∧
  isMarkedForEviction (it_ref it) = false ∧ isMoving (it_ref it) = false ∧ isDrained (it_ref it) = false.
Proof.
  intros (X & L & Hci)%cache_reachable_inv Hp. pose proof (ci_rest _ _ _ _ _ Hci) as Hre. pose proof (re_core _ _ _ _ _ Hre) as Hco.
  destruct (re_item Hre p it Hp) as [k Hk]. pose proof (re_both _ _ _ _ _ Hre p it k Hp Hk) as Hb. destruct (co_item _ _ _ _ _ _ Hco p it Hp) as ((Hw & _) & Hn & Hx).
  destruct (observers_decode (it_ref it)) as (E1 & E2 & E3 & E4 & E5 & _). rewrite E1, E2, E3, E4, E5, Hx, Hn, (co_acc Hco p it Hp), (co_linked Hco p it k Hp Hk), (drained_of Hco p it k Hp Hk).
  split; [by eapply ci_typed|]. split; [done|]. split; [done|]. split; [done|]. split; [by apply bool_decide_ext|]. split; [done|]. split; [done|].
  apply bool_decide_eq_false_2. intros (Hn0 & HX & HM & _). by apply HM, (re_used _ _ _ _ _ Hre p it Hp).
Qed.
(** C4: eviction takes the first item in the order of its MM container that nobody
    holds, looking at the first [evictionSearchTries] items, or at all of them
    when that is zero.  [findEviction] returns its memory, unlinked from the access
    container and the MM container and not held, after the callbacks for it; the
    contents lose its key only.  When all of those items are held, nothing changes:
    it returns nothing, or is still searching if there is no limit. *)
Theorem findEviction_takes_first_idle s H spin pid cid c : cache_reachable s H → mmContainers_ s !! (pid, cid) = Some c →
  ∃ xs, mm_rep (pc s) (mm_view (pid, cid) s) c xs ∧
  match victim (evictionSearchTries (config_ s)) (handles H) xs with
  | Some (_, p) => ∃ it s' it', items_ s !! p = Some it ∧ handles H p = 0 ∧ contents s !! it_key it = Some p ∧
      findEviction spin pid cid s = Ok (inl (Evicted p), s') ∧ items_ s' !! p = Some it' ∧ isDrained (it_ref it') = true ∧
      events s' = events s ++ release_events (config_ s) kEviction false p (it_key it) ∧
      contents s' = delete (it_key it) (contents s)
  | None => findEviction spin pid cid s = Ok (inl (if evictionSearchTries (config_ s) =? 0 then Searching else NothingFound), s)
  end.
Proof.
  intros (X & L & Hci)%cache_reachable_inv Hc. pose proof (ci_rest _ _ _ _ _ Hci) as Hre. pose proof (re_core _ _ _ _ _ Hre) as Hco.
  exists (X (pid, cid)). split. { pose proof (co_mm _ _ _ _ _ _ Hco (pid, cid)) as Hm. rewrite Hc in Hm. by rewrite (co_view Hco). }
  pose proof (op_findEviction _ _ _ _ _ spin pid cid c Hre Hc) as Ho. destruct (victim _ _ _) as [[j p]|]; [|done].
  destruct Ho as (it & xs' & s' & Hit & Hn & HM & Hk & E & Hperm & Hco' & Hd). destruct (next_item Hco Hit Hco' Hd) as (it' & Hit' & Ek & _).
  exists it, s', it'. do 4 (split; [done|]). split; [done|]. split.
  { rewrite (drained_of Hco' p it' (pid, cid) Hit' Hk). apply bool_decide_eq_true_2. split; [done|]. pose proof (co_nodup Hco (pid, cid)) as Hnd. rewrite Hperm in Hnd.
    apply NoDup_cons in Hnd as [Hout _]. rewrite Ek, lookup_delete_eq. unfold xset. by rewrite decide_True. }
  split; [apply Hd|]. by rewrite (contents_core _ _ _ _ _ _ Hco').
Qed.
End spec.
