(* ===== verification/CacheSystem.v ===== *)
(** The cache put together: [CacheAllocator] over the hash table, the LRU and the
    memory allocator, as its constructor and [addPool] build it.  What a client
    sees of it ([CacheSpec]) holds from there on; the runs at the end of the file
    show it at work. *)
From Stdlib Require Import Sorted.
From stdpp Require Import strings.
From S2P Require Import Prelude Refcount SlabAllocator PtrCompressor DList MMCommon ChainedHashTable HashSpec.
From S2P Require Import AllocationClass MemoryPool PoolRun PoolSpec PoolManager MemoryAllocator AllocatorSpec.
From S2P Require Import CacheItem CacheTypes CacheAllocator CacheCore CacheRun CacheSpec CacheAccess CacheMM CacheMemory.
From S2P Require MMLru.
Import Manager Allocator.

Section system.
Context (hasher : list Z → Z).
#[local] Instance sys_access : AccessContainer := hash_AccessContainer hasher.
#[local] Instance sys_access_laws : AccessLaws := hash_AccessLaws hasher.
#[local] Instance sys_mm : MMType := lru_MMType.
#[local] Instance sys_mm_laws : MMLaws := lru_MMLaws.
#[local] Instance sys_mem : MemAllocator := mem_MemAllocator.
#[local] Instance sys_mem_laws : AllocatorLaws := mem_AllocatorLaws.

(** [CacheAllocatorConfig::validate], for one memory tier of ratio 1; tail hits
    are not tracked. *)
Definition validate (config : CacheConfig) (size : Z) : result unit :=
  _ ← throw_if (getMaxAddressableSize <? size) InvalidArgument;
  _ ← throw_if (removeCb config && itemDestructor config) InvalidArgument;
  throw_if (size <? 1) InvalidArgument.
(** The constructor, without [NvmCache] and workers; [memStart], [hdrs] and
    [hooks] are the memory it got. *)
Definition CacheAllocator_new (config : CacheConfig) (allocConfig : Allocator.Config) (memStart memSize : Z) (hdrs : Z → SlabHeader) (hooks : gmap Z Z)
    (accessConfig chainedItemAccessConfig : ChainedHashTable.Config) : result Cache :=
  _ ← validate config memSize;
  '(a, m) ← MemoryAllocator_new allocConfig memStart memSize false hdrs hooks;
  ac ← @Container_new (raw_PtrCompressor (m_sa m)) accessConfig;
  cac ← @Container_new (raw_PtrCompressor (m_sa m)) chainedItemAccessConfig;
  Ok (mkCache config ∅ ∅ ac cac (a, m) 0 0 []).
Definition createMMContainers (pid : Z) (config : MMLru.Config) (now : Z) (s : Cache) : result Cache :=
  pool ← getPool pid (allocator_ s).1;
  Ok (foldl (λ s cid, with_mm (pid, cid) (MMLru.Container_new config now) s) s (seqZ 0 (getNumClassId pool))).
(** [addPool]; the strategies of the rebalancing workers are left out. *)
Definition cache_addPool (name : string) (size : Z) (allocSizes : list Z) (config : MMLru.Config) (ensureProvisionable : bool) (now : Z) (s : Cache)
    : result (Z * Cache) :=
  '(pid, a) ← addPool name size allocSizes ensureProvisionable (allocator_ s).1 (allocator_ s).2;
  s ← createMMContainers pid config now (with_alloc (a, (allocator_ s).2) s);
  Ok (pid, s).

(** ** Every new cache is a start *)
Record PoolArgs := mkPoolArgs { pa_name : string; pa_size : Z; pa_sizes : list Z; pa_config : MMLru.Config; pa_ensure : bool; pa_now : Z }.
Fixpoint add_pools (pools : list PoolArgs) (s : Cache) : result Cache :=
  match pools with
  | [] => Ok s
  | p :: pools =>
      '(_, s) ← cache_addPool (pa_name p) (pa_size p) (pa_sizes p) (pa_config p) (pa_ensure p) (pa_now p) s;
      add_pools pools s
  end.
(** A pool with a size of 64 bits, a valid configuration of its LRUs and at most 127
    allocation classes; its sizes, by default those of the allocator, are the
    elements of a set in order.  [addPool] accepts 128 classes as well:
    [class_count_wraps] says what becomes of such a pool. *)
Definition pool_sizes (allocConfig : Allocator.Config) (p : PoolArgs) : list Z := if bool_decide (pa_sizes p = []) then allocSizes allocConfig else pa_sizes p.
Definition pool_args_ok (allocConfig : Allocator.Config) (p : PoolArgs) : Prop := fits 64 (pa_size p) ∧ StronglySorted Z.lt (pool_sizes allocConfig p) ∧
  (length (pool_sizes allocConfig p) ≤ 127)%nat ∧ MMLru.cfg_ok (pa_config p).
Definition access_config_ok (c : ChainedHashTable.Config) : Prop := 0 ≤ bucketsPower_ c ∧ ChainedHashTable.Config_new (bucketsPower_ c) (locksPower_ c) (hasherMagicId c) = Ok c.

(** The invariant while pools are added. *)
Record building (allocConfig : Allocator.Config) (s : Cache) (st : MSys) : Prop := {
  b_config : config_ (ms_a st) = allocConfig;
  b_wf : msys_wf st;
  b_alloc : allocator_ s = (ms_a st, ms_m st);
  b_free p k : ¬ live_at st p k;
  b_items : items_ s = ∅;
  b_count : handleCount_ s = 0;
  b_tries : 0 ≤ evictionSearchTries (CacheAllocator.config_ s) < 2 ^ 32;
  b_access : @ht_wf (raw_PtrCompressor (m_sa (ms_m st))) hasher (accessContainer_ s) ∅ ∅;
  b_mm k c : mmContainers_ s !! k = Some c → ∃ config now, c = MMLru.Container_new config now ∧ MMLru.cfg_ok config;
  b_known id pool i : getPoolById id (mgr_of st) = Ok pool → 0 ≤ i < getNumClassId pool → is_Some (mmContainers_ s !! (id, i));
}.
Lemma class_range ps size cid : pool_wf ps → getAllocationClassId size (p_pool ps) = Ok cid → 0 ≤ cid < getNumClassId (p_pool ps).
Proof.
  intros (n & Hinv & _) E. destruct (pool_inv_nonempty _ _ _ _ _ Hinv) as (_ & H2 & H3). unfold getAllocationClassId in E. unfold getNumClassId.
  destruct (last (acSizes_ (p_pool ps))); cbn [deref mbind result_bind] in E; [|done]. destruct (_ || _); cbn [throw_if mbind result_bind] in E; [done|].
  destruct (lower_bound _ _) as [idx| |]; cbn [mbind result_bind] in E; [|done|done]. destruct (negb _); cbn [xdcheck mbind result_bind] in E; [|done].
  destruct (Nat.ltb_spec idx (length (ac_ (p_pool ps)))); cbn [xdcheck mbind result_bind] in E; [|done]. injection E as <-. rewrite s8_small by lia. lia.
Qed.
Lemma building_start conf s st : building conf s st → cache_start s.
Proof.
  intros [_ B1 B2 B3 B4 B5 B6 B7 B8 B9]. split; try done.
  - rewrite B2. by apply mem_rep_new.
  - unfold pc. rewrite B2. done.
  - intros k c Hc. destruct (B8 k c Hc) as (config & now & -> & Hok). split; [|done]. cbn. apply MMLru.Container_new_wf; [|done]. split; [intros a t r Hx|intros a [x Hx]]; unfold payload in Hx; by rewrite lookup_empty in Hx.
  - intros pid size cid Hcl. rewrite B2 in Hcl. cbn in Hcl. unfold ma_getAllocationClassId in Hcl. fold (mgr_of st) in Hcl.
    destruct (getPoolById_aux B1 pid) as [(ps & _ & _ & Hw & _ & _ & E)|[E _]]; rewrite E in Hcl; [|done]. apply (B9 pid (p_pool ps)); [done|]. by eapply class_range.
Qed.
Lemma seqZ_insert_known pid c n : ∀ (s : Cache) k,
  let s' := foldl (λ s cid, with_mm (pid, cid) c s) s (seqZ 0 n) in
  mmContainers_ s' !! k = (if decide (k.1 = pid ∧ 0 ≤ k.2 < n) then Some c else mmContainers_ s !! k) ∧
  CacheAllocator.config_ s' = CacheAllocator.config_ s ∧ items_ s' = items_ s ∧ accessContainer_ s' = accessContainer_ s ∧ allocator_ s' = allocator_ s ∧ handleCount_ s' = handleCount_ s.
Proof.
  assert (∀ cids (s : Cache) k, let s' := foldl (λ s cid, with_mm (pid, cid) c s) s cids in
    mmContainers_ s' !! k = (if decide (k.1 = pid ∧ k.2 ∈ cids) then Some c else mmContainers_ s !! k) ∧
    CacheAllocator.config_ s' = CacheAllocator.config_ s ∧ items_ s' = items_ s ∧ accessContainer_ s' = accessContainer_ s ∧ allocator_ s' = allocator_ s ∧ handleCount_ s' = handleCount_ s) as Hf.
  { induction cids as [|cid cids IH]; intros s k; cbn [foldl].
    - rewrite decide_False; [done|]. intros [_ ?%elem_of_nil]. done.
    - destruct (IH (with_mm (pid, cid) c s) k) as (E & Hrest). split; [|exact Hrest]. rewrite E. cbn [mmContainers_ with_mm]. destruct k as [p i]. cbn [fst snd].
      destruct (decide (p = pid ∧ i ∈ cids)) as [[-> Hi]|Hn]; [by rewrite decide_True by (split; [done|by right])|].
      destruct (decide ((p, i) = (pid, cid))) as [[= -> ->]|Hne]; [rewrite lookup_insert_eq, decide_True by (split; [done|by left]); done|].
      rewrite lookup_insert_ne, decide_False by (intros; set_solver). done. }
  intros s k. destruct (Hf (seqZ 0 n) s k) as (E & Hrest). split; [|exact Hrest]. rewrite E. apply decide_ext. rewrite elem_of_seqZ. naive_solver lia.
Qed.
Lemma addPool_inv name size sizes ensure a m pid a' : addPool name size sizes ensure a m = Ok (pid, a') →
  ∃ pool, pid = nextPoolId_ (memoryPoolManager_ a) ∧ pid ≠ Z.of_nat Manager.kMaxPools ∧ let mgr := memoryPoolManager_ a in
    a' = with_mgr (mkMPM (<[Z.to_nat pid := Some pool]> (pools_ mgr)) (<[name := pid]> (poolsByName_ mgr)) (s8 (pid + 1)) (numSlabsToAdvise_ mgr)) a.
Proof.
  unfold addPool, createNewPool. intros E. inv_ok E. simplify_eq. match goal with E : match poolsByName_ _ !! _ with _ => _ end = Ok _ |- _ => inv_ok E end.
  simplify_eq. eexists. split; [done|]. split; [|done].
  match goal with E : throw_if (_ =? Z.of_nat Manager.kMaxPools) _ = Ok _ |- _ => by destruct (Z.eqb_spec (nextPoolId_ (memoryPoolManager_ a)) (Z.of_nat Manager.kMaxPools)) end.
Qed.
Lemma building_add conf s st p pid s' : building conf s st → pool_args_ok conf p →
  cache_addPool (pa_name p) (pa_size p) (pa_sizes p) (pa_config p) (pa_ensure p) (pa_now p) s = Ok (pid, s') → ∃ st', building conf s' st'.
Proof.
  destruct p as [name size sizes config ensure now]. intros [B0 B1 B2 B3 B4 B5 B6 B7 B8 B9] (Hsz & Hsort & Hlen & Hcfg). cbn [pa_name pa_size pa_sizes pa_config pa_ensure pa_now] in *.
  unfold cache_addPool, createMMContainers. rewrite B2. cbn [fst snd].
  destruct (addPool name size sizes ensure (ms_a st) (ms_m st)) as [[pid1 a1]| |] eqn:Ea; [|done|done]. cbn [mbind result_bind allocator_ with_alloc fst].
  destruct (getPool pid1 a1) as [pool| |] eqn:Eg; [|done|done]. cbn [mbind result_bind]. intros E. apply Ok_pair in E as [-> <-].
  destruct (addPool_inv _ _ _ _ _ _ _ _ Ea) as (pool1 & Epid & Hmax & Ea1). fold (mgr_of st) in Epid, Ea1.
  set (st' := mkMSys a1 (ms_m st) (ms_cls st ++ [p_cls (pool_init pool (ms_m st))]) (ms_drift st ++ [p_drift (pool_init pool (ms_m st))])).
  assert (mstep (MAddPool name size sizes ensure) st = Ok (None, st')) as Em by (cbn [mstep]; rewrite Ea; cbn [mbind result_bind]; by rewrite Eg).
  assert (msys_wf st') as Hwf'.
  { destruct (add_pool_step st name size sizes ensure B1) as [(st2 & E2 & Hw)|(e & E2 & _)]; [|rewrite Em in E2; apply Ok_pair in E2 as [_ ->]; done|congruence].
    split; [done|]. unfold the_sizes. by rewrite B0. }
  pose proof (mw_next _ B1) as Hnx. assert (0 ≤ pid < 127) as Hpid by (unfold Manager.kMaxPools in *; lia).
  assert (getPoolById pid (mgr_of st') = Ok pool) as Epool by exact Eg.
  pose proof (λ k, seqZ_insert_known pid (MMLru.Container_new config now) (getNumClassId pool) (with_alloc (a1, ms_m st) s) k) as Hk.
  destruct (Hk (0, 0)) as (_ & E1 & E2 & E3 & E4 & E5). exists st'. split; rewrite ?E1, ?E2, ?E3, ?E4, ?E5; try done.
  - cbn [ms_a st']. by rewrite Ea1.
  - intros p k (id & i & c & -> & Hc & Hp). unfold cls_at in Hc. cbn [ms_cls st'] in Hc. destruct (decide (id < length (ms_cls st))%nat) as [Hlt|Hge].
    + rewrite lookup_app_l in Hc by done. apply (B3 p (Z.of_nat id, Z.of_nat i)). by exists id, i, c.
    + rewrite lookup_app_r in Hc by lia. destruct (id - length (ms_cls st))%nat as [|j]; [|done]. cbn [lookup list_lookup mbind option_bind pool_init p_cls] in Hc.
      apply lookup_replicate in Hc as [-> _]. set_solver.
  - intros k c Hc. destruct (Hk k) as (Ek & _). pose proof (eq_trans (eq_sym Ek) Hc) as Hc1. clear Hc. rename Hc1 into Hc. case_decide; [injection Hc as <-; by eauto|by apply (B8 k c)].
  - intros id pool' i Hg Hi. destruct (Hk (id, i)) as (Ek & _). eapply (eq_ind_r is_Some); [|exact Ek]. cbn [fst snd]. destruct (decide (id = pid)) as [->|Hn].
    { rewrite Epool in Hg. injection Hg as <-. by rewrite decide_True. }
    rewrite decide_False by naive_solver. apply (B9 id pool' i); [|done].
    destruct (getPoolById_aux Hwf' id) as [(ps & Hid & (P1 & _) & _ & _ & _ & Hg')|[Hg' _]]; rewrite Hg in Hg'; [|done]. injection Hg' as ->.
    unfold mgr_of in Hid, P1. cbn [ms_a st'] in Hid, P1. rewrite Ea1 in Hid, P1. cbn in Hid, P1. rewrite s8_small in Hid by lia.
    rewrite list_lookup_insert_ne in P1 by lia. destruct (getPoolById_aux B1 id) as [(ps2 & _ & (P2 & _) & _ & _ & _ & ->)|[_ Hn2]]; [|lia]. congruence.
Qed.
Lemma building_pools pools : ∀ conf s st s', Forall (pool_args_ok conf) pools → building conf s st → add_pools pools s = Ok s' → ∃ st', building conf s' st'.
Proof.
  induction pools as [|p pools IH]; intros conf s st s' Hok Hb; cbn; [intros [= <-]; by exists st|].
  apply Forall_cons in Hok as [Hp Hok]. destruct (cache_addPool _ _ _ _ _ _ s) as [[pid s1]| |] eqn:E; [|done|done]. cbn. intros E1.
  destruct (building_add _ _ _ _ _ _ Hb Hp E) as (st1 & Hb1). by eapply IH.
Qed.

Lemma new_cache_starts_aux config allocConfig memStart memSize hdrs hooks accessConfig chainedConfig pools s0 s :
  memory_ok memStart memSize → access_config_ok accessConfig → fits 32 (evictionSearchTries config) →
  Forall (pool_args_ok allocConfig) pools →
  CacheAllocator_new config allocConfig memStart memSize hdrs hooks accessConfig chainedConfig = Ok s0 →
  add_pools pools s0 = Ok s → cache_start s.
Proof.
  intros Hm [Ha1 Ha2] Ht Hp E Es. assert (∃ st, building allocConfig s0 st) as [st Hb].
  { unfold CacheAllocator_new in E. destruct (validate config memSize) as [[]| |]; [|done|done]. cbn [mbind result_bind] in E. destruct (MemoryAllocator_new _ _ _ _ _ _) as [[a m]| |] eqn:Em; [|done|done]. cbn [mbind result_bind] in E.
    destruct (@Container_new _ accessConfig) as [ac| |] eqn:Eac; [|done|done]. cbn [mbind result_bind] in E.
    destruct (@Container_new _ chainedConfig) as [cac| |]; [|done|done]. cbn [mbind result_bind] in E. injection E as <-.
    exists (mkMSys a m [] []). split; try done.
    - unfold MemoryAllocator_new in Em. inv_ok Em. by simplify_eq.
    - by eapply m_init_wf.
    - intros p k (id & i & c & _ & Hc & _). done.
    - by apply ht_reachable_wf, (reach_new hasher accessConfig).
    - intros id pool i Hg. unfold MemoryAllocator_new in Em. inv_ok Em. simplify_eq. unfold getPoolById, mgr_of in Hg. cbn in Hg.
      destruct (Z.ltb_spec id 0), (Z.leb_spec 0 id); cbn in Hg; try done; lia. }
  destruct (building_pools _ _ _ _ _ Hp Hb Es) as (st' & Hb'). by eapply building_start.
Qed.
(** C3: a cache that is built from the real components, the chained hash table, the
    LRU and the memory allocator, with any pools, is a start of the safety and
    refinement theorems: its containers meet their interfaces.  The hash function,
    the memory (a range of addresses of 64 bits, of at most the size that
    compressed pointers address), the limit of the eviction search (zero or not)
    and the number of pools are any; the hash table's configuration is one its
    constructor makes with a power that is not negative, and every pool has
    a valid LRU configuration and at most 127 allocation classes, given or by
    default those of the allocator. *)
Theorem new_cache_starts config allocConfig memStart memSize hdrs hooks accessConfig chainedConfig pools s0 s :
  memory_ok memStart memSize → access_config_ok accessConfig → fits 32 (evictionSearchTries config) →
  Forall (pool_args_ok allocConfig) pools →
  CacheAllocator_new config allocConfig memStart memSize hdrs hooks accessConfig chainedConfig = Ok s0 →
  add_pools pools s0 = Ok s → cache_start s.
Proof. apply new_cache_starts_aux. Qed.
End system.

(** ** Runs *)
Section runs.
Context {accessC : AccessContainer} {mmC : MMType} {memA : MemAllocator}.
Definition cop_okb (o : cop) (H : list ItemHandle) : bool :=
  match o with
  | CAllocate _ key size _ _ _ => (0 <=? size) && (required key size <? 2 ^ 32)
  | CInsert i _ | CInsertOrReplace i _ | CRemoveHandle i | CClone i | CMarkUseful i _ _ _ | CDrop i => bool_decide (is_Some (H !! i))
  | _ => true
  end.
Lemma cop_okb_sound o H : cop_okb o H = true → cop_ok o H.
Proof.
  destruct o; cbn -[Z.pow]; try done; try (by intros ?%bool_decide_eq_true). by intros [?%Z.leb_le ?%Z.ltb_lt]%andb_prop.
Qed.
(** The results of a sequence of calls, and the state after it. *)
Fixpoint c_run (ops : list cop) (c : Cache * list ItemHandle) : option (list cret * (Cache * list ItemHandle)) :=
  match ops with
  | [] => Some ([], c)
  | o :: ops =>
      if cop_okb o c.2 then
        match cstep o c with Ok (ret, c) => '(rets, c) ← c_run ops c; Some (ret :: rets, c) | _ => None end
      else None
  end.
Lemma c_run_sound ops : ∀ c rets c', c_run ops c = Some (rets, c') → rtc cache_rel c c'.
Proof.
  induction ops as [|o ops IH]; intros c rets c'; cbn; [by intros [= <- <-]|]. destruct (cop_okb o c.2) eqn:Eo; [|done].
  destruct (cstep o c) as [[ret c1]| |] eqn:E; [|done|done]. destruct (c_run ops c1) as [[rets1 c2]|] eqn:Er; [|done]. cbn. intros [= _ <-].
  eapply rtc_l; [|by eapply IH]. exists o, ret. split; [by apply cop_okb_sound|done].
Qed.
End runs.

(** Two pools, the second with the default sizes; a limit of 50, and none. *)
Definition ex_config : CacheConfig := mkCacheConfig 50 false true false.
Definition ex_unlimited : CacheConfig := mkCacheConfig 0 false true false.
Definition ex_pools : list PoolArgs := [mkPoolArgs "p" kSize [1048576] MMLru.cfg_example false 5; mkPoolArgs "q" (2 * kSize) [] MMLru.cfg_example true 5].
#[local] Instance ex_access : AccessContainer := sys_access hex_hash.
#[local] Instance ex_access_laws : AccessLaws := sys_access_laws hex_hash.
#[local] Existing Instance sys_mm.
#[local] Existing Instance sys_mm_laws.
#[local] Existing Instance sys_mem.
#[local] Existing Instance sys_mem_laws.
Definition or_else {A} (r : result A) (d : A) : A := match r with Ok a => a | _ => d end.
Definition is_ok {A} (r : result A) : bool := match r with Ok _ => true | _ => false end.
Lemma is_ok_or_else {A} (r : result A) d : is_ok r = true → r = Ok (or_else r d).
Proof. by destruct r. Qed.
Definition ex_empty (config : CacheConfig) : Cache := or_else (CacheAllocator_new hex_hash config aex_config kSize (5 * kSize) aex_hdrs ∅ hex_config hex_config)
  (mkCache config ∅ ∅ hex_new hex_new (ms_a aex_init, ms_m aex_init) 0 0 []).
Definition ex_new (config : CacheConfig) : Cache := or_else (add_pools hex_hash ex_pools (ex_empty config)) (ex_empty config).
Definition put (k now : Z) : list cop := [CAllocate 0 [k] 100 0 0 now; CInsert 0 now; CDrop 0].
Definition ex_fill : list cop := put 1 10 ++ put 2 11 ++ put 3 12 ++ put 4 13.
Definition ex_run (config : CacheConfig) (ops : list cop) : list cret * (Cache * list ItemHandle) :=
  default ([], (ex_new config, [])) (c_run ops (ex_new config, [])).
Definition ex_after : list cop → list cret * (Cache * list ItemHandle) := ex_run ex_config.

Lemma ex_pools_ok : Forall (pool_args_ok aex_config) ex_pools.
Proof.
  repeat apply List.Forall_cons; [..|apply List.Forall_nil]; (split; [by vm_compute|]); (split; [repeat constructor|]); (split; [cbn; lia|apply MMLru.cfg_example_ok]).
Qed.
Definition ex_built (config : CacheConfig) : Prop := fits 32 (evictionSearchTries config) ∧
  CacheAllocator_new hex_hash config aex_config kSize (5 * kSize) aex_hdrs ∅ hex_config hex_config = Ok (ex_empty config) ∧
  add_pools hex_hash ex_pools (ex_empty config) = Ok (ex_new config).
Lemma ex_parts : memory_ok kSize (5 * kSize) ∧ access_config_ok hex_config.
Proof. split; by vm_compute. Qed.
Lemma ex_limited_built : ex_built ex_config.
Proof. split; [by vm_compute|]. split; apply is_ok_or_else; by vm_compute. Qed.
Lemma ex_unlimited_built : ex_built ex_unlimited.
Proof. split; [by vm_compute|]. split; apply is_ok_or_else; by vm_compute. Qed.
Lemma ex_start config : ex_built config → cache_start (ex_new config).
Proof. destruct ex_parts as (H1 & H2). intros (H3 & H4 & H5). exact (new_cache_starts_aux hex_hash _ _ _ _ _ _ _ _ _ _ _ H1 H2 H3 ex_pools_ok H4 H5). Qed.
Lemma new_cache_starts_witness : cache_start (ex_new ex_config) ∧ cache_start (ex_new ex_unlimited).
Proof.
  destruct ex_parts as (H1 & H2). split.
  - destruct ex_limited_built as (H3 & H4 & H5). exact (new_cache_starts hex_hash _ _ _ _ _ _ _ _ _ _ _ H1 H2 H3 ex_pools_ok H4 H5).
  - destruct ex_unlimited_built as (H3 & H4 & H5). exact (new_cache_starts hex_hash _ _ _ _ _ _ _ _ _ _ _ H1 H2 H3 ex_pools_ok H4 H5).
Defined.
Definition runs (config : CacheConfig) (ops : list cop) : bool := match c_run ops (ex_new config, []) with Some _ => true | None => false end.
Lemma ex_reachable config ops : ex_built config → runs config ops = true → cache_reachable (ex_run config ops).2.1 (ex_run config ops).2.2.
Proof.
  intros Hb Hr. exists (ex_new config). split; [by apply ex_start|]. unfold ex_run, runs in *.
  destruct (c_run ops (ex_new config, [])) as [[rets [s H]]|] eqn:E; [|done]. by eapply c_run_sound.
Qed.

(** Four items fill the pool; one of them is held. *)
Definition ex_ops : list cop := ex_fill ++ [CFind [1] kRead 14 true].
Definition ex_s : Cache := (ex_after ex_ops).2.1.
Definition ex_H : list ItemHandle := (ex_after ex_ops).2.2.
Lemma ex_s_reachable : cache_reachable ex_s ex_H.
Proof. apply (ex_reachable _ ex_ops ex_limited_built). by vm_compute. Qed.
Definition ex_op : cop := CAllocate 0 [5] 100 0 0 15.
Lemma ex_op_ok : cop_ok ex_op ex_H.
Proof. by vm_compute. Qed.

Lemma cache_reachable_safe_witness : handleCount_ ex_s = 1 ∧ ∃ ret s' H', cstep ex_op (ex_s, ex_H) = Ok (ret, (s', H')) ∧
  (∀ p it, items_ ex_s !! p = Some it → 0 < handles ex_H p → 0 < handles H' p → ∃ it', items_ s' !! p = Some it' ∧ body it' = body it) ∧ ret ≠ RSearching.
Proof.
  destruct (cache_reachable_safe ex_s ex_H ex_op ex_s_reachable ex_op_ok) as (H1 & _ & _ & ret & s' & H' & H2 & H3 & H4). split; [by rewrite H1; vm_compute|].
  exists ret, s', H'. split; [done|]. split; [done|]. intros E. destruct (H4 E) as [H5 _]. revert H5. by vm_compute.
Defined.
Lemma cache_refines_map_witness : ∃ ret s' H' evs, cstep ex_op (ex_s, ex_H) = Ok (ret, (s', H')) ∧
  c_spec ex_op ex_s ex_H (contents ex_s) ret s' H' (contents s') evs ∧ events s' = events ex_s ++ evs ∧ cache_reachable s' H'.
Proof. apply (cache_refines_map ex_s ex_H ex_op); [apply ex_s_reachable|apply ex_op_ok]. Defined.
Definition ex_item : Item := default (mkItem 0 0 0 0 0 0 0 0 [] 0) (items_ ex_s !! (2 * kSize)).
Lemma items_typed_witness : typed ex_item ∧ getAccessRef (it_ref ex_item) = 1 ∧ isAccessible (it_ref ex_item) = true.
Proof.
  destruct (items_typed ex_s ex_H (2 * kSize) ex_item) as (H1 & _ & H2 & H3 & _); [apply ex_s_reachable|by vm_compute|].
  split; [done|]. split; [rewrite H2; by vm_compute|by vm_compute].
Defined.
Definition ex_lru : MMLru.Container := default (MMLru.Container_new MMLru.cfg_example 0) (mmContainers_ ex_s !! (0, 0)).
Lemma findEviction_takes_first_idle_witness : ∃ xs, mm_rep (pc ex_s) (mm_view (0, 0) ex_s) ex_lru xs ∧
  match victim 50 (handles ex_H) xs with
  | Some (_, p) => ∃ s', findEviction 0 0 0 ex_s = Ok (inl (Evicted p), s') ∧ handles ex_H p = 0
  | None => findEviction 0 0 0 ex_s = Ok (inl NothingFound, ex_s)
  end.
Proof.
  destruct (findEviction_takes_first_idle ex_s ex_H 0 0 0 ex_lru) as (xs & H1 & H2); [apply ex_s_reachable|by vm_compute|].
  exists xs. split; [done|]. change (evictionSearchTries (CacheAllocator.config_ ex_s)) with 50 in H2. destruct (victim 50 (handles ex_H) xs) as [[j p]|]; [|done].
  destruct H2 as (it & s' & it' & _ & H3 & _ & H4 & _). exists s'. exact (conj H4 H3).
Defined.

(** All items held, and no limit. *)
Definition hold (i : nat) (k now : Z) : list cop := [CAllocate 0 [k] 100 0 0 now; CInsert i now].
Definition ex_all : list cop := hold 0 1 10 ++ hold 1 2 11 ++ hold 2 3 12 ++ hold 3 4 13.
(** The client whose call goes on searching is served as soon as another one drops
    a handle: here it starts its call again. *)
Lemma searching_until_a_handle_is_dropped :
  let '(rets, _) := ex_run ex_unlimited (ex_all ++ [CAllocate 0 [5] 100 0 0 14; CDrop 2; CAllocate 0 [5] 100 0 0 15]) in
  drop 8 rets = [RSearching; RUnit; RHandle (mkItemHandle (HandleTo (2 * kSize + 2 * 1048576)) true false)].
Proof. vm_compute. done. Qed.

(** ** Two behaviours *)
(** An allocation with a key that cannot be stored fails only after an item was
    evicted for it. *)
Lemma allocate_evicts_before_validating :
  let '(rets, (s, _)) := ex_after (ex_fill ++ [CAllocate 0 [] 100 0 0 15]) in
  last rets = Some (RExn InvalidArgument) ∧ size (contents s) = 3%nat ∧ length (events s) = 1%nat.
Proof. vm_compute. done. Qed.
(** A clone of a handle to an item that was not yet inserted goes on to count as
    such; when it is the last one to be dropped, after the item was in the cache
    and removed from it, no callback is called for the item. *)
Lemma cloned_handle_skips_callbacks :
  let ops := [CAllocate 0 [7] 100 0 0 10; CClone 0; CInsert 0 10; CRemove [7]] in
  events (ex_after (ops ++ [CDrop 0; CDrop 0])).2.1 = [] ∧
  events (ex_after (ops ++ [CDrop 1; CDrop 0])).2.1 = [ItemDestructor kNormal (2 * kSize) [7]].
Proof. vm_compute. done. Qed.
