(* ===== verification/FurcHash.v ===== *)
(** The consistent hash of the compact cache ([common/FurcHash.cpp]) and the
    MurmurHash functions below it ([common/MurmurHash.h]).

    [furcHash] maps a key to one of [nPart] parts: it draws bits from an endless
    stream that depends on the key only, descends from the bits of [nPart] until
    one is set, completes it to a number, and draws again while the number is out
    of range.  A key is a list of bytes. *)
From S2P Require Import Prelude.

(** ** MurmurHash *)
Definition mul64 (a b : Z) : Z := u64 (a * b).
(** A little-endian word. *)
Definition read_le (bs : list Z) : Z := foldr (λ b acc, b + Z.shiftl acc 8) 0 bs.
Definition kMurmur2Seed : Z := 4193360111.
Definition murmur_m : Z := 0xc6a4a7935bd1e995.
Definition murmur_r : Z := 47.

Definition xorshift (h r : Z) : Z := Z.lxor h (Z.shiftr h r).
Fixpoint murmurHash64A_blocks (h : Z) (bs : list Z) : Z * list Z :=
  match bs with
  | b0 :: b1 :: b2 :: b3 :: b4 :: b5 :: b6 :: b7 :: rest =>
      let k := read_le [b0; b1; b2; b3; b4; b5; b6; b7] in
      let k := mul64 (xorshift (mul64 k murmur_m) murmur_r) murmur_m in
      murmurHash64A_blocks (mul64 (Z.lxor h k) murmur_m) rest
  | _ => (h, bs)
  end.
Definition murmurHash64A (key : list Z) (seed : Z) : Z :=
  let '(h, data2) := murmurHash64A_blocks (Z.lxor seed (mul64 (Z.of_nat (length key)) murmur_m)) key in
  let h := if bool_decide (data2 = []) then h else mul64 (Z.lxor h (read_le data2)) murmur_m in
  xorshift (mul64 (xorshift h murmur_r) murmur_m) murmur_r.
Definition murmurRehash64A (key : Z) : Z :=
  let h := Z.lxor kMurmur2Seed (mul64 8 murmur_m) in
  let key := mul64 (xorshift (mul64 key murmur_m) murmur_r) murmur_m in
  let h := mul64 (Z.lxor h key) murmur_m in
  xorshift (mul64 (xorshift h murmur_r) murmur_m) murmur_r.

(** ** FurcHash *)
Definition kMaxTries : nat := 32.
Definition kFurcShift : Z := 23.
Definition kHashCacheSize : Z := 300.
(** A word of the cache that was not written yet is [None]. *)
Record FurcHashState := mkFurc { hashIdx : Z; hashCache : list (option Z) }.

Fixpoint fill_cache (n : Z) (count : nat) (cache : list (option Z)) : result (list (option Z)) :=
  match count with
  | O => Ok cache
  | S count =>
      prev ← deref (mjoin (cache !! Z.to_nat (n - 1)));
      _ ← xdcheck (n <? Z.of_nat (length cache));
      fill_cache (n + 1) count (<[Z.to_nat n := Some (murmurRehash64A prev)]> cache)
  end.
Definition getbit (st : FurcHashState) (choice : Z) : result (Z * FurcHashState) :=
  let newHashIdx := Z.shiftr choice 6 in
  _ ← xdcheck (newHashIdx <? kHashCacheSize);
  st ← (if hashIdx st <? newHashIdx then
          cache ← fill_cache (hashIdx st + 1) (Z.to_nat (newHashIdx - hashIdx st)) (hashCache st);
          Ok (mkFurc newHashIdx cache)
        else Ok st);
  h ← deref (mjoin (hashCache st !! Z.to_nat newHashIdx));
  Ok (Z.land (Z.shiftr h (Z.land choice 63)) 1, st).

(** [while (!getbit(&state, choice))]; [None] for [return 0]. *)
Fixpoint descend (st : FurcHashState) (bitNum : nat) (choice : Z) : result (option (nat * Z) * FurcHashState) :=
  '(bit, st) ← getbit st choice;
  if negb (bit =? 0) then Ok (Some (bitNum, choice), st)
  else match bitNum with
    | O | S O => Ok (None, st)
    | S bitNum => descend st bitNum (Z.of_nat bitNum)
    end.
Fixpoint low_bits (st : FurcHashState) (count : nat) (result choice : Z) : Prelude.result (Z * Z * FurcHashState) :=
  match count with
  | O => Ok (result, choice, st)
  | S count =>
      '(bit, st) ← getbit st choice;
      low_bits st count (Z.lor (u32 (Z.shiftl result 1)) bit) (u32 (choice + kFurcShift))
  end.
Fixpoint furc_tries (tries : nat) (nPart : Z) (st : FurcHashState) (bitNum : nat) (choice : Z) : result Z :=
  match tries with
  | O => Ok 0
  | S tries =>
      '(found, st) ← descend st bitNum choice;
      match found with
      | None => Ok 0
      | Some (bitNum, choice) =>
          '(result, choice, st) ← low_bits st (bitNum - 1) 1 (u32 (choice + kFurcShift));
          if result <? nPart then Ok result else furc_tries tries nPart st bitNum choice
      end
  end.
(** [for (bitNum = 0; nPart > (1ul << bitNum); bitNum++)], with [fuel] steps to go. *)
Fixpoint bit_count (fuel : nat) (nPart : Z) (bitNum : nat) : nat :=
  match fuel with
  | O => bitNum
  | S fuel => if Z.shiftl 1 (Z.of_nat bitNum) <? nPart then bit_count fuel nPart (S bitNum) else bitNum
  end.
Definition furcHash (key : list Z) (nPart : Z) : result Z :=
  _ ← xdcheck (Z.of_nat (length key) <=? 2 ^ 31 - 1);
  if nPart <=? 1 then Ok 0
  else
    let st := mkFurc 0 (Some (murmurHash64A key kMurmur2Seed) :: replicate 299 None) in
    let bitNum := bit_count 32 nPart 0 in
    furc_tries kMaxTries nPart st bitNum (Z.of_nat bitNum).
(** [murmurHash2], 32 bits, as the hasher [MurmurHash2] calls it. *)
Definition mul32 (a b : Z) : Z := u32 (a * b).
Definition murmur2_m : Z := 0x5bd1e995.
Fixpoint murmurHash2_blocks (h : Z) (bs : list Z) : Z * list Z :=
  match bs with
  | b0 :: b1 :: b2 :: b3 :: rest =>
      let k := mul32 (xorshift (mul32 (read_le [b0; b1; b2; b3]) murmur2_m) 24) murmur2_m in
      murmurHash2_blocks (Z.lxor (mul32 h murmur2_m) k) rest
  | _ => (h, bs)
  end.
Definition murmurHash2 (key : list Z) (seed : Z) : Z :=
  let '(h, data) := murmurHash2_blocks (Z.lxor seed (Z.of_nat (length key))) key in
  let h := if bool_decide (data = []) then h else mul32 (Z.lxor h (read_le data)) murmur2_m in
  xorshift (mul32 (xorshift h 13) murmur2_m) 15.

(** ** The hash without its cache *)
(** The stream of bits of a key. *)
Definition stream_word (h : Z) (i : nat) : Z := Nat.iter i murmurRehash64A h.
Definition stream (h : Z) (choice : Z) : bool := Z.testbit (stream_word h (Z.to_nat (choice / 64))) (choice mod 64).
Fixpoint down (s : Z → bool) (bitNum : nat) (choice : Z) : option (nat * Z) :=
  if s choice then Some (bitNum, choice)
  else match bitNum with O | S O => None | S bitNum => down s bitNum (Z.of_nat bitNum) end.
Fixpoint low (s : Z → bool) (count : nat) (result choice : Z) : Z * Z :=
  match count with
  | O => (result, choice)
  | S count => low s count (2 * result + b2z (s choice)) (choice + kFurcShift)
  end.
(** The part chosen; [None] when all tries were out of range. *)
Fixpoint choose (s : Z → bool) (tries : nat) (nPart : Z) (bitNum : nat) (choice : Z) : option Z :=
  match tries with
  | O => None
  | S tries =>
      match down s bitNum choice with
      | None => Some 0
      | Some (bitNum, choice) =>
          let '(result, choice) := low s (bitNum - 1) 1 (choice + kFurcShift) in
          if result <? nPart then Some result else choose s tries nPart bitNum choice
      end
  end.
Definition key_stream (key : list Z) : Z → bool := stream (murmurHash64A key kMurmur2Seed).
(** No try of [furcHash] was in range; it gives up and returns 0. *)
Definition gives_up (key : list Z) (nPart : Z) : bool :=
  (1 <? nPart) && let bitNum := bit_count 32 nPart 0 in
  bool_decide (choose (key_stream key) kMaxTries nPart bitNum (Z.of_nat bitNum) = None).

(** *** The cache holds the words of the stream *)
Section cache.
Context (h : Z).
Record cache_ok (st : FurcHashState) : Prop := {
  fc_idx : 0 ≤ hashIdx st < kHashCacheSize;
  fc_len : Z.of_nat (length (hashCache st)) = kHashCacheSize;
  fc_word i : (Z.of_nat i ≤ hashIdx st) → hashCache st !! i = Some (Some (stream_word h i));
}.
Lemma fill_cache_ok count : ∀ n cache, 0 < n → n + Z.of_nat count ≤ kHashCacheSize → Z.of_nat (length cache) = kHashCacheSize →
  (∀ i, (Z.of_nat i < n) → cache !! i = Some (Some (stream_word h i))) →
  ∃ cache', fill_cache n count cache = Ok cache' ∧ Z.of_nat (length cache') = kHashCacheSize ∧
    ∀ i, (Z.of_nat i < n + Z.of_nat count) → cache' !! i = Some (Some (stream_word h i)).
Proof.
  induction count as [|count IH]; intros n cache Hn Hb Hl Hw; cbn [fill_cache].
  { exists cache. split; [done|]. split; [done|]. intros i Hi. apply Hw. lia. }
  rewrite Hw by lia. cbn [mjoin option_join deref mbind result_bind]. destruct (Z.ltb_spec n (Z.of_nat (length cache))); [|lia]. cbn [xdcheck mbind result_bind].
  destruct (IH (n + 1) (<[Z.to_nat n := Some (murmurRehash64A (stream_word h (Z.to_nat (n - 1))))]> cache)) as (cache' & E & Hl' & Hw'); [lia|lia|by rewrite length_insert| |].
  - intros i Hi. destruct (decide (i = Z.to_nat n)) as [->|Hne].
    + rewrite list_lookup_insert_eq by lia. replace (Z.to_nat n) with (S (Z.to_nat (n - 1))) by lia. done.
    + rewrite list_lookup_insert_ne by lia. apply Hw. lia.
  - exists cache'. split; [done|]. split; [done|]. intros i Hi. apply Hw'. lia.
Qed.
Lemma getbit_ok st choice : cache_ok st → 0 ≤ choice < 64 * kHashCacheSize →
  ∃ st', getbit st choice = Ok (b2z (stream h choice), st') ∧ cache_ok st'.
Proof.
  intros [Hi Hl Hw] Hc. unfold getbit. change (2 ^ 6) with 64. rewrite Z.shiftr_div_pow2 by lia. change (2 ^ 6) with 64.
  assert (0 ≤ choice / 64 < kHashCacheSize) as Hd by (Z.to_euclidean_division_equations; lia).
  destruct (Z.ltb_spec (choice / 64) kHashCacheSize); [|lia]. cbn [xdcheck mbind result_bind].
  assert (∀ w, Z.land (Z.shiftr w (Z.land choice 63)) 1 = b2z (Z.testbit w (choice mod 64))) as Hbit.
  { intros w. change 63 with (2 ^ 6 - 1). rewrite land_ones_mod by lia. change (2 ^ 6) with 64. change 1 with (2 ^ 1 - 1). rewrite land_ones_mod by lia.
    change (2 ^ 1) with 2. rewrite <- Z.bit0_mod, Z.shiftr_spec by lia. f_equal. }
  destruct (Z.ltb_spec (hashIdx st) (choice / 64)).
  - destruct (fill_cache_ok (Z.to_nat (choice / 64 - hashIdx st)) (hashIdx st + 1) (hashCache st)) as (cache' & -> & Hl' & Hw'); [lia|lia|done|intros i ?; apply Hw; lia|].
    cbn [mbind result_bind]. cbn [hashCache]. rewrite Hw' by lia. cbn [mjoin option_join deref mbind result_bind]. rewrite Hbit. eexists. split; [done|].
    split; [cbn; lia|done|]. cbn. intros i ?. apply Hw'. lia.
  - cbn [mbind result_bind]. rewrite Hw by lia. cbn [mjoin option_join deref mbind result_bind]. rewrite Hbit. exists st. split; [done|by split].
Qed.
End cache.

(** *** The loops *)
Lemma b2z_zero b : negb (b2z b =? 0) = b.
Proof. by destruct b. Qed.
Lemma descend_ok h bitNum : ∀ st choice, cache_ok h st → 0 ≤ choice < 64 * kHashCacheSize → (bitNum ≤ 23)%nat →
  ∃ st', descend st bitNum choice = Ok (down (stream h) bitNum choice, st') ∧ cache_ok h st'.
Proof.
  induction bitNum as [|b IH]; intros st choice Hst Hc Hb; cbn [descend down]; destruct (getbit_ok h st choice Hst Hc) as (st1 & -> & Hst1);
    cbn [mbind result_bind]; rewrite b2z_zero; destruct (stream h choice); try (by eexists).
  destruct b as [|b]; [by eexists|]. apply IH; [done| |lia]. unfold kHashCacheSize. lia.
Qed.
Lemma low_bits_ok h count : ∀ st r choice, cache_ok h st → 0 < r → (r + 1) * 2 ^ Z.of_nat count ≤ 2 ^ 32 → 0 ≤ choice →
  choice + 23 * Z.of_nat count < 64 * kHashCacheSize →
  ∃ st', low_bits st count r choice = Ok (low (stream h) count r choice, st') ∧ cache_ok h st'.
Proof.
  induction count as [|count IH]; intros st r choice Hst Hr Hb Hc Hc'; cbn [low_bits low]; [by eexists|]. unfold kHashCacheSize in *.
  destruct (getbit_ok h st choice Hst) as (st1 & -> & Hst1); [unfold kHashCacheSize; lia|]. cbn [mbind result_bind].
  rewrite Nat2Z.inj_succ, Z.pow_succ_r in Hb by lia. assert (0 < 2 ^ Z.of_nat count) by lia.
  assert (2 * r + 2 ≤ 2 ^ 32) by nia.
  rewrite Z.shiftl_mul_pow2 by lia. rewrite (wrap_small 32 (r * 2 ^ 1)) by (unfold fits; lia). rewrite (wrap_small 32 (choice + kFurcShift)) by (unfold fits, kFurcShift; lia).
  assert (Z.lor (r * 2 ^ 1) (b2z (stream h choice)) = 2 * r + b2z (stream h choice)) as ->.
  { rewrite <- Z.shiftl_mul_pow2 by lia. destruct (stream h choice); cbn [Z.b2z]; [|rewrite Z.lor_0_r, Z.shiftl_mul_pow2; lia].
    rewrite Z.shiftl_mul_pow2 by lia. change (2 ^ 1) with 2. rewrite Z.mul_comm. by destruct r. }
  apply IH; [done|destruct (stream h choice); cbn; lia| |unfold kFurcShift; lia|unfold kFurcShift, kHashCacheSize; lia].
  destruct (stream h choice); cbn [Z.b2z]; lia.
Qed.
Lemma low_range s count : ∀ r choice, 0 ≤ r → r * 2 ^ Z.of_nat count ≤ (low s count r choice).1 < (r + 1) * 2 ^ Z.of_nat count.
Proof.
  induction count as [|count IH]; intros r choice Hr; cbn [low]; [cbn; lia|]. specialize (IH (2 * r + b2z (s choice)) (choice + kFurcShift)).
  rewrite Nat2Z.inj_succ, Z.pow_succ_r by lia. assert (0 < 2 ^ Z.of_nat count) by lia. destruct (s choice); cbn [Z.b2z] in *; nia.
Qed.
Lemma low_choice s count : ∀ r choice, (low s count r choice).2 = choice + 23 * Z.of_nat count.
Proof. induction count as [|count IH]; intros r choice; cbn [low]; [cbn; lia|]. rewrite IH. unfold kFurcShift. lia. Qed.
Lemma down_le s bitNum : ∀ choice b' c', down s bitNum choice = Some (b', c') → (1 ≤ bitNum)%nat →
  (1 ≤ b' ≤ bitNum)%nat ∧ (c' = choice ∨ 0 ≤ c' ≤ Z.of_nat bitNum).
Proof.
  induction bitNum as [|b IH]; intros choice b' c' E Hb; [lia|]. cbn [down] in E. destruct (s choice); [injection E as <- <-; lia|].
  destruct b as [|b]; [done|]. destruct (IH _ _ _ E) as [H1 H2]; lia.
Qed.
Lemma furc_tries_ok h tries nPart : ∀ st bitNum choice, cache_ok h st → (1 ≤ bitNum ≤ 23)%nat → 0 ≤ choice → (tries ≤ 32)%nat →
  choice + 529 * Z.of_nat tries ≤ 17000 →
  furc_tries tries nPart st bitNum choice = Ok (default 0 (choose (stream h) tries nPart bitNum choice)).
Proof.
  induction tries as [|tries IH]; intros st b c Hst Hb Hc Ht Hct; cbn [furc_tries choose]; [done|].
  destruct (descend_ok h b st c Hst) as (st1 & -> & Hst1); [unfold kHashCacheSize; lia|lia|]. cbn [mbind result_bind].
  destruct (down (stream h) b c) as [[b' c']|] eqn:Ed; [|done]. destruct (down_le _ _ _ _ _ Ed) as [Hb' Hc']; [lia|].
  assert (0 ≤ c' ∧ c' + 529 * Z.of_nat (S tries) ≤ 17000) as [Hc0 Hc1] by lia. unfold kFurcShift in *.
  rewrite (wrap_small 32 (c' + 23)) by (unfold fits; lia).
  destruct (low_bits_ok h (b' - 1) st1 1 (c' + 23) Hst1) as (st2 & -> & Hst2); [lia| |lia|unfold kHashCacheSize; lia|].
  { assert (2 ^ Z.of_nat (b' - 1) ≤ 2 ^ 22) by (apply Z.pow_le_mono_r; lia). lia. }
  pose proof (low_choice (stream h) (b' - 1) 1 (c' + 23)) as El. cbn [mbind result_bind]. destruct (low (stream h) (b' - 1) 1 (c' + 23)) as [r c2]. cbn [snd] in El. subst c2.
  destruct (r <? nPart); [done|]. apply IH; [done|lia|lia|lia|]. lia.
Qed.

(** [bit_count] is the number of bits of [nPart - 1]. *)
Lemma bit_count_spec fuel nPart : ∀ b, nPart ≤ 2 ^ Z.of_nat (b + fuel) → (b = 0%nat ∨ 2 ^ Z.of_nat (b - 1) < nPart) →
  let b' := bit_count fuel nPart b in nPart ≤ 2 ^ Z.of_nat b' ∧ (b' = 0%nat ∨ 2 ^ Z.of_nat (b' - 1) < nPart).
Proof.
  induction fuel as [|fuel IH]; intros b Hn Hb; cbn [bit_count]; [by rewrite Nat.add_0_r in Hn|].
  rewrite Z.shiftl_mul_pow2 by lia. destruct (Z.ltb_spec (1 * 2 ^ Z.of_nat b) nPart); [|split; [lia|done]].
  apply IH; [by replace (S b + fuel)%nat with (b + S fuel)%nat by lia|]. right. replace (S b - 1)%nat with b by lia. lia.
Qed.
Lemma bit_count_ok nPart : 2 ≤ nPart ≤ 2 ^ 23 → let b := bit_count 32 nPart 0 in
  (1 ≤ b ≤ 23)%nat ∧ 2 ^ Z.of_nat (b - 1) < nPart ≤ 2 ^ Z.of_nat b.
Proof.
  intros Hn b. destruct (bit_count_spec 32 nPart 0) as [H1 H2]; [change (Z.of_nat (0 + 32)) with 32; lia|by left|]. fold b in H1, H2.
  destruct H2 as [E|H2]; [rewrite E in H1; cbn in H1; lia|]. assert (b ≠ 0%nat) by (intros E; rewrite E in H1; cbn in H1; lia).
  split; [|lia]. split; [lia|]. destruct (decide (b ≤ 23)%nat); [done|]. assert (2 ^ 23 ≤ 2 ^ Z.of_nat (b - 1)) by (apply Z.pow_le_mono_r; lia). lia.
Qed.
Lemma furcHash_choose key nPart : Z.of_nat (length key) < 2 ^ 31 → 2 ≤ nPart ≤ 2 ^ 23 → let b := bit_count 32 nPart 0 in
  furcHash key nPart = Ok (default 0 (choose (key_stream key) kMaxTries nPart b (Z.of_nat b))).
Proof.
  intros Hk Hn b. destruct (bit_count_ok nPart Hn) as [Hb _]. fold b in Hb. unfold furcHash. destruct (Z.leb_spec (Z.of_nat (length key)) (2 ^ 31 - 1)); [|lia].
  cbn [xdcheck mbind result_bind]. destruct (Z.leb_spec nPart 1); [lia|]. apply furc_tries_ok; [|done|lia|unfold kMaxTries; lia|unfold kMaxTries; lia].
  split; [cbn; unfold kHashCacheSize; lia|cbn [hashCache]; by rewrite length_cons, length_replicate|]. cbn. intros i Hi. by replace i with 0%nat by lia.
Qed.

(** ** Consistency *)
Section consistent.
Context (s : Z → bool).
(** The first number drawn from level [b] down. *)
Definition draw (b : nat) : Z := match down s b (Z.of_nat b) with None => 0 | Some (b', c') => (low s (b' - 1) 1 (c' + kFurcShift)).1 end.
Lemma low_level (b : nat) c : (1 ≤ b)%nat → 2 ^ Z.of_nat (b - 1) ≤ (low s (b - 1) 1 c).1 < 2 ^ Z.of_nat b.
Proof.
  intros Hb. pose proof (low_range s (b - 1) 1 c ltac:(lia)). replace (Z.of_nat b) with (Z.succ (Z.of_nat (b - 1))) by lia. rewrite Z.pow_succ_r; lia.
Qed.
Lemma down_step b c : (1 ≤ b)%nat → down s b c = if s c then Some (b, c) else if decide (b = 1%nat) then None else down s (b - 1) (Z.of_nat (b - 1)).
Proof.
  intros Hb. destruct b as [|b]; [lia|]. cbn [down]. destruct (s c); [done|]. destruct b as [|b]; [done|]. rewrite decide_False by lia.
  by replace (S (S b) - 1)%nat with (S b) by lia.
Qed.
Lemma draw_step (b : nat) : (1 ≤ b)%nat → (draw b = draw (b - 1) ∧ s (Z.of_nat b) = false ∧ b ≠ 1%nat) ∨ (draw b = 0 ∧ b = 1%nat ∧ s (Z.of_nat b) = false) ∨
  (s (Z.of_nat b) = true ∧ draw b = (low s (b - 1) 1 (Z.of_nat b + kFurcShift)).1).
Proof.
  intros Hb. unfold draw. rewrite down_step by done. destruct (s (Z.of_nat b)); [by auto|]. case_decide; [by auto|]. by auto.
Qed.
Lemma draw_lt b : (1 ≤ b)%nat → 0 ≤ draw b < 2 ^ Z.of_nat b.
Proof.
  intros Hb. unfold draw. destruct (down s b (Z.of_nat b)) as [[b' c']|] eqn:E; [|lia]. destruct (down_le _ _ _ _ _ E Hb) as [H1 _].
  pose proof (low_level b' (c' + kFurcShift) ltac:(lia)). assert (2 ^ Z.of_nat b' ≤ 2 ^ Z.of_nat b) by (apply Z.pow_le_mono_r; lia). lia.
Qed.
(** From a higher level, the number is one of the level below or large. *)
Lemma draw_mono b b' : (1 ≤ b ≤ b')%nat → draw b' = draw b ∨ 2 ^ Z.of_nat b ≤ draw b'.
Proof.
  intros [H1 H2]. induction H2 as [|b' H2 IH]; [by left|]. destruct (draw_step (S b')) as [(-> & _)|[(_ & ? & _)|(_ & ->)]]; [lia| |lia|].
  - by replace (S b' - 1)%nat with b' by lia.
  - right. pose proof (low_level (S b') (Z.of_nat (S b') + kFurcShift) ltac:(lia)) as [Hl _]. assert (2 ^ Z.of_nat b ≤ 2 ^ Z.of_nat (S b' - 1)) by (apply Z.pow_le_mono_r; lia). lia.
Qed.
(** Below the top level the first number is in range. *)
Lemma choose_low n tries b c : (1 ≤ b)%nat → 2 ^ Z.of_nat (b - 1) < n → s c = false → choose s (S tries) n b c = Some (if decide (b = 1%nat) then 0 else draw (b - 1)).
Proof.
  intros Hb Hn Hs. cbn [choose]. rewrite down_step, Hs by done. case_decide as H1; [done|]. unfold draw. pose proof (draw_lt (b - 1) ltac:(lia)) as Hd. unfold draw in Hd.
  destruct (down s (b - 1) _) as [[b' c']|]; [|done]. destruct (low s _ _ _) as [r c2]. cbn [fst] in *. by destruct (Z.ltb_spec r n); [|lia].
Qed.
Lemma choose_high n tries b c : (1 ≤ b)%nat → s c = true → choose s (S tries) n b c =
  let '(r, c') := low s (b - 1) 1 (c + kFurcShift) in if r <? n then Some r else choose s tries n b c'.
Proof. intros Hb Hs. cbn [choose]. by rewrite down_step, Hs by done. Qed.

Lemma choose_range n tries b : ∀ c h, (1 ≤ b)%nat → 2 ^ Z.of_nat (b - 1) < n → choose s tries n b c = Some h → 0 ≤ h < n.
Proof.
  induction tries as [|tries IH]; intros c h Hb Hn; [done|]. destruct (s c) eqn:Hs.
  - rewrite choose_high by done. pose proof (low_level b (c + kFurcShift) Hb) as Hl. destruct (low s _ _ _) as [r c']. cbn [fst] in Hl.
    destruct (Z.ltb_spec r n); [intros [= <-]; lia|by apply IH].
  - rewrite choose_low by done. case_decide; intros [= <-]; [lia|]. pose proof (draw_lt (b - 1) ltac:(lia)). lia.
Qed.
(** The same number of bits. *)
Lemma choose_same n m tries b : ∀ c, (1 ≤ b)%nat → 2 ^ Z.of_nat (b - 1) < n ≤ m → choose s tries m b c = choose s tries n b c ∨
  ∃ h, choose s tries m b c = Some h ∧ n ≤ h.
Proof.
  induction tries as [|tries IH]; intros c Hb Hn; [by left|]. destruct (s c) eqn:Hs.
  - rewrite !choose_high by done. destruct (low s _ _ _) as [r c']. destruct (Z.ltb_spec r m), (Z.ltb_spec r n); [by left|right; by exists r|lia|by apply IH].
  - left. rewrite !choose_low by (done || lia). done.
Qed.
(** More bits. *)
Lemma choose_more m tries b : ∀ c h, (1 ≤ b)%nat → 2 ^ Z.of_nat (b - 1) < m → choose s tries m b c = Some h →
  2 ^ Z.of_nat (b - 1) ≤ h ∨ h = if decide (b = 1%nat) then 0 else draw (b - 1).
Proof.
  induction tries as [|tries IH]; intros c h Hb Hm; [done|]. destruct (s c) eqn:Hs.
  - rewrite choose_high by done. pose proof (low_level b (c + kFurcShift) Hb) as Hl. destruct (low s _ _ _) as [r c']. cbn [fst] in Hl.
    destruct (Z.ltb_spec r m); [intros [= <-]; left; lia|by apply IH].
  - rewrite choose_low by done. intros [= <-]. by right.
Qed.
Lemma choose_draw n tries b : (1 ≤ b)%nat → 2 ^ Z.of_nat (b - 1) < n → choose s (S tries) n b (Z.of_nat b) = Some (draw b) ∨ n ≤ draw b.
Proof.
  intros Hb Hn. destruct (draw_step b Hb) as [(E & Hs & H1)|[(E & -> & Hs)|(Hs & E)]].
  - left. by rewrite choose_low, decide_False, E.
  - left. rewrite choose_low by done. by rewrite decide_True, E.
  - rewrite choose_high by done. rewrite E. destruct (low s _ _ _) as [r c']. cbn [fst]. destruct (Z.ltb_spec r n); [by left|by right].
Qed.
Lemma choose_consistent n m bn bm tries h : (1 ≤ bn)%nat → (1 ≤ bm)%nat → 2 ^ Z.of_nat (bn - 1) < n ≤ 2 ^ Z.of_nat bn → 2 ^ Z.of_nat (bm - 1) < m ≤ 2 ^ Z.of_nat bm → n ≤ m →
  choose s (S tries) m bm (Z.of_nat bm) = Some h → choose s (S tries) n bn (Z.of_nat bn) = Some h ∨ n ≤ h.
Proof.
  intros Hbn Hbm Hn Hm Hnm E. destruct (decide (bn = bm)) as [->|Hne].
  { destruct (choose_same n m (S tries) bm (Z.of_nat bm)) as [E1|(h' & E1 & Hh)]; [done|lia| |]; rewrite E in E1; [by left|right; by injection E1 as <-]. }
  assert (bn < bm)%nat as Hlt. { destruct (decide (bn < bm)%nat); [done|]. assert (2 ^ Z.of_nat bm ≤ 2 ^ Z.of_nat (bn - 1)) by (apply Z.pow_le_mono_r; lia). lia. }
  assert (2 ^ Z.of_nat bn ≤ 2 ^ Z.of_nat (bm - 1)) by (apply Z.pow_le_mono_r; lia).
  destruct (choose_more m (S tries) bm (Z.of_nat bm) h Hbm ltac:(lia) E) as [Hh| ->]; [right; lia|]. rewrite decide_False by lia.
  destruct (draw_mono bn (bm - 1)) as [-> | Hd]; [lia| |right; lia]. destruct (choose_draw n tries bn Hbn ltac:(lia)); [by left|by right].
Qed.
End consistent.

Lemma furcHash_one key nPart : Z.of_nat (length key) < 2 ^ 31 → nPart ≤ 1 → furcHash key nPart = Ok 0.
Proof.
  intros Hk Hn. unfold furcHash. destruct (Z.leb_spec (Z.of_nat (length key)) (2 ^ 31 - 1)); [|lia]. cbn [xdcheck mbind result_bind]. by destruct (Z.leb_spec nPart 1); [|lia].
Qed.
(** The hash is in range. *)
Lemma furcHash_range key nPart : Z.of_nat (length key) < 2 ^ 31 → 1 ≤ nPart ≤ 2 ^ 23 → ∃ h, furcHash key nPart = Ok h ∧ 0 ≤ h < nPart.
Proof.
  intros Hk Hn. destruct (decide (nPart = 1)) as [->|H1]; [exists 0; split; [by apply furcHash_one|lia]|]. rewrite furcHash_choose by lia. eexists. split; [done|].
  destruct (bit_count_ok nPart) as [Hb Hp]; [lia|]. destruct (choose _ _ _ _ _) as [h|] eqn:E; [|cbn; lia]. cbn. eapply choose_range; [|apply Hp|exact E]. lia.
Qed.
(** C26: [furcHash] is a consistent hash.  For up to 2^23 parts it returns without
    leaving its cache of hash words, a part that exists, and when the number of
    parts grows from [n] to [m] a key stays where it is or moves to one of the new
    parts; the only exception is a key for which all 32 tries with [m] parts are
    out of range, which goes to part 0. *)
Theorem furcHash_consistent key n m : Z.of_nat (length key) < 2 ^ 31 → 1 ≤ n ≤ m → m ≤ 2 ^ 23 →
  ∃ hn hm, furcHash key n = Ok hn ∧ furcHash key m = Ok hm ∧ 0 ≤ hn < n ∧ 0 ≤ hm < m ∧
    (if gives_up key m then hm = 0 else hm = hn ∨ n ≤ hm).
Proof.
  intros Hk Hn Hm. destruct (furcHash_range key n Hk) as (hn & En & Hhn); [lia|]. destruct (furcHash_range key m Hk) as (hm & Em & Hhm); [lia|].
  exists hn, hm. do 4 (split; [done|]). unfold gives_up. destruct (Z.ltb_spec 1 m) as [H1|H1]; cbn [andb]; [|left; replace m with n in Em by lia; congruence].
  rewrite furcHash_choose in Em by lia. destruct (bit_count_ok m) as [Hb Hp]; [lia|].
  destruct (choose _ _ _ _ _) as [h|] eqn:E; case_bool_decide as Hd; try done; [|by injection Em]. injection Em as <-. cbn [default].
  destruct (decide (n = 1)) as [->|Hn1]; [rewrite furcHash_one in En by lia; injection En as <-; cbn; lia|].
  rewrite furcHash_choose in En by lia. destruct (bit_count_ok n) as [Hb' Hp']; [lia|].
  destruct (choose_consistent _ n m (bit_count 32 n 0) (bit_count 32 m 0) 31 h ltac:(lia) ltac:(lia) Hp' Hp ltac:(lia) E) as [E'|?]; [|by right].
  left. unfold kMaxTries in En. rewrite E' in En. by injection En.
Qed.
Lemma furcHash_consistent_witness : ∃ hn hm, furcHash [107; 101; 121] 11 = Ok hn ∧ furcHash [107; 101; 121] 12 = Ok hm ∧ (hm = hn ∨ 11 ≤ hm).
Proof.
  destruct (furcHash_consistent [107; 101; 121] 11 12) as (hn & hm & H1 & H2 & _ & _ & H3); [by vm_compute|lia|lia|].
  assert (gives_up [107; 101; 121] 12 = false) as E by by vm_compute. rewrite E in H3. exists hn, hm. exact (conj H1 (conj H2 H3)).
Defined.
