(* ===== verification/CompactBucket.v ===== *)
(** Buckets of the compact cache: the descriptors of a cache
    ([compact_cache/CCacheDescriptor.h]), what a cache asks of its buckets, and
    the buckets of fixed-size entries ([CCacheFixedLruBucket.h]).

    A bucket is a short array of entries, most recently used first; [xs] is the
    sequence of its entries in the laws.  A handle to an entry is its position. *)
From S2P Require Import Prelude.

(** ** Descriptors *)
Class CCDescriptor := {
  Key : Type;
  Value : Type;
  #[global] Key_eq_dec :: EqDecision Key;
  isEmpty : Key → bool;
  key_bytes : Key → list Z;
  sizeof_Value : Z;
  kHasValues : bool;
  (** zeroed memory *)
  zeroKey : Key;
  zeroVal : Value;
}.
(** Empty slots are zeroed and [NoValue] has one value. *)
Class CCDescriptorLaws `{CCDescriptor} := {
  zeroKey_empty : isEmpty zeroKey = true;
  novalue : kHasValues = false → ∀ v, v = zeroVal;
  key_bytes_len k : Z.of_nat (length (key_bytes k)) < 2 ^ 31;
}.

Abbreviation entry := (Key * Value)%type.

Section descriptor.
Context {desc : CCDescriptor}.
(** The value behind a pointer. *)
Definition given (val : option Value) : Value := default zeroVal val.
Definition val_ok (val : option Value) : Prop := kHasValues = true → val ≠ None.

(** ** What a cache asks of its buckets *)
Class BucketDescriptor := {
  Bucket : Type;
  zeroBucket : Bucket;
  bd_valid : Bucket → Z → bool;                    (** [operator bool] of a handle *)
  bd_key : Bucket → Z → result Key;
  bd_val : Bucket → Z → result Value;
  bd_capacity : Bucket → Z;
  (** the result, the evicted entries in the order of the callbacks, the bucket *)
  bd_insert : Bucket → Key → option Value → result (Z * list entry * Bucket);
  bd_promote : Bucket → Z → result Bucket;
  bd_needs_promote : Bucket → Z → result bool;
  bd_del : Bucket → Z → result Bucket;
  bd_updateVal : Bucket → Z → option Value → result (list entry * Bucket);
}.
Class BucketLaws `{BucketDescriptor} := {
  bd_rep : Bucket → list entry → Prop;
  bd_rep_zero : bd_rep zeroBucket [];
  bd_rep_keys b xs : bd_rep b xs → NoDup xs.*1;
  bd_rep_capacity b xs : bd_rep b xs → Z.of_nat (length xs) ≤ bd_capacity b;
  bd_valid_law b xs pos : bd_rep b xs → bd_valid b pos = bool_decide (0 ≤ pos < Z.of_nat (length xs));
  bd_entry_law b xs i k v : bd_rep b xs → xs !! i = Some (k, v) → bd_key b (Z.of_nat i) = Ok k ∧ bd_val b (Z.of_nat i) = Ok v;
  bd_insert_law b xs k val : bd_rep b xs → isEmpty k = false → k ∉ xs.*1 → val_ok val →
    ∃ ys ev b', xs = ys ++ ev ∧ bd_insert b k val = Ok (if decide (ev = []) then 0 else 1, reverse ev, b') ∧ bd_rep b' ((k, given val) :: ys);
  bd_promote_law b xs i e : bd_rep b xs → xs !! i = Some e → ∃ b', bd_promote b (Z.of_nat i) = Ok b' ∧ bd_rep b' (e :: delete i xs);
  bd_needs_promote_law b xs i : bd_rep b xs → (i < length xs)%nat → ∃ r, bd_needs_promote b (Z.of_nat i) = Ok r;
  bd_del_law b xs i : bd_rep b xs → (i < length xs)%nat → ∃ b', bd_del b (Z.of_nat i) = Ok b' ∧ bd_rep b' (delete i xs);
  bd_update_law b xs i k v val : bd_rep b xs → xs !! i = Some (k, v) → val_ok val →
    ∃ ys ev xs' b', delete i xs = ys ++ ev ∧ bd_updateVal b (Z.of_nat i) val = Ok (reverse ev, b') ∧ bd_rep b' xs' ∧ xs' ≡ₚ (k, given val) :: ys;
}.
End descriptor.

(** ** FixedLruBucket *)
(** [memmove] of [n] elements within an array. *)
Definition memmove {A} (dst src n : nat) (l : list A) : result (list A) :=
  if bool_decide (dst + n ≤ length l ∧ src + n ≤ length l)%nat then Ok (take dst l ++ take n (drop src l) ++ drop (dst + n) l) else Undef.

Section fixed.
Context {desc : CCDescriptor} {laws : CCDescriptorLaws} (kEntriesPerBucket : nat).
Definition empty_entry (e : entry) : bool := isEmpty e.1.

Definition fixed_valid (b : list entry) (pos : Z) : bool :=
  (0 <=? pos) && (pos <? Z.of_nat kEntriesPerBucket) && match b !! Z.to_nat pos with Some e => negb (empty_entry e) | None => false end.
Definition fixed_key (b : list entry) (pos : Z) : result Key := e ← deref (b !! Z.to_nat pos); Ok e.1.
Definition fixed_val (b : list entry) (pos : Z) : result Value := e ← deref (b !! Z.to_nat pos); Ok e.2.
Definition copyValue (dest : Value) (src : option Value) : result Value := if kHasValues then deref src else Ok dest.
Definition fixed_insert (b : list entry) (key : Key) (val : option Value) : result (Z * list entry * list entry) :=
  last ← deref (b !! (kEntriesPerBucket - 1)%nat);
  let evicted := negb (empty_entry last) in
  b ← memmove 1 0 (kEntriesPerBucket - 1) b;
  top ← deref (b !! 0%nat);
  v ← copyValue top.2 val;
  Ok (if evicted then 1 else 0, if evicted then [last] else [], <[0%nat := (key, v)]> b).
Definition fixed_promote (b : list entry) (pos : Z) : result (list entry) :=
  _ ← xdcheck (fixed_valid b pos);
  if negb (pos =? 0) then
    winner ← deref (b !! Z.to_nat pos);
    b ← memmove 1 0 (Z.to_nat pos) b;
    Ok (<[0%nat := winner]> b)
  else Ok b.
Definition fixed_needs_promote (b : list entry) (pos : Z) : result bool :=
  _ ← xdcheck (fixed_valid b pos);
  Ok (Z.of_nat kEntriesPerBucket / 4 <? pos).
Definition fixed_del (b : list entry) (pos : Z) : result (list entry) :=
  _ ← xdcheck (fixed_valid b pos);
  let pos := Z.to_nat pos in
  b ← memmove pos (pos + 1) (kEntriesPerBucket - pos - 1) b;
  Ok (<[(kEntriesPerBucket - 1)%nat := (zeroKey, zeroVal)]> b).
Definition fixed_updateVal (b : list entry) (pos : Z) (val : option Value) : result (list entry * list entry) :=
  e ← deref (b !! Z.to_nat pos);
  v ← copyValue e.2 val;
  Ok ([], <[Z.to_nat pos := (e.1, v)]> b).
Definition FixedLruBucket : BucketDescriptor := {|
  Bucket := list entry;
  zeroBucket := replicate kEntriesPerBucket (zeroKey, zeroVal);
  bd_valid := fixed_valid;
  bd_key := fixed_key;
  bd_val := fixed_val;
  bd_capacity _ := Z.of_nat kEntriesPerBucket;
  bd_insert := fixed_insert;
  bd_promote := fixed_promote;
  bd_needs_promote := fixed_needs_promote;
  bd_del := fixed_del;
  bd_updateVal := fixed_updateVal;
|}.

(** *** It is an LRU list *)
Context (HN : (0 < kEntriesPerBucket)%nat).
Definition fixed_rep (b xs : list entry) : Prop := ∃ zs, b = xs ++ zs ∧ length b = kEntriesPerBucket ∧
  Forall (λ e, empty_entry e = true) zs ∧ Forall (λ e, empty_entry e = false) xs ∧ NoDup xs.*1.
Implicit Types (b xs : list entry).

Lemma memmove_ok {A} dst src n (l : list A) : (dst + n ≤ length l)%nat → (src + n ≤ length l)%nat →
  memmove dst src n l = Ok (take dst l ++ take n (drop src l) ++ drop (dst + n) l).
Proof. intros. unfold memmove. by rewrite bool_decide_eq_true_2. Qed.
Lemma fixed_entry b xs i e : fixed_rep b xs → xs !! i = Some e → b !! i = Some e ∧ empty_entry e = false ∧ (i < kEntriesPerBucket)%nat.
Proof.
  intros (zs & -> & Hl & _ & Hx & _) Hi. split; [by apply lookup_app_l_Some|]. split; [by apply (Forall_lookup_1 _ _ _ _ Hx Hi)|].
  apply lookup_lt_Some in Hi. rewrite length_app in Hl. lia.
Qed.
Lemma fixed_valid_ok b xs pos : fixed_rep b xs → fixed_valid b pos = bool_decide (0 ≤ pos < Z.of_nat (length xs)).
Proof.
  intros Hr. pose proof Hr as (zs & -> & Hl & Hz & _). unfold fixed_valid. rewrite length_app in Hl. destruct (Z.leb_spec 0 pos); cbn [andb]; [|by rewrite bool_decide_eq_false_2 by lia].
  destruct (decide (pos < Z.of_nat (length xs))) as [Hlt|Hge].
  - rewrite bool_decide_eq_true_2 by lia. destruct (Z.ltb_spec pos (Z.of_nat kEntriesPerBucket)); [|lia]. cbn [andb].
    destruct (lookup_lt_is_Some_2 xs (Z.to_nat pos)) as [e He]; [lia|]. destruct (fixed_entry _ _ _ _ Hr He) as (-> & -> & _). done.
  - rewrite bool_decide_eq_false_2 by lia. apply andb_false_iff. right. rewrite lookup_app_r by lia. destruct (zs !! _) as [e|] eqn:E; [|done].
    by rewrite (Forall_lookup_1 _ _ _ _ Hz E).
Qed.
Lemma fixed_valid_at b xs i : fixed_rep b xs → (i < length xs)%nat → fixed_valid b (Z.of_nat i) = true.
Proof. intros Hr Hi. rewrite (fixed_valid_ok _ _ _ Hr). apply bool_decide_eq_true_2. lia. Qed.
Lemma copyValue_ok v val : val_ok val → copyValue v val = Ok (given val).
Proof.
  intros Hv. unfold copyValue, given, val_ok in *. destruct kHasValues eqn:E; [|by rewrite (novalue E v), (novalue E (default _ _))].
  destruct val; [done|]. by destruct (Hv eq_refl).
Qed.
Lemma delete_app_l {A} (l k : list A) i : (i < length l)%nat → delete i (l ++ k) = delete i l ++ k.
Proof. intros Hi. rewrite !delete_take_drop, take_app_le, drop_app_le by lia. by rewrite app_assoc. Qed.
Lemma keys_delete (xs : list entry) i : NoDup xs.*1 → NoDup (delete i xs).*1.
Proof. intros Hn. rewrite list_fmap_delete. eapply sublist_NoDup; [exact Hn|apply sublist_delete]. Qed.

Lemma fixed_insert_eq b k val e : length b = kEntriesPerBucket → b !! (kEntriesPerBucket - 1)%nat = Some e → val_ok val →
  fixed_insert b k val = Ok (if empty_entry e then 0 else 1, if empty_entry e then [] else [e], (k, given val) :: take (kEntriesPerBucket - 1) b).
Proof.
  intros Hl He Hv. unfold fixed_insert. rewrite He. cbn [deref mbind result_bind]. rewrite memmove_ok by lia. cbn [mbind result_bind]. rewrite drop_0.
  rewrite (drop_ge b) by lia. rewrite app_nil_r. destruct b as [|e0 b]; [done|]. cbn [take app lookup list_lookup deref mbind result_bind].
  rewrite copyValue_ok by done. cbn [mbind result_bind]. by destruct (empty_entry e).
Qed.
Lemma fixed_insert_ok b xs k val : fixed_rep b xs → isEmpty k = false → k ∉ xs.*1 → val_ok val →
  let ev := drop (kEntriesPerBucket - 1) xs in
  ∃ b', fixed_insert b k val = Ok (if decide (ev = []) then 0 else 1, reverse ev, b') ∧ fixed_rep b' ((k, given val) :: take (kEntriesPerBucket - 1) xs).
Proof.
  intros (zs & Eb & Hl & Hz & Hx & Hnd) Hk Hin Hv. destruct (lookup_lt_is_Some_2 b (kEntriesPerBucket - 1)) as [e He]; [lia|].
  rewrite (fixed_insert_eq b k val e) by done. destruct (decide (zs = [])) as [->|Hne].
  - rewrite app_nil_r in Eb. subst b. destruct (exists_last (l := xs)) as (ys & e' & ->); [by intros ->|]. rewrite length_app in Hl. cbn in Hl.
    replace (kEntriesPerBucket - 1)%nat with (length ys) in * by lia. rewrite list_lookup_middle in He by done. injection He as ->.
    apply Forall_app in Hx as [Hy He]. apply Forall_cons in He as [He _]. rewrite He, take_app_length, drop_app_length. eexists. split; [done|].
    exists []. rewrite app_nil_r. split; [done|]. split; [cbn; lia|]. split; [constructor|]. split; [by constructor|].
    rewrite fmap_app in Hnd, Hin. apply NoDup_app in Hnd as (Hnd & _). cbn. constructor; [|done]. intros ?. apply Hin, elem_of_app. by left.
  - destruct (exists_last Hne) as (zs' & z & ->). apply Forall_app in Hz as [Hz' Hz]. apply Forall_cons in Hz as [Hz _].
    rewrite app_assoc in Eb. subst b. rewrite !length_app in Hl. cbn in Hl. rewrite (take_ge xs), (drop_ge xs) by lia.
    replace (kEntriesPerBucket - 1)%nat with (length (xs ++ zs')) in * by (rewrite length_app; lia).
    rewrite list_lookup_middle in He by done. injection He as ->. rewrite Hz, take_app_length. eexists. split; [done|].
    exists zs'. split; [done|]. split; [cbn; rewrite length_app; lia|]. split; [done|]. split; [by constructor|]. cbn. by constructor.
Qed.
Lemma fixed_promote_ok b xs i e : fixed_rep b xs → xs !! i = Some e → ∃ b', fixed_promote b (Z.of_nat i) = Ok b' ∧ fixed_rep b' (e :: delete i xs).
Proof.
  intros Hr Hi. pose proof (lookup_lt_Some _ _ _ Hi) as Hlt. unfold fixed_promote. rewrite (fixed_valid_at b xs) by done. cbn [xdcheck mbind result_bind].
  destruct (fixed_entry _ _ _ _ Hr Hi) as (Hb & He & Hn). pose proof Hr as (zs & Eb & Hl & Hz & Hx & Hnd).
  assert (fixed_rep (e :: delete i b) (e :: delete i xs)) as Hgoal.
  { rewrite Eb, delete_app_l by done. exists zs. split; [done|]. split.
    - rewrite <- Hl, Eb. cbn. rewrite !length_app. pose proof (length_delete xs i) as H0. rewrite H0 by (by eexists). lia.
    - split; [done|]. split; [constructor; [done|by apply Forall_delete]|]. rewrite fmap_cons, list_fmap_delete.
      apply (NoDup_Permutation_proper _ xs.*1); [|done]. symmetry. apply (delete_Permutation _ i). by rewrite list_lookup_fmap, Hi. }
  destruct (Z.eqb_spec (Z.of_nat i) 0) as [E|E]; cbn [negb].
  - replace i with 0%nat in * by lia. exists b. split; [done|]. destruct xs as [|e' xs]; [done|]. injection Hi as ->. done.
  - rewrite Nat2Z.id, Hb. cbn [deref mbind result_bind]. rewrite memmove_ok by lia. cbn [mbind result_bind]. eexists. split; [done|].
    destruct b as [|e0 b]; [done|]. cbn [take app]. rewrite drop_0. cbn [insert list_insert]. change (1 + i)%nat with (S i). by rewrite <- delete_take_drop.
Qed.
Lemma fixed_del_ok b xs i : fixed_rep b xs → (i < length xs)%nat → ∃ b', fixed_del b (Z.of_nat i) = Ok b' ∧ fixed_rep b' (delete i xs).
Proof.
  intros Hr Hlt. unfold fixed_del. rewrite (fixed_valid_at b xs) by done. cbn [xdcheck mbind result_bind]. rewrite Nat2Z.id. pose proof Hr as (zs & Eb & Hl & Hz & Hx & Hnd).
  assert (length xs ≤ kEntriesPerBucket)%nat by (rewrite <- Hl, Eb, length_app; lia). rewrite memmove_ok by lia. cbn [mbind result_bind]. eexists. split; [done|].
  rewrite (take_ge (drop _ _)) by (rewrite length_drop; lia). replace (i + 1)%nat with (S i) by lia. rewrite app_assoc, <- delete_take_drop.
  replace (i + (kEntriesPerBucket - i - 1))%nat with (kEntriesPerBucket - 1)%nat by lia.
  assert (length (delete i b) = kEntriesPerBucket - 1)%nat as Hd by (rewrite length_delete by (apply lookup_lt_is_Some; lia); lia).
  destruct (lookup_lt_is_Some_2 b (kEntriesPerBucket - 1)) as [e He]; [lia|]. rewrite (drop_S _ _ _ He), drop_ge by lia.
  rewrite <- Hd, insert_app_r_alt, Nat.sub_diag by lia. cbn. rewrite Eb, delete_app_l by done. exists (zs ++ [(zeroKey, zeroVal)]). rewrite app_assoc. split; [done|].
  split; [rewrite <- delete_app_l, <- Eb, length_app, Hd by done; cbn; lia|]. split; [apply Forall_app; split; [done|constructor; [apply zeroKey_empty|constructor]]|].
  split; [by apply Forall_delete|by apply keys_delete].
Qed.
Lemma fixed_update_ok b xs i k v val : fixed_rep b xs → xs !! i = Some (k, v) → val_ok val →
  ∃ b', fixed_updateVal b (Z.of_nat i) val = Ok ([], b') ∧ fixed_rep b' (<[i := (k, given val)]> xs).
Proof.
  intros Hr Hi Hv. destruct (fixed_entry _ _ _ _ Hr Hi) as (Hb & He & _). unfold fixed_updateVal. rewrite Nat2Z.id, Hb. cbn [deref mbind result_bind]. rewrite copyValue_ok by done.
  eexists. split; [done|]. destruct Hr as (zs & -> & Hl & Hz & Hx & Hnd). exists zs. cbn [fst]. apply lookup_lt_Some in Hi as Hlt. rewrite insert_app_l by done.
  split; [done|]. split; [by rewrite <- insert_app_l, length_insert|]. split; [done|]. split; [by apply Forall_insert|]. rewrite list_fmap_insert. cbn.
  rewrite list_insert_id; [done|]. by rewrite list_lookup_fmap, Hi.
Qed.

Definition FixedLruLaws : @BucketLaws desc FixedLruBucket.
Proof.
  refine {| bd_rep := fixed_rep : @Bucket desc FixedLruBucket → list entry → Prop |}; cbn [Bucket FixedLruBucket bd_valid bd_key bd_val bd_capacity bd_insert bd_promote bd_needs_promote bd_del bd_updateVal zeroBucket].
  - exists (replicate kEntriesPerBucket (zeroKey, zeroVal)). split; [done|]. split; [apply length_replicate|]. split; [apply Forall_replicate, zeroKey_empty|by split; constructor].
  - by intros b xs (zs & _ & _ & _ & _ & Hn).
  - intros b xs (zs & -> & Hl & _). rewrite length_app in Hl. lia.
  - intros b xs pos Hr. by apply fixed_valid_ok.
  - intros b xs i k v Hr Hi. destruct (fixed_entry _ _ _ _ Hr Hi) as (Hb & _). unfold fixed_key, fixed_val. by rewrite Nat2Z.id, Hb.
  - intros b xs k val Hr Hk Hin Hv. destruct (fixed_insert_ok b xs k val Hr Hk Hin Hv) as (b' & E & Hr'). eexists _, _, b'. split; [symmetry; apply take_drop|]. by split.
  - intros b xs i e Hr Hi. by apply fixed_promote_ok.
  - intros b xs i Hr Hi. unfold fixed_needs_promote. rewrite (fixed_valid_at b xs) by done. by eexists.
  - intros b xs i Hr Hi. by apply fixed_del_ok.
  - intros b xs i k v val Hr Hi Hv. destruct (fixed_update_ok b xs i k v val Hr Hi Hv) as (b' & E & Hr'). exists (delete i xs), [], (<[i := (k, given val)]> xs), b'.
    rewrite app_nil_r. split; [done|]. split; [done|]. split; [done|]. apply lookup_lt_Some in Hi as Hlt. rewrite (delete_Permutation (<[i := (k, given val)]> xs) i (k, given val)) by by apply list_lookup_insert_eq.
    rewrite !delete_take_drop, take_insert_ge, drop_insert_lt by lia. done.
Defined.
End fixed.

(** ** The operations of a fixed bucket are those of an LRU list *)
Section lru.
Context {desc : CCDescriptor}.
Inductive bop := BInsert (k : Key) (val : option Value) | BPromote (i : nat) | BDel (i : nat) | BUpdate (i : nat) (val : option Value).
(** The evicted entries, and the bucket. *)
Definition bop_run (N : nat) (o : bop) (b : list entry) : result (list entry * list entry) :=
  match o with
  | BInsert k val => '(_, ev, b) ← fixed_insert N b k val; Ok (ev, b)
  | BPromote i => b ← fixed_promote N b (Z.of_nat i); Ok ([], b)
  | BDel i => b ← fixed_del N b (Z.of_nat i); Ok ([], b)
  | BUpdate i val => fixed_updateVal b (Z.of_nat i) val
  end.
Definition bop_ok (o : bop) (xs : list entry) : Prop :=
  match o with
  | BInsert k val => isEmpty k = false ∧ k ∉ xs.*1 ∧ val_ok val
  | BPromote i | BDel i => (i < length xs)%nat
  | BUpdate i val => (i < length xs)%nat ∧ val_ok val
  end.
Definition lru_op (N : nat) (o : bop) (xs : list entry) : list entry * list entry :=
  match o with
  | BInsert k val => (drop (N - 1) xs, (k, given val) :: take (N - 1) xs)
  | BPromote i => ([], match xs !! i with Some e => e :: delete i xs | None => xs end)
  | BDel i => ([], delete i xs)
  | BUpdate i val => ([], match xs !! i with Some e => <[i := (e.1, given val)]> xs | None => xs end)
  end.
(** C25: a fixed bucket is an LRU list of at most [N] entries.  Inserting puts the
    entry in front and evicts the last entry exactly when the bucket is full,
    promoting moves an entry to the front, deleting and updating leave the order
    of the others; no access leaves the array, and no key is in it twice. *)
Theorem fixed_bucket_lru {laws : CCDescriptorLaws} N b xs o : (0 < N)%nat → fixed_rep N b xs → bop_ok o xs →
  ∃ b', bop_run N o b = Ok ((lru_op N o xs).1, b') ∧ fixed_rep N b' (lru_op N o xs).2.
Proof.
  intros HN Hr Ho. destruct o as [k val|i|i|i val]; cbn [bop_run bop_ok lru_op] in *.
  - destruct Ho as (Hk & Hin & Hv). destruct (fixed_insert_ok N HN b xs k val Hr Hk Hin Hv) as (b' & -> & Hr'). exists b'. split; [|done]. cbn. f_equal. f_equal.
    destruct Hr as (zs & -> & Hl & _). rewrite length_app in Hl. assert (length (drop (N - 1) xs) ≤ 1)%nat as Hd by (rewrite length_drop; lia).
    destruct (drop (N - 1) xs) as [|e [|]]; cbn in Hd; [done|done|lia].
  - apply lookup_lt_is_Some in Ho as [e He]. destruct (fixed_promote_ok N HN b xs i e Hr He) as (b' & -> & Hr'). exists b'. by rewrite He.
  - destruct (fixed_del_ok N HN b xs i Hr Ho) as (b' & -> & Hr'). by exists b'.
  - destruct Ho as [[[k v] He]%lookup_lt_is_Some Hv]. destruct (fixed_update_ok N HN b xs i k v val Hr He Hv) as (b' & -> & Hr'). exists b'. by rewrite He.
Qed.
End lru.

(** A bucket of two entries, with numbers for keys and values. *)
#[local] Instance cex_desc : CCDescriptor := {|
  Key := Z; Value := Z; isEmpty k := k =? 0; key_bytes k := [k mod 256]; sizeof_Value := 8; kHasValues := true; zeroKey := 0; zeroVal := 0 |}.
#[local] Instance cex_laws : CCDescriptorLaws.
Proof. by split. Qed.
Lemma fixed_bucket_lru_witness : ∃ b', bop_run 2 (BInsert (3 : Key) (Some (30 : Value))) [(2, 20); (1, 10)] = Ok ([(1, 10)], b') ∧ fixed_rep 2 b' [(3, 30); (2, 20)].
Proof.
  apply (fixed_bucket_lru (desc := cex_desc) 2 [(2, 20); (1, 10)] [(2, 20); (1, 10)] (BInsert (desc := cex_desc) 3 (Some 30))).
  - lia.
  - exists []. split; [done|]. split; [done|]. split; [done|]. split; [by repeat constructor|]. cbn. by repeat constructor; set_solver.
  - split; [done|]. split; [cbn; set_solver|done].
Defined.
