(* ===== verification/CompactCache.v ===== *)
(** The compact cache ([compact_cache/CCache.h], [CCache-inl.h]) and the chunks
    below it ([allocator/CCacheAllocator.cpp]).

    A compact cache is a table of chunks of buckets.  [furcHash] chooses the chunk
    of a key and [murmurHash2] the bucket in it, so that a key has the same place
    in every chunk.  A resize runs in phases while requests go on: writes go to
    the old and the new place of a key while entries are copied, then reads move
    over, then the old entries are deleted.  A request is one step here, and so is
    the work of a resize on one bucket; whether a timed lock was obtained is an
    argument.  A resize reads the number of chunks and the configured size before
    it takes its lock, so that they are arguments too.  Values have a fixed size.
    The calls of the user's callbacks are recorded in order.  Statistics are left
    out. *)
From S2P Require Import Prelude FurcHash CompactBucket.
From S2P Require CacheAllocator.

Inductive CCacheReturn := TIMEOUT | ERROR | NOTFOUND | FOUND.
Inductive BucketReturn := BR_ERROR | BR_NOTFOUND | BR_FOUND | BR_PROMOTE.
Inductive RehashOperation := COPY | DELETE.
Inductive Operation := READ | WRITE.
Inductive PurgeFilterResult := SKIP | PURGE | ABORT.
#[global] Instance BucketReturn_eq_dec : EqDecision BucketReturn.
Proof. solve_decision. Defined.
#[global] Instance Operation_eq_dec : EqDecision Operation.
Proof. solve_decision. Defined.

Section ccache.
Context {desc : CCDescriptor} {B : BucketDescriptor}.

Inductive CbEvent :=
  | CbRemove (k : Key) (v : Value) (ctx : CacheAllocator.RemoveContext)
  | CbReplace (k : Key) (old new : Value).
Record CompactCache := mkCC {
  chunks_ : list (list Bucket);                  (** of the allocator *)
  bucketsPerChunk_ : Z;
  numChunks_ : Z;
  pendingNumChunks_ : Z;
  allowPromotions_ : bool;
  removeCb_ : bool;                              (** set by the user *)
  replaceCb_ : bool;
  validCb_ : option (Key → bool);
  callbacks : list CbEvent;
}.
Definition with_chunks (x : list (list Bucket)) (cc : CompactCache) : CompactCache :=
  mkCC x (bucketsPerChunk_ cc) (numChunks_ cc) (pendingNumChunks_ cc) (allowPromotions_ cc) (removeCb_ cc) (replaceCb_ cc) (validCb_ cc) (callbacks cc).
Definition with_num (x : Z) (cc : CompactCache) : CompactCache :=
  mkCC (chunks_ cc) (bucketsPerChunk_ cc) x (pendingNumChunks_ cc) (allowPromotions_ cc) (removeCb_ cc) (replaceCb_ cc) (validCb_ cc) (callbacks cc).
Definition with_pending (x : Z) (cc : CompactCache) : CompactCache :=
  mkCC (chunks_ cc) (bucketsPerChunk_ cc) (numChunks_ cc) x (allowPromotions_ cc) (removeCb_ cc) (replaceCb_ cc) (validCb_ cc) (callbacks cc).
Definition with_callbacks (evs : list CbEvent) (cc : CompactCache) : CompactCache :=
  mkCC (chunks_ cc) (bucketsPerChunk_ cc) (numChunks_ cc) (pendingNumChunks_ cc) (allowPromotions_ cc) (removeCb_ cc) (replaceCb_ cc) (validCb_ cc) (callbacks cc ++ evs).

(** ** Chunks *)
Definition getNumChunks (cc : CompactCache) : Z := Z.of_nat (length (chunks_ cc)).
Definition getChunk (n : Z) (cc : CompactCache) : result Z := _ ← throw_if (getNumChunks cc <=? n) InvalidArgument; Ok n.
(** [CCacheAllocator::resize] to [numNewChunks] chunks, when [granted] new ones can
    be allocated; chunks are zeroed. *)
Definition alloc_resize (numNewChunks : Z) (granted : nat) (cc : CompactCache) : CompactCache :=
  let chunks := chunks_ cc in
  if numNewChunks <? getNumChunks cc then with_chunks (take (Z.to_nat numNewChunks) chunks) cc
  else with_chunks (chunks ++ replicate (Nat.min granted (Z.to_nat numNewChunks - length chunks)) (replicate (Z.to_nat (bucketsPerChunk_ cc)) zeroBucket)) cc.

Definition bucket_of (cc : CompactCache) (c i : Z) : option Bucket := chunk ← chunks_ cc !! Z.to_nat c; chunk !! Z.to_nat i.
Definition put_bucket (c i : Z) (b : Bucket) (cc : CompactCache) : CompactCache :=
  with_chunks (alter (λ chunk, <[Z.to_nat i := b]> chunk) (Z.to_nat c) (chunks_ cc)) cc.

Definition tableFindChunk (numChunks : Z) (key : Key) (cc : CompactCache) : result Z :=
  _ ← xdcheck (0 <? numChunks);
  _ ← xdcheck (numChunks <=? getNumChunks cc);
  chunkIndex ← furcHash (key_bytes key) (u32 numChunks);
  getChunk chunkIndex cc.
Definition bucket_index (key : Key) (cc : CompactCache) : Z := murmurHash2 (key_bytes key) kMurmur2Seed mod bucketsPerChunk_ cc.
Definition tableFindDblWriteBucket (key : Key) (cc : CompactCache) : result (option Z) :=
  if pendingNumChunks_ cc =? 0 then Ok None
  else
    chunk ← tableFindChunk (numChunks_ cc) key cc;
    chunkNew ← tableFindChunk (pendingNumChunks_ cc) key cc;
    if chunk =? chunkNew then Ok None else Ok (Some chunkNew).

(** ** Operations on a bucket *)
Fixpoint bucketFind_loop (fuel : nat) (b : Bucket) (pos : Z) (key : Key) : result (option Z) :=
  if bd_valid b pos then
    match fuel with
    | O => Undef
    | S fuel => k ← bd_key b pos; if decide (k = key) then Ok (Some pos) else bucketFind_loop fuel b (pos + 1) key
    end
  else Ok None.
Definition bucketFind (b : Bucket) (key : Key) : result (option Z) := bucketFind_loop (Z.to_nat (bd_capacity b)) b 0 key.

Definition onEntryEvicted (cc : CompactCache) (e : entry) : list CbEvent :=
  if removeCb_ cc then
    [CbRemove e.1 e.2 (match validCb_ cc with Some valid => if valid e.1 then CacheAllocator.kEviction else CacheAllocator.kNormal | None => CacheAllocator.kEviction end)]
  else [].
(** A request on a bucket: the result, the value it read, the callbacks, the
    bucket. *)
Definition BucketFn : Type := Bucket → result (BucketReturn * option Value * list CbEvent * Bucket).
Definition bucketSet (cc : CompactCache) (key : Key) (val : option Value) (size : Z) : BucketFn := λ b,
  if (kHasValues && negb (bool_decide (is_Some val))) || (negb (size =? 0) && negb (size =? sizeof_Value)) then Ok (BR_ERROR, None, [], b)
  else
    entry ← bucketFind b key;
    match entry with
    | None =>
        '(rv, evicted, b) ← bd_insert b key val;
        let evs := evicted ≫= onEntryEvicted cc in
        if rv =? -1 then Ok (BR_ERROR, None, evs, b) else Ok (BR_NOTFOUND, None, evs, b)
    | Some pos =>
        old ← bd_val b pos;
        let replaced := if replaceCb_ cc then [CbReplace key old (given val)] else [] in
        '(evicted, b) ← bd_updateVal b pos val;
        Ok (BR_FOUND, None, replaced ++ evicted ≫= onEntryEvicted cc, b)
    end.
(** [copyVal] to a pointer that may be null. *)
Definition copyVal (want : bool) (b : Bucket) (pos : Z) : result (option Value) :=
  if kHasValues && want then v ← bd_val b pos; Ok (Some v) else Ok None.
Definition bucketDel (cc : CompactCache) (key : Key) (want : bool) : BucketFn := λ b,
  entry ← bucketFind b key;
  match entry with
  | None => Ok (BR_NOTFOUND, None, [], b)
  | Some pos =>
      out ← copyVal want b pos;
      v ← bd_val b pos;
      let evs := if removeCb_ cc then [CbRemove key v CacheAllocator.kNormal] else [] in
      b ← bd_del b pos;
      Ok (BR_FOUND, out, evs, b)
  end.
Definition bucketGet (key : Key) (want shouldPromote : bool) : BucketFn := λ b,
  entry ← bucketFind b key;
  match entry with
  | None => Ok (BR_NOTFOUND, None, [], b)
  | Some pos =>
      out ← copyVal want b pos;
      promote ← (if shouldPromote then bd_needs_promote b pos else Ok false);
      Ok (if (promote : bool) then BR_PROMOTE else BR_FOUND, out, [], b)
  end.
Definition bucketPromote (key : Key) (b : Bucket) : result (BucketReturn * Bucket) :=
  entry ← bucketFind b key;
  match entry with
  | None => Ok (BR_NOTFOUND, b)
  | Some pos =>
      needs ← bd_needs_promote b pos;
      b ← (if (needs : bool) then bd_promote b pos else Ok b);
      Ok (BR_FOUND, b)
  end.

(** ** Requests *)
Definition on_bucket (c i : Z) (f : BucketFn) (cc : CompactCache) : result (BucketReturn * option Value * CompactCache) :=
  b ← deref (bucket_of cc c i);
  '(rv, out, evs, b) ← f b;
  Ok (rv, out, with_callbacks evs (put_bucket c i b cc)).
Definition toReturn (rv : BucketReturn) : result CCacheReturn :=
  match rv with BR_ERROR => Ok ERROR | BR_NOTFOUND => Ok NOTFOUND | BR_FOUND => Ok FOUND | BR_PROMOTE => Undef end.
(** [owns] and [ownsPromote]: the locks were obtained within the timeout. *)
Definition callBucketFn (key : Key) (op : Operation) (owns ownsPromote : bool) (f : BucketFn) (cc : CompactCache)
    : result (CCacheReturn * option Value * CompactCache) :=
  if numChunks_ cc =? 0 then Ok (ERROR, None, cc)
  else
    c ← tableFindChunk (numChunks_ cc) key cc;
    let i := bucket_index key cc in
    if negb owns then Ok (TIMEOUT, None, cc)
    else
      '(rv, out, cc) ← on_bucket c i f cc;
      '(rv, cc) ← (if decide (rv = BR_PROMOTE) then
          _ ← xdcheck (bool_decide (op = READ));
          if allowPromotions_ cc && ownsPromote then
            b ← deref (bucket_of cc c i);
            '(_, b) ← bucketPromote key b;
            Ok (BR_FOUND, put_bucket c i b cc)
          else Ok (BR_FOUND, cc)
        else Ok (rv, cc));
      dbl ← (if decide (op = WRITE) then tableFindDblWriteBucket key cc else Ok None);
      match dbl with
      | None => ret ← toReturn rv; Ok (ret, out, cc)
      | Some c' =>
          '(rv', out', cc) ← on_bucket c' i f cc;
          ret ← toReturn (if decide (rv' = BR_ERROR) then BR_ERROR else rv);
          Ok (ret, match out' with Some v => Some v | None => out end, cc)
      end.
Definition set (key : Key) (val : option Value) (size : Z) (owns : bool) (cc : CompactCache) : result (CCacheReturn * option Value * CompactCache) :=
  callBucketFn key WRITE owns false (bucketSet cc key val size) cc.
Definition del (key : Key) (want owns : bool) (cc : CompactCache) : result (CCacheReturn * option Value * CompactCache) :=
  callBucketFn key WRITE owns false (bucketDel cc key want) cc.
Definition get (key : Key) (want shouldPromote owns ownsPromote : bool) (cc : CompactCache) : result (CCacheReturn * option Value * CompactCache) :=
  callBucketFn key READ owns ownsPromote (bucketGet key want shouldPromote) cc.
Definition exists_ (key : Key) (owns : bool) (cc : CompactCache) : result (CCacheReturn * option Value * CompactCache) :=
  callBucketFn key READ owns false (bucketGet key false false) cc.

(** ** Purging *)
Fixpoint purge_bucket (fuel : nat) (shouldPurge : Key → option Value → PurgeFilterResult) (cc : CompactCache) (b : Bucket) (pos : Z)
    : result (bool * list CbEvent * Bucket) :=
  if bd_valid b pos then
    match fuel with
    | O => Undef
    | S fuel =>
        k ← bd_key b pos;
        v ← bd_val b pos;
        match shouldPurge k (if kHasValues then Some v else None) with
        | ABORT => Ok (false, [], b)
        | SKIP => purge_bucket fuel shouldPurge cc b (pos + 1)
        | PURGE =>
            b ← bd_del b pos;
            '(rv, evs, b) ← purge_bucket fuel shouldPurge cc b pos;
            Ok (rv, (if removeCb_ cc then [CbRemove k v CacheAllocator.kNormal] else []) ++ evs, b)
        end
    end
  else Ok (true, [], b).
(** All buckets of [n] chunks, in order. *)
Definition all_buckets (n bucketsPerChunk : Z) : list (Z * Z) := seqZ 0 n ≫= λ c, (λ i, (c, i)) <$> seqZ 0 bucketsPerChunk.
Fixpoint purge_all (shouldPurge : Key → option Value → PurgeFilterResult) (todo : list (Z * Z)) (cc : CompactCache) : result (bool * CompactCache) :=
  match todo with
  | [] => Ok (true, cc)
  | (c, i) :: todo =>
      c ← getChunk c cc;
      b ← deref (bucket_of cc c i);
      '(rv, evs, b) ← purge_bucket (Z.to_nat (bd_capacity b)) shouldPurge cc b 0;
      let cc := with_callbacks evs (put_bucket c i b cc) in
      if (rv : bool) then purge_all shouldPurge todo cc else Ok (false, cc)
  end.
Definition purge (shouldPurge : Key → option Value → PurgeFilterResult) (cc : CompactCache) : result (bool * CompactCache) :=
  _ ← xdcheck (pendingNumChunks_ cc =? 0);
  purge_all shouldPurge (all_buckets (numChunks_ cc) (bucketsPerChunk_ cc)) cc.

(** ** Resizing *)
(** The loop of [tableRehash] over the entries of one bucket. *)
Fixpoint rehash_loop (fuel : nat) (op : RehashOperation) (newNumChunks n i max_move : Z) (pos moved : Z) (cc : CompactCache) : result CompactCache :=
  b ← deref (bucket_of cc n i);
  if bd_valid b pos then
    match fuel with
    | O => Undef
    | S fuel =>
        k ← bd_key b pos;
        v ← bd_val b pos;
        let valid_entry := match validCb_ cc with Some valid => valid k | None => true end in
        new_chunk ← tableFindChunk newNumChunks k cc;
        if new_chunk =? n then rehash_loop fuel op newNumChunks n i max_move (pos + 1) moved cc
        else match op with
        | COPY =>
            if valid_entry && (moved <? max_move) then
              '(_, _, cc) ← on_bucket new_chunk i (bucketSet cc k (if kHasValues then Some v else None) 0) cc;
              rehash_loop fuel op newNumChunks n i max_move (pos + 1) (moved + 1) cc
            else
              let evs := if removeCb_ cc then [CbRemove k v (if valid_entry then CacheAllocator.kEviction else CacheAllocator.kNormal)] else [] in
              rehash_loop fuel op newNumChunks n i max_move (pos + 1) moved (with_callbacks evs cc)
        | DELETE =>
            b ← bd_del b pos;
            rehash_loop fuel op newNumChunks n i max_move pos moved (put_bucket n i b cc)
        end
    end
  else Ok cc.
(** [tableRehash] on the bucket [i] of chunk [n]. *)
Definition rehash_bucket (op : RehashOperation) (oldNumChunks newNumChunks n i : Z) (cc : CompactCache) : result CompactCache :=
  _ ← xdcheck (newNumChunks <=? getNumChunks cc);
  _ ← xdcheck ((0 <? newNumChunks) && (0 <? oldNumChunks));
  n ← getChunk n cc;
  b ← deref (bucket_of cc n i);
  let capacity := bd_capacity b in
  let max_move := Z.min (Z.max (u64 (newNumChunks * capacity) / oldNumChunks) 1) capacity in
  rehash_loop (Z.to_nat capacity) op newNumChunks n i max_move 0 0 cc.

(** What a resize has left to do; the lists are the buckets of [tableRehash]. *)
Inductive Phase :=
  | Idle
  | Copying (oldNumChunks newNumChunks : Z) (todo : list (Z * Z))
  | Switched (oldNumChunks newNumChunks : Z)
  | Deleting (oldNumChunks newNumChunks : Z) (todo : list (Z * Z)).
(** [resize] up to the first bucket.  [oldNumChunks] and [numChunksWanted] are what
    it read of [numChunks_] and of the configured size before it took the lock of
    resizes, and [configured] what the allocator finds when it reads the configured
    size again. *)
Definition resize_begin (oldNumChunks numChunksWanted configured : Z) (granted : nat) (cc : CompactCache) : result (Phase * CompactCache) :=
  if oldNumChunks =? numChunksWanted then Ok (Idle, cc)
  else
    let cc := if oldNumChunks <? numChunksWanted then alloc_resize configured granted cc else cc in
    let newNumChunks := if oldNumChunks <? numChunksWanted then getNumChunks cc else numChunksWanted in
    if (oldNumChunks <? numChunksWanted) && negb (newNumChunks =? numChunksWanted) && (newNumChunks =? oldNumChunks) then Ok (Idle, cc)
    else
      _ ← xdcheck (negb (newNumChunks =? oldNumChunks));
      _ ← xdcheck (pendingNumChunks_ cc =? 0);
      if (0 <? newNumChunks) && (0 <? oldNumChunks) then
        Ok (Copying oldNumChunks newNumChunks (all_buckets oldNumChunks (bucketsPerChunk_ cc)), with_pending newNumChunks cc)
      else
        let cc := with_num newNumChunks cc in
        Ok (Idle, if newNumChunks <? oldNumChunks then alloc_resize configured granted cc else cc).
Definition resize_step (ph : Phase) (configured : Z) (granted : nat) (cc : CompactCache) : result (Phase * CompactCache) :=
  match ph with
  | Idle => Ok (Idle, cc)
  | Copying old new ((n, i) :: todo) => cc ← rehash_bucket COPY old new n i cc; Ok (Copying old new todo, cc)
  | Copying old new [] => Ok (Switched old new, with_num new cc)
  | Switched old new => Ok (Deleting old new (all_buckets old (bucketsPerChunk_ cc)), with_pending 0 cc)
  | Deleting old new ((n, i) :: todo) => cc ← rehash_bucket DELETE old new n i cc; Ok (Deleting old new todo, cc)
  | Deleting old new [] => Ok (Idle, if new <? old then alloc_resize configured granted cc else cc)
  end.
End ccache.
