(* ===== verification/CompactSpec.v ===== *)
(** The compact cache never serves a stale value: whatever requests and steps of
    a resize come in between, what is read for a key is what was last written. *)
From S2P Require Import Prelude FurcHash CompactBucket CompactCache.

Section spec.
Context {desc : CCDescriptor} {laws : CCDescriptorLaws} {B : BucketDescriptor} {BL : BucketLaws}.
Implicit Types (cc : CompactCache) (k key : Key) (v : Value) (xs : list entry).

(** ** Buckets *)
Lemma find_loop_ok b xs key fuel : ∀ pos, bd_rep b xs → (length xs ≤ pos + fuel)%nat → key ∉ (take pos xs).*1 →
  (∃ i v, bucketFind_loop fuel b (Z.of_nat pos) key = Ok (Some (Z.of_nat i)) ∧ xs !! i = Some (key, v)) ∨
  (bucketFind_loop fuel b (Z.of_nat pos) key = Ok None ∧ key ∉ xs.*1).
Proof.
  induction fuel as [|fuel IH]; intros pos Hr Hl Hin; cbn [bucketFind_loop]; rewrite (bd_valid_law _ _ _ Hr).
  - rewrite bool_decide_eq_false_2 by lia. right. split; [done|]. by rewrite take_ge in Hin by lia.
  - case_bool_decide as Hp; [|right; split; [done|]; by rewrite take_ge in Hin by lia].
    destruct (lookup_lt_is_Some_2 xs pos) as [[k v] He]; [lia|]. destruct (bd_entry_law _ _ _ _ _ Hr He) as [-> _]. cbn [mbind result_bind]. case_decide as Hk.
    + left. exists pos, v. by rewrite He, Hk.
    + replace (Z.of_nat pos + 1) with (Z.of_nat (S pos)) by lia. apply IH; [done|lia|]. rewrite (take_S_r _ _ _ He), fmap_app. set_solver.
Qed.
Lemma bucketFind_ok b xs key : bd_rep b xs →
  (∃ i v, bucketFind b key = Ok (Some (Z.of_nat i)) ∧ xs !! i = Some (key, v)) ∨ (bucketFind b key = Ok None ∧ key ∉ xs.*1).
Proof. intros Hr. apply (find_loop_ok b xs key _ 0); [done| |set_solver]. pose proof (bd_rep_capacity _ _ Hr). lia. Qed.
Lemma cc_entry_unique xs i key v j v' : NoDup xs.*1 → xs !! i = Some (key, v) → xs !! j = Some (key, v') → i = j.
Proof. intros Hn Hi Hj. apply (NoDup_lookup _ i j key Hn); rewrite list_lookup_fmap; [by rewrite Hi|by rewrite Hj]. Qed.
Lemma in_delete xs i key v k' v' : NoDup xs.*1 → xs !! i = Some (key, v) → (k', v') ∈ delete i xs → k' ≠ key ∧ (k', v') ∈ xs.
Proof.
  intros Hn Hi Hin. pose proof (delete_Permutation xs i _ Hi) as HP. split; [|rewrite HP; by right]. intros ->. rewrite HP in Hn. cbn in Hn. apply NoDup_cons in Hn as [Hn _].
  apply Hn. apply list_elem_of_fmap. by exists (key, v').
Qed.

Lemma rep_unique b xs ys : bd_rep b xs → bd_rep b ys → xs = ys.
Proof.
  intros Hx Hy. assert (∀ us ws, bd_rep b us → bd_rep b ws → ∀ i e, us !! i = Some e → ws !! i = Some e) as Hsub.
  { intros us ws Hu Hw i [k v] Hi. pose proof (lookup_lt_Some _ _ _ Hi) as Hlt. pose proof (bd_valid_law b us (Z.of_nat i) Hu) as E. rewrite (bd_valid_law b ws (Z.of_nat i) Hw) in E.
    rewrite (bool_decide_eq_true_2 (0 ≤ Z.of_nat i < Z.of_nat (length us))) in E by lia. apply bool_decide_eq_true in E.
    destruct (lookup_lt_is_Some_2 ws i) as [[k' v'] Hi']; [lia|]. destruct (bd_entry_law _ _ _ _ _ Hu Hi) as [E1 E2], (bd_entry_law _ _ _ _ _ Hw Hi') as [E3 E4]. rewrite E1 in E3. rewrite E2 in E4. by simplify_eq. }
  apply list_eq. intros i. apply option_eq. intros e. split; by apply Hsub.
Qed.

(** What a request does to a bucket: it writes [o] for [key]. *)
Definition writes key (o : option Value) (f : BucketFn) : Prop := ∀ b xs, bd_rep b xs →
  ∃ rv out evs b' xs', f b = Ok (rv, out, evs, b') ∧ bd_rep b' xs' ∧ (rv = BR_NOTFOUND ∨ rv = BR_FOUND) ∧ (∀ v, o = Some v → (key, v) ∈ xs') ∧
    (∀ k' v', (k', v') ∈ xs' → (k' = key ∧ o = Some v') ∨ (k' ≠ key ∧ (k', v') ∈ xs)) ∧ (∀ v, out = Some v → (key, v) ∈ xs).
Definition size_ok (size : Z) : Prop := size = 0 ∨ size = sizeof_Value.
Lemma bucketSet_writes cc key val size : isEmpty key = false → val_ok val → size_ok size → writes key (Some (given val)) (bucketSet cc key val size).
Proof.
  intros Hk Hv Hs b xs Hr. unfold bucketSet. assert (kHasValues && negb (bool_decide (is_Some val)) || negb (size =? 0) && negb (size =? sizeof_Value) = false) as ->.
  { apply orb_false_iff. split; [|destruct Hs as [-> | ->]; [done|rewrite Z.eqb_refl; by destruct (sizeof_Value =? 0)]]. unfold val_ok in Hv. destruct kHasValues, val; try done. by destruct (Hv eq_refl). }
  destruct (bucketFind_ok b xs key Hr) as [(i & v & -> & Hi)|(-> & Hin)]; cbn [mbind result_bind].
  - destruct (bd_entry_law _ _ _ _ _ Hr Hi) as [_ ->]. cbn [mbind result_bind]. destruct (bd_update_law _ _ _ _ _ _ Hr Hi Hv) as (ys & ev & xs' & b' & E & -> & Hr' & HP). cbn [mbind result_bind].
    eexists _, _, _, b', xs'. split; [done|]. split; [done|]. split; [by right|]. split; [intros ? [= <-]; rewrite HP; by left|]. split; [|done].
    intros k' v'. rewrite HP. intros [[= -> ->]|Hy]%elem_of_cons; [by left|]. right. apply (in_delete xs i key v); [by eapply bd_rep_keys|done|]. rewrite E. apply elem_of_app. by left.
  - destruct (bd_insert_law _ _ _ _ Hr Hk Hin Hv) as (ys & ev & b' & -> & -> & Hr'). cbn [mbind result_bind].
    eexists BR_NOTFOUND, _, _, b', _. split; [by case_decide|]. split; [done|]. split; [by left|]. split; [intros ? [= <-]; by left|]. split; [|done].
    intros k' v' [[= -> ->]|Hy]%elem_of_cons; [by left|]. right. split; [|apply elem_of_app; by left]. intros ->. apply Hin. rewrite fmap_app. apply elem_of_app. left.
    apply list_elem_of_fmap. by exists (key, v').
Qed.
Lemma copyVal_ok b xs i key v want : bd_rep b xs → xs !! i = Some (key, v) → copyVal want b (Z.of_nat i) = Ok (if kHasValues && want then Some v else None).
Proof. intros Hr Hi. unfold copyVal. destruct (bd_entry_law _ _ _ _ _ Hr Hi) as [_ ->]. by destruct (kHasValues && want). Qed.
Lemma bucketDel_writes cc key want : writes key None (bucketDel cc key want).
Proof.
  intros b xs Hr. unfold bucketDel. destruct (bucketFind_ok b xs key Hr) as [(i & v & -> & Hi)|(-> & Hin)]; cbn [mbind result_bind].
  - rewrite (copyVal_ok b xs i key v) by done. cbn [mbind result_bind]. destruct (bd_entry_law _ _ _ _ _ Hr Hi) as [_ ->]. cbn [mbind result_bind].
    destruct (bd_del_law b xs i Hr) as (b' & -> & Hr'); [by eapply lookup_lt_Some|]. cbn [mbind result_bind]. eexists _, _, _, b', _. split; [done|]. split; [done|]. split; [by right|]. split; [done|].
    split; [|intros w; destruct (kHasValues && want); [intros [= <-]; by eapply list_elem_of_lookup_2|done]]. intros k' v' Hin. right. by eapply in_delete; [eapply bd_rep_keys| |].
  - eexists _, _, _, b, xs. split; [done|]. split; [done|]. split; [by left|]. split; [done|]. split; [|done]. intros k' v' Hk. right. split; [|done]. intros ->. apply Hin, list_elem_of_fmap. by exists (key, v').
Qed.
Lemma bucketGet_ok b xs key want shouldPromote : bd_rep b xs → ∃ rv out, bucketGet key want shouldPromote b = Ok (rv, out, [], b) ∧
  ((rv = BR_NOTFOUND ∧ key ∉ xs.*1 ∧ out = None) ∨ ((rv = BR_FOUND ∨ rv = BR_PROMOTE) ∧ ∃ v, (key, v) ∈ xs ∧ out = if kHasValues && want then Some v else None)).
Proof.
  intros Hr. unfold bucketGet. destruct (bucketFind_ok b xs key Hr) as [(i & v & -> & Hi)|(-> & Hin)]; cbn [mbind result_bind]; [|eexists _, _; split; [done|by left]].
  rewrite (copyVal_ok b xs i key v) by done. cbn [mbind result_bind]. assert (∃ p, (if shouldPromote then bd_needs_promote b (Z.of_nat i) else Ok false) = Ok p) as [p ->].
  { destruct shouldPromote; [apply (bd_needs_promote_law b xs); [done|by eapply lookup_lt_Some]|by eexists]. }
  cbn [mbind result_bind]. eexists _, _. split; [done|]. right. split; [destruct p; by auto|]. exists v. split; [by eapply list_elem_of_lookup_2|done].
Qed.
Lemma bucketPromote_ok b xs key : bd_rep b xs → ∃ rv b' xs', bucketPromote key b = Ok (rv, b') ∧ bd_rep b' xs' ∧ xs' ≡ₚ xs.
Proof.
  intros Hr. unfold bucketPromote. destruct (bucketFind_ok b xs key Hr) as [(i & v & -> & Hi)|(-> & Hin)]; cbn [mbind result_bind]; [|by eexists _, b, xs].
  destruct (bd_needs_promote_law b xs i Hr) as [p ->]; [by eapply lookup_lt_Some|]. cbn [mbind result_bind]. destruct p; [|by eexists _, b, xs].
  destruct (bd_promote_law _ _ _ _ Hr Hi) as (b' & -> & Hr'). cbn [mbind result_bind]. eexists _, b', _. split; [done|]. split; [done|]. symmetry. by apply delete_Permutation.
Qed.

(** ** The table *)
Definition furc key (n : Z) : Z := match furcHash (key_bytes key) n with Ok h => h | _ => 0 end.
Lemma furc_ok key n : 0 < n ≤ 2 ^ 23 → furcHash (key_bytes key) n = Ok (furc key n) ∧ 0 ≤ furc key n < n.
Proof. intros Hn. unfold furc. destruct (furcHash_range (key_bytes key) n (key_bytes_len key)) as (h & -> & Hh); [lia|done]. Qed.
(** Every bucket is well formed, and [P] holds of every entry with its chunk and
    its bucket. *)
Record good cc (P : Z → Z → Key → Value → Prop) : Prop := {
  g_bpc : 0 < bucketsPerChunk_ cc;
  g_shape c chunk : chunks_ cc !! c = Some chunk → length chunk = Z.to_nat (bucketsPerChunk_ cc);
  g_bucket c i b : 0 ≤ c → 0 ≤ i → bucket_of cc c i = Some b →
    ∃ xs, bd_rep b xs ∧ ∀ k v, (k, v) ∈ xs → isEmpty k = false ∧ bucket_index k cc = i ∧ P c i k v;
}.
Lemma good_mono cc (P Q : Z → Z → Key → Value → Prop) : good cc P → (∀ c i k v, 0 ≤ i → bucket_index k cc = i → P c i k v → Q c i k v) → good cc Q.
Proof.
  intros [G1 G2 G3] HPQ. split; [done|done|]. intros c i b Hc Hi Hb. destruct (G3 c i b Hc Hi Hb) as (xs & Hr & Hx). exists xs. split; [done|].
  intros k v Hin. destruct (Hx k v Hin) as (? & ? & ?). by auto.
Qed.
(** What requests leave alone. *)
Record kept cc cc' : Prop := {
  k_bpc : bucketsPerChunk_ cc' = bucketsPerChunk_ cc;
  k_num : numChunks_ cc' = numChunks_ cc;
  k_pending : pendingNumChunks_ cc' = pendingNumChunks_ cc;
  k_chunks : getNumChunks cc' = getNumChunks cc;
}.
Lemma cc_kept_refl cc : kept cc cc.
Proof. done. Qed.
Lemma cc_kept_trans cc1 cc2 cc3 : kept cc1 cc2 → kept cc2 cc3 → kept cc1 cc3.
Proof. intros [] []. split; congruence. Qed.
Lemma kept_index cc cc' k : kept cc cc' → bucket_index k cc' = bucket_index k cc.
Proof. intros Hk. unfold bucket_index. by rewrite (k_bpc _ _ Hk). Qed.
Lemma kept_put c i b cc : kept cc (put_bucket c i b cc).
Proof. split; try done. unfold getNumChunks, put_bucket. cbn. by rewrite length_alter. Qed.
Lemma kept_callbacks evs cc : kept cc (with_callbacks evs cc).
Proof. done. Qed.
Lemma good_callbacks evs cc P : good cc P → good (with_callbacks evs cc) P.
Proof. intros [G1 G2 G3]. by split. Qed.

Lemma bucket_index_range key cc : 0 < bucketsPerChunk_ cc → 0 ≤ bucket_index key cc < bucketsPerChunk_ cc.
Proof. intros. unfold bucket_index. by apply Z.mod_pos_bound. Qed.
Lemma bucket_exists cc P c i : good cc P → 0 ≤ c < getNumChunks cc → 0 ≤ i < bucketsPerChunk_ cc → is_Some (bucket_of cc c i).
Proof.
  intros [G1 G2 G3] Hc Hi. unfold bucket_of, getNumChunks in *. destruct (lookup_lt_is_Some_2 (chunks_ cc) (Z.to_nat c)) as [ch Hch]; [lia|]. rewrite Hch. cbn.
  apply lookup_lt_is_Some. rewrite (G2 _ _ Hch). lia.
Qed.
Lemma bucket_of_put c i b cc c' i' : is_Some (bucket_of cc c i) → 0 ≤ c → 0 ≤ i → 0 ≤ c' → 0 ≤ i' →
  bucket_of (put_bucket c i b cc) c' i' = if decide (c' = c ∧ i' = i) then Some b else bucket_of cc c' i'.
Proof.
  intros [b0 Hb] ? ? ? ?. unfold bucket_of, put_bucket in *. cbn [chunks_ with_chunks]. destruct (chunks_ cc !! Z.to_nat c) as [ch|] eqn:E; [|done]. cbn in Hb.
  destruct (decide (c' = c)) as [->|Hc].
  - rewrite list_lookup_alter_eq, E. cbn. destruct (decide (i' = i)) as [->|Hi].
    + rewrite decide_True by done. apply list_lookup_insert_eq. by eapply lookup_lt_Some.
    + rewrite decide_False by naive_solver. apply list_lookup_insert_ne. lia.
  - rewrite decide_False by naive_solver. by rewrite list_lookup_alter_ne by lia.
Qed.
Lemma good_put cc (P Q : Z → Z → Key → Value → Prop) c i b xs : good cc P → is_Some (bucket_of cc c i) → 0 ≤ c → 0 ≤ i → bd_rep b xs →
  (∀ k v, (k, v) ∈ xs → isEmpty k = false ∧ bucket_index k cc = i ∧ Q c i k v) → (∀ c' i' k v, (c', i') ≠ (c, i) → bucket_index k cc = i' → P c' i' k v → Q c' i' k v) → good (put_bucket c i b cc) Q.
Proof.
  intros [G1 G2 G3] Hb Hc Hi Hr Hx HPQ. split; [done| |].
  - intros c' ch. unfold put_bucket. cbn. destruct (decide (c' = Z.to_nat c)) as [->|Hne]; [|rewrite list_lookup_alter_ne by done; apply G2].
    rewrite list_lookup_alter_eq. destruct (chunks_ cc !! Z.to_nat c) as [ch'|] eqn:E; [|done]. intros [= <-]. rewrite length_insert. by eapply G2.
  - intros c' i' b' Hc' Hi'. rewrite bucket_of_put by done. case_decide as Hd.
    + destruct Hd as [-> ->]. intros [= <-]. by exists xs.
    + intros Hb'. destruct (G3 c' i' b' Hc' Hi' Hb') as (xs' & Hr' & Hx'). exists xs'. split; [done|]. intros k v Hin. destruct (Hx' k v Hin) as (? & ? & ?).
      split; [done|]. split; [done|]. apply HPQ; [naive_solver|done|done].
Qed.
Lemma tableFindChunk_ok n key cc : 0 < n ≤ 2 ^ 23 → n ≤ getNumChunks cc → tableFindChunk n key cc = Ok (furc key n).
Proof.
  intros Hn Hl. unfold tableFindChunk. destruct (furc_ok key n Hn) as [E Hf]. destruct (Z.ltb_spec 0 n), (Z.leb_spec n (getNumChunks cc)); try lia. cbn [xdcheck mbind result_bind].
  rewrite wrap_small by (unfold fits; lia). rewrite E. cbn [mbind result_bind]. unfold getChunk. by destruct (Z.leb_spec (getNumChunks cc) (furc key n)); [lia|].
Qed.

(** ** Requests on a bucket of the table *)
(** After [o] was written for [key] in chunk [c]. *)
Definition written (P : Z → Z → Key → Value → Prop) (c : Z) key (o : option Value) (c' i' : Z) k v : Prop :=
  (k ≠ key ∧ P c' i' k v) ∨ (k = key ∧ ((c' = c ∧ o = Some v) ∨ (c' ≠ c ∧ P c' i' k v))).
Lemma on_bucket_writes cc P c key o f : good cc P → 0 ≤ c < getNumChunks cc → isEmpty key = false → writes key o f →
  ∃ rv out cc' b xs, on_bucket c (bucket_index key cc) f cc = Ok (rv, out, cc') ∧ kept cc cc' ∧ (rv = BR_NOTFOUND ∨ rv = BR_FOUND) ∧ good cc' (written P c key o) ∧
    bucket_of cc' c (bucket_index key cc') = Some b ∧ bd_rep b xs ∧ (∀ v, o = Some v → (key, v) ∈ xs) ∧ (∀ v, out = Some v → ∃ i, P c i key v) ∧
    (∀ c' i', 0 ≤ c' → 0 ≤ i' → (c', i') ≠ (c, bucket_index key cc) → bucket_of cc' c' i' = bucket_of cc c' i').
Proof.
  intros Hg Hc Hk Hf. pose proof (bucket_index_range key cc (g_bpc _ _ Hg)) as Hi. destruct (bucket_exists cc P c (bucket_index key cc) Hg Hc Hi) as [b Hb].
  destruct (g_bucket _ _ Hg c (bucket_index key cc) b ltac:(lia) ltac:(lia) Hb) as (xs & Hr & Hx). destruct (Hf b xs Hr) as (rv & out & evs & b' & xs' & E & Hr' & Hrv & Ho & Hx' & Hout).
  unfold on_bucket. rewrite Hb. cbn [deref mbind result_bind]. rewrite E. cbn [mbind result_bind]. eexists rv, out, _, b', xs'. split; [done|]. split; [eapply cc_kept_trans; [apply kept_put|done]|].
  split; [done|]. split; [|split].
  - apply good_callbacks. eapply (good_put cc P _ c (bucket_index key cc) b' xs'); [done|by eexists|lia|lia|done| |].
    + intros k v Hin. destruct (Hx' k v Hin) as [[-> ->]|[Hne Hin']]; [split; [done|split; [done|]]; right; split; [done|]; by left|].
      destruct (Hx k v Hin') as (? & ? & ?). split; [done|]. split; [done|]. by left.
    + intros c' i' k v Hne Hix HP. destruct (decide (k = key)) as [->|]; [|by left]. right. split; [done|]. right. split; [|done]. intros ->. by rewrite Hix in Hne.
  - change (bucket_index key (with_callbacks evs (put_bucket c (bucket_index key cc) b' cc))) with (bucket_index key cc).
    change (bucket_of (with_callbacks evs ?x)) with (bucket_of x). rewrite bucket_of_put by (done || lia || by eexists). by rewrite decide_True.
  - split; [done|]. split; [done|]. split; [intros v Hv; exists (bucket_index key cc); by apply Hx, Hout|].
    intros c' i' Hc' Hi' Hne. change (bucket_of (with_callbacks evs ?x)) with (bucket_of x). rewrite bucket_of_put by (done || lia || by eexists). rewrite decide_False by naive_solver. done.
Qed.

(** ** Phases *)
(** The chunk [c] is right for an entry in bucket [i], or the entry waits for its
    deletion; [last] is what was last written for a key. *)
Definition place (ph : Phase) (num : Z) (last : Key → option Value) (c i : Z) k v : Prop :=
  match ph with
  | Idle => c = furc k num ∧ last k = Some v
  | Copying old new _ => (c = furc k old ∨ c = furc k new) ∧ last k = Some v
  | Switched old new => (c = furc k new ∧ last k = Some v) ∨ (c ≠ furc k new ∧ c = furc k old)
  | Deleting old new todo => (c = furc k new ∧ last k = Some v) ∨ (c ≠ furc k new ∧ c = furc k old ∧ (c, i) ∈ todo)
  end.
Definition sizes (ph : Phase) cc : Prop :=
  let both old new := 0 < old ≤ 2 ^ 23 ∧ 0 < new ≤ 2 ^ 23 ∧ getNumChunks cc = Z.max old new in
  match ph with
  | Idle => 0 ≤ numChunks_ cc ≤ 2 ^ 23 ∧ pendingNumChunks_ cc = 0 ∧ getNumChunks cc = numChunks_ cc
  | Copying old new _ => both old new ∧ numChunks_ cc = old ∧ pendingNumChunks_ cc = new
  | Switched old new => both old new ∧ numChunks_ cc = new ∧ pendingNumChunks_ cc = new
  | Deleting old new _ => both old new ∧ numChunks_ cc = new ∧ pendingNumChunks_ cc = 0
  end.
Definition todo_ok (ph : Phase) cc : Prop :=
  match ph with
  | Copying old _ todo | Deleting old _ todo => ∀ c i, (c, i) ∈ todo → 0 ≤ c < old ∧ 0 ≤ i < bucketsPerChunk_ cc
  | _ => True
  end.
Lemma sizes_kept ph cc cc' : sizes ph cc → kept cc cc' → sizes ph cc'.
Proof. intros Hs [K1 K2 K3 K4]. destruct ph; unfold sizes in *; by rewrite K2, K3, K4. Qed.
Lemma todo_kept ph cc cc' : todo_ok ph cc → kept cc cc' → todo_ok ph cc'.
Proof. intros Hs [K1 K2 K3 K4]. destruct ph; unfold todo_ok in *; by rewrite ?K1. Qed.
Lemma sizes_num ph cc : sizes ph cc → 0 ≤ numChunks_ cc ≤ 2 ^ 23 ∧ numChunks_ cc ≤ getNumChunks cc.
Proof. destruct ph; unfold sizes; lia. Qed.
Lemma place_here ph cc last i k v : sizes ph cc → place ph (numChunks_ cc) last (furc k (numChunks_ cc)) i k v → last k = Some v.
Proof. destruct ph as [|old new todo|old new|old new todo]; cbn; [tauto|tauto| |]; intros (_ & E & _); rewrite E; tauto. Qed.
(** Where a write goes a second time. *)
Definition dbl_of (ph : Phase) key : option Z :=
  match ph with Copying old new _ => if decide (furc key old = furc key new) then None else Some (furc key new) | _ => None end.
Lemma tableFindDbl_ok ph cc key : sizes ph cc → tableFindDblWriteBucket key cc = Ok (dbl_of ph key).
Proof.
  intros Hs. unfold tableFindDblWriteBucket. destruct ph as [|old new todo|old new|old new todo]; cbn in Hs; cbn [dbl_of].
  - destruct Hs as (_ & -> & _). done.
  - destruct Hs as ((? & ? & ?) & -> & ->). destruct (Z.eqb_spec new 0); [lia|]. rewrite !tableFindChunk_ok by lia. cbn [mbind result_bind].
    destruct (Z.eqb_spec (furc key old) (furc key new)); case_decide; done.
  - destruct Hs as ((? & ? & ?) & -> & ->). destruct (Z.eqb_spec new 0); [lia|]. rewrite !tableFindChunk_ok by lia. cbn [mbind result_bind]. by rewrite Z.eqb_refl.
  - destruct Hs as (_ & _ & ->). done.
Qed.
Definition upd (last : Key → option Value) key (o : option Value) k : option Value := if decide (k = key) then o else last k.
Lemma place_written ph cc last key o c i k v : sizes ph cc → dbl_of ph key = None →
  written (place ph (numChunks_ cc) last) (furc key (numChunks_ cc)) key o c i k v → place ph (numChunks_ cc) (upd last key o) c i k v.
Proof.
  intros Hs Hd [[Hk HP]|[-> [[-> ->]|[Hc HP]]]].
  - unfold place, upd in *. destruct ph; by rewrite decide_False.
  - unfold place, upd. destruct ph as [|old new todo|old new|old new todo]; cbn in Hs; rewrite decide_True by done; [done|split; [left|done]|left|left]; intuition congruence.
  - unfold place, dbl_of, upd in *. destruct ph as [|old new todo|old new|old new todo]; cbn in Hs; destruct Hs as (_ & En & _).
    + by destruct HP.
    + case_decide; [|done]. exfalso. intuition congruence.
    + right. rewrite En in Hc. tauto.
    + right. rewrite En in Hc. tauto.
Qed.
Lemma place_written2 ph cc last key o c2 c i k v : sizes ph cc → dbl_of ph key = Some c2 →
  written (written (place ph (numChunks_ cc) last) (furc key (numChunks_ cc)) key o) c2 key o c i k v → place ph (numChunks_ cc) (upd last key o) c i k v.
Proof.
  intros Hs Hd HW. destruct ph as [|old new todo|old new|old new todo]; try done. cbn in Hs. destruct Hs as (_ & En & _). cbn in Hd. case_decide; [done|]. injection Hd as <-.
  unfold written, place, upd in *. rewrite En in HW. case_decide; intuition congruence.
Qed.

(** ** Requests *)
Lemma call_writes ph cc last key o ownsP f : sizes ph cc → good cc (place ph (numChunks_ cc) last) → numChunks_ cc ≠ 0 → isEmpty key = false → writes key o f →
  ∃ ret out cc' b xs, callBucketFn key WRITE true ownsP f cc = Ok (ret, out, cc') ∧ kept cc cc' ∧ (ret = NOTFOUND ∨ ret = FOUND) ∧
    good cc' (place ph (numChunks_ cc) (upd last key o)) ∧ bucket_of cc' (furc key (numChunks_ cc)) (bucket_index key cc') = Some b ∧ bd_rep b xs ∧
    (∀ v, o = Some v → (key, v) ∈ xs) ∧ (∀ v, out = Some v → last key = Some v).
Proof.
  intros Hs Hg Hn Hk Hf. pose proof (sizes_num ph cc Hs) as [Hn1 Hn2]. destruct (furc_ok key (numChunks_ cc)) as [_ Hc]; [lia|]. set (c1 := furc key (numChunks_ cc)) in *.
  unfold callBucketFn. destruct (Z.eqb_spec (numChunks_ cc) 0); [lia|]. rewrite tableFindChunk_ok by lia. cbn [mbind result_bind negb]. fold c1.
  destruct (on_bucket_writes cc _ c1 key o f Hg ltac:(lia) Hk Hf) as (rv & out & cc1 & b1 & xs1 & -> & Hk1 & Hrv & Hg1 & Hb1 & Hr1 & Ho1 & Hout1 & _). cbn [mbind result_bind].
  rewrite decide_False by (by destruct Hrv as [-> | ->]). cbn [mbind result_bind]. rewrite decide_True by done. pose proof (sizes_kept _ _ _ Hs Hk1) as Hs1. rewrite (tableFindDbl_ok ph) by done. cbn [mbind result_bind].
  assert (∃ ret, toReturn rv = Ok ret ∧ (ret = NOTFOUND ∨ ret = FOUND)) as (ret & Eret & Hret) by (destruct Hrv as [-> | ->]; eexists; by eauto).
  assert (∀ v, out = Some v → last key = Some v) as Hout. { intros v Hv. destruct (Hout1 v Hv) as [i HP]. exact (place_here ph cc last _ key v Hs HP). }
  destruct (dbl_of ph key) as [c2|] eqn:Ed.
  - assert (0 ≤ c2 < getNumChunks cc1 ∧ c2 ≠ c1 ∧ ∃ old new todo, ph = Copying old new todo) as (Hc2 & Hne & old & new & todo & Eph).
    { rewrite (k_chunks _ _ Hk1). destruct ph as [|old new todo|old new|old new todo]; try done. cbn in Hs, Ed. case_decide; [done|]. injection Ed as <-. unfold c1.
      destruct Hs as ((? & ? & ?) & -> & _). destruct (furc_ok key new) as [_ ?]; [lia|]. split; [lia|]. split; [congruence|by eauto]. }
    destruct (on_bucket_writes cc1 _ c2 key o f Hg1 Hc2 Hk Hf) as (rv2 & out2 & cc2 & b2 & xs2 & E2 & Hk2 & Hrv2 & Hg2 & _ & _ & _ & Hout2 & Hother).
    rewrite <- (kept_index cc cc1) by done. rewrite E2. cbn [mbind result_bind]. rewrite decide_False by (by destruct Hrv2 as [-> | ->]). rewrite Eret. cbn [mbind result_bind].
    eexists ret, _, cc2, b1, xs1. split; [done|]. split; [by eapply cc_kept_trans|]. split; [done|]. split.
    { eapply good_mono; [exact Hg2|]. intros c i k v _ _. by apply place_written2. }
    split. { rewrite (kept_index cc1 cc2) by done. pose proof (bucket_index_range key cc1 (g_bpc _ _ Hg1)). rewrite Hother; [done|lia|lia|]. intros Heq. injection Heq. congruence. }
    split; [done|]. split; [done|]. intros v. destruct out2 as [v2|]; [|apply Hout]. intros [= ->]. destruct (Hout2 v eq_refl) as (i & [[Hx _]|[_ [[Hx _]|[_ HP]]]]); [done|done|].
    rewrite Eph in HP. apply HP.
  - rewrite Eret. cbn [mbind result_bind]. eexists ret, out, cc1, b1, xs1. split; [done|]. split; [done|]. split; [done|]. split; [|done].
    eapply good_mono; [exact Hg1|]. intros c i k v _ _. by apply place_written.
Qed.
Lemma call_get ph cc last key want shouldPromote ownsP : sizes ph cc → good cc (place ph (numChunks_ cc) last) → numChunks_ cc ≠ 0 →
  ∃ ret out cc' b xs, callBucketFn key READ true ownsP (bucketGet key want shouldPromote) cc = Ok (ret, out, cc') ∧ kept cc cc' ∧ good cc' (place ph (numChunks_ cc) last) ∧
    bucket_of cc (furc key (numChunks_ cc)) (bucket_index key cc) = Some b ∧ bd_rep b xs ∧
    ((ret = NOTFOUND ∧ key ∉ xs.*1 ∧ out = None) ∨ (ret = FOUND ∧ ∃ v, (key, v) ∈ xs ∧ last key = Some v ∧ out = if kHasValues && want then Some v else None)).
Proof.
  intros Hs Hg Hn. pose proof (sizes_num ph cc Hs) as [Hn1 Hn2]. destruct (furc_ok key (numChunks_ cc)) as [_ Hc]; [lia|]. set (c1 := furc key (numChunks_ cc)) in *.
  pose proof (bucket_index_range key cc (g_bpc _ _ Hg)) as Hi. set (i := bucket_index key cc) in *. destruct (bucket_exists cc _ c1 i Hg) as [b Hb]; [lia|lia|].
  destruct (g_bucket _ _ Hg c1 i b ltac:(lia) ltac:(lia) Hb) as (xs & Hr & Hx). destruct (bucketGet_ok b xs key want shouldPromote Hr) as (rv & out & E & Hrv).
  unfold callBucketFn. destruct (Z.eqb_spec (numChunks_ cc) 0); [lia|]. rewrite tableFindChunk_ok by lia. cbn [mbind result_bind negb]. fold c1. fold i. unfold on_bucket. rewrite Hb.
  cbn [deref mbind result_bind]. rewrite E. cbn [mbind result_bind]. set (cc1 := with_callbacks [] (put_bucket c1 i b cc)).
  assert (kept cc cc1) as Hk1 by (eapply cc_kept_trans; [apply kept_put|done]).
  assert (good cc1 (place ph (numChunks_ cc) last)) as Hg1. { apply good_callbacks. eapply (good_put cc _ _ c1 i b xs); [done|by eexists|lia|lia|done|done|done]. }
  assert (bucket_of cc1 c1 i = Some b) as Hb1. { unfold cc1. change (bucket_of (with_callbacks [] ?x)) with (bucket_of x). rewrite bucket_of_put by (done || lia || by eexists). by rewrite decide_True. }
  destruct Hrv as [(-> & Hin & ->)|(Hrv & v & Hin & ->)].
  - rewrite !decide_False by done. cbn [mbind result_bind toReturn]. eexists _, _, cc1, b, xs. split; [done|]. split; [done|]. split; [done|]. split; [done|]. split; [done|]. by left.
  - assert (last key = Some v) as Hl. { destruct (Hx key v Hin) as (_ & _ & HP). exact (place_here ph cc last _ key v Hs HP). }
    assert (∃ cc2, (if decide (rv = BR_PROMOTE) then _ ← xdcheck (bool_decide (READ = READ));
          if allowPromotions_ cc1 && ownsP then b ← deref (bucket_of cc1 c1 i); '(_, b) ← bucketPromote key b; Ok (BR_FOUND, put_bucket c1 i b cc1)
          else Ok (BR_FOUND, cc1) else Ok (rv, cc1)) = Ok (BR_FOUND, cc2) ∧ kept cc cc2 ∧ good cc2 (place ph (numChunks_ cc) last)) as (cc2 & -> & Hk2 & Hg2).
    { destruct Hrv as [-> | ->]; [by exists cc1|]. rewrite decide_True by done. cbn [bool_decide xdcheck mbind result_bind]. destruct (allowPromotions_ cc1 && ownsP); [|by exists cc1].
      rewrite Hb1. cbn [deref mbind result_bind]. destruct (bucketPromote_ok b xs key Hr) as (rv' & b' & xs' & -> & Hr' & HP). cbn [mbind result_bind]. exists (put_bucket c1 i b' cc1).
      split; [done|]. split; [eapply cc_kept_trans; [done|apply kept_put]|]. eapply (good_put cc1 _ _ c1 i b' xs'); [done|by eexists|lia|lia|done| |done].
      intros k w. rewrite HP. apply Hx. }
    cbn [mbind result_bind]. rewrite decide_False by done. cbn [mbind result_bind toReturn]. eexists _, _, cc2, b, xs. split; [done|]. split; [done|]. split; [done|]. split; [done|]. split; [done|].
    right. split; [done|]. by exists v.
Qed.

(** ** Rehashing *)
Definition listed cc (P : Z → Z → Key → Value → Prop) (c i : Z) xs : Prop := ∀ k v, (k, v) ∈ xs → isEmpty k = false ∧ bucket_index k cc = i ∧ P c i k v.
Lemma listed_kept cc cc' P c i xs : kept cc cc' → listed cc P c i xs → listed cc' P c i xs.
Proof. intros Hk Hx k v Hin. rewrite (kept_index cc cc') by done. by apply Hx. Qed.
Lemma given_val v : given (if kHasValues then Some v else None) = v.
Proof. unfold given. destruct kHasValues eqn:E; [done|]. symmetry. by apply novalue. Qed.
Lemma copy_loop_ok old new todo last n i mm b xs fuel : let ph := Copying old new todo in let P := place ph old last in ∀ pos moved cc,
  sizes ph cc → good cc P → bucket_of cc n i = Some b → bd_rep b xs → listed cc P n i xs → 0 ≤ n → 0 ≤ i → (length xs ≤ pos + fuel)%nat →
  ∃ cc', rehash_loop fuel COPY new n i mm (Z.of_nat pos) moved cc = Ok cc' ∧ kept cc cc' ∧ good cc' P.
Proof.
  intros ph P. induction fuel as [|fuel IH]; intros pos moved cc Hs Hg Hb Hr Hx Hn Hi Hl; cbn [rehash_loop]; rewrite Hb; cbn [deref mbind result_bind]; rewrite (bd_valid_law _ _ _ Hr).
  { rewrite bool_decide_eq_false_2 by lia. by exists cc. }
  case_bool_decide as Hp; [|by exists cc]. destruct (lookup_lt_is_Some_2 xs pos) as [[k v] He]; [lia|]. destruct (bd_entry_law _ _ _ _ _ Hr He) as [-> ->]. cbn [mbind result_bind].
  pose proof Hs as ((Ho1 & Hn1 & Hm) & Enum & _). rewrite tableFindChunk_ok by lia. cbn [mbind result_bind]. replace (Z.of_nat pos + 1) with (Z.of_nat (S pos)) by lia.
  destruct (Z.eqb_spec (furc k new) n) as [Ec|Ec]; [apply IH; try done; lia|].
  destruct (Hx k v) as (Hk & Hix & HP); [by eapply list_elem_of_lookup_2|]. destruct (furc_ok k new Hn1) as [_ Hf].
  destruct (_ && _).
  - destruct (on_bucket_writes cc P (furc k new) k (Some v) (bucketSet cc k (if kHasValues then Some v else None) 0)) as (rv & out & cc1 & b1 & xs1 & E & Hk1 & _ & Hg1 & _ & _ & _ & _ & Hother);
      [done|lia|done|rewrite <- (given_val v) at 1; apply bucketSet_writes; [done|intros ->; done|by left]|].
    rewrite Hix in E. rewrite E. cbn [mbind result_bind]. destruct (IH (S pos) (moved + 1) cc1) as (cc' & E' & Hk' & Hg'); try done; try lia.
    + by eapply sizes_kept.
    + eapply good_mono; [exact Hg1|]. intros c' i' k' v' _ _ [[? ?]|[-> [[-> [= ->]]|[_ ?]]]]; [done| |done]. split; [by right|apply HP].
    + rewrite Hother; [done|done|done|]. rewrite Hix. congruence.
    + by eapply listed_kept.
    + exists cc'. split; [done|]. split; [by eapply cc_kept_trans|done].
  - destruct (IH (S pos) moved (with_callbacks (if removeCb_ cc then [CbRemove k v (if match validCb_ cc with Some valid => valid k | None => true end then CacheAllocator.kEviction else CacheAllocator.kNormal)] else []) cc))
      as (cc' & E' & Hk' & Hg'); try done; try lia; [by apply good_callbacks|]. exists cc'. split; [done|]. split; [eapply cc_kept_trans; [apply kept_callbacks|done]|done].
Qed.
Lemma delete_loop_ok old new rest last n i mm fuel : let ph := Deleting old new ((n, i) :: rest) in let P := place ph new last in ∀ pos moved cc b xs,
  sizes ph cc → good cc P → bucket_of cc n i = Some b → bd_rep b xs → listed cc P n i xs → 0 ≤ n → 0 ≤ i → (length xs ≤ pos + fuel)%nat →
  (∀ k v, (k, v) ∈ take pos xs → furc k new = n) →
  ∃ cc' b' xs', rehash_loop fuel DELETE new n i mm (Z.of_nat pos) moved cc = Ok cc' ∧ kept cc cc' ∧ good cc' P ∧ bucket_of cc' n i = Some b' ∧ bd_rep b' xs' ∧
    listed cc' P n i xs' ∧ ∀ k v, (k, v) ∈ xs' → furc k new = n.
Proof.
  intros ph P. induction fuel as [|fuel IH]; intros pos moved cc b xs Hs Hg Hb Hr Hx Hn Hi Hl Hd; cbn [rehash_loop]; rewrite Hb; cbn [deref mbind result_bind]; rewrite (bd_valid_law _ _ _ Hr).
  { rewrite bool_decide_eq_false_2 by lia. rewrite take_ge in Hd by lia. by exists cc, b, xs. }
  case_bool_decide as Hp; [|rewrite take_ge in Hd by lia; by exists cc, b, xs].
  destruct (lookup_lt_is_Some_2 xs pos) as [[k v] He]; [lia|]. destruct (bd_entry_law _ _ _ _ _ Hr He) as [-> ->]. cbn [mbind result_bind].
  pose proof Hs as ((Ho1 & Hn1 & Hm) & Enum & _). rewrite tableFindChunk_ok by lia. cbn [mbind result_bind].
  destruct (Z.eqb_spec (furc k new) n) as [Ec|Ec].
  { replace (Z.of_nat pos + 1) with (Z.of_nat (S pos)) by lia. apply (IH (S pos) moved cc b xs); try done; [lia|]. intros k' v'. rewrite (take_S_r _ _ _ He), elem_of_app, list_elem_of_singleton.
    intros [?|[= -> ->]]; [by eapply Hd|done]. }
  destruct (bd_del_law b xs pos Hr) as (b' & -> & Hr'); [lia|]. cbn [mbind result_bind].
  assert (listed cc P n i (delete pos xs)) as Hx'. { intros k' v' Hin. apply Hx. by eapply (in_delete xs pos k v); [eapply bd_rep_keys| |]. }
  destruct (IH pos moved (put_bucket n i b' cc) b' (delete pos xs)) as (cc' & b2 & xs2 & E & Hk2 & Hrest); try done.
  - eapply sizes_kept; [done|apply kept_put].
  - by eapply (good_put cc P P n i b' (delete pos xs)); [|eexists| | | | |].
  - rewrite bucket_of_put by (done || by eexists). by rewrite decide_True.
  - rewrite length_delete by by eexists. lia.
  - intros k' v'. rewrite delete_take_drop, take_app_le, take_take, Nat.min_id by (rewrite length_take; lia). apply Hd.
  - exists cc', b2, xs2. split; [done|]. split; [eapply cc_kept_trans; [apply kept_put|done]|done].
Qed.
Lemma good_at cc (P Q : Z → Z → Key → Value → Prop) n i b xs : good cc P → bucket_of cc n i = Some b → bd_rep b xs → listed cc Q n i xs →
  (∀ c' i' k v, (c', i') ≠ (n, i) → P c' i' k v → Q c' i' k v) → good cc Q.
Proof.
  intros [G1 G2 G3] Hb Hr Hx HPQ. split; [done|done|]. intros c' i' b' Hc Hi Hb'. destruct (decide ((c', i') = (n, i))) as [[= -> ->]|Hne].
  - rewrite Hb in Hb'. injection Hb' as <-. by exists xs.
  - destruct (G3 c' i' b' Hc Hi Hb') as (xs' & Hr' & Hx'). exists xs'. split; [done|]. intros k v Hin. destruct (Hx' k v Hin) as (? & ? & ?). by auto.
Qed.
Lemma rehash_start ph old new n i cc op : sizes ph cc → (0 < old ≤ 2 ^ 23 ∧ 0 < new ≤ 2 ^ 23 ∧ getNumChunks cc = Z.max old new) → 0 ≤ n < old → ∀ b, bucket_of cc n i = Some b →
  ∃ mm, rehash_bucket op old new n i cc = rehash_loop (Z.to_nat (bd_capacity b)) op new n i mm 0 0 cc.
Proof.
  intros Hs (Ho & Hn & Hm) Hi b Hb. unfold rehash_bucket, getChunk. destruct (Z.leb_spec new (getNumChunks cc)); [|lia]. destruct (Z.ltb_spec 0 new), (Z.ltb_spec 0 old); try lia.
  cbn [andb xdcheck mbind result_bind]. destruct (Z.leb_spec (getNumChunks cc) n); [lia|]. cbn [throw_if mbind result_bind]. rewrite Hb. cbn [deref mbind result_bind]. by eexists.
Qed.
Lemma copy_ok old new n i todo last cc : let ph := Copying old new ((n, i) :: todo) in sizes ph cc → todo_ok ph cc → good cc (place ph (numChunks_ cc) last) →
  ∃ cc', rehash_bucket COPY old new n i cc = Ok cc' ∧ kept cc cc' ∧ good cc' (place (Copying old new todo) (numChunks_ cc) last).
Proof.
  intros ph Hs Ht Hg. destruct (Ht n i) as [Hn Hi]; [by left|]. pose proof Hs as (Hb3 & Enum & _). rewrite Enum in *. destruct (bucket_exists cc _ n i Hg) as [b Hb]; [lia|lia|].
  destruct (g_bucket _ _ Hg n i b ltac:(lia) ltac:(lia) Hb) as (xs & Hr & Hx). destruct (rehash_start ph old new n i cc COPY Hs Hb3 Hn b Hb) as [mm ->].
  destruct (copy_loop_ok old new ((n, i) :: todo) last n i mm b xs (Z.to_nat (bd_capacity b)) 0 0 cc) as (cc' & E & Hk & Hg'); try done; try lia; [pose proof (bd_rep_capacity _ _ Hr); lia|].
  by exists cc'.
Qed.
Lemma delete_ok old new n i todo last cc : let ph := Deleting old new ((n, i) :: todo) in sizes ph cc → todo_ok ph cc → good cc (place ph (numChunks_ cc) last) →
  ∃ cc', rehash_bucket DELETE old new n i cc = Ok cc' ∧ kept cc cc' ∧ good cc' (place (Deleting old new todo) (numChunks_ cc) last).
Proof.
  intros ph Hs Ht Hg. destruct (Ht n i) as [Hn Hi]; [by left|]. pose proof Hs as (Hb3 & Enum & _). rewrite Enum in *. destruct (bucket_exists cc _ n i Hg) as [b Hb]; [lia|lia|].
  destruct (g_bucket _ _ Hg n i b ltac:(lia) ltac:(lia) Hb) as (xs & Hr & Hx). destruct (rehash_start ph old new n i cc DELETE Hs Hb3 Hn b Hb) as [mm ->].
  destruct (delete_loop_ok old new todo last n i mm (Z.to_nat (bd_capacity b)) 0 0 cc b xs) as (cc' & b' & xs' & E & Hk & Hg' & Hb' & Hr' & Hx' & Hd); try done; try lia;
    [pose proof (bd_rep_capacity _ _ Hr); lia|by intros k v Hin%elem_of_nil|].
  exists cc'. split; [done|]. split; [done|]. eapply (good_at cc' _ _ n i b' xs'); [exact Hg'|done|done| |].
  - intros k v Hin. destruct (Hx' k v Hin) as (? & ? & HP). split; [done|]. split; [done|]. pose proof (Hd k v Hin). cbn in HP |- *. naive_solver.
  - intros c' i' k v Hne [HP|(? & ? & Hin)]; [by left|]. right. split; [done|]. split; [done|]. by apply elem_of_cons in Hin as [?|?].
Qed.

(** ** Resizing *)
Lemma bucket_of_chunks cc cc' : chunks_ cc' = chunks_ cc → ∀ c i, bucket_of cc' c i = bucket_of cc c i.
Proof. intros E c i. unfold bucket_of. by rewrite E. Qed.
Lemma good_same cc cc' P : chunks_ cc' = chunks_ cc → bucketsPerChunk_ cc' = bucketsPerChunk_ cc → good cc P → good cc' P.
Proof.
  intros Ec Eb [G1 G2 G3]. split; [by rewrite Eb|by rewrite Ec, Eb|]. intros c i b Hc Hi. rewrite (bucket_of_chunks cc cc' Ec). intros Hb.
  destruct (G3 c i b Hc Hi Hb) as (xs & Hr & Hx). exists xs. split; [done|]. intros k v Hin. unfold bucket_index. rewrite Eb. by apply Hx.
Qed.
Lemma good_take cc P n : good cc P → good (with_chunks (take n (chunks_ cc)) cc) P.
Proof.
  intros [G1 G2 G3]. split; [done| |].
  - cbn. intros c ch [Hc _]%lookup_take_Some. by eapply G2.
  - intros c i b Hc Hi Hb. apply (G3 c i b Hc Hi). unfold bucket_of in *. cbn in Hb. destruct (take n (chunks_ cc) !! Z.to_nat c) as [ch|] eqn:E; [|done].
    apply lookup_take_Some in E as [E _]. by rewrite E.
Qed.
Lemma good_zero cc P m : good cc P → good (with_chunks (chunks_ cc ++ replicate m (replicate (Z.to_nat (bucketsPerChunk_ cc)) zeroBucket)) cc) P.
Proof.
  intros [G1 G2 G3]. split; [done| |].
  - cbn. intros c ch [?|[_ [-> _]%lookup_replicate]]%lookup_app_Some; [by eapply G2|]. by rewrite length_replicate.
  - intros c i b Hc Hi Hb. unfold bucket_of in Hb. cbn in Hb. destruct (_ !! Z.to_nat c) as [ch|] eqn:E; [|done]. cbn in Hb. apply lookup_app_Some in E as [E|[_ [-> _]%lookup_replicate]].
    + apply (G3 c i b Hc Hi). unfold bucket_of. by rewrite E.
    + apply lookup_replicate in Hb as [-> _]. exists []. split; [apply bd_rep_zero|]. by intros k v Hin%elem_of_nil.
Qed.
Lemma good_empty cc P Q : getNumChunks cc = 0 → good cc P → good cc Q.
Proof.
  intros E [G1 G2 G3]. split; [done|done|]. intros c i b Hc Hi Hb. exfalso. unfold bucket_of in Hb. unfold getNumChunks in E. destruct (chunks_ cc); [done|cbn in E; lia].
Qed.
Lemma alloc_resize_ok n granted cc P : 0 ≤ n → good cc P → let cc' := alloc_resize n granted cc in
  good cc' P ∧ bucketsPerChunk_ cc' = bucketsPerChunk_ cc ∧ numChunks_ cc' = numChunks_ cc ∧ pendingNumChunks_ cc' = pendingNumChunks_ cc ∧
  if n <? getNumChunks cc then getNumChunks cc' = n else getNumChunks cc ≤ getNumChunks cc' ≤ n.
Proof.
  intros Hn Hg cc'. unfold cc', alloc_resize, getNumChunks. destruct (Z.ltb_spec n (Z.of_nat (length (chunks_ cc)))) as [Hlt|Hge].
  - split; [by apply good_take|]. do 3 (split; [done|]). cbn. rewrite length_take. lia.
  - split; [by apply good_zero|]. do 3 (split; [done|]). cbn. rewrite length_app, length_replicate. lia.
Qed.
Lemma in_all_buckets n bpc c i : (c, i) ∈ all_buckets n bpc ↔ 0 ≤ c < n ∧ 0 ≤ i < bpc.
Proof.
  unfold all_buckets. rewrite list_elem_of_bind. split.
  - intros (c' & (i' & [= -> ->] & Hi%elem_of_seqZ)%list_elem_of_fmap & Hc%elem_of_seqZ). lia.
  - intros [Hc Hi]. exists c. split; [|apply elem_of_seqZ; lia]. apply list_elem_of_fmap. exists i. split; [done|apply elem_of_seqZ; lia].
Qed.

Record cc_inv (ph : Phase) cc (last : Key → option Value) : Prop := {
  ci_sizes : sizes ph cc;
  ci_todo : todo_ok ph cc;
  ci_good : good cc (place ph (numChunks_ cc) last);
}.
Lemma resize_begin_ok cc last wanted granted : cc_inv Idle cc last → 0 ≤ wanted ≤ 2 ^ 23 →
  ∃ ph' cc', resize_begin (numChunks_ cc) wanted wanted granted cc = Ok (ph', cc') ∧ cc_inv ph' cc' last.
Proof.
  intros [(Hn & Hp & Hc) _ Hg] Hw. unfold resize_begin. destruct (Z.eqb_spec (numChunks_ cc) wanted) as [|Hne]; [by exists Idle, cc|].
  destruct (alloc_resize_ok wanted granted cc _ ltac:(lia) Hg) as (Hg1 & Eb & En & Ep & El). set (cc1 := alloc_resize wanted granted cc) in *. rewrite Hc in El.
  destruct (Z.ltb_spec (numChunks_ cc) wanted) as [Hlt|Hge]; cbn [andb].
  - destruct (Z.ltb_spec wanted (numChunks_ cc)); [lia|]. destruct (Z.eqb_spec (getNumChunks cc1) (numChunks_ cc)) as [E1|E1].
    { destruct (Z.eqb_spec (getNumChunks cc1) wanted); [lia|]. cbn [negb andb]. exists Idle, cc1. split; [done|]. split; [unfold sizes; lia|done|by rewrite En]. }
    rewrite andb_false_r. cbn [negb xdcheck mbind result_bind]. rewrite Ep, Hp. cbn [Z.eqb xdcheck mbind result_bind].
    destruct (Z.ltb_spec 0 (getNumChunks cc1)); [|lia]. destruct (Z.ltb_spec 0 (numChunks_ cc)); cbn [andb].
    + eexists _, _. split; [done|]. split; [| |].
      * unfold sizes. cbn. rewrite En. change (getNumChunks (with_pending ?x cc1)) with (getNumChunks cc1). lia.
      * intros c i. by rewrite in_all_buckets.
      * eapply (good_same cc1); [done|done|]. eapply good_mono; [exact Hg1|]. intros c i k v _ _ [-> ?]. split; [by left|done].
    + destruct (Z.ltb_spec (getNumChunks cc1) (numChunks_ cc)); [lia|]. exists Idle, (with_num (getNumChunks cc1) cc1). split; [done|]. split; [|done|].
      * unfold sizes. cbn. rewrite Ep. change (getNumChunks (with_num ?x cc1)) with (getNumChunks cc1). lia.
      * eapply (good_same cc1); [done|done|]. unfold cc1, alloc_resize. rewrite Hc. destruct (Z.ltb_spec wanted (numChunks_ cc)); [lia|]. apply good_zero. eapply good_empty; [|exact Hg]. lia.
  - destruct (Z.eqb_spec wanted (numChunks_ cc)); [lia|]. cbn [negb xdcheck mbind result_bind]. rewrite Hp. cbn [Z.eqb xdcheck mbind result_bind].
    destruct (Z.ltb_spec 0 (numChunks_ cc)); [|lia]. destruct (Z.ltb_spec 0 wanted); cbn [andb].
    + eexists _, _. split; [done|]. split; [| |].
      * unfold sizes. cbn. change (getNumChunks (with_pending ?x cc)) with (getNumChunks cc). lia.
      * intros c i. by rewrite in_all_buckets.
      * eapply (good_same cc); [done|done|]. eapply good_mono; [exact Hg|]. intros c i k v _ _ [-> ?]. split; [by left|done].
    + destruct (Z.ltb_spec wanted (numChunks_ cc)); [|lia]. eexists _, _. split; [done|].
      destruct (alloc_resize_ok wanted granted (with_num wanted cc) (place Idle (numChunks_ cc) last) ltac:(lia)) as (Hg2 & Eb2 & En2 & Ep2 & El2); [by eapply good_same; [| |exact Hg]|].
      change (getNumChunks (with_num wanted cc)) with (getNumChunks cc) in El2. rewrite Hc in El2. destruct (Z.ltb_spec wanted (numChunks_ cc)); [|lia]. split; [|done|].
      * unfold sizes. rewrite En2, Ep2. cbn. lia.
      * eapply good_empty; [|exact Hg2]. lia.
Qed.
Definition resizing_to (ph : Phase) (configured : Z) : Prop :=
  match ph with Idle => True | Copying _ new _ | Switched _ new | Deleting _ new _ => configured = new end.
Lemma resize_step_ok ph cc last configured granted : cc_inv ph cc last → resizing_to ph configured →
  ∃ ph' cc', resize_step ph configured granted cc = Ok (ph', cc') ∧ cc_inv ph' cc' last.
Proof.
  intros [Hs Ht Hg] Hr. destruct ph as [|old new [|[n i] todo]|old new|old new [|[n i] todo]]; cbn [resize_step].
  - by exists Idle, cc.
  - eexists _, _. split; [done|]. destruct Hs as (Hb & En & Ep). split; [unfold sizes; cbn; split; [done|by split]|done|]. eapply (good_same cc); [done|done|]. eapply good_mono; [exact Hg|].
    intros c i k v _ _ [Hc Hl]. cbn. destruct (decide (c = furc k new)); [by left|]. right. split; [done|]. by destruct Hc.
  - destruct (copy_ok old new n i todo last cc Hs Ht Hg) as (cc' & -> & Hk & Hg'). cbn [mbind result_bind]. eexists _, cc'. split; [done|]. split.
    + by eapply sizes_kept.
    + eapply todo_kept; [|done]. intros c' i' Hin. apply Ht. by right.
    + by rewrite (k_num _ _ Hk).
  - eexists _, _. split; [done|]. destruct Hs as (Hb & En & Ep). split; [unfold sizes; cbn; split; [done|by split]| |].
    + intros c i. cbn. by rewrite in_all_buckets.
    + eapply (good_same cc); [done|done|]. eapply good_mono; [exact Hg|]. intros c i k v Hi0 Hix [?|[? ->]]; [by left|]. right. split; [done|]. split; [done|]. apply in_all_buckets.
      split; [apply furc_ok; apply Hb|]. rewrite <- Hix. apply bucket_index_range, Hg.
  - destruct Hs as (Hb & En & Ep). assert (good cc (place Idle new last)) as Hg0.
    { eapply good_mono; [exact Hg|]. intros c i k v _ _ [?|(_ & _ & Hin%elem_of_nil)]; [done|by destruct Hin]. }
    eexists Idle, _. split; [done|]. cbn in Hr. destruct (Z.ltb_spec new old).
    + destruct (alloc_resize_ok configured granted cc _ ltac:(lia) Hg0) as (Hg1 & _ & En1 & Ep1 & El). destruct (Z.ltb_spec configured (getNumChunks cc)); [|lia].
      split; [unfold sizes; rewrite En1, Ep1; lia|done|]. by rewrite En1, En.
    + split; [unfold sizes; lia|done|by rewrite En].
  - destruct (delete_ok old new n i todo last cc Hs Ht Hg) as (cc' & -> & Hk & Hg'). cbn [mbind result_bind]. eexists _, cc'. split; [done|]. split.
    + by eapply sizes_kept.
    + eapply todo_kept; [|done]. intros c' i' Hin. apply Ht. by right.
    + by rewrite (k_num _ _ Hk).
Qed.

(** ** Purging *)
Lemma purge_bucket_ok shouldPurge cc fuel : ∀ b xs pos, bd_rep b xs → (length xs ≤ pos + fuel)%nat →
  ∃ rv evs b' xs', purge_bucket fuel shouldPurge cc b (Z.of_nat pos) = Ok (rv, evs, b') ∧ bd_rep b' xs' ∧ ∀ k v, (k, v) ∈ xs' → (k, v) ∈ xs.
Proof.
  induction fuel as [|fuel IH]; intros b xs pos Hr Hl; cbn [purge_bucket]; rewrite (bd_valid_law _ _ _ Hr).
  { rewrite bool_decide_eq_false_2 by lia. by eexists _, _, b, xs. }
  case_bool_decide as Hp; [|by eexists _, _, b, xs]. destruct (lookup_lt_is_Some_2 xs pos) as [[k v] He]; [lia|]. destruct (bd_entry_law _ _ _ _ _ Hr He) as [-> ->]. cbn [mbind result_bind].
  destruct (shouldPurge _ _); [|destruct (bd_del_law b xs pos Hr) as (b1 & -> & Hr1); [lia|]; cbn [mbind result_bind]|by eexists _, _, b, xs].
  - replace (Z.of_nat pos + 1) with (Z.of_nat (S pos)) by lia. apply IH; [done|lia].
  - destruct (IH b1 (delete pos xs) pos Hr1) as (rv & evs & b' & xs' & -> & Hr' & Hin); [rewrite length_delete by (by eexists); lia|]. cbn [mbind result_bind].
    eexists _, _, b', xs'. split; [done|]. split; [done|]. intros k' v' H. by eapply (in_delete xs pos k v); [eapply bd_rep_keys| |apply Hin].
Qed.
Lemma purge_all_ok shouldPurge P todo : ∀ cc, good cc P → (∀ c i, (c, i) ∈ todo → 0 ≤ c < getNumChunks cc ∧ 0 ≤ i < bucketsPerChunk_ cc) →
  ∃ rv cc', purge_all shouldPurge todo cc = Ok (rv, cc') ∧ kept cc cc' ∧ good cc' P.
Proof.
  induction todo as [|[c i] todo IH]; intros cc Hg Ht; cbn [purge_all]; [by eexists _, cc|]. destruct (Ht c i) as [Hc Hi]; [by left|].
  unfold getChunk. destruct (Z.leb_spec (getNumChunks cc) c); [lia|]. cbn [throw_if mbind result_bind]. destruct (bucket_exists cc P c i Hg Hc Hi) as [b Hb]. rewrite Hb. cbn [deref mbind result_bind].
  destruct (g_bucket _ _ Hg c i b ltac:(lia) ltac:(lia) Hb) as (xs & Hr & Hx).
  destruct (purge_bucket_ok shouldPurge cc (Z.to_nat (bd_capacity b)) b xs 0 Hr) as (rv & evs & b' & xs' & E & Hr' & Hin); [pose proof (bd_rep_capacity _ _ Hr); lia|].
  change (Z.of_nat 0) with 0 in E. rewrite E. cbn [mbind result_bind]. set (cc1 := with_callbacks evs (put_bucket c i b' cc)).
  assert (kept cc cc1) as Hk by (eapply cc_kept_trans; [apply kept_put|done]).
  assert (good cc1 P) as Hg1. { apply good_callbacks. eapply (good_put cc P P c i b' xs'); [done|by eexists|lia|lia|done| |done]. intros k v H0. by apply Hx, Hin. }
  destruct rv; [|by eexists _, cc1]. destruct (IH cc1 Hg1) as (rv & cc' & E' & Hk' & Hg'); [|exists rv, cc'; split; [done|]; split; [by eapply cc_kept_trans|done]].
  intros c' i' Hin'. rewrite (k_chunks _ _ Hk), (k_bpc _ _ Hk). apply Ht. by right.
Qed.

(** ** The cache and its clients *)
Record CState := mkCS { cs_phase : Phase; cs_cc : CompactCache; cs_last : Key → option Value }.
Inductive ccop :=
  | CSet key (val : option Value) (size : Z) (owns : bool)
  | CDel key (want owns : bool)
  | CGet key (want shouldPromote owns ownsPromote : bool)
  | CExists key (owns : bool)
  | CPurge (shouldPurge : Key → option Value → PurgeFilterResult)
  | CResize (oldNumChunks wanted configured : Z) (granted : nat) (** a resize starts *)
  | CStep (configured : Z) (granted : nat).                    (** and goes on *)
Inductive ccret := RRet (r : CCacheReturn) (out : option Value) | RPurged (b : bool) | RResize.
Definition done_write (r : CCacheReturn) : bool := match r with NOTFOUND | FOUND => true | _ => false end.
Definition cc_step (o : ccop) (st : CState) : result (ccret * CState) :=
  let 'mkCS ph cc last := st in
  match o with
  | CSet key val size owns =>
      '(r, out, cc) ← set key val size owns cc; Ok (RRet r out, mkCS ph cc (if done_write r then upd last key (Some (given val)) else last))
  | CDel key want owns => '(r, out, cc) ← del key want owns cc; Ok (RRet r out, mkCS ph cc (if done_write r then upd last key None else last))
  | CGet key want p owns ownsP => '(r, out, cc) ← get key want p owns ownsP cc; Ok (RRet r out, mkCS ph cc last)
  | CExists key owns => '(r, out, cc) ← exists_ key owns cc; Ok (RRet r out, mkCS ph cc last)
  | CPurge f => '(b, cc) ← purge f cc; Ok (RPurged b, mkCS ph cc last)
  | CResize old wanted configured granted => '(ph, cc) ← resize_begin old wanted configured granted cc; Ok (RResize, mkCS ph cc last)
  | CStep configured granted => '(ph, cc) ← resize_step ph configured granted cc; Ok (RResize, mkCS ph cc last)
  end.
(** Keys are not empty.  Purging and starting a resize wait for the resize lock.  No
    other resize ran since this one read [numChunks_], and the configured size does
    not change from where a resize reads it to its end: the code checks neither, and
    [resize_with_stale_size] and [resize_rereads_size] show what happens then. *)
Definition ccop_ok (o : ccop) (st : CState) : Prop :=
  match o with
  | CSet key _ _ _ | CDel key _ _ => isEmpty key = false
  | CPurge _ => cs_phase st = Idle
  | CResize old wanted configured _ => cs_phase st = Idle ∧ old = numChunks_ (cs_cc st) ∧ 0 ≤ wanted ≤ 2 ^ 23 ∧ configured = wanted
  | CStep configured _ => resizing_to (cs_phase st) configured
  | _ => True
  end.
(** A new cache over [n] chunks. *)
Definition CompactCache_new (n : nat) (bucketsPerChunk : Z) (allowPromotions removeCb replaceCb : bool) (validCb : option (Key → bool)) : CompactCache :=
  mkCC (replicate n (replicate (Z.to_nat bucketsPerChunk) zeroBucket)) bucketsPerChunk (Z.of_nat n) 0 allowPromotions removeCb replaceCb validCb [].
Definition cc_start (st : CState) : Prop := ∃ n bpc ap rm rp va, (Z.of_nat n ≤ 2 ^ 23) ∧ 0 < bpc ∧ st = mkCS Idle (CompactCache_new n bpc ap rm rp va) (λ _, None).
Definition cc_rel (st st' : CState) : Prop := ∃ o ret, ccop_ok o st ∧ cc_step o st = Ok (ret, st').
Definition cc_reachable (st : CState) : Prop := ∃ st0, cc_start st0 ∧ rtc cc_rel st0 st.

Definition served key (want : bool) (o : option Value) (ret : ccret) : Prop :=
  match ret with
  | RRet FOUND out => ∃ v, o = Some v ∧ out = if kHasValues && want then Some v else None
  | RRet _ out => out = None
  | _ => False
  end.
Definition cc_spec (o : ccop) (st : CState) (ret : ccret) (st' : CState) : Prop :=
  match o with
  | CGet key want _ _ _ => served key want (cs_last st key) ret
  | CExists key _ => served key false (cs_last st key) ret
  | CSet key val _ _ => ∃ r out, ret = RRet r out ∧ (done_write r = true → ∀ want p ownsP, ∃ st'',
      cc_step (CGet key want p true ownsP) st' = Ok (RRet FOUND (if kHasValues && want then Some (given val) else None), st''))
  | CDel key want _ => ∃ r out, ret = RRet r out ∧ (∀ v, out = Some v → cs_last st key = Some v) ∧
      (done_write r = true → ∀ want p ownsP, ∃ st'', cc_step (CGet key want p true ownsP) st' = Ok (RRet NOTFOUND None, st''))
  | _ => True
  end.

(** A request that is not carried out. *)
Lemma cc_call_none ph cc last key op ownsP f : sizes ph cc → good cc (place ph (numChunks_ cc) last) → numChunks_ cc = 0 →
  callBucketFn key op true ownsP f cc = Ok (ERROR, None, cc).
Proof. intros _ _ E. unfold callBucketFn. by rewrite E. Qed.
Lemma call_unlocked ph cc key op ownsP f : sizes ph cc → ∃ r, callBucketFn key op false ownsP f cc = Ok (r, None, cc) ∧ done_write r = false.
Proof.
  intros Hs. unfold callBucketFn. pose proof (sizes_num ph cc Hs) as [H1 H2]. destruct (Z.eqb_spec (numChunks_ cc) 0); [by eexists|]. rewrite tableFindChunk_ok by lia. by eexists.
Qed.
Lemma call_error ph cc last key ownsP f : sizes ph cc → good cc (place ph (numChunks_ cc) last) → numChunks_ cc ≠ 0 → (∀ b, f b = Ok (BR_ERROR, None, [], b)) →
  ∃ cc', callBucketFn key WRITE true ownsP f cc = Ok (ERROR, None, cc') ∧ kept cc cc' ∧ good cc' (place ph (numChunks_ cc) last).
Proof.
  intros Hs Hg Hn Hf. pose proof (sizes_num ph cc Hs) as [Hn1 Hn2].
  assert (∀ cc0 c, kept cc cc0 → good cc0 (place ph (numChunks_ cc) last) → 0 ≤ c < getNumChunks cc →
    ∃ cc1, on_bucket c (bucket_index key cc) f cc0 = Ok (BR_ERROR, None, cc1) ∧ kept cc cc1 ∧ good cc1 (place ph (numChunks_ cc) last)) as Hon.
  { intros cc0 c Hk Hg0 Hc. pose proof (bucket_index_range key cc (g_bpc _ _ Hg)) as Hi. destruct (bucket_exists cc0 _ c (bucket_index key cc) Hg0) as [b Hb]; [rewrite (k_chunks _ _ Hk); lia|rewrite (k_bpc _ _ Hk); lia|].
    unfold on_bucket. rewrite Hb. cbn [deref mbind result_bind]. rewrite Hf. cbn [mbind result_bind]. eexists. split; [done|]. split; [eapply cc_kept_trans; [done|]; eapply cc_kept_trans; [apply kept_put|done]|].
    apply good_callbacks. destruct (g_bucket _ _ Hg0 c (bucket_index key cc) b ltac:(lia) ltac:(lia) Hb) as (xs & Hr & Hx). eapply (good_put cc0 _ _ c (bucket_index key cc) b xs); [done|by eexists|lia|lia|done|done|done]. }
  destruct (furc_ok key (numChunks_ cc)) as [_ Hc]; [lia|]. unfold callBucketFn. destruct (Z.eqb_spec (numChunks_ cc) 0); [lia|]. rewrite tableFindChunk_ok by lia. cbn [mbind result_bind negb].
  destruct (Hon cc (furc key (numChunks_ cc)) (cc_kept_refl cc) Hg) as (cc1 & -> & Hk1 & Hg1); [lia|]. cbn [mbind result_bind]. rewrite decide_False by done. cbn [mbind result_bind]. rewrite decide_True by done.
  rewrite (tableFindDbl_ok ph) by by eapply sizes_kept. cbn [mbind result_bind]. destruct (dbl_of ph key) as [c2|] eqn:Ed; [|cbn; by exists cc1].
  destruct (Hon cc1 c2 Hk1 Hg1) as (cc2 & -> & Hk2 & Hg2); [|cbn [mbind result_bind]; rewrite decide_True by done; cbn; by exists cc2].
  destruct ph as [|old new todo|old new|old new todo]; try done. cbn in Hs, Ed. case_decide; [done|]. injection Ed as <-. destruct (furc_ok key new) as [_ ?]; lia.
Qed.
Lemma served_get ph cc last key want p owns ownsP : cc_inv ph cc last → ∃ ret cc', cc_step (CGet key want p owns ownsP) (mkCS ph cc last) = Ok (ret, mkCS ph cc' last) ∧
  cc_inv ph cc' last ∧ served key want (last key) ret.
Proof.
  intros [Hs Ht Hg]. cbn [cc_step]. unfold get. destruct owns.
  - destruct (decide (numChunks_ cc = 0)) as [E0|E0]; [rewrite (cc_call_none ph cc last) by done; by eexists _, cc|].
    destruct (call_get ph cc last key want p ownsP Hs Hg E0) as (ret & out & cc' & b & xs & -> & Hk & Hg' & _ & _ & Hret). cbn [mbind result_bind]. eexists _, cc'. split; [done|].
    split; [split; [by eapply sizes_kept|by eapply todo_kept|by rewrite (k_num _ _ Hk)]|]. destruct Hret as [(-> & _ & ->)|(-> & v & _ & Hl & ->)]; cbn; by eauto.
  - destruct (call_unlocked ph cc key READ ownsP (bucketGet key want p) Hs) as (r & -> & Hr). cbn [mbind result_bind]. eexists _, cc. split; [done|]. split; [by split|]. by destruct r.
Qed.
Lemma served_write ph cc last key o f : cc_inv ph cc last → isEmpty key = false → writes key o f → numChunks_ cc ≠ 0 →
  ∃ r out cc', callBucketFn key WRITE true false f cc = Ok (r, out, cc') ∧ done_write r = true ∧ cc_inv ph cc' (upd last key o) ∧ (∀ v, out = Some v → last key = Some v) ∧
    ∀ want p ownsP, ∃ st'', cc_step (CGet key want p true ownsP) (mkCS ph cc' (upd last key o)) =
      Ok (match o with Some v => RRet FOUND (if kHasValues && want then Some v else None) | None => RRet NOTFOUND None end, st'').
Proof.
  intros [Hs Ht Hg] Hk Hf E0. destruct (call_writes ph cc last key o false f Hs Hg E0 Hk Hf) as (ret & out & cc' & b & xs & E & Hkept & Hret & Hg' & Hb & Hr & Ho & Hout).
  exists ret, out, cc'. split; [done|]. split; [by destruct Hret as [-> | ->]|]. split; [split; [by eapply sizes_kept|by eapply todo_kept|by rewrite (k_num _ _ Hkept)]|]. split; [done|].
  intros want p ownsP. cbn [cc_step]. unfold get. destruct (call_get ph cc' (upd last key o) key want p ownsP) as (r2 & out2 & cc2 & b2 & xs2 & -> & _ & _ & Hb2 & Hr2 & Hret2);
    [by eapply sizes_kept|by rewrite (k_num _ _ Hkept)|by rewrite (k_num _ _ Hkept)|]. cbn [mbind result_bind]. eexists. f_equal. f_equal.
  rewrite (k_num _ _ Hkept), Hb in Hb2. injection Hb2 as <-. pose proof (rep_unique _ _ _ Hr Hr2) as <-. unfold upd in Hret2. rewrite decide_True in Hret2 by done.
  destruct Hret2 as [(-> & Hin & ->)|(-> & v & _ & -> & ->)]; [|done]. destruct o as [v|]; [|done]. destruct Hin. apply list_elem_of_fmap. exists (key, v). split; [done|by apply Ho].
Qed.
Lemma cc_step_ok o st : cc_inv (cs_phase st) (cs_cc st) (cs_last st) → ccop_ok o st →
  ∃ ret st', cc_step o st = Ok (ret, st') ∧ cc_inv (cs_phase st') (cs_cc st') (cs_last st') ∧ cc_spec o st ret st'.
Proof.
  destruct st as [ph cc last]. cbn [cs_phase cs_cc cs_last]. intros Hinv Hok. pose proof Hinv as [Hs Ht Hg]. destruct o as [key val size owns|key want owns|key want p owns ownsP|key owns|f|old wanted configured granted|configured granted]; cbn in Hok.
  - cbn [cc_step cc_spec]. unfold set. destruct owns; [|destruct (call_unlocked ph cc key WRITE false (bucketSet cc key val size) Hs) as (r & -> & Hr); cbn [mbind result_bind]; rewrite Hr; eexists _, _; split; [done|]; split; [done|]; eexists r, _; split; [done|congruence]].
    destruct (decide (numChunks_ cc = 0)) as [E0|E0]; [rewrite (cc_call_none ph cc last) by done; eexists _, _; split; [done|]; split; [done|]; by eexists ERROR, _|].
    destruct ((kHasValues && negb (bool_decide (is_Some val))) || (negb (size =? 0) && negb (size =? sizeof_Value))) eqn:Earg.
    + destruct (call_error ph cc last key false (bucketSet cc key val size) Hs Hg E0) as (cc' & -> & Hk & Hg'); [intros b; unfold bucketSet; by rewrite Earg|]. cbn [mbind result_bind].
      eexists _, _. split; [done|]. cbn [cs_phase cs_cc cs_last done_write]. split; [split; [by eapply sizes_kept|by eapply todo_kept|by rewrite (k_num _ _ Hk)]|]. by eexists ERROR, _.
    + apply orb_false_iff in Earg as [Ev Esz]. assert (val_ok val) as Hv. { unfold val_ok. intros E. rewrite E in Ev. by destruct val. }
      assert (size_ok size) as Hsz. { unfold size_ok. destruct (Z.eqb_spec size 0); [by left|]. destruct (Z.eqb_spec size sizeof_Value); [by right|done]. }
      destruct (served_write ph cc last key (Some (given val)) (bucketSet cc key val size) Hinv Hok) as (r & out & cc' & E & Hd & Hinv' & Hout & Hget); [by apply bucketSet_writes|done|].
      rewrite E. cbn [mbind result_bind]. rewrite Hd. eexists _, _. split; [done|]. split; [done|]. exists r, out. split; [done|]. intros _ want p ownsP. apply Hget.
  - cbn [cc_step cc_spec]. unfold del. destruct owns; [|destruct (call_unlocked ph cc key WRITE false (bucketDel cc key want) Hs) as (r & -> & Hr); cbn [mbind result_bind]; rewrite Hr; eexists _, _; split; [done|]; split; [done|]; eexists r, _; split; [done|]; split; [done|congruence]].
    destruct (decide (numChunks_ cc = 0)) as [E0|E0]; [rewrite (cc_call_none ph cc last) by done; eexists _, _; split; [done|]; split; [done|]; by eexists ERROR, _|].
    destruct (served_write ph cc last key None (bucketDel cc key want) Hinv Hok) as (r & out & cc' & -> & Hd & Hinv' & Hout & Hget); [by apply bucketDel_writes|done|].
    cbn [mbind result_bind]. rewrite Hd. eexists _, _. split; [done|]. split; [done|]. exists r, out. split; [done|]. split; [done|]. intros _ w p ownsP. apply Hget.
  - destruct (served_get ph cc last key want p owns ownsP Hinv) as (ret & cc' & -> & Hinv' & Hsv). by eexists _, _.
  - destruct (served_get ph cc last key false false owns false Hinv) as (ret & cc' & E & Hinv' & Hsv). exists ret. eexists. by split; [exact E|].
  - subst ph. destruct Hs as (H1 & H2 & H3). cbn [cc_step]. unfold purge. rewrite H2. cbn [Z.eqb xdcheck mbind result_bind].
    destruct (purge_all_ok f _ (all_buckets (numChunks_ cc) (bucketsPerChunk_ cc)) cc Hg) as (rv & cc' & -> & Hk & Hg'); [intros c i; rewrite in_all_buckets; lia|]. cbn [mbind result_bind].
    eexists _, _. split; [done|]. split; [|done]. split; [by eapply (sizes_kept Idle cc)|done|]. cbn [cs_phase cs_cc cs_last]. by rewrite (k_num _ _ Hk).
  - destruct Hok as (-> & -> & Hw & ->). cbn [cc_step cs_cc]. destruct (resize_begin_ok cc last wanted granted Hinv Hw) as (ph' & cc' & -> & Hinv'). by eexists _, _.
  - cbn [cc_step]. destruct (resize_step_ok ph cc last configured granted Hinv Hok) as (ph' & cc' & -> & Hinv'). by eexists _, _.
Qed.

Lemma cc_start_inv st : cc_start st → cc_inv (cs_phase st) (cs_cc st) (cs_last st).
Proof.
  intros (n & bpc & ap & rm & rp & va & Hn & Hb & ->). split; [|done|].
  - unfold sizes. cbn. unfold getNumChunks. cbn. rewrite length_replicate. lia.
  - pose proof (good_zero (mkCC [] bpc 0 0 ap rm rp va []) (place Idle (Z.of_nat n) (λ _, None)) n) as Hz. eapply good_same; [| |apply Hz]; [done|done|]. split; [done|done|]. by intros c i b _ _.
Qed.
Lemma cc_reachable_inv st : cc_reachable st → cc_inv (cs_phase st) (cs_cc st) (cs_last st).
Proof.
  intros (st0 & H0 & Hr). apply cc_start_inv in H0. induction Hr as [|st1 st2 st3 (o & ret & Hok & E) _ IH]; [done|]. apply IH.
  destruct (cc_step_ok o st1 H0 Hok) as (ret' & st' & E' & Hinv & _). rewrite E in E'. by injection E' as _ ->.
Qed.
(** C6: a compact cache never serves a stale value.  Under any interleaving of set,
    del, get, exists and purge with the steps of resizes, growing and shrinking,
    that run one after the other, each with a configured size that does not change
    while it runs: every request returns without failed debug check, exception or
    access out of bounds; what get and del return for a key is the value last written
    for it; and right after a successful set or del, a get finds the new value or
    nothing.  It holds for any buckets of fixed-size values that meet their
    interface. *)
Theorem ccache_never_stale st o : cc_reachable st → ccop_ok o st → ∃ ret st', cc_step o st = Ok (ret, st') ∧ cc_spec o st ret st' ∧ cc_reachable st'.
Proof.
  intros Hr Hok. destruct (cc_step_ok o st (cc_reachable_inv st Hr) Hok) as (ret & st' & E & _ & Hsp). exists ret, st'. split; [done|]. split; [done|].
  destruct Hr as (st0 & H0 & Hr). exists st0. split; [done|]. eapply rtc_r; [done|]. by exists o, ret.
Qed.

(** A run of permitted steps. *)
Definition ccop_okb (o : ccop) (st : CState) : bool :=
  match o with
  | CSet key _ _ _ | CDel key _ _ => negb (isEmpty key)
  | CPurge _ => match cs_phase st with Idle => true | _ => false end
  | CResize old wanted configured _ =>
      match cs_phase st with Idle => true | _ => false end && (old =? numChunks_ (cs_cc st)) && ((0 <=? wanted) && (wanted <=? 2 ^ 23)) && (configured =? wanted)
  | CStep configured _ => match cs_phase st with Idle => true | Copying _ new _ | Switched _ new | Deleting _ new _ => configured =? new end
  | _ => true
  end.
Lemma ccop_okb_sound o st : ccop_okb o st = true → ccop_ok o st.
Proof.
  destruct o, st as [ph cc last]; cbn; try done; try (by intros ?%negb_true_iff); try (by destruct ph).
  - intros [[[Hp ?%Z.eqb_eq]%andb_prop [?%Z.leb_le ?%Z.leb_le]%andb_prop]%andb_prop ?%Z.eqb_eq]%andb_prop. by destruct ph.
  - destruct ph; cbn; [done|..]; by intros ?%Z.eqb_eq.
Qed.
Fixpoint cc_run (ops : list ccop) (st : CState) : option CState :=
  match ops with
  | [] => Some st
  | o :: ops => if ccop_okb o st then match cc_step o st with Ok (_, st) => cc_run ops st | _ => None end else None
  end.
Lemma cc_run_rtc ops : ∀ st st', cc_run ops st = Some st' → rtc cc_rel st st'.
Proof.
  induction ops as [|o ops IH]; intros st st'; cbn; [by intros [= ->]|]. destruct (ccop_okb o st) eqn:Eo; [|done]. destruct (cc_step o st) as [[ret st1]| |] eqn:E; [|done|done].
  intros Hr. eapply rtc_l; [exists o, ret; split; [by apply ccop_okb_sound|done]|by apply IH].
Qed.
End spec.

(** ** Runs, with buckets of two entries *)
#[local] Existing Instance cex_desc.
#[local] Existing Instance cex_laws.
#[local] Instance cex_bucket : BucketDescriptor := FixedLruBucket 2.
#[local] Instance cex_bucket_laws : BucketLaws := FixedLruLaws 2 ltac:(lia).
Definition cex_new (n : nat) : CState := mkCS Idle (CompactCache_new n 1 true true false None) (λ _, None).
(** Two entries are written, the cache grows to two chunks, and a value changes
    while entries are copied. *)
Definition cex_ops : list ccop := [CSet (1 : Key) (Some (10 : Value)) 0 true; CSet (2 : Key) (Some (20 : Value)) 0 true; CResize 1 2 2 1; CStep 2 0; CSet (2 : Key) (Some (21 : Value)) 0 true].
Definition cex_st : CState := default (cex_new 1) (cc_run cex_ops (cex_new 1)).
Lemma cex_reachable : cc_reachable cex_st.
Proof.
  exists (cex_new 1). split; [by exists 1%nat, 1, true, true, false, None|]. apply (cc_run_rtc cex_ops). unfold cex_st.
  assert (match cc_run cex_ops (cex_new 1) with Some _ => true | None => false end = true) as E by (vm_compute; reflexivity). by destruct (cc_run cex_ops (cex_new 1)).
Qed.
Lemma ccache_never_stale_witness : ∃ ret st', cc_step (CGet (2 : Key) true true true true) cex_st = Ok (ret, st') ∧ served (2 : Key) true (Some (21 : Value)) ret.
Proof.
  destruct (ccache_never_stale (desc := cex_desc) cex_st (CGet (desc := cex_desc) 2 true true true true) cex_reachable I) as (ret & st' & E & Hs & _). exists ret, st'. split; [exact E|]. exact Hs.
Defined.
(** Steps whether permitted or not. *)
Fixpoint cex_exec (ops : list ccop) (st : CState) : CState :=
  match ops with [] => st | o :: ops => match cc_step o st with Ok (_, st) => cex_exec ops st | _ => st end end.
(** [resize] reads the configured size a second time when it gives chunks back;
    when the pool has shrunk in between, more chunks go than the cache gave up, and
    every request after it fails. *)
Definition shrink_ops (last : Z) : list ccop := CResize 3 2 2 0 :: replicate 8 (CStep 2 0) ++ [CStep last 0].
Lemma resize_rereads_size : let st := cex_exec (shrink_ops 1) (cex_new 3) in
  cs_phase st = Idle ∧ numChunks_ (cs_cc st) = 2 ∧ getNumChunks (cs_cc st) = 1 ∧ cc_step (CGet (1 : Key) true true true true) st = Undef.
Proof. repeat split; vm_compute; reflexivity. Qed.
(** [resize] reads [numChunks_] before it takes the lock.  Of two resizes that have
    both read three chunks and want two, the second starts when the first is done,
    and goes on to copy entries from the chunk that the first gave back. *)
Lemma resize_with_stale_size : let st := cex_exec (shrink_ops 2 ++ [CResize 3 2 2 0; CStep 2 0; CStep 2 0]) (cex_new 3) in
  getNumChunks (cs_cc st) = 2 ∧ cs_phase st = Copying 3 2 [(2, 0)] ∧ cc_step (CStep 2 0) st = Throw InvalidArgument.
Proof. repeat split; vm_compute; reflexivity. Qed.
